(* ===== verification/_CoqProject ===== *)
-Q . S2P
Prelude.v
IrqFlags.v
Kit.v
KitHeap.v
DList.v
Softirq.v
SoftirqConc.v
Irq.v
Timer.v
Sched.v
Process.v
Kmalloc.v
PageCache.v
Skb.v
Filter.v
IoRegion.v
BlockDev.v
Input.v
UsbVhcd.v
Resource.v
FindBit.v
Hweight.v
Bitmap.v
BitmapAlloc.v
BitmapRemap.v
NetlinkAttr.v
SpinLock.v
WaitQueue.v
Completion.v
Workqueue.v
NetGlue.v
Crc32.v
Bitrev.v
Vsprintf.v
RadixTree.v
RadixTreeInv.v
RadixTreeOps.v
RadixTreeRefine.v
RadixTreeTags.v
RadixTreeDelete.v
RadixTreeGang.v
RadixTreeMap.v
Mutex.v
Semaphore.v
Idr.v
IdrTree.v
IdrMap.v
Pci.v
PciBars.v
PciCaps.v
Hid.v
HidParse.v
HidReport.v
HidBits.v
HidInput.v
UsbConfig.v
UsbConfigSafe.v
Rwsem.v
RwsemInv.v
UsbVdev.v
Kthread.v
FileSys.v
Mempool.v
Klist.v
PktSched.v
