(* ===== verification/Prelude.v ===== *)
(** * A verification of the DDE Linux 2.6 kernel environment

    The repository runs drivers of Linux 2.6.20 outside of Linux.  The library
    src/lib/dde_linux26 gives them the kernel functions they call: most files
    under its arch/dde_kit are written for the port and sit on the "DDE kit" of
    the host system; the files under its kernel, lib, net and drivers are Linux
    files with parts replaced; src/linux26 holds unmodified Linux files.  The
    build is for i386 with SMP and HZ = 100, so [int], [long] and pointers have 32
    bits.

    ** The parts and how they interact

    A driver runs in threads of the kit.  Every thread is a virtual CPU of its
    own: [local_irq_disable] only counts (IrqFlags), interrupts are threads that
    call the registered handlers (Irq), and handlers defer work to the softirq
    thread through tasklets (Softirq, SoftirqConc).  Sleeping and waking use a
    semaphore per task (Sched); on top of it are timers (Timer), wait queues
    (WaitQueue), completions (Completion), work queues (Workqueue), mutexes (Mutex),
    semaphores (Semaphore) and reader-writer semaphores (Rwsem); spin locks wrap
    locks of the kit (SpinLock).  Tasks and PIDs are in Process, and kernel threads,
    which use completions to talk to their creators, in Kthread.

    Memory comes from the kit through kmalloc and caches (Kmalloc) and page
    allocation (PageCache); I/O memory and ports through IoRegion, address ranges
    are managed by the resource tree (Resource), and PCI devices are found out about
    and enabled through the configuration space (Pci, PciBars, PciCaps).

    To the client the library offers block devices (BlockDev, on the SCSI layer),
    input events (Input), a virtual USB host controller (UsbVhcd, under the USB
    core) and virtual USB devices (UsbVdev, above it), and it sends and receives network frames (NetGlue).  The USB core reads
    the configurations of a device (UsbConfig), and reports of HID devices, which become
    input events, are described by the device itself (Hid, HidReport).
    Block devices are nodes of a pseudo file system (FileSys).

    Of the unmodified Linux code, packet buffers and socket filters (Skb, Filter),
    netlink attributes (NetlinkAttr), bitmaps and bit search (FindBit,
    Hweight, Bitmap, BitmapAlloc, BitmapRemap), checksums (Crc32, Bitrev),
    formatting (Vsprintf), memory pools (Mempool), lists that may change under an
    iterator (Klist), the packet scheduler (PktSched), radix trees (RadixTree and the files after it) and small
    integer ids (Idr, IdrTree, IdrMap) are modelled.

    ** Which file models which source

    Paths are relative to src/src; dde_kit is lib/dde_linux26/arch/dde_kit.
    - Prelude: machine integers, error numbers, the state-and-fault monad and its
      Hoare triples, families of threads, list lemmas, the hint databases.
    - Kit, KitHeap: the DDE kit, which is not in the repository, as type classes
      ([KitMemory], [KitTimer], [KitHeap]) whose laws are its documented
      behaviour, each with an instance.
    - DList: list_head of include/linux26/linux/list.h.
    - IrqFlags: dde_kit/cli_sti.c.  Softirq, SoftirqConc: dde_kit/softirq.c.
    - Irq: dde_kit/irq.c.  Timer: dde_kit/timer.c.  Sched: dde_kit/sched.c.
    - Process: dde_kit/process.c.  Kmalloc: dde_kit/kmalloc.c, kmem_cache.c,
      vmalloc.c.  PageCache: dde_kit/page_alloc.c.  IoRegion: dde_kit/res.c.
    - BlockDev: dde_kit/scsi.c, usb_storage.c.  Input: dde_kit/evdev.c and
      linux26/drivers/input/input.c.  UsbVhcd: dde_kit/usb_vhcd.c and
      linux26/drivers/usb/core/hcd.c, urb.c.
    - Skb, Filter: linux26/net/core/skbuff.c, filter.c, sock.c.
      NetlinkAttr: linux26/net/netlink/attr.c and include/net/netlink.h.
    - Resource: linux26/kernel/resource.c.
    - FindBit: lib/dde_linux26/lib/find_next_bit.c.  Hweight, Bitmap, BitmapAlloc,
      BitmapRemap: linux26/lib/hweight.c, bitmap.c.
    - SpinLock: include/dde_linux26/linux/spinlock.h.  WaitQueue: lib/dde_linux26/
      kernel/wait.c and sched.c.  Completion: lib/dde_linux26/kernel/sched.c.
      Workqueue: lib/dde_linux26/kernel/workqueue.c.
    - NetGlue: dde_kit/net.c with what it calls of net/core and net/ethernet.
    - Crc32, Bitrev, Vsprintf: linux26/lib/crc32.c, gen_crc32table.c, bitrev.c,
      vsprintf.c, ctype.c.
    - RadixTree: linux26/lib/radix-tree.c.  RadixTreeInv, RadixTreeOps: the invariant
      and what a change of a node does to it; RadixTreeRefine, RadixTreeTags,
      RadixTreeDelete, RadixTreeGang: the operations; RadixTreeMap: the
      refinement of a finite map.
    - Mutex: linux26/kernel/mutex.c, include/linux26-x86/asm/mutex.h.  Semaphore:
      linux26/lib/semaphore-sleepers.c, include/linux26-x86/asm/semaphore.h.
    - Idr: linux26/lib/idr.c.  IdrTree, IdrMap: its trees and the refinement of a
      finite map.
    - Pci: dde_kit/pci.c, linux26/drivers/pci/access.c, pci.c, setup-res.c and
      lib/dde_linux26/drivers/pci/probe.c.  PciBars: base address registers;
      PciCaps: capabilities, enabling and saved state.
    - Hid: the parser of linux26/drivers/hid/hid-core.c, HidParse: its theorems.
      HidReport: the reports of the same file, HidBits, HidInput: their theorems.
    - UsbConfig: linux26/drivers/usb/core/config.c, UsbConfigSafe: its theorems.
    - Rwsem: linux26/lib/rwsem.c, include/linux26-x86/asm/rwsem.h, RwsemInv: its
      theorems.  Kthread: lib/dde_linux26/kernel/kthread.c.
    - Mempool: linux26/mm/mempool.c.  Klist: linux26/lib/klist.c.  PktSched:
      lib/dde_linux26/net/sched/sch_generic.c and its callers in net/core/dev.c.
    - UsbVdev: dde_kit/usb_vdev.c.  FileSys: dde_kit/inodes.c, fs.c and [bdget] of
      lib/dde_linux26/fs/block_dev.c.

    ** How code is modelled

    A C function is a definition with the function's name, in the monad [M] over
    the state of its component; what does not return normally (a NULL or freed
    dereference, [BUG], a failed assertion, an access out of range, a hang) is a
    [fault], so that the theorems can exclude it.  Linked structures are heaps
    of records linked by the fields of the code; the abstract value they stand
    for is given by a representation predicate ([dlist] and the like), and a
    refinement theorem relates every trace of calls to an abstract state.  Values
    that can overflow are kept at their width with [u32], [s32] and so on.
    Concurrent code is a step relation with one step per access to shared words;
    any number of threads is a function from thread numbers to threads, and the
    theorems are invariants of every reachable state.

    ** What the theorems show

    - Concurrency: the softirq thread and the schedulers of tasklets never reach a
      [BUG] and never link a tasklet twice; the pending word, which
      is read and reset in two accesses, loses a wake-up.  Spin locks exclude once
      they are initialised, and not while static locks are being initialised.
      Completions are counted and wake-ups of sleepers, waiters and work queues
      are never lost: threads are stuck only when nothing is left to wait for.
      Work items run once and in order, and a flush of another thread waits for
      earlier ones while nobody takes them off the queue to run them itself.
      A mutex has one holder at a time, a semaphore is never taken too often, and
      neither loses a wake-up.  A writer of a reader-writer semaphore is alone;
      there a wake-up can be lost, and could not with the comparison corrected.  A
      kernel thread is stopped with its own result, and what its creator has on the
      stack is not used after the creator returned.  A memory pool keeps its
      reserve in circulation, and who waits for an element spins, as the sleep is a
      stub in the port.  Packets leave the queue of a device in order, and while they
      are in it the device is stopped, listed for the softirq or attended to, though a
      collision frees them if threads share a processor number, as they do in the port.  An iteration over a klist meets every node
      that stays, whatever is added and removed meanwhile.
    - Refinements: interrupts, timers, PIDs, wait queues, block devices and
      their nodes, and resources implement tables, maps, lists, arrays of blocks and sets of
      disjoint ranges over every sequence of calls.
    - Memory: every valid client of kmalloc gets disjoint, aligned objects; the
      page cache finds the page of every address of it; a URB is given back once;
      the objects of virtual USB devices are accounted for, the lost ones too.
    - Radix trees: every sequence of operations of a caller that respects their
      conditions refines a finite map with two tags per item, keeps the tree well
      formed and loses no node.  Ids: new ids are the least free ones, unless the
      starting id leads to a carry through a layer, and reserved layers suffice.
    - Verified checking: a socket filter accepted by the checker runs without a
      fault and within its length; attached filters are always checked ones.
    - Equivalences and round trips: the word-wise bit functions equal bit-by-bit
      definitions; the table-driven checksums equal the division bit by bit;
      netlink attributes that were put are parsed back, and so are numbers that were
      printed; a received frame reaches the client unchanged.
    - PCI: probing finds the regions of a device and leaves its registers as they
      were; restoring writes them back; the search for a capability ends and finds
      the first one; enabling sets the bits that the regions need.
    - Descriptions by untrusted devices: parsing a HID report descriptor or the
      configurations of a USB device ends without a fault whatever the device
      says and whatever allocations fail, and frees what it allocated; the
      descriptors for which it does not are given by theorems of their own.
      Reports are taken apart to the values that were put in, and the key events of
      reports keep a listener in step with the device.
    - Failures found: theorems about a run or a state in which the code does not do
      what it means to (lost wake-up, dangling descriptor, leaked URB, overlong
      scans, and others) are stated next to the theorems that hold.

    ** Fuel and bounds

    Loops over linked lists take a fuel that the theorems instantiate with the
    length of the list (or the number of objects), so that running out of fuel
    is excluded and not assumed away; [FFuel] is a fault like the others.  The
    softirq loop's bound is the restart limit of the code.  The filter interpreter
    is given as much fuel as the program has instructions, as jumps only go
    forward; attribute parsing as much as the stream has bytes, as every attribute
    has a header, and likewise for descriptors of HID and USB.  Loops over a whole range of 32-bit indices take a binary fuel
    ([loop_pos]) with a measure.  Bitmaps and address ranges are bounded by what the C types
    can index; such bounds are hypotheses and each has a witness.

    ** Not modelled

    The kit itself and hardware are parameters.  The third-party drivers (audio,
    GPU, wireless, USB host controllers, network cards) and the parts of Linux
    above the port that only keep kobjects, sysfs and page tables are left out;
    sched.c, exit.c, sys.c and memory.c are mostly compiled out in the port.  The
    C++ servers and the tests are clients of the library.  Of the port's own
    files, printing, constants, initcalls and stubs that only warn are not
    modelled, nor are the rest of the Linux library, the block layer and the
    rest of the network core, which are original Linux code.
    The [read] and [write] variants of spin locks are the same lock in the port;
    preemption counters are not modelled because preemption is the host's.  Interleavings are sequentially consistent. *)

From Stdlib Require Export ZArith Lia.
From stdpp Require Export base tactics list gmap sets numbers option.

#[global] Open Scope Z_scope.

(** ** Machine integers

    The port is built for i386: [int], [long] and pointers are 32 bits wide
    (include/linux26-x86/asm/types.h). *)

Definition wrap (w z : Z) : Z := z mod 2 ^ w.
Definition u8 (z : Z) : Z := wrap 8 z.
Definition u16 (z : Z) : Z := wrap 16 z.
Definition u32 (z : Z) : Z := wrap 32 z.
Definition u64 (z : Z) : Z := wrap 64 z.
Definition s32 (z : Z) : Z := (z + 2 ^ 31) mod 2 ^ 32 - 2 ^ 31.
Definition bool2Z (b : bool) : Z := if b then 1 else 0.
Definition BITS_PER_LONG : Z := 32.

(** ** Error numbers (include/linux26/asm-generic/errno*.h) *)

Definition EPERM : Z := 1.
Definition ENOENT : Z := 2.
Definition EAGAIN : Z := 11.
Definition ENOMEM : Z := 12.
Definition EFAULT : Z := 14.
Definition EBUSY : Z := 16.
Definition ENODEV : Z := 19.
Definition EINVAL : Z := 22.
Definition EPIPE : Z := 32.
Definition ETIMEDOUT : Z := 110.
Definition EINPROGRESS : Z := 115.

(** ** Faults and the state-and-fault monad

    Code that does not return normally is a value: a dereference of NULL or of
    freed memory, [BUG()], [panic()], a failed [dde_kit_assert], an array
    access out of range, a wait for an event that never comes, or a loop whose
    fuel ran out. *)

Inductive fault :=
| FNull | FFreed | FBug | FPanic | FAssert | FBounds | FDiv | FHang | FFuel.

#[global] Instance fault_eq_dec : EqDecision fault.
Proof. solve_decision. Defined.

Inductive outcome (A : Type) :=
| Done (a : A)
| Fault (f : fault).
Arguments Done {A} _.
Arguments Fault {A} _.

Definition M (S A : Type) : Type := S → outcome (A * S).

#[global] Instance M_ret S : MRet (M S) := λ A a s, Done (a, s).
#[global] Instance M_bind S : MBind (M S) := λ A B f m s,
  match m s with
  | Done (a, s') => f a s'
  | Fault e => Fault e
  end.

Definition fail {S A} (e : fault) : M S A := λ _, Fault e.
Definition get {S} : M S S := λ s, Done (s, s).
Definition put {S} (s : S) : M S unit := λ _, Done (tt, s).
Definition gets {S A} (f : S → A) : M S A := λ s, Done (f s, s).
Definition modify {S} (f : S → S) : M S unit := λ s, Done (tt, f s).
Definition assert {S} (e : fault) (b : bool) : M S unit :=
  if b then mret tt else fail e.

(** Total correctness: from a state satisfying [P] the computation finishes
    without a fault in a state satisfying [Q]. *)
Definition triple {S A} (P : S → Prop) (m : M S A) (Q : A → S → Prop) : Prop :=
  ∀ s, P s → match m s with Done (a, s') => Q a s' | Fault _ => False end.

(** Run a list of computations in order. *)
Fixpoint seqM {S} (ms : list (M S unit)) : M S unit :=
  match ms with
  | [] => mret tt
  | m :: ms => m ;; seqM ms
  end.

(** ** Pointers and intrusive singly linked lists

    A pointer to an object of the heap is an [option loc], NULL being [None].
    [lseg h p L] says that following the [next] fields from [p] in the heap [h]
    visits exactly the objects [L] and ends in NULL. *)

Definition loc : Type := positive.

Section LinkedList.
Context {A : Type} (next : A → option loc).
Implicit Types (h : gmap loc A) (p : option loc) (L : list loc).

Fixpoint lseg h p L : Prop :=
  match L with
  | [] => p = None
  | x :: L' => p = Some x ∧ ∃ a, h !! x = Some a ∧ lseg h (next a) L'
  end.

End LinkedList.

(** ** Hint databases *)

Create HintDb dde.
Create HintDb lists.
Create Rewrite HintDb dde_rw.

(** ** Tactics *)

(** Decompose a bind that is known to finish. *)
Ltac inv_bind H :=
  unfold mbind, M_bind in H;
  match type of H with
  | match ?m with _ => _ end = Done _ =>
      let E := fresh "E" in destruct m as [[? ?]|?] eqn:E; [|discriminate]
  end.

(** Unfold the monad to expose the next step. *)
Ltac run_simpl :=
  unfold assert, fail, gets, modify in *; unfold mbind, M_bind, mret, M_ret in *;
  cbn beta iota in *.

Ltac bool_solve :=
  repeat match goal with
  | H : (_ && _) = true |- _ => apply andb_prop in H as [? ?]
  | H : (_ =? _) = true |- _ => apply Z.eqb_eq in H
  | H : (_ =? _) = false |- _ => apply Z.eqb_neq in H
  | H : (_ <? _) = true |- _ => apply Z.ltb_lt in H
  | H : (_ <? _) = false |- _ => apply Z.ltb_ge in H
  | H : (_ <=? _) = true |- _ => apply Z.leb_le in H
  | H : (_ <=? _) = false |- _ => apply Z.leb_gt in H
  | H : negb _ = true |- _ => apply negb_true_iff in H
  | H : negb _ = false |- _ => apply negb_false_iff in H
  end.

(** ** Rules of the program logic *)

Section Triples.
Context {S : Type}.

Lemma triple_ret {A} (P : S → Prop) (a : A) (Q : A → S → Prop) :
  (∀ s, P s → Q a s) → triple P (mret a) Q.
Proof. intros H s Hs. by apply H. Qed.

Lemma triple_bind {A B} (P : S → Prop) (m : M S A) (Q : A → S → Prop) (f : A → M S B) R :
  triple P m Q → (∀ a, triple (Q a) (f a) R) → triple P (m ≫= f) R.
Proof.
  intros Hm Hf s Hs. specialize (Hm s Hs). unfold mbind, M_bind.
  destruct (m s) as [[a s']|e]; [|done]. by apply Hf.
Qed.

Lemma triple_conseq {A} (P P' : S → Prop) (m : M S A) (Q Q' : A → S → Prop) :
  triple P' m Q' → (∀ s, P s → P' s) → (∀ a s, Q' a s → Q a s) → triple P m Q.
Proof.
  intros Hm HP HQ s Hs. specialize (Hm s (HP s Hs)). destruct (m s) as [[a s']|e]; eauto.
Qed.

Lemma triple_get {A} (P : S → Prop) (f : S → A) Q :
  (∀ s, P s → Q (f s) s) → triple P (gets f) Q.
Proof. intros H s Hs. by apply H. Qed.

Lemma triple_modify (P : S → Prop) (f : S → S) Q :
  (∀ s, P s → Q tt (f s)) → triple P (modify f) Q.
Proof. intros H s Hs. by apply H. Qed.

Lemma triple_exists {A X} (P : X → S → Prop) (m : M S A) Q :
  (∀ x, triple (P x) m Q) → triple (λ s, ∃ x, P x s) m Q.
Proof. intros H s [x Hx]. by apply (H x). Qed.

Lemma triple_pure {A} (φ : Prop) (P : S → Prop) (m : M S A) Q :
  (φ → triple P m Q) → triple (λ s, φ ∧ P s) m Q.
Proof. intros H s [Hφ Hs]. by apply H. Qed.

Lemma triple_pure_r {A} (φ : Prop) (P : S → Prop) (m : M S A) Q :
  (φ → triple P m Q) → triple (λ s, P s ∧ φ) m Q.
Proof. intros H s [Hs Hφ]. by apply H. Qed.

Lemma triple_seqM (P : S → Prop) (ms : list (M S unit)) :
  Forall (λ m, triple P m (λ _, P)) ms → triple P (seqM ms) (λ _, P).
Proof.
  induction 1; simpl; [by apply triple_ret|]. by eapply triple_bind.
Qed.

Lemma seqM_app (ms ms' : list (M S unit)) s :
  seqM (ms ++ ms') s =
  match seqM ms s with Done (_, s') => seqM ms' s' | Fault e => Fault e end.
Proof.
  revert s. induction ms as [|m ms IH]; intros s; [done|]. cbn. unfold mbind, M_bind.
  destruct (m s) as [[[] s']|]; [apply IH|done].
Qed.

Lemma triple_done {A} (P : S → Prop) (m : M S A) Q s a s' :
  triple P m Q → P s → m s = Done (a, s') → Q a s'.
Proof. intros H Hs E. specialize (H s Hs). by rewrite E in H. Qed.

Lemma triple_run {A} (P : S → Prop) (m : M S A) Q s :
  triple P m Q → P s → ∃ a s', m s = Done (a, s') ∧ Q a s'.
Proof.
  intros H Hs. specialize (H s Hs). destruct (m s) as [[a s']|e]; [eauto|done].
Qed.

End Triples.

(** Running the first part of a sequence. *)
Lemma run_bind {S X Y} (m : M S X) (f : X → M S Y) s x s' : m s = Done (x, s') → (m ≫= f) s = f x s'.
Proof. intros E. unfold mbind, M_bind. by rewrite E. Qed.

(** ** Loops with binary fuel

    [loop_pos body p x] runs a loop body at most [p] times: [inl] is the state of
    the loop, [inr] its result.  The fuel is binary so that a loop over a
    32-bit range can be run. *)

Section Loops.
Context {S X R : Type} (body : X → M S (X + R)).

Fixpoint loop_pos (p : positive) (x : X) : M S (X + R) :=
  match p with
  | xH => body x
  | xO p => r ← loop_pos p x; match r with inl x => loop_pos p x | inr r => mret (inr r) end
  | xI p =>
      r ← body x;
      match r with
      | inr r => mret (inr r)
      | inl x => r ← loop_pos p x; match r with inl x => loop_pos p x | inr r => mret (inr r) end
      end
  end.

(** An invariant and a measure that decreases: the loop ends with the result. *)
Lemma loop_pos_partial (I : X → S → Prop) (Q : R → S → Prop) (f : X → Z) :
  (∀ x, triple (I x) (body x) (λ r s, match r with inl x' => I x' s ∧ 0 ≤ f x' < f x | inr r => Q r s end)) →
  ∀ p x, triple (I x) (loop_pos p x)
    (λ r s, match r with inl x' => I x' s ∧ 0 ≤ f x' ∧ f x' + Zpos p ≤ f x | inr r => Q r s end).
Proof.
  intros Hb p. induction p as [p IH|p IH|]; intros x; cbn [loop_pos].
  - eapply triple_bind; [apply Hb|]. intros [x1|r1]; [|by apply triple_ret]. apply triple_pure_r. intros H1.
    eapply triple_bind; [apply IH|]. intros [x2|r2]; [|by apply triple_ret]. apply triple_pure_r. intros [H2 H2'].
    eapply triple_conseq; [apply IH|done|]. intros [x3|r3] s; [|done]. intros (? & ? & ?). split; [done|]. lia.
  - eapply triple_bind; [apply IH|]. intros [x2|r2]; [|by apply triple_ret]. apply triple_pure_r. intros [H2 H2'].
    eapply triple_conseq; [apply IH|done|]. intros [x3|r3] s; [|done]. intros (? & ? & ?). split; [done|]. lia.
  - eapply triple_conseq; [apply Hb|done|]. intros [x1|r1] s; [|done]. intros [? ?]. split; [done|]. lia.
Qed.

Lemma loop_pos_total (I : X → S → Prop) (Q : R → S → Prop) (f : X → Z) p x :
  (∀ x, triple (I x) (body x) (λ r s, match r with inl x' => I x' s ∧ 0 ≤ f x' < f x | inr r => Q r s end)) →
  f x < Zpos p → triple (I x) (loop_pos p x) (λ r s, match r with inl _ => False | inr r => Q r s end).
Proof.
  intros Hb Hf. eapply triple_conseq; [by apply loop_pos_partial|done|]. intros [x1|r1] s; [|done]. intros (? & ? & ?). lia.
Qed.

End Loops.

(** ** Families of threads

    A system with any number of threads keeps them in a function; a step changes
    one of them. *)

Definition upd_at {A} (i : nat) (f : A → A) (s : nat → A) : nat → A :=
  λ j, if decide (j = i) then f (s j) else s j.

Lemma upd_at_eq {A} i (f : A → A) s : upd_at i f s i = f (s i).
Proof. unfold upd_at. by rewrite decide_True. Qed.
Lemma upd_at_ne {A} i j (f : A → A) s : j ≠ i → upd_at i f s j = s j.
Proof. intros ?. unfold upd_at. by rewrite decide_False. Qed.

(** How many of the first [n] threads satisfy [p]. *)
Fixpoint tally (n : nat) (p : nat → bool) : Z := match n with O => 0 | S n => tally n p + bool2Z (p n) end.

Lemma tally_same n p q : (∀ j, (j < n)%nat → q j = p j) → tally n q = tally n p.
Proof. induction n as [|n IH]; intros Hq; [done|]. cbn [tally]. rewrite IH, Hq; [done|lia|]. intros j Hj. apply Hq. lia. Qed.
Lemma tally_none n p : (∀ j, p j = false) → tally n p = 0.
Proof. intros Hp. induction n as [|n IH]; [done|]. cbn [tally]. rewrite IH, Hp. done. Qed.
Lemma tally_change n p q i : (i < n)%nat → (∀ j, j ≠ i → q j = p j) → tally n q = tally n p - bool2Z (p i) + bool2Z (q i).
Proof.
  intros Hi Hq. induction n as [|n IH]; [lia|]. cbn [tally]. destruct (decide (i = n)) as [->|Hne].
  - rewrite (tally_same n p q); [lia|]. intros j Hj. apply Hq. lia.
  - rewrite IH, (Hq n) by lia. lia.
Qed.
Lemma tally_bound n p : 0 ≤ tally n p ≤ Z.of_nat n.
Proof. induction n as [|n IH]; cbn [tally]; [lia|]. destruct (p n); cbn; lia. Qed.
Lemma tally_pos n p i : (i < n)%nat → p i = true → 1 ≤ tally n p.
Proof.
  intros Hi Hp. pose proof (tally_bound n (λ j, if decide (j = i) then false else p j)) as Hb.
  rewrite (tally_change n p _ i Hi) in Hb by (intros j Hj; by rewrite decide_False). rewrite decide_True, Hp in Hb by done. cbn in Hb. lia.
Qed.
Lemma tally_less n p i : (i < n)%nat → p i = false → tally n p ≤ Z.of_nat n - 1.
Proof.
  intros Hi Hp. induction n as [|n IH]; [lia|]. cbn [tally]. destruct (decide (i = n)) as [->|Hne].
  - rewrite Hp. pose proof (tally_bound n p). cbn. lia.
  - pose proof (IH ltac:(lia)). destruct (p n); cbn; lia.
Qed.

(** ** Lemmas on machine integers *)

Lemma wrap_range w z : 0 ≤ w → 0 ≤ wrap w z < 2 ^ w.
Proof. intros. apply Z.mod_pos_bound. by apply Z.pow_pos_nonneg. Qed.

Lemma wrap_small w z : 0 ≤ z < 2 ^ w → wrap w z = z.
Proof. apply Z.mod_small. Qed.

Lemma lor_range w a b : 0 ≤ a < 2 ^ w → 0 ≤ b < 2 ^ w → 0 ≤ Z.lor a b < 2 ^ w.
Proof.
  intros Ha Hb. assert (0 ≤ Z.lor a b) as H0 by (apply Z.lor_nonneg; lia). split; [done|].
  destruct (Z.eq_dec (Z.lor a b) 0) as [->|]; [lia|].
  destruct (Z.eq_dec w 0) as [->|]; [simpl in *; assert (a = 0) as -> by lia;
    assert (b = 0) as -> by lia; done|].
  assert (0 < w) by (destruct (Z.lt_trichotomy 0 w) as [|[|]]; [done|congruence|];
    rewrite Z.pow_neg_r in Ha by done; lia).
  assert (Hlog : ∀ x, 0 ≤ x < 2 ^ w → Z.log2 x < w).
  { intros x Hx. destruct (Z.eq_dec x 0) as [->|]; [done|]. apply Z.log2_lt_pow2; lia. }
  apply Z.log2_lt_pow2; [lia|]. rewrite Z.log2_lor by lia. apply Z.max_lub_lt; auto.
Qed.

Lemma u32_range z : 0 ≤ u32 z < 2 ^ 32.
Proof. by apply wrap_range. Qed.

Lemma u32_small z : 0 ≤ z < 2 ^ 32 → u32 z = z.
Proof. apply wrap_small. Qed.

Lemma s32_small z : - 2 ^ 31 ≤ z < 2 ^ 31 → s32 z = z.
Proof. intros. unfold s32. rewrite Z.mod_small; lia. Qed.

Lemma s32_range z : - 2 ^ 31 ≤ s32 z < 2 ^ 31.
Proof. unfold s32. pose proof (Z.mod_pos_bound (z + 2 ^ 31) (2 ^ 32)). lia. Qed.

(** Differences of wrapped values: the comparison of jiffies. *)
Lemma u32_mod z : u32 z = z mod 2 ^ 32.
Proof. done. Qed.

Lemma s32_mod_eq a b : a mod 2 ^ 32 = b mod 2 ^ 32 → s32 a = s32 b.
Proof.
  intros E. unfold s32. rewrite (Z.add_mod a), (Z.add_mod b), E by lia. done.
Qed.

Lemma s32_congr n : s32 n mod 2 ^ 32 = n mod 2 ^ 32.
Proof.
  unfold s32. pose proof (Z.div_mod (n + 2 ^ 31) (2 ^ 32) ltac:(done)) as E.
  replace ((n + 2 ^ 31) mod 2 ^ 32 - 2 ^ 31) with (n + (- ((n + 2 ^ 31) / 2 ^ 32)) * 2 ^ 32) by lia.
  by apply Z.mod_add.
Qed.
Lemma s32_inc_dec r : - 2 ^ 31 ≤ r < 2 ^ 31 → s32 (s32 (r + 1) - 1) = r.
Proof.
  intros Hr. rewrite <- (s32_small r Hr) at 2. apply s32_mod_eq. rewrite Zminus_mod, s32_congr, <- Zminus_mod.
  f_equal. lia.
Qed.

Lemma s32_u32_sub a b : s32 (u32 a - u32 b) = s32 (a - b).
Proof. apply s32_mod_eq. rewrite !u32_mod. symmetry. apply Zminus_mod. Qed.

Lemma u32_u32 a : u32 (u32 a) = u32 a.
Proof. rewrite !u32_mod. by rewrite Z.mod_mod. Qed.

Lemma s32_sub_congr a b c : u32 b = u32 c → s32 (u32 a - b) = s32 (a - c).
Proof.
  intros E. apply s32_mod_eq. rewrite Zminus_mod, (Zminus_mod a c).
  change (u32 a mod 2 ^ 32) with (u32 (u32 a)). change (b mod 2 ^ 32) with (u32 b).
  by rewrite u32_u32, E.
Qed.

Lemma u32_add_u32 a b : u32 (u32 a + b) = u32 (a + b).
Proof. rewrite !u32_mod. apply Zplus_mod_idemp_l. Qed.

(** ** Lemmas on linked lists *)

Section LinkedListLemmas.
Context {A : Type} (next : A → option loc).
Implicit Types (h : gmap loc A) (p : option loc) (L : list loc).

Lemma lseg_frame h p L x a : x ∉ L → lseg next h p L → lseg next (<[x:=a]> h) p L.
Proof.
  revert p. induction L as [|y L IH]; intros p Hx; simpl; [done|].
  intros (-> & b & Hb & HL). apply not_elem_of_cons in Hx as [??].
  split; [done|]. exists b. rewrite lookup_insert_ne by done. eauto.
Qed.

Lemma lseg_update h p L x a a' :
  h !! x = Some a → next a' = next a →
  lseg next h p L → lseg next (<[x:=a']> h) p L.
Proof.
  intros Hx Hn. revert p. induction L as [|y L IH]; intros p; simpl; [done|].
  intros (-> & b & Hb & HL). split; [done|].
  destruct (decide (x = y)) as [->|].
  - exists a'. rewrite lookup_insert_eq. simplify_eq. rewrite Hn. eauto.
  - exists b. rewrite lookup_insert_ne by done. eauto.
Qed.

Lemma lseg_cons h p L x a :
  x ∉ L → next a = p → lseg next h p L → lseg next (<[x:=a]> h) (Some x) (x :: L).
Proof.
  intros Hx <- HL. simpl. split; [done|]. exists a.
  rewrite lookup_insert_eq. eauto using lseg_frame.
Qed.

Lemma lseg_det h p L L' : lseg next h p L → lseg next h p L' → L = L'.
Proof.
  revert p L'. induction L as [|x L IH]; intros p [|y L']; simpl.
  - done.
  - by intros -> [??].
  - by intros [-> _] ?.
  - intros (-> & a & Ha & HL) (? & b & Hb & HL'). simplify_eq. f_equal. eauto.
Qed.

(** A list that ends in NULL visits no object twice. *)
Lemma lseg_split h p L1 x L2 :
  lseg next h p (L1 ++ x :: L2) → lseg next h (Some x) (x :: L2).
Proof.
  revert p. induction L1 as [|y L1 IH]; intros p; simpl.
  - by intros (-> & ?).
  - intros (_ & a & _ & HL). by apply (IH (next a)).
Qed.

Lemma lseg_NoDup h p L : lseg next h p L → NoDup L.
Proof.
  revert p. induction L as [|x L IH]; intros p HL; [constructor|].
  pose proof HL as (-> & a & Ha & HL'). constructor; [|by eapply IH].
  intros Hx. apply list_elem_of_split in Hx as (L1 & L2 & ->).
  pose proof (lseg_split _ _ _ _ _ HL') as HL2.
  pose proof (lseg_det _ _ _ _ HL HL2) as E. apply (f_equal length) in E.
  simpl in E. rewrite length_app in E. simpl in E. lia.
Qed.

Lemma lseg_length (D : gset loc) h p L : lseg next h p L → dom h ⊆ D → (length L ≤ size D)%nat.
Proof.
  intros HL HD. rewrite <- (size_list_to_set (C := gset loc)) by (by eapply lseg_NoDup).
  apply subseteq_size. intros x Hx%elem_of_list_to_set. apply HD, elem_of_dom.
  clear HD. revert p HL. induction L as [|y L IH]; intros p; [by apply elem_of_nil in Hx|].
  intros (-> & a & Ha & HL). apply elem_of_cons in Hx as [->|Hx]; [eauto|by eapply IH].
Qed.

Lemma lseg_lookup h p L x : lseg next h p L → x ∈ L → is_Some (h !! x).
Proof.
  revert p. induction L as [|y L IH]; intros p; simpl; [by intros _ ?%elem_of_nil|].
  intros (-> & b & Hb & HL) [->|Hx]%elem_of_cons; eauto.
Qed.

Lemma lseg_nil_inv h L : lseg next h None L → L = [].
Proof. destruct L; simpl; naive_solver. Qed.

Lemma lseg_Some_inv h x L :
  lseg next h (Some x) L → ∃ a L', L = x :: L' ∧ h !! x = Some a ∧ lseg next h (next a) L'.
Proof. destruct L; simpl; naive_solver. Qed.

End LinkedListLemmas.

#[export] Hint Resolve lseg_frame lseg_update lseg_cons : lists.
