(* ===== verification/IrqFlags.v ===== *)
(** IRQ flags of the DDE (src/src/lib/dde_linux26/arch/dde_kit/cli_sti.c).

    Every DDE thread is a virtual CPU, so "disabling interrupts" is a reference
    counter.  The operations are state transformers of that counter; the trace
    theorem gives its meaning for every sequence of operations. *)

From S2P Require Import Prelude.

(** The IRQ lock reference counter [_refcnt], an [atomic_t] (32-bit int). *)
Definition refcnt_init : Z := 0.

Definition raw_irqs_disabled_flags (flags : Z) : bool := 0 <? s32 flags.

Definition __raw_local_save_flags (refcnt : Z) : Z := u32 refcnt.

Definition raw_local_irq_disable (refcnt : Z) : Z := s32 (refcnt + 1).

(** [for (i; i > 0; --i) atomic_dec(&_refcnt)], [n] being the initial [i]. *)
Fixpoint dec_loop (n : nat) (refcnt : Z) : Z :=
  match n with
  | O => refcnt
  | S n => dec_loop n (s32 (refcnt - 1))
  end.

Definition raw_local_irq_enable (refcnt : Z) : Z := dec_loop (Z.to_nat refcnt) refcnt.

Definition raw_local_irq_restore (flags refcnt : Z) : Z := raw_local_irq_enable refcnt.

(** [__raw_local_irq_save] returns the flags and disables interrupts. *)
Definition __raw_local_irq_save (refcnt : Z) : Z * Z :=
  (__raw_local_save_flags refcnt, raw_local_irq_disable refcnt).

Definition raw_irqs_disabled (refcnt : Z) : bool :=
  raw_irqs_disabled_flags (__raw_local_save_flags refcnt).

(** A trace of calls; [OpRestore] carries the flags its caller passes. *)
Inductive irq_op := OpSave | OpDisable | OpEnable | OpRestore (flags : Z).

Definition irq_step (refcnt : Z) (o : irq_op) : Z :=
  match o with
  | OpSave => (__raw_local_irq_save refcnt).2
  | OpDisable => raw_local_irq_disable refcnt
  | OpEnable => raw_local_irq_enable refcnt
  | OpRestore f => raw_local_irq_restore f refcnt
  end.

Definition irq_run (ops : list irq_op) : Z := foldl irq_step refcnt_init ops.

(** Specification: the number of disabling calls since the last enabling one. *)
Definition count_disables (n : nat) (o : irq_op) : nat :=
  match o with
  | OpSave | OpDisable => S n
  | OpEnable | OpRestore _ => O
  end.

Definition disables_since_enable (ops : list irq_op) : nat := foldl count_disables O ops.

(** ** Lemmas *)

Lemma dec_loop_nonneg n r :
  Z.of_nat n ≤ r < 2 ^ 31 → dec_loop n r = r - Z.of_nat n.
Proof.
  revert r. induction n as [|n IH]; intros r Hr; simpl; [lia|].
  rewrite s32_small by lia. rewrite IH; lia.
Qed.

Lemma irq_enable_zero r : 0 ≤ r < 2 ^ 31 → raw_local_irq_enable r = 0.
Proof. intros. unfold raw_local_irq_enable. rewrite dec_loop_nonneg; lia. Qed.

Lemma irq_disabled_iff r : 0 ≤ r < 2 ^ 31 → raw_irqs_disabled r = (0 <? r).
Proof.
  intros. unfold raw_irqs_disabled, raw_irqs_disabled_flags, __raw_local_save_flags.
  rewrite u32_small, s32_small by lia. done.
Qed.

#[export] Hint Rewrite irq_enable_zero irq_disabled_iff using lia : dde_rw.

Lemma irq_run_count ops n :
  Z.of_nat (n + length ops) < 2 ^ 31 →
  foldl irq_step (Z.of_nat n) ops = Z.of_nat (foldl count_disables n ops).
Proof.
  revert n. induction ops as [|o ops IH]; intros n Hlen; [done|].
  change (length (o :: ops)) with (S (length ops)) in Hlen.
  change (foldl irq_step (irq_step (Z.of_nat n) o) ops =
          Z.of_nat (foldl count_disables (count_disables n o) ops)).
  rewrite <- IH by (destruct o; unfold count_disables; lia). f_equal.
  destruct o; unfold irq_step, count_disables, __raw_local_irq_save, raw_local_irq_disable,
    raw_local_irq_restore; cbn [snd]; rewrite ?irq_enable_zero by lia;
    rewrite ?s32_small by lia; lia.
Qed.
Lemma disables_bound ops n : (foldl count_disables n ops ≤ n + length ops)%nat.
Proof.
  revert n. induction ops as [|o ops IH]; intros n; cbn [foldl length]; [lia|].
  specialize (IH (count_disables n o)). destruct o; unfold count_disables in *; lia.
Qed.

(** ** Properties *)

(** After any trace of fewer than 2^31 calls the counter is exactly the
    number of disabling calls since the last enabling one, and interrupts count
    as disabled iff that number is positive. *)
Theorem irq_trace_counts (ops : list irq_op) :
  Z.of_nat (length ops) < 2 ^ 31 →
  irq_run ops = Z.of_nat (disables_since_enable ops) ∧
  raw_irqs_disabled (irq_run ops) = (0 <? Z.of_nat (disables_since_enable ops)).
Proof.
  intros Hlen. unfold irq_run, refcnt_init, disables_since_enable.
  change 0 with (Z.of_nat 0) at 1 2. rewrite (irq_run_count ops 0) by lia. split; [done|].
  pose proof (disables_bound ops 0). apply irq_disabled_iff. lia.
Qed.

Lemma irq_trace_counts_witness :
  irq_run [OpSave; OpSave; OpRestore 1; OpDisable] = 1 ∧
  raw_irqs_disabled (irq_run [OpSave; OpSave; OpRestore 1; OpDisable]) = true.
Proof. apply (irq_trace_counts [OpSave; OpSave; OpRestore 1; OpDisable]). simpl. lia. Defined.

(** Saved flags do not survive nesting.  The inner save of two nested ones
    does not return 0, as the comment of [__raw_local_save_flags] assumes, and
    the inner restore re-enables interrupts although the outer section is still
    open, whatever flags are passed. *)
Theorem irq_nested_restore (ops : list irq_op) (flags : Z) :
  Z.of_nat (length ops) + 3 < 2 ^ 31 →
  __raw_local_save_flags (irq_run (ops ++ [OpSave])) ≠ 0 ∧
  raw_irqs_disabled (irq_run (ops ++ [OpSave; OpSave])) = true ∧
  raw_irqs_disabled (irq_run (ops ++ [OpSave; OpSave; OpRestore flags])) = false.
Proof.
  intros Hlen. pose proof (disables_bound ops 0) as Hb.
  unfold irq_run, refcnt_init. change (foldl irq_step 0) with (foldl irq_step (Z.of_nat 0)).
  rewrite !(irq_run_count _ 0) by (rewrite ?length_app; simpl; lia).
  rewrite !foldl_app. set (n := foldl count_disables 0%nat ops) in *.
  cbn [foldl count_disables]. split_and!.
  - unfold __raw_local_save_flags. rewrite u32_small by lia. lia.
  - rewrite irq_disabled_iff by lia. apply Z.ltb_lt. lia.
  - done.
Qed.

Lemma irq_nested_restore_witness :
  __raw_local_save_flags (irq_run ([] ++ [OpSave])) ≠ 0 ∧
  raw_irqs_disabled (irq_run ([] ++ [OpSave; OpSave])) = true ∧
  raw_irqs_disabled (irq_run ([] ++ [OpSave; OpSave; OpRestore 1])) = false.
Proof. apply (irq_nested_restore [] 1). simpl. lia. Defined.
