(* ===== verification/Kit.v ===== *)
(** The DDE kit as the glue code sees it: interfaces with laws.

    The DDE kit is not part of this repository; the glue code only calls it.
    What the code relies on is stated here as type classes, and each class has
    a concrete instance, so the theorems that assume one are not vacuous. *)

From S2P Require Import Prelude.

(** ** dde_kit_simple_malloc, dde_kit_simple_free

    An allocator has a set of live blocks.  A successful allocation returns a
    block that is not live; all blocks are distinct non-NULL word-aligned
    addresses of a 32-bit address space. *)
Class KitMemory (A : Type) := {
  live : A → gset loc;
  kit_malloc : A → option (loc * A);
  kit_free : loc → A → A;
  kit_malloc_fresh a l a' : kit_malloc a = Some (l, a') → (l ∉ live a) ∧ live a' = {[l]} ∪ live a;
  kit_free_live a l : live (kit_free l a) = live a ∖ {[l]};
  live_bound a : (Z.of_nat (size (live a)) < 2 ^ 30);
}.

(** [n] allocations in a row succeed. *)
Fixpoint can_alloc {A} `{KitMemory A} (n : nat) (m : A) : bool :=
  match n with
  | O => true
  | S n => match kit_malloc m with Some (_, m') => can_alloc n m' | None => false end
  end.

(** An instance: a pool of [pool_size] blocks. *)
Definition pool_size : nat := 64.

Record pool := Pool {
  pool_live : gset loc;
  pool_ok : bool_decide (size pool_live ≤ pool_size)%nat = true;
}.

(** A block above all live ones. *)
Definition pool_next (X : gset loc) : loc := Pos.succ (foldr Pos.max 1%positive (elements X)).

Definition pool_malloc_set (X : gset loc) : option (loc * gset loc) :=
  if (size X <? pool_size)%nat then Some (pool_next X, {[pool_next X]} ∪ X) else None.

Lemma foldr_max_le (l : list loc) x : x ∈ l → (x ≤ foldr Pos.max 1 l)%positive.
Proof.
  induction l as [|y l IH]; [by intros ?%elem_of_nil|].
  intros [->|Hx]%elem_of_cons; cbn [foldr]; [lia|]. specialize (IH Hx). lia.
Qed.

Lemma pool_next_fresh X : pool_next X ∉ X.
Proof.
  intros Hin%elem_of_elements%foldr_max_le. unfold pool_next in Hin.
  by apply Pos.le_succ_l, Pos.lt_irrefl in Hin.
Qed.

Lemma pool_malloc_ok X l Y :
  pool_malloc_set X = Some (l, Y) → (l ∉ X) ∧ Y = {[l]} ∪ X ∧ (size Y ≤ pool_size)%nat.
Proof.
  unfold pool_malloc_set. destruct (Nat.ltb_spec (size X) pool_size); [|done]. intros [= <- <-].
  pose proof (pool_next_fresh X). split; [done|]. split; [done|].
  rewrite size_union by set_solver. rewrite size_singleton. lia.
Qed.

Definition pool_malloc (a : pool) : option (loc * pool) :=
  match pool_malloc_set (pool_live a) as o
    return (∀ l Y, o = Some (l, Y) → (l ∉ pool_live a) ∧ Y = {[l]} ∪ pool_live a ∧
                     (size Y ≤ pool_size)%nat) → option (loc * pool) with
  | None => λ _, None
  | Some (l, Y) => λ H,
      Some (l, Pool Y (bool_decide_eq_true_2 _ (proj2 (proj2 (H l Y eq_refl)))))
  end (pool_malloc_ok (pool_live a)).

Lemma pool_free_ok (l : loc) (a : pool) :
  bool_decide (size (pool_live a ∖ {[l]}) ≤ pool_size)%nat = true.
Proof.
  apply bool_decide_eq_true_2. pose proof (bool_decide_eq_true_1 _ (pool_ok a)).
  etrans; [|done]. apply subseteq_size. set_solver.
Qed.

Definition pool_free (l : loc) (a : pool) : pool := Pool (pool_live a ∖ {[l]}) (pool_free_ok l a).

Definition pool_empty : pool := Pool ∅ eq_refl.

#[export] Instance pool_memory : KitMemory pool.
Proof.
  refine {| live := pool_live; kit_malloc := pool_malloc; kit_free := pool_free |}.
  - intros a l a'. unfold pool_malloc. generalize (pool_malloc_ok (pool_live a)).
    destruct (pool_malloc_set (pool_live a)) as [[l' Y]|]; [|done].
    intros H [= <- <-]. cbn. destruct (H l' Y eq_refl) as (? & -> & _). done.
  - done.
  - intros a. pose proof (bool_decide_eq_true_1 _ (pool_ok a)). unfold pool_size in *. lia.
Defined.

(** ** dde_kit_timer_add, dde_kit_timer_del, dde_kit_timer_pending

    A kit timer is named by a handle, which stays valid until it is deleted.
    It is armed from [dde_kit_timer_add] until it is deleted or fires. *)
Class KitTimer (K : Type) := {
  handles : K → gset loc;
  armed : K → gmap loc (Z * Z * Z);   (* function, argument, timeout *)
  kit_timer_add : Z → Z → Z → K → loc * K;
  kit_timer_del : loc → K → K;
  kit_timer_pending : loc → K → bool;
  kit_timer_fire : loc → K → K;       (* the timer thread takes a timer off its queue *)
  armed_handles k : dom (armed k) ⊆ handles k;
  kit_add_fresh fn arg t k : (kit_timer_add fn arg t k).1 ∉ handles k;
  kit_add_handles fn arg t k : handles (kit_timer_add fn arg t k).2 =
    {[ (kit_timer_add fn arg t k).1 ]} ∪ handles k;
  kit_add_armed fn arg t k : armed (kit_timer_add fn arg t k).2 =
    <[ (kit_timer_add fn arg t k).1 := (fn, arg, t) ]> (armed k);
  kit_del_handles h k : handles (kit_timer_del h k) = handles k ∖ {[h]};
  kit_del_armed h k : armed (kit_timer_del h k) = delete h (armed k);
  kit_pending_armed h k : kit_timer_pending h k = bool_decide (is_Some (armed k !! h));
  kit_fire_handles h k : handles (kit_timer_fire h k) = handles k;
  kit_fire_armed h k : armed (kit_timer_fire h k) = delete h (armed k);
}.

(** An instance: a finite map of armed timers and the set of fired ones. *)
Record ktimers := KTimers { kt_armed : gmap loc (Z * Z * Z); kt_fired : gset loc }.

Definition kt_handles (k : ktimers) : gset loc := dom (kt_armed k) ∪ kt_fired k.
Definition kt_add (fn arg t : Z) (k : ktimers) : loc * ktimers :=
  (pool_next (kt_handles k),
   KTimers (<[pool_next (kt_handles k) := (fn, arg, t)]> (kt_armed k)) (kt_fired k)).
Definition kt_del (h : loc) (k : ktimers) : ktimers :=
  KTimers (delete h (kt_armed k)) (kt_fired k ∖ {[h]}).
Definition kt_fire (h : loc) (k : ktimers) : ktimers :=
  if bool_decide (is_Some (kt_armed k !! h))
  then KTimers (delete h (kt_armed k)) ({[h]} ∪ kt_fired k) else k.

#[export] Instance ktimers_kit : KitTimer ktimers.
Proof.
  refine {| handles := kt_handles; armed := kt_armed; kit_timer_add := kt_add;
    kit_timer_del := kt_del; kit_timer_fire := kt_fire;
    kit_timer_pending h k := bool_decide (is_Some (kt_armed k !! h)) |}.
  - intros k. unfold kt_handles. set_solver.
  - intros. apply pool_next_fresh.
  - intros. unfold kt_handles at 1. cbn. rewrite dom_insert_L. unfold kt_handles at 2. set_solver.
  - done.
  - intros. unfold kt_handles. cbn. rewrite dom_delete_L. set_solver.
  - done.
  - done.
  - intros h k. unfold kt_fire. case_bool_decide as E; [|done]. unfold kt_handles. cbn.
    rewrite dom_delete_L. apply elem_of_dom in E.
    apply set_eq. intros x. destruct (decide (x = h)) as [->|]; set_solver.
  - intros h k. unfold kt_fire. case_bool_decide as E; [done|].
    rewrite delete_id; [done|]. by apply eq_None_not_Some.
Defined.
