(* ===== verification/KitHeap.v ===== *)
(** The memory interface of the DDE kit at the level of addresses.

    [dde_kit_large_malloc] and the slabs of the kit hand out blocks of a 32-bit
    address space.  The laws say that a new block is not NULL, word-aligned and
    disjoint from all live blocks, and that freeing removes a block if it is
    given back through the function family it came from; nothing is said about
    a block given back through the wrong one. *)

From S2P Require Import Prelude.

(** The kit functions a block comes from. *)
Inductive family := FamSlab (slab : Z) | FamLarge | FamSimple.

#[export] Instance family_eq_dec : EqDecision family.
Proof. solve_decision. Defined.

(** The block [a, a + n) does not meet any block of [B]. *)
Definition block_fresh (B : gmap Z (Z * family)) (a n : Z) : Prop :=
  0 < a ∧ a + n ≤ 2 ^ 32 ∧ a mod 4 = 0 ∧ B !! a = None ∧
  map_Forall (λ b x, a + n ≤ b ∨ b + x.1 ≤ a) B.

#[export] Instance block_fresh_dec B a n : Decision (block_fresh B a n).
Proof. unfold block_fresh. apply _. Defined.

Class KitHeap (H : Type) := {
  blocks : H → gmap Z (Z * family);   (* address to size and family *)
  slabs : H → gmap Z Z;                 (* slab to object size *)
  slab_init : Z → H → option (Z * H);
  slab_alloc : Z → H → option (Z * H);
  slab_free : Z → Z → H → H;
  slab_destroy : Z → H → H;
  large_malloc : Z → H → option (Z * H);
  large_free : Z → H → H;
  simple_malloc : Z → H → option (Z * H);
  simple_free : Z → H → H;
  slab_init_law n h sl h' : slab_init n h = Some (sl, h') →
    sl ≠ 0 ∧ slabs h !! sl = None ∧ slabs h' = <[sl:=n]> (slabs h) ∧ blocks h' = blocks h;
  slab_alloc_law sl n h a h' : slabs h !! sl = Some n → slab_alloc sl h = Some (a, h') →
    block_fresh (blocks h) a n ∧ blocks h' = <[a:=(n, FamSlab sl)]> (blocks h) ∧ slabs h' = slabs h;
  slab_free_law sl n a h : blocks h !! a = Some (n, FamSlab sl) →
    blocks (slab_free sl a h) = delete a (blocks h) ∧ slabs (slab_free sl a h) = slabs h;
  slab_destroy_law sl h : slabs (slab_destroy sl h) = delete sl (slabs h) ∧
    ((∀ a n, blocks h !! a ≠ Some (n, FamSlab sl)) → blocks (slab_destroy sl h) = blocks h);
  large_malloc_law n h a h' : large_malloc n h = Some (a, h') →
    block_fresh (blocks h) a n ∧ blocks h' = <[a:=(n, FamLarge)]> (blocks h) ∧ slabs h' = slabs h;
  large_free_law n a h : blocks h !! a = Some (n, FamLarge) →
    blocks (large_free a h) = delete a (blocks h) ∧ slabs (large_free a h) = slabs h;
  simple_malloc_law n h a h' : simple_malloc n h = Some (a, h') →
    block_fresh (blocks h) a n ∧ blocks h' = <[a:=(n, FamSimple)]> (blocks h) ∧ slabs h' = slabs h;
  simple_free_law n a h : blocks h !! a = Some (n, FamSimple) →
    blocks (simple_free a h) = delete a (blocks h) ∧ slabs (simple_free a h) = slabs h;
}.

(** An instance: the next block lies behind all live ones. *)
Record bump := Bump { bp_blocks : gmap Z (Z * family); bp_slabs : gmap Z Z }.

Definition bp_next (h : bump) : Z :=
  4 * ((map_fold (λ b x m, Z.max (b + x.1) m) 4096 (bp_blocks h) + 3) / 4).

Definition bp_alloc (n : Z) (o : family) (h : bump) : option (Z * bump) :=
  if bool_decide (block_fresh (bp_blocks h) (bp_next h) n)
  then Some (bp_next h, Bump (<[bp_next h := (n, o)]> (bp_blocks h)) (bp_slabs h)) else None.

Definition bp_slab_init (n : Z) (h : bump) : option (Z * bump) :=
  let sl := Z.of_nat (size (bp_slabs h)) + 1 in
  match bp_slabs h !! sl with
  | Some _ => None
  | None => Some (sl, Bump (bp_blocks h) (<[sl:=n]> (bp_slabs h)))
  end.

Definition bp_free (a : Z) (h : bump) : bump := Bump (delete a (bp_blocks h)) (bp_slabs h).

Lemma bp_alloc_law n o h a h' :
  bp_alloc n o h = Some (a, h') →
  block_fresh (bp_blocks h) a n ∧ bp_blocks h' = <[a:=(n, o)]> (bp_blocks h) ∧ bp_slabs h' = bp_slabs h.
Proof. unfold bp_alloc. case_bool_decide; [|done]. intros [= <- <-]. done. Qed.

#[export] Instance bump_heap : KitHeap bump.
Proof.
  refine {| blocks := bp_blocks; slabs := bp_slabs; slab_init := bp_slab_init;
    slab_alloc sl h := match bp_slabs h !! sl with Some n => bp_alloc n (FamSlab sl) h | None => None end;
    slab_free sl a h := bp_free a h;
    large_malloc n h := bp_alloc n FamLarge h; large_free := bp_free;
    slab_destroy sl h := Bump (bp_blocks h) (delete sl (bp_slabs h));
    simple_malloc n h := bp_alloc n FamSimple h; simple_free := bp_free |}.
  - intros n h sl h'. unfold bp_slab_init.
    destruct (bp_slabs h !! (Z.of_nat (size (bp_slabs h)) + 1)) eqn:E; [done|].
    intros [= <- <-]. split; [lia|done].
  - intros sl n h a h' ->. apply bp_alloc_law.
  - done.
  - done.
  - intros n h a h'. apply bp_alloc_law.
  - done.
  - intros n h a h'. apply bp_alloc_law.
  - done.
Defined.

(** ** Memory contents *)

(** Bytes by address; a word is stored little endian. *)
Definition bytes : Type := Z → Z.

Definition set_byte (a v : Z) (m : bytes) : bytes := λ x, if x =? a then v else m x.

Definition load32 (a : Z) (m : bytes) : Z :=
  m a + 2 ^ 8 * m (a + 1) + 2 ^ 16 * m (a + 2) + 2 ^ 24 * m (a + 3).

Definition store32 (a v : Z) (m : bytes) : bytes :=
  set_byte a (v mod 2 ^ 8) (set_byte (a + 1) (v / 2 ^ 8 mod 2 ^ 8)
    (set_byte (a + 2) (v / 2 ^ 16 mod 2 ^ 8) (set_byte (a + 3) (v / 2 ^ 24 mod 2 ^ 8) m))).

(** [memset(p, v, n)] *)
Definition memset (p v n : Z) (m : bytes) : bytes :=
  λ x, if (p <=? x) && (x <? p + n) then v else m x.

Lemma store32_other a v m x : x < a ∨ a + 4 ≤ x → store32 a v m x = m x.
Proof.
  intros Hx. unfold store32, set_byte.
  destruct (Z.eqb_spec x a), (Z.eqb_spec x (a + 1)), (Z.eqb_spec x (a + 2)), (Z.eqb_spec x (a + 3));
    try lia; done.
Qed.

Lemma load32_store32 a v m : 0 ≤ v < 2 ^ 32 → load32 a (store32 a v m) = v.
Proof.
  intros Hv. unfold load32, store32, set_byte.
  rewrite Z.eqb_refl. destruct (Z.eqb_spec (a + 1) a); [lia|]. rewrite Z.eqb_refl.
  destruct (Z.eqb_spec (a + 2) a); [lia|]. destruct (Z.eqb_spec (a + 2) (a + 1)); [lia|].
  rewrite Z.eqb_refl. destruct (Z.eqb_spec (a + 3) a); [lia|].
  destruct (Z.eqb_spec (a + 3) (a + 1)); [lia|]. destruct (Z.eqb_spec (a + 3) (a + 2)); [lia|].
  rewrite Z.eqb_refl.
  pose proof (Z.div_mod v (2 ^ 8) ltac:(lia)) as E0.
  pose proof (Z.div_mod (v / 2 ^ 8) (2 ^ 8) ltac:(lia)) as E1. rewrite Z.div_div in E1 by lia.
  pose proof (Z.div_mod (v / 2 ^ 16) (2 ^ 8) ltac:(lia)) as E2. rewrite Z.div_div in E2 by lia.
  change (2 ^ 8 * 2 ^ 8) with (2 ^ 16) in E1. change (2 ^ 16 * 2 ^ 8) with (2 ^ 24) in E2.
  rewrite (Z.mod_small (v / 2 ^ 24)) by (split; [apply Z.div_pos; lia|apply Z.div_lt_upper_bound; lia]).
  lia.
Qed.

(** A word is determined by its four bytes. *)
Lemma load32_ext a m m' : (∀ x, a ≤ x < a + 4 → m' x = m x) → load32 a m' = load32 a m.
Proof. intros Hm. unfold load32. rewrite !Hm by lia. done. Qed.

Lemma memset_in p v n m x : p ≤ x < p + n → memset p v n m x = v.
Proof.
  intros Hx. unfold memset. destruct (Z.leb_spec p x), (Z.ltb_spec x (p + n)); try lia; done.
Qed.

Lemma memset_out p v n m x : x < p ∨ p + n ≤ x → memset p v n m x = m x.
Proof.
  intros Hx. unfold memset. destruct (Z.leb_spec p x), (Z.ltb_spec x (p + n)); try lia; done.
Qed.
