(* ===== verification/DList.v ===== *)
(** Doubly linked lists (include/linux26/linux/list.h).

    A [struct list_head] is embedded in the objects it links; the model keeps
    the [next] and [prev] fields of all heads and nodes in two maps, as the
    fields are independent words.  [dlist] relates a head to the objects of its
    circular list, and the primitives are proved to add and remove an object
    for every list, the empty one included. *)

From S2P Require Import Prelude.

(** Pointers are [Some l]; [None] is LIST_POISON1 or LIST_POISON2. *)
Record links := Links { nx : gmap loc (option loc); pv : gmap loc (option loc) }.

Definition set_nx (x : loc) (p : option loc) (s : links) : links := Links (<[x:=p]> (nx s)) (pv s).
Definition set_pv (x : loc) (p : option loc) (s : links) : links := Links (nx s) (<[x:=p]> (pv s)).

(** Reads of [x->next] and [x->prev]; a poisoned value is a fault when it is
    followed. *)
Definition get_nx (x : loc) : M links loc := λ s,
  match nx s !! x with Some (Some y) => Done (y, s) | _ => Fault FFreed end.
Definition get_pv (x : loc) : M links loc := λ s,
  match pv s !! x with Some (Some y) => Done (y, s) | _ => Fault FFreed end.

Definition INIT_LIST_HEAD (l : loc) : M links unit :=
  modify (set_nx l (Some l)) ;; modify (set_pv l (Some l)).

Definition __list_add (new prev next : loc) : M links unit :=
  modify (set_pv next (Some new)) ;;
  modify (set_nx new (Some next)) ;;
  modify (set_pv new (Some prev)) ;;
  modify (set_nx prev (Some new)).

Definition list_add (new head : loc) : M links unit :=
  n ← get_nx head; __list_add new head n.

Definition list_add_tail (new head : loc) : M links unit :=
  p ← get_pv head; __list_add new p head.

Definition __list_del (prev next : loc) : M links unit :=
  modify (set_pv next (Some prev)) ;; modify (set_nx prev (Some next)).

Definition list_del (entry : loc) : M links unit :=
  p ← get_pv entry; n ← get_nx entry; __list_del p n ;;
  modify (set_nx entry None) ;; modify (set_pv entry None).

Definition list_del_init (entry : loc) : M links unit :=
  p ← get_pv entry; n ← get_nx entry; __list_del p n ;; INIT_LIST_HEAD entry.

Definition list_empty (head : loc) : M links bool :=
  n ← get_nx head; mret (bool_decide (n = head)).

(** ** Representation *)

Definition linked (s : links) (x y : loc) : Prop :=
  nx s !! x = Some (Some y) ∧ pv s !! y = Some (Some x).

Fixpoint path (s : links) (l : list loc) : Prop :=
  match l with
  | x :: (y :: _) as l' => linked s x y ∧ path s l'
  | _ => True
  end.

(** The list of head [h] holds the objects [L], in order. *)
Definition dlist (s : links) (h : loc) (L : list loc) : Prop :=
  path s (h :: L ++ [h]) ∧ NoDup (h :: L).

(** ** Lemmas *)

Lemma path_app s l1 x l2 : path s (l1 ++ x :: l2) ↔ path s (l1 ++ [x]) ∧ path s (x :: l2).
Proof.
  induction l1 as [|a l1 IH]; [cbn; tauto|].
  destruct l1 as [|b l1]; cbn [app path] in *; [tauto|]. rewrite IH. tauto.
Qed.

Lemma path_app2 s l1 x y l2 :
  path s (l1 ++ x :: y :: l2) ↔ path s (l1 ++ [x]) ∧ linked s x y ∧ path s (y :: l2).
Proof. rewrite path_app. cbn [path]. tauto. Qed.

(** A path only depends on the [next] fields of its objects but the last and
    the [prev] fields of all but the first. *)
Lemma path_frame s s' l :
  (∀ x, x ∈ removelast l → nx s' !! x = nx s !! x) →
  (∀ y, y ∈ tail l → pv s' !! y = pv s !! y) →
  path s l → path s' l.
Proof.
  induction l as [|x [|y l] IH]; intros Hn Hp; [done|done|]. intros [[En Ep] Hl]. split.
  - unfold linked. rewrite Hn, Hp; [done|cbn; set_solver|cbn [removelast]; set_solver].
  - apply IH; [..|done].
    + intros z Hz. apply Hn. cbn [removelast] in *. by apply elem_of_cons; right.
    + intros z Hz. apply Hp. cbn in *. by apply elem_of_cons; right.
Qed.

Lemma path_nx s l x y l2 : path s (l ++ x :: y :: l2) → nx s !! x = Some (Some y).
Proof. rewrite path_app2. by intros (_ & [? _] & _). Qed.

Lemma path_pv s l x y l2 : path s (l ++ x :: y :: l2) → pv s !! y = Some (Some x).
Proof. rewrite path_app2. by intros (_ & [_ ?] & _). Qed.

(** Inserting [new] between two neighbours, as [__list_add] does. *)
Definition ins (new p n : loc) (s : links) : links :=
  set_nx p (Some new) (set_pv new (Some p) (set_nx new (Some n) (set_pv n (Some new) s))).

Lemma list_add_run new p n s : __list_add new p n s = Done (tt, ins new p n s).
Proof. done. Qed.

Lemma elem_of_removelast {X} (l : list X) x : x ∈ removelast l → x ∈ l.
Proof.
  induction l as [|y [|z l] IH]; [done|by intros ?%elem_of_nil|].
  cbn [removelast]. rewrite !elem_of_cons in *. intros [?|?]; [auto|]. right. by apply IH.
Qed.

Lemma elem_of_tail {X} (l : list X) x : x ∈ tail l → x ∈ l.
Proof. destruct l; [done|]. cbn. intros ?. by apply elem_of_cons; right. Qed.

Lemma path_insert s l1 p n l2 new :
  path s (l1 ++ p :: n :: l2) → new ∉ l1 ++ p :: n :: l2 → p ∉ l1 → p ∉ removelast (n :: l2) →
  n ∉ l2 → n ∉ tail (l1 ++ [p]) → path (ins new p n s) (l1 ++ p :: new :: n :: l2).
Proof.
  intros Hp Hnew Hp1 Hp2 Hn2 Hn1. rewrite path_app2 in Hp. destruct Hp as (H1 & [Hx Hy] & H2).
  assert (new ≠ p ∧ new ≠ n ∧ new ∉ l1 ∧ new ∉ l2) as (Hnp & Hnn & Hn3 & Hn4) by set_solver.
  rewrite path_app2. split; [|split].
  - eapply path_frame; [..|exact H1]; unfold ins; cbn [nx pv set_nx set_pv].
    + intros x. rewrite removelast_last. intros Hin. rewrite !lookup_insert_ne by set_solver. done.
    + intros y Hin. pose proof (elem_of_tail _ _ Hin). rewrite !lookup_insert_ne by set_solver. done.
  - unfold linked, ins. cbn. rewrite !lookup_insert_eq. done.
  - split.
    + unfold linked, ins. cbn. rewrite lookup_insert_ne, lookup_insert_eq by done.
      rewrite lookup_insert_ne, lookup_insert_eq by done. done.
    + eapply path_frame; [..|exact H2]; unfold ins; cbn [nx pv set_nx set_pv].
      * intros x Hin. pose proof (elem_of_removelast _ _ Hin). rewrite !lookup_insert_ne by set_solver. done.
      * intros y. cbn [tail]. intros Hin. rewrite !lookup_insert_ne by set_solver. done.
Qed.

(** Removing the object between two neighbours, as [__list_del] does. *)
Definition del (p n : loc) (s : links) : links := set_nx p (Some n) (set_pv n (Some p) s).

Lemma path_remove s l1 p e n l2 :
  path s (l1 ++ p :: e :: n :: l2) → p ∉ l1 → p ∉ removelast (n :: l2) → n ∉ l2 →
  n ∉ tail (l1 ++ [p]) → path (del p n s) (l1 ++ p :: n :: l2).
Proof.
  intros Hp Hp1 Hp2 Hn2 Hn1. rewrite path_app2 in Hp. destruct Hp as (H1 & _ & [_ H2]).
  rewrite path_app2. split; [|split].
  - eapply path_frame; [..|exact H1]; unfold del; cbn [nx pv set_nx set_pv].
    + intros x. rewrite removelast_last. intros Hin. rewrite lookup_insert_ne by set_solver. done.
    + intros y Hin. rewrite lookup_insert_ne by (intros ->; done). done.
  - unfold linked, del. cbn. rewrite !lookup_insert_eq. done.
  - eapply path_frame; [..|exact H2]; unfold del; cbn [nx pv set_nx set_pv].
    + intros x Hin. rewrite lookup_insert_ne by (intros ->; done). done.
    + intros y. cbn [tail]. intros Hin. rewrite lookup_insert_ne by (intros ->; done). done.
Qed.

(** What lies outside the changed objects. *)
Definition same_outside (X : list loc) (s s' : links) : Prop :=
  ∀ x, x ∉ X → nx s' !! x = nx s !! x ∧ pv s' !! x = pv s !! x.

Lemma dlist_frame s s' X h L :
  same_outside X s s' → (∀ x, x ∈ h :: L → x ∉ X) → dlist s h L → dlist s' h L.
Proof.
  intros Hs HX [Hp Hnd]. split; [|done].
  assert (Hmem : ∀ x, x ∈ h :: L ++ [h] → x ∉ X).
  { intros x Hx. apply HX. set_solver. }
  eapply path_frame; [..|exact Hp].
  - intros x Hx%elem_of_removelast. by apply Hs, Hmem.
  - intros y Hy%elem_of_tail. by apply Hs, Hmem.
Qed.

Lemma NoDup_head (h : loc) L : NoDup (h :: L) → h ∉ L ∧ NoDup L.
Proof. by rewrite list.NoDup_cons. Qed.

Lemma list_add_spec s h L new :
  dlist s h L → new ∉ h :: L →
  ∃ s', list_add new h s = Done (tt, s') ∧ dlist s' h (new :: L) ∧ same_outside (new :: h :: L) s s'.
Proof.
  intros [Hp Hnd] Hnew. destruct (NoDup_head _ _ Hnd) as [Hh HndL].
  destruct (L ++ [h]) as [|n l2] eqn:E; [by destruct L|].
  exists (ins new h n s). split.
  { unfold list_add, get_nx. run_simpl. by rewrite (path_nx s [] h n l2 Hp). }
  assert (Hn : n ∈ h :: L) by (destruct L; cbn in E; simplify_eq; set_solver).
  split.
  - split; [|constructor; [set_solver|constructor; [set_solver|done]]].
    change (h :: (new :: L) ++ [h]) with ([] ++ h :: new :: (L ++ [h])). rewrite E.
    apply path_insert; try done.
    + cbn [app]. rewrite <- E. set_solver.
    + set_solver.
    + rewrite <- E, removelast_last. done.
    + assert (Hnd' : NoDup (n :: l2)).
      { rewrite <- E. apply list.NoDup_app. split_and!; [done| |apply NoDup_singleton]. set_solver. }
      by apply NoDup_head in Hnd' as [? _].
    + cbn. set_solver.
  - intros x Hx. unfold ins. cbn. rewrite !lookup_insert_ne by set_solver. done.
Qed.

(** The neighbours of an object, and the facts about them that the removal
    needs. *)
Lemma neighbours (h : loc) L1 e L2 :
  NoDup (h :: L1 ++ e :: L2) →
  ∃ l1 p n l2, h :: L1 = l1 ++ [p] ∧ L2 ++ [h] = n :: l2 ∧
    p ∉ l1 ∧ p ∉ removelast (n :: l2) ∧ n ∉ l2 ∧ n ∉ tail (l1 ++ [p]) ∧ e ≠ p ∧ e ≠ n.
Proof.
  intros Hnd. destruct (exists_last (l := h :: L1) ltac:(done)) as (l1 & p & E1).
  destruct (L2 ++ [h]) as [|n l2] eqn:E2; [by destruct L2|].
  exists l1, p, n, l2. rewrite app_comm_cons in Hnd.
  apply list.NoDup_app in Hnd as (HndA & Hdis & HndB).
  apply list.NoDup_cons in HndB as [He HndB].
  pose proof (NoDup_head _ _ HndA) as [Hh HndL1].
  assert (HhL2 : h ∉ L2) by (intros Hin; apply (Hdis h); set_solver).
  assert (HndC : NoDup (n :: l2)).
  { rewrite <- E2. apply list.NoDup_app. split_and!; [done| |apply NoDup_singleton]. set_solver. }
  assert (Hn : n ∈ L2 ++ [h]) by (rewrite E2; set_solver).
  assert (Hp : p ∈ h :: L1) by (rewrite E1; set_solver).
  split_and!; try done.
  - rewrite E1 in HndA. apply list.NoDup_app in HndA as (_ & Hd & _). intros Hin. apply (Hd p Hin). set_solver.
  - rewrite <- E2, removelast_last. intros Hin. apply (Hdis p Hp). set_solver.
  - by apply NoDup_head in HndC as [? _].
  - rewrite <- E1. cbn. intros Hin. apply elem_of_app in Hn as [Hn|Hn].
    + apply (Hdis n); set_solver.
    + apply list_elem_of_singleton in Hn. by subst.
  - intros <-. apply (Hdis e Hp). set_solver.
  - intros <-. apply elem_of_app in Hn as [Hn|Hn]; [done|].
    apply list_elem_of_singleton in Hn. subst e. apply (Hdis h); set_solver.
Qed.

Lemma list_del_spec s h L1 e L2 :
  dlist s h (L1 ++ e :: L2) →
  ∃ s', list_del e s = Done (tt, s') ∧ dlist s' h (L1 ++ L2) ∧
    same_outside (h :: L1 ++ e :: L2) s s'.
Proof.
  intros [Hp Hnd].
  destruct (neighbours h L1 e L2 Hnd) as (l1 & p & n & l2 & E1 & E2 & Hp1 & Hp2 & Hn2 & Hn1 & Hep & Hen).
  assert (Epath : h :: (L1 ++ e :: L2) ++ [h] = l1 ++ p :: e :: n :: l2).
  { rewrite <- app_assoc, app_comm_cons, E1, <- app_assoc. cbn. by rewrite E2. }
  rewrite Epath in Hp.
  pose proof (path_remove s l1 p e n l2 Hp Hp1 Hp2 Hn2 Hn1) as Hdel.
  exists (set_pv e None (set_nx e None (del p n s))). split.
  { unfold list_del, get_pv, get_nx, __list_del. run_simpl. rewrite (path_pv s l1 p e _ Hp).
    replace (l1 ++ p :: e :: n :: l2) with ((l1 ++ [p]) ++ e :: n :: l2) in Hp by (by rewrite <- app_assoc).
    by rewrite (path_nx s _ e n l2 Hp). }
  assert (Hmem : ∀ x, x ∈ l1 ++ p :: n :: l2 → x ∈ h :: L1 ++ L2).
  { intros x. replace (l1 ++ p :: n :: l2) with ((h :: L1) ++ L2 ++ [h]); [set_solver|].
    by rewrite E2, E1, <- app_assoc. }
  assert (Hnd2 : NoDup (e :: (h :: L1) ++ L2)) by (by rewrite Permutation_middle).
  destruct (NoDup_head _ _ Hnd2) as [He Hnd3].
  split.
  - split.
    + replace (h :: (L1 ++ L2) ++ [h]) with (l1 ++ p :: n :: l2)
        by (rewrite <- app_assoc, app_comm_cons, E1, E2, <- app_assoc; done).
      eapply path_frame; [..|exact Hdel]; cbn.
      * intros x Hx%elem_of_removelast%Hmem. rewrite lookup_insert_ne; [done|intros ->; done].
      * intros y Hy%elem_of_tail%Hmem. rewrite lookup_insert_ne; [done|intros ->; done].
    + exact Hnd3.
  - intros x Hx. unfold del. cbn.
    assert (x ≠ p) by (intros ->; apply Hx; rewrite app_comm_cons, E1; set_solver).
    assert (x ≠ n).
    { intros ->. apply Hx. assert (n ∈ L2 ++ [h]) by (rewrite E2; set_solver). set_solver. }
    assert (x ≠ e) by set_solver. by rewrite !lookup_insert_ne.
Qed.

Lemma list_add_tail_spec s h L new :
  dlist s h L → new ∉ h :: L →
  ∃ s', list_add_tail new h s = Done (tt, s') ∧ dlist s' h (L ++ [new]) ∧ same_outside (new :: h :: L) s s'.
Proof.
  intros [Hp Hnd] Hnew. destruct (NoDup_head _ _ Hnd) as [Hh HndL].
  destruct (exists_last (l := h :: L) ltac:(done)) as (l1 & p & E).
  assert (Epath : h :: L ++ [h] = l1 ++ p :: h :: []) by (rewrite app_comm_cons, E, <- app_assoc; done).
  rewrite Epath in Hp. assert (Hpin : p ∈ h :: L) by (rewrite E; set_solver).
  exists (ins new p h s). split.
  { unfold list_add_tail, get_pv. run_simpl. by rewrite (path_pv s l1 p h [] Hp). }
  assert (Hnd2 : NoDup (h :: L ++ [new])).
  { rewrite app_comm_cons. apply list.NoDup_app. split_and!; [done| |apply NoDup_singleton].
    intros x Hx Hx2. apply list_elem_of_singleton in Hx2 as ->. done. }
  split.
  - split; [|done].
    replace (h :: (L ++ [new]) ++ [h]) with (l1 ++ p :: new :: h :: [])
      by (rewrite <- app_assoc, app_comm_cons, E, <- app_assoc; done).
    rewrite E in Hnd. apply list.NoDup_app in Hnd as (Hnd1 & Hdis & _).
    apply path_insert; try done.
    + rewrite <- Epath. set_solver.
    + intros Hin. apply (Hdis p Hin). set_solver.
    + cbn. apply not_elem_of_nil.
    + apply not_elem_of_nil.
    + rewrite <- E. done.
  - intros x Hx. unfold ins. cbn.
    assert (x ≠ p) by (intros ->; apply Hx; set_solver). rewrite !lookup_insert_ne by set_solver. done.
Qed.

Lemma list_del_init_spec s h L1 e L2 :
  dlist s h (L1 ++ e :: L2) →
  ∃ s', list_del_init e s = Done (tt, s') ∧ dlist s' h (L1 ++ L2) ∧ dlist s' e [] ∧
    same_outside (h :: L1 ++ e :: L2) s s'.
Proof.
  intros HD. destruct (list_del_spec s h L1 e L2 HD) as (s1 & E1 & HD1 & Hs1).
  unfold list_del in E1. unfold list_del_init, INIT_LIST_HEAD. run_simpl.
  destruct (get_pv e s) as [[p ?]|]; [|done]. destruct (get_nx e _) as [[n s0]|]; [|done].
  destruct (__list_del p n s0) as [[[] s2]|]; [|done]. injection E1 as <-.
  assert (He : e ∉ h :: L1 ++ L2).
  { destruct HD as [_ Hnd]. assert (Hnd2 : NoDup (e :: h :: L1 ++ L2)).
    { rewrite app_comm_cons in Hnd. by rewrite app_comm_cons, Permutation_middle. }
    by apply NoDup_head in Hnd2 as [? _]. }
  eexists. split; [done|].
  assert (Hs2 : ∀ x, x ≠ e → nx (set_pv e (Some e) (set_nx e (Some e) s2)) !! x = nx s2 !! x ∧
                  pv (set_pv e (Some e) (set_nx e (Some e) s2)) !! x = pv s2 !! x).
  { intros x Hx. cbn. by rewrite !lookup_insert_ne. }
  assert (Hs3 : ∀ x, x ≠ e → nx (set_pv e None (set_nx e None s2)) !! x = nx s2 !! x ∧
                  pv (set_pv e None (set_nx e None s2)) !! x = pv s2 !! x).
  { intros x Hx. cbn. by rewrite !lookup_insert_ne. }
  split; [|split; [split|]].
  - apply (dlist_frame (set_pv e None (set_nx e None s2)) _ [e]); [|set_solver|done].
    intros x Hx. assert (x ≠ e) by set_solver. destruct (Hs2 x), (Hs3 x); try done. split; congruence.
  - cbn. unfold linked. cbn. by rewrite !lookup_insert_eq.
  - apply NoDup_singleton.
  - intros x Hx. assert (x ≠ e) by set_solver. destruct (Hs1 x Hx), (Hs2 x), (Hs3 x); try done. split; congruence.
Qed.

Lemma list_empty_spec s h L :
  dlist s h L → list_empty h s = Done (bool_decide (L = []), s).
Proof.
  intros [Hp Hnd]. destruct (NoDup_head _ _ Hnd) as [Hh _]. unfold list_empty, get_nx. run_simpl.
  destruct L as [|y L]; rewrite (path_nx s [] h _ _ Hp); unfold mret, M_ret.
  - by rewrite !bool_decide_true.
  - rewrite !bool_decide_false; [done|done|set_solver].
Qed.

Lemma INIT_LIST_HEAD_spec s h :
  ∃ s', INIT_LIST_HEAD h s = Done (tt, s') ∧ dlist s' h [] ∧ same_outside [h] s s'.
Proof.
  eexists. split; [done|]. split; [split|].
  - cbn. unfold linked. cbn. by rewrite !lookup_insert_eq.
  - apply NoDup_singleton.
  - intros x Hx. cbn. rewrite !lookup_insert_ne by set_solver. done.
Qed.

(** The next pointer of the object at a position of the list. *)
Lemma dlist_next s h L1 x L2 :
  dlist s h (L1 ++ x :: L2) →
  nx s !! x = Some (Some (match L2 with [] => h | y :: _ => y end)).
Proof.
  intros [Hp _]. destruct L2 as [|y L2].
  - apply (path_nx s (h :: L1) x h []). by rewrite <- app_assoc in Hp.
  - apply (path_nx s (h :: L1) x y (L2 ++ [h])). by rewrite <- app_assoc in Hp.
Qed.

Lemma dlist_first s h L :
  dlist s h L → nx s !! h = Some (Some (match L with [] => h | y :: _ => y end)).
Proof. intros [Hp _]. destruct L; by apply (path_nx s [] h _ _ Hp). Qed.

#[export] Hint Resolve list_add_spec list_del_spec list_empty_spec INIT_LIST_HEAD_spec : lists.
