(* ===== verification/Softirq.v ===== *)
(** Softirqs and tasklets (src/src/lib/dde_linux26/arch/dde_kit/softirq.c and the
    tasklet inlines of include/linux26/linux/interrupt.h).

    Tasklets live in a heap and are linked through their [next] fields, as in
    the C code.  A tasklet function is a script of calls into the tasklet API,
    so that handlers which reschedule themselves or others are covered.  The
    first part gives the code as sequential programs; the step relation at the
    end interleaves the softirq thread with any number of threads that are
    inside [tasklet_schedule] or [tasklet_kill]. *)

From S2P Require Import Prelude IrqFlags.

(** ** Data *)

Definition HI_SOFTIRQ : nat := 0.
Definition TIMER_SOFTIRQ : nat := 1.
Definition TASKLET_SOFTIRQ : nat := 5.

Definition TASKLET_STATE_SCHED : Z := 0.
Definition TASKLET_STATE_RUN : Z := 1.

Definition MAX_SOFTIRQ_RETRIES : nat := 10.

Record tasklet_struct := Tasklet {
  t_next : option loc;
  t_state : Z;
  t_count : Z;
  t_func : Z;
  t_data : Z;
}.

(** [softirq_vec[nr].action]: a function pointer. *)
Inductive softirq_fn :=
| FnNull
| FnTaskletAction
| FnTaskletHiAction
| FnDriver (id : Z).

Record softirq_action := SoftirqAction { sa_action : softirq_fn; sa_data : Z }.

(** The two tasklet queues [tasklet_vec] and [tasklet_hi_vec]. *)
Inductive tvec := Vec | HiVec.

#[global] Instance tvec_eq_dec : EqDecision tvec.
Proof. solve_decision. Defined.

Record softirq_state := SoftirqState {
  tasklets : gmap loc tasklet_struct;
  tasklet_vec : option loc;      (* tasklet_vec.list *)
  tasklet_hi_vec : option loc;   (* tasklet_hi_vec.list *)
  softirq_pending : Z;           (* irq_stat[0].__softirq_pending *)
  softirq_sem : Z;               (* wakeup semaphore *)
  softirq_vec : list softirq_action;
  irq_refcnt : Z;                (* cli_sti.c *)
  softirq_initialized : bool;    (* init_dde_linux26_softirq *)
  call_log : list (Z * Z);       (* calls t->func(t->data), latest first *)
}.

Abbreviation SM := (M softirq_state).

Definition with_tasklets (h : gmap loc tasklet_struct) (s : softirq_state) : softirq_state :=
  SoftirqState h (tasklet_vec s) (tasklet_hi_vec s) (softirq_pending s) (softirq_sem s)
    (softirq_vec s) (irq_refcnt s) (softirq_initialized s) (call_log s).
Definition with_pending (p : Z) (s : softirq_state) : softirq_state :=
  SoftirqState (tasklets s) (tasklet_vec s) (tasklet_hi_vec s) p (softirq_sem s)
    (softirq_vec s) (irq_refcnt s) (softirq_initialized s) (call_log s).
Definition with_sem (n : Z) (s : softirq_state) : softirq_state :=
  SoftirqState (tasklets s) (tasklet_vec s) (tasklet_hi_vec s) (softirq_pending s) n
    (softirq_vec s) (irq_refcnt s) (softirq_initialized s) (call_log s).
Definition with_irq (r : Z) (s : softirq_state) : softirq_state :=
  SoftirqState (tasklets s) (tasklet_vec s) (tasklet_hi_vec s) (softirq_pending s) (softirq_sem s)
    (softirq_vec s) r (softirq_initialized s) (call_log s).
Definition with_actions (v : list softirq_action) (s : softirq_state) : softirq_state :=
  SoftirqState (tasklets s) (tasklet_vec s) (tasklet_hi_vec s) (softirq_pending s) (softirq_sem s)
    v (irq_refcnt s) (softirq_initialized s) (call_log s).
Definition with_log (l : list (Z * Z)) (s : softirq_state) : softirq_state :=
  SoftirqState (tasklets s) (tasklet_vec s) (tasklet_hi_vec s) (softirq_pending s) (softirq_sem s)
    (softirq_vec s) (irq_refcnt s) (softirq_initialized s) l.
Definition with_init (b : bool) (s : softirq_state) : softirq_state :=
  SoftirqState (tasklets s) (tasklet_vec s) (tasklet_hi_vec s) (softirq_pending s) (softirq_sem s)
    (softirq_vec s) (irq_refcnt s) b (call_log s).
Definition vec_head (v : tvec) (s : softirq_state) : option loc :=
  match v with Vec => tasklet_vec s | HiVec => tasklet_hi_vec s end.
Definition with_head (v : tvec) (p : option loc) (s : softirq_state) : softirq_state :=
  match v with
  | Vec => SoftirqState (tasklets s) p (tasklet_hi_vec s) (softirq_pending s) (softirq_sem s)
      (softirq_vec s) (irq_refcnt s) (softirq_initialized s) (call_log s)
  | HiVec => SoftirqState (tasklets s) (tasklet_vec s) p (softirq_pending s) (softirq_sem s)
      (softirq_vec s) (irq_refcnt s) (softirq_initialized s) (call_log s)
  end.

(** The softirq that a queue raises. *)
Definition vec_nr (v : tvec) : nat :=
  match v with Vec => TASKLET_SOFTIRQ | HiVec => HI_SOFTIRQ end.

(** ** Accesses to a tasklet *)

Definition load (t : loc) : SM tasklet_struct := λ s,
  match tasklets s !! t with Some k => Done (k, s) | None => Fault FNull end.
Definition store (t : loc) (k : tasklet_struct) : SM unit :=
  modify (λ s, with_tasklets (<[t:=k]> (tasklets s)) s).

Definition set_state (x : Z) (k : tasklet_struct) : tasklet_struct :=
  Tasklet (t_next k) x (t_count k) (t_func k) (t_data k).
Definition set_next (p : option loc) (k : tasklet_struct) : tasklet_struct :=
  Tasklet p (t_state k) (t_count k) (t_func k) (t_data k).
Definition set_count (n : Z) (k : tasklet_struct) : tasklet_struct :=
  Tasklet (t_next k) (t_state k) n (t_func k) (t_data k).

Definition test_bit (nr : Z) (t : loc) : SM bool :=
  k ← load t; mret (Z.testbit (t_state k) nr).
Definition test_and_set_bit (nr : Z) (t : loc) : SM bool :=
  k ← load t; store t (set_state (Z.setbit (t_state k) nr) k) ;;
  mret (Z.testbit (t_state k) nr).
Definition test_and_clear_bit (nr : Z) (t : loc) : SM bool :=
  k ← load t; store t (set_state (Z.clearbit (t_state k) nr) k) ;;
  mret (Z.testbit (t_state k) nr).
Definition clear_bit (nr : Z) (t : loc) : SM unit :=
  k ← load t; store t (set_state (Z.clearbit (t_state k) nr) k).

(** Inlines of interrupt.h (CONFIG_SMP). *)
Definition tasklet_trylock (t : loc) : SM bool :=
  b ← test_and_set_bit TASKLET_STATE_RUN t; mret (negb b).
Definition tasklet_unlock (t : loc) : SM unit := clear_bit TASKLET_STATE_RUN t.

Definition tasklet_disable_nosync (t : loc) : SM unit :=
  k ← load t; store t (set_count (s32 (t_count k + 1)) k).
Definition tasklet_enable (t : loc) : SM unit :=
  k ← load t; store t (set_count (s32 (t_count k - 1)) k).

(** ** Softirqs *)

Definition CHECK_INITVAR_softirq : SM unit :=
  b ← gets softirq_initialized; assert FBug b.

(** [softirq_vec[nr] = ...], [softirq_vec] having 32 entries. *)
Definition open_softirq (nr : nat) (action : softirq_fn) (data : Z) : SM unit :=
  v ← gets softirq_vec;
  assert FBounds (bool_decide (nr < length v)%nat) ;;
  modify (with_actions (<[nr := SoftirqAction action data]> v)).

Definition local_irq_save : SM Z :=
  r ← gets irq_refcnt;
  modify (with_irq (__raw_local_irq_save r).2) ;; mret (__raw_local_irq_save r).1.
Definition local_irq_restore (flags : Z) : SM unit :=
  modify (λ s, with_irq (raw_local_irq_restore flags (irq_refcnt s)) s).

Definition or_softirq_pending (x : Z) : SM unit :=
  modify (λ s, with_pending (Z.lor (softirq_pending s) x) s).
Definition dde_kit_sem_up : SM unit := modify (λ s, with_sem (softirq_sem s + 1) s).

Definition raise_softirq_irqoff_cpu (nr : nat) : SM unit :=
  CHECK_INITVAR_softirq ;;
  or_softirq_pending (u32 (Z.shiftl 1 (Z.of_nat nr))) ;;
  dde_kit_sem_up.
Definition raise_softirq_irqoff (nr : nat) : SM unit := raise_softirq_irqoff_cpu nr.
Definition raise_softirq (nr : nat) : SM unit :=
  flags ← local_irq_save; raise_softirq_irqoff nr ;; local_irq_restore flags.
Definition dde_linux26_raise_softirq : SM unit := dde_kit_sem_up.

(** ** Tasklets *)

Definition tasklet_init (t : loc) (func data : Z) : SM unit :=
  store t (Tasklet None 0 0 func data).

Definition __tasklet_enqueue (t : loc) (v : tvec) : SM unit :=
  k ← load t; p ← gets (vec_head v);
  store t (set_next p k) ;; modify (with_head v (Some t)).

Definition __tasklet_schedule (t : loc) : SM unit :=
  CHECK_INITVAR_softirq ;;
  flags ← local_irq_save;
  __tasklet_enqueue t Vec ;; raise_softirq_irqoff_cpu TASKLET_SOFTIRQ ;;
  local_irq_restore flags.
Definition __tasklet_hi_schedule (t : loc) : SM unit :=
  CHECK_INITVAR_softirq ;;
  flags ← local_irq_save;
  __tasklet_enqueue t HiVec ;; raise_softirq_irqoff_cpu HI_SOFTIRQ ;;
  local_irq_restore flags.
Definition tasklet_schedule (t : loc) : SM unit :=
  b ← test_and_set_bit TASKLET_STATE_SCHED t;
  if (b : bool) then mret tt else __tasklet_schedule t.
Definition tasklet_hi_schedule (t : loc) : SM unit :=
  b ← test_and_set_bit TASKLET_STATE_SCHED t;
  if (b : bool) then mret tt else __tasklet_hi_schedule t.

(** [tasklet_kill]: [env] is what the other threads do while it yields; the
    fuel bounds the number of times it looks. *)
Section Kill.
Context (env : SM unit).

(** [do yield(); while (test_bit(SCHED))] *)
Fixpoint kill_yield (fuel : nat) (t : loc) : SM unit :=
  match fuel with
  | O => fail FFuel
  | S fuel => env ;; b ← test_bit TASKLET_STATE_SCHED t;
      if (b : bool) then kill_yield fuel t else mret tt
  end.

Fixpoint kill_acquire (fuel : nat) (t : loc) : SM unit :=
  match fuel with
  | O => fail FFuel
  | S fuel => b ← test_and_set_bit TASKLET_STATE_SCHED t;
      if (b : bool) then kill_yield fuel t ;; kill_acquire fuel t else mret tt
  end.

Fixpoint tasklet_unlock_wait (fuel : nat) (t : loc) : SM unit :=
  match fuel with
  | O => fail FFuel
  | S fuel => b ← test_bit TASKLET_STATE_RUN t;
      if (b : bool) then env ;; tasklet_unlock_wait fuel t else mret tt
  end.

Definition tasklet_kill (fuel : nat) (t : loc) : SM unit :=
  kill_acquire fuel t ;; tasklet_unlock_wait fuel t ;; clear_bit TASKLET_STATE_SCHED t.

End Kill.

(** A tasklet function, as the list of tasklet API calls it makes. *)
Inductive api_call :=
| CallSchedule (t : loc)
| CallHiSchedule (t : loc)
| CallDisable (t : loc)
| CallEnable (t : loc).

Definition run_call (c : api_call) : SM unit :=
  match c with
  | CallSchedule t => tasklet_schedule t
  | CallHiSchedule t => tasklet_hi_schedule t
  | CallDisable t => tasklet_disable_nosync t
  | CallEnable t => tasklet_enable t
  end.

Section Run.
(** What [func(data)] does, and what the softirq handlers of drivers do. *)
Context (script : Z → Z → list api_call) (driver : Z → Z → list api_call).

Definition run_script (cs : list api_call) : SM unit := seqM (map run_call cs).

(** [t->func(t->data)] *)
Definition call_func (k : tasklet_struct) : SM unit :=
  modify (λ s, with_log ((t_func k, t_data k) :: call_log s) s) ;;
  run_script (script (t_func k) (t_data k)).

(** The body of the loop of [tasklet_action] up to the call: [true] if the
    tasklet is locked and its function is to be called. *)
Definition tasklet_try_run (t : loc) : SM bool :=
  locked ← tasklet_trylock t;
  if (locked : bool) then
    k ← load t;
    if t_count k =? 0 then
      b ← test_and_clear_bit TASKLET_STATE_SCHED t;
      assert FBug b ;; mret true
    else tasklet_unlock t ;; mret false
  else mret false.

(** Put a tasklet that cannot run now back on its queue. *)
Definition tasklet_requeue (v : tvec) (t : loc) : SM unit :=
  k ← load t; p ← gets (vec_head v);
  store t (set_next p k) ;; modify (with_head v (Some t)) ;;
  raise_softirq_irqoff_cpu (vec_nr v).

(** [list = vec.list; vec.list = NULL] *)
Definition tasklet_grab (v : tvec) : SM (option loc) :=
  p ← gets (vec_head v); modify (with_head v None) ;; mret p.

Definition tasklet_one (v : tvec) (t : loc) : SM unit :=
  run ← tasklet_try_run t;
  if (run : bool) then k ← load t; call_func k ;; tasklet_unlock t
  else tasklet_requeue v t.

Fixpoint tasklet_loop (fuel : nat) (v : tvec) (list : option loc) : SM unit :=
  match list, fuel with
  | None, _ => mret tt
  | Some _, O => fail FFuel
  | Some t, S fuel =>
      k ← load t;
      tasklet_one v t ;;
      tasklet_loop fuel v (t_next k)
  end.

(** [tasklet_action] and [tasklet_hi_action]; every tasklet is queued once, so
    the number of tasklets bounds the loop. *)
Definition tasklet_action : SM unit :=
  list ← tasklet_grab Vec; n ← gets (λ s, size (tasklets s)); tasklet_loop n Vec list.
Definition tasklet_hi_action : SM unit :=
  list ← tasklet_grab HiVec; n ← gets (λ s, size (tasklets s)); tasklet_loop n HiVec list.

(** [h->action(h)] *)
Definition call_action (nr : nat) : SM unit :=
  v ← gets softirq_vec;
  match v !! nr with
  | None => fail FBounds
  | Some h => match sa_action h with
              | FnNull => fail FNull
              | FnTaskletAction => tasklet_action
              | FnTaskletHiAction => tasklet_hi_action
              | FnDriver id => run_script (driver id (sa_data h))
              end
  end.

(** [while (pending) { if (pending & 1) h->action(h); h++; pending >>= 1; }] *)
Fixpoint pending_loop (fuel : nat) (nr : nat) (pending : Z) : SM unit :=
  if pending =? 0 then mret tt else
  match fuel with
  | O => fail FFuel
  | S fuel =>
      (if Z.land pending 1 =? 0 then mret tt else call_action nr) ;;
      pending_loop fuel (S nr) (Z.shiftr pending 1)
  end.

(** [do { ... } while (local_softirq_pending() && --retries)] *)
Fixpoint softirq_rounds (retries : nat) : SM unit :=
  match retries with
  | O => mret tt
  | S retries =>
      pending ← gets softirq_pending;
      modify (with_pending 0) ;;
      pending_loop 32 0 pending ;;
      p ← gets softirq_pending;
      if p =? 0 then mret tt else softirq_rounds retries
  end.

Definition __do_softirq : SM unit := softirq_rounds MAX_SOFTIRQ_RETRIES.

Definition do_softirq : SM unit :=
  flags ← local_irq_save;
  p ← gets softirq_pending;
  (if p =? 0 then mret tt else __do_softirq) ;;
  local_irq_restore flags.

(** One iteration of [dde_linux26_softirq_thread]; [false] if it would block. *)
Definition softirq_thread_iter : SM bool :=
  n ← gets softirq_sem;
  if 0 <? n then modify (with_sem (n - 1)) ;; do_softirq ;; mret true
  else mret false.

End Run.

(** [dde_linux26_softirq_init]; the thread it creates is the one of the step
    relation below. *)
Definition dde_linux26_softirq_init : SM unit :=
  modify (with_sem 0) ;;
  modify (with_pending 0) ;;
  open_softirq TASKLET_SOFTIRQ FnTaskletAction 0 ;;
  open_softirq HI_SOFTIRQ FnTaskletHiAction 0 ;;
  modify (with_init true).

Definition softirq_boot : softirq_state :=
  SoftirqState ∅ None None 0 0 (replicate 32 (SoftirqAction FnNull 0)) 0 false [].

(** ** The invariant

    [Lv] and [Lh] are the two queues, [priv] the private list of a running
    [tasklet_action] starting at pointer [p], [fl] the tasklets in flight (their
    SCHED bit is set by a thread that has not queued them yet, or holds them in
    [tasklet_kill]) and [run] the tasklet whose function is being called.  A
    tasklet has its SCHED bit set iff it is in exactly one of these places, and
    its RUN bit iff it is running. *)

Record tasklet_inv (D : gset loc) (Lv Lh : list loc) (p : option loc) (priv fl : list loc)
    (run : option loc) (s : softirq_state) : Prop := {
  inv_vec : lseg t_next (tasklets s) (tasklet_vec s) Lv;
  inv_hi : lseg t_next (tasklets s) (tasklet_hi_vec s) Lh;
  inv_priv : lseg t_next (tasklets s) p priv;
  inv_nodup : NoDup (Lv ++ Lh ++ priv ++ fl);
  inv_dom : dom (tasklets s) = D;
  inv_sched : ∀ t k, tasklets s !! t = Some k →
    Z.testbit (t_state k) TASKLET_STATE_SCHED = bool_decide (t ∈ Lv ++ Lh ++ priv ++ fl);
  inv_run : ∀ t k, tasklets s !! t = Some k →
    Z.testbit (t_state k) TASKLET_STATE_RUN = bool_decide (run = Some t);
  inv_fl : ∀ t, t ∈ fl → t ∈ D;
}.

(** The softirq part: the subsystem is initialised, the tasklet actions are in
    place, and every pending softirq has an action. *)
Record softirq_inv (V : list softirq_action) (s : softirq_state) : Prop := {
  sinv_init : softirq_initialized s = true;
  sinv_vec : softirq_vec s = V;
  sinv_len : length V = 32%nat;
  sinv_tasklet : ∃ d, V !! TASKLET_SOFTIRQ = Some (SoftirqAction FnTaskletAction d);
  sinv_hi : ∃ d, V !! HI_SOFTIRQ = Some (SoftirqAction FnTaskletHiAction d);
  sinv_pending : 0 ≤ softirq_pending s < 2 ^ 32;
  sinv_action : ∀ nr, Z.testbit (softirq_pending s) (Z.of_nat nr) = true →
    ∃ h, V !! nr = Some h ∧ sa_action h ≠ FnNull;
}.

(** Everything that holds between two calls of the softirq thread. *)
Definition softirq_ok (D : gset loc) (s : softirq_state) : Prop :=
  softirq_inv (softirq_vec s) s ∧ ∃ Lv Lh, tasklet_inv D Lv Lh None [] [] None s.

Definition call_target (c : api_call) : loc :=
  match c with CallSchedule t | CallHiSchedule t | CallDisable t | CallEnable t => t end.

(** Scripts only use tasklets that exist. *)
Definition script_ok (D : gset loc) (script : Z → Z → list api_call) : Prop :=
  ∀ f d c, c ∈ script f d → call_target c ∈ D.

(** ** Preservation of the invariant by the atomic operations *)

Section Inv.
Context (D : gset loc).
Implicit Types (Lv Lh priv fl : list loc) (p run : option loc) (s : softirq_state).

Lemma inv_lookup Lv Lh p priv fl run s t :
  tasklet_inv D Lv Lh p priv fl run s → t ∈ D → ∃ k, tasklets s !! t = Some k.
Proof. intros HI Ht. rewrite <- (inv_dom _ _ _ _ _ _ _ _ HI) in Ht. by apply elem_of_dom. Qed.

Lemma inv_ext Lv Lh p priv fl run s s' :
  tasklets s' = tasklets s → tasklet_vec s' = tasklet_vec s →
  tasklet_hi_vec s' = tasklet_hi_vec s →
  tasklet_inv D Lv Lh p priv fl run s → tasklet_inv D Lv Lh p priv fl run s'.
Proof. intros E1 E2 E3 []. split; rewrite ?E1, ?E2, ?E3; done. Qed.

(** A store to tasklet [t] that keeps its [next] field. *)
Lemma inv_set Lv Lh p priv fl run s t k k' fl' run' :
  tasklet_inv D Lv Lh p priv fl run s →
  tasklets s !! t = Some k → t_next k' = t_next k →
  NoDup (Lv ++ Lh ++ priv ++ fl') →
  (∀ u, u ≠ t → u ∈ Lv ++ Lh ++ priv ++ fl' ↔ u ∈ Lv ++ Lh ++ priv ++ fl) →
  Z.testbit (t_state k') TASKLET_STATE_SCHED = bool_decide (t ∈ Lv ++ Lh ++ priv ++ fl') →
  Z.testbit (t_state k') TASKLET_STATE_RUN = bool_decide (run' = Some t) →
  (∀ u, u ≠ t → run' = Some u ↔ run = Some u) →
  (∀ u, u ∈ fl' → u ∈ D) →
  tasklet_inv D Lv Lh p priv fl' run' (with_tasklets (<[t:=k']> (tasklets s)) s).
Proof.
  intros HI Hk Hn Hnd Hmem Hs Hr Hrun HD. destruct HI.
  split; cbn [tasklets tasklet_vec tasklet_hi_vec with_tasklets]; eauto with lists.
  - by rewrite dom_insert_lookup_L by eauto.
  - intros u ku [[<- <-]|[Hne Hu]]%lookup_insert_Some; [done|]. rewrite (inv_sched0 u ku Hu). apply bool_decide_ext. symmetry. apply Hmem. congruence.
  - intros u ku [[<- <-]|[Hne Hu]]%lookup_insert_Some; [done|]. rewrite (inv_run0 u ku Hu). apply bool_decide_ext. symmetry. apply Hrun. congruence.
Qed.

Lemma inv_fl_perm Lv Lh p priv fl fl' run s :
  fl ≡ₚ fl' → tasklet_inv D Lv Lh p priv fl run s → tasklet_inv D Lv Lh p priv fl' run s.
Proof.
  intros Hp []. split; try done.
  - by rewrite <- Hp.
  - intros t k Hk. rewrite (inv_sched0 t k Hk). apply bool_decide_ext. by rewrite Hp.
  - intros t. rewrite <- Hp. apply inv_fl0.
Qed.

(** The thread takes the head of its private list. *)
Lemma inv_pop Lv Lh t k priv fl run s :
  tasklets s !! t = Some k →
  tasklet_inv D Lv Lh (Some t) (t :: priv) fl run s →
  tasklet_inv D Lv Lh (t_next k) priv (t :: fl) run s.
Proof.
  intros Hk []. destruct inv_priv0 as (_ & k' & Hk' & HL).
  assert (k' = k) as -> by congruence.
  assert (Hp : priv ++ t :: fl ≡ₚ (t :: priv) ++ fl) by (by rewrite <- Permutation_middle).
  split; try done.
  - by rewrite Hp.
  - intros u ku Hu. rewrite (inv_sched0 u ku Hu). apply bool_decide_ext. by rewrite Hp.
  - intros u [->|]%elem_of_cons; [|by apply inv_fl0]. rewrite <- inv_dom0.
    by eapply elem_of_dom_2.
Qed.

(** A tasklet in flight reaches its queue. *)
Lemma inv_enqueue Lv Lh p priv fl run s t k v :
  tasklets s !! t = Some k →
  tasklet_inv D Lv Lh p priv (t :: fl) run s →
  tasklet_inv D (match v with Vec => t :: Lv | HiVec => Lv end)
    (match v with Vec => Lh | HiVec => t :: Lh end) p priv fl run
    (with_head v (Some t) (with_tasklets (<[t := set_next (vec_head v s) k]> (tasklets s)) s)).
Proof.
  intros Hk []. set (k' := set_next _ _).
  assert (Hp : Lv ++ Lh ++ priv ++ t :: fl ≡ₚ t :: Lv ++ Lh ++ priv ++ fl) by
    (by rewrite <- !Permutation_middle).
  assert (Hq : (match v with Vec => t :: Lv | HiVec => Lv end) ++
    (match v with Vec => Lh | HiVec => t :: Lh end) ++ priv ++ fl ≡ₚ Lv ++ Lh ++ priv ++ t :: fl).
  { rewrite Hp. destruct v; [done|]. cbn. by rewrite <- Permutation_middle. }
  pose proof inv_nodup0 as Hnd. rewrite Hp in Hnd. apply list.NoDup_cons in Hnd as [Hni Hnd].
  rewrite !elem_of_app in Hni.
  assert (t ∉ Lv) by tauto. assert (t ∉ Lh) by tauto. assert (t ∉ priv) by tauto.
  split.
  - destruct v; cbn; [by eapply lseg_cons|by apply lseg_frame].
  - destruct v; cbn; [by apply lseg_frame|by eapply lseg_cons].
  - destruct v; cbn; by apply lseg_frame.
  - by rewrite Hq.
  - destruct v; cbn; by rewrite dom_insert_lookup_L by eauto.
  - intros u ku Hu.
    assert (∃ ku', tasklets s !! u = Some ku' ∧ t_state ku = t_state ku') as (ku' & Hu' & ->).
    { destruct v; cbn in Hu; apply lookup_insert_Some in Hu as [[<- <-]|[??]]; eauto. }
    rewrite (inv_sched0 u ku' Hu'). apply bool_decide_ext. by rewrite Hq.
  - intros u ku Hu.
    assert (∃ ku', tasklets s !! u = Some ku' ∧ t_state ku = t_state ku') as (ku' & Hu' & ->).
    { destruct v; cbn in Hu; apply lookup_insert_Some in Hu as [[<- <-]|[??]]; eauto. }
    by apply inv_run0.
  - intros u Hu. apply inv_fl0. by right.
Qed.

(** [tasklet_action] takes over a queue. *)
Lemma inv_grab Lv Lh fl run s v :
  tasklet_inv D Lv Lh None [] fl run s →
  tasklet_inv D (match v with Vec => [] | HiVec => Lv end)
    (match v with Vec => Lh | HiVec => [] end)
    (vec_head v s) (match v with Vec => Lv | HiVec => Lh end) fl run (with_head v None s).
Proof.
  intros [].
  assert (Hq : (match v with Vec => [] | HiVec => Lv end) ++ (match v with Vec => Lh | HiVec => [] end)
    ++ (match v with Vec => Lv | HiVec => Lh end) ++ fl ≡ₚ Lv ++ Lh ++ [] ++ fl).
  { destruct v; cbn; [|done]. rewrite !(assoc_L (++)). by rewrite (comm (++) Lh Lv). }
  split; try (by destruct v).
  - by rewrite Hq.
  - intros u ku Hu. assert (Hu' : tasklets s !! u = Some ku) by (by destruct v).
    rewrite (inv_sched0 u ku Hu'). apply bool_decide_ext. by rewrite Hq.
Qed.

Lemma softirq_inv_ext V s s' :
  softirq_initialized s' = softirq_initialized s → softirq_vec s' = softirq_vec s →
  softirq_pending s' = softirq_pending s → softirq_inv V s → softirq_inv V s'.
Proof. intros E1 E2 E3 []. split; rewrite ?E1, ?E2, ?E3; done. Qed.

End Inv.

Lemma state_setbit_sched k :
  Z.testbit (Z.setbit k TASKLET_STATE_SCHED) TASKLET_STATE_SCHED = true ∧
  Z.testbit (Z.setbit k TASKLET_STATE_SCHED) TASKLET_STATE_RUN = Z.testbit k TASKLET_STATE_RUN.
Proof. unfold TASKLET_STATE_SCHED, TASKLET_STATE_RUN. by rewrite !Z.setbit_eqb. Qed.

Lemma state_setbit_run k :
  Z.testbit (Z.setbit k TASKLET_STATE_RUN) TASKLET_STATE_RUN = true ∧
  Z.testbit (Z.setbit k TASKLET_STATE_RUN) TASKLET_STATE_SCHED = Z.testbit k TASKLET_STATE_SCHED.
Proof. unfold TASKLET_STATE_SCHED, TASKLET_STATE_RUN. by rewrite !Z.setbit_eqb. Qed.

Lemma state_clearbit_sched k :
  Z.testbit (Z.clearbit k TASKLET_STATE_SCHED) TASKLET_STATE_SCHED = false ∧
  Z.testbit (Z.clearbit k TASKLET_STATE_SCHED) TASKLET_STATE_RUN = Z.testbit k TASKLET_STATE_RUN.
Proof.
  unfold TASKLET_STATE_SCHED, TASKLET_STATE_RUN. rewrite !Z.clearbit_eqb.
  by rewrite andb_false_r, andb_true_r.
Qed.

Lemma state_clearbit_run k :
  Z.testbit (Z.clearbit k TASKLET_STATE_RUN) TASKLET_STATE_RUN = false ∧
  Z.testbit (Z.clearbit k TASKLET_STATE_RUN) TASKLET_STATE_SCHED = Z.testbit k TASKLET_STATE_SCHED.
Proof.
  unfold TASKLET_STATE_SCHED, TASKLET_STATE_RUN. rewrite !Z.clearbit_eqb.
  by rewrite andb_false_r, andb_true_r.
Qed.

(** ** The operations as total programs *)

Section Specs.
Context (D : gset loc) (V : list softirq_action).

(** The invariant with the contents of the queues left open. *)
Definition q_inv (p : option loc) (priv fl : list loc) (run : option loc)
    (s : softirq_state) : Prop :=
  softirq_inv V s ∧ ∃ Lv Lh, tasklet_inv D Lv Lh p priv fl run s.

Lemma q_inv_or p priv fl run nr h s :
  V !! nr = Some h → sa_action h ≠ FnNull → q_inv p priv fl run s →
  q_inv p priv fl run
    (with_pending (Z.lor (softirq_pending s) (u32 (Z.shiftl 1 (Z.of_nat nr)))) s).
Proof.
  intros Hh Hn [[] (Lv & Lh & HI)].
  assert (Hnr : 0 ≤ Z.of_nat nr < 32) by (apply lookup_lt_Some in Hh; lia).
  assert (Hbit : u32 (Z.shiftl 1 (Z.of_nat nr)) = 2 ^ Z.of_nat nr).
  { rewrite Z.shiftl_1_l. apply u32_small. split; [lia|]. apply Z.pow_lt_mono_r; lia. }
  rewrite Hbit. split.
  - split; try done; cbn [softirq_pending with_pending].
    + apply lor_range; [done|]. split; [lia|]. apply Z.pow_lt_mono_r; lia.
    + intros i. rewrite Z.lor_spec. intros [Hp|Hb]%orb_prop; [by apply sinv_action0|].
      rewrite Z.pow2_bits_eqb in Hb by lia. apply Z.eqb_eq in Hb.
      assert (i = nr) as -> by lia. eauto.
  - exists Lv, Lh. by eapply inv_ext; [..|exact HI].
Qed.

Lemma q_inv_ext p priv fl run s s' :
  tasklets s' = tasklets s → tasklet_vec s' = tasklet_vec s →
  tasklet_hi_vec s' = tasklet_hi_vec s → softirq_initialized s' = softirq_initialized s →
  softirq_vec s' = softirq_vec s → softirq_pending s' = softirq_pending s →
  q_inv p priv fl run s → q_inv p priv fl run s'.
Proof.
  intros ?????? [? (Lv & Lh & ?)]. split; [by eapply softirq_inv_ext|].
  exists Lv, Lh. by eapply inv_ext.
Qed.

Lemma q_inv_irq p priv fl run s r : q_inv p priv fl run s → q_inv p priv fl run (with_irq r s).
Proof. by apply q_inv_ext. Qed.

Lemma q_inv_set_count p priv fl run s t k n :
  tasklets s !! t = Some k → q_inv p priv fl run s →
  q_inv p priv fl run (with_tasklets (<[t:=set_count n k]> (tasklets s)) s).
Proof.
  intros Hk [HS (Lv & Lh & HI)]. split; [by eapply softirq_inv_ext; [..|exact HS]|].
  exists Lv, Lh. eapply inv_set; try done.
  - apply HI.
  - by apply (inv_sched _ _ _ _ _ _ _ _ HI t k).
  - by apply (inv_run _ _ _ _ _ _ _ _ HI t k).
  - apply HI.
Qed.

Lemma q_inv_set_sched p priv fl run s t k :
  tasklets s !! t = Some k → Z.testbit (t_state k) TASKLET_STATE_SCHED = false →
  q_inv p priv fl run s →
  q_inv p priv (t :: fl) run
    (with_tasklets (<[t:=set_state (Z.setbit (t_state k) TASKLET_STATE_SCHED) k]> (tasklets s)) s).
Proof.
  intros Hk Hb [HS (Lv & Lh & HI)]. split; [by eapply softirq_inv_ext; [..|exact HS]|].
  exists Lv, Lh. destruct (state_setbit_sched (t_state k)) as [E1 E2].
  assert (Hp : Lv ++ Lh ++ priv ++ t :: fl ≡ₚ t :: Lv ++ Lh ++ priv ++ fl) by
    (by rewrite <- !Permutation_middle).
  assert (t ∉ Lv ++ Lh ++ priv ++ fl).
  { pose proof (inv_sched _ _ _ _ _ _ _ _ HI t k Hk) as E. rewrite Hb in E.
    symmetry in E. by apply bool_decide_eq_false in E. }
  eapply inv_set; try done.
  - rewrite Hp. apply list.NoDup_cons. split; [done|apply HI].
  - intros u Hu. rewrite Hp, elem_of_cons. naive_solver.
  - cbn [set_state t_state]. rewrite E1, bool_decide_true; [done|]. rewrite Hp. by left.
  - cbn [set_state t_state]. rewrite E2. by eapply inv_run.
  - intros u [->|Hu]%elem_of_cons; [|by eapply inv_fl].
    rewrite <- (inv_dom _ _ _ _ _ _ _ _ HI). by eapply elem_of_dom_2.
Qed.

Lemma q_inv_setbit_id p priv fl run s t k b :
  tasklets s !! t = Some k → Z.testbit (t_state k) b = true → 0 ≤ b →
  q_inv p priv fl run s →
  q_inv p priv fl run
    (with_tasklets (<[t:=set_state (Z.setbit (t_state k) b) k]> (tasklets s)) s).
Proof.
  intros Hk Hb ?. assert (set_state (Z.setbit (t_state k) b) k = k) as ->.
  { destruct k as [n st c f d]; unfold set_state; cbn [t_next t_state t_count t_func t_data] in *.
    f_equal. apply Z.bits_inj'. intros m ?. rewrite Z.setbit_eqb by done. destruct (Z.eqb_spec b m) as [->|]; [by rewrite Hb|done]. }
  rewrite insert_id by done. by apply q_inv_ext.
Qed.

Lemma q_inv_enqueue p priv fl run s t k v :
  tasklets s !! t = Some k → q_inv p priv (t :: fl) run s →
  q_inv p priv fl run
    (with_head v (Some t) (with_tasklets (<[t := set_next (vec_head v s) k]> (tasklets s)) s)).
Proof.
  intros Hk [HS (Lv & Lh & HI)]. split; [destruct v; by eapply softirq_inv_ext; [..|exact HS]|].
  do 2 eexists. by eapply inv_enqueue.
Qed.

Lemma q_inv_lookup p priv fl run s t :
  q_inv p priv fl run s → t ∈ D → ∃ k, tasklets s !! t = Some k.
Proof. intros [_ (Lv & Lh & HI)]. by eapply inv_lookup. Qed.

Lemma q_inv_fl p priv fl fl' run s : fl ≡ₚ fl' → q_inv p priv fl run s → q_inv p priv fl' run s.
Proof. intros Hp [HS (Lv & Lh & HI)]. split; [done|]. exists Lv, Lh. by eapply inv_fl_perm. Qed.

Lemma test_and_set_sched_spec p priv fl run t :
  t ∈ D →
  triple (q_inv p priv fl run) (test_and_set_bit TASKLET_STATE_SCHED t)
    (λ b, q_inv p priv (if b : bool then fl else t :: fl) run).
Proof.
  intros Ht s HI. destruct (q_inv_lookup _ _ _ _ _ _ HI Ht) as [k Hk].
  unfold test_and_set_bit, load, store. run_simpl. rewrite Hk. cbn beta iota.
  destruct (Z.testbit (t_state k) TASKLET_STATE_SCHED) eqn:E.
  - by apply q_inv_setbit_id.
  - by apply q_inv_set_sched.
Qed.

Lemma enqueue_spec p priv fl run t v :
  triple (q_inv p priv (t :: fl) run) (__tasklet_enqueue t v) (λ _, q_inv p priv fl run).
Proof.
  intros s HI. destruct (q_inv_lookup _ _ _ _ _ t HI) as [k Hk].
  { destruct HI as [_ (Lv & Lh & HI)]. eapply inv_fl; [done|by left]. }
  unfold __tasklet_enqueue, load, store. run_simpl. rewrite Hk. cbn beta iota.
  by apply q_inv_enqueue.
Qed.

Lemma q_inv_vec_action p priv fl run v s :
  q_inv p priv fl run s → ∃ h, V !! vec_nr v = Some h ∧ sa_action h ≠ FnNull.
Proof.
  intros [HS _]. destruct v; cbn [vec_nr];
    [destruct (sinv_tasklet _ _ HS) as [d Hd]|destruct (sinv_hi _ _ HS) as [d Hd]]; by eexists.
Qed.

Lemma raise_spec p priv fl run v :
  triple (q_inv p priv fl run) (raise_softirq_irqoff_cpu (vec_nr v)) (λ _, q_inv p priv fl run).
Proof.
  intros s HI. unfold raise_softirq_irqoff_cpu, CHECK_INITVAR_softirq, or_softirq_pending,
    dde_kit_sem_up. run_simpl. rewrite (sinv_init V s) by apply HI. cbn beta iota.
  destruct (q_inv_vec_action _ _ _ _ v s HI) as (h & Hh & Hn).
  eapply q_inv_ext, (q_inv_or _ _ _ _ (vec_nr v)); done.
Qed.

(** [__tasklet_schedule] and [__tasklet_hi_schedule]. *)
Definition sched_body (v : tvec) (t : loc) : SM unit :=
  match v with Vec => __tasklet_schedule t | HiVec => __tasklet_hi_schedule t end.

Lemma sched_body_spec p priv fl run t v :
  triple (q_inv p priv (t :: fl) run) (sched_body v t) (λ _, q_inv p priv fl run).
Proof.
  assert (HC : triple (q_inv p priv (t :: fl) run) CHECK_INITVAR_softirq
    (λ _, q_inv p priv (t :: fl) run)).
  { intros s HI. unfold CHECK_INITVAR_softirq. run_simpl. by rewrite (sinv_init V s) by apply HI. }
  assert (HS : triple (q_inv p priv (t :: fl) run) local_irq_save
    (λ _, q_inv p priv (t :: fl) run)).
  { intros s HI. unfold local_irq_save. run_simpl. by apply q_inv_irq. }
  assert (HR : ∀ f, triple (q_inv p priv fl run) (local_irq_restore f) (λ _, q_inv p priv fl run)).
  { intros f s HI. by apply q_inv_irq. }
  destruct v; (eapply triple_bind; [exact HC|intros []];
    eapply triple_bind; [exact HS|intros f];
    eapply triple_bind; [apply enqueue_spec|intros []];
    eapply triple_bind; [|intros ?; apply HR]).
  - apply (raise_spec _ _ _ _ Vec).
  - apply (raise_spec _ _ _ _ HiVec).
Qed.

Lemma run_call_spec p priv fl run c :
  call_target c ∈ D → triple (q_inv p priv fl run) (run_call c) (λ _, q_inv p priv fl run).
Proof.
  destruct c as [t|t|t|t]; cbn [call_target run_call]; intros Ht.
  - eapply triple_bind; [by apply test_and_set_sched_spec|]. intros [|]; cbn beta iota.
    + by apply triple_ret.
    + apply (sched_body_spec _ _ _ _ _ Vec).
  - eapply triple_bind; [by apply test_and_set_sched_spec|]. intros [|]; cbn beta iota.
    + by apply triple_ret.
    + apply (sched_body_spec _ _ _ _ _ HiVec).
  - intros s HI. destruct (q_inv_lookup _ _ _ _ _ _ HI Ht) as [k Hk].
    unfold tasklet_disable_nosync, load, store. run_simpl. rewrite Hk. by apply q_inv_set_count.
  - intros s HI. destruct (q_inv_lookup _ _ _ _ _ _ HI Ht) as [k Hk].
    unfold tasklet_enable, load, store. run_simpl. rewrite Hk. by apply q_inv_set_count.
Qed.

Lemma run_script_spec p priv fl run cs :
  (∀ c, c ∈ cs → call_target c ∈ D) →
  triple (q_inv p priv fl run) (run_script cs) (λ _, q_inv p priv fl run).
Proof.
  intros Hcs. apply triple_seqM, List.Forall_forall. intros m Hm.
  apply in_map_iff in Hm as (c & <- & Hc). apply run_call_spec, Hcs.
  by apply list_elem_of_In.
Qed.

(** *** The tasklet actions *)

Lemma q_inv_lock p priv fl s t k :
  tasklets s !! t = Some k → q_inv p priv fl None s →
  Z.testbit (t_state k) TASKLET_STATE_RUN = false ∧
  q_inv p priv fl (Some t)
    (with_tasklets (<[t:=set_state (Z.setbit (t_state k) TASKLET_STATE_RUN) k]> (tasklets s)) s).
Proof.
  intros Hk [HS (Lv & Lh & HI)]. destruct (state_setbit_run (t_state k)) as [E1 E2].
  split; [by apply (inv_run _ _ _ _ _ _ _ _ HI t k Hk)|].
  split; [by eapply softirq_inv_ext; [..|exact HS]|]. exists Lv, Lh. eapply inv_set; try done.
  - apply HI.
  - cbn [set_state t_state]. rewrite E2. by apply (inv_sched _ _ _ _ _ _ _ _ HI t k).
  - cbn [set_state t_state]. by rewrite E1, bool_decide_true.
  - intros u Hu. split; [congruence|done].
  - apply HI.
Qed.

Lemma q_inv_unlock p priv fl s t k :
  tasklets s !! t = Some k → q_inv p priv fl (Some t) s →
  q_inv p priv fl None
    (with_tasklets (<[t:=set_state (Z.clearbit (t_state k) TASKLET_STATE_RUN) k]> (tasklets s)) s).
Proof.
  intros Hk [HS (Lv & Lh & HI)]. destruct (state_clearbit_run (t_state k)) as [E1 E2].
  split; [by eapply softirq_inv_ext; [..|exact HS]|]. exists Lv, Lh. eapply inv_set; try done.
  - apply HI.
  - cbn [set_state t_state]. rewrite E2. by apply (inv_sched _ _ _ _ _ _ _ _ HI t k).
  - intros u Hu. split; [done|congruence].
  - apply HI.
Qed.

Lemma q_inv_clear_sched p priv fl run s t k :
  tasklets s !! t = Some k → q_inv p priv (t :: fl) run s →
  Z.testbit (t_state k) TASKLET_STATE_SCHED = true ∧
  q_inv p priv fl run
    (with_tasklets (<[t:=set_state (Z.clearbit (t_state k) TASKLET_STATE_SCHED) k]> (tasklets s)) s).
Proof.
  intros Hk [HS (Lv & Lh & HI)]. destruct (state_clearbit_sched (t_state k)) as [E1 E2].
  assert (Hp : Lv ++ Lh ++ priv ++ t :: fl ≡ₚ t :: Lv ++ Lh ++ priv ++ fl) by
    (by rewrite <- !Permutation_middle).
  pose proof (inv_nodup _ _ _ _ _ _ _ _ HI) as Hnd. rewrite Hp in Hnd.
  apply list.NoDup_cons in Hnd as [Hni Hnd].
  split.
  { rewrite (inv_sched _ _ _ _ _ _ _ _ HI t k Hk), bool_decide_true; [done|].
    rewrite Hp. by left. }
  split; [by eapply softirq_inv_ext; [..|exact HS]|]. exists Lv, Lh. eapply inv_set; try done.
  - intros u Hu. rewrite Hp, elem_of_cons. tauto.
  - cbn [set_state t_state]. by rewrite E1, bool_decide_false.
  - cbn [set_state t_state]. rewrite E2. by apply (inv_run _ _ _ _ _ _ _ _ HI t k).
  - intros u Hu. eapply inv_fl; [done|by right].
Qed.

Lemma q_inv_in_fl p priv fl run s t :
  q_inv p priv fl run s → t ∈ fl → ∃ k, tasklets s !! t = Some k.
Proof.
  intros HI Ht. eapply q_inv_lookup; [done|]. destruct HI as [_ (Lv & Lh & HI)].
  by eapply inv_fl.
Qed.

Lemma unlock_spec p priv fl t :
  t ∈ D → triple (q_inv p priv fl (Some t)) (tasklet_unlock t) (λ _, q_inv p priv fl None).
Proof.
  intros Ht s HI. destruct (q_inv_lookup _ _ _ _ _ _ HI Ht) as [k Hk].
  unfold tasklet_unlock, clear_bit, load, store. run_simpl. rewrite Hk. cbn beta iota.
  by apply q_inv_unlock.
Qed.

Lemma lookup_stored (t : loc) k (s : softirq_state) :
  tasklets (with_tasklets (<[t:=k]> (tasklets s)) s) !! t = Some k.
Proof. apply lookup_insert_eq. Qed.

(** The tasklet at hand is locked, and its SCHED bit is cleared iff its
    function is to be called: [BUG()] is not reached. *)
Lemma try_run_spec p priv fl t :
  triple (q_inv p priv (t :: fl) None) (tasklet_try_run t)
    (λ b, if b : bool then q_inv p priv fl (Some t) else q_inv p priv (t :: fl) None).
Proof.
  intros s HI. destruct (q_inv_in_fl _ _ _ _ _ t HI) as [k Hk]; [by left|].
  destruct (q_inv_lock _ _ _ _ _ _ Hk HI) as [Hb HI1].
  unfold tasklet_try_run, tasklet_trylock, test_and_set_bit, load, store.
  run_simpl. rewrite Hk. cbn beta iota. rewrite Hb. cbn [negb]. rewrite lookup_stored.
  set (s1 := with_tasklets _ s) in *.
  set (k1 := set_state _ k) in *. assert (Hk1 : tasklets s1 !! t = Some k1) by apply lookup_stored.
  destruct (t_count k1 =? 0).
  - unfold test_and_clear_bit, load, store. run_simpl. rewrite Hk1. cbn beta iota.
    by destruct (q_inv_clear_sched _ _ _ _ _ _ _ Hk1 HI1) as [-> HI2].
  - unfold tasklet_unlock, clear_bit, load, store. run_simpl. rewrite Hk1. cbn beta iota.
    by apply q_inv_unlock.
Qed.

Lemma requeue_spec p priv fl run t v :
  triple (q_inv p priv (t :: fl) run) (tasklet_requeue v t) (λ _, q_inv p priv fl run).
Proof.
  intros s HI.
  assert (tasklet_requeue v t s =
    (__tasklet_enqueue t v ;; raise_softirq_irqoff_cpu (vec_nr v)) s) as ->.
  { unfold tasklet_requeue, __tasklet_enqueue. run_simpl. unfold load.
    by destruct (tasklets s !! t). }
  eapply triple_bind; [apply enqueue_spec|intros []; apply raise_spec|done].
Qed.

Context (script driver : Z → Z → list api_call).
Context (Hscript : script_ok D script) (Hdriver : script_ok D driver).

Lemma call_func_spec p priv fl run k :
  triple (q_inv p priv fl run) (call_func script k) (λ _, q_inv p priv fl run).
Proof.
  eapply triple_bind; [|intros ?; apply run_script_spec; intros c; apply Hscript].
  apply triple_modify. intros s. by apply q_inv_ext.
Qed.

Lemma one_spec p priv fl t v :
  triple (q_inv p priv (t :: fl) None) (tasklet_one script v t) (λ _, q_inv p priv fl None).
Proof.
  intros s HI. assert (Ht : t ∈ D).
  { destruct HI as [_ (Lv & Lh & HI)]. eapply inv_fl; [done|by left]. }
  revert s HI. change (triple (q_inv p priv (t :: fl) None) (tasklet_one script v t)
    (λ _, q_inv p priv fl None)).
  eapply triple_bind; [apply try_run_spec|]. intros [|]; cbn beta iota; [|apply requeue_spec].
  eapply (triple_bind _ _ (λ _, q_inv p priv fl (Some t))).
  - intros s HI. destruct (q_inv_lookup _ _ _ _ _ _ HI Ht) as [k Hk]. unfold load. by rewrite Hk.
  - intros k. eapply triple_bind; [apply call_func_spec|intros []; by apply unlock_spec].
Qed.

Lemma loop_spec fuel p priv v :
  (length priv ≤ fuel)%nat →
  triple (q_inv p priv [] None) (tasklet_loop script fuel v p) (λ _, q_inv None [] [] None).
Proof.
  revert p priv. induction fuel as [|fuel IH]; intros p priv Hlen s HI;
    pose proof HI as [_ (Lv & Lh & HT)]; pose proof (inv_priv _ _ _ _ _ _ _ _ HT) as HL;
    destruct priv as [|t priv]; simpl in HL, Hlen; try lia.
  - by subst p.
  - by subst p.
  - destruct HL as (-> & k & Hk & HL). cbn [tasklet_loop]. unfold load at 1. run_simpl.
    rewrite Hk. cbn beta iota.
    assert (HI' : q_inv (t_next k) priv [t] None s).
    { split; [apply HI|]. exists Lv, Lh. by apply inv_pop. }
    eapply (triple_bind (q_inv (t_next k) priv [t] None) _ (λ _, q_inv (t_next k) priv [] None));
      [apply one_spec|intros []; apply IH; lia|exact HI'].
Qed.

Lemma q_inv_priv_length p priv fl run s :
  q_inv p priv fl run s → (length priv ≤ size (tasklets s))%nat.
Proof.
  intros [_ (Lv & Lh & HT)]. rewrite <- size_dom.
  assert (NoDup priv) as Hnd.
  { pose proof (inv_nodup _ _ _ _ _ _ _ _ HT) as H.
    apply list.NoDup_app in H as (_ & _ & H). apply list.NoDup_app in H as (_ & _ & H).
    by apply list.NoDup_app in H as (H & _). }
  rewrite <- (size_list_to_set (C := gset loc)) by done. apply subseteq_size.
  intros t Ht%elem_of_list_to_set. apply elem_of_dom.
  eapply lseg_lookup; [exact (inv_priv _ _ _ _ _ _ _ _ HT)|done].
Qed.

Lemma action_spec v :
  triple (q_inv None [] [] None)
    (list ← tasklet_grab v; n ← gets (λ s, size (tasklets s)); tasklet_loop script n v list)
    (λ _, q_inv None [] [] None).
Proof.
  intros s [HS (Lv & Lh & HT)]. unfold tasklet_grab. run_simpl.
  assert (HI : q_inv (vec_head v s) (match v with Vec => Lv | HiVec => Lh end) [] None
    (with_head v None s)).
  { split; [destruct v; by eapply softirq_inv_ext; [..|exact HS]|].
    do 2 eexists. by apply inv_grab. }
  eapply loop_spec; [|exact HI]. by eapply q_inv_priv_length.
Qed.

(** *** The softirq rounds *)

(** The bits of a pending word all have an action, from bit [nr] on. *)
Definition pending_ok (nr : nat) (p : Z) : Prop :=
  0 ≤ p ∧ ∀ i, Z.testbit p (Z.of_nat i) = true →
    ∃ h, V !! (nr + i)%nat = Some h ∧ sa_action h ≠ FnNull.

Lemma call_action_spec nr h :
  V !! nr = Some h → sa_action h ≠ FnNull →
  triple (q_inv None [] [] None) (call_action script driver nr) (λ _, q_inv None [] [] None).
Proof.
  intros Hh Hn s HI. unfold call_action. run_simpl.
  rewrite (sinv_vec V s), Hh by apply HI. destruct (sa_action h) eqn:E; [done|..].
  - by apply (action_spec Vec).
  - by apply (action_spec HiVec).
  - apply run_script_spec; [|done]. intros c. apply Hdriver.
Qed.

Lemma pending_loop_spec fuel nr p :
  pending_ok nr p → p < 2 ^ Z.of_nat fuel →
  triple (q_inv None [] [] None) (pending_loop script driver fuel nr p)
    (λ _, q_inv None [] [] None).
Proof.
  revert nr p. induction fuel as [|fuel IH]; intros nr p [Hp Hok] Hlt.
  - assert (p = 0) as -> by (simpl in Hlt; lia). by apply triple_ret.
  - cbn [pending_loop]. destruct (Z.eqb_spec p 0) as [->|Hne]; [by apply triple_ret|].
    eapply (triple_bind _ _ (λ _, q_inv None [] [] None)).
    + change 1 with (Z.ones 1). rewrite Z.land_ones by lia.
      destruct (Z.eqb_spec (p mod 2 ^ 1) 0) as [|Hodd]; [by apply triple_ret|].
      destruct (Hok 0%nat) as (h & Hh & Hn).
      { rewrite Z.bit0_odd, Zmod_odd in *. by destruct (Z.odd p). }
      rewrite Nat.add_0_r in Hh. by eapply call_action_spec.
    + intros []. apply IH.
      * split; [by apply Z.shiftr_nonneg|]. intros i Hi.
        rewrite Z.shiftr_spec in Hi by lia. destruct (Hok (S i)) as (h & Hh & ?).
        { by replace (Z.of_nat (S i)) with (Z.of_nat i + 1) by lia. }
        exists h. by replace (S nr + i)%nat with (nr + S i)%nat by lia.
      * rewrite Z.shiftr_div_pow2 by lia. rewrite Nat2Z.inj_succ, Z.pow_succ_r in Hlt by lia.
        apply Z.div_lt_upper_bound; lia.
Qed.

Lemma rounds_spec n :
  triple (q_inv None [] [] None) (softirq_rounds script driver n) (λ _, q_inv None [] [] None).
Proof.
  induction n as [|n IH]; [by apply triple_ret|].
  intros s HI. cbn [softirq_rounds]. run_simpl.
  assert (HI' : q_inv None [] [] None (with_pending 0 s)).
  { destruct HI as [[] (Lv & Lh & HT)]. split.
    - split; try done. cbn [softirq_pending with_pending]. intros nr. by rewrite Z.testbit_0_l.
    - exists Lv, Lh. by eapply inv_ext; [..|exact HT]. }
  assert (Hp : pending_ok 0 (softirq_pending s)).
  { destruct HI as [[] _]. split; [lia|done]. }
  assert (Hlt : softirq_pending s < 2 ^ Z.of_nat 32) by (destruct HI as [[] _]; lia).
  pose proof (pending_loop_spec 32 0 (softirq_pending s) Hp Hlt _ HI') as H.
  destruct (pending_loop script driver 32 0 (softirq_pending s) (with_pending 0 s)) as [[[] s']|];
    [|done].
  destruct (softirq_pending s' =? 0); [done|]. by apply IH.
Qed.

Lemma do_softirq_spec :
  triple (q_inv None [] [] None) (do_softirq script driver) (λ _, q_inv None [] [] None).
Proof.
  eapply (triple_bind _ _ (λ _, q_inv None [] [] None)).
  { intros s HI. unfold local_irq_save. run_simpl. by apply q_inv_irq. }
  intros f. eapply (triple_bind _ _ (λ _, q_inv None [] [] None)); [by apply triple_get|].
  intros p. eapply (triple_bind _ _ (λ _, q_inv None [] [] None)).
  { destruct (p =? 0); [by apply triple_ret|apply rounds_spec]. }
  intros [] s HI. by apply q_inv_irq.
Qed.

End Specs.

(** ** Properties *)

(** C1: whatever the tasklet functions and the drivers' softirq handlers do
    with tasklets (reschedule themselves or others, enable and disable them), a
    run of [do_softirq] terminates without reaching [BUG()], a NULL action or an
    access outside a list, and leaves every tasklet on at most one queue with
    its SCHED bit set iff it is queued. *)
Theorem do_softirq_safe (D : gset loc) (script driver : Z → Z → list api_call) (s : softirq_state) :
  script_ok D script → script_ok D driver → softirq_ok D s →
  ∃ s', do_softirq script driver s = Done (tt, s') ∧ softirq_ok D s'.
Proof.
  intros Hs Hd HI.
  destruct (triple_run _ _ _ s (do_softirq_spec D (softirq_vec s) script driver Hs Hd) HI)
    as ([] & s' & E & HS & HT).
  exists s'. split; [done|]. split; [|done]. by rewrite (sinv_vec _ _ HS).
Qed.

(** A concrete system: two tasklets, the first of which reschedules itself and
    the second. *)
Definition demo_tasklets : gmap loc tasklet_struct :=
  {[ 1%positive := Tasklet None 0 0 100 1; 2%positive := Tasklet None 0 0 200 2 ]}.
Definition demo_state : softirq_state :=
  SoftirqState demo_tasklets None None 0 0
    (<[0%nat := SoftirqAction FnTaskletHiAction 0]> (<[5%nat := SoftirqAction FnTaskletAction 0]>
      (replicate 32 (SoftirqAction FnNull 0)))) 0 true [].
Definition demo_script (f d : Z) : list api_call :=
  if f =? 100 then [CallSchedule 1%positive; CallHiSchedule 2%positive] else [].

Lemma demo_ok : softirq_ok {[1%positive; 2%positive]} demo_state.
Proof.
  split.
  - split; try (eexists; reflexivity); try done. intros nr. cbn [softirq_pending demo_state].
    by rewrite Z.testbit_0_l.
  - exists [], []. split; try done.
    + apply NoDup_nil_2.
    + cbn [tasklets demo_state]. unfold demo_tasklets.
      intros t k [[<- <-]|[_ Hk]]%lookup_insert_Some; [done|]. by apply lookup_singleton_Some in Hk as [<- <-].
    + cbn [tasklets demo_state]. unfold demo_tasklets.
      intros t k [[<- <-]|[_ Hk]]%lookup_insert_Some; [done|]. by apply lookup_singleton_Some in Hk as [<- <-].
    + intros t. by rewrite elem_of_nil.
Qed.

Lemma do_softirq_safe_witness :
  ∃ s', do_softirq demo_script (λ _ _, []) demo_state = Done (tt, s') ∧
    softirq_ok {[1%positive; 2%positive]} s'.
Proof.
  apply (do_softirq_safe {[1%positive; 2%positive]} demo_script (λ _ _, []) demo_state).
  - intros f d c. unfold demo_script. destruct (f =? 100); [|by intros ?%elem_of_nil].
    intros [->|[->|?%elem_of_nil]%elem_of_cons]%elem_of_cons; cbn; [set_solver|set_solver|done].
  - intros f d c ?%elem_of_nil. done.
  - apply demo_ok.
Defined.

(** ** Order and number of calls *)

Definition no_script : Z → Z → list api_call := λ _ _, [].

(** What tasklet [t] calls. *)
Definition func_data (h : gmap loc tasklet_struct) (t : loc) : Z * Z :=
  match h !! t with Some k => (t_func k, t_data k) | None => (0, 0) end.

(** [t] is queued, enabled and not running. *)
Definition runnable (h : gmap loc tasklet_struct) (t : loc) : Prop :=
  ∃ k, h !! t = Some k ∧ t_count k = 0 ∧ Z.testbit (t_state k) TASKLET_STATE_SCHED = true ∧
    Z.testbit (t_state k) TASKLET_STATE_RUN = false.

(** [t] is enabled, not queued and not running. *)
Definition idle (h : gmap loc tasklet_struct) (t : loc) : Prop :=
  ∃ k, h !! t = Some k ∧ t_count k = 0 ∧ Z.testbit (t_state k) TASKLET_STATE_SCHED = false ∧
    Z.testbit (t_state k) TASKLET_STATE_RUN = false.

(** Two states that differ only in tasklets outside [ts] and in the log. *)
Definition same_vecs (s s' : softirq_state) : Prop :=
  tasklet_vec s' = tasklet_vec s ∧ tasklet_hi_vec s' = tasklet_hi_vec s ∧
  softirq_pending s' = softirq_pending s ∧ softirq_vec s' = softirq_vec s.

Lemma one_exact s v t :
  runnable (tasklets s) t →
  ∃ k' s', tasklet_one no_script v t s = Done (tt, s') ∧
    tasklets s' = <[t:=k']> (tasklets s) ∧
    same_vecs s s' ∧ call_log s' = func_data (tasklets s) t :: call_log s.
Proof.
  intros (k & Hk & Hc & Hs & Hr).
  unfold tasklet_one, tasklet_try_run, tasklet_trylock, test_and_set_bit, load, store.
  run_simpl. rewrite Hk. cbn beta iota. rewrite Hr. cbn [negb]. rewrite lookup_stored.
  assert ((t_count (set_state (Z.setbit (t_state k) TASKLET_STATE_RUN) k) =? 0) = true) as ->
    by (cbn [set_state t_count]; by rewrite Hc).
  unfold test_and_clear_bit, load, store. run_simpl. rewrite lookup_stored. cbn beta iota.
  destruct (state_setbit_run (t_state k)) as [_ E]. cbn [set_state t_state].
  rewrite E, Hs. cbn beta iota. rewrite lookup_stored. unfold call_func, run_script. run_simpl.
  unfold no_script. cbn [map seqM]. unfold tasklet_unlock, clear_bit, load, store. run_simpl.
  cbn [tasklets with_log with_tasklets]. rewrite lookup_insert_eq.
  do 2 eexists. split; [reflexivity|]. split_and!; try done.
  - cbn [tasklets with_log with_tasklets]. by rewrite !insert_insert_eq.
  - cbn [call_log with_tasklets with_log set_state t_func t_data]. unfold func_data. by rewrite Hk.
Qed.

Lemma loop_exact fuel v p L s :
  lseg t_next (tasklets s) p L → NoDup L → (length L ≤ fuel)%nat →
  Forall (runnable (tasklets s)) L →
  ∃ s', tasklet_loop no_script fuel v p s = Done (tt, s') ∧ same_vecs s s' ∧
    call_log s' = rev (map (func_data (tasklets s)) L) ++ call_log s.
Proof.
  revert p L s. induction fuel as [|fuel IH]; intros p [|t L] s HL Hnd Hlen Hrun;
    simpl in Hlen; try lia.
  - simpl in HL; subst p. by exists s.
  - simpl in HL; subst p. by exists s.
  - destruct HL as (-> & k & Hk & HL). apply list.NoDup_cons in Hnd as [Hni Hnd].
    inversion_clear Hrun as [|?? Hr Hrs].
    destruct (one_exact s v t Hr) as (k' & s1 & E1 & Eh & Hv & Hlog).
    destruct (IH (t_next k) L s1) as (s2 & E2 & Hv2 & Hlog2).
    + rewrite Eh. by apply lseg_frame.
    + done.
    + lia.
    + apply List.Forall_forall. intros u Hu. rewrite List.Forall_forall in Hrs.
      destruct (Hrs u Hu) as (ku & Hku & ?). exists ku. split; [|done]. rewrite Eh.
      rewrite lookup_insert_ne; [done|]. intros <-. by apply Hni, list_elem_of_In.
    + exists s2. cbn [tasklet_loop]. unfold load at 1. run_simpl. rewrite Hk. cbn beta iota.
      rewrite E1, E2. split; [done|]. destruct Hv as (?&?&?&?), Hv2 as (?&?&?&?).
      assert (Hm : map (func_data (tasklets s1)) L = map (func_data (tasklets s)) L).
      { apply map_ext_in. intros u Hu. unfold func_data. rewrite Eh, lookup_insert_ne; [done|].
        intros <-. by apply Hni, list_elem_of_In. }
      split; [unfold same_vecs; repeat split; congruence|].
      rewrite Hlog2, Hlog, Hm. cbn [map rev]. by rewrite <- (assoc_L (++)).
Qed.

Lemma sched_exact s t :
  softirq_initialized s = true → idle (tasklets s) t →
  ∃ k' s', tasklet_schedule t s = Done (tt, s') ∧
    tasklets s' = <[t:=k']> (tasklets s) ∧ t_next k' = tasklet_vec s ∧
    runnable (tasklets s') t ∧ (t_func k', t_data k') = func_data (tasklets s) t ∧
    tasklet_vec s' = Some t ∧ tasklet_hi_vec s' = tasklet_hi_vec s ∧
    softirq_pending s' = Z.lor (softirq_pending s) 32 ∧ softirq_vec s' = softirq_vec s ∧
    softirq_initialized s' = true ∧ call_log s' = call_log s.
Proof.
  intros Hi (k & Hk & Hc & Hs & Hr). destruct (state_setbit_sched (t_state k)) as [E1 E2].
  unfold tasklet_schedule, test_and_set_bit, load, store. run_simpl. rewrite Hk. cbn beta iota.
  rewrite Hs. unfold __tasklet_schedule, CHECK_INITVAR_softirq, local_irq_save, __tasklet_enqueue,
    raise_softirq_irqoff_cpu, CHECK_INITVAR_softirq, or_softirq_pending, dde_kit_sem_up,
    local_irq_restore, load, store.
  run_simpl. cbn [softirq_initialized with_tasklets with_irq tasklets]. rewrite Hi.
  cbn beta iota. cbn [with_irq with_tasklets tasklets]. rewrite lookup_insert_eq. cbn beta iota.
  cbn [softirq_initialized with_tasklets with_irq tasklets with_head]. rewrite Hi.
  cbn beta iota. do 2 eexists. split; [reflexivity|].
  cbn [softirq_initialized with_tasklets with_irq tasklets with_head with_pending with_sem
    tasklet_vec tasklet_hi_vec softirq_pending softirq_vec call_log vec_head].
  split; [by rewrite insert_insert_eq|]. split; [done|].
  split; [|unfold func_data; by rewrite Hk].
  eexists. split; [apply lookup_insert_eq|].
  cbn [set_next set_state t_count t_state]. by rewrite E1, E2.
Qed.

Lemma sched_all_exact ts L s :
  softirq_initialized s = true → lseg t_next (tasklets s) (tasklet_vec s) L →
  NoDup (ts ++ L) → Forall (idle (tasklets s)) ts → Forall (runnable (tasklets s)) L →
  ∃ s', seqM (map tasklet_schedule ts) s = Done (tt, s') ∧
    softirq_initialized s' = true ∧ lseg t_next (tasklets s') (tasklet_vec s') (rev ts ++ L) ∧
    Forall (runnable (tasklets s')) (rev ts ++ L) ∧
    (∀ t, func_data (tasklets s') t = func_data (tasklets s) t) ∧
    tasklet_hi_vec s' = tasklet_hi_vec s ∧
    softirq_pending s' = (match ts with [] => softirq_pending s | _ => Z.lor (softirq_pending s) 32 end) ∧
    softirq_vec s' = softirq_vec s ∧ call_log s' = call_log s ∧
    dom (tasklets s') = dom (tasklets s).
Proof.
  revert L s. induction ts as [|t ts IH]; intros L s Hi HL Hnd Hid Hru.
  { exists s. by split_and!. }
  cbn [app] in Hnd. apply list.NoDup_cons in Hnd as [Hni Hnd]. rewrite elem_of_app in Hni.
  inversion_clear Hid as [|?? Ht Hts].
  destruct (sched_exact s t Hi Ht) as (k' & s1 & E & Eh & Hn & Hr & Hfd & Hv & Hh & Hp & Hvec & Hi1 & Hlog).
  assert (Hother : ∀ u P, u ≠ t → (∃ k, tasklets s !! u = Some k ∧ P k) →
    ∃ k, tasklets s1 !! u = Some k ∧ P k).
  { intros u P Hu (k & Hk & HP). exists k. by rewrite Eh, lookup_insert_ne. }
  destruct (IH (t :: L) s1) as (s2 & E2 & Hi2 & HL2 & Hru2 & Hfd2 & Hh2 & Hp2 & Hvec2 & Hlog2 & Hd2).
  - done.
  - rewrite Hv, Eh. apply (lseg_cons t_next _ (tasklet_vec s)); [tauto|done|done].
  - rewrite <- Permutation_middle. apply list.NoDup_cons. split; [|done]. rewrite elem_of_app. tauto.
  - apply List.Forall_forall. intros u Hu. rewrite List.Forall_forall in Hts.
    apply Hother; [|by apply Hts]. intros ->. apply Hni. left. by apply list_elem_of_In.
  - constructor; [done|]. apply List.Forall_forall. intros u Hu. rewrite List.Forall_forall in Hru.
    apply Hother; [|by apply Hru]. intros ->. apply Hni. right. by apply list_elem_of_In.
  - exists s2. cbn [map seqM]. run_simpl. rewrite E, E2. cbn [rev]. rewrite <- (assoc_L (++)).
    cbn [app]. split_and!; try done; try congruence.
    + intros u. rewrite Hfd2. unfold func_data at 1. rewrite Eh, lookup_insert.
      case_decide; [by subst u; rewrite Hfd|done].
    + rewrite Hp2. destruct ts; rewrite Hp; [done|]. by rewrite <- Z.lor_assoc, Z.lor_diag.
    + rewrite Hd2, Eh. destruct Ht as (k & Hk & _). by rewrite dom_insert_lookup_L by eauto.
Qed.

Lemma pending_loop_tasklet script driver s :
  pending_loop script driver 32 0 32 s = call_action script driver 5 s.
Proof.
  change (pending_loop script driver 32 0 32 s) with
    ((mret tt ;; mret tt ;; mret tt ;; mret tt ;; mret tt ;;
      call_action script driver 5 ;; mret tt : SM unit) s).
  run_simpl. by destruct (call_action script driver 5 s) as [[[] ?]|].
Qed.

(** C3: distinct tasklets that are enabled, not queued and not running are
    scheduled one after the other while both queues and the pending word are
    empty.  The [do_softirq] that follows calls the function of each exactly
    once, the last scheduled first (the queue is a stack), and afterwards the
    queues and the pending word are empty.  The tasklet functions themselves are
    assumed to call nothing of the tasklet interface ([no_script]): one that
    schedules itself again runs once more in the next round. *)
Theorem tasklets_run_once (D : gset loc) (s : softirq_state) (ts : list loc)
    (driver : Z → Z → list api_call) :
  softirq_ok D s → tasklet_vec s = None → tasklet_hi_vec s = None → softirq_pending s = 0 →
  NoDup ts → ts ≠ [] → Forall (idle (tasklets s)) ts →
  ∃ s1 s2, seqM (map tasklet_schedule ts) s = Done (tt, s1) ∧
    do_softirq no_script driver s1 = Done (tt, s2) ∧
    call_log s2 = map (func_data (tasklets s)) ts ++ call_log s ∧
    tasklet_vec s2 = None ∧ tasklet_hi_vec s2 = None ∧ softirq_pending s2 = 0.
Proof.
  intros [HS (Lv & Lh & HT)] Hv Hh Hp Hnd Hne Hid.
  destruct (sched_all_exact ts [] s) as
    (s1 & E1 & Hi1 & HL1 & Hru1 & Hfd1 & Hh1 & Hp1 & Hvec1 & Hlog1 & Hd1).
  { apply HS. } { by rewrite Hv. } { by rewrite app_nil_r. } { done. } { constructor. }
  rewrite app_nil_r in HL1, Hru1.
  assert (Hp32 : softirq_pending s1 = 32) by (rewrite Hp1; destruct ts; [done|by rewrite Hp]).
  set (si := with_irq (__raw_local_irq_save (irq_refcnt s1)).2 s1).
  set (s0 := with_head Vec None (with_pending 0 si)).
  assert (Hnd1 : NoDup (rev ts)) by (by rewrite <- Permutation_rev).
  destruct (loop_exact (size (tasklets s0)) Vec (tasklet_vec s1) (rev ts) s0) as (s2 & E2 & Hsv & Hlog2).
  { exact HL1. } { exact Hnd1. }
  { rewrite <- (size_list_to_set (C := gset loc)) by done. rewrite <- size_dom.
    apply subseteq_size. intros u Hu%elem_of_list_to_set. apply elem_of_dom.
    by eapply lseg_lookup; [exact HL1|]. }
  { exact Hru1. }
  destruct Hsv as (V1 & V2 & V3 & V4).
  exists s1, (with_irq (raw_local_irq_restore (__raw_local_irq_save (irq_refcnt s1)).1
    (irq_refcnt s2)) s2). split; [done|]. split.
  - unfold do_softirq, local_irq_save, local_irq_restore, __do_softirq. run_simpl. fold si.
    change (softirq_pending si) with (softirq_pending s1). rewrite Hp32.
    change (32 =? 0) with false. cbn beta iota. unfold MAX_SOFTIRQ_RETRIES.
    cbn [softirq_rounds]. run_simpl. change (softirq_pending si) with (softirq_pending s1).
    rewrite Hp32, pending_loop_tasklet. unfold call_action. run_simpl.
    change (softirq_vec (with_pending 0 si)) with (softirq_vec s1). rewrite Hvec1.
    destruct (sinv_tasklet _ _ HS) as [d Hd]. unfold TASKLET_SOFTIRQ in Hd. rewrite Hd.
    cbn [sa_action].
    unfold tasklet_action, tasklet_grab. run_simpl. fold s0.
    change (vec_head Vec (with_pending 0 si)) with (tasklet_vec s1). rewrite E2.
    by rewrite V3.
  - cbn [call_log with_irq tasklet_vec tasklet_hi_vec softirq_pending].
    rewrite V1, V2, V3, Hlog2. split_and!; try done.
    + change (call_log s0) with (call_log s1). rewrite Hlog1. f_equal.
      rewrite <- map_rev, rev_involutive. apply map_ext. intros u. by rewrite <- Hfd1.
    + change (tasklet_hi_vec s0) with (tasklet_hi_vec s1). by rewrite Hh1.
Qed.

Lemma tasklets_run_once_witness :
  ∃ s1 s2, seqM (map tasklet_schedule [1%positive; 2%positive]) demo_state = Done (tt, s1) ∧
    do_softirq no_script (λ _ _, []) s1 = Done (tt, s2) ∧
    call_log s2 = [(100, 1); (200, 2)] ∧
    tasklet_vec s2 = None ∧ tasklet_hi_vec s2 = None ∧ softirq_pending s2 = 0.
Proof.
  apply (tasklets_run_once {[1%positive; 2%positive]} demo_state [1%positive; 2%positive]).
  - apply demo_ok.
  - done.
  - done.
  - done.
  - apply (bool_decide_unpack _). reflexivity.
  - done.
  - repeat constructor; (eexists; split; [reflexivity|done]).
Defined.
