(* ===== verification/SoftirqConc.v ===== *)
(** Interleavings of the softirq thread with the threads that schedule, disable
    and kill tasklets (src/src/lib/dde_linux26/arch/dde_kit/softirq.c).

    The DDE does not switch off preemption: [local_irq_save] only counts.  One
    step of the relation is one atomic access of a thread: an atomic bit
    operation, a list update under the queue lock, one read or one write of the
    pending word ([|=] of [or_softirq_pending] is a read and a write), or one
    semaphore operation.  The steps of the softirq thread follow
    [dde_linux26_softirq_thread], [do_softirq], [__do_softirq] and
    [tasklet_action] statement by statement.  The queue lock is taken as
    released after the list update, so the relation has every interleaving of
    the code in which the lock is held until the softirq is raised. *)

From S2P Require Import Prelude IrqFlags Softirq.

(** ** Threads *)

(** Where a thread is that entered the tasklet or softirq API. *)
Inductive stage :=
| StSched (v : tvec) (t : loc)   (* tasklet_schedule: SCHED set, not queued yet *)
| StRaise (nr : nat)             (* or_softirq_pending: about to read the pending word *)
| StOr (nr : nat) (x : Z)        (* or_softirq_pending: read [x], about to write *)
| StUp                           (* about to up the semaphore *)
| StKill (t : loc)               (* tasklet_kill: holds SCHED, in tasklet_unlock_wait *)
| StKillDone (t : loc).          (* tasklet_kill: about to clear SCHED *)

(** The rest of a round of [__do_softirq]: retries left, the index of [h] and
    the local variable [pending]. *)
Record round := Round { rd_retries : nat; rd_nr : nat; rd_pending : Z }.

(** The program counter of the softirq thread. *)
Inductive pc :=
| PSem                                             (* dde_kit_sem_down *)
| PCheck                                           (* if (local_softirq_pending()) *)
| PRead (retries : nat)                            (* pending = local_softirq_pending() *)
| PReset (retries : nat) (p : Z)                   (* set_softirq_pending(0) *)
| PScan (rd : round)                               (* while (pending) *)
| PLoop (rd : round) (v : tvec) (list : option loc)             (* while (list) *)
| PTry (rd : round) (v : tvec) (list : option loc) (t : loc)    (* tasklet_trylock(t) *)
| PCount (rd : round) (v : tvec) (list : option loc) (t : loc)  (* !atomic_read(&t->count) *)
| PClear (rd : round) (v : tvec) (list : option loc) (t : loc)  (* test_and_clear_bit *)
| PCall (rd : round) (v : tvec) (list : option loc) (t : loc)   (* t->func(t->data) *)
| PSkip (rd : round) (v : tvec) (list : option loc) (t : loc)   (* tasklet_unlock(t) *)
| PRequeue (rd : round) (v : tvec) (list : option loc) (t : loc)   (* queue it again *)
| PRaise (rd : round) (v : tvec) (list : option loc)            (* read the pending word *)
| POr (rd : round) (v : tvec) (list : option loc) (x : Z)       (* write it *)
| PUp (rd : round) (v : tvec) (list : option loc)               (* dde_kit_sem_up *)
| PFault.                                          (* BUG() or a NULL action *)

Record sys := Sys { sys_state : softirq_state; sys_pc : pc; sys_threads : list stage }.

Definition next_round (rd : round) : round :=
  Round (rd_retries rd) (S (rd_nr rd)) (Z.shiftr (rd_pending rd) 1).

(** The queue served by a softirq action. *)
Definition fn_vec (f : softirq_fn) : option tvec :=
  match f with FnTaskletAction => Some Vec | FnTaskletHiAction => Some HiVec | _ => None end.

(** The [while] condition of [__do_softirq]: [retries] counts down from
    [MAX_SOFTIRQ_RETRIES]. *)
Definition round_end (retries : nat) (pending : Z) : pc :=
  if pending =? 0 then PSem
  else match retries with
       | S (S r) => PRead (S r)
       | _ => PSem
       end.

(** What the read-modify-write [|=] of [or_softirq_pending] stores when it has
    read [x]. *)
Definition or_word (x : Z) (nr : nat) : Z := Z.lor x (u32 (Z.shiftl 1 (Z.of_nat nr))).

(** ** The step relation *)
Inductive softirqd_step : sys → sys → Prop :=
| StepDown s th :
    0 < softirq_sem s →
    softirqd_step (Sys s PSem th) (Sys (with_sem (softirq_sem s - 1) s) PCheck th)
| StepCheck s th :
    softirqd_step (Sys s PCheck th)
      (Sys s (if softirq_pending s =? 0 then PSem else PRead MAX_SOFTIRQ_RETRIES) th)
| StepRead s r th :
    softirqd_step (Sys s (PRead r) th) (Sys s (PReset r (softirq_pending s)) th)
| StepReset s r p th :
    softirqd_step (Sys s (PReset r p) th) (Sys (with_pending 0 s) (PScan (Round r 0 p)) th)
| StepScanEnd s rd th :
    rd_pending rd = 0 →
    softirqd_step (Sys s (PScan rd) th) (Sys s (round_end (rd_retries rd) (softirq_pending s)) th)
| StepScanSkip s rd th :
    rd_pending rd ≠ 0 → Z.testbit (rd_pending rd) 0 = false →
    softirqd_step (Sys s (PScan rd) th) (Sys s (PScan (next_round rd)) th)
| StepScanTasklet s rd th h v :
    Z.testbit (rd_pending rd) 0 = true → softirq_vec s !! rd_nr rd = Some h →
    fn_vec (sa_action h) = Some v →
    softirqd_step (Sys s (PScan rd) th)
      (Sys (with_head v None s) (PLoop (next_round rd) v (vec_head v s)) th)
| StepScanDriver s rd th h id :
    Z.testbit (rd_pending rd) 0 = true → softirq_vec s !! rd_nr rd = Some h →
    sa_action h = FnDriver id →
    softirqd_step (Sys s (PScan rd) th) (Sys s (PScan (next_round rd)) th)
| StepScanFault s rd th :
    Z.testbit (rd_pending rd) 0 = true →
    (softirq_vec s !! rd_nr rd = None ∨ ∃ d, softirq_vec s !! rd_nr rd = Some (SoftirqAction FnNull d)) →
    softirqd_step (Sys s (PScan rd) th) (Sys s PFault th)
| StepLoopEnd s rd v th :
    softirqd_step (Sys s (PLoop rd v None) th) (Sys s (PScan rd) th)
| StepLoop s rd v t k th :
    tasklets s !! t = Some k →
    softirqd_step (Sys s (PLoop rd v (Some t)) th) (Sys s (PTry rd v (t_next k) t) th)
| StepTry s s' rd v l t b th :
    tasklet_trylock t s = Done (b, s') →
    softirqd_step (Sys s (PTry rd v l t) th)
      (Sys s' (if b : bool then PCount rd v l t else PRequeue rd v l t) th)
| StepCount s rd v l t k th :
    tasklets s !! t = Some k →
    softirqd_step (Sys s (PCount rd v l t) th)
      (Sys s (if t_count k =? 0 then PClear rd v l t else PSkip rd v l t) th)
| StepClear s s' rd v l t b th :
    test_and_clear_bit TASKLET_STATE_SCHED t s = Done (b, s') →
    softirqd_step (Sys s (PClear rd v l t) th)
      (Sys s' (if b : bool then PCall rd v l t else PFault) th)
| StepReturn s s' rd v l t th :
    tasklet_unlock t s = Done (tt, s') →
    softirqd_step (Sys s (PCall rd v l t) th) (Sys s' (PLoop rd v l) th)
| StepSkip s s' rd v l t th :
    tasklet_unlock t s = Done (tt, s') →
    softirqd_step (Sys s (PSkip rd v l t) th) (Sys s' (PRequeue rd v l t) th)
| StepRequeue s s' rd v l t th :
    __tasklet_enqueue t v s = Done (tt, s') →
    softirqd_step (Sys s (PRequeue rd v l t) th) (Sys s' (PRaise rd v l) th)
| StepRequeueRead s rd v l th :
    softirqd_step (Sys s (PRaise rd v l) th) (Sys s (POr rd v l (softirq_pending s)) th)
| StepRequeueWrite s rd v l x th :
    softirqd_step (Sys s (POr rd v l x) th)
      (Sys (with_pending (or_word x (vec_nr v)) s) (PUp rd v l) th)
| StepRequeueUp s s' rd v l th :
    dde_kit_sem_up s = Done (tt, s') →
    softirqd_step (Sys s (PUp rd v l) th) (Sys s' (PLoop rd v l) th).

(** Every other thread, the running tasklet function included. *)
Inductive env_step : sys → sys → Prop :=
| StepSchedStart s s' c v t b th :
    test_and_set_bit TASKLET_STATE_SCHED t s = Done (b, s') →
    env_step (Sys s c th) (Sys s' c (if b : bool then th else StSched v t :: th))
| StepEnqueue s s' c v t th1 th2 :
    __tasklet_enqueue t v s = Done (tt, s') →
    env_step (Sys s c (th1 ++ StSched v t :: th2)) (Sys s' c (StRaise (vec_nr v) :: th1 ++ th2))
| StepRaise s c nr h th :
    softirq_vec s !! nr = Some h → sa_action h ≠ FnNull →
    env_step (Sys s c th) (Sys s c (StRaise nr :: th))
| StepOrRead s c nr th1 th2 :
    env_step (Sys s c (th1 ++ StRaise nr :: th2))
      (Sys s c (StOr nr (softirq_pending s) :: th1 ++ th2))
| StepOrWrite s c nr x th1 th2 :
    env_step (Sys s c (th1 ++ StOr nr x :: th2))
      (Sys (with_pending (or_word x nr) s) c (StUp :: th1 ++ th2))
| StepUp s s' c th1 th2 :
    dde_kit_sem_up s = Done (tt, s') →
    env_step (Sys s c (th1 ++ StUp :: th2)) (Sys s' c (th1 ++ th2))
| StepDisable s s' c t th :
    tasklet_disable_nosync t s = Done (tt, s') →
    env_step (Sys s c th) (Sys s' c th)
| StepEnable s s' c t th :
    tasklet_enable t s = Done (tt, s') →
    env_step (Sys s c th) (Sys s' c th)
| StepKillStart s s' c t b th :
    test_and_set_bit TASKLET_STATE_SCHED t s = Done (b, s') →
    env_step (Sys s c th) (Sys s' c (if b : bool then th else StKill t :: th))
| StepKillWait s s' c t th1 th2 :
    test_bit TASKLET_STATE_RUN t s = Done (false, s') →
    env_step (Sys s c (th1 ++ StKill t :: th2)) (Sys s' c (StKillDone t :: th1 ++ th2))
| StepKillEnd s s' c t th1 th2 :
    clear_bit TASKLET_STATE_SCHED t s = Done (tt, s') →
    env_step (Sys s c (th1 ++ StKillDone t :: th2)) (Sys s' c (th1 ++ th2)).

Inductive step : sys → sys → Prop :=
| StepSoftirqd σ σ' : softirqd_step σ σ' → step σ σ'
| StepEnv σ σ' : env_step σ σ' → step σ σ'.

(** The system after [dde_linux26_softirq_init], with idle tasklets. *)
Definition sys_init (s : softirq_state) : sys := Sys s PSem [].

(** ** The invariant of all interleavings *)

Definition stage_tasklet (st : stage) : option loc :=
  match st with
  | StSched _ t | StKill t | StKillDone t => Some t
  | StRaise _ | StOr _ _ | StUp => None
  end.
Definition inflight (th : list stage) : list loc := omap stage_tasklet th.

(** The tasklet the softirq thread took from its list and has not run or queued. *)
Definition held (c : pc) : list loc :=
  match c with
  | PTry _ _ _ t | PCount _ _ _ t | PClear _ _ _ t | PSkip _ _ _ t | PRequeue _ _ _ t => [t]
  | _ => []
  end.
(** The tasklet whose RUN bit the softirq thread holds. *)
Definition running (c : pc) : option loc :=
  match c with
  | PCount _ _ _ t | PClear _ _ _ t | PCall _ _ _ t | PSkip _ _ _ t => Some t
  | _ => None
  end.
(** Its private list. *)
Definition pc_list (c : pc) : option loc :=
  match c with
  | PLoop _ _ l | PTry _ _ l _ | PCount _ _ l _ | PClear _ _ l _ | PCall _ _ l _
  | PSkip _ _ l _ | PRequeue _ _ l _ | PRaise _ _ l | POr _ _ l _ | PUp _ _ l => l
  | _ => None
  end.
(** The part of the pending word the softirq thread still has to serve. *)
Definition pc_round (c : pc) : round :=
  match c with
  | PReset r p => Round r 0 p
  | PScan rd | PLoop rd _ _ | PTry rd _ _ _ | PCount rd _ _ _ | PClear rd _ _ _
  | PCall rd _ _ _ | PSkip rd _ _ _ | PRequeue rd _ _ _ | PRaise rd _ _ | POr rd _ _ _
  | PUp rd _ _ => rd
  | _ => Round 0 0 0
  end.

(** The value of the pending word a thread has read and is about to or. *)
Definition pc_word (c : pc) : Z := match c with POr _ _ _ x => x | _ => 0 end.

Section ConcInv.
Context (D : gset loc) (V : list softirq_action).

(** A value the pending word may have: a 32-bit word with actions for its bits. *)
Definition word_ok (x : Z) : Prop :=
  0 ≤ x < 2 ^ 32 ∧ ∀ nr, Z.testbit x (Z.of_nat nr) = true →
    ∃ h, V !! nr = Some h ∧ sa_action h ≠ FnNull.

(** What a thread that raises a softirq relies on. *)
Definition stage_ok (st : stage) : Prop :=
  match st with
  | StRaise nr => ∃ h, V !! nr = Some h ∧ sa_action h ≠ FnNull
  | StOr nr x => word_ok x ∧ ∃ h, V !! nr = Some h ∧ sa_action h ≠ FnNull
  | _ => True
  end.

Record conc_inv (σ : sys) : Prop := {
  ci_fault : sys_pc σ ≠ PFault;
  ci_state : ∃ priv, q_inv D V (pc_list (sys_pc σ)) priv
    (held (sys_pc σ) ++ inflight (sys_threads σ)) (running (sys_pc σ)) (sys_state σ);
  ci_round : pending_ok V (rd_nr (pc_round (sys_pc σ))) (rd_pending (pc_round (sys_pc σ)));
  ci_word : word_ok (pc_word (sys_pc σ));
  ci_stage : ∀ st, st ∈ sys_threads σ → stage_ok st;
}.

Lemma inflight_app th1 th2 : inflight (th1 ++ th2) = inflight th1 ++ inflight th2.
Proof. apply omap_app. Qed.

Lemma pending_ok_next rd : pending_ok V (rd_nr rd) (rd_pending rd) →
  pending_ok V (rd_nr (next_round rd)) (rd_pending (next_round rd)).
Proof.
  intros [Hp Hok]. cbn [next_round rd_nr rd_pending]. split; [by apply Z.shiftr_nonneg|].
  intros i Hi. rewrite Z.shiftr_spec in Hi by lia. destruct (Hok (S i)) as (h & Hh & ?).
  { by replace (Z.of_nat (S i)) with (Z.of_nat i + 1) by lia. }
  exists h. by replace (S (rd_nr rd) + i)%nat with (rd_nr rd + S i)%nat by lia.
Qed.

Lemma pending_ok_0 nr : pending_ok V nr 0.
Proof. split; [lia|]. intros i. by rewrite Z.testbit_0_l. Qed.

Lemma load_done_D p priv fl run s t {A} (f : tasklet_struct → SM A) r :
  q_inv D V p priv fl run s → (k ← load t; f k) s = Done r → t ∈ D.
Proof.
  intros [_ (Lv & Lh & HI)] E. rewrite <- (inv_dom _ _ _ _ _ _ _ _ HI). apply elem_of_dom.
  unfold mbind, M_bind, load in E. destruct (tasklets s !! t); [done|discriminate].
Qed.

Lemma try_done p priv fl s s' t b :
  q_inv D V p priv fl None s → tasklet_trylock t s = Done (b, s') →
  b = true ∧ q_inv D V p priv fl (Some t) s'.
Proof.
  intros HI E. unfold tasklet_trylock, test_and_set_bit, load, store in E. run_simpl.
  destruct (tasklets s !! t) as [k|] eqn:Hk; [|discriminate].
  destruct (q_inv_lock D V _ _ _ _ _ _ Hk HI) as [Hb HI']. rewrite Hb in E. by simplify_eq.
Qed.

Lemma clear_done p priv fl run s s' t b :
  q_inv D V p priv (t :: fl) run s → test_and_clear_bit TASKLET_STATE_SCHED t s = Done (b, s') →
  b = true ∧ q_inv D V p priv fl run s'.
Proof.
  intros HI E. unfold test_and_clear_bit, load, store in E. run_simpl.
  destruct (tasklets s !! t) as [k|] eqn:Hk; [|discriminate].
  destruct (q_inv_clear_sched D V _ _ _ _ _ _ _ Hk HI) as [Hb HI']. rewrite Hb in E.
  by simplify_eq.
Qed.

Lemma clear_bit_done p priv fl run s s' t :
  q_inv D V p priv (t :: fl) run s → clear_bit TASKLET_STATE_SCHED t s = Done (tt, s') →
  q_inv D V p priv fl run s'.
Proof.
  intros HI E. unfold clear_bit, load, store in E. run_simpl.
  destruct (tasklets s !! t) as [k|] eqn:Hk; [|discriminate].
  destruct (q_inv_clear_sched D V _ _ _ _ _ _ _ Hk HI) as [Hb HI']. by simplify_eq.
Qed.

Lemma unlock_done p priv fl s s' t :
  q_inv D V p priv fl (Some t) s → tasklet_unlock t s = Done (tt, s') →
  q_inv D V p priv fl None s'.
Proof.
  intros HI E. unfold tasklet_unlock, clear_bit, load, store in E. run_simpl.
  destruct (tasklets s !! t) as [k|] eqn:Hk; [|discriminate].
  simplify_eq. by apply q_inv_unlock.
Qed.

Lemma word_ok_0 : word_ok 0.
Proof. split; [lia|]. intros nr. by rewrite Z.testbit_0_l. Qed.

Lemma q_inv_word p priv fl run s : q_inv D V p priv fl run s → word_ok (softirq_pending s).
Proof. by intros [[] _]. Qed.

Lemma q_inv_pending p priv fl run s x :
  word_ok x → q_inv D V p priv fl run s → q_inv D V p priv fl run (with_pending x s).
Proof.
  intros [? ?] [[] (Lv & Lh & HT)]. split; [by split|].
  exists Lv, Lh. by eapply inv_ext; [..|exact HT].
Qed.

Lemma q_inv_pending0 p priv fl run s :
  q_inv D V p priv fl run s → q_inv D V p priv fl run (with_pending 0 s).
Proof. apply q_inv_pending, word_ok_0. Qed.

(** The write of [|=], whatever happened to the word since the read. *)
Lemma q_inv_or_word p priv fl run s x nr h :
  word_ok x → V !! nr = Some h → sa_action h ≠ FnNull →
  q_inv D V p priv fl run s → q_inv D V p priv fl run (with_pending (or_word x nr) s).
Proof.
  intros Hx Hh Hn HI%(q_inv_pending _ _ _ _ _ _ Hx).
  by apply (q_inv_or D V _ _ _ _ nr h) in HI.
Qed.

Lemma q_inv_sem p priv fl run s s' :
  dde_kit_sem_up s = Done (tt, s') → q_inv D V p priv fl run s → q_inv D V p priv fl run s'.
Proof. unfold dde_kit_sem_up, modify. intros [= <-]. by apply q_inv_ext. Qed.

Lemma q_inv_pending_ok p priv fl run s : q_inv D V p priv fl run s → pending_ok V 0 (softirq_pending s).
Proof. intros [[] _]. split; [lia|done]. Qed.

(** Steps of the softirq thread, one lemma per kind. *)
Lemma ci_step_scan s s' c c' th :
  conc_inv (Sys s c th) → c' ≠ PFault →
  held c = [] → held c' = [] → running c = None → running c' = None →
  pc_list c = None → pc_list c' = None → pc_word c' = 0 →
  (q_inv D V None [] (inflight th) None s → q_inv D V None [] (inflight th) None s') →
  (q_inv D V None [] (inflight th) None s →
    pending_ok V (rd_nr (pc_round c)) (rd_pending (pc_round c)) →
    pending_ok V (rd_nr (pc_round c')) (rd_pending (pc_round c'))) →
  conc_inv (Sys s' c' th).
Proof.
  intros [_ [priv HI] HR _ HN] ? E1 E2 E3 E4 E5 E6 E7 Hs Hr. cbn [sys_state sys_pc sys_threads] in *.
  rewrite E1, E3, E5 in HI. cbn [app] in HI.
  assert (priv = []) as ->.
  { destruct HI as [_ (Lv & Lh & HT)]. by apply (lseg_nil_inv t_next (tasklets s)), HT. }
  split; cbn [sys_state sys_pc sys_threads];
    [done| |by apply Hr|rewrite E7; apply word_ok_0|done].
  exists []. rewrite E2, E4, E6. by apply Hs.
Qed.

(** Steps of the other threads. *)
Lemma ci_step_env s s' c th th' :
  conc_inv (Sys s c th) →
  (∀ p priv run, q_inv D V p priv (held c ++ inflight th) run s →
    q_inv D V p priv (held c ++ inflight th') run s') →
  (∀ st, st ∈ th' → stage_ok st) →
  conc_inv (Sys s' c th').
Proof.
  intros [HF [priv HI] HR HW HN] Hs Hn. cbn [sys_state sys_pc sys_threads] in *.
  split; cbn [sys_state sys_pc sys_threads]; eauto.
Qed.

Lemma round_end_idle r p :
  round_end r p ≠ PFault ∧ held (round_end r p) = [] ∧ running (round_end r p) = None ∧
  pc_list (round_end r p) = None ∧ pc_word (round_end r p) = 0 ∧ pc_round (round_end r p) = Round 0 0 0.
Proof. unfold round_end. destruct (p =? 0); [done|]. by destruct r as [|[|]]. Qed.

Lemma ci_softirqd σ σ' :
  conc_inv σ → softirqd_step σ σ' → conc_inv σ'.
Proof.
  intros HC Hst. pose proof HC as [HF [priv HI] HR HW HN]. destruct Hst;
    cbn [sys_state sys_pc sys_threads held running pc_list pc_round pc_word app] in *.
  - eapply ci_step_scan; [exact HC|done..| |]; cbn; [by apply q_inv_ext|done].
  - eapply ci_step_scan; [exact HC|..]; try (by destruct (_ =? 0)); try done.
  - eapply ci_step_scan; [exact HC|done..|]. cbn. intros HQ _. by eapply q_inv_pending_ok.
  - eapply ci_step_scan; [exact HC|done..|apply q_inv_pending0|done].
  - destruct (round_end_idle (rd_retries rd) (softirq_pending s)) as (?&?&?&?&?&E).
    eapply ci_step_scan; [exact HC|done..|]. intros _ _. rewrite E. apply pending_ok_0.
  - eapply ci_step_scan; [exact HC|done..|]. cbn. intros _. apply pending_ok_next.
  - (* grab *) split; cbn [sys_state sys_pc sys_threads held running pc_list pc_round app]; try done.
    + destruct HI as [HS (Lv & Lh & HT)].
      assert (priv = []) as -> by (by apply (lseg_nil_inv t_next (tasklets s)), HT).
      eexists. split; [|do 2 eexists; by apply inv_grab].
      destruct v; by eapply softirq_inv_ext; [..|exact HS].
    + by apply pending_ok_next.
  - eapply ci_step_scan; [exact HC|done..|]. cbn. intros _. apply pending_ok_next.
  - (* no action *) exfalso. destruct HR as [_ HR]. destruct (HR 0%nat) as (h & Hh & Hn); [done|].
    rewrite Nat.add_0_r in Hh. rewrite (sinv_vec V s) in * by apply HI.
    destruct H0 as [|[d ?]]; simplify_eq.
  - eapply ci_step_scan; [exact HC|done..].
  - (* take the head *) split; cbn [sys_state sys_pc sys_threads held running pc_list pc_round app]; try done.
    destruct HI as [HS (Lv & Lh & HT)]. pose proof (inv_priv _ _ _ _ _ _ _ _ HT) as HL.
    apply lseg_Some_inv in HL as (k' & priv' & -> & Hk' & _).
    exists priv'. split; [done|]. exists Lv, Lh. by apply inv_pop.
  - eapply try_done in H as [-> HI']; [|exact HI]. split; cbn; eauto.
  - split; cbn [sys_state sys_pc sys_threads]; destruct (t_count k =? 0); cbn; eauto.
  - eapply clear_done in H as [-> HI']; [|exact HI]. split; cbn; eauto.
  - eapply unlock_done in H; [|exact HI]. split; cbn; eauto.
  - eapply unlock_done in H; [|exact HI]. split; cbn; eauto.
  - pose proof (triple_done _ _ _ _ _ _ (enqueue_spec D V l priv (inflight th) None t v) HI H) as HI'.
    split; cbn; [done|by exists priv|done..].
  - split; cbn; eauto. by eapply q_inv_word.
  - destruct (q_inv_vec_action D V _ _ _ _ v s HI) as (h & Hh & Hn).
    split; cbn; eauto using word_ok_0, q_inv_or_word.
  - split; cbn; eauto using q_inv_sem.
Qed.

Lemma held_perm c t th : t :: held c ++ inflight th ≡ₚ held c ++ t :: inflight th.
Proof. by rewrite Permutation_middle. Qed.

Lemma fl_mid st t th1 th2 (c : pc) :
  stage_tasklet st = Some t →
  held c ++ inflight (th1 ++ st :: th2) ≡ₚ t :: held c ++ inflight (th1 ++ th2).
Proof.
  intros E. unfold inflight. rewrite !omap_app. cbn [omap list_omap]. rewrite E.
  rewrite <- !Permutation_middle. done.
Qed.

Lemma fl_mid_none st th1 th2 (c : pc) :
  stage_tasklet st = None →
  held c ++ inflight (th1 ++ st :: th2) = held c ++ inflight (th1 ++ th2).
Proof. intros E. unfold inflight. rewrite !omap_app. cbn [omap list_omap]. by rewrite E. Qed.

Lemma in_mid (st st' : stage) th1 th2 : st ∈ th1 ++ th2 → st ∈ th1 ++ st' :: th2.
Proof. rewrite !elem_of_app, elem_of_cons. tauto. Qed.

(** Replacing one stage by another. *)
Lemma stage_step st st' th1 th2 :
  (∀ x, x ∈ th1 ++ st :: th2 → stage_ok x) → (stage_ok st → stage_ok st') →
  ∀ x, x ∈ st' :: th1 ++ th2 → stage_ok x.
Proof.
  intros H Hst x [->|Hx]%elem_of_cons; [|by apply H, in_mid].
  apply Hst, H, elem_of_app. right. by left.
Qed.

Lemma stage_new (b : bool) st th :
  (∀ x, x ∈ th → stage_ok x) → stage_ok st →
  ∀ x, x ∈ (if b then th else st :: th) → stage_ok x.
Proof. intros H Hst x. destruct b; [apply H|]. intros [->|?]%elem_of_cons; auto. Qed.

Lemma ci_env σ σ' : conc_inv σ → env_step σ σ' → conc_inv σ'.
Proof.
  intros HC Hst. pose proof HC as [HF [priv HI] HR HW HN]. destruct Hst;
    cbn [sys_state sys_pc sys_threads] in *; (eapply ci_step_env; [exact HC|clear HI; intros p pr run HI|]);
    try (by apply stage_new); try (by eapply stage_step); try done;
    try (by intros st ?; apply HN, in_mid).
  - pose proof (load_done_D _ _ _ _ _ _ _ _ HI H) as Ht.
    pose proof (triple_done _ _ _ _ _ _ (test_and_set_sched_spec D V _ _ _ _ _ Ht) HI H) as HI'.
    destruct b; [done|]. cbn in HI'. by eapply q_inv_fl, HI'; apply held_perm.
  - eapply q_inv_fl in HI; [|by apply fl_mid].
    eapply (triple_done _ _ _ _ _ _ (enqueue_spec D V _ _ _ _ _ _) HI H).
  - eapply stage_step; [exact HN|]. intros _. by eapply q_inv_vec_action.
  - apply (stage_new false); [done|]. exists h. by rewrite <- (sinv_vec V s) by apply HI.
  - by rewrite fl_mid_none in HI by done.
  - eapply stage_step; [exact HN|]. intros Hst. split; [by eapply q_inv_word|done].
  - rewrite fl_mid_none in HI by done.
    destruct (HN (StOr nr x)) as (Hx & h & Hh & Hn). { apply elem_of_app. right. by left. }
    by eapply q_inv_or_word.
  - rewrite fl_mid_none in HI by done. by eapply q_inv_sem.
  - pose proof (load_done_D _ _ _ _ _ _ _ _ HI H) as Ht.
    exact (triple_done _ _ _ _ _ _ (run_call_spec D V _ _ _ _ (CallDisable t) Ht) HI H).
  - pose proof (load_done_D _ _ _ _ _ _ _ _ HI H) as Ht.
    exact (triple_done _ _ _ _ _ _ (run_call_spec D V _ _ _ _ (CallEnable t) Ht) HI H).
  - pose proof (load_done_D _ _ _ _ _ _ _ _ HI H) as Ht.
    pose proof (triple_done _ _ _ _ _ _ (test_and_set_sched_spec D V _ _ _ _ _ Ht) HI H) as HI'.
    destruct b; [done|]. cbn in HI'. by eapply q_inv_fl, HI'; apply held_perm.
  - assert (s' = s) as ->.
    { unfold test_bit, load in H. run_simpl. destruct (tasklets s !! t); by simplify_eq. }
    eapply q_inv_fl, HI. rewrite fl_mid by done. apply held_perm.
  - eapply q_inv_fl in HI; [|by apply fl_mid]. by eapply clear_bit_done.
Qed.

End ConcInv.

(** One step of a concrete run; the state reached is normalised. *)
Ltac trace_step c :=
  eapply rtc_l; [c; try reflexivity; done|];
  match goal with
  | |- rtc _ ?σ _ => let σ' := eval vm_compute in σ in change σ with σ'
  end.

(** A run in which a driver schedules tasklet 1; the softirq thread is idle. *)
Definition demo_queued : sys :=
  match (test_and_set_bit TASKLET_STATE_SCHED 1%positive ;; __tasklet_schedule 1%positive) demo_state with
  | Done (_, s) => Sys (with_irq 0 s) PSem []
  | Fault _ => sys_init demo_state
  end.

Lemma demo_queued_reach : rtc step (sys_init demo_state) demo_queued.
Proof.
  unfold sys_init.
  trace_step ltac:(apply StepEnv; eapply (StepSchedStart _ _ _ Vec 1%positive false)).
  trace_step ltac:(apply StepEnv; eapply (StepEnqueue _ _ _ Vec 1%positive [] [])).
  trace_step ltac:(apply StepEnv; eapply (StepOrRead _ _ 5 [] [])).
  trace_step ltac:(apply StepEnv; eapply (StepOrWrite _ _ 5 _ [] [])).
  trace_step ltac:(apply StepEnv; eapply (StepUp _ _ _ [] [])).
  apply rtc_refl.
Qed.

(** ** Properties *)

Lemma conc_inv_init D s :
  softirq_ok D s → conc_inv D (softirq_vec s) (sys_init s).
Proof.
  intros HS. split; cbn; [done|exists []; exact HS|apply pending_ok_0|apply word_ok_0|by intros st ?%elem_of_nil].
Qed.

Lemma conc_inv_step D V σ σ' : conc_inv D V σ → step σ σ' → conc_inv D V σ'.
Proof. intros HC Hst. revert HC. destruct Hst; intros HC; [by eapply ci_softirqd|by eapply ci_env]. Qed.

Lemma conc_inv_reach D V σ σ' : conc_inv D V σ → rtc step σ σ' → conc_inv D V σ'.
Proof. intros HC Hr. induction Hr; eauto using conc_inv_step. Qed.

(** C2: in every interleaving of the softirq thread with threads that schedule,
    raise, enable, disable and kill tasklets, the softirq thread never reaches
    [BUG()] or a missing action, and at every moment each tasklet is in at most
    one place (a queue, the private list, in flight) with its SCHED bit set iff
    it is in one, and its RUN bit set iff the softirq thread holds it. *)
Theorem tasklets_interleaved_safe (D : gset loc) (s : softirq_state) (σ : sys) :
  softirq_ok D s → rtc step (sys_init s) σ →
  sys_pc σ ≠ PFault ∧
  ∃ Lv Lh priv, tasklet_inv D Lv Lh (pc_list (sys_pc σ)) priv
    (held (sys_pc σ) ++ inflight (sys_threads σ)) (running (sys_pc σ)) (sys_state σ).
Proof.
  intros HS Hr. destruct (conc_inv_reach D (softirq_vec s) _ σ (conc_inv_init D s HS) Hr)
    as [HF [priv [_ (Lv & Lh & HT)]] _ _ _]. eauto.
Qed.

Lemma tasklets_interleaved_safe_witness :
  sys_pc demo_queued ≠ PFault ∧
  ∃ Lv Lh priv, tasklet_inv {[1%positive; 2%positive]} Lv Lh (pc_list (sys_pc demo_queued)) priv
    (held (sys_pc demo_queued) ++ inflight (sys_threads demo_queued))
    (running (sys_pc demo_queued)) (sys_state demo_queued).
Proof.
  apply (tasklets_interleaved_safe {[1%positive; 2%positive]} demo_state demo_queued).
  - apply demo_ok.
  - apply demo_queued_reach.
Defined.

(** C4: in the source, reading and resetting the pending word are two accesses,
    and a wake-up can be lost.  The softirq thread has read a pending word with
    only HI_SOFTIRQ set; before it resets the word a driver schedules a tasklet.
    The run ends with the tasklet queued and marked scheduled, no thread in the
    API, the pending word 0 and the softirq thread blocked on its semaphore;
    scheduling the tasklet again does nothing, as its SCHED bit is set. *)
Theorem lost_wakeup :
  ∃ σ k, rtc step (sys_init demo_state) σ ∧
    sys_pc σ = PSem ∧ sys_threads σ = [] ∧
    tasklet_vec (sys_state σ) = Some 2%positive ∧
    tasklets (sys_state σ) !! 2%positive = Some k ∧ t_count k = 0 ∧
    softirq_pending (sys_state σ) = 0 ∧ softirq_sem (sys_state σ) = 0 ∧
    tasklet_schedule 2%positive (sys_state σ) = Done (tt, sys_state σ).
Proof.
  eexists _, _. split.
  { unfold sys_init.
    trace_step ltac:(apply StepEnv; eapply (StepSchedStart _ _ _ HiVec 1%positive false)).
    trace_step ltac:(apply StepEnv; eapply (StepEnqueue _ _ _ HiVec 1%positive [] [])).
    trace_step ltac:(apply StepEnv; eapply (StepOrRead _ _ 0 [] [])).
    trace_step ltac:(apply StepEnv; eapply (StepOrWrite _ _ 0 _ [] [])).
    trace_step ltac:(apply StepEnv; eapply (StepUp _ _ _ [] [])).
    trace_step ltac:(apply StepSoftirqd; eapply StepDown).
    trace_step ltac:(apply StepSoftirqd; eapply StepCheck).
    trace_step ltac:(apply StepSoftirqd; eapply (StepRead _ 10)).
    trace_step ltac:(apply StepEnv; eapply (StepSchedStart _ _ _ Vec 2%positive false)).
    trace_step ltac:(apply StepEnv; eapply (StepEnqueue _ _ _ Vec 2%positive [] [])).
    trace_step ltac:(apply StepEnv; eapply (StepOrRead _ _ 5 [] [])).
    trace_step ltac:(apply StepEnv; eapply (StepOrWrite _ _ 5 _ [] [])).
    trace_step ltac:(apply StepEnv; eapply (StepUp _ _ _ [] [])).
    trace_step ltac:(apply StepSoftirqd; eapply StepReset).
    trace_step ltac:(apply StepSoftirqd; eapply (StepScanTasklet _ _ _ (SoftirqAction FnTaskletHiAction 0) HiVec)).
    trace_step ltac:(apply StepSoftirqd; eapply (StepLoop _ _ HiVec 1%positive _)).
    trace_step ltac:(apply StepSoftirqd; eapply (StepTry _ _ _ _ _ _ true)).
    trace_step ltac:(apply StepSoftirqd; eapply (StepCount _ _ _ _ _ _)).
    trace_step ltac:(apply StepSoftirqd; eapply (StepClear _ _ _ _ _ _ true)).
    trace_step ltac:(apply StepSoftirqd; eapply StepReturn).
    trace_step ltac:(apply StepSoftirqd; eapply StepLoopEnd).
    trace_step ltac:(apply StepSoftirqd; eapply StepScanEnd).
    trace_step ltac:(apply StepSoftirqd; eapply StepDown).
    trace_step ltac:(apply StepSoftirqd; eapply StepCheck).
    apply rtc_refl. }
  split_and!; reflexivity.
Qed.
