(* ===== verification/Irq.v ===== *)
(** Interrupt bookkeeping (src/src/lib/dde_linux26/arch/dde_kit/irq.c).

    Descriptors and actions are heap objects linked through their [next]
    fields.  The specification is a table that gives every claimed interrupt
    its sharing mode and its handlers; [request_irq] is proved to refine the
    table's update, and [irq_handler] to call exactly the table's handlers. *)

From S2P Require Import Prelude IrqFlags Kit Softirq.

(** [SA_SHIRQ], i.e. IRQF_SHARED. *)
Definition SA_SHIRQ : Z := 0x80.

(** [struct irqaction]; the fields [mask] and [dir] stay 0. *)
Record irqaction := IrqAction {
  ia_handler : Z;
  ia_flags : Z;
  ia_name : Z;
  ia_dev_id : Z;
  ia_next : option loc;
  ia_irq : Z;
}.

(** [struct dde_linux26_irq]; its field [thread] stays NULL. *)
Record dde_linux26_irq := DdeIrq {
  di_irq : Z;
  di_count : Z;
  di_shared : Z;
  di_action : option loc;
  di_next : option loc;
}.

Section Irq.
Context {A : Type} `{KitMemory A}.

Record irq_state := IrqState {
  descs : gmap loc dde_linux26_irq;
  actions : gmap loc irqaction;
  used_irqs : option loc;
  mem : A;
  sq : softirq_state;
  enabled : gmap Z bool;               (* dde_kit_interrupt_{en,dis}able *)
  irq_log : list (Z * Z * Z);          (* handler(irq, dev_id) calls, latest first *)
}.

Abbreviation IM := (M irq_state).

Definition with_descs (h : gmap loc dde_linux26_irq) (s : irq_state) : irq_state :=
  IrqState h (actions s) (used_irqs s) (mem s) (sq s) (enabled s) (irq_log s).
Definition with_irqactions (h : gmap loc irqaction) (s : irq_state) : irq_state :=
  IrqState (descs s) h (used_irqs s) (mem s) (sq s) (enabled s) (irq_log s).
Definition with_used (p : option loc) (s : irq_state) : irq_state :=
  IrqState (descs s) (actions s) p (mem s) (sq s) (enabled s) (irq_log s).
Definition with_mem (a : A) (s : irq_state) : irq_state :=
  IrqState (descs s) (actions s) (used_irqs s) a (sq s) (enabled s) (irq_log s).
Definition with_sq (q : softirq_state) (s : irq_state) : irq_state :=
  IrqState (descs s) (actions s) (used_irqs s) (mem s) q (enabled s) (irq_log s).
Definition with_enabled (i : Z) (b : bool) (s : irq_state) : irq_state :=
  IrqState (descs s) (actions s) (used_irqs s) (mem s) (sq s) (<[i:=b]> (enabled s)) (irq_log s).
Definition with_irq_log (l : list (Z * Z * Z)) (s : irq_state) : irq_state :=
  IrqState (descs s) (actions s) (used_irqs s) (mem s) (sq s) (enabled s) l.

(** A pointer into freed memory is a fault. *)
Definition load_desc (d : loc) : IM dde_linux26_irq := λ s,
  match descs s !! d with Some k => Done (k, s) | None => Fault FFreed end.
Definition load_action (a : loc) : IM irqaction := λ s,
  match actions s !! a with Some k => Done (k, s) | None => Fault FFreed end.
Definition store_desc (d : loc) (k : dde_linux26_irq) : IM unit :=
  modify (λ s, with_descs (<[d:=k]> (descs s)) s).
Definition store_action (a : loc) (k : irqaction) : IM unit :=
  modify (λ s, with_irqactions (<[a:=k]> (actions s)) s).

Definition dde_kit_simple_malloc : IM (option loc) := λ s,
  match kit_malloc (mem s) with
  | Some (l, m) => Done (Some l, with_mem m s)
  | None => Done (None, s)
  end.
Definition free_desc (d : loc) : IM unit :=
  modify (λ s, with_mem (kit_free d (mem s)) (with_descs (delete d (descs s)) s)).

(** Run a softirq operation on the softirq part of the state. *)
Definition lift_sq {X} (m : M softirq_state X) : IM X := λ s,
  match m (sq s) with Done (x, q) => Done (x, with_sq q s) | Fault e => Fault e end.

Section Handlers.
(** What a handler does with tasklets when called as [handler(irq, dev_id)]. *)
Context (isr : Z → Z → Z → list api_call).

Definition call_handler (k : irqaction) : IM unit :=
  modify (λ s, with_irq_log ((ia_handler k, ia_irq k, ia_dev_id k) :: irq_log s) s) ;;
  lift_sq (run_script (isr (ia_handler k) (ia_irq k) (ia_dev_id k))).

(** [for (action = irq->action; action; action = action->next)] *)
Fixpoint action_loop (fuel : nat) (action : option loc) : IM unit :=
  match action, fuel with
  | None, _ => mret tt
  | Some _, O => fail FFuel
  | Some a, S fuel =>
      k ← load_action a; call_handler k ;;
      k' ← load_action a; action_loop fuel (ia_next k')
  end.

Definition irq_handler (irq : loc) : IM unit :=
  d ← load_desc irq;
  n ← gets (λ s, size (actions s));
  action_loop n (di_action d) ;;
  p ← lift_sq (gets softirq_pending);
  if p =? 0 then mret tt else lift_sq dde_linux26_raise_softirq.

End Handlers.

Section Claim.
(** The result of [dde_kit_interrupt_attach(irq, shared, ...)], 0 if it
    succeeds. *)
Context (attach : irq_state → Z → Z → Z).

(** [for (irq = used_irqs; irq; irq = irq->next) if (irq->irq == n) break;] *)
Fixpoint find_desc (fuel : nat) (p : option loc) (n : Z) : IM (option loc) :=
  match p, fuel with
  | None, _ => mret None
  | Some _, O => fail FFuel
  | Some d, S fuel =>
      k ← load_desc d;
      if di_irq k =? n then mret (Some d) else find_desc fuel (di_next k) n
  end.

(** Set up a descriptor for a new interrupt; the result is the descriptor or
    the error code. *)
Definition setup_irq (n shared : Z) : IM (loc + Z) :=
  p ← dde_kit_simple_malloc;
  match p with
  | None => mret (inr (- ENOMEM))
  | Some d =>
      u ← gets used_irqs;
      store_desc d (DdeIrq n 0 shared None u) ;;
      modify (with_used (Some d)) ;;
      ret ← gets (λ s, attach s n shared);
      if ret =? 0 then mret (inl d)
      else free_desc d ;; mret (inr (- EBUSY))
  end.

Definition is_null (p : option loc) : bool := match p with None => true | Some _ => false end.

(** The check and the insertion at the end of [claim_irq]. *)
Definition add_handler (d action : loc) (shared : Z) : IM Z :=
  k ← load_desc d;
  if ((di_shared k =? 0) || (shared =? 0)) && negb (is_null (di_action k))
  then mret (- EBUSY)
  else
    a ← load_action action;
    store_action action
      (IrqAction (ia_handler a) (ia_flags a) (ia_name a) (ia_dev_id a) (di_action k) (ia_irq a)) ;;
    store_desc d (DdeIrq (di_irq k) (u32 (di_count k + 1)) (di_shared k) (Some action) (di_next k)) ;;
    mret (s32 (u32 (di_count k + 1))).

Definition claim_irq (action : loc) : IM Z :=
  a ← load_action action;
  let shared := if Z.land (ia_flags a) SA_SHIRQ =? 0 then 0 else 1 in
  u ← gets used_irqs;
  fuel ← gets (λ s, size (descs s));
  f ← find_desc (S fuel) u (ia_irq a);
  match f with
  | Some d => add_handler d action shared
  | None =>
      r ← setup_irq (ia_irq a) shared;
      match r with
      | inl d => add_handler d action shared
      | inr e => mret e
      end
  end.

Definition request_irq (irq handler flags dev_name dev_id : Z) : IM Z :=
  if handler =? 0 then mret (- EINVAL) else
  p ← dde_kit_simple_malloc;
  match p with
  | None => mret (- ENOMEM)
  | Some a =>
      store_action a (IrqAction handler flags dev_name dev_id None irq) ;;
      err ← claim_irq a;
      if err <? 0 then mret err else mret 0
  end.

End Claim.

Definition release_irq (irq_num : Z) : IM Z := mret (- EPERM).
Definition free_irq (irq dev_id : Z) : IM unit := mret tt.
Definition disable_irq (irq : Z) : IM unit := modify (with_enabled irq false).
Definition disable_irq_nosync (irq : Z) : IM unit := modify (with_enabled irq false).
Definition enable_irq (irq : Z) : IM unit := modify (with_enabled irq true).

(** ** Specification: the table of claimed interrupts *)

Record irq_entry := IrqEntry {
  e_irq : Z;
  e_shared : bool;
  e_handlers : list (Z * Z);   (* handler and dev_id, latest first *)
}.

Definition tbl_find (irq : Z) (T : list irq_entry) : option irq_entry :=
  find (λ e, e_irq e =? irq) T.

Definition tbl_add (irq : Z) (h : Z * Z) (T : list irq_entry) : list irq_entry :=
  map (λ e, if e_irq e =? irq then IrqEntry irq (e_shared e) (h :: e_handlers e) else e) T.

(** A new interrupt takes the sharing mode of its first handler; a further
    handler needs both to be shared. *)
Definition spec_claim (irq : Z) (shared : bool) (h : Z * Z) (T : list irq_entry) :
    Z * list irq_entry :=
  match tbl_find irq T with
  | None => (0, IrqEntry irq shared [h] :: T)
  | Some e => if e_shared e && shared then (0, tbl_add irq h T) else (- EBUSY, T)
  end.

Definition spec_request (m : A) (irq handler : Z) (shared : bool) (dev : Z) (T : list irq_entry) :
    Z * list irq_entry :=
  if handler =? 0 then (- EINVAL, T)
  else if can_alloc (match tbl_find irq T with None => 2 | Some _ => 1 end) m
  then spec_claim irq shared (handler, dev) T
  else (- ENOMEM, T).

(** The request gets as far as [dde_kit_interrupt_attach]. *)
Definition asks_attach (m : A) (irq handler : Z) (T : list irq_entry) : bool :=
  negb (handler =? 0) && can_alloc 2 m &&
  match tbl_find irq T with None => true | Some _ => false end.

(** ** Representation of a table in the heap *)

Definition action_rep (s : irq_state) (irq : Z) (l : loc) (h : Z * Z) : Prop :=
  ∃ a, actions s !! l = Some a ∧ ia_irq a = irq ∧ (ia_handler a, ia_dev_id a) = h.

Definition desc_rep (s : irq_state) (d : loc) (e : irq_entry) : Prop :=
  ∃ k La, descs s !! d = Some k ∧ di_irq k = e_irq e ∧ di_shared k = bool2Z (e_shared e) ∧
    di_count k = Z.of_nat (length La) ∧
    lseg ia_next (actions s) (di_action k) La ∧ Forall2 (action_rep s (e_irq e)) La (e_handlers e).

(** Every entry has a handler, and an interrupt that is not shared has one. *)
Definition entry_ok (e : irq_entry) : Prop :=
  e_handlers e ≠ [] ∧ (e_shared e = false → length (e_handlers e) = 1%nat).

Record irq_rep (L : list loc) (s : irq_state) (T : list irq_entry) : Prop := {
  rep_list : lseg di_next (descs s) (used_irqs s) L;
  rep_descs : Forall2 (desc_rep s) L T;
  rep_nodup : NoDup (map e_irq T);
  rep_ok : Forall entry_ok T;
  rep_live_descs : dom (descs s) ⊆ live (mem s);
  rep_live_actions : dom (actions s) ⊆ live (mem s);
}.

Definition handler_calls (e : irq_entry) : list (Z * Z * Z) :=
  map (λ h, (h.1, e_irq e, h.2)) (e_handlers e).

(** ** Lemmas on the representation *)

Lemma fresh_lookup {B} (h : gmap loc B) (m : A) l :
  dom h ⊆ live m → l ∉ live m → h !! l = None.
Proof. intros Hd Hl. apply not_elem_of_dom. set_solver. Qed.

Lemma action_rep_frame s s' l a irq x h :
  actions s' = <[l:=a]> (actions s) → actions s !! l = None →
  action_rep s irq x h → action_rep s' irq x h.
Proof.
  intros E Hl (b & Hb & ? & ?). exists b. rewrite E, lookup_insert_ne by congruence. done.
Qed.

(** A descriptor survives a new action and an update of another descriptor. *)
Lemma desc_rep_frame s s' l a d e :
  descs s' !! d = descs s !! d → actions s' = <[l:=a]> (actions s) → actions s !! l = None →
  desc_rep s d e → desc_rep s' d e.
Proof.
  intros Ed Ea Hl (k & La & Hk & ? & ? & ? & HL & HF). exists k, La. rewrite Ed.
  split_and!; try done.
  - rewrite Ea. apply lseg_frame; [|done]. intros Hin.
    destruct (lseg_lookup _ _ _ _ _ HL Hin) as [? ?]. congruence.
  - eapply list.Forall2_impl; [exact HF|]. intros. by eapply action_rep_frame.
Qed.

Lemma desc_rep_same s s' d e :
  descs s' !! d = descs s !! d → actions s' = actions s → desc_rep s d e → desc_rep s' d e.
Proof. intros Ed Ea. unfold desc_rep, action_rep. rewrite Ed, Ea. done. Qed.

Lemma tbl_find_nth irq T e :
  tbl_find irq T = Some e → ∃ i, T !! i = Some e ∧ e_irq e = irq.
Proof.
  intros E. apply find_some in E as [Hin He]. apply Z.eqb_eq in He.
  apply list_elem_of_In, list_elem_of_lookup in Hin as [i Hi]. eauto.
Qed.

(** The search for a descriptor finds the table's entry. *)
Lemma find_desc_spec fuel L p T s irq :
  lseg di_next (descs s) p L → Forall2 (desc_rep s) L T → (length L ≤ fuel)%nat →
  ∃ o, find_desc fuel p irq s = Done (o, s) ∧
    match tbl_find irq T with
    | None => o = None
    | Some e => ∃ i d, o = Some d ∧ L !! i = Some d ∧ T !! i = Some e ∧ e_irq e = irq
    end.
Proof.
  revert L p T. induction fuel as [|fuel IH]; intros [|d L] p [|e T] HL HF Hlen;
    try (by inversion HF); try (cbn in Hlen; lia);
    try (cbn in HL; subst p; by exists None).
  destruct HL as (-> & k & Hk & HL). inversion_clear HF as [|? ? ? ? Hd HF'].
  destruct Hd as (k' & La & Hk' & Hirq & _). assert (k' = k) as -> by congruence.
  cbn [find_desc]. unfold load_desc. run_simpl. rewrite Hk. rewrite Hirq.
  unfold tbl_find. cbn [find]. destruct (e_irq e =? irq) eqn:E.
  - eexists. split; [done|]. exists 0%nat, d. apply Z.eqb_eq in E. done.
  - destruct (IH L _ T HL HF' ltac:(cbn in Hlen; lia)) as (o & Ho & Hspec).
    exists o. split; [done|]. unfold tbl_find in Hspec.
    destruct (find (λ e, e_irq e =? irq) T) as [e1|]; [|done].
    destruct Hspec as (i & d' & ?). by exists (S i), d'.
Qed.

Lemma tbl_add_insert irq h T i e :
  NoDup (map e_irq T) → T !! i = Some e → e_irq e = irq →
  tbl_add irq h T = <[i := IrqEntry irq (e_shared e) (h :: e_handlers e)]> T.
Proof.
  revert i. induction T as [|e' T IH]; intros i Hnd Hi He; [done|].
  cbn [map] in Hnd. apply list.NoDup_cons in Hnd as [Hni Hnd]. destruct i as [|i]; cbn in Hi |- *.
  - injection Hi as ->. rewrite He, Z.eqb_refl. f_equal.
    rewrite <- (map_id T) at 2. apply map_ext_in. intros e' Hin.
    destruct (Z.eqb_spec (e_irq e') irq) as [E|]; [|done]. exfalso. apply Hni.
    rewrite He, <- E. by apply list_elem_of_In, in_map.
  - destruct (Z.eqb_spec (e_irq e') irq) as [E|].
    + exfalso. apply Hni. rewrite E, <- He. apply list_elem_of_In, in_map, list_elem_of_In.
      by eapply list_elem_of_lookup_2.
    + f_equal. by apply IH.
Qed.

Lemma irq_rep_ext L s s' T :
  irq_rep L s T → descs s' = descs s → actions s' = actions s → used_irqs s' = used_irqs s →
  mem s' = mem s → irq_rep L s' T.
Proof.
  intros [HL HD Hnd Hok Hld Hla] Ed Ea Eu Em.
  split; rewrite ?Ed, ?Ea, ?Eu, ?Em; try done.
  eapply list.Forall2_impl; [exact HD|]. intros. eapply (desc_rep_same s); [by rewrite Ed|done|done].
Qed.

(** An action that is allocated but not linked leaves the table as it is. *)
Lemma irq_rep_leak L s s' T a act :
  irq_rep L s T → descs s' = descs s → used_irqs s' = used_irqs s →
  actions s' = <[a:=act]> (actions s) → actions s !! a = None →
  {[a]} ∪ live (mem s) ⊆ live (mem s') → irq_rep L s' T.
Proof.
  intros [HL HD Hnd Hok Hld Hla] Ed Eu Ea Ha Hm. split; try done.
  - by rewrite Ed, Eu.
  - eapply list.Forall2_impl; [exact HD|]. intros. eapply (desc_rep_frame s); try done. by rewrite Ed.
  - rewrite Ed. set_solver.
  - rewrite Ea, dom_insert. set_solver.
Qed.

Lemma NoDup_irqs_insert (T : list irq_entry) i e e' :
  T !! i = Some e → e_irq e' = e_irq e → map e_irq (<[i:=e']> T) = map e_irq T.
Proof.
  intros Hi He. change (e_irq <$> <[i:=e']> T = e_irq <$> T).
  rewrite list_fmap_insert, He. apply list_insert_id. by rewrite list_lookup_fmap, Hi.
Qed.

(** A new handler is linked into the descriptor of an entry. *)
Lemma irq_rep_update L s s' T i d e e' k k' a act :
  irq_rep L s T → L !! i = Some d → T !! i = Some e → descs s !! d = Some k →
  descs s' = <[d:=k']> (descs s) → di_next k' = di_next k → used_irqs s' = used_irqs s →
  actions s' = <[a:=act]> (actions s) → actions s !! a = None →
  {[a]} ∪ live (mem s) ⊆ live (mem s') →
  desc_rep s' d e' → e_irq e' = e_irq e → entry_ok e' → irq_rep L s' (<[i:=e']> T).
Proof.
  intros [HL HD Hnd Hok Hld Hla] Hi Hti Hk Ed Hnext Eu Ea Ha Hm Hd' He' Hok'. split.
  - rewrite Ed, Eu. by eapply lseg_update.
  - pose proof (lseg_NoDup _ _ _ _ HL) as HndL.
    rewrite <- (list_insert_id L i d Hi). apply list.Forall2_lookup. intros j.
    pose proof (list.Forall2_length _ _ _ HD) as Hlen.
    pose proof (lookup_lt_Some _ _ _ Hi) as Hlt.
    destruct (decide (j = i)) as [->|Hj].
    + rewrite !list_lookup_insert_eq by lia. by constructor.
    + rewrite !list_lookup_insert_ne by done. pose proof (list.Forall2_lookup (desc_rep s) L T) as [HF _].
      specialize (HF HD j). destruct (L !! j) as [dj|] eqn:Ej; inversion HF; constructor.
      eapply (desc_rep_frame s); try done. rewrite Ed, lookup_insert_ne; [done|].
      intros ->. apply Hj. by eapply NoDup_lookup.
  - by erewrite NoDup_irqs_insert.
  - by apply list.Forall_insert.
  - rewrite Ed, dom_insert. apply elem_of_dom_2 in Hk. set_solver.
  - rewrite Ea, dom_insert. set_solver.
Qed.

(** A new descriptor is linked at the front. *)
Lemma irq_rep_push L s s' T d e k a act :
  irq_rep L s T → descs s !! d = None → descs s' = <[d:=k]> (descs s) →
  di_next k = used_irqs s → used_irqs s' = Some d →
  actions s' = <[a:=act]> (actions s) → actions s !! a = None →
  {[a]} ∪ ({[d]} ∪ live (mem s)) ⊆ live (mem s') →
  desc_rep s' d e → tbl_find (e_irq e) T = None → entry_ok e → irq_rep (d :: L) s' (e :: T).
Proof.
  intros [HL HD Hnd Hok Hld Hla] Hd Ed Hnext Eu Ea Ha Hm Hd' Hf Hok'.
  assert (Hni : d ∉ L).
  { intros Hin. destruct (lseg_lookup _ _ _ _ _ HL Hin). congruence. }
  split.
  - rewrite Ed, Eu. by eapply lseg_cons.
  - constructor; [done|]. rewrite list.Forall2_lookup in HD |- *. intros j. specialize (HD j).
    destruct (L !! j) as [dj|] eqn:Ej; inversion HD; constructor.
    eapply (desc_rep_frame s); try done. rewrite Ed, lookup_insert_ne; [done|].
    intros ->. apply Hni. by eapply list_elem_of_lookup_2.
  - cbn [map]. constructor; [|done]. intros (e' & He & Hin%list_elem_of_In)%list_elem_of_In%in_map_iff.
    apply list_elem_of_In in Hin. pose proof (find_none _ _ Hf e' Hin) as Hn. cbn in Hn.
    rewrite He, Z.eqb_refl in Hn. done.
  - by constructor.
  - rewrite Ed, dom_insert. set_solver.
  - rewrite Ea, dom_insert. set_solver.
Qed.

(** ** [claim_irq] and [request_irq] *)

Definition flag_shared (flags : Z) : bool := negb (Z.land flags SA_SHIRQ =? 0).

(** Linking an action into a descriptor, as [add_handler] does. *)
Definition link_action (p : option loc) (a : irqaction) : irqaction :=
  IrqAction (ia_handler a) (ia_flags a) (ia_name a) (ia_dev_id a) p (ia_irq a).
Definition link_desc (a : loc) (k : dde_linux26_irq) : dde_linux26_irq :=
  DdeIrq (di_irq k) (u32 (di_count k + 1)) (di_shared k) (Some a) (di_next k).
Definition link_state (d a : loc) (k : dde_linux26_irq) (act : irqaction) (s : irq_state) : irq_state :=
  with_descs (<[d:=link_desc a k]> (descs s))
    (with_irqactions (<[a:=link_action (di_action k) act]> (actions s)) s).

Lemma add_handler_run s d k a act sh :
  descs s !! d = Some k → actions s !! a = Some act →
  add_handler d a (bool2Z sh) s =
    if ((di_shared k =? 0) || negb sh) && negb (is_null (di_action k))
    then Done (- EBUSY, s)
    else Done (s32 (u32 (di_count k + 1)), link_state d a k act s).
Proof.
  intros Hd Ha. unfold add_handler, load_desc, load_action, store_action, store_desc. run_simpl.
  rewrite Hd. replace (bool2Z sh =? 0) with (negb sh) by by destruct sh.
  destruct (_ && _); [done|]. by rewrite Ha.
Qed.

(** The descriptor of an entry represents the entry with the handler added, and
    the usage count does not wrap. *)
Lemma desc_rep_link s s2 d e k a act m :
  desc_rep s d e → descs s !! d = Some k → dom (actions s) ⊆ live (m : A) →
  descs s2 !! d = Some (link_desc a k) →
  actions s2 = <[a:=link_action (di_action k) act]> (actions s) → actions s !! a = None →
  ia_irq act = e_irq e →
  desc_rep s2 d (IrqEntry (e_irq e) (e_shared e) ((ia_handler act, ia_dev_id act) :: e_handlers e)) ∧
  0 ≤ s32 (u32 (di_count k + 1)).
Proof.
  intros (k' & La & Hk' & Hi & Hsh & Hc & HL & HF) Hk Hm Hd2 Ea Ha Hirq.
  assert (k' = k) as -> by congruence.
  pose proof (lseg_length _ _ _ _ _ HL Hm) as Hlen. pose proof (live_bound m) as Hb.
  assert (Hni : a ∉ La).
  { intros Hin. destruct (lseg_lookup _ _ _ _ _ HL Hin). congruence. }
  rewrite u32_small, s32_small by (try rewrite u32_small; lia). split; [|lia].
  exists (link_desc a k), (a :: La). split_and!; try done.
  - cbn [link_desc di_count length]. rewrite u32_small by lia. lia.
  - rewrite Ea. cbn [link_desc di_action]. by eapply lseg_cons.
  - cbn [e_irq e_handlers]. constructor.
    + exists (link_action (di_action k) act). rewrite Ea, lookup_insert_eq. done.
    + eapply list.Forall2_impl; [exact HF|]. intros. by eapply action_rep_frame.
Qed.

Section Request.
Context (attach : irq_state → Z → Z → Z) (irq handler flags name dev : Z).

Abbreviation sh := (flag_shared flags).
Abbreviation act0 := (IrqAction handler flags name dev None irq).

(** The state of [request_irq] when it calls [claim_irq]. *)
Definition claim_state (a : loc) (m : A) (s : irq_state) : irq_state :=
  with_irqactions (<[a:=act0]> (actions s)) (with_mem m s).

Lemma claim_search L s T a m :
  irq_rep L s T → 
  ∃ o, find_desc (S (size (descs s))) (used_irqs s) irq (claim_state a m s) =
      Done (o, claim_state a m s) ∧
    match tbl_find irq T with
    | None => o = None
    | Some e => ∃ i d, o = Some d ∧ L !! i = Some d ∧ T !! i = Some e ∧ e_irq e = irq
    end.
Proof.
  intros [HL HD _ _ _ _]. pose proof (lseg_length _ (dom (descs s)) _ _ _ HL (reflexivity _)) as Hlen.
  rewrite size_dom in Hlen.
  destruct (find_desc_spec (S (size (descs s))) L (used_irqs s) T s irq HL HD ltac:(lia)) as (o & Ho & Hs).
  exists o. split; [|done]. clear Hs. revert Ho. generalize (S (size (descs s))) (used_irqs s).
  intros fuel. induction fuel as [|fuel IH]; intros [d|]; cbn [find_desc];
    try (unfold mret, M_ret, fail; congruence).
  unfold load_desc. run_simpl. cbn [claim_state descs with_irqactions with_mem].
  destruct (descs s !! d); [|done]. destruct (_ =? _); [congruence|apply IH].
Qed.

Lemma claim_irq_run a m s o :
  find_desc (S (size (descs s))) (used_irqs s) irq (claim_state a m s) =
      Done (o, claim_state a m s) →
  claim_irq attach a (claim_state a m s) =
    match o with
    | Some d => add_handler d a (bool2Z sh) (claim_state a m s)
    | None => match setup_irq attach irq (bool2Z sh) (claim_state a m s) with
              | Done (inl d, s') => add_handler d a (bool2Z sh) s'
              | Done (inr e, s') => Done (e, s')
              | Fault e => Fault e
              end
    end.
Proof.
  intros Ho. unfold claim_irq, load_action. run_simpl.
  replace (actions (claim_state a m s) !! a) with (Some act0)
    by (cbn; by rewrite lookup_insert_eq).
  cbn [ia_flags ia_irq].
  change (size (descs (claim_state a m s))) with (size (descs s)).
  change (used_irqs (claim_state a m s)) with (used_irqs s). rewrite Ho.
  replace (if Z.land flags SA_SHIRQ =? 0 then 0 else 1) with (bool2Z sh)
    by (unfold flag_shared; by destruct (_ =? _)).
  destruct o as [d|]; [done|]. by destruct (setup_irq _ _ _ _) as [[[]]|].
Qed.

(** A further handler for a claimed interrupt. *)
Lemma claim_found L s T i d e a m :
  irq_rep L s T → actions s !! a = None → {[a]} ∪ live (mem s) ⊆ live m →
  L !! i = Some d → T !! i = Some e → e_irq e = irq →
  ∃ r s', add_handler d a (bool2Z sh) (claim_state a m s) = Done (r, s') ∧
    (if e_shared e && sh then 0 ≤ r else r = - EBUSY) ∧
    irq_rep L s' (if e_shared e && sh then tbl_add irq (handler, dev) T else T) ∧
    sq s' = sq s ∧ irq_log s' = irq_log s.
Proof.
  intros HR Ha Hm Hi Hti He.
  pose proof (list.Forall2_lookup_lr _ _ _ _ _ _ (rep_descs _ _ _ HR) Hi Hti) as Hd.
  pose proof Hd as (k & La & Hk & Hirq & Hsh & Hc & HL & HF).
  assert (Hne : is_null (di_action k) = false).
  { pose proof (list.Forall_lookup_1 _ _ _ _ (rep_ok _ _ _ HR) Hti) as [Hh _].
    destruct La; [by inversion HF; congruence|]. destruct HL as [-> _]. done. }
  erewrite add_handler_run by (cbn; rewrite ?lookup_insert_eq; done).
  rewrite Hsh, Hne, andb_true_r.
  replace ((bool2Z (e_shared e) =? 0) || negb sh) with (negb (e_shared e && sh))
    by (destruct (e_shared e); done).
  destruct (e_shared e && sh) eqn:Eb; cbn [negb]; eexists _, _; (split; [done|]).
  - destruct (desc_rep_link s (link_state d a k act0 (claim_state a m s)) d e k a act0 (mem s))
      as [Hd2 Hr]; try done.
    { apply HR. } { cbn. by rewrite lookup_insert_eq. } { cbn. by rewrite insert_insert_eq. }
    split; [done|]. split; [|done].
    rewrite (tbl_add_insert _ _ _ i e) by (try done; apply HR).
    eapply (irq_rep_update L s); try done.
    + cbn. by rewrite insert_insert_eq.
    + rewrite He in Hd2. exact Hd2.
    + split; [done|]. cbn. apply andb_prop in Eb as [-> _]. done.
  - split; [done|]. split; [|done]. by eapply (irq_rep_leak L s).
Qed.

(** The first handler of an interrupt. *)
Lemma claim_new L s T a m :
  (can_alloc 1 m = true → ∀ s', attach s' irq (bool2Z sh) = 0) →
  irq_rep L s T → actions s !! a = None → {[a]} ∪ live (mem s) ⊆ live m → tbl_find irq T = None →
  ∃ r s' L', claim_irq attach a (claim_state a m s) = Done (r, s') ∧
    (if can_alloc 1 m then 0 ≤ r else r = - ENOMEM) ∧
    irq_rep L' s' (if can_alloc 1 m then IrqEntry irq sh [(handler, dev)] :: T else T) ∧
    sq s' = sq s ∧ irq_log s' = irq_log s.
Proof.
  intros Hat HR Ha Hm Hf. destruct (claim_search L s T a m HR) as (o & Ho & Hspec).
  rewrite Hf in Hspec. subst o. rewrite (claim_irq_run _ _ _ _ Ho).
  unfold setup_irq, dde_kit_simple_malloc, store_desc. run_simpl.
  cbn [can_alloc mem claim_state with_irqactions with_mem] in *.
  destruct (kit_malloc m) as [[d m2]|] eqn:Em.
  - rewrite Hat by done. cbn beta iota. change (0 =? 0) with true. cbn beta iota.
    apply kit_malloc_fresh in Em as [Hd Em2].
    assert (Hds : descs s !! d = None) by (eapply (fresh_lookup _ (mem s)); [apply HR|set_solver]).
    set (k := DdeIrq irq 0 (bool2Z sh) None (used_irqs s)).
    set (sb := with_descs (<[d:=k]> (descs s)) s).
    erewrite (add_handler_run _ d k a act0) by (cbn; by rewrite lookup_insert_eq).
    cbn [is_null di_action k negb]. rewrite andb_false_r.
    destruct (desc_rep_link sb (link_state d a k act0
        (with_used (Some d) (with_descs (<[d:=k]> (descs s)) (with_mem m2 (claim_state a m s)))))
        d (IrqEntry irq sh []) k a act0 (mem s)) as [Hd2 Hr]; try done.
    { exists k, []. cbn. rewrite lookup_insert_eq. by split_and!. }
    { cbn. by rewrite lookup_insert_eq. } { apply HR. }
    { cbn. by rewrite lookup_insert_eq. } { cbn. by rewrite insert_insert_eq. }
    eexists _, _, (d :: L). split; [done|]. split; [done|]. split; [|done].
    eapply (irq_rep_push L s); try done.
    + cbn. by rewrite insert_insert_eq.
    + done.
    + cbn. by rewrite insert_insert_eq.
    + cbn. rewrite Em2. set_solver.
  - eexists _, _, L. split; [done|]. split; [done|]. split; [|done]. by eapply (irq_rep_leak L s).
Qed.

Lemma request_irq_spec L s T :
  (asks_attach (mem s) irq handler T = true → ∀ s', attach s' irq (bool2Z sh) = 0) →
  irq_rep L s T →
  ∃ s' L', request_irq attach irq handler flags name dev s =
      Done ((spec_request (mem s) irq handler sh dev T).1, s') ∧
    irq_rep L' s' (spec_request (mem s) irq handler sh dev T).2 ∧
    sq s' = sq s ∧ irq_log s' = irq_log s.
Proof.
  unfold asks_attach. intros Hat HR. unfold request_irq, spec_request.
  destruct (handler =? 0); [by exists s, L|].
  unfold dde_kit_simple_malloc, store_action. run_simpl.
  destruct (kit_malloc (mem s)) as [[a m]|] eqn:Em.
  2: { exists s, L. destruct (tbl_find irq T); cbn; by rewrite Em. }
  destruct (kit_malloc_fresh _ _ _ Em) as [Hfr Hlive].
  assert (Ha : actions s !! a = None) by (eapply (fresh_lookup _ (mem s)); [apply HR|done]).
  assert (Hm : {[a]} ∪ live (mem s) ⊆ live m) by (by rewrite Hlive).
  change (with_irqactions _ _) with (claim_state a m s).
  unfold spec_claim. destruct (tbl_find irq T) as [e|] eqn:Ef; cbn [can_alloc] in *; rewrite Em in *.
  - destruct (claim_search L s T a m HR) as (o & Ho & Hspec). rewrite Ef in Hspec.
    destruct Hspec as (i & d & -> & Hi & Hti & He). rewrite (claim_irq_run _ _ _ _ Ho).
    destruct (claim_found L s T i d e a m HR Ha Hm Hi Hti He) as (r & s' & E & Hr & HR' & Hsq).
    rewrite E. exists s', L. destruct (e_shared e && sh).
    + destruct (Z.ltb_spec r 0); [lia|]. done.
    + subst r. done.
  - destruct (claim_new L s T a m ltac:(intros Hc; apply Hat; cbn [can_alloc negb andb] in *; by rewrite Hc)
      HR Ha Hm Ef) as (r & s' & L' & E & Hr & HR' & Hsq).
    rewrite E. exists s', L'. cbn [can_alloc] in *. destruct (kit_malloc m) as [[d m2]|].
    + destruct (Z.ltb_spec r 0); [lia|]. done.
    + subst r. done.
Qed.

(** What a failed attach leaves: the head of [used_irqs] is a freed descriptor,
    the descriptors behind it are as before. *)
Definition dangling (L : list loc) (s s' : irq_state) (T : list irq_entry) : Prop :=
  (∃ d, used_irqs s' = Some d ∧ descs s' !! d = None) ∧
  lseg di_next (descs s') (used_irqs s) L ∧ Forall2 (desc_rep s') L T.

Lemma request_attach_fails L s T :
  irq_rep L s T → asks_attach (mem s) irq handler T = true →
  (∀ s', attach s' irq (bool2Z sh) ≠ 0) →
  ∃ s', request_irq attach irq handler flags name dev s = Done (- EBUSY, s') ∧
    dangling L s s' T ∧ sq s' = sq s ∧ irq_log s' = irq_log s.
Proof.
  unfold asks_attach. intros HR [[Hh Hal]%andb_prop Hf]%andb_prop Hat. cbn [can_alloc] in Hal.
  destruct (tbl_find irq T) eqn:Ef; [done|].
  destruct (kit_malloc (mem s)) as [[a m]|] eqn:Em; [|done].
  destruct (kit_malloc m) as [[d m2]|] eqn:Em2; [|done].
  destruct (claim_search L s T a m HR) as (o & Ho & Hspec).
  rewrite Ef in Hspec. subst o.
  unfold request_irq, dde_kit_simple_malloc, store_action. run_simpl.
  destruct (handler =? 0); [done|]. rewrite Em.
  change (with_irqactions _ _) with (claim_state a m s). rewrite (claim_irq_run _ _ _ _ Ho).
  unfold setup_irq, dde_kit_simple_malloc, store_desc, free_desc. run_simpl.
  cbn [mem claim_state with_irqactions with_mem]. rewrite Em2.
  replace (attach _ irq _ =? 0) with false by (symmetry; apply Z.eqb_neq, Hat).
  apply kit_malloc_fresh in Em as [Hfr Hlive]. apply kit_malloc_fresh in Em2 as [Hfr2 _].
  assert (Ha : actions s !! a = None) by (eapply (fresh_lookup _ (mem s)); [apply HR|done]).
  assert (Hd : descs s !! d = None) by (eapply (fresh_lookup _ (mem s)); [apply HR|set_solver]).
  assert (Ed : delete d (<[d:=DdeIrq irq 0 (bool2Z sh) None (used_irqs s)]> (descs s)) = descs s)
    by by rewrite delete_insert_id.
  eexists. split; [done|]. split; [|done].
  unfold dangling. cbn [used_irqs descs with_mem with_descs with_used claim_state with_irqactions].
  split; [|split].
  - exists d. split; [done|]. by rewrite lookup_delete_eq.
  - rewrite Ed. apply HR.
  - eapply list.Forall2_impl; [apply (rep_descs _ _ _ HR)|]. intros.
    eapply (desc_rep_frame s); [|reflexivity|done..].
    cbn [descs with_mem with_descs with_used]. by rewrite Ed.
Qed.

End Request.

(** ** [irq_handler] *)

(** The handlers of a list of actions are called in order. *)
Lemma action_loop_spec D V isr irq hs La fuel p s :
  lseg ia_next (actions s) p La → Forall2 (action_rep s irq) La hs → (length La ≤ fuel)%nat →
  (∀ f i d c, c ∈ isr f i d → call_target c ∈ D) → q_inv D V None [] [] None (sq s) →
  ∃ q, action_loop isr fuel p s = Done (tt,
      with_irq_log (rev (map (λ h, (h.1, irq, h.2)) hs) ++ irq_log s) (with_sq q s)) ∧
    run_script (concat (map (λ h, isr h.1 irq h.2) hs)) (sq s) = Done (tt, q) ∧
    q_inv D V None [] [] None q.
Proof.
  intros HL HF Hlen Hisr HQ. revert fuel p s La HL HF Hlen HQ.
  induction hs as [|[f dv] hs IH]; intros fuel p s La HL HF Hlen HQ.
  { inversion HF; subst. cbn in HL. subst p. exists (sq s). split; [|done].
    destruct fuel, s; done. }
  inversion HF as [|a ? La' ? Hrep HF']; subst. destruct fuel as [|fuel]; [cbn in Hlen; lia|].
  destruct HL as (-> & k & Hk & HL). destruct Hrep as (k' & Hk' & Hi & Hh).
  assert (k' = k) as -> by congruence. injection Hh as Hf Hdv.
  cbn [action_loop]. unfold load_action, call_handler, lift_sq. run_simpl. rewrite Hk.
  rewrite Hf, Hi, Hdv. cbn [sq with_irq_log actions with_sq].
  destruct (triple_run _ _ _ (sq s) (run_script_spec D V None [] [] None (isr f irq dv) (Hisr f irq dv)) HQ)
    as ([] & q1 & E1 & HQ1).
  rewrite E1. cbn [actions with_sq with_irq_log]. rewrite Hk.
  destruct (IH fuel (ia_next k) (with_sq q1 (with_irq_log ((f, irq, dv) :: irq_log s) s)) La' HL HF'
    ltac:(cbn in Hlen; lia) HQ1) as (q & E & Eq & HQq).
  exists q. rewrite E. split; [|split; [|done]].
  - do 2 f_equal. cbn [map rev fst snd]. rewrite <- app_assoc. done.
  - cbn [map concat fst snd]. unfold run_script in *. rewrite map_app.
    rewrite seqM_app, E1. exact Eq.
Qed.

(** ** Properties *)

(** C5: [request_irq] refines the interrupt table, on every branch.  [r] is what
    [dde_kit_interrupt_attach] answers for this interrupt.  If the request gets
    as far as the attach call and [r] is not 0, the result is [-EBUSY] and the
    table is lost: the head of [used_irqs] is a freed descriptor, though the
    descriptors behind it still represent the entries.  In all other cases the
    result is the code of the specification ([-EINVAL] without a handler,
    [-ENOMEM] when an allocation fails, [-EBUSY] unless both the interrupt and
    the new handler are shared, 0 otherwise) and descriptors and actions
    represent the specification's table, in which an interrupt that is not
    shared has exactly one handler. *)
Theorem request_irq_refines (attach : irq_state → Z → Z → Z) (irq handler flags name dev r : Z)
    (L : list loc) (s : irq_state) (T : list irq_entry) :
  (∀ s', attach s' irq (bool2Z (flag_shared flags)) = r) → irq_rep L s T →
  ∃ ret s', request_irq attach irq handler flags name dev s = Done (ret, s') ∧
    sq s' = sq s ∧ irq_log s' = irq_log s ∧
    if asks_attach (mem s) irq handler T && negb (r =? 0)
    then ret = - EBUSY ∧ dangling L s s' T
    else ret = (spec_request (mem s) irq handler (flag_shared flags) dev T).1 ∧
      ∃ L', irq_rep L' s' (spec_request (mem s) irq handler (flag_shared flags) dev T).2.
Proof.
  intros Hat HR. destruct (asks_attach (mem s) irq handler T && negb (r =? 0)) eqn:E.
  - apply andb_prop in E as [E Hr]. destruct (Z.eqb_spec r 0); [done|].
    destruct (request_attach_fails attach irq handler flags name dev L s T HR E)
      as (s' & ? & ? & ? & ?); [by intros; rewrite Hat|]. exists (- EBUSY), s'. by split_and!.
  - destruct (request_irq_spec attach irq handler flags name dev L s T)
      as (s' & L' & Hrun & HR' & Hsq & Hlog); [|done|eexists _, s'; by eauto 10].
    intros E' s'. rewrite Hat. rewrite E' in E. by destruct (Z.eqb_spec r 0).
Qed.

(** C6: when an interrupt occurs, [irq_handler] calls every handler of the
    table's entry once, the latest requested first, with its own [dev_id]; what
    the handlers do with tasklets keeps the softirq invariant, and the softirq
    thread is woken if a softirq is pending afterwards. *)
Theorem irq_handler_calls (isr : Z → Z → Z → list api_call) (D : gset loc)
    (L : list loc) (s : irq_state) (T : list irq_entry) (i : nat) (d : loc) (e : irq_entry) :
  irq_rep L s T → L !! i = Some d → T !! i = Some e →
  (∀ f n dv c, c ∈ isr f n dv → call_target c ∈ D) → softirq_ok D (sq s) →
  ∃ s' q, irq_handler isr d s = Done (tt, s') ∧
    irq_log s' = rev (handler_calls e) ++ irq_log s ∧
    run_script (concat (map (λ h, isr h.1 (e_irq e) h.2) (e_handlers e))) (sq s) = Done (tt, q) ∧
    softirq_ok D q ∧
    sq s' = (if softirq_pending q =? 0 then q else with_sem (softirq_sem q + 1) q) ∧
    irq_rep L s' T.
Proof.
  intros HR Hi Hti Hisr HQ.
  pose proof (list.Forall2_lookup_lr _ _ _ _ _ _ (rep_descs _ _ _ HR) Hi Hti)
    as (k & La & Hk & _ & _ & _ & HL & HF).
  pose proof (lseg_length _ (dom (actions s)) _ _ _ HL (reflexivity _)) as Hlen.
  rewrite size_dom in Hlen.
  destruct (action_loop_spec D (softirq_vec (sq s)) isr (e_irq e) _ La _ _ s HL HF Hlen Hisr HQ)
    as (q & E & Eq & HQq).
  unfold irq_handler, load_desc, lift_sq. run_simpl. rewrite Hk, E.
  cbn [sq with_irq_log with_sq].
  assert (HQ' : softirq_ok D q).
  { destruct HQq as [HS HT]. split; [|done]. by rewrite (sinv_vec _ _ HS). }
  destruct (softirq_pending q =? 0) eqn:Ep; eexists _, q; (split; [done|]);
    (split; [done|]); (split; [done|]); (split; [done|]);
    (split; [cbn; by rewrite Ep|by apply (irq_rep_ext L s)]).
Qed.

(** When [dde_kit_interrupt_attach] fails, [claim_irq] frees the new
    descriptor but leaves it as the head of [used_irqs]: the call returns
    [-EBUSY], and the next request that gets its action allocated reads the
    freed descriptor. *)
Theorem attach_failure_dangles (attach : irq_state → Z → Z → Z) (irq handler flags name dev : Z)
    (L : list loc) (s : irq_state) (T : list irq_entry) :
  irq_rep L s T → tbl_find irq T = None → handler ≠ 0 → can_alloc 2 (mem s) = true →
  (∀ s', attach s' irq (bool2Z (flag_shared flags)) ≠ 0) →
  ∃ s', request_irq attach irq handler flags name dev s = Done (- EBUSY, s') ∧
    ∀ attach' irq' handler' flags' name' dev', handler' ≠ 0 → can_alloc 1 (mem s') = true →
      request_irq attach' irq' handler' flags' name' dev' s' = Fault FFreed.
Proof.
  intros HR Hf Hh Hal Hat.
  destruct (request_attach_fails attach irq handler flags name dev L s T HR)
    as (s' & E & ((d & Hu & Hd) & _) & _); [|done|].
  { unfold asks_attach. rewrite Hf, Hal. by destruct (Z.eqb_spec handler 0). }
  exists s'. split; [done|].
  intros attach' irq' handler' flags' name' dev' Hh' Hal'. cbn [can_alloc] in Hal'.
  destruct (kit_malloc (mem s')) as [[a' m']|] eqn:Em'; [|done].
  unfold request_irq, dde_kit_simple_malloc, store_action. run_simpl.
  apply Z.eqb_neq in Hh'. rewrite Hh', Em'.
  unfold claim_irq, load_action. run_simpl. cbn [actions with_irqactions]. rewrite lookup_insert_eq.
  cbn [used_irqs with_irqactions with_mem]. rewrite Hu. cbn [find_desc]. unfold load_desc. run_simpl.
  cbn [descs with_irqactions with_mem]. by rewrite Hd.
Qed.

End Irq.

(** ** A concrete system: one shared interrupt with two handlers *)

Definition demo_irq_state : irq_state (A := pool) :=
  IrqState ∅ ∅ None pool_empty demo_state ∅ [].

Lemma demo_irq_rep : irq_rep [] demo_irq_state [].
Proof. split; try done; constructor. Qed.

Lemma request_irq_refines_witness :
  ∃ ret s', request_irq (λ _ _ _, 0) 11 7 SA_SHIRQ 1 99 demo_irq_state = Done (ret, s') ∧
    sq s' = demo_state ∧ irq_log s' = [] ∧ ret = 0 ∧
    ∃ L', irq_rep L' s' [IrqEntry 11 true [(7, 99)]].
Proof.
  pose proof (request_irq_refines (λ _ _ _, 0) 11 7 SA_SHIRQ 1 99 0 [] demo_irq_state []
    ltac:(done) demo_irq_rep) as W.
  replace (spec_request (mem demo_irq_state) 11 7 (flag_shared SA_SHIRQ) 99 [])
    with (0, [IrqEntry 11 true [(7, 99)]]) in W by (vm_compute; reflexivity).
  rewrite andb_false_r in W. exact W.
Defined.

(** The same interrupt after two requests, in memory. *)
Definition demo_shared : irq_state (A := pool) :=
  IrqState {[ 2%positive := DdeIrq 11 2 1 (Some 3%positive) None ]}
    {[ 1%positive := IrqAction 7 SA_SHIRQ 1 99 None 11;
       3%positive := IrqAction 8 SA_SHIRQ 1 77 (Some 1%positive) 11 ]}
    (Some 2%positive) (Pool {[1%positive; 2%positive; 3%positive]} eq_refl) demo_state ∅ [].

Lemma demo_shared_rep : irq_rep [2%positive] demo_shared [IrqEntry 11 true [(8, 77); (7, 99)]].
Proof.
  split.
  - split; [done|]. eexists. split; [reflexivity|done].
  - constructor; [|constructor]. eexists _, [3%positive; 1%positive].
    split; [reflexivity|]. split_and!; try done.
    + cbn. split; [done|]. eexists. split; [reflexivity|]. split; [done|].
      eexists. split; [reflexivity|done].
    + repeat constructor; eexists; (split; [reflexivity|done]).
  - apply (bool_decide_unpack _). reflexivity.
  - repeat constructor; done.
  - cbn. set_solver.
  - cbn. set_solver.
Qed.

Lemma irq_handler_calls_witness :
  ∃ s' q, irq_handler (λ f _ _, if f =? 7 then [CallSchedule 1%positive] else []) 2%positive demo_shared
      = Done (tt, s') ∧
    irq_log s' = [(7, 11, 99); (8, 11, 77)] ∧
    run_script [CallSchedule 1%positive] demo_state = Done (tt, q) ∧
    softirq_ok {[1%positive; 2%positive]} q ∧
    sq s' = (if softirq_pending q =? 0 then q else with_sem (softirq_sem q + 1) q) ∧
    irq_rep [2%positive] s' [IrqEntry 11 true [(8, 77); (7, 99)]].
Proof.
  apply (irq_handler_calls (λ f _ _, if f =? 7 then [CallSchedule 1%positive] else [])
    {[1%positive; 2%positive]} [2%positive] demo_shared [IrqEntry 11 true [(8, 77); (7, 99)]] 0
    2%positive (IrqEntry 11 true [(8, 77); (7, 99)])); try reflexivity.
  - apply demo_shared_rep.
  - intros f n dv c. destruct (f =? 7); [|by intros ?%elem_of_nil].
    intros [->|?%elem_of_nil]%elem_of_cons; [set_solver|done].
  - apply demo_ok.
Defined.

Lemma attach_failure_dangles_witness :
  ∃ s', request_irq (λ _ _ _, 1) 11 7 SA_SHIRQ 1 99 demo_irq_state = Done (- EBUSY, s') ∧
    ∀ attach' irq' handler' flags' name' dev', handler' ≠ 0 → can_alloc 1 (mem s') = true →
      request_irq attach' irq' handler' flags' name' dev' s' = Fault FFreed.
Proof.
  apply (attach_failure_dangles (λ _ _ _, 1) 11 7 SA_SHIRQ 1 99 [] demo_irq_state []); try done.
  apply demo_irq_rep.
Defined.
