(* ===== verification/Timer.v ===== *)
(** Timers (src/src/lib/dde_linux26/arch/dde_kit/timer.c).

    A Linux timer is a heap object that holds the handle of a DDE kit timer.
    The specification is a map of timers with what each is armed for; every
    trace of timer calls and expiries refines it, whatever kit implements the
    interface [KitTimer]. *)

From S2P Require Import Prelude Kit.

Definition HZ : Z := 100.

(** [struct timer_list]; the list entry is not used by the DDE. *)
Record timer_list := TimerList {
  tl_expires : Z;
  tl_function : Z;
  tl_data : Z;
  tl_kit : option loc;   (* dde_kit_timer *)
}.

Section Timer.
Context {K : Type} `{KitTimer K}.

Record timer_state := TimerState {
  timers : gmap loc timer_list;
  kit : K;
  timer_initialized : bool;
  fired : list (Z * Z);            (* function(data) calls of the timer thread, latest first *)
}.

Abbreviation TM := (M timer_state).

Definition with_timers (h : gmap loc timer_list) (s : timer_state) : timer_state :=
  TimerState h (kit s) (timer_initialized s) (fired s).
Definition with_kit (k : K) (s : timer_state) : timer_state :=
  TimerState (timers s) k (timer_initialized s) (fired s).
Definition with_timer_init (b : bool) (s : timer_state) : timer_state :=
  TimerState (timers s) (kit s) b (fired s).
Definition with_fired (l : list (Z * Z)) (s : timer_state) : timer_state :=
  TimerState (timers s) (kit s) (timer_initialized s) l.

Definition load_timer (t : loc) : TM timer_list := λ s,
  match timers s !! t with Some k => Done (k, s) | None => Fault FNull end.
Definition store_timer (t : loc) (k : timer_list) : TM unit :=
  modify (λ s, with_timers (<[t:=k]> (timers s)) s).

Definition set_kit (h : option loc) (k : timer_list) : timer_list :=
  TimerList (tl_expires k) (tl_function k) (tl_data k) h.
Definition set_expires (e : Z) (k : timer_list) : timer_list :=
  TimerList e (tl_function k) (tl_data k) (tl_kit k).

Definition CHECK_INITVAR_timer : TM unit :=
  b ← gets timer_initialized; assert FBug b.

Definition init_timer (t : loc) : TM unit := mret tt.

Definition setup_timer (t : loc) (function data : Z) : TM unit :=
  k ← load_timer t;
  store_timer t (TimerList (tl_expires k) function data (tl_kit k)) ;;
  init_timer t.

Definition add_timer (t : loc) : TM unit :=
  CHECK_INITVAR_timer ;;
  k ← load_timer t;
  r ← gets (λ s, kit_timer_add (tl_function k) (tl_data k) (tl_expires k) (kit s));
  modify (with_kit r.2) ;;
  store_timer t (set_kit (Some r.1) k).

Definition add_timer_on (t : loc) (cpu : Z) : TM unit := add_timer t.

Definition del_timer (t : loc) : TM Z :=
  CHECK_INITVAR_timer ;;
  k ← load_timer t;
  match tl_kit k with
  | None => mret 0
  | Some h =>
      pending ← gets (λ s, if kit_timer_pending h (kit s) then 1 else 0);
      modify (λ s, with_kit (kit_timer_del h (kit s)) s) ;;
      store_timer t (set_kit None k) ;;
      mret pending
  end.

Definition del_timer_sync (t : loc) : TM Z := del_timer t.

Definition __mod_timer (t : loc) (expires : Z) : TM Z :=
  CHECK_INITVAR_timer ;;
  r ← del_timer t;
  k ← load_timer t;
  store_timer t (set_expires expires k) ;;
  add_timer t ;;
  mret (bool2Z (0 <? r)).

Definition mod_timer (t : loc) (expires : Z) : TM Z := __mod_timer t expires.

Definition timer_pending (t : loc) : TM Z :=
  CHECK_INITVAR_timer ;;
  k ← load_timer t;
  match tl_kit k with
  | None => mret 0
  | Some h => b ← gets (λ s, kit_timer_pending h (kit s)); mret (bool2Z b)
  end.

Definition dde_linux26_timer_init : TM unit := modify (with_timer_init true).

Definition round_jiffies (j : Z) : Z := j.

(** The timer thread of the kit: an armed timer is taken off the queue and its
    function called. *)
Definition timer_fire (h : loc) : TM unit := λ s,
  match armed (kit s) !! h with
  | None => Done (tt, s)
  | Some (fn, arg, _) =>
      Done (tt, with_fired ((fn, arg) :: fired s) (with_kit (kit_timer_fire h (kit s)) s))
  end.

(** ** Traces of calls *)

Inductive timer_op :=
| TAdd (t : loc)
| TDel (t : loc)
| TMod (t : loc) (expires : Z)
| TPending (t : loc)
| TSetup (t : loc) (function data : Z)
| TExpires (t : loc) (expires : Z)     (* timer->expires = expires *)
| TFire (t : loc).                     (* the kit timer of t expires *)

Definition timer_step (o : timer_op) : TM Z :=
  match o with
  | TAdd t => add_timer t ;; mret 0
  | TDel t => del_timer t
  | TMod t e => mod_timer t e
  | TPending t => timer_pending t
  | TSetup t f d => setup_timer t f d ;; mret 0
  | TExpires t e => k ← load_timer t; store_timer t (set_expires e k) ;; mret 0
  | TFire t =>
      k ← load_timer t;
      match tl_kit k with None => mret 0 | Some h => timer_fire h ;; mret 0 end
  end.

Fixpoint timer_run (ops : list timer_op) : TM (list Z) :=
  match ops with
  | [] => mret []
  | o :: ops => r ← timer_step o; rs ← timer_run ops; mret (r :: rs)
  end.

(** ** Specification *)

Record stimer := STimer {
  st_function : Z;
  st_data : Z;
  st_expires : Z;
  st_armed : option (Z * Z * Z);   (* function, data and timeout it is armed with *)
}.

Definition st_arm (k : stimer) : stimer :=
  STimer (st_function k) (st_data k) (st_expires k)
    (Some (st_function k, st_data k, st_expires k)).
Definition st_disarm (k : stimer) : stimer :=
  STimer (st_function k) (st_data k) (st_expires k) None.
Definition st_set_expires (e : Z) (k : stimer) : stimer :=
  STimer (st_function k) (st_data k) e (st_armed k).
Definition st_setup (f d : Z) (k : stimer) : stimer :=
  STimer f d (st_expires k) (st_armed k).

Definition armedb (k : stimer) : Z := bool2Z (bool_decide (is_Some (st_armed k))).

(** Result, new timer and function call of an operation on a timer. *)
Definition spec_op (o : timer_op) (k : stimer) : Z * stimer * list (Z * Z) :=
  match o with
  | TAdd _ => (0, st_arm k, [])
  | TDel _ => (armedb k, st_disarm k, [])
  | TMod _ e => (armedb k, st_arm (st_set_expires e k), [])
  | TPending _ => (armedb k, k, [])
  | TSetup _ f d => (0, st_setup f d k, [])
  | TExpires _ e => (0, st_set_expires e k, [])
  | TFire _ => (0, st_disarm k, match st_armed k with Some (f, d, _) => [(f, d)] | None => [] end)
  end.

Definition op_timer (o : timer_op) : loc :=
  match o with
  | TAdd t | TDel t | TMod t _ | TPending t | TSetup t _ _ | TExpires t _ | TFire t => t
  end.

(** [add_timer] must not be called on a pending timer. *)
Definition op_allowed (o : timer_op) (k : stimer) : bool :=
  match o with
  | TAdd _ => bool_decide (st_armed k = None)
  | _ => true
  end.

(** Run a trace; [None] if a timer does not exist or [add_timer] is misused. *)
Fixpoint spec_run (ops : list timer_op) (m : gmap loc stimer) :
    option (list Z * gmap loc stimer * list (Z * Z)) :=
  match ops with
  | [] => Some ([], m, [])
  | o :: ops =>
      k ← m !! op_timer o;
      if op_allowed o k then
        '(rs, m', calls) ← spec_run ops (<[op_timer o := (spec_op o k).1.2]> m);
        Some ((spec_op o k).1.1 :: rs, m', calls ++ (spec_op o k).2)
      else None
  end.

Definition abs_timer (k : K) (t : timer_list) : stimer :=
  STimer (tl_function t) (tl_data t) (tl_expires t) (h ← tl_kit t; armed k !! h).

Definition abs (s : timer_state) : gmap loc stimer := abs_timer (kit s) <$> timers s.

(** Handles are not shared, and every armed kit timer belongs to a timer. *)
Record timer_inv (s : timer_state) : Prop := {
  ti_init : timer_initialized s = true;
  ti_inj t t' k k' h : timers s !! t = Some k → timers s !! t' = Some k' →
    tl_kit k = Some h → tl_kit k' = Some h → t = t';
  ti_owned h x : armed (kit s) !! h = Some x →
    ∃ t k, timers s !! t = Some k ∧ tl_kit k = Some h;
  ti_handles t k h : timers s !! t = Some k → tl_kit k = Some h → h ∈ handles (kit s);
}.

End Timer.

(** ** Time of day *)

Record timeval := Timeval { tv_sec : Z; tv_usec : Z }.

(** [jiffies] is volatile and read twice: [j1] for the seconds, [j2] for the
    microseconds. *)
Definition do_gettimeofday (j1 j2 : Z) : timeval :=
  Timeval (j1 / HZ) (u32 (j2 mod HZ * 1000000) / HZ).

(** The time in microseconds. *)
Definition tv_total (tv : timeval) : Z := tv_sec tv * 1000000 + tv_usec tv.

(** ** Lemmas *)

Section TimerLemmas.
Context {K : Type} `{KitTimer K}.
Implicit Types (s : timer_state (K := K)) (k : timer_list).

Lemma abs_lookup s t k : timers s !! t = Some k → abs s !! t = Some (abs_timer (kit s) k).
Proof. intros Hk. unfold abs. by rewrite lookup_fmap, Hk. Qed.

(** An operation on timer [t] that leaves the kit timers of others alone. *)
Lemma abs_update s s' t k :
  timers s' = <[t:=k]> (timers s) →
  (∀ t' k' h, t' ≠ t → timers s !! t' = Some k' → tl_kit k' = Some h →
     armed (kit s') !! h = armed (kit s) !! h) →
  abs s' = <[t:=abs_timer (kit s') k]> (abs s).
Proof.
  intros Et Hother. unfold abs. apply map_eq. intros t'. rewrite Et.
  destruct (decide (t' = t)) as [->|Ht].
  - rewrite lookup_fmap, !lookup_insert_eq. done.
  - rewrite lookup_fmap, !lookup_insert_ne by done. rewrite lookup_fmap.
    destruct (timers s !! t') as [k'|] eqn:E; [|done]. cbn. unfold abs_timer. do 2 f_equal.
    destruct (tl_kit k') as [h|] eqn:Eh; [|done]. cbn. by eapply Hother.
Qed.

Lemma abs_insert_id s t k :
  timers s !! t = Some k → <[t:=abs_timer (kit s) k]> (abs s) = abs s.
Proof. intros Hk. apply insert_id. by apply abs_lookup. Qed.

(** Changing a timer without touching its handle. *)
Lemma timer_inv_fields s t k k' :
  timer_inv s → timers s !! t = Some k → tl_kit k' = tl_kit k →
  timer_inv (with_timers (<[t:=k']> (timers s)) s).
Proof.
  intros [Hi Hinj Hown Hh] Hk Ek.
  assert (Hback : ∀ t1 k1, <[t:=k']> (timers s) !! t1 = Some k1 →
    ∃ k0, timers s !! t1 = Some k0 ∧ tl_kit k0 = tl_kit k1).
  { intros t1 k1. rewrite lookup_insert_Some. intros [[<- <-]|[_ ?]]; eauto. }
  split; cbn [with_timers timers kit timer_initialized].
  - done.
  - intros t1 t2 k1 k2 h (k1' & ? & E1)%Hback (k2' & ? & E2)%Hback ??.
    apply (Hinj t1 t2 k1' k2' h); congruence.
  - intros h x (t1 & k1 & ? & ?)%Hown. destruct (decide (t1 = t)) as [->|].
    + exists t, k'. rewrite lookup_insert_eq. split; congruence.
    + exists t1, k1. by rewrite lookup_insert_ne.
  - intros t1 k1 h (k1' & ? & E1)%Hback ?. apply (Hh t1 k1' h); congruence.
Qed.

Lemma timer_fields_spec s t k k' :
  timer_inv s → timers s !! t = Some k → tl_kit k' = tl_kit k →
  timer_inv (with_timers (<[t:=k']> (timers s)) s) ∧
  abs (with_timers (<[t:=k']> (timers s)) s) = <[t:=abs_timer (kit s) k']> (abs s).
Proof. intros HI Hk Ek. split; [by eapply timer_inv_fields|]. by apply (abs_update s (with_timers (<[t:=k']> (timers s)) s)). Qed.

(** [dde_kit_timer_del] and the reset of the handle. *)
Definition deleted (t h : loc) (k : timer_list) (s : timer_state (K := K)) : timer_state :=
  with_timers (<[t:=set_kit None k]> (timers s)) (with_kit (kit_timer_del h (kit s)) s).

Lemma deleted_spec s t k h :
  timer_inv s → timers s !! t = Some k → tl_kit k = Some h →
  timer_inv (deleted t h k s) ∧
  abs (deleted t h k s) = <[t:=st_disarm (abs_timer (kit s) k)]> (abs s).
Proof.
  intros HI Hk Eh. pose proof HI as [Hi Hinj Hown Hh]. split.
  - split; cbn [deleted with_timers with_kit timers kit timer_initialized].
    + done.
    + intros t1 t2 k1 k2 h'. rewrite !lookup_insert_Some.
      intros [[<- <-]|[? ?]] [[<- <-]|[? ?]]; try done. eauto.
    + intros h' x. rewrite kit_del_armed, lookup_delete_Some.
      intros [Hne (t1 & k1 & ? & ?)%Hown]. exists t1, k1. rewrite lookup_insert_ne; [done|congruence].
    + intros t1 k1 h'. rewrite lookup_insert_Some, kit_del_handles.
      intros [[<- <-]|[Hne ?]] ?; [done|]. apply elem_of_difference. split; [by eapply Hh|].
      rewrite elem_of_singleton. intros ->. apply Hne. by eapply Hinj.
  - rewrite (abs_update s _ t (set_kit None k)); [done|done|]. intros t' k' h' Hne ? ?.
    cbn [deleted with_timers with_kit kit]. rewrite kit_del_armed, lookup_delete_ne; [done|].
    intros ->. apply Hne. by eapply Hinj.
Qed.

(** [dde_kit_timer_add] for a timer that is not armed. *)
Definition added (t : loc) (k : timer_list) (s : timer_state (K := K)) : timer_state :=
  let r := kit_timer_add (tl_function k) (tl_data k) (tl_expires k) (kit s) in
  with_timers (<[t:=set_kit (Some r.1) k]> (timers s)) (with_kit r.2 s).

Lemma added_fresh s t k :
  timer_inv s → timers s !! t = None →
  timer_inv (added t k s) ∧
  abs (added t k s) = <[t:=st_arm (abs_timer (kit s) k)]> (abs s).
Proof.
  intros HI Hk. pose proof HI as [Hi Hinj Hown Hh]. unfold added.
  set (r := kit_timer_add _ _ _ _).
  assert (Hfresh : r.1 ∉ handles (kit s)) by apply kit_add_fresh.
  assert (Harmed : armed r.2 = <[r.1:=(tl_function k, tl_data k, tl_expires k)]> (armed (kit s)))
    by apply kit_add_armed.
  assert (Hhandles : handles r.2 = {[r.1]} ∪ handles (kit s)) by apply kit_add_handles.
  clearbody r. split.
  - split; cbn [with_timers with_kit timers kit timer_initialized].
    + done.
    + intros t1 t2 k1 k2 h. rewrite !lookup_insert_Some.
      intros [[<- <-]|[? E1]] [[<- <-]|[? E2]] E3 E4; try done; cbn in *; [exfalso|exfalso|eauto];
        simplify_eq; apply Hfresh; by eapply Hh.
    + intros h x. rewrite Harmed, lookup_insert_Some. intros [[<- <-]|[Hne Hx]].
      * exists t, (set_kit (Some r.1) k). by rewrite lookup_insert_eq.
      * destruct (Hown h x Hx) as (t1 & k1 & E1 & E2). exists t1, k1.
        rewrite lookup_insert_ne; [done|congruence].
    + intros t1 k1 h. rewrite lookup_insert_Some, Hhandles.
      intros [[<- <-]|[? ?]] E; cbn in E; [set_solver|]. apply elem_of_union_r. by eapply Hh.
  - rewrite (abs_update s _ t (set_kit (Some r.1) k)); [|done|].
    + f_equal. unfold abs_timer, st_arm. cbn. by rewrite Harmed, lookup_insert_eq.
    + intros t' k' h Hne Ht' Eh. cbn. rewrite Harmed, lookup_insert_ne; [done|].
      intros <-. apply Hfresh. by eapply Hh.
Qed.

(** A timer that is not armed can go out of scope. *)
Lemma timer_inv_delete s t :
  timer_inv s → (∀ k, timers s !! t = Some k → st_armed (abs_timer (kit s) k) = None) →
  timer_inv (with_timers (delete t (timers s)) s) ∧
  abs (with_timers (delete t (timers s)) s) = delete t (abs s).
Proof.
  intros [Hi Hinj Hown Hh] Hun. split; [|unfold abs; cbn; by rewrite fmap_delete].
  split; cbn [with_timers timers kit timer_initialized].
  - done.
  - intros t1 t2 k1 k2 h [_ ?]%lookup_delete_Some [_ ?]%lookup_delete_Some. eauto.
  - intros h x Hx. destruct (Hown h x Hx) as (t1 & k1 & E1 & E2). exists t1, k1.
    rewrite lookup_delete_ne; [done|]. intros <-. specialize (Hun k1 E1). cbn in Hun.
    rewrite E2 in Hun. cbn in Hun. congruence.
  - intros t1 k1 h [_ ?]%lookup_delete_Some. eauto.
Qed.

Lemma added_spec s t k :
  timer_inv s → timers s !! t = Some k → st_armed (abs_timer (kit s) k) = None →
  timer_inv (added t k s) ∧ abs (added t k s) = <[t:=st_arm (abs_timer (kit s) k)]> (abs s).
Proof.
  intros HI Hk Ea.
  destruct (timer_inv_delete s t HI) as [HI' Eabs]; [intros ? ?; by simplify_eq|].
  destruct (added_fresh _ t k HI') as [HI2 E2]; [cbn; by rewrite lookup_delete_eq|].
  rewrite Eabs in E2. unfold added in *. cbn [timers kit with_timers] in *.
  rewrite !insert_delete_eq in *. done.
Qed.

(** An expiry of the timer's kit timer. *)
Lemma fire_spec s t k h fn arg e :
  timer_inv s → timers s !! t = Some k → tl_kit k = Some h → armed (kit s) !! h = Some (fn, arg, e) →
  let s' := with_fired ((fn, arg) :: fired s) (with_kit (kit_timer_fire h (kit s)) s) in
  timer_inv s' ∧ abs s' = <[t:=st_disarm (abs_timer (kit s) k)]> (abs s).
Proof.
  intros HI Hk Eh Ea s'. pose proof HI as [Hi Hinj Hown Hh]. split.
  - split; cbn; try done.
    + intros h' x. rewrite kit_fire_armed, lookup_delete_Some. intros [_ ?]. eauto.
    + intros. rewrite kit_fire_handles. eauto.
  - replace (st_disarm _) with (abs_timer (kit s') k).
    + apply (abs_update s); [cbn; by rewrite insert_id|]. intros t' k' h' Hne ? ?. cbn.
      rewrite kit_fire_armed, lookup_delete_ne; [done|]. intros ->. apply Hne. by eapply Hinj.
    + unfold abs_timer, st_disarm. cbn. by rewrite Eh; cbn; rewrite kit_fire_armed, lookup_delete_eq.
Qed.

Lemma pending_armedb s k h :
  tl_kit k = Some h → bool2Z (kit_timer_pending h (kit s)) = armedb (abs_timer (kit s) k).
Proof.
  intros Eh. unfold armedb. cbn. rewrite Eh. cbn. by rewrite kit_pending_armed.
Qed.

Lemma del_timer_spec s t k :
  timer_inv s → timers s !! t = Some k →
  ∃ s' k', del_timer t s = Done (armedb (abs_timer (kit s) k), s') ∧ timer_inv s' ∧
    abs s' = <[t:=st_disarm (abs_timer (kit s) k)]> (abs s) ∧ fired s' = fired s ∧
    timers s' !! t = Some k' ∧ abs_timer (kit s') k' = st_disarm (abs_timer (kit s) k).
Proof.
  intros HI Hk. unfold del_timer, CHECK_INITVAR_timer, load_timer, store_timer. run_simpl.
  rewrite (ti_init _ HI), Hk. destruct (tl_kit k) as [h|] eqn:Eh.
  - destruct (deleted_spec s t k h HI Hk Eh) as [HI' Ea].
    eexists _, (set_kit None k). split_and!; [|exact HI'|exact Ea|done|cbn; by rewrite lookup_insert_eq|done].
    rewrite <- (pending_armedb s k h Eh). by destruct (kit_timer_pending h (kit s)).
  - assert (Ed : abs_timer (kit s) k = st_disarm (abs_timer (kit s) k))
      by (unfold abs_timer; by rewrite Eh).
    exists s, k. split_and!; try done.
    + unfold armedb. by rewrite Ed.
    + rewrite <- Ed. symmetry. by apply abs_insert_id.
Qed.

Lemma add_timer_spec s t k :
  timer_inv s → timers s !! t = Some k → st_armed (abs_timer (kit s) k) = None →
  ∃ s', add_timer t s = Done (tt, s') ∧ timer_inv s' ∧
    abs s' = <[t:=st_arm (abs_timer (kit s) k)]> (abs s) ∧ fired s' = fired s.
Proof.
  intros HI Hk Ea. unfold add_timer, CHECK_INITVAR_timer, load_timer, store_timer. run_simpl.
  rewrite (ti_init _ HI), Hk. destruct (added_spec s t k HI Hk Ea) as [HI' Ea'].
  exists (added t k s). done.
Qed.

Lemma mod_timer_spec s t k e :
  timer_inv s → timers s !! t = Some k →
  ∃ s', mod_timer t e s = Done (armedb (abs_timer (kit s) k), s') ∧ timer_inv s' ∧
    abs s' = <[t:=st_arm (st_set_expires e (abs_timer (kit s) k))]> (abs s) ∧ fired s' = fired s.
Proof.
  intros HI Hk. destruct (del_timer_spec s t k HI Hk) as (s1 & k1 & E1 & HI1 & Ea1 & Ef1 & Hk1 & Eab).
  destruct (timer_fields_spec s1 t k1 (set_expires e k1) HI1 Hk1 eq_refl) as [HI2 Ea2].
  set (s2 := with_timers _ s1) in *.
  assert (Hk2 : timers s2 !! t = Some (set_expires e k1)) by (cbn; by rewrite lookup_insert_eq).
  assert (Eab2 : abs_timer (kit s2) (set_expires e k1) = st_set_expires e (st_disarm (abs_timer (kit s) k)))
    by (rewrite <- Eab; done).
  destruct (add_timer_spec s2 t _ HI2 Hk2) as (s3 & E3 & HI3 & Ea3 & Ef3).
  { by rewrite Eab2. }
  exists s3. split_and!; [|done| |by rewrite Ef3].
  - unfold mod_timer, __mod_timer, CHECK_INITVAR_timer, load_timer, store_timer. run_simpl.
    rewrite (ti_init _ HI), E1, Hk1. fold s2. rewrite E3. unfold armedb.
    by case_bool_decide.
  - rewrite Ea3, Ea2, Ea1, !insert_insert_eq, Eab2. done.
Qed.

Lemma timer_step_spec s o k :
  timer_inv s → timers s !! op_timer o = Some k → op_allowed o (abs_timer (kit s) k) = true →
  ∃ s', timer_step o s = Done ((spec_op o (abs_timer (kit s) k)).1.1, s') ∧ timer_inv s' ∧
    abs s' = <[op_timer o:=(spec_op o (abs_timer (kit s) k)).1.2]> (abs s) ∧
    fired s' = (spec_op o (abs_timer (kit s) k)).2 ++ fired s.
Proof.
  intros HI Hk Hok. destruct o as [t|t|t e|t|t f d|t e|t]; cbn [op_timer spec_op fst snd] in *.
  - destruct (add_timer_spec s t k HI Hk) as (s' & E & ?); [by apply bool_decide_eq_true in Hok|].
    exists s'. unfold timer_step. run_simpl. by rewrite E.
  - destruct (del_timer_spec s t k HI Hk) as (s' & k' & E & ? & ? & ? & _). by exists s'.
  - apply mod_timer_spec; done.
  - exists s. cbn [timer_step]. unfold timer_pending, CHECK_INITVAR_timer, load_timer. run_simpl.
    rewrite (ti_init _ HI), Hk. split_and!; [|done|symmetry; by apply abs_insert_id|done].
    destruct (tl_kit k) as [h|] eqn:Eh; [by rewrite (pending_armedb s k h Eh)|].
    unfold armedb, abs_timer. by rewrite Eh.
  - destruct (timer_fields_spec s t k (TimerList (tl_expires k) f d (tl_kit k)) HI Hk eq_refl) as [HI' Ea].
    eexists. cbn [timer_step]. unfold setup_timer, load_timer, store_timer, init_timer. run_simpl.
    rewrite Hk. done.
  - destruct (timer_fields_spec s t k (set_expires e k) HI Hk eq_refl) as [HI' Ea].
    eexists. cbn [timer_step]. unfold load_timer, store_timer. run_simpl. rewrite Hk. done.
  - cbn [timer_step]. unfold load_timer, timer_fire. run_simpl. rewrite Hk.
    destruct (tl_kit k) as [h|] eqn:Eh; cbn [abs_timer st_armed]; rewrite ?Eh; cbn [mbind option_bind].
    + destruct (armed (kit s) !! h) as [[[fn arg] e]|] eqn:Ea.
      * destruct (fire_spec s t k h fn arg e HI Hk Eh Ea) as [HI' Eab]. by eexists.
      * exists s. split_and!; try done. symmetry. apply insert_id. rewrite (abs_lookup s t k Hk).
        unfold abs_timer, st_disarm. cbn. by rewrite Eh; cbn; rewrite Ea.
    + exists s. split_and!; try done. symmetry. apply insert_id. rewrite (abs_lookup s t k Hk).
      unfold abs_timer, st_disarm. cbn. by rewrite Eh.
Qed.

Lemma timer_run_spec ops s rs m calls :
  timer_inv s → spec_run ops (abs s) = Some (rs, m, calls) →
  ∃ s', timer_run ops s = Done (rs, s') ∧ timer_inv s' ∧ abs s' = m ∧ fired s' = calls ++ fired s.
Proof.
  revert s rs m calls. induction ops as [|o ops IH]; intros s rs m calls HI Hspec; cbn in Hspec.
  { simplify_eq. by exists s. }
  destruct (abs s !! op_timer o) as [a|] eqn:Ea; [|done]. cbn in Hspec.
  destruct (op_allowed o a) eqn:Hok; [|done].
  destruct (spec_run ops _) as [[[rs' m'] calls']|] eqn:Er; [|done]. cbn in Hspec. simplify_eq.
  unfold abs in Ea. rewrite lookup_fmap in Ea.
  destruct (timers s !! op_timer o) as [k|] eqn:Hk; [|done]. cbn in Ea. simplify_eq.
  destruct (timer_step_spec s o k HI Hk Hok) as (s1 & E1 & HI1 & Ea1 & Ef1).
  rewrite <- Ea1 in Er. destruct (IH s1 rs' m calls' HI1 Er) as (s2 & E2 & HI2 & Ea2 & Ef2).
  exists s2. cbn [timer_run]. run_simpl. rewrite E1, E2. split_and!; try done.
  by rewrite Ef2, Ef1, <- app_assoc.
Qed.

End TimerLemmas.

(** ** Properties *)

(** C8: the timer functions implement Linux timers on top of any kit.  For every
    trace of [add_timer] (on timers that are not pending), [del_timer],
    [mod_timer], [timer_pending], [setup_timer], stores to [expires] and
    expiries, the results are those of the specification ([del_timer] and
    [mod_timer] return 1 iff the timer was pending), a timer is armed in the kit
    exactly when the specification says so and with the function, data and
    timeout of its last arming, and each expiry calls exactly that function. *)
Theorem timers_refine {K : Type} `{KitTimer K} (ops : list timer_op) (s : timer_state (K := K))
    (rs : list Z) (m : gmap loc stimer) (calls : list (Z * Z)) :
  timer_inv s → spec_run ops (abs s) = Some (rs, m, calls) →
  ∃ s', timer_run ops s = Done (rs, s') ∧ timer_inv s' ∧ abs s' = m ∧
    fired s' = calls ++ fired s.
Proof. apply timer_run_spec. Qed.

(** Two timers that are not armed. *)
Definition demo_timers : timer_state (K := ktimers) :=
  TimerState {[ 1%positive := TimerList 0 10 1 None; 2%positive := TimerList 0 20 2 None ]}
    (KTimers ∅ ∅) true [].

Lemma demo_timers_inv : timer_inv demo_timers.
Proof.
  assert (Hnone : ∀ t k, timers demo_timers !! t = Some k → tl_kit k = None).
  { intros t k. cbn. rewrite lookup_insert_Some, lookup_singleton_Some.
    intros [[_ <-]|[_ [_ <-]]]; done. }
  split; try done.
  - intros t t' k k' h ?%Hnone. congruence.
  - intros t k h ?%Hnone. congruence.
Qed.

Lemma timers_refine_witness :
  ∃ s', timer_run [TExpires 1 500; TAdd 1; TMod 2 700; TMod 1 600; TFire 2; TDel 2; TPending 1]%positive
      demo_timers = Done ([0; 0; 0; 1; 0; 0; 1], s') ∧ timer_inv s' ∧
    abs s' = {[ 1%positive := STimer 10 1 600 (Some (10, 1, 600));
                2%positive := STimer 20 2 700 None ]} ∧
    fired s' = [(20, 2)].
Proof.
  apply (timers_refine [TExpires 1 500; TAdd 1; TMod 2 700; TMod 1 600; TFire 2; TDel 2; TPending 1]%positive
    demo_timers [0; 0; 0; 1; 0; 0; 1] _ [(20, 2)]).
  - apply demo_timers_inv.
  - vm_compute. reflexivity.
Defined.

(** C14: [init_timer] leaves the handle of a timer as it finds it.  If the memory
    of a timer that is initialised now still holds the handle of a pending
    timer, deleting the timer that was never added returns 1 and cancels the
    other one. *)
Theorem init_timer_keeps_stale_handle {K : Type} `{KitTimer K} (s : timer_state (K := K))
    (t1 t2 h : loc) (k1 k2 : timer_list) (x : Z * Z * Z) :
  timer_initialized s = true → t1 ≠ t2 →
  timers s !! t1 = Some k1 → tl_kit k1 = Some h → armed (kit s) !! h = Some x →
  timers s !! t2 = Some k2 → tl_kit k2 = Some h →
  ∃ s', (setup_timer t2 (tl_function k2) (tl_data k2) ;; del_timer t2) s = Done (1, s') ∧
    st_armed <$> (abs s !! t1) = Some (Some x) ∧ st_armed <$> (abs s' !! t1) = Some None.
Proof.
  intros Hi Hne H1 E1 Ea H2 E2.
  unfold setup_timer, init_timer, del_timer, CHECK_INITVAR_timer, load_timer, store_timer. run_simpl.
  rewrite H2. cbn [timer_initialized with_timers timers]. rewrite Hi. cbn [timers with_timers].
  rewrite lookup_insert_eq.
  cbn [tl_kit]. rewrite E2. cbn [kit with_timers with_kit timers].
  rewrite kit_pending_armed, Ea.
  eexists. split; [done|]. unfold abs. cbn [timers kit with_timers with_kit].
  rewrite !lookup_fmap, !lookup_insert_ne by done. rewrite H1. cbn. rewrite E1. cbn.
  by rewrite Ea, kit_del_armed, lookup_delete_eq.
Qed.

Definition demo_stale : timer_state (K := ktimers) :=
  TimerState {[ 1%positive := TimerList 500 10 1 (Some 7%positive);
                2%positive := TimerList 0 20 2 (Some 7%positive) ]}
    (KTimers {[ 7%positive := (10, 1, 500) ]} ∅) true [].

Lemma init_timer_keeps_stale_handle_witness :
  ∃ s', (setup_timer 2%positive 20 2 ;; del_timer 2%positive) demo_stale = Done (1, s') ∧
    st_armed <$> (abs demo_stale !! 1%positive) = Some (Some (10, 1, 500)) ∧
    st_armed <$> (abs s' !! 1%positive) = Some None.
Proof.
  apply (init_timer_keeps_stale_handle demo_stale
    1%positive 2%positive 7%positive (TimerList 500 10 1 (Some 7%positive))
    (TimerList 0 20 2 (Some 7%positive)) (10, 1, 500)); done.
Defined.

(** C9: [do_gettimeofday] reads [jiffies] once for the seconds ([j1]) and once
    for the microseconds ([j2]).  If less than a second and no wrap of the
    counter lies between the reads, both parts are in range without overflow,
    and the time is 10 ms per jiffy of the second read, exactly, unless a second
    boundary lies between the reads: then it is a full second behind, earlier
    than the time of the first read. *)
Theorem gettimeofday_two_reads (j1 j2 : Z) :
  0 ≤ j1 ≤ j2 → j2 < 2 ^ 32 → j2 < j1 + HZ →
  0 ≤ tv_sec (do_gettimeofday j1 j2) < 2 ^ 31 ∧ 0 ≤ tv_usec (do_gettimeofday j1 j2) < 1000000 ∧
  if j1 / HZ =? j2 / HZ
  then tv_total (do_gettimeofday j1 j2) = j2 * 10000
  else tv_total (do_gettimeofday j1 j2) = j2 * 10000 - 1000000 ∧
    tv_total (do_gettimeofday j1 j2) < j1 * 10000.
Proof.
  intros Hj Hw Hs. unfold tv_total, do_gettimeofday, HZ in *. cbn [tv_sec tv_usec].
  pose proof (Z.mod_pos_bound j2 100 ltac:(lia)) as Hm.
  pose proof (Z.mod_pos_bound j1 100 ltac:(lia)) as Hm1.
  pose proof (Z.div_mod j2 100 ltac:(lia)) as Hd2.
  pose proof (Z.div_mod j1 100 ltac:(lia)) as Hd1.
  rewrite u32_small by lia.
  replace (j2 mod 100 * 1000000) with (j2 mod 100 * 10000 * 100) by lia.
  rewrite Z.div_mul by lia.
  destruct (Z.eqb_spec (j1 / 100) (j2 / 100)); lia.
Qed.

Lemma gettimeofday_two_reads_witness :
  tv_total (do_gettimeofday 12345 12346) = 123460000 ∧
  tv_total (do_gettimeofday 199 200) = 1000000 ∧ 1000000 < 199 * 10000.
Proof.
  pose proof (gettimeofday_two_reads 12345 12346 ltac:(lia) ltac:(lia) ltac:(unfold HZ; lia)) as W1.
  pose proof (gettimeofday_two_reads 199 200 ltac:(lia) ltac:(lia) ltac:(unfold HZ; lia)) as W2.
  destruct W1 as (_ & _ & W1), W2 as (_ & _ & W2). split; [exact W1|exact W2].
Defined.
