(* ===== verification/Sched.v ===== *)
(** Sleeping and waking (src/src/lib/dde_linux26/arch/dde_kit/sched.c and the
    sleeping functions of timer.c).

    Scheduling is done by the host; a Linux task only needs a state word and a
    semaphore, its sleep lock.  The first part gives the functions, with what
    the other threads do meanwhile as a list of events; the second part is the
    step relation of a sleeper and a waker. *)

From S2P Require Import Prelude Kit Timer.

Definition TASK_RUNNING : Z := 0.
Definition TASK_INTERRUPTIBLE : Z := 1.
Definition TASK_UNINTERRUPTIBLE : Z := 2.
Definition TASK_STOPPED : Z := 4.
Definition TASK_TRACED : Z := 8.

(** The parts of [task_struct] and [dde_linux26_thread_data] used here. *)
Record task := Task { tk_state : Z; tk_sleep_lock : Z }.

Section Sched.
Context {K : Type} `{KitTimer K}.

(** The address of [process_timeout]. *)
Context (process_timeout_fn : Z).

Record sched_state := SchedState {
  tasks : gmap loc task;
  tms : timer_state (K := K);
  jiffies : Z;
}.

Abbreviation CM := (M sched_state).

Definition with_tasks (h : gmap loc task) (s : sched_state) : sched_state :=
  SchedState h (tms s) (jiffies s).
Definition with_tms (t : timer_state (K := K)) (s : sched_state) : sched_state :=
  SchedState (tasks s) t (jiffies s).
Definition with_jiffies (j : Z) (s : sched_state) : sched_state :=
  SchedState (tasks s) (tms s) j.

Definition lift_tm {X} (m : M (timer_state (K := K)) X) : CM X := λ s,
  match m (tms s) with Done (x, t) => Done (x, with_tms t s) | Fault e => Fault e end.

Definition load_task (p : loc) : CM task := λ s,
  match tasks s !! p with Some k => Done (k, s) | None => Fault FNull end.
Definition store_task (p : loc) (k : task) : CM unit :=
  modify (λ s, with_tasks (<[p:=k]> (tasks s)) s).

Definition set_task_state (p : loc) (st : Z) : CM unit :=
  k ← load_task p; store_task p (Task st (tk_sleep_lock k)).

(** [dde_kit_sem_up(SLEEP_LOCK(t))] *)
Definition sleep_lock_up (p : loc) : CM unit :=
  k ← load_task p; store_task p (Task (tk_state k) (tk_sleep_lock k + 1)).

Definition try_to_wake_up (p : loc) (state sync : Z) : CM Z :=
  set_task_state p TASK_RUNNING ;; sleep_lock_up p ;; mret 0.

Definition wake_up_process (p : loc) : CM Z :=
  try_to_wake_up p (Z.lor TASK_STOPPED (Z.lor TASK_TRACED
    (Z.lor TASK_INTERRUPTIBLE TASK_UNINTERRUPTIBLE))) 0.

Definition process_timeout (data : Z) : CM unit :=
  wake_up_process (Z.to_pos data) ;; mret tt.

(** ** What other threads do while a task waits *)

Inductive event :=
| EvTick                       (* time passes: jiffies++ *)
| EvWake (p : loc)             (* wake_up_process(p) *)
| EvTimer (o : timer_op)       (* a call of another thread on its timer *)
| EvFire (t : loc).            (* the kit timer of t expires *)

(** The timer thread calls the function of an expired timer. *)
Definition fire_event (t : loc) : CM unit :=
  k ← lift_tm (load_timer t);
  match tl_kit k with
  | None => mret tt
  | Some h =>
      a ← gets (λ s, armed (kit (tms s)) !! h);
      match a with
      | None => mret tt
      | Some (fn, arg, _) =>
          lift_tm (timer_fire h) ;;
          if fn =? process_timeout_fn then process_timeout arg else mret tt
      end
  end.

Definition run_event (e : event) : CM unit :=
  match e with
  | EvTick => modify (λ s, with_jiffies (u32 (jiffies s + 1)) s)
  | EvWake p => wake_up_process p ;; mret tt
  | EvTimer o => lift_tm (timer_step o) ;; mret tt
  | EvFire t => fire_event t
  end.

Definition run_events (evs : list event) : CM unit := seqM (map run_event evs).

(** ** The functions of the current task *)

Section Current.
Context (cur : loc) (evs : list event).

(** [dde_kit_sem_down]: the events happen while the task waits; if they leave
    the semaphore at 0 the task stays blocked. *)
Definition sleep_lock_down : CM unit :=
  run_events evs ;;
  k ← load_task cur;
  if 0 <? tk_sleep_lock k then store_task cur (Task (tk_state k) (tk_sleep_lock k - 1))
  else fail FFuel.

Definition schedule : CM unit :=
  k ← load_task cur;
  if tk_state k =? TASK_RUNNING then run_events evs
  else if (tk_state k =? TASK_INTERRUPTIBLE) || (tk_state k =? TASK_UNINTERRUPTIBLE)
  then sleep_lock_down
  else fail FPanic.

Definition yield : CM unit := set_task_state cur TASK_RUNNING ;; run_events evs.

(** [schedule_timeout]; [tm] is the address of its local timer and [g] what the
    stack holds there, the timer is gone on return. *)
Definition schedule_timeout (tm : loc) (g : timer_list) (timeout : Z) : CM Z :=
  lift_tm (store_timer tm g) ;;
  j ← gets jiffies;
  let expire := u32 (timeout + j) in
  lift_tm (setup_timer tm process_timeout_fn (Z.pos cur)) ;;
  k ← lift_tm (load_timer tm); lift_tm (store_timer tm (set_expires expire k)) ;;
  lift_tm (add_timer tm) ;;
  schedule ;;
  lift_tm (del_timer tm) ;;
  lift_tm (modify (λ t, with_timers (delete tm (timers t)) t)) ;;
  j' ← gets jiffies;
  let timeout := s32 (expire - j') in
  mret (if timeout <? 0 then 0 else timeout).

Definition schedule_timeout_interruptible (tm : loc) (g : timer_list) (timeout : Z) : CM Z :=
  set_task_state cur TASK_INTERRUPTIBLE ;; schedule_timeout tm g timeout.

Definition schedule_timeout_uninterruptible (tm : loc) (g : timer_list) (timeout : Z) : CM Z :=
  set_task_state cur TASK_UNINTERRUPTIBLE ;; schedule_timeout tm g timeout.

Definition msleep_interruptible (tm : loc) (g : timer_list) (msecs : Z) : CM unit :=
  lift_tm CHECK_INITVAR_timer ;;
  set_task_state cur TASK_INTERRUPTIBLE ;;
  schedule_timeout tm g (s32 msecs) ;; mret tt.

End Current.

Definition set_cpus_allowed (p : loc) (mask : Z) : Z := 0.
Definition io_schedule_timeout (timeout : Z) : Z := -1.

(** ** Invariant of the events *)

(** A timer that wakes a task names an existing one. *)
Definition fd_ok (P : gset loc) (f d : Z) : Prop := f = process_timeout_fn → Z.to_pos d ∈ P.

Record sched_inv (P : gset loc) (s : sched_state) : Prop := {
  si_timers : timer_inv (tms s);
  si_tasks : dom (tasks s) = P;
  si_fd t k : abs (tms s) !! t = Some k → fd_ok P (st_function k) (st_data k);
  si_armed t k f d e : abs (tms s) !! t = Some k → st_armed k = Some (f, d, e) → fd_ok P f d;
}.

(** Events of other threads: they use [mod_timer], [del_timer] and
    [timer_pending] on timers other than [tm]. *)
Definition ev_ok (P T : gset loc) (tm : loc) (e : event) : Prop :=
  match e with
  | EvTick => True
  | EvWake p => p ∈ P
  | EvTimer (TDel t) | EvTimer (TMod t _) | EvTimer (TPending t) => t ∈ T ∧ t ≠ tm
  | EvTimer _ => False
  | EvFire t => t ∈ T
  end.

Definition tick (e : event) : Z := match e with EvTick => 1 | _ => 0 end.
Definition ticks (evs : list event) : Z := foldr (λ e n, tick e + n) 0 evs.

(** The waiting task: its timer is armed, or it has been woken. *)
Definition waiting (cur tm : loc) (expire : Z) (s : sched_state) : Prop :=
  ∃ k tk, abs (tms s) !! tm = Some k ∧ tasks s !! cur = Some tk ∧ 0 ≤ tk_sleep_lock tk ∧
    (st_armed k = Some (process_timeout_fn, Z.pos cur, expire) ∨
     st_armed k = None ∧ 0 < tk_sleep_lock tk).

Definition woken (cur : loc) (s : sched_state) : Prop :=
  ∃ tk, tasks s !! cur = Some tk ∧ 0 < tk_sleep_lock tk.

(** An event that wakes the task. *)
Definition wakes (cur tm : loc) (e : event) : Prop := e = EvWake cur ∨ e = EvFire tm.

(** ** Lemmas *)

Lemma dom_lookup {X} (h : gmap loc X) (P : gset loc) p : dom h = P → p ∈ P → ∃ x, h !! p = Some x.
Proof. intros <- Hp. by apply elem_of_dom in Hp. Qed.

Lemma wake_spec P s p :
  sched_inv P s → p ∈ P →
  ∃ tk, tasks s !! p = Some tk ∧
    wake_up_process p s =
      Done (0, with_tasks (<[p:=Task TASK_RUNNING (tk_sleep_lock tk + 1)]> (tasks s)) s) ∧
    sched_inv P (with_tasks (<[p:=Task TASK_RUNNING (tk_sleep_lock tk + 1)]> (tasks s)) s).
Proof.
  intros [Ht Hd Hf Ha] Hp. destruct (dom_lookup _ _ p Hd Hp) as [tk Htk]. exists tk.
  split; [done|]. split.
  - unfold wake_up_process, try_to_wake_up, set_task_state, sleep_lock_up, load_task, store_task.
    run_simpl. rewrite Htk. cbn [tasks with_tasks]. rewrite lookup_insert_eq. cbn [tk_state tk_sleep_lock].
    cbn [tasks with_tasks tms jiffies]. by rewrite insert_insert_eq.
  - split; try done. cbn. rewrite dom_insert_L, Hd. set_solver.
Qed.

(** Waking any task keeps the waiting task waiting or wakes it. *)
Lemma waiting_wake cur tm ex s p tk :
  tasks s !! p = Some tk → 0 ≤ tk_sleep_lock tk → waiting cur tm ex s →
  waiting cur tm ex (with_tasks (<[p:=Task TASK_RUNNING (tk_sleep_lock tk + 1)]> (tasks s)) s).
Proof.
  intros Hp Hge (k & tk' & Hk & Hc & Hn & Hor). destruct (decide (p = cur)) as [->|Hne].
  - exists k, (Task TASK_RUNNING (tk_sleep_lock tk + 1)). cbn. rewrite lookup_insert_eq.
    split_and!; try done; [lia|]. assert (tk' = tk) as -> by congruence.
    destruct Hor as [?|[? ?]]; [by left|right]. split; [done|lia].
  - exists k, tk'. cbn. by rewrite lookup_insert_ne.
Qed.

(** Sleep locks never become negative. *)
Definition sems_ok (s : sched_state) : Prop := ∀ p tk, tasks s !! p = Some tk → 0 ≤ tk_sleep_lock tk.

Lemma sems_wake s p tk :
  tasks s !! p = Some tk → sems_ok s →
  sems_ok (with_tasks (<[p:=Task TASK_RUNNING (tk_sleep_lock tk + 1)]> (tasks s)) s).
Proof.
  intros Hp Hs q tq. cbn. rewrite lookup_insert_Some. intros [[<- <-]|[_ ?]]; [|eauto].
  cbn. specialize (Hs p tk Hp). lia.
Qed.

Lemma abs_dom (t : timer_state (K := K)) : dom (abs t) = dom (timers t).
Proof. unfold abs. apply dom_fmap_L. Qed.

(** A call of another thread on its own timer. *)
Lemma timer_event_spec P T cur tm ex s o :
  sched_inv P s → dom (timers (tms s)) = T → ev_ok P T tm (EvTimer o) → waiting cur tm ex s →
  ∃ s', run_event (EvTimer o) s = Done (tt, s') ∧ sched_inv P s' ∧ dom (timers (tms s')) = T ∧
    waiting cur tm ex s' ∧ tasks s' = tasks s ∧ jiffies s' = jiffies s.
Proof.
  intros [Ht Hd Hf Ha] HT Hok Hw.
  assert (Ho : op_timer o ∈ T ∧ op_timer o ≠ tm ∧ ∀ k, op_allowed o k = true ∧
    st_function (spec_op o k).1.2 = st_function k ∧ st_data (spec_op o k).1.2 = st_data k ∧
    (st_armed (spec_op o k).1.2 = st_armed k ∨ st_armed (spec_op o k).1.2 = None ∨
     ∃ e, st_armed (spec_op o k).1.2 = Some (st_function k, st_data k, e)))
    by (destruct o; cbn in Hok; try done; destruct Hok; split_and!; eauto 10).
  destruct Ho as (HoT & Hne & Ho).
  destruct (dom_lookup _ _ _ HT HoT) as [k Hk].
  destruct (Ho (abs_timer (kit (tms s)) k)) as (Hal & Hfn & Hdt & Harm).
  destruct (timer_step_spec (tms s) o k Ht Hk Hal) as (t' & E & HI & Eabs & _).
  exists (with_tms t' s). pose proof (abs_lookup _ _ _ Hk) as Hak.
  split; [unfold run_event, lift_tm; run_simpl; by rewrite E|]. split_and!; try done.
  - split; [done|done|..]; cbn [tms with_tms]; rewrite Eabs.
    + intros t1 k1. rewrite lookup_insert_Some. intros [[<- <-]|[_ ?]]; [|eauto].
      rewrite Hfn, Hdt. eauto.
    + intros t1 k1 f d e. rewrite lookup_insert_Some. intros [[<- <-]|[_ ?]] E1; [|eauto].
      destruct Harm as [Hs|[Hs|[e' Hs]]]; rewrite Hs in E1; [eauto|done|]. simplify_eq.
      by apply (Hf _ _ Hak).
  - cbn. rewrite <- abs_dom, Eabs, dom_insert_L, abs_dom, HT. set_solver.
  - destruct Hw as (k1 & tk & Hk1 & Htk & Hor). exists k1, tk. cbn [tms with_tms tasks].
    rewrite Eabs, lookup_insert_ne by done. done.
Qed.

Lemma woken_wake cur s p tk :
  tasks s !! p = Some tk → 0 ≤ tk_sleep_lock tk → p = cur ∨ woken cur s →
  woken cur (with_tasks (<[p:=Task TASK_RUNNING (tk_sleep_lock tk + 1)]> (tasks s)) s).
Proof.
  intros Hp Hge Hor. destruct (decide (p = cur)) as [->|Hne].
  - eexists. cbn. rewrite lookup_insert_eq. split; [done|]. cbn. lia.
  - destruct Hor as [?|(tk' & ? & ?)]; [done|]. exists tk'. cbn. by rewrite lookup_insert_ne.
Qed.

(** What one event does to the waiting task. *)
Record event_post (P T : gset loc) (cur tm : loc) (ex : Z) (s s' : sched_state) : Prop := {
  ep_inv : sched_inv P s';
  ep_timers : dom (timers (tms s')) = T;
  ep_waiting : waiting cur tm ex s';
  ep_sems : sems_ok s';
  ep_woken : woken cur s → woken cur s';
}.

Lemma wake_post P T cur tm ex s p :
  sched_inv P s → dom (timers (tms s)) = T → waiting cur tm ex s ∨ p = cur ∧
    (∃ k, abs (tms s) !! tm = Some k ∧ st_armed k = None) → sems_ok s → p ∈ P →
  ∃ s', wake_up_process p s = Done (0, s') ∧ event_post P T cur tm ex s s' ∧
    jiffies s' = jiffies s ∧ (p = cur → woken cur s').
Proof.
  intros HI HT Hw Hs Hp. destruct (wake_spec P s p HI Hp) as (tk & Htk & E & HI').
  eexists. split; [exact E|]. pose proof (Hs _ _ Htk) as Hge. split; [|split; [done|]].
  - split; [done|done| |by apply sems_wake|intros ?; apply woken_wake; eauto].
    destruct Hw as [Hw|(-> & k & Hk & Hn)]; [by apply waiting_wake|].
    exists k. eexists. cbn. rewrite lookup_insert_eq. split_and!; [done|done|cbn; lia|].
    right. split; [done|cbn; lia].
  - intros ->. apply woken_wake; eauto.
Qed.

(** Disarming a timer keeps the invariant. *)
Lemma sched_inv_disarm P s t' t k :
  sched_inv P s → abs (tms s) !! t = Some k → timer_inv t' → abs t' = <[t:=st_disarm k]> (abs (tms s)) →
  sched_inv P (with_tms t' s).
Proof.
  intros [Ht Hd Hf Ha] Hk HI Eabs. split; [done|done|..]; cbn [tms with_tms]; rewrite Eabs.
  - intros t1 k1. rewrite lookup_insert_Some. intros [[<- <-]|[_ ?]]; eauto. cbn. by apply (Hf t).
  - intros t1 k1 f d e. rewrite lookup_insert_Some. intros [[<- <-]|[_ ?]]; [done|eauto].
Qed.

Lemma fire_event_spec P T cur tm ex s t :
  sched_inv P s → dom (timers (tms s)) = T → t ∈ T → waiting cur tm ex s → sems_ok s → cur ∈ P →
  ∃ s', run_event (EvFire t) s = Done (tt, s') ∧ event_post P T cur tm ex s s' ∧
    jiffies s' = jiffies s ∧ (t = tm → woken cur s').
Proof.
  intros HI HT HtT Hw Hs HcP. pose proof HI as [Ht Hd Hf Ha].
  destruct (dom_lookup _ _ _ HT HtT) as [k Hk]. pose proof (abs_lookup _ _ _ Hk) as Hak.
  assert (Hskip : st_armed (abs_timer (kit (tms s)) k) = None →
    event_post P T cur tm ex s s ∧ jiffies s = jiffies s ∧ (t = tm → woken cur s)).
  { intros Hn. split; [by split|]. split; [done|]. intros ->.
    destruct Hw as (k1 & tk & Hk1 & Htk & _ & [?|[_ ?]]); [congruence|by exists tk]. }
  unfold run_event, fire_event, lift_tm, load_timer, timer_fire. run_simpl. rewrite Hk.
  destruct (tl_kit k) as [h|] eqn:Eh.
  2: { exists s. split; [by destruct s|]. apply Hskip. unfold abs_timer. by rewrite Eh. }
  cbn [tms with_tms]. destruct (armed (kit (tms s)) !! h) as [[[fn arg] e]|] eqn:Ea.
  2: { exists s. split; [by destruct s|]. apply Hskip. unfold abs_timer. rewrite Eh. done. }
  cbn [tms with_tms]. rewrite Ea. cbn beta iota.
  destruct (fire_spec (tms s) t k h fn arg e Ht Hk Eh Ea) as [HI' Eabs].
  assert (Harm : st_armed (abs_timer (kit (tms s)) k) = Some (fn, arg, e)).
  { unfold abs_timer. cbn. by rewrite Eh. }
  set (t' := with_fired _ _) in *. change (with_tms t' (with_tms (tms s) s)) with (with_tms t' s).
  pose proof (sched_inv_disarm P s t' t _ HI Hak HI' Eabs) as HI2.
  assert (HT' : dom (timers (tms (with_tms t' s))) = T).
  { cbn [tms with_tms]. rewrite <- abs_dom, Eabs, dom_insert_L, abs_dom, HT. set_solver. }
  assert (Hw' : t ≠ tm → waiting cur tm ex (with_tms t' s)).
  { intros Hne. destruct Hw as (k1 & tk & Hk1 & Hor). exists k1, tk. cbn [tms with_tms tasks].
    rewrite Eabs, lookup_insert_ne by done. done. }
  assert (Htm : t = tm → fn = process_timeout_fn ∧ arg = Z.pos cur).
  { intros ->. destruct Hw as (k1 & tk & Hk1 & _ & _ & [?|[? _]]); split; congruence. }
  destruct (Z.eqb_spec fn process_timeout_fn) as [Efn|Efn].
  - unfold process_timeout. run_simpl.
    destruct (wake_post P T cur tm ex (with_tms t' s) (Z.to_pos arg)) as (s' & E & Hpost & Hj & Hwk).
    { done. } { done. }
    { destruct (decide (t = tm)) as [->|Hne]; [right|left; by apply Hw'].
      destruct (Htm eq_refl) as [_ ->]. split; [done|]. eexists. cbn [tms with_tms].
      rewrite Eabs, lookup_insert_eq. done. }
    { done. } { by eapply Ha. }
    exists s'. rewrite E. split; [done|]. split; [|split; [by rewrite Hj|]].
    + by destruct Hpost.
    + intros Et. apply Hwk. destruct (Htm Et) as [_ ->]. done.
  - exists (with_tms t' s). split; [done|].
    assert (Hne : t ≠ tm) by (intros Et; by destruct (Htm Et)).
    split; [|split; [done|by intros ?]]. split; try done. by apply Hw'.
Qed.

Lemma event_spec P T cur tm ex s e :
  sched_inv P s → dom (timers (tms s)) = T → ev_ok P T tm e → waiting cur tm ex s → sems_ok s → cur ∈ P →
  ∃ s', run_event e s = Done (tt, s') ∧ event_post P T cur tm ex s s' ∧
    u32 (jiffies s') = u32 (jiffies s + tick e) ∧ (wakes cur tm e → woken cur s').
Proof.
  intros HI HT Hok Hw Hs HcP. destruct e as [|p|o|t].
  - eexists. split; [done|]. split_and!; [by split; destruct HI| |by intros [?|?]].
    apply u32_u32.
  - destruct (wake_post P T cur tm ex s p) as (s' & E & Hpost & Hj & Hwk); try done; [by left|].
    exists s'. split; [unfold run_event; run_simpl; by rewrite E|]. split; [done|].
    rewrite Hj, Z.add_0_r. split; [done|]. intros [Hx|?]; [|done]. apply Hwk. congruence.
  - destruct (timer_event_spec P T cur tm ex s o) as (s' & E & HI' & HT' & Hw' & Etk & Hj); try done.
    exists s'. split; [done|]. rewrite Hj, Z.add_0_r. split_and!; [|done|by intros [?|?]].
    split; try done; unfold sems_ok, woken; by rewrite Etk.
  - destruct (fire_event_spec P T cur tm ex s t) as (s' & E & Hpost & Hj & Hwk); try done.
    exists s'. split; [done|]. rewrite Hj, Z.add_0_r. split_and!; [done|done|].
    intros [?|Hx]; [done|]. apply Hwk. congruence.
Qed.

Lemma events_spec P T cur tm ex evs s :
  sched_inv P s → dom (timers (tms s)) = T → Forall (ev_ok P T tm) evs → waiting cur tm ex s →
  sems_ok s → cur ∈ P →
  ∃ s', run_events evs s = Done (tt, s') ∧ event_post P T cur tm ex s s' ∧
    u32 (jiffies s') = u32 (jiffies s + ticks evs) ∧ (Exists (wakes cur tm) evs → woken cur s').
Proof.
  intros HI HT Hok Hw Hs HcP. revert s HI HT Hw Hs. induction Hok as [|e evs Hoke Hok IH]; intros s HI HT Hw Hs.
  { exists s. split; [done|]. split; [by split|]. cbn. rewrite Z.add_0_r. split; [done|]. by intros ?%Exists_nil. }
  destruct (event_spec P T cur tm ex s e HI HT Hoke Hw Hs HcP) as (s1 & E1 & [? ? ? ? Hwk1] & Hj1 & Hx1).
  destruct (IH s1) as (s2 & E2 & [? ? ? ? Hwk2] & Hj2 & Hx2); try done.
  exists s2. unfold run_events in *. cbn [map seqM]. run_simpl. rewrite E1, E2.
  split; [done|]. split; [by split; auto|]. split.
  - rewrite Hj2. cbn [ticks foldr]. rewrite <- u32_add_u32, Hj1, u32_add_u32. f_equal.
    unfold ticks. lia.
  - intros [?|?]%Exists_cons; auto.
Qed.

(** The timer of [schedule_timeout] once it is armed. *)
Definition local_timer (cur : loc) (g : timer_list) (expire : Z) : timer_list :=
  TimerList expire process_timeout_fn (Z.pos cur) (tl_kit g).

Lemma timeout_armed P s cur tm g ex :
  sched_inv P s → timers (tms s) !! tm = None → cur ∈ P → sems_ok s →
  let s1 := with_tms (added tm (local_timer cur g ex) (tms s)) s in
  sched_inv P s1 ∧ dom (timers (tms s1)) = {[tm]} ∪ dom (timers (tms s)) ∧ waiting cur tm ex s1.
Proof.
  intros [Ht Hd Hf Ha] Htm Hc Hs s1.
  destruct (added_fresh (tms s) tm (local_timer cur g ex) Ht Htm) as [HI Eabs].
  assert (Hdom : dom (timers (tms s1)) = {[tm]} ∪ dom (timers (tms s))).
  { cbn [tms s1 with_tms]. rewrite <- abs_dom, Eabs, dom_insert_L, abs_dom. done. }
  split_and!; [|done|].
  - split; [done|done|..]; cbn [tms with_tms s1]; rewrite Eabs.
    + intros t1 k1. rewrite lookup_insert_Some. intros [[<- <-]|[_ ?]]; [by intros _|eauto].
    + intros t1 k1 f d e. rewrite lookup_insert_Some.
      intros [[<- <-]|[_ ?]] E; [|eauto]. cbn in E. simplify_eq. by intros _.
  - destruct (dom_lookup _ _ cur Hd Hc) as [tk Htk]. eexists _, tk. cbn [tms with_tms s1 tasks].
    rewrite Eabs, lookup_insert_eq. split_and!; [done|done|by eapply Hs|]. by left.
Qed.

(** The end of [schedule_timeout]: the local timer is deleted. *)
Lemma timeout_done P T s tm :
  sched_inv P s → dom (timers (tms s)) = {[tm]} ∪ T → tm ∉ T →
  ∃ r t', del_timer tm (tms s) = Done (r, t') ∧
    let s' := with_tms (with_timers (delete tm (timers t')) t') s in
    sched_inv P s' ∧ dom (timers (tms s')) = T.
Proof.
  intros [Ht Hd Hf Ha] HT HnT. destruct (dom_lookup _ _ tm HT ltac:(set_solver)) as [k Hk].
  destruct (del_timer_spec (tms s) tm k Ht Hk) as (t' & k' & E & HI & Eabs & _ & Hk' & Ek').
  exists (armedb (abs_timer (kit (tms s)) k)), t'. split; [done|].
  destruct (timer_inv_delete t' tm HI) as [HI2 Eabs2].
  { intros k2 Hk2. assert (k2 = k') as -> by congruence. by rewrite Ek'. }
  assert (Hsub : ∀ t1 k1, delete tm (abs t') !! t1 = Some k1 → abs (tms s) !! t1 = Some k1).
  { intros t1 k1 [Hne Hl]%lookup_delete_Some. by rewrite Eabs, lookup_insert_ne in Hl. }
  split; [split|].
  - done.
  - done.
  - cbn [tms with_tms]. rewrite Eabs2. intros t1 k1 ?%Hsub. eauto.
  - cbn [tms with_tms]. rewrite Eabs2. intros t1 k1 f d e ?%Hsub. eauto.
  - cbn [tms with_tms timers with_timers]. rewrite dom_delete_L, <- abs_dom, Eabs, dom_insert_L, abs_dom, HT.
    set_solver.
Qed.

Lemma schedule_spec P T cur tm ex evs s k :
  sched_inv P s → dom (timers (tms s)) = T → Forall (ev_ok P T tm) evs → waiting cur tm ex s →
  sems_ok s → cur ∈ P → tasks s !! cur = Some k →
  tk_state k = TASK_INTERRUPTIBLE ∨ tk_state k = TASK_UNINTERRUPTIBLE →
  Exists (wakes cur tm) evs ∨ 0 < tk_sleep_lock k →
  ∃ s', schedule cur evs s = Done (tt, s') ∧ sched_inv P s' ∧ dom (timers (tms s')) = T ∧
    u32 (jiffies s') = u32 (jiffies s + ticks evs).
Proof.
  intros HI HT Hok Hw Hs HcP Hk Hst Hwk. unfold schedule, sleep_lock_down, load_task, store_task.
  run_simpl. rewrite Hk.
  replace (tk_state k =? TASK_RUNNING) with false by (by destruct Hst as [-> | ->]).
  replace ((tk_state k =? TASK_INTERRUPTIBLE) || (tk_state k =? TASK_UNINTERRUPTIBLE))
    with true by (by destruct Hst as [-> | ->]).
  destruct (events_spec P T cur tm ex evs s) as (s1 & E1 & [HI1 HT1 Hw1 Hs1 Hkeep] & Hj & Hx); try done.
  assert (Hwo : woken cur s1).
  { destruct Hwk as [?|?]; [by apply Hx|]. apply Hkeep. by exists k. }
  destruct Hwo as (k1 & Hk1 & Hpos). rewrite E1, Hk1. apply Z.ltb_lt in Hpos. rewrite Hpos.
  eexists. split; [done|]. split_and!; try done.
  destruct HI1 as [? Hd1 ? ?]. split; try done. cbn. rewrite dom_insert_L, Hd1. set_solver.
Qed.

End Sched.

Lemma schedule_timeout_run {K : Type} `{KitTimer K} (pt : Z) (P : gset loc)
    (cur tm : loc) (evs : list event) (g : timer_list) (timeout : Z)
    (s : sched_state (K := K)) (k : task) :
  sched_inv pt P s → sems_ok s → cur ∈ P → timers (tms s) !! tm = None →
  tasks s !! cur = Some k →
  tk_state k = TASK_INTERRUPTIBLE ∨ tk_state k = TASK_UNINTERRUPTIBLE →
  Forall (ev_ok P ({[tm]} ∪ dom (timers (tms s))) tm) evs →
  Exists (wakes cur tm) evs ∨ 0 < tk_sleep_lock k →
  0 ≤ timeout < 2 ^ 31 → ticks evs < 2 ^ 31 →
  ∃ s', schedule_timeout pt cur evs tm g timeout s = Done (Z.max 0 (timeout - ticks evs), s') ∧
    sched_inv pt P s' ∧ dom (timers (tms s')) = dom (timers (tms s)).
Proof.
  intros HI Hs HcP Htm Hk Hst Hok Hwk Hto Htk.
  set (ex := u32 (timeout + jiffies s)).
  destruct (timeout_armed pt P s cur tm g ex HI Htm HcP Hs) as (HI1 & HT1 & Hw1).
  set (s1 := with_tms (added tm (local_timer pt cur g ex) (tms s)) s) in *.
  destruct (schedule_spec pt P _ cur tm ex evs s1 k HI1 HT1 Hok Hw1) as (s2 & E2 & HI2 & HT2 & Hj2); try done.
  destruct (timeout_done pt P (dom (timers (tms s))) s2 tm) as (r & t3 & E3 & HI3 & HT3);
    [done|done|by apply not_elem_of_dom|].
  eexists. split; [|split; [exact HI3|exact HT3]].
  unfold schedule_timeout, lift_tm, setup_timer, init_timer, add_timer, CHECK_INITVAR_timer, load_timer,
    store_timer. run_simpl. cbn [tms with_tms timers with_timers jiffies].
  repeat (rewrite lookup_insert_eq; cbn [tms with_tms timers with_timers]).
  cbn [timer_initialized with_timers]. rewrite (ti_init _ (si_timers _ _ _ HI)). fold ex.
  cbn [timers with_timers]. rewrite lookup_insert_eq. cbn [timers with_timers with_kit].
  rewrite !insert_insert_eq.
  match goal with |- context [schedule pt cur evs ?x] => change x with s1 end.
  rewrite E2, E3. cbn [jiffies with_tms]. do 2 f_equal.
  assert (Ej : s32 (ex - jiffies s2) = timeout - ticks evs).
  { unfold ex. rewrite (s32_sub_congr _ _ _ Hj2). change (jiffies s1) with (jiffies s).
    replace (timeout + jiffies s - (jiffies s + ticks evs)) with (timeout - ticks evs) by lia.
    apply s32_small.
    assert (0 ≤ ticks evs); [|lia]. clear. unfold ticks. induction evs as [|[] ?]; cbn; lia. }
  rewrite Ej. destruct (Z.ltb_spec (timeout - ticks evs) 0); lia.
Qed.

(** ** Properties *)

(** C7: [schedule_timeout] returns whenever somebody wakes the task or its timer
    expires (or a wake-up is still stored in the sleep lock), whatever other
    threads do with their timers meanwhile.  It returns the jiffies left, 0 if
    none are, also when the jiffies counter wraps; its timer is disarmed and
    gone, and all other timers are still consistent with the kit. *)
Theorem schedule_timeout_returns {K : Type} `{KitTimer K} (pt : Z) (P : gset loc)
    (cur tm : loc) (evs : list event) (g : timer_list) (timeout : Z)
    (s : sched_state (K := K)) (k : task) :
  sched_inv pt P s → sems_ok s → cur ∈ P → timers (tms s) !! tm = None →
  tasks s !! cur = Some k →
  tk_state k = TASK_INTERRUPTIBLE ∨ tk_state k = TASK_UNINTERRUPTIBLE →
  Forall (ev_ok P ({[tm]} ∪ dom (timers (tms s))) tm) evs →
  Exists (wakes cur tm) evs ∨ 0 < tk_sleep_lock k →
  0 ≤ timeout < 2 ^ 31 → ticks evs < 2 ^ 31 →
  ∃ s', schedule_timeout pt cur evs tm g timeout s = Done (Z.max 0 (timeout - ticks evs), s') ∧
    sched_inv pt P s' ∧ dom (timers (tms s')) = dom (timers (tms s)).
Proof. apply schedule_timeout_run. Qed.

(** A task waiting for 5 jiffies while the clock ticks twice and its timer
    fires, with the jiffies counter about to wrap. *)
Definition demo_sleep : sched_state (K := ktimers) :=
  SchedState {[ 5%positive := Task TASK_UNINTERRUPTIBLE 0 ]} demo_timers (2 ^ 32 - 1).

Lemma demo_sleep_inv : sched_inv 77 {[5%positive]} demo_sleep.
Proof.
  assert (Hk : ∀ t k, abs (tms demo_sleep) !! t = Some k → st_function k ≠ 77 ∧ st_armed k = None).
  { intros t k. unfold abs. cbn. rewrite lookup_fmap_Some. intros (k' & <- & Hk').
    apply lookup_insert_Some in Hk' as [[_ <-]|[_ Hk']]; [done|].
    apply lookup_singleton_Some in Hk' as [_ <-]. done. }
  split; [apply demo_timers_inv|vm_compute; reflexivity|..].
  - intros t k [Hn _]%Hk ?. done.
  - intros t k f d e [_ Hn]%Hk ?. congruence.
Qed.

Lemma demo_sleep_sems : sems_ok demo_sleep.
Proof. intros p tk. cbn. rewrite lookup_singleton_Some. by intros [_ <-]. Qed.

Lemma schedule_timeout_returns_witness :
  ∃ s', schedule_timeout 77 5%positive [EvTick; EvTick; EvFire 9%positive] 9%positive
      (TimerList 0 0 0 (Some 3%positive)) 5 demo_sleep = Done (Z.max 0 (5 - 2), s') ∧
    sched_inv 77 {[5%positive]} s' ∧ dom (timers (tms s')) = dom (timers (tms demo_sleep)).
Proof.
  apply (schedule_timeout_returns 77 {[5%positive]} 5%positive 9%positive
    [EvTick; EvTick; EvFire 9%positive] (TimerList 0 0 0 (Some 3%positive)) 5 demo_sleep
    (Task TASK_UNINTERRUPTIBLE 0)).
  - apply demo_sleep_inv.
  - apply demo_sleep_sems.
  - set_solver.
  - done.
  - done.
  - by right.
  - repeat constructor.
  - left. do 2 apply Exists_cons_tl. apply Exists_cons_hd. by right.
  - done.
  - done.
Defined.

(** A wake-up of a task that is not sleeping is not dropped but stored in
    its sleep lock.  The next [schedule_timeout_uninterruptible] returns at once
    with the whole timeout left, although time does not pass and nobody wakes
    the task any more. *)
Theorem stale_wakeup_ends_sleep {K : Type} `{KitTimer K} (pt : Z) (P : gset loc) (cur tm : loc)
    (g : timer_list) (timeout : Z) (s : sched_state (K := K)) :
  sched_inv pt P s → sems_ok s → cur ∈ P → timers (tms s) !! tm = None → 0 ≤ timeout < 2 ^ 31 →
  ∃ s', (wake_up_process cur ;; schedule_timeout_uninterruptible pt cur [] tm g timeout) s =
    Done (timeout, s').
Proof.
  intros HI Hs HcP Htm Hto. destruct (wake_spec pt P s cur HI HcP) as (k & Hk & E & HI1).
  set (s1 := with_tasks _ s) in *. pose proof (Hs _ _ Hk) as Hge.
  set (s2 := with_tasks (<[cur:=Task TASK_UNINTERRUPTIBLE (tk_sleep_lock k + 1)]> (tasks s1)) s1).
  assert (HI2 : sched_inv pt P s2).
  { destruct HI1 as [? Hd ? ?]. split; try done. cbn [tasks s2 with_tasks]. rewrite dom_insert_L, Hd.
    set_solver. }
  assert (Hs2 : sems_ok s2).
  { intros p tk. cbn. rewrite insert_insert_eq, lookup_insert_Some. intros [[_ <-]|[_ ?]]; [cbn; lia|eauto]. }
  assert (Hk2 : tasks s2 !! cur = Some (Task TASK_UNINTERRUPTIBLE (tk_sleep_lock k + 1)))
    by (cbn; by rewrite lookup_insert_eq).
  set (ex := u32 (timeout + jiffies s2)).
  destruct (schedule_timeout_run pt P cur tm [] g timeout s2 _ HI2 Hs2 HcP Htm Hk2) as (s' & E2 & _);
    try done.
  { by right. } { right. cbn. lia. }
  exists s'. unfold schedule_timeout_uninterruptible, set_task_state, load_task, store_task. run_simpl.
  rewrite E. cbn [tasks with_tasks s1]. rewrite lookup_insert_eq. fold s1. cbn [tk_sleep_lock].
  fold s2. rewrite E2. do 2 f_equal. cbn. lia.
Qed.

Lemma stale_wakeup_ends_sleep_witness :
  ∃ s', (wake_up_process 5%positive ;;
      schedule_timeout_uninterruptible 77 5%positive [] 9%positive (TimerList 0 0 0 None) 1000) demo_sleep =
    Done (1000, s').
Proof.
  apply (stale_wakeup_ends_sleep 77 {[5%positive]} 5%positive 9%positive (TimerList 0 0 0 None) 1000 demo_sleep).
  - apply demo_sleep_inv.
  - apply demo_sleep_sems.
  - set_solver.
  - done.
  - done.
Defined.

(** ** Sleeper and wakers, interleaved

    The sleeper runs the usual loop: set the task state, test the condition,
    call [schedule].  A waker makes the condition true and calls
    [try_to_wake_up].  One step is one access to the shared words. *)

Inductive spc :=
| SSetState      (* set_current_state(TASK_INTERRUPTIBLE) *)
| STest          (* if (condition) break; *)
| SSwitch        (* schedule: switch (current->state) *)
| SYield         (* schedule: dde_kit_thread_schedule() *)
| SDown          (* schedule: dde_kit_sem_down(SLEEP_LOCK(t)) *)
| SDone.

Inductive wpc :=
| WState         (* try_to_wake_up: p->state = TASK_RUNNING *)
| WUp.           (* try_to_wake_up: dde_kit_sem_up(SLEEP_LOCK(t)) *)

Record wsys := WSys {
  ws_task : task;
  ws_cond : bool;
  ws_sleeper : spc;
  ws_wakers : list wpc;
}.

Inductive wait_step : wsys → wsys → Prop :=
| WsSetState k c ws :
    wait_step (WSys k c SSetState ws) (WSys (Task TASK_INTERRUPTIBLE (tk_sleep_lock k)) c STest ws)
| WsTest k c ws :
    wait_step (WSys k c STest ws) (WSys k c (if c then SDone else SSwitch) ws)
| WsSwitch k c ws :
    wait_step (WSys k c SSwitch ws)
      (WSys k c (if tk_state k =? TASK_RUNNING then SYield else SDown) ws)
| WsYield k c ws :
    wait_step (WSys k c SYield ws) (WSys k c SSetState ws)
| WsDown k c ws :
    0 < tk_sleep_lock k →
    wait_step (WSys k c SDown ws) (WSys (Task (tk_state k) (tk_sleep_lock k - 1)) c SSetState ws)
| WsCond k c sl ws :
    wait_step (WSys k c sl ws) (WSys k true sl (WState :: ws))
| WsWState k c sl ws1 ws2 :
    wait_step (WSys k c sl (ws1 ++ WState :: ws2))
      (WSys (Task TASK_RUNNING (tk_sleep_lock k)) c sl (WUp :: ws1 ++ ws2))
| WsWUp k c sl ws1 ws2 :
    wait_step (WSys k c sl (ws1 ++ WUp :: ws2))
      (WSys (Task (tk_state k) (tk_sleep_lock k + 1)) c sl (ws1 ++ ws2)).

Definition wait_init : wsys := WSys (Task TASK_RUNNING 0) false SSetState [].

(** If the sleeper found the condition false and it is true now, a wake-up is
    stored in the sleep lock or on its way. *)
Definition wait_inv (σ : wsys) : Prop :=
  0 ≤ tk_sleep_lock (ws_task σ) ∧
  (ws_sleeper σ = SSwitch ∨ ws_sleeper σ = SDown → ws_cond σ = true →
   0 < tk_sleep_lock (ws_task σ) ∨ ws_wakers σ ≠ []).

Lemma wait_inv_step σ σ' : wait_inv σ → wait_step σ σ' → wait_inv σ'.
Proof.
  intros [Hge Hw] Hst. destruct Hst; unfold wait_inv in *; cbn [ws_task ws_cond ws_sleeper ws_wakers
    tk_sleep_lock] in *; (split; [lia|]); intros Hpc Hc.
  - by destruct Hpc.
  - subst c. by destruct Hpc.
  - destruct (_ =? _); [by destruct Hpc|]. apply Hw; auto.
  - by destruct Hpc.
  - by destruct Hpc.
  - by right.
  - by right.
  - left. lia.
Qed.

(** No wake-up is lost between testing the condition and sleeping.  In every
    interleaving of a sleeper with wakers, a sleeper that is blocked on its
    sleep lock while no waker is under way has its condition false. *)
Theorem no_lost_wakeup_sleep (σ : wsys) :
  rtc wait_step wait_init σ →
  ws_sleeper σ = SDown → tk_sleep_lock (ws_task σ) = 0 → ws_wakers σ = [] → ws_cond σ = false.
Proof.
  intros Hr Hpc Hl Hws.
  assert (HI : wait_inv σ).
  { assert (H0 : wait_inv wait_init) by (split; [done|by intros [?|?]]).
    clear Hpc Hl Hws. revert H0. induction Hr; eauto using wait_inv_step. }
  destruct HI as [_ Hw]. destruct (ws_cond σ); [|done].
  destruct (Hw ltac:(auto) eq_refl) as [?|?]; [lia|done].
Qed.

Lemma no_lost_wakeup_sleep_witness :
  ws_cond (WSys (Task TASK_INTERRUPTIBLE 0) false SDown []) = false.
Proof.
  apply (no_lost_wakeup_sleep (WSys (Task TASK_INTERRUPTIBLE 0) false SDown [])); try reflexivity.
  eapply rtc_l; [apply WsSetState|]. eapply rtc_l; [apply WsTest|].
  eapply rtc_l; [apply WsSwitch|]. apply rtc_refl.
Defined.
