(* ===== verification/Process.v ===== *)
(** Processes (src/src/lib/dde_linux26/arch/dde_kit/process.c).

    Every DDE thread that calls Linux code has thread data with a task struct;
    a doubly linked list maps PIDs to task structs.  The list is the circular
    list of list.h (DList.v) threaded through heap objects; allocation goes
    through the interface [KitMemory]. *)

From S2P Require Import Prelude Kit DList.

Record pid2task := Pid2Task { pt_pid : Z; pt_ts : loc }.

(** [dde_linux26_thread_data]: the embedded [thread_info] is named by the
    address of the thread data, of which it is the first member. *)
Record thread_data := ThreadData {
  td_kit_thread : option Z;     (* _dde_kit_thread *)
  td_task : option loc;         (* LX_TASK: thread_info.task *)
  td_preempt_count : Z;         (* thread_info.preempt_count *)
  td_sleep_lock : Z;            (* value of the semaphore *)
}.

(** [task_struct]: the back reference, and the fields copied from [init_task]. *)
Record task_struct := TaskStruct { ts_thread_info : loc; ts_copied : Z }.

(** [struct __kthread_data]; the name is ".kthread" and this number. *)
Record kthread_data := KthreadData { kd_fn : Z; kd_arg : Z; kd_name : Z }.

Section Process.
Context {A : Type} `{KitMemory A}.

(** [_pid_task_list], and the static data copied into new threads. *)
Context (pid_list : loc) (init_preempt_count init_task_fields : Z).

Record proc_state := ProcState {
  plinks : links;
  pids : gmap loc pid2task;
  tdata : gmap loc thread_data;
  tstructs : gmap loc task_struct;
  my_data : gmap Z loc;          (* dde_kit_thread_{get,set}_data, by thread *)
  pmem : A;
  kthreads : gmap loc kthread_data;
  kthread_count : Z;
}.

Abbreviation PM := (M proc_state).

Definition with_plinks (x : links) (s : proc_state) : proc_state :=
  ProcState x (pids s) (tdata s) (tstructs s) (my_data s) (pmem s) (kthreads s) (kthread_count s).
Definition with_pids (x : gmap loc pid2task) (s : proc_state) : proc_state :=
  ProcState (plinks s) x (tdata s) (tstructs s) (my_data s) (pmem s) (kthreads s) (kthread_count s).
Definition with_tdata (x : gmap loc thread_data) (s : proc_state) : proc_state :=
  ProcState (plinks s) (pids s) x (tstructs s) (my_data s) (pmem s) (kthreads s) (kthread_count s).
Definition with_tstructs (x : gmap loc task_struct) (s : proc_state) : proc_state :=
  ProcState (plinks s) (pids s) (tdata s) x (my_data s) (pmem s) (kthreads s) (kthread_count s).
Definition with_my_data (x : gmap Z loc) (s : proc_state) : proc_state :=
  ProcState (plinks s) (pids s) (tdata s) (tstructs s) x (pmem s) (kthreads s) (kthread_count s).
Definition with_pmem (x : A) (s : proc_state) : proc_state :=
  ProcState (plinks s) (pids s) (tdata s) (tstructs s) (my_data s) x (kthreads s) (kthread_count s).
Definition with_kthreads (x : gmap loc kthread_data) (n : Z) (s : proc_state) : proc_state :=
  ProcState (plinks s) (pids s) (tdata s) (tstructs s) (my_data s) (pmem s) x n.

Definition lift_links {X} (m : M links X) : PM X := λ s,
  match m (plinks s) with Done (x, l) => Done (x, with_plinks l s) | Fault e => Fault e end.

(** [kmalloc] and [vmalloc]; NULL is [None]. *)
Definition alloc : PM (option loc) := λ s,
  match kit_malloc (pmem s) with
  | Some (l, m) => Done (Some l, with_pmem m s)
  | None => Done (None, s)
  end.

Definition load_pid (l : loc) : PM pid2task := λ s,
  match pids s !! l with Some k => Done (k, s) | None => Fault FFreed end.
Definition load_td (l : loc) : PM thread_data := λ s,
  match tdata s !! l with Some k => Done (k, s) | None => Fault FFreed end.
Definition store_td (l : loc) (k : thread_data) : PM unit :=
  modify (λ s, with_tdata (<[l:=k]> (tdata s)) s).

(** ** PIDs *)

(** The result of [kmalloc] is used without a check. *)
Definition attach_pid (task : loc) (nr : Z) : PM Z :=
  p ← alloc;
  match p with
  | None => fail FNull
  | Some pt =>
      modify (λ s, with_pids (<[pt:=Pid2Task nr task]> (pids s)) s) ;;
      lift_links (list_add pt pid_list) ;;
      mret 0
  end.

Definition free_pid (l : loc) : PM unit :=
  modify (λ s, with_pmem (kit_free l (pmem s)) (with_pids (delete l (pids s)) s)).

(** [list_for_each_safe(p, n, h)] with the body of [detach_pid]. *)
Fixpoint detach_loop (fuel : nat) (p n : loc) (task : loc) : PM unit :=
  if bool_decide (p = pid_list) then mret tt else
  match fuel with
  | O => fail FFuel
  | S fuel =>
      pt ← load_pid p;
      if bool_decide (pt_ts pt = task) then lift_links (list_del p) ;; free_pid p
      else n' ← lift_links (get_nx n); detach_loop fuel n n' task
  end.

Definition detach_pid (task : loc) : PM unit :=
  fuel ← gets (λ s, size (pids s));
  p ← lift_links (get_nx pid_list);
  n ← lift_links (get_nx p);
  detach_loop fuel p n task.

(** [list_for_each(p, h)] with the body of [find_task_by_pid_type]. *)
Fixpoint find_loop (fuel : nat) (p : loc) (nr : Z) : PM (option loc) :=
  if bool_decide (p = pid_list) then mret None else
  match fuel with
  | O => fail FFuel
  | S fuel =>
      pt ← load_pid p;
      if pt_pid pt =? nr then mret (Some (pt_ts pt))
      else p' ← lift_links (get_nx p); find_loop fuel p' nr
  end.

Definition find_task_by_pid_type (type nr : Z) : PM (option loc) :=
  fuel ← gets (λ s, size (pids s));
  p ← lift_links (get_nx pid_list);
  find_loop fuel p nr.

(** ** Threads *)

(** [current_thread_info] and [get_current] of kit thread [self]. *)
Definition current_thread_info (self : Z) : PM loc := λ s,
  match my_data s !! self with Some td => Done (td, s) | None => Fault FNull end.

Definition get_current (self : Z) : PM (option loc) :=
  td ← current_thread_info self; k ← load_td td; mret (td_task k).

(** [lxtask_to_ddethread] *)
Definition lxtask_to_ddethread (ts : loc) : PM loc := λ s,
  match tstructs s !! ts with Some k => Done (ts_thread_info k, s) | None => Fault FFreed end.

Definition init_dde_linux26_thread : PM loc :=
  p ← alloc;
  match p with
  | None => fail FAssert
  | Some t =>
      store_td t (ThreadData None None init_preempt_count 0) ;;
      q ← alloc;
      match q with
      | None => fail FAssert
      | Some ts =>
          store_td t (ThreadData None (Some ts) init_preempt_count 0) ;;
          modify (λ s, with_tstructs (<[ts:=TaskStruct t init_task_fields]> (tstructs s)) s) ;;
          mret t
      end
  end.

Definition set_kit_thread (t : loc) (h : option Z) : PM unit :=
  k ← load_td t;
  store_td t (ThreadData h (td_task k) (td_preempt_count k) (td_sleep_lock k)).

Definition set_my_data (self : Z) (t : loc) : PM unit :=
  modify (λ s, with_my_data (<[self:=t]> (my_data s)) s).

(** [LX_TASK(cur)] as an argument. *)
Definition lx_task (t : loc) : PM loc :=
  k ← load_td t; match td_task k with Some ts => mret ts | None => fail FNull end.

(** [myself] and [adopted] are what [dde_kit_thread_myself] and
    [dde_kit_thread_adopt_myself] return; [get_id] is [dde_kit_thread_get_id]. *)
Definition dde_linux26_process_add_worker (get_id : Z → Z) (myself adopted : option Z) : PM unit :=
  cur ← init_dde_linux26_thread;
  set_kit_thread cur myself ;;
  self ← match myself with
         | Some h => mret h
         | None =>
             set_kit_thread cur adopted ;;
             match adopted with Some h => mret h | None => fail FPanic end
         end;
  set_my_data self cur ;;
  ts ← lx_task cur;
  attach_pid ts (get_id self) ;;
  ti ← current_thread_info self;
  k ← load_td ti;
  store_td ti (ThreadData (td_kit_thread k) (td_task k) 0 (td_sleep_lock k)).

Definition dde_linux26_process_from_dde_kit (get_id : Z → Z) (t : Z) : PM Z :=
  cur ← init_dde_linux26_thread;
  set_kit_thread cur (Some t) ;;
  set_my_data t cur ;;
  ts ← lx_task cur;
  attach_pid ts (get_id t) ;;
  mret 0.

(** [do_exit] up to [dde_kit_thread_exit], which does not return. *)
Definition do_exit (self code : Z) : PM unit :=
  cur ← get_current self;
  match cur with
  | None => fail FNull
  | Some ts => lxtask_to_ddethread ts ;; detach_pid ts
  end.

(** [kernel_thread]: the result is the id of the new thread, which starts in
    [__kthread_helper] with the address of its data; [create] is what
    [dde_kit_thread_create] returns. *)
Definition kernel_thread (get_id : Z → Z) (create : option Z) (fn arg : Z) : PM (Z * loc) :=
  p ← alloc;
  n ← gets (λ s, s32 (kthread_count s + 1));
  modify (λ s, with_kthreads (kthreads s) n s) ;;
  match p with
  | None => fail FNull
  | Some kt =>
      modify (λ s, with_kthreads (<[kt:=KthreadData fn arg n]> (kthreads s)) (kthread_count s) s) ;;
      match create with
      | None => fail FAssert
      | Some t => mret (get_id t, kt)
      end
  end.

(** [__kthread_helper] of thread [self]; [run] is the thread function. *)
Definition __kthread_helper (get_id : Z → Z) (run : Z → Z → PM Z) (self : Z) (kt : loc) : PM unit :=
  s ← get;
  match kthreads s !! kt with
  | None => fail FFreed
  | Some k =>
      modify (λ s, with_pmem (kit_free kt (pmem s))
        (with_kthreads (delete kt (kthreads s)) (kthread_count s) s)) ;;
      dde_linux26_process_add_worker get_id (Some self) None ;;
      code ← run (kd_fn k) (kd_arg k);
      do_exit self code
  end.

Definition dde_linux26_process_init : PM Z := mret 0.

(** ** Specification: a list of PIDs and tasks *)

Definition spec_find (nr : Z) (T : list (Z * loc)) : option loc :=
  snd <$> find (λ e, e.1 =? nr) T.

Fixpoint spec_detach (task : loc) (T : list (Z * loc)) : list (Z * loc) :=
  match T with
  | [] => []
  | e :: T => if bool_decide (e.2 = task) then T else e :: spec_detach task T
  end.

Record pid_rep (L : list loc) (s : proc_state) (T : list (Z * loc)) : Prop := {
  pr_list : dlist (plinks s) pid_list L;
  pr_data : Forall2 (λ l e, pids s !! l = Some (Pid2Task e.1 e.2)) L T;
  pr_live : dom (pids s) ⊆ live (pmem s);
  pr_head : pid_list ∈ live (pmem s);   (* static objects are live *)
}.

(** ** Lemmas *)

Definition next_of (L : list loc) : loc := match L with [] => pid_list | x :: _ => x end.

Lemma next_of_spec s L1 x L2 T :
  pid_rep (L1 ++ x :: L2) s T → lift_links (get_nx x) s = Done (next_of L2, s).
Proof.
  intros [Hl _ _ _]. unfold lift_links, get_nx. rewrite (dlist_next _ _ _ _ _ Hl).
  by destruct s, L2.
Qed.

Lemma first_spec s L T : pid_rep L s T → lift_links (get_nx pid_list) s = Done (next_of L, s).
Proof.
  intros [Hl _ _ _]. unfold lift_links, get_nx. rewrite (dlist_first _ _ _ Hl). by destruct s, L.
Qed.

Lemma rep_not_head s L T x : pid_rep L s T → x ∈ L → x ≠ pid_list.
Proof. intros [[_ Hnd] _ _ _] Hx ->. apply NoDup_head in Hnd as [? _]. done. Qed.

Lemma rep_length s L T : pid_rep L s T → (length L ≤ size (pids s))%nat.
Proof.
  intros [[_ Hnd] HD _ _]. apply NoDup_head in Hnd as [_ Hnd].
  rewrite <- (size_list_to_set (C := gset loc)) by done. rewrite <- size_dom. apply subseteq_size.
  intros x Hx%elem_of_list_to_set. apply elem_of_dom.
  apply list_elem_of_lookup in Hx as [i Hi].
  destruct (list.Forall2_lookup_l _ _ _ _ _ HD Hi) as (e & _ & He). eauto.
Qed.

Lemma find_loop_spec s fuel nr L1 L2 T1 T2 :
  pid_rep (L1 ++ L2) s (T1 ++ T2) → length L1 = length T1 → (length L2 ≤ fuel)%nat →
  find_loop fuel (next_of L2) nr s = Done (spec_find nr T2, s).
Proof.
  revert fuel L1 T1 T2. induction L2 as [|x L2 IH]; intros fuel L1 T1 T2 HR Hlen Hf.
  - pose proof (list.Forall2_length _ _ _ (pr_data _ _ _ HR)) as Hl. rewrite !length_app in Hl.
    destruct T2; [|cbn in Hl; lia]. destruct fuel; cbn [find_loop next_of];
      rewrite bool_decide_true by done; done.
  - destruct fuel as [|fuel]; [cbn in Hf; lia|]. cbn [find_loop next_of].
    pose proof (rep_not_head _ _ _ x HR ltac:(set_solver)) as Hne.
    rewrite bool_decide_false by done.
    pose proof (pr_data _ _ _ HR) as HD. apply list.Forall2_app_inv in HD as [HD1 HD2]; [|done].
    inversion HD2 as [|? e ? T2' Hx HD2']; subst. unfold load_pid. run_simpl. rewrite Hx.
    cbn [pt_pid pt_ts]. unfold spec_find. cbn [find]. destruct (e.1 =? nr); [done|].
    rewrite (next_of_spec _ _ _ _ _ HR). apply (IH fuel (L1 ++ [x]) (T1 ++ [e])).
    + by rewrite <- !app_assoc.
    + rewrite !length_app, Hlen. done.
    + cbn in Hf. lia.
Qed.

Lemma spec_detach_app task T1 T2 :
  Forall (λ e, e.2 ≠ task) T1 → spec_detach task (T1 ++ T2) = T1 ++ spec_detach task T2.
Proof. induction 1 as [|e T1 He _ IH]; cbn; [done|]. rewrite bool_decide_false by done. by rewrite IH. Qed.

(** Removing the object [x] from the list and freeing it. *)
Lemma pid_remove_spec s L1 x L2 T1 e T2 :
  pid_rep (L1 ++ x :: L2) s (T1 ++ e :: T2) → length L1 = length T1 →
  ∃ s', (lift_links (list_del x) ;; free_pid x) s = Done (tt, s') ∧ pid_rep (L1 ++ L2) s' (T1 ++ T2) ∧
    tdata s' = tdata s ∧ tstructs s' = tstructs s ∧ my_data s' = my_data s.
Proof.
  intros [Hl HD Hlive Hhd] Hlen. destruct (list_del_spec _ _ _ _ _ Hl) as (ls & E & Hl' & _).
  unfold lift_links, free_pid. run_simpl. rewrite E. eexists. split; [done|]. split; [|done].
  destruct Hl as [_ Hnd]. apply NoDup_head in Hnd as [Hhn Hnd].
  apply list.Forall2_app_inv in HD as [HD1 HD2]; [|done]. inversion HD2 as [|? ? ? ? Hx HD2']; subst.
  assert (Hnd2 : NoDup (x :: L1 ++ L2)) by (by rewrite Permutation_middle).
  apply NoDup_head in Hnd2 as [Hxn _].
  assert (Hk : ∀ L T, x ∉ L → Forall2 (λ l e, pids s !! l = Some (Pid2Task e.1 e.2)) L T →
    Forall2 (λ l e, delete x (pids s) !! l = Some (Pid2Task e.1 e.2)) L T).
  { intros L T Hni HF. apply list.Forall2_lookup. intros i.
    rewrite list.Forall2_lookup in HF. specialize (HF i).
    destruct (L !! i) as [y|] eqn:Ey; inversion HF; constructor.
    rewrite lookup_delete_ne; [done|]. intros ->. apply Hni. by eapply list_elem_of_lookup_2. }
  split; cbn.
  - done.
  - apply List.Forall2_app; apply Hk; set_solver.
  - rewrite kit_free_live, dom_delete. set_solver.
  - rewrite kit_free_live. apply elem_of_difference. split; [done|]. set_solver.
Qed.

Lemma detach_loop_spec s fuel task n L1 L2 T1 T2 :
  pid_rep (L1 ++ L2) s (T1 ++ T2) → length L1 = length T1 → (length L2 ≤ fuel)%nat →
  Forall (λ e, e.2 ≠ task) T1 → (L2 ≠ [] → n = next_of (tail L2)) →
  ∃ s' L', detach_loop fuel (next_of L2) n task s = Done (tt, s') ∧
    pid_rep L' s' (spec_detach task (T1 ++ T2)) ∧
    tdata s' = tdata s ∧ tstructs s' = tstructs s ∧ my_data s' = my_data s.
Proof.
  revert fuel n L1 T1 T2. induction L2 as [|x L2 IH]; intros fuel n L1 T1 T2 HR Hlen Hf Hno Hn.
  - pose proof (list.Forall2_length _ _ _ (pr_data _ _ _ HR)) as Hl. rewrite !length_app in Hl.
    destruct T2; [|cbn in Hl; lia]. exists s, (L1 ++ []). split.
    { destruct fuel; cbn [detach_loop next_of]; by rewrite bool_decide_true by done. }
    split; [|done]. rewrite spec_detach_app by done. done.
  - destruct fuel as [|fuel]; [cbn in Hf; lia|]. cbn [detach_loop next_of tail].
    pose proof (rep_not_head _ _ _ x HR ltac:(set_solver)) as Hne.
    rewrite bool_decide_false by done.
    pose proof (pr_data _ _ _ HR) as HD. apply list.Forall2_app_inv in HD as [HD1 HD2]; [|done].
    inversion HD2 as [|? e ? T2' Hx HD2']; subst. unfold load_pid. unfold mbind at 1, M_bind at 1.
    rewrite Hx. cbn [pt_pid pt_ts]. case_bool_decide as Ets.
    + destruct (pid_remove_spec s L1 x L2 T1 e T2' HR Hlen) as (s' & E & HR' & Ht).
      exists s', (L1 ++ L2). split; [exact E|]. split; [|done].
      rewrite spec_detach_app by done. cbn. by rewrite bool_decide_true.
    + assert (∃ n', lift_links (get_nx n) s = Done (n', s) ∧ (L2 ≠ [] → n' = next_of (tail L2)))
        as (n' & En & Hn').
      { rewrite (Hn ltac:(done)). cbn [tail]. destruct L2 as [|y L2].
        - cbn [next_of]. rewrite (first_spec _ _ _ HR). by eexists.
        - replace (L1 ++ x :: y :: L2) with ((L1 ++ [x]) ++ y :: L2) in HR by (by rewrite <- app_assoc).
          cbn [next_of]. rewrite (next_of_spec _ _ _ _ _ HR). by eexists. }
      unfold mbind, M_bind. rewrite En, (Hn ltac:(done)). cbn [tail].
      destruct (IH fuel n' (L1 ++ [x]) (T1 ++ [e]) T2') as (s' & L' & E & HR' & Ht).
      * by rewrite <- !app_assoc.
      * rewrite !length_app, Hlen. done.
      * cbn in Hf. lia.
      * apply list.Forall_app. split; [done|]. by constructor.
      * done.
      * exists s', L'. rewrite <- app_assoc in HR'. done.
Qed.

Lemma attach_pid_spec s L T task nr :
  pid_rep L s T →
  match kit_malloc (pmem s) with
  | None => attach_pid task nr s = Fault FNull
  | Some (l, m) =>
      ∃ s', attach_pid task nr s = Done (0, s') ∧ pid_rep (l :: L) s' ((nr, task) :: T) ∧
        tdata s' = tdata s ∧ tstructs s' = tstructs s ∧ my_data s' = my_data s
  end.
Proof.
  intros [Hl HD Hlive Hhd]. unfold attach_pid, alloc, lift_links. run_simpl.
  destruct (kit_malloc (pmem s)) as [[l m]|] eqn:Hm; [|done].
  destruct (kit_malloc_fresh _ _ _ Hm) as [Hfr Hlm].
  assert (HlL : l ∉ L).
  { intros [i Hi]%list_elem_of_lookup.
    destruct (list.Forall2_lookup_l _ _ _ _ _ HD Hi) as (e & _ & He).
    apply Hfr, Hlive, elem_of_dom. eauto. }
  destruct (list_add_spec _ _ _ l Hl) as (ls & E & Hl' & _); [set_solver|].
  cbn [plinks with_pids with_pmem]. rewrite E. eexists. split; [done|]. split; [|done]. split; cbn.
  - done.
  - constructor; [by rewrite lookup_insert_eq|].
    apply list.Forall2_lookup. intros i. rewrite list.Forall2_lookup in HD. specialize (HD i).
    destruct (L !! i) as [y|] eqn:Ey; inversion HD; constructor.
    rewrite lookup_insert_ne; [done|]. intros ->. apply HlL. by eapply list_elem_of_lookup_2.
  - rewrite Hlm, dom_insert. set_solver.
  - rewrite Hlm. set_solver.
Qed.

Lemma detach_pid_spec s L T task :
  pid_rep L s T →
  ∃ s' L', detach_pid task s = Done (tt, s') ∧ pid_rep L' s' (spec_detach task T) ∧
    tdata s' = tdata s ∧ tstructs s' = tstructs s ∧ my_data s' = my_data s.
Proof.
  intros HR. unfold detach_pid. run_simpl. rewrite (first_spec _ _ _ HR).
  pose proof (rep_length _ _ _ HR) as Hlen.
  assert (∃ n, lift_links (get_nx (next_of L)) s = Done (n, s) ∧ (L ≠ [] → n = next_of (tail L)))
    as (n & En & Hn).
  { destruct L as [|x L].
    - cbn [next_of]. rewrite (first_spec _ _ _ HR). by eexists.
    - cbn [next_of]. rewrite (next_of_spec _ [] _ _ _ HR). by eexists. }
  rewrite En. by apply (detach_loop_spec s (size (pids s)) task n [] L [] T).
Qed.

Lemma find_pid_spec s L T type nr :
  pid_rep L s T → find_task_by_pid_type type nr s = Done (spec_find nr T, s).
Proof.
  intros HR. unfold find_task_by_pid_type. run_simpl. rewrite (first_spec _ _ _ HR).
  apply (find_loop_spec s _ nr [] L [] T); [done|done|by eapply rep_length].
Qed.

(** A new thread with its task struct, the back reference included. *)
Lemma init_thread_spec s L T :
  pid_rep L s T → can_alloc 2 (pmem s) = true →
  ∃ t ts s', init_dde_linux26_thread s = Done (t, s') ∧ pid_rep L s' T ∧
    tdata s' !! t = Some (ThreadData None (Some ts) init_preempt_count 0) ∧
    tstructs s' !! ts = Some (TaskStruct t init_task_fields) ∧ my_data s' = my_data s ∧
    ∃ t1 t2 m1, kit_malloc (pmem s) = Some (t1, m1) ∧ kit_malloc m1 = Some (t2, pmem s').
Proof.
  intros [Hl HD Hlive Hhd] Hal. cbn [can_alloc] in Hal.
  destruct (kit_malloc (pmem s)) as [[t m1]|] eqn:E1; [|done].
  destruct (kit_malloc m1) as [[ts m2]|] eqn:E2; [|done].
  destruct (kit_malloc_fresh _ _ _ E1) as [? Hm1]. destruct (kit_malloc_fresh _ _ _ E2) as [? Hm2].
  exists t, ts. unfold init_dde_linux26_thread, alloc, store_td. run_simpl. rewrite E1.
  cbn [pmem with_tdata with_pmem]. rewrite E2. eexists. split; [done|]. split_and!.
  - split; cbn; [done|done|rewrite Hm2, Hm1; set_solver|rewrite Hm2, Hm1; set_solver].
  - cbn. by rewrite lookup_insert_eq.
  - cbn. by rewrite lookup_insert_eq.
  - done.
  - by eexists t, ts, m1.
Qed.

Lemma pid_rep_ext L s s' T :
  pid_rep L s T → plinks s' = plinks s → pids s' = pids s → pmem s' = pmem s → pid_rep L s' T.
Proof. intros [] E1 E2 E3. split; by rewrite ?E1, ?E2, ?E3. Qed.

End Process.

(** ** Properties *)

(** The PID list implements a table.  [attach_pid] adds an entry in front,
    [detach_pid] removes the first entry of the task and frees it, and
    [find_task_by_pid_type] returns the first entry with the number or NULL;
    if [kmalloc] fails, [attach_pid] dereferences NULL. *)
Theorem pid_list_refines {A : Type} `{KitMemory A} (pid_list : loc) (L : list loc)
    (s : proc_state (A := A)) (T : list (Z * loc)) (task : loc) (nr : Z) :
  pid_rep pid_list L s T →
  find_task_by_pid_type pid_list 0 nr s = Done (spec_find nr T, s) ∧
  (∃ s' L', detach_pid pid_list task s = Done (tt, s') ∧ pid_rep pid_list L' s' (spec_detach task T)) ∧
  (if can_alloc 1 (pmem s)
   then ∃ s' L', attach_pid pid_list task nr s = Done (0, s') ∧ pid_rep pid_list L' s' ((nr, task) :: T)
   else attach_pid pid_list task nr s = Fault FNull).
Proof.
  intros HR. split; [by eapply find_pid_spec|]. split.
  - destruct (detach_pid_spec _ _ _ _ task HR) as (s' & L' & E & HR' & _). eauto.
  - pose proof (attach_pid_spec _ _ _ _ task nr HR) as Hat. cbn [can_alloc].
    destruct (kit_malloc (pmem s)) as [[l m]|]; [|done].
    destruct Hat as (s' & E & HR' & _). eauto.
Qed.

Definition demo_pids : proc_state (A := pool) :=
  ProcState (Links {[ 1%positive := Some 2%positive; 2%positive := Some 1%positive ]}
      {[ 1%positive := Some 2%positive; 2%positive := Some 1%positive ]})
    {[ 2%positive := Pid2Task 40 9%positive ]} ∅ ∅ ∅ (Pool {[1%positive; 2%positive]} eq_refl) ∅ 0.

Lemma demo_pids_rep : pid_rep 1%positive [2%positive] demo_pids [(40, 9%positive)].
Proof.
  split.
  - split; [done|]. apply (bool_decide_unpack _). reflexivity.
  - repeat constructor.
  - cbn. set_solver.
  - cbn. set_solver.
Qed.

Lemma pid_list_refines_witness :
  find_task_by_pid_type 1%positive 0 40 demo_pids = Done (Some 9%positive, demo_pids) ∧
  (∃ s' L', detach_pid 1%positive 9%positive demo_pids = Done (tt, s') ∧ pid_rep 1%positive L' s' []) ∧
  (if can_alloc 1 (pmem demo_pids)
   then ∃ s' L', attach_pid 1%positive 9%positive 40 demo_pids = Done (0, s') ∧
          pid_rep 1%positive L' s' [(40, 9%positive); (40, 9%positive)]
   else attach_pid 1%positive 9%positive 40 demo_pids = Fault FNull).
Proof.
  apply (pid_list_refines 1%positive [2%positive] demo_pids [(40, 9%positive)] 9%positive 40).
  apply demo_pids_rep.
Defined.

(** The life of a worker thread.  With memory for its three objects,
    [dde_linux26_process_add_worker] gives thread [self] fresh thread data and a
    task that refer to each other, with sleep lock and preemption count 0; the
    thread's [current] and the lookup of its PID both give that task, the data
    of other threads are untouched, and [do_exit] removes exactly its entry from
    the PID list. *)
Theorem worker_lifecycle {A : Type} `{KitMemory A} (pid_list : loc) (pc0 tf0 : Z) (get_id : Z → Z)
    (self code : Z) (L : list loc) (s : proc_state (A := A)) (T : list (Z * loc)) :
  pid_rep pid_list L s T → can_alloc 3 (pmem s) = true →
  ∃ s1 t ts,
    dde_linux26_process_add_worker pid_list pc0 tf0 get_id (Some self) None s = Done (tt, s1) ∧
    get_current self s1 = Done (Some ts, s1) ∧ lxtask_to_ddethread ts s1 = Done (t, s1) ∧
    tdata s1 !! t = Some (ThreadData (Some self) (Some ts) 0 0) ∧
    find_task_by_pid_type pid_list 0 (get_id self) s1 = Done (Some ts, s1) ∧
    (∀ other, other ≠ self → my_data s1 !! other = my_data s !! other) ∧
    ∃ s2 L2, do_exit pid_list self code s1 = Done (tt, s2) ∧ pid_rep pid_list L2 s2 T.
Proof.
  intros HR Hal.
  assert (Hal2 : can_alloc 2 (pmem s) = true).
  { cbn [can_alloc] in *. destruct (kit_malloc (pmem s)) as [[? ?]|]; [|done].
    by destruct (kit_malloc _) as [[? ?]|]. }
  destruct (init_thread_spec pid_list pc0 tf0 s L T HR Hal2)
    as (t & ts & s0 & E0 & HR0 & Htd & Hts & Hmy & t1 & t2 & m1 & Em1 & Em2).
  set (sa := with_my_data (<[self:=t]> (my_data s0))
    (with_tdata (<[t:=ThreadData (Some self) (Some ts) pc0 0]> (tdata s0)) s0)).
  assert (HRa : pid_rep pid_list L sa T) by (by eapply pid_rep_ext).
  pose proof (attach_pid_spec pid_list sa L T ts (get_id self) HRa) as Hat.
  change (pmem sa) with (pmem s0) in Hat.
  assert (∃ l m, kit_malloc (pmem s0) = Some (l, m)) as (l & m & Em3).
  { cbn [can_alloc] in Hal. rewrite Em1, Em2 in Hal. destruct (kit_malloc (pmem s0)) as [[l m]|]; [eauto|done]. }
  rewrite Em3 in Hat. destruct Hat as (sb & Eb & HRb & Etd & Ets & Emy).
  assert (Hmysb : my_data sb !! self = Some t) by (rewrite Emy; cbn; by rewrite lookup_insert_eq).
  assert (Htdsb : tdata sb !! t = Some (ThreadData (Some self) (Some ts) pc0 0))
    by (rewrite Etd; cbn; by rewrite lookup_insert_eq).
  set (sc := with_tdata (<[t:=ThreadData (Some self) (Some ts) 0 0]> (tdata sb)) sb).
  assert (HRc : pid_rep pid_list (l :: L) sc ((get_id self, ts) :: T)) by (by eapply pid_rep_ext).
  assert (Hcur : get_current self sc = Done (Some ts, sc)).
  { unfold get_current, current_thread_info, load_td. run_simpl. cbn [sc my_data with_tdata tdata].
    rewrite Hmysb. cbn [sc tdata with_tdata]. by rewrite lookup_insert_eq. }
  assert (Hback : lxtask_to_ddethread ts sc = Done (t, sc)).
  { unfold lxtask_to_ddethread. cbn [sc tstructs with_tdata]. rewrite Ets. cbn [sa tstructs with_my_data with_tdata].
    by rewrite Hts. }
  exists sc, t, ts. split_and!; try done.
  - unfold dde_linux26_process_add_worker, set_kit_thread, set_my_data, lx_task, current_thread_info,
      load_td, store_td. run_simpl. rewrite E0, Htd. cbn [tdata with_tdata with_my_data].
    rewrite lookup_insert_eq. cbn [td_task td_preempt_count td_sleep_lock].
    change (with_my_data _ _) with sa. by rewrite Eb, Hmysb, Htdsb.
  - cbn [sc tdata with_tdata]. by rewrite lookup_insert_eq.
  - rewrite (find_pid_spec _ _ _ _ _ _ HRc). unfold spec_find. cbn. by rewrite Z.eqb_refl.
  - intros other Hne. cbn [sc my_data with_tdata]. rewrite Emy. cbn. by rewrite lookup_insert_ne, Hmy.
  - destruct (detach_pid_spec _ _ _ _ ts HRc) as (s2 & L2 & E2 & HR2 & _).
    cbn [spec_detach snd] in HR2. rewrite bool_decide_true in HR2 by done.
    exists s2, L2. split; [|done]. unfold do_exit. run_simpl. by rewrite Hcur, Hback, E2.
Qed.

Lemma worker_lifecycle_witness :
  ∃ s1 t ts,
    dde_linux26_process_add_worker 1%positive 1 0 (λ x, x + 100) (Some 7) None demo_pids = Done (tt, s1) ∧
    get_current 7 s1 = Done (Some ts, s1) ∧ lxtask_to_ddethread ts s1 = Done (t, s1) ∧
    tdata s1 !! t = Some (ThreadData (Some 7) (Some ts) 0 0) ∧
    find_task_by_pid_type 1%positive 0 (7 + 100) s1 = Done (Some ts, s1) ∧
    (∀ other, other ≠ 7 → my_data s1 !! other = my_data demo_pids !! other) ∧
    ∃ s2 L2, do_exit 1%positive 7 0 s1 = Done (tt, s2) ∧ pid_rep 1%positive L2 s2 [(40, 9%positive)].
Proof.
  apply (worker_lifecycle 1%positive 1 0 (λ x, x + 100) 7 0 [2%positive] demo_pids [(40, 9%positive)]).
  - apply demo_pids_rep.
  - vm_compute. reflexivity.
Defined.
