(* ===== verification/Kmalloc.v ===== *)
(** kmalloc and kmem caches (src/src/lib/dde_linux26/arch/dde_kit/kmalloc.c,
    kmem_cache.c and vmalloc.c).

    [__kmalloc] takes a block from the smallest sufficient cache, or from the
    kit for large sizes, and stores the cache's address in front of the object
    so that [kfree] can give the block back.  The model keeps memory byte by
    byte, so the back pointer really lies next to the client's data. *)

From S2P Require Import Prelude KitHeap.

Definition ULONG_MAX : Z := 2 ^ 32 - 1.
Definition __GFP_ZERO : Z := 0x8000.
Definition SIZEOF_PTR : Z := 4.
Definition SIZEOF_KMEM_CACHE : Z := 24.

(** [malloc_sizes] before initialisation (kmalloc_sizes.h under DDE_LINUX). *)
Definition cs_sizes : list Z := [32; 64; 128; 256; 512; 1024; 2048; ULONG_MAX].

Record kmem_cache := KmemCache {
  kc_name : Z;
  kc_size : Z;
  kc_slab : Z;
  kc_ctor : Z;
  kc_dtor : Z;
}.

Section Kmalloc.
Context {H : Type} `{KitHeap H}.

(** What the constructor or destructor at an address does to an object. *)
Context (object_fn : Z → Z → bytes → bytes).

Record km_state := KmState {
  heap : H;
  bmem : bytes;
  caches : gmap Z kmem_cache;        (* struct kmem_cache by address *)
  malloc_sizes : list (Z * Z);       (* cs_size, cs_cachep *)
}.

Abbreviation KM := (M km_state).

Definition with_heap (h : H) (s : km_state) : km_state :=
  KmState h (bmem s) (caches s) (malloc_sizes s).
Definition with_bmem (m : bytes) (s : km_state) : km_state :=
  KmState (heap s) m (caches s) (malloc_sizes s).
Definition with_caches (c : gmap Z kmem_cache) (s : km_state) : km_state :=
  KmState (heap s) (bmem s) c (malloc_sizes s).
Definition with_sizes (l : list (Z * Z)) (s : km_state) : km_state :=
  KmState (heap s) (bmem s) (caches s) l.

(** Run a kit allocation; NULL is 0. *)
Definition kit_alloc (f : H → option (Z * H)) : KM Z := λ s,
  match f (heap s) with
  | Some (a, h) => Done (a, with_heap h s)
  | None => Done (0, s)
  end.
Definition kit_do (f : H → H) : KM unit := modify (λ s, with_heap (f (heap s)) s).
Definition mem_do (f : bytes → bytes) : KM unit := modify (λ s, with_bmem (f (bmem s)) s).

Definition load_cache (c : Z) : KM kmem_cache := λ s,
  match caches s !! c with Some k => Done (k, s) | None => Fault FNull end.

(** ** kmem_cache.c *)

Definition kmem_cache_size (c : Z) : KM Z := k ← load_cache c; mret (kc_size k).
Definition kmem_cache_name (c : Z) : KM Z := k ← load_cache c; mret (kc_name k).
Definition kmem_cache_shrink (c : Z) : KM Z := mret 1.

Definition kmem_cache_free (c objp : Z) : KM unit :=
  k ← load_cache c;
  (if kc_dtor k =? 0 then mret tt else mem_do (object_fn (kc_dtor k) objp)) ;;
  kit_do (slab_free (kc_slab k) objp).

Definition kmem_cache_alloc (c flags : Z) : KM Z :=
  k ← load_cache c;
  ret ← kit_alloc (slab_alloc (kc_slab k));
  if ret =? 0 then mret 0 else
  (if Z.land flags __GFP_ZERO =? 0 then mret tt else mem_do (memset ret 0 (kc_size k))) ;;
  (if kc_ctor k =? 0 then mret tt else mem_do (object_fn (kc_ctor k) ret)) ;;
  mret ret.

Definition kmem_cache_destroy (c : Z) : KM unit :=
  k ← load_cache c;
  kit_do (slab_destroy (kc_slab k)) ;;
  kit_do (simple_free c) ;;
  modify (λ s, with_caches (delete c (caches s)) s).

Definition kmem_cache_create (name size align flags ctor dtor : Z) : KM Z :=
  if name =? 0 then mret 0 else
  c ← kit_alloc (simple_malloc SIZEOF_KMEM_CACHE);
  if c =? 0 then mret 0 else
  sl ← kit_alloc (slab_init size);
  if sl =? 0 then kit_do (simple_free c) ;; mret 0 else
  modify (λ s, with_caches (<[c:=KmemCache name size sl ctor dtor]> (caches s)) s) ;;
  mret c.

(** ** kmalloc.c *)

(** [for (sizes = malloc_sizes; size > sizes->cs_size; ++sizes);] *)
Fixpoint scan_sizes (size : Z) (l : list (Z * Z)) : KM Z :=
  match l with
  | [] => fail FBounds
  | (cs, c) :: l => if cs <? size then scan_sizes size l else mret c
  end.

Definition find_cache (size : Z) : KM Z := l ← gets malloc_sizes; scan_sizes size l.

Definition kfree (objp : Z) : KM unit :=
  if objp =? 0 then mret tt else
  let p := objp - SIZEOF_PTR in
  c ← gets (λ s, load32 p (bmem s));
  if c =? 0 then kit_do (large_free p) else kmem_cache_free c p.

Definition __kmalloc (size flags : Z) : KM Z :=
  let size := u32 (size + SIZEOF_PTR) in
  cache ← find_cache size;
  p ← (if cache =? 0 then kit_alloc (large_malloc size) else kmem_cache_alloc cache flags);
  if p =? 0 then mret 0 else
  (if negb (Z.land flags __GFP_ZERO =? 0) && (cache =? 0)
   then mem_do (memset p 0 size) else mret tt) ;;
  mem_do (store32 p cache) ;;
  mret (p + SIZEOF_PTR).

(** The loop of [dde_linux26_kmalloc_init]; [names] are the addresses of the
    cache names. *)
Fixpoint init_sizes (names : list Z) (l : list (Z * Z)) : KM (list (Z * Z)) :=
  match l with
  | [] => fail FBounds
  | (cs, c) :: l' =>
      if cs =? ULONG_MAX then mret l else
      match names with
      | [] => fail FBounds
      | name :: names =>
          c' ← kmem_cache_create name cs 0 0 0 0;
          rest ← init_sizes names l';
          mret ((cs, c') :: rest)
      end
  end.

Definition dde_linux26_kmalloc_init (names : list Z) : KM unit :=
  l ← gets malloc_sizes;
  l' ← init_sizes names l;
  modify (with_sizes l').

(** ** vmalloc.c *)

Definition vmalloc (size : Z) : KM Z := kit_alloc (simple_malloc size).
Definition vfree (addr : Z) : KM unit := kit_do (simple_free addr).

(** ** Invariant *)

Definition cache_ok (s : km_state) (cs c : Z) : Prop :=
  0 < c < 2 ^ 32 ∧ ∃ k, caches s !! c = Some k ∧ kc_size k = cs ∧
    slabs (heap s) !! kc_slab k = Some cs ∧ kc_ctor k = 0 ∧ kc_dtor k = 0.

Definition disjoint_blocks (B : gmap Z (Z * family)) : Prop :=
  ∀ a b x y, a ≠ b → B !! a = Some x → B !! b = Some y → a + x.1 ≤ b ∨ b + y.1 ≤ a.

Record km_inv (s : km_state) : Prop := {
  km_sizes : map fst (malloc_sizes s) = cs_sizes;
  km_caches cs c : (cs, c) ∈ malloc_sizes s → c = 0 ∨ cs < ULONG_MAX ∧ cache_ok s cs c;
  km_disjoint : disjoint_blocks (blocks (heap s));
}.

(** Pointer [p] was returned for [size] bytes: the block around it is live and
    has room, and the word in front says how to free it. *)
Definition owned (s : km_state) (p size : Z) : Prop :=
  ∃ n fam, blocks (heap s) !! (p - SIZEOF_PTR) = Some (n, fam) ∧
    size + SIZEOF_PTR ≤ n ∧ SIZEOF_PTR < p ∧
    (load32 (p - SIZEOF_PTR) (bmem s) = 0 ∧ fam = FamLarge ∨
     ∃ cs k, cache_ok s cs (load32 (p - SIZEOF_PTR) (bmem s)) ∧
       caches s !! load32 (p - SIZEOF_PTR) (bmem s) = Some k ∧ fam = FamSlab (kc_slab k)).

(** A client's view: its objects with their sizes and contents. *)
Definition client (s : km_state) (A : gmap Z (Z * bytes)) : Prop :=
  km_inv s ∧ ∀ p n c, A !! p = Some (n, c) →
    0 ≤ n ∧ owned s p n ∧ ∀ i, 0 ≤ i < n → bmem s (p + i) = c i.

(** The operations of a client. *)
Inductive kop :=
| KAlloc (size flags : Z)
| KFree (p : Z)
| KStore (p off v : Z).   (* ((u8 * )p)[off] = v *)

Definition kstep (o : kop) : KM Z :=
  match o with
  | KAlloc size flags => __kmalloc size flags
  | KFree p => kfree p ;; mret 0
  | KStore p off v => mem_do (set_byte (p + off) v) ;; mret 0
  end.

Definition zero_flag (flags : Z) : bool := negb (Z.land flags __GFP_ZERO =? 0).

(** A client frees what it owns (or NULL) and writes inside its objects. *)
Definition kvalid (o : kop) (A : gmap Z (Z * bytes)) : Prop :=
  match o with
  | KAlloc size flags => 0 ≤ size ∧ size + SIZEOF_PTR ≤ ULONG_MAX
  | KFree p => p = 0 ∨ is_Some (A !! p)
  | KStore p off v => ∃ n c, A !! p = Some (n, c) ∧ 0 ≤ off < n
  end.

(** Specification of a step: result and new objects. *)
Definition kspec (o : kop) (r : Z) (A A' : gmap Z (Z * bytes)) : Prop :=
  match o with
  | KAlloc size flags =>
      r = 0 ∧ A' = A ∨
      0 < r ∧ r mod 4 = 0 ∧ A !! r = None ∧
      (∀ q n c, A !! q = Some (n, c) → r + size ≤ q ∨ q + n ≤ r) ∧
      ∃ c, A' = <[r:=(size, c)]> A ∧ (zero_flag flags = true → ∀ i, 0 ≤ i < size → c i = 0)
  | KFree p => A' = delete p A
  | KStore p off v => ∃ n c, A !! p = Some (n, c) ∧ A' = <[p:=(n, set_byte off v c)]> A
  end.

(** ** Lemmas *)

Lemma scan_sizes_spec size l s :
  (∃ x, x ∈ l ∧ size ≤ x.1) →
  ∃ l1 cs c l2, l = l1 ++ (cs, c) :: l2 ∧ scan_sizes size l s = Done (c, s) ∧ size ≤ cs ∧
    Forall (λ x, x.1 < size) l1.
Proof.
  induction l as [|[cs c] l IH]; intros (x & Hx & Hsz); [by apply elem_of_nil in Hx|].
  cbn [scan_sizes]. destruct (Z.ltb_spec cs size) as [Hlt|Hge].
  - apply elem_of_cons in Hx as [->|Hx]; [cbn in Hsz; lia|].
    destruct IH as (l1 & cs' & c' & l2 & -> & E & Hle & Hf); [eauto|].
    exists ((cs, c) :: l1), cs', c', l2. split_and!; try done. by constructor.
  - exists [], cs, c, l. done.
Qed.

(** The size class of a request. *)
Lemma cs_sizes_class l1 cs l2 size :
  cs_sizes = l1 ++ cs :: l2 → size ≤ cs → Forall (λ x, x < size) l1 → cs < ULONG_MAX →
  cs ≤ Z.max 32 (2 * size).
Proof.
  intros E Hle HF Hmax. unfold cs_sizes, ULONG_MAX in *.
  do 8 (destruct l1 as [|? l1]; [cbn in E; simplify_eq; lia
    |cbn in E; injection E as <- E; apply list.Forall_cons in HF as [? HF]]); try lia.
Qed.

Lemma find_cache_spec s size :
  km_inv s → 0 ≤ size ≤ ULONG_MAX →
  ∃ c, find_cache size s = Done (c, s) ∧
    (c = 0 ∨ ∃ cs, cache_ok s cs c ∧ size ≤ cs ≤ Z.max 32 (2 * size)).
Proof.
  intros HI Hsz. unfold find_cache. run_simpl.
  destruct (scan_sizes_spec size (malloc_sizes s) s) as (l1 & cs & c & l2 & E & Es & Hle & HF).
  { assert (Hin : ULONG_MAX ∈ map fst (malloc_sizes s)).
    { rewrite (km_sizes _ HI). unfold cs_sizes. set_solver. }
    apply list_elem_of_In, in_map_iff in Hin as (x & Ex & Hx%list_elem_of_In). exists x.
    split; [done|]. lia. }
  exists c. split; [done|].
  destruct (km_caches _ HI cs c) as [->|[Hmax Hok]]; [rewrite E; set_solver|by left|].
  right. exists cs. split; [done|]. split; [done|].
  pose proof (km_sizes _ HI) as Ecs. rewrite E, map_app in Ecs. symmetry in Ecs.
  eapply cs_sizes_class; [exact Ecs|done| |done].
  apply List.Forall_map. done.
Qed.

Lemma disjoint_insert B a n fam :
  disjoint_blocks B → block_fresh B a n → disjoint_blocks (<[a:=(n, fam)]> B).
Proof.
  intros HD (_ & _ & _ & _ & HF) x y vx vy Hne. rewrite !lookup_insert_Some.
  intros [[<- <-]|[? Hx]] [[<- <-]|[? Hy]]; try done.
  - destruct (HF y vy Hy) as [?|?]; auto.
  - destruct (HF x vx Hx) as [?|?]; cbn; auto.
  - eauto.
Qed.

Lemma disjoint_delete B a : disjoint_blocks B → disjoint_blocks (delete a B).
Proof.
  intros HD x y vx vy Hne [_ ?]%lookup_delete_Some [_ ?]%lookup_delete_Some. eauto.
Qed.

(** States that agree on caches and slabs. *)
Lemma cache_ok_ext s s' cs c :
  caches s' = caches s → slabs (heap s') = slabs (heap s) → cache_ok s cs c → cache_ok s' cs c.
Proof. intros E1 E2. unfold cache_ok. by rewrite E1, E2. Qed.

Lemma km_inv_ext s s' :
  caches s' = caches s → malloc_sizes s' = malloc_sizes s → slabs (heap s') = slabs (heap s) →
  disjoint_blocks (blocks (heap s')) → km_inv s → km_inv s'.
Proof.
  intros E1 E2 E3 HD [Hs Hc _]. split; [by rewrite E2| |done].
  intros cs c. rewrite E2. intros Hin. destruct (Hc cs c Hin) as [?|[? ?]]; [by left|right].
  split; [done|]. by eapply cache_ok_ext.
Qed.

(** An object stays owned while its block and its back pointer stay. *)
Lemma owned_ext s s' p n :
  caches s' = caches s → slabs (heap s') = slabs (heap s) →
  blocks (heap s') !! (p - SIZEOF_PTR) = blocks (heap s) !! (p - SIZEOF_PTR) →
  load32 (p - SIZEOF_PTR) (bmem s') = load32 (p - SIZEOF_PTR) (bmem s) →
  owned s p n → owned s' p n.
Proof.
  intros E1 E2 E3 E4 (m & fam & Hb & Hn & Hp & Hor). exists m, fam. rewrite E3, E4, E1.
  split_and!; try done. destruct Hor as [?|(cs & k & Hok & ?)]; [by left|right].
  exists cs, k. split; [by eapply cache_ok_ext|done].
Qed.

(** A new block at [a] of size [n] whose first word is the cache [c] and whose
    rest is zero if asked for. *)
Record new_block (s s' : km_state) (a n size c : Z) (fam : family) (flags : Z) : Prop := {
  nb_fresh : block_fresh (blocks (heap s)) a n;
  nb_blocks : blocks (heap s') = <[a:=(n, fam)]> (blocks (heap s));
  nb_slabs : slabs (heap s') = slabs (heap s);
  nb_caches : caches s' = caches s;
  nb_sizes : malloc_sizes s' = malloc_sizes s;
  nb_back : load32 a (bmem s') = c;
  nb_zero i : zero_flag flags = true → a + SIZEOF_PTR ≤ i < a + size → bmem s' i = 0;
  nb_frame x : x < a ∨ a + n ≤ x → bmem s' x = bmem s x;
}.

(** What [__kmalloc] does after it has its block: zero it and store the word. *)
Lemma new_block_run s h a n m size c fam flags :
  block_fresh (blocks (heap s)) a n → blocks h = <[a:=(n, fam)]> (blocks (heap s)) →
  slabs h = slabs (heap s) → 0 ≤ c < 2 ^ 32 → SIZEOF_PTR ≤ size ≤ n →
  (zero_flag flags = true → ∀ i, a ≤ i < a + size → m i = 0) →
  (∀ x, x < a ∨ a + n ≤ x → m x = bmem s x) →
  new_block s (with_bmem (store32 a c m) (with_heap h s)) a n size c fam flags.
Proof.
  intros Hfr Hb Hsl Hc Hsz Hz Hfx. unfold SIZEOF_PTR in *. split; try done.
  - cbn. by apply load32_store32.
  - intros i Hzf Hi. cbn. unfold SIZEOF_PTR in *. rewrite store32_other by lia. apply Hz; [done|lia].
  - intros x Hx. cbn. rewrite store32_other by lia. by apply Hfx.
Qed.

Lemma kmalloc_spec s size flags :
  km_inv s → 0 ≤ size → size + SIZEOF_PTR ≤ ULONG_MAX →
  ∃ p s', __kmalloc size flags s = Done (p, s') ∧
    (p = 0 ∧ s' = s ∨
     ∃ n c fam, new_block s s' (p - SIZEOF_PTR) n (size + SIZEOF_PTR) c fam flags ∧
       size + SIZEOF_PTR ≤ n ≤ Z.max 32 (2 * (size + SIZEOF_PTR)) ∧
       (c = 0 ∧ fam = FamLarge ∨
        ∃ cs k, cache_ok s cs c ∧ caches s !! c = Some k ∧ fam = FamSlab (kc_slab k))).
Proof.
  intros HI Hge Hmax. unfold SIZEOF_PTR, ULONG_MAX in *.
  destruct (find_cache_spec s (size + 4) HI) as (c & Ef & Hc); [unfold ULONG_MAX; lia|].
  unfold __kmalloc, SIZEOF_PTR. rewrite u32_small by lia. unfold mbind at 1, M_bind at 1. rewrite Ef.
  destruct Hc as [->|(cs & Hok & Hcs)].
  - rewrite Z.eqb_refl, andb_true_r. unfold kit_alloc. run_simpl.
    destruct (large_malloc (size + 4) (heap s)) as [[a h]|] eqn:El; [|exists 0, s; auto].
    destruct (large_malloc_law _ _ _ _ El) as (Hfr & Hb & Hsl).
    pose proof Hfr as (Hpos & _). destruct (Z.eqb_spec a 0) as [|_]; [lia|].
    exists (a + 4). unfold mem_do. run_simpl. fold (zero_flag flags).
    destruct (zero_flag flags) eqn:Ez; eexists; (split; [done|]); right;
      exists (size + 4), 0, FamLarge; replace (a + 4 - 4) with a by lia.
    + split; [|split; [lia|by left]]. apply (new_block_run s h a (size + 4) (memset a 0 (size + 4) (bmem s)));
        try done; unfold SIZEOF_PTR; [lia| |].
      * intros _ i Hi. by apply memset_in.
      * intros x Hx. by apply memset_out.
    + split; [|split; [lia|by left]]. apply (new_block_run s h a (size + 4) (bmem s));
        try done; unfold SIZEOF_PTR; [lia|congruence].
  - pose proof Hok as (Hc & k & Hk & Hks & Hsl & Hct & Hdt).
    destruct (Z.eqb_spec c 0) as [|_]; [lia|]. rewrite andb_false_r.
    unfold kmem_cache_alloc, load_cache, kit_alloc. run_simpl. rewrite Hk.
    destruct (slab_alloc (kc_slab k) (heap s)) as [[a h]|] eqn:Ea; [|exists 0, s; auto].
    destruct (slab_alloc_law _ _ _ _ _ Hsl Ea) as (Hfr & Hb & Hsl').
    pose proof Hfr as (Hpos & _). destruct (Z.eqb_spec a 0) as [|_]; [lia|]. rewrite Hct, Hks.
    change (0 =? 0) with true. cbn beta iota. exists (a + 4). unfold mem_do. run_simpl.
    replace (Z.land flags __GFP_ZERO =? 0) with (negb (zero_flag flags))
      by (unfold zero_flag; apply negb_involutive).
    destruct (zero_flag flags) eqn:Ez; cbn [negb]; (destruct (Z.eqb_spec a 0) as [|_]; [lia|]);
      eexists; (split; [done|]); right; exists cs, c, (FamSlab (kc_slab k));
      replace (a + 4 - 4) with a by lia; (split; [|split; [lia|right; eauto]]).
    + apply (new_block_run s h a cs (memset a 0 cs (bmem s)));
        try done; unfold SIZEOF_PTR; [lia|lia| |].
      * intros _ i Hi. apply memset_in. lia.
      * intros x Hx. by apply memset_out.
    + apply (new_block_run s h a cs (bmem s)); try done; unfold SIZEOF_PTR; [lia|lia|congruence].
Qed.

(** The block of an object. *)
Lemma owned_block s p n :
  owned s p n → ∃ m fam, blocks (heap s) !! (p - SIZEOF_PTR) = Some (m, fam) ∧ n + SIZEOF_PTR ≤ m ∧
    SIZEOF_PTR < p.
Proof. intros (m & fam & ? & ? & ? & _). eauto. Qed.

(** Objects of a client whose block and bytes are untouched stay valid. *)
Lemma client_keep s s' p n c :
  caches s' = caches s → slabs (heap s') = slabs (heap s) →
  blocks (heap s') !! (p - SIZEOF_PTR) = blocks (heap s) !! (p - SIZEOF_PTR) →
  (∀ x, p - SIZEOF_PTR ≤ x < p + n → bmem s' x = bmem s x) → 0 ≤ n →
  owned s p n ∧ (∀ i, 0 ≤ i < n → bmem s (p + i) = c i) →
  owned s' p n ∧ (∀ i, 0 ≤ i < n → bmem s' (p + i) = c i).
Proof.
  unfold SIZEOF_PTR. intros E1 E2 E3 Hm Hn [Ho Hc]. split.
  - eapply (owned_ext s s'); try done. unfold SIZEOF_PTR. apply load32_ext.
    intros x Hx. apply Hm. lia.
  - intros i Hi. rewrite Hm by lia. by apply Hc.
Qed.

Lemma client_alloc s A size flags :
  client s A → kvalid (KAlloc size flags) A →
  ∃ r s' A', kstep (KAlloc size flags) s = Done (r, s') ∧ kspec (KAlloc size flags) r A A' ∧ client s' A'.
Proof.
  intros [HI HA] [Hsz Hmax].
  destruct (kmalloc_spec s size flags HI Hsz Hmax) as (p & s' & E & [[-> ->]|(n & c & fam & HB & Hlen & Hfam)]).
  { exists 0, s, A. split; [done|]. split; [by left|done]. }
  pose proof HB as [Hfr Hb Hsl Hca Hms Hback Hz Hframe]. pose proof Hfr as (Hpos & _ & Hal & _ & Hdis).
  unfold SIZEOF_PTR in *.
  exists p, s', (<[p:=(size, λ i, bmem s' (p + i))]> A).
  assert (Hold : ∀ q m d, A !! q = Some (m, d) → q - 4 ≠ p - 4 ∧ (p - 4 + n ≤ q - 4 ∨ q + m ≤ p - 4)).
  { intros q m d Hq. destruct (HA q m d Hq) as (Hm0 & Ho & _).
    destruct (owned_block s q m Ho) as (mb & fb & Hqb & Hmb & _). unfold SIZEOF_PTR in *.
    pose proof (map_Forall_lookup_1 _ _ _ _ Hdis Hqb) as Hd. cbn in Hd.
    lia. }
  assert (Hnone : A !! p = None).
  { destruct (A !! p) as [[m d]|] eqn:Ep; [|done]. destruct (Hold p m d Ep). lia. }
  split; [done|]. split.
  - right. split_and!; [lia| |done| |].
    + replace p with (p - 4 + 1 * 4) by lia. by rewrite Z.mod_add.
    + intros q m d Hq. destruct (Hold q m d Hq) as [_ ?]. lia.
    + eexists. split; [done|]. intros Hzf i Hi. apply Hz; [done|lia].
  - split.
    + eapply (km_inv_ext s); try done. rewrite Hb. apply disjoint_insert; [apply HI|done].
    + intros q m d. rewrite lookup_insert_Some. intros [[<- [= <- <-]]|[Hne Hq]].
      * split; [done|]. split; [|done]. exists n, fam. unfold SIZEOF_PTR. rewrite Hb, lookup_insert_eq, Hback, Hca.
        split_and!; [done|lia|lia|]. destruct Hfam as [?|(cs & k & Hok & ? & ?)]; [by left|right].
        exists cs, k. split; [by eapply (cache_ok_ext s)|done].
      * destruct (Hold q m d Hq) as [Hq4 Hd]. destruct (HA q m d Hq) as [Hm0 Hoc]. split; [done|].
        eapply (client_keep s); try done; unfold SIZEOF_PTR.
        -- rewrite Hb, lookup_insert_ne by lia. done.
        -- intros x Hx. apply Hframe. lia.
Qed.

Lemma client_free s A p :
  client s A → kvalid (KFree p) A →
  ∃ r s' A', kstep (KFree p) s = Done (r, s') ∧ kspec (KFree p) r A A' ∧ client s' A'.
Proof.
  intros [HI HA] Hv. cbn [kstep]. unfold kfree. run_simpl.
  destruct (Z.eqb_spec p 0) as [->|Hp].
  { exists 0, s, (delete 0 A). split; [done|]. split; [done|]. split; [done|].
    intros q n c [_ ?]%lookup_delete_Some. eauto. }
  destruct Hv as [?|[[n c] Hpn]]; [done|]. destruct (HA p n c Hpn) as (_ & Ho & _).
  assert (Hrun : ∃ h, (if load32 (p - SIZEOF_PTR) (bmem s) =? 0 then kit_do (large_free (p - SIZEOF_PTR))
      else kmem_cache_free (load32 (p - SIZEOF_PTR) (bmem s)) (p - SIZEOF_PTR)) s =
        Done (tt, with_heap h s) ∧
      blocks h = delete (p - SIZEOF_PTR) (blocks (heap s)) ∧ slabs h = slabs (heap s)).
  { destruct Ho as (m & fam & Hb & _ & _ & [[Hz ->]|(cs & k & Hok & Hk & ->)]).
    - rewrite Hz, Z.eqb_refl. eexists. split; [done|]. by eapply large_free_law.
    - pose proof Hok as (Hc & k' & Hk' & _ & _ & _ & Hdt).
      assert (k' = k) as -> by congruence.
      destruct (Z.eqb_spec (load32 (p - SIZEOF_PTR) (bmem s)) 0) as [Hc0|_]; [lia|].
      unfold kmem_cache_free, load_cache, kit_do. run_simpl. rewrite Hk, Hdt. cbn.
      eexists. split; [done|]. by eapply slab_free_law. }
  destruct Hrun as (h & E & Hb & Hsl). rewrite E.
  exists 0, (with_heap h s), (delete p A). split; [done|]. split; [done|]. split.
  - eapply (km_inv_ext s); try done. cbn. rewrite Hb. apply disjoint_delete, HI.
  - intros q m d [Hne Hq]%lookup_delete_Some. destruct (HA q m d Hq) as (? & Hoq & Hcq). split; [done|]. split; [|done].
    eapply (owned_ext s); try done. cbn. rewrite Hb, lookup_delete_ne by lia. done.
Qed.

Lemma client_store s A p off v :
  client s A → kvalid (KStore p off v) A →
  ∃ r s' A', kstep (KStore p off v) s = Done (r, s') ∧ kspec (KStore p off v) r A A' ∧ client s' A'.
Proof.
  intros [HI HA] (n & c & Hp & Hoff).
  eexists 0, _, (<[p:=(n, set_byte off v c)]> A). split; [done|]. split; [by exists n, c|].
  split; [by eapply (km_inv_ext s); try done; apply HI|].
  destruct (HA p n c Hp) as (Hn0 & Ho & Hc). pose proof (owned_block s p n Ho) as (m & fam & Hb & Hm & _).
  unfold SIZEOF_PTR in *.
  intros q k d. rewrite lookup_insert_Some. intros [[<- [= <- <-]]|[Hne Hq]].
  - split; [done|]. split.
    + eapply (owned_ext s); try done. apply load32_ext. unfold SIZEOF_PTR. intros x Hx. cbn. unfold set_byte.
      destruct (Z.eqb_spec x (p + off)); [lia|done].
    + intros i Hi. cbn. unfold set_byte.
      destruct (Z.eqb_spec (p + i) (p + off)), (Z.eqb_spec i off); try lia; auto.
  - destruct (HA q k d Hq) as (Hk0 & Hoq & Hcq). pose proof (owned_block s q k Hoq) as (mq & fq & Hbq & Hmq & _).
    unfold SIZEOF_PTR in *. pose proof (km_disjoint _ HI (p - 4) (q - 4) _ _ ltac:(lia) Hb Hbq) as Hd.
    cbn in Hd. split; [done|]. eapply (client_keep s); try done.
    intros x Hx. unfold SIZEOF_PTR in *. cbn. unfold set_byte. destruct (Z.eqb_spec x (p + off)); [lia|done].
Qed.

(** ** Initialisation *)

(** Cache structures live in blocks of their own. *)
Record init_inv (s : km_state) : Prop := {
  ii_caches c k : caches s !! c = Some k → ∃ n, blocks (heap s) !! c = Some (n, FamSimple) ∧ 0 < n;
  ii_disjoint : disjoint_blocks (blocks (heap s));
}.

(** Caches that exist stay as they are. *)
Definition caches_kept (s s' : km_state) : Prop :=
  ∀ cs c, cache_ok s cs c → cache_ok s' cs c.

Lemma cache_create_spec s name cs :
  init_inv s → name ≠ 0 →
  ∃ c s', kmem_cache_create name cs 0 0 0 0 s = Done (c, s') ∧ init_inv s' ∧ caches_kept s s' ∧
    malloc_sizes s' = malloc_sizes s ∧ (c = 0 ∨ cache_ok s' cs c).
Proof.
  intros HI Hname. unfold kmem_cache_create, kit_alloc, kit_do. run_simpl.
  apply Z.eqb_neq in Hname. rewrite Hname.
  destruct (simple_malloc SIZEOF_KMEM_CACHE (heap s)) as [[c h]|] eqn:E1.
  2: { exists 0, s. split; [done|]. split; [done|]. split; [by intros ? ?|]. split; [done|by left]. }
  destruct (simple_malloc_law _ _ _ _ E1) as (Hfr & Hb & Hsl). pose proof Hfr as (Hpos & Hlim & _ & Hnone & _).
  destruct (Z.eqb_spec c 0) as [|_]; [lia|]. cbn [heap with_heap].
  assert (Hne : ∀ c' k, caches s !! c' = Some k → c ≠ c').
  { intros c' k Hk ->. destruct (ii_caches _ HI c' k Hk) as (n & ? & _). congruence. }
  destruct (slab_init cs h) as [[sl h2]|] eqn:E2.
  - destruct (slab_init_law _ _ _ _ E2) as (Hsl0 & Hnew & Hsl2 & Hb2).
    destruct (Z.eqb_spec sl 0) as [|_]; [done|].
    eexists c, _. split; [done|]. split_and!.
    + split; cbn.
      * intros c' k. rewrite Hb2, Hb, lookup_insert_Some.
        intros [[<- <-]|[Hc' Hk]]; [exists SIZEOF_KMEM_CACHE; by rewrite lookup_insert_eq|].
        rewrite lookup_insert_ne by done. by apply (ii_caches _ HI c' k).
      * rewrite Hb2, Hb. apply disjoint_insert; [apply HI|done].
    + intros cs' c' (Hc' & k & Hk & Hks & Hks2 & Hct). split; [done|]. exists k. cbn.
      rewrite lookup_insert_ne by (by apply (Hne c' k)). rewrite Hsl2, Hsl.
      split_and!; try tauto. rewrite Hsl in Hnew. rewrite lookup_insert_ne; congruence.
    + done.
    + right. split; [unfold SIZEOF_KMEM_CACHE in *; lia|]. exists (KmemCache name cs sl 0 0). cbn.
      rewrite lookup_insert_eq, Hsl2, lookup_insert_eq. done.
  - change (0 =? 0) with true. cbn beta iota.
    destruct (simple_free_law SIZEOF_KMEM_CACHE c h) as [Hbf Hsf]; [by rewrite Hb, lookup_insert_eq|].
    assert (Hback : blocks (simple_free c h) = blocks (heap s)) by (by rewrite Hbf, Hb, delete_insert_id).
    exists 0. eexists. split; [done|]. split_and!; [|..|done|by left].
    + split; cbn; rewrite Hback; apply HI.
    + intros cs' c'. apply cache_ok_ext; [done|]. cbn. by rewrite Hsf, Hsl.
Qed.

(** The loop over the sizes; the last entry keeps its NULL cache. *)
Lemma init_sizes_spec l names s :
  init_inv s → Forall (λ x, x ≠ 0) names → (length l ≤ length names)%nat →
  Forall (λ x, x < ULONG_MAX) l →
  ∃ r s', init_sizes names (map (λ x, (x, 0)) (l ++ [ULONG_MAX])) s = Done (r, s') ∧ init_inv s' ∧
    caches_kept s s' ∧ malloc_sizes s' = malloc_sizes s ∧
    map fst r = l ++ [ULONG_MAX] ∧
    ∀ cs c, (cs, c) ∈ r → c = 0 ∨ cs < ULONG_MAX ∧ cache_ok s' cs c.
Proof.
  revert names s. induction l as [|cs l IH]; intros names s HI Hn Hlen Hl.
  - exists [(ULONG_MAX, 0)], s. split; [by destruct names|]. split_and!; try done.
    + by intros ? ?.
    + intros cs c [[= -> ->]|?%elem_of_nil]%elem_of_cons; [by left|done].
  - destruct names as [|name names]; [cbn in Hlen; lia|].
    apply list.Forall_cons in Hn as [Hname Hn]. apply list.Forall_cons in Hl as [Hcs Hl].
    destruct (cache_create_spec s name cs HI Hname) as (c & s1 & E1 & HI1 & Hk1 & Hm1 & Hc).
    destruct (IH names s1 HI1 Hn ltac:(cbn in Hlen; lia) Hl) as (r & s2 & E2 & HI2 & Hk2 & Hm2 & Hr & Hall).
    exists ((cs, c) :: r), s2. cbn [app map init_sizes].
    destruct (Z.eqb_spec cs ULONG_MAX) as [|_]; [lia|]. run_simpl. rewrite E1, E2.
    split_and!; try done; [intros ? ? ?; by apply Hk2, Hk1|congruence|cbn; by rewrite Hr|].
    intros cs' c' [[= -> ->]|Hin]%elem_of_cons; [|by apply Hall].
    destruct Hc as [->|Hok]; [by left|right]. split; [done|]. by apply Hk2.
Qed.

End Kmalloc.

(** ** Properties *)

(** C10: kmalloc as its clients see it.  From any state in which a client owns a
    set of objects, a valid operation does not fault and gives the specified
    result: an allocation fails or returns a word-aligned object that meets none
    of the client's objects and is zero if asked for; a store changes only its
    object; [kfree] of an object gives its block back to the allocator it came
    from.  All other objects keep their contents. *)
Theorem kmalloc_client {H : Type} `{KitHeap H} (object_fn : Z → Z → bytes → bytes)
    (s : km_state (H := H)) (A : gmap Z (Z * bytes)) (o : kop) :
  client s A → kvalid o A →
  ∃ r s' A', kstep object_fn o s = Done (r, s') ∧ kspec o r A A' ∧ client s' A'.
Proof.
  intros HC Hv. destruct o as [size flags|p|p off v].
  - by apply client_alloc.
  - by apply client_free.
  - by apply client_store.
Qed.

(** C16: [dde_linux26_kmalloc_init] establishes the state that kmalloc needs: it
    walks the size table to its end marker, and every size class has a cache of
    its size or, if the cache could not be created, falls back to the kit. *)
Theorem kmalloc_init_ok {H : Type} `{KitHeap H} (names : list Z) (s : km_state (H := H)) :
  malloc_sizes s = map (λ x, (x, 0)) cs_sizes → caches s = ∅ → blocks (heap s) = ∅ →
  length names = 7%nat → Forall (λ x, x ≠ 0) names →
  ∃ s', dde_linux26_kmalloc_init names s = Done (tt, s') ∧ client s' ∅.
Proof.
  intros Hs Hc Hb Hlen Hn.
  assert (HI : init_inv s).
  { split; [intros c k; by rewrite Hc|]. intros a b x y _. by rewrite Hb. }
  destruct (init_sizes_spec (λ _ _ m, m) [32; 64; 128; 256; 512; 1024; 2048] names s HI Hn)
    as (r & s1 & E & HI1 & _ & Hm & Hr & Hall).
  { rewrite Hlen. done. }
  { unfold ULONG_MAX. repeat constructor; lia. }
  unfold dde_linux26_kmalloc_init. run_simpl. rewrite Hs.
  change (map (λ x, (x, 0)) cs_sizes) with
    (map (λ x : Z, (x, 0)) ([32; 64; 128; 256; 512; 1024; 2048] ++ [ULONG_MAX])). rewrite E.
  eexists. split; [done|]. split; [|by intros ? ? ?; rewrite lookup_empty].
  split; cbn; [done| |apply HI1]. intros cs c Hin. destruct (Hall cs c Hin) as [?|[? ?]]; [by left|by right].
Qed.

(** Boot, with seven names. *)
Definition boot_km : km_state (H := bump) :=
  KmState (Bump ∅ ∅) (λ _, 0xa5) ∅ (map (λ x, (x, 0)) cs_sizes).

Lemma kmalloc_init_ok_witness :
  ∃ s', dde_linux26_kmalloc_init [1; 2; 3; 4; 5; 6; 7] boot_km = Done (tt, s') ∧ client s' ∅.
Proof.
  apply (kmalloc_init_ok [1; 2; 3; 4; 5; 6; 7] boot_km); try reflexivity. repeat constructor; done.
Defined.

(** A heap with one large object of a client. *)
Definition demo_km : km_state (H := bump) :=
  KmState (Bump {[ 4096 := (3000, FamLarge) ]} ∅) (store32 4096 0 (λ _, 7)) ∅
    (map (λ x, (x, 0)) cs_sizes).

Lemma demo_km_client : client demo_km {[ 4100 := (2996, λ _, 7) ]}.
Proof.
  split.
  - split; [done| |].
    + intros cs c Hin. left. apply list_elem_of_In, in_map_iff in Hin as (x & [= _ <-] & _). done.
    + intros a b x y Hne. cbn. rewrite !lookup_singleton_Some. intros [<- <-] [<- <-]. done.
  - intros p n c. rewrite lookup_singleton_Some. intros [<- [= <- <-]]. split; [lia|]. split.
    + exists 3000, FamLarge. split_and!; [done|done|done|]. left. split; [|done]. by apply load32_store32.
    + intros i Hi. cbn. rewrite store32_other by lia. done.
Qed.

Lemma kmalloc_client_witness :
  ∃ r s' A', kstep (λ _ _ m, m) (KFree 4100) demo_km = Done (r, s') ∧
    kspec (KFree 4100) r {[ 4100 := (2996, λ _, 7) ]} A' ∧ client s' A'.
Proof.
  apply (kmalloc_client (λ _ _ m, m) demo_km {[ 4100 := (2996, λ _, 7) ]} (KFree 4100)).
  - apply demo_km_client.
  - right. exists (2996, λ _, 7). apply lookup_singleton_eq.
Defined.

(** C21: [__kmalloc] adds the size of the back pointer to the requested size
    without an overflow check.  A request for the last four sizes of the 32-bit
    range succeeds whenever the smallest cache has an object, and gets a block
    of 32 bytes. *)
Theorem kmalloc_size_wraps {H : Type} `{KitHeap H} (object_fn : Z → Z → bytes → bytes)
    (s : km_state (H := H)) (size c a : Z) (k : kmem_cache) (h : H) :
  km_inv s → malloc_sizes s !! 0%nat = Some (32, c) → c ≠ 0 → caches s !! c = Some k →
  slab_alloc (kc_slab k) (heap s) = Some (a, h) → 2 ^ 32 - SIZEOF_PTR ≤ size < 2 ^ 32 →
  ∃ s', __kmalloc object_fn size 0 s = Done (a + SIZEOF_PTR, s') ∧
    blocks (heap s') !! a = Some (32, FamSlab (kc_slab k)).
Proof.
  intros HI H0s Hc Hk Ha Hsz. unfold SIZEOF_PTR in *.
  destruct (km_caches _ HI 32 c) as [?|[_ (Hcr & k' & Hk' & Hks & Hsl & Hct & _)]];
    [by eapply list_elem_of_lookup_2|done|].
  assert (k' = k) as -> by congruence.
  destruct (slab_alloc_law _ _ _ _ _ Hsl Ha) as ((Hpos & _) & Hb & _).
  assert (Hw : u32 (size + 4) = size + 4 - 2 ^ 32).
  { rewrite u32_mod. symmetry. apply (Z.mod_unique_pos _ _ 1); lia. }
  unfold __kmalloc, find_cache, SIZEOF_PTR. rewrite Hw. run_simpl.
  destruct (malloc_sizes s) as [|[cs c'] l]; [done|]. cbn in H0s. injection H0s as -> ->.
  cbn [scan_sizes]. destruct (Z.ltb_spec 32 (size + 4 - 2 ^ 32)) as [?|_]; [lia|].
  unfold mret, M_ret. destruct (Z.eqb_spec c 0) as [|_]; [done|].
  unfold kmem_cache_alloc, load_cache, kit_alloc, mem_do. run_simpl. rewrite Hk, Ha.
  destruct (Z.eqb_spec a 0) as [|_]; [lia|]. rewrite Hct.
  change (Z.land 0 __GFP_ZERO =? 0) with true. change (0 =? 0) with true. cbn beta iota.
  destruct (Z.eqb_spec a 0) as [|_]; [lia|]. cbn [negb andb]. eexists. split; [done|]. cbn.
  by rewrite Hb, lookup_insert_eq.
Qed.

Lemma kmalloc_size_wraps_witness :
  ∃ s', __kmalloc (λ _ _ m, m) (2 ^ 32 - 1) 0
      (KmState (Bump ∅ {[ 1 := 32 ]}) (λ _, 0xa5) {[ 8 := KmemCache 1 32 1 0 0 ]}
         [(32, 8); (64, 0); (128, 0); (256, 0); (512, 0); (1024, 0); (2048, 0); (ULONG_MAX, 0)])
      = Done (4096 + SIZEOF_PTR, s') ∧
    blocks (heap s') !! 4096 = Some (32, FamSlab 1).
Proof.
  apply (kmalloc_size_wraps (λ _ _ m, m)
    (KmState (Bump ∅ {[ 1 := 32 ]}) (λ _, 0xa5) {[ 8 := KmemCache 1 32 1 0 0 ]}
       [(32, 8); (64, 0); (128, 0); (256, 0); (512, 0); (1024, 0); (2048, 0); (ULONG_MAX, 0)])
    (2 ^ 32 - 1) 8 4096 (KmemCache 1 32 1 0 0)
    (Bump {[ 4096 := (32, FamSlab 1) ]} {[ 1 := 32 ]})); try reflexivity; try done.
  split; [done| |].
  - intros cs c Hin. cbn [malloc_sizes] in Hin. rewrite !elem_of_cons, elem_of_nil in Hin.
    destruct Hin as [[= -> ->]|Hin]; [right|left; naive_solver].
    split; [done|]. split; [lia|]. eexists. split; [reflexivity|]. done.
  - intros a b x y _. cbn. by rewrite lookup_empty.
Defined.
