(* ===== verification/PageCache.v ===== *)
(** Page allocation (src/src/lib/dde_linux26/arch/dde_kit/page_alloc.c).

    Pages come from the kit; a hash table of 1024 buckets maps the virtual
    address of a page back to its [struct page].  The buckets are the hlists of
    list.h, with their [pprev] pointers. *)

From S2P Require Import Prelude Kit KitHeap.

Definition PAGE_SHIFT : Z := 12.
Definition PAGE_SIZE : Z := 4096.
Definition GFP_DMA : Z := 1.
Definition GFP_ATOMIC : Z := 0x20.
Definition DDE_PAGE_CACHE_SIZE : Z := 1024.
Definition DDE_PAGE_CACHE_MASK : Z := DDE_PAGE_CACHE_SIZE - 1.

Definition page_mask (va : Z) : Z := va - va mod PAGE_SIZE.   (* va & PAGE_MASK *)
Definition VIRT_TO_PAGEHASH (a : Z) : Z := Z.land (Z.shiftr a PAGE_SHIFT) DDE_PAGE_CACHE_MASK.

(** What [pprev] points to: the head of a bucket or the [next] field of an
    entry. *)
Inductive pprev := PNull | PHead (bucket : Z) | PNext (entry : loc) | PPoison.

(** [page_cache_entry] with its embedded hlist node. *)
Record page_cache_entry := Entry {
  e_next : option loc;
  e_pprev : pprev;
  e_page : loc;
}.

Section PageCache.
Context {A H : Type} `{KitMemory A} `{KitHeap H}.

Record pc_state := PcState {
  first : gmap Z (option loc);          (* dde_linux26_page_cache[].first *)
  entries : gmap loc page_cache_entry;
  virt : gmap loc Z;                    (* struct page: virtual *)
  pc_mem : A;                           (* kmalloc *)
  pc_heap : H;                          (* dde_kit_large_malloc *)
  pc_bytes : bytes;
}.

Abbreviation GM := (M pc_state).

Definition with_first (x : gmap Z (option loc)) (s : pc_state) : pc_state :=
  PcState x (entries s) (virt s) (pc_mem s) (pc_heap s) (pc_bytes s).
Definition with_entries (x : gmap loc page_cache_entry) (s : pc_state) : pc_state :=
  PcState (first s) x (virt s) (pc_mem s) (pc_heap s) (pc_bytes s).
Definition with_virt (x : gmap loc Z) (s : pc_state) : pc_state :=
  PcState (first s) (entries s) x (pc_mem s) (pc_heap s) (pc_bytes s).
Definition with_pc_mem (x : A) (s : pc_state) : pc_state :=
  PcState (first s) (entries s) (virt s) x (pc_heap s) (pc_bytes s).
Definition with_pc_heap (x : H) (s : pc_state) : pc_state :=
  PcState (first s) (entries s) (virt s) (pc_mem s) x (pc_bytes s).
Definition with_pc_bytes (x : bytes) (s : pc_state) : pc_state :=
  PcState (first s) (entries s) (virt s) (pc_mem s) (pc_heap s) x.

Definition load_entry (l : loc) : GM page_cache_entry := λ s,
  match entries s !! l with Some e => Done (e, s) | None => Fault FFreed end.
Definition store_entry (l : loc) (e : page_cache_entry) : GM unit :=
  modify (λ s, with_entries (<[l:=e]> (entries s)) s).
Definition load_virt (p : loc) : GM Z := λ s,
  match virt s !! p with Some v => Done (v, s) | None => Fault FFreed end.
Definition load_first (b : Z) : GM (option loc) := λ s,
  match first s !! b with Some p => Done (p, s) | None => Fault FBounds end.

Definition kmalloc_struct : GM (option loc) := λ s,
  match kit_malloc (pc_mem s) with
  | Some (l, m) => Done (Some l, with_pc_mem m s)
  | None => Done (None, s)
  end.

(** ** hlist operations (list.h) *)

Definition INIT_HLIST_NODE (l : loc) : GM unit :=
  e ← load_entry l; store_entry l (Entry None PNull (e_page e)).

Definition set_e_pprev (l : loc) (p : pprev) : GM unit :=
  e ← load_entry l; store_entry l (Entry (e_next e) p (e_page e)).
Definition set_e_next (l : loc) (p : option loc) : GM unit :=
  e ← load_entry l; store_entry l (Entry p (e_pprev e) (e_page e)).

Definition hlist_add_head (n : loc) (h : Z) : GM unit :=
  f ← load_first h;
  set_e_next n f ;;
  match f with Some x => set_e_pprev x (PNext n) | None => mret tt end ;;
  modify (λ s, with_first (<[h:=Some n]> (first s)) s) ;;
  set_e_pprev n (PHead h).

(** [*pprev = next] *)
Definition store_pprev (p : pprev) (next : option loc) : GM unit :=
  match p with
  | PHead b => modify (λ s, with_first (<[b:=next]> (first s)) s)
  | PNext l => set_e_next l next
  | PNull | PPoison => fail FNull
  end.

Definition hlist_del (n : loc) : GM unit :=
  e ← load_entry n;
  store_pprev (e_pprev e) (e_next e) ;;
  match e_next e with Some x => set_e_pprev x (e_pprev e) | None => mret tt end ;;
  store_entry n (Entry None PPoison (e_page e)).

(** ** The page cache *)

Definition dde_linux26_page_cache_add (p : loc) : GM unit :=
  v ← load_virt p;
  e ← kmalloc_struct;
  match e with
  | None => fail FNull
  | Some l =>
      store_entry l (Entry None PNull p) ;;
      INIT_HLIST_NODE l ;;
      hlist_add_head l (VIRT_TO_PAGEHASH v)
  end.

(** The loop of [dde_linux26_page_cache_remove]: the [break] is not part of the
    [if], so the loop ends after its first entry. *)
Definition remove_scan (h : Z) (v : Z) : GM (option loc) :=
  f ← load_first h;
  match f with
  | None => mret None
  | Some l =>
      e ← load_entry l; pv ← load_virt (e_page e);
      mret (if pv =? page_mask v then Some l else None)
  end.

Definition dde_linux26_page_cache_remove (p : loc) : GM unit :=
  v ← load_virt p;
  r ← remove_scan (VIRT_TO_PAGEHASH v) v;
  match r with Some l => hlist_del l | None => mret tt end.

Fixpoint lookup_scan (fuel : nat) (l : option loc) (va : Z) : GM (option loc) :=
  match l, fuel with
  | None, _ => mret None
  | Some _, O => fail FFuel
  | Some x, S fuel =>
      e ← load_entry x; pv ← load_virt (e_page e);
      if pv =? page_mask va then mret (Some (e_page e)) else lookup_scan fuel (e_next e) va
  end.

Definition dde_linux26_page_lookup (va : Z) : GM (option loc) :=
  f ← load_first (VIRT_TO_PAGEHASH va);
  fuel ← gets (λ s, size (entries s));
  lookup_scan fuel f va.

(** ** Allocation *)

Definition __get_free_pages (gfp_mask order : Z) : GM Z :=
  assert FAssert (negb (gfp_mask =? GFP_DMA)) ;;
  s ← get;
  match large_malloc (u32 (Z.shiftl PAGE_SIZE order)) (pc_heap s) with
  | Some (a, h) => modify (with_pc_heap h) ;; mret a
  | None => mret 0
  end.

Definition __alloc_pages (gfp_mask order : Z) : GM loc :=
  p ← kmalloc_struct;
  match p with
  | None => fail FNull
  | Some ret =>
      v ← __get_free_pages gfp_mask order;
      modify (λ s, with_virt (<[ret:=v]> (virt s)) s) ;;
      dde_linux26_page_cache_add ret ;;
      mret ret
  end.

Definition get_zeroed_page (gfp_mask : Z) : GM Z :=
  p ← __get_free_pages gfp_mask 0;
  (if p =? 0 then mret tt else modify (λ s, with_pc_bytes (memset p 0 PAGE_SIZE (pc_bytes s)) s)) ;;
  mret p.

Definition free_pages (addr order : Z) : GM unit :=
  modify (λ s, with_pc_heap (large_free addr (pc_heap s)) s).

Definition __free_pages (page : loc) (order : Z) : GM unit :=
  v ← load_virt page;
  free_pages v order ;;
  dde_linux26_page_cache_remove page.

Definition dde_linux26_page_cache_init : GM Z :=
  modify (with_first (list_to_map (map (λ i, (Z.of_nat i, None)) (seq 0 1024)))) ;; mret 0.

(** ** alloc_large_system_hash *)

(** [for (order = 0; ((1UL << order) << PAGE_SHIFT) < size; order++);] *)
Fixpoint hash_order (fuel : nat) (order size : Z) : option Z :=
  if u32 (Z.shiftl (u32 (Z.shiftl 1 order)) PAGE_SHIFT) <? size then
    match fuel with O => None | S fuel => hash_order fuel (order + 1) size end
  else Some order.

(** [do { ... } while (!table && size > PAGE_SIZE && --log2qty)] *)
Fixpoint hash_tries (fuel : nat) (size log2qty : Z) : GM (Z * Z) :=
  match fuel with
  | O => fail FFuel
  | S fuel =>
      match hash_order 32 0 size with
      | None => fail FFuel
      | Some order =>
          table ← __get_free_pages GFP_ATOMIC order;
          if (table =? 0) && (PAGE_SIZE <? size) then
            let log2qty := u32 (log2qty - 1) in
            if log2qty =? 0 then mret (table, log2qty) else hash_tries fuel size log2qty
          else mret (table, log2qty)
      end
  end.

(** The result is the table, [*_hash_shift] and [*_hash_mask]. *)
Definition alloc_large_system_hash (bucketsize numentries : Z) : GM (Z * Z * Z) :=
  let numentries := if numentries =? 0 then 1024 else numentries in
  let log2qty := Z.log2 numentries in
  let size := u32 (Z.shiftl bucketsize log2qty) in
  r ← hash_tries 32 size log2qty;
  if r.1 =? 0 then fail FPanic else mret (r.1, r.2, Z.shiftl 1 r.2 - 1).

(** ** Specification: a list of pages per bucket *)

Definition upd (T : Z → list loc) (b : Z) (l : list loc) : Z → list loc :=
  λ b', if b' =? b then l else T b'.

Definition spec_lookup (V : gmap loc Z) (T : Z → list loc) (va : Z) : option loc :=
  find (λ p, bool_decide (V !! p = Some (page_mask va))) (T (VIRT_TO_PAGEHASH va)).

(** What the code does: only the newest page of the bucket is compared. *)
Definition spec_remove (V : gmap loc Z) (T : Z → list loc) (v : Z) : Z → list loc :=
  let b := VIRT_TO_PAGEHASH v in
  match T b with
  | x :: r => if bool_decide (V !! x = Some (page_mask v)) then upd T b r else T
  | [] => T
  end.

(** The entries [L] of a bucket, from pointer [p] whose own address is [pp]. *)
Fixpoint hrep (h : gmap loc page_cache_entry) (pp : pprev) (p : option loc) (L : list loc) : Prop :=
  match L with
  | [] => p = None
  | x :: L' => p = Some x ∧ ∃ e, h !! x = Some e ∧ e_pprev e = pp ∧ hrep h (PNext x) (e_next e) L'
  end.

Record pc_rep (Lb : Z → list loc) (T : Z → list loc) (s : pc_state) : Prop := {
  pr_bucket b : 0 ≤ b < DDE_PAGE_CACHE_SIZE →
    ∃ p, first s !! b = Some p ∧ hrep (entries s) (PHead b) p (Lb b);
  pr_pages b : 0 ≤ b < DDE_PAGE_CACHE_SIZE →
    Forall2 (λ x p, e_page <$> entries s !! x = Some p ∧ is_Some (virt s !! p)) (Lb b) (T b);
  pr_apart b b' x : 0 ≤ b < DDE_PAGE_CACHE_SIZE → 0 ≤ b' < DDE_PAGE_CACHE_SIZE →
    x ∈ Lb b → x ∈ Lb b' → b = b';
  pr_live : dom (entries s) ⊆ live (pc_mem s);
}.

(** ** Lemmas *)

Lemma pagehash_range a : 0 ≤ VIRT_TO_PAGEHASH a < DDE_PAGE_CACHE_SIZE.
Proof.
  unfold VIRT_TO_PAGEHASH, DDE_PAGE_CACHE_MASK, DDE_PAGE_CACHE_SIZE.
  change (1024 - 1) with (Z.ones 10). rewrite Z.land_ones by lia. apply Z.mod_pos_bound. lia.
Qed.

Lemma hrep_lseg h pp p L : hrep h pp p L → lseg e_next h p L.
Proof.
  revert pp p. induction L as [|x L IH]; intros pp p; cbn; [done|].
  intros (-> & e & He & _ & HL). split; [done|]. exists e. eauto.
Qed.

Lemma hrep_frame h h' pp p L : (∀ x, x ∈ L → h' !! x = h !! x) → hrep h pp p L → hrep h' pp p L.
Proof.
  revert pp p. induction L as [|x L IH]; intros pp p Hf; cbn; [done|].
  intros (-> & e & He & Hpp & HL). split; [done|]. exists e. rewrite Hf by set_solver.
  split_and!; try done. apply IH; [|done]. intros y Hy. apply Hf. set_solver.
Qed.

(** The first entry gets a new predecessor. *)
Lemma hrep_head h pp p pp' x e L :
  hrep h pp p (x :: L) → h !! x = Some e →
  hrep (<[x:=Entry (e_next e) pp' (e_page e)]> h) pp' (Some x) (x :: L).
Proof.
  intros HL Hx. pose proof (lseg_NoDup _ _ _ _ (hrep_lseg _ _ _ _ HL)) as Hnd.
  apply list.NoDup_cons in Hnd as [Hni _]. destruct HL as (_ & e' & He & _ & HL).
  assert (e' = e) as -> by congruence. split; [done|]. eexists. rewrite lookup_insert_eq.
  split_and!; try done. eapply hrep_frame; [|exact HL]. intros y Hy.
  rewrite lookup_insert_ne; [done|]. intros ->. done.
Qed.

Lemma lookup_scan_spec s va L ps fuel p pp :
  hrep (entries s) pp p L →
  Forall2 (λ x p, e_page <$> entries s !! x = Some p ∧ is_Some (virt s !! p)) L ps →
  (length L ≤ fuel)%nat →
  lookup_scan fuel p va s = Done (find (λ p, bool_decide (virt s !! p = Some (page_mask va))) ps, s).
Proof.
  revert ps fuel p pp. induction L as [|x L IH]; intros ps fuel p pp HL HF Hlen.
  - inversion HF; subst. cbn in HL. subst p. by destruct fuel.
  - destruct HL as (-> & e & He & _ & HL). inversion HF as [|? pg ? ps' [Hpg [v Hv]] HF']; subst.
    destruct fuel as [|fuel]; [cbn in Hlen; lia|]. cbn [lookup_scan]. unfold load_entry, load_virt. run_simpl.
    rewrite He. rewrite He in Hpg. cbn in Hpg. injection Hpg as Hpg. rewrite Hpg, Hv. cbn [find].
    rewrite Hv. destruct (Z.eqb_spec v (page_mask va)) as [->|Hne].
    + by rewrite bool_decide_true.
    + rewrite bool_decide_false by congruence. eapply IH; [exact HL|done|cbn in Hlen; lia].
Qed.

Lemma page_lookup_spec Lb T s va :
  pc_rep Lb T s → dde_linux26_page_lookup va s = Done (spec_lookup (virt s) T va, s).
Proof.
  intros HR. pose proof (pagehash_range va) as Hb.
  destruct (pr_bucket _ _ _ HR _ Hb) as (p & Hp & HL). unfold dde_linux26_page_lookup, load_first. run_simpl.
  rewrite Hp. eapply lookup_scan_spec; [exact HL|by apply HR|].
  pose proof (lseg_length _ (dom (entries s)) _ _ _ (hrep_lseg _ _ _ _ HL) (reflexivity _)).
  by rewrite size_dom in *.
Qed.

(** The entries after [hlist_add_head] of a new entry in front of [f]. *)
Definition pushed (l : loc) (b : Z) (p : loc) (f : option loc) (h : gmap loc page_cache_entry) :
    gmap loc page_cache_entry :=
  <[l:=Entry f (PHead b) p]>
    (match f with
     | Some x => match h !! x with
                 | Some e => <[x:=Entry (e_next e) (PNext l) (e_page e)]> h
                 | None => h
                 end
     | None => h
     end).

Lemma hlist_add_head_run s l b p f L :
  first s !! b = Some f → hrep (entries s) (PHead b) f L → entries s !! l = None →
  (store_entry l (Entry None PNull p) ;; INIT_HLIST_NODE l ;; hlist_add_head l b) s =
    Done (tt, with_first (<[b:=Some l]> (first s)) (with_entries (pushed l b p f (entries s)) s)).
Proof.
  intros Hf HL Hl. unfold INIT_HLIST_NODE, hlist_add_head, set_e_next, set_e_pprev, load_first,
    load_entry, store_entry. run_simpl. cbn [entries with_entries first].
  rewrite lookup_insert_eq. cbn [e_page e_next e_pprev first with_entries entries].
  rewrite Hf. cbn [entries with_entries]. rewrite lookup_insert_eq.
  cbn [e_page e_next e_pprev entries with_entries]. rewrite !insert_insert_eq. unfold pushed.
  destruct f as [x|].
  - destruct L as [|y L]; [done|]. destruct HL as ([= <-] & e & He & _).
    assert (x ≠ l) by congruence.
    cbn [entries with_entries]. rewrite lookup_insert_ne, He by done.
    cbn [entries with_entries with_first first].
    rewrite lookup_insert_ne, lookup_insert_eq by done. cbn [e_page e_next entries with_entries with_first first].
    rewrite (insert_insert_ne _ l x) by done. rewrite insert_insert_eq. by rewrite (insert_insert_ne _ x l).
  - cbn [entries with_first with_entries]. rewrite lookup_insert_eq. cbn [e_page e_next first entries with_first with_entries].
    by rewrite insert_insert_eq.
Qed.

Lemma pushed_other l b p f h x : x ≠ l → f ≠ Some x → pushed l b p f h !! x = h !! x.
Proof.
  intros Hl Hf. unfold pushed. rewrite lookup_insert_ne by done. destruct f as [y|]; [|done].
  destruct (h !! y); [|done]. rewrite lookup_insert_ne by congruence. done.
Qed.

Lemma pushed_page l b p f h x : x ≠ l → e_page <$> pushed l b p f h !! x = e_page <$> h !! x.
Proof.
  intros Hl. unfold pushed. rewrite lookup_insert_ne by done. destruct f as [y|]; [|done].
  destruct (h !! y) as [e|] eqn:Ey; [|done]. destruct (decide (y = x)) as [->|].
  - by rewrite lookup_insert_eq, Ey.
  - by rewrite lookup_insert_ne.
Qed.

Lemma pushed_hrep l b p f h L :
  hrep h (PHead b) f L → l ∉ L → hrep (pushed l b p f h) (PHead b) (Some l) (l :: L).
Proof.
  intros HL Hl. split; [done|]. exists (Entry f (PHead b) p). unfold pushed. rewrite lookup_insert_eq.
  split_and!; try done. cbn [e_next]. eapply hrep_frame.
  { intros x Hx. rewrite lookup_insert_ne; [reflexivity|set_solver]. }
  destruct L as [|x L]; [cbn in HL; by subst f|]. pose proof HL as (-> & e & He & _). rewrite He.
  eapply hrep_head; eauto.
Qed.

Lemma page_cache_add_spec Lb T s p v :
  pc_rep Lb T s → virt s !! p = Some v →
  if can_alloc 1 (pc_mem s) then
    ∃ s' l, dde_linux26_page_cache_add p s = Done (tt, s') ∧
      pc_rep (upd Lb (VIRT_TO_PAGEHASH v) (l :: Lb (VIRT_TO_PAGEHASH v)))
             (upd T (VIRT_TO_PAGEHASH v) (p :: T (VIRT_TO_PAGEHASH v))) s' ∧
      virt s' = virt s ∧ pc_heap s' = pc_heap s
  else dde_linux26_page_cache_add p s = Fault FNull.
Proof.
  intros HR Hv. pose proof (pagehash_range v) as Hb. set (b := VIRT_TO_PAGEHASH v) in *.
  destruct (pr_bucket _ _ _ HR b Hb) as (f & Hf & HL). cbn [can_alloc].
  destruct (kit_malloc (pc_mem s)) as [[l m]|] eqn:Em.
  2: { unfold dde_linux26_page_cache_add, load_virt, kmalloc_struct. run_simpl. by rewrite Hv, Em. }
  destruct (kit_malloc_fresh _ _ _ Em) as [Hfr Hlm].
  assert (Hnone : entries s !! l = None) by (apply not_elem_of_dom; pose proof (pr_live _ _ _ HR); set_solver).
  assert (Hnew : ∀ b' x, 0 ≤ b' < DDE_PAGE_CACHE_SIZE → x ∈ Lb b' → x ≠ l).
  { intros b' x Hb' Hx ->. destruct (pr_bucket _ _ _ HR b' Hb') as (p' & _ & HL').
    destruct (lseg_lookup _ _ _ _ _ (hrep_lseg _ _ _ _ HL') Hx). congruence. }
  eexists _, l. split.
  { unfold dde_linux26_page_cache_add, load_virt, kmalloc_struct. unfold mbind at 1, M_bind at 1. rewrite Hv.
    unfold mbind at 1, M_bind at 1. rewrite Em.
    apply (hlist_add_head_run (with_pc_mem m s) l b p f (Lb b)); done. }
  split; [|done]. split; cbn [first entries with_first with_entries with_pc_mem virt pc_mem]; unfold upd.
  - intros b' Hb'. destruct (Z.eqb_spec b' b) as [->|Hne].
    + exists (Some l). rewrite lookup_insert_eq. split; [done|]. apply pushed_hrep; [done|].
      intros Hin. by apply (Hnew b l).
    + destruct (pr_bucket _ _ _ HR b' Hb') as (p' & Hp' & HL'). exists p'.
      rewrite lookup_insert_ne by done. split; [done|]. eapply hrep_frame; [|exact HL'].
      intros x Hx. apply pushed_other; [by eapply Hnew|]. intros ->. apply Hne.
      eapply (pr_apart _ _ _ HR _ _ x); try done. destruct (Lb b); cbn in HL; [done|].
      destruct HL as [[= ->] _]. set_solver.
  - intros b' Hb'. pose proof (pr_pages _ _ _ HR b' Hb') as HF.
    assert (HF' : Forall2 (λ x p0, e_page <$> pushed l b p f (entries s) !! x = Some p0 ∧ is_Some (virt s !! p0))
      (Lb b') (T b')).
    { apply list.Forall2_lookup. intros i. rewrite list.Forall2_lookup in HF. specialize (HF i).
      destruct (Lb b' !! i) as [x|] eqn:Ex; inversion HF as [? ? [? ?]|]; constructor.
      rewrite pushed_page; [done|]. eapply Hnew; [exact Hb'|]. by eapply list_elem_of_lookup_2. }
    destruct (Z.eqb_spec b' b) as [->|Hne]; [|done]. constructor; [|done].
    unfold pushed. rewrite lookup_insert_eq. split; [done|eauto].
  - intros b1 b2 x Hb1 Hb2. pose proof (pr_apart _ _ _ HR) as Hap.
    destruct (Z.eqb_spec b1 b) as [->|], (Z.eqb_spec b2 b) as [->|]; rewrite ?elem_of_cons.
    + done.
    + intros [->|Hx1] Hx2; [by apply (Hnew b2 l) in Hx2|eauto].
    + intros Hx1 [->|Hx2]; [by apply (Hnew b1 l) in Hx1|eauto].
    + eauto.
  - rewrite Hlm. unfold pushed. rewrite dom_insert. pose proof (pr_live _ _ _ HR) as Hlv.
    destruct f as [x|]; [|set_solver]. destruct (entries s !! x) eqn:Ex; [|set_solver].
    apply elem_of_dom_2 in Ex. rewrite dom_insert. set_solver.
Qed.

(** The entries after [hlist_del] of the first entry [x] of bucket [b]. *)
Definition popped (x : loc) (e : page_cache_entry) (b : Z) (h : gmap loc page_cache_entry) :
    gmap loc page_cache_entry :=
  <[x:=Entry None PPoison (e_page e)]>
    (match e_next e with
     | Some y => match h !! y with
                 | Some e' => <[y:=Entry (e_next e') (PHead b) (e_page e')]> h
                 | None => h
                 end
     | None => h
     end).

Lemma hlist_del_run s x e b L :
  entries s !! x = Some e → e_pprev e = PHead b → hrep (entries s) (PNext x) (e_next e) L →
  hlist_del x s =
    Done (tt, with_entries (popped x e b (entries s)) (with_first (<[b:=e_next e]> (first s)) s)).
Proof.
  intros Hx Hp HL. unfold hlist_del, store_pprev, set_e_pprev, load_entry, store_entry. run_simpl.
  rewrite Hx, Hp. cbn [entries with_first]. unfold popped. destruct (e_next e) as [y|]; [|done].
  destruct L as [|z L]; [done|]. destruct HL as ([= <-] & e' & He' & _). cbn [entries with_first].
  by rewrite He'.
Qed.

Lemma popped_other x e b h y : y ≠ x → e_next e ≠ Some y → popped x e b h !! y = h !! y.
Proof.
  intros Hy Hn. unfold popped. rewrite lookup_insert_ne by done. destruct (e_next e) as [z|]; [|done].
  destruct (h !! z); [|done]. rewrite lookup_insert_ne by congruence. done.
Qed.

Lemma popped_page x e b h y : h !! x = Some e → e_page <$> popped x e b h !! y = e_page <$> h !! y.
Proof.
  intros Hx. unfold popped. destruct (decide (y = x)) as [->|Hne].
  - by rewrite lookup_insert_eq, Hx.
  - rewrite lookup_insert_ne by done. destruct (e_next e) as [z|]; [|done].
    destruct (h !! z) as [e'|] eqn:Ez; [|done]. destruct (decide (z = y)) as [->|].
    + by rewrite lookup_insert_eq, Ez.
    + by rewrite lookup_insert_ne.
Qed.

Lemma popped_hrep x e b h L :
  x ∉ L → hrep h (PNext x) (e_next e) L → hrep (popped x e b h) (PHead b) (e_next e) L.
Proof.
  intros Hx HL. unfold popped. eapply hrep_frame.
  { intros y Hy. rewrite lookup_insert_ne; [reflexivity|set_solver]. }
  destruct L as [|y L]; [cbn in HL; by rewrite HL|]. pose proof HL as (-> & e' & He' & _). rewrite He'.
  eapply hrep_head; eauto.
Qed.

Lemma remove_run s p v Lb T :
  pc_rep Lb T s → virt s !! p = Some v →
  let b := VIRT_TO_PAGEHASH v in
  (dde_linux26_page_cache_remove p s = Done (tt, s) ∧ spec_remove (virt s) T v = T) ∨
  ∃ x e L pg r, Lb b = x :: L ∧ T b = pg :: r ∧ entries s !! x = Some e ∧
    hrep (entries s) (PNext x) (e_next e) L ∧ spec_remove (virt s) T v = upd T b r ∧
    dde_linux26_page_cache_remove p s =
      Done (tt, with_entries (popped x e b (entries s)) (with_first (<[b:=e_next e]> (first s)) s)).
Proof.
  intros HR Hv b. pose proof (pagehash_range v) as Hb. fold b in Hb.
  destruct (pr_bucket _ _ _ HR b Hb) as (f & Hf & HL). pose proof (pr_pages _ _ _ HR b Hb) as HF.
  unfold dde_linux26_page_cache_remove, remove_scan, load_virt, load_first. unfold spec_remove. fold b.
  destruct (Lb b) as [|x L] eqn:El.
  - left. inversion HF as [|]. cbn in HL. subst f. run_simpl. rewrite Hv. fold b. by rewrite Hf.
  - inversion HF as [|? pg ? r [Hpg [pv Hpv]] HF' E1 E2]; subst.
    destruct HL as (-> & e & He & Hpp & HL). rewrite He in Hpg. cbn in Hpg. injection Hpg as Hpg.
    rewrite Hpv. destruct (Z.eqb_spec pv (page_mask v)) as [->|Hne].
    + right. exists x, e, L, pg, r. rewrite bool_decide_true by done.
      split_and!; try done. run_simpl. rewrite Hv. fold b. rewrite Hf. unfold load_entry.
      rewrite He, Hpg, Hpv, Z.eqb_refl. by eapply hlist_del_run.
    + left. rewrite bool_decide_false by congruence. split; [|done].
      run_simpl. rewrite Hv. fold b. rewrite Hf. unfold load_entry. rewrite He, Hpg, Hpv.
      apply Z.eqb_neq in Hne. by rewrite Hne.
Qed.

Lemma page_cache_remove_spec Lb T s p v :
  pc_rep Lb T s → virt s !! p = Some v →
  ∃ s' Lb', dde_linux26_page_cache_remove p s = Done (tt, s') ∧
    pc_rep Lb' (spec_remove (virt s) T v) s' ∧ virt s' = virt s ∧ pc_heap s' = pc_heap s.
Proof.
  intros HR Hv. pose proof (pagehash_range v) as Hb.
  destruct (remove_run s p v Lb T HR Hv) as [[E Es]|(x & e & L & pg & r & El & Et & He & HL & Es & E)].
  { exists s, Lb. rewrite E, Es. done. }
  rewrite E, Es. set (b := VIRT_TO_PAGEHASH v) in *.
  eexists _, (upd Lb b L). split; [done|]. split; [|done].
  assert (Hx : x ∉ L).
  { destruct (pr_bucket _ _ _ HR b Hb) as (f & _ & HLb). rewrite El in HLb.
    pose proof (lseg_NoDup _ _ _ _ (hrep_lseg _ _ _ _ HLb)) as Hnd. by apply list.NoDup_cons in Hnd as [? _]. }
  split; cbn [first entries with_first with_entries virt pc_mem]; unfold upd.
  - intros b' Hb'. destruct (Z.eqb_spec b' b) as [->|Hne].
    + exists (e_next e). rewrite lookup_insert_eq. split; [done|]. by apply popped_hrep.
    + destruct (pr_bucket _ _ _ HR b' Hb') as (p' & Hp' & HL'). exists p'.
      rewrite lookup_insert_ne by done. split; [done|]. eapply hrep_frame; [|exact HL'].
      intros y Hy.
      assert (Hyb : y ∉ Lb b) by (intros Hin; apply Hne; by eapply (pr_apart _ _ _ HR _ _ y)).
      rewrite El in Hyb. apply popped_other; [set_solver|].
      intros Hn. rewrite Hn in HL. destruct L as [|z L]; [done|]. destruct HL as [[= ->] _]. set_solver.
  - intros b' Hb'. pose proof (pr_pages _ _ _ HR b' Hb') as HF.
    assert (HF' : Forall2 (λ x0 p0, e_page <$> popped x e b (entries s) !! x0 = Some p0 ∧ is_Some (virt s !! p0))
      (Lb b') (T b')).
    { eapply list.Forall2_impl; [exact HF|]. intros y q. by rewrite popped_page. }
    destruct (Z.eqb_spec b' b) as [->|Hne]; [|done]. rewrite El, Et in HF'. by inversion HF'.
  - assert (Hsub : ∀ b' y, y ∈ (if b' =? b then L else Lb b') → y ∈ Lb b').
    { intros b' y. destruct (Z.eqb_spec b' b) as [->|]; [|done]. rewrite El. set_solver. }
    intros b1 b2 y Hb1 Hb2 Hy1%Hsub Hy2%Hsub. by eapply (pr_apart _ _ _ HR _ _ y).
  - pose proof (pr_live _ _ _ HR) as Hlv. unfold popped. rewrite dom_insert.
    apply elem_of_dom_2 in He as Hxd. destruct (e_next e) as [y|]; [|set_solver].
    destruct (entries s !! y) eqn:Ey; [|set_solver]. apply elem_of_dom_2 in Ey. rewrite dom_insert. set_solver.
Qed.

(** A page-aligned address and the addresses of its page hash alike. *)
Lemma pagehash_mask va : VIRT_TO_PAGEHASH (page_mask va) = VIRT_TO_PAGEHASH va.
Proof.
  unfold VIRT_TO_PAGEHASH, page_mask, PAGE_SHIFT, PAGE_SIZE. f_equal.
  rewrite !Z.shiftr_div_pow2 by lia. change (2 ^ 12) with 4096.
  pose proof (Z.div_mod va 4096 ltac:(lia)) as E.
  replace (va - va mod 4096) with (va / 4096 * 4096) by lia. apply Z.div_mul. lia.
Qed.

Lemma page_mask_idem va : page_mask (page_mask va) = page_mask va.
Proof.
  unfold page_mask, PAGE_SIZE. pose proof (Z.div_mod va 4096 ltac:(lia)) as E.
  replace (va - va mod 4096) with (va / 4096 * 4096) by lia. rewrite Z.mod_mul by lia. lia.
Qed.

(** ** Hash tables *)

Lemma order_shift o : 0 ≤ o ≤ 19 → u32 (Z.shiftl (u32 (Z.shiftl 1 o)) PAGE_SHIFT) = 2 ^ (o + 12).
Proof.
  intros Ho. unfold PAGE_SHIFT. rewrite Z.shiftl_1_l.
  assert (2 ^ o ≤ 2 ^ 19) by (apply Z.pow_le_mono_r; lia).
  assert (2 ^ (o + 12) ≤ 2 ^ 31) by (apply Z.pow_le_mono_r; lia).
  assert (0 < 2 ^ o) by lia. rewrite (u32_small (2 ^ o)) by lia.
  rewrite Z.shiftl_mul_pow2, <- Z.pow_add_r by lia. rewrite u32_small; [done|]. lia.
Qed.

Lemma hash_order_spec fuel o size :
  0 ≤ o ≤ 19 → size ≤ 2 ^ 31 → 19 - o ≤ Z.of_nat fuel →
  ∃ o', hash_order fuel o size = Some o' ∧ o ≤ o' ≤ 19 ∧ size ≤ 2 ^ (o' + 12).
Proof.
  revert o. induction fuel as [|fuel IH]; intros o Ho Hs Hf; cbn [hash_order];
    rewrite order_shift by done; destruct (Z.ltb_spec (2 ^ (o + 12)) size) as [Hlt|Hge].
  - assert (o = 19) as -> by lia. change (19 + 12) with 31 in Hlt. lia.
  - exists o. split; [done|]. split; lia.
  - assert (o ≠ 19) by (intros ->; change (19 + 12) with 31 in Hlt; lia).
    destruct (IH (o + 1)) as (o' & E & Ho' & Hs'); [lia|done|lia|]. exists o'. split; [done|].
    split; [lia|done].
  - exists o. split; [done|]. split; lia.
Qed.

Lemma get_free_pages_run s gfp o :
  gfp ≠ GFP_DMA →
  __get_free_pages gfp o s =
    match large_malloc (u32 (Z.shiftl PAGE_SIZE o)) (pc_heap s) with
    | Some (a, h) => Done (a, with_pc_heap h s)
    | None => Done (0, s)
    end.
Proof.
  intros Hg. unfold __get_free_pages. apply Z.eqb_neq in Hg. rewrite Hg. unfold get. run_simpl.
  cbn [negb]. by destruct (large_malloc _ _) as [[? ?]|].
Qed.

(** Retrying asks for the same size again: a failure is final. *)
Lemma hash_tries_fail fuel s size q o :
  hash_order 32 0 size = Some o → large_malloc (u32 (Z.shiftl PAGE_SIZE o)) (pc_heap s) = None →
  1 ≤ q < Z.of_nat fuel → q < 2 ^ 32 → ∃ q', hash_tries fuel size q s = Done ((0, q'), s).
Proof.
  intros Ho Hm. revert q. induction fuel as [|fuel IH]; intros q Hq Hq32; [lia|].
  cbn [hash_tries]. rewrite Ho. unfold mbind, M_bind. rewrite get_free_pages_run, Hm by done.
  rewrite Z.eqb_refl. destruct (PAGE_SIZE <? size); cbn [andb]; [|eauto].
  rewrite u32_small by lia. destruct (Z.eqb_spec (q - 1) 0); [eauto|]. apply IH; lia.
Qed.

End PageCache.

(** ** Properties *)

(** The page cache implements a multimap of pages by virtual address.
    [dde_linux26_page_lookup] returns the newest cached page at the address's
    page, or NULL; after [dde_linux26_page_cache_add] every address of the new
    page finds it and all other addresses find what they found before; NULL from
    [kmalloc] is dereferenced. *)
Theorem page_cache_add_lookup {A H : Type} `{KitMemory A} `{KitHeap H} (Lb T : Z → list loc)
    (s : pc_state (A := A) (H := H)) (p : loc) (v : Z) :
  pc_rep Lb T s → virt s !! p = Some v → v mod PAGE_SIZE = 0 →
  if can_alloc 1 (pc_mem s) then
    ∃ s' Lb' T', dde_linux26_page_cache_add p s = Done (tt, s') ∧ pc_rep Lb' T' s' ∧
      ∀ va, dde_linux26_page_lookup va s' =
        Done (if page_mask va =? v then Some p else spec_lookup (virt s) T va, s')
  else dde_linux26_page_cache_add p s = Fault FNull.
Proof.
  intros HR Hv Hal. pose proof (page_cache_add_spec Lb T s p v HR Hv) as Hadd.
  destruct (can_alloc 1 (pc_mem s)); [|done]. destruct Hadd as (s' & l & E & HR' & Hvs & _).
  eexists s', _, _. split; [done|]. split; [exact HR'|]. intros va.
  rewrite (page_lookup_spec _ _ _ va HR'), Hvs. f_equal. f_equal. unfold spec_lookup, upd.
  assert (Hvm : page_mask v = v) by (unfold page_mask; lia).
  destruct (Z.eqb_spec (page_mask va) v) as [Hm|Hm].
  - rewrite <- (pagehash_mask va), Hm, Z.eqb_refl. cbn [find].
    by rewrite bool_decide_true.
  - destruct (Z.eqb_spec (VIRT_TO_PAGEHASH va) (VIRT_TO_PAGEHASH v)) as [Hh|Hh]; [|done].
    cbn [find]. rewrite bool_decide_false by congruence. by rewrite Hh.
Qed.

(** C23: [dde_linux26_page_cache_remove] compares only the newest entry of its
    bucket.  If another page was cached later in the same bucket, freeing a page
    gives its memory back to the kit but leaves it in the cache: lookups of its
    address still return the freed page. *)
Theorem page_free_stays_cached {A H : Type} `{KitMemory A} `{KitHeap H} (Lb T : Z → list loc)
    (s : pc_state (A := A) (H := H)) (p p2 : loc) (v v2 n : Z) (r : list loc) :
  pc_rep Lb T s → virt s !! p = Some v → virt s !! p2 = Some v2 →
  v mod PAGE_SIZE = 0 → v2 ≠ v → T (VIRT_TO_PAGEHASH v) = p2 :: p :: r →
  blocks (pc_heap s) !! v = Some (n, FamLarge) →
  ∃ s', __free_pages p 0 s = Done (tt, s') ∧ blocks (pc_heap s') !! v = None ∧
    dde_linux26_page_lookup v s' = Done (Some p, s').
Proof.
  intros HR Hv Hv2 Hal Hne HT Hbl. assert (Hvm : page_mask v = v) by (unfold page_mask; lia).
  set (s0 := with_pc_heap (large_free v (pc_heap s)) s).
  assert (HR0 : pc_rep Lb T s0) by (by destruct HR).
  destruct (page_cache_remove_spec Lb T s0 p v HR0 Hv) as (s1 & Lb1 & E & HR1 & Hvs & Hh).
  exists s1. split_and!.
  - unfold __free_pages, load_virt, free_pages. run_simpl. rewrite Hv. fold s0. by rewrite E.
  - rewrite Hh. cbn. destruct (large_free_law _ _ _ Hbl) as [-> _]. apply lookup_delete_eq.
  - rewrite (page_lookup_spec _ _ _ v HR1), Hvs. f_equal. f_equal.
    unfold spec_remove. rewrite HT, Hvm. cbn [s0 virt with_pc_heap].
    rewrite bool_decide_false by congruence.
    unfold spec_lookup. rewrite HT, Hvm. cbn [find].
    rewrite bool_decide_false by congruence. by rewrite bool_decide_true.
Qed.

(** A failed page allocation is not reported: [__alloc_pages] returns a page
    whose virtual address is NULL and puts it into the page cache. *)
Theorem alloc_pages_hides_failure {A H : Type} `{KitMemory A} `{KitHeap H} (Lb T : Z → list loc)
    (s : pc_state (A := A) (H := H)) (gfp order : Z) :
  pc_rep Lb T s → can_alloc 2 (pc_mem s) = true → gfp ≠ GFP_DMA →
  large_malloc (u32 (Z.shiftl PAGE_SIZE order)) (pc_heap s) = None →
  ∃ s' p, __alloc_pages gfp order s = Done (p, s') ∧ virt s' !! p = Some 0 ∧
    dde_linux26_page_lookup 0 s' = Done (Some p, s').
Proof.
  intros HR Hal Hg Hm. cbn [can_alloc] in Hal. destruct (kit_malloc (pc_mem s)) as [[p m]|] eqn:Em; [|done].
  destruct (kit_malloc_fresh _ _ _ Em) as [Hfr Hlm].
  set (s0 := with_virt (<[p:=0]> (virt s)) (with_pc_mem m s)).
  assert (HR0 : pc_rep Lb T s0).
  { destruct HR as [Hb Hp Ha Hl]. split; [done| |done|cbn; set_solver].
    intros b Hbr. eapply list.Forall2_impl; [by apply Hp|]. intros x q [? [vq Hq]]. split; [done|]. cbn.
    destruct (decide (q = p)) as [->|]; [rewrite lookup_insert_eq; eauto|].
    rewrite lookup_insert_ne by done. eauto. }
  assert (Hv0 : virt s0 !! p = Some 0) by (cbn; by rewrite lookup_insert_eq).
  pose proof (page_cache_add_spec Lb T s0 p 0 HR0 Hv0) as Hadd. cbn [can_alloc] in Hadd.
  change (pc_mem s0) with m in Hadd. destruct (kit_malloc m) as [[l m2]|]; [|done].
  destruct Hadd as (s1 & l' & E & HR1 & Hvs & _). exists s1, p. split_and!.
  - unfold __alloc_pages, kmalloc_struct. unfold mbind, M_bind. rewrite Em, get_free_pages_run by done.
    cbn [pc_heap with_pc_mem]. rewrite Hm. unfold modify. change (with_virt _ _) with s0. by rewrite E.
  - by rewrite Hvs.
  - rewrite (page_lookup_spec _ _ _ 0 HR1), Hvs. do 2 f_equal. unfold spec_lookup, upd.
    rewrite Z.eqb_refl. cbn [find]. by rewrite bool_decide_true.
Qed.

(** C18: [alloc_large_system_hash] returns a table with room for all buckets that
    the returned mask can select, or panics; it terminates for every power of
    two of buckets that fits 2 GB.  Each retry asks for the same number of
    bytes, so the first failure of the allocator is final. *)
Theorem system_hash_fits {A H : Type} `{KitMemory A} `{KitHeap H}
    (s : pc_state (A := A) (H := H)) (bucketsize numentries : Z) :
  0 < bucketsize → 1 < numentries < 2 ^ 32 → bucketsize * 2 ^ Z.log2 numentries ≤ 2 ^ 31 →
  (∃ o, alloc_large_system_hash bucketsize numentries s = Fault FPanic ∧
     large_malloc (u32 (Z.shiftl PAGE_SIZE o)) (pc_heap s) = None) ∨
  ∃ table mask n s', alloc_large_system_hash bucketsize numentries s =
      Done ((table, Z.log2 numentries, mask), s') ∧ table ≠ 0 ∧
    mask = 2 ^ Z.log2 numentries - 1 ∧ blocks (pc_heap s') !! table = Some (n, FamLarge) ∧
    (mask + 1) * bucketsize ≤ n.
Proof.
  intros Hb Hn Hsz. unfold alloc_large_system_hash. destruct (Z.eqb_spec numentries 0) as [|_]; [lia|].
  set (q := Z.log2 numentries) in *.
  assert (Hq : 1 ≤ q < 32).
  { split; [change 1 with (Z.log2 2); apply Z.log2_le_mono; lia|apply Z.log2_lt_pow2; lia]. }
  rewrite Z.shiftl_mul_pow2 by lia. rewrite u32_small by (split; [apply Z.mul_nonneg_nonneg; lia|lia]).
  destruct (hash_order_spec 32 0 (bucketsize * 2 ^ q)) as (o & Ho & Hor & Hfit); [lia|done|cbn; lia|].
  assert (Hps : u32 (Z.shiftl PAGE_SIZE o) = 2 ^ (o + 12)).
  { unfold PAGE_SIZE. rewrite Z.shiftl_mul_pow2 by lia. change 4096 with (2 ^ 12).
    rewrite <- Z.pow_add_r by lia. rewrite (Z.add_comm 12). apply u32_small.
    split; [apply Z.pow_nonneg; lia|apply Z.pow_lt_mono_r; lia]. }
  destruct (large_malloc (u32 (Z.shiftl PAGE_SIZE o)) (pc_heap s)) as [[a h]|] eqn:Em.
  - right. destruct (large_malloc_law _ _ _ _ Em) as ((Hpos & _) & Hbl & _).
    exists a, (Z.shiftl 1 q - 1), (2 ^ (o + 12)), (with_pc_heap h s).
    unfold mbind, M_bind. change 32%nat with (S 31) at 1. cbn [hash_tries]. rewrite Ho.
    unfold mbind, M_bind. rewrite get_free_pages_run, Em by done.
    destruct (Z.eqb_spec a 0) as [|_]; [lia|]. unfold mret, M_ret. cbn [andb fst snd].
    destruct (Z.eqb_spec a 0) as [|_]; [lia|]. rewrite Z.shiftl_1_l.
    split_and!; [done|lia|done|cbn; by rewrite Hbl, lookup_insert_eq, Hps|lia].
  - left. exists o. split; [|done]. unfold mbind, M_bind.
    destruct (hash_tries_fail 32 s (bucketsize * 2 ^ q) q o Ho Em) as (q' & E); [cbn; lia|lia|].
    by rewrite E.
Qed.

(** ** A concrete cache: two pages of one bucket, 4 MB apart *)

Definition demo_first : gmap Z (option loc) :=
  <[1:=Some 4%positive]> (list_to_map (map (λ i, (Z.of_nat i, None)) (seq 0 1024))).

Definition demo_cache : pc_state (A := pool) (H := bump) :=
  PcState demo_first
    {[ 4%positive := Entry (Some 3%positive) (PHead 1) 2%positive;
       3%positive := Entry None (PNext 4%positive) 1%positive ]}
    {[ 1%positive := 0x1000; 2%positive := 0x401000; 5%positive := 0x2000 ]}
    (Pool {[1%positive; 2%positive; 3%positive; 4%positive; 5%positive]} eq_refl)
    (Bump {[ 0x1000 := (4096, FamLarge); 0x401000 := (4096, FamLarge) ]} ∅) (λ _, 0).

Definition demo_entries (b : Z) : list loc := if b =? 1 then [4%positive; 3%positive] else [].
Definition demo_pages (b : Z) : list loc := if b =? 1 then [2%positive; 1%positive] else [].

Lemma init_first_lookup (n : nat) (b : Z) :
  0 ≤ b < Z.of_nat n →
  (list_to_map (map (λ i, (Z.of_nat i, None)) (seq 0 n)) : gmap Z (option loc)) !! b = Some None.
Proof.
  intros Hb. apply elem_of_list_to_map_1.
  - rewrite map_map. unfold compose. apply (NoDup_fmap_2_strong Z.of_nat); [intros ? ? _ _ ?; lia|apply NoDup_seq].
  - apply list_elem_of_In, in_map_iff. exists (Z.to_nat b). rewrite Z2Nat.id by lia.
    split; [done|]. apply in_seq. lia.
Qed.

Lemma demo_first_lookup b :
  0 ≤ b < DDE_PAGE_CACHE_SIZE → demo_first !! b = Some (if b =? 1 then Some 4%positive else None).
Proof.
  unfold DDE_PAGE_CACHE_SIZE. intros Hb. unfold demo_first. destruct (Z.eqb_spec b 1) as [->|Hne].
  - apply lookup_insert_eq.
  - rewrite lookup_insert_ne by done. apply init_first_lookup. lia.
Qed.

Lemma demo_cache_rep : pc_rep demo_entries demo_pages demo_cache.
Proof.
  split.
  - intros b Hb. eexists. split; [by apply demo_first_lookup|]. unfold demo_entries.
    destruct (Z.eqb_spec b 1) as [->|]; [|done]. split; [done|]. eexists. split; [reflexivity|].
    split; [done|]. split; [done|]. eexists. split; [reflexivity|]. done.
  - intros b _. unfold demo_entries, demo_pages. destruct (b =? 1); repeat constructor; eexists; reflexivity.
  - intros b b' x _ _. unfold demo_entries.
    destruct (Z.eqb_spec b 1), (Z.eqb_spec b' 1); try lia; rewrite ?elem_of_nil; done.
  - cbn. set_solver.
Qed.

Lemma page_cache_add_lookup_witness :
  if can_alloc 1 (pc_mem demo_cache) then
    ∃ s' Lb' T', dde_linux26_page_cache_add 5%positive demo_cache = Done (tt, s') ∧ pc_rep Lb' T' s' ∧
      ∀ va, dde_linux26_page_lookup va s' =
        Done (if page_mask va =? 0x2000 then Some 5%positive
              else spec_lookup (virt demo_cache) demo_pages va, s')
  else dde_linux26_page_cache_add 5%positive demo_cache = Fault FNull.
Proof.
  apply (page_cache_add_lookup demo_entries demo_pages demo_cache 5%positive 0x2000).
  - apply demo_cache_rep.
  - reflexivity.
  - reflexivity.
Defined.

Lemma page_free_stays_cached_witness :
  ∃ s', __free_pages 1%positive 0 demo_cache = Done (tt, s') ∧ blocks (pc_heap s') !! 0x1000 = None ∧
    dde_linux26_page_lookup 0x1000 s' = Done (Some 1%positive, s').
Proof.
  apply (page_free_stays_cached demo_entries demo_pages demo_cache 1%positive 2%positive
    0x1000 0x401000 4096 []); try reflexivity.
  - apply demo_cache_rep.
  - done.
Defined.

(** The same cache when the kit has no memory left for pages. *)
Definition demo_full : pc_state (A := pool) (H := bump) :=
  with_pc_heap (Bump {[ 0x1000 := (2 ^ 32 - 0x1000, FamLarge) ]} ∅) demo_cache.

Lemma alloc_pages_hides_failure_witness :
  ∃ s' p, __alloc_pages 0xd0 0 demo_full = Done (p, s') ∧ virt s' !! p = Some 0 ∧
    dde_linux26_page_lookup 0 s' = Done (Some p, s').
Proof.
  apply (alloc_pages_hides_failure demo_entries demo_pages demo_full 0xd0 0).
  - destruct demo_cache_rep. by split.
  - vm_compute. reflexivity.
  - done.
  - vm_compute. reflexivity.
Defined.

Lemma system_hash_fits_witness :
  (∃ o, alloc_large_system_hash 8 100 demo_cache = Fault FPanic ∧
     large_malloc (u32 (Z.shiftl PAGE_SIZE o)) (pc_heap demo_cache) = None) ∨
  ∃ table mask n s', alloc_large_system_hash 8 100 demo_cache =
      Done ((table, Z.log2 100, mask), s') ∧ table ≠ 0 ∧
    mask = 2 ^ Z.log2 100 - 1 ∧ blocks (pc_heap s') !! table = Some (n, FamLarge) ∧
    (mask + 1) * 8 ≤ n.
Proof. apply (system_hash_fits demo_cache 8 100); vm_compute; done. Defined.
