(* ===== verification/Skb.v ===== *)
(** Packet data (src/src/linux26/net/core/skbuff.c: skb_copy_bits and
    include/linux26/linux/skbuff.h: skb_headlen, skb_header_pointer).

    A packet is a linear part, a list of page fragments and a list of further
    packets.  [skb_copy_bits] walks all three; it is proved to deliver exactly
    the bytes of the flattened packet. *)

From S2P Require Import Prelude.

(** [struct sk_buff] with its shared info: [skb_len] is the field [len]. *)
Inductive sk_data := SkData {
  skb_len : Z;
  skb_linear : list Z;             (* skb->data, skb_headlen(skb) bytes *)
  skb_frags : list (list Z);       (* frags[i], from page_offset on *)
  skb_frag_list : list sk_data;
}.

Definition skb_headlen (s : sk_data) : Z := Z.of_nat (length (skb_linear s)).

(** [n] bytes from offset [o]. *)
Definition slice (o n : Z) (l : list Z) : list Z := take (Z.to_nat n) (drop (Z.to_nat o) l).

(** What a copy gives: the bytes, [-EFAULT], or an access outside the memory
    that belongs to the part read. *)
Inductive copy_result :=
| Bytes (bs : list Z)
| Efault
| Wild.

(** [memcpy(to, part + o, n)] for a part that holds the bytes [l]. *)
Definition memcpy_from (l : list Z) (o n : Z) : copy_result :=
  if (0 <=? o) && (0 <=? n) && (o + n <=? Z.of_nat (length l)) then Bytes (slice o n l) else Wild.

(** Either the function returned, or the loop goes on with the variables
    [start], [offset], [len] and the bytes copied to [to]. *)
Inductive progress :=
| Return (r : copy_result)
| Continue (start offset len : Z) (out : list Z).

(** One part of the packet, [n] bytes long, that [fetch] copies from. *)
Definition copy_part (n : Z) (fetch : Z → Z → copy_result) (start offset len : Z) (out : list Z) :
    progress :=
  let fin := start + n in
  let copy := fin - offset in
  if 0 <? copy then
    let copy := if len <? copy then len else copy in
    match fetch (offset - start) copy with
    | Bytes bs =>
        let len := len - copy in
        if len =? 0 then Return (Bytes (out ++ bs))
        else Continue fin (offset + copy) len (out ++ bs)
    | r => Return r
    end
  else Continue fin offset len out.

Fixpoint frags_loop (frags : list (list Z)) (start offset len : Z) (out : list Z) : progress :=
  match frags with
  | [] => Continue start offset len out
  | f :: frags =>
      match copy_part (Z.of_nat (length f)) (memcpy_from f) start offset len out with
      | Return r => Return r
      | Continue start offset len out => frags_loop frags start offset len out
      end
  end.

Section list_loop.
  Context (copy_bits : sk_data → Z → Z → copy_result).

Fixpoint list_loop (l : list sk_data) (start offset len : Z) (out : list Z) : progress :=
  match l with
  | [] => Continue start offset len out
  | x :: l =>
      match copy_part (skb_len x) (copy_bits x) start offset len out with
      | Return r => Return r
      | Continue start offset len out => list_loop l start offset len out
      end
  end.
End list_loop.

(** The header is copied before the loops, with [start] = [skb_headlen] also
    afterwards. *)
Fixpoint skb_copy_bits (s : sk_data) (offset len : Z) : copy_result :=
  let start := skb_headlen s in
  if skb_len s - len <? offset then Efault else
  match copy_part start (memcpy_from (skb_linear s)) 0 offset len [] with
  | Return r => r
  | Continue start offset len out =>
      match frags_loop (skb_frags s) start offset len out with
      | Return r => r
      | Continue start offset len out =>
          match list_loop skb_copy_bits (skb_frag_list s) start offset len out with
          | Return r => r
          | Continue _ _ len out => if len =? 0 then Bytes out else Efault
          end
      end
  end.

Definition skb_header_pointer (s : sk_data) (offset len : Z) : copy_result :=
  if len <=? skb_headlen s - offset then memcpy_from (skb_linear s) offset len
  else skb_copy_bits s offset len.

(** ** Specification *)

Fixpoint flatten (s : sk_data) : list Z :=
  skb_linear s ++ concat (skb_frags s) ++ concat (map flatten (skb_frag_list s)).

(** The length field is right at every level. *)
Fixpoint skb_wf (s : sk_data) : Prop :=
  skb_len s = Z.of_nat (length (flatten s)) ∧
  (fix all (l : list sk_data) : Prop := match l with [] => True | x :: l => skb_wf x ∧ all l end)
    (skb_frag_list s).

(** ** Lemmas *)

Lemma slice_length o n l :
  0 ≤ o → 0 ≤ n → o + n ≤ Z.of_nat (length l) → length (slice o n l) = Z.to_nat n.
Proof. intros. unfold slice. rewrite length_take, length_drop. lia. Qed.

Lemma memcpy_from_ok l o n :
  0 ≤ o → 0 ≤ n → o + n ≤ Z.of_nat (length l) → memcpy_from l o n = Bytes (slice o n l).
Proof. intros. unfold memcpy_from. by rewrite !(proj2 (Z.leb_le _ _)) by lia. Qed.

(** The state of the copy: [done] bytes of the wanted range [o0, o0 + n0) of the
    whole list [all] have been copied, and [start] is the length of the parts
    already visited, [pre]. *)
Definition copied (all : list Z) (o0 n0 : Z) (pre : list Z) (start offset len : Z) (out : list Z) : Prop :=
  start = Z.of_nat (length pre) ∧ 0 ≤ o0 ∧ 0 ≤ len ≤ n0 ∧ o0 + n0 ≤ Z.of_nat (length all) ∧
  offset = o0 + (n0 - len) ∧ start ≤ offset ∧ out = slice o0 (n0 - len) all.

Lemma slice_app_part (pre part rest : list Z) o n :
  Z.of_nat (length pre) ≤ o → 0 ≤ n → o + n ≤ Z.of_nat (length pre) + Z.of_nat (length part) →
  slice (o - Z.of_nat (length pre)) n part = slice o n (pre ++ part ++ rest).
Proof.
  intros Ho Hn Hle. unfold slice. rewrite drop_app_ge by lia.
  rewrite drop_app_le by lia. rewrite take_app_le by (rewrite length_drop; lia).
  do 2 f_equal. lia.
Qed.

Lemma slice_split o a b l : 0 ≤ o → 0 ≤ a → 0 ≤ b → slice o (a + b) l = slice o a l ++ slice (o + a) b l.
Proof.
  intros Ho Ha Hb. unfold slice. rewrite (Z2Nat.inj_add a b), (Z2Nat.inj_add o a) by lia.
  rewrite <- drop_drop. generalize (drop (Z.to_nat o) l). intros k.
  rewrite <- (take_drop (Z.to_nat a) k) at 1.
  destruct (decide (Z.to_nat a ≤ length k)%nat).
  - rewrite take_app_ge by (rewrite length_take; lia). rewrite length_take. do 2 f_equal. lia.
  - rewrite !(drop_ge k) by lia. rewrite !take_nil, !app_nil_r.
    rewrite take_take, !take_ge by lia. done.
Qed.

Lemma slice_nil o l : slice o 0 l = [].
Proof. done. Qed.

(** The length field is used by the loops only through [copy_part]: on a part
    that can deliver its bytes, [copy_part] keeps the invariant or finishes. *)
Lemma copy_part_spec all o0 n0 pre part rest fetch start offset len out :
  all = pre ++ part ++ rest →
  (∀ o n, 0 ≤ o → 0 ≤ n → o + n ≤ Z.of_nat (length part) → fetch o n = Bytes (slice o n part)) →
  copied all o0 n0 pre start offset len out →
  copy_part (Z.of_nat (length part)) fetch start offset len out = Return (Bytes (slice o0 n0 all)) ∨
  ∃ start' offset' len' out',
    copy_part (Z.of_nat (length part)) fetch start offset len out = Continue start' offset' len' out' ∧
    copied all o0 n0 (pre ++ part) start' offset' len' out'.
Proof.
  intros -> Hf (-> & Ho0 & Hlen & Hall & -> & Hst & ->). unfold copy_part.
  destruct (Z.ltb_spec 0 (Z.of_nat (length pre) + Z.of_nat (length part) - (o0 + (n0 - len)))) as [Hc|Hc].
  2:{ right. eexists _, _, _, _. split; [done|]. unfold copied. rewrite length_app. repeat split; try done; lia. }
  set (c := if len <? _ then len else _).
  assert (0 ≤ c ≤ len ∧ o0 + (n0 - len) + c ≤ Z.of_nat (length pre) + Z.of_nat (length part) ∧
          (c = len ∨ o0 + (n0 - len) + c = Z.of_nat (length pre) + Z.of_nat (length part))) as (Hc1 & Hc2 & Hc3).
  { subst c. destruct (Z.ltb_spec len (Z.of_nat (length pre) + Z.of_nat (length part) - (o0 + (n0 - len)))); lia. }
  clearbody c. rewrite Hf by lia. rewrite (slice_app_part pre part rest) by lia.
  rewrite <- slice_split by lia. replace (n0 - len + c) with (n0 - (len - c)) by lia.
  destruct (Z.eqb_spec (len - c) 0) as [->|Hne]; [left; do 2 f_equal; f_equal; lia|].
  right. eexists _, _, _, _. split; [done|].
  unfold copied. rewrite length_app. repeat split; try done; lia.
Qed.

Lemma frags_loop_spec all o0 n0 frags : ∀ pre rest start offset len out,
  all = pre ++ concat frags ++ rest →
  copied all o0 n0 pre start offset len out →
  frags_loop frags start offset len out = Return (Bytes (slice o0 n0 all)) ∨
  ∃ start' offset' len' out',
    frags_loop frags start offset len out = Continue start' offset' len' out' ∧
    copied all o0 n0 (pre ++ concat frags) start' offset' len' out'.
Proof.
  induction frags as [|f frags IH]; intros pre rest start offset len out Hall Hc; cbn [frags_loop concat].
  { right. rewrite app_nil_r. eauto 10. }
  cbn [concat] in Hall. rewrite <- app_assoc in Hall.
  destruct (copy_part_spec all o0 n0 pre f (concat frags ++ rest) (memcpy_from f) _ _ _ _ Hall
              (memcpy_from_ok f) Hc)
    as [->|(st' & of' & le' & ou' & -> & Hc')]; [by left|].
  rewrite app_assoc. eapply IH; [|done]. by rewrite Hall, <- !app_assoc.
Qed.

(** What the recursive call on a fragment list member promises. *)
Definition copies (s : sk_data) : Prop := ∀ o n,
  0 ≤ o → 0 ≤ n → o + n ≤ skb_len s → skb_copy_bits s o n = Bytes (slice o n (flatten s)).

Lemma list_loop_spec all o0 n0 l :
  Forall (λ x, skb_len x = Z.of_nat (length (flatten x)) ∧ copies x) l →
  ∀ pre rest start offset len out,
  all = pre ++ concat (map flatten l) ++ rest →
  copied all o0 n0 pre start offset len out →
  list_loop skb_copy_bits l start offset len out = Return (Bytes (slice o0 n0 all)) ∨
  ∃ start' offset' len' out',
    list_loop skb_copy_bits l start offset len out = Continue start' offset' len' out' ∧
    copied all o0 n0 (pre ++ concat (map flatten l)) start' offset' len' out'.
Proof.
  induction 1 as [|x l [Hlen Hx] Hl IH]; intros pre rest start offset len out Hall Hc; cbn [list_loop concat map].
  { right. rewrite app_nil_r. eauto 10. }
  cbn [concat map] in Hall. rewrite <- app_assoc in Hall. rewrite Hlen.
  destruct (copy_part_spec all o0 n0 pre (flatten x) (concat (map flatten l) ++ rest) (skb_copy_bits x)
              start offset len out Hall) as [->|(st' & of' & le' & ou' & -> & Hc')]; [|done|by left|].
  { intros o n Ho Hn Hle. apply Hx; lia. }
  rewrite app_assoc. eapply IH; [|done]. by rewrite Hall, <- !app_assoc.
Qed.

(** One level: the copy is right when it is right for the members of the
    fragment list. *)
Lemma skb_copy_bits_level s :
  skb_len s = Z.of_nat (length (flatten s)) →
  Forall (λ x, skb_len x = Z.of_nat (length (flatten x)) ∧ copies x) (skb_frag_list s) →
  copies s.
Proof.
  intros Hlen Hl o n Ho Hn Hle. destruct s as [sl lin fr fl]. cbn [skb_len skb_frag_list] in *.
  cbn [skb_copy_bits skb_len skb_linear skb_frags skb_frag_list]. rewrite (proj2 (Z.ltb_ge _ _)) by lia.
  unfold skb_headlen. cbn [skb_linear].
  set (all := flatten (SkData sl lin fr fl)).
  assert (Hall : all = [] ++ lin ++ concat fr ++ concat (map flatten fl)) by done.
  assert (Hc : copied all o n [] 0 o n []).
  { unfold copied. rewrite Z.sub_diag, slice_nil. cbn [length]. repeat split; try lia. subst all. lia. }
  destruct (copy_part_spec all o n [] lin (concat fr ++ concat (map flatten fl)) (memcpy_from lin)
              _ _ _ _ Hall (memcpy_from_ok lin) Hc) as [->|(st & ofs & le & ou & -> & Hc1)]; [done|].
  destruct (frags_loop_spec all o n fr ([] ++ lin) (concat (map flatten fl)) st ofs le ou)
    as [->|(st2 & of2 & le2 & ou2 & -> & Hc2)]; [done..|].
  destruct (list_loop_spec all o n fl Hl (([] ++ lin) ++ concat fr) [] st2 of2 le2 ou2)
    as [->|(st3 & of3 & le3 & ou3 & -> & Hc3)]; [by rewrite app_nil_r, <- app_assoc|done|done|].
  destruct Hc3 as (-> & _ & Hle3 & Hr & Hof & Hst & ->).
  assert (le3 = 0) as ->.
  { replace (length ((([] ++ lin) ++ concat fr) ++ concat (map flatten fl))) with (length all) in Hst;
      [lia|]. by rewrite Hall, <- !app_assoc. }
  rewrite Z.eqb_refl. do 2 f_equal. lia.
Qed.

Lemma skb_wf_copies s : skb_wf s → skb_len s = Z.of_nat (length (flatten s)) ∧ copies s.
Proof.
  revert s. fix IH 1. intros s Hs.
  enough (Forall (λ x, skb_len x = Z.of_nat (length (flatten x)) ∧ copies x) (skb_frag_list s) ∧
          skb_len s = Z.of_nat (length (flatten s))) as [H1 H2] by (split; [|apply skb_copy_bits_level]; done).
  destruct s as [sl lin fr fl]. cbn [skb_frag_list skb_wf] in *. destruct Hs as [Hlen Hl]. split; [|done].
  clear Hlen. revert fl Hl. fix IHl 1. intros [|x fl] Hl; [constructor|].
  destruct Hl as [Hx Hl]. constructor; [apply IH, Hx|apply IHl, Hl].
Qed.

(** ** What the packet accessors deliver *)

Definition packet_bytes (s : sk_data) (offset len : Z) : copy_result :=
  if offset + len <=? Z.of_nat (length (flatten s)) then Bytes (slice offset len (flatten s)) else Efault.

Lemma skb_copy_bits_bytes s offset len :
  skb_wf s → 0 ≤ offset → 0 ≤ len → skb_copy_bits s offset len = packet_bytes s offset len.
Proof.
  intros [Hlen Hc]%skb_wf_copies Ho Hl. unfold packet_bytes.
  destruct (Z.leb_spec (offset + len) (Z.of_nat (length (flatten s)))) as [H|H]; [apply Hc; lia|].
  destruct s as [sl lin fr fl]. cbn [skb_copy_bits]. rewrite (proj2 (Z.ltb_lt _ _)); [done|].
  revert Hlen. cbn [skb_len]. lia.
Qed.

Lemma skb_header_pointer_bytes s offset len :
  skb_wf s → 0 ≤ offset → 0 ≤ len → skb_header_pointer s offset len = packet_bytes s offset len.
Proof.
  intros Hs Ho Hl. unfold skb_header_pointer.
  destruct (Z.leb_spec len (skb_headlen s - offset)) as [H|H]; [|by apply skb_copy_bits_bytes].
  unfold skb_headlen in H. rewrite memcpy_from_ok by lia.
  destruct s as [sl lin fr fl]. cbn [skb_linear] in *. unfold packet_bytes. cbn [flatten skb_linear].
  rewrite (proj2 (Z.leb_le _ _)) by (rewrite length_app; lia). f_equal.
  etrans; [|apply (slice_app_part [] lin); cbn [length]; lia]. cbn [length]. f_equal. lia.
Qed.

(** C11: On a packet whose length fields are right, however it is split into a
    linear part, page fragments and chained packets (to any depth), both
    [skb_copy_bits] and [skb_header_pointer] return exactly the bytes at the
    offset of the flattened packet when the range lies inside it and fail
    otherwise, and neither touches memory outside the parts. *)
Theorem packet_access_exact s offset len :
  skb_wf s → 0 ≤ offset → 0 ≤ len →
  skb_copy_bits s offset len = packet_bytes s offset len ∧
  skb_header_pointer s offset len = packet_bytes s offset len.
Proof. auto using skb_copy_bits_bytes, skb_header_pointer_bytes. Qed.

Lemma packet_access_exact_witness :
  let s := SkData 7 [1; 2] [[3]; []] [SkData 3 [4] [[5; 6]] []; SkData 1 [] [[7]] []] in
  skb_copy_bits s 1 5 = Bytes [2; 3; 4; 5; 6] ∧ skb_header_pointer s 5 3 = Efault.
Proof.
  intros s. assert (Hs : skb_wf s) by (vm_compute; tauto).
  split.
  - replace (Bytes [2; 3; 4; 5; 6]) with (packet_bytes s 1 5) by (vm_compute; reflexivity).
    apply (packet_access_exact s 1 5 Hs); lia.
  - replace Efault with (packet_bytes s 5 3) by (vm_compute; reflexivity).
    apply (packet_access_exact s 5 3 Hs); lia.
Defined.
