(* ===== verification/Filter.v ===== *)
(** The socket filter machine (src/src/linux26/net/core/filter.c): the
    interpreter [sk_run_filter], the verifier [sk_chk_filter] and
    [sk_attach_filter], which installs only verified programs, with
    [sock_kmalloc], [sock_kfree_s] (sock.c) and [sk_filter_release] (sock.h).

    The interpreter reports every access outside the program, the scratch
    memory or the packet buffer, a division by zero and an unknown opcode as a
    fault, so that the verifier's promise can be stated as the absence of
    faults. *)

From S2P Require Import Prelude Kit Skb.

(** ** Opcodes (include/linux26/linux/filter.h) *)

Definition BPF_LD : Z := 0x00.
Definition BPF_LDX : Z := 0x01.
Definition BPF_ST : Z := 0x02.
Definition BPF_STX : Z := 0x03.
Definition BPF_ALU : Z := 0x04.
Definition BPF_JMP : Z := 0x05.
Definition BPF_RET : Z := 0x06.
Definition BPF_MISC : Z := 0x07.
Definition BPF_W : Z := 0x00.
Definition BPF_H : Z := 0x08.
Definition BPF_B : Z := 0x10.
Definition BPF_IMM : Z := 0x00.
Definition BPF_ABS : Z := 0x20.
Definition BPF_IND : Z := 0x40.
Definition BPF_MEM : Z := 0x60.
Definition BPF_LEN : Z := 0x80.
Definition BPF_MSH : Z := 0xa0.
Definition BPF_ADD : Z := 0x00.
Definition BPF_SUB : Z := 0x10.
Definition BPF_MUL : Z := 0x20.
Definition BPF_DIV : Z := 0x30.
Definition BPF_OR : Z := 0x40.
Definition BPF_AND : Z := 0x50.
Definition BPF_LSH : Z := 0x60.
Definition BPF_RSH : Z := 0x70.
Definition BPF_NEG : Z := 0x80.
Definition BPF_JA : Z := 0x00.
Definition BPF_JEQ : Z := 0x10.
Definition BPF_JGT : Z := 0x20.
Definition BPF_JGE : Z := 0x30.
Definition BPF_JSET : Z := 0x40.
Definition BPF_K : Z := 0x00.
Definition BPF_X : Z := 0x08.
Definition BPF_A : Z := 0x10.
Definition BPF_TAX : Z := 0x00.
Definition BPF_TXA : Z := 0x80.
Definition BPF_MAXINSNS : Z := 4096.
Definition BPF_MEMWORDS : Z := 16.
Definition SKF_AD_OFF : Z := -0x1000.
Definition SKF_AD_PROTOCOL : Z := 0.
Definition SKF_AD_PKTTYPE : Z := 4.
Definition SKF_AD_IFINDEX : Z := 8.
Definition SKF_NET_OFF : Z := -0x100000.
Definition SKF_LL_OFF : Z := -0x200000.
Definition BPF_CLASS (code : Z) : Z := Z.land code 0x07.

Definition bor (l : list Z) : Z := foldr Z.lor 0 l.

(** [struct sock_filter] *)
Record sock_filter := SockFilter { code : Z; jt : Z; jf : Z; k : Z }.

(** ** The packet as the filter sees it

    [sb_buf] is the memory block that starts at [skb->head]; [data], [tail],
    [nh.raw] and [mac.raw] are offsets into it. *)
Record sk_buff := SkBuff {
  sb_buf : list Z;
  sb_data : Z;
  sb_tail : Z;
  sb_nh : Z;
  sb_mac : Z;
  sb_frags : list (list Z);
  sb_frag_list : list sk_data;
  sb_len : Z;
  sb_protocol : Z;                 (* ntohs(skb->protocol) *)
  sb_pkt_type : Z;
  sb_ifindex : option Z;           (* None: skb->dev is NULL *)
}.

Definition sb_packet (s : sk_buff) : sk_data :=
  SkData (sb_len s) (slice (sb_data s) (sb_tail s - sb_data s) (sb_buf s)) (sb_frags s) (sb_frag_list s).

(** The pointer [__load_pointer] returns, as an offset from [skb->head]. *)
Definition __load_pointer (s : sk_buff) (k : Z) : option Z :=
  let ptr :=
    if SKF_NET_OFF <=? k then Some (sb_nh s + k - SKF_NET_OFF)
    else if SKF_LL_OFF <=? k then Some (sb_mac s + k - SKF_LL_OFF)
    else None in
  match ptr with
  | Some p => if (0 <=? p) && (p <? sb_tail s) then Some p else None
  | None => None
  end.

(** [load_pointer], together with the read of [size] bytes through the pointer
    it returns: [Efault] is the NULL pointer. *)
Definition load_pointer (s : sk_buff) (k size : Z) : copy_result :=
  if 0 <=? k then skb_header_pointer (sb_packet s) k size
  else if SKF_AD_OFF <=? k then Efault
  else match __load_pointer s k with
       | Some p => memcpy_from (sb_buf s) p size
       | None => Efault
       end.

(** [ntohl], [ntohs] of the bytes in memory order. *)
Definition be (bs : list Z) : Z := fold_left (λ a b, 256 * a + b) bs 0.

(** ** The interpreter *)

Inductive src := SrcX | SrcK.
Inductive alu := Add | Sub | Mul | Div | And | Or | Lsh | Rsh.
Inductive cond := Jgt | Jge | Jeq | Jset.
Inductive width := W | H | B.

(** The branches of the switch in [sk_run_filter]. *)
Inductive branch :=
| Alu (o : alu) (x : src)
| Neg
| Ja
| Jcc (c : cond) (x : src)
| LdAbs (z : width)
| LdLen
| LdxLen
| LdInd (z : width)
| LdxMsh
| LdImm
| LdxImm
| LdMem
| LdxMem
| Tax
| Txa
| RetK
| RetA
| St
| Stx.

(** The case labels of the switch, in the order of the code. *)
Definition run_cases : list (Z * branch) :=
  [ (bor [BPF_ALU; BPF_ADD; BPF_X], Alu Add SrcX);
    (bor [BPF_ALU; BPF_ADD; BPF_K], Alu Add SrcK);
    (bor [BPF_ALU; BPF_SUB; BPF_X], Alu Sub SrcX);
    (bor [BPF_ALU; BPF_SUB; BPF_K], Alu Sub SrcK);
    (bor [BPF_ALU; BPF_MUL; BPF_X], Alu Mul SrcX);
    (bor [BPF_ALU; BPF_MUL; BPF_K], Alu Mul SrcK);
    (bor [BPF_ALU; BPF_DIV; BPF_X], Alu Div SrcX);
    (bor [BPF_ALU; BPF_DIV; BPF_K], Alu Div SrcK);
    (bor [BPF_ALU; BPF_AND; BPF_X], Alu And SrcX);
    (bor [BPF_ALU; BPF_AND; BPF_K], Alu And SrcK);
    (bor [BPF_ALU; BPF_OR; BPF_X], Alu Or SrcX);
    (bor [BPF_ALU; BPF_OR; BPF_K], Alu Or SrcK);
    (bor [BPF_ALU; BPF_LSH; BPF_X], Alu Lsh SrcX);
    (bor [BPF_ALU; BPF_LSH; BPF_K], Alu Lsh SrcK);
    (bor [BPF_ALU; BPF_RSH; BPF_X], Alu Rsh SrcX);
    (bor [BPF_ALU; BPF_RSH; BPF_K], Alu Rsh SrcK);
    (bor [BPF_ALU; BPF_NEG], Neg);
    (bor [BPF_JMP; BPF_JA], Ja);
    (bor [BPF_JMP; BPF_JGT; BPF_K], Jcc Jgt SrcK);
    (bor [BPF_JMP; BPF_JGE; BPF_K], Jcc Jge SrcK);
    (bor [BPF_JMP; BPF_JEQ; BPF_K], Jcc Jeq SrcK);
    (bor [BPF_JMP; BPF_JSET; BPF_K], Jcc Jset SrcK);
    (bor [BPF_JMP; BPF_JGT; BPF_X], Jcc Jgt SrcX);
    (bor [BPF_JMP; BPF_JGE; BPF_X], Jcc Jge SrcX);
    (bor [BPF_JMP; BPF_JEQ; BPF_X], Jcc Jeq SrcX);
    (bor [BPF_JMP; BPF_JSET; BPF_X], Jcc Jset SrcX);
    (bor [BPF_LD; BPF_W; BPF_ABS], LdAbs W);
    (bor [BPF_LD; BPF_H; BPF_ABS], LdAbs H);
    (bor [BPF_LD; BPF_B; BPF_ABS], LdAbs B);
    (bor [BPF_LD; BPF_W; BPF_LEN], LdLen);
    (bor [BPF_LDX; BPF_W; BPF_LEN], LdxLen);
    (bor [BPF_LD; BPF_W; BPF_IND], LdInd W);
    (bor [BPF_LD; BPF_H; BPF_IND], LdInd H);
    (bor [BPF_LD; BPF_B; BPF_IND], LdInd B);
    (bor [BPF_LDX; BPF_B; BPF_MSH], LdxMsh);
    (bor [BPF_LD; BPF_IMM], LdImm);
    (bor [BPF_LDX; BPF_IMM], LdxImm);
    (bor [BPF_LD; BPF_MEM], LdMem);
    (bor [BPF_LDX; BPF_MEM], LdxMem);
    (bor [BPF_MISC; BPF_TAX], Tax);
    (bor [BPF_MISC; BPF_TXA], Txa);
    (bor [BPF_RET; BPF_K], RetK);
    (bor [BPF_RET; BPF_A], RetA);
    (BPF_ST, St);
    (BPF_STX, Stx) ].

Definition switch {B} (cases : list (Z * B)) (c : Z) : option B :=
  snd <$> List.find (λ p, fst p =? c) cases.

Inductive filter_fault := BadPc | BadMem | DivByZero | BadOpcode | BadPacket | NullDev.

Inductive run_result :=
| Returned (v : Z)
| Crash (f : filter_fault)
| OutOfFuel.

(** The locals of the loop: [pc] (before the loop's increment), [A], [X] and
    the scratch memory. *)
Inductive step_result :=
| Next (pc A X : Z) (mem : list Z)
| Stop (r : run_result).

Definition width_bytes (z : width) : Z := match z with W => 4 | H => 2 | B => 1 end.

(** [A op= v].  The shift count is taken modulo 32, as the i386 shift
    instructions do; C leaves larger counts undefined. *)
Definition alu_op (o : alu) (a v : Z) : Z :=
  match o with
  | Add => u32 (a + v)
  | Sub => u32 (a - v)
  | Mul => u32 (a * v)
  | Div => a / v
  | And => Z.land a v
  | Or => Z.lor a v
  | Lsh => u32 (Z.shiftl a (v mod 32))
  | Rsh => Z.shiftr a (v mod 32)
  end.

Definition cond_holds (c : cond) (a v : Z) : bool :=
  match c with
  | Jgt => v <? a
  | Jge => v <=? a
  | Jeq => a =? v
  | Jset => negb (Z.land a v =? 0)
  end.

(** The second switch: ancillary data. *)
Definition ancillary (s : sk_buff) (k pc X : Z) (mem : list Z) : step_result :=
  let w := s32 (k - SKF_AD_OFF) in
  if w =? SKF_AD_PROTOCOL then Next pc (sb_protocol s) X mem
  else if w =? SKF_AD_PKTTYPE then Next pc (sb_pkt_type s) X mem
  else if w =? SKF_AD_IFINDEX then
    match sb_ifindex s with Some i => Next pc (u32 i) X mem | None => Stop (Crash NullDev) end
  else Stop (Returned 0).

(** The labels load_w, load_h and load_b. *)
Definition load (s : sk_buff) (z : width) (k pc X : Z) (mem : list Z) : step_result :=
  match load_pointer s k (width_bytes z) with
  | Bytes bs => Next pc (be bs) X mem
  | Efault => ancillary s k pc X mem
  | Wild => Stop (Crash BadPacket)
  end.

Definition run_branch (s : sk_buff) (b : branch) (f : sock_filter) (pc A X : Z) (mem : list Z) : step_result :=
  let operand x := match x with SrcX => X | SrcK => k f end in
  match b with
  | Alu Div SrcX => if X =? 0 then Stop (Returned 0) else Next pc (A / X) X mem
  | Alu Div SrcK => if k f =? 0 then Stop (Crash DivByZero) else Next pc (A / k f) X mem
  | Alu o x => Next pc (alu_op o A (operand x)) X mem
  | Neg => Next pc (u32 (- A)) X mem
  | Ja => Next (s32 (pc + k f)) A X mem
  | Jcc c x => Next (pc + if cond_holds c A (operand x) then jt f else jf f) A X mem
  | LdAbs z => load s z (s32 (k f)) pc X mem
  | LdLen => Next pc (sb_len s) X mem
  | LdxLen => Next pc A (sb_len s) mem
  | LdInd z => load s z (s32 (X + k f)) pc X mem
  | LdxMsh =>
      match load_pointer s (s32 (k f)) 1 with
      | Bytes bs => Next pc A (Z.shiftl (Z.land (be bs) 0xf) 2) mem
      | Efault => Stop (Returned 0)
      | Wild => Stop (Crash BadPacket)
      end
  | LdImm => Next pc (k f) X mem
  | LdxImm => Next pc A (k f) mem
  | LdMem => match mem !! Z.to_nat (k f) with Some v => Next pc v X mem | None => Stop (Crash BadMem) end
  | LdxMem => match mem !! Z.to_nat (k f) with Some v => Next pc A v mem | None => Stop (Crash BadMem) end
  | Tax => Next pc A A mem
  | Txa => Next pc X X mem
  | RetK => Stop (Returned (k f))
  | RetA => Stop (Returned A)
  | St => if k f <? Z.of_nat (length mem) then Next pc A X (<[Z.to_nat (k f) := A]> mem) else Stop (Crash BadMem)
  | Stx => if k f <? Z.of_nat (length mem) then Next pc A X (<[Z.to_nat (k f) := X]> mem) else Stop (Crash BadMem)
  end.

(** One iteration of the loop body; the default branch is [WARN_ON(1)]. *)
Definition run_insn (s : sk_buff) (filter : list sock_filter) (pc A X : Z) (mem : list Z) : step_result :=
  if pc <? 0 then Stop (Crash BadPc) else
  match filter !! Z.to_nat pc with
  | None => Stop (Crash BadPc)
  | Some f =>
      match switch run_cases (code f) with
      | Some b => run_branch s b f pc A X mem
      | None => Stop (Crash BadOpcode)
      end
  end.

(** The loop [for (pc = 0; pc < flen; pc++)]. *)
Fixpoint run_loop (fuel : nat) (s : sk_buff) (filter : list sock_filter) (flen pc A X : Z) (mem : list Z) :
    run_result :=
  if pc <? flen then
    match fuel with
    | O => OutOfFuel
    | S fuel =>
        match run_insn s filter pc A X mem with
        | Stop r => r
        | Next pc A X mem => run_loop fuel s filter flen (pc + 1) A X mem
        end
    end
  else Returned 0.

(** [mem0] is what the uninitialised array [mem] happens to hold. *)
Definition sk_run_filter (fuel : nat) (mem0 : list Z) (s : sk_buff) (filter : list sock_filter) (flen : Z) : run_result :=
  run_loop fuel s filter flen 0 0 0 mem0.

(** ** The verifier *)

(** The groups of case labels in [sk_chk_filter]. *)
Inductive check := Plain | CheckDiv | CheckMem | CheckJa | CheckCond.

Definition chk_cases : list (Z * check) :=
  [ (bor [BPF_ALU; BPF_ADD; BPF_K], Plain);
    (bor [BPF_ALU; BPF_ADD; BPF_X], Plain);
    (bor [BPF_ALU; BPF_SUB; BPF_K], Plain);
    (bor [BPF_ALU; BPF_SUB; BPF_X], Plain);
    (bor [BPF_ALU; BPF_MUL; BPF_K], Plain);
    (bor [BPF_ALU; BPF_MUL; BPF_X], Plain);
    (bor [BPF_ALU; BPF_DIV; BPF_X], Plain);
    (bor [BPF_ALU; BPF_AND; BPF_K], Plain);
    (bor [BPF_ALU; BPF_AND; BPF_X], Plain);
    (bor [BPF_ALU; BPF_OR; BPF_K], Plain);
    (bor [BPF_ALU; BPF_OR; BPF_X], Plain);
    (bor [BPF_ALU; BPF_LSH; BPF_K], Plain);
    (bor [BPF_ALU; BPF_LSH; BPF_X], Plain);
    (bor [BPF_ALU; BPF_RSH; BPF_K], Plain);
    (bor [BPF_ALU; BPF_RSH; BPF_X], Plain);
    (bor [BPF_ALU; BPF_NEG], Plain);
    (bor [BPF_LD; BPF_W; BPF_ABS], Plain);
    (bor [BPF_LD; BPF_H; BPF_ABS], Plain);
    (bor [BPF_LD; BPF_B; BPF_ABS], Plain);
    (bor [BPF_LD; BPF_W; BPF_LEN], Plain);
    (bor [BPF_LD; BPF_W; BPF_IND], Plain);
    (bor [BPF_LD; BPF_H; BPF_IND], Plain);
    (bor [BPF_LD; BPF_B; BPF_IND], Plain);
    (bor [BPF_LD; BPF_IMM], Plain);
    (bor [BPF_LDX; BPF_W; BPF_LEN], Plain);
    (bor [BPF_LDX; BPF_B; BPF_MSH], Plain);
    (bor [BPF_LDX; BPF_IMM], Plain);
    (bor [BPF_MISC; BPF_TAX], Plain);
    (bor [BPF_MISC; BPF_TXA], Plain);
    (bor [BPF_RET; BPF_K], Plain);
    (bor [BPF_RET; BPF_A], Plain);
    (bor [BPF_ALU; BPF_DIV; BPF_K], CheckDiv);
    (bor [BPF_LD; BPF_MEM], CheckMem);
    (bor [BPF_LDX; BPF_MEM], CheckMem);
    (BPF_ST, CheckMem);
    (BPF_STX, CheckMem);
    (bor [BPF_JMP; BPF_JA], CheckJa);
    (bor [BPF_JMP; BPF_JEQ; BPF_K], CheckCond);
    (bor [BPF_JMP; BPF_JEQ; BPF_X], CheckCond);
    (bor [BPF_JMP; BPF_JGE; BPF_K], CheckCond);
    (bor [BPF_JMP; BPF_JGE; BPF_X], CheckCond);
    (bor [BPF_JMP; BPF_JGT; BPF_K], CheckCond);
    (bor [BPF_JMP; BPF_JGT; BPF_X], CheckCond);
    (bor [BPF_JMP; BPF_JSET; BPF_K], CheckCond);
    (bor [BPF_JMP; BPF_JSET; BPF_X], CheckCond) ].

(** The body of the loop: [false] is [return -EINVAL]. *)
Definition chk_insn (f : sock_filter) (pc flen : Z) : bool :=
  match switch chk_cases (code f) with
  | Some Plain => true
  | Some CheckDiv => negb (k f =? 0)
  | Some CheckMem => negb (BPF_MEMWORDS <=? k f)
  | Some CheckJa => negb (u32 (flen - pc - 1) <=? k f)
  | Some CheckCond => negb ((flen <=? pc + jt f + 1) || (flen <=? pc + jf f + 1))
  | None => false
  end.

Fixpoint chk_loop (fs : list sock_filter) (pc flen : Z) : bool :=
  match fs with
  | [] => true
  | f :: fs => chk_insn f pc flen && chk_loop fs (pc + 1) flen
  end.

(** [filter] holds [flen] instructions. *)
Definition sk_chk_filter (filter : list sock_filter) (flen : Z) : Z :=
  if (flen =? 0) || (BPF_MAXINSNS <? flen) then - EINVAL
  else if negb (chk_loop (take (Z.to_nat flen) filter) 0 flen) then - EINVAL
  else match filter !! Z.to_nat (flen - 1) with
       | Some f => if BPF_CLASS (code f) =? BPF_RET then 0 else - EINVAL
       | None => - EINVAL
       end.

(** ** The verifier's promise *)

(** The fields at their widths. *)
Definition insn_ok (f : sock_filter) : Prop :=
  0 ≤ code f < 2 ^ 16 ∧ 0 ≤ jt f < 2 ^ 8 ∧ 0 ≤ jf f < 2 ^ 8 ∧ 0 ≤ k f < 2 ^ 32.

Definition is_byte (b : Z) : Prop := 0 ≤ b < 256.

(** The packets the stack hands to a filter: the pointers are ordered, the
    length fields are right and the device is set.  The shared info that
    follows the buffer keeps three bytes after [tail] inside the block. *)
Record packet_ok (s : sk_buff) : Prop := {
  pk_order : 0 ≤ sb_data s ≤ sb_tail s;
  pk_end : sb_tail s + 3 ≤ Z.of_nat (length (sb_buf s));
  pk_wf : skb_wf (sb_packet s);
  pk_len : sb_len s < 2 ^ 31;
  pk_buf : Forall is_byte (sb_buf s);
  pk_bytes : Forall is_byte (flatten (sb_packet s));
  pk_protocol : 0 ≤ sb_protocol s < 2 ^ 16;
  pk_type : 0 ≤ sb_pkt_type s < 8;
  pk_dev : is_Some (sb_ifindex s);
}.

Definition is_u32 (v : Z) : Prop := 0 ≤ v < 2 ^ 32.

Definition mem_ok (mem : list Z) : Prop := Z.of_nat (length mem) = BPF_MEMWORDS ∧ Forall is_u32 mem.

(** What a step of a verified program may do. *)
Definition step_ok (flen pc : Z) (r : step_result) : Prop :=
  match r with
  | Next pc' A X mem => pc ≤ pc' ∧ (pc' = pc ∨ pc' + 1 < flen) ∧ is_u32 A ∧ is_u32 X ∧ mem_ok mem
  | Stop (Returned v) => is_u32 v
  | Stop _ => False
  end.

Definition check_of (b : branch) : check :=
  match b with
  | Alu Div SrcK => CheckDiv
  | LdMem | LdxMem | St | Stx => CheckMem
  | Ja => CheckJa
  | Jcc _ _ => CheckCond
  | _ => Plain
  end.

#[export] Instance check_eq_dec : EqDecision check.
Proof. solve_decision. Defined.

Lemma switch_In {B} (cases : list (Z * B)) c b : switch cases c = Some b → In (c, b) cases.
Proof.
  unfold switch. destruct (List.find _ cases) as [[c' b']|] eqn:Hf; cbn; [|done]. intros [= <-].
  apply List.find_some in Hf as [Hin Heq]. cbn in Heq. apply Z.eqb_eq in Heq as ->. done.
Qed.

(** Every opcode the verifier lets through is an opcode of the interpreter,
    with the check that its branch needs. *)
Lemma chk_run_agree c x :
  switch chk_cases c = Some x → ∃ b, switch run_cases c = Some b ∧ check_of b = x.
Proof.
  intros Hin%switch_In.
  assert (Hall : forallb (λ p, match switch run_cases (fst p) with
                               | Some b => bool_decide (check_of b = snd p) | None => false end) chk_cases = true)
    by (vm_compute; reflexivity).
  rewrite forallb_forall in Hall. specialize (Hall _ Hin). cbn [fst snd] in Hall.
  destruct (switch run_cases c) as [b|]; [|done]. apply bool_decide_eq_true in Hall. eauto.
Qed.

Lemma be_range bs : Forall is_byte bs → 0 ≤ be bs < 256 ^ Z.of_nat (length bs).
Proof.
  unfold be. induction bs as [|b bs IH] using rev_ind; intros Hb; [cbn; lia|].
  apply list.Forall_app in Hb as [Hbs Hb]. apply list.Forall_cons in Hb as [Hb _]. specialize (IH Hbs).
  rewrite fold_left_app, length_app. cbn [fold_left length]. rewrite Nat2Z.inj_add, Z.pow_add_r by lia.
  unfold is_byte in Hb. change (256 ^ Z.of_nat 1) with 256. lia.
Qed.

Lemma slice_bytes o n l : Forall is_byte l → Forall is_byte (slice o n l).
Proof. intros. unfold slice. by apply list.Forall_take, list.Forall_drop. Qed.

Lemma load_pointer_ok s kk n :
  packet_ok s → - 2 ^ 31 ≤ kk < 2 ^ 31 → 1 ≤ n ≤ 4 →
  load_pointer s kk n = Efault ∨
  ∃ bs, load_pointer s kk n = Bytes bs ∧ Forall is_byte bs ∧ Z.of_nat (length bs) = n.
Proof.
  intros Hs Hk Hn. unfold load_pointer. destruct (Z.leb_spec 0 kk).
  - rewrite skb_header_pointer_bytes by (try apply Hs; lia). unfold packet_bytes.
    destruct (Z.leb_spec (kk + n) (Z.of_nat (length (flatten (sb_packet s))))); [right|by left].
    eexists. split; [done|]. split; [apply slice_bytes, Hs|]. rewrite slice_length; lia.
  - destruct (SKF_AD_OFF <=? kk); [by left|].
    destruct (__load_pointer s kk) as [p|] eqn:Hp; [right|by left].
    assert (0 ≤ p < sb_tail s).
    { unfold __load_pointer in Hp. repeat case_match; simplify_eq; bool_solve; lia. }
    pose proof (pk_end s Hs). rewrite memcpy_from_ok by lia.
    eexists. split; [done|]. split; [apply slice_bytes, Hs|]. rewrite slice_length; lia.
Qed.

Lemma be_u32 bs n : Forall is_byte bs → Z.of_nat (length bs) = n → n ≤ 4 → is_u32 (be bs).
Proof.
  intros Hb Hl Hn. pose proof (be_range bs Hb) as Hr. unfold is_u32.
  assert (256 ^ Z.of_nat (length bs) ≤ 256 ^ 4) by (apply Z.pow_le_mono_r; lia).
  change (256 ^ 4) with (2 ^ 32) in *. lia.
Qed.

Lemma u32_is_u32 v : is_u32 (u32 v).
Proof. apply u32_range. Qed.

Lemma sb_len_u32 s : packet_ok s → is_u32 (sb_len s).
Proof.
  intros Hs. pose proof (pk_len s Hs). destruct (skb_wf_copies _ (pk_wf s Hs)) as [Hl _].
  cbn [skb_len sb_packet] in Hl. unfold is_u32. lia.
Qed.

Lemma land_u32 a v : is_u32 a → is_u32 v → is_u32 (Z.land a v).
Proof.
  intros [Ha Ha'] [Hv _]. unfold is_u32. assert (0 ≤ Z.land a v) by (apply Z.land_nonneg; lia).
  split; [done|]. destruct (decide (Z.land a v = 0)) as [->|]; [lia|].
  apply Z.log2_lt_pow2; [lia|]. pose proof (Z.log2_land a v Ha Hv).
  destruct (decide (a = 0)) as [->|]; [by rewrite Z.land_0_l in *|].
  assert (Z.log2 a < 32) by (apply Z.log2_lt_pow2; lia). lia.
Qed.

Lemma alu_op_u32 o a v : is_u32 a → is_u32 v → (o = Div → v ≠ 0) → is_u32 (alu_op o a v).
Proof.
  intros Ha Hv Hd. destruct o; cbn [alu_op]; try apply u32_is_u32; unfold is_u32 in *.
  - specialize (Hd eq_refl). split; [apply Z.div_pos; lia|]. apply Z.div_lt_upper_bound; [lia|]. nia.
  - by apply land_u32.
  - by apply lor_range.
  - rewrite Z.shiftr_div_pow2 by (apply Z.mod_pos_bound; lia).
    assert (0 < 2 ^ (v mod 32)) by (apply Z.pow_pos_nonneg; [lia|apply Z.mod_pos_bound; lia]).
    split; [apply Z.div_pos; lia|]. apply Z.div_lt_upper_bound; [lia|]. nia.
Qed.

Section safe_step.
  Context (s : sk_buff) (flen pc : Z) (Hs : packet_ok s).

Lemma next_ok A X mem : is_u32 A → is_u32 X → mem_ok mem → step_ok flen pc (Next pc A X mem).
Proof. unfold step_ok. auto with lia. Qed.

Lemma ancillary_ok kk X mem : is_u32 X → mem_ok mem → step_ok flen pc (ancillary s kk pc X mem).
Proof.
  intros HX Hm. unfold ancillary. destruct (pk_dev s Hs) as [i ->].
  pose proof (pk_protocol s Hs). pose proof (pk_type s Hs).
  repeat case_match; [apply next_ok; auto; unfold is_u32; lia..|apply next_ok; auto using u32_is_u32|].
  cbn. unfold is_u32. lia.
Qed.

Lemma load_ok z kk X mem :
  - 2 ^ 31 ≤ kk < 2 ^ 31 → is_u32 X → mem_ok mem → step_ok flen pc (load s z kk pc X mem).
Proof.
  intros Hk HX Hm. unfold load. assert (1 ≤ width_bytes z ≤ 4) by (destruct z; cbn; lia).
  destruct (load_pointer_ok s kk (width_bytes z)) as [->|(bs & -> & Hb & Hl)]; [done..| |].
  - by apply ancillary_ok.
  - apply next_ok; auto. eapply be_u32; [done..|lia].
Qed.

Lemma mem_lookup_ok mem kk : mem_ok mem → 0 ≤ kk < BPF_MEMWORDS → ∃ v, mem !! Z.to_nat kk = Some v ∧ is_u32 v.
Proof.
  intros [Hl Hall] Hk. destruct (lookup_lt_is_Some_2 mem (Z.to_nat kk)) as [v Hv]; [lia|].
  exists v. split; [done|]. eapply list.Forall_lookup_1; done.
Qed.

Lemma mem_insert_ok mem i v : mem_ok mem → is_u32 v → mem_ok (<[i:=v]> mem).
Proof. intros [Hl Hall] Hv. split; [by rewrite length_insert|]. by apply list.Forall_insert. Qed.

Lemma run_branch_ok f b A X mem :
  insn_ok f → 0 ≤ pc < flen → flen ≤ BPF_MAXINSNS → is_u32 A → is_u32 X → mem_ok mem →
  switch chk_cases (code f) = Some (check_of b) → chk_insn f pc flen = true →
  step_ok flen pc (run_branch s b f pc A X mem).
Proof.
  intros (_ & Hjt & Hjf & Hk) Hpc Hfl HA HX Hm Hc Hchk. unfold chk_insn in Hchk. rewrite Hc in Hchk.
  unfold BPF_MAXINSNS in *.
  assert (HkU : is_u32 (k f)) by done. assert (Hop : ∀ x, is_u32 (match x with SrcX => X | SrcK => k f end)) by (by intros []).
  assert (Hjmp : ∀ o, 0 ≤ o → pc + o + 1 < flen → step_ok flen pc (Next (pc + o) A X mem)).
  { intros o Ho Hlt. unfold step_ok. split; [lia|]. split; [right; lia|auto]. }
  destruct b as [o x| | |c x|z| | |z| | | | | | | | | | |]; cbn [check_of] in Hchk; cbn [run_branch];
    auto using next_ok, sb_len_u32, load_ok, s32_range, u32_is_u32.
  - destruct o, x; cbn [check_of] in Hchk; try (apply next_ok; auto; apply alu_op_u32; auto; done).
    + destruct (Z.eqb_spec X 0); [cbn; unfold is_u32; lia|]. apply next_ok; auto. by apply (alu_op_u32 Div).
    + destruct (Z.eqb_spec (k f) 0); [done|]. apply next_ok; auto. by apply (alu_op_u32 Div).
  - apply negb_true_iff, Z.leb_gt in Hchk. rewrite u32_small in Hchk by lia.
    rewrite s32_small by lia. apply Hjmp; lia.
  - apply negb_true_iff, orb_false_iff in Hchk as [H1%Z.leb_gt H2%Z.leb_gt].
    destruct (cond_holds c A _); apply Hjmp; lia.
  - destruct (load_pointer_ok s (s32 (k f)) 1 Hs) as [->|(bs & -> & Hb & Hl)];
      [pose proof (s32_range (k f)); lia|lia|cbn; unfold is_u32; lia|].
    apply next_ok; auto. pose proof (be_range bs Hb) as Hr. rewrite Hl in Hr.
    assert (is_u32 (be bs)) by (unfold is_u32; lia).
    change 15 with (Z.ones 4). rewrite Z.land_ones, Z.shiftl_mul_pow2 by lia.
    pose proof (Z.mod_pos_bound (be bs) (2 ^ 4)). unfold is_u32. lia.
  - apply negb_true_iff, Z.leb_gt in Hchk. destruct (mem_lookup_ok mem (k f) Hm) as (v & -> & Hv); [lia|].
    by apply next_ok.
  - apply negb_true_iff, Z.leb_gt in Hchk. destruct (mem_lookup_ok mem (k f) Hm) as (v & -> & Hv); [lia|].
    by apply next_ok.
  - apply negb_true_iff, Z.leb_gt in Hchk. rewrite (proj2 (Z.ltb_lt _ _)) by (destruct Hm; lia).
    apply next_ok; auto using mem_insert_ok.
  - apply negb_true_iff, Z.leb_gt in Hchk. rewrite (proj2 (Z.ltb_lt _ _)) by (destruct Hm; lia).
    apply next_ok; auto using mem_insert_ok.
Qed.
End safe_step.

Lemma chk_loop_lookup fs : ∀ pc flen i f,
  chk_loop fs pc flen = true → fs !! i = Some f → chk_insn f (pc + Z.of_nat i) flen = true.
Proof.
  induction fs as [|g fs IH]; intros pc flen i f Hc Hi; [done|]. cbn [chk_loop] in Hc.
  apply andb_true_iff in Hc as [Hg Hfs]. destruct i as [|i]; cbn in Hi.
  - injection Hi as ->. by rewrite Z.add_0_r.
  - rewrite <- (IH _ _ _ _ Hfs Hi). f_equal. lia.
Qed.

Lemma sk_chk_filter_accepts filter flen :
  sk_chk_filter filter flen = 0 → Z.of_nat (length filter) = flen →
  0 < flen ≤ BPF_MAXINSNS ∧ (∀ i f, filter !! i = Some f → chk_insn f (Z.of_nat i) flen = true).
Proof.
  unfold sk_chk_filter, EINVAL. intros Hc Hl.
  destruct (Z.eqb_spec flen 0); [done|]. destruct (Z.ltb_spec BPF_MAXINSNS flen); [done|]. cbn [orb] in Hc.
  split; [lia|]. rewrite take_ge in Hc by lia.
  destruct (chk_loop filter 0 flen) eqn:Hloop; [|done]. intros i f Hi.
  by apply (chk_loop_lookup _ _ _ _ _ Hloop Hi).
Qed.

Lemma run_loop_ok s filter flen :
  packet_ok s → Forall insn_ok filter → Z.of_nat (length filter) = flen → flen ≤ BPF_MAXINSNS →
  (∀ i f, filter !! i = Some f → chk_insn f (Z.of_nat i) flen = true) →
  ∀ fuel pc A X mem, 0 ≤ pc → flen - pc ≤ Z.of_nat fuel → is_u32 A → is_u32 X → mem_ok mem →
  ∃ v, run_loop fuel s filter flen pc A X mem = Returned v ∧ is_u32 v.
Proof.
  intros Hs Hi Hl Hmax Hchk. induction fuel as [|fuel IH]; intros pc A X mem Hpc Hf HA HX Hm; cbn [run_loop];
    (destruct (Z.ltb_spec pc flen); [|exists 0; unfold is_u32; split; [done|lia]]); [lia|].
  unfold run_insn. rewrite (proj2 (Z.ltb_ge pc 0)) by lia.
  destruct (lookup_lt_is_Some_2 filter (Z.to_nat pc)) as [f Hf']; [lia|]. rewrite Hf'.
  specialize (Hchk _ _ Hf') as Hc. rewrite Z2Nat.id in Hc by lia.
  destruct (switch chk_cases (code f)) as [x|] eqn:Hx; [|by unfold chk_insn in Hc; rewrite Hx in Hc].
  destruct (chk_run_agree _ _ Hx) as (b & -> & <-).
  pose proof (list.Forall_lookup_1 _ _ _ _ Hi Hf') as Hio.
  pose proof (run_branch_ok s flen pc Hs f b A X mem Hio ltac:(lia) Hmax HA HX Hm Hx Hc) as Hstep.
  destruct (run_branch s b f pc A X mem) as [pc' A' X' mem'|[v|e|]]; cbn in Hstep; try done; [|by eauto].
  destruct Hstep as (Hle & _ & HA' & HX' & Hm'). apply IH; [lia|lia|done..].
Qed.

(** ** Attaching a filter to a socket *)

(** [struct sk_filter] and what a socket keeps.  Memory comes from [kmalloc],
    seen through the allocator interface; [rcu] is the queue of blocks
    [call_rcu_bh] frees after the grace period. *)
Record sk_filter := SkFilter { refcnt : Z; len : Z; insns : list sock_filter }.

Definition sizeof_sock_filter : Z := 8.
Definition sizeof_sk_filter : Z := 16.
Definition sk_filter_len (fp : sk_filter) : Z := u32 (len fp * sizeof_sock_filter + sizeof_sk_filter).

(** [int sysctl_optmem_max = sizeof(unsigned long)*(2*UIO_MAXIOV+512)] *)
Definition sysctl_optmem_max : Z := 4 * (2 * 1024 + 512).

Section attach.
  Context {A : Type} `{KitMemory A}.

Record sock := Sock {
  sk_omem_alloc : Z;
  sk_filter_ptr : option loc;         (* sk->sk_filter *)
  filters : gmap loc sk_filter;
  rcu : list loc;
  mem : A;
}.

Definition set_omem (n : Z) (sk : sock) : sock := Sock n (sk_filter_ptr sk) (filters sk) (rcu sk) (mem sk).

Definition sock_kmalloc (size : Z) (sk : sock) : option loc * sock :=
  if (u32 size <=? sysctl_optmem_max) && (s32 (sk_omem_alloc sk + size) <? sysctl_optmem_max) then
    match kit_malloc (mem sk) with
    | Some (p, m) => (Some p, Sock (s32 (sk_omem_alloc sk + size)) (sk_filter_ptr sk) (filters sk) (rcu sk) m)
    | None => (None, set_omem (s32 (s32 (sk_omem_alloc sk + size) - size)) sk)
    end
  else (None, sk).

Definition sock_kfree_s (p : loc) (size : Z) (sk : sock) : sock :=
  Sock (s32 (sk_omem_alloc sk - size)) (sk_filter_ptr sk) (filters sk) (rcu sk) (kit_free p (mem sk)).

(** [atomic_dec_and_test(&fp->refcnt)] and [call_rcu_bh]. *)
Definition sk_filter_release (p : loc) (fp : sk_filter) (sk : sock) : sock :=
  let omem := s32 (sk_omem_alloc sk - sk_filter_len fp) in
  let n := refcnt fp - 1 in
  Sock omem (sk_filter_ptr sk) (<[p := SkFilter n (len fp) (insns fp)]> (filters sk))
       (if n =? 0 then rcu sk ++ [p] else rcu sk) (mem sk).

(** [struct sock_fprog]: [filter] is None for the NULL pointer; [copy_from_user]
    gives the instructions or fails. *)
Record sock_fprog := SockFprog { fprog_len : Z; fprog_filter : option (option (list sock_filter)) }.

Definition sk_attach_filter (fprog : sock_fprog) (sk : sock) : Z * sock :=
  let fsize := u32 (sizeof_sock_filter * fprog_len fprog) in
  match fprog_filter fprog with
  | None => (- EINVAL, sk)
  | Some user =>
      match sock_kmalloc (fsize + sizeof_sk_filter) sk with
      | (None, sk) => (- ENOMEM, sk)
      | (Some p, sk) =>
          match user with
          | None => (- EFAULT, sock_kfree_s p (fsize + sizeof_sk_filter) sk)
          | Some prog =>
              let fp := SkFilter 1 (fprog_len fprog) prog in
              let sk := Sock (sk_omem_alloc sk) (sk_filter_ptr sk) (<[p := fp]> (filters sk)) (rcu sk) (mem sk) in
              let err := sk_chk_filter (insns fp) (len fp) in
              if err =? 0 then
                let old := sk_filter_ptr sk in
                let sk := Sock (sk_omem_alloc sk) (Some p) (filters sk) (rcu sk) (mem sk) in
                match old with
                | None => (err, sk)
                | Some q =>
                    match filters sk !! q with
                    | Some ofp => (err, sk_filter_release q ofp sk)
                    | None => (err, sk)
                    end
                end
              else (err, sk_filter_release p fp sk)
          end
      end
  end.

(** [sk_filter_rcu_free], the callback of the oldest queued block. *)
Definition sk_filter_rcu_free (sk : sock) : sock :=
  match rcu sk with
  | [] => sk
  | p :: ps => Sock (sk_omem_alloc sk) (sk_filter_ptr sk) (delete p (filters sk)) ps (kit_free p (mem sk))
  end.

(** What can happen to a socket's filter over time. *)
Inductive event := Attach (fprog : sock_fprog) | Grace.

Definition event_step (sk : sock) (e : event) : sock :=
  match e with Attach fprog => snd (sk_attach_filter fprog sk) | Grace => sk_filter_rcu_free sk end.

(** A program as a caller can pass it: the length is an unsigned short, and
    [copy_from_user] copies as many instructions as it says. *)
Definition fprog_ok (fprog : sock_fprog) : Prop :=
  0 ≤ fprog_len fprog < 2 ^ 16 ∧
  match fprog_filter fprog with
  | Some (Some prog) => Z.of_nat (length prog) = fprog_len fprog ∧ Forall insn_ok prog
  | _ => True
  end.

Definition event_ok (e : event) : Prop := match e with Attach fprog => fprog_ok fprog | Grace => True end.

(** An installed filter: verified, referenced once. *)
Definition installed (fp : sk_filter) : Prop :=
  refcnt fp = 1 ∧ Z.of_nat (length (insns fp)) = len fp ∧ Forall insn_ok (insns fp) ∧
  sk_chk_filter (insns fp) (len fp) = 0.

Definition filter_charge (sk : sock) : Z :=
  match sk_filter_ptr sk ≫= λ p, filters sk !! p with Some fp => sk_filter_len fp | None => 0 end.

(** [base] is the option memory the socket uses for other things. *)
Record sock_inv (base : Z) (sk : sock) : Prop := {
  si_base : 0 ≤ base;
  si_omem : sk_omem_alloc sk = base + filter_charge sk;
  si_max : sk_omem_alloc sk < sysctl_optmem_max;
  si_ptr : ∀ p, sk_filter_ptr sk = Some p → ∃ fp, filters sk !! p = Some fp ∧ installed fp;
  si_rcu : NoDup (rcu sk) ∧ ∀ p, p ∈ rcu sk ↔ is_Some (filters sk !! p) ∧ sk_filter_ptr sk ≠ Some p;
  si_live : dom (filters sk) ⊆ live (mem sk);
}.
End attach.
Arguments sock : clear implicits.

Section attach_lemmas.
  Context {A : Type} `{KitMemory A}.
  Implicit Types sk : sock A.

Lemma filter_charge_range base sk : sock_inv base sk → 0 ≤ filter_charge sk.
Proof.
  intros _. unfold filter_charge. case_match; [|done]. apply u32_range.
Qed.

(** The charge for a program of [n] instructions. *)
Lemma fsize_eq n : 0 ≤ n < 2 ^ 16 → u32 (sizeof_sock_filter * n) + sizeof_sk_filter = 8 * n + 16.
Proof. intros. unfold sizeof_sock_filter, sizeof_sk_filter. rewrite u32_small; lia. Qed.

Lemma sk_filter_len_eq r n prog : 0 ≤ n < 2 ^ 16 → sk_filter_len (SkFilter r n prog) = 8 * n + 16.
Proof.
  intros. unfold sk_filter_len, sizeof_sock_filter, sizeof_sk_filter. cbn [len]. rewrite u32_small; lia.
Qed.

Lemma sock_kmalloc_cases base sk size r sk' :
  sock_inv base sk → 0 ≤ size < 2 ^ 20 → sock_kmalloc size sk = (r, sk') →
  (r = None ∧ sk' = sk) ∨
  ∃ p m, r = Some p ∧ sk' = Sock (sk_omem_alloc sk + size) (sk_filter_ptr sk) (filters sk) (rcu sk) m ∧
    sk_omem_alloc sk + size < sysctl_optmem_max ∧ p ∉ live (mem sk) ∧ live m = {[p]} ∪ live (mem sk).
Proof.
  intros Hi Hsz. pose proof (si_base _ _ Hi). pose proof (si_omem _ _ Hi). pose proof (si_max _ _ Hi) as Hmax.
  pose proof (filter_charge_range _ _ Hi). unfold sysctl_optmem_max in *.
  unfold sock_kmalloc, sysctl_optmem_max. rewrite !(s32_small (_ + _)) by lia.
  destruct (_ && _) eqn:Hg; [|intros [= <- <-]; by left]. bool_solve.
  destruct (kit_malloc (mem sk)) as [[p m]|] eqn:Hm; intros [= <- <-].
  - right. destruct (kit_malloc_fresh _ _ _ Hm). eauto 10.
  - left. split; [done|]. unfold set_omem. rewrite s32_small by lia.
    destruct sk; cbn in *. f_equal. lia.
Qed.

Lemma sock_inv_fresh base sk p : sock_inv base sk → p ∉ live (mem sk) →
  filters sk !! p = None ∧ p ∉ rcu sk ∧ sk_filter_ptr sk ≠ Some p.
Proof.
  intros Hi Hp. assert (Hn : filters sk !! p = None).
  { apply not_elem_of_dom. pose proof (si_live _ _ Hi). set_solver. }
  split; [done|]. split.
  - rewrite (proj2 (si_rcu _ _ Hi)), Hn. by intros [[? ?] _].
  - intros Hq. destruct (si_ptr _ _ Hi p Hq) as (? & ? & _). congruence.
Qed.

(** The charge depends only on the installed filter's block. *)
Lemma filter_charge_ext o o' q f f' (c c' : list loc) (m m' : A) :
  (∀ p, q = Some p → f !! p = f' !! p) → filter_charge (Sock o q f c m) = filter_charge (Sock o' q f' c' m').
Proof. unfold filter_charge. cbn. destruct q as [p|]; cbn; [|done]. by intros ->. Qed.

(** A block that was never installed is queued for freeing. *)
Lemma sock_inv_queue base sk p fp m :
  sock_inv base sk → p ∉ live (mem sk) → live m = {[p]} ∪ live (mem sk) →
  sock_inv base (Sock (sk_omem_alloc sk) (sk_filter_ptr sk) (<[p := fp]> (filters sk)) (rcu sk ++ [p]) m).
Proof.
  intros Hi Hp Hm. destruct (sock_inv_fresh _ _ _ Hi Hp) as (Hf & Hr & Hq). destruct sk as [o q fs r m0].
  destruct Hi as [Hb Ho Hmax Hptr [Hnd Hrcu] Hlive]. cbn in *. split; cbn.
  - done.
  - rewrite Ho. f_equal. apply filter_charge_ext. intros p' Hp'. rewrite lookup_insert_ne; congruence.
  - done.
  - intros p' Hp'. rewrite lookup_insert_ne by congruence. by apply Hptr.
  - split; [apply list.NoDup_app; split; [done|]; split; [|apply NoDup_singleton];
            intros x Hx; rewrite list_elem_of_singleton; congruence|].
    intros p'. rewrite elem_of_app, list_elem_of_singleton, Hrcu.
    destruct (decide (p = p')) as [<-|]; [|rewrite lookup_insert_ne by done; naive_solver].
    rewrite lookup_insert_eq. naive_solver.
  - rewrite dom_insert, Hm. set_solver.
Qed.

(** A verified block replaces the installed one, which is queued. *)
Lemma sock_inv_install base sk p fp m :
  sock_inv base sk → p ∉ live (mem sk) → live m = {[p]} ∪ live (mem sk) → installed fp →
  sk_omem_alloc sk + sk_filter_len fp < sysctl_optmem_max →
  sock_inv base (Sock (base + sk_filter_len fp) (Some p)
    (match sk_filter_ptr sk ≫= λ q, (q,.) <$> filters sk !! q with
     | Some (q, ofp) => <[q := SkFilter 0 (len ofp) (insns ofp)]> (<[p := fp]> (filters sk))
     | None => <[p := fp]> (filters sk) end)
    (match sk_filter_ptr sk with Some q => rcu sk ++ [q] | None => rcu sk end) m).
Proof.
  intros Hi Hp Hm Hfp Hlt. destruct (sock_inv_fresh _ _ _ Hi Hp) as (Hf & Hr & Hq).
  pose proof (filter_charge_range _ _ Hi) as Hch. pose proof (si_omem _ _ Hi) as Hom. remember (filter_charge sk) as ch.
  assert (base + sk_filter_len fp < sysctl_optmem_max) by lia. clear Hom Heqch Hch. destruct sk as [o q fs r m0].
  destruct Hi as [Hb Ho Hmax Hptr [Hnd Hrcu] Hlive]. cbn in *.
  destruct q as [q|]; cbn.
  - destruct (Hptr q eq_refl) as (ofp & Hofp & _). rewrite Hofp. cbn. assert (q ≠ p) by congruence.
    split; cbn; [done|by unfold filter_charge; cbn; rewrite lookup_insert_ne, lookup_insert_eq|lia| | |].
    + intros ? [= <-]. rewrite lookup_insert_ne, lookup_insert_eq by done. eauto.
    + split; [apply list.NoDup_app; split; [done|]; split; [|apply NoDup_singleton];
            intros x Hx; rewrite list_elem_of_singleton; apply Hrcu in Hx; naive_solver|].
      intros p'. rewrite elem_of_app, list_elem_of_singleton, Hrcu.
      destruct (decide (q = p')) as [<-|]; [rewrite lookup_insert_eq; naive_solver|rewrite lookup_insert_ne by done].
      destruct (decide (p = p')) as [<-|]; [rewrite lookup_insert_eq|rewrite lookup_insert_ne by done]; [|naive_solver].
      rewrite Hf. split; [intros [[[? ?] ?]|]; congruence|naive_solver].
    + rewrite !dom_insert, Hm. apply elem_of_dom_2 in Hofp. set_solver.
  - split; cbn; [done|by unfold filter_charge; cbn; rewrite lookup_insert_eq|lia| | |].
    + intros ? [= <-]. rewrite lookup_insert_eq by done. eauto.
    + split; [done|]. intros p'. rewrite Hrcu.
      destruct (decide (p = p')) as [<-|]; [rewrite lookup_insert_eq, Hf|rewrite lookup_insert_ne by done; naive_solver].
      split; [intros [[? ?] ?]; congruence|naive_solver].
    + rewrite dom_insert, Hm. set_solver.
Qed.

(** The cases of [sk_attach_filter]: every error leaves the installed filter and
    the charge alone. *)
Lemma sk_attach_filter_inv base fprog sk err sk' :
  sock_inv base sk → fprog_ok fprog → sk_attach_filter fprog sk = (err, sk') →
  sock_inv base sk' ∧
  (err ≠ 0 → sk_filter_ptr sk' = sk_filter_ptr sk ∧ filter_charge sk' = filter_charge sk) ∧
  (err = 0 → ∃ p prog, fprog_filter fprog = Some (Some prog) ∧ sk_filter_ptr sk' = Some p ∧
     filters sk' !! p = Some (SkFilter 1 (fprog_len fprog) prog) ∧ sk_chk_filter prog (fprog_len fprog) = 0).
Proof.
  intros Hi [Hlen Hprog]. unfold sk_attach_filter.
  destruct (fprog_filter fprog) as [user|]; [|by intros [= <- <-]].
  rewrite fsize_eq by done.
  destruct (sock_kmalloc _ sk) as [r sk1] eqn:Hk.
  assert (Hsz : 0 ≤ 8 * fprog_len fprog + 16 < 2 ^ 20) by lia.
  destruct (sock_kmalloc_cases base _ _ _ _ Hi Hsz Hk)
    as [[-> ->]|(p & m & -> & -> & Hmax & Hfr & Hlv)]; [by intros [= <- <-]|].
  pose proof (si_omem _ _ Hi). pose proof (si_base _ _ Hi). pose proof (filter_charge_range _ _ Hi).
  unfold sysctl_optmem_max in *.
  destruct user as [prog|].
  2:{ unfold sock_kfree_s. cbn. intros [= <- <-]. rewrite s32_small by lia.
      replace (_ + _ - _) with (sk_omem_alloc sk) by lia.
      assert (Hl : live (kit_free p m) = live (mem sk)) by (rewrite kit_free_live, Hlv; set_solver).
      split; [|done]. destruct sk, Hi; split; cbn in *; try done. by rewrite Hl. }
  destruct Hprog as [Hpl Hprog]. cbn [insns len sk_omem_alloc sk_filter_ptr filters rcu mem].
  set (fp := SkFilter 1 (fprog_len fprog) prog).
  assert (Hfl : sk_filter_len fp = 8 * fprog_len fprog + 16) by (by apply sk_filter_len_eq).
  destruct (Z.eqb_spec (sk_chk_filter prog (fprog_len fprog)) 0) as [Hchk|Hchk].
  2:{ unfold sk_filter_release. cbn [sk_omem_alloc sk_filter_ptr filters rcu mem refcnt len insns].
      intros [= <- <-]. rewrite Hfl, s32_small, insert_insert_eq by lia.
      replace (_ + _ - _) with (sk_omem_alloc sk) by lia.
      split; [by apply sock_inv_queue|]. split; [|done]. intros _. cbn. split; [done|].
      destruct sk; apply filter_charge_ext. cbn. intros q Hq.
      rewrite lookup_insert_ne; [done|]. destruct (sock_inv_fresh _ _ _ Hi Hfr) as (_ & _ & Hn). cbn in Hn. congruence. }
  assert (Hinst : installed fp) by done.
  pose proof (sock_inv_install base sk p fp m Hi Hfr Hlv Hinst) as Hnew. rewrite Hfl in Hnew.
  specialize (Hnew ltac:(unfold sysctl_optmem_max; lia)).
  destruct (sock_inv_fresh _ _ _ Hi Hfr) as (Hf & _ & Hq).
  destruct (sk_filter_ptr sk) as [q|] eqn:Hptr; cbn in Hnew |- *.
  - destruct (si_ptr _ _ Hi q Hptr) as (ofp & Hofp & Hr & Hln & _ & Hoc).
    rewrite Hofp in Hnew. cbn in Hnew.
    assert (Hch : filter_charge sk = sk_filter_len ofp) by (unfold filter_charge; rewrite Hptr; cbn; by rewrite Hofp).
    rewrite lookup_insert_ne, Hofp by congruence. unfold sk_filter_release.
    rewrite Hr. cbn [sk_omem_alloc sk_filter_ptr filters rcu mem]. intros [= <- <-]. rewrite s32_small by lia.
    replace (_ + _ - _) with (base + (8 * fprog_len fprog + 16)) by lia.
    split; [done|]. split; [by intros []|]. intros _. exists p, prog. cbn.
    rewrite lookup_insert_ne, lookup_insert_eq by congruence. done.
  - intros [= <- <-].
    assert (Hch : filter_charge sk = 0) by (unfold filter_charge; by rewrite Hptr).
    replace (_ + _) with (base + (8 * fprog_len fprog + 16)) by lia.
    split; [done|]. split; [by intros []|]. intros _. exists p, prog. cbn. by rewrite lookup_insert_eq.
Qed.

Lemma sk_filter_rcu_free_inv base sk : sock_inv base sk → sock_inv base (sk_filter_rcu_free sk).
Proof.
  intros Hi. unfold sk_filter_rcu_free. destruct (rcu sk) as [|p ps] eqn:Hr; [done|].
  destruct sk as [o q fs r m]. destruct Hi as [Hb Ho Hmax Hptr [Hnd Hrcu] Hlive]. cbn in *. subst r.
  apply list.NoDup_cons in Hnd as [Hp Hnd].
  assert (Hq : q ≠ Some p) by (apply (Hrcu p); left).
  split; cbn; [done| |done| | |].
  - rewrite Ho. f_equal. apply filter_charge_ext. intros p' ->. rewrite lookup_delete_ne; congruence.
  - intros p' Hp'. rewrite lookup_delete_ne by congruence. by apply Hptr.
  - split; [done|]. intros p'. specialize (Hrcu p'). rewrite elem_of_cons in Hrcu.
    destruct (decide (p = p')) as [<-|]; [rewrite lookup_delete_eq|rewrite lookup_delete_ne by done].
    + split; [done|]. by intros [[? ?] _].
    + naive_solver.
  - rewrite kit_free_live, dom_delete. set_solver.
Qed.

Lemma events_inv base evs : ∀ sk, Forall event_ok evs → sock_inv base sk → sock_inv base (fold_left event_step evs sk).
Proof.
  induction evs as [|e evs IH]; intros sk He Hi; [done|]. apply list.Forall_cons in He as [He Hes].
  cbn [fold_left]. apply IH; [done|]. destruct e as [fprog|]; cbn [event_step event_ok] in *.
  - destruct (sk_attach_filter fprog sk) as [err sk'] eqn:Ha. by eapply sk_attach_filter_inv.
  - by apply sk_filter_rcu_free_inv.
Qed.
End attach_lemmas.

(** A well-formed packet, a verified program: the interpreter returns. *)
Lemma sk_run_filter_ok s filter flen mem0 :
  packet_ok s → mem_ok mem0 → Forall insn_ok filter → Z.of_nat (length filter) = flen →
  sk_chk_filter filter flen = 0 →
  ∃ v, sk_run_filter (Z.to_nat flen) mem0 s filter flen = Returned v ∧ is_u32 v.
Proof.
  intros Hs Hm Hi Hl Hc. destruct (sk_chk_filter_accepts _ _ Hc Hl) as [Hr Hchk].
  apply run_loop_ok; try done; unfold is_u32; lia.
Qed.

(** ** Properties *)

(** C12: A program that [sk_chk_filter] accepts is safe to run: on every
    well-formed packet and whatever the uninitialised scratch memory holds,
    [sk_run_filter] returns a 32-bit value after at most [flen] instructions,
    with no jump outside the program, no scratch access outside the sixteen
    words, no division by zero, no unknown opcode and no packet access outside
    the buffer. *)
Theorem checked_filter_safe s filter flen mem0 :
  packet_ok s → mem_ok mem0 → Forall insn_ok filter → Z.of_nat (length filter) = flen →
  sk_chk_filter filter flen = 0 →
  ∃ v, sk_run_filter (Z.to_nat flen) mem0 s filter flen = Returned v ∧ is_u32 v.
Proof. apply sk_run_filter_ok. Qed.

(** A packet of six bytes, four of them linear. *)
Definition example_packet : sk_buff :=
  SkBuff [0; 0; 8; 0; 0x45; 7; 0; 0; 0; 0] 2 6 4 2 [[9; 10]] [] 6 0x800 0 (Some 3).

(** if the first halfword is 0x800, return X + the second word's last byte. *)
Definition example_filter : list sock_filter :=
  [ SockFilter (bor [BPF_LD; BPF_H; BPF_ABS]) 0 0 0;
    SockFilter (bor [BPF_JMP; BPF_JEQ; BPF_K]) 0 3 0x800;
    SockFilter (bor [BPF_LDX; BPF_B; BPF_MSH]) 0 0 2;
    SockFilter (bor [BPF_LD; BPF_H; BPF_IND]) 0 0 (2 ^ 32 - 16);
    SockFilter (bor [BPF_RET; BPF_A]) 0 0 0;
    SockFilter (bor [BPF_RET; BPF_K]) 0 0 0 ].

Definition example_mem : list Z := replicate 16 0xdead.

Lemma example_packet_ok : packet_ok example_packet.
Proof.
  split; try (cbn; lia); try (vm_compute; tauto).
  - repeat constructor; unfold is_byte; lia.
  - vm_compute. repeat constructor; done.
  - by eexists.
Qed.

Ltac insns_ok :=
  repeat (apply list.Forall_cons; split; [repeat split; vm_compute; done|]); by apply list.Forall_nil.

Lemma example_filter_ok : Forall insn_ok example_filter.
Proof. unfold example_filter. insns_ok. Qed.

Lemma example_mem_ok m : is_u32 m → mem_ok (replicate 16 m).
Proof. intros. split; [by rewrite length_replicate|]. by apply list.Forall_replicate. Qed.

Lemma checked_filter_safe_witness :
  sk_chk_filter example_filter 6 = 0 ∧
  (∃ v, sk_run_filter 6 example_mem example_packet example_filter 6 = Returned v ∧ is_u32 v) ∧
  sk_run_filter 6 example_mem example_packet example_filter 6 = Returned 0x90a.
Proof.
  split; [vm_compute; reflexivity|]. split; [|vm_compute; reflexivity].
  apply (checked_filter_safe example_packet example_filter 6 example_mem).
  - apply example_packet_ok.
  - apply example_mem_ok. unfold is_u32. lia.
  - apply example_filter_ok.
  - reflexivity.
  - vm_compute. reflexivity.
Defined.

Section attached.
  Context {A : Type} `{KitMemory A}.

(** Whatever sequence of [sk_attach_filter] calls (with NULL or unreadable
    programs, programs the verifier rejects, failing allocations) and grace
    periods a socket sees, the filter installed afterwards is a verified one in
    live memory that no grace period frees, it runs safely on every packet, the
    charge to the socket's option memory is exactly its size, and every other
    filter block is queued for freeing. *)
Theorem attached_filter_safe base (evs : list event) (sk : sock A) :
  sock_inv base sk → Forall event_ok evs →
  let sk' := fold_left event_step evs sk in
  sk_omem_alloc sk' = base + filter_charge sk' ∧
  (∀ p, is_Some (filters sk' !! p) → sk_filter_ptr sk' = Some p ∨ p ∈ rcu sk') ∧
  ∀ p, sk_filter_ptr sk' = Some p →
    p ∈ live (mem sk') ∧ (p ∉ rcu sk') ∧
    ∃ fp, filters sk' !! p = Some fp ∧ refcnt fp = 1 ∧
      ∀ s mem0, packet_ok s → mem_ok mem0 →
        ∃ v, sk_run_filter (Z.to_nat (len fp)) mem0 s (insns fp) (len fp) = Returned v ∧ is_u32 v.
Proof.
  intros Hi He sk'. pose proof (events_inv base evs sk He Hi) as Hi'. fold sk' in Hi'. clearbody sk'.
  split; [apply Hi'|]. split.
  - intros p Hp. destruct (decide (sk_filter_ptr sk' = Some p)); [by left|right]. by apply (si_rcu _ _ Hi').
  - intros p Hp. destruct (si_ptr _ _ Hi' p Hp) as (fp & Hfp & Hr & Hl & Hok & Hc). split; [|split].
    + apply (si_live _ _ Hi'), elem_of_dom. eauto.
    + rewrite (proj2 (si_rcu _ _ Hi')). naive_solver.
    + exists fp. split; [done|]. split; [done|]. intros. by apply sk_run_filter_ok.
Qed.
End attached.

Definition example_sock : sock pool := Sock 0 None ∅ [] pool_empty.

(** A good program, a bad one (a jump out of range), a good one again. *)
Definition example_events : list event :=
  [ Attach (SockFprog 6 (Some (Some example_filter)));
    Attach (SockFprog 2 (Some (Some [SockFilter (bor [BPF_JMP; BPF_JA]) 0 0 1;
                                     SockFilter (bor [BPF_RET; BPF_K]) 0 0 0])));
    Attach (SockFprog 1 (Some (Some [SockFilter (bor [BPF_RET; BPF_K]) 0 0 7])));
    Grace ].

Lemma example_events_ok : Forall event_ok example_events.
Proof.
  unfold example_events. repeat (apply list.Forall_cons; split); [..|by apply list.Forall_nil]; [..|exact I];
    (split; [cbn [fprog_len]; lia|split; [reflexivity|first [apply example_filter_ok|insns_ok]]]).
Qed.

Lemma example_sock_inv : sock_inv 0 example_sock.
Proof.
  split; cbn; [lia|done|done|done| |done].
  split; [constructor|]. intros p. rewrite lookup_empty.
  split; [by intros ?%elem_of_nil|]. by intros [[? ?] _].
Qed.

Lemma attached_filter_safe_witness :
  let sk' := fold_left event_step example_events example_sock in
  sk_filter_ptr sk' = Some 4%positive ∧ rcu sk' = [2%positive] ∧ sk_omem_alloc sk' = 24 ∧
  4%positive ∈ live (mem sk').
Proof.
  cbv zeta.
  assert (Hp : sk_filter_ptr (fold_left event_step example_events example_sock) = Some 4%positive)
    by (vm_compute; reflexivity).
  split; [exact Hp|]. split; [vm_compute; reflexivity|]. split; [vm_compute; reflexivity|].
  exact (proj1 (proj2 (proj2 (attached_filter_safe 0 example_events example_sock
                                example_sock_inv example_events_ok)) 4%positive Hp)).
Defined.

(** The scratch memory is not cleared: a program that the verifier accepts
    returns a word of it that it never stored, that is, what the kernel stack
    held before, for every value of that word. *)
Theorem filter_returns_stack v s :
  is_u32 v →
  let prog := [SockFilter (bor [BPF_LD; BPF_MEM]) 0 0 5; SockFilter (bor [BPF_RET; BPF_A]) 0 0 0] in
  sk_chk_filter prog 2 = 0 ∧
  ∃ mem0, mem_ok mem0 ∧ mem0 !! 5%nat = Some v ∧ sk_run_filter 2 mem0 s prog 2 = Returned v.
Proof.
  intros Hv prog. split; [done|]. exists (replicate 16 v). split; [by apply example_mem_ok|]. done.
Qed.

Lemma filter_returns_stack_witness :
  ∃ mem0, mem_ok mem0 ∧ mem0 !! 5%nat = Some 0xdead ∧
    sk_run_filter 2 mem0 example_packet
      [SockFilter (bor [BPF_LD; BPF_MEM]) 0 0 5; SockFilter (bor [BPF_RET; BPF_A]) 0 0 0] 2 = Returned 0xdead.
Proof. apply (filter_returns_stack 0xdead example_packet). unfold is_u32. lia. Defined.
