(* ===== verification/IoRegion.v ===== *)
(** I/O regions (src/src/lib/dde_linux26/arch/dde_kit/res.c): port and memory
    regions requested from the kit, and [ioremap], which translates physical
    addresses with the list of regions requested so far. *)

From S2P Require Import Prelude.

(** ** dde_kit_request_io, dde_kit_request_mem, dde_kit_release_io, dde_kit_release_mem

    The kit's resource manager hands out a region at most once; a memory
    region comes with the virtual address it is mapped at. *)
Class KitResources (R : Type) := {
  kit_request_io : Z → Z → R → option R;
  kit_release_io : Z → Z → R → R;
  kit_request_mem : Z → Z → R → option (Z * R);
  kit_release_mem : Z → Z → R → R;
}.

(** [struct dde_linux26_mem_region]: 32-bit fields, while the requests carry
    64-bit [resource_size_t] values. *)
Record mem_region := MemRegion { pa : Z; va : Z; size : Z }.

Section res.
  Context {R : Type} `{KitResources R}.

(** [dde_linux26_mem_regions], first the region added last, and the kit. *)
Record res_state := ResState { mem_regions : list mem_region; kit : R }.

Definition request_region (start n : Z) (s : res_state) : bool * res_state :=
  match kit_request_io start n (kit s) with
  | Some k => (true, ResState (mem_regions s) k)
  | None => (false, s)
  end.

(** [true] is the non-NULL pointer.  The list node comes from [kmalloc]; the
    code asserts that it is not NULL: [got_node] says whether it is, and None
    is the failed assertion. *)
Definition request_mem_region (got_node : bool) (start n : Z) (s : res_state) : option (bool * res_state) :=
  match kit_request_mem start n (kit s) with
  | None => Some (false, s)
  | Some (v, k) =>
      if got_node then Some (true, ResState (MemRegion (u32 start) v (u32 n) :: mem_regions s) k) else None
  end.

Definition release_region (start n : Z) (s : res_state) : res_state :=
  ResState (mem_regions s) (kit_release_io start n (kit s)).

Definition release_mem_region (start n : Z) (s : res_state) : res_state :=
  ResState (mem_regions s) (kit_release_mem start n (kit s)).

Definition check_region (start n : Z) : Z := -1.
Definition check_mem_region (start n : Z) : Z := -2.

(** The loop over the list. *)
Fixpoint ioremap_loop (l : list mem_region) (phys_addr : Z) : option Z :=
  match l with
  | [] => None
  | mreg :: l =>
      if (phys_addr <=? pa mreg) && (phys_addr <? u32 (pa mreg + size mreg))
      then Some (u32 (va mreg + u32 (phys_addr - pa mreg)))
      else ioremap_loop l phys_addr
  end.

Definition ioremap (phys_addr sz : Z) (s : res_state) : option Z := ioremap_loop (mem_regions s) phys_addr.

Definition ioremap_nocache (offset sz : Z) (s : res_state) : option Z := ioremap offset sz s.

Definition iounmap (addr : Z) (s : res_state) : res_state := s.

(** ** A driver's calls *)

Inductive call :=
| RequestRegion (start n : Z)
| RequestMem (start n : Z)
| ReleaseRegion (start n : Z)
| ReleaseMem (start n : Z)
| Iounmap (addr : Z).

(** List nodes are available; a failed assertion stops the system. *)
Definition call_step (s : res_state) (c : call) : res_state :=
  match c with
  | RequestRegion start n => snd (request_region start n s)
  | RequestMem start n => match request_mem_region true start n s with Some (_, s) => s | None => s end
  | ReleaseRegion start n => release_region start n s
  | ReleaseMem start n => release_mem_region start n s
  | Iounmap a => iounmap a s
  end.

(** The memory regions that were granted, in order, with their mappings. *)
Fixpoint granted (cs : list call) (s : res_state) : list mem_region :=
  match cs with
  | [] => []
  | c :: cs =>
      match c with
      | RequestMem start n =>
          match kit_request_mem start n (kit s) with
          | Some (v, _) => [MemRegion (u32 start) v (u32 n)]
          | None => []
          end
      | _ => []
      end ++ granted cs (call_step s c)
  end.

Definition region_ok (r : mem_region) : Prop :=
  0 ≤ pa r ∧ 0 < size r ∧ pa r + size r < 2 ^ 32 ∧ 0 ≤ va r ∧ va r + size r < 2 ^ 32.

Lemma mem_regions_granted cs : ∀ s,
  mem_regions (fold_left call_step cs s) = rev (granted cs s) ++ mem_regions s.
Proof.
  induction cs as [|c cs IH]; intros s; [done|]. cbn [fold_left granted]. rewrite IH, rev_app_distr, <- app_assoc.
  f_equal. destruct c; cbn [call_step rev app]; try done.
  - unfold request_region. by destruct (kit_request_io _ _ _).
  - unfold request_mem_region. by destruct (kit_request_mem _ _ _) as [[v k]|].
Qed.

(** The most recent region that starts at [x] or above. *)
Definition latest_above (x : Z) (l : list mem_region) : option mem_region :=
  List.find (λ r, x <=? pa r) l.

Lemma ioremap_loop_eq l x :
  0 ≤ x → Forall region_ok l → ioremap_loop l x = (λ r, u32 (va r - (pa r - x))) <$> latest_above x l.
Proof.
  intros Hx. induction 1 as [|r l (H1 & H2 & H3 & H4 & H5) Hl IH]; [done|].
  cbn [ioremap_loop latest_above List.find]. unfold latest_above in IH. rewrite u32_small by lia.
  destruct (Z.leb_spec x (pa r)) as [Hle|Hgt]; cbn [andb]; [|done].
  rewrite (proj2 (Z.ltb_lt _ _)) by lia. cbn. f_equal.
  rewrite Z.add_comm, u32_add_u32. f_equal. lia.
Qed.

(** After any sequence of region requests and releases, [ioremap] translates
    with the most recently granted memory region that starts at or above the
    given address, and fails when there is none.  So it gives the right mapping
    for the start of a region exactly when no region granted later starts
    above it; the address of a byte inside a region, behind its start, is never
    translated with that region. *)
Theorem ioremap_latest_region cs s x sz :
  mem_regions s = [] → 0 ≤ x → Forall region_ok (granted cs s) →
  let s' := fold_left call_step cs s in
  ioremap x sz s' = (λ r, u32 (va r - (pa r - x))) <$> latest_above x (rev (granted cs s)) ∧
  (∀ r before after, granted cs s = before ++ r :: after → x = pa r →
     Forall (λ r', pa r' < pa r) after → ioremap x sz s' = Some (va r)) ∧
  (∀ r, granted cs s = [r] → pa r < x → ioremap x sz s' = None).
Proof.
  intros Hs Hx Hok s'. unfold ioremap. subst s'. rewrite mem_regions_granted, Hs, app_nil_r.
  rewrite ioremap_loop_eq by (try done; by apply List.Forall_rev).
  split; [done|]. split.
  - intros r before after Hg Hxr Haf. rewrite Hg, rev_app_distr. cbn [rev]. rewrite <- app_assoc.
    rewrite Hg in Hok. apply list.Forall_app in Hok as [_ Hok]. apply list.Forall_cons in Hok as [Hr _].
    replace (latest_above x (rev after ++ [r] ++ rev before)) with (Some r).
    { cbn. f_equal. destruct Hr as (?&?&?&?&?). rewrite u32_small by lia. lia. }
    apply List.Forall_rev in Haf. induction Haf as [|r' l Hr' Hl IH]; cbn; [by rewrite (proj2 (Z.leb_le _ _)) by lia|].
    by rewrite (proj2 (Z.leb_gt _ _)) by lia.
  - intros r Hg Hlt. rewrite Hg. cbn. by rewrite (proj2 (Z.leb_gt _ _)) by lia.
Qed.
End res.
Arguments res_state : clear implicits.

(** ** A kit that maps the regions one behind the other *)

#[export] Instance packing_kit : KitResources Z := {|
  kit_request_io _ _ k := Some k;
  kit_release_io _ _ k := k;
  kit_request_mem _ n k := Some (k, k + n);
  kit_release_mem _ _ k := k |}.

(** Two regions mapped at 0x40000000 and 0x40000100, the higher one requested
    last.  The start of the higher one is translated correctly; the start of
    the lower one is translated to an address that belongs to neither. *)
Lemma ioremap_latest_region_witness :
  let cs := [RequestMem 0xe0000000 0x100; RequestMem 0xfe000000 0x1000] in
  let s := ResState [] 0x40000000 in
  ioremap 0xfe000000 0x1000 (fold_left call_step cs s) = Some 0x40000100 ∧
  ioremap 0xe0000000 0x100 (fold_left call_step cs s) = Some 0x22000100.
Proof.
  intros cs s. assert (Hok : Forall region_ok (granted cs s)).
  { cbn. repeat (apply list.Forall_cons; split; [unfold region_ok; cbn; rewrite !u32_small by lia; lia|]). by apply list.Forall_nil. }
  split.
  - apply (proj1 (proj2 (ioremap_latest_region cs s 0xfe000000 0x1000 eq_refl ltac:(lia) Hok))
             (MemRegion 0xfe000000 0x40000100 0x1000) [MemRegion 0xe0000000 0x40000000 0x100] []); done.
  - etrans; [apply (ioremap_latest_region cs s 0xe0000000 0x100 eq_refl ltac:(lia) Hok)|vm_compute; reflexivity].
Defined.
