(* ===== verification/BlockDev.v ===== *)
(** USB mass storage as a block device (src/src/lib/dde_linux26/arch/dde_kit:
    scsi.c, the one-host SCSI layer, and usb_storage.c, the block interface
    built on it).

    The SCSI host driver below is a parameter: a command is either refused or
    completes with the contents of the request buffer.  A disk that answers as
    the SCSI block commands require is the class [ScsiDisk]; against it the
    block interface is proved to be an array of blocks. *)

From S2P Require Import Prelude Kit.

(** ** Commands *)

Inductive dma_data_direction := DMA_TO_DEVICE | DMA_FROM_DEVICE.

Definition INQUIRY : Z := 0x12.
Definition READ_CAPACITY : Z := 0x25.
Definition READ_10 : Z := 0x28.
Definition WRITE_10 : Z := 0x2a.
Definition MAX_COMMAND_SIZE : nat := 16.

Definition EBLK_NOMEM : Z := 1.
Definition EBLK_NODEV : Z := 2.
Definition EBLK_FAULT : Z := 3.
Definition EBLK_BUSY : Z := 4.

(** The fields of [struct scsi_cmnd] that the driver reads; [request_buffer] is
    the contents of the buffer. *)
Record scsi_cmnd := ScsiCmnd {
  cmnd : list Z;
  cmd_len : Z;
  request_buffer : list Z;
  request_bufflen : Z;
  sc_data_direction : dma_data_direction;
}.

(** [cpu_to_be32] and [be32_to_cpu] as bytes in memory. *)
Definition be32_bytes (v : Z) : list Z :=
  [Z.shiftr v 24 mod 256; Z.shiftr v 16 mod 256; Z.shiftr v 8 mod 256; v mod 256].

Definition be32 (bs : list Z) : Z :=
  match bs with
  | a :: b :: c :: d :: _ => a * 2 ^ 24 + b * 2 ^ 16 + c * 2 ^ 8 + d
  | _ => 0
  end.

(** The fields of the SCSI device that this layer reads. *)
Record slave_info := SlaveInfo { inquiry_len : Z; fix_capacity : bool }.

(** The host template: [slave_alloc] and [slave_configure] store into the device
    (they set [inquiry_len], and may set [fix_capacity] but never clear it);
    [queuecommand] refuses a command (None) or completes it, with the new
    contents of the request buffer. *)
Class ScsiHost (H : Type) := {
  slave_configure : H → slave_info → slave_info;
  queuecommand : scsi_cmnd → H → option (list Z * H);
}.

(** ** State *)

(** [struct scsi_device]: its address and what the host driver set. *)
Record scsi_device := ScsiDevice { sdev_ptr : loc; sdev_info : slave_info }.

Record usb_stor := UsbStor { block_size : Z; block_count : Z; sdev : option scsi_device }.

Definition MAX_USB_INDEX : nat := 4.

Section block.
  Context {H A : Type} `{ScsiHost H} `{KitMemory A}.

(** The statics of usb_storage.c and scsi.c ([host_free] is [free] in
    [scsi_host_alloc]), the calls of the plugin callback so far, the host and
    the memory [kmalloc] takes from. *)
Record blk := Blk {
  usb_devices : list usb_stor;
  init : bool;
  plugin_callback : bool;
  plugged : list Z;
  host_free : bool;
  host : H;
  mem : A;
}.

Definition set_devices (l : list usb_stor) (s : blk) : blk :=
  Blk l (init s) (plugin_callback s) (plugged s) (host_free s) (host s) (mem s).
Definition set_host (h : H) (s : blk) : blk :=
  Blk (usb_devices s) (init s) (plugin_callback s) (plugged s) (host_free s) h (mem s).
Definition set_mem (m : A) (s : blk) : blk :=
  Blk (usb_devices s) (init s) (plugin_callback s) (plugged s) (host_free s) (host s) m.

(** [kmalloc]: a block or NULL. *)
Definition kmalloc : M blk (option loc) := λ s,
  match kit_malloc (mem s) with
  | Some (p, m) => Done (Some p, set_mem m s)
  | None => Done (None, s)
  end.

Definition kfree (p : option loc) : M blk unit :=
  match p with Some p => modify (λ s, set_mem (kit_free p (mem s)) s) | None => mret tt end.

(** A pointer that is dereferenced. *)
Definition deref (p : option loc) : M blk loc :=
  match p with Some p => mret p | None => fail FNull end.

(** [usb_devices[i]] *)
Definition usb_device (i : Z) : M blk usb_stor := λ s,
  if i <? 0 then Fault FBounds
  else match usb_devices s !! Z.to_nat i with Some d => Done (d, s) | None => Fault FBounds end.

Definition set_usb_device (i : Z) (d : usb_stor) : M blk unit :=
  modify (λ s, set_devices (<[Z.to_nat i := d]> (usb_devices s)) s).

(** ** usb_storage.c *)

Definition dde_linux26_block_register_plugin_callback (cb : bool) : M blk bool := λ s,
  Done (plugin_callback s, Blk (usb_devices s) (init s) cb (plugged s) (host_free s) (host s) (mem s)).

Definition dde_linux26_plugin_rx_callback (usb_index : Z) : M blk unit := λ s,
  Done (tt, if plugin_callback s
            then Blk (usb_devices s) (init s) (plugin_callback s) (plugged s ++ [usb_index]) (host_free s) (host s) (mem s)
            else s).

(** [queuecommand] whose result is ignored, and [wait_for_completion]: a refused
    command never completes. *)
Definition queue_and_wait (c : scsi_cmnd) : M blk (list Z) := λ s,
  match queuecommand c (host s) with
  | Some (bs, h) => Done (bs, set_host h s)
  | None => Fault FHang
  end.

Definition capacity (usb_index : Z) : M blk unit :=
  d ← usb_device usb_index;
  match sdev d with
  | None => fail FNull
  | Some sd =>
      cp ← kmalloc;
      rp ← kmalloc;
      _ ← deref cp;
      _ ← deref rp;
      result ← queue_and_wait
        (ScsiCmnd (<[0%nat := READ_CAPACITY]> (replicate MAX_COMMAND_SIZE 0)) 10 (replicate 8 0) 8 DMA_FROM_DEVICE);
      let count := be32 result in
      let count := if fix_capacity (sdev_info sd) then count else u32 (count + 1) in
      set_usb_device usb_index (UsbStor (be32 (drop 4 result)) count (Some sd));;
      kfree cp;;
      kfree rp
  end.

(** The search loop of [dde_linux26_block_dev_add]. *)
Fixpoint free_slot (l : list usb_stor) (i : Z) : option Z :=
  match l with
  | [] => None
  | d :: l => match sdev d with None => Some i | Some _ => free_slot l (i + 1) end
  end.

Definition init_devices : M blk unit := modify (λ s,
  if init s then s
  else Blk (replicate MAX_USB_INDEX (UsbStor 0 0 None)) true (plugin_callback s) (plugged s) (host_free s) (host s) (mem s)).

Definition dde_linux26_block_dev_add (sd : scsi_device) : M blk Z :=
  init_devices;;
  l ← gets usb_devices;
  match free_slot l 0 with
  | None => mret (- EBLK_NOMEM)
  | Some i =>
      d ← usb_device i;
      set_usb_device i (UsbStor (block_size d) (block_count d) (Some sd));;
      capacity i;;
      dde_linux26_plugin_rx_callback i;;
      mret 0
  end.

(** The guard [usb_index < 0 && usb_index >= MAX_USB_INDEX] is as in the code. *)
Definition dde_linux26_block_present (usb_index : Z) : M blk bool :=
  if (usb_index <? 0) && (Z.of_nat MAX_USB_INDEX <=? usb_index) then mret false
  else d ← usb_device usb_index; mret (match sdev d with Some _ => true | None => false end).

Definition dde_linux26_block_count (usb_index : Z) : M blk Z :=
  p ← dde_linux26_block_present usb_index;
  if p : bool then d ← usb_device usb_index; mret (s32 (block_count d)) else mret (- EBLK_NODEV).

Definition dde_linux26_block_size (usb_index : Z) : M blk Z :=
  p ← dde_linux26_block_present usb_index;
  if p : bool then d ← usb_device usb_index; mret (s32 (block_size d)) else mret (- EBLK_NODEV).

(** The command block: opcode, block number at offset 2, one block. *)
Definition io_cdb (opcode block_nr : Z) : list Z :=
  <[8%nat := 1]> ([opcode; 0] ++ be32_bytes block_nr ++ replicate (MAX_COMMAND_SIZE - 6) 0).

(** Returns the code and the buffer's contents afterwards. *)
Definition block_io (usb_index block_nr : Z) (buffer : list Z) (opcode : Z) (dir : dma_data_direction) :
    M blk (Z * list Z) :=
  p ← dde_linux26_block_present usb_index;
  if negb p then mret (- EBLK_NODEV, buffer) else
  d ← usb_device usb_index;
  if block_count d <? block_nr then mret (- EBLK_FAULT, buffer) else
  cp ← kmalloc;
  _ ← deref cp;
  h ← gets host;
  match queuecommand (ScsiCmnd (io_cdb opcode block_nr) 10 buffer (block_size d) dir) h with
  | None => kfree cp;; mret (- EBLK_BUSY, buffer)
  | Some (bs, h') => modify (set_host h');; kfree cp;; mret (0, bs)
  end.

Definition dde_linux26_block_read (usb_index block_nr : Z) (buffer : list Z) : M blk (Z * list Z) :=
  block_io usb_index block_nr buffer READ_10 DMA_FROM_DEVICE.

Definition dde_linux26_block_write (usb_index block_nr : Z) (buffer : list Z) : M blk (Z * list Z) :=
  block_io usb_index block_nr buffer WRITE_10 DMA_TO_DEVICE.

Definition dde_linux26_block_malloc : M blk (option loc) := kmalloc.
Definition dde_linux26_block_free (p : option loc) : M blk unit := kfree p.

(** ** scsi.c *)

(** What the memory of the device that [scsi_scan_host] gets from [kmalloc] and
    does not clear holds in [inquiry_len] and [fix_capacity]. *)
Context (garbage : slave_info).

(** The single static host: [true] is its address, [false] is NULL. *)
Definition scsi_host_alloc : M blk bool := λ s,
  if host_free s
  then Done (true, Blk (usb_devices s) (init s) (plugin_callback s) (plugged s) false (host s) (mem s))
  else Done (false, s).

Definition scsi_scan_host : M blk unit :=
  cp ← kmalloc;
  sp ← kmalloc;
  tp ← kmalloc;
  sd ← deref sp;
  info ← gets (λ s, slave_configure (host s) garbage);
  rp ← kmalloc;
  _ ← deref cp;
  _ ← deref rp;
  result ← queue_and_wait
    (ScsiCmnd (<[4%nat := u8 (inquiry_len info)]> (<[0%nat := INQUIRY]> (replicate MAX_COMMAND_SIZE 0))) 6
       (replicate (Z.to_nat (inquiry_len info)) 0) (inquiry_len info) DMA_FROM_DEVICE);
  added ← (if nth 0 result 0 =? 0
           then r ← dde_linux26_block_dev_add (ScsiDevice sd info); mret (r =? 0)
           else mret false);
  (if added : bool then mret tt else kfree sp;; kfree tp);;
  kfree cp;;
  kfree rp.
End block.
Arguments blk : clear implicits.

(** ** A disk that follows the SCSI block commands *)

(** The fields of a ten-byte command block. *)
Definition cdb_op (c : scsi_cmnd) : Z := nth 0 (cmnd c) 0.
Definition cdb_lba (c : scsi_cmnd) : Z := be32 (drop 2 (cmnd c)).
Definition cdb_blocks (c : scsi_cmnd) : Z := nth 7 (cmnd c) 0 * 256 + nth 8 (cmnd c) 0.

(** [disk] is the contents, [disk_bsize] the block size.  READ CAPACITY returns
    the address of the last block, or the number of blocks on the devices with
    the quirk for which [slave_configure] sets [fix_capacity]. *)
Class ScsiDisk (H : Type) `{ScsiHost H} := {
  disk_ok : H → Prop;
  disk : H → list (list Z);
  disk_bsize : H → Z;
  disk_quirk : H → bool;
  disk_slave h g : disk_ok h → fix_capacity (slave_configure h g) = fix_capacity g || disk_quirk h;
  disk_wf h : disk_ok h → 0 < disk_bsize h < 2 ^ 31 ∧ 0 < Z.of_nat (length (disk h)) < 2 ^ 31;
  disk_inquiry c h : disk_ok h → cdb_op c = INQUIRY →
    ∃ bs h', queuecommand c h = Some (0 :: bs, h') ∧ disk_ok h' ∧ disk h' = disk h ∧
      disk_bsize h' = disk_bsize h ∧ disk_quirk h' = disk_quirk h;
  disk_capacity c h : disk_ok h → cdb_op c = READ_CAPACITY → request_bufflen c = 8 →
    ∃ h', queuecommand c h =
        Some (be32_bytes (Z.of_nat (length (disk h)) - if disk_quirk h then 0 else 1) ++
              be32_bytes (disk_bsize h), h') ∧
      disk_ok h' ∧ disk h' = disk h ∧ disk_bsize h' = disk_bsize h ∧ disk_quirk h' = disk_quirk h;
  disk_read c h b : disk_ok h → cdb_op c = READ_10 → cdb_blocks c = 1 → request_bufflen c = disk_bsize h →
    disk h !! Z.to_nat (cdb_lba c) = Some b →
    ∃ h', queuecommand c h = Some (b, h') ∧ disk_ok h' ∧ disk h' = disk h ∧
      disk_bsize h' = disk_bsize h ∧ disk_quirk h' = disk_quirk h;
  disk_write c h b : disk_ok h → cdb_op c = WRITE_10 → cdb_blocks c = 1 → request_bufflen c = disk_bsize h →
    Z.of_nat (length (request_buffer c)) = disk_bsize h →
    disk h !! Z.to_nat (cdb_lba c) = Some b →
    ∃ h', queuecommand c h = Some (request_buffer c, h') ∧ disk_ok h' ∧
      disk h' = <[Z.to_nat (cdb_lba c) := request_buffer c]> (disk h) ∧
      disk_bsize h' = disk_bsize h ∧ disk_quirk h' = disk_quirk h;
}.

(** ** The block interface over such a disk *)

Inductive io := Rd (n : Z) | Wr (n : Z) (buf : list Z).

(** The array of blocks a client expects. *)
Definition spec_io (o : io) (d : list (list Z)) : (Z * list Z) * list (list Z) :=
  match o with
  | Rd n => ((0, default [] (d !! Z.to_nat n)), d)
  | Wr n buf => ((0, buf), <[Z.to_nat n := buf]> d)
  end.

Fixpoint spec_ios (os : list io) (d : list (list Z)) : list (Z * list Z) * list (list Z) :=
  match os with
  | [] => ([], d)
  | o :: os => let '(r, d) := spec_io o d in let '(rs, d) := spec_ios os d in (r :: rs, d)
  end.

Definition io_ok (count bsize : Z) (o : io) : Prop :=
  match o with
  | Rd n => 0 ≤ n < count
  | Wr n buf => 0 ≤ n < count ∧ Z.of_nat (length buf) = bsize
  end.

Section refine.
  Context {H A : Type} `{ScsiDisk H} `{KitMemory A}.
  Context (room : nat) (Hroom : ∀ m : A, (size (live m) < room)%nat → is_Some (kit_malloc m)).

Definition run_io (i : Z) (scratch : list Z) (o : io) : M (blk H A) (Z * list Z) :=
  match o with
  | Rd n => dde_linux26_block_read i n scratch
  | Wr n buf => dde_linux26_block_write i n buf
  end.

Fixpoint run_ios (i : Z) (scratch : list Z) (os : list io) : M (blk H A) (list (Z * list Z)) :=
  match os with
  | [] => mret []
  | o :: os => r ← run_io i scratch o; rs ← run_ios i scratch os; mret (r :: rs)
  end.

Lemma be32_bytes_be32 v l : 0 ≤ v < 2 ^ 32 → be32 (be32_bytes v ++ l) = v.
Proof.
  intros Hv. cbn. rewrite !Z.shiftr_div_pow2 by lia.
  rewrite (Z.mod_small (v / 2 ^ 24)) by (split; [apply Z.div_pos; lia|apply Z.div_lt_upper_bound; lia]).
  change (2 ^ 24) with (256 * 256 * 256). change (2 ^ 16) with (256 * 256). change (2 ^ 8) with 256.
  rewrite <- !Z.div_div by lia.
  pose proof (Z.div_mod v 256). pose proof (Z.div_mod (v / 256) 256). pose proof (Z.div_mod (v / 256 / 256) 256). lia.
Qed.

Lemma kmalloc_ok (s : blk H A) : (size (live (mem s)) < room)%nat →
  ∃ p m, kmalloc s = Done (Some p, set_mem m s) ∧ (p ∉ live (mem s)) ∧ live m = {[p]} ∪ live (mem s).
Proof.
  intros [[p m] Hm]%Hroom. unfold kmalloc. rewrite Hm. destruct (kit_malloc_fresh _ _ _ Hm). eauto 10.
Qed.

(** The device is in slot [i] with the block size of the disk and the count
    [c], which is the number of blocks or one less. *)
Record attached (i : nat) (c : Z) (L : gset loc) (s : blk H A) : Prop := {
  at_ok : disk_ok (host s);
  at_slot : ∃ sd, usb_devices s !! i = Some (UsbStor (disk_bsize (host s)) c (Some sd));
  at_count : Z.of_nat (length (disk (host s))) - 1 ≤ c ≤ Z.of_nat (length (disk (host s)));
  at_live : live (mem s) = L;
}.

Lemma io_cdb_fields op n buf len dir : 0 ≤ n < 2 ^ 32 →
  let c := ScsiCmnd (io_cdb op n) 10 buf len dir in
  cdb_op c = op ∧ cdb_lba c = n ∧ cdb_blocks c = 1.
Proof. intros Hn c. split; [done|]. split; [|done]. by apply (be32_bytes_be32 n). Qed.

Lemma live_freed (p : loc) (L : gset loc) : p ∉ L → ({[p]} ∪ L) ∖ {[p]} = L.
Proof. intros. set_solver. Qed.

Lemma usb_device_ok (s : blk H A) i d : usb_devices s !! i = Some d → usb_device (Z.of_nat i) s = Done (d, s).
Proof.
  intros Hd. unfold usb_device. rewrite (proj2 (Z.ltb_ge (Z.of_nat i) 0)), Nat2Z.id, Hd by lia. done.
Qed.

(** One request against a device that accepts it. *)
Lemma block_io_run i c L s n buf op dir bs :
  attached i c L s → (size L < room)%nat → 0 ≤ n ≤ c →
  ∀ h', queuecommand (ScsiCmnd (io_cdb op n) 10 buf (disk_bsize (host s)) dir) (host s) = Some (bs, h') →
  disk_ok h' → disk_bsize h' = disk_bsize (host s) → length (disk h') = length (disk (host s)) →
  ∃ m, block_io (Z.of_nat i) n buf op dir s = Done ((0, bs), set_mem m (set_host h' s)) ∧
    attached i c L (set_mem m (set_host h' s)).
Proof.
  intros [Hok [sd Hsl] Hc Hl] HL Hn h' Hq Hok' Hbs' Hlen'. rewrite <- Hl in HL.
  destruct (kmalloc_ok s HL) as (q & m & Hk & Hq' & Hm).
  pose proof (usb_device_ok s i _ Hsl) as Hud.
  unfold block_io, dde_linux26_block_present, kfree, deref. run_simpl.
  rewrite (proj2 (Z.ltb_ge (Z.of_nat i) 0)) by lia. cbn [andb]. rewrite Hud.
  cbn [sdev negb block_count block_size]. rewrite Hud.
  cbn [sdev negb block_count block_size]. rewrite (proj2 (Z.ltb_ge _ _)) by lia. rewrite Hk.
  cbn [set_mem host]. rewrite Hq. eexists. split; [reflexivity|].
  split; cbn; [done|rewrite Hbs'; eauto|by rewrite Hlen'|]. rewrite kit_free_live, Hm, live_freed by done. done.
Qed.

Lemma run_io_spec i c L s scratch o :
  attached i c L s → (size L < room)%nat →
  io_ok (Z.of_nat (length (disk (host s)))) (disk_bsize (host s)) o →
  ∃ s', run_io (Z.of_nat i) scratch o s = Done (fst (spec_io o (disk (host s))), s') ∧ attached i c L s' ∧
    disk (host s') = snd (spec_io o (disk (host s))) ∧ disk_bsize (host s') = disk_bsize (host s).
Proof.
  intros Hat HL Hio. pose proof (at_ok _ _ _ _ Hat) as Hok. destruct (disk_wf _ Hok) as [Hb Hc].
  pose proof (at_count _ _ _ _ Hat) as Hct.
  destruct o as [n|n buf]; cbn [run_io spec_io io_ok fst snd] in *.
  - destruct (lookup_lt_is_Some_2 (disk (host s)) (Z.to_nat n)) as [b Hlk]; [lia|].
    destruct (io_cdb_fields READ_10 n scratch (disk_bsize (host s)) DMA_FROM_DEVICE) as (F1 & F2 & F3); [lia|].
    destruct (disk_read (ScsiCmnd (io_cdb READ_10 n) 10 scratch (disk_bsize (host s)) DMA_FROM_DEVICE) (host s) b)
      as (h' & Hq & Hok' & Hd & Hbs & Hsc); [done..|by rewrite F2|].
    edestruct (block_io_run i c L s n) as (m & Hrun & Hat'); [done|done|lia|exact Hq|done|done|by rewrite Hd|].
    eexists. split; [unfold dde_linux26_block_read; rewrite Hrun, Hlk; reflexivity|]. done.
  - destruct Hio as [Hn Hbuf].
    destruct (lookup_lt_is_Some_2 (disk (host s)) (Z.to_nat n)) as [b Hlk]; [lia|].
    destruct (io_cdb_fields WRITE_10 n buf (disk_bsize (host s)) DMA_TO_DEVICE) as (F1 & F2 & F3); [lia|].
    destruct (disk_write (ScsiCmnd (io_cdb WRITE_10 n) 10 buf (disk_bsize (host s)) DMA_TO_DEVICE) (host s) b)
      as (h' & Hq & Hok' & Hd & Hbs & Hsc); [done..|by rewrite F2|].
    rewrite F2 in Hd. cbn [request_buffer] in *.
    edestruct (block_io_run i c L s n) as (m & Hrun & Hat'); [done|done|lia|exact Hq|done|done|by rewrite Hd, length_insert|].
    eexists. split; [unfold dde_linux26_block_write; rewrite Hrun; reflexivity|]. done.
Qed.

Lemma spec_io_length o d : length (snd (spec_io o d)) = length d.
Proof. destruct o; cbn; [done|apply length_insert]. Qed.

Lemma run_ios_spec i c L scratch os : ∀ s,
  attached i c L s → (size L < room)%nat →
  Forall (io_ok (Z.of_nat (length (disk (host s)))) (disk_bsize (host s))) os →
  ∃ s', run_ios (Z.of_nat i) scratch os s = Done (fst (spec_ios os (disk (host s))), s') ∧ attached i c L s' ∧
    disk (host s') = snd (spec_ios os (disk (host s))).
Proof.
  induction os as [|o os IH]; intros s Hat HL Hos; cbn [run_ios spec_ios].
  { exists s. done. }
  apply list.Forall_cons in Hos as [Ho Hos].
  destruct (run_io_spec i c L s scratch o Hat HL Ho) as (s1 & Hr1 & Hat1 & Hd1 & Hb1).
  destruct (IH s1 Hat1 HL) as (s2 & Hr2 & Hat2 & Hd2); [by rewrite Hd1, Hb1, spec_io_length|].
  rewrite Hd1 in Hr2, Hd2. run_simpl. rewrite Hr1, Hr2.
  destruct (spec_io o (disk (host s))) as [r d1]. cbn [fst snd] in *.
  destruct (spec_ios os d1) as [rs d2]. cbn [fst snd] in *. eauto.
Qed.

(** Two blocks in a row. *)
Lemma kmalloc2_ok (s : blk H A) : (size (live (mem s)) + 1 < room)%nat →
  ∃ p m p' m', kmalloc s = Done (Some p, set_mem m s) ∧ kmalloc (set_mem m s) = Done (Some p', set_mem m' s) ∧
    (p ∉ live (mem s)) ∧ (p' ∉ {[p]} ∪ live (mem s)) ∧ live m' = {[p']} ∪ ({[p]} ∪ live (mem s)).
Proof.
  intros HL. destruct (kmalloc_ok s) as (p & m & Hk & Hp & Hm); [lia|].
  assert (HL' : (size (live m) < room)%nat) by (rewrite Hm, size_union, size_singleton by set_solver; lia).
  destruct (kmalloc_ok (set_mem m s) HL') as (p' & m' & Hk' & Hp' & Hm'). cbn [mem set_mem] in *.
  rewrite Hm in Hp', Hm'. eauto 15.
Qed.

(** The block count that [capacity] stores: one too few if [fix_capacity] was
    left set by the memory of the device. *)
Definition stored_count (fix_cap : bool) (h : H) : Z :=
  Z.of_nat (length (disk h)) - if fix_cap && negb (disk_quirk h) then 1 else 0.

Lemma capacity_spec (s : blk H A) i bs ct sd :
  usb_devices s !! i = Some (UsbStor bs ct (Some sd)) → (disk_quirk (host s) = true → fix_capacity (sdev_info sd) = true) →
  disk_ok (host s) → (size (live (mem s)) + 1 < room)%nat →
  ∃ s', capacity (Z.of_nat i) s = Done (tt, s') ∧
    attached i (stored_count (fix_capacity (sdev_info sd)) (host s)) (live (mem s)) s' ∧
    disk (host s') = disk (host s) ∧ disk_bsize (host s') = disk_bsize (host s) ∧
    plugin_callback s' = plugin_callback s ∧ plugged s' = plugged s.
Proof.
  intros Hd Hinfo Hok HL. destruct (kmalloc2_ok s HL) as (p & m & p' & m' & Hk & Hk' & Hp & Hp' & Hm').
  destruct (disk_wf _ Hok) as [Hbw Hcw].
  edestruct (disk_capacity (ScsiCmnd (<[0%nat := READ_CAPACITY]> (replicate MAX_COMMAND_SIZE 0)) 10
    (replicate 8 0) 8 DMA_FROM_DEVICE) (host s) Hok) as (h' & Hq & Hok' & Hdk & Hbs & Hsc); [done..|].
  unfold capacity. run_simpl. rewrite (usb_device_ok s i _ Hd). cbn [sdev]. rewrite Hk, Hk'.
  unfold deref. run_simpl. unfold queue_and_wait. cbn [host set_mem]. rewrite Hq.
  unfold set_usb_device, kfree. run_simpl. eexists. split; [reflexivity|].
  assert (Hcap : be32 (drop 4 (be32_bytes (Z.of_nat (length (disk (host s))) -
      (if disk_quirk (host s) then 0 else 1)) ++ be32_bytes (disk_bsize (host s)))) =
      disk_bsize (host s)) by (rewrite <- (be32_bytes_be32 (disk_bsize (host s)) []) at 2 by lia; done).
  split; [|done]. split; cbn [host set_devices set_mem set_host usb_devices mem]; [done| | |].
  - exists sd. rewrite Nat2Z.id, list_lookup_insert_eq by (by eapply lookup_lt_Some). f_equal.
    rewrite Hcap, Hbs. f_equal. rewrite be32_bytes_be32 by (destruct (disk_quirk _); lia).
    unfold stored_count. destruct (disk_quirk _); [rewrite (Hinfo eq_refl), andb_false_r; lia|].
    destruct (fix_capacity _); cbn [andb negb]; [lia|]. rewrite u32_small; lia.
  - rewrite Hdk. unfold stored_count. destruct (_ && _); lia.
  - rewrite !kit_free_live, Hm'. set_solver.
Qed.

Lemma free_slot_boot : free_slot (replicate MAX_USB_INDEX (UsbStor 0 0 None)) 0 = Some 0.
Proof. done. Qed.

Lemma dev_add_boot (s : blk H A) sd :
  init s = false → (disk_quirk (host s) = true → fix_capacity (sdev_info sd) = true) →
  disk_ok (host s) → (size (live (mem s)) + 1 < room)%nat →
  ∃ s', dde_linux26_block_dev_add sd s = Done (0, s') ∧
    attached 0 (stored_count (fix_capacity (sdev_info sd)) (host s)) (live (mem s)) s' ∧
    disk (host s') = disk (host s) ∧ disk_bsize (host s') = disk_bsize (host s) ∧
    plugged s' = if plugin_callback s then plugged s ++ [0] else plugged s.
Proof.
  intros Hi Hinfo Hok HL. unfold dde_linux26_block_dev_add, init_devices, set_usb_device. run_simpl. rewrite Hi.
  cbn [usb_devices]. rewrite free_slot_boot.
  set (s1 := Blk (replicate MAX_USB_INDEX _) true _ _ _ _ _).
  change (usb_device 0 s1) with (Done (UsbStor 0 0 None, s1)). cbn beta iota. cbn [block_size block_count].
  set (s2 := set_devices _ s1).
  destruct (capacity_spec s2 0 0 0 sd) as (s3 & Hc & Hat & Hd & Hbs & Hcb & Hpl); [done..|].
  change (Z.of_nat 0) with 0 in Hc. rewrite Hc.
  unfold dde_linux26_plugin_rx_callback. rewrite Hcb, Hpl. cbn [plugin_callback plugged s2 s1 set_devices].
  eexists. split; [reflexivity|]. change (live (mem s2)) with (live (mem s)) in Hat.
  change (host s2) with (host s) in *.
  destruct (plugin_callback s); cbn; [|by rewrite Hpl].
  destruct Hat as [? ? ? ?]. done.
Qed.

(** The scan at boot: the device ends up in slot 0, and of the memory taken only
    the device and the target structure stay allocated. *)
Lemma scan_boot (g : slave_info) (s : blk H A) :
  init s = false → disk_ok (host s) → (size (live (mem s)) + 5 < room)%nat →
  ∃ s' sp tp, scsi_scan_host g s = Done (tt, s') ∧
    attached 0 (stored_count (fix_capacity g) (host s)) ({[tp]} ∪ ({[sp]} ∪ live (mem s))) s' ∧
    (sp ∉ live (mem s)) ∧ (tp ∉ {[sp]} ∪ live (mem s)) ∧
    disk (host s') = disk (host s) ∧ disk_bsize (host s') = disk_bsize (host s) ∧
    plugged s' = if plugin_callback s then plugged s ++ [0] else plugged s.
Proof.
  intros Hi Hok HL.
  destruct (kmalloc2_ok s) as (cp & m1 & sp & m2 & Hk1 & Hk2 & Hcp & Hsp & Hm2); [lia|].
  assert (HL2 : size (live m2) = (size (live (mem s)) + 2)%nat)
    by (rewrite Hm2, !size_union, !size_singleton by set_solver; lia).
  destruct (kmalloc2_ok (set_mem m2 s)) as (tp & m3 & rp & m4 & Hk3 & Hk4 & Htp & Hrp & Hm4);
    [cbn [mem set_mem]; lia|].
  cbn [mem set_mem] in Htp, Hrp, Hm4.
  assert (HL4 : size (live m4) = (size (live (mem s)) + 4)%nat)
    by (rewrite Hm4, !size_union, !size_singleton by set_solver; lia).
  change (set_mem m3 (set_mem m2 s)) with (set_mem m3 s) in *.
  change (set_mem m4 (set_mem m2 s)) with (set_mem m4 s) in *.
  unfold scsi_scan_host. run_simpl. rewrite Hk1, Hk2, Hk3. unfold deref. run_simpl.
  rewrite Hk4. cbn [host set_mem]. set (info := slave_configure (host s) g). set (c := ScsiCmnd _ _ _ _ _).
  destruct (disk_inquiry c (host s) Hok eq_refl) as (bs & h' & Hq & Hok' & Hdk & Hbs & Hsc).
  unfold queue_and_wait. cbn [host set_mem]. rewrite Hq. cbn [nth]. rewrite Z.eqb_refl.
  set (s5 := set_host h' (set_mem m4 s)).
  destruct (dev_add_boot s5 (ScsiDevice sp info)) as (s6 & Hadd & Hat & Hd6 & Hb6 & Hp6);
    [done|cbn; rewrite Hsc; intros Hqk; unfold info; by rewrite disk_slave, Hqk, orb_true_r|done|cbn; lia|].
  rewrite Hadd. rewrite Z.eqb_refl. unfold kfree. run_simpl.
  assert (Hct : stored_count (fix_capacity info) h' = stored_count (fix_capacity g) (host s)).
  { unfold stored_count, info. rewrite disk_slave, Hdk, Hsc by done.
    by destruct (disk_quirk (host s)); rewrite ?andb_false_r, ?orb_false_r. }
  destruct Hat as [Hok6 Hsl6 Hc6 Hl6]. cbn [sdev_info] in Hsl6, Hc6. change (host s5) with h' in Hsl6, Hc6.
  rewrite Hct in Hsl6, Hc6.
  eexists _, sp, tp. split; [reflexivity|].
  assert (Hs5 : live (mem s5) = live m4) by done.
  split; [split; cbn; [done|done|done|]|].
  { rewrite !kit_free_live, Hl6, Hs5, Hm4, Hm2. set_solver. }
  split; [set_solver|]. split; [set_solver|].
  cbn [host set_mem plugged]. rewrite Hd6, Hb6, Hp6. done.
Qed.

(** A disk that follows the SCSI block commands, found by the scan at boot, is an
    array of blocks to the client of the block interface: it appears as device
    0, [dde_linux26_block_size] returns its block size, every sequence of block
    reads and writes inside the disk returns what the array returns and leaves
    the array's contents on the disk, and no command memory is leaked.
    [dde_linux26_block_count] returns the number of blocks, or one less if the
    memory of the device, which is not cleared, happens to have [fix_capacity]
    set and the device does not have the quirk. *)
Theorem storage_is_block_array (g : slave_info) (s : blk H A) scratch os :
  init s = false → disk_ok (host s) → (size (live (mem s)) + 5 < room)%nat →
  Forall (io_ok (Z.of_nat (length (disk (host s)))) (disk_bsize (host s))) os →
  ∃ s1 s2 sp tp,
    scsi_scan_host g s = Done (tt, s1) ∧
    plugged s1 = (if plugin_callback s then plugged s ++ [0] else plugged s) ∧
    dde_linux26_block_count 0 s1 = Done (stored_count (fix_capacity g) (host s), s1) ∧
    dde_linux26_block_size 0 s1 = Done (disk_bsize (host s), s1) ∧
    run_ios 0 scratch os s1 = Done (fst (spec_ios os (disk (host s))), s2) ∧
    disk (host s2) = snd (spec_ios os (disk (host s))) ∧
    live (mem s2) = {[tp]} ∪ ({[sp]} ∪ live (mem s)).
Proof.
  intros Hi Hok HL Hos. destruct (scan_boot g s Hi Hok HL) as (s1 & sp & tp & Hscan & Hat & Hsp & Htp & Hd & Hb & Hp).
  destruct (run_ios_spec 0 _ _ scratch os s1 Hat) as (s2 & Hrun & Hat2 & Hd2).
  { rewrite !size_union, !size_singleton by set_solver. lia. }
  { by rewrite Hd, Hb. }
  rewrite Hd in Hrun, Hd2. exists s1, s2, sp, tp.
  destruct Hat as [Hok1 [sd Hsl] Hct Hl1]. pose proof (usb_device_ok s1 0 _ Hsl) as Hud.
  destruct (disk_wf _ Hok1) as [Hbw Hcw]. change (Z.of_nat 0) with 0 in *.
  assert (Hpr : dde_linux26_block_present 0 s1 = Done (true, s1)).
  { unfold dde_linux26_block_present. rewrite Z.ltb_irrefl. cbn [andb]. run_simpl. by rewrite Hud. }
  repeat split; try done.
  - unfold dde_linux26_block_count. run_simpl. rewrite Hpr, Hud. cbn [block_count]. rewrite s32_small by lia. done.
  - unfold dde_linux26_block_size. run_simpl. rewrite Hpr, Hud. cbn [block_size]. rewrite s32_small, Hb by lia. done.
  - apply (at_live _ _ _ _ Hat2).
Qed.

(** The bound check of [block_io] lets block number [block_count] through,
    one past the last block of the disk: the command for it is sent to the
    device.  The check for the device index lets every index through: an index
    outside the table is an access outside the array. *)
Theorem block_io_accepts_end i L (s : blk H A) buf (h' : H) bs :
  attached i (Z.of_nat (length (disk (host s)))) L s → (size L < room)%nat →
  let n := Z.of_nat (length (disk (host s))) in
  queuecommand (ScsiCmnd (io_cdb READ_10 n) 10 buf (disk_bsize (host s)) DMA_FROM_DEVICE) (host s) = Some (bs, h') →
  disk_ok h' → disk_bsize h' = disk_bsize (host s) → length (disk h') = length (disk (host s)) →
  (∃ s', dde_linux26_block_read (Z.of_nat i) n buf s = Done ((0, bs), s')) ∧
  (∀ j, (j < 0 ∨ Z.of_nat (length (usb_devices s)) ≤ j) → dde_linux26_block_present j s = Fault FBounds).
Proof.
  intros Hat HL n Hq Hok' Hb Hlen. split.
  - edestruct (block_io_run i _ L s n buf READ_10 DMA_FROM_DEVICE bs Hat HL) as (m & Hrun & _); [lia|exact Hq|done..|].
    eauto.
  - intros j Hj. unfold dde_linux26_block_present, usb_device. run_simpl.
    destruct (Z.ltb_spec j 0); cbn [andb].
    + by rewrite (proj2 (Z.leb_gt _ _)) by (unfold MAX_USB_INDEX; lia).
    + rewrite lookup_ge_None_2 by lia. done.
Qed.
End refine.

(** ** A concrete disk *)

(** A disk of one-byte blocks that answers a read behind its end with zeros. *)
Record toy_disk := ToyDisk { toy_blocks : list (list Z) }.

Definition toy_queue (c : scsi_cmnd) (h : toy_disk) : option (list Z * toy_disk) :=
  if cdb_op c =? INQUIRY then Some ([0; 0x80], h)
  else if cdb_op c =? READ_CAPACITY then
    Some (be32_bytes (Z.of_nat (length (toy_blocks h)) - 1) ++ be32_bytes 1, h)
  else if cdb_op c =? READ_10 then Some (default [0] (toy_blocks h !! Z.to_nat (cdb_lba c)), h)
  else if cdb_op c =? WRITE_10 then
    Some (request_buffer c, ToyDisk (<[Z.to_nat (cdb_lba c) := request_buffer c]> (toy_blocks h)))
  else None.

#[export] Instance toy_host : ScsiHost toy_disk :=
  {| slave_configure _ g := SlaveInfo 36 (fix_capacity g); queuecommand := toy_queue |}.

#[export] Instance toy_scsi : ScsiDisk toy_disk.
Proof.
  refine {| disk_ok h := 0 < Z.of_nat (length (toy_blocks h)) < 2 ^ 31; disk := toy_blocks; disk_bsize _ := 1; disk_quirk _ := false |};
    cbn [queuecommand toy_host slave_configure fix_capacity]; unfold toy_queue.
  - intros h g _. by rewrite orb_false_r.
  - intros h Hh. lia.
  - intros c h Hh ->. cbn. eauto 10.
  - intros c h Hh -> Hl. cbn. eauto 10.
  - intros c h b Hh -> _ _ Hb. cbn. rewrite Hb. eauto 10.
  - intros c h b Hh -> _ _ _ Hb. cbn. eexists. split; [done|]. cbn. by rewrite length_insert.
Defined.

Lemma pool_room (m : pool) : (size (live m) < pool_size)%nat → is_Some (kit_malloc m).
Proof.
  intros Hs. cbn [kit_malloc pool_memory live] in *. unfold pool_malloc.
  generalize (pool_malloc_ok (pool_live m)). unfold pool_malloc_set.
  rewrite (proj2 (Nat.ltb_lt _ _) Hs). eauto.
Qed.

Definition toy_boot : blk toy_disk pool := Blk [] false true [] true (ToyDisk [[7]; [8]; [9]]) pool_empty.

Lemma storage_is_block_array_witness :
  ∃ s1 s2, scsi_scan_host (SlaveInfo 0 false) toy_boot = Done (tt, s1) ∧ plugged s1 = [0] ∧
    dde_linux26_block_count 0 s1 = Done (3, s1) ∧
    run_ios 0 [0] [Rd 2; Wr 1 [5]; Rd 1] s1 = Done ([(0, [9]); (0, [5]); (0, [5])], s2) ∧
    disk (host s2) = [[7]; [5]; [9]].
Proof.
  destruct (storage_is_block_array pool_size pool_room (SlaveInfo 0 false) toy_boot [0] [Rd 2; Wr 1 [5]; Rd 1])
    as (s1 & s2 & sp & tp & H1 & H2 & H3 & H4 & H5 & H6 & H7).
  - reflexivity.
  - cbn. lia.
  - vm_compute. lia.
  - repeat (apply list.Forall_cons; split; [cbn; lia|]). by apply list.Forall_nil.
  - exists s1, s2. repeat split; assumption.
Defined.

Definition toy_state : blk toy_disk pool :=
  Blk [UsbStor 1 3 (Some (ScsiDevice 1%positive (SlaveInfo 36 false)))] true true [] false
    (ToyDisk [[7]; [8]; [9]]) pool_empty.

Lemma toy_attached : attached 0 3 ∅ toy_state.
Proof. split; cbn; [lia|eauto|lia|done]. Qed.

Lemma block_io_accepts_end_witness :
  ∃ s', dde_linux26_block_read 0 3 [1] toy_state = Done ((0, [0]), s').
Proof.
  apply (block_io_accepts_end pool_size pool_room 0 ∅ toy_state [1] (ToyDisk [[7]; [8]; [9]]) [0]
    toy_attached).
  - vm_compute. lia.
  - reflexivity.
  - cbn. lia.
  - reflexivity.
  - reflexivity.
Defined.
