(* ===== verification/Input.v ===== *)
(** Input events: the input core (src/src/linux26/drivers/input/input.c) and the
    event device that hands its events to the DDE client
    (src/src/lib/dde_linux26/arch/dde_kit/evdev.c).

    Bitmaps are the sets of their bits.  A device is named by its address, an
    input handle by the index of the event device it is embedded in.  The
    client's callback is a log; each entry also names the device, which the
    callback does not, so that statements can speak about one device. *)

From S2P Require Import Prelude.

Definition EV_SYN : Z := 0x00.
Definition EV_KEY : Z := 0x01.
Definition EV_REL : Z := 0x02.
Definition EV_ABS : Z := 0x03.
Definition EV_MSC : Z := 0x04.
Definition EV_SW : Z := 0x05.
Definition EV_LED : Z := 0x11.
Definition EV_SND : Z := 0x12.
Definition EV_REP : Z := 0x14.
Definition EV_FF : Z := 0x15.
Definition EV_MAX : Z := 0x1f.
Definition SYN_REPORT : Z := 0.
Definition SYN_CONFIG : Z := 1.
Definition KEY_UNKNOWN : Z := 240.
Definition KEY_MAX : Z := 0x1ff.
Definition REL_X : Z := 0x00.
Definition REL_Y : Z := 0x01.
Definition REL_HWHEEL : Z := 0x06.
Definition REL_WHEEL : Z := 0x08.
Definition REL_MAX : Z := 0x0f.
Definition ABS_X : Z := 0x00.
Definition ABS_Y : Z := 0x01.
Definition ABS_WHEEL : Z := 0x08.
Definition ABS_MAX : Z := 0x3f.
Definition SW_MAX : Z := 0x0f.
Definition MSC_MAX : Z := 0x07.
Definition LED_MAX : Z := 0x0f.
Definition SND_MAX : Z := 0x07.
Definition REP_DELAY : Z := 0.
Definition REP_PERIOD : Z := 1.
Definition REP_MAX : Z := 1.

(** ** Data *)

(** The capabilities, set by the driver before it registers the device. *)
Record input_caps := InputCaps {
  evbit : gset Z; keybit : gset Z; relbit : gset Z; absbit : gset Z; mscbit : gset Z;
  ledbit : gset Z; sndbit : gset Z; ffbit : gset Z; swbit : gset Z;
  dev_id : Z * Z * Z * Z;           (* bustype, vendor, product, version *)
  absfuzz : gmap Z Z;
  has_event : bool;                 (* dev->event is set *)
  open_fails : bool;                (* dev->open returns an error *)
  rep0 : Z * Z;                     (* rep[REP_DELAY], rep[REP_PERIOD] as the driver set them *)
}.

(** [struct input_dev].  [timer] is the delay in milliseconds of the armed
    repeat timer, [sent] the calls of [dev->event]. *)
Record input_dev := InputDev {
  caps : input_caps;
  key : gset Z; led : gset Z; snd_ : gset Z; sw : gset Z;
  abs : gmap Z Z;
  rep_delay : Z; rep_period : Z;
  sync : bool;
  repeat_key : Z;
  timer_data : bool;
  timer : option Z;
  sent : list (Z * Z * Z);
  grab : option nat;
  users : Z;
  h_list : list nat;
}.

Definition set_key (x : gset Z) (d : input_dev) : input_dev :=
  InputDev (caps d) x (led d) (snd_ d) (sw d) (abs d) (rep_delay d) (rep_period d) (sync d) (repeat_key d)
    (timer_data d) (timer d) (sent d) (grab d) (users d) (h_list d).
Definition set_led (x : gset Z) (d : input_dev) : input_dev :=
  InputDev (caps d) (key d) x (snd_ d) (sw d) (abs d) (rep_delay d) (rep_period d) (sync d) (repeat_key d)
    (timer_data d) (timer d) (sent d) (grab d) (users d) (h_list d).
Definition set_snd (x : gset Z) (d : input_dev) : input_dev :=
  InputDev (caps d) (key d) (led d) x (sw d) (abs d) (rep_delay d) (rep_period d) (sync d) (repeat_key d)
    (timer_data d) (timer d) (sent d) (grab d) (users d) (h_list d).
Definition set_sw (x : gset Z) (d : input_dev) : input_dev :=
  InputDev (caps d) (key d) (led d) (snd_ d) x (abs d) (rep_delay d) (rep_period d) (sync d) (repeat_key d)
    (timer_data d) (timer d) (sent d) (grab d) (users d) (h_list d).
Definition set_abs (x : gmap Z Z) (d : input_dev) : input_dev :=
  InputDev (caps d) (key d) (led d) (snd_ d) (sw d) x (rep_delay d) (rep_period d) (sync d) (repeat_key d)
    (timer_data d) (timer d) (sent d) (grab d) (users d) (h_list d).
Definition set_rep (code v : Z) (d : input_dev) : input_dev :=
  InputDev (caps d) (key d) (led d) (snd_ d) (sw d) (abs d)
    (if code =? REP_DELAY then v else rep_delay d) (if code =? REP_PERIOD then v else rep_period d)
    (sync d) (repeat_key d) (timer_data d) (timer d) (sent d) (grab d) (users d) (h_list d).
Definition set_sync (x : bool) (d : input_dev) : input_dev :=
  InputDev (caps d) (key d) (led d) (snd_ d) (sw d) (abs d) (rep_delay d) (rep_period d) x (repeat_key d)
    (timer_data d) (timer d) (sent d) (grab d) (users d) (h_list d).
Definition set_timer (k : Z) (t : option Z) (d : input_dev) : input_dev :=
  InputDev (caps d) (key d) (led d) (snd_ d) (sw d) (abs d) (rep_delay d) (rep_period d) (sync d) k
    (timer_data d) t (sent d) (grab d) (users d) (h_list d).
Definition set_grab (x : option nat) (d : input_dev) : input_dev :=
  InputDev (caps d) (key d) (led d) (snd_ d) (sw d) (abs d) (rep_delay d) (rep_period d) (sync d) (repeat_key d)
    (timer_data d) (timer d) (sent d) x (users d) (h_list d).
Definition set_users (x : Z) (d : input_dev) : input_dev :=
  InputDev (caps d) (key d) (led d) (snd_ d) (sw d) (abs d) (rep_delay d) (rep_period d) (sync d) (repeat_key d)
    (timer_data d) (timer d) (sent d) (grab d) x (h_list d).
Definition set_h_list (x : list nat) (d : input_dev) : input_dev :=
  InputDev (caps d) (key d) (led d) (snd_ d) (sw d) (abs d) (rep_delay d) (rep_period d) (sync d) (repeat_key d)
    (timer_data d) (timer d) (sent d) (grab d) (users d) x.

(** [if (dev->event) dev->event(dev, type, code, value)] *)
Definition call_event (t c v : Z) (d : input_dev) : input_dev :=
  if has_event (caps d) then
    InputDev (caps d) (key d) (led d) (snd_ d) (sw d) (abs d) (rep_delay d) (rep_period d) (sync d) (repeat_key d)
      (timer_data d) (timer d) (sent d ++ [(t, c, v)]) (grab d) (users d) (h_list d)
  else d.

(** ** The event filter of the input core *)

Definition test_bit (b : Z) (s : gset Z) : bool := bool_decide (b ∈ s).
Definition change_bit (b : Z) (s : gset Z) : gset Z := if test_bit b s then s ∖ {[b]} else {[b]} ∪ s.

(** The fuzz filter for absolute axes: None is [return]. *)
Definition abs_filter (old fuzz value : Z) : option Z :=
  let near w := (s32 (old - w) <? value) && (value <? s32 (old + w)) in
  if fuzz =? 0 then Some value else
  if near (Z.shiftr fuzz 1) then None else
  let value := if near fuzz then Z.shiftr (s32 (old * 3 + value)) 2 else value in
  let value := if near (s32 (Z.shiftl fuzz 1)) then Z.shiftr (s32 (old + value)) 1 else value in
  Some value.

(** The switch of [input_event]: None is [return]; otherwise the device and the
    value that is passed on. *)
Definition event_switch (d : input_dev) (t code value : Z) : option (input_dev * Z) :=
  let c := caps d in
  if t =? EV_SYN then
    if code =? SYN_CONFIG then Some (call_event t code value d, value)
    else if code =? SYN_REPORT then if sync d then None else Some (set_sync true d, value)
    else Some (d, value)
  else if t =? EV_KEY then
    if (KEY_MAX <? code) || negb (test_bit code (keybit c)) || (bool2Z (test_bit code (key d)) =? value) then None
    else if value =? 2 then Some (d, value)
    else
      let d := set_key (change_bit code (key d)) d in
      let d := if test_bit EV_REP (evbit c) && negb (rep_period d =? 0) && negb (rep_delay d =? 0) &&
                  timer_data d && negb (value =? 0)
               then set_timer code (Some (rep_delay d)) d else d in
      Some (d, value)
  else if t =? EV_SW then
    if (SW_MAX <? code) || negb (test_bit code (swbit c)) || (bool2Z (test_bit code (sw d)) =? value) then None
    else Some (set_sw (change_bit code (sw d)) d, value)
  else if t =? EV_ABS then
    if (ABS_MAX <? code) || negb (test_bit code (absbit c)) then None
    else
      let old := default 0 (abs d !! code) in
      match abs_filter old (default 0 (absfuzz c !! code)) value with
      | None => None
      | Some value => if old =? value then None else Some (set_abs (<[code := value]> (abs d)) d, value)
      end
  else if t =? EV_REL then
    if (REL_MAX <? code) || negb (test_bit code (relbit c)) || (value =? 0) then None else Some (d, value)
  else if t =? EV_MSC then
    if (MSC_MAX <? code) || negb (test_bit code (mscbit c)) then None else Some (call_event t code value d, value)
  else if t =? EV_LED then
    if (LED_MAX <? code) || negb (test_bit code (ledbit c)) || (bool2Z (test_bit code (led d)) =? value) then None
    else Some (call_event t code value (set_led (change_bit code (led d)) d), value)
  else if t =? EV_SND then
    if (SND_MAX <? code) || negb (test_bit code (sndbit c)) then None
    else
      let d := if eqb (test_bit code (snd_ d)) (negb (value =? 0)) then d else set_snd (change_bit code (snd_ d)) d in
      Some (call_event t code value d, value)
  else if t =? EV_REP then
    if (REP_MAX <? code) || (value <? 0) || ((if code =? REP_DELAY then rep_delay d else rep_period d) =? value) then None
    else Some (call_event t code value (set_rep code value d), value)
  else if t =? EV_FF then
    if value <? 0 then None else Some (call_event t code value d, value)
  else Some (d, value).

(** ** The event device (evdev.c) *)

Inductive event_type := EVENT_TYPE_PRESS | EVENT_TYPE_RELEASE | EVENT_TYPE_MOTION | EVENT_TYPE_WHEEL.

(** The arguments of the client's callback. *)
Record client_event := ClientEvent {
  arg_type : event_type; arg_keycode : Z; arg_ax : Z; arg_ay : Z; arg_rx : Z; arg_ry : Z
}.

(** [evdev_event_cb] up to the call: None where the event is dropped. *)
Definition evdev_event_cb (ev : gset Z) (t code value : Z) : option client_event :=
  if test_bit EV_SND ev then None
  else if (t =? EV_KEY) && (value =? 2) then None
  else if t =? EV_SYN then None
  else if t =? EV_KEY then
    if value =? 0 then Some (ClientEvent EVENT_TYPE_RELEASE code 0 0 0 0)
    else if value =? 1 then Some (ClientEvent EVENT_TYPE_PRESS code 0 0 0 0)
    else None
  else if t =? EV_ABS then
    if code =? ABS_X then Some (ClientEvent EVENT_TYPE_MOTION KEY_UNKNOWN value 0 0 0)
    else if code =? ABS_Y then Some (ClientEvent EVENT_TYPE_MOTION KEY_UNKNOWN 0 value 0 0)
    else if code =? ABS_WHEEL then Some (ClientEvent EVENT_TYPE_WHEEL KEY_UNKNOWN 0 0 0 value)
    else None
  else if t =? EV_REL then
    if code =? REL_X then Some (ClientEvent EVENT_TYPE_MOTION KEY_UNKNOWN 0 0 value 0)
    else if code =? REL_Y then Some (ClientEvent EVENT_TYPE_MOTION KEY_UNKNOWN 0 0 0 value)
    else if code =? REL_HWHEEL then Some (ClientEvent EVENT_TYPE_WHEEL KEY_UNKNOWN 0 0 value 0)
    else if code =? REL_WHEEL then Some (ClientEvent EVENT_TYPE_WHEEL KEY_UNKNOWN 0 0 0 value)
    else None
  else None.

(** [struct evdev] with its handle's [dev] and [open]. *)
Record evdev := Evdev { exists_ : bool; isopen : bool; devn : Z; h_dev : option loc; h_open : Z }.

Definition evdev_zero : evdev := Evdev false false 0 None 0.
Definition EVDEV_DEVICES : nat := 16.

Record istate := IState {
  devs : gmap loc input_dev;
  input_dev_list : list loc;
  handler_on : bool;                (* evdev_handler is in input_handler_list *)
  handler_h_list : list nat;        (* evdev_handler.h_list *)
  DEVS : list evdev;
  callback : bool;
  out : list (loc * client_event);
}.

Definition set_devs (x : gmap loc input_dev) (s : istate) : istate :=
  IState x (input_dev_list s) (handler_on s) (handler_h_list s) (DEVS s) (callback s) (out s).
Definition set_DEVS (x : list evdev) (s : istate) : istate :=
  IState (devs s) (input_dev_list s) (handler_on s) (handler_h_list s) x (callback s) (out s).
Definition add_out (x : list (loc * client_event)) (s : istate) : istate :=
  IState (devs s) (input_dev_list s) (handler_on s) (handler_h_list s) (DEVS s) (callback s) (out s ++ x).

Definition slot (i : nat) (s : istate) : evdev := default evdev_zero (DEVS s !! i).

(** ** Operations of the input core *)

(** [handler->event] of the event device, for the device at [a]. *)
Definition handler_event (a : loc) (ev : gset Z) (t code value : Z) (s : istate) : istate :=
  match evdev_event_cb ev t code value with
  | Some e => if callback s then add_out [(a, e)] s else s
  | None => s
  end.

Definition input_event (a : loc) (t code value : Z) (s : istate) : istate :=
  match devs s !! a with
  | None => s
  | Some d =>
      if (EV_MAX <? t) || negb (test_bit t (evbit (caps d))) then s else
      match event_switch d t code value with
      | None => s
      | Some (d, value) =>
          let d := if t =? EV_SYN then d else set_sync false d in
          let s := set_devs (<[a := d]> (devs s)) s in
          match grab d with
          | Some _ => handler_event a (evbit (caps d)) t code value s
          | None => fold_left (λ s i, if h_open (slot i s) =? 0 then s
                                      else handler_event a (evbit (caps d)) t code value s) (h_list d) s
          end
      end
  end.

Definition input_report_key (a : loc) (code value : Z) (s : istate) : istate :=
  input_event a EV_KEY code (bool2Z (negb (value =? 0))) s.

Definition input_sync (a : loc) (s : istate) : istate := input_event a EV_SYN SYN_REPORT 0 s.

(** A change to the device at [a]. *)
Definition on_dev (a : loc) (f : input_dev → input_dev) (s : istate) : istate :=
  set_devs (alter f a (devs s)) s.

(** Handle [i] may inject unless another handle has grabbed the device. *)
Definition input_inject_event (i : nat) (t code value : Z) (s : istate) : istate :=
  match h_dev (slot i s) with
  | None => s
  | Some a =>
      match devs s !! a ≫= grab with
      | None => input_event a t code value s
      | Some j => if (i =? j)%nat then input_event a t code value s else s
      end
  end.

(** The timer function: the timer is no longer armed when it runs. *)
Definition input_repeat_key (a : loc) (s : istate) : istate :=
  match devs s !! a with
  | None => s
  | Some d =>
      let s := on_dev a (λ d, set_timer (repeat_key d) None d) s in
      if negb (test_bit (repeat_key d) (key d)) then s else
      let s := input_event a EV_KEY (repeat_key d) 2 s in
      let s := input_sync a s in
      on_dev a (λ d, if rep_period d =? 0 then d else set_timer (repeat_key d) (Some (rep_period d)) d) s
  end.

Definition input_grab_device (i : nat) (s : istate) : Z * istate :=
  match h_dev (slot i s) with
  | None => (0, s)
  | Some a =>
      match devs s !! a ≫= grab with
      | Some _ => (- EBUSY, s)
      | None => (0, on_dev a (set_grab (Some i)) s)
      end
  end.

(** The handlers' [start] is not set by the event device. *)
Definition input_release_device (i : nat) (s : istate) : istate :=
  match h_dev (slot i s) with
  | None => s
  | Some a => on_dev a (λ d, if decide (grab d = Some i) then set_grab None d else d) s
  end.

Definition on_slot (i : nat) (f : evdev → evdev) (s : istate) : istate :=
  set_DEVS (alter f i (DEVS s)) s.

Definition set_open (n : Z) (e : evdev) : evdev := Evdev (exists_ e) (isopen e) (devn e) (h_dev e) n.

(** The mutex is free: the operations are not interrupted. *)
Definition input_open_device (i : nat) (s : istate) : istate :=
  match h_dev (slot i s) with
  | None => s
  | Some a =>
      let err := match devs s !! a with Some d => (users d =? 0) && open_fails (caps d) | None => false end in
      let s := on_slot i (λ e, set_open (h_open e + 1) e) s in
      let s := on_dev a (λ d, set_users (users d + 1) d) s in
      if err then on_slot i (λ e, set_open (h_open e - 1) e) s else s
  end.

Definition input_close_device (i : nat) (s : istate) : istate :=
  match h_dev (slot i s) with
  | None => s
  | Some a =>
      let s := input_release_device i s in
      let s := on_dev a (λ d, set_users (users d - 1) d) s in
      on_slot i (λ e, set_open (h_open e - 1) e) s
  end.

(** [struct input_device_id] *)
Record input_device_id := InputDeviceId {
  flags : Z; driver_info : Z; id_id : Z * Z * Z * Z; id_bits : list (gset Z)
}.

Definition cap_bits (c : input_caps) : list (gset Z) :=
  [evbit c; keybit c; relbit c; absbit c; mscbit c; ledbit c; sndbit c; ffbit c; swbit c].

(** One entry: the flags select which identifiers have to agree; MATCH_BIT asks
    for every bit of the entry. *)
Definition id_matches (id : input_device_id) (c : input_caps) : bool :=
  let '(b, v, p, r) := id_id id in
  let '(b', v', p', r') := dev_id c in
  (negb (Z.testbit (flags id) 0) || (b =? b')) && (negb (Z.testbit (flags id) 1) || (v =? v')) &&
  (negb (Z.testbit (flags id) 2) || (p =? p')) && (negb (Z.testbit (flags id) 3) || (r =? r')) &&
  forallb (λ p, bool_decide (fst p ⊆ snd p)) (zip (id_bits id) (cap_bits c)).

Fixpoint input_match_device (ids : list input_device_id) (c : input_caps) : option input_device_id :=
  match ids with
  | [] => None
  | id :: ids =>
      if (flags id =? 0) && (driver_info id =? 0) then None
      else if id_matches id c then Some id else input_match_device ids c
  end.

Definition evdev_ids : list input_device_id :=
  [InputDeviceId 0 1 (0, 0, 0, 0) (replicate 9 ∅); InputDeviceId 0 0 (0, 0, 0, 0) (replicate 9 ∅)].

(** ** Connecting and disconnecting (evdev.c) *)

(** The loop that looks for a free entry. *)
Fixpoint free_evdev (l : list evdev) (i : nat) : nat :=
  match l with
  | e :: l => if exists_ e then free_evdev l (S i) else i
  | [] => i
  end.

Definition evdev_connect (a : loc) (s : istate) : option nat * istate :=
  let i := free_evdev (DEVS s) 0 in
  if (i =? EVDEV_DEVICES)%nat then (None, s)
  else
    let s := set_DEVS (<[i := Evdev true false (Z.of_nat i) (Some a) 0]> (DEVS s)) s in
    (Some i, input_open_device i s).

Definition evdev_disconnect (i : nat) (s : istate) : istate :=
  let n := Z.to_nat (devn (slot i s)) in
  let s := on_slot i (λ e, Evdev false (isopen e) (devn e) (h_dev e) (h_open e)) s in
  if isopen (slot i s) then input_close_device i s
  else set_DEVS (<[n := evdev_zero]> (DEVS s)) s.

(** ** Registration *)

Definition input_link_handle (a : loc) (i : nat) (s : istate) : istate :=
  let s := on_dev a (λ d, set_h_list (h_list d ++ [i]) d) s in
  IState (devs s) (input_dev_list s) (handler_on s) (handler_h_list s ++ [i]) (DEVS s) (callback s) (out s).

(** The body of the loops that connect a handler and a device. *)
Definition connect_device (a : loc) (s : istate) : istate :=
  match devs s !! a with
  | None => s
  | Some d =>
      match input_match_device evdev_ids (caps d) with
      | None => s
      | Some _ => match evdev_connect a s with (Some i, s) => input_link_handle a i s | (None, s) => s end
      end
  end.

(** [err] is the result of [class_device_add] and [sysfs_create_group]. *)
Definition input_register_device (err : Z) (a : loc) (c : input_caps) (s : istate) : Z * istate :=
  let c := InputCaps ({[EV_SYN]} ∪ evbit c) (keybit c) (relbit c) (absbit c) (mscbit c) (ledbit c) (sndbit c)
             (ffbit c) (swbit c) (dev_id c) (absfuzz c) (has_event c) (open_fails c) (rep0 c) in
  let soft := (fst (rep0 c) =? 0) && (snd (rep0 c) =? 0) in
  let d := InputDev c ∅ ∅ ∅ ∅ ∅ (if soft then 250 else fst (rep0 c)) (if soft then 33 else snd (rep0 c))
             false 0 soft None [] None 0 [] in
  let s := IState (<[a := d]> (devs s)) (input_dev_list s ++ [a]) (handler_on s) (handler_h_list s)
             (DEVS s) (callback s) (out s) in
  if err =? 0 then (0, if handler_on s then connect_device a s else s) else (err, s).

(** The release of the pressed keys, in the order of their codes. *)
Definition key_codes : list Z := seqZ 0 (KEY_MAX + 1).

Definition release_keys (a : loc) (s : istate) : istate :=
  fold_left (λ s c, match devs s !! a with
                    | Some d => if test_bit c (key d) then input_report_key a c 0 s else s
                    | None => s
                    end) key_codes s.

(** [list_del_init] of both nodes and [disconnect]. *)
Definition unlink_handle (a : loc) (i : nat) (s : istate) : istate :=
  let s := on_dev a (λ d, set_h_list (List.remove Nat.eq_dec i (h_list d)) d) s in
  let s := IState (devs s) (input_dev_list s) (handler_on s) (List.remove Nat.eq_dec i (handler_h_list s))
             (DEVS s) (callback s) (out s) in
  evdev_disconnect i s.

(** The handles are unlinked and disconnected, then the device is removed. *)
Definition remove_device (a : loc) (s : istate) : istate :=
  let s := fold_left (λ s i, unlink_handle a i s) (match devs s !! a with Some d => h_list d | None => [] end) s in
  IState (delete a (devs s)) (List.remove Pos.eq_dec a (input_dev_list s)) (handler_on s) (handler_h_list s)
    (DEVS s) (callback s) (out s).

Definition stop_repeat (a : loc) (s : istate) : istate := on_dev a (λ d, set_timer (repeat_key d) None d) s.

Definition input_unregister_device (a : loc) (s : istate) : istate :=
  match devs s !! a with
  | None => s
  | Some _ => remove_device a (stop_repeat a (input_sync a (release_keys a s)))
  end.

(** The event device sets no [fops], so [input_table] is not used. *)
Definition input_register_handler (s : istate) : istate :=
  let s := IState (devs s) (input_dev_list s) true [] (DEVS s) (callback s) (out s) in
  fold_left (λ s a, connect_device a s) (input_dev_list s) s.

Definition input_unregister_handler (s : istate) : istate :=
  let s := fold_left (λ s i, match h_dev (slot i s) with Some a => unlink_handle a i s | None => s end)
             (handler_h_list s) s in
  IState (devs s) (input_dev_list s) false (handler_h_list s) (DEVS s) (callback s) (out s).

(** [cb] says whether the callback is not NULL. *)
Definition dde_linux26_input_init (cb : bool) (s : istate) : Z * istate :=
  if cb then
    (0, input_register_handler
          (IState (devs s) (input_dev_list s) (handler_on s) (handler_h_list s) (DEVS s) true (out s)))
  else (- EINVAL, s).

Definition dde_linux26_input_exit (s : istate) : istate := input_unregister_handler s.

(** ** Histories *)

(** What drivers and the timer do.  A driver registers the memory of a device
    that is not registered, and reports keys with the values 0, 1 and 2. *)
Inductive op :=
| Register (a : loc) (c : input_caps)
| Unregister (a : loc)
| Event (a : loc) (t code value : Z)
| Repeat (a : loc).

Definition op_ok (o : op) : Prop :=
  match o with
  | Event _ t code value => 0 ≤ code ∧ (t = EV_KEY → value = 0 ∨ value = 1 ∨ value = 2)
  | _ => True
  end.

Definition step (s : istate) (o : op) : istate :=
  match o with
  | Register a c => match devs s !! a with Some _ => s | None => snd (input_register_device 0 a c s) end
  | Unregister a => input_unregister_device a s
  | Event a t code value => input_event a t code value s
  | Repeat a => input_repeat_key a s
  end.

(** The client has called [dde_linux26_input_init] before the first device. *)
Definition boot : istate :=
  snd (dde_linux26_input_init true (IState ∅ [] false [] (replicate EVDEV_DEVICES evdev_zero) false [])).

(** The presses ([true]) and releases of one key of one device, as logged. *)
Definition key_entry (a : loc) (c : Z) (x : loc * client_event) : list bool :=
  if bool_decide (fst x = a) && (arg_keycode (snd x) =? c) then
    match arg_type (snd x) with EVENT_TYPE_PRESS => [true] | EVENT_TYPE_RELEASE => [false] | _ => [] end
  else [].

Definition key_log (a : loc) (c : Z) (l : list (loc * client_event)) : list bool := concat (map (key_entry a c) l).

(** The state of the key after a log in which presses and releases alternate. *)
Fixpoint alternate (b : bool) (l : list bool) : option bool :=
  match l with
  | [] => Some b
  | x :: l => if eqb x b then None else alternate x l
  end.

(** The device's events reach the client. *)
Definition hears (d : input_dev) : bool :=
  negb (test_bit EV_SND (evbit (caps d))) && negb (open_fails (caps d)) &&
  match h_list d with [] => false | _ => true end.

Definition pressed (a : loc) (c : Z) (s : istate) : bool :=
  match devs s !! a with Some d => hears d && test_bit c (key d) | None => false end.

Definition evdev_of (a : loc) (i : nat) (d : input_dev) : evdev :=
  Evdev true false (Z.of_nat i) (Some a) (if open_fails (caps d) then 0 else 1).

Record dev_inv (s : istate) (a : loc) (d : input_dev) : Prop := {
  di_grab : grab d = None;
  di_keys : ∀ c, c ∈ key d → 0 ≤ c ≤ KEY_MAX ∧ c ∈ keybit (caps d) ∧ EV_KEY ∈ evbit (caps d);
  di_handles : (h_list d = [] ∧ users d = 0) ∨
               ∃ i, h_list d = [i] ∧ DEVS s !! i = Some (evdev_of a i d) ∧ users d = 1;
}.

Record input_inv (s : istate) : Prop := {
  ii_len : length (DEVS s) = EVDEV_DEVICES;
  ii_on : callback s = true ∧ handler_on s = true;
  ii_devs : ∀ a d, devs s !! a = Some d → dev_inv s a d;
  ii_slots : ∀ i e, DEVS s !! i = Some e → e = evdev_zero ∨ ∃ a d, devs s !! a = Some d ∧ h_list d = [i];
  ii_log : ∀ a c, alternate false (key_log a c (out s)) = Some (pressed a c s);
}.

(** ** Lemmas *)

Lemma alternate_app b l l' : alternate b (l ++ l') = alternate b l ≫= λ b', alternate b' l'.
Proof. revert b. induction l as [|x l IH]; intros b; cbn; [done|]. destruct (eqb x b); [done|]. apply IH. Qed.

Lemma key_log_app a c l l' : key_log a c (l ++ l') = key_log a c l ++ key_log a c l'.
Proof. unfold key_log. by rewrite map_app, concat_app. Qed.

Lemma test_bit_true b s : test_bit b s = true ↔ b ∈ s.
Proof. apply bool_decide_eq_true. Qed.

Lemma test_change_bit b c s : test_bit c (change_bit b s) = if b =? c then negb (test_bit b s) else test_bit c s.
Proof.
  unfold change_bit, test_bit. destruct (Z.eqb_spec b c) as [<-|]; repeat case_bool_decide; set_solver.
Qed.

(** What the switch keeps, and what it does to the keys. *)
Record switch_frame (d d' : input_dev) : Prop := {
  sf_caps : caps d' = caps d; sf_grab : grab d' = grab d; sf_users : users d' = users d; sf_h : h_list d' = h_list d;
}.

Lemma switch_frame_refl d : switch_frame d d.
Proof. done. Qed.
Lemma call_event_frame t c v d : switch_frame d (call_event t c v d).
Proof. unfold call_event. by destruct (has_event (caps d)). Qed.
Lemma call_event_key t c v d : key (call_event t c v d) = key d.
Proof. unfold call_event. by destruct (has_event (caps d)). Qed.
Lemma switch_frame_trans d1 d2 d3 : switch_frame d1 d2 → switch_frame d2 d3 → switch_frame d1 d3.
Proof. intros [] []. split; congruence. Qed.
#[export] Hint Resolve switch_frame_refl call_event_frame : dde.

Lemma event_switch_frame d t c v d' v' : event_switch d t c v = Some (d', v') → switch_frame d d'.
Proof.
  unfold event_switch. intros Hs. repeat case_match; simplify_eq; try (by split); auto with dde;
    try (eapply switch_frame_trans; [|apply call_event_frame]; by split).
Qed.

Lemma event_switch_other d t c v d' v' : t ≠ EV_KEY → event_switch d t c v = Some (d', v') → key d' = key d.
Proof.
  unfold event_switch. intros Ht Hs. repeat case_match; simplify_eq; rewrite ?call_event_key; try done; bool_solve; done.
Qed.

Lemma event_switch_key d c v d' v' : event_switch d EV_KEY c v = Some (d', v') →
  v' = v ∧ c ≤ KEY_MAX ∧ c ∈ keybit (caps d) ∧ bool2Z (test_bit c (key d)) ≠ v ∧
  key d' = if v =? 2 then key d else change_bit c (key d).
Proof.
  unfold event_switch. change (EV_KEY =? EV_SYN) with false. change (EV_KEY =? EV_KEY) with true. cbn match.
  intros Hs. destruct (Z.ltb_spec KEY_MAX c); [done|]. cbn [orb] in Hs.
  destruct (test_bit c (keybit (caps d))) eqn:Hk; [|done]. cbn [negb orb] in Hs. apply test_bit_true in Hk.
  destruct (Z.eqb_spec (bool2Z (test_bit c (key d))) v); [done|].
  destruct (v =? 2); [by simplify_eq|]. split; [by repeat case_match; simplify_eq|].
  repeat (split; [done|]). by repeat case_match; simplify_eq.
Qed.

(** The event as it reaches the handlers of an inert or connected device. *)
Definition delivered (a : loc) (d : input_dev) (t code value : Z) : list (loc * client_event) :=
  if hears d then match evdev_event_cb (evbit (caps d)) t code value with Some e => [(a, e)] | None => [] end else [].

Lemma add_out_nil s : add_out [] s = s.
Proof. destruct s. unfold add_out. cbn. by rewrite app_nil_r. Qed.

Lemma input_event_cases s a t code value : input_inv s →
  input_event a t code value s = s ∨
  ∃ d d' v', devs s !! a = Some d ∧ t ∈ evbit (caps d) ∧ event_switch d t code value = Some (d', v') ∧
    input_event a t code value s =
      add_out (delivered a d t code v')
        (set_devs (<[a := if t =? EV_SYN then d' else set_sync false d']> (devs s)) s).
Proof.
  intros Hi. unfold input_event. destruct (devs s !! a) as [d|] eqn:Hd; [|by left].
  destruct (_ || _) eqn:Hg; [by left|]. apply orb_false_iff in Hg as [_ Hev].
  apply negb_false_iff, test_bit_true in Hev.
  destruct (event_switch d t code value) as [[d' v']|] eqn:Hs; [right|by left].
  exists d, d', v'. do 3 (split; [done|]).
  destruct (event_switch_frame _ _ _ _ _ _ Hs) as [Hc Hgr Hu Hh].
  set (d2 := if t =? EV_SYN then d' else set_sync false d').
  assert (grab d2 = None) as -> by (unfold d2; destruct (t =? EV_SYN); cbn; rewrite Hgr; by apply (ii_devs _ Hi a d)).
  assert (h_list d2 = h_list d) as -> by (unfold d2; by destruct (t =? EV_SYN)).
  assert (caps d2 = caps d) as -> by (unfold d2; by destruct (t =? EV_SYN)).
  unfold delivered, hears.
  destruct (test_bit EV_SND (evbit (caps d))) eqn:Hsnd; cbn [negb andb].
  { rewrite add_out_nil. destruct (di_handles _ _ _ (ii_devs _ Hi a d Hd)) as [[-> _]|(i & -> & _)]; [done|].
    cbn [fold_left]. unfold handler_event, evdev_event_cb. rewrite Hsnd. by destruct (_ =? 0). }
  destruct (di_handles _ _ _ (ii_devs _ Hi a d Hd)) as [[-> _]|(i & -> & Hsl & _)].
  { rewrite andb_false_r. cbn. by rewrite add_out_nil. }
  cbn [fold_left]. rewrite andb_true_r.
  assert (Hop : ∀ m, h_open (slot i (set_devs m s)) = if open_fails (caps d) then 0 else 1).
  { intros m. unfold slot. cbn [DEVS set_devs]. by rewrite Hsl. }
  rewrite Hop.
  destruct (open_fails (caps d)); cbn [negb]; [by rewrite add_out_nil|].
  change (1 =? 0) with false. cbn match.
  unfold handler_event. cbn [callback set_devs]. rewrite (proj1 (ii_on _ Hi)).
  by destruct (evdev_event_cb _ _ _ _); [|rewrite add_out_nil].
Qed.

Lemma pressed_hears a c s d : devs s !! a = Some d → pressed a c s = hears d && test_bit c (key d).
Proof. intros Hd. unfold pressed. by rewrite Hd. Qed.

(** The log entries one event makes, for every key of every device. *)
Lemma delivered_log a d t code value d' v' b c :
  0 ≤ code → (t = EV_KEY → value = 0 ∨ value = 1 ∨ value = 2) →
  event_switch d t code value = Some (d', v') →
  alternate (hears d && test_bit c (key d)) (key_log b c (delivered a d t code v')) =
  Some (if decide (b = a) then hears d && test_bit c (key d') else hears d && test_bit c (key d)).
Proof.
  intros Hc Hv Hs. unfold delivered. destruct (hears d) eqn:Hh; [|by destruct (decide (b = a))]. cbn [andb].
  assert (Hsnd : test_bit EV_SND (evbit (caps d)) = false).
  { unfold hears in Hh. by destruct (test_bit EV_SND (evbit (caps d))). }
  destruct (decide (t = EV_KEY)) as [->|Ht].
  - destruct (event_switch_key _ _ _ _ _ Hs) as (-> & Hmax & Hkb & Hne & Hk). rewrite Hk.
    unfold evdev_event_cb. rewrite Hsnd. change (EV_KEY =? EV_KEY) with true. change (EV_KEY =? EV_SYN) with false. cbn [andb].
    unfold key_log, key_entry.
    destruct (Hv eq_refl) as [->|[->| ->]]; cbn [Z.eqb Pos.eqb map concat fst snd arg_keycode arg_type].
    + rewrite test_change_bit. destruct (decide (b = a)) as [->|]; [rewrite bool_decide_eq_true_2 by done|
        rewrite bool_decide_eq_false_2 by done]; cbn [andb app alternate]; [|done].
      destruct (Z.eqb_spec code c) as [<-|]; [|done]. by destruct (test_bit code (key d)).
    + rewrite test_change_bit. destruct (decide (b = a)) as [->|]; [rewrite bool_decide_eq_true_2 by done|
        rewrite bool_decide_eq_false_2 by done]; cbn [andb app alternate]; [|done].
      destruct (Z.eqb_spec code c) as [<-|]; [|done]. by destruct (test_bit code (key d)).
    + by destruct (decide (b = a)).
  - rewrite (event_switch_other _ _ _ _ _ _ Ht Hs).
    replace (key_log b c _) with (@nil bool); [by destruct (decide (b = a))|].
    unfold evdev_event_cb. rewrite Hsnd, (proj2 (Z.eqb_neq t EV_KEY) Ht). cbn [andb].
    unfold key_log, key_entry.
    repeat case_match; simplify_eq; cbn [map concat fst snd arg_keycode arg_type app]; try done;
      destruct (_ && _); done.
Qed.

Lemma hears_frame d d' : switch_frame d d' → hears d' = hears d.
Proof. intros [Hc _ _ Hh]. unfold hears. by rewrite Hc, Hh. Qed.

(** A registered device changes without changing its handle, and the log grows
    to match its keys. *)
Lemma inv_update s a d d2 l :
  input_inv s → devs s !! a = Some d → switch_frame d d2 →
  (∀ c, c ∈ key d2 → 0 ≤ c ≤ KEY_MAX ∧ c ∈ keybit (caps d) ∧ EV_KEY ∈ evbit (caps d)) →
  (∀ b c, alternate (pressed b c s) (key_log b c l) =
          Some (if decide (b = a) then hears d && test_bit c (key d2) else pressed b c s)) →
  input_inv (add_out l (set_devs (<[a := d2]> (devs s)) s)).
Proof.
  intros [Hlen Hon Hdevs Hslots Hlog] Hd Hf Hkeys Hl. pose proof Hf as [Hc Hg Hu Hh].
  split; cbn [DEVS callback handler_on devs out add_out set_devs]; [done|done| | |].
  - intros b db. destruct (decide (b = a)) as [->|]; [rewrite lookup_insert_eq; intros [= <-]|
      rewrite lookup_insert_ne by done; intros Hb; by destruct (Hdevs b db Hb)].
    destruct (Hdevs a d Hd) as [Hgr _ Hha]. split; [by rewrite Hg|by rewrite Hc|].
    rewrite Hh, Hu. unfold evdev_of. by rewrite Hc.
  - intros i e He. destruct (Hslots i e He) as [->|(b & db & Hb & Hbl)]; [by left|right].
    destruct (decide (b = a)) as [->|]; [exists a, d2|exists b, db].
    + rewrite lookup_insert_eq, Hh. split; [done|]. congruence.
    + by rewrite lookup_insert_ne.
  - intros b c. rewrite key_log_app, alternate_app, Hlog. cbn [mbind option_bind]. rewrite Hl. f_equal.
    unfold pressed. cbn [devs add_out set_devs]. destruct (decide (b = a)) as [->|].
    + rewrite lookup_insert_eq. by rewrite (hears_frame d d2).
    + by rewrite lookup_insert_ne.
Qed.

(** The same for a change that leaves the keys and the log alone. *)
Lemma inv_on_dev s a f :
  input_inv s → (∀ d, switch_frame d (f d) ∧ key (f d) = key d) → input_inv (on_dev a f s).
Proof.
  intros Hi Hf. unfold on_dev. destruct (devs s !! a) as [d|] eqn:Hd.
  - destruct (Hf d) as [Hfr Hk].
    replace (alter f a (devs s)) with (<[a := f d]> (devs s)).
    2:{ apply map_eq. intros b. destruct (decide (a = b)) as [<-|].
        - by rewrite lookup_insert_eq, lookup_alter_eq, Hd.
        - by rewrite lookup_insert_ne, lookup_alter_ne. }
    rewrite <- (add_out_nil (set_devs _ s)). apply (inv_update s a d); [done..| |].
    + rewrite Hk. apply (ii_devs _ Hi a d Hd).
    + intros b c. cbn. rewrite Hk. destruct (decide (b = a)) as [->|]; [by rewrite (pressed_hears a c s d)|done].
  - replace (alter f a (devs s)) with (devs s); [by destruct s|].
    apply map_eq. intros b. destruct (decide (a = b)) as [<-|].
    + by rewrite lookup_alter_eq, Hd.
    + by rewrite lookup_alter_ne.
Qed.

Lemma input_event_inv s a t code value :
  input_inv s → 0 ≤ code → (t = EV_KEY → value = 0 ∨ value = 1 ∨ value = 2) →
  input_inv (input_event a t code value s).
Proof.
  intros Hi Hc Hv. destruct (input_event_cases s a t code value Hi) as [->|(d & d' & v' & Hd & Hev & Hs & ->)]; [done|].
  set (d2 := if t =? EV_SYN then d' else set_sync false d').
  assert (Hk2 : key d2 = key d') by (unfold d2; by destruct (t =? EV_SYN)).
  assert (Hf2 : switch_frame d d2).
  { pose proof (event_switch_frame _ _ _ _ _ _ Hs) as []. unfold d2. by destruct (t =? EV_SYN). }
  apply (inv_update s a d); [done..| |].
  - rewrite Hk2. intros c Hin. pose proof (di_keys _ _ _ (ii_devs _ Hi a d Hd)) as Hold.
    destruct (decide (t = EV_KEY)) as [->|Ht]; [|rewrite (event_switch_other _ _ _ _ _ _ Ht Hs) in Hin; by apply Hold].
    destruct (event_switch_key _ _ _ _ _ Hs) as (-> & Hmax & Hkb & _ & Hk). rewrite Hk in Hin.
    destruct (value =? 2); [by apply Hold|]. apply test_bit_true in Hin. rewrite test_change_bit in Hin.
    destruct (Z.eqb_spec code c) as [Hcc|]; [rewrite <- Hcc; done|]. by apply test_bit_true, Hold in Hin.
  - intros b c. rewrite Hk2. pose proof (delivered_log a d t code value d' v' b c Hc Hv Hs) as Hdl.
    destruct (decide (b = a)) as [->|Hne]; [by rewrite (pressed_hears a c s d)|].
    replace (key_log b c (delivered a d t code v')) with (@nil bool); [done|].
    unfold delivered, key_log. destruct (hears d); [|done]. destruct (evdev_event_cb _ _ _ _); [|done].
    cbn [map concat]. unfold key_entry. cbn [fst]. by rewrite bool_decide_eq_false_2 by done.
Qed.

Lemma input_sync_inv s a : input_inv s → input_inv (input_sync a s).
Proof. intros. by apply input_event_inv. Qed.

Lemma input_repeat_key_inv s a : input_inv s → input_inv (input_repeat_key a s).
Proof.
  intros Hi. unfold input_repeat_key. destruct (devs s !! a) as [d|] eqn:Hd; [|done].
  assert (Hi1 : input_inv (on_dev a (λ d, set_timer (repeat_key d) None d) s)) by (by apply inv_on_dev).
  destruct (test_bit (repeat_key d) (key d)) eqn:Hk; cbn [negb]; [|done].
  apply test_bit_true, (di_keys _ _ _ (ii_devs _ Hi a d Hd)) in Hk as [Hk _].
  apply inv_on_dev; [|intros d0; by destruct (rep_period d0 =? 0)].
  apply input_sync_inv, input_event_inv; [done|lia|auto].
Qed.

(** ** Removing a device *)

Lemma input_event_other s a b t code value : input_inv s → b ≠ a → devs (input_event a t code value s) !! b = devs s !! b.
Proof.
  intros Hi Hb. destruct (input_event_cases s a t code value Hi) as [->|(d & d' & v' & _ & _ & _ & ->)]; [done|].
  cbn [devs add_out set_devs]. by rewrite lookup_insert_ne.
Qed.

Lemma input_event_DEVS s a t code value : input_inv s → DEVS (input_event a t code value s) = DEVS s.
Proof. intros Hi. by destruct (input_event_cases s a t code value Hi) as [->|(d & d' & v' & _ & _ & _ & ->)]. Qed.

(** Reporting the release of a pressed key clears exactly that key. *)
Lemma report_release s a d c : input_inv s → devs s !! a = Some d → c ∈ key d →
  ∃ d', devs (input_report_key a c 0 s) !! a = Some d' ∧ switch_frame d d' ∧ key d' = key d ∖ {[c]}.
Proof.
  intros Hi Hd Hc. destruct (di_keys _ _ _ (ii_devs _ Hi a d Hd) c Hc) as (Hr & Hkb & Hev).
  unfold input_report_key. change (bool2Z _) with 0.
  assert (Hs : ∃ d', event_switch d EV_KEY c 0 = Some (d', 0)).
  { unfold event_switch. change (EV_KEY =? EV_SYN) with false. change (EV_KEY =? EV_KEY) with true. cbn match.
    rewrite (proj2 (Z.ltb_ge _ _)), (proj2 (test_bit_true _ _) Hkb), (proj2 (test_bit_true _ _) Hc) by lia. cbn [negb orb bool2Z Z.eqb].
    change (1 =? 0) with false. eauto. }
  destruct Hs as [d' Hs]. destruct (event_switch_key _ _ _ _ _ Hs) as (_ & _ & _ & _ & Hk).
  pose proof (event_switch_frame _ _ _ _ _ _ Hs) as Hf.
  unfold input_event. rewrite Hd, Hs, (proj2 (test_bit_true _ _) Hev). change (EV_MAX <? EV_KEY) with false.
  change (EV_KEY =? EV_SYN) with false. cbn [negb orb].
  assert (Hgr : grab (set_sync false d') = None) by (cbn; rewrite (sf_grab _ _ Hf); apply (ii_devs _ Hi a d Hd)).
  rewrite Hgr. exists (set_sync false d'). split; [|split].
  - assert (Hfold : ∀ l s0, devs (fold_left (λ s i, if h_open (slot i s) =? 0 then s
       else handler_event a (evbit (caps (set_sync false d'))) EV_KEY c 0 s) l s0) = devs s0).
    { induction l as [|i l IH]; intros s0; [done|]. cbn [fold_left]. rewrite IH. destruct (_ =? 0); [done|].
      unfold handler_event. destruct (evdev_event_cb _ _ _ _); [|done]. by destruct (callback s0). }
    rewrite Hfold. cbn [devs set_devs]. apply lookup_insert_eq.
  - destruct Hf. by split.
  - cbn [key set_sync]. rewrite Hk. change (0 =? 2) with false. unfold change_bit. by rewrite (proj2 (test_bit_true _ _) Hc).
Qed.

(** One iteration of the release loop. *)
Definition release_key (a : loc) (s : istate) (c : Z) : istate :=
  match devs s !! a with
  | Some d => if test_bit c (key d) then input_report_key a c 0 s else s
  | None => s
  end.

Lemma release_loop a cs : ∀ s d,
  input_inv s → devs s !! a = Some d → Forall (λ c, 0 ≤ c) cs →
  let s' := fold_left (release_key a) cs s in
  input_inv s' ∧ DEVS s' = DEVS s ∧
  ∃ d', devs s' !! a = Some d' ∧ switch_frame d d' ∧ ∀ c, c ∈ key d' ↔ c ∈ key d ∧ c ∉ cs.
Proof.
  induction cs as [|c cs IH]; intros s d Hi Hd Hcs; cbn [fold_left].
  { split; [done|]. split; [done|]. exists d. split; [done|]. split; [done|]. intros c. set_solver. }
  apply list.Forall_cons in Hcs as [Hc Hcs].
  assert (H1 : ∃ d1, input_inv (release_key a s c) ∧ DEVS (release_key a s c) = DEVS s ∧
    devs (release_key a s c) !! a = Some d1 ∧ switch_frame d d1 ∧ key d1 = key d ∖ {[c]}).
  { unfold release_key. rewrite Hd. destruct (test_bit c (key d)) eqn:Ht.
    - apply test_bit_true in Ht. destruct (report_release s a d c Hi Hd Ht) as (d1 & ? & ? & ?). exists d1.
      split; [by apply input_event_inv; auto|]. split; [by apply input_event_DEVS|done].
    - exists d. do 4 (split; [done|]). apply not_true_iff_false in Ht. rewrite test_bit_true in Ht. set_solver. }
  destruct H1 as (d1 & Hi1 & HD1 & Hd1 & Hf1 & Hk1).
  destruct (IH _ _ Hi1 Hd1 Hcs) as (Hi2 & HD2 & d2 & Hd2 & Hf2 & Hk2).
  split; [done|]. split; [congruence|]. exists d2. split; [done|]. split; [by eapply switch_frame_trans|].
  intros x. rewrite Hk2, Hk1. set_solver.
Qed.

Lemma elem_of_key_codes c : c ∈ key_codes ↔ 0 ≤ c ≤ KEY_MAX.
Proof. unfold key_codes. rewrite elem_of_seqZ. lia. Qed.

Lemma release_keys_spec a s d : input_inv s → devs s !! a = Some d →
  input_inv (release_keys a s) ∧ DEVS (release_keys a s) = DEVS s ∧
  ∃ d', devs (release_keys a s) !! a = Some d' ∧ switch_frame d d' ∧ key d' = ∅.
Proof.
  intros Hi Hd. destruct (release_loop a key_codes s d Hi Hd) as (Hi' & HD & d' & Hd' & Hf & Hk).
  { apply list.Forall_forall. intros c. rewrite elem_of_key_codes. lia. }
  split; [done|]. split; [done|]. exists d'. split; [done|]. split; [done|].
  apply set_eq. intros c. rewrite Hk. split; [|by intros ?%not_elem_of_empty]. intros [Hc Hn].
  destruct (di_keys _ _ _ (ii_devs _ Hi a d Hd) c Hc) as [Hr _]. destruct Hn. by apply elem_of_key_codes.
Qed.

Lemma input_sync_dev a s d : input_inv s → devs s !! a = Some d →
  DEVS (input_sync a s) = DEVS s ∧
  ∃ d', devs (input_sync a s) !! a = Some d' ∧ switch_frame d d' ∧ key d' = key d.
Proof.
  intros Hi Hd. split; [by apply input_event_DEVS|]. unfold input_sync.
  destruct (input_event_cases s a EV_SYN SYN_REPORT 0 Hi) as [->|(d0 & d' & v' & Hd0 & _ & Hs & ->)]; [eauto with dde|].
  simplify_eq. cbn [devs add_out set_devs]. rewrite lookup_insert_eq, Z.eqb_refl.
  eexists. split; [done|]. split; [by eapply event_switch_frame|eapply event_switch_other; [|exact Hs]; discriminate].
Qed.

(** A state that differs from [s] in what [disconnect] and the final unlinking
    change: device [a] is gone and the entries [l] of the table are cleared. *)
Lemma inv_remove s s' a d l :
  input_inv s → devs s !! a = Some d → key d = ∅ → h_list d = l →
  devs s' = delete a (devs s) → DEVS s' = foldr (λ i D, <[i := evdev_zero]> D) (DEVS s) l →
  callback s' = callback s → handler_on s' = handler_on s → out s' = out s → input_inv s'.
Proof.
  intros Hi Hd Hk Hl Hdevs' HD' Hcb Hon Hout. pose proof Hi as [Hlen Hcbon Hdevs Hslots Hlog].
  destruct (di_handles _ _ _ (Hdevs a d Hd)) as [[Hn _]|(i & Hn & Hsi & _)]; rewrite Hl in Hn; subst l;
    rewrite Hn in HD'; cbn [foldr] in HD'.
  all: split; [by rewrite HD', ?length_insert|by rewrite Hcb, Hon| | |].
  all: try (intros b c; rewrite Hout, Hlog; f_equal; unfold pressed; rewrite Hdevs';
            destruct (decide (a = b)) as [<-|]; [rewrite lookup_delete_eq, Hd, Hk; unfold test_bit;
              rewrite bool_decide_eq_false_2 by set_solver; apply andb_false_r|by rewrite lookup_delete_ne]).
  - intros b db. rewrite Hdevs'. intros [Hne Hb]%lookup_delete_Some. destruct (Hdevs b db Hb). split; try done. by rewrite HD'.
  - intros j e He. rewrite HD' in He. destruct (Hslots j e He) as [->|(b & db & Hb & Hbl)]; [by left|right].
    exists b, db. split; [|done]. rewrite Hdevs'. apply lookup_delete_Some. split; [|done]. intros ->. congruence.
  - intros b db. rewrite Hdevs'. intros [Hne Hb]%lookup_delete_Some. destruct (Hdevs b db Hb) as [? ? Hha]. split; try done.
    destruct Hha as [?|(j & Hj & Hsj & Hu)]; [by left|right]. exists j. split; [done|]. split; [|done]. rewrite HD'.
    rewrite list_lookup_insert_ne; [done|]. intros <-. rewrite Hsi in Hsj. unfold evdev_of in Hsj. congruence.
  - intros j e He. rewrite HD' in He. destruct (decide (i = j)) as [<-|Hne].
    + left. apply lookup_lt_Some in Hsi as Hlt. rewrite list_lookup_insert_eq in He by done. congruence.
    + rewrite list_lookup_insert_ne in He by done.
      destruct (Hslots j e He) as [->|(b & db & Hb & Hbl)]; [by left|right].
      exists b, db. split; [|done]. rewrite Hdevs'. apply lookup_delete_Some. split; [|done]. intros ->. congruence.
Qed.

(** [disconnect] of a connected entry clears it; it never closes the device,
    since nothing ever sets [isopen]. *)
Lemma unlink_handle_eq a i d s : DEVS s !! i = Some (evdev_of a i d) →
  DEVS (unlink_handle a i s) = <[i := evdev_zero]> (DEVS s) ∧
  devs (unlink_handle a i s) = alter (λ d, set_h_list (List.remove Nat.eq_dec i (h_list d)) d) a (devs s) ∧
  callback (unlink_handle a i s) = callback s ∧ handler_on (unlink_handle a i s) = handler_on s ∧
  out (unlink_handle a i s) = out s.
Proof.
  intros Hi. unfold unlink_handle, evdev_disconnect. set (s1 := IState _ _ _ _ _ _ _).
  assert (slot i s1 = evdev_of a i d) as -> by (unfold slot, s1, on_dev; cbn [DEVS set_devs]; by rewrite Hi).
  set (s2 := on_slot i _ s1).
  assert (isopen (slot i s2) = false) as ->.
  { unfold slot, s2, s1, on_slot, on_dev. cbn [DEVS set_DEVS set_devs]. by rewrite list_lookup_alter_eq, Hi. }
  cbn [devn evdev_of]. rewrite Nat2Z.id. split_and!; [|done..].
  cbn [DEVS set_DEVS s2 s1 on_slot on_dev set_devs]. apply list_eq. intros j. destruct (decide (i = j)) as [<-|].
  - apply lookup_lt_Some in Hi as Hlt. by rewrite !list_lookup_insert_eq by (by rewrite ?length_alter).
  - by rewrite !list_lookup_insert_ne, list_lookup_alter_ne.
Qed.

Lemma remove_device_inv a s d : input_inv s → devs s !! a = Some d → key d = ∅ →
  input_inv (remove_device a s) ∧ devs (remove_device a s) !! a = None.
Proof.
  intros Hi Hd Hk. unfold remove_device. rewrite Hd. split; [|cbn [devs]; apply lookup_delete_eq].
  destruct (di_handles _ _ _ (ii_devs _ Hi a d Hd)) as [[Hn _]|(i & Hn & Hsi & _)]; rewrite Hn; cbn [fold_left].
  - by apply (inv_remove s _ a d []).
  - destruct (unlink_handle_eq a i d s Hsi) as (E1 & E2 & E4 & E5 & E6).
    apply (inv_remove s _ a d [i]); try done. cbn [devs]. rewrite E2. apply map_eq. intros b.
    destruct (decide (a = b)) as [<-|]; [by rewrite !lookup_delete_eq|].
    by rewrite !lookup_delete_ne, lookup_alter_ne.
Qed.

Lemma input_unregister_device_inv a s : input_inv s →
  input_inv (input_unregister_device a s) ∧ devs (input_unregister_device a s) !! a = None.
Proof.
  intros Hi. unfold input_unregister_device. destruct (devs s !! a) as [d|] eqn:Hd; [|exact (conj Hi Hd)].
  destruct (release_keys_spec a s d Hi Hd) as (Hi1 & _ & d1 & Hd1 & _ & Hk1).
  destruct (input_sync_dev a _ d1 Hi1 Hd1) as (_ & d2 & Hd2 & _ & Hk2).
  pose proof (input_sync_inv _ a Hi1) as Hi2. clear Hi Hd Hi1 Hd1. revert Hd2 Hi2.
  generalize (input_sync a (release_keys a s)). clear s d. intros s Hd2 Hi2.
  apply (remove_device_inv a _ (set_timer (repeat_key d2) None d2)).
  - by apply inv_on_dev.
  - unfold stop_repeat, on_dev. cbn [devs set_devs]. by rewrite lookup_alter_eq, Hd2.
  - cbn. congruence.
Qed.

(** ** Adding a device *)

Lemma free_evdev_spec l : ∀ k, (k ≤ free_evdev l k ≤ k + length l)%nat ∧
  ((free_evdev l k < k + length l)%nat → ∃ e, l !! (free_evdev l k - k)%nat = Some e ∧ exists_ e = false) ∧
  (free_evdev l k = (k + length l)%nat → Forall (λ e, exists_ e = true) l).
Proof.
  induction l as [|e l IH]; intros k; cbn [free_evdev length].
  { split; [lia|]. split; [lia|constructor]. }
  destruct (exists_ e) eqn:He.
  - destruct (IH (S k)) as (Hr & Hlt & Heq). split; [lia|]. split.
    + intros H1. destruct Hlt as (e' & He' & ?); [lia|]. exists e'. split; [|done].
      replace (free_evdev l (S k) - k)%nat with (S (free_evdev l (S k) - S k)) by lia. done.
    + intros H1. constructor; [done|]. apply Heq. lia.
  - split; [lia|]. split; [|lia]. intros _. exists e. by rewrite Nat.sub_diag.
Qed.

(** A new device: connected to a free entry of the table if there is one. *)
Definition new_dev (c : input_caps) (users : Z) (hs : list nat) : input_dev :=
  let c := InputCaps ({[EV_SYN]} ∪ evbit c) (keybit c) (relbit c) (absbit c) (mscbit c) (ledbit c) (sndbit c)
             (ffbit c) (swbit c) (dev_id c) (absfuzz c) (has_event c) (open_fails c) (rep0 c) in
  let soft := (fst (rep0 c) =? 0) && (snd (rep0 c) =? 0) in
  InputDev c ∅ ∅ ∅ ∅ ∅ (if soft then 250 else fst (rep0 c)) (if soft then 33 else snd (rep0 c))
             false 0 soft None [] None users hs.

Lemma evdev_ids_match c : ∃ id, input_match_device evdev_ids c = Some id.
Proof.
  unfold evdev_ids. cbn [input_match_device flags driver_info Z.eqb andb].
  unfold id_matches. cbn [id_id flags id_bits]. destruct (dev_id c) as [[[b v] p] r].
  cbn [Z.testbit negb orb andb replicate zip zip_with cap_bits].
  rewrite (proj2 (forallb_forall _ _)); [eauto|]. intros x Hx. apply bool_decide_eq_true.
  cbn in Hx. repeat (destruct Hx as [<-|Hx]; [cbn [fst snd]; set_solver|]). done.
Qed.

Lemma input_register_device_eq s a c : input_inv s → devs s !! a = None →
  let i := free_evdev (DEVS s) 0 in
  let s' := snd (input_register_device 0 a c s) in
  callback s' = callback s ∧ handler_on s' = handler_on s ∧ out s' = out s ∧
  if (i =? EVDEV_DEVICES)%nat
  then devs s' = <[a := new_dev c 0 []]> (devs s) ∧ DEVS s' = DEVS s
  else devs s' = <[a := new_dev c 1 [i]]> (devs s) ∧ DEVS s' = <[i := evdev_of a i (new_dev c 1 [i])]> (DEVS s).
Proof.
  intros Hi Ha. pose proof (ii_len _ Hi) as Hlen.
  pose proof (free_evdev_spec (DEVS s) 0) as (Hr & _ & _). rewrite Hlen in Hr.
  set (i := free_evdev (DEVS s) 0) in *. cbv zeta. unfold input_register_device. rewrite Z.eqb_refl. cbn [handler_on].
  rewrite (proj2 (ii_on _ Hi)). cbn [snd]. change (InputDev _ ∅ _ _ _ _ _ _ _ _ _ _ _ _ _ _) with (new_dev c 0 []).
  unfold connect_device. cbn [devs]. rewrite lookup_insert_eq.
  destruct (evdev_ids_match (caps (new_dev c 0 []))) as [id ->].
  unfold evdev_connect. cbn [DEVS]. fold i.
  destruct (Nat.eqb_spec i EVDEV_DEVICES) as [E|E]; [done|].
  unfold input_open_device, input_link_handle.
  set (e0 := Evdev true false (Z.of_nat i) (Some a) 0). set (s1 := set_DEVS _ _).
  assert (Hlt : (i < length (DEVS s))%nat) by lia.
  assert (slot i s1 = e0) as -> by (unfold slot, s1; cbn [DEVS set_DEVS]; by rewrite list_lookup_insert_eq).
  cbn [h_dev e0]. unfold s1. cbn [devs set_DEVS]. rewrite lookup_insert_eq.
  change (users (new_dev c 0 []) =? 0) with true. cbn [andb].
  unfold on_slot, on_dev. cbn [DEVS devs set_DEVS set_devs].
  change (open_fails (caps (new_dev c 0 []))) with (open_fails c).
  assert (Hal : ∀ f l (e : evdev), (i < length l)%nat → alter f i (<[i := e]> l) = <[i := f e]> l).
  { intros f l e Hl. apply list_eq. intros j. destruct (decide (i = j)) as [<-|].
    - by rewrite list_lookup_alter_eq, !list_lookup_insert_eq.
    - by rewrite list_lookup_alter_ne, !list_lookup_insert_ne. }
  assert (Hm : ∀ f (d : input_dev) (m : gmap loc input_dev), alter f a (<[a := d]> m) = <[a := f d]> m).
  { intros f d m. apply map_eq. intros j. destruct (decide (a = j)) as [<-|].
    - by rewrite lookup_alter_eq, !lookup_insert_eq.
    - by rewrite lookup_alter_ne, !lookup_insert_ne. }
  unfold evdev_of. change (open_fails (caps (new_dev c 1 [i]))) with (open_fails c).
  destruct (open_fails c); cbn [DEVS devs set_DEVS set_devs callback handler_on out].
  - rewrite !Hm, Hal, Hal by (rewrite ?length_alter; done). done.
  - rewrite !Hm, Hal by done. done.
Qed.

Lemma register_inv s a c : input_inv s → devs s !! a = None → input_inv (snd (input_register_device 0 a c s)).
Proof.
  intros Hi Ha. pose proof (input_register_device_eq s a c Hi Ha) as (Hcb & Hon & Hout & Heq).
  set (s' := snd (input_register_device 0 a c s)) in *. clearbody s'.
  pose proof Hi as [Hlen Hcbon Hdevs Hslots Hlog].
  pose proof (free_evdev_spec (DEVS s) 0) as (Hr & Hfree & _). rewrite Hlen, Nat.sub_0_r in *. cbn [Nat.add] in *.
  set (i := free_evdev (DEVS s) 0) in *.
  assert (Hlog' : ∀ d, key d = ∅ → devs s' = <[a := d]> (devs s) →
    ∀ b c0, alternate false (key_log b c0 (out s')) = Some (pressed b c0 s')).
  { intros d Hk Hd b c0. rewrite Hout, Hlog. f_equal. unfold pressed. rewrite Hd.
    destruct (decide (a = b)) as [<-|]; [rewrite lookup_insert_eq, Ha, Hk; unfold test_bit;
      rewrite bool_decide_eq_false_2 by set_solver; by rewrite andb_false_r|by rewrite lookup_insert_ne]. }
  destruct (Nat.eqb_spec i EVDEV_DEVICES) as [E|E]; destruct Heq as [Hd' HD'].
  - split; [by rewrite HD'|by rewrite Hcb, Hon| | |eapply Hlog'; [|exact Hd']; reflexivity].
    + intros b db. rewrite Hd'. intros [[<- <-]|[Hne Hb]]%lookup_insert_Some.
      * split; [done|set_solver|by left].
      * destruct (Hdevs b db Hb). split; try done. by rewrite HD'.
    + intros j e He. rewrite HD' in He. destruct (Hslots j e He) as [->|(b & db & Hb & Hbl)]; [by left|right].
      exists b, db. split; [|done]. rewrite Hd'. rewrite lookup_insert_ne; [done|congruence].
  - destruct Hfree as (e0 & He0 & Hex); [lia|].
    assert (Hz : e0 = evdev_zero).
    { destruct (Hslots i e0 He0) as [->|(b & db & Hb & Hbl)]; [done|].
      destruct (di_handles _ _ _ (Hdevs b db Hb)) as [[Hn _]|(j & Hj & Hsj & _)]; [congruence|].
      assert (j = i) as -> by congruence. rewrite He0 in Hsj. injection Hsj as ->. done. }
    split; [by rewrite HD', length_insert|by rewrite Hcb, Hon| | |eapply Hlog'; [|exact Hd']; reflexivity].
    + intros b db. rewrite Hd'. intros [[<- <-]|[Hne Hb]]%lookup_insert_Some.
      * split; [done|set_solver|right]. exists i. rewrite HD', list_lookup_insert_eq by lia. done.
      * destruct (Hdevs b db Hb) as [? ? Hha]. split; try done.
        destruct Hha as [?|(j & Hj & Hsj & Hu)]; [by left|right]. exists j. split; [done|]. split; [|done].
        rewrite HD', list_lookup_insert_ne; [done|]. intros <-. rewrite He0 in Hsj. injection Hsj as Hsj. subst e0. done.
    + intros j e He. rewrite HD' in He. destruct (decide (i = j)) as [<-|Hne].
      * right. exists a, (new_dev c 1 [i]). by rewrite Hd', lookup_insert_eq.
      * rewrite list_lookup_insert_ne in He by done.
        destruct (Hslots j e He) as [->|(b & db & Hb & Hbl)]; [by left|right].
        exists b, db. split; [|done]. rewrite Hd', lookup_insert_ne; [done|congruence].
Qed.

Lemma step_inv s o : op_ok o → input_inv s → input_inv (step s o).
Proof.
  intros Ho Hi. destruct o as [a c|a|a t code value|a]; cbn [step op_ok] in *.
  - destruct (devs s !! a) eqn:Ha; [done|]. by apply register_inv.
  - by apply input_unregister_device_inv.
  - destruct Ho. by apply input_event_inv.
  - by apply input_repeat_key_inv.
Qed.

Lemma boot_inv : input_inv boot.
Proof.
  split; cbn [boot DEVS callback handler_on devs out]; try done.
  intros i e He. left. change (DEVS boot) with (replicate EVDEV_DEVICES evdev_zero) in He.
  by apply lookup_replicate in He as [-> _].
Qed.

Lemma steps_inv os : ∀ s, Forall op_ok os → input_inv s → input_inv (fold_left step os s).
Proof.
  induction os as [|o os IH]; intros s Hos Hi; [done|]. apply list.Forall_cons in Hos as [Ho Hos].
  cbn [fold_left]. apply IH; [done|]. by apply step_inv.
Qed.

(** ** Properties *)

(** C13: Once the client has registered its callback, then for every history of
    devices coming and going, raw events of any type and code and repeat timers
    in which drivers report keys with the values 0, 1 and 2 only, the presses
    and releases the client sees of any key of any device alternate, starting
    with a press, and agree with the key state of the input core: a key counts
    as pressed exactly while its bit is set, repeats and duplicate reports are
    invisible, and after a device is removed none of its keys is left pressed. *)
Theorem client_keys_alternate os :
  Forall op_ok os →
  let s := fold_left step os boot in
  ∀ a c, alternate false (key_log a c (out s)) =
    Some (match devs s !! a with Some d => hears d && test_bit c (key d) | None => false end).
Proof. intros Hos s a c. apply (ii_log s), steps_inv; [done|apply boot_inv]. Qed.

Definition kbd_caps (evs : gset Z) : input_caps :=
  InputCaps evs {[30; 31]} {[REL_X; REL_Y]} {[ABS_X]} ∅ ∅ ∅ ∅ ∅ (3, 0x46d, 0xc00e, 1) {[ABS_X := 4]} false false (0, 0).

Definition example_ops : list op :=
  [ Register 1%positive (kbd_caps {[EV_KEY; EV_REL; EV_REP]});
    Event 1%positive EV_KEY 30 1; Event 1%positive EV_KEY 30 1; Repeat 1%positive;
    Event 1%positive EV_REL REL_X 5; Event 1%positive EV_KEY 31 1; Event 1%positive EV_KEY 31 0;
    Unregister 1%positive ].

Lemma example_ops_ok : Forall op_ok example_ops.
Proof.
  unfold example_ops. repeat (apply list.Forall_cons; split); try exact I; [..|by apply list.Forall_nil];
    (split; [vm_compute; discriminate|]; first [discriminate|intros _; by auto]).
Qed.

(** Key 30 is pressed and still held when the device is removed. *)
Lemma client_keys_alternate_witness :
  key_log 1%positive 30 (out (fold_left step example_ops boot)) = [true; false] ∧
  alternate false (key_log 1%positive 30 (out (fold_left step example_ops boot))) = Some false.
Proof.
  split; [vm_compute; reflexivity|].
  etrans; [apply (client_keys_alternate example_ops example_ops_ok 1%positive 30)|vm_compute; reflexivity].
Defined.

(** Other key values break this.  [input_event] toggles the key bit for a value
    of 3, while the event device drops the event: the client sees the release of
    a key it never saw pressed. *)
Theorem odd_key_value_unpaired :
  let os := [Register 1%positive (kbd_caps {[EV_KEY]}); Event 1%positive EV_KEY 30 3] in
  key_log 1%positive 30 (out (fold_left step os boot)) = [] ∧
  pressed 1%positive 30 (fold_left step os boot) = true ∧
  key_log 1%positive 30 (out (step (fold_left step os boot) (Event 1%positive EV_KEY 30 0))) = [false].
Proof. vm_compute. split_and!; reflexivity. Qed.

(** The event device table through every such history: a connected device
    owns exactly one entry, marked with its address, and the entries in use are
    exactly the connected devices'; a device that is registered while an entry
    is free gets one; and disconnecting never closes the device: its user count
    is still one afterwards, since [isopen] is never set. *)
Theorem evdev_table os :
  Forall op_ok os →
  let s := fold_left step os boot in
  length (DEVS s) = EVDEV_DEVICES ∧
  (∀ a d, devs s !! a = Some d → h_list d = [] ∨
     ∃ i e, h_list d = [i] ∧ DEVS s !! i = Some e ∧ exists_ e = true ∧ h_dev e = Some a ∧
       users d = 1 ∧ isopen e = false ∧ (users <$> devs (evdev_disconnect i s) !! a) = Some 1) ∧
  (∀ i e, DEVS s !! i = Some e → exists_ e = true → ∃ a d, devs s !! a = Some d ∧ h_list d = [i]) ∧
  (∀ a c i e, devs s !! a = None → DEVS s !! i = Some e → exists_ e = false →
     ∃ j d, devs (step s (Register a c)) !! a = Some d ∧ h_list d = [j]).
Proof.
  intros Hos s. assert (Hi : input_inv s) by (apply steps_inv; [done|apply boot_inv]). clearbody s.
  split; [apply Hi|]. split; [|split].
  - intros a d Hd. destruct (di_handles _ _ _ (ii_devs _ Hi a d Hd)) as [[? _]|(i & Hh & Hs & Hu)]; [by left|right].
    exists i, (evdev_of a i d). do 6 (split; [done|]).
    unfold evdev_disconnect, on_slot, slot. cbn [DEVS set_DEVS]. rewrite list_lookup_alter_eq, Hs.
    cbn [fmap option_fmap option_map default from_option evdev_of isopen id devs set_DEVS]. rewrite Hd. cbn. by rewrite Hu.
  - intros i e He Hex. destruct (ii_slots _ Hi i e He) as [->|?]; [done|eauto].
  - intros a c i e Ha He Hex. cbn [step]. rewrite Ha.
    pose proof (input_register_device_eq s a c Hi Ha) as (_ & _ & _ & Heq).
    pose proof (free_evdev_spec (DEVS s) 0) as (_ & _ & Hfull). rewrite (ii_len _ Hi) in Hfull.
    destruct (Nat.eqb_spec (free_evdev (DEVS s) 0) EVDEV_DEVICES) as [E|E].
    + specialize (Hfull E). eapply list.Forall_lookup_1 in Hfull; [|exact He]. congruence.
    + destruct Heq as [-> _]. rewrite lookup_insert_eq. eauto.
Qed.

Lemma evdev_table_witness :
  let s := fold_left step (take 6 example_ops) boot in
  (∃ e, DEVS s !! 0%nat = Some e ∧ exists_ e = true) ∧
  ∃ a d, devs s !! a = Some d ∧ h_list d = [0%nat].
Proof.
  assert (Hok : Forall op_ok (take 6 example_ops)) by (apply list.Forall_take, example_ops_ok).
  assert (He : DEVS (fold_left step (take 6 example_ops) boot) !! 0%nat = Some (Evdev true false 0 (Some 1%positive) 1))
    by (vm_compute; reflexivity).
  split; [eauto|].
  exact (proj1 (proj2 (proj2 (evdev_table (take 6 example_ops) Hok))) 0%nat _ He eq_refl).
Defined.
