(* ===== verification/UsbVhcd.v ===== *)
(** The virtual USB host controller
    (src/src/lib/dde_linux26/arch/dde_kit/usb_vhcd.c) under the URB life cycle of
    the USB core (src/src/linux26/drivers/usb/core: hcd.c, urb.c).

    A URB is a heap object with a reference count.  The client of the virtual
    controller is a log of the control transfers handed to it, with the handles
    it has not completed yet; completion handlers are a log too.  URBs for the
    root hub are executed by another part of hcd.c, a parameter here. *)

From S2P Require Import Prelude.

Definition ESHUTDOWN : Z := 108.

Definition PIPE_ISOCHRONOUS : Z := 0.
Definition PIPE_INTERRUPT : Z := 1.
Definition PIPE_CONTROL : Z := 2.
Definition PIPE_BULK : Z := 3.

Definition usb_pipein (p : Z) : bool := Z.testbit p 7.
Definition usb_pipedevice (p : Z) : Z := Z.land (Z.shiftr p 8) 0x7f.
Definition usb_pipeendpoint (p : Z) : Z := Z.land (Z.shiftr p 15) 0xf.
Definition usb_pipetype (p : Z) : Z := Z.land (Z.shiftr p 30) 3.

Definition USB_REQ_SET_ADDRESS : Z := 0x05.
Definition USB_REQ_GET_DESCRIPTOR : Z := 0x06.

Definition HC_STATE_HALT : Z := 0.
Definition HC_STATE_RUNNING : Z := 1.
Definition HC_STATE_RESUMING : Z := 0x84.
Definition HC_STATE_SUSPENDED : Z := 0x04.
Definition HC_IS_RUNNING (state : Z) : bool := negb (Z.land state 1 =? 0).

(** [struct urb]: [ep_exists] and [at_root] are facts about the device it is
    for; [queued] says whether it is on its endpoint's list. *)
Record urb := Urb {
  refcnt : Z;
  use_count : Z;
  status : Z;
  hcpriv : bool;
  queued : bool;
  mapped : bool;
  reject : bool;
  pipe : Z;
  setup_packet : option (list Z);
  portnum : Z;
  ep_exists : bool;
  at_root : bool;
}.

Definition set_refcnt (n : Z) (u : urb) : urb :=
  Urb n (use_count u) (status u) (hcpriv u) (queued u) (mapped u) (reject u) (pipe u) (setup_packet u) (portnum u)
    (ep_exists u) (at_root u).
Definition set_use_count (n : Z) (u : urb) : urb :=
  Urb (refcnt u) n (status u) (hcpriv u) (queued u) (mapped u) (reject u) (pipe u) (setup_packet u) (portnum u)
    (ep_exists u) (at_root u).
Definition set_status (n : Z) (u : urb) : urb :=
  Urb (refcnt u) (use_count u) n (hcpriv u) (queued u) (mapped u) (reject u) (pipe u) (setup_packet u) (portnum u)
    (ep_exists u) (at_root u).
Definition set_hcpriv (b : bool) (u : urb) : urb :=
  Urb (refcnt u) (use_count u) (status u) b (queued u) (mapped u) (reject u) (pipe u) (setup_packet u) (portnum u)
    (ep_exists u) (at_root u).
Definition set_queued (b : bool) (u : urb) : urb :=
  Urb (refcnt u) (use_count u) (status u) (hcpriv u) b (mapped u) (reject u) (pipe u) (setup_packet u) (portnum u)
    (ep_exists u) (at_root u).
Definition set_mapped (b : bool) (u : urb) : urb :=
  Urb (refcnt u) (use_count u) (status u) (hcpriv u) (queued u) b (reject u) (pipe u) (setup_packet u) (portnum u)
    (ep_exists u) (at_root u).
Definition set_setup (p : option (list Z)) (u : urb) : urb :=
  Urb (refcnt u) (use_count u) (status u) (hcpriv u) (queued u) (mapped u) (reject u) (pipe u) p (portnum u)
    (ep_exists u) (at_root u).

(** The arguments of [dde_linux26_usb_vhcd_submit_control_urb_cb]. *)
Record control_urb := ControlUrb {
  cu_port : Z; cu_endpoint : Z; cu_in : bool; cu_handle : loc; cu_data : option (list Z)
}.

Record hst := Hst {
  hc_state : Z;
  uses_dma : bool;
  hw_accessible : bool;              (* HCD_FLAG_HW_ACCESSIBLE *)
  pm_on : bool;                      (* power_state.event == PM_EVENT_ON *)
  urbs : gmap loc urb;
  sent : list control_urb;
  completions : list (loc * Z);      (* urb->complete(urb), with urb->status *)
}.

Definition set_urbs (m : gmap loc urb) (s : hst) : hst :=
  Hst (hc_state s) (uses_dma s) (hw_accessible s) (pm_on s) m (sent s) (completions s).

(** An access to the URB; freed memory is a fault. *)
Definition get_urb (u : loc) : M hst urb := λ s,
  match urbs s !! u with Some x => Done (x, s) | None => Fault FFreed end.

Definition upd_urb (u : loc) (f : urb → urb) : M hst unit :=
  x ← get_urb u; modify (λ s, set_urbs (<[u := f x]> (urbs s)) s).

(** ** Reference counting (urb.c) *)

Definition usb_get_urb (u : loc) : M hst unit := upd_urb u (λ x, set_refcnt (refcnt x + 1) x).

(** [kref_put], and [urb_destroy] for the last reference. *)
Definition usb_free_urb (u : loc) : M hst unit :=
  x ← get_urb u;
  if refcnt x =? 1 then modify (λ s, set_urbs (delete u (urbs s)) s)
  else upd_urb u (λ x, set_refcnt (refcnt x - 1) x).

Definition usb_put_urb (u : loc) : M hst unit := usb_free_urb u.

(** ** Giving a URB back (hcd.c) *)

(** Periodic bandwidth is not accounted by this controller. *)
Definition urb_unlink (u : loc) : M hst unit := upd_urb u (set_queued false).

Definition call_complete (u : loc) : M hst unit :=
  x ← get_urb u;
  modify (λ s, Hst (hc_state s) (uses_dma s) (hw_accessible s) (pm_on s) (urbs s) (sent s)
                   (completions s ++ [(u, status x)])).

Definition usb_hcd_giveback_urb (u : loc) : M hst unit :=
  x ← get_urb u;
  urb_unlink u;;
  dma ← gets uses_dma;
  (if dma && negb (at_root x) then upd_urb u (set_mapped false) else mret tt);;
  call_complete u;;
  upd_urb u (λ x, set_use_count (use_count x - 1) x);;
  usb_put_urb u.

(** ** The virtual controller (usb_vhcd.c) *)

Definition vhcd_start : M hst Z :=
  modify (λ s, Hst HC_STATE_RUNNING false (hw_accessible s) (pm_on s) (urbs s) (sent s) (completions s));; mret 0.

Definition submit_control_urb_cb (c : control_urb) : M hst unit :=
  modify (λ s, Hst (hc_state s) (uses_dma s) (hw_accessible s) (pm_on s) (urbs s) (sent s ++ [c]) (completions s)).

(** The label no_need_xmit: the error in [ret] is not returned. *)
Definition no_need_xmit (u : loc) : M hst Z := usb_hcd_giveback_urb u;; mret 0.

(** The label out. *)
Definition enqueue_out (u : loc) : M hst Z :=
  x ← get_urb u;
  if negb (status x =? - EINPROGRESS) then mret (status x)
  else if usb_pipetype (pipe x) =? PIPE_ISOCHRONOUS then no_need_xmit u
  else
    upd_urb u (set_hcpriv true);;
    usb_get_urb u;;
    if usb_pipetype (pipe x) =? PIPE_CONTROL then
      submit_control_urb_cb (ControlUrb (portnum x) (usb_pipeendpoint (pipe x)) (usb_pipein (pipe x)) u (setup_packet x));;
      mret 0
    else mret (- EINVAL).

Definition vhcd_urb_enqueue (u : loc) : M hst Z :=
  x ← get_urb u;
  st ← gets hc_state;
  if negb (HC_IS_RUNNING st) then mret (- ENODEV)
  else if usb_pipedevice (pipe x) =? 0 then
    match setup_packet x with
    | Some req =>
        if negb (usb_pipetype (pipe x) =? PIPE_CONTROL) then no_need_xmit u
        else if nth 1 req 0 =? USB_REQ_SET_ADDRESS then
          (if status x =? - EINPROGRESS then upd_urb u (set_status 0) else mret tt);;
          no_need_xmit u
        else if nth 1 req 0 =? USB_REQ_GET_DESCRIPTOR then enqueue_out u
        else no_need_xmit u
    | None => no_need_xmit u
    end
  else enqueue_out u.

(** The client completes a transfer.  The log line dereferences the handle
    before the check for NULL.  [container_of] on a NULL [hcpriv] gives a wild
    host controller pointer. *)
Definition dde_linux26_usb_vhcd_urb_complete (handle : option loc) (data : list Z) : M hst unit :=
  match handle with
  | None => fail FNull
  | Some u =>
      x ← get_urb u;
      (match setup_packet x with Some _ => upd_urb u (set_setup (Some (take 8 data))) | None => mret tt end);;
      (if hcpriv x then mret tt else fail FNull);;
      upd_urb u (set_hcpriv false);;
      usb_hcd_giveback_urb u;;
      usb_put_urb u
  end.

(** ** Submitting a URB (hcd.c, urb.c) *)

Section submit.
  Context (rh_urb_enqueue : loc → M hst Z).

(** Whether the controller's state admits the URB: the status of the switch. *)
Definition admission (s : hst) (x : urb) : Z :=
  if negb (ep_exists x) then - ENOENT
  else if reject x then - EPERM
  else if (hc_state s =? HC_STATE_RUNNING) || (hc_state s =? HC_STATE_RESUMING) then 0
  else if (hc_state s =? HC_STATE_SUSPENDED) && pm_on s && at_root x then 0
  else - ESHUTDOWN.

Definition usb_hcd_submit_urb (u : loc) : M hst Z :=
  x ← get_urb u;
  st ← gets (λ s, admission s x);
  if negb (st =? 0) then upd_urb u (set_queued false);; mret st
  else
    upd_urb u (set_queued true);;
    usb_get_urb u;;
    upd_urb u (λ x, set_use_count (use_count x + 1) x);;
    dma ← gets uses_dma;
    st ← (if at_root x then rh_urb_enqueue u
          else (if dma : bool then upd_urb u (set_mapped true) else mret tt);; vhcd_urb_enqueue u);
    (if st =? 0 then mret tt
     else urb_unlink u;; upd_urb u (λ x, set_use_count (use_count x - 1) x);; usb_put_urb u);;
    mret st.

(** The part of [usb_submit_urb] that decides about the URB's life cycle: a URB
    that is with a controller is refused; [pre] is the result of the checks of
    the device before the status is set, [sane] of the checks of pipe and sizes
    after it. *)
Definition usb_submit_urb (pre sane : Z) (u : loc) : M hst Z :=
  x ← get_urb u;
  if hcpriv x then mret (- EINVAL)
  else if negb (pre =? 0) then mret pre
  else
    upd_urb u (set_status (- EINPROGRESS));;
    if negb (sane =? 0) then mret sane else usb_hcd_submit_urb u.
End submit.

(** ** Running the operations *)

Definition put_urb (u : loc) (x : urb) (s : hst) : hst := set_urbs (<[u := x]> (urbs s)) s.

Definition add_completion (u : loc) (st : Z) (s : hst) : hst :=
  Hst (hc_state s) (uses_dma s) (hw_accessible s) (pm_on s) (urbs s) (sent s) (completions s ++ [(u, st)]).

Definition add_sent (c : control_urb) (s : hst) : hst :=
  Hst (hc_state s) (uses_dma s) (hw_accessible s) (pm_on s) (urbs s) (sent s ++ [c]) (completions s).

Lemma put_urb_id u x s : urbs s !! u = Some x → put_urb u x s = s.
Proof. intros Hx. destruct s. unfold put_urb, set_urbs. cbn in *. by rewrite insert_id. Qed.

Lemma get_put u x s : get_urb u (put_urb u x s) = Done (x, put_urb u x s).
Proof. unfold get_urb, put_urb. cbn. by rewrite lookup_insert_eq. Qed.

Lemma upd_put u f x s : upd_urb u f (put_urb u x s) = Done (tt, put_urb u (f x) s).
Proof.
  unfold upd_urb. run_simpl. rewrite get_put. unfold put_urb, set_urbs. cbn. by rewrite insert_insert_eq.
Qed.

Lemma usb_get_put u x s : usb_get_urb u (put_urb u x s) = Done (tt, put_urb u (set_refcnt (refcnt x + 1) x) s).
Proof. unfold usb_get_urb. by rewrite upd_put. Qed.

Lemma usb_put_put u x s : refcnt x ≠ 1 →
  usb_put_urb u (put_urb u x s) = Done (tt, put_urb u (set_refcnt (refcnt x - 1) x) s).
Proof.
  intros Hr. unfold usb_put_urb, usb_free_urb. run_simpl. rewrite get_put.
  rewrite (proj2 (Z.eqb_neq _ _) Hr). by rewrite upd_put.
Qed.

Lemma complete_put u x s : call_complete u (put_urb u x s) = Done (tt, put_urb u x (add_completion u (status x) s)).
Proof. unfold call_complete. run_simpl. by rewrite get_put. Qed.

(** The URB after it was given back. *)
Definition given_back (dma : bool) (x : urb) : urb :=
  let y := set_queued false x in
  let y := if dma && negb (at_root x) then set_mapped false y else y in
  set_refcnt (refcnt x - 1) (set_use_count (use_count x - 1) y).

Lemma giveback_put u x s : refcnt x ≠ 1 →
  usb_hcd_giveback_urb u (put_urb u x s) =
  Done (tt, put_urb u (given_back (uses_dma s) x) (add_completion u (status x) s)).
Proof.
  intros Hr. unfold usb_hcd_giveback_urb. run_simpl. rewrite get_put. unfold urb_unlink. rewrite upd_put.
  change (uses_dma (put_urb u (set_queued false x) s)) with (uses_dma s). unfold given_back.
  destruct (uses_dma s && negb (at_root x)).
  - rewrite upd_put, complete_put, upd_put, usb_put_put by done. done.
  - rewrite complete_put, upd_put, usb_put_put by done. done.
Qed.

Lemma no_need_xmit_put u x s : refcnt x ≠ 1 →
  no_need_xmit u (put_urb u x s) =
  Done (0, put_urb u (given_back (uses_dma s) x) (add_completion u (status x) s)).
Proof. intros Hr. unfold no_need_xmit. run_simpl. by rewrite giveback_put. Qed.

(** A control URB that is sent to the client. *)
Definition with_client (x : urb) : urb := set_refcnt (refcnt x + 1) (set_hcpriv true x).

Definition as_control (u : loc) (x : urb) : control_urb :=
  ControlUrb (portnum x) (usb_pipeendpoint (pipe x)) (usb_pipein (pipe x)) u (setup_packet x).

Lemma enqueue_out_put u x s : usb_pipetype (pipe x) = PIPE_CONTROL → status x = - EINPROGRESS →
  enqueue_out u (put_urb u x s) = Done (0, put_urb u (with_client x) (add_sent (as_control u x) s)).
Proof.
  intros Hp Hs. unfold enqueue_out. run_simpl. rewrite get_put, Hs, Z.eqb_refl, Hp. cbn [negb].
  change (PIPE_CONTROL =? PIPE_ISOCHRONOUS) with false. change (PIPE_CONTROL =? PIPE_CONTROL) with true. cbn beta iota.
  rewrite upd_put, usb_get_put. done.
Qed.

(** The cases of [vhcd_urb_enqueue] for a control URB in progress: given back at
    once (with status 0 for SET_ADDRESS), sent, or refused. *)
Lemma vhcd_enqueue_put u x s : usb_pipetype (pipe x) = PIPE_CONTROL → status x = - EINPROGRESS → refcnt x ≠ 1 →
  (HC_IS_RUNNING (hc_state s) = false ∧ vhcd_urb_enqueue u (put_urb u x s) = Done (- ENODEV, put_urb u x s)) ∨
  (∃ st, vhcd_urb_enqueue u (put_urb u x s) =
     Done (0, put_urb u (given_back (uses_dma s) (set_status st x)) (add_completion u st s))) ∨
  vhcd_urb_enqueue u (put_urb u x s) = Done (0, put_urb u (with_client x) (add_sent (as_control u x) s)).
Proof.
  intros Hp Hs Hr. unfold vhcd_urb_enqueue. run_simpl. rewrite get_put.
  change (hc_state (put_urb u x s)) with (hc_state s).
  destruct (HC_IS_RUNNING (hc_state s)) eqn:Hrun; cbn [negb]; [right|by left].
  assert (Hgb : no_need_xmit u (put_urb u x s) =
    Done (0, put_urb u (given_back (uses_dma s) (set_status (- EINPROGRESS) x)) (add_completion u (- EINPROGRESS) s))).
  { rewrite no_need_xmit_put, <- Hs by done. by destruct x. }
  destruct (usb_pipedevice (pipe x) =? 0); [|right; by apply enqueue_out_put].
  destruct (setup_packet x) as [req|]; [|left; eexists; exact Hgb].
  rewrite Hp, Z.eqb_refl. cbn [negb].
  destruct (nth 1 req 0 =? USB_REQ_SET_ADDRESS).
  { left. exists 0. rewrite Hs, Z.eqb_refl, upd_put, no_need_xmit_put by done. done. }
  destruct (nth 1 req 0 =? USB_REQ_GET_DESCRIPTOR); [right; by apply enqueue_out_put|left; eexists; exact Hgb].
Qed.

(** ** The life cycle *)

(** A URB whose submitter and other owners hold [n] references. *)
Definition control (x : urb) : Prop := usb_pipetype (pipe x) = PIPE_CONTROL ∧ at_root x = false.

Definition idle (n : Z) (x : urb) : Prop :=
  control x ∧ refcnt x = n ∧ use_count x = 0 ∧ hcpriv x = false ∧ queued x = false.

Definition busy (n : Z) (x : urb) : Prop :=
  control x ∧ refcnt x = n + 2 ∧ use_count x = 1 ∧ hcpriv x = true ∧ queued x = true.

Lemma submit_idle rh pre sane u x s n :
  idle n x → 1 ≤ n →
  ∃ r s', usb_submit_urb rh pre sane u (put_urb u x s) = Done (r, s') ∧
    ((r ≠ 0 ∧ ∃ y, idle n y ∧ s' = put_urb u y s) ∨
     (r = 0 ∧ ∃ y st, idle n y ∧ s' = put_urb u y (add_completion u st s)) ∨
     (r = 0 ∧ ∃ y c, busy n y ∧ cu_handle c = u ∧ s' = put_urb u y (add_sent c s))).
Proof.
  intros ((Hp & Ha) & Hr & Hu & Hh & Hq) Hn.
  unfold usb_submit_urb. run_simpl. rewrite get_put, Hh.
  destruct (Z.eqb_spec pre 0) as [->|Hpre]; cbn [negb]; [|eexists _, _; split; [done|]; left; split; [done|];
    by exists x].
  rewrite upd_put. set (x1 := set_status (- EINPROGRESS) x).
  destruct (Z.eqb_spec sane 0) as [->|Hsane]; cbn [negb]; [|eexists _, _; split; [done|]; left; split; [done|]; by exists x1].
  unfold usb_hcd_submit_urb. run_simpl. rewrite get_put.
  destruct (Z.eqb_spec (admission (put_urb u x1 s) x1) 0) as [Had|Had]; cbn [negb].
  2:{ rewrite upd_put. eexists _, _. split; [done|]. left. split; [done|]. by exists (set_queued false x1). }
  rewrite upd_put, usb_get_put, upd_put. change (at_root x1) with (at_root x). rewrite Ha.
  set (x2 := set_use_count _ _). change (uses_dma (put_urb u x2 s)) with (uses_dma s).
  assert (Hx3 : ∃ x3, (match (if uses_dma s then upd_urb u (set_mapped true) else λ s0, Done (tt, s0)) (put_urb u x2 s) with
    | Done (_, s') => vhcd_urb_enqueue u s' | Fault e => Fault e end) = vhcd_urb_enqueue u (put_urb u x3 s) ∧
    control x3 ∧ status x3 = - EINPROGRESS ∧ refcnt x3 = n + 1 ∧ use_count x3 = 1 ∧ hcpriv x3 = false ∧ queued x3 = true).
  { destruct (uses_dma s).
    - rewrite upd_put. exists (set_mapped true x2). subst x2 x1. cbn. split; [done|]. unfold control. cbn. split_and!; try done; lia.
    - exists x2. subst x2 x1. cbn. split; [done|]. unfold control. cbn. split_and!; try done; lia. }
  destruct Hx3 as (x3 & -> & [Hp3 Ha3] & Hs3 & Hr3 & Hu3 & Hh3 & Hq3). clear x2 x1 Had.
  assert (Hr1 : refcnt x3 ≠ 1) by lia.
  destruct (vhcd_enqueue_put u x3 s Hp3 Hs3 Hr1) as [[_ ->]|[[st ->]| ->]].
  - change (- ENODEV =? 0) with false. cbn beta iota. unfold urb_unlink. rewrite !upd_put, usb_put_put by (cbn; lia).
    eexists _, _. split; [done|]. left. split; [done|]. eexists. split; [|done]. unfold idle, control. cbn. split_and!; try done; lia.
  - rewrite Z.eqb_refl. cbn beta iota. eexists _, _. split; [done|]. right; left. split; [done|].
    eexists _, st. split; [|done]. unfold idle, control, given_back. cbn.
    destruct (uses_dma s && negb (at_root x3)); cbn; split_and!; try done; lia.
  - rewrite Z.eqb_refl. cbn beta iota. eexists _, _. split; [done|]. right; right. split; [done|].
    eexists _, _. split; [|split; [|done]]; [|done]. unfold busy, control, with_client. cbn. split_and!; try done; lia.
Qed.

Lemma submit_busy rh pre sane u x s n :
  busy n x → usb_submit_urb rh pre sane u (put_urb u x s) = Done (- EINVAL, put_urb u x s).
Proof.
  intros (_ & _ & _ & Hh & _). unfold usb_submit_urb. run_simpl.
  by rewrite get_put, Hh.
Qed.

Lemma complete_busy u x s n data :
  busy n x → 1 ≤ n →
  ∃ y, dde_linux26_usb_vhcd_urb_complete (Some u) data (put_urb u x s) = Done (tt, put_urb u y (add_completion u (status x) s)) ∧ idle n y.
Proof.
  intros ([Hp Ha] & Hr & Hu & Hh & Hq) Hn.
  unfold dde_linux26_usb_vhcd_urb_complete. run_simpl. rewrite get_put, Hh.
  assert (Hx1 : ∃ x1, (match setup_packet x with Some _ => upd_urb u (set_setup (Some (take 8 data))) | None => λ s0, Done (tt, s0) end)
     (put_urb u x s) = Done (tt, put_urb u x1 s) ∧ control x1 ∧ refcnt x1 = n + 2 ∧ use_count x1 = 1 ∧ status x1 = status x).
  { destruct (setup_packet x); [rewrite upd_put|]; eexists; (split; [done|]); unfold control; cbn; split_and!; done. }
  destruct Hx1 as (x1 & -> & [Hp1 Ha1] & Hr1 & Hu1 & Hs1). rewrite upd_put, giveback_put by (cbn; lia).
  rewrite usb_put_put by (unfold given_back; destruct (_ && _); cbn; lia).
  eexists. split; [cbn [status set_hcpriv]; by rewrite Hs1|].
  unfold idle, control, given_back. destruct (_ && _); cbn; split_and!; try done; lia.
Qed.

(** ** Histories *)

(** The controller with the URBs that were accepted (submitted with result 0)
    and the handles the client has not completed. *)
Record world := World { hc : hst; accepted : list loc; outstanding : list loc }.

Inductive uop :=
| USubmit (pre sane : Z) (u : loc)
| UComplete (u : loc) (data : list Z).

(** A driver submits a URB; the client completes a handle it was given. *)
Definition ustep (rh : loc → M hst Z) (w : world) (o : uop) : outcome world :=
  match o with
  | USubmit pre sane u =>
      match usb_submit_urb rh pre sane u (hc w) with
      | Done (r, s) =>
          Done (World s (if r =? 0 then accepted w ++ [u] else accepted w)
                  (outstanding w ++ map cu_handle (drop (length (sent (hc w))) (sent s))))
      | Fault e => Fault e
      end
  | UComplete u data =>
      if bool_decide (u ∈ outstanding w) then
        match dde_linux26_usb_vhcd_urb_complete (Some u) data (hc w) with
        | Done (_, s) => Done (World s (accepted w) (List.remove Pos.eq_dec u (outstanding w)))
        | Fault e => Fault e
        end
      else Done w
  end.

Fixpoint usteps (rh : loc → M hst Z) (w : world) (os : list uop) : outcome world :=
  match os with
  | [] => Done w
  | o :: os => match ustep rh w o with Done w => usteps rh w os | Fault e => Fault e end
  end.

Definition uop_ok (own : gmap loc Z) (o : uop) : Prop :=
  match o with USubmit _ _ u => is_Some (own !! u) | UComplete _ _ => True end.

Definition occ (u : loc) (l : list loc) : nat := count_occ Pos.eq_dec l u.

Definition completed (s : hst) : list loc := map fst (completions s).

(** Each URB is idle or with the client; [own] is the number of references held
    outside the USB core. *)
Definition urb_inv (own : gmap loc Z) (w : world) (u : loc) (x : urb) : Prop :=
  ∃ n, own !! u = Some n ∧ 1 ≤ n ∧
    ((idle n x ∧ (u ∉ outstanding w) ∧ occ u (accepted w) = occ u (completed (hc w))) ∨
     (busy n x ∧ u ∈ outstanding w ∧ occ u (accepted w) = S (occ u (completed (hc w))))).

Record world_inv (own : gmap loc Z) (w : world) : Prop := {
  wi_dom : dom (urbs (hc w)) = dom own;
  wi_urbs : ∀ u x, urbs (hc w) !! u = Some x → urb_inv own w u x;
  wi_out : NoDup (outstanding w) ∧ ∀ u, u ∈ outstanding w → u ∈ dom own;
}.

Lemma occ_app u l l' : occ u (l ++ l') = (occ u l + occ u l')%nat.
Proof. apply count_occ_app. Qed.

Lemma occ_one u v : occ u [v] = if decide (u = v) then 1%nat else 0%nat.
Proof.
  unfold occ. cbn. destruct (decide (u = v)) as [->|Hne].
  - by destruct (Pos.eq_dec v v).
  - destruct (Pos.eq_dec v u); [congruence|done].
Qed.

Lemma elem_of_remove u v (l : list loc) : u ∈ List.remove Pos.eq_dec v l ↔ u ∈ l ∧ u ≠ v.
Proof.
  rewrite !list_elem_of_In. split.
  - intros H%List.in_remove. done.
  - intros []. by apply List.in_in_remove.
Qed.

Lemma NoDup_remove' v (l : list loc) : NoDup l → NoDup (List.remove Pos.eq_dec v l).
Proof.
  induction 1 as [|x l Hx Hl IH]; cbn; [constructor|]. destruct (Pos.eq_dec v x); [done|].
  constructor; [|done]. rewrite elem_of_remove. tauto.
Qed.

(** One URB changes; the others keep their place in the logs. *)
Lemma world_inv_update own w u y s' acc' out' n :
  world_inv own w → own !! u = Some n → 1 ≤ n → urbs s' = <[u := y]> (urbs (hc w)) →
  (∀ v, v ≠ u → (v ∈ out' ↔ v ∈ outstanding w) ∧ occ v acc' = occ v (accepted w) ∧
                occ v (completed s') = occ v (completed (hc w))) →
  ((idle n y ∧ (u ∉ out') ∧ occ u acc' = occ u (completed s')) ∨
   (busy n y ∧ u ∈ out' ∧ occ u acc' = S (occ u (completed s')))) →
  NoDup out' → world_inv own (World s' acc' out').
Proof.
  intros [Hdom Hurbs [Hnd Hin]] Hown Hn Hs Hother Hu Hnd'.
  assert (Hu' : u ∈ dom own) by (apply elem_of_dom; eauto).
  split; cbn [hc accepted outstanding].
  - rewrite Hs, dom_insert_L, Hdom. set_solver.
  - intros v x. rewrite Hs. intros [[<- <-]|[Hne Hx]]%lookup_insert_Some; [exists n; auto|].
    destruct (Hurbs v x Hx) as (m & Hm & Hm1 & Hst). exists m. split; [done|]. split; [done|].
    destruct (Hother v) as (Ho1 & Ho2 & Ho3); [done|]. cbn [hc accepted outstanding]. rewrite Ho1, Ho2, Ho3. done.
  - split; [done|]. intros v Hv. destruct (decide (v = u)) as [->|Hne]; [done|]. by apply Hin, (Hother v).
Qed.

Lemma ustep_inv rh own w o : world_inv own w → uop_ok own o → ∃ w', ustep rh w o = Done w' ∧ world_inv own w'.
Proof.
  intros Hi Ho. destruct o as [pre sane u|u data]; cbn [ustep uop_ok] in *.
  - assert (Hx : ∃ x, urbs (hc w) !! u = Some x).
    { destruct Ho as [n Hn]. apply elem_of_dom_2 in Hn. rewrite <- (wi_dom _ _ Hi) in Hn. by apply elem_of_dom in Hn. }
    destruct Hx as [x Hx]. destruct (wi_urbs _ _ Hi u x Hx) as (n & Hn & Hn1 & [(Hid & Hno & Hocc)|(Hb & Hyes & Hocc)]).
    + destruct (submit_idle rh pre sane u x (hc w) n Hid Hn1) as (r & s' & Hrun & Hcase).
      rewrite (put_urb_id u x (hc w) Hx) in Hrun. rewrite Hrun. eexists. split; [reflexivity|].
      destruct Hcase as [(Hr & y & Hy & ->)|[(-> & y & st & Hy & ->)|(-> & y & c & Hy & Hc & ->)]].
      * rewrite (proj2 (Z.eqb_neq _ _) Hr). cbn [sent put_urb set_urbs]. rewrite drop_all, app_nil_r.
        eapply (world_inv_update own w u y); try done; [|apply (wi_out _ _ Hi)]. by left.
      * rewrite Z.eqb_refl. cbn [sent put_urb set_urbs add_completion]. rewrite drop_all, app_nil_r.
        assert (Hc : ∀ v, occ v (completed (put_urb u y (add_completion u st (hc w)))) = (occ v (completed (hc w)) + occ v [u])%nat).
        { intros v. unfold completed. cbn [completions put_urb set_urbs add_completion]. by rewrite map_app, occ_app. }
        eapply (world_inv_update own w u y); try done; [| |apply (wi_out _ _ Hi)].
        -- intros v Hv. rewrite Hc, occ_app, occ_one. destruct (decide (v = u)); [done|]. rewrite !Nat.add_0_r. done.
        -- left. split; [done|]. split; [done|]. rewrite Hc, occ_app. lia.
      * rewrite Z.eqb_refl. cbn [sent put_urb set_urbs add_sent]. rewrite drop_app_length. cbn [map]. rewrite Hc.
        eapply (world_inv_update own w u y); try done.
        -- intros v Hv. rewrite elem_of_app, list_elem_of_singleton, occ_app, occ_one.
           destruct (decide (v = u)); [done|]. rewrite Nat.add_0_r. split; [|done]. tauto.
        -- right. split; [done|]. split; [rewrite elem_of_app, list_elem_of_singleton; auto|].
           rewrite occ_app, occ_one. destruct (decide (u = u)); [|done].
           change (completed (put_urb u y (add_sent c (hc w)))) with (completed (hc w)). lia.
        -- apply list.NoDup_app. split; [apply (wi_out _ _ Hi)|]. split; [|apply NoDup_singleton].
           intros v Hv. rewrite list_elem_of_singleton. congruence.
    + pose proof (submit_busy rh pre sane u x (hc w) n Hb) as Hrun. rewrite (put_urb_id u x (hc w) Hx) in Hrun. rewrite Hrun.
      eexists. split; [reflexivity|]. cbn [Z.eqb Z.opp EINVAL]. rewrite drop_all, app_nil_r. by destruct w.
  - case_bool_decide as Hin; [|eauto].
    assert (Hx : ∃ x, urbs (hc w) !! u = Some x).
    { apply (proj2 (wi_out _ _ Hi)) in Hin. rewrite <- (wi_dom _ _ Hi) in Hin. by apply elem_of_dom in Hin. }
    destruct Hx as [x Hx]. destruct (wi_urbs _ _ Hi u x Hx) as (n & Hn & Hn1 & [(_ & Hno & _)|(Hb & _ & Hocc)]); [done|].
    destruct (complete_busy u x (hc w) n data Hb Hn1) as (y & Hrun & Hy).
    rewrite (put_urb_id u x (hc w) Hx) in Hrun. rewrite Hrun. eexists. split; [reflexivity|].
    assert (Hc : ∀ v, occ v (completed (put_urb u y (add_completion u (status x) (hc w)))) = (occ v (completed (hc w)) + occ v [u])%nat).
    { intros v. unfold completed. cbn [completions put_urb set_urbs add_completion]. by rewrite map_app, occ_app. }
    eapply (world_inv_update own w u y); try done.
    + intros v Hv. rewrite elem_of_remove, Hc, occ_one. destruct (decide (v = u)); [done|]. rewrite Nat.add_0_r. tauto.
    + left. split; [done|]. split; [rewrite elem_of_remove; tauto|]. rewrite Hc, occ_one.
      destruct (decide (u = u)); [lia|done].
    + apply NoDup_remove', (wi_out _ _ Hi).
Qed.

Lemma usteps_inv rh own os : ∀ w, world_inv own w → Forall (uop_ok own) os →
  ∃ w', usteps rh w os = Done w' ∧ world_inv own w'.
Proof.
  induction os as [|o os IH]; intros w Hi Hos; cbn [usteps]; [eauto|].
  apply list.Forall_cons in Hos as [Ho Hos]. destruct (ustep_inv rh own w o Hi Ho) as (w1 & -> & Hi1). by apply IH.
Qed.

(** ** The root hub (usb_vhcd.c, hcd.c) *)

Definition USB_PORT_FEAT_C_CONNECTION : Z := 16.
Definition USB_PORT_FEAT_C_RESET : Z := 20.
Definition GetHubDescriptor : Z := 0xa006.
Definition GetHubStatus : Z := 0xa000.
Definition GetPortStatus : Z := 0xa300.
Definition SetPortFeature : Z := 0x2303.
Definition ClearPortFeature : Z := 0x2301.
Definition ClearHubFeature : Z := 0x2001.
Definition SetHubFeature : Z := 0x2003.

(** [sizeof(struct usb_hub_descriptor)] with USB_MAXCHILDREN = 31. *)
Definition hub_desc_size : nat := 15.

(** The client's side of the hub: port status, changed ports, and the features
    cleared so far. *)
Record hub_client := HubClient {
  port_status : Z → Z;
  ports_changed : Z;
  cleared : list (Z * Z);
}.

(** [n] bytes [bs] written at the start of the buffer; a write behind its end is
    a fault. *)
Definition write_buf (bs buf : list Z) : outcome (list Z) :=
  if (length bs <=? length buf)%nat then Done (bs ++ drop (length bs) buf) else Fault FBounds.

Definition le32 (v : Z) : list Z :=
  [v mod 256; Z.shiftr v 8 mod 256; Z.shiftr v 16 mod 256; Z.shiftr v 24 mod 256].

Definition hub_descriptor (num_ports : Z) : list Z :=
  [Z.of_nat hub_desc_size; 0x29; num_ports; 1; 0; 0; 0] ++ replicate 8 0xff.

Definition vhcd_hub_control (accessible : bool) (num_ports : Z) (request wValue wIndex wLength : Z)
    (buf : list Z) (c : hub_client) : outcome (Z * list Z * hub_client) :=
  if negb accessible then Done (- ETIMEDOUT, buf, c)
  else if num_ports <? wIndex then Done (- ENODEV, buf, c)
  else
    let port_num := Z.land wIndex 0xff in
    let ok r := match r with Done b => Done (0, b, c) | Fault e => Fault e end in
    if request =? GetHubDescriptor then ok (write_buf (hub_descriptor num_ports) buf)
    else if request =? GetHubStatus then ok (write_buf (replicate (Z.to_nat wLength) 0) buf)
    else if request =? ClearPortFeature then
      if (wValue =? USB_PORT_FEAT_C_CONNECTION) || (wValue =? USB_PORT_FEAT_C_RESET)
      then Done (0, buf, HubClient (port_status c) (ports_changed c) (cleared c ++ [(port_num, wValue)]))
      else Done (0, buf, c)
    else if request =? GetPortStatus then
      if wIndex =? 0 then Done (- EPIPE, buf, c) else ok (write_buf (le32 (port_status c port_num)) buf)
    else Done (0, buf, c).

Definition vhcd_hub_status_data (accessible : bool) (buf : list Z) (c : hub_client) : outcome (Z * list Z) :=
  if negb accessible then Done (- ETIMEDOUT, buf)
  else if ports_changed c =? 0 then Done (0, buf)
  else match write_buf (le32 (ports_changed c)) buf with Done b => Done (4, b) | Fault e => Fault e end.

(** The class requests in [rh_call_control]: [tbuf] is on the stack, the reply
    goes to the URB's transfer buffer [ubuf].  [wLength] is checked only against
    the transfer buffer. *)
Definition rh_class_request (accessible : bool) (num_ports typeReq wValue wIndex wLength : Z)
    (tbuf ubuf : list Z) (c : hub_client) : outcome (Z * list Z * hub_client) :=
  if Z.of_nat (length ubuf) <? wLength then Done (- EPIPE, ubuf, c)
  else
    let len := if (typeReq =? GetHubStatus) || (typeReq =? GetPortStatus) then 4%nat
               else if typeReq =? GetHubDescriptor then hub_desc_size else 0%nat in
    match vhcd_hub_control accessible num_ports typeReq wValue wIndex wLength tbuf c with
    | Fault e => Fault e
    | Done (st, tbuf, c) =>
        let len := if st =? 0 then len else 0%nat in
        let len := Nat.min len (length ubuf) in
        Done (st, take len tbuf ++ drop len ubuf, c)
    end.

(** ** Properties *)

(** C14: For every history of control URB submissions and client completions, with
    any results of the core's checks and in any controller state, nothing is
    freed too early, and every URB the core accepted is given back exactly once:
    it is with the client as long as it is outstanding (with two references, one
    use and [hcpriv] set on top of its owners'), and after its completion it has
    its owners' references back, no use, and can be submitted again. *)
Theorem urbs_given_back_once rh own s0 os :
  dom (urbs s0) = dom own → completions s0 = [] →
  (∀ u x, urbs s0 !! u = Some x → ∃ n, own !! u = Some n ∧ 1 ≤ n ∧ idle n x) →
  Forall (uop_ok own) os →
  ∃ w, usteps rh (World s0 [] []) os = Done w ∧ NoDup (outstanding w) ∧
    ∀ u x, urbs (hc w) !! u = Some x → ∃ n, own !! u = Some n ∧
      if bool_decide (u ∈ outstanding w)
      then busy n x ∧ occ u (accepted w) = S (occ u (completed (hc w)))
      else idle n x ∧ occ u (accepted w) = occ u (completed (hc w)).
Proof.
  intros Hdom Hc Hidle Hos. destruct (usteps_inv rh own os (World s0 [] [])) as (w & Hw & Hi); [|done|].
  - split; cbn [hc accepted outstanding]; [done| |].
    + intros u x Hx. destruct (Hidle u x Hx) as (n & Hn & Hn1 & Hid). exists n. split; [done|]. split; [done|]. left.
      cbn [hc accepted outstanding]. split; [done|]. split; [by intros ?%elem_of_nil|].
      unfold completed. by rewrite Hc.
    + split; [constructor|]. by intros u ?%elem_of_nil.
  - exists w. split; [done|]. split; [apply (wi_out _ _ Hi)|]. intros u x Hx.
    destruct (wi_urbs _ _ Hi u x Hx) as (n & Hn & _ & Hcase). exists n. split; [done|].
    case_bool_decide; destruct Hcase as [(?&?&?)|(?&?&?)]; done.
Qed.

(** A control URB to endpoint 0 of device 5, with one owner. *)
Definition example_urb : urb :=
  Urb 1 0 0 false false false false (Z.lor (Z.shiftl PIPE_CONTROL 30) (Z.shiftl 5 8))
    (Some [0x80; 6; 0; 1; 0; 0; 18; 0]) 2 true false.

Definition example_hst : hst :=
  Hst HC_STATE_RUNNING false true true (<[1%positive := example_urb]> ∅) [] [].

Definition no_root_hub : loc → M hst Z := λ _, mret (- EINVAL).

Lemma urbs_given_back_once_witness :
  ∃ w, usteps no_root_hub (World example_hst [] [])
         [USubmit 0 0 1%positive; USubmit 0 0 1%positive; UComplete 1%positive (replicate 8 0); USubmit 0 0 1%positive] = Done w ∧
    NoDup (outstanding w) ∧ outstanding w = [1%positive] ∧ accepted w = [1%positive; 1%positive] ∧
    completed (hc w) = [1%positive].
Proof.
  destruct (urbs_given_back_once no_root_hub (<[1%positive := 1]> ∅) example_hst
    [USubmit 0 0 1%positive; USubmit 0 0 1%positive; UComplete 1%positive (replicate 8 0); USubmit 0 0 1%positive])
    as (w & Hw & Hnd & _).
  - vm_compute. reflexivity.
  - reflexivity.
  - intros u x Hx. cbn [example_hst urbs] in Hx. apply lookup_insert_Some in Hx as [[<- <-]|[_ Hx]]; [|by rewrite lookup_empty in Hx].
    exists 1. split; [by rewrite lookup_insert_eq|]. split; [lia|]. vm_compute. repeat split; reflexivity.
  - repeat (apply list.Forall_cons; split; [first [exact I|eexists; vm_compute; reflexivity]|]). by apply list.Forall_nil.
  - exists w. split; [exact Hw|]. split; [exact Hnd|]. vm_compute in Hw. injection Hw as <-. vm_compute. repeat split; reflexivity.
Defined.

(** A bulk or interrupt URB to a running controller is refused with -EINVAL,
    but the reference taken for it is not dropped and [hcpriv] stays set: its
    count is one too high for ever, so it is never freed, and no later submission
    of it can succeed. *)
Theorem bulk_urb_leaks rh u x s n :
  urbs s !! u = Some x → refcnt x = n → 1 ≤ n → use_count x = 0 → hcpriv x = false → at_root x = false →
  usb_pipetype (pipe x) = PIPE_BULK ∨ usb_pipetype (pipe x) = PIPE_INTERRUPT →
  usb_pipedevice (pipe x) ≠ 0 → ep_exists x = true → reject x = false → hc_state s = HC_STATE_RUNNING →
  ∃ y s', usb_submit_urb rh 0 0 u s = Done (- EINVAL, s') ∧ urbs s' !! u = Some y ∧
    refcnt y = n + 1 ∧ hcpriv y = true ∧ queued y = false ∧
    (∀ pre sane, usb_submit_urb rh pre sane u s' = Done (- EINVAL, s')) ∧
    (∃ s2, usb_free_urb u s' = Done (tt, s2) ∧ is_Some (urbs s2 !! u)).
Proof.
  intros Hx Hr Hn Hu Hh Ha Hp Hd He Hrej Hst. pose proof (put_urb_id u x s Hx) as Hid.
  assert (Hrun : ∃ y, usb_submit_urb rh 0 0 u (put_urb u x s) = Done (- EINVAL, put_urb u y s) ∧
    refcnt y = n + 1 ∧ hcpriv y = true ∧ queued y = false).
  { unfold usb_submit_urb. run_simpl. rewrite get_put, Hh. cbn [Z.eqb negb]. rewrite upd_put.
    set (x1 := set_status (- EINPROGRESS) x). unfold usb_hcd_submit_urb. run_simpl. rewrite get_put.
    assert (admission (put_urb u x1 s) x1 = 0) as ->.
    { unfold admission. cbn [ep_exists reject x1 set_status hc_state put_urb set_urbs]. by rewrite He, Hrej, Hst. }
    rewrite Z.eqb_refl. cbn [negb]. rewrite upd_put, usb_get_put, upd_put. change (at_root x1) with (at_root x). rewrite Ha.
    set (x2 := set_use_count _ _). change (uses_dma (put_urb u x2 s)) with (uses_dma s).
    assert (Hx3 : ∃ x3, (match (if uses_dma s then upd_urb u (set_mapped true) else λ s0, Done (tt, s0)) (put_urb u x2 s) with
      | Done (_, s') => vhcd_urb_enqueue u s' | Fault e => Fault e end) = vhcd_urb_enqueue u (put_urb u x3 s) ∧
      pipe x3 = pipe x ∧ status x3 = - EINPROGRESS ∧ refcnt x3 = n + 1 ∧ use_count x3 = 1).
    { destruct (uses_dma s); [rewrite upd_put|]; eexists; (split; [reflexivity|]); subst x2 x1; cbn; split_and!; try done; lia. }
    destruct Hx3 as (x3 & -> & Hp3 & Hs3 & Hr3 & Hu3).
    assert (Henq : vhcd_urb_enqueue u (put_urb u x3 s) = Done (- EINVAL, put_urb u (with_client x3) s)).
    { unfold vhcd_urb_enqueue. run_simpl. rewrite get_put. change (hc_state (put_urb u x3 s)) with (hc_state s).
      rewrite Hst, Hp3, (proj2 (Z.eqb_neq _ _) Hd).
      change (HC_IS_RUNNING HC_STATE_RUNNING) with true. cbn [negb].
      unfold enqueue_out. run_simpl. rewrite get_put, Hs3, Z.eqb_refl, Hp3. cbn [negb].
      assert (usb_pipetype (pipe x) =? PIPE_ISOCHRONOUS = false ∧ usb_pipetype (pipe x) =? PIPE_CONTROL = false) as [-> ->]
        by (destruct Hp as [-> | ->]; done).
      rewrite upd_put, usb_get_put. done. }
    rewrite Henq. change (- EINVAL =? 0) with false. cbn beta iota. unfold urb_unlink.
    rewrite !upd_put, usb_put_put by (cbn; lia). eexists. split; [reflexivity|]. cbn. split_and!; try done; lia. }
  destruct Hrun as (y & Hrun & Hry & Hhy & Hqy). rewrite Hid in Hrun.
  exists y, (put_urb u y s). split; [done|]. split; [cbn; apply lookup_insert_eq|]. do 3 (split; [done|]). split.
  - intros pre sane. unfold usb_submit_urb. run_simpl. by rewrite get_put, Hhy.
  - pose proof (usb_put_put u y s) as Hput. unfold usb_put_urb in Hput. rewrite Hput by lia.
    eexists. split; [done|]. cbn. rewrite lookup_insert_eq. eauto.
Qed.

Definition bulk_urb : urb :=
  Urb 1 0 0 false false false false (Z.lor (Z.shiftl PIPE_BULK 30) (Z.shiftl 5 8)) None 2 true false.

Lemma bulk_urb_leaks_witness :
  ∃ y s', usb_submit_urb no_root_hub 0 0 1%positive
      (Hst HC_STATE_RUNNING false true true (<[1%positive := bulk_urb]> ∅) [] []) = Done (- EINVAL, s') ∧
    urbs s' !! 1%positive = Some y ∧ refcnt y = 2.
Proof.
  destruct (bulk_urb_leaks no_root_hub 1%positive bulk_urb
    (Hst HC_STATE_RUNNING false true true (<[1%positive := bulk_urb]> ∅) [] []) 1) as (y & s' & H1 & H2 & H3 & _);
    try reflexivity; try lia.
  - left. reflexivity.
  - vm_compute. discriminate.
  - exists y, s'. split; [exact H1|]. split; [exact H2|exact H3].
Defined.

(** The hub requests of the virtual controller stay inside the reply buffer
    that the USB core provides on its stack exactly as long as [wLength] is no
    larger than that buffer: a GetHubStatus request with a longer transfer
    buffer clears [wLength] bytes and runs over the end of it; within the bound
    every request succeeds or fails without a fault and the transfer buffer
    keeps its length. *)
Theorem hub_request_bounds num_ports typeReq wValue wIndex wLength tbuf ubuf c :
  length tbuf = hub_desc_size → 0 ≤ wLength → 0 ≤ wIndex ≤ num_ports →
  (wLength ≤ Z.of_nat hub_desc_size →
     ∃ st ubuf' c', rh_class_request true num_ports typeReq wValue wIndex wLength tbuf ubuf c = Done (st, ubuf', c') ∧
       length ubuf' = length ubuf) ∧
  (Z.of_nat hub_desc_size < wLength ≤ Z.of_nat (length ubuf) → typeReq = GetHubStatus →
     rh_class_request true num_ports typeReq wValue wIndex wLength tbuf ubuf c = Fault FBounds).
Proof.
  intros Ht HwL HwI. assert (Hw : ∀ bs, (length bs ≤ hub_desc_size)%nat →
    ∃ b, write_buf bs tbuf = Done b ∧ length b = hub_desc_size).
  { intros bs Hbs. unfold write_buf. rewrite Ht, (proj2 (Nat.leb_le _ _) Hbs). eexists. split; [done|].
    rewrite length_app, length_drop. lia. }
  split.
  - intros Hle. unfold rh_class_request. destruct (Z.ltb_spec (Z.of_nat (length ubuf)) wLength); [by eexists _, _, _|].
    assert (Hc : ∃ st b c', vhcd_hub_control true num_ports typeReq wValue wIndex wLength tbuf c = Done (st, b, c') ∧
      length b = hub_desc_size).
    { unfold vhcd_hub_control. cbn [negb]. rewrite (proj2 (Z.ltb_ge _ _)) by lia.
      destruct (Hw (hub_descriptor num_ports)) as (b1 & -> & ?); [done|].
      destruct (Hw (replicate (Z.to_nat wLength) 0)) as (b2 & -> & ?); [rewrite length_replicate; lia|].
      destruct (Hw (le32 (port_status c (Z.land wIndex 0xff)))) as (b3 & -> & ?); [cbn; unfold hub_desc_size; lia|].
      repeat case_match; eauto 10. }
    destruct Hc as (st & b & c' & -> & Hb). eexists _, _, _. split; [done|].
    set (len := Nat.min _ _). assert (len ≤ length ubuf)%nat by (unfold len; lia).
    assert (len ≤ hub_desc_size)%nat.
    { unfold len, hub_desc_size. etrans; [apply Nat.le_min_l|]. repeat case_match; lia. }
    rewrite length_app, length_take, length_drop. lia.
  - intros [Hgt Hle] ->. unfold rh_class_request. rewrite (proj2 (Z.ltb_ge _ _)) by lia.
    unfold vhcd_hub_control. cbn [negb]. rewrite (proj2 (Z.ltb_ge num_ports wIndex)) by lia.
    change (GetHubStatus =? GetHubDescriptor) with false. change (GetHubStatus =? GetHubStatus) with true. cbn beta iota.
    unfold write_buf. rewrite length_replicate, Ht, (proj2 (Nat.leb_gt _ _)) by lia. done.
Qed.

Lemma hub_request_bounds_witness :
  let c := HubClient (λ _, 0x101) 2 [] in
  rh_class_request true 4 GetHubStatus 0 0 64 (replicate 15 0) (replicate 64 7) c = Fault FBounds ∧
  ∃ st ubuf' c', rh_class_request true 4 GetPortStatus 0 1 4 (replicate 15 0) (replicate 4 7) c = Done (st, ubuf', c') ∧
    length ubuf' = 4%nat.
Proof.
  intros c. split.
  - apply (hub_request_bounds 4 GetHubStatus 0 0 64 (replicate 15 0) (replicate 64 7) c); [reflexivity|lia|lia|vm_compute; split; [reflexivity|discriminate]|reflexivity].
  - apply (hub_request_bounds 4 GetPortStatus 0 1 4 (replicate 15 0) (replicate 4 7) c); [reflexivity|lia|lia|vm_compute; discriminate].
Defined.
