(* ===== verification/Resource.v ===== *)
(** The resource tree (src/src/linux26/kernel/resource.c): requesting, releasing
    and allocating address ranges below a root resource.

    Resources are heap nodes linked by [child] and [sibling] pointers, as in the
    code; the loops walk a pointer to a link.  [resource_size_t] has 64 bits in
    this configuration. *)

From S2P Require Import Prelude.

(** [struct resource] *)
Record resource := Resource {
  start : Z;
  end_ : Z;
  flags : Z;
  parent : option loc;
  sibling : option loc;
  child : option loc;
}.

Definition set_range (a b : Z) (r : resource) : resource :=
  Resource a b (flags r) (parent r) (sibling r) (child r).
Definition set_parent (p : option loc) (r : resource) : resource :=
  Resource (start r) (end_ r) (flags r) p (sibling r) (child r).
Definition set_sibling (p : option loc) (r : resource) : resource :=
  Resource (start r) (end_ r) (flags r) (parent r) p (child r).
Definition set_child (p : option loc) (r : resource) : resource :=
  Resource (start r) (end_ r) (flags r) (parent r) (sibling r) p.

Notation heap := (gmap loc resource).

(** The places a [struct resource **p] points to. *)
Inductive link := ChildOf (r : loc) | SiblingOf (r : loc).

#[export] Instance link_eq_dec : EqDecision link.
Proof. solve_decision. Defined.

Definition node (r : loc) : M heap resource := λ h,
  match h !! r with Some x => Done (x, h) | None => Fault FFreed end.

Definition upd (r : loc) (f : resource → resource) : M heap unit :=
  x ← node r; modify (<[r := f x]>).

Definition read_link (p : link) : M heap (option loc) :=
  match p with
  | ChildOf r => x ← node r; mret (child x)
  | SiblingOf r => x ← node r; mret (sibling x)
  end.

Definition write_link (p : link) (v : option loc) : M heap unit :=
  match p with
  | ChildOf r => upd r (set_child v)
  | SiblingOf r => upd r (set_sibling v)
  end.

(** ** Requesting and releasing *)

(** The loop of [__request_resource]. *)
Fixpoint request_loop (fuel : nat) (root new : loc) (s e : Z) (p : link) : M heap (option loc) :=
  match fuel with
  | O => fail FFuel
  | S fuel =>
      tmp ← read_link p;
      let take :=
        upd new (set_sibling tmp);; write_link p (Some new);; upd new (set_parent (Some root));; mret None in
      match tmp with
      | None => take
      | Some t =>
          x ← node t;
          if e <? start x then take
          else if end_ x <? s then request_loop fuel root new s e (SiblingOf t)
          else mret (Some t)
      end
  end.

(** The conflicting resource, or None. *)
Definition __request_resource (fuel : nat) (root new : loc) : M heap (option loc) :=
  n ← node new;
  r ← node root;
  if end_ n <? start n then mret (Some root)
  else if start n <? start r then mret (Some root)
  else if end_ r <? end_ n then mret (Some root)
  else request_loop fuel root new (start n) (end_ n) (ChildOf root).

Fixpoint unlink_loop (fuel : nat) (old : loc) (p : link) : M heap Z :=
  match fuel with
  | O => fail FFuel
  | S fuel =>
      tmp ← read_link p;
      match tmp with
      | None => mret (- EINVAL)
      | Some t =>
          if Pos.eqb t old then
            x ← node t;
            write_link p (sibling x);;
            upd old (set_parent None);;
            mret 0
          else unlink_loop fuel old (SiblingOf t)
      end
  end.

Definition __release_resource (fuel : nat) (old : loc) : M heap Z :=
  o ← node old;
  match parent o with
  | None => fail FNull
  | Some r => unlink_loop fuel old (ChildOf r)
  end.

Definition request_resource (fuel : nat) (root new : loc) : M heap Z :=
  c ← __request_resource fuel root new; mret (match c with Some _ => - EBUSY | None => 0 end).

Definition ____request_resource (fuel : nat) (root new : loc) : M heap (option loc) :=
  __request_resource fuel root new.

Definition release_resource (fuel : nat) (old : loc) : M heap Z := __release_resource fuel old.

(** ** Allocating *)

(** [ALIGN(x, a)] in 64 bits. *)
Definition ALIGN (x a : Z) : Z := Z.land (u64 (x + (a - 1))) (u64 (Z.lnot (a - 1))).

(** [alignf] changes the start and end of [new]; None is the NULL pointer. *)
Definition align_fun : Type := option (Z * Z → Z → Z → Z * Z).

(** The loop of [find_resource]: [this] and [new->start] are the loop's
    variables. *)
Fixpoint hole_loop (fuel : nat) (root new : loc) (size min max align : Z) (alignf : align_fun) (this : option loc) :
    M heap Z :=
  match fuel with
  | O => fail FFuel
  | S fuel =>
      r ← node root;
      n ← node new;
      e ← match this with Some t => x ← node t; mret (u64 (start x - 1)) | None => mret (end_ r) end;
      let s := if start n <? min then min else start n in
      let e := if max <? e then max else e in
      let s := ALIGN s align in
      let '(s, e) := match alignf with Some f => f (s, e) size align | None => (s, e) end in
      if (s <? e) && (u64 (size - 1) <=? u64 (e - s)) then
        upd new (set_range s (u64 (s + size - 1)));; mret 0
      else
        upd new (set_range s e);;
        match this with
        | None => mret (- EBUSY)
        | Some t =>
            x ← node t;
            upd new (set_range (u64 (end_ x + 1)) e);;
            hole_loop fuel root new size min max align alignf (sibling x)
        end
  end.

Definition find_resource (fuel : nat) (root new : loc) (size min max align : Z) (alignf : align_fun) : M heap Z :=
  r ← node root;
  n ← node new;
  upd new (set_range (start r) (end_ n));;
  match child r with
  | Some t =>
      x ← node t;
      if start x =? 0 then
        upd new (set_range (u64 (end_ x + 1)) (end_ n));;
        hole_loop fuel root new size min max align alignf (sibling x)
      else hole_loop fuel root new size min max align alignf (Some t)
  | None => hole_loop fuel root new size min max align alignf None
  end.

Definition allocate_resource (fuel : nat) (root new : loc) (size min max align : Z) (alignf : align_fun) : M heap Z :=
  err ← find_resource fuel root new size min max align alignf;
  if 0 <=? err then
    c ← __request_resource fuel root new;
    mret (match c with Some _ => - EBUSY | None => err end)
  else mret err.

(** ** One level of the tree *)

Definition owner (p : link) : loc := match p with ChildOf r => r | SiblingOf r => r end.

Definition get_link (p : link) (x : resource) : option loc :=
  match p with ChildOf _ => child x | SiblingOf _ => sibling x end.

Definition put_link (p : link) (v : option loc) (x : resource) : resource :=
  match p with ChildOf _ => set_child v x | SiblingOf _ => set_sibling v x end.

Lemma read_link_eq p h x : h !! owner p = Some x → read_link p h = Done (get_link p x, h).
Proof. destruct p; cbn; unfold node; run_simpl; by intros ->. Qed.

Lemma upd_eq r f h x : h !! r = Some x → upd r f h = Done (tt, <[r := f x]> h).
Proof. unfold upd, node. run_simpl. by intros ->. Qed.

Lemma write_link_eq p v h x : h !! owner p = Some x → write_link p v h = Done (tt, <[owner p := put_link p v x]> h).
Proof. destruct p; cbn; intros Hx; by apply upd_eq. Qed.

Lemma node_eq r h x : h !! r = Some x → node r h = Done (x, h).
Proof. unfold node. by intros ->. Qed.

(** Following the siblings from the link [p] visits exactly [L]. *)
Fixpoint chain (h : heap) (p : link) (L : list loc) : Prop :=
  ∃ x, h !! owner p = Some x ∧
  match L with
  | [] => get_link p x = None
  | y :: L => get_link p x = Some y ∧ chain h (SiblingOf y) L
  end.

(** Two heaps that agree on the links of a chain. *)
Lemma chain_ext h h' p L :
  (∀ x, h !! owner p = Some x → ∃ x', h' !! owner p = Some x' ∧ get_link p x' = get_link p x) →
  (∀ y x, y ∈ L → h !! y = Some x → ∃ x', h' !! y = Some x' ∧ sibling x' = sibling x) →
  chain h p L → chain h' p L.
Proof.
  revert p. induction L as [|y L IH]; intros p Hp HL; cbn [chain]; intros (x & Hx & Hc).
  - destruct (Hp x Hx) as (x' & Hx' & He). exists x'. split; [done|]. congruence.
  - destruct Hc as [Hy Hc]. destruct (Hp x Hx) as (x' & Hx' & He). exists x'. split; [done|].
    split; [congruence|]. apply IH; [|intros z w Hz; apply HL; by right|done].
    intros w Hw. apply (HL y w); [left|done].
Qed.

Lemma chain_nodes h p L : chain h p L → ∀ y, y ∈ L → is_Some (h !! y).
Proof.
  revert p. induction L as [|z L IH]; intros p; cbn [chain]; [by intros _ y ?%elem_of_nil|].
  intros (x & _ & _ & Hc) y [->|Hy]%elem_of_cons; [|by eapply IH].
  destruct L; cbn [chain] in Hc; destruct Hc as (w & Hw & _); by exists w.
Qed.

(** The children [L] of [root], in order, disjoint and inside the root. *)
Record level (h : heap) (root : loc) (L : list loc) : Prop := {
  lv_chain : chain h (ChildOf root) L;
  lv_nodup : NoDup L ∧ root ∉ L;
  lv_parent : ∀ y x, y ∈ L → h !! y = Some x → parent x = Some root;
  lv_range : ∀ r y x, h !! root = Some r → y ∈ L → h !! y = Some x → start r ≤ start x ≤ end_ x ∧ end_ x ≤ end_ r;
  lv_sorted : ∀ L1 y L2 z xy xz, L = L1 ++ y :: L2 → z ∈ L2 → h !! y = Some xy → h !! z = Some xz → end_ xy < start xz;
}.

(** [new] can be requested: its range overlaps no child. *)
Definition free_range (h : heap) (L : list loc) (s e : Z) : Prop :=
  ∀ y x, y ∈ L → h !! y = Some x → end_ x < s ∨ e < start x.

(** The heap after [new] was linked in at [p]. *)
Definition linked (h : heap) (root new : loc) (p : link) (n : resource) (o : resource) (next : option loc) : heap :=
  <[new := set_parent (Some root) (set_sibling next n)]> (<[owner p := put_link p (Some new) o]> h).

Lemma link_step h root new p n o next :
  h !! new = Some n → h !! owner p = Some o → owner p ≠ new →
  (upd new (set_sibling next);; write_link p (Some new);; upd new (set_parent (Some root));; mret None : M heap (option loc)) h =
  Done (None, linked h root new p n o next).
Proof.
  intros Hn Ho Hne. run_simpl. rewrite (upd_eq _ _ _ _ Hn).
  rewrite (write_link_eq p _ _ o) by (by rewrite lookup_insert_ne).
  rewrite (upd_eq _ _ _ (set_sibling next n)) by (by rewrite lookup_insert_ne, lookup_insert_eq).
  unfold linked. by rewrite (insert_insert_ne _ (owner p)), insert_insert_eq, insert_insert_ne by done.
Qed.

(** One iteration of the loop at a link that reads [tmp]. *)
Lemma request_loop_unfold h root new n s e fuel p o :
  h !! owner p = Some o → h !! new = Some n → owner p ≠ new →
  request_loop (S fuel) root new s e p h =
  match get_link p o with
  | None => Done (None, linked h root new p n o None)
  | Some t =>
      match h !! t with
      | None => Fault FFreed
      | Some x => if e <? start x then Done (None, linked h root new p n o (Some t))
                  else if end_ x <? s then request_loop fuel root new s e (SiblingOf t) h
                  else Done (Some t, h)
      end
  end.
Proof.
  intros Ho Hn Hne. cbn [request_loop]. unfold mbind at 1, M_bind at 1. rewrite (read_link_eq p h o Ho).
  destruct (get_link p o) as [t|].
  - unfold mbind at 1, M_bind at 1. unfold node at 1. destruct (h !! t) as [x|]; [|done].
    destruct (e <? start x); [by apply (link_step h root new p n o (Some t))|]. by destruct (end_ x <? s).
  - by apply (link_step h root new p n o None).
Qed.

(** The result of the request loop on the part [L2] of the chain that starts at
    [p]: either the range is free and [new] is linked in between the children
    below and above it, or the first child that overlaps is returned. *)
Lemma request_loop_spec h root new n s e L2 : ∀ fuel p o,
  chain h p L2 → h !! owner p = Some o → h !! new = Some n → owner p ≠ new → new ∉ L2 →
  (∀ L1 y L3 z xy xz, L2 = L1 ++ y :: L3 → z ∈ L3 → h !! y = Some xy → h !! z = Some xz → end_ xy < start xz) →
  (∀ y x, y ∈ L2 → h !! y = Some x → start x ≤ end_ x) →
  s ≤ e → (length L2 < fuel)%nat →
  (∃ t x, t ∈ L2 ∧ h !! t = Some x ∧ start x ≤ e ∧ s ≤ end_ x ∧
     request_loop fuel root new s e p h = Done (Some t, h)) ∨
  (∃ A B q oq, L2 = A ++ B ∧ q = (match list.last A with Some a => SiblingOf a | None => p end) ∧ h !! owner q = Some oq ∧
     get_link q oq = list.head B ∧
     (∀ y x, y ∈ A → h !! y = Some x → end_ x < s) ∧ (∀ y x, y ∈ B → h !! y = Some x → e < start x) ∧
     request_loop fuel root new s e p h = Done (None, linked h root new q n oq (list.head B))).
Proof.
  induction L2 as [|t L2 IH]; intros fuel p o Hch Ho Hn Hpn Hnew Hsort Hle Hse Hfuel;
    (destruct fuel as [|fuel]; [cbn in Hfuel; lia|]); cbn [chain] in Hch; destruct Hch as (o' & Ho' & Hch);
    assert (o' = o) as -> by congruence; clear Ho'; rewrite (request_loop_unfold h root new n s e fuel p o) by done.
  - right. exists [], [], p, o. rewrite Hch. do 4 (split; [done|]). split; [by intros ?? ?%elem_of_nil|].
    split; [by intros ?? ?%elem_of_nil|done].
  - destruct Hch as [Hg Hch]. assert (Hx : ∃ x, h !! t = Some x) by (destruct L2; cbn in Hch; destruct Hch as (x & ? & _); eauto).
    destruct Hx as [x Hx]. rewrite Hg, Hx.
    destruct (Z.ltb_spec e (start x)) as [Hlt|Hge].
    + right. exists [], (t :: L2), p, o. do 4 (split; [done|]). split; [by intros ?? ?%elem_of_nil|]. split; [|done].
      intros y w [->|Hy]%elem_of_cons Hw; [congruence|].
      specialize (Hsort [] t L2 y x w eq_refl Hy Hx Hw). specialize (Hle t x ltac:(left) Hx). lia.
    + destruct (Z.ltb_spec (end_ x) s) as [Hlt2|Hge2].
      2:{ left. exists t, x. split; [left|]. done. }
      destruct (IH fuel (SiblingOf t) x) as [(u & w & Hu & Hw & H1 & H2 & Hrun)|(A & B & q & oq & -> & Hq & Hoq & Hgq & HA & HB & Hrun)];
        try done; [set_solver|set_solver| | |cbn in Hfuel; lia| |].
      * intros L1 y L3 z xy xz -> Hz. apply (Hsort (t :: L1) y L3 z xy xz); done.
      * intros y w Hy. apply Hle. by right.
      * left. exists u, w. split; [by right|]. done.
      * right. exists (t :: A), B, q, oq. split; [done|]. split.
        { rewrite Hq. destruct A as [|a A]; [done|]. change (list.last (t :: a :: A)) with (list.last (a :: A)).
          destruct (list.last (a :: A)) eqn:E; [done|]. by apply list.last_None in E. }
        do 2 (split; [done|]). split; [|done].
        intros y w [->|Hy]%elem_of_cons Hw; [congruence|by eapply HA].
Qed.

(** The link before the position after [A] in the chain from [p]. *)
Definition link_at (p : link) (A : list loc) : link :=
  match list.last A with Some a => SiblingOf a | None => p end.

Lemma link_at_cons p a A : link_at p (a :: A) = link_at (SiblingOf a) A.
Proof.
  unfold link_at. destruct A as [|b A]; [done|]. change (list.last (a :: b :: A)) with (list.last (b :: A)).
  destruct (list.last (b :: A)) eqn:E; [done|]. by apply list.last_None in E.
Qed.

Lemma link_at_owner p A : owner (link_at p A) = owner p ∨ owner (link_at p A) ∈ A.
Proof.
  unfold link_at. destruct (list.last A) as [a|] eqn:E; [|by left]. right. cbn.
  apply list.last_Some in E as [l ->]. set_solver.
Qed.

Lemma link_at_ne a A B (r : loc) : r ∉ a :: A ++ B → owner (link_at (SiblingOf a) A) ≠ r.
Proof.
  intros Hr E. apply Hr. destruct (link_at_owner (SiblingOf a) A) as [E'|Hin].
  - cbn [owner] in E'. rewrite <- E, E'. left.
  - rewrite <- E. right. apply elem_of_app. by left.
Qed.

(** [new] is put into the chain at a link. *)
Lemma chain_insert h root new n oq A B : ∀ p,
  chain h p (A ++ B) → NoDup (A ++ B) → owner p ∉ A ++ B → new ∉ A ++ B → owner p ≠ new →
  h !! owner (link_at p A) = Some oq →
  chain (linked h root new (link_at p A) n oq (list.head B)) p (A ++ new :: B).
Proof.
  induction A as [|a A IH]; intros p Hch Hnd Hp Hnew Hpn Hoq; cbn [app chain] in *.
  - cbn [link_at list.last] in *. unfold linked. cbn [link_at list.last owner].
    exists (put_link p (Some new) oq). rewrite lookup_insert_ne by done. split; [apply lookup_insert_eq|].
    split; [by destruct p|].
    assert (Hnew' : ∀ v : resource, v = set_parent (Some root) (set_sibling (list.head B) n) →
      sibling v = list.head B) by (intros v ->; done).
    destruct B as [|b B]; cbn [chain]; eexists; (split; [apply lookup_insert_eq|]); [done|]. split; [done|].
    cbn [chain] in Hch. destruct Hch as (x & Hx & _ & Hch). eapply chain_ext; [| |exact Hch].
    + cbn [owner get_link]. intros y Hy. rewrite !lookup_insert_ne by set_solver. eauto.
    + intros y z Hy Hz. rewrite !lookup_insert_ne by set_solver. eauto.
  - rewrite link_at_cons in *. destruct Hch as (x & Hx & Hg & Hch). apply list.NoDup_cons in Hnd as [Ha Hnd].
    exists x. split; [|split; [done|]].
    + unfold linked. rewrite lookup_insert_ne by done. rewrite lookup_insert_ne; [done|].
      by apply link_at_ne with B.
    + apply not_elem_of_cons in Hnew as [? ?]. apply IH; cbn [owner]; done.
Qed.

(** The heap after [old] was taken out at the link [p]. *)
Definition unlinked (h : heap) (old : loc) (p : link) (o oq : resource) : heap :=
  <[old := set_parent None o]> (<[owner p := put_link p (sibling o) oq]> h).

Lemma chain_delete h old o oq A B : ∀ p,
  chain h p (A ++ old :: B) → NoDup (A ++ old :: B) → owner p ∉ A ++ old :: B → h !! old = Some o →
  h !! owner (link_at p A) = Some oq → chain (unlinked h old (link_at p A) o oq) p (A ++ B).
Proof.
  induction A as [|a A IH]; intros p Hch Hnd Hp Ho Hoq; cbn [app chain] in *.
  - cbn [link_at list.last] in *. destruct Hch as (x & Hx & Hg & Hch). unfold unlinked. cbn [link_at list.last owner].
    assert (owner p ≠ old) by set_solver. apply list.NoDup_cons in Hnd as [Hold Hnd].
    destruct B as [|b B]; cbn [chain] in *; destruct Hch as (y & Hy & Hch); cbn [owner get_link] in *;
      assert (y = o) as -> by congruence.
    + exists (put_link p (sibling o) oq). rewrite lookup_insert_ne by done. split; [apply lookup_insert_eq|]. by destruct p.
    + destruct Hch as [Hs Hch]. exists (put_link p (sibling o) oq). rewrite lookup_insert_ne by done.
      split; [apply lookup_insert_eq|]. split; [by destruct p|]. eapply chain_ext; [| |exact Hch].
      * cbn [owner get_link]. intros z Hz. rewrite !lookup_insert_ne by set_solver. eauto.
      * intros z w Hz Hw. rewrite !lookup_insert_ne by set_solver. eauto.
  - rewrite link_at_cons in *. destruct Hch as (x & Hx & Hg & Hch). apply list.NoDup_cons in Hnd as [Ha Hnd].
    exists x. split; [|split; [done|]].
    + unfold unlinked. rewrite lookup_insert_ne.
      2:{ intros E. apply Hp. rewrite <- E. right. apply elem_of_app. right. left. }
      rewrite lookup_insert_ne; [done|]. by apply link_at_ne with (old :: B).
    + apply IH; cbn [owner]; done.
Qed.

(** What linking and unlinking leave alone. *)
Definition same_range (x x' : resource) : Prop := start x' = start x ∧ end_ x' = end_ x.

Lemma put_link_range p v x : same_range x (put_link p v x) ∧ parent (put_link p v x) = parent x.
Proof. by destruct p. Qed.

Lemma linked_range h root new q n oq next y x : h !! new = Some n → h !! owner q = Some oq → owner q ≠ new →
  h !! y = Some x → ∃ x', linked h root new q n oq next !! y = Some x' ∧ same_range x x' ∧
    (y ≠ new → parent x' = parent x).
Proof.
  intros Hn Hq Hne Hy. unfold linked. destruct (decide (y = new)) as [->|Hyn].
  - rewrite lookup_insert_eq. simplify_eq. eexists. split; [done|]. by split.
  - rewrite lookup_insert_ne by done. destruct (decide (y = owner q)) as [->|Hyq].
    + rewrite lookup_insert_eq. assert (x = oq) as -> by congruence. eexists. split; [done|].
      destruct (put_link_range q (Some new) oq). by split.
    + rewrite lookup_insert_ne by done. exists x. split; [done|]. by split.
Qed.

Lemma unlinked_range h old q o oq y x : h !! old = Some o → h !! owner q = Some oq → owner q ≠ old →
  h !! y = Some x → ∃ x', unlinked h old q o oq !! y = Some x' ∧ same_range x x' ∧
    (y ≠ old → parent x' = parent x).
Proof.
  intros Ho Hq Hne Hy. unfold unlinked. destruct (decide (y = old)) as [->|Hyo].
  - rewrite lookup_insert_eq. simplify_eq. eexists. split; [done|]. by split.
  - rewrite lookup_insert_ne by done. destruct (decide (y = owner q)) as [->|Hyq].
    + rewrite lookup_insert_eq. assert (x = oq) as -> by congruence. eexists. split; [done|].
      destruct (put_link_range q (sibling o) oq). by split.
    + rewrite lookup_insert_ne by done. exists x. split; [done|]. by split.
Qed.

(** ** Requests and releases on a level *)

Lemma level_root h root L : level h root L → ∃ r, h !! root = Some r.
Proof. intros [Hc _ _ _ _]. destruct L; cbn [chain owner] in Hc; destruct Hc as (r & Hr & _); eauto. Qed.

Lemma link_at_node h p A B : chain h p (A ++ B) → ∃ oq, h !! owner (link_at p A) = Some oq.
Proof.
  revert p. induction A as [|a A IH]; intros p.
  - cbn [app]. destruct B; cbn [chain]; intros (x & Hx & _); eauto.
  - cbn [app chain]. intros (x & _ & _ & Hch). rewrite link_at_cons. by apply IH.
Qed.

(** The order with one more element between the halves. *)
Lemma level_sorted_insert (h : heap) (A B : list loc) (new : loc) n L1 y L2 z xy xz :
  (∀ L1 y L2 z xy xz, A ++ B = L1 ++ y :: L2 → z ∈ L2 → h !! y = Some xy → h !! z = Some xz → end_ xy < start xz) →
  h !! new = Some n →
  (∀ y x, y ∈ A → h !! y = Some x → end_ x < start n) → (∀ y x, y ∈ B → h !! y = Some x → end_ n < start x) →
  A ++ new :: B = L1 ++ y :: L2 → z ∈ L2 → h !! y = Some xy → h !! z = Some xz → end_ xy < start xz.
Proof.
  intros Hs Hn HA HB HL Hz Hxy Hxz. apply app_eq_inv in HL as [(K & -> & HK)|(K & -> & HK)].
  - destruct K as [|k K]; cbn in HK; injection HK as -> ->; [|].
    + assert (xy = n) as -> by congruence. by apply (HB z).
    + apply elem_of_app in Hz as [Hz|[->|Hz]%elem_of_cons].
      * apply (Hs L1 k (K ++ B) z); try done; [by rewrite <- app_assoc|]. apply elem_of_app. by left.
      * assert (xz = n) as -> by congruence. apply (HA k); [|done]. apply elem_of_app. right. left.
      * apply (Hs L1 k (K ++ B) z); try done; [by rewrite <- app_assoc|]. apply elem_of_app. by right.
  - destruct K as [|k K]; cbn in HK; injection HK as <- HB'.
    + rewrite <- HB' in Hz. assert (xy = n) as -> by congruence. by apply (HB z).
    + apply (Hs (A ++ K) y L2 z); try done. by rewrite HB', <- app_assoc.
Qed.

(** Linking [new] in between its neighbours keeps the level. *)
Lemma level_new h root A B new n q oq :
  level h root (A ++ B) → h !! new = Some n → new ≠ root → new ∉ A ++ B →
  q = link_at (ChildOf root) A → h !! owner q = Some oq →
  (∀ r, h !! root = Some r → start r ≤ start n ≤ end_ n ∧ end_ n ≤ end_ r) →
  (∀ y x, y ∈ A → h !! y = Some x → end_ x < start n) → (∀ y x, y ∈ B → h !! y = Some x → end_ n < start x) →
  level (linked h root new q n oq (list.head B)) root (A ++ new :: B).
Proof.
  intros [Hc [Hnd Hr] Hp Hrg Hs] Hn Hnr Hnew Hq Hoq Hin HA HB.
  assert (Hqn : owner q ≠ new).
  { rewrite Hq. destruct (link_at_owner (ChildOf root) A) as [->|Hi]; [done|]. intros E. apply Hnew, elem_of_app. left. by rewrite <- E. }
  assert (Hback : ∀ y x', linked h root new q n oq (list.head B) !! y = Some x' →
    ∃ x, h !! y = Some x ∧ same_range x x' ∧ (y ≠ new → parent x' = parent x) ∧ (y = new → parent x' = Some root)).
  { intros y x' Hx'. assert (Hy : ∃ x, h !! y = Some x).
    { unfold linked in Hx'. destruct (decide (y = new)) as [->|]; [eauto|]. rewrite lookup_insert_ne in Hx' by done.
      destruct (decide (y = owner q)) as [->|]; [eauto|]. rewrite lookup_insert_ne in Hx' by done. eauto. }
    destruct Hy as [x Hx]. destruct (linked_range h root new q n oq (list.head B) y x Hn Hoq Hqn Hx) as (x2 & Hx2 & Hsr & Hpa).
    rewrite Hx' in Hx2. injection Hx2 as <-. exists x. do 3 (split; [done|]). intros ->. unfold linked in Hx'.
    rewrite lookup_insert_eq in Hx'. by injection Hx' as <-. }
  assert (Hmem : ∀ y, y ∈ A ++ new :: B ↔ y = new ∨ y ∈ A ++ B) by (intros y; rewrite !elem_of_app, elem_of_cons; tauto).
  split.
  - rewrite Hq. apply chain_insert; cbn [owner]; try done; [by rewrite <- Hq].
  - split; [|by rewrite Hmem; intros [?|?]].
    rewrite <- Permutation_middle. by constructor.
  - intros y x' Hy Hx'. destruct (Hback y x' Hx') as (x & Hx & _ & Hpa & Hpn).
    destruct (decide (y = new)) as [->|Hne]; [by apply Hpn|]. rewrite Hpa by done. apply Hmem in Hy as [?|Hy]; [done|]. by apply (Hp y x).
  - intros r' y x' Hr' Hy Hx'. destruct (Hback root r' Hr') as (r & Hrr & [-> ->] & _).
    destruct (Hback y x' Hx') as (x & Hx & [-> ->] & _). apply Hmem in Hy as [->|Hy]; [|by apply (Hrg r y x)].
    assert (x = n) as -> by congruence. by apply Hin.
  - intros L1 y L2 z xy' xz' HL Hz Hxy' Hxz'.
    destruct (Hback y xy' Hxy') as (xy & Hxy & [_ ->] & _). destruct (Hback z xz' Hxz') as (xz & Hxz & [-> _] & _).
    clear Hback Hxy' Hxz'. apply (level_sorted_insert h A B new n L1 y L2 z); try done.
Qed.

(** The ranges of the nodes, which linking does not change. *)
Definition range_of (h : heap) (y : loc) : option (Z * Z) := (λ x, (start x, end_ x)) <$> h !! y.

Lemma linked_range_of h root new q n oq next y :
  h !! new = Some n → h !! owner q = Some oq → owner q ≠ new →
  range_of (linked h root new q n oq next) y = range_of h y.
Proof.
  intros Hn Hq Hne. unfold range_of, linked. destruct (decide (y = new)) as [->|]; [by rewrite lookup_insert_eq, Hn|].
  rewrite lookup_insert_ne by done. destruct (decide (y = owner q)) as [->|]; [|by rewrite lookup_insert_ne].
  rewrite lookup_insert_eq, Hq. by destruct q.
Qed.

Lemma unlinked_range_of h old q o oq y :
  h !! old = Some o → h !! owner q = Some oq → owner q ≠ old →
  range_of (unlinked h old q o oq) y = range_of h y.
Proof.
  intros Hn Hq Hne. unfold range_of, unlinked. destruct (decide (y = old)) as [->|]; [by rewrite lookup_insert_eq, Hn|].
  rewrite lookup_insert_ne by done. destruct (decide (y = owner q)) as [->|]; [|by rewrite lookup_insert_ne].
  rewrite lookup_insert_eq, Hq. by destruct q.
Qed.

Lemma level_below h root L : level h root L → ∀ y x, y ∈ L → h !! y = Some x → start x ≤ end_ x.
Proof. intros Hl y x Hy Hx. destruct (level_root _ _ _ Hl) as [r Hr]. pose proof (lv_range _ _ _ Hl r y x Hr Hy Hx). lia. Qed.

Definition request_ok (h : heap) (L : list loc) (r n : resource) : Prop :=
  start r ≤ start n ≤ end_ n ∧ end_ n ≤ end_ r ∧ free_range h L (start n) (end_ n).

(** [__request_resource] links the node in exactly when its range lies in the
    root and overlaps no child, and otherwise changes nothing. *)
Lemma request_spec h root L new n r fuel :
  level h root L → h !! root = Some r → h !! new = Some n → new ≠ root → new ∉ L → (length L < fuel)%nat →
  (request_ok h L r n ∧ ∃ A B h', L = A ++ B ∧ __request_resource fuel root new h = Done (None, h') ∧
     level h' root (A ++ new :: B) ∧ dom h' = dom h ∧ ∀ y, range_of h' y = range_of h y) ∨
  (¬ request_ok h L r n ∧ ∃ c, __request_resource fuel root new h = Done (Some c, h)).
Proof.
  intros Hl Hr Hn Hnr Hnew Hfuel. unfold __request_resource. run_simpl. rewrite (node_eq _ _ _ Hn), (node_eq _ _ _ Hr).
  destruct (Z.ltb_spec (end_ n) (start n)); [right; split; [intros (?&?&?); lia|eauto]|].
  destruct (Z.ltb_spec (start n) (start r)); [right; split; [intros (?&?&?); lia|eauto]|].
  destruct (Z.ltb_spec (end_ r) (end_ n)); [right; split; [intros (?&?&?); lia|eauto]|].
  destruct (request_loop_spec h root new n (start n) (end_ n) L fuel (ChildOf root) r)
    as [(t & x & Ht & Hx & Hov1 & Hov2 & Hrun)|(A & B & q & oq & -> & Hq & Hoq & _ & HA & HB & Hrun)]; try done.
  - apply Hl.
  - apply (lv_sorted _ _ _ Hl).
  - by apply (level_below _ _ _ Hl).
  - right. split; [|eauto]. intros (_ & _ & Hfree). destruct (Hfree t x Ht Hx); lia.
  - left. assert (Hqn : owner q ≠ new).
    { subst q. destruct (link_at_owner (ChildOf root) A) as [E|Hi]; [by unfold link_at in E; rewrite E|].
      unfold link_at in Hi. intros E. apply Hnew, elem_of_app. left. by rewrite <- E. }
    split.
    + split; [lia|]. split; [lia|]. intros y x [Hy|Hy]%elem_of_app Hx; [left; by apply (HA y)|right; by apply (HB y)].
    + exists A, B. eexists. split; [done|]. split; [done|]. split.
      * apply level_new; try done. intros r' Hr'. assert (r' = r) as -> by congruence. lia.
      * split; [unfold linked; rewrite !dom_insert_L; apply elem_of_dom_2 in Hn, Hoq; set_solver|].
        intros y. by apply linked_range_of.
Qed.

Lemma unlink_loop_spec h old o B A : ∀ p fuel,
  chain h p (A ++ old :: B) → old ∉ A → owner p ≠ old → h !! old = Some o → (length A < fuel)%nat →
  ∃ oq, h !! owner (link_at p A) = Some oq ∧
    unlink_loop fuel old p h = Done (0, unlinked h old (link_at p A) o oq).
Proof.
  induction A as [|a A IH]; intros p fuel Hc Hold Hp Ho Hf; (destruct fuel as [|fuel]; [cbn in Hf; lia|]); cbn [app chain] in Hc;
    destruct Hc as (x & Hx & Hg & Hc); cbn [unlink_loop]; unfold mbind at 1, M_bind at 1; rewrite (read_link_eq p h x Hx), Hg.
  - exists x. split; [done|]. rewrite Pos.eqb_refl. run_simpl. rewrite (node_eq _ _ _ Ho), (write_link_eq p _ _ x Hx).
    rewrite (upd_eq _ _ _ o) by (by rewrite lookup_insert_ne). done.
  - apply not_elem_of_cons in Hold as [Hne Hold]. rewrite (proj2 (Pos.eqb_neq _ _)) by done.
    rewrite link_at_cons. apply IH; cbn [owner]; [done..|cbn in Hf; lia].
Qed.

Lemma release_spec h root A old B fuel :
  level h root (A ++ old :: B) → (length (A ++ old :: B) < fuel)%nat →
  ∃ h', __release_resource fuel old h = Done (0, h') ∧ level h' root (A ++ B) ∧ dom h' = dom h ∧
    ∀ y, range_of h' y = range_of h y.
Proof.
  intros Hl Hf. pose proof Hl as [Hc [Hnd Hroot] Hp Hrg Hs].
  assert (Hin : old ∈ A ++ old :: B) by (rewrite elem_of_app; right; left).
  destruct (chain_nodes _ _ _ Hc old Hin) as [o Ho].
  apply list.NoDup_app in Hnd as Hnd'. destruct Hnd' as (_ & HAB & _).
  assert (Hold : old ∉ A) by (intros Hi; apply (HAB old Hi); left).
  assert (Hro : root ≠ old) by (intros ->; done).
  destruct (unlink_loop_spec h old o B A (ChildOf root) fuel) as (oq & Hoq & Hrun); try done.
  { rewrite length_app in Hf. lia. }
  set (q := link_at (ChildOf root) A) in *.
  assert (Hqo : owner q ≠ old).
  { unfold q. destruct (link_at_owner (ChildOf root) A) as [->|Hi]; [done|]. intros E. by rewrite E in Hi. }
  exists (unlinked h old q o oq). split.
  { unfold __release_resource. run_simpl. by rewrite (node_eq _ _ _ Ho), (Hp old o Hin Ho). }
  assert (Hsub : ∀ y, y ∈ A ++ B → y ∈ A ++ old :: B) by (intros y; rewrite !elem_of_app, elem_of_cons; tauto).
  assert (Hne : ∀ y, y ∈ A ++ B → y ≠ old).
  { intros y Hy ->. apply list.NoDup_app in Hnd as (_ & _ & HB). apply list.NoDup_cons in HB as [HB _].
    apply elem_of_app in Hy as [?|?]; done. }
  assert (Hback : ∀ y x', y ≠ old → unlinked h old q o oq !! y = Some x' → ∃ x, h !! y = Some x ∧ same_range x x' ∧ parent x' = parent x).
  { intros y x' Hyo Hx'. assert (Hy : ∃ x, h !! y = Some x).
    { unfold unlinked in Hx'. rewrite lookup_insert_ne in Hx' by done.
      destruct (decide (y = owner q)) as [->|]; [eauto|]. rewrite lookup_insert_ne in Hx' by done. eauto. }
    destruct Hy as [x Hx]. destruct (unlinked_range h old q o oq y x Ho Hoq Hqo Hx) as (x2 & Hx2 & Hsr & Hpa).
    rewrite Hx' in Hx2. injection Hx2 as <-. exists x. auto. }
  split; [|split].
  - split.
    + by apply (chain_delete h old o oq A B (ChildOf root)).
    + split; [|by intros ?%Hsub]. rewrite <- Permutation_middle in Hnd. by apply list.NoDup_cons in Hnd as [_ ?].
    + intros y x' Hy Hx'. destruct (Hback y x' (Hne y Hy) Hx') as (x & Hx & _ & ->). apply (Hp y x); auto.
    + intros r' y x' Hr' Hy Hx'. destruct (Hback root r' Hro Hr') as (r & Hrr & [-> ->] & _).
      destruct (Hback y x' (Hne y Hy) Hx') as (x & Hx & [-> ->] & _). apply (Hrg r y x); auto.
    + intros L1 y L2 z xy' xz' HL Hz Hxy' Hxz'.
      assert (Hy : y ∈ A ++ B) by (rewrite HL, elem_of_app; right; left).
      assert (Hz' : z ∈ A ++ B) by (rewrite HL, elem_of_app; right; right; done).
      destruct (Hback y xy' (Hne y Hy) Hxy') as (xy & Hxy & [_ ->] & _).
      destruct (Hback z xz' (Hne z Hz') Hxz') as (xz & Hxz & [-> _] & _).
      apply app_eq_inv in HL as [(K & -> & HK)|(K & -> & HK)].
      * destruct K as [|k K]; cbn in HK.
        -- apply (Hs (L1 ++ [old]) y L2 z); try done. by rewrite app_nil_r, <- HK, <- app_assoc.
        -- injection HK as <- ->. apply (Hs L1 y (K ++ old :: B) z); try done; [by rewrite <- app_assoc|].
           rewrite elem_of_app, elem_of_cons in *. tauto.
      * apply (Hs (A ++ old :: K) y L2 z); try done. by rewrite HK, <- app_assoc.
  - unfold unlinked. rewrite !dom_insert_L. apply elem_of_dom_2 in Ho, Hoq. set_solver.
  - intros y. by apply unlinked_range_of.
Qed.

(** ** Alignment *)

Definition is_pow2 (a : Z) : Prop := ∃ k, 0 ≤ k < 64 ∧ a = 2 ^ k.

Lemma ALIGN_eq x k : 0 ≤ k < 64 → 0 ≤ x → x + 2 ^ k ≤ 2 ^ 64 → ALIGN x (2 ^ k) = (x + (2 ^ k - 1)) / 2 ^ k * 2 ^ k.
Proof.
  intros Hk Hx Hle. assert (Hp : 0 < 2 ^ k) by (apply Z.pow_pos_nonneg; lia).
  unfold ALIGN, u64, wrap. rewrite (Z.mod_small (x + _)) by lia.
  rewrite <- Z.shiftr_div_pow2, <- Z.shiftl_mul_pow2, <- Z.ldiff_ones_r by lia.
  apply Z.bits_inj'. intros i Hi. rewrite Z.land_spec, Z.ldiff_spec.
  destruct (Z.lt_ge_cases i 64) as [H64|H64].
  - rewrite Z.mod_pow2_bits_low by lia. rewrite Z.lnot_spec by lia. by rewrite Z.ones_equiv, Z.sub_1_r.
  - rewrite (Z.bits_above_log2 (x + (2 ^ k - 1))); [done|lia|].
    destruct (decide (x + (2 ^ k - 1) = 0)) as [->|]; [cbn; lia|]. apply Z.log2_lt_pow2; [lia|].
    assert (2 ^ 64 ≤ 2 ^ i) by (apply Z.pow_le_mono_r; lia). lia.
Qed.

(** [ALIGN] rounds up to the least multiple, when the sum does not wrap. *)
Lemma ALIGN_least x a : is_pow2 a → 0 ≤ x → x + a ≤ 2 ^ 64 →
  x ≤ ALIGN x a ∧ ALIGN x a mod a = 0 ∧ ∀ m, m mod a = 0 → x ≤ m → ALIGN x a ≤ m.
Proof.
  intros (k & Hk & ->) Hx Hle. rewrite ALIGN_eq by done. set (a := 2 ^ k) in *.
  assert (Hp : 0 < a) by (apply Z.pow_pos_nonneg; lia).
  pose proof (Z.div_mod (x + (a - 1)) a ltac:(lia)). pose proof (Z.mod_pos_bound (x + (a - 1)) a Hp).
  split; [lia|]. split; [apply Z.mod_mul; lia|]. intros m Hm Hxm.
  pose proof (Z.div_mod m a ltac:(lia)). assert (Hd : (x + (a - 1)) / a ≤ m / a); [|nia].
  apply Z.lt_succ_r, Z.div_lt_upper_bound; [lia|]. nia.
Qed.

(** ** Finding a hole *)

Lemma chain_head h p L x : chain h p L → h !! owner p = Some x → get_link p x = list.head L.
Proof. destruct L; cbn [chain]; intros (y & Hy & Hc) Hx; assert (y = x) as -> by congruence; [done|apply Hc]. Qed.

Lemma chain_sibling h b B A : ∀ p, chain h p (A ++ b :: B) → ∃ x, h !! b = Some x ∧ sibling x = list.head B.
Proof.
  induction A as [|a A IH]; intros p; cbn [app chain]; intros (x & _ & _ & Hc); [|by eapply IH].
  assert (Hb : ∃ y, h !! b = Some y) by (destruct B; cbn [chain owner] in Hc; destruct Hc as (y & Hy & _); eauto).
  destruct Hb as [y Hy]. exists y. split; [done|]. by apply (chain_head h (SiblingOf b)).
Qed.

Section allocate.
  Context (h : heap) (root new : loc) (r : resource) (L : list loc) (size min max align : Z).
  Context (Hl : level h root L) (Hr : h !! root = Some r) (Hnr : new ≠ root) (Hnew : new ∉ L).
  Context (Hsz : 2 ≤ size < 2 ^ 64) (Hal : is_pow2 align) (Hmin : 0 ≤ min ∧ min + align ≤ 2 ^ 64) (Hmax : 0 ≤ max < 2 ^ 64).
  Context (Hroot : 0 ≤ start r ∧ start r ≤ end_ r ∧ end_ r + align < 2 ^ 64).

Lemma align_pos : 0 < align.
Proof. destruct Hal as (k & Hk & ->). apply Z.pow_pos_nonneg; lia. Qed.

(** A place for the new resource. *)
Definition place (s : Z) : Prop :=
  s mod align = 0 ∧ min ≤ s ∧ s + size - 1 ≤ max ∧ start r ≤ s ∧ s + size - 1 ≤ end_ r ∧
  free_range h L s (s + size - 1).

(** The result of the search for the holes from [lo] on. *)
Definition found (n n' : resource) (lo res : Z) : Prop :=
  parent n' = parent n ∧ sibling n' = sibling n ∧ child n' = child n ∧ flags n' = flags n ∧
  ((res = 0 ∧ place (start n') ∧ end_ n' = start n' + size - 1 ∧ (∀ s, place s → lo ≤ s → start n' ≤ s)) ∨
   (res = - EBUSY ∧ ∀ s, place s → ¬ lo ≤ s)).

(** One hole, from [lo] to [hi]. *)
Lemma hole_fits lo hi : 0 ≤ lo → lo ≤ end_ r + 1 → 0 ≤ hi < 2 ^ 64 →
  let s := ALIGN (if lo <? min then min else lo) align in
  let e := if max <? hi then max else hi in
  (s <? e) && (u64 (size - 1) <=? u64 (e - s)) = true →
  lo ≤ s ∧ min ≤ s ∧ s mod align = 0 ∧ s + size - 1 ≤ hi ∧ s + size - 1 ≤ max ∧ u64 (s + size - 1) = s + size - 1 ∧
  ∀ m, m mod align = 0 → lo ≤ m → min ≤ m → s ≤ m.
Proof.
  intros Hlo Hle Hhi s e Hok. apply andb_true_iff in Hok as [Hlt%Z.ltb_lt Hok%Z.leb_le].
  destruct (ALIGN_least (if lo <? min then min else lo) align Hal) as (H1 & H2 & H3);
    [destruct (Z.ltb_spec lo min); lia..|]. fold s in H1, H2, H3.
  assert (Hs : lo ≤ s ∧ min ≤ s) by (destruct (Z.ltb_spec lo min); lia).
  assert (He : e ≤ hi ∧ e ≤ max ∧ 0 ≤ e < 2 ^ 64) by (unfold e; destruct (Z.ltb_spec max hi); lia).
  clearbody s e. unfold u64 in *. rewrite !wrap_small in Hok by lia. rewrite wrap_small by lia.
  repeat (split; [lia|]). intros m Hm1 Hm2 Hm3. apply H3; [done|]. destruct (Z.ltb_spec lo min); lia.
Qed.

(** A hole that is refused holds no place. *)
Lemma hole_refused lo hi : 0 ≤ lo → lo ≤ end_ r + 1 → 0 ≤ hi < 2 ^ 64 →
  let s := ALIGN (if lo <? min then min else lo) align in
  let e := if max <? hi then max else hi in
  (s <? e) && (u64 (size - 1) <=? u64 (e - s)) = false →
  ∀ m, m mod align = 0 → lo ≤ m → min ≤ m → m + size - 1 ≤ max → ¬ m + size - 1 ≤ hi.
Proof.
  intros Hlo Hle Hhi s e Hno m Hm1 Hm2 Hm3 Hm4 Hm5.
  destruct (ALIGN_least (if lo <? min then min else lo) align Hal) as (H1 & H2 & H3);
    [destruct (Z.ltb_spec lo min); lia..|]. fold s in H1, H2, H3.
  assert (Hsm : s ≤ m) by (apply H3; [done|destruct (Z.ltb_spec lo min); lia]).
  assert (Hs0 : 0 ≤ s) by (destruct (Z.ltb_spec lo min); lia).
  assert (He : m + size - 1 ≤ e ∧ e < 2 ^ 64) by (unfold e; destruct (Z.ltb_spec max hi); lia).
  clearbody s e. unfold u64 in Hno. rewrite !wrap_small in Hno by lia.
  apply andb_false_iff in Hno as [Hno%Z.ltb_ge|Hno%Z.leb_gt]; lia.
Qed.

Lemma level_sorted_app A b B x : L = A ++ b :: B → h !! b = Some x →
  (∀ y z, y ∈ A → h !! y = Some z → end_ z < start x) ∧ (∀ y z, y ∈ B → h !! y = Some z → end_ x < start z).
Proof.
  intros HL Hx. split.
  - intros y z Hy Hz. apply list_elem_of_split in Hy as (K1 & K2 & ->).
    apply (lv_sorted _ _ _ Hl K1 y (K2 ++ b :: B) b z x); [by rewrite HL, <- app_assoc| |done|done].
    rewrite elem_of_app, elem_of_cons. auto.
  - intros y z Hy Hz. by apply (lv_sorted _ _ _ Hl A b B y x z).
Qed.

Lemma hole_loop_spec B : ∀ A fuel n,
  L = A ++ B → start r ≤ start n ≤ end_ r + 1 →
  (∀ y x, y ∈ A → h !! y = Some x → end_ x < start n) →
  (∀ y x, y ∈ B → h !! y = Some x → start n ≤ start x ∧ 1 ≤ start x) → (length B < fuel)%nat →
  ∃ n' res, hole_loop fuel root new size min max align None (list.head B) (<[new := n]> h) = Done (res, <[new := n']> h) ∧
    found n n' (start n) res.
Proof.
  pose proof align_pos as Halp.
  induction B as [|b B IH]; intros A fuel n HL Hn HA HB Hf; (destruct fuel as [|fuel]; [cbn in Hf; lia|]); cbn [hole_loop list.head].
  - rewrite app_nil_r in HL. run_simpl. rewrite (node_eq root _ r) by (by rewrite lookup_insert_ne).
    rewrite (node_eq new _ n) by apply lookup_insert_eq.
    destruct (_ && _) eqn:Hok.
    + apply hole_fits in Hok as (H1 & H2 & H3 & H4 & H5 & H6 & H7); [|lia..]. rewrite H6.
      rewrite (upd_eq new _ _ n) by apply lookup_insert_eq. rewrite insert_insert_eq. eexists _, 0. split; [done|].
      repeat (split; [done|]). left. split; [done|]. cbn [start end_ set_range]. split; [|split; [done|]].
      * repeat (split; [first [done|lia]|]). intros y x Hy Hx. left. rewrite HL in Hy. specialize (HA y x Hy Hx). lia.
      * intros s (P1 & P2 & _) Hs. by apply H7.
    + rewrite (upd_eq new _ _ n) by apply lookup_insert_eq. rewrite insert_insert_eq. eexists _, (- EBUSY). split; [done|].
      repeat (split; [done|]). right. split; [done|]. intros s (P1 & P2 & P3 & P4 & P5 & _) Hs.
      revert P5. eapply hole_refused; [| | |exact Hok|..]; try done; lia.
  - destruct (chain_sibling h b B A (ChildOf root)) as (x & Hx & Hsib); [rewrite <- HL; apply Hl|].
    assert (Hbn : b ≠ new). { intros ->. apply Hnew. rewrite HL, elem_of_app. right. left. }
    assert (HbL : b ∈ L) by (rewrite HL, elem_of_app; right; left).
    pose proof (lv_range _ _ _ Hl r b x Hr HbL Hx) as Hrx. destruct (HB b x ltac:(left) Hx) as [Hnb Hb1].
    destruct (level_sorted_app A b B x HL Hx) as [HSA HSB].
    assert (Hu : u64 (start x - 1) = start x - 1) by (unfold u64; rewrite wrap_small; lia).
    run_simpl. rewrite (node_eq root _ r) by (by rewrite lookup_insert_ne).
    rewrite (node_eq new _ n) by apply lookup_insert_eq. rewrite (node_eq b _ x) by (by rewrite lookup_insert_ne). rewrite Hu.
    destruct (_ && _) eqn:Hok.
    + apply hole_fits in Hok as (H1 & H2 & H3 & H4 & H5 & H6 & H7); [|lia..]. rewrite H6.
      rewrite (upd_eq new _ _ n) by apply lookup_insert_eq. rewrite insert_insert_eq. eexists _, 0. split; [done|].
      repeat (split; [done|]). left. split; [done|]. cbn [start end_ set_range]. split; [|split; [done|]].
      * repeat (split; [first [done|lia]|]). intros y z Hy Hz. rewrite HL in Hy.
        apply elem_of_app in Hy as [Hy|[->|Hy]%elem_of_cons].
        -- left. specialize (HA y z Hy Hz). lia.
        -- right. assert (z = x) as -> by congruence. lia.
        -- right. specialize (HSB y z Hy Hz). lia.
      * intros s (P1 & P2 & _) Hs. by apply H7.
    + rewrite (upd_eq new _ _ n) by apply lookup_insert_eq. rewrite insert_insert_eq.
      set (n1 := set_range _ _ n). rewrite (node_eq b _ x) by (by rewrite lookup_insert_ne).
      rewrite (upd_eq new _ _ n1) by apply lookup_insert_eq. rewrite insert_insert_eq, Hsib.
      assert (Hu2 : u64 (end_ x + 1) = end_ x + 1).
      { unfold u64. rewrite wrap_small; [lia|]. destruct Hal as (k & Hk & ->). pose proof (Z.pow_pos_nonneg 2 k). lia. }
      set (n2 := set_range _ _ n1). assert (Hs2 : start n2 = end_ x + 1) by exact Hu2.
      destruct (IH (A ++ [b]) fuel n2) as (n' & res & Hrun & Hfd).
      * by rewrite <- app_assoc.
      * rewrite Hs2. lia.
      * intros y z [Hy|Hy%list_elem_of_singleton]%elem_of_app Hz; rewrite Hs2; [specialize (HSA y z Hy Hz); lia|].
        subst y. assert (z = x) as -> by congruence. lia.
      * intros y z Hy Hz. rewrite Hs2. specialize (HSB y z Hy Hz). lia.
      * cbn in Hf. lia.
      * rewrite Hrun. exists n', res. split; [done|]. destruct Hfd as (F1 & F2 & F3 & F4 & Hfd). rewrite Hs2 in Hfd.
        repeat (split; [done|]).
        assert (Hskip : ∀ s, place s → start n ≤ s → end_ x + 1 ≤ s).
        { intros s (P1 & P2 & P3 & P4 & P5 & P6) Hs. destruct (P6 b x HbL Hx) as [?|Hlt]; [lia|]. exfalso.
          assert (P5' : s + size - 1 ≤ start x - 1) by lia. revert P5'. eapply hole_refused; [| | |exact Hok|..]; try done; lia. }
        destruct Hfd as [(-> & Hpl & He & Hmn)|(-> & Hno)]; [left|right]; (split; [done|]).
        -- split; [done|]. split; [done|]. intros s Hs Hle. apply Hmn; auto.
        -- intros s Hs Hle. apply (Hno s Hs). auto.
Qed.

Lemma find_resource_spec fuel n :
  h !! new = Some n → (length L < fuel)%nat →
  ∃ n' res, find_resource fuel root new size min max align None h = Done (res, <[new := n']> h) ∧
    found n n' (start r) res.
Proof.
  pose proof align_pos as Halp. intros Hn Hf. unfold find_resource. run_simpl. rewrite (node_eq _ _ _ Hr), (node_eq _ _ _ Hn), (upd_eq _ _ _ _ Hn).
  pose proof (chain_head _ _ _ _ (lv_chain _ _ _ Hl) Hr) as Hch. cbn [get_link] in Hch. rewrite Hch.
  set (n1 := set_range (start r) (end_ n) n).
  destruct (list.head L) as [b|] eqn:HL.
  - apply list.head_Some in HL as [B EL].
    destruct (chain_sibling h b B [] (ChildOf root)) as (x & Hx & Hsib); [cbn [app]; rewrite <- EL; apply Hl|].
    assert (HbL : b ∈ L) by (rewrite EL; left).
    assert (Hbn : b ≠ new) by (by intros ->).
    pose proof (lv_range _ _ _ Hl r b x Hr HbL Hx) as Hrx.
    rewrite (node_eq b _ x) by (by rewrite lookup_insert_ne).
    destruct (level_sorted_app [] b B x EL Hx) as [_ HSB].
    destruct (Z.eqb_spec (start x) 0) as [H0|H0].
    + rewrite (upd_eq new _ _ n1) by apply lookup_insert_eq. rewrite insert_insert_eq, Hsib.
      assert (Hu2 : u64 (end_ x + 1) = end_ x + 1).
      { unfold u64. rewrite wrap_small; [lia|]. destruct Hal as (k & Hk & ->). pose proof (Z.pow_pos_nonneg 2 k). lia. }
      set (n2 := set_range _ _ n1). assert (Hs2 : start n2 = end_ x + 1) by exact Hu2.
      destruct (hole_loop_spec B [b] fuel n2) as (n' & res & -> & Hfd).
      * done.
      * rewrite Hs2. lia.
      * intros y z Hy%list_elem_of_singleton Hz. subst y. assert (z = x) as -> by congruence. lia.
      * intros y z Hy Hz. rewrite Hs2. specialize (HSB y z Hy Hz). lia.
      * rewrite EL in Hf. cbn in Hf. lia.
      * exists n', res. split; [done|]. destruct Hfd as (F1 & F2 & F3 & F4 & Hfd). rewrite Hs2 in Hfd. repeat (split; [done|]).
        assert (Hskip : ∀ s, place s → start r ≤ s → end_ x + 1 ≤ s).
        { intros s (P1 & P2 & P3 & P4 & P5 & P6) Hs. destruct (P6 b x HbL Hx); lia. }
        destruct Hfd as [(-> & Hpl & He & Hmn)|(-> & Hno)]; [left|right]; (split; [done|]).
        -- split; [done|]. split; [done|]. intros s Hs Hle. apply Hmn; auto.
        -- intros s Hs Hle. apply (Hno s Hs). auto.
    + replace (Some b) with (list.head L) by (by rewrite EL).
      apply (hole_loop_spec L [] fuel n1); [done|cbn; lia|by intros ?? ?%elem_of_nil| |done].
      intros y z Hy Hz. cbn [start set_range n1]. pose proof (lv_range _ _ _ Hl r y z Hr Hy Hz). split; [lia|].
      rewrite EL in Hy. apply elem_of_cons in Hy as [->|Hy]; [assert (z = x) as -> by congruence; lia|].
      specialize (HSB y z Hy Hz). lia.
  - rewrite <- HL. apply list.head_None in HL as EL.
    apply (hole_loop_spec L [] fuel n1); [done|cbn; lia|by intros ?? ?%elem_of_nil| |done].
    rewrite EL. by intros ?? ?%elem_of_nil.
Qed.
End allocate.

(** A level does not depend on nodes outside it. *)
Lemma level_ext h root L new n : new ≠ root → new ∉ L → level h root L → level (<[new := n]> h) root L.
Proof.
  intros Hnr Hnew [Hc Hnd Hp Hrg Hs].
  assert (Hlk : ∀ y, y ∈ L → <[new := n]> h !! y = h !! y) by (intros y Hy; rewrite lookup_insert_ne; [done|by intros ->]).
  assert (Hrt : <[new := n]> h !! root = h !! root) by (by rewrite lookup_insert_ne).
  split; [|done| | |].
  - eapply chain_ext; [| |exact Hc].
    + cbn [owner]. intros x Hx. rewrite Hrt. eauto.
    + intros y x Hy Hx. rewrite Hlk by done. eauto.
  - intros y x Hy. rewrite Hlk by done. by apply Hp.
  - intros r y x. rewrite Hrt. intros Hr Hy. rewrite Hlk by done. by apply Hrg.
  - intros L1 y L2 z xy xz -> Hz. rewrite !Hlk; [by apply (Hs L1 y L2)| |]; rewrite elem_of_app, elem_of_cons; auto.
Qed.

Lemma free_range_ext h L new n s e : new ∉ L → free_range (<[new := n]> h) L s e ↔ free_range h L s e.
Proof.
  intros Hnew. split; intros Hf y x Hy Hx; apply (Hf y x Hy); [rewrite lookup_insert_ne|rewrite lookup_insert_ne in Hx];
    try done; by intros ->.
Qed.

(** ** Properties *)

(** C19: [allocate_resource] is a correct and complete first-fit allocator: with an
    alignment that is a power of two and a root whose end leaves room for the
    rounding, it succeeds exactly when some aligned place for a range of [size]
    (at least two) addresses between [min] and [max] is free, and then the new
    resource gets the lowest such place and the children stay ordered, disjoint
    and inside the root; otherwise it returns -EBUSY and the tree is as before. *)
Theorem allocate_resource_first_fit h root new r n L size min max align fuel :
  level h root L → h !! root = Some r → h !! new = Some n → new ≠ root → new ∉ L →
  2 ≤ size < 2 ^ 64 → is_pow2 align → 0 ≤ min ∧ min + align ≤ 2 ^ 64 → 0 ≤ max < 2 ^ 64 →
  0 ≤ start r ∧ start r ≤ end_ r ∧ end_ r + align < 2 ^ 64 → (length L < fuel)%nat →
  (∃ A B n' h', L = A ++ B ∧ allocate_resource fuel root new size min max align None h = Done (0, h') ∧
     level h' root (A ++ new :: B) ∧ h' !! new = Some n' ∧ end_ n' = start n' + size - 1 ∧
     place h r L size min max align (start n') ∧ ∀ s, place h r L size min max align s → start n' ≤ s) ∨
  ((∀ s, ¬ place h r L size min max align s) ∧
   ∃ h', allocate_resource fuel root new size min max align None h = Done (- EBUSY, h') ∧ level h' root L).
Proof.
  intros Hl Hr Hn Hnr Hnew Hsz Hal Hmin Hmax Hroot Hf.
  destruct (find_resource_spec h root new r L size min max align Hl Hr Hnr Hnew Hsz Hal Hmin Hmax Hroot fuel n Hn Hf)
    as (n' & res & Hrun & _ & _ & _ & _ & Hfd).
  unfold allocate_resource. run_simpl. rewrite Hrun.
  destruct Hfd as [(-> & Hpl & He & Hmn)|(-> & Hno)]; [left|right].
  - set (h1 := <[new := n']> h) in *.
    assert (Hn1 : h1 !! new = Some n') by apply lookup_insert_eq.
    assert (Hr1 : h1 !! root = Some r) by (unfold h1; by rewrite lookup_insert_ne).
    pose proof Hpl as (P1 & P2 & P3 & P4 & P5 & P6).
    destruct (request_spec h1 root L new n' r fuel) as [(_ & A & B & h' & HL & Hreq & Hlv & _ & Hrg)|(Hbad & _)]; try done.
    + by apply level_ext.
    + change (0 <=? 0) with true. cbn beta iota. rewrite Hreq.
      assert (Hx : ∃ x', h' !! new = Some x') by (apply (chain_nodes _ _ _ (lv_chain _ _ _ Hlv)); rewrite elem_of_app; right; left).
      destruct Hx as [x' Hx']. specialize (Hrg new). unfold range_of in Hrg. rewrite Hx', Hn1 in Hrg. cbn in Hrg.
      injection Hrg as Hs' He'. exists A, B, x', h'. rewrite Hs', He'. do 6 (split; [done|]).
      intros s Hs. apply Hmn; [done|]. apply Hs.
    + destruct Hbad. split; [lia|]. split; [lia|]. rewrite He. by apply free_range_ext.
  - split; [intros s Hs; apply (Hno s Hs), Hs|]. change (0 <=? - EBUSY) with false. cbn beta iota.
    eexists. split; [done|]. by apply level_ext.
Qed.

(** A root 0x1000-0x8fff with the children 0x1000-0x1fff and 0x3000-0x4fff. *)
Definition example_tree : heap :=
  <[1%positive := Resource 0x1000 0x8fff 0 None None (Some 2%positive)]>
  (<[2%positive := Resource 0x1000 0x1fff 0 (Some 1%positive) (Some 3%positive) None]>
  (<[3%positive := Resource 0x3000 0x4fff 0 (Some 1%positive) None None]>
  (<[4%positive := Resource 0 0 0 None None None]> ∅))).

Lemma example_level : level example_tree 1%positive [2%positive; 3%positive].
Proof.
  split.
  - repeat (eexists; split; [reflexivity|]; try split; try reflexivity).
  - split; [repeat constructor; set_solver|set_solver].
  - intros y x Hy Hx. repeat (apply elem_of_cons in Hy as [->|Hy]; [vm_compute in Hx; injection Hx as <-; done|]).
    by apply elem_of_nil in Hy.
  - intros r y x Hr Hy Hx. vm_compute in Hr. injection Hr as <-.
    repeat (apply elem_of_cons in Hy as [->|Hy]; [vm_compute in Hx; injection Hx as <-; cbn; lia|]). by apply elem_of_nil in Hy.
  - intros [|a [|b [|c L1]]] y L2 z xy xz HL Hz Hxy Hxz; cbn in HL; try discriminate.
    + injection HL as <- <-. apply list_elem_of_singleton in Hz as ->. vm_compute in Hxy, Hxz.
      injection Hxy as <-. injection Hxz as <-. cbn. lia.
    + injection HL as <- <- <-. by apply elem_of_nil in Hz.
Qed.

Lemma allocate_resource_first_fit_witness :
  ∃ A B n' h', [2%positive; 3%positive] = A ++ B ∧
    allocate_resource 3 1%positive 4%positive 0x1800 0 0xffffffff 0x1000 None example_tree = Done (0, h') ∧
    level h' 1%positive (A ++ 4%positive :: B) ∧ h' !! 4%positive = Some n' ∧ end_ n' = start n' + 0x1800 - 1.
Proof.
  destruct (allocate_resource_first_fit example_tree 1%positive 4%positive
    (Resource 0x1000 0x8fff 0 None None (Some 2%positive)) (Resource 0 0 0 None None None) [2%positive; 3%positive]
    0x1800 0 0xffffffff 0x1000 3 example_level)
    as [(A & B & n' & h' & E1 & E2 & E3 & E4 & E5 & _)|(_ & h' & E & _)].
  - reflexivity.
  - reflexivity.
  - discriminate.
  - set_solver.
  - lia.
  - exists 12. split; [lia|reflexivity].
  - lia.
  - lia.
  - cbn. lia.
  - cbn. lia.
  - exists A, B, n', h'. repeat (split; [assumption|]). assumption.
  - vm_compute in E. discriminate.
Defined.

(** ** Sequences of requests and releases *)

Inductive rop := Request (x : loc) | Release (x : loc).

Definition run_rop (fuel : nat) (root : loc) (o : rop) : M heap Z :=
  match o with Request x => request_resource fuel root x | Release x => release_resource fuel x end.

Fixpoint run_rops (fuel : nat) (root : loc) (os : list rop) : M heap (list Z) :=
  match os with
  | [] => mret []
  | o :: os => r ← run_rop fuel root o; rs ← run_rops fuel root os; mret (r :: rs)
  end.

(** The abstract allocator: a set of resources whose ranges are disjoint. *)
Definition fits (rng : loc → option (Z * Z)) (root : loc) (X : gset loc) (x : loc) : bool :=
  match rng root, rng x with
  | Some (rs, re), Some (s, e) =>
      (rs <=? s) && (s <=? e) && (e <=? re) &&
      forallb (λ y, match rng y with Some (s', e') => (e' <? s) || (e <? s') | None => true end) (elements X)
  | _, _ => false
  end.

Definition spec_rop (rng : loc → option (Z * Z)) (root : loc) (o : rop) (X : gset loc) : Z * gset loc :=
  match o with
  | Request x => if fits rng root X x then (0, {[x]} ∪ X) else (- EBUSY, X)
  | Release x => (0, X ∖ {[x]})
  end.

(** A resource is requested while it is not in the tree and released while it
    is. *)
Fixpoint spec_rops (rng : loc → option (Z * Z)) (root : loc) (os : list rop) (X : gset loc) : option (list Z * gset loc) :=
  match os with
  | [] => Some ([], X)
  | o :: os =>
      let ok := match o with
                | Request x => bool_decide (x ∉ X ∧ x ≠ root) && bool_decide (is_Some (rng x))
                | Release x => bool_decide (x ∈ X)
                end in
      if ok then
        let '(r, X) := spec_rop rng root o X in
        match spec_rops rng root os X with Some (rs, X) => Some (r :: rs, X) | None => None end
      else None
  end.

Lemma range_of_Some h y s e : range_of h y = Some (s, e) ↔ ∃ x, h !! y = Some x ∧ start x = s ∧ end_ x = e.
Proof.
  unfold range_of. destruct (h !! y) as [x|] eqn:Hx; cbn.
  - split; [intros [= <- <-]; eauto|]. by intros (? & [= <-] & <- & <-).
  - split; [done|]. by intros (? & ? & _).
Qed.

Lemma fits_request_ok h root L r n x :
  h !! root = Some r → h !! x = Some n → fits (range_of h) root (list_to_set L) x = true ↔ request_ok h L r n.
Proof.
  intros Hr Hn. unfold fits, request_ok. unfold range_of at 1 2. rewrite Hr, Hn. cbn [fmap option_fmap option_map].
  rewrite !andb_true_iff, !Z.leb_le, forallb_forall. split.
  - intros [[[H1 H2] H3] Hf]. split; [lia|]. split; [lia|]. intros y w Hy Hw.
    assert (Hin : In y (elements (list_to_set L : gset loc))) by (apply list_elem_of_In, elem_of_elements, elem_of_list_to_set; done).
    specialize (Hf y Hin). unfold range_of in Hf. rewrite Hw in Hf. cbn in Hf.
    apply orb_true_iff in Hf as [?%Z.ltb_lt|?%Z.ltb_lt]; auto.
  - intros ((H1 & H2) & H3 & Hf). split; [lia|]. intros y Hin.
    apply list_elem_of_In, elem_of_elements, elem_of_list_to_set in Hin.
    destruct (range_of h y) as [[s' e']|] eqn:Hy; [|done]. apply range_of_Some in Hy as (w & Hw & <- & <-).
    apply orb_true_iff. rewrite !Z.ltb_lt. by apply (Hf y w).
Qed.

Lemma fits_ext rng rng' root X x : (∀ y, rng y = rng' y) → fits rng root X x = fits rng' root X x.
Proof.
  intros He. unfold fits. rewrite !He. destruct (rng' root) as [[rs re]|]; [|done]. destruct (rng' x) as [[s e]|]; [|done].
  f_equal. induction (elements X) as [|y l IH]; cbn [forallb]; [done|]. by rewrite He, IH.
Qed.

Lemma level_length h root L : level h root L → (length L < S (size (dom h)))%nat.
Proof.
  intros Hl. pose proof (lv_nodup _ _ _ Hl) as [Hnd _]. apply Nat.lt_succ_r.
  rewrite <- (size_list_to_set (C := gset loc) L Hnd). apply subseteq_size. intros y Hy%elem_of_list_to_set.
  apply elem_of_dom. by apply (chain_nodes _ _ _ (lv_chain _ _ _ Hl)).
Qed.

Lemma run_rops_refine rng root D os : ∀ h L rs S',
  level h root L → (∀ y, range_of h y = rng y) → dom h = D →
  spec_rops rng root os (list_to_set L) = Some (rs, S') →
  ∃ h' L', run_rops (S (size D)) root os h = Done (rs, h') ∧ level h' root L' ∧ list_to_set L' = S' ∧
    ∀ y, range_of h' y = rng y.
Proof.
  induction os as [|o os IH]; intros h L rs S' Hl Hrg HD Hsp; cbn [spec_rops run_rops] in *.
  { injection Hsp as <- <-. exists h, L. done. }
  pose proof (level_length _ _ _ Hl) as Hlen. rewrite HD in Hlen.
  destruct o as [x|x]; cbn [run_rop spec_rop] in *.
  - destruct (bool_decide (_ ∧ _)) eqn:Hb; [|done]. apply bool_decide_eq_true in Hb as [HxL Hxr]. cbn [andb] in Hsp.
    rewrite elem_of_list_to_set in HxL. destruct (bool_decide (is_Some (rng x))) eqn:Hsome; [|done].
    apply bool_decide_eq_true in Hsome. rewrite <- Hrg in Hsome. unfold range_of in Hsome. rewrite fmap_is_Some in Hsome. destruct Hsome as [n Hn].
    destruct (level_root _ _ _ Hl) as [r Hr]. pose proof (fits_request_ok h root L r n x Hr Hn) as Hfit.
    rewrite (fits_ext _ rng) in Hfit by done. unfold request_resource. run_simpl.
    destruct (request_spec h root L x n r (S (size D)) Hl Hr Hn Hxr HxL Hlen)
      as [(Hok & A & B & h1 & -> & Hreq & Hl1 & HD1 & Hrg1)|(Hno & c & Hreq)]; rewrite Hreq.
    + rewrite (proj2 Hfit Hok) in Hsp. assert (HS : list_to_set (A ++ x :: B) = {[x]} ∪ list_to_set (C := gset loc) (A ++ B)).
      { rewrite !list_to_set_app_L. cbn [list_to_set]. set_solver. }
      rewrite <- HS in Hsp. destruct (spec_rops rng root os _) as [[rs' S2]|] eqn:Hsp'; [|done]. injection Hsp as <- <-.
      destruct (IH h1 _ rs' S2 Hl1) as (h' & L' & Hrun & Hrest); [by intros y; rewrite Hrg1|by rewrite HD1|done|].
      rewrite Hrun. eauto 10.
    + destruct (fits rng root (list_to_set L) x) eqn:Hft; [by destruct (Hno (proj1 Hfit eq_refl))|].
      destruct (spec_rops rng root os _) as [[rs' S2]|] eqn:Hsp'; [|done]. injection Hsp as <- <-.
      destruct (IH h L rs' S2 Hl Hrg HD Hsp') as (h' & L' & Hrun & Hrest). rewrite Hrun. eauto 10.
  - destruct (bool_decide (x ∈ list_to_set L)) eqn:Hb; [|done]. apply bool_decide_eq_true, elem_of_list_to_set in Hb.
    apply list_elem_of_split in Hb as (A & B & ->).
    destruct (release_spec h root A x B (S (size D)) Hl Hlen) as (h1 & Hrel & Hl1 & HD1 & Hrg1).
    unfold release_resource. run_simpl. rewrite Hrel.
    assert (HS : list_to_set (A ++ B) = list_to_set (C := gset loc) (A ++ x :: B) ∖ {[x]}).
    { pose proof (lv_nodup _ _ _ Hl) as [Hnd _]. rewrite <- Permutation_middle in Hnd. apply list.NoDup_cons in Hnd as [Hx _].
      rewrite elem_of_app in Hx. rewrite !list_to_set_app_L. cbn [list_to_set].
      apply set_eq. intros y. rewrite elem_of_difference, !elem_of_union, elem_of_singleton, !elem_of_list_to_set.
      split; [intros Hy; split; [tauto|intros ->; tauto]|tauto]. }
    rewrite <- HS in Hsp. destruct (spec_rops rng root os _) as [[rs' S2]|] eqn:Hsp'; [|done]. injection Hsp as <- <-.
    destruct (IH h1 _ rs' S2 Hl1) as (h' & L' & Hrun & Hrest); [by intros y; rewrite Hrg1|by rewrite HD1|done|].
    rewrite Hrun. eauto 10.
Qed.

(** C15: The pointer-linked tree refines a set of disjoint ranges: for every
    sequence of requests of resources that are not in the tree and releases of
    resources that are, every call terminates without touching freed memory,
    returns what the abstract allocator returns (0 exactly when the range lies in
    the root and overlaps no member), and the list of children is afterwards an
    ordered listing of the abstract set. *)
Theorem resource_tree_refines h root L os rs S' :
  level h root L → spec_rops (range_of h) root os (list_to_set L) = Some (rs, S') →
  ∃ h' L', run_rops (S (size (dom h))) root os h = Done (rs, h') ∧ level h' root L' ∧ list_to_set L' = S'.
Proof.
  intros Hl Hsp. destruct (run_rops_refine (range_of h) root (dom h) os h L rs S' Hl) as (h' & L' & H1 & H2 & H3 & _); try done.
  eauto.
Qed.

Lemma resource_tree_refines_witness :
  ∃ h' L', run_rops 5 1%positive [Request 4%positive; Release 2%positive; Release 3%positive] example_tree = Done ([- EBUSY; 0; 0], h') ∧
    level h' 1%positive L' ∧ list_to_set L' = (∅ : gset loc).
Proof.
  apply (resource_tree_refines example_tree 1%positive [2%positive; 3%positive]
    [Request 4%positive; Release 2%positive; Release 3%positive] [- EBUSY; 0; 0] ∅ example_level).
  vm_compute. reflexivity.
Defined.
