(* ===== verification/FindBit.v ===== *)
(** Searching bitmaps: lib/find_next_bit.c of the port and the bit scan
    instructions of asm/bitops.h.

    A bitmap is an array of 32-bit words ([unsigned long]), the state of the
    monad; reading outside the array is a fault.  [int] and [unsigned long]
    values are wrapped the way the code converts between them.  The word-wise
    search is proved equal to a bit-by-bit scan, [scan]. *)

From S2P Require Import Prelude.

(** ** The code *)

(** Read the word [p] of the array. *)
Definition read_word (p : Z) : M (list Z) Z := λ w,
  if p <? 0 then Fault FBounds
  else match w !! Z.to_nat p with Some x => Done (x, w) | None => Fault FBounds end.

Definition BITOP_WORD (nr : Z) : Z := Z.quot nr BITS_PER_LONG.

(** [~0UL], [~x] on words, and [~(BITS_PER_LONG-1)] *)
Definition ONES : Z := 2 ^ 32 - 1.
Definition not_word (x : Z) : Z := Z.lxor x ONES.
Definition WORD_MASK : Z := - 32.

(** The first bit from [i] on, of [n], for which [P] holds. *)
Fixpoint scan (P : Z → bool) (i : Z) (n : nat) : Z :=
  match n with
  | O => i
  | S n => if P i then i else scan P (i + 1) n
  end.

(** [bsfl]; the destination is undefined when the source is 0. *)
Definition __ffs (word : Z) : M (list Z) Z :=
  if word =? 0 then fail FBug else mret (scan (Z.testbit word) 0 32).
Definition ffz (word : Z) : M (list Z) Z := __ffs (not_word word).

Definition found_middle (result tmp : Z) : M (list Z) Z :=
  r ← __ffs tmp; mret (s32 (u32 (result + r))).
Definition found_first (result size tmp : Z) : M (list Z) Z :=
  let tmp := Z.land tmp (Z.shiftr ONES (BITS_PER_LONG - size)) in
  if tmp =? 0 then mret (s32 (u32 (result + size))) else found_middle result tmp.

(** [while (size & ~(BITS_PER_LONG-1))] and what follows it *)
Fixpoint set_loop (fuel : nat) (p result size : Z) : M (list Z) Z :=
  if Z.land size WORD_MASK =? 0 then
    if size =? 0 then mret (s32 result)
    else tmp ← read_word p; found_first result size tmp
  else match fuel with
  | O => fail FFuel
  | S fuel =>
      tmp ← read_word p;
      if tmp =? 0 then set_loop fuel (p + 1) (u32 (result + BITS_PER_LONG)) (s32 (size - BITS_PER_LONG))
      else found_middle result tmp
  end.

Definition find_next_bit (size offset : Z) : M (list Z) Z :=
  let p := BITOP_WORD offset in
  let result := u32 (Z.land offset WORD_MASK) in
  if size <=? offset then mret size else
  let size := s32 (size - result) in
  let offset := Z.rem offset BITS_PER_LONG in
  let fuel := Z.to_nat (size / BITS_PER_LONG) in
  if offset =? 0 then set_loop fuel p result size else
  tmp ← read_word p;
  let tmp := Z.land tmp (u32 (Z.shiftl ONES offset)) in
  if size <? BITS_PER_LONG then found_first result size tmp
  else if tmp =? 0
  then set_loop fuel (p + 1) (u32 (result + BITS_PER_LONG)) (s32 (size - BITS_PER_LONG))
  else found_middle result tmp.

Definition zero_middle (result tmp : Z) : M (list Z) Z :=
  r ← ffz tmp; mret (s32 (u32 (result + r))).
Definition zero_first (result size tmp : Z) : M (list Z) Z :=
  let tmp := Z.lor tmp (u32 (Z.shiftl ONES size)) in
  if tmp =? ONES then mret (s32 (u32 (result + size))) else zero_middle result tmp.

Fixpoint zero_loop (fuel : nat) (p result size : Z) : M (list Z) Z :=
  if Z.land size WORD_MASK =? 0 then
    if size =? 0 then mret (s32 result)
    else tmp ← read_word p; zero_first result size tmp
  else match fuel with
  | O => fail FFuel
  | S fuel =>
      tmp ← read_word p;
      if not_word tmp =? 0
      then zero_loop fuel (p + 1) (u32 (result + BITS_PER_LONG)) (s32 (size - BITS_PER_LONG))
      else zero_middle result tmp
  end.

Definition find_next_zero_bit (size offset : Z) : M (list Z) Z :=
  let p := BITOP_WORD offset in
  let result := u32 (Z.land offset WORD_MASK) in
  if size <=? offset then mret size else
  let size := s32 (size - result) in
  let offset := Z.rem offset BITS_PER_LONG in
  let fuel := Z.to_nat (size / BITS_PER_LONG) in
  if offset =? 0 then zero_loop fuel p result size else
  tmp ← read_word p;
  let tmp := Z.lor tmp (Z.shiftr ONES (BITS_PER_LONG - offset)) in
  if size <? BITS_PER_LONG then zero_first result size tmp
  else if not_word tmp =? 0
  then zero_loop fuel (p + 1) (u32 (result + BITS_PER_LONG)) (s32 (size - BITS_PER_LONG))
  else zero_middle result tmp.

(** [find_first_bit] of asm/bitops.h: the words are tested one by one, and the
    last word is not masked, so the result may exceed [size]. *)
Fixpoint first_loop (fuel : nat) (p x size : Z) : M (list Z) Z :=
  if size <=? x then mret x else
  match fuel with
  | O => fail FFuel
  | S fuel =>
      val ← read_word p;
      if val =? 0 then first_loop fuel (p + 1) (u32 (x + 32)) size
      else r ← __ffs val; mret (u32 (r + x))
  end.
Definition find_first_bit (size : Z) : M (list Z) Z :=
  first_loop (Z.to_nat (size / 32) + 1) 0 0 size.

(** ** The specification *)

Definition bit (w : list Z) (i : Z) : bool :=
  match w !! Z.to_nat (i / 32) with Some x => Z.testbit x (i mod 32) | None => false end.

(** The first bit in [offset..size) for which [P] holds, [size] if none does. *)
Definition next (P : Z → bool) (size offset : Z) : Z :=
  if size <=? offset then size else scan P offset (Z.to_nat (size - offset)).

Definition words_ok (w : list Z) : Prop := Forall (λ x, 0 ≤ x < 2 ^ 32) w.

(** ** Lemmas *)

Lemma scan_ext P Q i n : (∀ j, i ≤ j < i + Z.of_nat n → P j = Q j) → scan P i n = scan Q i n.
Proof.
  revert i. induction n as [|n IH]; intros i H; [done|]. cbn [scan].
  rewrite (H i) by lia. destruct (Q i); [done|]. apply IH. intros j Hj. apply H. lia.
Qed.

Lemma scan_skip P i n k : (∀ j, i ≤ j < i + Z.of_nat k → P j = false) →
  scan P i (k + n) = scan P (i + Z.of_nat k) n.
Proof.
  revert i. induction k as [|k IH]; intros i H; [f_equal; lia|]. cbn [scan Nat.add].
  rewrite (H i) by lia. rewrite IH; [f_equal; lia|]. intros j Hj. apply H. lia.
Qed.

Lemma scan_none P i n : (∀ j, i ≤ j < i + Z.of_nat n → P j = false) → scan P i n = i + Z.of_nat n.
Proof. intros H. rewrite <- (Nat.add_0_r n) at 1. by rewrite scan_skip. Qed.

Lemma scan_first P i n j : i ≤ j < i + Z.of_nat n → P j = true →
  (∀ k, i ≤ k < j → P k = false) → scan P i n = j.
Proof.
  intros Hj HP Hk. replace n with (Z.to_nat (j - i) + (n - Z.to_nat (j - i)))%nat by lia.
  rewrite scan_skip by (intros k Hlt; apply Hk; lia).
  destruct (n - Z.to_nat (j - i))%nat eqn:E; [lia|]. cbn [scan].
  replace (i + Z.of_nat (Z.to_nat (j - i))) with j by lia. by rewrite HP.
Qed.

Lemma scan_result P i n : i ≤ scan P i n ≤ i + Z.of_nat n ∧
  (scan P i n < i + Z.of_nat n → P (scan P i n) = true) ∧
  (∀ k, i ≤ k < scan P i n → P k = false).
Proof.
  revert i. induction n as [|n IH]; intros i; [cbn; repeat split; lia|]. cbn [scan].
  destruct (P i) eqn:E; [repeat split; auto; lia|].
  destruct (IH (i + 1)) as (H1 & H2 & H3). split; [lia|]. split; [intros; apply H2; lia|].
  intros k Hk. destruct (decide (k = i)) as [->|]; [done|]. apply H3. lia.
Qed.

Lemma testbit_high x i : 0 ≤ x < 2 ^ 32 → 32 ≤ i → Z.testbit x i = false.
Proof.
  intros Hx Hi. destruct (decide (x = 0)) as [->|]; [apply Z.bits_0|].
  apply Z.bits_above_log2; [lia|]. assert (Z.log2 x < 32) by (apply Z.log2_lt_pow2; lia). lia.
Qed.

Lemma word_0 x : 0 ≤ x < 2 ^ 32 → (∀ i, 0 ≤ i < 32 → Z.testbit x i = false) → x = 0.
Proof.
  intros Hx H. apply Z.bits_inj_0. intros i.
  destruct (decide (i < 0)); [by apply Z.testbit_neg_r|].
  destruct (decide (i < 32)); [apply H; lia|apply testbit_high; lia].
Qed.

Lemma land_range x y : 0 ≤ x < 2 ^ 32 → 0 ≤ Z.land x y < 2 ^ 32.
Proof.
  intros Hx. assert (H0 : 0 ≤ Z.land x y) by (apply Z.land_nonneg; lia). split; [done|].
  destruct (decide (Z.land x y = 0)) as [->|]; [lia|]. apply Z.log2_lt_pow2; [lia|].
  destruct (Z.lt_ge_cases (Z.log2 (Z.land x y)) 32) as [|Hge]; [done|].
  exfalso. pose proof (Z.bit_log2 (Z.land x y)) as Hb. rewrite Z.land_spec in Hb.
  rewrite (testbit_high x) in Hb by lia. cbn in Hb. specialize (Hb ltac:(lia)). discriminate.
Qed.

Lemma ones_bits i : 0 ≤ i → Z.testbit ONES i = (i <? 32).
Proof.
  intros Hi. change ONES with (Z.ones 32).
  destruct (Z.ltb_spec i 32); [by apply Z.ones_spec_low|by apply Z.ones_spec_high].
Qed.

(** The masks of the first and of the last word. *)
Lemma high_mask_bits o i : 0 ≤ o → 0 ≤ i < 32 → Z.testbit (u32 (Z.shiftl ONES o)) i = (o <=? i).
Proof.
  intros Ho Hi. unfold u32, wrap. rewrite Z.mod_pow2_bits_low by lia.
  rewrite Z.shiftl_spec by lia. destruct (Z.leb_spec o i).
  - rewrite ones_bits by lia. apply Z.ltb_lt. lia.
  - apply Z.testbit_neg_r. lia.
Qed.

Lemma low_mask_bits n i : 0 ≤ n ≤ 32 → 0 ≤ i → Z.testbit (Z.shiftr ONES (32 - n)) i = (i <? n).
Proof.
  intros Hn Hi. rewrite Z.shiftr_spec by lia. rewrite ones_bits by lia.
  destruct (Z.ltb_spec (i + (32 - n)) 32), (Z.ltb_spec i n); done || lia.
Qed.

Lemma not_word_bits x i : 0 ≤ i < 32 → Z.testbit (not_word x) i = negb (Z.testbit x i).
Proof.
  intros Hi. unfold not_word. rewrite Z.lxor_spec, ones_bits by lia.
  destruct (Z.ltb_spec i 32); [|lia]. by destruct (Z.testbit x i).
Qed.

Lemma not_word_range x : 0 ≤ x < 2 ^ 32 → 0 ≤ not_word x < 2 ^ 32.
Proof.
  intros Hx. assert (H0 : 0 ≤ not_word x) by (apply Z.lxor_nonneg; unfold ONES; lia).
  split; [done|]. destruct (decide (not_word x = 0)) as [->|]; [lia|].
  apply Z.log2_lt_pow2; [lia|]. unfold not_word. apply Z.le_lt_trans with (1 := Z.log2_lxor x ONES ltac:(lia) ltac:(done)).
  apply Z.max_lub_lt; [|done]. destruct (decide (x = 0)) as [->|]; [done|]. apply Z.log2_lt_pow2; lia.
Qed.

Lemma word_ext x y : 0 ≤ x < 2 ^ 32 → 0 ≤ y < 2 ^ 32 →
  (∀ i, 0 ≤ i < 32 → Z.testbit x i = Z.testbit y i) → x = y.
Proof.
  intros Hx Hy H. apply Z.bits_inj'. intros i Hi.
  destruct (decide (i < 32)); [apply H; lia|]. by rewrite !testbit_high by lia.
Qed.

Lemma ffs_spec x w : 0 ≤ x < 2 ^ 32 → x ≠ 0 →
  ∃ r, __ffs x w = Done (r, w) ∧ 0 ≤ r < 32 ∧ Z.testbit x r = true ∧
    ∀ i, 0 ≤ i < r → Z.testbit x i = false.
Proof.
  intros Hx Hn. unfold __ffs. destruct (Z.eqb_spec x 0); [done|].
  destruct (scan_result (Z.testbit x) 0 32) as (Hr & Ht & Hf).
  exists (scan (Z.testbit x) 0 32). split; [done|].
  assert (scan (Z.testbit x) 0 32 < 32).
  { destruct (Z.lt_ge_cases (scan (Z.testbit x) 0 32) 32); [done|]. exfalso. apply Hn.
    apply word_0; [done|]. intros i Hi. apply Hf. lia. }
  split; [lia|]. split; [apply Ht; lia|]. intros i Hi. apply Hf. lia.
Qed.

Section Search.
Context (w : list Z) (N : Z).
Context (Hw : words_ok w) (HN : 0 ≤ N < 2 ^ 31) (Hlen : N ≤ 32 * Z.of_nat (length w)).

Lemma read_word_ok p : 0 ≤ p < Z.of_nat (length w) →
  ∃ x, read_word p w = Done (x, w) ∧ 0 ≤ x < 2 ^ 32 ∧
    ∀ i, 0 ≤ i < 32 → bit w (32 * p + i) = Z.testbit x i.
Proof.
  intros Hp. destruct (lookup_lt_is_Some_2 w (Z.to_nat p)) as [x Hx]; [lia|].
  exists x. unfold read_word. destruct (Z.ltb_spec p 0); [lia|]. rewrite Hx. split; [done|].
  split; [by eapply (Forall_lookup_1 _ _ _ _ Hw Hx)|]. intros i Hi. unfold bit.
  replace ((32 * p + i) / 32) with p by (apply (Z.div_unique _ _ p i); lia).
  rewrite Hx. f_equal. symmetry. apply (Z.mod_unique _ _ p i); lia.
Qed.

(** The scan resumes at the word [p], whose bits below [lo] are not considered. *)
Lemma found_middle_spec p lo x y : 0 ≤ p → 0 ≤ lo → 0 ≤ y < 2 ^ 32 → y ≠ 0 →
  (∀ i, 0 ≤ i < 32 → bit w (32 * p + i) = Z.testbit x i) →
  (∀ i, 0 ≤ i < 32 → 32 * p + i < N → Z.testbit y i = Z.testbit x i && (lo <=? i)) →
  (∀ i, 0 ≤ i < 32 → N ≤ 32 * p + i → 32 * p + 32 ≤ N ∨ Z.testbit y i = false) →
  found_middle (32 * p) y w = Done (scan (bit w) (32 * p + lo) (Z.to_nat (N - (32 * p + lo))), w).
Proof.
  intros Hp Hlo Hy Hy0 Hx Hm Hout. destruct (ffs_spec y w Hy Hy0) as (r & Er & Hr & Ht & Hf).
  assert (Hin : 32 * p + r < N).
  { destruct (Z.lt_ge_cases (32 * p + r) N); [done|]. destruct (Hout r Hr); [done|lia|congruence]. }
  unfold found_middle. run_simpl. rewrite Er. cbn beta iota.
  rewrite u32_small, s32_small by lia. do 2 f_equal. symmetry.
  pose proof (Hm r Hr Hin) as Hmr. rewrite Ht in Hmr. symmetry in Hmr.
  apply andb_prop in Hmr as [Hxr Hlr]. apply Z.leb_le in Hlr.
  apply scan_first; [lia|by rewrite Hx|]. intros k Hk.
  replace k with (32 * p + (k - 32 * p)) by lia. rewrite Hx by lia.
  pose proof (Hm (k - 32 * p) ltac:(lia) ltac:(lia)) as Hmk. rewrite Hf in Hmk by lia.
  destruct (Z.leb_spec lo (k - 32 * p)); [|lia]. by rewrite andb_true_r in Hmk.
Qed.

Lemma found_first_spec p lo x y : 0 ≤ p → 0 ≤ lo → 32 * p + lo ≤ N < 32 * p + 32 → 0 ≤ y < 2 ^ 32 →
  (∀ i, 0 ≤ i < 32 → bit w (32 * p + i) = Z.testbit x i) →
  (∀ i, 0 ≤ i < 32 → Z.testbit y i = Z.testbit x i && (lo <=? i)) →
  found_first (32 * p) (N - 32 * p) y w =
    Done (scan (bit w) (32 * p + lo) (Z.to_nat (N - (32 * p + lo))), w).
Proof.
  intros Hp Hlo Hn Hy Hx Hm. unfold found_first. change BITS_PER_LONG with 32.
  set (z := Z.land y _). assert (Hz : 0 ≤ z < 2 ^ 32) by by apply land_range.
  assert (Hb : ∀ i, 0 ≤ i < 32 → Z.testbit z i = Z.testbit x i && (lo <=? i) && (i <? N - 32 * p)).
  { intros i Hi. unfold z. rewrite Z.land_spec, low_mask_bits, Hm by lia. done. }
  destruct (Z.eqb_spec z 0) as [E|E].
  - run_simpl. rewrite u32_small, s32_small by lia. do 2 f_equal. rewrite scan_none; [lia|].
    intros j Hj. replace j with (32 * p + (j - 32 * p)) by lia. rewrite Hx by lia.
    pose proof (Hb (j - 32 * p) ltac:(lia)) as Hbj. rewrite E, Z.bits_0 in Hbj.
    destruct (Z.leb_spec lo (j - 32 * p)), (Z.ltb_spec (j - 32 * p) (N - 32 * p)); try lia.
    by rewrite !andb_true_r in Hbj.
  - apply (found_middle_spec p lo x); try done.
    + intros i Hi Hlt. rewrite Hb by done. destruct (Z.ltb_spec i (N - 32 * p)); [|lia].
      by rewrite andb_true_r.
    + intros i Hi Hge. right. rewrite Hb by done. destruct (Z.ltb_spec i (N - 32 * p)); [lia|].
      by rewrite andb_false_r.
Qed.

Lemma mask_0 n : 0 ≤ n → (Z.land n WORD_MASK =? 0) = (n <? 32).
Proof.
  intros Hn. change WORD_MASK with (Z.lnot (Z.ones 5)). rewrite <- Z.ldiff_land, Z.ldiff_ones_r by lia.
  rewrite Z.shiftl_mul_pow2, Z.shiftr_div_pow2 by lia. change (2 ^ 5) with 32.
  destruct (Z.ltb_spec n 32); [by rewrite Z.div_small by lia|].
  pose proof (Z.div_le_lower_bound n 32 1). apply Z.eqb_neq. lia.
Qed.

Lemma set_loop_spec fuel p : 0 ≤ p → 32 * p ≤ N → (N - 32 * p) / 32 ≤ Z.of_nat fuel →
  set_loop fuel p (32 * p) (N - 32 * p) w = Done (scan (bit w) (32 * p) (Z.to_nat (N - 32 * p)), w).
Proof.
  revert p. induction fuel as [|fuel IH]; intros p Hp Hle Hf; cbn [set_loop];
    rewrite mask_0 by lia; destruct (Z.ltb_spec (N - 32 * p) 32) as [Hlt|Hge].
  1, 3: destruct (Z.eqb_spec (N - 32 * p) 0) as [E|E];
    [rewrite E; run_simpl; rewrite s32_small by lia; done|];
    destruct (read_word_ok p) as (x & Ex & Hx & Hb); [lia|]; run_simpl; rewrite Ex; cbn beta iota;
    rewrite (found_first_spec p 0 x x); [by rewrite !Z.add_0_r|lia|lia|lia|done|done|];
    intros i Hi; destruct (Z.leb_spec 0 i); [by rewrite andb_true_r|lia].
  - pose proof (Z.div_le_lower_bound (N - 32 * p) 32 1). lia.
  - destruct (read_word_ok p) as (x & Ex & Hx & Hb); [lia|]. run_simpl. rewrite Ex. cbn beta iota.
    destruct (Z.eqb_spec x 0) as [E|E].
    + change BITS_PER_LONG with 32. rewrite u32_small, s32_small by lia.
      replace (32 * p + 32) with (32 * (p + 1)) by lia.
      replace (N - 32 * p - 32) with (N - 32 * (p + 1)) by lia.
      rewrite IH; [|lia|lia|].
      2: { replace (N - 32 * (p + 1)) with (N - 32 * p + -1 * 32) by lia. rewrite Z.div_add by lia. lia. }
      do 2 f_equal. replace (Z.to_nat (N - 32 * p)) with (32 + Z.to_nat (N - 32 * (p + 1)))%nat by lia.
      rewrite scan_skip; [f_equal; lia|]. intros j Hj.
      replace j with (32 * p + (j - 32 * p)) by lia. rewrite Hb by lia. by rewrite E, Z.bits_0.
    + rewrite (found_middle_spec p 0 x x); try done; [by rewrite !Z.add_0_r| |lia].
      intros i Hi _. destruct (Z.leb_spec 0 i); [by rewrite andb_true_r|lia].
Qed.

Lemma find_next_bit_spec offset : 0 ≤ offset → find_next_bit N offset w = Done (next (bit w) N offset, w).
Proof.
  intros Ho. unfold find_next_bit, next. destruct (Z.leb_spec N offset); [done|].
  change BITS_PER_LONG with 32. unfold BITOP_WORD. change BITS_PER_LONG with 32.
  set (p := offset / 32). set (o := offset mod 32).
  pose proof (Z.div_mod offset 32 ltac:(lia)) as Hdm. fold p o in Hdm.
  pose proof (Z.mod_pos_bound offset 32 ltac:(lia)) as Hmo. fold o in Hmo.
  assert (0 ≤ p) by (apply Z.div_pos; lia).
  replace (Z.quot offset 32) with p by (symmetry; apply Z.quot_div_nonneg; lia).
  replace (Z.rem offset 32) with o by (symmetry; apply Z.rem_mod_nonneg; lia).
  replace (u32 (Z.land offset WORD_MASK)) with (32 * p).
  2: { change WORD_MASK with (Z.lnot (Z.ones 5)). rewrite <- Z.ldiff_land, Z.ldiff_ones_r by lia.
       rewrite Z.shiftl_mul_pow2, Z.shiftr_div_pow2 by lia. change (2 ^ 5) with 32. fold p.
       rewrite u32_small; lia. }
  rewrite s32_small by lia.
  destruct (Z.eqb_spec o 0) as [E|E].
  { replace offset with (32 * p) by lia. apply set_loop_spec; [lia|lia|]. rewrite Z2Nat.id; [lia|].
    apply Z.div_pos; lia. }
  destruct (read_word_ok p) as (x & Ex & Hx & Hb); [lia|]. run_simpl. rewrite Ex. cbn beta iota.
  set (y := Z.land x _). assert (Hy : 0 ≤ y < 2 ^ 32) by by apply land_range.
  assert (Hyb : ∀ i, 0 ≤ i < 32 → Z.testbit y i = Z.testbit x i && (o <=? i)).
  { intros i Hi. unfold y. by rewrite Z.land_spec, high_mask_bits by lia. }
  replace offset with (32 * p + o) by lia.
  destruct (Z.ltb_spec (N - 32 * p) 32); [apply (found_first_spec p o x); done || lia|].
  destruct (Z.eqb_spec y 0) as [Ey|Ey]; [|apply (found_middle_spec p o x); eauto with lia].
  rewrite u32_small, s32_small by lia.
  replace (32 * p + 32) with (32 * (p + 1)) by lia.
  replace (N - 32 * p - 32) with (N - 32 * (p + 1)) by lia.
  rewrite set_loop_spec; [|lia|lia|].
  2: { rewrite Z2Nat.id by (apply Z.div_pos; lia). apply Z.div_le_mono; lia. }
  do 2 f_equal.
  replace (Z.to_nat (N - (32 * p + o))) with (Z.to_nat (32 - o) + Z.to_nat (N - 32 * (p + 1)))%nat by lia.
  rewrite scan_skip; [f_equal; lia|]. intros j Hj.
  replace j with (32 * p + (j - 32 * p)) by lia. rewrite Hb by lia.
  pose proof (Hyb (j - 32 * p) ltac:(lia)) as Hyj. rewrite Ey, Z.bits_0 in Hyj.
  destruct (Z.leb_spec o (j - 32 * p)); [by rewrite andb_true_r in Hyj|lia].
Qed.

End Search.

(** ** The search for a zero bit is the search for a set bit of the complement *)

Definition with_words (w : list Z) (o : outcome (Z * list Z)) : outcome (Z * list Z) :=
  match o with Done (r, _) => Done (r, w) | Fault e => Fault e end.

Lemma lor_mask_not x m m' : 0 ≤ x < 2 ^ 32 → 0 ≤ m < 2 ^ 32 → 0 ≤ m' →
  (∀ i, 0 ≤ i < 32 → Z.testbit m' i = negb (Z.testbit m i)) →
  not_word (Z.lor x m) = Z.land (not_word x) m'.
Proof.
  intros Hx Hm Hm' H. apply word_ext.
  - apply not_word_range. by apply lor_range.
  - apply land_range. by apply not_word_range.
  - intros i Hi. rewrite not_word_bits, Z.lor_spec, Z.land_spec, not_word_bits, H by done.
    apply negb_orb.
Qed.

Lemma not_word_0 x : 0 ≤ x < 2 ^ 32 → (x =? ONES) = (not_word x =? 0).
Proof.
  intros Hx. destruct (Z.eqb_spec x ONES) as [->|Hn]; [done|]. symmetry. apply Z.eqb_neq.
  intros E. apply Hn. apply Z.lxor_eq in E. done.
Qed.

Lemma ones_shift_range n : 0 ≤ n → 0 ≤ Z.shiftr ONES n < 2 ^ 32.
Proof.
  intros Hn. rewrite Z.shiftr_div_pow2 by done.
  assert (0 < 2 ^ n) by (apply Z.pow_pos_nonneg; lia).
  assert (Ho : 0 ≤ ONES < 2 ^ 32) by (unfold ONES; lia).
  split; [apply Z.div_pos; lia|].
  apply Z.le_lt_trans with ONES; [|lia]. apply Z.div_le_upper_bound; [done|]. nia.
Qed.

Lemma high_mask_not x o : 0 ≤ x < 2 ^ 32 → 0 ≤ o ≤ 32 →
  not_word (Z.lor x (Z.shiftr ONES (32 - o))) = Z.land (not_word x) (u32 (Z.shiftl ONES o)).
Proof.
  intros Hx Ho. apply lor_mask_not; [done|apply ones_shift_range; lia|apply u32_range|].
  intros i Hi. rewrite high_mask_bits, low_mask_bits by lia. apply Z.leb_antisym.
Qed.

Lemma low_mask_not x n : 0 ≤ x < 2 ^ 32 → 0 ≤ n ≤ 32 →
  not_word (Z.lor x (u32 (Z.shiftl ONES n))) = Z.land (not_word x) (Z.shiftr ONES (32 - n)).
Proof.
  intros Hx Hn. apply lor_mask_not; [done|apply u32_range|apply ones_shift_range; lia|].
  intros i Hi. rewrite high_mask_bits, low_mask_bits by lia. apply Z.ltb_antisym.
Qed.

Section Complement.
Context (w : list Z) (Hw : words_ok w).
Let nw : list Z := map not_word w.

Lemma ffs_state x u v : __ffs x u = with_words u (__ffs x v).
Proof. unfold __ffs. by destruct (x =? 0). Qed.

Lemma zero_middle_not r x : zero_middle r x w = with_words w (found_middle r (not_word x) nw).
Proof.
  unfold zero_middle, found_middle, ffz. run_simpl. rewrite (ffs_state _ w nw).
  by destruct (__ffs (not_word x) nw) as [[??]|].
Qed.

Lemma zero_first_not r n x : 0 ≤ x < 2 ^ 32 → 0 ≤ n ≤ 32 →
  zero_first r n x w = with_words w (found_first r n (not_word x) nw).
Proof.
  intros Hx Hn. unfold zero_first, found_first. change BITS_PER_LONG with 32.
  rewrite <- low_mask_not by done.
  rewrite not_word_0 by (apply lor_range; [done|apply u32_range]).
  destruct (_ =? 0); [done|apply zero_middle_not].
Qed.

Lemma read_word_not p :
  match read_word p w with
  | Done (x, w') => w' = w ∧ 0 ≤ x < 2 ^ 32 ∧ read_word p nw = Done (not_word x, nw)
  | Fault e => read_word p nw = Fault e
  end.
Proof.
  unfold read_word, nw. destruct (p <? 0); [done|]. rewrite list_lookup_fmap.
  destruct (w !! Z.to_nat p) as [x|] eqn:E; [|done]. cbn.
  split; [done|]. split; [by eapply (Forall_lookup_1 _ _ _ _ Hw E)|done].
Qed.

Lemma mask_small n : Z.land n WORD_MASK = 0 → 0 ≤ n ≤ 32.
Proof.
  change WORD_MASK with (Z.lnot (Z.ones 5)). rewrite <- Z.ldiff_land, Z.ldiff_ones_r by lia.
  rewrite Z.shiftl_mul_pow2, Z.shiftr_div_pow2 by lia. change (2 ^ 5) with 32.
  pose proof (Z.div_mod n 32 ltac:(lia)). pose proof (Z.mod_pos_bound n 32). lia.
Qed.

(** Step over a read of both arrays. *)
Ltac both_read p :=
  let Hp := fresh "Hp" in
  pose proof (read_word_not p) as Hp; destruct (read_word p w) as [[x ?]|];
  [destruct Hp as (-> & Hx & ->)|rewrite Hp; done].

Lemma zero_loop_not fuel p r n : zero_loop fuel p r n w = with_words w (set_loop fuel p r n nw).
Proof.
  revert p r n. induction fuel as [|fuel IH]; intros p r n; cbn [zero_loop set_loop];
    (destruct (Z.eqb_spec (Z.land n WORD_MASK) 0) as [E|_];
     [destruct (n =? 0); [done|]; run_simpl; both_read p; apply zero_first_not; auto using mask_small|]).
  { done. }
  run_simpl. both_read p. destruct (not_word x =? 0); [apply IH|apply zero_middle_not].
Qed.

Lemma find_next_zero_bit_not n o : 0 ≤ o → n < 2 ^ 31 →
  find_next_zero_bit n o w = with_words w (find_next_bit n o nw).
Proof.
  intros Ho Hn. unfold find_next_zero_bit, find_next_bit. change BITS_PER_LONG with 32.
  destruct (Z.leb_spec n o); [done|].
  destruct (Z.rem o 32 =? 0); [apply zero_loop_not|]. run_simpl. both_read (BITOP_WORD o).
  assert (0 ≤ Z.rem o 32 < 32) by (apply Z.rem_bound_pos; lia).
  pose proof (high_mask_not x (Z.rem o 32) Hx ltac:(lia)) as Em.
  assert (0 ≤ Z.lor x (Z.shiftr ONES (32 - Z.rem o 32)) < 2 ^ 32).
  { apply lor_range; [done|apply ones_shift_range; lia]. }
  rewrite <- Em. destruct (Z.ltb_spec (s32 (n - u32 (Z.land o WORD_MASK))) 32).
  - apply zero_first_not; [done|]. split; [|lia].
    assert (0 ≤ Z.land o WORD_MASK ≤ o).
    { change WORD_MASK with (Z.lnot (Z.ones 5)). rewrite <- Z.ldiff_land, Z.ldiff_ones_r by lia.
      rewrite Z.shiftl_mul_pow2, Z.shiftr_div_pow2 by lia. change (2 ^ 5) with 32.
      pose proof (Z.div_mod o 32 ltac:(lia)). pose proof (Z.mod_pos_bound o 32). lia. }
    rewrite u32_small, s32_small by lia. lia.
  - destruct (_ =? 0); [apply zero_loop_not|apply zero_middle_not].
Qed.

Lemma bit_not i : 0 ≤ i < 32 * Z.of_nat (length w) → bit nw i = negb (bit w i).
Proof.
  intros Hi. unfold bit, nw. rewrite list_lookup_fmap.
  assert (0 ≤ i / 32) by (apply Z.div_pos; lia).
  assert (i / 32 < Z.of_nat (length w)) by (apply Z.div_lt_upper_bound; lia).
  destruct (lookup_lt_is_Some_2 w (Z.to_nat (i / 32))) as [x ->]; [lia|]. cbn.
  apply not_word_bits. by apply Z.mod_pos_bound.
Qed.

End Complement.

(** ** [find_first_bit] *)

Lemma first_loop_spec w n fuel p : words_ok w → 0 ≤ n < 2 ^ 31 → n ≤ 32 * Z.of_nat (length w) →
  0 ≤ p → 32 * p < n + 32 → n ≤ 32 * (p + Z.of_nat fuel) →
  first_loop fuel p (32 * p) n w =
    Done (scan (bit w) (32 * p) (Z.to_nat (32 * ((n + 31) / 32) - 32 * p)), w).
Proof.
  intros Hw Hn Hl. revert p. induction fuel as [|fuel IH]; intros p Hp Hlt Hf; cbn [first_loop];
    (destruct (Z.leb_spec n (32 * p));
     [replace ((n + 31) / 32) with p by (apply (Z.div_unique _ _ p (n + 31 - 32 * p)); lia);
      by rewrite Z.sub_diag|]); [lia|].
  set (q := (n + 31) / 32) in *.
  assert (Hq : 32 * (p + 1) ≤ 32 * q)
    by (assert (p + 1 ≤ q) by (apply Z.div_le_lower_bound; lia); lia).
  destruct (read_word_ok w Hw p) as (x & Ex & Hx & Hb); [lia|]. run_simpl. rewrite Ex. cbn beta iota.
  destruct (Z.eqb_spec x 0) as [E|E].
  - rewrite u32_small by lia. replace (32 * p + 32) with (32 * (p + 1)) by lia. rewrite IH by lia.
    do 2 f_equal. replace (Z.to_nat (32 * q - 32 * p)) with (32 + Z.to_nat (32 * q - 32 * (p + 1)))%nat by lia.
    rewrite scan_skip; [f_equal; lia|]. intros j Hj.
    replace j with (32 * p + (j - 32 * p)) by lia. rewrite Hb by lia. by rewrite E, Z.bits_0.
  - destruct (ffs_spec x w Hx E) as (r & -> & Hr & Ht & Hlow). rewrite u32_small by lia.
    do 2 f_equal. symmetry. apply scan_first; [lia| |].
    + rewrite (Z.add_comm r), Hb by lia. done.
    + intros k Hk. replace k with (32 * p + (k - 32 * p)) by lia. rewrite Hb by lia. apply Hlow. lia.
Qed.

Lemma find_first_bit_spec w n : words_ok w → 0 ≤ n < 2 ^ 31 → n ≤ 32 * Z.of_nat (length w) →
  find_first_bit n w = Done (next (bit w) (32 * ((n + 31) / 32)) 0, w).
Proof.
  intros Hw Hn Hl. unfold find_first_bit.
  pose proof (Z.div_mod n 32 ltac:(lia)). pose proof (Z.mod_pos_bound n 32 ltac:(lia)).
  rewrite (first_loop_spec w n _ 0) by (done || lia). unfold next.
  destruct (Z.leb_spec (32 * ((n + 31) / 32)) 0) as [Hz|Hz].
  - replace (Z.to_nat _) with 0%nat by lia. cbn [scan].
    pose proof (Z.div_pos (n + 31) 32 ltac:(lia) ltac:(lia)). do 2 f_equal. lia.
  - by rewrite Z.mul_0_r, !Z.sub_0_r.
Qed.

(** The word-wise searches [find_next_bit] and [find_next_zero_bit] read
    only words of the bitmap and return what a bit-by-bit scan does: the first
    set (clear) bit in [offset..size), or [size] if there is none, in
    particular when the search starts behind the end.  [find_first_bit] does
    not mask the last word: it scans the size rounded up to whole words. *)
Theorem find_next_bit_scans (w : list Z) (size offset : Z) :
  words_ok w → 0 ≤ size < 2 ^ 31 → size ≤ 32 * Z.of_nat (length w) → 0 ≤ offset →
  find_next_bit size offset w = Done (next (bit w) size offset, w) ∧
  find_next_zero_bit size offset w = Done (next (λ i, negb (bit w i)) size offset, w) ∧
  find_first_bit size w = Done (next (bit w) (32 * ((size + 31) / 32)) 0, w).
Proof.
  intros Hw HN Hl Ho. split; [by apply find_next_bit_spec|]. split; [|by apply find_first_bit_spec].
  rewrite find_next_zero_bit_not by (done || lia).
  assert (Hnw : words_ok (map not_word w)).
  { apply list.Forall_fmap. eapply list.Forall_impl; [exact Hw|]. apply not_word_range. }
  rewrite find_next_bit_spec; [|done|done|by rewrite List.length_map|done].
  cbn [with_words]. do 2 f_equal. unfold next. destruct (Z.leb_spec size offset); [done|].
  apply scan_ext. intros j Hj. apply bit_not. lia.
Qed.

Lemma find_next_bit_scans_witness :
  (find_next_bit 70 3 [1; 0; 96] = Done (69, [1; 0; 96])) ∧
  (find_next_zero_bit 70 0 [2 ^ 32 - 1; 3; 96] = Done (34, [2 ^ 32 - 1; 3; 96])).
Proof.
  split.
  - refine (eq_trans (proj1 (find_next_bit_scans [1; 0; 96] 70 3 _ _ _ _)) _);
      [repeat (apply list.Forall_cons; split; [lia|]); by apply list.Forall_nil|lia|cbn; lia|lia|].
    vm_compute. reflexivity.
  - refine (eq_trans (proj1 (proj2 (find_next_bit_scans [2 ^ 32 - 1; 3; 96] 70 0 _ _ _ _))) _);
      [repeat (apply list.Forall_cons; split; [lia|]); by apply list.Forall_nil|lia|cbn; lia|lia|].
    vm_compute. reflexivity.
Defined.
