(* ===== verification/Hweight.v ===== *)
(** Hamming weight: lib/hweight.c.

    The branch-free [hweight] functions add the bits of a word in parallel
    fields.  They are proved equal to counting the bits one by one. *)

From S2P Require Import Prelude FindBit.

(** ** The code *)

Definition hweight32 (w : Z) : Z :=
  let res := u32 (w - Z.land (Z.shiftr w 1) 0x55555555) in
  let res := u32 (Z.land res 0x33333333 + Z.land (Z.shiftr res 2) 0x33333333) in
  let res := Z.land (u32 (res + Z.shiftr res 4)) 0x0F0F0F0F in
  let res := u32 (res + Z.shiftr res 8) in
  Z.land (u32 (res + Z.shiftr res 16)) 0x000000FF.

Definition hweight16 (w : Z) : Z :=
  let res := u32 (w - Z.land (Z.shiftr w 1) 0x5555) in
  let res := u32 (Z.land res 0x3333 + Z.land (Z.shiftr res 2) 0x3333) in
  let res := Z.land (u32 (res + Z.shiftr res 4)) 0x0F0F in
  Z.land (u32 (res + Z.shiftr res 8)) 0x00FF.

Definition hweight8 (w : Z) : Z :=
  let res := u32 (w - Z.land (Z.shiftr w 1) 0x55) in
  let res := u32 (Z.land res 0x33 + Z.land (Z.shiftr res 2) 0x33) in
  Z.land (u32 (res + Z.shiftr res 4)) 0x0F.

Definition hweight64 (w : Z) : Z :=
  u32 (hweight32 (u32 (Z.shiftr w 32)) + hweight32 (u32 w)).

(** ** Counting *)

(** The number of bits from [i] on, of [n], for which [P] holds. *)
Fixpoint count (P : Z → bool) (i : Z) (n : nat) : Z :=
  match n with
  | O => 0
  | S n => bool2Z (P i) + count P (i + 1) n
  end.

Definition weight (w : Z) (n : nat) : Z := count (Z.testbit w) 0 n.

Lemma count_ext P Q i n : (∀ j, i ≤ j < i + Z.of_nat n → P j = Q j) → count P i n = count Q i n.
Proof.
  revert i. induction n as [|n IH]; intros i H; [done|]. cbn [count].
  rewrite (H i) by lia. f_equal. apply IH. intros j Hj. apply H. lia.
Qed.

Lemma count_shift P i d n : count P (i + d) n = count (λ j, P (j + d)) i n.
Proof.
  revert i. induction n as [|n IH]; intros i; [done|]. cbn [count]. f_equal.
  rewrite <- IH. f_equal. lia.
Qed.

Lemma count_app P i n k : count P i (n + k) = count P i n + count P (i + Z.of_nat n) k.
Proof.
  revert i. induction n as [|n IH]; intros i; cbn [count Nat.add];
    [rewrite Z.add_0_l; f_equal; lia|].
  rewrite IH. replace (i + 1 + Z.of_nat n) with (i + Z.of_nat (S n)) by lia. lia.
Qed.

Lemma count_none P i n : (∀ j, i ≤ j < i + Z.of_nat n → P j = false) → count P i n = 0.
Proof.
  revert i. induction n as [|n IH]; intros i H; [done|]. cbn [count].
  rewrite (H i) by lia. rewrite IH; [done|]. intros j Hj. apply H. lia.
Qed.

Lemma count_range P i n : 0 ≤ count P i n ≤ Z.of_nat n.
Proof.
  revert i. induction n as [|n IH]; intros i; cbn [count]; [lia|].
  specialize (IH (i + 1)). destruct (P i); cbn [bool2Z]; lia.
Qed.

(** ** Fields

    A word is a number [x + B * y] with a field [x] below [B = 2 ^ k] and the
    remaining fields [y]; masking and shifting act on the fields. *)

Lemma field_bits k x y i : 0 ≤ k → 0 ≤ x < 2 ^ k → 0 ≤ i →
  Z.testbit (x + 2 ^ k * y) i = if i <? k then Z.testbit x i else Z.testbit y (i - k).
Proof.
  intros Hk Hx Hi. rewrite (Z.mul_comm (2 ^ k)). destruct (Z.ltb_spec i k).
  - rewrite <- (Z.mod_pow2_bits_low (x + y * 2 ^ k) k i) by lia.
    rewrite Z.mod_add, Z.mod_small by lia. done.
  - replace i with (i - k + k) at 1 by lia. rewrite <- Z.div_pow2_bits by lia.
    rewrite Z.div_add, Z.div_small by lia. by rewrite Z.add_0_l.
Qed.

Lemma field_land k x y x' y' : 0 ≤ k → 0 ≤ x < 2 ^ k → 0 ≤ x' < 2 ^ k →
  Z.land (x + 2 ^ k * y) (x' + 2 ^ k * y') = Z.land x x' + 2 ^ k * Z.land y y'.
Proof.
  intros Hk Hx Hx'. assert (0 ≤ Z.land x x' < 2 ^ k).
  { assert (H0 : 0 ≤ Z.land x x') by (apply Z.land_nonneg; lia). split; [done|].
    destruct (Z.eq_dec (Z.land x x') 0) as [->|]; [lia|]. apply Z.log2_lt_pow2; [lia|].
    destruct (Z.eq_dec k 0) as [->|]; [assert (x = 0) as -> by lia; done|].
    destruct (Z.eq_dec x 0) as [->|]; [done|]. destruct (Z.eq_dec x' 0) as [->|];
      [by rewrite Z.land_0_r in *|].
    apply Z.le_lt_trans with (1 := Z.log2_land x x' ltac:(lia) ltac:(lia)).
    apply Z.min_lt_iff. left. apply Z.log2_lt_pow2; lia. }
  apply Z.bits_inj'. intros i Hi. rewrite Z.land_spec, !field_bits by done.
  destruct (i <? k); by rewrite Z.land_spec.
Qed.

Lemma field_shiftr k n x y : 0 ≤ n ≤ k → 0 ≤ x < 2 ^ k →
  Z.shiftr (x + 2 ^ k * y) n = (x / 2 ^ n + 2 ^ (k - n) * (y mod 2 ^ n)) + 2 ^ k * (y / 2 ^ n).
Proof.
  intros Hn Hx. rewrite Z.shiftr_div_pow2 by lia.
  assert (Hp : 0 < 2 ^ n) by (apply Z.pow_pos_nonneg; lia).
  assert (E : 2 ^ k = 2 ^ (k - n) * 2 ^ n) by (rewrite <- Z.pow_add_r by lia; f_equal; lia).
  rewrite E at 1. rewrite <- Z.mul_assoc, (Z.mul_comm (2 ^ n) y), Z.mul_assoc.
  rewrite Z.div_add by lia. rewrite (Z.div_mod y (2 ^ n)) at 1 by lia. rewrite E. ring.
Qed.

Definition f1 (w m : Z) : Z := w - Z.land (Z.shiftr w 1) m.
Definition f2 (r m : Z) : Z := Z.land r m + Z.land (Z.shiftr r 2) m.
Definition f3 (r m : Z) : Z := Z.land (r + Z.shiftr r 4) m.

(** Decide a property of all numbers below [n]. *)
Definition below (n : nat) (P : Z → bool) : bool := forallb (λ i, P (Z.of_nat i)) (seq 0 n).

Lemma below_all n P x : below n P = true → 0 ≤ x < Z.of_nat n → P x = true.
Proof.
  intros H Hx. apply forallb_forall with (x := Z.to_nat x) in H; [by rewrite Z2Nat.id in H by lia|].
  apply in_seq. lia.
Qed.

Lemma mask1 x z : 0 ≤ x < 256 → 0 ≤ z < 2 → Z.land (x / 2 + 128 * z) 0x55 = Z.land (Z.shiftr x 1) 0x55.
Proof.
  intros Hx Hz. apply Z.eqb_eq.
  apply (below_all 256 (λ x, Z.land (x / 2 + 128 * z) 0x55 =? Z.land (Z.shiftr x 1) 0x55)); [|done].
  assert (z = 0 ∨ z = 1) as [-> | ->] by lia; vm_compute; reflexivity.
Qed.

Lemma mask2 x z : 0 ≤ x < 256 → 0 ≤ z < 4 → Z.land (x / 4 + 64 * z) 0x33 = Z.land (Z.shiftr x 2) 0x33.
Proof.
  intros Hx Hz. apply Z.eqb_eq.
  apply (below_all 256 (λ x, Z.land (x / 4 + 64 * z) 0x33 =? Z.land (Z.shiftr x 2) 0x33)); [|done].
  assert (z = 0 ∨ z = 1 ∨ z = 2 ∨ z = 3) as [-> | [-> | [-> | ->]]] by lia; vm_compute; reflexivity.
Qed.

Lemma step1 x y m : 0 ≤ x < 256 → f1 (x + 2 ^ 8 * y) (0x55 + 2 ^ 8 * m) = f1 x 0x55 + 2 ^ 8 * f1 y m.
Proof.
  intros Hx. unfold f1. rewrite (field_shiftr 8 1) by lia.
  pose proof (Z.mod_pos_bound y 2 ltac:(lia)).
  rewrite field_land by (lia || (change (2 ^ (8 - 1)) with 128; change (2 ^ 1) with 2;
    pose proof (Z.div_lt_upper_bound x 2 128); pose proof (Z.div_pos x 2); lia)).
  change (2 ^ (8 - 1)) with 128. change (2 ^ 1) with 2. rewrite mask1 by lia.
  rewrite (Z.shiftr_div_pow2 y 1) by lia. change (2 ^ 1) with 2. ring.
Qed.

Lemma step2 x y m : 0 ≤ x < 256 → f2 (x + 2 ^ 8 * y) (0x33 + 2 ^ 8 * m) = f2 x 0x33 + 2 ^ 8 * f2 y m.
Proof.
  intros Hx. unfold f2. rewrite (field_shiftr 8 2) by lia.
  pose proof (Z.mod_pos_bound y 4 ltac:(lia)).
  rewrite field_land by lia.
  rewrite field_land by (lia || (change (2 ^ (8 - 2)) with 64; change (2 ^ 2) with 4;
    pose proof (Z.div_lt_upper_bound x 4 64); pose proof (Z.div_pos x 4); lia)).
  change (2 ^ (8 - 2)) with 64. change (2 ^ 2) with 4. rewrite mask2 by lia.
  rewrite (Z.shiftr_div_pow2 y 2) by lia. change (2 ^ 2) with 4. ring.
Qed.

Lemma step3 x y m : 0 ≤ x < 256 → x / 16 ≤ 4 → x mod 16 ≤ 4 → y mod 16 ≤ 4 →
  f3 (x + 2 ^ 8 * y) (0x0F + 2 ^ 8 * m) = f3 x 0x0F + 2 ^ 8 * f3 y m.
Proof.
  intros Hx Hd Hm Hy. unfold f3. rewrite (field_shiftr 8 4) by lia.
  pose proof (Z.mod_pos_bound y 16 ltac:(lia)). pose proof (Z.div_mod x 16 ltac:(lia)).
  pose proof (Z.mod_pos_bound x 16 ltac:(lia)). pose proof (Z.div_pos x 16 ltac:(lia) ltac:(lia)).
  change (2 ^ (8 - 4)) with 16. change (2 ^ 4) with 16.
  replace (x + 2 ^ 8 * y + (x / 16 + 16 * (y mod 16) + 2 ^ 8 * (y / 16)))
    with ((x + x / 16 + 16 * (y mod 16)) + 2 ^ 8 * (y + y / 16)) by ring.
  rewrite field_land by lia. rewrite !Z.shiftr_div_pow2 by lia. change (2 ^ 4) with 16. f_equal.
  change 0x0F with (Z.ones 4). rewrite !Z.land_ones by lia. change (2 ^ 4) with 16.
  by rewrite (Z.mul_comm 16), Z.mod_add by lia.
Qed.

(** The three steps on one byte. *)
Lemma byte_steps x : 0 ≤ x < 256 →
  0 ≤ f1 x 0x55 < 256 ∧
  (let b := f2 (f1 x 0x55) 0x33 in 0 ≤ b < 256 ∧ b / 16 ≤ 4 ∧ b mod 16 ≤ 4 ∧ f3 b 0x0F = weight x 8).
Proof.
  intros Hx. pose (P x := (0 <=? f1 x 0x55) && (f1 x 0x55 <? 256) &&
    (let b := f2 (f1 x 0x55) 0x33 in (0 <=? b) && (b <? 256) && (b / 16 <=? 4) && (b mod 16 <=? 4) &&
       (f3 b 0x0F =? weight x 8))).
  assert (HP : P x = true) by (apply (below_all 256); [vm_compute; reflexivity|done]).
  unfold P in HP. cbv zeta in *. bool_solve. repeat split; assumption.
Qed.

Lemma weight_field x y n : 0 ≤ x < 256 → weight (x + 2 ^ 8 * y) (8 + n) = weight x 8 + weight y n.
Proof.
  intros Hx. unfold weight. rewrite count_app. f_equal.
  - apply count_ext. intros j Hj. rewrite field_bits by lia. destruct (Z.ltb_spec j 8); [done|lia].
  - rewrite count_shift. apply count_ext. intros j Hj. rewrite field_bits by lia.
    destruct (Z.ltb_spec (j + Z.of_nat 8) 8); [lia|]. f_equal. lia.
Qed.

Lemma weight8_range x : 0 ≤ weight x 8 ≤ 8.
Proof. apply (count_range _ _ 8). Qed.

(** Split off the low byte of a word of [n] bytes. *)
Lemma split_byte w n : 0 ≤ n → 0 ≤ w < 2 ^ (8 + n) → ∃ x y, w = x + 2 ^ 8 * y ∧ 0 ≤ x < 256 ∧ 0 ≤ y < 2 ^ n.
Proof.
  intros Hn Hw. rewrite Z.pow_add_r in Hw by lia. exists (w mod 256), (w / 256).
  pose proof (Z.div_mod w 256 ltac:(lia)). pose proof (Z.mod_pos_bound w 256 ltac:(lia)).
  split; [lia|]. split; [lia|]. split; [apply Z.div_pos; lia|apply Z.div_lt_upper_bound; lia].
Qed.

Lemma f2_mod16 x y m : 0 ≤ x < 256 → f2 (x + 2 ^ 8 * y) (0x33 + 2 ^ 8 * m) mod 16 = f2 x 0x33 mod 16.
Proof.
  intros Hx. rewrite step2 by done. replace (2 ^ 8 * f2 y m) with (16 * f2 y m * 16) by ring.
  by rewrite Z.mod_add by lia.
Qed.

(** The fields of the word after the third step: the weights of its bytes. *)
Lemma fields2 x0 x1 : 0 ≤ x0 < 256 → 0 ≤ x1 < 256 →
  let r1 := f1 (x0 + 2 ^ 8 * x1) 0x5555 in
  let r2 := f2 r1 0x3333 in
  0 ≤ r1 < 2 ^ 16 ∧ 0 ≤ r2 < 2 ^ 16 ∧ r2 + Z.shiftr r2 4 < 2 ^ 17 ∧
  f3 r2 0x0F0F = weight x0 8 + 2 ^ 8 * weight x1 8.
Proof.
  intros H0 H1. destruct (byte_steps x0 H0) as (Ha0 & Hb0 & Hc0 & Hd0 & He0).
  destruct (byte_steps x1 H1) as (Ha1 & Hb1 & Hc1 & Hd1 & He1). cbv zeta in *.
  change 0x5555 with (0x55 + 2 ^ 8 * 0x55). change 0x3333 with (0x33 + 2 ^ 8 * 0x33).
  change 0x0F0F with (0x0F + 2 ^ 8 * 0x0F).
  rewrite step1, step2, step3, He0, He1 by done. rewrite Z.shiftr_div_pow2 by done.
  set (b0 := f2 (f1 x0 _) _) in *. set (b1 := f2 (f1 x1 _) _) in *.
  assert ((b0 + 2 ^ 8 * b1) / 2 ^ 4 ≤ 2 ^ 16) by (apply Z.div_le_upper_bound; lia). lia.
Qed.

Lemma fields4 x0 x1 x2 x3 : 0 ≤ x0 < 256 → 0 ≤ x1 < 256 → 0 ≤ x2 < 256 → 0 ≤ x3 < 256 →
  let r1 := f1 (x0 + 2 ^ 8 * (x1 + 2 ^ 8 * (x2 + 2 ^ 8 * x3))) 0x55555555 in
  let r2 := f2 r1 0x33333333 in
  0 ≤ r1 < 2 ^ 32 ∧ 0 ≤ r2 ∧ r2 + Z.shiftr r2 4 < 2 ^ 32 ∧
  f3 r2 0x0F0F0F0F = weight x0 8 + 2 ^ 8 * (weight x1 8 + 2 ^ 8 * (weight x2 8 + 2 ^ 8 * weight x3 8)).
Proof.
  intros H0 H1 H2 H3. destruct (byte_steps x0 H0) as (Ha0 & Hb0 & Hc0 & Hd0 & He0).
  destruct (byte_steps x1 H1) as (Ha1 & Hb1 & Hc1 & Hd1 & He1).
  destruct (byte_steps x2 H2) as (Ha2 & Hb2 & Hc2 & Hd2 & He2).
  destruct (byte_steps x3 H3) as (Ha3 & Hb3 & Hc3 & Hd3 & He3). cbv zeta in *.
  change 0x55555555 with (0x55 + 2 ^ 8 * (0x55 + 2 ^ 8 * (0x55 + 2 ^ 8 * 0x55))).
  change 0x33333333 with (0x33 + 2 ^ 8 * (0x33 + 2 ^ 8 * (0x33 + 2 ^ 8 * 0x33))).
  change 0x0F0F0F0F with (0x0F + 2 ^ 8 * (0x0F + 2 ^ 8 * (0x0F + 2 ^ 8 * 0x0F))).
  rewrite !step1, !step2 by done. rewrite <- He0, <- He1, <- He2, <- He3.
  rewrite Z.shiftr_div_pow2 by done.
  set (b0 := f2 (f1 x0 _) _) in *. set (b1 := f2 (f1 x1 _) _) in *.
  set (b2 := f2 (f1 x2 _) _) in *. set (b3 := f2 (f1 x3 _) _) in *.
  rewrite !step3; try done.
  - pose proof (Z.div_mod b3 16 ltac:(lia)).
    assert (b3 ≤ 0x44) by lia.
    assert ((b0 + 2 ^ 8 * (b1 + 2 ^ 8 * (b2 + 2 ^ 8 * b3))) / 2 ^ 4 ≤ 2 ^ 28)
      by (apply Z.div_le_upper_bound; lia). lia.
  - replace (2 ^ 8 * b3) with (16 * b3 * 16) by ring. by rewrite Z.mod_add by lia.
  - replace (2 ^ 8 * (b2 + 2 ^ 8 * b3)) with (16 * (b2 + 2 ^ 8 * b3) * 16) by ring. by rewrite Z.mod_add by lia.
Qed.

(** The sums of the second half of [hweight32]. *)
Lemma sum_fields c0 c1 c2 c3 : 0 ≤ c0 ≤ 8 → 0 ≤ c1 ≤ 8 → 0 ≤ c2 ≤ 8 → 0 ≤ c3 ≤ 8 →
  let r := c0 + 2 ^ 8 * (c1 + 2 ^ 8 * (c2 + 2 ^ 8 * c3)) in
  let r := u32 (r + Z.shiftr r 8) in
  Z.land (u32 (r + Z.shiftr r 16)) 0xFF = c0 + c1 + c2 + c3.
Proof.
  intros H0 H1 H2 H3. cbv zeta. rewrite !Z.shiftr_div_pow2 by lia.
  set (r := c0 + _).
  assert (Hr : r / 2 ^ 8 = c1 + 2 ^ 8 * (c2 + 2 ^ 8 * c3))
    by (symmetry; apply (Z.div_unique _ _ _ c0); unfold r; lia).
  rewrite Hr. rewrite (u32_small (r + _)) by (unfold r; lia). set (q := r + _).
  assert (Hq : q / 2 ^ 16 = c2 + c3 + 2 ^ 8 * c3)
    by (symmetry; apply (Z.div_unique _ _ _ (c0 + c1 + 2 ^ 8 * (c1 + c2))); unfold q, r; lia).
  rewrite Hq. rewrite u32_small by (unfold q, r; lia). change 0xFF with (Z.ones 8).
  rewrite Z.land_ones by lia. symmetry.
  apply (Z.mod_unique _ _ (c1 + c2 + 2 ^ 8 * (c2 + c3) + 2 ^ 16 * c3 + c3)); unfold q, r; lia.
Qed.

Lemma hweight32_spec w : 0 ≤ w < 2 ^ 32 → hweight32 w = weight w 32.
Proof.
  intros Hw. destruct (split_byte w 24) as (x0 & y0 & -> & Hx0 & Hy0); [lia|done|].
  destruct (split_byte y0 16) as (x1 & y1 & -> & Hx1 & Hy1); [lia|done|].
  destruct (split_byte y1 8) as (x2 & x3 & -> & Hx2 & Hx3); [lia|done|].
  destruct (fields4 x0 x1 x2 x3 Hx0 Hx1 Hx2 Hx3) as (Hr1 & Hr2 & Hs & He). cbv zeta in *.
  unfold hweight32. change (?w - Z.land (Z.shiftr ?w 1) ?m) with (f1 w m).
  rewrite (u32_small (f1 _ _)) by done.
  change (Z.land ?r ?m + Z.land (Z.shiftr ?r 2) ?m) with (f2 r m).
  rewrite (u32_small (f2 _ _)).
  2: { split; [done|]. pose proof (Z.shiftr_nonneg (f2 (f1 (x0 + 2 ^ 8 * (x1 + 2 ^ 8 * (x2 + 2 ^ 8 * x3))) 0x55555555) 0x33333333) 4). lia. }
  rewrite (u32_small (f2 _ _ + _)).
  2: { split; [|done]. apply Z.add_nonneg_nonneg; [done|by apply Z.shiftr_nonneg]. }
  change (Z.land (?r + Z.shiftr ?r 4) ?m) with (f3 r m). rewrite He.
  rewrite sum_fields by apply weight8_range.
  change 32%nat with (8 + (8 + (8 + 8)))%nat. rewrite !weight_field by done. lia.
Qed.

Lemma hweight16_spec w : 0 ≤ w < 2 ^ 16 → hweight16 w = weight w 16.
Proof.
  intros Hw. destruct (split_byte w 8) as (x0 & x1 & -> & Hx0 & Hx1); [lia|done|].
  destruct (fields2 x0 x1 Hx0 Hx1) as (Hr1 & Hr2 & Hs & He). cbv zeta in *.
  unfold hweight16. change (?w - Z.land (Z.shiftr ?w 1) ?m) with (f1 w m).
  rewrite (u32_small (f1 _ _)) by lia.
  change (Z.land ?r ?m + Z.land (Z.shiftr ?r 2) ?m) with (f2 r m).
  rewrite (u32_small (f2 _ _)) by lia. rewrite (u32_small (f2 _ _ + _)).
  2: { split; [|lia]. apply Z.add_nonneg_nonneg; [lia|apply Z.shiftr_nonneg; lia]. }
  change (Z.land (?r + Z.shiftr ?r 4) ?m) with (f3 r m). rewrite He.
  pose proof (weight8_range x0). pose proof (weight8_range x1).
  change 16%nat with (8 + 8)%nat. rewrite weight_field by done. set (c0 := weight x0 8) in *. set (c1 := weight x1 8) in *.
  rewrite Z.shiftr_div_pow2 by lia.
  replace ((c0 + 2 ^ 8 * c1) / 2 ^ 8) with c1 by (apply (Z.div_unique _ _ _ c0); lia).
  rewrite u32_small by lia. change 0xFF with (Z.ones 8). rewrite Z.land_ones by lia.
  symmetry. apply (Z.mod_unique _ _ c1); lia.
Qed.

Lemma hweight8_spec w : 0 ≤ w < 2 ^ 8 → hweight8 w = weight w 8.
Proof.
  intros Hw. apply Z.eqb_eq. apply (below_all 256 (λ w, hweight8 w =? weight w 8)); [|done].
  vm_compute. reflexivity.
Qed.

(** The branch-free [hweight8], [hweight16], [hweight32] and [hweight64]
    return the number of bits set in a word of their width; no field of the
    parallel sums overflows into the next. *)
Theorem hweight_counts (w : Z) :
  (0 ≤ w < 2 ^ 8 → hweight8 w = weight w 8) ∧
  (0 ≤ w < 2 ^ 16 → hweight16 w = weight w 16) ∧
  (0 ≤ w < 2 ^ 32 → hweight32 w = weight w 32) ∧
  (0 ≤ w < 2 ^ 64 → hweight64 w = weight w 64).
Proof.
  split; [apply hweight8_spec|]. split; [apply hweight16_spec|]. split; [apply hweight32_spec|].
  intros Hw. unfold hweight64. rewrite Z.shiftr_div_pow2 by lia.
  assert (Hh : 0 ≤ w / 2 ^ 32 < 2 ^ 32)
    by (split; [apply Z.div_pos; lia|apply Z.div_lt_upper_bound; lia]).
  rewrite (u32_small (w / 2 ^ 32)) by done. rewrite !hweight32_spec by (done || apply u32_range).
  unfold weight. pose proof (count_range (Z.testbit (w / 2 ^ 32)) 0 32).
  pose proof (count_range (Z.testbit (u32 w)) 0 32). rewrite u32_small by lia.
  rewrite (count_app _ _ 32 32), Z.add_comm. f_equal.
  - apply count_ext. intros j Hj. apply Z.mod_pow2_bits_low. lia.
  - rewrite count_shift. apply count_ext. intros j Hj. apply Z.div_pow2_bits; lia.
Qed.

Lemma hweight_counts_witness :
  hweight8 0xF1 = 5 ∧ hweight16 0xFFFF = 16 ∧ hweight32 0xFFFFFFFF = 32 ∧ hweight64 0x8000000100000001 = 3.
Proof.
  destruct (hweight_counts 0xF1) as (H8 & _). destruct (hweight_counts 0xFFFF) as (_ & H16 & _).
  destruct (hweight_counts 0xFFFFFFFF) as (_ & _ & H32 & _).
  destruct (hweight_counts 0x8000000100000001) as (_ & _ & _ & H64).
  rewrite H8, H16, H32, H64 by lia. vm_compute. auto.
Defined.
