(* ===== verification/Bitmap.v ===== *)
(** Bitmaps: lib/bitmap.c.

    The store maps the address of an array to its 32-bit words, so that the
    destination of an operation may be one of its sources, as in
    [__bitmap_shift_left(maskp, maskp, ...)].  The word loops are proved to
    compute the operation on every bit, in place or not. *)

From S2P Require Import Prelude FindBit Hweight.

Abbreviation mem := (gmap loc (list Z)).

(** ** Array access *)

Definition rd (a : loc) (k : Z) : M mem Z := λ m,
  match m !! a with
  | None => Fault FNull
  | Some w => if k <? 0 then Fault FBounds
              else match w !! Z.to_nat k with Some x => Done (x, m) | None => Fault FBounds end
  end.

Definition wr (a : loc) (k x : Z) : M mem unit := λ m,
  match m !! a with
  | None => Fault FNull
  | Some w => if (k <? 0) || (Z.of_nat (length w) <=? k) then Fault FBounds
              else Done (tt, <[a := <[Z.to_nat k := x]> w]> m)
  end.

(** Run a search of FindBit on one array. *)
Definition on (a : loc) (f : M (list Z) Z) : M mem Z := λ m,
  match m !! a with
  | None => Fault FNull
  | Some w => match f w with Done (r, w') => Done (r, <[a := w']> m) | Fault e => Fault e end
  end.

(** [for (k = k0; k < k0 + n; ++k)] and [for (k = n - 1; k >= 0; --k)] *)
Fixpoint for_up (n : nat) (k : Z) (body : Z → M mem unit) : M mem unit :=
  match n with
  | O => mret tt
  | S n => body k ;; for_up n (k + 1) body
  end.
Fixpoint for_down (n : nat) (body : Z → M mem unit) : M mem unit :=
  match n with
  | O => mret tt
  | S n => body (Z.of_nat n) ;; for_down n body
  end.

(** A word loop that stops when [test] holds. *)
Fixpoint any_word (n : nat) (k : Z) (test : Z → M mem bool) : M mem bool :=
  match n with
  | O => mret false
  | S n => b ← test k; if (b : bool) then mret true else any_word n (k + 1) test
  end.

Definition BITS_TO_LONGS (bits : Z) : Z := Z.quot (bits + BITS_PER_LONG - 1) BITS_PER_LONG.

Definition low_mask (n : Z) : Z := u32 (u32 (Z.shiftl 1 n) - 1).
Definition BITMAP_LAST_WORD_MASK (nbits : Z) : Z :=
  if Z.rem nbits BITS_PER_LONG =? 0 then ONES else low_mask (Z.rem nbits BITS_PER_LONG).

Definition memset_words (a : loc) (k n : Z) : M mem unit :=
  for_up (Z.to_nat n) k (λ k, wr a k 0).
Definition bitmap_zero (dst : loc) (nbits : Z) : M mem unit :=
  if nbits <=? BITS_PER_LONG then wr dst 0 0 else memset_words dst 0 (BITS_TO_LONGS nbits).

(** ** Predicates *)

(** The full words, then the masked last word: does some word pass the test? *)
Definition some_word (bits : Z) (test : Z → M mem bool) (last : Z → M mem Z) : M mem bool :=
  let lim := Z.quot bits BITS_PER_LONG in
  b ← any_word (Z.to_nat lim) 0 test;
  if (b : bool) then mret true
  else if Z.rem bits BITS_PER_LONG =? 0 then mret false
  else x ← last lim; mret (negb (Z.land x (BITMAP_LAST_WORD_MASK bits) =? 0)).

Definition nonzero (f : Z → M mem Z) (k : Z) : M mem bool := x ← f k; mret (negb (x =? 0)).
Definition not_at (a : loc) (k : Z) : M mem Z := x ← rd a k; mret (not_word x).
Definition at2 (op : Z → Z → Z) (a b : loc) (k : Z) : M mem Z :=
  x ← rd a k; y ← rd b k; mret (op x y).

Definition __bitmap_empty (bitmap : loc) (bits : Z) : M mem Z :=
  b ← some_word bits (nonzero (rd bitmap)) (rd bitmap); mret (bool2Z (negb b)).
Definition __bitmap_full (bitmap : loc) (bits : Z) : M mem Z :=
  b ← some_word bits (nonzero (not_at bitmap)) (not_at bitmap); mret (bool2Z (negb b)).
Definition differ (a b : loc) (k : Z) : M mem bool :=
  x ← rd a k; y ← rd b k; mret (negb (x =? y)).
Definition __bitmap_equal (bitmap1 bitmap2 : loc) (bits : Z) : M mem Z :=
  b ← some_word bits (differ bitmap1 bitmap2) (at2 Z.lxor bitmap1 bitmap2);
  mret (bool2Z (negb b)).
Definition __bitmap_intersects (bitmap1 bitmap2 : loc) (bits : Z) : M mem Z :=
  b ← some_word bits (nonzero (at2 Z.land bitmap1 bitmap2)) (at2 Z.land bitmap1 bitmap2);
  mret (bool2Z b).
Definition and_not (x y : Z) : Z := Z.land x (not_word y).
Definition __bitmap_subset (bitmap1 bitmap2 : loc) (bits : Z) : M mem Z :=
  b ← some_word bits (nonzero (at2 and_not bitmap1 bitmap2)) (at2 and_not bitmap1 bitmap2);
  mret (bool2Z (negb b)).

Fixpoint weight_loop (n : nat) (bitmap : loc) (k w : Z) : M mem Z :=
  match n with
  | O => mret w
  | S n => x ← rd bitmap k; weight_loop n bitmap (k + 1) (s32 (w + hweight32 x))
  end.
Definition __bitmap_weight (bitmap : loc) (bits : Z) : M mem Z :=
  let lim := Z.quot bits BITS_PER_LONG in
  w ← weight_loop (Z.to_nat lim) bitmap 0 0;
  if Z.rem bits BITS_PER_LONG =? 0 then mret w
  else x ← rd bitmap lim;
       mret (s32 (w + hweight32 (Z.land x (BITMAP_LAST_WORD_MASK bits)))).
Definition bitmap_weight (src : loc) (nbits : Z) : M mem Z :=
  if nbits <=? BITS_PER_LONG
  then x ← rd src 0; mret (hweight32 (Z.land x (BITMAP_LAST_WORD_MASK nbits)))
  else __bitmap_weight src nbits.

(** ** Operations on whole bitmaps *)

Definition words_op2 (op : Z → Z → Z) (dst bitmap1 bitmap2 : loc) (bits : Z) : M mem unit :=
  for_up (Z.to_nat (BITS_TO_LONGS bits)) 0
    (λ k, x ← rd bitmap1 k; y ← rd bitmap2 k; wr dst k (op x y)).
Definition __bitmap_and : loc → loc → loc → Z → M mem unit := words_op2 Z.land.
Definition __bitmap_or : loc → loc → loc → Z → M mem unit := words_op2 Z.lor.
Definition __bitmap_xor : loc → loc → loc → Z → M mem unit := words_op2 Z.lxor.
Definition __bitmap_andnot : loc → loc → loc → Z → M mem unit := words_op2 and_not.

Definition __bitmap_complement (dst src : loc) (bits : Z) : M mem unit :=
  let lim := Z.quot bits BITS_PER_LONG in
  for_up (Z.to_nat lim) 0 (λ k, x ← rd src k; wr dst k (not_word x)) ;;
  if Z.rem bits BITS_PER_LONG =? 0 then mret tt
  else x ← rd src lim; wr dst lim (Z.land (not_word x) (BITMAP_LAST_WORD_MASK bits)).

(** [src[q]], masked if it is the last word and not a full one *)
Definition rd_masked (src : loc) (lim left q : Z) : M mem Z :=
  x ← rd src q;
  mret (if negb (left =? 0) && (q =? lim - 1) then Z.land x (low_mask left) else x).
Definition mask_last (dst : loc) (lim left q : Z) : M mem unit :=
  if negb (left =? 0) && (q =? lim - 1)
  then x ← rd dst q; wr dst q (Z.land x (low_mask left)) else mret tt.

Definition __bitmap_shift_right (dst src : loc) (shift bits : Z) : M mem unit :=
  let lim := BITS_TO_LONGS bits in
  let left := Z.rem bits BITS_PER_LONG in
  let off := Z.quot shift BITS_PER_LONG in
  let rem := Z.rem shift BITS_PER_LONG in
  for_up (Z.to_nat (lim - off)) 0 (λ k,
    upper ← (if (rem =? 0) || (lim <=? off + k + 1) then mret 0 else rd_masked src lim left (off + k + 1));
    lower ← rd_masked src lim left (off + k);
    wr dst k (Z.lor (u32 (Z.shiftl upper (BITS_PER_LONG - rem))) (Z.shiftr lower rem)) ;;
    mask_last dst lim left k) ;;
  if off =? 0 then mret tt else memset_words dst (lim - off) off.

Definition __bitmap_shift_left (dst src : loc) (shift bits : Z) : M mem unit :=
  let lim := BITS_TO_LONGS bits in
  let left := Z.rem bits BITS_PER_LONG in
  let off := Z.quot shift BITS_PER_LONG in
  let rem := Z.rem shift BITS_PER_LONG in
  for_down (Z.to_nat (lim - off)) (λ k,
    lower ← (if negb (rem =? 0) && (0 <? k) then rd src (k - 1) else mret 0);
    upper ← rd_masked src lim left k;
    wr dst (k + off) (Z.lor (Z.shiftr lower (BITS_PER_LONG - rem)) (u32 (Z.shiftl upper rem))) ;;
    mask_last dst lim left (k + off)) ;;
  if off =? 0 then mret tt else memset_words dst 0 off.

Definition bitmap_shift_right (dst src : loc) (n nbits : Z) : M mem unit :=
  if nbits <=? BITS_PER_LONG
  then x ← rd src 0; wr dst 0 (Z.shiftr x n)
  else __bitmap_shift_right dst src n nbits.

(** ** Words and bits *)

Definition word (w : list Z) (k : Z) : Z := default 0 (w !! Z.to_nat k).

(** The array at [a] holds [w], which has room for [bits] bits. *)
Record is_bitmap (m : mem) (a : loc) (w : list Z) (bits : Z) : Prop := {
  bm_at : m !! a = Some w;
  bm_words : words_ok w;
  bm_len : bits ≤ 32 * Z.of_nat (length w);
  bm_bits : 0 ≤ bits < 2 ^ 31 - 32;
}.

Lemma bit_word w i : bit w i = Z.testbit (word w (i / 32)) (i mod 32).
Proof. unfold bit, word. destruct (w !! _); [done|]. cbn. by rewrite Z.bits_0. Qed.

Lemma bit_split w k j : 0 ≤ j < 32 → bit w (32 * k + j) = Z.testbit (word w k) j.
Proof.
  intros Hj. rewrite bit_word. f_equal; [f_equal|].
  - symmetry. apply (Z.div_unique _ _ _ j); lia.
  - symmetry. apply (Z.mod_unique _ _ k); lia.
Qed.

(** Every bit is a bit of a word. *)
Lemma bit_index i : 0 ≤ i → ∃ k j, i = 32 * k + j ∧ 0 ≤ k ∧ 0 ≤ j < 32.
Proof.
  intros Hi. exists (i / 32), (i mod 32).
  pose proof (Z.div_mod i 32 ltac:(lia)). pose proof (Z.mod_pos_bound i 32 ltac:(lia)).
  pose proof (Z.div_pos i 32 ltac:(lia) ltac:(lia)). lia.
Qed.

Lemma word_range w k : words_ok w → 0 ≤ word w k < 2 ^ 32.
Proof.
  intros Hw. unfold word. destruct (w !! Z.to_nat k) as [x|] eqn:E; cbn; [|lia].
  by eapply (Forall_lookup_1 _ _ _ _ Hw E).
Qed.

Lemma word_lookup w k : 0 ≤ k < Z.of_nat (length w) → w !! Z.to_nat k = Some (word w k).
Proof.
  intros Hk. unfold word. destruct (lookup_lt_is_Some_2 w (Z.to_nat k)) as [x ->]; [lia|done].
Qed.

Lemma rd_word m a w k : m !! a = Some w → 0 ≤ k < Z.of_nat (length w) → rd a k m = Done (word w k, m).
Proof.
  intros Ha Hk. unfold rd. rewrite Ha. destruct (Z.ltb_spec k 0); [lia|]. by rewrite word_lookup.
Qed.

(** Reading while the destination [d], which held [w0], is partly overwritten. *)
Lemma rd_alias m d w0 w' a wa k : m !! d = Some w0 → m !! a = Some wa →
  length w' = length w0 → word w' k = word w0 k → 0 ≤ k < Z.of_nat (length wa) →
  rd a k (<[d := w']> m) = Done (word wa k, <[d := w']> m).
Proof.
  intros Hd Ha Hl Hw Hk. destruct (decide (a = d)) as [->|Hne].
  - rewrite Ha in Hd. injection Hd as ->. rewrite <- Hw. apply rd_word; [|lia].
    by rewrite lookup_insert_eq.
  - apply rd_word; [by rewrite lookup_insert_ne|done].
Qed.

Lemma wr_done m d w' k x : 0 ≤ k < Z.of_nat (length w') →
  wr d k x (<[d := w']> m) = Done (tt, <[d := <[Z.to_nat k := x]> w']> m).
Proof.
  intros Hk. unfold wr. rewrite lookup_insert_eq.
  destruct (Z.ltb_spec k 0), (Z.leb_spec (Z.of_nat (length w')) k); try lia. cbn.
  by rewrite insert_insert_eq.
Qed.

Lemma word_insert_eq w k x : 0 ≤ k < Z.of_nat (length w) → word (<[Z.to_nat k := x]> w) k = x.
Proof. intros Hk. unfold word. rewrite list_lookup_insert_eq by lia. done. Qed.

Lemma word_insert_ne w k k' x : 0 ≤ k → 0 ≤ k' → k ≠ k' → word (<[Z.to_nat k := x]> w) k' = word w k'.
Proof. intros. unfold word. by rewrite list_lookup_insert_ne by lia. Qed.

(** ** The word loops *)

Lemma for_up_spec m d w0 N (g : Z → Z) body n k wc :
  (∀ j w', 0 ≤ j < N → length w' = length w0 → (∀ i, j ≤ i → word w' i = word w0 i) →
     body j (<[d := w']> m) = Done (tt, <[d := <[Z.to_nat j := g j]> w']> m)) →
  0 ≤ k → k + Z.of_nat n ≤ N → N ≤ Z.of_nat (length w0) → length wc = length w0 →
  (∀ i, k ≤ i → word wc i = word w0 i) →
  ∃ w', for_up n k body (<[d := wc]> m) = Done (tt, <[d := w']> m) ∧ length w' = length w0 ∧
    ∀ i, 0 ≤ i → word w' i = if (k <=? i) && (i <? k + Z.of_nat n) then g i else word wc i.
Proof.
  intros Hb. revert k wc. induction n as [|n IH]; intros k wc Hk Hn HN Hl Hag; cbn [for_up].
  - exists wc. split; [done|]. split; [done|]. intros i Hi.
    destruct (Z.leb_spec k i), (Z.ltb_spec i (k + Z.of_nat 0)); done || lia.
  - run_simpl. rewrite Hb by (done || lia). cbn beta iota.
    destruct (IH (k + 1) (<[Z.to_nat k := g k]> wc)) as (w' & E & Hl' & Hw'); [lia|lia|done| | |].
    + by rewrite length_insert.
    + intros i Hi. rewrite word_insert_ne by lia. apply Hag. lia.
    + exists w'. split; [done|]. split; [done|]. intros i Hi. rewrite Hw' by done.
      destruct (decide (i = k)) as [->|Hne].
      * destruct (Z.leb_spec (k + 1) k), (Z.leb_spec k k), (Z.ltb_spec k (k + Z.of_nat (S n))); try lia.
        cbn. apply word_insert_eq. lia.
      * destruct (Z.leb_spec (k + 1) i), (Z.leb_spec k i), (Z.ltb_spec i (k + 1 + Z.of_nat n)),
          (Z.ltb_spec i (k + Z.of_nat (S n))); try lia; try done; cbn; apply word_insert_ne; lia.
Qed.

Lemma for_down_spec m d w0 N off (g : Z → Z) body n wc :
  (∀ j w', 0 ≤ j < N → length w' = length w0 → (∀ i, 0 ≤ i ≤ j + off → word w' i = word w0 i) →
     body j (<[d := w']> m) = Done (tt, <[d := <[Z.to_nat (j + off) := g (j + off)]> w']> m)) →
  0 ≤ off → Z.of_nat n ≤ N → N + off ≤ Z.of_nat (length w0) → length wc = length w0 →
  (∀ i, 0 ≤ i < Z.of_nat n + off → word wc i = word w0 i) →
  ∃ w', for_down n body (<[d := wc]> m) = Done (tt, <[d := w']> m) ∧ length w' = length w0 ∧
    ∀ i, 0 ≤ i → word w' i = if (off <=? i) && (i <? Z.of_nat n + off) then g i else word wc i.
Proof.
  intros Hb. revert wc. induction n as [|n IH]; intros wc Hk Hn HN Hl Hag; cbn [for_down].
  - exists wc. split; [done|]. split; [done|]. intros i Hi.
    destruct (Z.leb_spec off i), (Z.ltb_spec i (Z.of_nat 0 + off)); done || lia.
  - run_simpl. rewrite Hb; [|lia|done|intros i Hi; apply Hag; lia]. cbn beta iota.
    destruct (IH (<[Z.to_nat (Z.of_nat n + off) := g (Z.of_nat n + off)]> wc)) as (w' & E & Hl' & Hw');
      [lia|lia|done| | |].
    + by rewrite length_insert.
    + intros i Hi. rewrite word_insert_ne by lia. apply Hag. lia.
    + exists w'. split; [done|]. split; [done|]. intros i Hi. rewrite Hw' by done.
      destruct (decide (i = Z.of_nat n + off)) as [->|Hne].
      * destruct (Z.leb_spec off (Z.of_nat n + off)), (Z.ltb_spec (Z.of_nat n + off) (Z.of_nat n + off)),
          (Z.ltb_spec (Z.of_nat n + off) (Z.of_nat (S n) + off)); try lia.
        cbn. apply word_insert_eq. lia.
      * destruct (Z.leb_spec off i), (Z.ltb_spec i (Z.of_nat n + off)),
          (Z.ltb_spec i (Z.of_nat (S n) + off)); try lia; try done; cbn; apply word_insert_ne; lia.
Qed.

Lemma words_ok_word w : (∀ k, 0 ≤ k < Z.of_nat (length w) → 0 ≤ word w k < 2 ^ 32) → words_ok w.
Proof.
  intros H. apply Forall_lookup_2. intros i x E.
  specialize (H (Z.of_nat i)). unfold word in H. rewrite Nat2Z.id, E in H. cbn in H.
  apply H. apply lookup_lt_Some in E. lia.
Qed.

Lemma bits_to_longs n : 0 ≤ n → BITS_TO_LONGS n = (n + 31) / 32.
Proof.
  intros Hn. unfold BITS_TO_LONGS. change BITS_PER_LONG with 32.
  replace (n + 32 - 1) with (n + 31) by lia. apply Z.quot_div_nonneg; lia.
Qed.

Lemma bits_to_longs_bound n L : 0 ≤ n → n ≤ 32 * L → BITS_TO_LONGS n ≤ L ∧ n ≤ 32 * BITS_TO_LONGS n.
Proof.
  intros Hn HL. rewrite bits_to_longs by done.
  pose proof (Z.div_mod (n + 31) 32 ltac:(lia)). pose proof (Z.mod_pos_bound (n + 31) 32 ltac:(lia)).
  split; [|lia]. assert ((n + 31) / 32 < L + 1) by (apply Z.div_lt_upper_bound; lia). lia.
Qed.

(** [op] finishes, changes only the array [dst], and leaves bit [i] of it equal
    to [f i], for every [i] below [bits]. *)
Definition computes (op : M mem unit) (m : mem) (dst : loc) (bits : Z) (f : Z → bool) : Prop :=
  ∃ w0 w', m !! dst = Some w0 ∧ op m = Done (tt, <[dst := w']> m) ∧ length w' = length w0 ∧ words_ok w' ∧
    ∀ i, 0 ≤ i < bits → bit w' i = f i.

Section Ops.
Context (m : mem) (bits : Z).

(** Two bitmaps combined word by word, the destination possibly one of them. *)
Lemma words_op2_spec op (f : bool → bool → bool) dst b1 b2 wd w1 w2 :
  is_bitmap m dst wd bits → is_bitmap m b1 w1 bits → is_bitmap m b2 w2 bits →
  (∀ x y, 0 ≤ x < 2 ^ 32 → 0 ≤ y < 2 ^ 32 → 0 ≤ op x y < 2 ^ 32 ∧
     ∀ j, 0 ≤ j < 32 → Z.testbit (op x y) j = f (Z.testbit x j) (Z.testbit y j)) →
  computes (words_op2 op dst b1 b2 bits) m dst bits (λ i, f (bit w1 i) (bit w2 i)).
Proof.
  intros [Hd Hwd Hld Hbits] [H1 Hw1 Hl1 _] [H2 Hw2 Hl2 _] Hop.
  destruct (bits_to_longs_bound bits (Z.of_nat (length wd))) as [Lb1 Hn]; [lia|done|].
  destruct (bits_to_longs_bound bits (Z.of_nat (length w1))) as [Lb2 _]; [lia|done|].
  destruct (bits_to_longs_bound bits (Z.of_nat (length w2))) as [Lb3 _]; [lia|done|].
  set (lim := BITS_TO_LONGS bits) in *.
  destruct (for_up_spec m dst wd lim (λ k, op (word w1 k) (word w2 k))
    (λ k, x ← rd b1 k; y ← rd b2 k; wr dst k (op x y)) (Z.to_nat lim) 0 wd)
    as (w' & E & Hl' & Hw'); [|lia|lia|done|done|done|].
  { intros j w' Hj Hl' Hag. run_simpl.
    rewrite (rd_alias m dst wd w' b1 w1) by (done || lia || (apply Hag; lia)). cbn beta iota.
    rewrite (rd_alias m dst wd w' b2 w2) by (done || lia || (apply Hag; lia)). cbn beta iota.
    apply wr_done. lia. }
  rewrite insert_id in E by done. exists wd, w'. split; [done|]. split; [exact E|]. split; [done|]. split.
  - apply words_ok_word. intros k Hk. rewrite Hw' by lia.
    destruct ((0 <=? k) && (k <? 0 + Z.of_nat (Z.to_nat lim))).
    + by apply Hop; apply word_range.
    + by apply word_range.
  - intros i Hi. destruct (bit_index i) as (k & j & -> & Hk & Hj); [lia|]. rewrite !bit_split by done.
    rewrite Hw' by done.
    destruct (Z.leb_spec 0 k), (Z.ltb_spec k (0 + Z.of_nat (Z.to_nat lim))); try lia. cbn.
    by apply Hop; [apply word_range|apply word_range|].
Qed.

Lemma land_word x y : 0 ≤ x < 2 ^ 32 → 0 ≤ y < 2 ^ 32 → 0 ≤ Z.land x y < 2 ^ 32 ∧
  ∀ j, 0 ≤ j < 32 → Z.testbit (Z.land x y) j = Z.testbit x j && Z.testbit y j.
Proof. intros Hx Hy. split; [by apply land_range|]. intros. apply Z.land_spec. Qed.

Lemma lor_word x y : 0 ≤ x < 2 ^ 32 → 0 ≤ y < 2 ^ 32 → 0 ≤ Z.lor x y < 2 ^ 32 ∧
  ∀ j, 0 ≤ j < 32 → Z.testbit (Z.lor x y) j = Z.testbit x j || Z.testbit y j.
Proof. intros Hx Hy. split; [by apply lor_range|]. intros. apply Z.lor_spec. Qed.

Lemma lxor_word x y : 0 ≤ x < 2 ^ 32 → 0 ≤ y < 2 ^ 32 → 0 ≤ Z.lxor x y < 2 ^ 32 ∧
  ∀ j, 0 ≤ j < 32 → Z.testbit (Z.lxor x y) j = xorb (Z.testbit x j) (Z.testbit y j).
Proof.
  intros Hx Hy. split; [|intros; apply Z.lxor_spec].
  assert (E : Z.lxor x y = Z.lor (Z.land x (not_word y)) (Z.land (not_word x) y)).
  { apply Z.bits_inj'. intros i Hi. destruct (decide (i < 32)).
    - rewrite Z.lxor_spec, Z.lor_spec, !Z.land_spec, !not_word_bits by lia.
      by destruct (Z.testbit x i), (Z.testbit y i).
    - rewrite Z.lxor_spec, Z.lor_spec, !Z.land_spec, (testbit_high x), (testbit_high y) by lia.
      by rewrite andb_false_r. }
  rewrite E. apply lor_range; apply land_range; [done|by apply not_word_range].
Qed.

Lemma and_not_word x y : 0 ≤ x < 2 ^ 32 → 0 ≤ y < 2 ^ 32 → 0 ≤ and_not x y < 2 ^ 32 ∧
  ∀ j, 0 ≤ j < 32 → Z.testbit (and_not x y) j = Z.testbit x j && negb (Z.testbit y j).
Proof.
  intros Hx Hy. unfold and_not. split; [by apply land_range|]. intros j Hj.
  by rewrite Z.land_spec, not_word_bits.
Qed.

Lemma last_mask_bits n j : 0 ≤ n < 32 → 0 ≤ j → Z.testbit (low_mask n) j = (j <? n).
Proof.
  intros Hn Hj. unfold low_mask. rewrite Z.shiftl_1_l.
  assert (1 ≤ 2 ^ n) by (apply (Z.pow_le_mono_r 2 0 n); lia).
  assert (2 ^ n < 2 ^ 32) by (apply Z.pow_lt_mono_r; lia).
  rewrite (u32_small (2 ^ n)) by lia. rewrite u32_small by lia.
  replace (2 ^ n - 1) with (Z.ones n) by (rewrite Z.ones_equiv; lia).
  destruct (Z.ltb_spec j n); [apply Z.ones_spec_low; lia|apply Z.ones_spec_high; lia].
Qed.

Lemma rem_mod n : 0 ≤ n → Z.rem n BITS_PER_LONG = n mod 32.
Proof. intros Hn. apply Z.rem_mod_nonneg; [done|]. done. Qed.

Lemma quot_div n : 0 ≤ n → Z.quot n BITS_PER_LONG = n / 32.
Proof. intros Hn. apply Z.quot_div_nonneg; [done|]. done. Qed.

(** The mask of the last word keeps the bits below [bits]. *)
Lemma last_word_mask_bits n j : 0 ≤ n → n mod 32 ≠ 0 → 0 ≤ j →
  Z.testbit (BITMAP_LAST_WORD_MASK n) j = (32 * (n / 32) + j <? n).
Proof.
  intros Hn Hr Hj. unfold BITMAP_LAST_WORD_MASK. rewrite rem_mod by done.
  pose proof (Z.div_mod n 32 ltac:(lia)). pose proof (Z.mod_pos_bound n 32 ltac:(lia)).
  destruct (Z.eqb_spec (n mod 32) 0); [done|]. rewrite last_mask_bits by lia.
  destruct (Z.ltb_spec j (n mod 32)), (Z.ltb_spec (32 * (n / 32) + j) n); done || lia.
Qed.

Lemma not_word_word x : 0 ≤ x < 2 ^ 32 → 0 ≤ not_word x < 2 ^ 32 ∧
  ∀ j, 0 ≤ j < 32 → Z.testbit (not_word x) j = negb (Z.testbit x j).
Proof. intros Hx. split; [by apply not_word_range|]. intros. by apply not_word_bits. Qed.

(** ** Predicates *)

(** Does [P] hold of some bit below [n]? *)
Definition some_bit (P : Z → bool) (n : Z) : bool := scan P 0 (Z.to_nat n) <? n.

Lemma some_bit_true P n : 0 ≤ n → some_bit P n = true ↔ ∃ i, 0 ≤ i < n ∧ P i = true.
Proof.
  intros Hn. unfold some_bit. destruct (scan_result P 0 (Z.to_nat n)) as (Hr & Ht & Hf).
  rewrite Z.ltb_lt. split.
  - intros H. exists (scan P 0 (Z.to_nat n)). split; [lia|]. apply Ht. lia.
  - intros (i & Hi & HP). destruct (Z.lt_ge_cases (scan P 0 (Z.to_nat n)) n); [done|].
    rewrite Hf in HP by lia. done.
Qed.

Lemma some_bit_false P n : 0 ≤ n → some_bit P n = false ↔ ∀ i, 0 ≤ i < n → P i = false.
Proof.
  intros Hn. rewrite <- not_true_iff_false, some_bit_true by done. split.
  - intros H i Hi. apply not_true_iff_false. intros E. apply H. eauto.
  - intros H (i & Hi & E). rewrite H in E by done. done.
Qed.

Lemma word_nonzero x : 0 ≤ x < 2 ^ 32 → x ≠ 0 ↔ ∃ j, 0 ≤ j < 32 ∧ Z.testbit x j = true.
Proof.
  intros Hx. split.
  - intros Hn. destruct (ffs_spec x [] Hx Hn) as (r & _ & Hr & Ht & _). eauto.
  - intros (j & Hj & Ht) ->. by rewrite Z.bits_0 in Ht.
Qed.

Lemma any_word_spec (P : Z → bool) (test : Z → M mem bool) n k : 0 ≤ k →
  (∀ q, k ≤ q < k + Z.of_nat n → ∃ b, test q m = Done (b, m) ∧
     (b = true ↔ ∃ j, 0 ≤ j < 32 ∧ P (32 * q + j) = true)) →
  ∃ b, any_word n k test m = Done (b, m) ∧
    (b = true ↔ ∃ i, 32 * k ≤ i < 32 * (k + Z.of_nat n) ∧ P i = true).
Proof.
  revert k. induction n as [|n IH]; intros k Hk Ht; cbn [any_word].
  { exists false. split; [done|]. split; [done|]. intros (i & Hi & _). lia. }
  destruct (Ht k) as (b & E & Hb); [lia|]. run_simpl. rewrite E. cbn beta iota. destruct b.
  - exists true. split; [done|]. split; [|done]. intros _. destruct (proj1 Hb eq_refl) as (j & Hj & HP).
    exists (32 * k + j). split; [lia|done].
  - destruct (IH (k + 1)) as (b & E' & Hb'); [lia|intros q Hq; apply Ht; lia|].
    exists b. split; [done|]. rewrite Hb'. split; intros (i & Hi & HP); exists i; (split; [|done]).
    + lia.
    + destruct (Z.lt_ge_cases i (32 * k + 32)); [|lia]. exfalso.
      enough (false = true) by done. apply Hb. exists (i - 32 * k). split; [lia|].
      by replace (32 * k + (i - 32 * k)) with i by lia.
Qed.

Lemma some_word_spec (P : Z → bool) test last : 0 ≤ bits →
  (∀ q, 0 ≤ q → 32 * q + 32 ≤ bits → ∃ b, test q m = Done (b, m) ∧
     (b = true ↔ ∃ j, 0 ≤ j < 32 ∧ P (32 * q + j) = true)) →
  (∀ q, 0 ≤ q → 32 * q < bits → ∃ x, last q m = Done (x, m) ∧ 0 ≤ x < 2 ^ 32 ∧
     ∀ j, 0 ≤ j < 32 → Z.testbit x j = P (32 * q + j)) →
  some_word bits test last m = Done (some_bit P bits, m).
Proof.
  intros Hb Ht Hlast. unfold some_word. rewrite quot_div, rem_mod by done.
  pose proof (Z.div_mod bits 32 ltac:(lia)). pose proof (Z.mod_pos_bound bits 32 ltac:(lia)).
  pose proof (Z.div_pos bits 32 ltac:(lia) ltac:(lia)).
  destruct (any_word_spec P test (Z.to_nat (bits / 32)) 0) as (b & E & Hiff); [lia| |].
  { intros q Hq. apply Ht; lia. }
  run_simpl. rewrite E. cbn beta iota. destruct b.
  { destruct (proj1 Hiff eq_refl) as (i & Hi & HP). do 2 f_equal. symmetry.
    apply some_bit_true; [done|]. exists i. split; [lia|done]. }
  assert (Hlow : ∀ i, 0 ≤ i < 32 * (bits / 32) → P i = false).
  { intros i Hi. apply not_true_iff_false. intros HP. enough (false = true) by done. apply Hiff.
    exists i. split; [lia|done]. }
  destruct (Z.eqb_spec (bits mod 32) 0) as [Ez|Ez].
  { do 2 f_equal. symmetry. apply some_bit_false; [done|]. intros i Hi. apply Hlow. lia. }
  destruct (Hlast (bits / 32)) as (x & -> & Hx & Hxb); [lia|lia|]. do 2 f_equal.
  apply eq_true_iff_eq. rewrite negb_true_iff, Z.eqb_neq, some_bit_true, word_nonzero by (done || by apply land_range).
  split.
  - intros (j & Hj & Hbit). rewrite Z.land_spec, last_word_mask_bits, Hxb in Hbit by (done || lia).
    apply andb_prop in Hbit as [HP Hlt]. apply Z.ltb_lt in Hlt. exists (32 * (bits / 32) + j). split; [lia|done].
  - intros (i & Hi & HP). destruct (Z.lt_ge_cases i (32 * (bits / 32))); [by rewrite Hlow in HP by lia|].
    exists (i - 32 * (bits / 32)). split; [lia|].
    rewrite Z.land_spec, last_word_mask_bits, Hxb by (done || lia).
    replace (32 * (bits / 32) + (i - 32 * (bits / 32))) with i by lia.
    rewrite HP. destruct (Z.ltb_spec i bits); [done|lia].
Qed.

End Ops.

Section Predicates.
Context (m : mem) (bits : Z) (a1 a2 : loc) (w1 w2 : list Z).
Context (B1 : is_bitmap m a1 w1 bits) (B2 : is_bitmap m a2 w2 bits).

Lemma rd_in a w q : is_bitmap m a w bits → 0 ≤ q → 32 * q < bits → rd a q m = Done (word w q, m).
Proof. intros [Ha _ Hl _] Hq Hlt. apply rd_word; [done|]. lia. Qed.

(** A word function whose bits are [P]. *)
Definition word_fun (P : Z → bool) (f : Z → M mem Z) : Prop :=
  ∀ q, 0 ≤ q → 32 * q < bits → ∃ x, f q m = Done (x, m) ∧ 0 ≤ x < 2 ^ 32 ∧
    ∀ j, 0 ≤ j < 32 → Z.testbit x j = P (32 * q + j).

Lemma some_word_fun P f : word_fun P f → some_word bits (nonzero f) f m = Done (some_bit P bits, m).
Proof.
  intros Hf. destruct B1 as [_ _ _ Hb]. apply some_word_spec; [lia| |done]. intros q Hq Hle.
  destruct (Hf q) as (x & E & Hx & Hj); [lia|lia|]. exists (negb (x =? 0)). split.
  - unfold nonzero. run_simpl. by rewrite E.
  - rewrite negb_true_iff, Z.eqb_neq, word_nonzero by done.
    split; intros (j & Hjr & Ht); exists j; (split; [done|]); by rewrite Hj in *.
Qed.

Lemma rd_fun a w : is_bitmap m a w bits → word_fun (bit w) (rd a).
Proof.
  intros B q Hq Hlt. exists (word w q). split; [by apply rd_in|]. split; [apply word_range, B|].
  intros j Hj. by rewrite bit_split.
Qed.

Lemma not_fun : word_fun (λ i, negb (bit w1 i)) (not_at a1).
Proof.
  intros q Hq Hlt. exists (not_word (word w1 q)). unfold not_at. run_simpl.
  rewrite (rd_in a1 w1) by done. split; [done|].
  destruct (not_word_word (word w1 q)) as [Hr Hb]; [apply word_range, B1|]. split; [done|].
  intros j Hj. by rewrite Hb, bit_split.
Qed.

Lemma at2_fun op f :
  (∀ x y, 0 ≤ x < 2 ^ 32 → 0 ≤ y < 2 ^ 32 → 0 ≤ op x y < 2 ^ 32 ∧
     ∀ j, 0 ≤ j < 32 → Z.testbit (op x y) j = f (Z.testbit x j) (Z.testbit y j)) →
  word_fun (λ i, f (bit w1 i) (bit w2 i)) (at2 op a1 a2).
Proof.
  intros Hop q Hq Hlt. exists (op (word w1 q) (word w2 q)). unfold at2. run_simpl.
  rewrite (rd_in a1 w1), (rd_in a2 w2) by done. split; [done|].
  destruct (Hop (word w1 q) (word w2 q)) as [Hr Hb]; [apply word_range, B1|apply word_range, B2|].
  split; [done|]. intros j Hj. by rewrite Hb, !bit_split.
Qed.

Lemma equal_word :
  some_word bits (differ a1 a2) (at2 Z.lxor a1 a2) m =
  Done (some_bit (λ i, xorb (bit w1 i) (bit w2 i)) bits, m).
Proof.
  destruct B1 as [_ Hw1 _ Hb]. pose proof (bm_words _ _ _ _ B2) as Hw2.
  apply some_word_spec; [lia| |by apply at2_fun; intros; apply lxor_word].
  intros q Hq Hle. exists (negb (word w1 q =? word w2 q)). split.
  - unfold differ. run_simpl. rewrite (rd_in a1 w1), (rd_in a2 w2) by (done || lia). done.
  - rewrite negb_true_iff, Z.eqb_neq. split.
    + intros Hne. destruct (lxor_word (word w1 q) (word w2 q)) as [Hr Hx]; [by apply word_range..|].
      assert (Hx0 : Z.lxor (word w1 q) (word w2 q) ≠ 0) by (rewrite Z.lxor_eq_0_iff; done).
      apply word_nonzero in Hx0 as (j & Hj & Ht); [|done]. exists j. split; [done|].
      by rewrite !bit_split, <- Hx.
    + intros (j & Hj & Hx) E. rewrite !bit_split, E, xorb_nilpotent in Hx by done. done.
Qed.

Lemma bool2Z_neg_iff (P : Z → bool) (Q : Prop) : (some_bit P bits = false ↔ Q) →
  ∃ b, Done (bool2Z (negb (some_bit P bits)), m) = Done (bool2Z b, m) ∧ (b = true ↔ Q).
Proof. intros H. exists (negb (some_bit P bits)). by rewrite negb_true_iff. Qed.

Lemma weight_loop_spec n k w : 0 ≤ k → 32 * (k + Z.of_nat n) ≤ bits → 0 ≤ w → w + 32 * Z.of_nat n < 2 ^ 31 →
  weight_loop n a1 k w m = Done (w + count (bit w1) (32 * k) (32 * n), m).
Proof.
  revert k w. induction n as [|n IH]; intros k w Hk Hn Hw Hs; cbn [weight_loop].
  { rewrite Nat.mul_0_r. cbn. by rewrite Z.add_0_r. }
  run_simpl. rewrite (rd_in a1 w1) by (done || lia). cbn beta iota.
  rewrite hweight32_spec by apply word_range, B1. unfold weight.
  pose proof (count_range (Z.testbit (word w1 k)) 0 32). rewrite s32_small by lia.
  rewrite IH by lia. do 2 f_equal. rewrite <- Z.add_assoc. f_equal.
  replace (32 * S n)%nat with (32 + 32 * n)%nat by lia. rewrite count_app. f_equal.
  - rewrite <- (Z.add_0_l (32 * k)), count_shift. apply count_ext. intros j Hj.
    rewrite Z.add_comm. symmetry. apply bit_split. lia.
  - f_equal. lia.
Qed.

Lemma bitmap_weight_spec : __bitmap_weight a1 bits m = Done (count (bit w1) 0 (Z.to_nat bits), m).
Proof.
  destruct B1 as [_ Hw1 _ Hb]. unfold __bitmap_weight. rewrite quot_div, rem_mod by lia.
  pose proof (Z.div_mod bits 32 ltac:(lia)). pose proof (Z.mod_pos_bound bits 32 ltac:(lia)).
  pose proof (Z.div_pos bits 32 ltac:(lia) ltac:(lia)).
  run_simpl. rewrite weight_loop_spec by lia. cbn beta iota. rewrite Z.add_0_l, Z.mul_0_r.
  pose proof (count_range (bit w1) 0 (32 * Z.to_nat (bits / 32))).
  destruct (Z.eqb_spec (bits mod 32) 0) as [Ez|Ez]; [do 3 f_equal; lia|].
  rewrite (rd_in a1 w1) by (done || lia). cbn beta iota.
  rewrite hweight32_spec by by apply land_range, word_range. unfold weight.
  set (x := Z.land _ _). pose proof (count_range (Z.testbit x) 0 32). rewrite s32_small by lia.
  do 2 f_equal. replace (Z.to_nat bits) with (32 * Z.to_nat (bits / 32) + Z.to_nat (bits mod 32))%nat by lia.
  rewrite count_app. f_equal.
  replace 32%nat with (Z.to_nat (bits mod 32) + (32 - Z.to_nat (bits mod 32)))%nat at 1 by lia.
  rewrite count_app. rewrite (count_none _ (0 + _)).
  2: { intros j Hj. unfold x. rewrite Z.land_spec, last_word_mask_bits by lia.
       destruct (Z.ltb_spec (32 * (bits / 32) + j) bits); [lia|]. apply andb_false_r. }
  rewrite Z.add_0_r.
  replace (0 + Z.of_nat (32 * Z.to_nat (bits / 32))) with (0 + 32 * (bits / 32)) by lia.
  rewrite count_shift. apply count_ext. intros j Hj. unfold x.
  rewrite Z.land_spec, last_word_mask_bits by lia.
  destruct (Z.ltb_spec (32 * (bits / 32) + j) bits); [|lia].
  rewrite andb_true_r, Z.add_comm. symmetry. apply bit_split. lia.
Qed.

End Predicates.

(** [__bitmap_empty], [__bitmap_full], [__bitmap_equal],
    [__bitmap_intersects] and [__bitmap_subset] decide the property they name of
    the first [bits] bits, whatever the unused bits of the last word are, and
    [__bitmap_weight] counts the bits set; none of them reads outside the
    arrays or changes them. *)
Theorem bitmap_predicates (m : mem) (bits : Z) (a1 a2 : loc) (w1 w2 : list Z) :
  is_bitmap m a1 w1 bits → is_bitmap m a2 w2 bits →
  (∃ b, __bitmap_empty a1 bits m = Done (bool2Z b, m) ∧
     (b = true ↔ ∀ i, 0 ≤ i < bits → bit w1 i = false)) ∧
  (∃ b, __bitmap_full a1 bits m = Done (bool2Z b, m) ∧
     (b = true ↔ ∀ i, 0 ≤ i < bits → bit w1 i = true)) ∧
  (∃ b, __bitmap_equal a1 a2 bits m = Done (bool2Z b, m) ∧
     (b = true ↔ ∀ i, 0 ≤ i < bits → bit w1 i = bit w2 i)) ∧
  (∃ b, __bitmap_intersects a1 a2 bits m = Done (bool2Z b, m) ∧
     (b = true ↔ ∃ i, 0 ≤ i < bits ∧ bit w1 i = true ∧ bit w2 i = true)) ∧
  (∃ b, __bitmap_subset a1 a2 bits m = Done (bool2Z b, m) ∧
     (b = true ↔ ∀ i, 0 ≤ i < bits → bit w1 i = true → bit w2 i = true)) ∧
  __bitmap_weight a1 bits m = Done (count (bit w1) 0 (Z.to_nat bits), m).
Proof.
  intros B1 B2. assert (Hb : 0 ≤ bits) by (destruct B1; lia).
  unfold __bitmap_empty, __bitmap_full, __bitmap_equal, __bitmap_intersects, __bitmap_subset. run_simpl.
  rewrite (some_word_fun m bits a1 w1 B1 (bit w1)) by by apply rd_fun.
  rewrite (some_word_fun m bits a1 w1 B1 _ (not_at a1)) by by apply not_fun.
  rewrite (some_word_fun m bits a1 w1 B1 _ (at2 Z.land a1 a2)) by exact (at2_fun m bits a1 a2 w1 w2 B1 B2 Z.land andb land_word).
  rewrite (some_word_fun m bits a1 w1 B1 _ (at2 and_not a1 a2)) by exact (at2_fun m bits a1 a2 w1 w2 B1 B2 and_not (λ x y, x && negb y) and_not_word).
  rewrite (equal_word m bits a1 a2 w1 w2) by done. cbn beta iota.
  split; [apply bool2Z_neg_iff; by rewrite some_bit_false|].
  split; [apply bool2Z_neg_iff; rewrite some_bit_false by done; by setoid_rewrite negb_false_iff|].
  split; [apply bool2Z_neg_iff; rewrite some_bit_false by done|].
  { split; intros H i Hi; specialize (H i Hi); [by apply xorb_eq|by rewrite H, xorb_nilpotent]. }
  split; [eexists; split; [done|]; rewrite some_bit_true by done; by setoid_rewrite andb_true_iff|].
  split; [apply bool2Z_neg_iff; rewrite some_bit_false by done|by apply bitmap_weight_spec].
  split; intros H i Hi; specialize (H i Hi).
  - intros E. rewrite E in H. by apply negb_false_iff.
  - destruct (bit w1 i); [|done]. by rewrite H.
Qed.

Lemma u32_shiftl_bits x n j : 0 ≤ n → 0 ≤ j < 32 →
  Z.testbit (u32 (Z.shiftl x n)) j = (n <=? j) && Z.testbit x (j - n).
Proof.
  intros Hn Hj. unfold u32, wrap. rewrite Z.mod_pow2_bits_low, Z.shiftl_spec by lia.
  destruct (Z.leb_spec n j); [done|]. rewrite Z.testbit_neg_r by lia. done.
Qed.

Lemma shiftr_range x n : 0 ≤ x < 2 ^ 32 → 0 ≤ n → 0 ≤ Z.shiftr x n < 2 ^ 32.
Proof.
  intros Hx Hn. rewrite Z.shiftr_div_pow2 by done.
  assert (0 < 2 ^ n) by (apply Z.pow_pos_nonneg; lia).
  split; [apply Z.div_pos; lia|]. apply Z.div_lt_upper_bound; [done|]. nia.
Qed.

(** [memset] of the words [k..k+n) *)
Lemma memset_words_spec (m : mem) (dst : loc) w k n : 0 ≤ k → 0 ≤ n → k + n ≤ Z.of_nat (length w) →
  ∃ w', memset_words dst k n (<[dst := w]> m) = Done (tt, <[dst := w']> m) ∧ length w' = length w ∧
    ∀ i, 0 ≤ i → word w' i = if (k <=? i) && (i <? k + n) then 0 else word w i.
Proof.
  intros Hk Hn Hl.
  destruct (for_up_spec m dst w (k + n) (λ _, 0) (λ k, wr dst k 0) (Z.to_nat n) k w) as (w' & E & Hl' & Hw');
    [|done|lia|done|done|done|].
  - intros j w' Hj Hl' _. apply wr_done. lia.
  - exists w'. split; [done|]. split; [done|]. intros i Hi. rewrite Hw' by done.
    by replace (k + Z.of_nat (Z.to_nat n)) with (k + n) by lia.
Qed.

Section Whole.
Context (m : mem) (bits : Z) (dst src : loc) (wd ws : list Z).
Context (Bd : is_bitmap m dst wd bits) (Bs : is_bitmap m src ws bits).
Let lim := BITS_TO_LONGS bits.
Let left := bits mod 32.

Lemma lim_facts : 0 ≤ bits ∧ bits ≤ 32 * lim ∧ 32 * lim < bits + 32 ∧
  lim ≤ Z.of_nat (length wd) ∧ lim ≤ Z.of_nat (length ws) ∧
  (left ≠ 0 → bits = 32 * (lim - 1) + left) ∧ (left = 0 → bits = 32 * lim) ∧ 0 ≤ left < 32.
Proof.
  destruct Bd as [_ _ Hld Hb], Bs as [_ _ Hls _].
  destruct (bits_to_longs_bound bits (Z.of_nat (length wd))) as [? _]; [lia|done|].
  destruct (bits_to_longs_bound bits (Z.of_nat (length ws))) as [? _]; [lia|done|].
  unfold lim, left in *. rewrite bits_to_longs in * by lia.
  pose proof (Z.div_mod bits 32 ltac:(lia)). pose proof (Z.mod_pos_bound bits 32 ltac:(lia)).
  pose proof (Z.div_mod (bits + 31) 32 ltac:(lia)). pose proof (Z.mod_pos_bound (bits + 31) 32 ltac:(lia)).
  lia.
Qed.

Definition mword (q : Z) : Z :=
  if negb (left =? 0) && (q =? lim - 1) then Z.land (word ws q) (low_mask left) else word ws q.

Lemma mword_range q : 0 ≤ mword q < 2 ^ 32.
Proof.
  unfold mword. assert (0 ≤ word ws q < 2 ^ 32) by apply word_range, Bs.
  destruct (negb _ && _); [by apply land_range|done].
Qed.

Lemma mword_bits q j : 0 ≤ q < lim → 0 ≤ j < 32 →
  Z.testbit (mword q) j = bit ws (32 * q + j) && (32 * q + j <? bits).
Proof.
  intros Hq Hj. destruct lim_facts as (Hb & H1 & H2 & _ & _ & H3 & H4 & H5).
  unfold mword. rewrite bit_split by done.
  destruct (Z.eqb_spec left 0) as [E|E]; cbn [negb andb].
  - destruct (Z.ltb_spec (32 * q + j) bits); [by rewrite andb_true_r|lia].
  - destruct (Z.eqb_spec q (lim - 1)) as [->|Hne].
    + rewrite Z.land_spec, last_mask_bits by lia. f_equal.
      destruct (Z.ltb_spec j left), (Z.ltb_spec (32 * (lim - 1) + j) bits); done || lia.
    + destruct (Z.ltb_spec (32 * q + j) bits); [by rewrite andb_true_r|lia].
Qed.

Lemma rd_masked_alias w' q : length w' = length wd → word w' q = word wd q → 0 ≤ q < lim →
  rd_masked src lim left q (<[dst := w']> m) = Done (mword q, <[dst := w']> m).
Proof.
  intros Hl Hq Hr. pose proof lim_facts. unfold rd_masked. run_simpl.
  rewrite (rd_alias m dst wd w' src ws); [done|apply Bd|apply Bs|done|done|lia].
Qed.

(** The value [v] written to word [q] of the destination and masked. *)
Definition mask_word (q v : Z) : Z :=
  if negb (left =? 0) && (q =? lim - 1) then Z.land v (low_mask left) else v.

Lemma wr_mask w' q v : length w' = length wd → 0 ≤ q < lim →
  (wr dst q v ;; mask_last dst lim left q) (<[dst := w']> m) =
  Done (tt, <[dst := <[Z.to_nat q := mask_word q v]> w']> m).
Proof.
  intros Hl Hq. pose proof lim_facts. unfold mask_last, mask_word. run_simpl.
  rewrite wr_done by lia. cbn beta iota. destruct (negb _ && _); [|done].
  rewrite (rd_word _ _ (<[Z.to_nat q := v]> w')); [|by rewrite lookup_insert_eq|rewrite length_insert; lia].
  cbn beta iota. rewrite wr_done by (rewrite length_insert; lia).
  rewrite list_insert_insert_eq, word_insert_eq by lia. done.
Qed.

Lemma mask_word_bits q v j : 0 ≤ q < lim → 0 ≤ j < 32 → 32 * q + j < bits →
  Z.testbit (mask_word q v) j = Z.testbit v j.
Proof.
  intros Hq Hj Hi. pose proof lim_facts as (_ & _ & _ & _ & _ & H3 & _ & H5). unfold mask_word.
  destruct (Z.eqb_spec left 0); cbn [negb andb]; [done|].
  destruct (Z.eqb_spec q (lim - 1)) as [->|]; [|done].
  rewrite Z.land_spec, last_mask_bits by lia. destruct (Z.ltb_spec j left); [by rewrite andb_true_r|lia].
Qed.

Lemma mask_word_range q v : 0 ≤ v < 2 ^ 32 → 0 ≤ mask_word q v < 2 ^ 32.
Proof. intros Hv. unfold mask_word. destruct (negb _ && _); [by apply land_range|done]. Qed.

(** What remains after the loop over the words that receive bits. *)
Lemma finish_shift (loop : M mem unit) (f : Z → bool) w1 z0 off (g : Z → Z) k0 :
  loop m = Done (tt, <[dst := w1]> m) → length w1 = length wd →
  (∀ i, 0 ≤ i → word w1 i = if (k0 <=? i) && (i <? k0 + (lim - off)) then g i else word wd i) →
  0 ≤ off ≤ lim → 0 ≤ z0 → z0 + off ≤ lim → 0 ≤ k0 → k0 + (lim - off) ≤ lim →
  (∀ i, 0 ≤ i < lim → (k0 <= i < k0 + (lim - off)) ∧ (off = 0 ∨ i < z0 ∨ z0 + off ≤ i)
     ∨ z0 <= i < z0 + off ∧ off ≠ 0) →
  (∀ i, 0 ≤ i → 0 ≤ g i < 2 ^ 32) →
  (∀ q j, k0 ≤ q < k0 + (lim - off) → 0 ≤ j < 32 → 32 * q + j < bits → Z.testbit (g q) j = f (32 * q + j)) →
  (∀ q j, z0 ≤ q < z0 + off → 0 ≤ j < 32 → 32 * q + j < bits → f (32 * q + j) = false) →
  computes (loop ;; if off =? 0 then mret tt else memset_words dst z0 off) m dst bits f.
Proof.
  intros E Hl1 Hw1 Hoff Hz0 Hz1 Hk0 Hk1 Hcov Hg Hbit Hzero. pose proof lim_facts as LF.
  assert (Hw2 : ∃ w2, (if off =? 0 then mret tt else memset_words dst z0 off) (<[dst := w1]> m) =
      Done (tt, <[dst := w2]> m) ∧ length w2 = length w1 ∧
      ∀ i, 0 ≤ i → word w2 i = if (z0 <=? i) && (i <? z0 + off) then 0 else word w1 i).
  { destruct (Z.eqb_spec off 0) as [->|]; [|apply memset_words_spec; lia].
    exists w1. split; [done|]. split; [done|]. intros i Hi.
    destruct (Z.leb_spec z0 i), (Z.ltb_spec i (z0 + 0)); done || lia. }
  destruct Hw2 as (w2 & E2 & Hl2 & Hw2). exists wd, w2. split; [apply Bd|]. split.
  { run_simpl. rewrite E. cbn beta iota. exact E2. }
  split; [congruence|]. split.
  - apply words_ok_word. intros k Hk. rewrite Hw2, Hw1 by lia.
    destruct ((z0 <=? k) && _); [lia|]. destruct (_ && _); [apply Hg; lia|apply word_range, Bd].
  - intros i Hi. destruct (bit_index i) as (q & j & -> & Hq & Hj); [lia|].
    rewrite bit_split, Hw2, Hw1 by lia. assert (q < lim) by lia.
    destruct (Hcov q) as [[Hin Hnz]|[Hz Hne]]; [lia| |].
    + destruct (Z.leb_spec z0 q), (Z.ltb_spec q (z0 + off)), (Z.leb_spec k0 q),
        (Z.ltb_spec q (k0 + (lim - off))); try lia; cbn [andb]; apply Hbit; lia.
    + destruct (Z.leb_spec z0 q), (Z.ltb_spec q (z0 + off)); try lia. cbn [andb].
      rewrite Z.bits_0. symmetry. apply Hzero; lia.
Qed.

Section Shift.
Context (shift : Z) (Hshift : 0 ≤ shift ≤ bits).
Let off := shift / 32.
Let rem := shift mod 32.

Lemma shift_facts : shift = 32 * off + rem ∧ 0 ≤ rem < 32 ∧ 0 ≤ off ≤ lim.
Proof.
  pose proof lim_facts. unfold off, rem.
  pose proof (Z.div_mod shift 32 ltac:(lia)). pose proof (Z.mod_pos_bound shift 32 ltac:(lia)).
  pose proof (Z.div_pos shift 32 ltac:(lia) ltac:(lia)). lia.
Qed.

(** The word that receives the bits of two adjacent words. *)
Definition right_word (k : Z) : Z :=
  Z.lor (u32 (Z.shiftl (if (rem =? 0) || (lim <=? off + k + 1) then 0 else mword (off + k + 1))
                (32 - rem)))
        (Z.shiftr (mword (off + k)) rem).
Definition left_word (k : Z) : Z :=
  Z.lor (Z.shiftr (if negb (rem =? 0) && (0 <? k) then word ws (k - 1) else 0) (32 - rem))
        (u32 (Z.shiftl (mword k) rem)).

Lemma right_word_range k : 0 ≤ right_word k < 2 ^ 32.
Proof.
  pose proof shift_facts. apply lor_range; [apply u32_range|]. apply shiftr_range; [apply mword_range|lia].
Qed.

Lemma left_word_range k : 0 ≤ left_word k < 2 ^ 32.
Proof.
  pose proof shift_facts. apply lor_range; [|apply u32_range]. apply shiftr_range; [|lia].
  destruct (negb _ && _); [apply word_range, Bs|lia].
Qed.

Lemma right_word_bits k j : 0 ≤ k < lim - off → 0 ≤ j < 32 →
  Z.testbit (right_word k) j =
    (32 * k + j + shift <? bits) && bit ws (32 * k + j + shift).
Proof.
  intros Hk Hj. destruct shift_facts as (Hs & Hr & Ho). pose proof lim_facts as LF.
  unfold right_word. rewrite Z.lor_spec, Z.shiftr_spec, u32_shiftl_bits by lia.
  rewrite andb_comm. replace (32 * k + j + shift) with (32 * (off + k) + (j + rem)) by lia.
  destruct (Z.lt_ge_cases (j + rem) 32) as [Hlt|Hge].
  - rewrite (mword_bits (off + k)) by lia. destruct (Z.leb_spec (32 - rem) j); [lia|].
    by rewrite andb_false_r, andb_comm.
  - rewrite (testbit_high (mword (off + k))) by (apply mword_range || lia). rewrite orb_false_r.
    destruct (Z.leb_spec (32 - rem) j); [|lia]. rewrite andb_true_r.
    destruct (Z.eqb_spec rem 0); [lia|]. cbn [orb].
    destruct (Z.leb_spec lim (off + k + 1)).
    + rewrite Z.bits_0. destruct (Z.ltb_spec (32 * (off + k) + (j + rem)) bits); [lia|done].
    + rewrite mword_bits by lia. rewrite andb_comm.
      by replace (32 * (off + k + 1) + (j - (32 - rem))) with (32 * (off + k) + (j + rem)) by lia.
Qed.

Lemma left_word_bits k j : 0 ≤ k < lim - off → 0 ≤ j < 32 → 32 * (k + off) + j < bits →
  Z.testbit (left_word k) j =
    (shift <=? 32 * (k + off) + j) && bit ws (32 * (k + off) + j - shift).
Proof.
  intros Hk Hj Hi. destruct shift_facts as (Hs & Hr & Ho). pose proof lim_facts as LF.
  unfold left_word. rewrite Z.lor_spec, Z.shiftr_spec, u32_shiftl_bits by lia.
  replace (32 * (k + off) + j - shift) with (32 * k + (j - rem)) by lia.
  destruct (Z.leb_spec rem j) as [Hle|Hlt].
  - cbn [andb]. rewrite mword_bits by lia.
    assert (Z.testbit (if negb (rem =? 0) && (0 <? k) then word ws (k - 1) else 0) (j + (32 - rem)) = false) as ->.
    { apply testbit_high; [|lia]. destruct (negb _ && _); [apply word_range, Bs|lia]. }
    destruct (Z.leb_spec shift (32 * (k + off) + j)); [|lia].
    destruct (Z.ltb_spec (32 * k + (j - rem)) bits); [|lia]. by rewrite andb_true_r.
  - cbn [andb]. rewrite orb_false_r. destruct (Z.eqb_spec rem 0); [lia|]. cbn [negb andb].
    destruct (Z.ltb_spec 0 k).
    + rewrite <- bit_split by lia. destruct (Z.leb_spec shift (32 * (k + off) + j)); [|lia]. cbn [andb].
      f_equal. lia.
    + rewrite Z.bits_0. destruct (Z.leb_spec shift (32 * (k + off) + j)); [lia|done].
Qed.

Lemma shift_right_spec :
  computes (__bitmap_shift_right dst src shift bits) m dst bits
    (λ i, (i + shift <? bits) && bit ws (i + shift)).
Proof.
  destruct shift_facts as (Hs & Hr & Ho). pose proof lim_facts as LF.
  unfold __bitmap_shift_right. rewrite !rem_mod, quot_div by lia. fold lim left off rem.
  destruct (for_up_spec m dst wd (lim - off) (λ k, mask_word k (right_word k))
    (λ k,
      upper ← (if (rem =? 0) || (lim <=? off + k + 1) then mret 0 else rd_masked src lim left (off + k + 1));
      lower ← rd_masked src lim left (off + k);
      wr dst k (Z.lor (u32 (Z.shiftl upper (BITS_PER_LONG - rem))) (Z.shiftr lower rem)) ;;
      mask_last dst lim left k) (Z.to_nat (lim - off)) 0 wd) as (w1 & E & Hl1 & Hw1);
    [|lia|lia|lia|done|done|].
  { intros j w' Hj Hl' Hag.
    assert (Hup : (if (rem =? 0) || (lim <=? off + j + 1) then mret 0 else rd_masked src lim left (off + j + 1))
        (<[dst := w']> m) = Done (if (rem =? 0) || (lim <=? off + j + 1) then 0 else mword (off + j + 1), <[dst := w']> m)).
    { destruct (Z.leb_spec lim (off + j + 1)); [by rewrite orb_true_r|].
      destruct (rem =? 0); [done|]. cbn [orb]. apply rd_masked_alias; [done|apply Hag; lia|lia]. }
    cbn beta. rewrite <- (wr_mask w' j (right_word j)) by (done || lia).
    unfold mbind at 1, M_bind at 1. rewrite Hup. cbn beta iota.
    unfold mbind at 1, M_bind at 1. rewrite rd_masked_alias by (done || lia || (apply Hag; lia)). done. }
  rewrite insert_id in E by apply Bd.
  eapply (finish_shift _ _ w1 (lim - off) off (λ k, mask_word k (right_word k)) 0); [exact E|done|..]; try lia.
  - intros i Hi. rewrite Hw1 by done. by replace (0 + Z.of_nat (Z.to_nat (lim - off))) with (0 + (lim - off)) by lia.
  - intros i _. apply mask_word_range, right_word_range.
  - intros q j Hq Hj Hi. rewrite mask_word_bits by lia. apply right_word_bits; lia.
Qed.

Lemma shift_left_spec :
  computes (__bitmap_shift_left dst src shift bits) m dst bits
    (λ i, (shift <=? i) && bit ws (i - shift)).
Proof.
  destruct shift_facts as (Hs & Hr & Ho). pose proof lim_facts as LF.
  unfold __bitmap_shift_left. rewrite !rem_mod, quot_div by lia. fold lim left off rem.
  destruct (for_down_spec m dst wd (lim - off) off (λ q, mask_word q (left_word (q - off)))
    (λ k,
      lower ← (if negb (rem =? 0) && (0 <? k) then rd src (k - 1) else mret 0);
      upper ← rd_masked src lim left k;
      wr dst (k + off) (Z.lor (Z.shiftr lower (BITS_PER_LONG - rem)) (u32 (Z.shiftl upper rem))) ;;
      mask_last dst lim left (k + off)) (Z.to_nat (lim - off)) wd) as (w1 & E & Hl1 & Hw1);
    [|lia|lia|lia|done|done|].
  { intros j w' Hj Hl' Hag. replace (j + off - off) with j by lia.
    assert (Hlo : (if negb (rem =? 0) && (0 <? j) then rd src (j - 1) else mret 0)
        (<[dst := w']> m) = Done (if negb (rem =? 0) && (0 <? j) then word ws (j - 1) else 0, <[dst := w']> m)).
    { destruct (Z.ltb_spec 0 j); [|by rewrite andb_false_r].
      destruct (rem =? 0); [done|]. cbn [negb andb].
      apply (rd_alias m dst wd); [apply Bd|apply Bs|done|apply Hag; lia|lia]. }
    cbn beta. rewrite <- (wr_mask w' (j + off) (left_word j)) by (done || lia).
    unfold mbind at 1, M_bind at 1. rewrite Hlo. cbn beta iota.
    unfold mbind at 1, M_bind at 1. rewrite rd_masked_alias by (done || lia || (apply Hag; lia)). done. }
  rewrite insert_id in E by apply Bd.
  eapply (finish_shift _ _ w1 0 off (λ q, mask_word q (left_word (q - off))) off); [exact E|done|..]; try lia.
  - intros i Hi. rewrite Hw1 by done. by replace (Z.of_nat (Z.to_nat (lim - off)) + off) with (off + (lim - off)) by lia.
  - intros i _. apply mask_word_range, left_word_range.
  - intros q j Hq Hj Hi. rewrite mask_word_bits by lia. rewrite left_word_bits by lia.
    by replace (q - off + off) with q by lia.
Qed.

End Shift.

Lemma complement_spec :
  computes (__bitmap_complement dst src bits) m dst bits (λ i, negb (bit ws i)).
Proof.
  pose proof lim_facts as LF. unfold __bitmap_complement. rewrite rem_mod, quot_div by lia. fold left.
  assert (Hdm : bits = 32 * (bits / 32) + left) by (apply Z.div_mod; lia).
  pose proof (Z.div_pos bits 32 ltac:(lia) ltac:(lia)). set (q0 := bits / 32) in *.
  destruct (for_up_spec m dst wd q0 (λ k, not_word (word ws k)) (λ k, x ← rd src k; wr dst k (not_word x))
    (Z.to_nat q0) 0 wd) as (w1 & E & Hl1 & Hw1); [|lia|lia|lia|done|done|].
  { intros j w' Hj Hl' Hag. run_simpl. rewrite (rd_alias m dst wd w' src ws).
    - apply wr_done. lia.
    - apply Bd.
    - apply Bs.
    - done.
    - apply Hag. lia.
    - lia. }
  rewrite insert_id in E by apply Bd. rewrite Z.add_0_l, Z2Nat.id in Hw1 by lia.
  assert (Hnr : ∀ k, 0 ≤ not_word (word ws k) < 2 ^ 32) by (intros; apply not_word_range, word_range, Bs).
  run_simpl. destruct (Z.eqb_spec left 0) as [El|El].
  - exists wd, w1. split; [apply Bd|]. split; [by rewrite E|]. split; [done|]. split.
    + apply words_ok_word. intros k Hk. rewrite Hw1 by lia. destruct (_ && _); [done|apply word_range, Bd].
    + intros i Hi. destruct (bit_index i) as (k & j & -> & Hk & Hj); [lia|].
      rewrite !bit_split, Hw1 by lia. destruct (Z.leb_spec 0 k), (Z.ltb_spec k q0); try lia.
      by apply not_word_bits.
  - exists wd, (<[Z.to_nat q0 := Z.land (not_word (word ws q0)) (BITMAP_LAST_WORD_MASK bits)]> w1).
    split; [apply Bd|]. split.
    { rewrite E. cbn beta iota. rewrite (rd_alias m dst wd w1 src ws).
      - apply wr_done. lia.
      - apply Bd.
      - apply Bs.
      - done.
      - rewrite Hw1 by lia. destruct (Z.leb_spec 0 q0), (Z.ltb_spec q0 q0); done || lia.
      - lia. }
    split; [by rewrite length_insert|]. split.
    + apply words_ok_word. intros k Hk. rewrite length_insert in Hk.
      destruct (decide (k = q0)) as [->|Hne]; [rewrite word_insert_eq by lia; by apply land_range|].
      rewrite word_insert_ne, Hw1 by lia. destruct (_ && _); [done|apply word_range, Bd].
    + intros i Hi. destruct (bit_index i) as (k & j & -> & Hk & Hj); [lia|]. rewrite !bit_split by lia.
      destruct (decide (k = q0)) as [->|Hne].
      * rewrite word_insert_eq, Z.land_spec, last_word_mask_bits, not_word_bits by (done || lia).
        fold q0. destruct (Z.ltb_spec (32 * q0 + j) bits); [by rewrite andb_true_r|lia].
      * rewrite word_insert_ne, Hw1 by lia. destruct (Z.leb_spec 0 k), (Z.ltb_spec k q0); try lia.
        by apply not_word_bits.
Qed.

End Whole.

(** C16: the word loops compute their operation on every one of the first
    [bits] bits: [__bitmap_and], [__bitmap_or], [__bitmap_xor],
    [__bitmap_andnot] and [__bitmap_complement] bit by bit, and the shifts, of up
    to [bits] positions, move bit [i + shift] to [i] or back and shift zeros
    in.  The destination may be the same array as a source: the loops then read
    no word they have already overwritten. *)
Theorem bitmap_ops_bitwise (m : mem) (bits shift : Z) (dst b1 b2 : loc) (wd w1 w2 : list Z) :
  is_bitmap m dst wd bits → is_bitmap m b1 w1 bits → is_bitmap m b2 w2 bits → 0 ≤ shift ≤ bits →
  computes (__bitmap_and dst b1 b2 bits) m dst bits (λ i, bit w1 i && bit w2 i) ∧
  computes (__bitmap_or dst b1 b2 bits) m dst bits (λ i, bit w1 i || bit w2 i) ∧
  computes (__bitmap_xor dst b1 b2 bits) m dst bits (λ i, xorb (bit w1 i) (bit w2 i)) ∧
  computes (__bitmap_andnot dst b1 b2 bits) m dst bits (λ i, bit w1 i && negb (bit w2 i)) ∧
  computes (__bitmap_complement dst b1 bits) m dst bits (λ i, negb (bit w1 i)) ∧
  computes (__bitmap_shift_right dst b1 shift bits) m dst bits
    (λ i, (i + shift <? bits) && bit w1 (i + shift)) ∧
  computes (__bitmap_shift_left dst b1 shift bits) m dst bits
    (λ i, (shift <=? i) && bit w1 (i - shift)).
Proof.
  intros Bd B1 B2 Hs.
  split; [exact (words_op2_spec m bits Z.land andb dst b1 b2 wd w1 w2 Bd B1 B2 land_word)|].
  split; [exact (words_op2_spec m bits Z.lor orb dst b1 b2 wd w1 w2 Bd B1 B2 lor_word)|].
  split; [exact (words_op2_spec m bits Z.lxor xorb dst b1 b2 wd w1 w2 Bd B1 B2 lxor_word)|].
  split; [exact (words_op2_spec m bits and_not (λ x y, x && negb y) dst b1 b2 wd w1 w2 Bd B1 B2 and_not_word)|].
  split; [by apply complement_spec with wd|].
  split; [by apply shift_right_spec with wd|by apply shift_left_spec with wd].
Qed.

Definition demo_mem : mem := {[ 1%positive := [0xF0; 0xFFFFFFFF; 3]; 2%positive := [0x3C; 7; 9] ]}.

Lemma demo_bitmaps : is_bitmap demo_mem 1%positive [0xF0; 0xFFFFFFFF; 3] 70 ∧ is_bitmap demo_mem 2%positive [0x3C; 7; 9] 70.
Proof.
  split; (split; [vm_compute; reflexivity| |cbn; lia|lia]);
    repeat (apply list.Forall_cons; split; [lia|]); by apply list.Forall_nil.
Qed.

(** In place: the first array is shifted by 37 positions. *)
Lemma bitmap_ops_bitwise_witness :
  computes (__bitmap_shift_left 1%positive 1%positive 37 70) demo_mem 1%positive 70
    (λ i, (37 <=? i) && bit [0xF0; 0xFFFFFFFF; 3] (i - 37)) ∧
  __bitmap_shift_left 1%positive 1%positive 37 70 demo_mem = Done (tt, <[1%positive := [0; 0x1E00; 0x20]]> demo_mem).
Proof.
  split; [|vm_compute; reflexivity]. destruct demo_bitmaps as [B1 B2].
  destruct (bitmap_ops_bitwise demo_mem 70 37 1%positive 1%positive 2%positive _ _ _ B1 B1 B2 ltac:(lia)) as (_ & _ & _ & _ & _ & _ & H).
  exact H.
Defined.

Lemma bitmap_predicates_witness :
  __bitmap_weight 1%positive 70 demo_mem = Done (38, demo_mem) ∧
  (∃ b, __bitmap_subset 1%positive 2%positive 70 demo_mem = Done (bool2Z b, demo_mem) ∧
     (b = true ↔ ∀ i, 0 ≤ i < 70 → bit [0xF0; 0xFFFFFFFF; 3] i = true → bit [0x3C; 7; 9] i = true)).
Proof.
  destruct demo_bitmaps as [B1 B2].
  destruct (bitmap_predicates demo_mem 70 1%positive 2%positive _ _ B1 B2) as (_ & _ & _ & _ & H & W).
  split; [rewrite W; vm_compute; reflexivity|exact H].
Defined.

(** The inline [bitmap_shift_right] does not mask the unused bits of a bitmap of
    less than a word, which the header declares to be don't-cares: they are
    shifted into the bitmap (bitmap.h:262). *)
Theorem bitmap_shift_right_leaks :
  ∃ w1 w2, bitmap_shift_right 1%positive 1%positive 1 4 {[1%positive := [w1]]} = Done (tt, {[1%positive := [8]]}) ∧
    bitmap_shift_right 1%positive 1%positive 1 4 {[1%positive := [w2]]} = Done (tt, {[1%positive := [0]]}) ∧
    (∀ i, 0 ≤ i < 4 → bit [w1] i = bit [w2] i) ∧ bit [8] 3 = true ∧ bit [0] 3 = false.
Proof.
  exists 16, 0. split; [vm_compute; reflexivity|]. split; [vm_compute; reflexivity|].
  split; [|split; reflexivity]. intros i Hi.
  assert (i = 0 ∨ i = 1 ∨ i = 2 ∨ i = 3) as [-> | [-> | [-> | ->]]] by lia; reflexivity.
Qed.

Lemma count_all_words m bits a w : is_bitmap m a w bits → 0 < bits →
  bitmap_weight a bits m = Done (count (bit w) 0 (Z.to_nat bits), m).
Proof.
  intros B Hb. unfold bitmap_weight. change BITS_PER_LONG with 32.
  destruct (Z.leb_spec bits 32) as [Hle|Hgt]; [|by apply bitmap_weight_spec].
  run_simpl. destruct B as [Ha Hw Hl Hbits]. rewrite (rd_word m a w) by (done || lia).
  do 2 f_equal. rewrite hweight32_spec by by apply land_range, word_range. unfold weight.
  replace 32%nat with (Z.to_nat bits + (32 - Z.to_nat bits))%nat by lia. rewrite count_app.
  rewrite (count_none _ (0 + _)), Z.add_0_r.
  - apply count_ext. intros j Hj. rewrite Z.land_spec, <- bit_split by lia.
    change (32 * 0 + j) with j. unfold BITMAP_LAST_WORD_MASK. rewrite rem_mod by lia.
    destruct (Z.eqb_spec (bits mod 32) 0) as [E|E].
    + rewrite ones_bits by lia. destruct (Z.ltb_spec j 32); [apply andb_true_r|lia].
    + assert (bits ≠ 32) by (intros ->; done). rewrite Z.mod_small in * by lia.
      rewrite last_mask_bits by lia. destruct (Z.ltb_spec j bits); [apply andb_true_r|lia].
  - intros j Hj. rewrite Z.land_spec. unfold BITMAP_LAST_WORD_MASK. rewrite rem_mod by lia.
    destruct (Z.eqb_spec (bits mod 32) 0) as [E|E].
    + assert (bits = 32) as -> by (Z.to_euclidean_division_equations; lia). lia.
    + assert (bits ≠ 32) by (intros ->; done). rewrite Z.mod_small in * by lia.
      rewrite last_mask_bits by lia. destruct (Z.ltb_spec j bits); [lia|apply andb_false_r].
Qed.
