(* ===== verification/BitmapAlloc.v ===== *)
(** Allocating regions of a bitmap: [bitmap_find_free_region],
    [bitmap_allocate_region] and [bitmap_release_region] of lib/bitmap.c.

    A region is [2 ^ order] bits at a multiple of [2 ^ order]. *)

From S2P Require Import Prelude FindBit Hweight Bitmap.

(** ** The code *)

Inductive reg_op := REG_OP_ISFREE | REG_OP_ALLOC | REG_OP_RELEASE.

Definition __reg_op (bitmap : loc) (pos order : Z) (op : reg_op) : M mem Z :=
  let nbits_reg := s32 (Z.shiftl 1 order) in
  let index := Z.quot pos BITS_PER_LONG in
  let offset := pos - index * BITS_PER_LONG in
  let nlongs_reg := BITS_TO_LONGS nbits_reg in
  let nbitsinlong := Z.min nbits_reg BITS_PER_LONG in
  let mask := u32 (Z.shiftl 1 (nbitsinlong - 1)) in
  let mask := u32 (mask + (mask - 1)) in
  let mask := u32 (Z.shiftl mask offset) in
  match op with
  | REG_OP_ISFREE =>
      b ← any_word (Z.to_nat nlongs_reg) 0
            (λ i, x ← rd bitmap (index + i); mret (negb (Z.land x mask =? 0)));
      mret (bool2Z (negb b))
  | REG_OP_ALLOC =>
      for_up (Z.to_nat nlongs_reg) 0
        (λ i, x ← rd bitmap (index + i); wr bitmap (index + i) (Z.lor x mask)) ;;
      mret 0
  | REG_OP_RELEASE =>
      for_up (Z.to_nat nlongs_reg) 0
        (λ i, x ← rd bitmap (index + i); wr bitmap (index + i) (Z.land x (not_word mask))) ;;
      mret 0
  end.

(** [for (pos = 0; pos < bits; pos += (1 << order))] *)
Fixpoint region_search (fuel : nat) (bitmap : loc) (bits order pos : Z) : M mem Z :=
  if bits <=? pos then mret pos else
  match fuel with
  | O => fail FFuel
  | S fuel =>
      r ← __reg_op bitmap pos order REG_OP_ISFREE;
      if r =? 0 then region_search fuel bitmap bits order (s32 (pos + s32 (Z.shiftl 1 order)))
      else mret pos
  end.

Definition bitmap_find_free_region (bitmap : loc) (bits order : Z) : M mem Z :=
  pos ← region_search (Z.to_nat bits) bitmap bits order 0;
  if pos =? bits then mret (- ENOMEM) else
  __reg_op bitmap pos order REG_OP_ALLOC ;; mret pos.

Definition bitmap_release_region (bitmap : loc) (pos order : Z) : M mem unit :=
  __reg_op bitmap pos order REG_OP_RELEASE ;; mret tt.

Definition bitmap_allocate_region (bitmap : loc) (pos order : Z) : M mem Z :=
  r ← __reg_op bitmap pos order REG_OP_ISFREE;
  if r =? 0 then mret (- EBUSY) else
  __reg_op bitmap pos order REG_OP_ALLOC ;; mret 0.

(** ** Regions *)

Definition in_region (pos order i : Z) : bool := (pos <=? i) && (i <? pos + 2 ^ order).

Record region_ok (bits pos order : Z) : Prop := {
  rg_order : 0 ≤ order ≤ 30;
  rg_pos : 0 ≤ pos;
  rg_aligned : pos mod 2 ^ order = 0;
  rg_end : pos + 2 ^ order ≤ bits;
}.

Definition region_mask (pos order : Z) : Z :=
  let mask := u32 (Z.shiftl 1 (Z.min (s32 (Z.shiftl 1 order)) BITS_PER_LONG - 1)) in
  u32 (Z.shiftl (u32 (mask + (mask - 1))) (pos - Z.quot pos BITS_PER_LONG * BITS_PER_LONG)).

Lemma order_pow order : 0 ≤ order ≤ 30 → s32 (Z.shiftl 1 order) = 2 ^ order ∧ 1 ≤ 2 ^ order ≤ 2 ^ 30.
Proof.
  intros Ho. rewrite Z.shiftl_1_l.
  assert (2 ^ 0 ≤ 2 ^ order) by (apply Z.pow_le_mono_r; lia).
  assert (2 ^ order ≤ 2 ^ 30) by (apply Z.pow_le_mono_r; lia).
  rewrite s32_small by lia. lia.
Qed.

(** Small regions lie inside a word, large ones consist of whole words. *)
Lemma region_shape pos order : 0 ≤ order ≤ 30 → 0 ≤ pos → pos mod 2 ^ order = 0 →
  (order ≤ 5 ∧ 2 ^ order ≤ 32 ∧ pos mod 32 + 2 ^ order ≤ 32) ∨
  (5 < order ∧ 64 ≤ 2 ^ order ∧ pos mod 32 = 0 ∧ 2 ^ order mod 32 = 0).
Proof.
  intros Ho Hp Ha. destruct (Z.le_gt_cases order 5) as [Hle|Hgt].
  - left. split; [done|].
    assert (order = 0 ∨ order = 1 ∨ order = 2 ∨ order = 3 ∨ order = 4 ∨ order = 5) as Hc by lia.
    destruct Hc as [->|[->|[->|[->|[->| ->]]]]]; cbn in *; (split; [lia|]);
      Z.to_euclidean_division_equations; lia.
  - right. split; [done|]. assert (E : 2 ^ order = 2 ^ (order - 5) * 32)
      by (change 32 with (2 ^ 5); rewrite <- Z.pow_add_r by lia; f_equal; lia).
    assert (2 ^ 1 ≤ 2 ^ (order - 5)) by (apply Z.pow_le_mono_r; lia).
    rewrite E in *. split; [lia|]. split; [|by rewrite Z.mod_mul by lia].
    assert (Hd : pos = 2 ^ (order - 5) * (pos / (2 ^ (order - 5) * 32)) * 32).
    { rewrite (Z.div_mod pos (2 ^ (order - 5) * 32)) at 1 by lia. rewrite Ha. ring. }
    rewrite Hd. by apply Z.mod_mul.
Qed.

Lemma pow_mask_bits n j : 1 ≤ n ≤ 32 → 0 ≤ j →
  Z.testbit (u32 (u32 (Z.shiftl 1 (n - 1)) + (u32 (Z.shiftl 1 (n - 1)) - 1))) j = (j <? n).
Proof.
  intros Hn Hj. rewrite Z.shiftl_1_l.
  assert (2 ^ 0 ≤ 2 ^ (n - 1)) by (apply Z.pow_le_mono_r; lia).
  assert (2 ^ (n - 1) ≤ 2 ^ 31) by (apply Z.pow_le_mono_r; lia).
  assert (E : 2 ^ n = 2 * 2 ^ (n - 1)) by (rewrite <- Z.pow_succ_r by lia; f_equal; lia).
  rewrite (u32_small (2 ^ (n - 1))) by lia. rewrite u32_small by lia.
  replace (2 ^ (n - 1) + (2 ^ (n - 1) - 1)) with (Z.ones n) by (rewrite Z.ones_equiv; lia).
  destruct (Z.ltb_spec j n); [apply Z.ones_spec_low; lia|apply Z.ones_spec_high; lia].
Qed.

Lemma region_mask_bits pos order t j : 0 ≤ order ≤ 30 → 0 ≤ pos → pos mod 2 ^ order = 0 →
  0 ≤ t < BITS_TO_LONGS (2 ^ order) → 0 ≤ j < 32 →
  Z.testbit (region_mask pos order) j = in_region pos order (32 * (pos / 32 + t) + j).
Proof.
  intros Ho Hp Ha Ht Hj. destruct (order_pow order Ho) as [Eo Hpow].
  pose proof (region_shape pos order Ho Hp Ha) as Hs. rewrite bits_to_longs in Ht by lia.
  unfold region_mask, in_region. rewrite quot_div, Eo by done. change BITS_PER_LONG with 32.
  pose proof (Z.div_mod pos 32 ltac:(lia)). pose proof (Z.mod_pos_bound pos 32 ltac:(lia)).
  rewrite u32_shiftl_bits by lia.
  destruct (Z.leb_spec (pos - pos / 32 * 32) j); cbn [andb].
  - rewrite pow_mask_bits by lia. destruct Hs as [(H5 & H6 & H7)|(H5 & H6 & H7 & H8)].
    + assert ((2 ^ order + 31) / 32 = 1) as E1 by (symmetry; apply (Z.div_unique _ _ _ (2 ^ order - 1)); lia).
      destruct (Z.ltb_spec (j - (pos - pos / 32 * 32)) (Z.min (2 ^ order) 32)),
        (Z.leb_spec pos (32 * (pos / 32 + t) + j)), (Z.ltb_spec (32 * (pos / 32 + t) + j) (pos + 2 ^ order));
        done || lia.
    + assert ((2 ^ order + 31) / 32 = 2 ^ order / 32) as E1.
      { symmetry. apply (Z.div_unique _ _ _ 31); [lia|]. pose proof (Z.div_mod (2 ^ order) 32 ltac:(lia)). lia. }
      pose proof (Z.div_mod (2 ^ order) 32 ltac:(lia)).
      destruct (Z.ltb_spec (j - (pos - pos / 32 * 32)) (Z.min (2 ^ order) 32)),
        (Z.leb_spec pos (32 * (pos / 32 + t) + j)), (Z.ltb_spec (32 * (pos / 32 + t) + j) (pos + 2 ^ order));
        done || lia.
  - destruct Hs as [(H5 & H6 & H7)|(H5 & H6 & H7 & H8)]; [|lia].
    assert ((2 ^ order + 31) / 32 = 1) as E1 by (symmetry; apply (Z.div_unique _ _ _ (2 ^ order - 1)); lia).
    destruct (Z.leb_spec pos (32 * (pos / 32 + t) + j)); [lia|done].
Qed.

(** The words of a region: inside the array, and covering the region. *)
Lemma region_words bits pos order : region_ok bits pos order →
  let n := BITS_TO_LONGS (2 ^ order) in
  0 ≤ pos / 32 ∧ 0 < n ∧ 32 * (pos / 32 + n) < bits + 32 ∧
  ∀ k j, 0 ≤ k → 0 ≤ j < 32 → in_region pos order (32 * k + j) = true → pos / 32 ≤ k < pos / 32 + n.
Proof.
  intros [Ho Hp Ha He]. destruct (order_pow order Ho) as [_ Hpow]. cbv zeta. rewrite bits_to_longs by lia.
  pose proof (region_shape pos order Ho Hp Ha) as Hs.
  pose proof (Z.div_mod pos 32 ltac:(lia)). pose proof (Z.mod_pos_bound pos 32 ltac:(lia)).
  pose proof (Z.div_pos pos 32 ltac:(lia) ltac:(lia)).
  pose proof (Z.div_mod (2 ^ order + 31) 32 ltac:(lia)). pose proof (Z.mod_pos_bound (2 ^ order + 31) 32 ltac:(lia)).
  unfold in_region. split; [done|]. split; [lia|]. split.
  - lia.
  - intros k j Hk Hj Hin. bool_solve. destruct Hs as [|(? & ? & ? & ?)]; [lia|].
    pose proof (Z.div_mod (2 ^ order) 32 ltac:(lia)). lia.
Qed.

Lemma for_up_shift n k c body m : for_up n k (λ i, body (c + i)) m = for_up n (c + k) body m.
Proof.
  revert k m. induction n as [|n IH]; intros k m; [done|]. cbn [for_up]. run_simpl.
  destruct (body (c + k) m) as [[[] m']|]; [|done]. rewrite IH. f_equal. lia.
Qed.

Section RegOp.
Context (m : mem) (bits : Z) (a : loc) (w : list Z) (pos order : Z).
Context (B : is_bitmap m a w bits) (R : region_ok bits pos order).

(** Rewriting the words of a region with [op x mask]. *)
Lemma region_update (op : Z → Z → Z) (f : bool → bool → bool) :
  (∀ x y, 0 ≤ x < 2 ^ 32 → 0 ≤ y < 2 ^ 32 → 0 ≤ op x y < 2 ^ 32 ∧
     ∀ j, 0 ≤ j < 32 → Z.testbit (op x y) j = f (Z.testbit x j) (Z.testbit y j)) →
  (∀ b, f b false = b) →
  ∃ w', for_up (Z.to_nat (BITS_TO_LONGS (2 ^ order))) 0
      (λ i, x ← rd a (pos / 32 + i); wr a (pos / 32 + i) (op x (region_mask pos order))) m =
      Done (tt, <[a := w']> m) ∧ is_bitmap (<[a := w']> m) a w' bits ∧
    ∀ i, 0 ≤ i → bit w' i = f (bit w i) (in_region pos order i).
Proof.
  intros Hop Hf. destruct B as [Ha Hw Hl Hb]. pose proof (region_words bits pos order R) as (H0 & Hn & Hend & Hin).
  destruct R as [Ho Hp Hal He].
  set (n := BITS_TO_LONGS (2 ^ order)) in *. set (q0 := pos / 32) in *. set (mask := region_mask pos order).
  assert (Hmask : 0 ≤ mask < 2 ^ 32) by apply u32_range.
  rewrite (for_up_shift _ 0 q0 (λ k, x ← rd a k; wr a k (op x mask))), Z.add_0_r.
  destruct (for_up_spec m a w (q0 + n) (λ k, op (word w k) mask) (λ k, x ← rd a k; wr a k (op x mask))
    (Z.to_nat n) q0 w) as (w' & E & Hl' & Hw'); [|lia|lia|lia|done|done|].
  { intros j w' Hj Hlw Hag. run_simpl. rewrite (rd_alias m a w w' a w) by (done || lia || (apply Hag; lia)).
    apply wr_done. lia. }
  rewrite insert_id in E by done. rewrite Z2Nat.id in Hw' by lia.
  assert (Hword : ∀ k, 0 ≤ word w k < 2 ^ 32) by (intros; by apply word_range).
  exists w'. split; [done|]. split.
  - split; [by rewrite lookup_insert_eq| |by rewrite Hl'|done].
    apply words_ok_word. intros k Hk. rewrite Hw' by lia. destruct (_ && _); [by apply Hop|done].
  - intros i Hi. destruct (bit_index i) as (k & j & -> & Hk & Hj); [lia|]. rewrite !bit_split, Hw' by done.
    destruct (Z.leb_spec q0 k), (Z.ltb_spec k (q0 + n)); cbn [andb].
    + rewrite (proj2 (Hop _ _ (Hword k) Hmask)) by done. f_equal. unfold mask.
      rewrite (region_mask_bits pos order (k - q0)) by (done || lia). fold q0. f_equal. lia.
    + destruct (in_region pos order (32 * k + j)) eqn:Er; [|by rewrite Hf]. apply Hin in Er; lia.
    + destruct (in_region pos order (32 * k + j)) eqn:Er; [|by rewrite Hf]. apply Hin in Er; lia.
    + destruct (in_region pos order (32 * k + j)) eqn:Er; [|by rewrite Hf]. apply Hin in Er; lia.
Qed.

Lemma reg_op_unfold op : __reg_op a pos order op m =
  match op with
  | REG_OP_ISFREE =>
      (b ← any_word (Z.to_nat (BITS_TO_LONGS (2 ^ order))) 0
            (λ i, x ← rd a (pos / 32 + i); mret (negb (Z.land x (region_mask pos order) =? 0)));
      mret (bool2Z (negb b))) m
  | REG_OP_ALLOC =>
      (for_up (Z.to_nat (BITS_TO_LONGS (2 ^ order))) 0
        (λ i, x ← rd a (pos / 32 + i); wr a (pos / 32 + i) (Z.lor x (region_mask pos order))) ;; mret 0) m
  | REG_OP_RELEASE =>
      (for_up (Z.to_nat (BITS_TO_LONGS (2 ^ order))) 0
        (λ i, x ← rd a (pos / 32 + i); wr a (pos / 32 + i) (and_not x (region_mask pos order))) ;; mret 0) m
  end.
Proof.
  destruct R as [Ho Hp _ _]. destruct (order_pow order Ho) as [Eo _].
  unfold __reg_op, region_mask, and_not. rewrite Eo, quot_div by done. by destruct op.
Qed.

Lemma reg_alloc : ∃ w', __reg_op a pos order REG_OP_ALLOC m = Done (0, <[a := w']> m) ∧
  is_bitmap (<[a := w']> m) a w' bits ∧ ∀ i, 0 ≤ i → bit w' i = bit w i || in_region pos order i.
Proof.
  destruct (region_update Z.lor orb lor_word orb_false_r) as (w' & E & HB & Hw').
  exists w'. rewrite reg_op_unfold. run_simpl. by rewrite E.
Qed.

Lemma reg_release : ∃ w', __reg_op a pos order REG_OP_RELEASE m = Done (0, <[a := w']> m) ∧
  is_bitmap (<[a := w']> m) a w' bits ∧ ∀ i, 0 ≤ i → bit w' i = bit w i && negb (in_region pos order i).
Proof.
  destruct (region_update and_not (λ x y, x && negb y) and_not_word) as (w' & E & HB & Hw').
  { intros b. apply andb_true_r. }
  exists w'. rewrite reg_op_unfold. run_simpl. by rewrite E.
Qed.

Definition region_free (w : list Z) (pos order : Z) : Prop :=
  ∀ i, 0 ≤ i → in_region pos order i = true → bit w i = false.

Lemma reg_isfree : ∃ b, __reg_op a pos order REG_OP_ISFREE m = Done (bool2Z b, m) ∧
  (b = true ↔ region_free w pos order).
Proof.
  destruct B as [Ha Hw Hl Hb]. pose proof (region_words bits pos order R) as (H0 & Hn & Hend & Hin).
  pose proof R as [Ho Hp Hal He]. rewrite reg_op_unfold.
  set (n := BITS_TO_LONGS (2 ^ order)) in *. set (q0 := pos / 32) in *.
  destruct (any_word_spec m (λ i, bit w (32 * q0 + i) && in_region pos order (32 * q0 + i))
    (λ i, x ← rd a (q0 + i); mret (negb (Z.land x (region_mask pos order) =? 0))) (Z.to_nat n) 0)
    as (b & E & Hiff); [lia| |].
  - intros q Hq. run_simpl. rewrite (rd_word m a w) by (done || lia). eexists. split; [done|].
    rewrite negb_true_iff, Z.eqb_neq, word_nonzero by (apply land_range, word_range; done).
    split; intros (j & Hj & Ht); exists j; (split; [done|]).
    + rewrite Z.land_spec, (region_mask_bits pos order q), <- bit_split in Ht by (done || lia). fold q0 in Ht.
      by replace (32 * q0 + (32 * q + j)) with (32 * (q0 + q) + j) by lia.
    + rewrite Z.land_spec, (region_mask_bits pos order q), <- bit_split by (done || lia). fold q0.
      by replace (32 * q0 + (32 * q + j)) with (32 * (q0 + q) + j) in Ht by lia.
  - exists (negb b). unfold mbind at 1, M_bind at 1. rewrite E. split; [done|].
    rewrite negb_true_iff. split.
    + intros -> i Hi Hr. apply not_true_iff_false. intros Hbit. enough (false = true) by done. apply Hiff.
      destruct (bit_index i) as (k & j & -> & Hk & Hj); [lia|].
      pose proof (Hin k j Hk Hj Hr). exists (32 * (k - q0) + j). split; [lia|].
      replace (32 * q0 + (32 * (k - q0) + j)) with (32 * k + j) by lia. by rewrite Hbit, Hr.
    + intros Hfree. apply not_true_iff_false. intros Hb1. apply Hiff in Hb1 as (i & Hi & Hbit).
      apply andb_prop in Hbit as [Hbit Hr]. rewrite (Hfree (32 * q0 + i)) in Hbit by (done || lia). done.
Qed.

End RegOp.

(** ** The search *)

Lemma region_search_spec m bits a w order fuel pos :
  is_bitmap m a w bits → 0 ≤ order ≤ 30 → bits mod 2 ^ order = 0 →
  0 ≤ pos ≤ bits → pos mod 2 ^ order = 0 → bits - pos ≤ Z.of_nat fuel →
  ∃ p, region_search fuel a bits order pos m = Done (p, m) ∧ pos ≤ p ∧
    (p = bits ∨ region_ok bits p order ∧ region_free w p order) ∧
    ∀ q, pos ≤ q < p → region_ok bits q order → ¬ region_free w q order.
Proof.
  intros B Ho Hbm. destruct (order_pow order Ho) as [Eo Hpow]. pose proof (bm_bits _ _ _ _ B) as Hb.
  assert (Hnext : ∀ p, p mod 2 ^ order = 0 → p < bits → p + 2 ^ order ≤ bits).
  { intros p Hp Hlt. pose proof (Z.div_mod p (2 ^ order) ltac:(lia)). pose proof (Z.div_mod bits (2 ^ order) ltac:(lia)).
    assert (p / 2 ^ order < bits / 2 ^ order) by nia. nia. }
  revert pos. induction fuel as [|fuel IH]; intros pos Hp Hal Hf; cbn [region_search].
  { destruct (Z.leb_spec bits pos); [|lia]. exists pos. split; [done|]. split; [lia|]. split; [left; lia|]. lia. }
  destruct (Z.leb_spec bits pos).
  { exists pos. split; [done|]. split; [lia|]. split; [left; lia|]. lia. }
  assert (R : region_ok bits pos order) by (split; auto; lia).
  destruct (reg_isfree m bits a w pos order B R) as (b & E & Hiff). run_simpl. rewrite E. cbn beta iota.
  destruct b; cbn [bool2Z Z.eqb].
  { exists pos. split; [done|]. split; [lia|]. split; [right; split; [done|by apply Hiff]|]. lia. }
  rewrite Eo, s32_small by (specialize (Hnext pos Hal); lia).
  destruct (IH (pos + 2 ^ order)) as (p & E' & Hpp & Hres & Hno).
  { specialize (Hnext pos Hal). lia. }
  { rewrite <- (Z.mul_1_l (2 ^ order)) at 1. by rewrite Z.mod_add by lia. }
  { lia. }
  exists p. split; [done|]. split; [lia|]. split; [done|]. intros q Hq Rq Hfree.
  destruct (Z.lt_ge_cases q (pos + 2 ^ order)); [|by apply (Hno q); [lia|..]].
  assert (q = pos) as ->.
  { destruct Rq as [_ _ Hqa _]. pose proof (Z.div_mod q (2 ^ order) ltac:(lia)).
    pose proof (Z.div_mod pos (2 ^ order) ltac:(lia)).
    assert (q / 2 ^ order < pos / 2 ^ order + 1) by nia.
    assert (pos / 2 ^ order ≤ q / 2 ^ order) by (apply Z.div_le_mono; lia). nia. }
  enough (false = true) by done. by apply Hiff.
Qed.

Lemma find_free_spec m bits a w order :
  is_bitmap m a w bits → 0 ≤ order ≤ 30 → bits mod 2 ^ order = 0 →
  (∃ pos w', bitmap_find_free_region a bits order m = Done (pos, <[a := w']> m) ∧
     is_bitmap (<[a := w']> m) a w' bits ∧ region_ok bits pos order ∧ region_free w pos order ∧
     (∀ q, region_ok bits q order → region_free w q order → pos ≤ q) ∧
     ∀ i, 0 ≤ i → bit w' i = bit w i || in_region pos order i) ∨
  (bitmap_find_free_region a bits order m = Done (- ENOMEM, m) ∧
     ∀ q, region_ok bits q order → ¬ region_free w q order).
Proof.
  intros B Ho Hbm. destruct (order_pow order Ho) as [Eo Hpow]. pose proof (bm_bits _ _ _ _ B) as Hb.
  destruct (region_search_spec m bits a w order (Z.to_nat bits) 0 B Ho Hbm) as (p & E & Hp & Hres & Hno);
    [lia|apply Z.mod_0_l; lia|lia|].
  unfold bitmap_find_free_region. run_simpl. rewrite E. cbn beta iota.
  destruct Hres as [->|[R Hfree]].
  - right. rewrite Z.eqb_refl. split; [done|]. intros q Rq. apply Hno; [|done]. destruct Rq. lia.
  - left. destruct (reg_alloc m bits a w p order B R) as (w' & E' & B' & Hw').
    exists p, w'. destruct (Z.eqb_spec p bits); [destruct R; lia|]. rewrite E'. split; [done|].
    split; [done|]. split; [done|]. split; [done|]. split; [|done].
    intros q Rq Hq. destruct (Z.lt_ge_cases q p) as [Hlt|]; [|done].
    exfalso. apply (Hno q); [destruct Rq; lia|done|done].
Qed.

(** ** A client of the allocator

    It asks for regions, and releases regions it owns. *)

Inductive region_call :=
| CFind (order : Z)
| CAllocate (pos order : Z)
| CRelease (n : nat).

Definition run_region_call (a : loc) (bits : Z) (c : region_call) (owned : list (Z * Z)) :
    M mem (list (Z * Z)) :=
  match c with
  | CFind order =>
      pos ← bitmap_find_free_region a bits order;
      mret (if pos <? 0 then owned else (pos, order) :: owned)
  | CAllocate pos order =>
      r ← bitmap_allocate_region a pos order;
      mret (if r <? 0 then owned else (pos, order) :: owned)
  | CRelease n =>
      match owned !! n with
      | None => mret owned
      | Some (pos, order) => bitmap_release_region a pos order ;; mret (delete n owned)
      end
  end.

Fixpoint run_region_calls (a : loc) (bits : Z) (cs : list region_call) (owned : list (Z * Z)) :
    M mem (list (Z * Z)) :=
  match cs with
  | [] => mret owned
  | c :: cs => owned ← run_region_call a bits c owned; run_region_calls a bits cs owned
  end.

Definition call_ok (bits : Z) (c : region_call) : Prop :=
  match c with
  | CFind order => 0 ≤ order ≤ 30 ∧ bits mod 2 ^ order = 0
  | CAllocate pos order => region_ok bits pos order
  | CRelease _ => True
  end.

(** The number of owned regions that contain the bit [i]. *)
Fixpoint cover (owned : list (Z * Z)) (i : Z) : Z :=
  match owned with
  | [] => 0
  | (pos, order) :: owned => bool2Z (in_region pos order i) + cover owned i
  end.

Lemma cover_perm o1 o2 i : o1 ≡ₚ o2 → cover o1 i = cover o2 i.
Proof. induction 1 as [|[??] ???|[??] [??] ?|]; cbn [cover]; lia. Qed.

Lemma cover_nonneg o i : 0 ≤ cover o i.
Proof.
  induction o as [|[pos order] o IH]; cbn [cover]; [lia|].
  destruct (in_region pos order i); cbn [bool2Z]; lia.
Qed.

Record regions_inv (w0 : list Z) (bits : Z) (owned : list (Z * Z)) (m : mem) (a : loc) (w : list Z) : Prop := {
  ri_bitmap : is_bitmap m a w bits;
  ri_owned : Forall (λ r, region_ok bits r.1 r.2) owned;
  ri_bits : ∀ i, 0 ≤ i → bool2Z (bit w i) = bool2Z (bit w0 i) + cover owned i;
}.

Lemma regions_inv_take w0 bits owned m a w pos order w' :
  regions_inv w0 bits owned m a w → is_bitmap (<[a := w']> m) a w' bits → region_ok bits pos order →
  region_free w pos order → (∀ i, 0 ≤ i → bit w' i = bit w i || in_region pos order i) →
  regions_inv w0 bits ((pos, order) :: owned) (<[a := w']> m) a w'.
Proof.
  intros [B Hown Hbits] B' R Hfree Hw'. split; [done|by constructor|]. intros i Hi. cbn [cover].
  rewrite Hw' by done. pose proof (Hfree i Hi) as Hf. pose proof (Hbits i Hi) as E.
  destruct (in_region pos order i).
  - rewrite Hf in E |- * by done. cbn [bool2Z orb] in *. lia.
  - rewrite orb_false_r. cbn [bool2Z]. lia.
Qed.

Lemma run_region_call_inv w0 bits owned m a w c :
  regions_inv w0 bits owned m a w → call_ok bits c →
  ∃ owned' w', run_region_call a bits c owned m = Done (owned', <[a := w']> m) ∧
    regions_inv w0 bits owned' (<[a := w']> m) a w'.
Proof.
  intros I Hc. pose proof I as [B Hown Hbits].
  assert (Hid : <[a := w]> m = m) by (apply insert_id; apply B).
  destruct c as [order|pos order|n]; cbn [run_region_call call_ok] in *; run_simpl.
  - destruct Hc as [Ho Hm].
    destruct (find_free_spec m bits a w order B Ho Hm) as [(pos & w' & -> & B' & R & Hf & _ & Hw')|[-> _]].
    + exists ((pos, order) :: owned), w'. destruct (Z.ltb_spec pos 0); [destruct R; lia|].
      split; [done|]. by eapply regions_inv_take.
    + exists owned, w. by rewrite Hid.
  - unfold bitmap_allocate_region. run_simpl.
    destruct (reg_isfree m bits a w pos order B Hc) as (b & E & Hiff). rewrite E. destruct b; cbn [bool2Z Z.eqb].
    + destruct (reg_alloc m bits a w pos order B Hc) as (w' & E' & B' & Hw'). rewrite E'.
      exists ((pos, order) :: owned), w'. split; [done|]. eapply regions_inv_take; eauto. by apply Hiff.
    + exists owned, w. by rewrite Hid.
  - destruct (owned !! n) as [[pos order]|] eqn:En.
    2: { exists owned, w. by rewrite Hid. }
    unfold bitmap_release_region. run_simpl.
    pose proof (Forall_lookup_1 _ _ _ _ Hown En) as R. cbn in R.
    destruct (reg_release m bits a w pos order B R) as (w' & E' & B' & Hw'). rewrite E'.
    exists (delete n owned), w'. split; [done|]. pose proof (delete_Permutation _ _ _ En) as Hperm. split; [done| |].
    + rewrite Hperm in Hown. by inversion Hown.
    + intros i Hi. rewrite Hw' by done. pose proof (Hbits i Hi) as Eb. rewrite (cover_perm _ _ i Hperm) in Eb.
      cbn [cover] in Eb.
      pose proof (cover_nonneg (delete n owned) i).
      destruct (in_region pos order i), (bit w i), (bit w0 i); cbn [bool2Z andb negb] in *; lia.
Qed.

Lemma run_region_calls_inv w0 bits cs : Forall (call_ok bits) cs → ∀ owned m a w,
  regions_inv w0 bits owned m a w →
  ∃ owned' w', run_region_calls a bits cs owned m = Done (owned', <[a := w']> m) ∧
    regions_inv w0 bits owned' (<[a := w']> m) a w'.
Proof.
  induction 1 as [|c cs Hc Hcs IH]; intros owned m a w I; cbn [run_region_calls].
  - exists owned, w. rewrite insert_id by apply I. done.
  - destruct (run_region_call_inv w0 bits owned m a w c I Hc) as (o1 & w1 & E1 & I1).
    destruct (IH o1 _ a w1 I1) as (o2 & w2 & E2 & I2). exists o2, w2. run_simpl. rewrite E1.
    rewrite insert_insert_eq in E2, I2. done.
Qed.

(** [bitmap_find_free_region] takes the first region of [2 ^ order] clear
    bits at a multiple of [2 ^ order] and sets exactly its bits; it returns
    [-ENOMEM] and leaves the bitmap alone iff there is none.  The size of the
    bitmap has to be a multiple of the region's. *)
Theorem find_free_region_first_fit (m : mem) (bits : Z) (a : loc) (w : list Z) (order : Z) :
  is_bitmap m a w bits → 0 ≤ order ≤ 30 → bits mod 2 ^ order = 0 →
  (∃ pos w', bitmap_find_free_region a bits order m = Done (pos, <[a := w']> m) ∧
     region_ok bits pos order ∧ region_free w pos order ∧
     (∀ q, region_ok bits q order → region_free w q order → pos ≤ q) ∧
     ∀ i, 0 ≤ i → bit w' i = bit w i || in_region pos order i) ∨
  (bitmap_find_free_region a bits order m = Done (- ENOMEM, m) ∧
     ∀ q, region_ok bits q order → ¬ region_free w q order).
Proof.
  intros B Ho Hm. destruct (find_free_spec m bits a w order B Ho Hm) as [(pos & w' & H)|H]; [|by right].
  left. exists pos, w'. tauto.
Qed.

Lemma find_free_region_first_fit_witness :
  bitmap_find_free_region 1%positive 64 3 {[1%positive := [0x00010001; 0]]} =
    Done (8, {[1%positive := [0x0001FF01; 0]]}) ∧
  ∃ pos w', bitmap_find_free_region 1%positive 64 3 {[1%positive := [0x00010001; 0]]} =
      Done (pos, <[1%positive := w']> {[1%positive := [0x00010001; 0]]}) ∧ region_ok 64 pos 3.
Proof.
  assert (E : bitmap_find_free_region 1%positive 64 3 {[1%positive := [0x00010001; 0]]} =
    Done (8, {[1%positive := [0x0001FF01; 0]]})) by (vm_compute; reflexivity).
  split; [exact E|].
  destruct (find_free_region_first_fit {[1%positive := [0x00010001; 0]]} 64 1%positive [0x00010001; 0] 3)
    as [(pos & w' & H1 & H2 & _)|[H _]].
  - split; [vm_compute; reflexivity| |cbn; lia|lia].
    repeat (apply list.Forall_cons; split; [lia|]); by apply list.Forall_nil.
  - lia.
  - reflexivity.
  - exists pos, w'. split; [exact H1|exact H2].
  - rewrite E in H. discriminate.
Defined.

(** A client that allocates regions by search or by position and releases
    only regions it owns never gets a bit twice: after any sequence of such
    calls every bit is set exactly if it was set at the start or lies in a
    region the client owns, and it lies in at most one of them. *)
Theorem region_client_disjoint (m : mem) (bits : Z) (a : loc) (w : list Z) (cs : list region_call) :
  is_bitmap m a w bits → Forall (call_ok bits) cs →
  ∃ owned w', run_region_calls a bits cs [] m = Done (owned, <[a := w']> m) ∧
    Forall (λ r, region_ok bits r.1 r.2) owned ∧
    ∀ i, 0 ≤ i → bool2Z (bit w' i) = bool2Z (bit w i) + cover owned i.
Proof.
  intros B Hcs. destruct (run_region_calls_inv w bits cs Hcs [] m a w) as (o & w' & E & I).
  { split; [done|constructor|]. intros i Hi. cbn. lia. }
  exists o, w'. split; [done|]. destruct I. done.
Qed.

Definition demo_calls : list region_call := [CFind 2; CAllocate 32 5; CFind 3; CRelease 2; CFind 0; CAllocate 32 5].

Lemma region_client_disjoint_witness :
  (∃ w', run_region_calls 1%positive 64 demo_calls [] {[1%positive := [0; 0]]} =
    Done ([(0, 0); (8, 3); (32, 5)], w')) ∧
  ∃ owned w', run_region_calls 1%positive 64 demo_calls [] {[1%positive := [0; 0]]} =
      Done (owned, <[1%positive := w']> {[1%positive := [0; 0]]}) ∧
    ∀ i, 0 ≤ i → bool2Z (bit w' i) = bool2Z (bit [0; 0] i) + cover owned i.
Proof.
  split; [eexists; vm_compute; reflexivity|].
  destruct (region_client_disjoint {[1%positive := [0; 0]]} 64 1%positive [0; 0] demo_calls)
    as (o & w' & H1 & _ & H2).
  - split; [vm_compute; reflexivity| |cbn; lia|lia].
    repeat (apply list.Forall_cons; split; [lia|]); by apply list.Forall_nil.
  - repeat (apply list.Forall_cons; split; [cbn; (lia || done || (split; [lia|reflexivity]) || (split; cbn; lia))|]);
      by apply list.Forall_nil.
  - exists o, w'. split; [exact H1|exact H2].
Defined.

(** When the size of the bitmap is not a multiple of the region's, the test
    [pos == bits] misses the end of the search: a full bitmap of 20 bits yields
    the region at bit 32, outside the array (bitmap.c:794). *)
Theorem find_free_region_overruns :
  bitmap_find_free_region 1%positive 20 4 {[1%positive := [0xFFFFF]]} = Fault FBounds.
Proof. vm_compute. reflexivity. Qed.
