(* ===== verification/BitmapRemap.v ===== *)
(** Positions and ordinals of set bits: [bitmap_pos_to_ord],
    [bitmap_ord_to_pos], [bitmap_bitremap] and [bitmap_remap] of lib/bitmap.c. *)

From S2P Require Import Prelude FindBit Hweight Bitmap.

(** ** The code *)

(** [btl] and [btsl] address the word that holds the bit. *)
Definition test_bit (nr : Z) (a : loc) : M mem bool :=
  x ← rd a (nr / 32); mret (Z.testbit x (nr mod 32)).
Definition set_bit (nr : Z) (a : loc) : M mem unit :=
  x ← rd a (nr / 32); wr a (nr / 32) (Z.lor x (Z.shiftl 1 (nr mod 32))).

(** [int i = find_first_bit(buf, bits)] *)
Definition first_int (buf : loc) (bits : Z) : M mem Z :=
  i ← on buf (find_first_bit bits); mret (s32 i).

(** [while (i < pos)] *)
Fixpoint ord_loop (fuel : nat) (buf : loc) (bits pos i ord : Z) : M mem (Z * Z) :=
  if i <? pos then
    match fuel with
    | O => fail FFuel
    | S fuel => i ← on buf (find_next_bit bits (s32 (i + 1))); ord_loop fuel buf bits pos i (s32 (ord + 1))
    end
  else mret (i, ord).

Definition bitmap_pos_to_ord (buf : loc) (pos bits : Z) : M mem Z :=
  if (pos <? 0) || (bits <=? pos) then mret (- 1) else
  t ← test_bit pos buf;
  if (t : bool) then
    i ← first_int buf bits;
    r ← ord_loop (Z.to_nat bits) buf bits pos i 0;
    assert FBug (r.1 =? pos) ;; mret r.2
  else mret (- 1).

(** [for (...; i < bits && ord > 0; i = find_next_bit(buf, bits, i + 1)) ord--] *)
Fixpoint pos_loop (fuel : nat) (buf : loc) (bits i ord : Z) : M mem (Z * Z) :=
  if (i <? bits) && (0 <? ord) then
    match fuel with
    | O => fail FFuel
    | S fuel => i ← on buf (find_next_bit bits (s32 (i + 1))); pos_loop fuel buf bits i (ord - 1)
    end
  else mret (i, ord).

Definition bitmap_ord_to_pos (buf : loc) (ord bits : Z) : M mem Z :=
  if (0 <=? ord) && (ord <? bits) then
    i ← first_int buf bits;
    r ← pos_loop (Z.to_nat ord) buf bits i ord;
    mret (if (r.1 <? bits) && (r.2 =? 0) then r.1 else 0)
  else mret 0.

(** [n % w] of C truncates; [n] and [w] are not negative here. *)
Definition bitmap_bitremap (oldbit : Z) (old new : loc) (bits : Z) : M mem Z :=
  w ← bitmap_weight new bits;
  n ← bitmap_pos_to_ord old oldbit bits;
  if (n <? 0) || (w =? 0) then mret oldbit
  else bitmap_ord_to_pos new (Z.rem n w) bits.

Fixpoint remap_loop (fuel : nat) (dst src old new : loc) (bits w oldbit : Z) : M mem unit :=
  if oldbit <? bits then
    match fuel with
    | O => fail FFuel
    | S fuel =>
        n ← bitmap_pos_to_ord old oldbit bits;
        (if (n <? 0) || (w =? 0) then set_bit oldbit dst
         else p ← bitmap_ord_to_pos new (Z.rem n w) bits; set_bit p dst) ;;
        oldbit ← on src (find_next_bit bits (s32 (oldbit + 1)));
        remap_loop fuel dst src old new bits w oldbit
    end
  else mret tt.

Definition bitmap_remap (dst src old new : loc) (bits : Z) : M mem unit :=
  if decide (dst = src) then mret tt else
  bitmap_zero dst bits ;;
  w ← bitmap_weight new bits;
  oldbit ← first_int src bits;
  remap_loop (Z.to_nat bits) dst src old new bits w oldbit.

(** ** The n-th set bit *)

Lemma next_result P n o : 0 ≤ o ≤ n → o ≤ next P n o ≤ n ∧
  (next P n o < n → P (next P n o) = true) ∧ ∀ k, o ≤ k < next P n o → P k = false.
Proof.
  intros Ho. unfold next. destruct (Z.leb_spec n o).
  - split; [lia|]. split; [lia|]. intros k Hk. lia.
  - destruct (scan_result P o (Z.to_nat (n - o))) as (H1 & H2 & H3).
    split; [lia|]. split; [|done]. intros Hlt. apply H2. lia.
Qed.

(** The search skips bits that are not counted. *)
Lemma count_to P i j : 0 ≤ i ≤ j → (∀ k, i ≤ k < j → P k = false) →
  count P 0 (Z.to_nat j) = count P 0 (Z.to_nat i).
Proof.
  intros Hij H. replace (Z.to_nat j) with (Z.to_nat i + Z.to_nat (j - i))%nat by lia.
  rewrite count_app, (count_none P (0 + _)); [lia|]. intros k Hk. apply H. lia.
Qed.

Lemma count_next P i : 0 ≤ i → P i = true → count P 0 (Z.to_nat (i + 1)) = count P 0 (Z.to_nat i) + 1.
Proof.
  intros Hi HP. replace (Z.to_nat (i + 1)) with (Z.to_nat i + 1)%nat by lia.
  rewrite count_app. cbn [count]. replace (0 + Z.of_nat (Z.to_nat i)) with i by lia. by rewrite HP.
Qed.

Lemma count_mono P i j : 0 ≤ i ≤ j → count P 0 (Z.to_nat i) ≤ count P 0 (Z.to_nat j).
Proof.
  intros Hij. replace (Z.to_nat j) with (Z.to_nat i + Z.to_nat (j - i))%nat by lia.
  rewrite count_app. pose proof (count_range P (0 + Z.of_nat (Z.to_nat i)) (Z.to_nat (j - i))). lia.
Qed.

Section Positions.
Context (m : mem) (bits : Z) (a : loc) (w : list Z).
Context (B : is_bitmap m a w bits) (Hpos : 0 < bits).

Lemma on_next o : 0 ≤ o → on a (find_next_bit bits o) m = Done (next (bit w) bits o, m).
Proof.
  intros Ho. destruct B as [Ha Hw Hl Hb]. unfold on. rewrite Ha.
  rewrite find_next_bit_spec by (done || lia). by rewrite insert_id.
Qed.

(** The first set bit below [bits], or some bit behind them. *)
Lemma first_int_spec : ∃ i, first_int a bits m = Done (i, m) ∧ 0 ≤ i ∧
  (i < bits → bit w i = true) ∧ ∀ k, 0 ≤ k < i → k < bits → bit w k = false.
Proof.
  destruct B as [Ha Hw Hl Hb]. unfold first_int. run_simpl. unfold on. rewrite Ha.
  rewrite find_first_bit_spec by (done || lia). rewrite insert_id by done. cbn beta iota.
  pose proof (Z.div_mod (bits + 31) 32 ltac:(lia)). pose proof (Z.mod_pos_bound (bits + 31) 32 ltac:(lia)).
  set (n := 32 * ((bits + 31) / 32)) in *.
  destruct (next_result (bit w) n 0) as (H1 & H2 & H3); [lia|].
  exists (next (bit w) n 0). rewrite s32_small by lia. split; [done|]. split; [lia|].
  split; [intros; apply H2; lia|]. intros k Hk _. by apply H3.
Qed.

Lemma ord_loop_spec fuel pos i ord : 0 ≤ i ≤ pos → pos < bits → bit w pos = true → bit w i = true →
  ord = count (bit w) 0 (Z.to_nat i) → pos - i ≤ Z.of_nat fuel →
  ord_loop fuel a bits pos i ord m = Done ((pos, count (bit w) 0 (Z.to_nat pos)), m).
Proof.
  pose proof (bm_bits _ _ _ _ B) as Hb. revert i ord.
  induction fuel as [|fuel IH]; intros i ord Hi Hlt Hp Hbi -> Hf; cbn [ord_loop];
    (destruct (Z.ltb_spec i pos); [|assert (i = pos) as -> by lia; done]); [lia|].
  run_simpl. rewrite s32_small by lia. rewrite on_next by lia. cbn beta iota.
  destruct (next_result (bit w) bits (i + 1)) as (H1 & H2 & H3); [lia|].
  set (j := next (bit w) bits (i + 1)) in *.
  assert (j ≤ pos).
  { destruct (Z.le_gt_cases j pos); [done|]. rewrite H3 in Hp by lia. done. }
  pose proof (count_range (bit w) 0 (Z.to_nat i)).
  rewrite s32_small by lia. apply IH; [lia|done|done|apply H2; lia| |lia].
  rewrite <- count_next by (done || lia). symmetry. apply count_to; [lia|]. intros k Hk. apply H3. lia.
Qed.

Lemma pos_to_ord_set pos : 0 ≤ pos < bits → bit w pos = true →
  bitmap_pos_to_ord a pos bits m = Done (count (bit w) 0 (Z.to_nat pos), m).
Proof.
  intros Hp Hb. destruct B as [Ha Hw Hl Hbits]. unfold bitmap_pos_to_ord.
  destruct (Z.ltb_spec pos 0), (Z.leb_spec bits pos); try lia. cbn [orb]. unfold test_bit. run_simpl.
  assert (0 ≤ pos / 32) by (apply Z.div_pos; lia).
  rewrite (rd_word m a w) by (done || (split; [lia|apply Z.div_lt_upper_bound; lia])).
  cbn beta iota. rewrite <- bit_word, Hb.
  destruct first_int_spec as (i & -> & Hi & Hset & Hno).
  assert (i ≤ pos) by (destruct (Z.le_gt_cases i pos); [done|]; rewrite Hno in Hb by lia; done).
  rewrite ord_loop_spec; [|lia|lia|done|apply Hset; lia| |lia].
  - cbn. by rewrite Z.eqb_refl.
  - rewrite (count_to _ 0 i) by (lia || (intros; apply Hno; lia)). done.
Qed.

Lemma pos_to_ord_clear pos : ¬ (0 ≤ pos < bits ∧ bit w pos = true) →
  bitmap_pos_to_ord a pos bits m = Done (- 1, m).
Proof.
  intros Hn. destruct B as [Ha Hw Hl Hbits]. unfold bitmap_pos_to_ord.
  destruct (Z.ltb_spec pos 0); [done|]. destruct (Z.leb_spec bits pos); [done|]. cbn [orb].
  unfold test_bit. run_simpl. assert (0 ≤ pos / 32) by (apply Z.div_pos; lia).
  rewrite (rd_word m a w) by (done || (split; [lia|apply Z.div_lt_upper_bound; lia])).
  cbn beta iota. rewrite <- bit_word. destruct (bit w pos); [|done]. exfalso. apply Hn. split; [lia|done].
Qed.

(** [ord] more set bits lead from [i] to the position of the wanted ordinal. *)
Lemma pos_loop_spec fuel i ord p : 0 ≤ i → 0 ≤ p < bits → bit w p = true → (i < bits → bit w i = true) →
  i ≤ p → 0 ≤ ord → count (bit w) 0 (Z.to_nat p) = count (bit w) 0 (Z.to_nat i) + ord → ord ≤ Z.of_nat fuel →
  pos_loop fuel a bits i ord m = Done ((p, 0), m).
Proof.
  pose proof (bm_bits _ _ _ _ B) as Hb. revert i ord.
  assert (Hend : ∀ i, 0 ≤ i ≤ p → p < bits → bit w i = true →
    count (bit w) 0 (Z.to_nat p) = count (bit w) 0 (Z.to_nat i) → p = i).
  { intros i Hi Hp Hbi E. destruct (Z.eq_dec p i); [done|].
    pose proof (count_mono (bit w) (i + 1) p ltac:(lia)). rewrite count_next in * by (done || lia). lia. }
  induction fuel as [|fuel IH]; intros i ord Hi Hp Hbp Hbi Hle Ho Hc Hf; cbn [pos_loop];
    (destruct (Z.ltb_spec i bits); [|lia]); destruct (Z.ltb_spec 0 ord); cbn [andb].
  - lia.
  - assert (p = i) as -> by (apply Hend; auto; lia). by replace ord with 0 by lia.
  - run_simpl. rewrite s32_small by lia. rewrite on_next by lia. cbn beta iota.
    destruct (next_result (bit w) bits (i + 1)) as (H1 & H2 & H3); [lia|].
    set (j := next (bit w) bits (i + 1)) in *.
    assert (Hne : i ≠ p) by (intros ->; lia).
    assert (j ≤ p) by (destruct (Z.le_gt_cases j p); [done|]; rewrite H3 in Hbp by lia; done).
    apply IH; auto; try lia.
    rewrite (count_to _ (i + 1) j) by (lia || (intros; apply H3; lia)).
    rewrite count_next by (auto; lia). lia.
  - assert (p = i) as -> by (apply Hend; auto; lia). by replace ord with 0 by lia.
Qed.

Lemma ord_to_pos_spec p : 0 ≤ p < bits → bit w p = true →
  bitmap_ord_to_pos a (count (bit w) 0 (Z.to_nat p)) bits m = Done (p, m).
Proof.
  intros Hp Hbp. unfold bitmap_ord_to_pos. pose proof (count_range (bit w) 0 (Z.to_nat p)).
  destruct (Z.leb_spec 0 (count (bit w) 0 (Z.to_nat p))), (Z.ltb_spec (count (bit w) 0 (Z.to_nat p)) bits); try lia.
  cbn [andb]. run_simpl. destruct first_int_spec as (i & -> & Hi & Hset & Hno).
  assert (i ≤ p) by (destruct (Z.le_gt_cases i p); [done|]; rewrite Hno in Hbp by lia; done).
  rewrite (pos_loop_spec _ _ _ p); auto; try lia.
  - cbn. destruct (Z.ltb_spec p bits); [done|lia].
  - rewrite (count_to _ 0 i) by (lia || (intros; apply Hno; lia)).
    change (count (bit w) 0 (Z.to_nat 0)) with 0. lia.
Qed.

(** Every ordinal below the weight belongs to a set bit. *)
Lemma nth_set_bit ord n : 0 ≤ ord < count (bit w) 0 n →
  ∃ p, 0 ≤ p < Z.of_nat n ∧ bit w p = true ∧ count (bit w) 0 (Z.to_nat p) = ord.
Proof.
  induction n as [|n IH]; [cbn; lia|]. intros Ho.
  replace (S n) with (n + 1)%nat in Ho by lia. rewrite count_app in Ho. cbn [count] in Ho.
  destruct (Z.lt_ge_cases ord (count (bit w) 0 n)) as [Hlt|Hge].
  - destruct IH as (p & Hp & Hb & Hc); [lia|]. exists p. split; [lia|done].
  - exists (Z.of_nat n). destruct (bit w (0 + Z.of_nat n)) eqn:E; cbn [bool2Z] in Ho; [|lia].
    split; [lia|]. split; [exact E|]. rewrite Nat2Z.id. lia.
Qed.

End Positions.

(** C26: [bitmap_pos_to_ord] and [bitmap_ord_to_pos] are inverse to each other:
    a set bit is mapped to its ordinal and back to its position, and every
    ordinal below the weight of the bitmap to a set bit and back; a bit that is
    clear or outside the bitmap is mapped to -1.  The [BUG_ON] of the search is
    not reached. *)
Theorem bitmap_ord_roundtrip (m : mem) (bits : Z) (a : loc) (w : list Z) :
  is_bitmap m a w bits → 0 < bits →
  (∀ pos, 0 ≤ pos < bits → bit w pos = true → ∃ ord, 0 ≤ ord < count (bit w) 0 (Z.to_nat bits) ∧
     bitmap_pos_to_ord a pos bits m = Done (ord, m) ∧ bitmap_ord_to_pos a ord bits m = Done (pos, m)) ∧
  (∀ ord, 0 ≤ ord < count (bit w) 0 (Z.to_nat bits) → ∃ pos, 0 ≤ pos < bits ∧ bit w pos = true ∧
     bitmap_ord_to_pos a ord bits m = Done (pos, m) ∧ bitmap_pos_to_ord a pos bits m = Done (ord, m)) ∧
  (∀ pos, ¬ (0 ≤ pos < bits ∧ bit w pos = true) → bitmap_pos_to_ord a pos bits m = Done (- 1, m)).
Proof.
  intros B Hb. split; [|split; [|by intros; eapply pos_to_ord_clear]].
  - intros pos Hp Hbit. exists (count (bit w) 0 (Z.to_nat pos)).
    pose proof (count_mono (bit w) (pos + 1) bits ltac:(lia)). rewrite count_next in * by (done || lia).
    pose proof (count_range (bit w) 0 (Z.to_nat pos)). split; [lia|].
    split; [by apply pos_to_ord_set|by apply ord_to_pos_spec].
  - intros ord Ho. destruct (nth_set_bit w ord (Z.to_nat bits) Ho) as (p & Hp & Hbit & <-).
    exists p. split; [lia|]. split; [done|].
    split; [apply ord_to_pos_spec; done || lia|apply pos_to_ord_set; done || lia].
Qed.

Lemma bitmap_ord_roundtrip_witness :
  bitmap_pos_to_ord 1%positive 33 70 demo_mem = Done (5, demo_mem) ∧
  ∃ ord, bitmap_pos_to_ord 1%positive 33 70 demo_mem = Done (ord, demo_mem) ∧
    bitmap_ord_to_pos 1%positive ord 70 demo_mem = Done (33, demo_mem).
Proof.
  split; [vm_compute; reflexivity|]. destruct demo_bitmaps as [B1 _].
  destruct (bitmap_ord_roundtrip demo_mem 70 1%positive _ B1 ltac:(lia)) as (H & _).
  destruct (H 33 ltac:(lia) eq_refl) as (ord & _ & H1 & H2). exists ord. split; [exact H1|exact H2].
Defined.

(** ** Remapping *)

Section Remap.
Context (m : mem) (bits : Z) (dst src old new : loc) (wd ws wo wn : list Z).
Context (Bd : is_bitmap m dst wd bits) (Bs : is_bitmap m src ws bits).
Context (Bo : is_bitmap m old wo bits) (Bn : is_bitmap m new wn bits) (Hpos : 0 < bits).
Context (Hds : dst ≠ src) (Hdo : dst ≠ old) (Hdn : dst ≠ new).
Let W := count (bit wn) 0 (Z.to_nat bits).

Lemma other_bitmap a w w' : a ≠ dst → is_bitmap m a w bits → is_bitmap (<[dst := w']> m) a w bits.
Proof. intros Hne [Ha ???]. split; try done. by rewrite lookup_insert_ne. Qed.

(** The position a bit is mapped to, whatever the destination holds. *)
Definition remap_bit (oldbit : Z) : M mem Z :=
  n ← bitmap_pos_to_ord old oldbit bits;
  if (n <? 0) || (W =? 0) then mret oldbit else bitmap_ord_to_pos new (Z.rem n W) bits.

Lemma remap_bit_spec i : 0 ≤ i < bits → ∃ j, 0 ≤ j < bits ∧ remap_bit i m = Done (j, m) ∧
  ∀ w', remap_bit i (<[dst := w']> m) = Done (j, <[dst := w']> m).
Proof.
  intros Hi. pose proof (count_range (bit wn) 0 (Z.to_nat bits)) as HW. fold W in HW.
  unfold remap_bit. run_simpl.
  destruct (bit wo i) eqn:Ei.
  - pose proof (count_range (bit wo) 0 (Z.to_nat i)) as Hc.
    rewrite (pos_to_ord_set m bits old wo) by done.
    setoid_rewrite (λ w', pos_to_ord_set (<[dst := w']> m) bits old wo (other_bitmap old wo w' (not_eq_sym Hdo) Bo) Hpos i Hi Ei).
    destruct (Z.ltb_spec (count (bit wo) 0 (Z.to_nat i)) 0); [lia|]. cbn [orb].
    destruct (Z.eqb_spec W 0) as [E|E]; [by exists i|].
    rewrite Z.rem_mod_nonneg by lia. set (n := count (bit wo) 0 (Z.to_nat i)) in *.
    pose proof (Z.mod_pos_bound n W ltac:(lia)) as Hm.
    destruct (nth_set_bit wn (n mod W) (Z.to_nat bits) Hm) as (p & Hp & Hbit & Hord).
    exists p. split; [lia|]. rewrite <- Hord.
    split; [apply ord_to_pos_spec; done || lia|]. intros w'.
    apply ord_to_pos_spec; [by apply other_bitmap|done|lia|done].
  - exists i. split; [done|].
    rewrite (pos_to_ord_clear m bits old wo) by (done || (rewrite Ei; by intros [_ ?])).
    split; [done|]. intros w'.
    rewrite (pos_to_ord_clear _ bits old wo); [done|by apply other_bitmap|rewrite Ei; by intros [_ ?]].
Qed.

Lemma set_bit_spec w' p : is_bitmap (<[dst := w']> m) dst w' bits → 0 ≤ p < bits →
  ∃ w'', set_bit p dst (<[dst := w']> m) = Done (tt, <[dst := w'']> m) ∧
    is_bitmap (<[dst := w'']> m) dst w'' bits ∧ ∀ i, 0 ≤ i → bit w'' i = bit w' i || (i =? p).
Proof.
  intros [Ha Hw Hl Hb] Hp. unfold set_bit. run_simpl.
  destruct (bit_index p) as (k & j & E & Hk & Hj); [lia|].
  replace (p / 32) with k by (apply (Z.div_unique _ _ _ j); lia).
  replace (p mod 32) with j by (apply (Z.mod_unique _ _ k); lia).
  rewrite (rd_word _ dst w') by (done || lia). cbn beta iota. rewrite wr_done by lia.
  assert (Hx : 0 ≤ Z.shiftl 1 j < 2 ^ 32).
  { rewrite Z.shiftl_1_l. split; [apply Z.pow_nonneg; lia|apply Z.pow_lt_mono_r; lia]. }
  eexists. split; [done|]. split.
  - split; [by rewrite lookup_insert_eq| |by rewrite length_insert|done]. apply words_ok_word.
    intros q Hq. rewrite length_insert in Hq. destruct (decide (q = k)) as [->|].
    + rewrite word_insert_eq by lia. apply lor_range; [by apply word_range|done].
    + rewrite word_insert_ne by lia. by apply word_range.
  - intros i Hi. destruct (bit_index i) as (q & t & -> & Hq & Ht); [lia|]. rewrite !bit_split by done.
    destruct (decide (q = k)) as [->|Hne].
    + rewrite word_insert_eq, Z.lor_spec, Z.shiftl_1_l, Z.pow2_bits_eqb by lia. f_equal.
      destruct (Z.eqb_spec j t), (Z.eqb_spec (32 * k + t) p); done || lia.
    + rewrite word_insert_ne by lia. destruct (Z.eqb_spec (32 * q + t) p); [lia|]. by rewrite orb_false_r.
Qed.

Definition target (i : Z) : Z := match remap_bit i m with Done (j, _) => j | Fault _ => 0 end.

(** The image of the bits of [src] below [n]. *)
Definition image_below (n : Z) (w' : list Z) : Prop :=
  ∀ j, 0 ≤ j < bits → bit w' j = true ↔ ∃ i, 0 ≤ i < n ∧ i < bits ∧ bit ws i = true ∧ target i = j.

Lemma image_skip n n' w' : n ≤ n' → (∀ k, n ≤ k < n' → k < bits → bit ws k = false) →
  image_below n w' → image_below n' w'.
Proof.
  intros Hn Hno H j Hj. rewrite (H j Hj). split; intros (i & Hi & Hb & Hs & Ht); exists i.
  - split; [lia|done].
  - split; [|done]. destruct (Z.lt_ge_cases i n); [lia|]. rewrite Hno in Hs by lia. done.
Qed.

Lemma remap_loop_spec fuel w' oldbit : is_bitmap (<[dst := w']> m) dst w' bits →
  0 ≤ oldbit → (oldbit < bits → bit ws oldbit = true) → image_below oldbit w' →
  bits - oldbit ≤ Z.of_nat fuel →
  ∃ w'', remap_loop fuel dst src old new bits W oldbit (<[dst := w']> m) = Done (tt, <[dst := w'']> m) ∧
    image_below bits w''.
Proof.
  pose proof (bm_bits _ _ _ _ Bd) as Hbits. revert w' oldbit.
  induction fuel as [|fuel IH]; intros w' o B' Ho Hbo Him Hf; cbn [remap_loop];
    (destruct (Z.ltb_spec o bits);
     [|exists w'; split; [done|]; intros j Hj; rewrite (Him j Hj);
       split; intros (i & Hi & ?); exists i; split; done || lia]); [lia|].
  destruct (remap_bit_spec o ltac:(lia)) as (p & Hp & Em & Ew). specialize (Ew w').
  destruct (set_bit_spec w' p B' Hp) as (w1 & Es & B1 & Hw1).
  assert (Estep : (n ← bitmap_pos_to_ord old o bits;
      (if (n <? 0) || (W =? 0) then set_bit o dst
       else p ← bitmap_ord_to_pos new (Z.rem n W) bits; set_bit p dst)) (<[dst := w']> m) =
      Done (tt, <[dst := w1]> m)).
  { unfold remap_bit in Ew. run_simpl. destruct (bitmap_pos_to_ord old o bits (<[dst := w']> m)) as [[n s]|]; [|done].
    destruct ((n <? 0) || (W =? 0)); [by simplify_eq|].
    destruct (bitmap_ord_to_pos new (Z.rem n W) bits s) as [[q s']|]; by simplify_eq. }
  run_simpl. destruct (bitmap_pos_to_ord old o bits (<[dst := w']> m)) as [[n s]|]; [|done].
  rewrite Estep. rewrite s32_small by lia.
  rewrite (on_next _ bits src ws (other_bitmap src ws w1 (not_eq_sym Hds) Bs)) by lia. cbn beta iota.
  destruct (next_result (bit ws) bits (o + 1)) as (H1 & H2 & H3); [lia|].
  apply IH; [done|lia|done| |lia].
  apply (image_skip (o + 1)); [lia|intros k Hk _; apply H3; lia|].
  intros j Hj. rewrite Hw1, orb_true_iff, Z.eqb_eq, (Him j Hj) by lia.
  assert (target o = p) as Ht by (unfold target; by rewrite Em). split.
  - intros [(i & Hi & ?)| ->]; [exists i; split; [lia|done]|]. exists o. split; [lia|]. auto.
  - intros (i & Hi & Hb & Hs & Hti). destruct (decide (i = o)) as [->|]; [right; congruence|].
    left. exists i. split; [lia|done].
Qed.

Lemma bitmap_zero_spec : ∃ w', bitmap_zero dst bits m = Done (tt, <[dst := w']> m) ∧
  is_bitmap (<[dst := w']> m) dst w' bits ∧ ∀ i, 0 ≤ i < bits → bit w' i = false.
Proof.
  destruct Bd as [Hd Hw Hl Hb]. unfold bitmap_zero. change BITS_PER_LONG with 32.
  destruct (bits_to_longs_bound bits (Z.of_nat (length wd))) as [Hlim Hle]; [lia|done|].
  assert (Hz : ∃ w', (if bits <=? 32 then wr dst 0 0 else memset_words dst 0 (BITS_TO_LONGS bits)) m =
      Done (tt, <[dst := w']> m) ∧ length w' = length wd ∧
      (∀ k, 0 ≤ k → 32 * k < bits → word w' k = 0) ∧ ∀ k, 0 ≤ k → word w' k = 0 ∨ word w' k = word wd k).
  { rewrite <- (insert_id m dst wd) by done. destruct (Z.leb_spec bits 32).
    - rewrite wr_done by lia. eexists. rewrite insert_insert_eq. split; [done|]. split; [by rewrite length_insert|].
      split; [intros k Hk Hlt; assert (k = 0) as -> by lia; apply word_insert_eq; lia|].
      intros k Hk'. destruct (decide (k = 0)) as [->|]; [left; apply word_insert_eq; lia|].
      right. apply word_insert_ne; lia.
    - destruct (memset_words_spec m dst wd 0 (BITS_TO_LONGS bits)) as (w' & E & Hl' & Hw'); [lia|lia|lia|].
      exists w'. rewrite insert_insert_eq. split; [exact E|]. split; [done|]. split.
      + intros k Hk Hlt. rewrite Hw' by done. destruct (Z.leb_spec 0 k), (Z.ltb_spec k (0 + BITS_TO_LONGS bits)); done || lia.
      + intros q Hq. rewrite Hw' by done. destruct (_ && _); auto. }
  destruct Hz as (w' & E & Hl' & Hw' & Hall). exists w'. split; [done|]. split.
  - split; [by rewrite lookup_insert_eq| |by rewrite Hl'|done]. apply words_ok_word. intros k Hk.
    destruct (Hall k) as [-> | ->]; [lia|lia|by apply word_range].
  - intros i Hi. destruct (bit_index i) as (k & j & -> & Hk & Hj); [lia|]. rewrite bit_split by done.
    rewrite Hw' by lia. apply Z.bits_0.
Qed.

Lemma bitremap_spec i : 0 ≤ i < bits → 0 ≤ target i < bits ∧ bitmap_bitremap i old new bits m = Done (target i, m).
Proof.
  intros Hi. destruct (remap_bit_spec i Hi) as (j & Hj & E & _).
  assert (target i = j) as -> by (unfold target; by rewrite E). split; [done|].
  unfold bitmap_bitremap. run_simpl. rewrite (count_all_words m bits new wn) by done. exact E.
Qed.

Lemma remap_spec : ∃ w', bitmap_remap dst src old new bits m = Done (tt, <[dst := w']> m) ∧ image_below bits w'.
Proof.
  pose proof (bm_bits _ _ _ _ Bd) as Hbits. destruct bitmap_zero_spec as (w0 & E0 & B0 & Hw0).
  unfold bitmap_remap. destruct (decide (dst = src)); [done|]. run_simpl. rewrite E0. cbn beta iota.
  rewrite (count_all_words _ bits new wn) by (done || by apply other_bitmap). cbn beta iota. fold W.
  destruct (first_int_spec (<[dst := w0]> m) bits src ws) as (i & -> & Hi & Hset & Hno); [by apply other_bitmap|done|].
  apply remap_loop_spec; auto; [|lia].
  apply (image_skip 0); [lia|intros k Hk Hb; apply Hno; lia|].
  intros j Hj. rewrite Hw0 by done. split; [done|]. intros (k & Hk & _). lia.
Qed.

End Remap.

(** [bitmap_remap] sets in the destination exactly the images of the bits
    of [src] under the map that [bitmap_bitremap] computes: the n-th set bit of
    [old] goes to the set bit of [new] whose ordinal is n modulo its weight, and
    the other bits stay where they are.  The map never leaves the bitmap. *)
Theorem bitmap_remap_image (m : mem) (bits : Z) (dst src old new : loc) (wd ws wo wn : list Z) :
  is_bitmap m dst wd bits → is_bitmap m src ws bits → is_bitmap m old wo bits → is_bitmap m new wn bits →
  0 < bits → dst ≠ src → dst ≠ old → dst ≠ new →
  ∃ f w', (∀ i, 0 ≤ i < bits → 0 ≤ f i < bits ∧ bitmap_bitremap i old new bits m = Done (f i, m)) ∧
    bitmap_remap dst src old new bits m = Done (tt, <[dst := w']> m) ∧
    ∀ j, 0 ≤ j < bits → bit w' j = true ↔ ∃ i, 0 ≤ i < bits ∧ bit ws i = true ∧ f i = j.
Proof.
  intros Bd Bs Bo Bn Hb Hds Hdo Hdn. exists (target m bits old new wn).
  destruct (remap_spec m bits dst src old new wd ws wo wn Bd Bs Bo Bn Hb Hds Hdo Hdn) as (w' & E & Him).
  exists w'. split; [intros i Hi; by eapply bitremap_spec|].
  split; [done|]. intros j Hj. rewrite (Him j Hj). split; intros (i & Hi & H); exists i; tauto.
Qed.

(** The example of the source: 4..7 is mapped to 12..15, and {1, 5, 7} to {1, 13, 15}. *)
Definition remap_mem : mem :=
  {[ 1%positive := [0xFFFF]; 2%positive := [0xA2]; 3%positive := [0xF0]; 4%positive := [0xF000] ]}.

Lemma bitmap_remap_image_witness :
  bitmap_remap 1%positive 2%positive 3%positive 4%positive 16 remap_mem =
    Done (tt, <[1%positive := [0xA002]]> remap_mem) ∧
  ∃ f w', bitmap_remap 1%positive 2%positive 3%positive 4%positive 16 remap_mem =
      Done (tt, <[1%positive := w']> remap_mem) ∧
    ∀ j, 0 ≤ j < 16 → bit w' j = true ↔ ∃ i, 0 ≤ i < 16 ∧ bit [0xA2] i = true ∧ f i = j.
Proof.
  split; [vm_compute; reflexivity|].
  assert (HB : ∀ a w, remap_mem !! a = Some w → length w = 1%nat → words_ok w → is_bitmap remap_mem a w 16).
  { intros a w Ha Hl Hw. split; [exact Ha|exact Hw|rewrite Hl; lia|lia]. }
  assert (HW : ∀ x, 0 ≤ x < 2 ^ 32 → words_ok [x]).
  { intros x Hx. apply list.Forall_cons. split; [exact Hx|]. by apply list.Forall_nil. }
  destruct (bitmap_remap_image remap_mem 16 1%positive 2%positive 3%positive 4%positive
    [0xFFFF] [0xA2] [0xF0] [0xF000]) as (f & w' & _ & H1 & H2).
  1, 2, 3, 4: apply HB; [vm_compute; reflexivity|reflexivity|apply HW; lia].
  1: lia.
  1, 2, 3: discriminate.
  exists f, w'. split; [exact H1|exact H2].
Defined.
