(* ===== verification/NetlinkAttr.v ===== *)
(** Netlink attributes: net/netlink/attr.c and the inline functions of
    include/net/netlink.h.

    Attributes are built at the tail of a linear socket buffer and parsed from
    a byte stream.  The buffer from [skb->head] to [skb->end] is a list of
    bytes, and [struct nlattr] pointers are offsets into it; an access outside
    the buffer is a fault.  The machine is little-endian. *)

From S2P Require Import Prelude.

(** ** Bytes *)

Definition sub (buf : list Z) (p n : Z) : list Z := take (Z.to_nat n) (drop (Z.to_nat p) buf).
Definition splice (buf : list Z) (p : Z) (bs : list Z) : list Z :=
  take (Z.to_nat p) buf ++ bs ++ drop (Z.to_nat p + length bs) buf.

Definition le16 (bs : list Z) : Z := nth 0 bs 0 + 256 * nth 1 bs 0.
Definition bytes16 (x : Z) : list Z := [x mod 256; x / 256 mod 256].

(** ** The socket buffer *)

Record nskb := Nskb {
  nb_buf : list Z;      (* head .. end *)
  nb_data : Z;          (* data - head *)
  nb_tail : Z;          (* tail - head *)
  nb_len : Z;
}.

Abbreviation NM := (M nskb).

Definition zlen (l : list Z) : Z := Z.of_nat (length l).

Definition rdb (p n : Z) : NM (list Z) := λ s,
  if (0 <=? p) && (0 <=? n) && (p + n <=? zlen (nb_buf s)) then Done (sub (nb_buf s) p n, s) else Fault FBounds.
Definition wrb (p : Z) (bs : list Z) : NM unit := λ s,
  if (0 <=? p) && (p + zlen bs <=? zlen (nb_buf s))
  then Done (tt, Nskb (splice (nb_buf s) p bs) (nb_data s) (nb_tail s) (nb_len s)) else Fault FBounds.
Definition ld16 (p : Z) : NM Z := bs ← rdb p 2; mret (le16 bs).

Definition skb_put (len : Z) : NM Z := λ s,
  let tmp := nb_tail s in
  if zlen (nb_buf s) <? tmp + len then Fault FPanic
  else Done (tmp, Nskb (nb_buf s) (nb_data s) (tmp + len) (u32 (nb_len s + len))).
Definition skb_tailroom : NM Z := gets (λ s, zlen (nb_buf s) - nb_tail s).
Definition skb_trim (len : Z) : NM unit :=
  modify (λ s, if len <? nb_len s then Nskb (nb_buf s) (nb_data s) (nb_data s + len) len else s).

(** ** Attribute access (netlink.h) *)

Definition NLA_ALIGN (len : Z) : Z := Z.land (len + 3) (- 4).
Definition NLA_HDRLEN : Z := 4.
Definition SIZEOF_NLATTR : Z := 4.
Definition nla_attr_size (payload : Z) : Z := NLA_HDRLEN + payload.
Definition nla_total_size (payload : Z) : Z := NLA_ALIGN (nla_attr_size payload).
Definition nla_padlen (payload : Z) : Z := nla_total_size payload - nla_attr_size payload.
Definition nla_data (nla : Z) : Z := nla + NLA_HDRLEN.
Definition get_nla_len (nla : Z) : NM Z := ld16 nla.
Definition get_nla_type (nla : Z) : NM Z := ld16 (nla + 2).
Definition nla_len (nla : Z) : NM Z := l ← get_nla_len nla; mret (l - NLA_HDRLEN).

(** [remaining] is an [int] but compared with [sizeof] as an unsigned number. *)
Definition nla_ok (nla remaining : Z) : NM bool :=
  if u32 remaining <? SIZEOF_NLATTR then mret false else
  l ← get_nla_len nla;
  mret ((SIZEOF_NLATTR <=? l) && (l <=? remaining)).
Definition nla_next (nla remaining : Z) : NM (Z * Z) :=
  l ← get_nla_len nla;
  let totlen := NLA_ALIGN l in
  mret (nla + totlen, remaining - totlen).

(** [nla_for_each_attr]: the body goes on with a new accumulator or leaves the
    loop with a result; at the end the accumulator and [rem] are returned. *)
Section Loop.
Context {A R : Type} (body : Z → A → NM (A + R)).

Fixpoint for_each_attr (fuel : nat) (nla rem : Z) (acc : A) : NM ((A * Z) + R) :=
  ok ← nla_ok nla rem;
  if (ok : bool) then
    match fuel with
    | O => fail FFuel
    | S fuel =>
        r ← body nla acc;
        match r with
        | inr x => mret (inr x)
        | inl acc => p ← nla_next nla rem; for_each_attr fuel p.1 p.2 acc
        end
    end
  else mret (inl (acc, rem)).

End Loop.

(** ** Validation and parsing (attr.c) *)

Definition NLA_UNSPEC : Z := 0.
Definition NLA_U8 : Z := 1.
Definition NLA_U16 : Z := 2.
Definition NLA_U32 : Z := 3.
Definition NLA_U64 : Z := 4.
Definition NLA_STRING : Z := 5.
Definition NLA_FLAG : Z := 6.
Definition NLA_MSECS : Z := 7.
Definition NLA_NESTED : Z := 8.
Definition NLA_NUL_STRING : Z := 9.
Definition NLA_TYPE_MAX : Z := 9.

Definition ERANGE : Z := 34.

Record nla_policy := NlaPolicy { np_type : Z; np_len : Z }.

(** The entries the source leaves out are 0. *)
Definition nla_attr_minlen : list Z := [0; 1; 2; 4; 8; 0; 0; 0; NLA_HDRLEN; 0].

(** [memchr(p, '\0', n) != NULL] *)
Definition has_nul (p n : Z) : NM bool := bs ← rdb p n; mret (existsb (λ b, b =? 0) bs).

(** The cases [NLA_NUL_STRING] and, below it, [NLA_STRING] *)
Definition validate_string (nla attrlen len : Z) : NM Z :=
  if attrlen <? 1 then mret (- ERANGE) else
  if len =? 0 then mret 0 else
  last ← rdb (nla_data nla + (attrlen - 1)) 1;
  let attrlen := if nth 0 last 0 =? 0 then attrlen - 1 else attrlen in
  mret (if len <? attrlen then - ERANGE else 0).

Definition validate_nla (nla maxtype : Z) (policy : list nla_policy) : NM Z :=
  attrlen ← nla_len nla;
  type ← get_nla_type nla;
  if (type <=? 0) || (maxtype <? type) then mret 0 else
  match policy !! Z.to_nat type with
  | None => fail FBounds
  | Some pt =>
      if NLA_TYPE_MAX <? np_type pt then fail FBug else
      if np_type pt =? NLA_FLAG then mret (if 0 <? attrlen then - ERANGE else 0)
      else if np_type pt =? NLA_NUL_STRING then
        let minlen := if np_len pt =? 0 then attrlen else Z.min attrlen (np_len pt + 1) in
        if minlen =? 0 then mret (- EINVAL) else
        b ← has_nul (nla_data nla) minlen;
        if (b : bool) then validate_string nla attrlen (np_len pt) else mret (- EINVAL)
      else if np_type pt =? NLA_STRING then validate_string nla attrlen (np_len pt)
      else
        let minlen := if negb (np_len pt =? 0) then np_len pt
                      else if negb (np_type pt =? NLA_UNSPEC)
                      then nth (Z.to_nat (np_type pt)) nla_attr_minlen 0 else 0 in
        mret (if attrlen <? minlen then - ERANGE else 0)
  end.

(** At most one attribute per four bytes is visited. *)
Definition loop_fuel (len : Z) : nat := Z.to_nat len.

Definition nla_validate (head len maxtype : Z) (policy : list nla_policy) : NM Z :=
  r ← for_each_attr (λ nla (_ : unit),
        err ← validate_nla nla maxtype policy;
        mret (if err <? 0 then inr err else inl tt)) (loop_fuel len) head len tt;
  mret (match r with inl _ => 0 | inr err => err end).

(** The table [tb] has [maxtype + 1] entries; a NULL policy is [None].  The
    warning about left-over bytes is not modelled. *)
Definition parse_body (maxtype : Z) (policy : option (list nla_policy)) (nla : Z) (tb : list (option Z)) :
    NM (list (option Z) + Z * list (option Z)) :=
  type ← get_nla_type nla;
  if (0 <? type) && (type <=? maxtype) then
    err ← (match policy with Some pol => validate_nla nla maxtype pol | None => mret 0 end);
    if err <? 0 then mret (inr (err, tb))
    else mret (inl (<[Z.to_nat type := Some nla]> tb))
  else mret (inl tb).
Definition nla_parse (maxtype head len : Z) (policy : option (list nla_policy)) :
    NM (Z * list (option Z)) :=
  r ← for_each_attr (parse_body maxtype policy) (loop_fuel len) head len
        (replicate (Z.to_nat (maxtype + 1)) None);
  mret (match r with inl (tb, _) => (0, tb) | inr x => x end).

Definition find_body (attrtype : Z) (nla : Z) (_ : unit) : NM (unit + Z) :=
  type ← get_nla_type nla; mret (if type =? attrtype then inr nla else inl tt).
Definition nla_find (head len attrtype : Z) : NM (option Z) :=
  r ← for_each_attr (find_body attrtype) (loop_fuel len) head len tt;
  mret (match r with inl _ => None | inr nla => Some nla end).

Definition nla_find_nested (nla attrtype : Z) : NM (option Z) :=
  l ← nla_len nla; nla_find (nla_data nla) l attrtype.
Definition nla_parse_nested (maxtype nla : Z) (policy : option (list nla_policy)) :
    NM (Z * list (option Z)) :=
  l ← nla_len nla; nla_parse maxtype (nla_data nla) l policy.

(** ** Reading payloads *)

(** The new contents of [dst] are returned with the result; [dst] has at least
    [dstsize] bytes. *)
Definition nla_strlcpy (nla dstsize : Z) : NM (Z * list Z) :=
  l ← nla_len nla;
  let srclen := u32 l in
  srclen ← (if 0 <? srclen then last ← rdb (nla_data nla + (srclen - 1)) 1;
                                mret (if nth 0 last 0 =? 0 then srclen - 1 else srclen)
            else mret srclen);
  if 0 <? dstsize then
    let len := if dstsize <=? srclen then dstsize - 1 else srclen in
    src ← rdb (nla_data nla) len;
    mret (srclen, src ++ replicate (Z.to_nat (dstsize - len)) 0)
  else mret (srclen, []).

Definition nla_memcpy (src count : Z) : NM (Z * list Z) :=
  l ← nla_len src;
  let minlen := Z.min count l in
  bs ← rdb (nla_data src) minlen; mret (minlen, bs).

(** The difference of the first bytes that differ (lib/string.c). *)
Fixpoint memcmp (a b : list Z) : Z :=
  match a, b with
  | x :: a, y :: b => if x =? y then memcmp a b else x - y
  | _, _ => 0
  end.

Definition nla_memcmp (nla : Z) (data : list Z) (size : Z) : NM Z :=
  l ← nla_len nla;
  let d := s32 (l - size) in
  if d =? 0 then bs ← rdb (nla_data nla) size; mret (memcmp bs data) else mret d.
(** [str] without its terminating NUL *)
Definition nla_strcmp (nla : Z) (str : list Z) : NM Z :=
  let len := zlen str + 1 in
  l ← nla_len nla;
  let d := l - len in
  if d =? 0 then bs ← rdb (nla_data nla) len; mret (memcmp bs (str ++ [0])) else mret d.

(** ** Building attributes *)

Definition __nla_reserve (attrtype attrlen : Z) : NM Z :=
  nla ← skb_put (nla_total_size attrlen);
  wrb (nla + 2) (bytes16 (u16 attrtype)) ;;
  wrb nla (bytes16 (u16 (nla_attr_size attrlen))) ;;
  l ← get_nla_len nla;
  wrb (nla + l) (replicate (Z.to_nat (nla_padlen attrlen)) 0) ;;
  mret nla.
Definition __nla_reserve_nohdr (attrlen : Z) : NM Z :=
  start ← skb_put (NLA_ALIGN attrlen);
  wrb start (replicate (Z.to_nat (NLA_ALIGN attrlen)) 0) ;;
  mret start.
Definition nla_reserve (attrtype attrlen : Z) : NM (option Z) :=
  room ← skb_tailroom;
  if room <? nla_total_size attrlen then mret None
  else nla ← __nla_reserve attrtype attrlen; mret (Some nla).
Definition nla_reserve_nohdr (attrlen : Z) : NM (option Z) :=
  room ← skb_tailroom;
  if room <? NLA_ALIGN attrlen then mret None
  else start ← __nla_reserve_nohdr attrlen; mret (Some start).

(** [memcpy(p, data, n)] from a caller's object of [length data] bytes *)
Definition copy_in (p : Z) (data : list Z) (n : Z) : NM unit :=
  if zlen data <? n then fail FBounds else wrb p (take (Z.to_nat n) data).
Definition __nla_put (attrtype attrlen : Z) (data : list Z) : NM unit :=
  nla ← __nla_reserve attrtype attrlen;
  copy_in (nla_data nla) data attrlen.
Definition __nla_put_nohdr (attrlen : Z) (data : list Z) : NM unit :=
  start ← __nla_reserve_nohdr attrlen;
  copy_in start data attrlen.
Definition nla_put (attrtype attrlen : Z) (data : list Z) : NM Z :=
  room ← skb_tailroom;
  if room <? nla_total_size attrlen then mret (- 1)
  else __nla_put attrtype attrlen data ;; mret 0.
Definition nla_put_nohdr (attrlen : Z) (data : list Z) : NM Z :=
  room ← skb_tailroom;
  if room <? NLA_ALIGN attrlen then mret (- 1)
  else __nla_put_nohdr attrlen data ;; mret 0.

Definition nla_nest_start (attrtype : Z) : NM (option Z) :=
  start ← gets nb_tail;
  r ← nla_put attrtype 0 [];
  mret (if r <? 0 then None else Some start).
Definition nla_nest_end (start : Z) : NM Z :=
  tail ← gets nb_tail;
  wrb start (bytes16 (u16 (tail - start))) ;;
  gets nb_len.
Definition nlmsg_trim (mark : option Z) : NM Z :=
  match mark with
  | Some p => data ← gets nb_data; skb_trim (u32 (p - data))
  | None => mret tt
  end ;;
  mret (- 1).
Definition nla_nest_cancel (start : option Z) : NM Z := nlmsg_trim start.

(** ** Lemmas on bytes *)

Lemma align_spec n : n ≤ NLA_ALIGN n ≤ n + 3 ∧ NLA_ALIGN n mod 4 = 0.
Proof.
  unfold NLA_ALIGN. change (- 4) with (Z.lnot (Z.ones 2)). rewrite <- Z.ldiff_land, Z.ldiff_ones_r by lia.
  rewrite Z.shiftl_mul_pow2, Z.shiftr_div_pow2 by lia. change (2 ^ 2) with 4.
  pose proof (Z.div_mod (n + 3) 4 ltac:(lia)). pose proof (Z.mod_pos_bound (n + 3) 4 ltac:(lia)).
  split; [lia|]. by apply Z.mod_mul.
Qed.

Definition bytes_ok (bs : list Z) : Prop := Forall (λ b, 0 ≤ b < 256) bs.

Lemma sub_length buf p n : 0 ≤ p → 0 ≤ n → p + n ≤ zlen buf → zlen (sub buf p n) = n.
Proof. unfold zlen, sub. intros. rewrite length_take, length_drop. lia. Qed.

Lemma rdb_done s p n : 0 ≤ p → 0 ≤ n → p + n ≤ zlen (nb_buf s) → rdb p n s = Done (sub (nb_buf s) p n, s).
Proof.
  intros. unfold rdb.
  destruct (Z.leb_spec 0 p), (Z.leb_spec 0 n), (Z.leb_spec (p + n) (zlen (nb_buf s))); done || lia.
Qed.

Lemma ld16_done s p : 0 ≤ p → p + 2 ≤ zlen (nb_buf s) → ld16 p s = Done (le16 (sub (nb_buf s) p 2), s).
Proof. intros. unfold ld16. run_simpl. by rewrite rdb_done by lia. Qed.

Lemma sub_bytes buf p n : bytes_ok buf → bytes_ok (sub buf p n).
Proof. intros H. unfold sub. apply Forall_take, Forall_drop, H. Qed.

Lemma nth_byte bs i : bytes_ok bs → 0 ≤ nth i bs 0 < 256.
Proof.
  intros H. destruct (nth_in_or_default i bs 0) as [Hin| ->]; [|lia].
  unfold bytes_ok in H. rewrite list.Forall_forall in H. apply H. by apply list_elem_of_In.
Qed.

Lemma le16_range bs : bytes_ok bs → 0 ≤ le16 bs < 2 ^ 16.
Proof. intros H. unfold le16. pose proof (nth_byte bs 0 H). pose proof (nth_byte bs 1 H). lia. Qed.

(** ** Parsing an arbitrary stream *)

(** The header of the attribute at [nla]. *)
Definition len_at (s : nskb) (nla : Z) : Z := le16 (sub (nb_buf s) nla 2).
Definition type_at (s : nskb) (nla : Z) : Z := le16 (sub (nb_buf s) (nla + 2) 2).
Definition payload_at (s : nskb) (nla : Z) : list Z := sub (nb_buf s) (nla + 4) (len_at s nla - 4).

(** An attribute that lies between [lo] and [hi]. *)
Definition attr_in (s : nskb) (lo hi nla : Z) : Prop :=
  lo ≤ nla ∧ 4 ≤ len_at s nla ∧ nla + len_at s nla ≤ hi.

(** A stream of [len] bytes at [head], with five readable bytes behind it. *)
Record stream_ok (s : nskb) (head len : Z) : Prop := {
  st_bytes : bytes_ok (nb_buf s);
  st_head : 0 ≤ head;
  st_len : 0 ≤ len < 2 ^ 31;
  st_room : head + len + 5 ≤ zlen (nb_buf s);
}.

Section Stream.
Context (s : nskb) (head len : Z) (St : stream_ok s head len).

Lemma nla_ok_spec nla rem : head ≤ nla → nla + rem = head + len → - 3 ≤ rem →
  nla_ok nla rem s =
    Done ((4 <=? rem) && (4 <=? len_at s nla) && (len_at s nla <=? rem), s).
Proof.
  intros Hn Hr Hm. destruct St as [Hb Hh Hl Hroom]. unfold nla_ok, SIZEOF_NLATTR.
  destruct (Z.leb_spec 4 rem) as [Hge|Hlt].
  - rewrite u32_small by lia. destruct (Z.ltb_spec rem 4); [lia|]. unfold get_nla_len. run_simpl.
    rewrite ld16_done by lia. done.
  - destruct (Z.ltb_spec (u32 rem) 4); [done|]. assert (rem < 0).
    { destruct (Z.lt_ge_cases rem 0); [done|]. rewrite u32_small in * by lia. lia. }
    unfold get_nla_len. run_simpl. rewrite ld16_done by lia. cbn beta iota.
    pose proof (le16_range (sub (nb_buf s) nla 2) (sub_bytes _ _ _ Hb)) as Hl16.
    destruct (Z.leb_spec (le16 (sub (nb_buf s) nla 2)) rem); [lia|]. by rewrite andb_false_r.
Qed.

Lemma for_each_attr_inv {A R} (body : Z → A → NM (A + R)) (I : A → Prop) (Q : R → Prop) fuel nla rem acc :
  (∀ nla acc, I acc → attr_in s head (head + len) nla →
     ∃ r, body nla acc s = Done (r, s) ∧ match r with inl a => I a | inr x => Q x end) →
  head ≤ nla → nla + rem = head + len → - 3 ≤ rem → rem ≤ Z.of_nat fuel → I acc →
  ∃ r, for_each_attr body fuel nla rem acc s = Done (r, s) ∧
    match r with inl (a, _) => I a | inr x => Q x end.
Proof.
  intros Hbody. revert nla rem acc.
  induction fuel as [|fuel IH]; intros nla rem acc Hn Hr Hm Hf Hi; cbn [for_each_attr];
    run_simpl; rewrite nla_ok_spec by done; cbn beta iota;
    destruct (Z.leb_spec 4 rem); cbn [andb]; try (eexists; split; [done|done]);
    destruct (Z.leb_spec 4 (len_at s nla)); cbn [andb]; try (eexists; split; [done|done]);
    destruct (Z.leb_spec (len_at s nla) rem); try (eexists; split; [done|done]); [lia|].
  destruct (Hbody nla acc Hi) as (r & E & Hres); [split; lia|]. rewrite E. cbn beta iota.
  destruct r as [a|x]; [|by exists (inr x)].
  destruct St as [Hb Hh Hl Hroom]. unfold nla_next, get_nla_len. run_simpl. rewrite ld16_done by lia.
  fold (len_at s nla). cbn beta iota. cbn [fst snd]. destruct (align_spec (len_at s nla)).
  apply IH; auto; lia.
Qed.

(** What validation establishes of a payload. *)
Definition policy_ok (pt : nla_policy) (payload : list Z) : Prop :=
  if np_type pt =? NLA_FLAG then payload = []
  else if np_type pt =? NLA_NUL_STRING then 0 ∈ payload ∧ (np_len pt ≠ 0 → zlen payload ≤ np_len pt + 1)
  else if np_type pt =? NLA_STRING then 1 ≤ zlen payload ∧ (np_len pt ≠ 0 → zlen payload ≤ np_len pt + 1)
  else np_len pt ≤ zlen payload ∧
       (np_len pt = 0 → nth (Z.to_nat (np_type pt)) nla_attr_minlen 0 ≤ zlen payload).

Lemma payload_length nla : attr_in s head (head + len) nla → zlen (payload_at s nla) = len_at s nla - 4.
Proof.
  intros (Hlo & H4 & Hhi). destruct St as [Hb Hh Hl Hroom]. unfold payload_at. apply sub_length; lia.
Qed.

Lemma validate_string_spec nla plen : attr_in s head (head + len) nla →
  ∃ err, validate_string nla (len_at s nla - 4) plen s = Done (err, s) ∧
    (err < 0 ∨ err = 0 ∧ 1 ≤ zlen (payload_at s nla) ∧ (plen ≠ 0 → zlen (payload_at s nla) ≤ plen + 1)).
Proof.
  intros Ha. rewrite (payload_length nla Ha). destruct Ha as (Hlo & H4 & Hhi), St as [Hb Hh Hl Hroom].
  unfold validate_string. destruct (Z.ltb_spec (len_at s nla - 4) 1).
  { exists (- ERANGE). split; [done|by left]. }
  destruct (Z.eqb_spec plen 0); [exists 0; split; [done|]; right; lia|].
  run_simpl. unfold nla_data, NLA_HDRLEN. rewrite rdb_done by lia. cbn beta iota.
  destruct (nth 0 _ 0 =? 0); destruct (Z.ltb_spec plen (len_at s nla - 4 - 1)) as [H1|H1],
    (Z.ltb_spec plen (len_at s nla - 4)) as [H2|H2]; eexists; (split; [done|]);
    try (left; done); right; lia.
Qed.

Lemma existsb_zero bs : existsb (λ b, b =? 0) bs = true → 0 ∈ bs.
Proof.
  intros H. apply existsb_exists in H as (x & Hin & Hx). apply Z.eqb_eq in Hx as ->. by apply list_elem_of_In.
Qed.

Lemma sub_prefix buf p n n' x : 0 ≤ n' ≤ n → x ∈ sub buf p n' → x ∈ sub buf p n.
Proof.
  intros Hn Hx. unfold sub in *. set (l := drop _ buf) in *.
  rewrite <- (take_drop (Z.to_nat n') (take (Z.to_nat n) l)), take_take, Nat.min_l by lia.
  apply elem_of_app. by left.
Qed.

Lemma validate_nla_spec nla maxtype policy : attr_in s head (head + len) nla →
  maxtype < zlen (map np_type policy) → Forall (λ pt, 0 ≤ np_type pt ≤ NLA_TYPE_MAX ∧ 0 ≤ np_len pt) policy →
  ∃ err, validate_nla nla maxtype policy s = Done (err, s) ∧
    (err < 0 ∨ err = 0 ∧ (0 < type_at s nla ≤ maxtype →
       ∃ pt, policy !! Z.to_nat (type_at s nla) = Some pt ∧ policy_ok pt (payload_at s nla))).
Proof.
  intros Ha Hlen Hpol. pose proof (payload_length nla Ha) as Hpl.
  pose proof (validate_string_spec nla) as Hstr.
  pose proof Ha as (Hlo & H4 & Hhi). destruct St as [Hb Hh Hl Hroom].
  unfold validate_nla, nla_len, get_nla_len, get_nla_type. run_simpl.
  rewrite !ld16_done by lia. cbn beta iota. fold (len_at s nla) (type_at s nla).
  destruct (Z.leb_spec (type_at s nla) 0); [exists 0; split; [done|]; right; lia|].
  destruct (Z.ltb_spec maxtype (type_at s nla)); [exists 0; split; [done|]; right; lia|]. cbn [orb].
  unfold zlen in Hlen. rewrite List.length_map in Hlen.
  destruct (lookup_lt_is_Some_2 policy (Z.to_nat (type_at s nla))) as [pt Hpt]; [lia|]. rewrite Hpt.
  destruct (Forall_lookup_1 _ _ _ _ Hpol Hpt) as [Htype Hplen].
  destruct (Z.ltb_spec NLA_TYPE_MAX (np_type pt)); [lia|].
  unfold NLA_HDRLEN. match goal with |- ∃ err, ?m s = _ ∧ _ =>
    enough (∃ err, m s = Done (err, s) ∧ (err < 0 ∨ err = 0 ∧ policy_ok pt (payload_at s nla))) as (err & E & Hres) end.
  { exists err. split; [exact E|]. destruct Hres as [|[??]]; [by left|]. right. split; [done|]. intros _. by exists pt. }
  unfold policy_ok. destruct (Z.eqb_spec (np_type pt) NLA_FLAG).
  { destruct (Z.ltb_spec 0 (len_at s nla - 4)); eexists; (split; [done|]); [by left|right]. split; [done|].
    apply nil_length_inv. unfold zlen in Hpl. lia. }
  destruct (Z.eqb_spec (np_type pt) NLA_NUL_STRING).
  { set (minlen := if np_len pt =? 0 then _ else _).
    assert (Hmin : 0 ≤ minlen ≤ len_at s nla - 4) by (unfold minlen; destruct (np_len pt =? 0); lia).
    destruct (minlen =? 0); [eexists; split; [done|]; by left|].
    unfold has_nul, nla_data, NLA_HDRLEN. run_simpl. rewrite rdb_done by lia. cbn beta iota.
    destruct (existsb _ _) eqn:Ez; [|eexists; split; [done|]; by left].
    destruct (Hstr (np_len pt) Ha) as (err & E & Hres). exists err. split; [exact E|].
    destruct Hres as [|(-> & Hr1 & Hr2)]; [by left|]. right. split; [done|]. split; [|done].
    apply existsb_zero in Ez. unfold payload_at. by eapply sub_prefix. }
  destruct (Z.eqb_spec (np_type pt) NLA_STRING).
  { destruct (Hstr (np_len pt) Ha) as (err & E & Hres). exists err. split; [exact E|]. tauto. }
  destruct (Z.eqb_spec (np_len pt) 0) as [E0|E0]; cbn [negb].
  - rewrite E0. destruct (Z.eqb_spec (np_type pt) NLA_UNSPEC) as [E1|E1]; cbn [negb].
    + rewrite E1. destruct (Z.ltb_spec (len_at s nla - 4) 0); [lia|]. exists 0. split; [done|]. right.
      split; [done|]. split; [lia|]. intros _. change (0 ≤ zlen (payload_at s nla)). lia.
    + destruct (Z.ltb_spec (len_at s nla - 4) (nth (Z.to_nat (np_type pt)) nla_attr_minlen 0));
        eexists; (split; [done|]); [by left|right]. split; [done|]. split; [lia|]. intros _. lia.
  - destruct (Z.ltb_spec (len_at s nla - 4) (np_len pt)); eexists; (split; [done|]); [by left|right].
    split; [done|]. split; [lia|]. done.
Qed.

(** The table only points to attributes of the stream that passed the policy. *)
Definition table_ok (maxtype : Z) (policy : list nla_policy) (tb : list (option Z)) : Prop :=
  length tb = Z.to_nat (maxtype + 1) ∧
  ∀ t nla, tb !! t = Some (Some nla) → attr_in s head (head + len) nla ∧ type_at s nla = Z.of_nat t ∧
    ∃ pt, policy !! t = Some pt ∧ policy_ok pt (payload_at s nla).

Lemma nla_parse_ok maxtype policy : maxtype < zlen (map np_type policy) →
  Forall (λ pt, 0 ≤ np_type pt ≤ NLA_TYPE_MAX ∧ 0 ≤ np_len pt) policy →
  ∃ err tb, nla_parse maxtype head len (Some policy) s = Done ((err, tb), s) ∧ err ≤ 0 ∧
    table_ok maxtype policy tb.
Proof.
  intros Hlen Hpol. pose proof St as [Hb Hh Hl Hroom].
  destruct (for_each_attr_inv (parse_body maxtype (Some policy)) (table_ok maxtype policy)
    (λ x, x.1 < 0 ∧ table_ok maxtype policy x.2) (loop_fuel len) head len
    (replicate (Z.to_nat (maxtype + 1)) None)) as (r & E & Hr).
  - intros nla tb [Htl Htb] Ha. unfold parse_body, get_nla_type. run_simpl.
    pose proof Ha as (Hlo & H4 & Hhi). rewrite ld16_done by lia. cbn beta iota. fold (type_at s nla).
    destruct (Z.ltb_spec 0 (type_at s nla)), (Z.leb_spec (type_at s nla) maxtype); cbn [andb];
      try (eexists; split; [done|done]).
    destruct (validate_nla_spec nla maxtype policy Ha Hlen Hpol) as (err & -> & Hres). cbn beta iota.
    destruct (Z.ltb_spec err 0); [eexists; split; [done|]; done|].
    eexists. split; [done|]. destruct Hres as [|[_ Hpt]]; [lia|]. split; [by rewrite length_insert|].
    intros t n Ht. destruct (decide (t = Z.to_nat (type_at s nla))) as [->|Hne].
    + rewrite list_lookup_insert_eq in Ht by lia. simplify_eq. split; [done|]. split; [lia|]. apply Hpt. lia.
    + rewrite list_lookup_insert_ne in Ht by done. by apply Htb.
  - lia.
  - lia.
  - lia.
  - unfold loop_fuel. lia.
  - split; [by rewrite length_replicate|]. intros t nla Ht. apply lookup_replicate in Ht as [? _]. done.
  - unfold nla_parse. run_simpl. rewrite E. cbn beta iota. destruct r as [[tb rem]|[err tb]].
    + exists 0, tb. split; [done|]. split; [lia|done].
    + exists err, tb. destruct Hr as [He Ht]. split; [done|]. cbn in *. split; [lia|done].
Qed.

End Stream.

(** C18: parsing terminates on every byte stream behind which five more bytes
    are readable, whatever lengths its headers claim: [nla_parse] reads only the
    stream and, when the padding of the last attribute is cut off, these bytes
    behind it, reaches no [BUG_ON] of a well-formed policy, and each entry of
    the table points to an attribute of its type that lies inside the stream
    and passed the check of its type's policy: its payload has at least the
    minimum length of the policy, so that a [u32] attribute has four bytes or
    more, a string is at most one byte longer than the policy's maximum, a
    NUL-terminated string contains a NUL, and a flag is empty. *)
Theorem nla_parse_total (s : nskb) (head len maxtype : Z) (policy : list nla_policy) :
  stream_ok s head len → maxtype < zlen (map np_type policy) →
  Forall (λ pt, 0 ≤ np_type pt ≤ NLA_TYPE_MAX ∧ 0 ≤ np_len pt) policy →
  ∃ err tb, nla_parse maxtype head len (Some policy) s = Done ((err, tb), s) ∧ err ≤ 0 ∧
    table_ok s head len maxtype policy tb.
Proof. intros. by apply nla_parse_ok. Qed.

(** Two attributes, the second of which claims 200 bytes. *)
Definition demo_stream : nskb := Nskb [6; 0; 1; 0; 65; 0; 0; 0; 200; 0; 2; 0; 7; 7; 0; 0; 0; 0; 0] 0 14 14.
Definition demo_policy : list nla_policy := [NlaPolicy 0 0; NlaPolicy NLA_NUL_STRING 5; NlaPolicy NLA_U16 0].

Lemma nla_parse_total_witness :
  nla_parse 2 0 14 (Some demo_policy) demo_stream = Done ((0, [None; Some 0; None]), demo_stream) ∧
  ∃ err tb, nla_parse 2 0 14 (Some demo_policy) demo_stream = Done ((err, tb), demo_stream) ∧
    table_ok demo_stream 0 14 2 demo_policy tb.
Proof.
  split; [vm_compute; reflexivity|].
  destruct (nla_parse_total demo_stream 0 14 2 demo_policy) as (err & tb & H & _ & Ht).
  - split; [|lia|lia|vm_compute; discriminate].
    repeat (apply list.Forall_cons; split; [lia|]); by apply list.Forall_nil.
  - vm_compute. reflexivity.
  - repeat (apply list.Forall_cons; split; [cbn; unfold NLA_TYPE_MAX, NLA_NUL_STRING, NLA_U16; lia|]);
      by apply list.Forall_nil.
  - exists err, tb. split; [exact H|exact Ht].
Defined.

(** [nla_ok] compares [remaining] with [sizeof] as unsigned numbers: after an
    attribute whose padding is missing, [remaining] is negative and the length
    field behind the stream is read (netlink.h:688). *)
Theorem nla_ok_overreads :
  nla_find 0 5 2 (Nskb [5; 0; 1; 0; 9] 0 5 5) = Fault FBounds.
Proof. vm_compute. reflexivity. Qed.

(** The policy's [len] is a minimum, not the exact length of the payload as the
    header says: six bytes pass for a [u16] (attr.c:76). *)
Theorem policy_len_is_minimum :
  nla_validate 0 12 2 demo_policy (Nskb [10; 0; 2; 0; 1; 2; 3; 4; 5; 6; 0; 0; 0; 0; 0; 0; 0] 0 12 12) =
  Done (0, Nskb [10; 0; 2; 0; 1; 2; 3; 4; 5; 6; 0; 0; 0; 0; 0; 0; 0] 0 12 12).
Proof. vm_compute. reflexivity. Qed.

(** ** Writing bytes *)

Lemma splice_length buf p bs : 0 ≤ p → p + zlen bs ≤ zlen buf → zlen (splice buf p bs) = zlen buf.
Proof. unfold zlen, splice. intros. rewrite !length_app, length_take, length_drop. lia. Qed.

Lemma sub_splice_eq buf p bs : 0 ≤ p → p + zlen bs ≤ zlen buf → sub (splice buf p bs) p (zlen bs) = bs.
Proof.
  unfold zlen, splice, sub. intros.
  rewrite drop_app_length' by (rewrite length_take; lia). rewrite Nat2Z.id. by rewrite take_app_length.
Qed.

Lemma sub_app_below l1 l2 q n : 0 ≤ q → 0 ≤ n → q + n ≤ zlen l1 → sub (l1 ++ l2) q n = sub l1 q n.
Proof.
  unfold zlen, sub. intros. rewrite drop_app_le by lia. rewrite take_app_le by (rewrite length_drop; lia). done.
Qed.

Lemma sub_splice_below buf p bs q n : 0 ≤ q → 0 ≤ n → q + n ≤ p → p + zlen bs ≤ zlen buf →
  sub (splice buf p bs) q n = sub buf q n.
Proof.
  unfold zlen, splice. intros Hq Hn Hp Hl.
  pose proof (sub_app_below (take (Z.to_nat p) buf) (bs ++ drop (Z.to_nat p + length bs) buf) q n) as E1.
  pose proof (sub_app_below (take (Z.to_nat p) buf) (drop (Z.to_nat p) buf) q n) as E2.
  unfold zlen in E1, E2. rewrite length_take in E1, E2. rewrite take_drop in E2. rewrite E1, E2 by lia. done.
Qed.

Lemma sub_splice_above buf p bs q n : 0 ≤ p → 0 ≤ n → p + zlen bs ≤ q → q + n ≤ zlen buf →
  sub (splice buf p bs) q n = sub buf q n.
Proof.
  unfold zlen, splice, sub. intros. f_equal.
  rewrite drop_app_ge by (rewrite length_take; lia). rewrite length_take.
  rewrite drop_app_ge by lia. rewrite drop_drop. f_equal. lia.
Qed.

Lemma splice_bytes buf p bs : bytes_ok buf → bytes_ok bs → bytes_ok (splice buf p bs).
Proof.
  intros H1 H2. unfold splice, bytes_ok in *.
  apply Forall_app. split; [by apply Forall_take|]. apply Forall_app. split; [done|by apply Forall_drop].
Qed.

Lemma le16_bytes16 x : 0 ≤ x < 2 ^ 16 → le16 (bytes16 x) = x.
Proof.
  intros Hx. unfold le16, bytes16. cbn [nth].
  rewrite (Z.mod_small (x / 256)) by (split; [apply Z.div_pos; lia|apply Z.div_lt_upper_bound; lia]).
  pose proof (Z.div_mod x 256 ltac:(lia)). lia.
Qed.

Lemma wrb_done s p bs : 0 ≤ p → p + zlen bs ≤ zlen (nb_buf s) →
  wrb p bs s = Done (tt, Nskb (splice (nb_buf s) p bs) (nb_data s) (nb_tail s) (nb_len s)).
Proof.
  intros. unfold wrb. destruct (Z.leb_spec 0 p), (Z.leb_spec (p + zlen bs) (zlen (nb_buf s))); done || lia.
Qed.

(** ** Building a stream *)

Lemma zlen_bytes16 x : zlen (bytes16 x) = 2.
Proof. done. Qed.

Lemma u16_small z : 0 ≤ z < 2 ^ 16 → u16 z = z.
Proof. apply wrap_small. Qed.

(** The buffer below [p] is the same. *)
Definition same_below (p : Z) (s s' : nskb) : Prop :=
  zlen (nb_buf s') = zlen (nb_buf s) ∧ ∀ q n, 0 ≤ q → 0 ≤ n → q + n ≤ p → sub (nb_buf s') q n = sub (nb_buf s) q n.

Record attr_ok (t : Z) (bs : list Z) : Prop := {
  ao_type : 0 ≤ t < 2 ^ 16;
  ao_len : zlen bs + 4 < 2 ^ 16;
  ao_bytes : bytes_ok bs;
}.

Lemma nla_put_spec s t bs : 0 ≤ nb_tail s → bytes_ok (nb_buf s) → attr_ok t bs →
  nb_tail s + nla_total_size (zlen bs) ≤ zlen (nb_buf s) →
  ∃ s', nla_put t (zlen bs) bs s = Done (0, s') ∧
    nb_tail s' = nb_tail s + nla_total_size (zlen bs) ∧ nb_data s' = nb_data s ∧ bytes_ok (nb_buf s') ∧
    same_below (nb_tail s) s s' ∧
    len_at s' (nb_tail s) = zlen bs + 4 ∧ type_at s' (nb_tail s) = t ∧ payload_at s' (nb_tail s) = bs.
Proof.
  intros Hp Hb [Ht Hl Hbs] Hroom. set (p := nb_tail s) in *. set (n := zlen bs) in *.
  assert (0 ≤ n) by (unfold n, zlen; lia).
  assert (Hal : 4 + n ≤ nla_total_size n ≤ 4 + n + 3) by exact (proj1 (align_spec (4 + n))).
  set (T := nla_total_size n) in *. set (B := nb_buf s) in *.
  set (B1 := splice B (p + 2) (bytes16 t)). set (B2 := splice B1 p (bytes16 (4 + n))).
  set (pad := replicate (Z.to_nat (T - (4 + n))) 0). set (B3 := splice B2 (p + (4 + n)) pad).
  set (B4 := splice B3 (p + 4) bs).
  assert (Zpad : zlen pad = T - (4 + n)) by (unfold pad, zlen; rewrite length_replicate; lia).
  assert (L1 : zlen B1 = zlen B) by (apply splice_length; rewrite ?zlen_bytes16; lia).
  assert (L2 : zlen B2 = zlen B) by (unfold B2; rewrite splice_length; rewrite ?zlen_bytes16; lia).
  assert (L3 : zlen B3 = zlen B) by (unfold B3; rewrite splice_length; lia).
  assert (L4 : zlen B4 = zlen B) by (unfold B4; rewrite splice_length; fold n; lia).
  assert (Elen : sub B2 p 2 = bytes16 (4 + n)).
  { apply (sub_splice_eq B1 p (bytes16 (4 + n))); rewrite ?zlen_bytes16; lia. }
  assert (Elen4 : sub B4 p 2 = bytes16 (4 + n)).
  { unfold B4. rewrite sub_splice_below by (fold n; lia). unfold B3. rewrite sub_splice_below by lia. done. }
  assert (Etype4 : sub B4 (p + 2) 2 = bytes16 t).
  { unfold B4. rewrite sub_splice_below by (fold n; lia). unfold B3. rewrite sub_splice_below by lia. unfold B2.
    rewrite sub_splice_above by (rewrite ?zlen_bytes16; lia).
    apply (sub_splice_eq B (p + 2) (bytes16 t)); rewrite ?zlen_bytes16; lia. }
  assert (H16 : ∀ x, bytes_ok (bytes16 x)).
  { intros x. unfold bytes16. repeat (apply list.Forall_cons; split; [apply Z.mod_pos_bound; lia|]).
    by apply list.Forall_nil. }
  exists (Nskb B4 (nb_data s) (p + T) (u32 (nb_len s + T))). cbn [nb_tail nb_data nb_buf].
  split.
  { unfold nla_put, skb_tailroom, __nla_put, __nla_reserve, skb_put. run_simpl. fold B p n T.
    change (nb_buf s) with B. change (nb_tail s) with p. destruct (Z.ltb_spec (zlen B - p) T); [lia|].
    cbn beta iota. change (nb_buf s) with B. change (nb_tail s) with p.
    destruct (Z.ltb_spec (zlen B) (p + T)); [lia|]. cbn beta iota. rewrite (u16_small t) by done. unfold nla_attr_size, NLA_HDRLEN. rewrite (u16_small (4 + n)) by lia.
    rewrite wrb_done by (cbn [nb_buf]; rewrite ?zlen_bytes16; lia). cbn [nb_buf nb_data nb_tail nb_len]. fold B1.
    rewrite wrb_done by (cbn [nb_buf]; rewrite ?zlen_bytes16; lia). cbn [nb_buf nb_data nb_tail nb_len]. fold B2.
    unfold get_nla_len. rewrite ld16_done by (cbn [nb_buf]; lia). cbn [nb_buf]. rewrite Elen, le16_bytes16 by lia.
    change (nla_padlen n) with (T - (4 + n)). fold pad.
    rewrite wrb_done by (cbn [nb_buf]; lia). cbn [nb_buf nb_data nb_tail nb_len]. fold B3.
    unfold copy_in. destruct (Z.ltb_spec (zlen bs) n); [unfold n in *; lia|].
    rewrite (take_ge bs) by (unfold n, zlen; lia). unfold nla_data, NLA_HDRLEN.
    rewrite wrb_done by (cbn [nb_buf]; fold n; lia). done. }
  split; [done|]. split; [done|]. split.
  { apply splice_bytes; [|done]. apply splice_bytes; [|apply list.Forall_replicate; split; done].
    apply splice_bytes; [|apply H16]. apply splice_bytes; [done|apply H16]. }
  split; [split; [done|]|].
  - intros q k Hq Hk Hlt. cbn [nb_buf]. unfold B4. rewrite sub_splice_below by (fold n; lia).
    unfold B3. rewrite sub_splice_below by lia. unfold B2. rewrite sub_splice_below by (rewrite ?zlen_bytes16; lia).
    apply (sub_splice_below B); rewrite ?zlen_bytes16; lia.
  - unfold len_at, type_at, payload_at, len_at. cbn [nb_buf]. rewrite Elen4, Etype4, !le16_bytes16 by lia.
    split; [lia|]. split; [done|]. replace (4 + n - 4) with (zlen bs) by (unfold n; lia).
    apply sub_splice_eq; fold n; lia.
Qed.

(** A sequence of [NLA_PUT]s: the first failure ends it. *)
Fixpoint put_all (attrs : list (Z * list Z)) : NM Z :=
  match attrs with
  | [] => mret 0
  | (t, bs) :: attrs => e ← nla_put t (zlen bs) bs; if e <? 0 then mret e else put_all attrs
  end.

Fixpoint total_size (attrs : list (Z * list Z)) : Z :=
  match attrs with
  | [] => 0
  | (_, bs) :: attrs => nla_total_size (zlen bs) + total_size attrs
  end.

(** The bytes from [p] to [q] are the attributes [attrs]. *)
Fixpoint stream_at (s : nskb) (p : Z) (attrs : list (Z * list Z)) (q : Z) : Prop :=
  match attrs with
  | [] => p = q
  | (t, bs) :: attrs =>
      len_at s p = zlen bs + 4 ∧ type_at s p = t ∧ payload_at s p = bs ∧
      stream_at s (p + nla_total_size (zlen bs)) attrs q
  end.

Lemma total_size_pos n : 0 ≤ n → 4 + n ≤ nla_total_size n.
Proof. intros Hn. exact (proj1 (proj1 (align_spec (4 + n)))). Qed.

Lemma zlen_nonneg l : 0 ≤ zlen l.
Proof. unfold zlen. lia. Qed.

Lemma stream_le s p attrs q : stream_at s p attrs q → p + 4 * Z.of_nat (length attrs) ≤ q.
Proof.
  revert p. induction attrs as [|[t bs] attrs IH]; intros p; cbn [stream_at length]; [lia|].
  intros (_ & _ & _ & H%IH). pose proof (total_size_pos (zlen bs) (zlen_nonneg bs)). pose proof (zlen_nonneg bs). lia.
Qed.

Lemma stream_frame s s' p attrs q : 0 ≤ p → same_below q s s' → stream_at s p attrs q → stream_at s' p attrs q.
Proof.
  intros Hp [Hl Hs]. revert p Hp. induction attrs as [|[t bs] attrs IH]; intros p Hp; cbn [stream_at]; [done|].
  intros (H1 & H2 & H3 & H4). pose proof (stream_le _ _ _ _ H4) as Hq.
  pose proof (total_size_pos (zlen bs) (zlen_nonneg bs)). pose proof (zlen_nonneg bs).
  assert (E1 : len_at s' p = len_at s p) by (unfold len_at; rewrite Hs by lia; done).
  split; [congruence|]. split; [unfold type_at in *; rewrite Hs by lia; done|].
  split; [unfold payload_at in *; rewrite E1, Hs by lia; done|]. apply IH; [lia|done].
Qed.

Lemma stream_snoc s p attrs q t bs : stream_at s p attrs q →
  len_at s q = zlen bs + 4 → type_at s q = t → payload_at s q = bs →
  stream_at s p (attrs ++ [(t, bs)]) (q + nla_total_size (zlen bs)).
Proof.
  revert p. induction attrs as [|[t' bs'] attrs IH]; intros p; cbn [stream_at app].
  - intros -> H1 H2 H3. by rewrite H1.
  - intros (H1 & H2 & H3 & H4) ? ? ?. repeat (split; [done|]). by apply IH.
Qed.

Lemma put_all_stream attrs s p prev : 0 ≤ p → bytes_ok (nb_buf s) → Forall (λ a, attr_ok a.1 a.2) attrs →
  stream_at s p prev (nb_tail s) → nb_tail s + total_size attrs ≤ zlen (nb_buf s) →
  ∃ s', put_all attrs s = Done (0, s') ∧ stream_at s' p (prev ++ attrs) (nb_tail s') ∧
    nb_tail s' = nb_tail s + total_size attrs ∧ bytes_ok (nb_buf s') ∧ zlen (nb_buf s') = zlen (nb_buf s) ∧
    same_below (nb_tail s) s s'.
Proof.
  intros Hp. revert s prev. induction attrs as [|[t bs] attrs IH]; intros s prev Hb Hok Hst Hroom; cbn [put_all total_size] in *.
  - exists s. rewrite app_nil_r. split; [done|]. split; [done|]. split; [lia|]. split; [done|]. split; [done|]. split; done.
  - inversion_clear Hok as [|? ? Hok1 Hok2]. cbn in Hok1. pose proof (stream_le _ _ _ _ Hst) as Hle.
    assert (Hts : ∀ l, 0 ≤ total_size l).
    { intros l. induction l as [|[t' b'] l IHl]; cbn; [lia|].
      pose proof (total_size_pos (zlen b') (zlen_nonneg b')). pose proof (zlen_nonneg b'). lia. }
    pose proof (Hts attrs) as Hta.
    destruct (nla_put_spec s t bs) as (s1 & E1 & Ht1 & _ & Hb1 & Hsame & Hlen & Hty & Hpay); [lia|done|done|lia|].
    destruct (IH s1 (prev ++ [(t, bs)])) as (s2 & E2 & Hst2 & Ht2 & Hb2 & Hz2 & Hsame2); [done|done| | |].
    + rewrite Ht1. apply stream_snoc; [by apply (stream_frame s)|done|done|done].
    + rewrite (proj1 Hsame), Ht1. lia.
    + exists s2. run_simpl. rewrite E1. cbn beta iota. split; [exact E2|]. rewrite <- app_assoc in Hst2.
      split; [exact Hst2|]. split; [lia|]. split; [done|]. split; [by rewrite Hz2, (proj1 Hsame)|].
      destruct Hsame as [Hza Ha], Hsame2 as [Hzb Hbb]. pose proof (total_size_pos (zlen bs) (zlen_nonneg bs)).
      pose proof (zlen_nonneg bs).
      split; [congruence|]. intros q n Hq Hn Hlt. rewrite Hbb by lia. apply Ha; lia.
Qed.

(** ** Reading the stream back *)

Definition first_attr (t : Z) (attrs : list (Z * list Z)) : option (list Z) :=
  snd <$> list.head (filter (λ a, a.1 = t) attrs).
Definition last_attr (t : Z) (attrs : list (Z * list Z)) : option (list Z) :=
  snd <$> list.last (filter (λ a, a.1 = t) attrs).

Section Walk.
Context (s : nskb) (Hb : bytes_ok (nb_buf s)).

(** The loop enters every attribute of the stream and stops at its end. *)
Lemma nla_ok_stream p t bs attrs q : 0 ≤ p → q ≤ zlen (nb_buf s) → q - p < 2 ^ 31 →
  stream_at s p ((t, bs) :: attrs) q →
  nla_ok p (q - p) s = Done (true, s) ∧
  nla_next p (q - p) s = Done ((p + nla_total_size (zlen bs), q - (p + nla_total_size (zlen bs))), s) ∧
  get_nla_type p s = Done (t, s).
Proof.
  intros Hp Hq Hlt Hst. pose proof (stream_le _ _ _ _ Hst) as Hle. cbn [stream_at length] in *.
  destruct Hst as (H1 & H2 & H3 & H4). pose proof (stream_le _ _ _ _ H4).
  pose proof (total_size_pos (zlen bs) (zlen_nonneg bs)). pose proof (zlen_nonneg bs).
  unfold nla_ok, nla_next, get_nla_type, get_nla_len, SIZEOF_NLATTR. run_simpl. rewrite u32_small by lia.
  destruct (Z.ltb_spec (q - p) 4); [lia|]. rewrite !ld16_done by lia. fold (len_at s p) (type_at s p).
  rewrite H1, H2. destruct (Z.leb_spec 4 (zlen bs + 4)), (Z.leb_spec (zlen bs + 4) (q - p)); try lia.
  split; [done|]. split; [|done]. unfold nla_total_size, nla_attr_size, NLA_HDRLEN.
  replace (4 + zlen bs) with (zlen bs + 4) by lia. do 3 f_equal. lia.
Qed.

Lemma nla_ok_end p : nla_ok p 0 s = Done (false, s).
Proof. done. Qed.

Lemma find_stream t attrs p q fuel : 0 ≤ p → q ≤ zlen (nb_buf s) → q - p < 2 ^ 31 →
  stream_at s p attrs q → (length attrs ≤ fuel)%nat →
  match first_attr t attrs with
  | None => for_each_attr (find_body t) fuel p (q - p) tt s = Done (inl (tt, 0), s)
  | Some bs => ∃ nla, for_each_attr (find_body t) fuel p (q - p) tt s = Done (inr nla, s) ∧
      type_at s nla = t ∧ payload_at s nla = bs
  end.
Proof.
  revert p fuel. induction attrs as [|[t' bs] attrs IH]; intros p fuel Hp Hq Hlt Hst Hf.
  - cbn [stream_at] in Hst. subst q. rewrite Z.sub_diag. cbn. destruct fuel; done.
  - destruct fuel as [|fuel]; [cbn in Hf; lia|].
    destruct (nla_ok_stream p t' bs attrs q Hp Hq Hlt Hst) as (E1 & E2 & E3).
    assert (Eb : find_body t p tt s = Done (if t' =? t then inr p else inl tt, s))
      by (unfold find_body; run_simpl; by rewrite E3).
    cbn [for_each_attr]. run_simpl. rewrite E1, Eb. cbn beta iota.
    pose proof (total_size_pos (zlen bs) (zlen_nonneg bs)). pose proof (zlen_nonneg bs).
    cbn [stream_at] in Hst. destruct Hst as (H1 & H2 & H3 & H4).
    unfold first_attr. rewrite filter_cons. cbn [fst]. destruct (decide (t' = t)) as [->|Hne].
    + cbn. rewrite Z.eqb_refl. exists p. done.
    + destruct (Z.eqb_spec t' t); [done|]. rewrite E2. cbn [fst snd]. cbn in Hf. apply IH; [lia|done|lia|done|lia].
Qed.

(** The entries of the table for the attributes seen so far. *)
Definition table_for (maxtype : Z) (attrs : list (Z * list Z)) (tb : list (option Z)) : Prop :=
  length tb = Z.to_nat (maxtype + 1) ∧
  ∀ t, 0 < t ≤ maxtype → match last_attr t attrs with
    | None => tb !! Z.to_nat t = Some None
    | Some bs => ∃ nla, tb !! Z.to_nat t = Some (Some nla) ∧ type_at s nla = t ∧ payload_at s nla = bs
    end.

Lemma last_attr_snoc t attrs t' bs :
  last_attr t (attrs ++ [(t', bs)]) = if decide (t' = t) then Some bs else last_attr t attrs.
Proof.
  unfold last_attr. rewrite list.filter_app, filter_cons, filter_nil. cbn [fst].
  destruct (decide (t' = t)); [by rewrite last_snoc|by rewrite app_nil_r].
Qed.

Lemma parse_stream maxtype attrs p q fuel prev tb : 0 ≤ p → q ≤ zlen (nb_buf s) → q - p < 2 ^ 31 →
  stream_at s p attrs q → (length attrs ≤ fuel)%nat → table_for maxtype prev tb →
  ∃ tb', for_each_attr (parse_body maxtype None) fuel p (q - p) tb s = Done (inl (tb', 0), s) ∧
    table_for maxtype (prev ++ attrs) tb'.
Proof.
  revert p fuel prev tb. induction attrs as [|[t bs] attrs IH]; intros p fuel prev tb Hp Hq Hlt Hst Hf Htb.
  - cbn [stream_at] in Hst. subst q. rewrite Z.sub_diag, app_nil_r. exists tb. split; [by destruct fuel|done].
  - destruct fuel as [|fuel]; [cbn in Hf; lia|].
    destruct (nla_ok_stream p t bs attrs q Hp Hq Hlt Hst) as (E1 & E2 & E3).
    assert (Eb : parse_body maxtype None p tb s =
      Done (inl (if (0 <? t) && (t <=? maxtype) then <[Z.to_nat t := Some p]> tb else tb), s)).
    { unfold parse_body. run_simpl. rewrite E3. by destruct ((0 <? t) && (t <=? maxtype)). }
    cbn [for_each_attr]. run_simpl. rewrite E1, Eb, E2. cbn [fst snd].
    pose proof (total_size_pos (zlen bs) (zlen_nonneg bs)). pose proof (zlen_nonneg bs).
    cbn [stream_at] in Hst. destruct Hst as (H1 & H2 & H3 & H4). destruct Htb as [Htl Htb].
    replace (prev ++ (t, bs) :: attrs) with ((prev ++ [(t, bs)]) ++ attrs) by by rewrite <- app_assoc.
    destruct ((0 <? t) && (t <=? maxtype)) eqn:Erange.
    + bool_solve. apply IH; [lia|done|lia|done|cbn in Hf; lia|]. split; [by rewrite length_insert|].
      intros t0 Ht0. rewrite last_attr_snoc. destruct (decide (t = t0)) as [->|Hne].
      * exists p. split; [|done]. apply list_lookup_insert_eq. lia.
      * rewrite list_lookup_insert_ne by lia. by apply Htb.
    + apply IH; [lia|done|lia|done|cbn in Hf; lia|]. split; [done|].
      intros t0 Ht0. rewrite last_attr_snoc. destruct (decide (t = t0)) as [->|Hne]; [|by apply Htb].
      apply andb_false_iff in Erange as [E|E]; bool_solve; lia.
Qed.

End Walk.

(** What the readers find in the stream [attrs] between [p] and [q]. *)
Definition reads_back (s : nskb) (p q : Z) (attrs : list (Z * list Z)) : Prop :=
  (∀ t, match first_attr t attrs with
        | None => nla_find p (q - p) t s = Done (None, s)
        | Some bs => ∃ nla, nla_find p (q - p) t s = Done (Some nla, s) ∧
            type_at s nla = t ∧ payload_at s nla = bs
        end) ∧
  (∀ maxtype, 0 ≤ maxtype → ∃ tb, nla_parse maxtype p (q - p) None s = Done ((0, tb), s) ∧
     table_for s maxtype attrs tb).

Lemma stream_reads_back s p q attrs : bytes_ok (nb_buf s) → 0 ≤ p → q ≤ zlen (nb_buf s) → q - p < 2 ^ 31 →
  stream_at s p attrs q → reads_back s p q attrs.
Proof.
  intros Hb Hp Hq Hlt Hst. pose proof (stream_le _ _ _ _ Hst) as Hle.
  assert (Hf : (length attrs ≤ loop_fuel (q - p))%nat) by (unfold loop_fuel; lia). split.
  - intros t. pose proof (find_stream s t attrs p q _ Hp Hq Hlt Hst Hf) as H.
    unfold nla_find. run_simpl. destruct (first_attr t attrs) as [bs|].
    + destruct H as (nla & E & H1 & H2). exists nla. by rewrite E.
    + by rewrite H.
  - intros maxtype Hm.
    destruct (parse_stream s maxtype attrs p q _ [] (replicate (Z.to_nat (maxtype + 1)) None) Hp Hq Hlt Hst Hf)
      as (tb & E & Ht).
    + split; [by rewrite length_replicate|]. intros t Ht. cbn. apply lookup_replicate. split; [done|lia].
    + exists tb. unfold nla_parse. run_simpl. rewrite E. done.
Qed.

(** C17: attributes written with [nla_put] are read back: if the tailroom
    suffices, every [nla_put] succeeds, [nla_find] on the bytes written returns
    the first attribute of the type asked for with its payload intact, or NULL if
    there is none, and [nla_parse] points to the last attribute of each type;
    the bytes before the stream stay as they were.  If the tailroom does not
    suffice for an attribute, [nla_put] returns -1 and changes nothing. *)
Theorem nla_roundtrip (s : nskb) (attrs : list (Z * list Z)) :
  0 ≤ nb_tail s → bytes_ok (nb_buf s) → zlen (nb_buf s) < 2 ^ 31 → Forall (λ a, attr_ok a.1 a.2) attrs →
  (nb_tail s + total_size attrs ≤ zlen (nb_buf s) →
     ∃ s', put_all attrs s = Done (0, s') ∧ nb_tail s' = nb_tail s + total_size attrs ∧
       same_below (nb_tail s) s s' ∧ reads_back s' (nb_tail s) (nb_tail s') attrs) ∧
  (∀ t bs, zlen (nb_buf s) < nb_tail s + nla_total_size (zlen bs) → nla_put t (zlen bs) bs s = Done (- 1, s)).
Proof.
  intros Hp Hb Hz Hok. split.
  - intros Hroom. destruct (put_all_stream attrs s (nb_tail s) []) as (s' & E & Hst & Ht & Hb' & Hz' & Hsame); try done.
    exists s'. split; [done|]. split; [done|]. split; [done|]. apply stream_reads_back; try done; lia.
  - intros t bs Hlt. unfold nla_put, skb_tailroom. run_simpl.
    destruct (Z.ltb_spec (zlen (nb_buf s) - nb_tail s) (nla_total_size (zlen bs))); [done|lia].
Qed.

Definition demo_attrs : list (Z * list Z) := [(1, [65; 66; 0]); (3, []); (1, [1; 2; 3; 4])].
Definition demo_skb : nskb := Nskb (replicate 32 7) 0 4 4.
Definition demo_result : nskb :=
  match put_all demo_attrs demo_skb with Done (_, s) => s | Fault _ => demo_skb end.

Lemma nla_roundtrip_witness :
  ∃ s', put_all demo_attrs demo_skb = Done (0, s') ∧ nb_tail s' = 24 ∧
    nla_find 4 20 1 s' = Done (Some 4, s') ∧
    nla_parse 3 4 20 None s' = Done ((0, [None; Some 16; None; Some 12]), s').
Proof.
  destruct (nla_roundtrip demo_skb demo_attrs) as [(s' & E & Ht & _) _].
  - cbn. lia.
  - apply list.Forall_replicate. lia.
  - vm_compute. reflexivity.
  - repeat (apply list.Forall_cons; split; [split; cbn; [lia|vm_compute; reflexivity|
      repeat (apply list.Forall_cons; split; [lia|]); by apply list.Forall_nil]|]); by apply list.Forall_nil.
  - vm_compute. discriminate.
  - exists s'. split; [exact E|]. split; [exact Ht|].
    assert (s' = demo_result) as -> by (unfold demo_result; rewrite E; reflexivity).
    split; vm_compute; reflexivity.
Defined.

(** ** Nested attributes *)

Lemma nest_len s0 s1 start x : 0 ≤ start → start + 2 ≤ zlen (nb_buf s0) →
  s1 = Nskb (splice (nb_buf s0) start (bytes16 x)) (nb_data s0) (nb_tail s0) (nb_len s0) → 0 ≤ x < 2 ^ 16 →
  len_at s1 start = x ∧ zlen (nb_buf s1) = zlen (nb_buf s0) ∧
  ∀ q n, start + 2 ≤ q → 0 ≤ n → q + n ≤ zlen (nb_buf s0) → sub (nb_buf s1) q n = sub (nb_buf s0) q n.
Proof.
  intros Hp Hl -> Hx. cbn [nb_buf]. unfold len_at. cbn [nb_buf].
  pose proof (sub_splice_eq (nb_buf s0) start (bytes16 x)) as E. rewrite zlen_bytes16 in E.
  rewrite E by lia. split; [by apply le16_bytes16|]. split; [by apply splice_length|].
  intros q n Hq Hn Hqn. apply sub_splice_above; rewrite ?zlen_bytes16; lia.
Qed.

Lemma stream_above s s' p attrs q : zlen (nb_buf s') = zlen (nb_buf s) → q ≤ zlen (nb_buf s) →
  (∀ x n, p ≤ x → 0 ≤ n → x + n ≤ zlen (nb_buf s) → sub (nb_buf s') x n = sub (nb_buf s) x n) →
  stream_at s p attrs q → stream_at s' p attrs q.
Proof.
  intros Hz Hq. revert p. induction attrs as [|[t bs] attrs IH]; intros p Hs; cbn [stream_at]; [done|].
  intros (H1 & H2 & H3 & H4). pose proof (stream_le _ _ _ _ H4) as Hle.
  pose proof (total_size_pos (zlen bs) (zlen_nonneg bs)). pose proof (zlen_nonneg bs).
  assert (E1 : len_at s' p = len_at s p) by (unfold len_at; rewrite Hs by lia; done).
  split; [congruence|]. split; [unfold type_at in *; rewrite Hs by lia; done|].
  split; [unfold payload_at in *; rewrite E1, Hs by lia; done|]. apply IH; [|done].
  intros x n Hx Hn Hxn. apply Hs; lia.
Qed.

(** Nested attributes are read back from their container: [nla_nest_start],
    a sequence of puts and [nla_nest_end] give an attribute in which
    [nla_find_nested] and [nla_parse_nested] find what was put. *)
Theorem nla_nest_roundtrip (s : nskb) (t : Z) (attrs : list (Z * list Z)) :
  0 ≤ nb_tail s → bytes_ok (nb_buf s) → zlen (nb_buf s) < 2 ^ 31 → 0 ≤ t < 2 ^ 16 →
  Forall (λ a, attr_ok a.1 a.2) attrs → 4 + total_size attrs < 2 ^ 16 →
  nb_tail s + 4 + total_size attrs ≤ zlen (nb_buf s) →
  ∃ s1 s2 s3, nla_nest_start t s = Done (Some (nb_tail s), s1) ∧ put_all attrs s1 = Done (0, s2) ∧
    nla_nest_end (nb_tail s) s2 = Done (nb_len s2, s3) ∧
    nla_len (nb_tail s) s3 = Done (total_size attrs, s3) ∧
    reads_back s3 (nb_tail s + 4) (nb_tail s + 4 + total_size attrs) attrs.
Proof.
  intros Hp Hb Hz Ht Hok Hsz Hroom.
  assert (Hts : 0 ≤ total_size attrs).
  { clear. induction attrs as [|[t' b'] l IHl]; cbn; [lia|].
    pose proof (total_size_pos (zlen b') (zlen_nonneg b')). pose proof (zlen_nonneg b'). lia. }
  destruct (nla_put_spec s t []) as (s1 & E1 & Ht1 & _ & Hb1 & Hsame1 & _); [lia|done| |change (nla_total_size (zlen [])) with 4; lia|].
  { split; [done|vm_compute; reflexivity|by apply list.Forall_nil]. }
  change (zlen []) with 0 in E1. change (nla_total_size (zlen [])) with 4 in Ht1. destruct Hsame1 as [Hz1 _].
  destruct (put_all_stream attrs s1 (nb_tail s1) []) as (s2 & E2 & Hst & Ht2 & Hb2 & Hz2 & _); [lia|done|done|done|lia|].
  cbn [app] in Hst.
  set (s3 := Nskb (splice (nb_buf s2) (nb_tail s) (bytes16 (4 + total_size attrs))) (nb_data s2) (nb_tail s2) (nb_len s2)).
  destruct (nest_len s2 s3 (nb_tail s) (4 + total_size attrs)) as (Hl3 & Hz3 & Hab); [lia|lia|done|lia|].
  exists s1, s2, s3. split; [unfold nla_nest_start; run_simpl; by rewrite E1|]. split; [done|]. split.
  { unfold nla_nest_end. run_simpl. replace (nb_tail s2 - nb_tail s) with (4 + total_size attrs) by lia.
    rewrite u16_small by lia. by rewrite wrb_done by (rewrite ?zlen_bytes16; lia). }
  split.
  { unfold nla_len, get_nla_len. run_simpl. rewrite ld16_done by lia. fold (len_at s3 (nb_tail s)). rewrite Hl3.
    unfold NLA_HDRLEN. do 2 f_equal. lia. }
  apply stream_reads_back; [|lia|lia|lia|].
  - apply splice_bytes; [done|]. unfold bytes16. repeat (apply list.Forall_cons; split; [apply Z.mod_pos_bound; lia|]).
    by apply list.Forall_nil.
  - rewrite <- Ht1. replace (nb_tail s1 + total_size attrs) with (nb_tail s2) by lia.
    apply (stream_above s2); [done|lia| |done]. intros x n Hx Hn Hxn. apply Hab; lia.
Qed.
