(* ===== verification/SpinLock.v ===== *)
(** Spin locks: the macros [spin_lock], [spin_unlock] and [COND_INIT_LOCK] of
    include/dde_linux26/linux/spinlock.h.

    A Linux spin lock wraps a lock of the DDE kit.  Locks defined statically
    start with [need_init] set and are initialised by the first thread that
    uses them.  Threads interleave at every access to the lock's words; the kit
    lock is its documented behaviour: [lock] waits until it is free, [unlock]
    and [init] make it free. *)

From S2P Require Import Prelude.

(** What a thread does next; [spin_lock] up to [LEnter], [spin_unlock] from
    [UCheck] on. *)
Inductive lpc :=
| LIdle
| LCheck        (* if ((l)->need_init) *)
| LInit         (* dde_kit_spin_lock_init *)
| LClear        (* need_init = 0 *)
| LEnter        (* dde_kit_spin_lock_lock *)
| LCritical
| UCheck
| UInit
| UClear
| ULeave.       (* dde_kit_spin_lock_unlock *)

Record lsys := LSys { need_init : bool; kit_locked : bool; lthreads : list lpc }.

(** The step of a thread at [pc]: the new words and where it goes on. *)
Definition lock_step (pc : lpc) (n k : bool) : option (bool * bool * lpc) :=
  match pc with
  | LIdle => Some (n, k, LCheck)
  | LCheck => Some (n, k, if n then LInit else LEnter)
  | LInit => Some (n, false, LClear)
  | LClear => Some (false, k, LEnter)
  | LEnter => if k then None else Some (n, true, LCritical)
  | LCritical => Some (n, k, UCheck)
  | UCheck => Some (n, k, if n then UInit else ULeave)
  | UInit => Some (n, false, UClear)
  | UClear => Some (false, k, ULeave)
  | ULeave => Some (n, false, LIdle)
  end.

Inductive spin_step : lsys → lsys → Prop :=
| SpinStep n k th i pc n' k' pc' :
    th !! i = Some pc → lock_step pc n k = Some (n', k', pc') →
    spin_step (LSys n k th) (LSys n' k' (<[i := pc']> th)).

(** A thread holds the lock from entering to leaving. *)
Definition holds (pc : lpc) : bool :=
  match pc with LCritical | UCheck | UInit | UClear | ULeave => true | _ => false end.
Definition initialising (pc : lpc) : bool :=
  match pc with LInit | LClear | UInit | UClear => true | _ => false end.

Fixpoint holders (th : list lpc) : Z :=
  match th with [] => 0 | pc :: th => bool2Z (holds pc) + holders th end.

Lemma holders_insert th i pc pc' : th !! i = Some pc →
  holders (<[i := pc']> th) = holders th - bool2Z (holds pc) + bool2Z (holds pc').
Proof.
  revert i. induction th as [|q th IH]; intros [|i] H; [done|done|cbn in *; simplify_eq; lia|].
  change (<[S i := pc']> (q :: th)) with (q :: <[i := pc']> th). cbn [holders]. rewrite (IH i H). lia.
Qed.

Lemma holders_nonneg th : 0 ≤ holders th.
Proof. induction th as [|x th IH]; cbn [holders]; [lia|]. destruct (holds x); cbn [bool2Z]; lia. Qed.

Lemma holders_in th i p : th !! i = Some p → holds p = true → 1 ≤ holders th.
Proof.
  revert i. induction th as [|x th IH]; intros [|i] Hi Hp; cbn in Hi; simplify_eq; cbn [holders].
  - rewrite Hp. cbn [bool2Z]. pose proof (holders_nonneg th). lia.
  - specialize (IH i Hi Hp). destruct (holds x); cbn [bool2Z]; lia.
Qed.

Lemma holders_pair th i j p q : i ≠ j → th !! i = Some p → th !! j = Some q →
  holds p = true → holds q = true → 2 ≤ holders th.
Proof.
  revert i j. induction th as [|x th IH]; intros [|i] [|j] Hne Hi Hj Hp Hq; cbn in Hi, Hj; simplify_eq; cbn [holders].
  - rewrite Hp. cbn [bool2Z]. pose proof (holders_in th j q Hj Hq). lia.
  - rewrite Hq. cbn [bool2Z]. pose proof (holders_in th i p Hi Hp). lia.
  - specialize (IH i j ltac:(congruence) Hi Hj Hp Hq). destruct (holds x); cbn [bool2Z]; lia.
Qed.

Lemma holders_idle n : holders (replicate n LIdle) = 0.
Proof. induction n as [|n IH]; cbn [replicate holders]; [done|]. by rewrite IH. Qed.

(** An initialised lock: nobody initialises it again, and it is locked exactly
    if one thread holds it. *)
Record lock_inv (σ : lsys) : Prop := {
  li_init : need_init σ = false;
  li_none : Forall (λ pc, initialising pc = false) (lthreads σ);
  li_count : holders (lthreads σ) = bool2Z (kit_locked σ);
}.

Lemma lock_inv_step σ σ' : lock_inv σ → spin_step σ σ' → lock_inv σ'.
Proof.
  intros [Hn Hf Hc] Hst. destruct Hst as [n k th i pc n' k' pc' Hi Hs]. cbn in *. subst n.
  pose proof (Forall_lookup_1 _ _ _ _ Hf Hi) as Hpc. cbn in Hpc.
  split; cbn; [..|rewrite (holders_insert th i pc pc' Hi), Hc].
  - by destruct pc, k; simplify_eq/=.
  - apply Forall_insert; [done|]. by destruct pc, k; simplify_eq/=.
  - assert (Hle : holds pc = true → k = true).
    { intros Hh. pose proof (holders_in th i pc Hi Hh). destruct k; [done|]. cbn [bool2Z] in Hc. lia. }
    destruct pc, k; cbn in *; simplify_eq; try lia; try done; by specialize (Hle eq_refl).
Qed.

(** A spin lock that is initialised before it is used excludes: in every
    interleaving of any number of threads at most one of them is between
    [spin_lock] and the end of [spin_unlock].  A statically defined lock, which
    its first users initialise, does not exclude: two threads can be in the
    critical section together. *)
Theorem spin_lock_exclusion (n : nat) (σ : lsys) (i j : nat) (p q : lpc) :
  (rtc spin_step (LSys false false (replicate n LIdle)) σ →
   lthreads σ !! i = Some p → lthreads σ !! j = Some q → holds p = true → holds q = true → i = j) ∧
  rtc spin_step (LSys true false [LIdle; LIdle]) (LSys false true [LCritical; LCritical]).
Proof.
  split.
  - intros Hr Hi Hj Hp Hq. destruct (decide (i = j)) as [|Hne]; [done|]. exfalso.
    assert (HI : lock_inv σ).
    { assert (H0 : lock_inv (LSys false false (replicate n LIdle))).
      { split; cbn; [done|by apply list.Forall_replicate|apply holders_idle]. }
      clear Hi Hj Hp Hq. revert H0. induction Hr; eauto using lock_inv_step. }
    pose proof (holders_pair _ _ _ _ _ Hne Hi Hj Hp Hq). rewrite (li_count σ HI) in *.
    destruct (kit_locked σ); cbn in *; lia.
  - eapply rtc_l; [eapply (SpinStep _ _ _ 0); reflexivity|]. eapply rtc_l; [eapply (SpinStep _ _ _ 0); reflexivity|].
    eapply rtc_l; [eapply (SpinStep _ _ _ 1); reflexivity|]. eapply rtc_l; [eapply (SpinStep _ _ _ 1); reflexivity|].
    do 3 (eapply rtc_l; [eapply (SpinStep _ _ _ 0); reflexivity|]).
    do 3 (eapply rtc_l; [eapply (SpinStep _ _ _ 1); reflexivity|]). cbn. apply rtc_refl.
Qed.

Lemma spin_lock_exclusion_witness : 0%nat = 0%nat ∧
  rtc spin_step (LSys true false [LIdle; LIdle]) (LSys false true [LCritical; LCritical]).
Proof.
  destruct (spin_lock_exclusion 1 (LSys false true [LCritical]) 0 0 LCritical LCritical) as [H1 H2].
  split; [|exact H2]. apply H1; try reflexivity.
  do 3 (eapply rtc_l; [eapply (SpinStep _ _ _ 0); reflexivity|]). cbn. apply rtc_refl.
Defined.
