(* ===== verification/WaitQueue.v ===== *)
(** Wait queues: kernel/wait.c and the wake-up functions of kernel/sched.c of
    the port.

    A wait queue is a list of entries, each of which names a task and a wake-up
    function.  The pointer structure is that of [DList], the tasks are those of
    [Sched]; the calls run under the lock of the queue, so that they are
    sequential. *)

From S2P Require Import Prelude DList Kit Timer Sched.

Definition WQ_FLAG_EXCLUSIVE : Z := 1.

(** The wake-up functions of the kernel. *)
Inductive wake_fn := DefaultWake | AutoremoveWake.

(** [wait_queue_t] without its list node, which has the same address. *)
Record wait_entry := WaitEntry { we_flags : Z; we_private : option loc; we_func : wake_fn }.

Section WaitQueue.
Context {K : Type} `{KitTimer K}.

Record wq_state := WqState {
  wq_links : links;
  wq_entries : gmap loc wait_entry;
  wq_sched : sched_state (K := K);
}.

Definition lift_links {X} (m : M links X) : M wq_state X := λ s,
  match m (wq_links s) with
  | Done (x, l) => Done (x, WqState l (wq_entries s) (wq_sched s))
  | Fault e => Fault e
  end.
Definition lift_sched {X} (m : M (sched_state (K := K)) X) : M wq_state X := λ s,
  match m (wq_sched s) with
  | Done (x, c) => Done (x, WqState (wq_links s) (wq_entries s) c)
  | Fault e => Fault e
  end.
Definition load_entry (w : loc) : M wq_state wait_entry := λ s,
  match wq_entries s !! w with Some e => Done (e, s) | None => Fault FNull end.
Definition set_flags (w : loc) (f : Z → Z) : M wq_state unit :=
  e ← load_entry w;
  modify (λ s, WqState (wq_links s)
    (<[w := WaitEntry (f (we_flags e)) (we_private e) (we_func e)]> (wq_entries s)) (wq_sched s)).

(** ** wait.c *)

Definition set_exclusive (f : Z) : Z := Z.lor f WQ_FLAG_EXCLUSIVE.
Definition clear_exclusive (f : Z) : Z := Z.land f (Z.lnot WQ_FLAG_EXCLUSIVE).

Definition init_waitqueue_head (q : loc) : M wq_state unit := lift_links (INIT_LIST_HEAD q).

Definition add_wait_queue (q w : loc) : M wq_state unit :=
  set_flags w clear_exclusive ;; lift_links (list_add w q).
Definition add_wait_queue_exclusive (q w : loc) : M wq_state unit :=
  set_flags w set_exclusive ;; lift_links (list_add_tail w q).
Definition remove_wait_queue (q w : loc) : M wq_state unit := lift_links (list_del w).

(** [is_sync_wait(wait)]: the entry is bound to a task *)
Definition is_sync_wait (w : loc) : M wq_state bool :=
  e ← load_entry w; mret (match we_private e with Some _ => true | None => false end).

Definition prepare_to_wait (cur q w : loc) (state : Z) : M wq_state unit :=
  set_flags w clear_exclusive ;;
  b ← lift_links (list_empty w);
  (if (b : bool) then lift_links (list_add w q) else mret tt) ;;
  sync ← is_sync_wait w;
  if (sync : bool) then lift_sched (set_task_state cur state) else mret tt.
Definition prepare_to_wait_exclusive (cur q w : loc) (state : Z) : M wq_state unit :=
  set_flags w set_exclusive ;;
  b ← lift_links (list_empty w);
  (if (b : bool) then lift_links (list_add_tail w q) else mret tt) ;;
  sync ← is_sync_wait w;
  if (sync : bool) then lift_sched (set_task_state cur state) else mret tt.

Definition list_empty_careful (h : loc) : M links bool :=
  n ← get_nx h;
  if decide (n = h) then p ← get_pv h; mret (bool_decide (n = p)) else mret false.

Definition finish_wait (cur q w : loc) : M wq_state unit :=
  lift_sched (set_task_state cur TASK_RUNNING) ;;
  b ← lift_links (list_empty_careful w);
  if (b : bool) then mret tt else lift_links (list_del_init w).

(** ** The wake-up functions *)

Definition default_wake_function (w : loc) (mode sync : Z) : M wq_state Z :=
  e ← load_entry w;
  match we_private e with
  | None => fail FNull
  | Some p => lift_sched (try_to_wake_up p mode sync)
  end.
Definition autoremove_wake_function (w : loc) (mode sync : Z) : M wq_state Z :=
  ret ← default_wake_function w mode sync;
  (if ret =? 0 then mret tt else lift_links (list_del_init w)) ;;
  mret ret.

(** [curr->func(curr, mode, sync, key)] *)
Definition call_wake_fn (w : loc) (mode sync : Z) : M wq_state Z :=
  e ← load_entry w;
  match we_func e with
  | DefaultWake => default_wake_function w mode sync
  | AutoremoveWake => autoremove_wake_function w mode sync
  end.

(** The loop of [list_for_each_safe]: [tmp] is visited, [next] follows it. *)
Fixpoint wake_loop (fuel : nat) (q tmp next : loc) (mode nr_exclusive sync : Z) : M wq_state unit :=
  if decide (tmp = q) then mret tt else
  match fuel with
  | O => fail FFuel
  | S fuel =>
      e ← load_entry tmp;
      let flags := we_flags e in
      ret ← call_wake_fn tmp mode sync;
      let hit := negb (ret =? 0) && negb (Z.land flags WQ_FLAG_EXCLUSIVE =? 0) in
      let nr_exclusive := if hit then s32 (nr_exclusive - 1) else nr_exclusive in
      if hit && (nr_exclusive =? 0) then mret tt
      else n ← lift_links (get_nx next); wake_loop fuel q next n mode nr_exclusive sync
  end.

Definition __wake_up_common (fuel : nat) (q : loc) (mode nr_exclusive sync : Z) : M wq_state unit :=
  tmp ← lift_links (get_nx q);
  next ← lift_links (get_nx tmp);
  wake_loop fuel q tmp next mode nr_exclusive sync.
Definition __wake_up (fuel : nat) (q : loc) (mode nr_exclusive : Z) : M wq_state unit :=
  __wake_up_common fuel q mode nr_exclusive 0.
Definition __wake_up_locked (fuel : nat) (q : loc) (mode : Z) : M wq_state unit :=
  __wake_up_common fuel q mode 1 0.
Definition __wake_up_sync (fuel : nat) (q : option loc) (mode nr_exclusive : Z) : M wq_state unit :=
  match q with
  | None => mret tt
  | Some q => __wake_up_common fuel q mode nr_exclusive (if nr_exclusive =? 0 then 0 else 1)
  end.

(** ** Waking *)

(** Entries of live tasks. *)
Definition entry_ok (s : wq_state) (w : loc) : Prop :=
  ∃ e p k, wq_entries s !! w = Some e ∧ we_private e = Some p ∧ tasks (wq_sched s) !! p = Some k.

(** How many of the entries [L] belong to the task [p]. *)
Definition owner (s : wq_state) (w : loc) : option loc := wq_entries s !! w ≫= we_private.
Fixpoint entries_of (s : wq_state) (p : loc) (L : list loc) : Z :=
  match L with
  | [] => 0
  | w :: L => bool2Z (bool_decide (owner s w = Some p)) + entries_of s p L
  end.

(** The tasks after waking the entries [L]. *)
Definition woken_tasks (s s' : wq_state) (L : list loc) : Prop :=
  ∀ p k, tasks (wq_sched s) !! p = Some k →
    tasks (wq_sched s') !! p =
      Some (Task (if entries_of s p L =? 0 then tk_state k else TASK_RUNNING)
                 (tk_sleep_lock k + entries_of s p L)).

Lemma entries_of_nonneg s p L : 0 ≤ entries_of s p L.
Proof. induction L as [|w L IH]; cbn [entries_of]; [lia|]. destruct (bool_decide _); cbn [bool2Z]; lia. Qed.

Lemma call_wake_fn_spec s w mode sync : entry_ok s w →
  ∃ s', call_wake_fn w mode sync s = Done (0, s') ∧ wq_links s' = wq_links s ∧ wq_entries s' = wq_entries s ∧
    woken_tasks s s' [w] ∧ tms (wq_sched s') = tms (wq_sched s) ∧
    dom (tasks (wq_sched s')) = dom (tasks (wq_sched s)).
Proof.
  intros (e & p & k & He & Hp & Hk).
  set (c := with_tasks (<[p := Task TASK_RUNNING (tk_sleep_lock k + 1)]> (tasks (wq_sched s))) (wq_sched s)).
  assert (Etry : try_to_wake_up p mode sync (wq_sched s) = Done (0, c)).
  { unfold try_to_wake_up, set_task_state, sleep_lock_up, load_task, store_task. run_simpl. rewrite Hk. cbn.
    rewrite lookup_insert_eq. cbn. by rewrite insert_insert_eq. }
  assert (Edef : default_wake_function w mode sync s = Done (0, WqState (wq_links s) (wq_entries s) c)).
  { unfold default_wake_function, load_entry, lift_sched. run_simpl. rewrite He, Hp, Etry. done. }
  exists (WqState (wq_links s) (wq_entries s) c). split.
  { unfold call_wake_fn, load_entry. run_simpl. rewrite He. destruct (we_func e); [exact Edef|].
    unfold autoremove_wake_function. run_simpl. by rewrite Edef. }
  split; [done|]. split; [done|]. split; [|split; [done|]].
  - intros p' k' Hk'. cbn [wq_sched entries_of]. unfold owner. rewrite He. cbn.
    destruct (decide (p' = p)) as [->|Hne].
    + rewrite lookup_insert_eq. simplify_eq. rewrite Hp, bool_decide_true by done. cbn. done.
    + rewrite lookup_insert_ne by done. rewrite bool_decide_false by (rewrite Hp; congruence). cbn.
      rewrite Hk'. destruct k'. cbn. f_equal. f_equal. lia.
  - unfold c. cbn. rewrite dom_insert_L. apply elem_of_dom_2 in Hk. set_solver.
Qed.

Lemma woken_trans s s1 s2 w L : wq_entries s1 = wq_entries s →
  woken_tasks s s1 [w] → woken_tasks s1 s2 L → woken_tasks s s2 (w :: L).
Proof.
  intros He H1 H2 p k Hk. pose proof (H1 p k Hk) as E1. pose proof (H2 p _ E1) as E2.
  assert (Eo : entries_of s1 p L = entries_of s p L).
  { clear -He. induction L as [|x L IH]; cbn [entries_of]; [done|]. unfold owner. by rewrite IH, He. }
  rewrite Eo in E2. rewrite E2. cbn [entries_of tk_state tk_sleep_lock].
  pose proof (entries_of_nonneg s p L). f_equal. f_equal; [|lia].
  destruct (bool_decide (owner s w = Some p)); cbn [bool2Z].
  - destruct (Z.eqb_spec (1 + 0) 0), (Z.eqb_spec (entries_of s p L) 0), (Z.eqb_spec (1 + entries_of s p L) 0); done || lia.
  - by rewrite Z.add_0_l.
Qed.

Lemma wake_loop_spec fuel s q L1 L2 mode nr sync :
  dlist (wq_links s) q (L1 ++ L2) → (∀ w, w ∈ L2 → entry_ok s w) → (length L2 ≤ fuel)%nat →
  let tmp := match L2 with [] => q | x :: _ => x end in
  let next := match L2 with [] => match L1 ++ L2 with [] => q | y :: _ => y end
              | _ :: [] => q | _ :: y :: _ => y end in
  ∃ s', wake_loop fuel q tmp next mode nr sync s = Done (tt, s') ∧ wq_links s' = wq_links s ∧
    wq_entries s' = wq_entries s ∧ woken_tasks s s' L2 ∧ tms (wq_sched s') = tms (wq_sched s) ∧
    dom (tasks (wq_sched s')) = dom (tasks (wq_sched s)).
Proof.
  revert fuel s L1. induction L2 as [|x L2 IH]; intros fuel s L1 HD Hok Hf; cbv zeta.
  - exists s. split; [destruct fuel; cbn [wake_loop]; by rewrite decide_True|]. split; [done|]. split; [done|].
    split; [|done]. intros p k Hk. cbn. rewrite Hk. destruct k. cbn. f_equal. f_equal. lia.
  - destruct fuel as [|fuel]; [cbn in Hf; lia|].
    assert (Hxq : x ≠ q).
    { destruct HD as [_ Hnd]. apply NoDup_head in Hnd as [Hq _]. intros ->. apply Hq. set_solver. }
    destruct (call_wake_fn_spec s x mode sync) as (s1 & Ec & El1 & Ee1 & Hw1 & Et1 & Ed1); [apply Hok; set_solver|].
    destruct (Hok x) as (e & p & k & He & Hp & Hk); [set_solver|].
    cbn [wake_loop]. rewrite decide_False by done. run_simpl. unfold load_entry. rewrite He. cbn beta iota.
    rewrite Ec. cbn beta iota. cbn [Z.eqb negb andb].
    assert (HD1 : dlist (wq_links s1) q ((L1 ++ [x]) ++ L2)) by (rewrite El1, <- app_assoc; exact HD).
    assert (Hnx : get_nx (match L2 with [] => q | y :: _ => y end) (wq_links s1) =
      Done (match L2 with [] => match (L1 ++ [x]) ++ L2 with [] => q | y :: _ => y end | _ :: [] => q | _ :: z :: _ => z end,
            wq_links s1)).
    { unfold get_nx. destruct L2 as [|y L2].
      - by rewrite (dlist_first _ _ _ HD1).
      - by rewrite (dlist_next _ q (L1 ++ [x]) y L2 HD1). }
    unfold lift_links. rewrite Hnx. cbn beta iota.
    replace (WqState (wq_links s1) (wq_entries s1) (wq_sched s1)) with s1 by by destruct s1.
    destruct (IH fuel s1 (L1 ++ [x])) as (s2 & E2 & El2 & Ee2 & Hw2 & Et2 & Ed2); [done| |cbn in Hf; lia|].
    + intros w Hw. destruct (Hok w) as (e' & p' & k' & He' & Hp' & Hk'); [set_solver|].
      assert (is_Some (tasks (wq_sched s1) !! p')) as [k1 Hk1].
      { apply elem_of_dom. rewrite Ed1. by eapply elem_of_dom_2. }
      exists e', p', k1. by rewrite Ee1.
    + exists s2. split; [exact E2|]. split; [congruence|]. split; [congruence|].
      split; [by eapply woken_trans|]. split; congruence.
Qed.

Lemma wake_up_common_spec fuel s q L mode nr sync :
  dlist (wq_links s) q L → (∀ w, w ∈ L → entry_ok s w) → (length L ≤ fuel)%nat →
  ∃ s', __wake_up_common fuel q mode nr sync s = Done (tt, s') ∧ wq_links s' = wq_links s ∧
    wq_entries s' = wq_entries s ∧ woken_tasks s s' L ∧ tms (wq_sched s') = tms (wq_sched s) ∧
    dom (tasks (wq_sched s')) = dom (tasks (wq_sched s)).
Proof.
  intros HD Hok Hf. destruct (wake_loop_spec fuel s q [] L mode nr sync HD Hok Hf) as (s' & E & Hs').
  exists s'. split; [|exact Hs']. unfold __wake_up_common, lift_links, get_nx. run_simpl.
  rewrite (dlist_first _ _ _ HD). cbn [wq_links]. destruct s as [l e c]. cbn [wq_links wq_entries wq_sched] in *.
  cbn in E. destruct L as [|x L].
  - cbn [wq_links]. rewrite (dlist_first _ _ _ HD). exact E.
  - cbn [wq_links]. rewrite (dlist_next _ q [] x L HD). cbn beta iota. exact E.
Qed.

(** ** The queue as a list

    Entries made with [DEFINE_WAIT] are queued by [prepare_to_wait] and taken
    out by [finish_wait], both of which may be repeated. *)

Inductive wq_op :=
| WPrepare (cur w : loc) (state : Z)
| WPrepareExclusive (cur w : loc) (state : Z)
| WFinish (cur w : loc)
| WWake (mode nr_exclusive : Z).

Definition wq_run_op (n : nat) (q : loc) (o : wq_op) : M wq_state unit :=
  match o with
  | WPrepare cur w st => prepare_to_wait cur q w st
  | WPrepareExclusive cur w st => prepare_to_wait_exclusive cur q w st
  | WFinish cur w => finish_wait cur q w
  | WWake mode nr => __wake_up n q mode nr
  end.

(** What the operation does to the list of waiters. *)
Definition wq_spec (o : wq_op) (L : list loc) : list loc :=
  match o with
  | WPrepare _ w _ => if decide (w ∈ L) then L else w :: L
  | WPrepareExclusive _ w _ => if decide (w ∈ L) then L else L ++ [w]
  | WFinish _ w => filter (λ x, x ≠ w) L
  | WWake _ _ => L
  end.

Definition wq_op_ok (W P : gset loc) (o : wq_op) : Prop :=
  match o with
  | WPrepare cur w _ | WPrepareExclusive cur w _ | WFinish cur w => w ∈ W ∧ cur ∈ P
  | WWake _ _ => True
  end.

Record wq_inv (W P : gset loc) (q : loc) (L : list loc) (s : wq_state) : Prop := {
  wi_queue : dlist (wq_links s) q L;
  wi_sub : ∀ w, w ∈ L → w ∈ W;
  wi_head : q ∉ W;
  wi_free : ∀ w, w ∈ W → w ∉ L → dlist (wq_links s) w [];
  wi_entry : ∀ w, w ∈ W → ∃ e p, wq_entries s !! w = Some e ∧ we_private e = Some p ∧ p ∈ P;
  wi_tasks : dom (tasks (wq_sched s)) = P;
}.

Lemma wq_inv_entry_ok W P q L s w : wq_inv W P q L s → w ∈ W → entry_ok s w.
Proof.
  intros I Hw. destruct (wi_entry _ _ _ _ _ I w Hw) as (e & p & He & Hp & HP).
  rewrite <- (wi_tasks _ _ _ _ _ I) in HP. apply elem_of_dom in HP as [k Hk]. exists e, p, k. done.
Qed.

(** Linking a free entry or unlinking a queued one leaves the other entries alone. *)
Lemma wq_inv_add W P q L s w l' L' : wq_inv W P q L s → w ∈ W → w ∉ L →
  dlist l' q L' → (∀ x, x ∈ L' ↔ x = w ∨ x ∈ L) → same_outside (w :: q :: L) (wq_links s) l' →
  wq_inv W P q L' (WqState l' (wq_entries s) (wq_sched s)).
Proof.
  intros [HD Hsub Hq Hfree Hent Htk] Hw HwL HD' HL' Hout. split; cbn; try done.
  - intros x [->|Hx]%HL'; [done|by apply Hsub].
  - intros x Hx HxL. apply (dlist_frame (wq_links s) l' (w :: q :: L)); [done| |].
    + intros y Hy. apply list_elem_of_singleton in Hy as ->. rewrite !not_elem_of_cons.
      split; [intros ->; apply HxL, HL'; by left|]. split; [congruence|].
      intros HL. apply HxL, HL'. by right.
    + apply Hfree; [done|]. intros HL. apply HxL, HL'. by right.
Qed.

Lemma queued_not_empty W P q L s w : wq_inv W P q L s → w ∈ L →
  ∃ y, nx (wq_links s) !! w = Some (Some y) ∧ y ≠ w.
Proof.
  intros I Hw. destruct I as [HD Hsub Hq _ _ _]. pose proof (list_elem_of_split _ _ Hw) as (L1 & L2 & ->).
  rewrite (dlist_next _ q L1 w L2 HD). eexists. split; [done|]. destruct HD as [_ Hnd].
  rewrite list.NoDup_cons, list.NoDup_app, list.NoDup_cons in Hnd. destruct Hnd as (Hq2 & _ & _ & Hw2 & _).
  destruct L2 as [|y L2]; [intros ->; apply Hq2; set_solver|set_solver].
Qed.

Lemma list_empty_entry W P q L s w : wq_inv W P q L s → w ∈ W →
  list_empty w (wq_links s) = Done (bool_decide (w ∉ L), wq_links s).
Proof.
  intros I Hw. destruct (decide (w ∈ L)) as [HL|HL].
  - destruct (queued_not_empty W P q L s w I HL) as (y & Hy & Hne). unfold list_empty, get_nx. run_simpl.
    rewrite Hy. cbn beta iota. rewrite !bool_decide_false; [done|tauto|done].
  - rewrite (list_empty_spec _ w [] (wi_free _ _ _ _ _ I w Hw HL)). by rewrite !bool_decide_true.
Qed.

Lemma list_empty_careful_entry W P q L s w : wq_inv W P q L s → w ∈ W →
  list_empty_careful w (wq_links s) = Done (bool_decide (w ∉ L), wq_links s).
Proof.
  intros I Hw. unfold list_empty_careful, get_nx, get_pv. run_simpl. destruct (decide (w ∈ L)) as [HL|HL].
  - destruct (queued_not_empty W P q L s w I HL) as (y & Hy & Hne). rewrite Hy. cbn beta iota.
    rewrite decide_False by done. rewrite bool_decide_false; [done|tauto].
  - destruct (wi_free _ _ _ _ _ I w Hw HL) as [[[Hn Hp] _] _]. rewrite Hn. cbn beta iota.
    rewrite decide_True by done. rewrite Hp. cbn beta iota. by rewrite !bool_decide_true.
Qed.

Lemma set_task_state_run P (c : sched_state (K := K)) cur st : dom (tasks c) = P → cur ∈ P →
  ∃ c', set_task_state cur st c = Done (tt, c') ∧ dom (tasks c') = P.
Proof.
  intros Hd Hc. assert (is_Some (tasks c !! cur)) as [k Hk] by (apply elem_of_dom; by rewrite Hd).
  unfold set_task_state, load_task, store_task. run_simpl. rewrite Hk. eexists. split; [done|]. cbn.
  rewrite dom_insert_L, Hd. set_solver.
Qed.

Lemma set_flags_inv W P q L s w f : wq_inv W P q L s → w ∈ W →
  ∃ s', set_flags w f s = Done (tt, s') ∧ wq_inv W P q L s' ∧ wq_links s' = wq_links s.
Proof.
  intros I Hw. destruct (wi_entry _ _ _ _ _ I w Hw) as (e & p & He & Hp & HP).
  unfold set_flags, load_entry. run_simpl. rewrite He. eexists. split; [done|]. split; [|done].
  destruct I as [HD Hsub Hq Hfree Hent Htk]. split; cbn; try done. intros x Hx.
  destruct (decide (x = w)) as [->|Hne]; [|by rewrite lookup_insert_ne; auto].
  rewrite lookup_insert_eq. eexists _, p. split; [done|]. done.
Qed.

(** The common part of the two [prepare_to_wait]s. *)
Lemma prepare_inv W P q L s cur w st f (add : M links unit) L' : wq_inv W P q L s → w ∈ W → cur ∈ P →
  (∀ x, x ∈ L' ↔ x = w ∨ x ∈ L) →
  (w ∉ L → ∃ l', add (wq_links s) = Done (tt, l') ∧ dlist l' q L' ∧ same_outside (w :: q :: L) (wq_links s) l') →
  ∃ s', (set_flags w f ;; b ← lift_links (list_empty w);
     (if (b : bool) then lift_links add else mret tt) ;; sync ← is_sync_wait w;
     if (sync : bool) then lift_sched (set_task_state cur st) else mret tt) s = Done (tt, s') ∧
    wq_inv W P q (if decide (w ∈ L) then L else L') s'.
Proof.
  intros I Hw Hcur HL' Hadd. destruct (set_flags_inv W P q L s w f I Hw) as (s1 & E1 & I1 & El1).
  run_simpl. rewrite E1. cbn beta iota. unfold lift_links at 1. rewrite (list_empty_entry W P q L s1 w I1 Hw).
  cbn beta iota. replace (WqState (wq_links s1) (wq_entries s1) (wq_sched s1)) with s1 by by destruct s1.
  assert (Hmid : ∃ s2, (if bool_decide (w ∉ L) then lift_links add else mret tt) s1 = Done (tt, s2) ∧
    wq_inv W P q (if decide (w ∈ L) then L else L') s2).
  { destruct (decide (w ∈ L)) as [HL|HL].
    - rewrite bool_decide_false by tauto. exists s1. done.
    - rewrite bool_decide_true by done. destruct (Hadd HL) as (l' & Ea & HD' & Hout).
      unfold lift_links. rewrite El1, Ea. eexists. split; [done|].
      eapply (wq_inv_add W P q L s1 w); eauto. by rewrite El1. }
  destruct Hmid as (s2 & E2 & I2). run_simpl. rewrite E2. cbn beta iota. unfold is_sync_wait, load_entry. run_simpl.
  destruct (wi_entry _ _ _ _ _ I2 w Hw) as (e & p & -> & Hp & _). cbn beta iota. rewrite Hp.
  destruct (set_task_state_run P (wq_sched s2) cur st (wi_tasks _ _ _ _ _ I2) Hcur) as (c' & Ec & Hd).
  unfold lift_sched. rewrite Ec. eexists. split; [done|]. destruct I2. by split.
Qed.

Lemma filter_ne_notin (w : loc) (L : list loc) : w ∉ L → filter (λ x, x ≠ w) L = L.
Proof.
  induction L as [|x L IH]; [done|]. rewrite not_elem_of_cons. intros [Hx HL].
  rewrite filter_cons_True by congruence. by rewrite IH.
Qed.

Lemma finish_inv W P q L s cur w : wq_inv W P q L s → w ∈ W → cur ∈ P →
  ∃ s', finish_wait cur q w s = Done (tt, s') ∧ wq_inv W P q (filter (λ x, x ≠ w) L) s'.
Proof.
  intros I Hw Hcur. destruct (set_task_state_run P (wq_sched s) cur TASK_RUNNING (wi_tasks _ _ _ _ _ I) Hcur)
    as (c' & Ec & Hd). unfold finish_wait. run_simpl. unfold lift_sched at 1. rewrite Ec. cbn beta iota.
  set (s1 := WqState (wq_links s) (wq_entries s) c').
  assert (I1 : wq_inv W P q L s1) by (destruct I; by split).
  unfold lift_links at 1. change (wq_links s) with (wq_links s1).
  rewrite (list_empty_careful_entry W P q L s1 w I1 Hw). cbn beta iota.
  destruct (decide (w ∈ L)) as [HL|HL].
  - rewrite bool_decide_false by tauto. pose proof (list_elem_of_split _ _ HL) as (L1 & L2 & ->).
    pose proof I1 as [HD Hsub Hq Hfree Hent Htk].
    destruct (list_del_init_spec _ q L1 w L2 HD) as (l' & Ed & HD' & Hw' & Hout).
    assert (Hnd : w ∉ L1 ++ L2 ∧ NoDup (q :: L1 ++ w :: L2)).
    { destruct HD as [_ Hnd]. split; [|done]. apply NoDup_head in Hnd as [_ Hnd].
      rewrite <- Permutation_middle in Hnd. by apply NoDup_head in Hnd as [? _]. }
    destruct Hnd as [Hnw Hnd]. rewrite list.filter_app, filter_cons_False by congruence.
    rewrite !filter_ne_notin by set_solver.
    unfold lift_links. cbn [wq_links wq_entries wq_sched]. change (wq_links s) with (wq_links s1). rewrite Ed. eexists. split; [done|]. split; cbn; try done.
    + intros x Hx. apply Hsub. set_solver.
    + intros x Hx HxL. destruct (decide (x = w)) as [->|Hne]; [done|].
      apply (dlist_frame (wq_links s1) l' (q :: L1 ++ w :: L2)); [done| |].
      * intros y Hy. apply list_elem_of_singleton in Hy as ->. set_solver.
      * apply Hfree; [done|]. set_solver.
  - rewrite bool_decide_true by done. rewrite filter_ne_notin by done. exists s1. done.
Qed.

Lemma wq_op_inv W P q L s o : wq_inv W P q L s → wq_op_ok W P o →
  ∃ s', wq_run_op (size W) q o s = Done (tt, s') ∧ wq_inv W P q (wq_spec o L) s'.
Proof.
  intros I Ho. assert (Hnew : ∀ w, w ∈ W → w ∉ L → w ∉ q :: L).
  { intros w Hw HL. rewrite not_elem_of_cons. split; [|done]. intros ->. by apply (wi_head _ _ _ _ _ I). }
  destruct o as [cur w st|cur w st|cur w|mode nr]; cbn [wq_run_op wq_spec wq_op_ok] in *.
  - destruct Ho as [Hw Hc]. apply (prepare_inv W P q L s cur w st clear_exclusive (list_add w q) (w :: L)); auto.
    + intros x. by rewrite elem_of_cons.
    + intros HL. apply list_add_spec; [apply I|by apply Hnew].
  - destruct Ho as [Hw Hc]. apply (prepare_inv W P q L s cur w st set_exclusive (list_add_tail w q) (L ++ [w])); auto.
    + intros x. rewrite elem_of_app, list_elem_of_singleton. tauto.
    + intros HL. apply list_add_tail_spec; [apply I|by apply Hnew].
  - destruct Ho as [Hw Hc]. by apply finish_inv.
  - destruct (wake_up_common_spec (size W) s q L mode nr 0) as (s' & E & El & Ee & Hwk & Et & Ed).
    + apply I.
    + intros w Hw. eapply wq_inv_entry_ok; [done|]. by eapply wi_sub.
    + rewrite <- (size_list_to_set (C := gset loc) L).
      * apply subseteq_size. intros x Hx%elem_of_list_to_set. by eapply wi_sub.
      * destruct (wi_queue _ _ _ _ _ I) as [_ Hnd]. by apply NoDup_head in Hnd as [_ ?].
    + exists s'. split; [exact E|]. destruct I as [HD Hsub Hq Hfree Hent Htk].
      split; rewrite ?El, ?Ee; try done. congruence.
Qed.

End WaitQueue.

(** C33: [__wake_up] wakes every waiter of the queue: each queued entry ups its
    task's sleep lock once and makes the task running, other tasks and the queue
    stay as they are.  The number of exclusive waiters to wake has no effect:
    [try_to_wake_up] of the port always returns 0, so that no exclusive wake-up
    is counted. *)
Theorem wake_up_wakes_all {K : Type} `{KitTimer K} (s : wq_state (K := K)) (q : loc) (L : list loc)
    (mode nr_exclusive : Z) :
  dlist (wq_links s) q L → (∀ w, w ∈ L → entry_ok s w) →
  ∃ s', __wake_up (length L) q mode nr_exclusive s = Done (tt, s') ∧ wq_links s' = wq_links s ∧
    wq_entries s' = wq_entries s ∧ woken_tasks s s' L.
Proof.
  intros HD Hok. destruct (wake_up_common_spec (length L) s q L mode nr_exclusive 0 HD Hok) as (s' & E & H1 & H2 & H3 & _); [done|].
  exists s'. done.
Qed.

Fixpoint wq_run {K : Type} `{KitTimer K} (n : nat) (q : loc) (os : list wq_op) : M (wq_state (K := K)) unit :=
  match os with
  | [] => mret tt
  | o :: os => wq_run_op n q o ;; wq_run n q os
  end.

(** Over every sequence of [prepare_to_wait], [prepare_to_wait_exclusive],
    [finish_wait] and [__wake_up] the linked queue is the list of waiters:
    preparing queues an entry once, non-exclusive ones at the front and
    exclusive ones at the tail, finishing removes it if it is queued, and no
    call follows a pointer of an entry that was taken out. *)
Theorem wait_queue_refines {K : Type} `{KitTimer K} (W P : gset loc) (q : loc) (L : list loc)
    (s : wq_state (K := K)) (os : list wq_op) :
  wq_inv W P q L s → Forall (wq_op_ok W P) os →
  ∃ s', wq_run (size W) q os s = Done (tt, s') ∧
    wq_inv W P q (foldl (λ L o, wq_spec o L) L os) s'.
Proof.
  intros I Hos. revert L s I. induction Hos as [|o os Ho Hos IH]; intros L s I; cbn [wq_run foldl].
  - exists s. done.
  - destruct (wq_op_inv W P q L s o I Ho) as (s1 & E1 & I1). destruct (IH _ _ I1) as (s2 & E2 & I2).
    exists s2. run_simpl. rewrite E1. done.
Qed.

(** Two tasks and an entry for each on the queue at address 1. *)
Definition demo_wq : wq_state (K := ktimers) :=
  WqState
    (Links {[1%positive := Some 1%positive; 2%positive := Some 2%positive; 3%positive := Some 3%positive]}
           {[1%positive := Some 1%positive; 2%positive := Some 2%positive; 3%positive := Some 3%positive]})
    {[2%positive := WaitEntry 0 (Some 10%positive) AutoremoveWake;
      3%positive := WaitEntry 0 (Some 11%positive) AutoremoveWake]}
    (SchedState {[10%positive := Task 0 0; 11%positive := Task 0 0]} (tms demo_sleep) 0).
Definition demo_ops : list wq_op :=
  [WPrepareExclusive 10%positive 2%positive TASK_INTERRUPTIBLE;
   WPrepareExclusive 11%positive 3%positive TASK_INTERRUPTIBLE;
   WPrepareExclusive 10%positive 2%positive TASK_INTERRUPTIBLE; WWake 1 1].

Lemma demo_wq_inv : wq_inv {[2%positive; 3%positive]} {[10%positive; 11%positive]} 1%positive [] demo_wq.
Proof.
  assert (Hself : ∀ x, x = 1%positive ∨ x = 2%positive ∨ x = 3%positive → dlist (wq_links demo_wq) x []).
  { intros x Hx. split; [|apply NoDup_singleton]. cbn.
    destruct Hx as [-> | [-> | ->]]; (split; [split; vm_compute; reflexivity|done]). }
  split.
  - apply Hself. auto.
  - intros w Hw. by apply elem_of_nil in Hw.
  - set_solver.
  - intros w Hw _. apply Hself. set_solver.
  - intros w Hw. assert (w = 2%positive ∨ w = 3%positive) as [-> | ->] by set_solver.
    + eexists _, 10%positive. split; [vm_compute; reflexivity|]. split; [reflexivity|set_solver].
    + eexists _, 11%positive. split; [vm_compute; reflexivity|]. split; [reflexivity|set_solver].
  - vm_compute. reflexivity.
Qed.

Lemma wait_queue_refines_witness :
  (foldl (λ L o, wq_spec o L) [] demo_ops = [2%positive; 3%positive]) ∧
  ∃ s', wq_run (size ({[2%positive; 3%positive]} : gset loc)) 1%positive demo_ops demo_wq = Done (tt, s') ∧
    wq_inv {[2%positive; 3%positive]} {[10%positive; 11%positive]} 1%positive
      (foldl (λ L o, wq_spec o L) [] demo_ops) s'.
Proof.
  split; [reflexivity|]. apply wait_queue_refines; [exact demo_wq_inv|].
  repeat (apply list.Forall_cons; split; [cbn; (split; set_solver) || exact I|]). by apply list.Forall_nil.
Defined.

(** The queue after both tasks prepared to wait exclusively. *)
Definition demo_wq1 : wq_state (K := ktimers) :=
  match wq_run 2 1%positive (take 2 demo_ops) demo_wq with Done (_, s) => s | Fault _ => demo_wq end.

(** Two exclusive waiters, one of which should be woken: both are. *)
Lemma wake_up_wakes_all_witness :
  wq_run 2 1%positive (take 2 demo_ops) demo_wq = Done (tt, demo_wq1) ∧
  ∃ s2, __wake_up 2 1%positive 3 1 demo_wq1 = Done (tt, s2) ∧
    (tk_sleep_lock <$> tasks (wq_sched s2) !! 10%positive) = Some 1 ∧
    (tk_sleep_lock <$> tasks (wq_sched s2) !! 11%positive) = Some 1.
Proof.
  split; [vm_compute; reflexivity|].
  destruct (wake_up_wakes_all demo_wq1 1%positive [2%positive; 3%positive] 3 1) as (s2 & E2 & _ & _ & Hw).
  - split; [cbn [app path]; repeat split; vm_compute; reflexivity|].
    apply (bool_decide_unpack _). vm_compute. exact I.
  - intros w Hw. assert (w = 2%positive ∨ w = 3%positive) as [-> | ->] by set_solver.
    + eexists _, 10%positive, _. split; [vm_compute; reflexivity|]. split; [reflexivity|vm_compute; reflexivity].
    + eexists _, 11%positive, _. split; [vm_compute; reflexivity|]. split; [reflexivity|vm_compute; reflexivity].
  - exists s2. split; [exact E2|].
    assert (H10 : tasks (wq_sched demo_wq1) !! 10%positive = Some (Task 1 0)) by (vm_compute; reflexivity).
    assert (H11 : tasks (wq_sched demo_wq1) !! 11%positive = Some (Task 1 0)) by (vm_compute; reflexivity).
    split; [etransitivity; [exact (f_equal (fmap tk_sleep_lock) (Hw _ _ H10))|]|
            etransitivity; [exact (f_equal (fmap tk_sleep_lock) (Hw _ _ H11))|]]; vm_compute; reflexivity.
Defined.
