(* ===== verification/Completion.v ===== *)
(** Completions: [complete] and the four [wait_for_completion] functions of
    kernel/sched.c.

    Any number of threads call the functions on one completion.  A thread's
    calls are the steps between two accesses to what is shared: the lock, the
    counter [done], the queue of waiters, and the state and sleep lock of the
    woken tasks.  [WaitQueue] shows that [__wake_up_common] visits every queued
    entry; here the visits are interleaved with the other threads.  Whether a
    signal is pending and whether a timeout has run out is left open, and any
    task may be woken at any time by others, as the timer of
    [schedule_timeout] does. *)

From S2P Require Import Prelude Sched.

(** What a thread calls; the waits with or without a timeout, interruptible or
    not. *)
Inductive ccall := Complete | Wait (timed intr : bool).

(** What a thread does next. *)
Inductive cpc :=
| CIdle
| CLock                            (* complete: spin_lock_irqsave *)
| CInc                             (* x->done++ *)
| CWake (rest : list nat)          (* __wake_up_common: the entries left *)
| CUp (j : nat) (rest : list nat)  (* try_to_wake_up: dde_kit_sem_up *)
| CUnlock
| WLock (timed intr : bool)        (* spin_lock_irq *)
| WTest (timed intr : bool)        (* if (!x->done), the entry is queued *)
| WLoop (timed intr : bool)        (* signal_pending, __set_current_state *)
| WUnlock (timed intr : bool)      (* spin_unlock_irq *)
| WSwitch (timed intr : bool)      (* schedule: switch (current->state) *)
| WYield (timed intr : bool)       (* schedule: dde_kit_thread_schedule *)
| WDown (timed intr : bool)        (* schedule: dde_kit_sem_down *)
| WRelock (timed intr : bool)      (* spin_lock_irq *)
| WCheck (timed intr : bool)       (* if (!timeout) *)
| WRetest (timed intr : bool)      (* while (!x->done) *)
| WLeave                           (* __remove_wait_queue, goto out *)
| WRemove                          (* __remove_wait_queue *)
| WTake                            (* x->done-- *)
| WOut.                            (* spin_unlock_irq *)

Record cthread := CThread { ct_pc : cpc; ct_task : task }.

Record csys := CSys {
  done : Z;
  lock : option nat;
  queue : list nat;
  th : nat → cthread;
  completes : Z;    (* calls of complete that have counted *)
  taken : Z;        (* waits that have taken a completion *)
}.

Definition set_pc (pc : cpc) (t : cthread) : cthread := CThread pc (ct_task t).
Definition set_state (st : Z) (t : cthread) : cthread :=
  CThread (ct_pc t) (Task st (tk_sleep_lock (ct_task t))).
Definition sem_add (d : Z) (t : cthread) : cthread :=
  CThread (ct_pc t) (Task (tk_state (ct_task t)) (tk_sleep_lock (ct_task t) + d)).

Definition goto (i : nat) (pc : cpc) (σ : csys) : csys :=
  CSys (done σ) (lock σ) (queue σ) (upd_at i (set_pc pc) (th σ)) (completes σ) (taken σ).
Definition on_thread (i : nat) (f : cthread → cthread) (σ : csys) : csys :=
  CSys (done σ) (lock σ) (queue σ) (upd_at i f (th σ)) (completes σ) (taken σ).
Definition with_lock (l : option nat) (σ : csys) : csys :=
  CSys (done σ) l (queue σ) (th σ) (completes σ) (taken σ).
Definition with_queue (q : list nat) (σ : csys) : csys :=
  CSys (done σ) (lock σ) q (th σ) (completes σ) (taken σ).

Definition acquire (i : nat) (pc : cpc) (σ : csys) : option csys :=
  match lock σ with None => Some (goto i pc (with_lock (Some i) σ)) | Some _ => None end.
Definition dequeue (i : nat) (q : list nat) : list nat := filter (λ j, j ≠ i) q.

(** [complete]; [None]: the thread waits. *)
Definition complete_run (i : nat) (pc : cpc) (σ : csys) : option csys :=
  match pc with
  | CLock => acquire i CInc σ
  | CInc => Some (CSys (u32 (done σ + 1)) (lock σ) (queue σ) (upd_at i (set_pc (CWake (queue σ))) (th σ))
                    (completes σ + 1) (taken σ))
  | CWake [] => Some (goto i CUnlock σ)
  | CWake (j :: rest) => Some (goto i (CUp j rest) (on_thread j (set_state TASK_RUNNING) σ))
  | CUp j rest => Some (goto i (CWake rest) (on_thread j (sem_add 1) σ))
  | CUnlock => Some (goto i CIdle (with_lock None σ))
  | _ => None
  end.

(** The four waits; [o] says whether a signal is pending or the timeout has run
    out, where the code asks. *)
Definition wait_run (i : nat) (o : bool) (pc : cpc) (σ : csys) : option csys :=
  let t := th σ i in
  match pc with
  | WLock b c => acquire i (WTest b c) σ
  | WTest b c => Some (if done σ =? 0 then goto i (WLoop b c) (with_queue (queue σ ++ [i]) σ) else goto i WTake σ)
  | WLoop b c => Some (if c && o then goto i WLeave σ
                       else goto i (WUnlock b c)
                              (on_thread i (set_state (if c then TASK_INTERRUPTIBLE else TASK_UNINTERRUPTIBLE)) σ))
  | WUnlock b c => Some (goto i (WSwitch b c) (with_lock None σ))
  | WSwitch b c => Some (goto i (if tk_state (ct_task t) =? TASK_RUNNING then WYield b c else WDown b c) σ)
  | WYield b c => Some (goto i (WRelock b c) σ)
  | WDown b c => if 0 <? tk_sleep_lock (ct_task t)
                 then Some (goto i (WRelock b c) (on_thread i (sem_add (-1)) σ)) else None
  | WRelock b c => acquire i (WCheck b c) σ
  | WCheck b c => Some (goto i (if b && o then WLeave else WRetest b c) σ)
  | WRetest b c => Some (goto i (if done σ =? 0 then WLoop b c else WRemove) σ)
  | WLeave => Some (goto i WOut (with_queue (dequeue i (queue σ)) σ))
  | WRemove => Some (goto i WTake (with_queue (dequeue i (queue σ)) σ))
  | WTake => Some (CSys (u32 (done σ - 1)) (lock σ) (queue σ) (upd_at i (set_pc WOut) (th σ))
                     (completes σ) (taken σ + 1))
  | WOut => Some (goto i CIdle (with_lock None σ))
  | _ => None
  end.

(** The next step of thread [i]. *)
Definition run (i : nat) (o : bool) (σ : csys) : option csys :=
  match ct_pc (th σ i) with
  | CIdle => None
  | CLock | CInc | CWake _ | CUp _ _ | CUnlock => complete_run i (ct_pc (th σ i)) σ
  | _ => wait_run i o (ct_pc (th σ i)) σ
  end.

Definition first_pc (c : ccall) : cpc :=
  match c with Complete => CLock | Wait b c => WLock b c end.

Inductive comp_step : csys → csys → Prop :=
| CsStart σ i c : ct_pc (th σ i) = CIdle → comp_step σ (goto i (first_pc c) σ)
| CsRun σ σ' i o : run i o σ = Some σ' → comp_step σ σ'
| CsOtherState σ i : comp_step σ (on_thread i (set_state TASK_RUNNING) σ)
| CsOtherUp σ i : comp_step σ (on_thread i (sem_add 1) σ).

Definition comp_init : csys :=
  CSys 0 None [] (λ _, CThread CIdle (Task TASK_RUNNING 0)) 0 0.

(** ** Invariant *)

Definition locked (pc : cpc) : bool :=
  match pc with
  | CIdle | CLock | WLock _ _ | WSwitch _ _ | WYield _ _ | WDown _ _ | WRelock _ _ => false
  | _ => true
  end.
Definition queued (pc : cpc) : bool :=
  match pc with
  | WLoop _ _ | WUnlock _ _ | WSwitch _ _ | WYield _ _ | WDown _ _ | WRelock _ _ | WCheck _ _ | WRetest _ _
  | WLeave | WRemove => true
  | _ => false
  end.
(** The thread found no completion and has not given up the lock. *)
Definition saw_none (pc : cpc) : bool := match pc with WLoop _ _ | WUnlock _ _ => true | _ => false end.
(** The thread found a completion. *)
Definition saw_some (pc : cpc) : bool := match pc with WRemove | WTake => true | _ => false end.
(** The thread is about to sleep or sleeps. *)
Definition asleep (pc : cpc) : bool := match pc with WSwitch _ _ | WDown _ _ => true | _ => false end.
(** The wake-ups a completing thread has still to do. *)
Definition pending (pc : cpc) : list nat :=
  match pc with CWake rest => rest | CUp j rest => j :: rest | _ => [] end.

Abbreviation pc_of σ i := (ct_pc (th σ i)).
Abbreviation sem_of σ i := (tk_sleep_lock (ct_task (th σ i))).

Record comp_inv (σ : csys) : Prop := {
  ci_lock i : locked (pc_of σ i) = true ↔ lock σ = Some i;
  ci_queue i : i ∈ queue σ ↔ queued (pc_of σ i) = true;
  ci_none i : saw_none (pc_of σ i) = true → done σ = 0;
  ci_some i : saw_some (pc_of σ i) = true → done σ ≠ 0;
  ci_sem i : 0 ≤ sem_of σ i;
  ci_wake i : asleep (pc_of σ i) = true → done σ ≠ 0 →
    0 < sem_of σ i ∨ ∃ k, i ∈ pending (pc_of σ k);
  ci_range : 0 ≤ done σ < 2 ^ 32;
  ci_count : 0 ≤ taken σ ∧ (completes σ < 2 ^ 32 → done σ = completes σ - taken σ);
}.

(** A wake-up of another task keeps the invariant. *)
Lemma comp_inv_on_thread σ j f : (∀ t, ct_pc (f t) = ct_pc t) →
  (∀ t, tk_sleep_lock (ct_task t) ≤ tk_sleep_lock (ct_task (f t))) →
  comp_inv σ → comp_inv (on_thread j f σ).
Proof.
  intros Hpc Hsem [H1 H2 H3 H4 H5 H6 H7 H8].
  assert (Ep : ∀ i, ct_pc (upd_at j f (th σ) i) = ct_pc (th σ i)).
  { intros i. destruct (decide (i = j)) as [->|Hne]; [by rewrite upd_at_eq|by rewrite upd_at_ne]. }
  assert (Es : ∀ i, sem_of σ i ≤ tk_sleep_lock (ct_task (upd_at j f (th σ) i))).
  { intros i. destruct (decide (i = j)) as [->|Hne]; [by rewrite upd_at_eq|by rewrite upd_at_ne]. }
  split; cbn [on_thread done lock queue th completes taken]; try intros i; rewrite ?Ep; eauto.
  - etransitivity; [apply H5|apply Es].
  - intros Ha Hd. destruct (H6 i Ha Hd) as [?|[k Hk]]; [left; specialize (Es i); lia|].
    right. exists k. by rewrite Ep.
Qed.

(** Thread [i] moves on: what its new position and the shared words must
    satisfy. *)
Lemma comp_inv_goto σ σ' i pc :
  comp_inv σ → pc_of σ' i = pc → 0 ≤ sem_of σ' i → (∀ j, j ≠ i → th σ' j = th σ j) →
  (* the lock *)
  (locked pc = true ↔ lock σ' = Some i) →
  (∀ j, j ≠ i → locked (pc_of σ j) = true ↔ lock σ' = Some j) →
  (* the queue *)
  (i ∈ queue σ' ↔ queued pc = true) →
  (∀ j, j ≠ i → j ∈ queue σ' ↔ j ∈ queue σ) →
  (* the counter *)
  0 ≤ done σ' < 2 ^ 32 →
  (done σ' = done σ ∨ locked (pc_of σ i) = true) →
  (saw_none pc = true → done σ' = 0) → (saw_some pc = true → done σ' ≠ 0) →
  0 ≤ taken σ' ∧ (completes σ' < 2 ^ 32 → done σ' = completes σ' - taken σ') →
  (* the sleepers *)
  (asleep pc = true → done σ' ≠ 0 → 0 < sem_of σ' i ∨ ∃ k, k ≠ i ∧ i ∈ pending (pc_of σ k)) →
  (∀ j, j ≠ i → asleep (pc_of σ j) = true → done σ' ≠ 0 →
     0 < sem_of σ j ∨ j ∈ pending pc ∨ ∃ k, k ≠ i ∧ j ∈ pending (pc_of σ k)) →
  comp_inv σ'.
Proof.
  intros [H1 H2 H3 H4 H5 H6 H7 H8] Hi Hsi Hj Hl Hl' Hq Hq' Hr Hd Hn Hs Hc Ha Ha'.
  assert (Hex : ∀ j, j ≠ i → locked (pc_of σ i) = true → locked (pc_of σ j) = false).
  { intros j Hne L. apply not_true_is_false. intros L'. apply H1 in L, L'. congruence. }
  split; try (intros j; destruct (decide (j = i)) as [->|Hne]; [rewrite ?Hi|rewrite (Hj j Hne)]);
    [done|auto|done|by rewrite Hq'|done| |done| |done|auto| | |done|done].
  - intros E. destruct Hd as [->|L]; [eauto|]. specialize (Hex j Hne L). by destruct (pc_of σ j).
  - intros E. destruct Hd as [->|L]; [eauto|]. specialize (Hex j Hne L). by destruct (pc_of σ j).
  - intros E D. destruct (Ha E D) as [?|(k & Hk & ?)]; [auto|]. right. exists k. by rewrite Hj.
  - intros E D. destruct (Ha' j Hne E D) as [?|[?|(k & Hk & ?)]]; [auto| |].
    + right. exists i. by rewrite Hi.
    + right. exists k. by rewrite Hj.
Qed.

(** The sleepers that thread [i] is not about to wake are served by others. *)
Lemma served σ i pc : comp_inv σ → (∀ j, j ∈ pending (pc_of σ i) → j ≠ i → 0 < sem_of σ j ∨ j ∈ pending pc) →
  ∀ j, j ≠ i → asleep (pc_of σ j) = true → done σ ≠ 0 →
    0 < sem_of σ j ∨ j ∈ pending pc ∨ ∃ k, k ≠ i ∧ j ∈ pending (pc_of σ k).
Proof.
  intros I Hp j Hne Ha Hd. destruct (ci_wake σ I j Ha Hd) as [?|[k Hk]]; [auto|].
  destruct (decide (k = i)) as [->|Hk']; [destruct (Hp j Hk Hne); auto|]. right. right. eauto.
Qed.

(** Only the holder of the lock is inside. *)
Lemma lock_free_outside σ i : comp_inv σ → lock σ = None → locked (pc_of σ i) = false.
Proof. intros I E. apply not_true_is_false. rewrite (ci_lock σ I i). congruence. Qed.

(** A step that changes neither the lock, the queue nor the counter. *)
Lemma comp_inv_local σ σ' i pc :
  comp_inv σ → pc_of σ' i = pc → 0 ≤ sem_of σ' i → (∀ j, j ≠ i → th σ' j = th σ j) →
  done σ' = done σ → lock σ' = lock σ → queue σ' = queue σ → completes σ' = completes σ → taken σ' = taken σ →
  locked pc = locked (pc_of σ i) → queued pc = queued (pc_of σ i) →
  (saw_none pc = true → done σ = 0) → (saw_some pc = true → done σ ≠ 0) →
  (asleep pc = true → done σ ≠ 0 → 0 < sem_of σ' i ∨ ∃ k, k ≠ i ∧ i ∈ pending (pc_of σ k)) →
  (∀ j, j ∈ pending (pc_of σ i) → j ≠ i → 0 < sem_of σ j ∨ j ∈ pending pc) →
  comp_inv σ'.
Proof.
  intros I Hi Hsi Hj Ed El Eq Ec Et Hl Hq Hn Hs Ha Hp. apply (comp_inv_goto σ σ' i pc); rewrite ?Ed, ?El, ?Eq, ?Ec, ?Et; auto.
  - rewrite Hl. apply (ci_lock σ I).
  - intros j _. apply (ci_lock σ I).
  - rewrite Hq. apply (ci_queue σ I).
  - apply (ci_range σ I).
  - apply (ci_count σ I).
  - apply served; done.
Qed.

(** A step that takes or gives up the lock. *)
Lemma comp_inv_lock σ σ' i pc :
  comp_inv σ → pc_of σ' i = pc → 0 ≤ sem_of σ' i → (∀ j, j ≠ i → th σ' j = th σ j) →
  done σ' = done σ → queue σ' = queue σ → completes σ' = completes σ → taken σ' = taken σ →
  (lock σ = None ∧ locked pc = true ∧ lock σ' = Some i ∨
   locked (pc_of σ i) = true ∧ locked pc = false ∧ lock σ' = None) →
  queued pc = queued (pc_of σ i) →
  saw_none pc = false → saw_some pc = false → (asleep pc = true → done σ = 0) →
  pending (pc_of σ i) = [] →
  comp_inv σ'.
Proof.
  intros I Hi Hsi Hj Ed Eq Ec Et Hl Hq Hn Hs Ha Hp.
  apply (comp_inv_goto σ σ' i pc); rewrite ?Ed, ?Eq, ?Ec, ?Et; auto; try congruence.
  - destruct Hl as [(? & -> & ->)|(? & -> & ->)]; split; congruence.
  - intros j Hne. destruct Hl as [(E & _ & ->)|(L & _ & ->)].
    + rewrite (lock_free_outside σ j I E). split; congruence.
    + apply (ci_lock σ I) in L. rewrite (ci_lock σ I j), L. split; congruence.
  - rewrite Hq. apply (ci_queue σ I).
  - apply (ci_range σ I).
  - apply (ci_count σ I).
  - intros E D. specialize (Ha E). done.
  - apply served; [done|]. rewrite Hp. intros j Hin. by apply elem_of_nil in Hin.
Qed.

(** A step of the lock holder that changes the queue. *)
Lemma comp_inv_queue σ i pc q :
  comp_inv σ → locked (pc_of σ i) = true → locked pc = true → pending (pc_of σ i) = [] → asleep pc = false →
  (i ∈ q ↔ queued pc = true) → (∀ j, j ≠ i → j ∈ q ↔ j ∈ queue σ) →
  (saw_none pc = true → done σ = 0) → (saw_some pc = true → done σ ≠ 0) →
  comp_inv (goto i pc (with_queue q σ)).
Proof.
  intros I L L' Hp Ha Hq Hq' Hn Hs.
  apply (comp_inv_goto σ _ i pc); cbn [goto with_queue done lock queue th completes taken]; auto; try congruence.
  - by rewrite upd_at_eq.
  - rewrite upd_at_eq. apply (ci_sem σ I).
  - intros j Hne. by rewrite upd_at_ne.
  - rewrite L'. split; [|done]. intros _. by apply (ci_lock σ I).
  - intros j _. apply (ci_lock σ I).
  - apply (ci_range σ I).
  - apply (ci_count σ I).
  - apply served; [done|]. rewrite Hp. intros j Hin. by apply elem_of_nil in Hin.
Qed.

(** A step of the lock holder that changes the counter. *)
Lemma comp_inv_count σ i pc d n m :
  comp_inv σ → locked (pc_of σ i) = true → locked pc = true → queued (pc_of σ i) = false → queued pc = false →
  saw_none pc = false → saw_some pc = false → 0 ≤ d < 2 ^ 32 → 0 ≤ m ∧ (n < 2 ^ 32 → d = n - m) →
  (d ≠ 0 → done σ ≠ 0 ∧ pending (pc_of σ i) = [] ∨ pending pc = queue σ) →
  comp_inv (CSys d (lock σ) (queue σ) (upd_at i (set_pc pc) (th σ)) n m).
Proof.
  intros I L L' Hq Hq' Hn Hs Hd Hc Hp.
  apply (comp_inv_goto σ _ i pc); cbn [done lock queue th completes taken]; auto; try congruence.
  - by rewrite upd_at_eq.
  - rewrite upd_at_eq. apply (ci_sem σ I).
  - intros j Hne. by rewrite upd_at_ne.
  - rewrite L'. split; [|done]. intros _. by apply (ci_lock σ I).
  - intros j _. apply (ci_lock σ I).
  - rewrite (ci_queue σ I i), Hq, Hq'. done.
  - intros Ha. by destruct pc.
  - intros j Hne Ha D. destruct (Hp D) as [[D' Hp']|Hp'].
    + apply served; auto. rewrite Hp'. intros k Hin. by apply elem_of_nil in Hin.
    + right. left. rewrite Hp'. apply (ci_queue σ I). by destruct (pc_of σ j).
Qed.

Ltac thread_facts I i :=
  cbn [goto with_lock with_queue on_thread th done lock queue completes taken];
  first
  [ by rewrite upd_at_eq
  | rewrite upd_at_eq; exact (ci_sem _ I i)
  | by intros; apply upd_at_ne
  | done
  | by (intros ? ?%elem_of_nil) ].

Lemma pc_on_thread σ i j f : (∀ t, ct_pc (f t) = ct_pc t) → pc_of (on_thread j f σ) i = pc_of σ i.
Proof.
  intros Hf. cbn [on_thread th]. destruct (decide (i = j)) as [->|Hne]; [by rewrite upd_at_eq|by rewrite upd_at_ne].
Qed.

Lemma u32_inc_count n m d : 0 ≤ d < 2 ^ 32 → 0 ≤ m ∧ (n < 2 ^ 32 → d = n - m) →
  0 ≤ m ∧ (n + 1 < 2 ^ 32 → u32 (d + 1) = n + 1 - m).
Proof. intros Hd [Hm H]. split; [done|]. intros Hn. rewrite u32_small; lia. Qed.
Lemma u32_dec_count n m d : 0 ≤ d < 2 ^ 32 → d ≠ 0 → 0 ≤ m ∧ (n < 2 ^ 32 → d = n - m) →
  0 ≤ m + 1 ∧ (n < 2 ^ 32 → u32 (d - 1) = n - (m + 1)).
Proof. intros Hd Hz [Hm H]. split; [lia|]. intros Hn. rewrite u32_small; lia. Qed.

Lemma dequeue_self i q : i ∈ dequeue i q ↔ false = true.
Proof. unfold dequeue. rewrite list_elem_of_filter. naive_solver. Qed.
Lemma dequeue_other i j q : j ≠ i → j ∈ dequeue i q ↔ j ∈ q.
Proof. unfold dequeue. rewrite list_elem_of_filter. naive_solver. Qed.

Lemma comp_inv_run σ σ' i o : comp_inv σ → run i o σ = Some σ' → comp_inv σ'.
Proof.
  intros I. unfold run, complete_run, wait_run, acquire. destruct (pc_of σ i) as [| | |[|j rest]|j rest| |b c|b c|b c|b c|b c|b c|b c|b c|b c|b c| | | |] eqn:Epc;
    intros E; simplify_eq.
  - destruct (lock σ) eqn:El; simplify_eq. eapply (comp_inv_lock σ _ i CInc); try thread_facts I i; rewrite ?Epc; auto.
  - apply comp_inv_count; rewrite ?Epc; auto; [apply u32_range|].
    apply u32_inc_count; [apply (ci_range σ I)|apply (ci_count σ I)].
  - eapply (comp_inv_local σ _ i CUnlock); rewrite ?Epc; thread_facts I i.
  - assert (I' : comp_inv (on_thread j (set_state TASK_RUNNING) σ)) by (by apply comp_inv_on_thread).
    eapply (comp_inv_local _ _ i (CUp j rest) I'); try thread_facts I' i; rewrite ?pc_on_thread, ?Epc by done; auto.
  - assert (I' : comp_inv (on_thread j (sem_add 1) σ)).
    { apply comp_inv_on_thread; [done| |done]. intros t. cbn. lia. }
    eapply (comp_inv_local _ _ i (CWake rest) I'); try thread_facts I' i; rewrite ?pc_on_thread, ?Epc by done; auto.
    cbn [pending]. intros k [->|Hk]%elem_of_cons _; [left|by right].
    cbn [on_thread th]. rewrite upd_at_eq. cbn. pose proof (ci_sem σ I j). lia.
  - eapply (comp_inv_lock σ _ i CIdle); try thread_facts I i; rewrite ?Epc; auto.
  - destruct (lock σ) eqn:El; simplify_eq. eapply (comp_inv_lock σ _ i (WTest b c)); try thread_facts I i; rewrite ?Epc; auto.
  - destruct (Z.eqb_spec (done σ) 0) as [D|D].
    + apply comp_inv_queue; rewrite ?Epc; auto; set_solver.
    + eapply (comp_inv_local σ _ i WTake); rewrite ?Epc; thread_facts I i.
  - assert (D : done σ = 0) by (apply (ci_none σ I i); by rewrite Epc).
    destruct (c && o); [eapply (comp_inv_local σ _ i WLeave)|eapply (comp_inv_local σ _ i (WUnlock b c))];
      rewrite ?Epc; try thread_facts I i.
    + cbn [goto on_thread th]. rewrite !upd_at_eq. cbn. apply (ci_sem σ I).
    + intros k Hk. cbn [goto on_thread th]. by rewrite !upd_at_ne.
  - assert (D : done σ = 0) by (apply (ci_none σ I i); by rewrite Epc).
    eapply (comp_inv_lock σ _ i (WSwitch b c)); try thread_facts I i; rewrite ?Epc; auto.
  - destruct (_ =? _); [eapply (comp_inv_local σ _ i (WYield b c))|eapply (comp_inv_local σ _ i (WDown b c))];
      rewrite ?Epc; try thread_facts I i.
    intros _ D. cbn [goto th]. rewrite upd_at_eq.
    destruct (ci_wake σ I i ltac:(by rewrite Epc) D) as [?|[k Hk]]; [by left|right]. exists k. split; [|done].
    intros ->. rewrite Epc in Hk. by apply elem_of_nil in Hk.
  - eapply (comp_inv_local σ _ i (WRelock b c)); rewrite ?Epc; thread_facts I i.
  - destruct (Z.ltb_spec 0 (sem_of σ i)) as [Hs|]; simplify_eq.
    eapply (comp_inv_local σ _ i (WRelock b c)); rewrite ?Epc; try thread_facts I i.
    + cbn [goto on_thread th]. rewrite !upd_at_eq. cbn. lia.
    + intros k Hk. cbn [goto on_thread th]. by rewrite !upd_at_ne.
  - destruct (lock σ) eqn:El; simplify_eq. eapply (comp_inv_lock σ _ i (WCheck b c)); try thread_facts I i; rewrite ?Epc; auto.
  - destruct (b && o); [eapply (comp_inv_local σ _ i WLeave)|eapply (comp_inv_local σ _ i (WRetest b c))];
      rewrite ?Epc; thread_facts I i.
  - destruct (Z.eqb_spec (done σ) 0) as [D|D];
      [eapply (comp_inv_local σ _ i (WLoop b c))|eapply (comp_inv_local σ _ i WRemove)]; rewrite ?Epc; thread_facts I i.
  - apply comp_inv_queue; rewrite ?Epc; auto using dequeue_self, dequeue_other; done.
  - apply comp_inv_queue; rewrite ?Epc; auto using dequeue_self, dequeue_other; [done|].
    intros _. apply (ci_some σ I i). by rewrite Epc.
  - assert (D : done σ ≠ 0) by (apply (ci_some σ I i); by rewrite Epc).
    apply comp_inv_count; rewrite ?Epc; auto; [apply u32_range|].
    apply u32_dec_count; [apply (ci_range σ I)|done|apply (ci_count σ I)].
  - eapply (comp_inv_lock σ _ i CIdle); try thread_facts I i; rewrite ?Epc; auto.
Qed.

Lemma comp_inv_step σ σ' : comp_inv σ → comp_step σ σ' → comp_inv σ'.
Proof.
  intros I Hst. destruct Hst as [σ i c Epc|σ σ' i o E|σ i|σ i].
  - destruct c as [|b c];
      [eapply (comp_inv_local _ _ i CLock)|eapply (comp_inv_local _ _ i (WLock b c))]; rewrite ?Epc; thread_facts I i.
  - by eapply comp_inv_run.
  - by apply comp_inv_on_thread.
  - apply comp_inv_on_thread; [done| |done]. intros t. cbn. lia.
Qed.

Lemma comp_inv_init : comp_inv comp_init.
Proof. split; cbn; intros; try split; try done; try lia; try set_solver. Qed.

Lemma comp_inv_reachable σ : rtc comp_step comp_init σ → comp_inv σ.
Proof.
  intros Hr. pose proof comp_inv_init as H0. revert H0. induction Hr; eauto using comp_inv_step.
Qed.

(** A thread that cannot go on waits for the lock or sleeps. *)
Lemma run_blocked σ i : (∀ o, run i o σ = None) →
  pc_of σ i = CIdle ∨ (is_Some (lock σ) ∧ locked (pc_of σ i) = false) ∨
  (∃ b c, pc_of σ i = WDown b c) ∧ sem_of σ i ≤ 0.
Proof.
  intros Hb. specialize (Hb true). unfold run, complete_run, wait_run, acquire in Hb.
  destruct (pc_of σ i) as [| | |[|j rest]|j rest| |b c|b c|b c|b c|b c|b c|b c|b c|b c|b c| | | |]; auto; try done;
    try (destruct (lock σ); [right; left; eauto|done]).
  right. right. destruct (Z.ltb_spec 0 (sem_of σ i)); [done|]. eauto.
Qed.

(** Completions are counted: in every interleaving of any number of calls
    of [complete] and of the four waits, the counter is the number of completions
    that no wait has taken yet (as long as fewer than 2^32 were signalled), it is
    never decremented at 0, and only one thread is inside the lock.  No wake-up is
    lost: if no thread can go on, nobody holds the lock, every thread is idle or
    sleeps, and if one sleeps then no completion is left that it could take. *)
Theorem completion_sound (σ : csys) :
  rtc comp_step comp_init σ →
  (completes σ < 2 ^ 32 → done σ = completes σ - taken σ ∧ 0 ≤ taken σ ≤ completes σ) ∧
  (∀ i, pc_of σ i = WTake → 0 < done σ) ∧
  (∀ i j, locked (pc_of σ i) = true → locked (pc_of σ j) = true → i = j) ∧
  ((∀ i o, run i o σ = None) →
     lock σ = None ∧
     ∀ i, pc_of σ i = CIdle ∨ (∃ b c, pc_of σ i = WDown b c) ∧ sem_of σ i = 0 ∧ done σ = 0).
Proof.
  intros Hr. pose proof (comp_inv_reachable σ Hr) as I. pose proof (ci_range σ I). destruct (ci_count σ I) as [Ht Hc].
  split; [intros Hb; specialize (Hc Hb); lia|]. split; [|split].
  - intros i E. assert (done σ ≠ 0) by (apply (ci_some σ I i); by rewrite E). lia.
  - intros i j Li Lj. apply (ci_lock σ I) in Li, Lj. congruence.
  - intros Hb.
    assert (Hfree : lock σ = None).
    { destruct (lock σ) as [k|] eqn:El; [|done]. apply (ci_lock σ I) in El.
      destruct (run_blocked σ k (Hb k)) as [E|[[_ E]|[(b & c & E) _]]]; rewrite E in El; done. }
    assert (Hall : ∀ i, pc_of σ i = CIdle ∨ (∃ b c, pc_of σ i = WDown b c) ∧ sem_of σ i = 0).
    { intros i. pose proof (ci_sem σ I i).
      destruct (run_blocked σ i (Hb i)) as [E|[[[k E] _]|[E ?]]]; [by left|congruence|right; split; [done|lia]]. }
    split; [done|]. intros i. destruct (Hall i) as [E|[(b & c & E) Hs]]; [by left|right]. split; [eauto|]. split; [done|].
    destruct (decide (done σ = 0)) as [|D]; [done|].
    destruct (ci_wake σ I i ltac:(by rewrite E) D) as [?|[k Hk]]; [lia|].
    destruct (Hall k) as [E'|[(b' & c' & E') _]]; rewrite E' in Hk; by apply elem_of_nil in Hk.
Qed.

(** A schedule: threads that start calls ([inl]) or take their next step
    ([inr]). *)
Fixpoint comp_exec (l : list (nat * ccall + nat)) (σ : csys) : csys :=
  match l with
  | [] => σ
  | inl (i, c) :: l => comp_exec l (match pc_of σ i with CIdle => goto i (first_pc c) σ | _ => σ end)
  | inr i :: l => comp_exec l (default σ (run i false σ))
  end.

Lemma comp_exec_reachable l σ : rtc comp_step σ (comp_exec l σ).
Proof.
  revert σ. induction l as [|[[i c]|i] l IH]; intros σ; cbn [comp_exec]; [apply rtc_refl|..].
  - destruct (pc_of σ i) eqn:E; try apply IH. eapply rtc_l; [by apply CsStart|apply IH].
  - destruct (run i false σ) as [σ'|] eqn:E; [|apply IH]. eapply rtc_l; [by eapply CsRun|apply IH].
Qed.

(** A thread waits and sleeps, another one completes, the first takes the
    completion. *)
Definition demo_comp : csys :=
  comp_exec ([inl (0%nat, Wait false false)] ++ replicate 6 (inr 0%nat) ++
             [inl (1%nat, Complete)] ++ replicate 6 (inr 1%nat) ++ replicate 6 (inr 0%nat)) comp_init.

Lemma completion_sound_witness :
  completes demo_comp = 1 ∧ taken demo_comp = 1 ∧ done demo_comp = completes demo_comp - taken demo_comp.
Proof.
  split; [vm_compute; reflexivity|]. split; [vm_compute; reflexivity|].
  apply completion_sound; [apply comp_exec_reachable|vm_compute; reflexivity].
Defined.
