(* ===== verification/Workqueue.v ===== *)
(** Work queues: kernel/workqueue.c of the port.

    One per-CPU queue [cwq] with its worker thread, and any number of clients
    that queue work, flush the queue or run a work item themselves.  The system
    takes a step for every access to what is shared: the lock of the queue, the
    pending bits, the list, the sequence counters and the state and sleep lock of
    the woken threads.  What a work function does is left open: whatever it calls
    is a step of a client.  The worker runs until the queue is destroyed, so that
    [kthread_should_stop] is false; [run_depth] only guards a message. *)

From S2P Require Import Prelude Sched.

(** ** Threads *)

(** What a client calls; a work item is named by a number. *)
Inductive wcall :=
| QueueWork (w : nat)
| FlushWork
| RunScheduled (w : nat).

Inductive qpc :=
| QIdle
(* queue_work *)
| QTest (w : nat)                  (* test_and_set_bit(WORK_STRUCT_PENDING) *)
| QBug (inside : bool)             (* a BUG_ON of queue_work or of set_wq_data, under the lock *)
| QLock (w : nat)                  (* __queue_work: spin_lock_irqsave *)
| QIns (w : nat)                   (* set_wq_data, list_add_tail, insert_sequence++ *)
| QWake                            (* wake_up(&cwq->more_work): the state *)
| QUp                              (* ... and the sleep lock *)
| QUnlock
(* flush_cpu_workqueue *)
| FLock
| FSample                          (* sequence_needed = cwq->insert_sequence *)
| FCheck (n : Z)                   (* while (sequence_needed - cwq->remove_sequence > 0) *)
| FUnlock (n : Z)
| FSwitch (n : Z)                  (* schedule: switch (current->state) *)
| FYield (n : Z)
| FDown (n : Z)                    (* schedule: dde_kit_sem_down *)
| FRelock (n : Z)
| FOut (n : Z)                     (* spin_unlock_irq, return *)
(* run_scheduled_work, __run_work *)
| SCheck (w : nat)                 (* the unlocked checks of run_scheduled_work *)
| SLock (w : nat)
| STake (w : nat)                  (* the checks under the lock, list_del_init *)
| SRelease (w : nat)               (* work_release *)
| SFun (w : nat) (held : bool)     (* f(work) *)
| SRelock (w : nat)
| SDone (w : nat)                  (* cwq->remove_sequence++ *)
| SWake (rest : list nat)          (* wake_up(&cwq->work_done) *)
| SUp (j : nat) (rest : list nat)
| SUnlock.

Inductive wkpc :=
| WkSet                            (* set_current_state(TASK_INTERRUPTIBLE) *)
| WkAdd                            (* add_wait_queue(&cwq->more_work) *)
| WkTest                           (* if (list_empty(&cwq->worklist)) *)
| WkSwitch                         (* schedule: switch (current->state) *)
| WkYield
| WkDown                           (* schedule: dde_kit_sem_down *)
| WkRemove                         (* remove_wait_queue(&cwq->more_work) *)
| WkTest2                          (* if (!list_empty(&cwq->worklist)) *)
(* run_workqueue *)
| RLock
| RLoop                            (* while (!list_empty(&cwq->worklist)), list_del_init *)
| RBug                             (* BUG_ON(get_wq_data(work) != cwq) *)
| RRelease (w : nat)               (* BUG_ON, work_release *)
| RFun (w : nat) (held : bool)     (* f(work) *)
| RRelock (w : nat)
| RDone (w : nat)                  (* cwq->remove_sequence++ *)
| RWake (rest : list nat)          (* wake_up(&cwq->work_done) *)
| RUp (j : nat) (rest : list nat)
| RUnlock.

Inductive wtid := Worker | Client (i : nat).

Record client := Cl { q_pc : qpc; q_task : task }.

(** The words of [cpu_workqueue_struct] and of the work items. *)
Record wshared := WShared {
  wlock : option wtid;
  worklist : list nat;
  wpend : nat → bool;          (* WORK_STRUCT_PENDING *)
  wdata : nat → bool;          (* the data word points to cwq *)
  on_more : bool;              (* the worker is on more_work *)
  on_done : list nat;          (* the clients on work_done *)
  insert_sequence : Z;
  remove_sequence : Z;
  inserted : list nat;         (* the items queued, in order *)
  finished : list nat;         (* the items whose function has returned, in order *)
}.

Record wqsys := WqSys {
  sh : wshared;
  wk_pc : wkpc;
  wk_task : task;
  cl : nat → client;
}.

(** ** Updates *)

Definition set_wlock (l : option wtid) (a : wshared) : wshared :=
  WShared l (worklist a) (wpend a) (wdata a) (on_more a) (on_done a) (insert_sequence a) (remove_sequence a)
    (inserted a) (finished a).
Definition set_worklist (l : list nat) (a : wshared) : wshared :=
  WShared (wlock a) l (wpend a) (wdata a) (on_more a) (on_done a) (insert_sequence a) (remove_sequence a)
    (inserted a) (finished a).
Definition set_pending (w : nat) (b : bool) (a : wshared) : wshared :=
  WShared (wlock a) (worklist a) (upd_at w (λ _, b) (wpend a)) (wdata a) (on_more a) (on_done a)
    (insert_sequence a) (remove_sequence a) (inserted a) (finished a).
Definition set_on_more (b : bool) (a : wshared) : wshared :=
  WShared (wlock a) (worklist a) (wpend a) (wdata a) b (on_done a) (insert_sequence a) (remove_sequence a)
    (inserted a) (finished a).
Definition set_on_done (l : list nat) (a : wshared) : wshared :=
  WShared (wlock a) (worklist a) (wpend a) (wdata a) (on_more a) l (insert_sequence a) (remove_sequence a)
    (inserted a) (finished a).
(** [set_wq_data], [list_add_tail], [insert_sequence++] *)
Definition enqueue (w : nat) (a : wshared) : wshared :=
  WShared (wlock a) (worklist a ++ [w]) (wpend a) (upd_at w (λ _, true) (wdata a)) (on_more a) (on_done a)
    (s32 (insert_sequence a + 1)) (remove_sequence a) (inserted a ++ [w]) (finished a).
(** [remove_sequence++] after the function of [w] *)
Definition finish (w : nat) (a : wshared) : wshared :=
  WShared (wlock a) (worklist a) (wpend a) (wdata a) (on_more a) (on_done a)
    (insert_sequence a) (s32 (remove_sequence a + 1)) (inserted a) (finished a ++ [w]).

Definition on_sh (f : wshared → wshared) (σ : wqsys) : wqsys := WqSys (f (sh σ)) (wk_pc σ) (wk_task σ) (cl σ).
Definition wgoto (pc : wkpc) (σ : wqsys) : wqsys := WqSys (sh σ) pc (wk_task σ) (cl σ).
Definition wtask (f : task → task) (σ : wqsys) : wqsys := WqSys (sh σ) (wk_pc σ) (f (wk_task σ)) (cl σ).
Definition cgoto (i : nat) (pc : qpc) (σ : wqsys) : wqsys :=
  WqSys (sh σ) (wk_pc σ) (wk_task σ) (upd_at i (λ c, Cl pc (q_task c)) (cl σ)).
Definition ctask (i : nat) (f : task → task) (σ : wqsys) : wqsys :=
  WqSys (sh σ) (wk_pc σ) (wk_task σ) (upd_at i (λ c, Cl (q_pc c) (f (q_task c))) (cl σ)).

Definition to_state (st : Z) (k : task) : task := Task st (tk_sleep_lock k).
Definition sem_plus (d : Z) (k : task) : task := Task (tk_state k) (tk_sleep_lock k + d).

Definition take_lock (t : wtid) (σ : wqsys) : option wqsys :=
  match wlock (sh σ) with None => Some (on_sh (set_wlock (Some t)) σ) | Some _ => None end.
Definition give_lock (σ : wqsys) : wqsys := on_sh (set_wlock None) σ.

(** ** Steps *)

Section Steps.
(** [WORK_STRUCT_NOAUTOREL] of a work item: its function releases it. *)
Context (noautorel : nat → bool).

(** [worker_thread] *)
Definition thread_run (pc : wkpc) (σ : wqsys) : option wqsys :=
  match pc with
  | WkSet => Some (wgoto WkAdd (wtask (to_state TASK_INTERRUPTIBLE) σ))
  | WkAdd => Some (wgoto WkTest (on_sh (set_on_more true) σ))
  | WkTest => Some (if bool_decide (worklist (sh σ) = []) then wgoto WkSwitch σ
                    else wgoto WkRemove (wtask (to_state TASK_RUNNING) σ))
  | WkSwitch => Some (wgoto (if tk_state (wk_task σ) =? TASK_RUNNING then WkYield else WkDown) σ)
  | WkYield => Some (wgoto WkRemove σ)
  | WkDown => if 0 <? tk_sleep_lock (wk_task σ) then Some (wgoto WkRemove (wtask (sem_plus (-1)) σ)) else None
  | WkRemove => Some (wgoto WkTest2 (on_sh (set_on_more false) σ))
  | WkTest2 => Some (wgoto (if bool_decide (worklist (sh σ) = []) then WkSet else RLock) σ)
  | _ => None
  end.

(** [run_workqueue]; [o]: the work function releases its item now, if it still
    holds it. *)
Definition queue_loop_run (o : bool) (pc : wkpc) (σ : wqsys) : option wqsys :=
  match pc with
  | RLock => wgoto RLoop <$> take_lock Worker σ
  | RLoop => Some (match worklist (sh σ) with
                   | [] => wgoto RUnlock σ
                   | w :: l => wgoto (RRelease w) (give_lock (on_sh (set_worklist l) σ))
                   end)
  | RBug => None
  | RRelease w => Some (if negb (wdata (sh σ) w) then wgoto RBug σ
                        else if noautorel w then wgoto (RFun w true) σ
                        else wgoto (RFun w false) (on_sh (set_pending w false) σ))
  | RFun w h => Some (if h && o then wgoto (RFun w false) (on_sh (set_pending w false) σ)
                      else wgoto (RRelock w) σ)
  | RRelock w => wgoto (RDone w) <$> take_lock Worker σ
  | RDone w => Some (wgoto (RWake (on_done (sh σ))) (on_sh (finish w) σ))
  | RWake [] => Some (wgoto RLoop σ)
  | RWake (j :: rest) => Some (wgoto (RUp j rest) (ctask j (to_state TASK_RUNNING) σ))
  | RUp j rest => Some (wgoto (RWake rest) (ctask j (sem_plus 1) σ))
  | RUnlock => Some (wgoto WkSet (give_lock σ))
  | _ => None
  end.

Definition worker_run (o : bool) (σ : wqsys) : option wqsys :=
  match wk_pc σ with
  | WkSet | WkAdd | WkTest | WkSwitch | WkYield | WkDown | WkRemove | WkTest2 => thread_run (wk_pc σ) σ
  | _ => queue_loop_run o (wk_pc σ) σ
  end.

(** [queue_work] and [__queue_work] *)
Definition queue_run (i : nat) (pc : qpc) (σ : wqsys) : option wqsys :=
  let a := sh σ in
  match pc with
  | QTest w => Some (if wpend a w then cgoto i QIdle σ
                     else cgoto i (if bool_decide (w ∈ worklist a) then QBug false else QLock w)
                            (on_sh (set_pending w true) σ))
  | QLock w => cgoto i (QIns w) <$> take_lock (Client i) σ
  | QIns w => Some (if wpend a w then cgoto i QWake (on_sh (enqueue w) σ) else cgoto i (QBug true) σ)
  | QWake => Some (if on_more a then cgoto i QUp (wtask (to_state TASK_RUNNING) σ) else cgoto i QUnlock σ)
  | QUp => Some (cgoto i QUnlock (wtask (sem_plus 1) σ))
  | QUnlock => Some (cgoto i QIdle (give_lock σ))
  | _ => None
  end.

(** The branch of [flush_cpu_workqueue] for a thread that is not the worker; the
    other branch, [run_workqueue] within a work function, is not modelled. *)
Definition flush_run (i : nat) (pc : qpc) (σ : wqsys) : option wqsys :=
  let a := sh σ in let c := cl σ i in
  match pc with
  | FLock => cgoto i FSample <$> take_lock (Client i) σ
  | FSample => Some (cgoto i (FCheck (insert_sequence a)) σ)
  | FCheck n =>
      Some (if 0 <? s32 (n - remove_sequence a)
            then cgoto i (FUnlock n) (ctask i (to_state TASK_UNINTERRUPTIBLE)
                   (on_sh (set_on_done (if bool_decide (i ∈ on_done a) then on_done a else i :: on_done a)) σ))
            else cgoto i (FOut n) (ctask i (to_state TASK_RUNNING)
                   (on_sh (set_on_done (filter (λ j, j ≠ i) (on_done a))) σ)))
  | FUnlock n => Some (cgoto i (FSwitch n) (give_lock σ))
  | FSwitch n => Some (cgoto i (if tk_state (q_task c) =? TASK_RUNNING then FYield n else FDown n) σ)
  | FYield n => Some (cgoto i (FRelock n) σ)
  | FDown n => if 0 <? tk_sleep_lock (q_task c) then Some (cgoto i (FRelock n) (ctask i (sem_plus (-1)) σ)) else None
  | FRelock n => cgoto i (FCheck n) <$> take_lock (Client i) σ
  | FOut n => Some (cgoto i QIdle (give_lock σ))
  | _ => None
  end.

(** [run_scheduled_work] and [__run_work] *)
Definition sync_run (i : nat) (o : bool) (pc : qpc) (σ : wqsys) : option wqsys :=
  let a := sh σ in
  match pc with
  | SCheck w => Some (cgoto i (if wpend a w && bool_decide (w ∈ worklist a) && wdata a w then SLock w else QIdle) σ)
  | SLock w => cgoto i (STake w) <$> take_lock (Client i) σ
  | STake w =>
      Some (if wdata a w && wpend a w && bool_decide (w ∈ worklist a)
            then cgoto i (SRelease w) (give_lock (on_sh (set_worklist (filter (λ v, v ≠ w) (worklist a))) σ))
            else cgoto i (SCheck w) (give_lock σ))
  | SRelease w => Some (if noautorel w then cgoto i (SFun w true) σ
                        else cgoto i (SFun w false) (on_sh (set_pending w false) σ))
  | SFun w h => Some (if h && o then cgoto i (SFun w false) (on_sh (set_pending w false) σ)
                      else cgoto i (SRelock w) σ)
  | SRelock w => cgoto i (SDone w) <$> take_lock (Client i) σ
  | SDone w => Some (cgoto i (SWake (on_done a)) (on_sh (finish w) σ))
  | SWake [] => Some (cgoto i SUnlock σ)
  | SWake (j :: rest) => Some (cgoto i (SUp j rest) (ctask j (to_state TASK_RUNNING) σ))
  | SUp j rest => Some (cgoto i (SWake rest) (ctask j (sem_plus 1) σ))
  | SUnlock => Some (cgoto i QIdle (give_lock σ))
  | _ => None
  end.

Definition client_run (i : nat) (o : bool) (σ : wqsys) : option wqsys :=
  match q_pc (cl σ i) with
  | QIdle | QBug _ => None
  | QTest _ | QLock _ | QIns _ | QWake | QUp | QUnlock => queue_run i (q_pc (cl σ i)) σ
  | FLock | FSample | FCheck _ | FUnlock _ | FSwitch _ | FYield _ | FDown _ | FRelock _ | FOut _ =>
      flush_run i (q_pc (cl σ i)) σ
  | _ => sync_run i o (q_pc (cl σ i)) σ
  end.

Definition first_qpc (c : wcall) : qpc :=
  match c with QueueWork w => QTest w | FlushWork => FLock | RunScheduled w => SCheck w end.

(** [sync]: may clients call [run_scheduled_work]? *)
Inductive wq_step (sync : bool) : wqsys → wqsys → Prop :=
| VsStart σ i c : q_pc (cl σ i) = QIdle → (∀ w, c = RunScheduled w → sync = true) →
    wq_step sync σ (cgoto i (first_qpc c) σ)
| VsClient σ σ' i o : client_run i o σ = Some σ' → wq_step sync σ σ'
| VsWorker σ σ' o : worker_run o σ = Some σ' → wq_step sync σ σ'
(* other wake-ups of a thread *)
| VsOther σ i f : f = to_state TASK_RUNNING ∨ f = sem_plus 1 → wq_step sync σ (ctask i f σ)
| VsOtherWorker σ f : f = to_state TASK_RUNNING ∨ f = sem_plus 1 → wq_step sync σ (wtask f σ).

End Steps.

(** [create_workqueue_thread]: the worker is about to start. *)
Definition wq_init : wqsys :=
  WqSys (WShared None [] (λ _, false) (λ _, false) false [] 0 0 [] [])
    WkSet (Task TASK_RUNNING 0) (λ _, Cl QIdle (Task TASK_RUNNING 0)).

(** ** The lock *)

Definition clocked (pc : qpc) : bool :=
  match pc with
  | QIns _ | QWake | QUp | QUnlock | FSample | FCheck _ | FUnlock _ | FOut _ | STake _ | SDone _ | SWake _
  | SUp _ _ | SUnlock => true
  | QBug inside => inside
  | _ => false
  end.
Definition wlocked (pc : wkpc) : bool :=
  match pc with RLoop | RDone _ | RWake _ | RUp _ _ | RUnlock => true | _ => false end.
Definition is_sync (pc : qpc) : bool :=
  match pc with
  | SCheck _ | SLock _ | STake _ | SRelease _ | SFun _ _ | SRelock _ | SDone _ | SWake _ | SUp _ _ | SUnlock => true
  | _ => false
  end.

Abbreviation pcq σ i := (q_pc (cl σ i)).
Abbreviation semq σ i := (tk_sleep_lock (q_task (cl σ i))).

Ltac step_cbn :=
  unfold give_lock in *;
  cbn [sh wk_pc wk_task cl on_sh wgoto wtask cgoto ctask set_wlock set_worklist set_pending set_on_more set_on_done
       enqueue finish wlock worklist wpend wdata on_more on_done insert_sequence remove_sequence inserted finished
       q_pc q_task to_state sem_plus tk_state tk_sleep_lock] in *.

(** Case analysis on which thread is meant. *)
Ltac at_threads :=
  repeat match goal with
  | |- context [upd_at ?i _ _ ?i] => rewrite !upd_at_eq
  | |- context [upd_at ?i _ _ ?j] => destruct (decide (j = i)) as [->|?]; [rewrite ?upd_at_eq|rewrite ?upd_at_ne by done]
  | H : context [upd_at ?i _ _ ?i] |- _ => rewrite !upd_at_eq in H
  | H : context [upd_at ?i _ _ ?j] |- _ =>
      destruct (decide (j = i)) as [->|?]; [rewrite ?upd_at_eq in H|rewrite ?upd_at_ne in H by done]
  end; cbn [q_pc q_task] in *.

Record lock_ok (σ : wqsys) : Prop := {
  lo_client i : clocked (pcq σ i) = true ↔ wlock (sh σ) = Some (Client i);
  lo_worker : wlocked (wk_pc σ) = true ↔ wlock (sh σ) = Some Worker;
}.

(** How a step of thread [t] may change the lock, whether [t] is inside before
    and after it. *)
Definition lock_move (t : wtid) (l l' : option wtid) (inside inside' : bool) : Prop :=
  inside' = inside ∧ l' = l ∨ l = None ∧ inside' = true ∧ l' = Some t ∨
  inside = true ∧ inside' = false ∧ l' = None.

Lemma lock_ok_client σ σ' i : lock_ok σ → wk_pc σ' = wk_pc σ → (∀ j, j ≠ i → pcq σ' j = pcq σ j) →
  lock_move (Client i) (wlock (sh σ)) (wlock (sh σ')) (clocked (pcq σ i)) (clocked (pcq σ' i)) → lock_ok σ'.
Proof.
  intros [Hc Hw] Ew Ej Hl. split.
  - intros j. destruct (decide (j = i)) as [->|Hne].
    + pose proof (Hc i). destruct Hl as [(-> & ->)|[(El & -> & ->)|(L & -> & ->)]]; [done|done|split; congruence].
    + rewrite (Ej j Hne), (Hc j). destruct Hl as [(_ & ->)|[(El & _ & ->)|(L & _ & ->)]]; [done|..].
      * rewrite El. split; congruence.
      * apply Hc in L. rewrite L. split; congruence.
  - rewrite Ew, Hw. destruct Hl as [(_ & ->)|[(El & _ & ->)|(L & _ & ->)]]; [done|..].
    + rewrite El. split; congruence.
    + apply Hc in L. rewrite L. split; congruence.
Qed.

Lemma lock_ok_worker σ σ' : lock_ok σ → (∀ j, pcq σ' j = pcq σ j) →
  lock_move Worker (wlock (sh σ)) (wlock (sh σ')) (wlocked (wk_pc σ)) (wlocked (wk_pc σ')) → lock_ok σ'.
Proof.
  intros [Hc Hw] Ej Hl. split.
  - intros j. rewrite Ej, Hc. destruct Hl as [(_ & ->)|[(El & _ & ->)|(L & _ & ->)]]; [done|..].
    + rewrite El. split; congruence.
    + apply Hw in L. rewrite L. split; congruence.
  - destruct Hl as [(-> & ->)|[(El & -> & ->)|(L & -> & ->)]]; [done|done|split; congruence].
Qed.

(** What a client's step leaves alone: the other clients and the worker's
    position. *)
Lemma client_run_frame nr i o σ σ' : client_run nr i o σ = Some σ' →
  wk_pc σ' = wk_pc σ ∧ ∀ j, j ≠ i → pcq σ' j = pcq σ j.
Proof.
  unfold client_run, queue_run, flush_run, sync_run, take_lock. intros E.
  repeat (case_match; simplify_eq/=); (split; [done|intros k Hk; step_cbn; rewrite ?upd_at_ne by done; at_threads; done]).
Qed.

Lemma worker_run_frame nr o σ σ' : worker_run nr o σ = Some σ' → ∀ j, pcq σ' j = pcq σ j.
Proof.
  unfold worker_run, thread_run, queue_loop_run, take_lock. intros E k.
  repeat (case_match; simplify_eq/=); at_threads; done.
Qed.

Lemma lock_ok_step nr sync σ σ' : lock_ok σ → wq_step nr sync σ σ' → lock_ok σ'.
Proof.
  intros I Hst. destruct Hst as [σ i c E _|σ σ' i o E|σ σ' o E|σ i f _|σ f _].
  - apply (lock_ok_client σ _ i); [done|done|..]; step_cbn; [intros; by rewrite upd_at_ne|].
    left. rewrite upd_at_eq, E. by destruct c.
  - destruct (client_run_frame _ _ _ _ _ E) as [Ew Ej]. apply (lock_ok_client σ _ i I Ew Ej). clear Ew Ej.
    unfold client_run, queue_run, flush_run, sync_run, take_lock in E. unfold lock_move.
    repeat (case_match; simplify_eq/=); step_cbn; at_threads; eauto 6.
  - apply (lock_ok_worker σ _ I (worker_run_frame _ _ _ _ E)).
    unfold worker_run, thread_run, queue_loop_run, take_lock in E. unfold lock_move.
    repeat (case_match; simplify_eq/=); step_cbn; eauto 6.
  - apply (lock_ok_worker σ _ I); [|by left]. intros j. step_cbn. at_threads; done.
  - apply (lock_ok_worker σ _ I); [done|by left].
Qed.

(** ** The work items *)

(** The item the worker has taken off the list and not finished. *)
Definition running (pc : wkpc) : list nat :=
  match pc with RRelease w | RFun w _ | RRelock w | RDone w => [w] | _ => [] end.
(** The item for which a thread has the pending bit. *)
Definition cclaim (pc : qpc) : option nat :=
  match pc with QLock w | QIns w => Some w | _ => None end.
Definition wclaim (pc : wkpc) : option nat :=
  match pc with RRelease w | RFun w true => Some w | _ => None end.
Definition is_bug (pc : qpc) : bool := match pc with QBug _ => true | _ => false end.
Definition releasing (pc : wkpc) : option nat := match pc with RRelease w => Some w | _ => None end.
Definition is_rbug (pc : wkpc) : bool := match pc with RBug => true | _ => false end.

Record items_ok (σ : wqsys) : Prop := {
  io_nosync i : is_sync (pcq σ i) = false;
  io_bug i : is_bug (pcq σ i) = false;
  io_rbug : is_rbug (wk_pc σ) = false;
  io_fifo : inserted (sh σ) = finished (sh σ) ++ running (wk_pc σ) ++ worklist (sh σ);
  io_ins : insert_sequence (sh σ) = s32 (Z.of_nat (length (inserted (sh σ))));
  io_rem : remove_sequence (sh σ) = s32 (Z.of_nat (length (finished (sh σ))));
  io_nodup : NoDup (worklist (sh σ));
  io_list w : w ∈ worklist (sh σ) → wpend (sh σ) w = true ∧ wdata (sh σ) w = true;
  io_claim i w : cclaim (pcq σ i) = Some w → wpend (sh σ) w = true ∧ w ∉ worklist (sh σ);
  io_uniq i j w : cclaim (pcq σ i) = Some w → cclaim (pcq σ j) = Some w → i = j;
  io_wclaim w : wclaim (wk_pc σ) = Some w →
    wpend (sh σ) w = true ∧ w ∉ worklist (sh σ) ∧ ∀ i, cclaim (pcq σ i) ≠ Some w;
  io_rel w : releasing (wk_pc σ) = Some w → wdata (sh σ) w = true;
}.

(** The words of the items. *)
Definition item_view (a : wshared) :=
  (worklist a, wpend a, wdata a, insert_sequence a, remove_sequence a, inserted a, finished a).

Lemma items_ok_frame σ σ' : items_ok σ → item_view (sh σ') = item_view (sh σ) →
  (∀ i, cclaim (pcq σ' i) = cclaim (pcq σ i)) → (∀ i, is_sync (pcq σ' i) = false) → (∀ i, is_bug (pcq σ' i) = false) →
  running (wk_pc σ') = running (wk_pc σ) → is_rbug (wk_pc σ') = false →
  (wclaim (wk_pc σ') = wclaim (wk_pc σ) ∨ wclaim (wk_pc σ') = None) →
  (releasing (wk_pc σ') = releasing (wk_pc σ) ∨ releasing (wk_pc σ') = None) →
  items_ok σ'.
Proof.
  intros [H1 H2 H3 H4 H5 H6 H7 H8 H9 H10 H11 H12] [= E1 E2 E3 E4 E5 E6 E7] Hc Hs Hb Hr Hrb Hw Hre.
  split; rewrite ?E1, ?E2, ?E3, ?E4, ?E5, ?E6, ?E7, ?Hr; auto.
  - intros i w. rewrite Hc. apply H9.
  - intros i j w. rewrite !Hc. apply H10.
  - intros w E. destruct Hw as [Hw|Hw]; rewrite Hw in E; [|done]. destruct (H11 w E) as (? & ? & ?).
    split; [done|]. split; [done|]. intros i. by rewrite Hc.
  - intros w E. destruct Hre as [Hw'|Hw']; rewrite Hw' in E; [|done]. by apply H12.
Qed.

Lemma s32_snoc (l : list nat) w :
  s32 (s32 (Z.of_nat (length l)) + 1) = s32 (Z.of_nat (length (l ++ [w]))).
Proof.
  apply s32_mod_eq. rewrite length_app, Nat2Z.inj_add. cbn [length Z.of_nat Pos.of_succ_nat].
  by rewrite <- Z.add_mod_idemp_l, s32_congr, Z.add_mod_idemp_l.
Qed.

(** [test_and_set_bit] claims an item that is on no list. *)
Lemma items_ok_test σ i w : items_ok σ → pcq σ i = QTest w → wpend (sh σ) w = false →
  w ∉ worklist (sh σ) ∧ items_ok (cgoto i (QLock w) (on_sh (set_pending w true) σ)).
Proof.
  intros I Epc Ep. assert (Hw : w ∉ worklist (sh σ)) by (intros [? _]%(io_list σ I); congruence).
  split; [done|]. destruct I as [H1 H2 H3 H4 H5 H6 H7 H8 H9 H10 H11 H12].
  split; step_cbn; auto; try (intros j; at_threads; by auto).
  - intros j v E. destruct (decide (j = i)) as [->|Hj].
    + rewrite upd_at_eq in E. cbn in E. simplify_eq. by rewrite upd_at_eq.
    + rewrite upd_at_ne in E by done. destruct (H9 j v E). at_threads; done.
  - intros j k v. destruct (decide (j = i)) as [->|Hj], (decide (k = i)) as [->|Hk];
      rewrite ?upd_at_eq, ?upd_at_ne by done; cbn; intros E1 E2; simplify_eq; auto; [| |by eapply H10].
    + apply H9 in E2 as [? _]. congruence.
    + apply H9 in E1 as [? _]. congruence.
  - intros v E. destruct (H11 v E) as (Hp & ? & ?). split; [by at_threads|]. split; [done|]. intros j.
    at_threads; [|done]. cbn. congruence.
Qed.

(** [__queue_work] *)
Lemma items_ok_insert σ i w : items_ok σ → pcq σ i = QIns w → items_ok (cgoto i QWake (on_sh (enqueue w) σ)).
Proof.
  intros I Epc. destruct (io_claim σ I i w) as [Hp Hw]; [by rewrite Epc|].
  destruct I as [H1 H2 H3 H4 H5 H6 H7 H8 H9 H10 H11 H12].
  split; step_cbn; auto; try (intros j; at_threads; by auto).
  - by rewrite H4, <- !app_assoc.
  - rewrite H5. apply s32_snoc.
  - apply list.NoDup_app. split; [done|]. split; [set_solver|apply NoDup_singleton].
  - intros v [Hv|Hv]%elem_of_app; [destruct (H8 v Hv)|apply list_elem_of_singleton in Hv as ->]; at_threads; done.
  - intros j v E. destruct (decide (j = i)) as [->|Hj]; [by rewrite upd_at_eq in E|].
    rewrite upd_at_ne in E by done. destruct (H9 j v E) as [? Hv]. split; [done|].
    rewrite not_elem_of_app, list_elem_of_singleton. split; [done|]. intros ->.
    apply Hj, (H10 j i w); [done|]. by rewrite Epc.
  - intros j k v. destruct (decide (j = i)) as [->|Hj], (decide (k = i)) as [->|Hk];
      rewrite ?upd_at_eq, ?upd_at_ne by done; cbn; try done. apply H10.
  - intros v E. destruct (H11 v E) as (? & ? & Hc). split; [done|]. split.
    + rewrite not_elem_of_app, list_elem_of_singleton. split; [done|]. intros ->. apply (Hc i). by rewrite Epc.
    + intros j. at_threads; [done|auto].
Qed.

(** The worker takes the first item. *)
Lemma items_ok_take σ w l : items_ok σ → wk_pc σ = RLoop → worklist (sh σ) = w :: l →
  items_ok (wgoto (RRelease w) (give_lock (on_sh (set_worklist l) σ))).
Proof.
  intros [H1 H2 H3 H4 H5 H6 H7 H8 H9 H10 H11 H12] Epc El. rewrite El in *. rewrite Epc in *.
  apply list.NoDup_cons in H7 as [Hw Hl].
  split; step_cbn; cbn [running wclaim releasing is_rbug app] in *; auto.
  - intros v Hv. apply H8. set_solver.
  - intros i v E. destruct (H9 i v E). set_solver.
  - intros v [= ->]. split; [apply H8; set_solver|]. split; [done|]. intros i E. destruct (H9 i v E). set_solver.
  - intros v [= ->]. apply H8. set_solver.
Qed.

(** The worker, or the function it runs, clears the pending bit. *)
Lemma items_ok_release σ w : items_ok σ → wclaim (wk_pc σ) = Some w → running (wk_pc σ) = [w] →
  items_ok (wgoto (RFun w false) (on_sh (set_pending w false) σ)).
Proof.
  intros [H1 H2 H3 H4 H5 H6 H7 H8 H9 H10 H11 H12] Ew Er. destruct (H11 w Ew) as (Hp & Hw & Hc).
  split; step_cbn; cbn [running wclaim releasing is_rbug] in *; auto; try done.
  - by rewrite H4, Er.
  - intros v Hv. rewrite upd_at_ne by (intros ->; done). auto.
  - intros i v E. rewrite upd_at_ne by (intros ->; by apply (Hc i)). eauto.
Qed.

Lemma items_ok_done σ w : items_ok σ → wk_pc σ = RDone w →
  items_ok (wgoto (RWake (on_done (sh σ))) (on_sh (finish w) σ)).
Proof.
  intros [H1 H2 H3 H4 H5 H6 H7 H8 H9 H10 H11 H12] Epc. rewrite Epc in *.
  split; step_cbn; cbn [running wclaim releasing is_rbug] in *; auto; try done.
  - rewrite H4. by rewrite <- app_assoc.
  - rewrite H6. apply s32_snoc.
Qed.

(** Steps that do not touch the items. *)
Lemma items_ok_client_frame σ σ' i : items_ok σ → item_view (sh σ') = item_view (sh σ) → wk_pc σ' = wk_pc σ →
  (∀ j, j ≠ i → pcq σ' j = pcq σ j) → cclaim (pcq σ' i) = cclaim (pcq σ i) →
  is_sync (pcq σ' i) = false → is_bug (pcq σ' i) = false → items_ok σ'.
Proof.
  intros I Ev Ew Ej Hc Hs Hb. apply (items_ok_frame σ σ' I Ev); rewrite ?Ew; auto using io_rbug;
    intros j; (destruct (decide (j = i)) as [->|Hne]; [done|rewrite (Ej j Hne)]); auto using io_nosync, io_bug.
Qed.

Lemma items_ok_worker_frame σ σ' : items_ok σ → item_view (sh σ') = item_view (sh σ) → (∀ j, pcq σ' j = pcq σ j) →
  running (wk_pc σ') = running (wk_pc σ) → is_rbug (wk_pc σ') = false →
  (wclaim (wk_pc σ') = wclaim (wk_pc σ) ∨ wclaim (wk_pc σ') = None) →
  (releasing (wk_pc σ') = releasing (wk_pc σ) ∨ releasing (wk_pc σ') = None) → items_ok σ'.
Proof.
  intros I Ev Ej. apply (items_ok_frame σ σ' I Ev); intros j; rewrite (Ej j); auto using io_nosync, io_bug.
Qed.

Lemma items_ok_client nr σ σ' i o : items_ok σ → client_run nr i o σ = Some σ' → items_ok σ'.
Proof.
  intros I E. destruct (client_run_frame _ _ _ _ _ E) as [Ew Ej]. pose proof (io_nosync σ I i) as Hs.
  pose proof (io_bug σ I i) as Hb. unfold client_run, queue_run, flush_run, sync_run, take_lock in E.
  destruct (pcq σ i) eqn:Epc; try done; simplify_eq; cbn [is_sync is_bug] in *;
    try (apply (items_ok_client_frame σ _ i I); [..|exact Ej| | |]; repeat (case_match; simplify_eq/=); step_cbn; at_threads; rewrite ?Epc; by auto).
  - destruct (wpend (sh σ) w) eqn:Ep.
    + apply (items_ok_client_frame σ _ i I); [done|done|exact Ej|..]; step_cbn; at_threads; by rewrite ?Epc.
    + destruct (items_ok_test σ i w I Epc Ep) as [Hw I']. by rewrite bool_decide_false.
  - destruct (io_claim σ I i w) as [Hp _]; [by rewrite Epc|]. rewrite Hp. by apply items_ok_insert.
Qed.

Lemma items_ok_worker nr σ σ' o : items_ok σ → worker_run nr o σ = Some σ' → items_ok σ'.
Proof.
  intros I E. pose proof (worker_run_frame _ _ _ _ E) as Ej. pose proof (io_rbug σ I) as Hb.
  unfold worker_run, thread_run, queue_loop_run, take_lock in E.
  destruct (wk_pc σ) eqn:Epc; try done; simplify_eq; cbn [is_rbug] in *;
    try (apply (items_ok_worker_frame σ _ I); [|exact Ej|..]; repeat (case_match; simplify_eq/=); rewrite ?Epc; by auto).
  - destruct (worklist (sh σ)) as [|w l] eqn:El; [|by apply items_ok_take].
    apply (items_ok_worker_frame σ _ I); [done|exact Ej|..]; rewrite ?Epc; by auto.
  - rewrite (io_rel σ I w) by (by rewrite Epc). cbn [negb].
    destruct (nr w); [apply (items_ok_worker_frame σ _ I); [done|done|..]; rewrite ?Epc; by auto|].
    apply items_ok_release; rewrite ?Epc; done.
  - destruct held, o; cbn [andb]; try (apply (items_ok_worker_frame σ _ I); [done|done|..]; rewrite ?Epc; by auto).
    apply items_ok_release; rewrite ?Epc; done.
  - by apply items_ok_done.
Qed.

Lemma items_ok_step nr σ σ' : items_ok σ → wq_step nr false σ σ' → items_ok σ'.
Proof.
  intros I Hst. destruct Hst as [σ i c E Hc|σ σ' i o E|σ σ' o E|σ i f _|σ f _].
  - apply (items_ok_client_frame σ _ i I); step_cbn; try done; [intros; by rewrite upd_at_ne|..]; rewrite upd_at_eq, ?E;
      destruct c as [w| |w]; try done; by specialize (Hc w eq_refl).
  - by eapply items_ok_client.
  - by eapply items_ok_worker.
  - apply (items_ok_worker_frame σ _ I); [done| |done|exact (io_rbug σ I)|by left|by left].
    intros j. step_cbn. at_threads; done.
  - apply (items_ok_worker_frame σ _ I); [done|done|done|exact (io_rbug σ I)|by left|by left].
Qed.

(** ** The worker is woken *)

Definition watching (pc : wkpc) : bool :=
  match pc with WkTest | WkSwitch | WkYield | WkDown => true | _ => false end.
Definition wasleep (pc : wkpc) : bool := match pc with WkSwitch | WkDown => true | _ => false end.
Definition waking (pc : qpc) : bool := match pc with QWake | QUp => true | _ => false end.

Record worker_ok (σ : wqsys) : Prop := {
  wo_sem : 0 ≤ tk_sleep_lock (wk_task σ);
  wo_more : watching (wk_pc σ) = true → on_more (sh σ) = true;
  wo_wake : wasleep (wk_pc σ) = true →
    worklist (sh σ) = [] ∨ 0 < tk_sleep_lock (wk_task σ) ∨ ∃ i, waking (pcq σ i) = true;
}.

Lemma worker_ok_client nr σ σ' i o : items_ok σ → worker_ok σ → client_run nr i o σ = Some σ' → worker_ok σ'.
Proof.
  intros I [H1 H2 H3] E. destruct (client_run_frame _ _ _ _ _ E) as [Ew Ej]. pose proof (io_nosync σ I i) as Hs.
  assert (Hm : on_more (sh σ') = on_more (sh σ)).
  { unfold client_run, queue_run, flush_run, sync_run, take_lock in E. repeat (case_match; simplify_eq/=); done. }
  assert (Hk : tk_sleep_lock (wk_task σ) ≤ tk_sleep_lock (wk_task σ')).
  { unfold client_run, queue_run, flush_run, sync_run, take_lock in E. repeat (case_match; simplify_eq/=); lia. }
  split; [lia|by rewrite Ew, Hm|]. rewrite Ew. intros Ha.
  assert (Hmore : on_more (sh σ) = true) by (apply H2; by destruct (wk_pc σ)).
  assert (Hi : worklist (sh σ') = worklist (sh σ) ∧ (waking (pcq σ i) = true → waking (pcq σ' i) = true ∨ 0 < tk_sleep_lock (wk_task σ'))
    ∨ waking (pcq σ' i) = true).
  { unfold client_run, queue_run, flush_run, sync_run, take_lock in E. rewrite Hmore in E. clear Ej.
    repeat (case_match; simplify_eq/=); step_cbn; at_threads; auto. left. split; [done|]. right. lia. }
  destruct Hi as [[El Hw]|Hw]; [|eauto]. rewrite El. destruct (H3 Ha) as [?|[?|[k Hk']]]; [auto|right; left; lia|].
  right. destruct (decide (k = i)) as [->|Hne]; [destruct (Hw Hk'); eauto|]. right. exists k. by rewrite Ej.
Qed.

Lemma worker_ok_worker nr σ σ' o : worker_ok σ → worker_run nr o σ = Some σ' → worker_ok σ'.
Proof.
  intros [H1 H2 H3] E. pose proof (worker_run_frame _ _ _ _ E) as Ej. unfold worker_run, thread_run, queue_loop_run, take_lock in E.
  split.
  - repeat (case_match; simplify_eq/=); lia.
  - repeat (case_match; simplify_eq/=); auto.
  - intros Ha. assert (H : (wasleep (wk_pc σ) = true ∧ worklist (sh σ') = worklist (sh σ) ∧ wk_task σ' = wk_task σ) ∨
      worklist (sh σ') = []).
    { clear Ej. repeat (case_match; simplify_eq/=); auto.
      right. match goal with H : bool_decide _ = true |- _ => by apply bool_decide_eq_true in H end. }
    destruct H as [(Ha' & -> & ->)|H]; [|auto]. destruct (H3 Ha') as [?|[?|[k Hk]]]; auto.
    right. right. exists k. by rewrite Ej.
Qed.

Lemma worker_ok_step nr σ σ' : items_ok σ → worker_ok σ → wq_step nr false σ σ' → worker_ok σ'.
Proof.
  intros I W Hst. destruct Hst as [σ i c E Hc|σ σ' i o E|σ σ' o E|σ i f _|σ f Hf].
  - destruct W as [H1 H2 H3]. split; step_cbn; auto. intros Ha. destruct (H3 Ha) as [?|[?|[k Hk]]]; auto.
    right. right. exists k. rewrite upd_at_ne; [done|]. intros ->. by rewrite E in Hk.
  - by eapply worker_ok_client.
  - by eapply worker_ok_worker.
  - destruct W as [H1 H2 H3]. split; step_cbn; auto. intros Ha. destruct (H3 Ha) as [?|[?|[k Hk]]]; auto.
    right. right. exists k. at_threads; done.
  - destruct W as [H1 H2 H3]. split; step_cbn; auto.
    + destruct Hf as [->| ->]; cbn; lia.
    + intros Ha. destruct (H3 Ha) as [?|[?|?]]; auto. right. left. destruct Hf as [->| ->]; cbn; lia.
Qed.

(** ** Flushing *)

Definition needed (pc : qpc) : option Z :=
  match pc with FCheck n | FUnlock n | FSwitch n | FYield n | FDown n | FRelock n | FOut n => Some n | _ => None end.
Definition in_done (pc : qpc) : bool := match pc with FUnlock _ | FSwitch _ | FDown _ => true | _ => false end.
Definition fbefore (pc : qpc) : option Z := match pc with FUnlock n => Some n | _ => None end.
Definition fasleep (pc : qpc) : option Z := match pc with FSwitch n | FDown n => Some n | _ => None end.
Definition fout (pc : qpc) : option Z := match pc with FOut n => Some n | _ => None end.
(** The flushing clients the worker has still to wake. *)
Definition to_wake (pc : wkpc) : list nat := match pc with RWake rest => rest | RUp j rest => j :: rest | _ => [] end.

Definition count_ins (a : wshared) : Z := Z.of_nat (length (inserted a)).
Definition count_fin (a : wshared) : Z := Z.of_nat (length (finished a)).

Record flush_ok (σ : wqsys) : Prop := {
  fo_sem i : 0 ≤ semq σ i;
  fo_queue i : in_done (pcq σ i) = true → i ∈ on_done (sh σ);
  fo_need i n : needed (pcq σ i) = Some n → count_ins (sh σ) < 2 ^ 31 → 0 ≤ n ≤ count_ins (sh σ);
  fo_out i n : fout (pcq σ i) = Some n → count_ins (sh σ) < 2 ^ 31 → n ≤ count_fin (sh σ);
  fo_before i n : fbefore (pcq σ i) = Some n → 0 < s32 (n - remove_sequence (sh σ));
  fo_sleep i n : fasleep (pcq σ i) = Some n →
    0 < s32 (n - remove_sequence (sh σ)) ∨ 0 < semq σ i ∨ i ∈ to_wake (wk_pc σ);
}.

(** The counters are exact while fewer than 2^31 items were queued. *)
Lemma counters_exact σ : items_ok σ → count_ins (sh σ) < 2 ^ 31 →
  insert_sequence (sh σ) = count_ins (sh σ) ∧ remove_sequence (sh σ) = count_fin (sh σ) ∧
  0 ≤ count_fin (sh σ) ≤ count_ins (sh σ).
Proof.
  intros I Hb. rewrite (io_ins σ I), (io_rem σ I). unfold count_ins, count_fin in *. rewrite (io_fifo σ I), length_app in *.
  rewrite !s32_small; lia.
Qed.

Lemma flush_needed σ n : items_ok σ → count_ins (sh σ) < 2 ^ 31 → 0 ≤ n ≤ count_ins (sh σ) →
  s32 (n - remove_sequence (sh σ)) = n - count_fin (sh σ).
Proof. intros I Hb Hn. destruct (counters_exact σ I Hb) as (_ & -> & ?). apply s32_small. lia. Qed.

(** What a client's step does to the words that flushing uses. *)
Lemma client_run_flush nr i o σ σ' : items_ok σ → client_run nr i o σ = Some σ' →
  remove_sequence (sh σ') = remove_sequence (sh σ) ∧ finished (sh σ') = finished (sh σ) ∧
  count_ins (sh σ) ≤ count_ins (sh σ') ∧ (∀ j, j ≠ i → j ∈ on_done (sh σ) → j ∈ on_done (sh σ')) ∧
  (∀ j, j ≠ i → cl σ' j = cl σ j).
Proof.
  intros I E. pose proof (io_nosync σ I i) as Hs. unfold client_run, queue_run, flush_run, sync_run, take_lock in E.
  destruct (pcq σ i) eqn:Epc; try done; simplify_eq/=; repeat (case_match; simplify_eq/=); step_cbn; unfold count_ins; step_cbn;
    (split; [done|]); (split; [done|]); (split; [rewrite ?length_app; lia|]);
    (split; [try done|by intros; rewrite ?upd_at_ne by done]).
  - set_solver.
  - intros j Hj Hin. rewrite list_elem_of_filter. done.
Qed.

(** The conditions of [flush_ok] on one client. *)
Definition flush_ok_at (σ : wqsys) (i : nat) : Prop :=
  0 ≤ semq σ i ∧
  (in_done (pcq σ i) = true → i ∈ on_done (sh σ)) ∧
  (∀ n, needed (pcq σ i) = Some n → count_ins (sh σ) < 2 ^ 31 → 0 ≤ n ≤ count_ins (sh σ)) ∧
  (∀ n, fout (pcq σ i) = Some n → count_ins (sh σ) < 2 ^ 31 → n ≤ count_fin (sh σ)) ∧
  (∀ n, fbefore (pcq σ i) = Some n → 0 < s32 (n - remove_sequence (sh σ))) ∧
  (∀ n, fasleep (pcq σ i) = Some n →
    0 < s32 (n - remove_sequence (sh σ)) ∨ 0 < semq σ i ∨ i ∈ to_wake (wk_pc σ)).

Lemma flush_ok_all σ : flush_ok σ ↔ ∀ i, flush_ok_at σ i.
Proof.
  split.
  - intros [H1 H2 H3 H4 H5 H6] i. repeat split; eauto; by eapply H3.
  - intros H. split; intros i; destruct (H i) as (? & ? & ? & ? & ? & ?); auto.
Qed.

Lemma flush_ok_own nr σ σ' i o : items_ok σ → flush_ok_at σ i → client_run nr i o σ = Some σ' → flush_ok_at σ' i.
Proof.
  intros I (H1 & H2 & H3 & H4 & H5 & H6) E. pose proof (io_nosync σ I i) as Hs. unfold client_run, queue_run, flush_run, sync_run, take_lock in E.
  destruct (pcq σ i) as [|w|b|w|w| | | | | |n|n|n|n|n|n|n|w|w|w|w|w h|w|w|l|j l|] eqn:Epc; try done; simplify_eq/=;
    repeat (case_match; simplify_eq/=); unfold flush_ok_at; step_cbn; rewrite ?upd_at_eq; cbn [q_pc q_task tk_sleep_lock];
    cbn [in_done needed fout fbefore fasleep] in *;
    unfold count_ins, count_fin in *; step_cbn;
    (split; [try done; try lia|split; [try by auto; try (intros _; apply elem_of_cons; by left)|split; [|split; [|split]];
      intros m Hm; simplify_eq; try (intros Hb; rewrite ?length_app in * ); auto]]).
  - destruct (counters_exact σ I Hb) as (-> & _ & ?). unfold count_ins in *. lia.
  - intros _. match goal with H : bool_decide _ = true |- _ => by apply bool_decide_eq_true in H end.
  - by apply Z.ltb_lt.
  - by apply Z.ltb_lt.
  - match goal with H : (_ <? _) = false |- _ => apply Z.ltb_ge in H; rename H into Hle end.
    rewrite (flush_needed σ m I Hb) in Hle by auto. unfold count_fin in Hle. lia.
Qed.

Lemma flush_ok_client nr σ σ' i o : items_ok σ → flush_ok σ → client_run nr i o σ = Some σ' → flush_ok σ'.
Proof.
  intros I F E. apply flush_ok_all. intros j. pose proof (proj1 (flush_ok_all σ) F j) as Hj.
  destruct (decide (j = i)) as [->|Hne]; [by eapply flush_ok_own|].
  destruct (client_run_flush _ _ _ _ _ I E) as (Er & Ef & Hn & Hq & Hcl). destruct (client_run_frame _ _ _ _ _ E) as [Ew _].
  destruct Hj as (H1 & H2 & H3 & H4 & H5 & H6). unfold flush_ok_at. rewrite (Hcl j Hne), Er, Ew. unfold count_fin. rewrite Ef.
  split; [done|]. split; [auto|]. split; [|split; [|done]].
  - intros n Hm Hb. specialize (H3 n Hm ltac:(lia)). lia.
  - intros n Hm Hb. apply H4; [done|lia].
Qed.

(** What a worker's step does to the words that flushing uses. *)
Lemma worker_run_flush nr o σ σ' : worker_run nr o σ = Some σ' →
  inserted (sh σ') = inserted (sh σ) ∧ on_done (sh σ') = on_done (sh σ) ∧
  (∀ j, pcq σ' j = pcq σ j ∧ semq σ j ≤ semq σ' j) ∧ count_fin (sh σ) ≤ count_fin (sh σ') ∧
  (remove_sequence (sh σ') = remove_sequence (sh σ) ∧
     (∀ j, j ∈ to_wake (wk_pc σ) → j ∈ to_wake (wk_pc σ') ∨ semq σ j < semq σ' j) ∨
   wlocked (wk_pc σ) = true ∧ to_wake (wk_pc σ') = on_done (sh σ)).
Proof.
  intros E. pose proof (worker_run_frame _ _ _ _ E) as Ej. unfold worker_run, thread_run, queue_loop_run, take_lock in E. unfold count_fin.
  destruct (wk_pc σ) as [| | | | | | | | | | |w|w h|w|w|[|k l]|k l|] eqn:Epc; try done; simplify_eq/=;
    repeat (case_match; simplify_eq/=); step_cbn;
    (split; [done|split; [done|split; [intros j; split; [done || apply Ej|by (done || (at_threads; cbn; lia))]|
       split; [rewrite ?length_app; lia|]]]]); rewrite ?Epc; cbn [to_wake wlocked]; auto.
  left. split; [done|]. intros j [->|Hj]%elem_of_cons; [right|by left]. rewrite upd_at_eq. cbn. lia.
Qed.

Lemma flush_ok_worker nr σ σ' o : lock_ok σ → flush_ok σ → worker_run nr o σ = Some σ' → flush_ok σ'.
Proof.
  intros L F E. destruct (worker_run_flush _ _ _ _ E) as (Ei & Eq & Ec & Hf & Hr).
  apply flush_ok_all. intros j. destruct (proj1 (flush_ok_all σ) F j) as (H1 & H2 & H3 & H4 & H5 & H6).
  destruct (Ec j) as [Ep Es]. unfold flush_ok_at, count_ins in *. rewrite Ep, Ei, Eq.
  split; [lia|]. split; [done|]. split; [done|]. split; [|split].
  - intros n Hm Hb. specialize (H4 n Hm Hb). lia.
  - intros n Hm. destruct Hr as [[-> _]|[Hl _]]; [auto|]. exfalso.
    apply (lo_worker σ L) in Hl. assert (Hc : clocked (pcq σ j) = true) by (by destruct (pcq σ j)).
    apply (lo_client σ L) in Hc. congruence.
  - intros n Hm. destruct Hr as [[-> Hw]|[_ ->]].
    + destruct (H6 n Hm) as [?|[?|Hin]]; [auto|right; left; lia|]. destruct (Hw j Hin); [auto|]. right. left. lia.
    + right. right. apply H2. by destruct (pcq σ j).
Qed.

Lemma flush_ok_step nr σ σ' : lock_ok σ → items_ok σ → flush_ok σ → wq_step nr false σ σ' → flush_ok σ'.
Proof.
  intros L I F Hst. destruct Hst as [σ i c E Hc|σ σ' i o E|σ σ' o E|σ i f Hf|σ f Hf].
  - apply flush_ok_all. intros j. destruct (proj1 (flush_ok_all σ) F j) as (H1 & H2 & H3 & H4 & H5 & H6).
    unfold flush_ok_at. step_cbn. at_threads; [|done]. destruct c; done.
  - by eapply flush_ok_client.
  - by eapply flush_ok_worker.
  - apply flush_ok_all. intros j. destruct (proj1 (flush_ok_all σ) F j) as (H1 & H2 & H3 & H4 & H5 & H6).
    unfold flush_ok_at. step_cbn. at_threads; [|done].
    assert (semq σ i ≤ tk_sleep_lock (f (q_task (cl σ i)))) by (destruct Hf as [->| ->]; cbn; lia).
    split; [lia|]. do 4 (split; [done|]). intros n Hm. destruct (H6 n Hm) as [?|[?|?]]; [auto|right; left; lia|auto].
  - destruct F as [H1 H2 H3 H4 H5 H6]. by split.
Qed.

(** ** Correctness *)

Definition wq_ok (σ : wqsys) : Prop := lock_ok σ ∧ items_ok σ ∧ worker_ok σ ∧ flush_ok σ.

Lemma wq_ok_init : wq_ok wq_init.
Proof.
  split; [|split; [|split]]; split; cbn; try done; try (intros; split; done); try (intros; by apply elem_of_nil in H).
  by apply list.NoDup_nil.
Qed.

Lemma wq_ok_reachable nr σ : rtc (wq_step nr false) wq_init σ → wq_ok σ.
Proof.
  intros Hr. pose proof wq_ok_init as H0. revert H0. induction Hr as [|σ σ1 σ2 Hs Hr IH]; [done|].
  intros (L & I & W & F). apply IH. split; [by eapply lock_ok_step|]. split; [by eapply items_ok_step|].
  split; [by eapply worker_ok_step|by eapply flush_ok_step].
Qed.

Lemma client_blocked nr σ i : (∀ o, client_run nr i o σ = None) →
  pcq σ i = QIdle ∨ is_bug (pcq σ i) = true ∨ (is_Some (wlock (sh σ)) ∧ clocked (pcq σ i) = false) ∨
  (∃ n, pcq σ i = FDown n) ∧ semq σ i ≤ 0.
Proof.
  intros Hb. specialize (Hb true). unfold client_run, queue_run, flush_run, sync_run, take_lock in Hb.
  destruct (pcq σ i) as [|w|b|w|w| | | | | |n|n|n|n|n|n|n|w|w|w|w|w h|w|w|[|j l]|j l|] eqn:Epc; auto; try done;
    try (destruct (wlock (sh σ)); [right; right; left; eauto|done]).
  destruct (Z.ltb_spec 0 (semq σ i)); [done|]. right. right. right. eauto.
Qed.

Lemma worker_blocked nr σ : (∀ o, worker_run nr o σ = None) →
  is_rbug (wk_pc σ) = true ∨ (is_Some (wlock (sh σ)) ∧ wlocked (wk_pc σ) = false) ∨
  wk_pc σ = WkDown ∧ tk_sleep_lock (wk_task σ) ≤ 0.
Proof.
  intros Hb. specialize (Hb true). unfold worker_run, thread_run, queue_loop_run, take_lock in Hb.
  destruct (wk_pc σ) as [| | | | | | | | | | |w|w h|w|w|[|k l]|k l|] eqn:Epc; auto; try done;
    try (destruct (wlock (sh σ)); [right; left; eauto|done]).
  destruct (Z.ltb_spec 0 (tk_sleep_lock (wk_task σ))); [done|]. auto.
Qed.

(** Nobody holds the lock when nothing can move. *)
Lemma stuck_lock_free nr σ : lock_ok σ → items_ok σ →
  (∀ i o, client_run nr i o σ = None) → (∀ o, worker_run nr o σ = None) → wlock (sh σ) = None.
Proof.
  intros L I Hc Hw. destruct (wlock (sh σ)) as [[|i]|] eqn:El; [| |done].
  - apply (lo_worker σ L) in El.
    destruct (worker_blocked nr σ Hw) as [E|[[_ E]|[E _]]]; [rewrite (io_rbug σ I) in E; done|congruence|by rewrite E in El].
  - apply (lo_client σ L) in El.
    destruct (client_blocked nr σ i (Hc i)) as [E|[E|[[_ E]|[[n E] _]]]]; [by rewrite E in El| |congruence|by rewrite E in El].
    by rewrite (io_bug σ I i) in E.
Qed.

(** C19: a work queue runs every queued item exactly once and in order: in every
    interleaving of the worker with any number of clients that call [queue_work]
    and [flush_workqueue] (nobody calls [run_scheduled_work], and no work
    function flushes its own queue), the queued items are those that have
    finished, the one that runs and those on the list, in this order, none of
    the [BUG_ON]s fires, and a flush that returns has waited for all items
    queued before it (while fewer than 2^31 were queued).  No wake-up is lost: when no thread can go on,
    every call has returned and every queued item has run. *)
Theorem workqueue_fifo (noautorel : nat → bool) (σ : wqsys) :
  rtc (wq_step noautorel false) wq_init σ →
  inserted (sh σ) = finished (sh σ) ++ running (wk_pc σ) ++ worklist (sh σ) ∧
  wk_pc σ ≠ RBug ∧ (∀ i b, q_pc (cl σ i) ≠ QBug b) ∧
  (∀ i n, q_pc (cl σ i) = FOut n → Z.of_nat (length (inserted (sh σ))) < 2 ^ 31 →
     take (Z.to_nat n) (inserted (sh σ)) `prefix_of` finished (sh σ)) ∧
  ((∀ i o, client_run noautorel i o σ = None) → (∀ o, worker_run noautorel o σ = None) →
     Z.of_nat (length (inserted (sh σ))) < 2 ^ 31 →
     (∀ i, q_pc (cl σ i) = QIdle) ∧ inserted (sh σ) = finished (sh σ)).
Proof.
  intros Hr. destruct (wq_ok_reachable _ _ Hr) as (L & I & W & F).
  split; [apply (io_fifo σ I)|]. split; [intros E; pose proof (io_rbug σ I) as H; by rewrite E in H|].
  split; [intros i b E; pose proof (io_bug σ I i) as H; by rewrite E in H|]. split.
  - intros i n E Hb. pose proof (fo_out σ F i n ltac:(by rewrite E) Hb) as Hn. unfold count_fin in Hn.
    rewrite (io_fifo σ I), take_app_le by lia. apply prefix_take.
  - intros Hc Hw Hb. pose proof (stuck_lock_free _ _ L I Hc Hw) as El.
    destruct (worker_blocked _ _ Hw) as [E|[[[t E] _]|[E Hs]]]; [rewrite (io_rbug σ I) in E; done|congruence|].
    assert (Hcl : ∀ i, pcq σ i = QIdle ∨ ∃ n, pcq σ i = FDown n ∧ semq σ i ≤ 0).
    { intros i. destruct (client_blocked _ _ i (Hc i)) as [?|[E'|[[[t E'] _]|[[n E'] ?]]]]; [auto| |congruence|eauto].
      by rewrite (io_bug σ I i) in E'. }
    assert (Hl : worklist (sh σ) = []).
    { destruct (wo_wake σ W ltac:(by rewrite E)) as [?|[?|[k Hk]]]; [done|lia|].
      destruct (Hcl k) as [E'|(n & E' & _)]; by rewrite E' in Hk. }
    assert (Ef : inserted (sh σ) = finished (sh σ)) by (by rewrite (io_fifo σ I), E, Hl, !app_nil_r).
    split; [|done]. intros i. destruct (Hcl i) as [?|(n & E' & Hs')]; [done|]. exfalso.
    pose proof (fo_need σ F i n ltac:(by rewrite E') Hb) as Hn.
    destruct (fo_sleep σ F i n ltac:(by rewrite E')) as [Hp|[?|Hin]]; [|lia|rewrite E in Hin; by apply elem_of_nil in Hin].
    rewrite (flush_needed σ n I Hb Hn) in Hp. unfold count_ins, count_fin in *. rewrite Ef in Hn. lia.
Qed.

(** A schedule of starting calls, client steps and worker steps. *)
Inductive wq_event := EvCall (i : nat) (c : wcall) | EvClient (i : nat) | EvWorker.

Fixpoint wq_exec (l : list wq_event) (σ : wqsys) : wqsys :=
  match l with
  | [] => σ
  | EvCall i c :: l => wq_exec l (match q_pc (cl σ i) with QIdle => cgoto i (first_qpc c) σ | _ => σ end)
  | EvClient i :: l => wq_exec l (default σ (client_run (λ _, false) i false σ))
  | EvWorker :: l => wq_exec l (default σ (worker_run (λ _, false) false σ))
  end.

Definition no_sync_call (e : wq_event) : bool :=
  match e with EvCall _ (RunScheduled _) => false | _ => true end.

Lemma wq_exec_reachable sync l σ : (sync = true ∨ forallb no_sync_call l = true) →
  rtc (wq_step (λ _, false) sync) σ (wq_exec l σ).
Proof.
  revert σ. induction l as [|[i c|i|] l IH]; intros σ Hs; cbn [wq_exec]; [apply rtc_refl|..].
  - assert (Hs' : sync = true ∨ forallb no_sync_call l = true).
    { destruct Hs as [?|Hs]; [by left|right]. cbn in Hs. by apply andb_true_iff in Hs as [_ ?]. }
    destruct (q_pc (cl σ i)) eqn:E; try (apply IH; done). eapply rtc_l; [|apply IH; done]. apply VsStart; [done|].
    intros w ->. by destruct Hs.
  - destruct (client_run _ i false σ) as [σ'|] eqn:E; [|apply IH; by destruct Hs; auto].
    eapply rtc_l; [by eapply VsClient|apply IH; by destruct Hs; auto].
  - destruct (worker_run _ false σ) as [σ'|] eqn:E; [|apply IH; by destruct Hs; auto].
    eapply rtc_l; [by eapply VsWorker|apply IH; by destruct Hs; auto].
Qed.

Definition times {A} (n : nat) (x : A) : list A := replicate n x.

(** A client queues item 7, another one flushes and sleeps, the worker runs the
    item and the flush is about to return. *)
Definition demo_flush : wqsys :=
  wq_exec ([EvCall 0 (QueueWork 7)] ++ times 7 (EvClient 0) ++ [EvCall 1 FlushWork] ++ times 5 (EvClient 1) ++
           times 16 EvWorker ++ times 3 (EvClient 1)) wq_init.

Lemma workqueue_fifo_witness :
  q_pc (cl demo_flush 1%nat) = FOut 1 ∧ inserted (sh demo_flush) = [7%nat] ∧
  take (Z.to_nat 1) (inserted (sh demo_flush)) `prefix_of` finished (sh demo_flush).
Proof.
  split; [vm_compute; reflexivity|]. split; [vm_compute; reflexivity|].
  apply (workqueue_fifo (λ _, false) demo_flush) with (i := 1%nat).
  - apply wq_exec_reachable. right. reflexivity.
  - vm_compute. reflexivity.
  - vm_compute. reflexivity.
Defined.

(** A flush counts finished items and does not look at which ones: client 1
    flushes while the worker runs item 0; client 2 queues item 1 and runs it
    itself with [run_scheduled_work], and the flush returns although item 0, which
    was queued before it, still runs. *)
Definition demo_early : wqsys :=
  wq_exec ([EvCall 0 (QueueWork 0)] ++ times 7 (EvClient 0) ++ times 8 EvWorker ++
           [EvCall 1 FlushWork] ++ times 5 (EvClient 1) ++ [EvCall 2 (QueueWork 1)] ++ times 7 (EvClient 2) ++
           [EvCall 2 (RunScheduled 1)] ++ times 12 (EvClient 2) ++ times 3 (EvClient 1)) wq_init.

Theorem flush_returns_early :
  rtc (wq_step (λ _, false) true) wq_init demo_early ∧
  q_pc (cl demo_early 1%nat) = FOut 1 ∧ inserted (sh demo_early) = [0%nat; 1%nat] ∧
  wk_pc demo_early = RFun 0 false ∧ finished (sh demo_early) = [1%nat].
Proof.
  split; [apply wq_exec_reachable; by left|]. repeat split; vm_compute; reflexivity.
Qed.
