(* ===== verification/NetGlue.v ===== *)
(** Network devices: the interface of the library to its client
    (src/src/lib/dde_linux26/arch/dde_kit/net.c) with the parts of the network
    core it uses: [eth_type_trans] (net/ethernet/eth.c), device lookup and
    [netif_rx] (net/core/dev.c), socket buffers (net/core/skbuff.c, skbuff.h).

    A driver is what it answers to [hard_start_xmit] and how often its queue is
    found stopped.  The client's callback is a log.  The bytes of a packet are the
    linear buffers of [NetlinkAttr]. *)

From S2P Require Import Prelude Kit FindBit NetlinkAttr.

Definition ETH_HLEN : Z := 14.
Definition ETH_ALEN : Z := 6.
Definition ETH_P_802_3 : Z := 1.
Definition ETH_P_802_2 : Z := 4.
Definition PACKET_HOST : Z := 0.
Definition PACKET_BROADCAST : Z := 1.
Definition PACKET_MULTICAST : Z := 2.
Definition PACKET_OTHERHOST : Z := 3.
Definition NET_RX_SUCCESS : Z := 0.
Definition SMP_CACHE_BYTES : Z := 128.

(** ** Buffers (skbuff.h) *)

Definition skb_push (len : Z) : NM unit := λ s,
  let s' := Nskb (nb_buf s) (nb_data s - len) (nb_tail s) (u32 (nb_len s + len)) in
  if nb_data s' <? 0 then Fault FPanic else Done (tt, s').
(** The buffers here have no fragments: [data_len] is 0. *)
Definition __skb_pull (len : Z) : NM unit :=
  modify (λ s, Nskb (nb_buf s) (nb_data s + len) (nb_tail s) (u32 (nb_len s - len))).
Definition skb_pull (len : Z) : NM unit := λ s,
  if nb_len s <? len then Done (tt, s) else __skb_pull len s.

(** ** State *)

(** What the driver does on the next polls of its queue and transmissions. *)
Inductive txev := TxStopped | TxBusy (err : Z) | TxOk.

Record ndev := NDev {
  nd_ifindex : Z;
  nd_refcnt : Z;
  nd_addr : list Z;
  nd_broadcast : list Z;
  nd_tx : list txev;
  nd_sent : list (list Z);       (* the packets the driver accepted *)
}.

Record eskb := ESkb {
  es_bytes : nskb;
  es_block : loc;                (* the block of the data *)
  es_users : Z;
  es_dev : option loc;
  es_pkt_type : Z;
  es_mac : Z;                    (* mac.raw - head *)
}.

Section Net.
Context {A : Type} `{KitMemory A}.

Record netst := NetSt {
  skbs : gmap loc eskb;
  devs : gmap loc ndev;
  dev_index_head : Z → list loc;
  dev_base : list loc;
  rx_cb : option Z;                       (* current_rx_callback *)
  rx_log : list (Z * Z * list Z);         (* calls: callback, ifindex, packet *)
  heap : A;
}.
Abbreviation EM := (M netst).

Definition with_skbs (h : gmap loc eskb) (s : netst) : netst :=
  NetSt h (devs s) (dev_index_head s) (dev_base s) (rx_cb s) (rx_log s) (heap s).
Definition with_devs (h : gmap loc ndev) (s : netst) : netst :=
  NetSt (skbs s) h (dev_index_head s) (dev_base s) (rx_cb s) (rx_log s) (heap s).
Definition with_heap (a : A) (s : netst) : netst :=
  NetSt (skbs s) (devs s) (dev_index_head s) (dev_base s) (rx_cb s) (rx_log s) a.
Definition with_log (l : list (Z * Z * list Z)) (s : netst) : netst :=
  NetSt (skbs s) (devs s) (dev_index_head s) (dev_base s) (rx_cb s) l (heap s).
Definition with_cb (c : option Z) (s : netst) : netst :=
  NetSt (skbs s) (devs s) (dev_index_head s) (dev_base s) c (rx_log s) (heap s).

Definition load_skb (l : loc) : EM eskb := λ s,
  match skbs s !! l with Some k => Done (k, s) | None => Fault FFreed end.
Definition store_skb (l : loc) (k : eskb) : EM unit := modify (λ s, with_skbs (<[l := k]> (skbs s)) s).
Definition load_dev (d : loc) : EM ndev := λ s,
  match devs s !! d with Some k => Done (k, s) | None => Fault FFreed end.
Definition store_dev (d : loc) (k : ndev) : EM unit := modify (λ s, with_devs (<[d := k]> (devs s)) s).

(** A buffer operation on the packet at [l]. *)
Definition in_skb {X} (l : loc) (m : NM X) : EM X :=
  k ← load_skb l;
  match m (es_bytes k) with
  | Fault e => fail e
  | Done (x, b) => store_skb l (ESkb b (es_block k) (es_users k) (es_dev k) (es_pkt_type k) (es_mac k)) ;; mret x
  end.
Definition set_pkt_type (l : loc) (t : Z) : EM unit :=
  k ← load_skb l; store_skb l (ESkb (es_bytes k) (es_block k) (es_users k) (es_dev k) t (es_mac k)).

(** ** Allocation *)

Definition SKB_DATA_ALIGN (x : Z) : Z := Z.land (u32 (x + (SMP_CACHE_BYTES - 1))) (2 ^ 32 - SMP_CACHE_BYTES).

(** [alloc_skb]: the head from a cache, then the data; what fresh data holds is
    [junk]. *)
Definition alloc_skb (junk : Z → list Z) (size : Z) : EM (option loc) := λ s,
  match kit_malloc (heap s) with
  | None => Done (None, s)
  | Some (l, a1) =>
      match kit_malloc a1 with
      | None => Done (None, with_heap (kit_free l a1) s)
      | Some (d, a2) =>
          let k := ESkb (Nskb (junk (SKB_DATA_ALIGN size)) 0 0 0) d 1 None PACKET_HOST 0 in
          Done (Some l, with_heap a2 (with_skbs (<[l := k]> (skbs s)) s))
      end
  end.

Definition kfree_skb (l : loc) : EM unit :=
  k ← load_skb l;
  if es_users k =? 1
  then modify (λ s, with_heap (kit_free l (kit_free (es_block k) (heap s))) (with_skbs (delete l (skbs s)) s))
  else
    let n := es_users k - 1 in
    store_skb l (ESkb (es_bytes k) (es_block k) n (es_dev k) (es_pkt_type k) (es_mac k)) ;;
    if n =? 0
    then modify (λ s, with_heap (kit_free l (kit_free (es_block k) (heap s))) (with_skbs (delete l (skbs s)) s))
    else mret tt.

(** ** Devices (dev.c, netdevice.h) *)

Definition dev_hold (d : loc) : EM unit :=
  k ← load_dev d;
  store_dev d (NDev (nd_ifindex k) (s32 (nd_refcnt k + 1)) (nd_addr k) (nd_broadcast k) (nd_tx k) (nd_sent k)).
Definition dev_put (d : loc) : EM unit :=
  k ← load_dev d;
  store_dev d (NDev (nd_ifindex k) (s32 (nd_refcnt k - 1)) (nd_addr k) (nd_broadcast k) (nd_tx k) (nd_sent k)).

Definition dev_index_hash (ifindex : Z) : Z := Z.land ifindex 255.
Fixpoint index_loop (l : list loc) (ifindex : Z) : EM (option loc) :=
  match l with
  | [] => mret None
  | d :: l => k ← load_dev d; if nd_ifindex k =? ifindex then mret (Some d) else index_loop l ifindex
  end.
Definition __dev_get_by_index (ifindex : Z) : EM (option loc) :=
  b ← gets (λ s, dev_index_head s (dev_index_hash ifindex)); index_loop b ifindex.
Definition dev_get_by_index (ifindex : Z) : EM (option loc) :=
  r ← __dev_get_by_index ifindex;
  match r with Some d => dev_hold d ;; mret (Some d) | None => mret None end.

(** One poll of [netif_queue_stopped]. *)
Definition netif_queue_stopped (d : loc) : EM bool :=
  k ← load_dev d;
  match nd_tx k with
  | TxStopped :: t =>
      store_dev d (NDev (nd_ifindex k) (nd_refcnt k) (nd_addr k) (nd_broadcast k) t (nd_sent k)) ;; mret true
  | _ => mret false
  end.
(** [dev->hard_start_xmit(skb, dev)]: a driver that accepts the packet sends its
    bytes and frees the buffer. *)
Definition hard_start_xmit (l d : loc) : EM Z :=
  k ← load_dev d;
  match nd_tx k with
  | TxOk :: t =>
      p ← in_skb l (λ b, rdb (nb_data b) (nb_len b) b);
      store_dev d (NDev (nd_ifindex k) (nd_refcnt k) (nd_addr k) (nd_broadcast k) t (nd_sent k ++ [p])) ;;
      kfree_skb l ;; mret 0
  | TxBusy e :: t =>
      store_dev d (NDev (nd_ifindex k) (nd_refcnt k) (nd_addr k) (nd_broadcast k) t (nd_sent k)) ;; mret e
  | _ => fail FHang
  end.

(** ** Receiving *)

Definition ntohs (x : Z) : Z := x mod 256 * 256 + x / 256.
Definition htons (x : Z) : Z := ntohs x.

Definition is_multicast_ether_addr (a : list Z) : bool := negb (Z.land 1 (nth 0 a 0) =? 0).
(** 0 if the addresses are equal *)
Definition compare_ether_addr (a b : list Z) : Z :=
  bool2Z (negb (Z.lor (Z.lor (Z.lxor (le16 (sub a 0 2)) (le16 (sub b 0 2)))
                             (Z.lxor (le16 (sub a 2 2)) (le16 (sub b 2 2))))
                      (Z.lxor (le16 (sub a 4 2)) (le16 (sub b 4 2))) =? 0)).

Definition eth_type_trans (l d : loc) : EM Z :=
  k ← load_skb l;
  let mac := nb_data (es_bytes k) in
  store_skb l (ESkb (es_bytes k) (es_block k) (es_users k) (es_dev k) (es_pkt_type k) mac) ;;
  in_skb l (skb_pull ETH_HLEN) ;;
  h_dest ← in_skb l (rdb mac ETH_ALEN);
  dev ← load_dev d;
  (if is_multicast_ether_addr h_dest
   then set_pkt_type l (if compare_ether_addr h_dest (nd_broadcast dev) =? 0 then PACKET_BROADCAST else PACKET_MULTICAST)
   else if compare_ether_addr h_dest (nd_addr dev) =? 0 then mret tt else set_pkt_type l PACKET_OTHERHOST) ;;
  h_proto ← in_skb l (ld16 (mac + 12));
  if 1536 <=? ntohs h_proto then mret h_proto else
  raw ← in_skb l (λ b, ld16 (nb_data b) b);
  mret (if raw =? 0xFFFF then htons ETH_P_802_3 else htons ETH_P_802_2).

Definition dde_linux26_do_rx_callback (l : loc) : EM Z :=
  in_skb l (skb_push ETH_HLEN) ;;
  cb ← gets rx_cb;
  match cb with
  | None => mret tt
  | Some f =>
      k ← load_skb l;
      match es_dev k with
      | None => fail FNull
      | Some d =>
          dev ← load_dev d;
          p ← in_skb l (λ b, rdb (nb_data b) (nb_len b) b);
          modify (λ s, with_log (rx_log s ++ [(f, nd_ifindex dev, p)]) s)
      end
  end ;;
  kfree_skb l ;;
  mret NET_RX_SUCCESS.

(** [netif_rx] and [netif_receive_skb] of the port *)
Definition netif_rx (l : loc) : EM Z := dde_linux26_do_rx_callback l.

(** A driver that has received a frame: [skb->protocol = eth_type_trans(skb, dev);
    netif_rx(skb)]. *)
Definition driver_rx (l d : loc) : EM Z := p ← eth_type_trans l d; netif_rx l ;; mret p.

(** ** The client's functions *)

(** [while (netif_queue_stopped(dev)) udelay(1000)] and the loop around
    [hard_start_xmit]; [fuel] bounds the polls and attempts. *)
Fixpoint xmit_loop (fuel : nat) (l d : loc) : EM unit :=
  match fuel with
  | O => fail FFuel
  | S fuel =>
      stopped ← netif_queue_stopped d;
      if (stopped : bool) then xmit_loop fuel l d else
      xmit ← hard_start_xmit l d;
      if xmit =? 0 then mret tt else xmit_loop fuel l d
  end.

(** The buffer gets the packet. *)
Definition prepare_skb (skb dev : loc) (packet : list Z) (packet_len : Z) : EM unit :=
  in_skb skb (skb_put packet_len) ;;
  k ← load_skb skb;
  store_skb skb (ESkb (es_bytes k) (es_block k) (es_users k) (Some dev) (es_pkt_type k) (es_mac k)) ;;
  in_skb skb (λ b, copy_in (nb_data b) packet packet_len b).

Definition dde_linux26_net_tx (fuel : nat) (junk : Z → list Z) (if_index : Z) (packet : list Z) (packet_len : Z) : EM Z :=
  r ← dev_get_by_index (s32 if_index);
  match r with
  | None => mret (-1)
  | Some dev =>
      r ← alloc_skb junk packet_len;
      match r with
      | None => mret (-1)
      | Some skb =>
          prepare_skb skb dev packet packet_len ;;
          xmit_loop fuel skb dev ;;
          dev_put dev ;;
          mret 0
      end
  end.

Definition dde_linux26_net_register_rx_callback (cb : option Z) : EM (option Z) :=
  old ← gets rx_cb; modify (with_cb cb) ;; mret old.

Definition dde_linux26_net_get_mac_addr (if_index : Z) : EM (Z * list Z) :=
  r ← dev_get_by_index (s32 if_index);
  match r with
  | None => mret (-1, [])
  | Some d => k ← load_dev d; mret (0, take (Z.to_nat ETH_ALEN) (nd_addr k))
  end.

(** [dde_linux26_net_init] opens every device; [dev_open] is a parameter. *)
Fixpoint open_loop (dev_open : loc → EM Z) (l : list loc) (cnt : Z) : EM Z :=
  match l with
  | [] => mret cnt
  | d :: l => err ← dev_open d; open_loop dev_open l (if err =? 0 then cnt + 1 else cnt)
  end.
Definition dde_linux26_net_init (dev_open : loc → EM Z) : EM Z :=
  l ← gets dev_base; open_loop dev_open l 0.

(** ** Receiving hands out the frame *)

(** The bytes of the packet at [l]. *)
Definition packet_of (k : eskb) : list Z := sub (nb_buf (es_bytes k)) (nb_data (es_bytes k)) (nb_len (es_bytes k)).

(** The state in which the packet at [l] is [k]. *)
Definition at_skb (l : loc) (k : eskb) (s : netst) : netst := with_skbs (<[l := k]> (skbs s)) s.

Definition with_bytes (b : nskb) (k : eskb) : eskb :=
  ESkb b (es_block k) (es_users k) (es_dev k) (es_pkt_type k) (es_mac k).

Lemma at_skb_start s l k : skbs s !! l = Some k → s = at_skb l k s.
Proof. intros E. unfold at_skb, with_skbs. rewrite insert_id by done. by destruct s. Qed.
Lemma load_at l k s : load_skb l (at_skb l k s) = Done (k, at_skb l k s).
Proof. unfold load_skb, at_skb. cbn. by rewrite lookup_insert_eq. Qed.
Lemma store_at l k k' s : store_skb l k' (at_skb l k s) = Done (tt, at_skb l k' s).
Proof. unfold store_skb, at_skb, modify. cbn. by rewrite insert_insert_eq. Qed.
Lemma in_skb_at {X} l k s (m : NM X) x b : m (es_bytes k) = Done (x, b) →
  in_skb l m (at_skb l k s) = Done (x, at_skb l (with_bytes b k) s).
Proof. intros Hm. unfold in_skb. run_simpl. rewrite load_at. cbn beta iota. rewrite Hm. by rewrite store_at. Qed.
Lemma in_skb_read {X} l k s (m : NM X) x : m (es_bytes k) = Done (x, es_bytes k) →
  in_skb l m (at_skb l k s) = Done (x, at_skb l k s).
Proof. intros Hm. rewrite (in_skb_at l k s m x _ Hm). by destruct k. Qed.
Lemma load_dev_at l k s d dv : devs s !! d = Some dv → load_dev d (at_skb l k s) = Done (dv, at_skb l k s).
Proof. intros E. unfold load_dev, at_skb. cbn. by rewrite E. Qed.

(** An skb that only this path uses, with a whole Ethernet header. *)
Record frame_ok (s : netst) (l d : loc) (k : eskb) : Prop := {
  fr_skb : skbs s !! l = Some k;
  fr_dev : es_dev k = Some d;
  fr_live : is_Some (devs s !! d);
  fr_users : es_users k = 1;
  fr_data : 0 ≤ nb_data (es_bytes k);
  fr_len : ETH_HLEN ≤ nb_len (es_bytes k) < 2 ^ 32;
  fr_room : nb_data (es_bytes k) + nb_len (es_bytes k) ≤ zlen (nb_buf (es_bytes k));
  fr_pad : nb_data (es_bytes k) + 16 ≤ zlen (nb_buf (es_bytes k));
}.

(** What [eth_type_trans] leaves of the packet. *)
Definition pulled (k k' : eskb) : Prop :=
  es_bytes k' = Nskb (nb_buf (es_bytes k)) (nb_data (es_bytes k) + ETH_HLEN) (nb_tail (es_bytes k))
                     (nb_len (es_bytes k) - ETH_HLEN) ∧
  es_block k' = es_block k ∧ es_users k' = es_users k ∧ es_dev k' = es_dev k.

Lemma set_pkt_type_at l k s t : set_pkt_type l t (at_skb l k s) =
  Done (tt, at_skb l (ESkb (es_bytes k) (es_block k) (es_users k) (es_dev k) t (es_mac k)) s).
Proof. unfold set_pkt_type. run_simpl. rewrite load_at. cbn beta iota. by rewrite store_at. Qed.

Lemma eth_type_trans_pulls s l d k : frame_ok s l d k →
  ∃ p k', eth_type_trans l d s = Done (p, at_skb l k' s) ∧ pulled k k'.
Proof.
  intros [Hk Hd [dv Hdv] Hu Hp Hl Hr Hpad]. unfold ETH_HLEN in *. 
  replace (eth_type_trans l d s) with (eth_type_trans l d (at_skb l k s)) by (by rewrite <- (at_skb_start s l k Hk)).
  unfold eth_type_trans. run_simpl. rewrite load_at. cbn beta iota. rewrite store_at. cbn beta iota.
  set (b := es_bytes k) in *. set (b1 := Nskb (nb_buf b) (nb_data b + 14) (nb_tail b) (nb_len b - 14)).
  rewrite (in_skb_at l _ s (skb_pull ETH_HLEN) tt b1).
  2: { unfold skb_pull, __skb_pull, modify, ETH_HLEN. cbn [es_bytes]. fold b. destruct (Z.ltb_spec (nb_len b) 14); [lia|].
       rewrite u32_small by lia. done. }
  cbn beta iota. rewrite (in_skb_read l _ s (rdb (nb_data b) ETH_ALEN) (sub (nb_buf b) (nb_data b) ETH_ALEN)).
  2: { cbn. apply (rdb_done b1); unfold ETH_ALEN; cbn; lia. }
  cbn beta iota. rewrite (load_dev_at l _ s d dv Hdv). cbn beta iota.
  set (kk := with_bytes b1 _).
  assert (Hset : ∀ m : EM unit, m = mret tt ∨ (∃ t, m = set_pkt_type l t) →
    ∃ k2, m (at_skb l kk s) = Done (tt, at_skb l k2 s) ∧ es_bytes k2 = b1 ∧ pulled k k2).
  { intros m [->|[t ->]]; [exists kk; done|]. rewrite set_pkt_type_at. eexists. split; [done|]. done. }
  match goal with |- context [if is_multicast_ether_addr ?x then ?a else ?c] =>
    destruct (Hset (if is_multicast_ether_addr x then a else c)) as (k2 & E2 & Eb & Hpl) end.
  { repeat case_match; eauto. }
  rewrite E2. cbn beta iota. rewrite (in_skb_read l k2 s _ (le16 (sub (nb_buf b) (nb_data b + 12) 2))).
  2: { rewrite Eb. apply (ld16_done b1); cbn; lia. }
  cbn beta iota. clear E2 Hset. destruct (1536 <=? _); [eauto|]. cbn beta.
  rewrite (in_skb_read l k2 s _ (le16 (sub (nb_buf b) (nb_data b + 14) 2))).
  2: { rewrite Eb. apply (ld16_done b1); cbn; lia. }
  cbn beta iota. eauto.
Qed.

(** The receive callback of a packet whose header was pulled. *)
Lemma rx_callback_delivers s l d dv k k' f : frame_ok s l d k → pulled k k' → devs s !! d = Some dv → rx_cb s = Some f →
  dde_linux26_do_rx_callback l (at_skb l k' s) =
    Done (NET_RX_SUCCESS, with_heap (kit_free l (kit_free (es_block k) (heap s)))
            (with_log (rx_log s ++ [(f, nd_ifindex dv, packet_of k)]) (with_skbs (delete l (skbs s)) s))).
Proof.
  intros [Hk Hd _ Hu Hp Hl Hr Hpad] (Eb & Ebl & Eu & Ed) Hdv Hf. unfold ETH_HLEN in *.
  unfold dde_linux26_do_rx_callback. run_simpl.
  rewrite (in_skb_at l k' s (skb_push ETH_HLEN) tt (es_bytes k)).
  2: { rewrite Eb. unfold skb_push, ETH_HLEN. cbn. rewrite Z.add_simpl_r, Z.sub_add, u32_small by lia.
       destruct (Z.ltb_spec (nb_data (es_bytes k)) 0); [lia|]. by destruct (es_bytes k). }
  cbn beta iota. replace (rx_cb _) with (Some f) by (symmetry; exact Hf). cbn beta iota. rewrite load_at. cbn beta iota.
  cbn [es_dev with_bytes]. rewrite Ed, Hd. cbn beta iota. rewrite (load_dev_at _ _ _ _ _ Hdv). cbn beta iota.
  rewrite (in_skb_read l _ s _ (packet_of k)).
  2: { cbn [es_bytes with_bytes]. apply rdb_done; lia. }
  cbn beta iota. unfold kfree_skb, load_skb. run_simpl. cbn [skbs with_log at_skb with_skbs]. rewrite lookup_insert_eq.
  cbn beta iota. cbn [es_users es_block with_bytes]. rewrite Eu, Hu, Ebl. cbn [Z.eqb Pos.eqb]. cbn beta iota.
  unfold with_heap, with_log, with_skbs, at_skb. cbn. by rewrite delete_insert_eq.
Qed.
(** ** Sending *)

Definition with_tx (t : list txev) (sent : list (list Z)) (k : ndev) : ndev :=
  NDev (nd_ifindex k) (nd_refcnt k) (nd_addr k) (nd_broadcast k) t sent.
Definition with_refcnt (n : Z) (k : ndev) : ndev :=
  NDev (nd_ifindex k) n (nd_addr k) (nd_broadcast k) (nd_tx k) (nd_sent k).

(** The driver does not accept the packet on these polls and attempts. *)
Definition refuses (e : txev) : bool :=
  match e with TxStopped => true | TxBusy err => negb (err =? 0) | TxOk => false end.

(** The state in which device [d] is [k]. *)
Definition at_dev (d : loc) (k : ndev) (s : netst) : netst := with_devs (<[d := k]> (devs s)) s.
Lemma at_dev_start s d k : devs s !! d = Some k → at_dev d k s = s.
Proof. intros E. unfold at_dev, with_devs. rewrite insert_id by done. by destruct s. Qed.
Lemma load_dev_eq d k s : load_dev d (at_dev d k s) = Done (k, at_dev d k s).
Proof. unfold load_dev, at_dev. cbn. by rewrite lookup_insert_eq. Qed.
Lemma store_dev_eq d k k' s : store_dev d k' (at_dev d k s) = Done (tt, at_dev d k' s).
Proof. unfold store_dev, at_dev, modify. cbn. by rewrite insert_insert_eq. Qed.
Lemma at_dev_skb d l kd k s : at_dev d kd (at_skb l k s) = at_skb l k (at_dev d kd s).
Proof. done. Qed.

(** After the driver has taken the packet. *)
Definition sent_state (l d : loc) (k : eskb) (dv : ndev) (rest : list txev) (s : netst) : netst :=
  with_heap (kit_free l (kit_free (es_block k) (heap s)))
    (with_skbs (delete l (skbs s)) (at_dev d (with_tx rest (nd_sent dv ++ [packet_of k]) dv) s)).

Lemma xmit_loop_sends pre rest s l d k dv fuel :
  forallb refuses pre = true → nd_tx dv = pre ++ TxOk :: rest → (length pre < fuel)%nat →
  es_users k = 1 → 0 ≤ nb_data (es_bytes k) → 0 ≤ nb_len (es_bytes k) →
  nb_data (es_bytes k) + nb_len (es_bytes k) ≤ zlen (nb_buf (es_bytes k)) →
  xmit_loop fuel l d (at_dev d dv (at_skb l k s)) = Done (tt, sent_state l d k dv rest s).
Proof.
  intros Hpre Htx Hf Hu Hd Hl Hr. revert dv fuel Htx Hf. induction pre as [|e pre IH]; intros dv [|fuel] Htx Hf; try (cbn in Hf; lia).
  - cbn [xmit_loop]. unfold netif_queue_stopped, hard_start_xmit. run_simpl. rewrite load_dev_eq. cbn beta iota. rewrite Htx.
    cbn [app]. cbn beta iota. rewrite load_dev_eq. cbn beta iota. rewrite Htx. cbn [app]. cbn beta iota. rewrite at_dev_skb.
    rewrite (in_skb_read l k _ _ (packet_of k)) by (apply rdb_done; lia). cbn beta iota.
    rewrite <- at_dev_skb, store_dev_eq. cbn beta iota. unfold kfree_skb. run_simpl. rewrite at_dev_skb, load_at. cbn beta iota.
    rewrite Hu. cbn. unfold sent_state, at_dev, at_skb, with_skbs, with_devs, with_heap. cbn. by rewrite delete_insert_eq.
  - cbn [forallb] in Hpre. apply andb_prop in Hpre as [He Hpre]. cbn [xmit_loop]. unfold netif_queue_stopped, hard_start_xmit.
    run_simpl. rewrite load_dev_eq. cbn beta iota. rewrite Htx. cbn [app]. cbn in Hf.
    assert (Hrec : xmit_loop fuel l d (at_dev d (with_tx (pre ++ TxOk :: rest) (nd_sent dv) dv) (at_skb l k s)) =
      Done (tt, sent_state l d k dv rest s)).
    { rewrite (IH Hpre (with_tx (pre ++ TxOk :: rest) (nd_sent dv) dv)); [done|done|lia]. }
    destruct e as [|err|]; [| |done]; cbn beta iota.
    + rewrite store_dev_eq. cbn beta iota. exact Hrec.
    + rewrite load_dev_eq. cbn beta iota. rewrite Htx. cbn [app]. cbn beta iota. rewrite store_dev_eq. cbn beta iota.
      cbn in He. destruct (err =? 0); [done|]. exact Hrec.
Qed.

(** The device that the hash chain of [ifindex] leads to. *)
Definition find_dev (s : netst) (ifindex : Z) : option loc :=
  list_find (λ d, nd_ifindex <$> devs s !! d = Some ifindex) (dev_index_head s (dev_index_hash ifindex)) ≫= λ x, Some x.2.

Lemma index_loop_finds s ifindex l : (∀ d, d ∈ l → is_Some (devs s !! d)) →
  index_loop l ifindex s =
    Done (list_find (λ d, nd_ifindex <$> devs s !! d = Some ifindex) l ≫= λ x, Some x.2, s).
Proof.
  induction l as [|d l IH]; intros Hl; cbn [index_loop]; [done|]. run_simpl. unfold load_dev.
  destruct (Hl d) as [k Hk]; [set_solver|]. rewrite Hk. cbn beta iota. cbn [list_find]. rewrite Hk. cbn.
  destruct (Z.eqb_spec (nd_ifindex k) ifindex) as [E|E].
  - rewrite decide_True by congruence. done.
  - rewrite decide_False by congruence. rewrite IH by set_solver. by destruct (list_find _ l) as [[]|].
Qed.
Definition table_ok (s : netst) : Prop := ∀ b d, d ∈ dev_index_head s b → is_Some (devs s !! d).

Lemma dev_get_spec s ifindex : table_ok s →
  dev_get_by_index ifindex s =
    match find_dev s ifindex with
    | None => Done (None, s)
    | Some d => match devs s !! d with
                | Some dv => Done (Some d, at_dev d (with_refcnt (s32 (nd_refcnt dv + 1)) dv) s)
                | None => Fault FFreed
                end
    end.
Proof.
  intros Ht. unfold dev_get_by_index, __dev_get_by_index. run_simpl. rewrite index_loop_finds by apply Ht.
  fold (find_dev s ifindex). destruct (find_dev s ifindex) as [d|]; [|done]. unfold dev_hold, load_dev, store_dev. run_simpl.
  destruct (devs s !! d) as [dv|]; done.
Qed.

Lemma SKB_DATA_ALIGN_ge x : 0 ≤ x → x + 127 < 2 ^ 32 → x ≤ SKB_DATA_ALIGN x.
Proof.
  intros Hx Hb. unfold SKB_DATA_ALIGN, SMP_CACHE_BYTES. rewrite u32_small by lia. set (y := x + (128 - 1)).
  assert (E : Z.land y (2 ^ 32 - 128) = Z.shiftl (Z.shiftr y 7) 7).
  { apply Z.bits_inj'. intros i Hi. change (2 ^ 32 - 128) with (Z.shiftl (Z.ones 25) 7).
    rewrite Z.land_spec, !Z.shiftl_spec by lia. destruct (Z.ltb_spec i 7) as [H7|H7].
    - rewrite !(Z.testbit_neg_r _ (i - 7)) by lia. apply andb_false_r.
    - rewrite Z.shiftr_spec, Z.sub_add by lia. destruct (Z.ltb_spec i 32) as [H32|H32].
      + rewrite Z.ones_spec_low by lia. apply andb_true_r.
      + rewrite (testbit_high y) by (unfold y; lia). done. }
  rewrite E, Z.shiftl_mul_pow2, Z.shiftr_div_pow2 by lia. change (2 ^ 7) with 128. unfold y.
  pose proof (Z.div_mod (x + (128 - 1)) 128 ltac:(done)). pose proof (Z.mod_pos_bound (x + (128 - 1)) 128 ltac:(done)). lia.
Qed.

(** Filling a fresh buffer with the packet. *)
Lemma fill_skb s l d block bytes packet :
  zlen packet < 2 ^ 32 → zlen packet ≤ zlen bytes →
  ∃ k, prepare_skb l d packet (zlen packet)
         (at_skb l (ESkb (Nskb bytes 0 0 0) block 1 None PACKET_HOST 0) s) = Done (tt, at_skb l k s) ∧
    packet_of k = packet ∧ es_users k = 1 ∧ es_block k = block ∧ nb_data (es_bytes k) = 0 ∧
    nb_len (es_bytes k) = zlen packet ∧ zlen (nb_buf (es_bytes k)) = zlen bytes.
Proof.
  intros Hb Hl. pose proof (zlen_nonneg packet).
  set (b1 := Nskb bytes 0 (zlen packet) (zlen packet)).
  exists (ESkb (Nskb (splice bytes 0 packet) 0 (zlen packet) (zlen packet)) block 1 (Some d) PACKET_HOST 0). split.
  - unfold prepare_skb. run_simpl. rewrite (in_skb_at l _ s (skb_put (zlen packet)) 0 b1).
    2: { unfold skb_put. cbn [es_bytes nb_buf nb_data nb_tail nb_len]. rewrite !Z.add_0_l, u32_small by lia.
         destruct (Z.ltb_spec (zlen bytes) (zlen packet)); [lia|done]. }
    cbn beta iota. rewrite load_at. cbn beta iota. rewrite store_at. cbn beta iota.
    rewrite (in_skb_at l _ s _ tt (Nskb (splice bytes 0 packet) 0 (zlen packet) (zlen packet))); [done|].
    unfold copy_in. cbn [es_bytes with_bytes nb_data b1]. destruct (Z.ltb_spec (zlen packet) (zlen packet)); [lia|].
    rewrite take_ge by (unfold zlen; lia). rewrite wrb_done; [done|lia|cbn; lia].
  - unfold packet_of. cbn. rewrite sub_splice_eq, splice_length by lia. done.
Qed.
End Net.

(** A frame that a driver receives reaches the client unchanged: after
    [eth_type_trans], which hides the Ethernet header, [netif_rx] calls the
    client's callback once with the interface and the whole frame, and the buffer
    and its data are freed. *)
Theorem rx_frame_roundtrip {A : Type} `{KitMemory A} (s : netst (A := A)) (l d : loc) (dv : ndev) (k : eskb) (f : Z) :
  frame_ok s l d k → devs s !! d = Some dv → rx_cb s = Some f →
  ∃ p s', driver_rx l d s = Done (p, s') ∧ rx_log s' = rx_log s ++ [(f, nd_ifindex dv, packet_of k)] ∧
    skbs s' = delete l (skbs s) ∧ live (heap s') = live (heap s) ∖ {[l; es_block k]} ∧ devs s' = devs s.
Proof.
  intros Hf Hdv Hcb. destruct (eth_type_trans_pulls s l d k Hf) as (p & k' & E & Hp).
  eexists p, _. split.
  { unfold driver_rx, netif_rx. run_simpl. rewrite E. cbn beta iota. by rewrite (rx_callback_delivers s l d dv k k' f). }
  cbn. split; [done|]. split; [done|]. split; [|done]. rewrite !kit_free_live. set_solver.
Qed.

(** C41: [dde_linux26_net_tx] hands the packet to the driver exactly once and
    unchanged, after as many polls and attempts as the driver needs, frees the
    buffer and gives back its reference to the device.  For an unknown interface
    nothing changes; if no buffer can be allocated the reference is not given
    back. *)
Theorem net_tx_sends {A : Type} `{KitMemory A} (s : netst (A := A)) (fuel : nat) (junk : Z → list Z)
    (if_index : Z) (packet : list Z) :
  table_ok s → (∀ n, 0 ≤ n → zlen (junk n) = n) → zlen packet + 127 < 2 ^ 32 →
  match find_dev s (s32 if_index) with
  | None => dde_linux26_net_tx fuel junk if_index packet (zlen packet) s = Done (-1, s)
  | Some d => ∀ dv, devs s !! d = Some dv → - 2 ^ 31 ≤ nd_refcnt dv < 2 ^ 31 →
      if can_alloc 2 (heap s)
      then ∀ pre rest, nd_tx dv = pre ++ TxOk :: rest → forallb refuses pre = true → (length pre < fuel)%nat →
        ∃ s', dde_linux26_net_tx fuel junk if_index packet (zlen packet) s = Done (0, s') ∧
          devs s' = <[d := with_tx rest (nd_sent dv ++ [packet]) dv]> (devs s) ∧
          live (heap s') = live (heap s)
      else ∃ s', dde_linux26_net_tx fuel junk if_index packet (zlen packet) s = Done (-1, s') ∧
          devs s' = <[d := with_refcnt (s32 (nd_refcnt dv + 1)) dv]> (devs s)
  end.
Proof.
  intros Ht Hj Hp. pose proof (zlen_nonneg packet). destruct (find_dev s (s32 if_index)) as [d|] eqn:Ef.
  2: { unfold dde_linux26_net_tx. run_simpl. rewrite dev_get_spec, Ef by done. done. }
  intros dv Hdv Hrc. set (dv1 := with_refcnt (s32 (nd_refcnt dv + 1)) dv).
  assert (Eget : dev_get_by_index (s32 if_index) s = Done (Some d, at_dev d dv1 s)) by (by rewrite dev_get_spec, Ef, Hdv).
  cbn [can_alloc]. destruct (kit_malloc (heap s)) as [[l a1]|] eqn:E1.
  2: { eexists. split; [unfold dde_linux26_net_tx, alloc_skb; run_simpl; rewrite Eget; cbn; by rewrite E1|done]. }
  destruct (kit_malloc a1) as [[bl a2]|] eqn:E2.
  2: { eexists. split; [unfold dde_linux26_net_tx, alloc_skb; run_simpl; rewrite Eget; cbn; by rewrite E1, E2|done]. }
  intros pre rest Htx Hpre Hf.
  pose proof (SKB_DATA_ALIGN_ge (zlen packet) ltac:(lia) ltac:(lia)) as Ha.
  destruct (fill_skb (with_heap a2 (at_dev d dv1 s)) l d bl (junk (SKB_DATA_ALIGN (zlen packet))) packet)
    as (k & Ek & Hpk & Hu & Hbl & Hd & Hl & Hz); [lia|rewrite Hj; lia|]. rewrite Hj in Hz by lia.
  assert (Ex : xmit_loop fuel l d (at_skb l k (with_heap a2 (at_dev d dv1 s))) =
    Done (tt, sent_state l d k dv1 rest (with_heap a2 s))).
  { rewrite <- (xmit_loop_sends pre rest (with_heap a2 s) l d k dv1 fuel); [done|done|done|done|done|lia|lia|lia]. }
  assert (Eal : alloc_skb junk (zlen packet) (at_dev d dv1 s) =
    Done (Some l, at_skb l (ESkb (Nskb (junk (SKB_DATA_ALIGN (zlen packet))) 0 0 0) bl 1 None PACKET_HOST 0)
                    (with_heap a2 (at_dev d dv1 s)))).
  { unfold alloc_skb. cbn [heap at_dev with_devs]. by rewrite E1, E2. }
  eexists. split.
  - unfold dde_linux26_net_tx. run_simpl. rewrite Eget. cbn beta iota. rewrite Eal. cbn beta iota. rewrite Ek. cbn beta iota.
    rewrite Ex. cbn beta iota. unfold sent_state, dev_put. run_simpl. unfold load_dev. cbn [devs with_heap with_skbs at_dev with_devs].
    rewrite lookup_insert_eq. cbn beta iota. done.
  - cbn. rewrite insert_insert_eq, Hpk. split.
    + unfold with_tx, dv1. cbn. do 2 f_equal. by apply s32_inc_dec.
    + destruct (kit_malloc_fresh _ _ _ E1) as [Hl1 El1]. destruct (kit_malloc_fresh _ _ _ E2) as [Hl2 El2].
      rewrite !kit_free_live, Hbl, El2, El1. rewrite El1 in Hl2. apply leibniz_equiv. intros x. set_solver.
Qed.

(** A device with index 3 on its hash chain, whose driver first has a stopped
    queue, then is busy, then accepts; a received frame of 16 bytes with 14
    bytes of headroom at address 20, its data block is 21. *)
Definition demo_dev : ndev := NDev 3 1 [2; 0; 0; 0; 0; 1] [255; 255; 255; 255; 255; 255] [TxStopped; TxBusy 1; TxOk] [].
Definition demo_frame : list Z := [2; 0; 0; 0; 0; 1; 2; 0; 0; 0; 0; 9; 8; 0; 69; 70].
Definition demo_skb : eskb := ESkb (Nskb (replicate 14 7 ++ demo_frame) 14 30 16) 21%positive 1 (Some 5%positive) 0 0.
Definition demo_net : netst (A := pool) :=
  NetSt {[20%positive := demo_skb]} {[5%positive := demo_dev]} (λ b, if b =? 3 then [5%positive] else []) [5%positive]
    (Some 1) [] pool_empty.

Lemma rx_frame_roundtrip_witness :
  packet_of demo_skb = demo_frame ∧
  ∃ p s', driver_rx 20%positive 5%positive demo_net = Done (p, s') ∧ rx_log s' = [(1, 3, packet_of demo_skb)].
Proof.
  split; [reflexivity|].
  destruct (rx_frame_roundtrip demo_net 20%positive 5%positive demo_dev demo_skb 1) as (p & s' & E & Hl & _).
  - split; try reflexivity; try (cbn; lia); try (by exists demo_dev); try done.
  - reflexivity.
  - reflexivity.
  - exists p, s'. split; [exact E|exact Hl].
Defined.

Lemma net_tx_sends_witness :
  ∃ s', dde_linux26_net_tx 5 (λ n, replicate (Z.to_nat n) 0) 3 demo_frame (zlen demo_frame) demo_net = Done (0, s') ∧
    devs s' = <[5%positive := with_tx [] [demo_frame] demo_dev]> (devs demo_net) ∧
    live (heap s') = live (heap demo_net).
Proof.
  pose proof (net_tx_sends demo_net 5 (λ n, replicate (Z.to_nat n) 0) 3 demo_frame) as T.
  assert (E : find_dev demo_net (s32 3) = Some 5%positive) by (vm_compute; reflexivity). rewrite E in T.
  assert (Ha : can_alloc 2 (heap demo_net) = true) by (vm_compute; reflexivity). rewrite Ha in T.
  refine (T _ _ _ demo_dev eq_refl _ [TxStopped; TxBusy 1] [] eq_refl eq_refl _).
  - intros b x. cbn. destruct (b =? 3); intros Hx; [|by apply elem_of_nil in Hx].
    apply list_elem_of_singleton in Hx as ->. by exists demo_dev.
  - intros n Hn. unfold zlen. rewrite length_replicate. lia.
  - vm_compute. reflexivity.
  - cbn. lia.
  - cbn. lia.
Defined.

(** [dde_linux26_net_get_mac_addr] never gives back its reference to the
    device. *)
Theorem mac_addr_keeps_reference {A : Type} `{KitMemory A} (s : netst (A := A)) (if_index : Z) (d : loc) (dv : ndev) :
  table_ok s → find_dev s (s32 if_index) = Some d → devs s !! d = Some dv →
  ∃ s', dde_linux26_net_get_mac_addr if_index s = Done ((0, take 6 (nd_addr dv)), s') ∧
    devs s' = <[d := with_refcnt (s32 (nd_refcnt dv + 1)) dv]> (devs s).
Proof.
  intros Ht Ef Hd. eexists. split.
  - unfold dde_linux26_net_get_mac_addr. run_simpl. rewrite dev_get_spec, Ef, Hd by done. cbn beta iota.
    rewrite load_dev_eq. cbn beta iota. reflexivity.
  - done.
Qed.

(** A frame shorter than the Ethernet header: the header is not pulled but
    pushed, and the client is given the 14 bytes in front of the frame. *)
Theorem short_frame_shows_headroom :
  let k := ESkb (Nskb (replicate 14 7 ++ [1; 2; 3; 4] ++ replicate 28 0) 14 18 4) 21%positive 1 (Some 5%positive) 0 0 in
  let s : netst (A := pool) := with_skbs {[20%positive := k]} demo_net in
  match driver_rx 20%positive 5%positive s with
  | Done (_, s') => rx_log s' = [(1, 3, replicate 14 7 ++ [1; 2; 3; 4])]
  | Fault _ => False
  end.
Proof. vm_compute. reflexivity. Qed.
