(* ===== verification/Crc32.v ===== *)
(** Cyclic redundancy checks: lib/crc32.c, with the tables that
    lib/gen_crc32table.c generates.

    The code takes a byte at a time through a table of 256 words, aligns the
    pointer and then loads words; the big-endian variant runs the same loop on
    byte-swapped values, as the machine is little-endian.  Both are proved equal to
    the definition of the checksum, which divides bit by bit. *)

From S2P Require Import Prelude FindBit.

Definition CRCPOLY_LE : Z := 0xedb88320.
Definition CRCPOLY_BE : Z := 0x04c11db7.

(** ** The tables (gen_crc32table.c) *)

Definition crc_bit_le (crc : Z) : Z := Z.lxor (Z.shiftr crc 1) (if Z.land crc 1 =? 0 then 0 else CRCPOLY_LE).
Definition crc_bit_be (crc : Z) : Z :=
  Z.lxor (u32 (Z.shiftl crc 1)) (if Z.land crc 0x80000000 =? 0 then 0 else CRCPOLY_BE).

Definition set_entry (t : list Z) (i x : Z) : list Z := <[Z.to_nat i := x]> t.
Definition entry (t : list Z) (i : Z) : Z := nth (Z.to_nat i) t 0.

(** [for (j = 0; j < LE_TABLE_SIZE; j += 2 * i)]: [n] rounds from [j] *)
Fixpoint fill_le (n : nat) (i j crc : Z) (t : list Z) : list Z :=
  match n with
  | O => t
  | S n => if j <? 256 then fill_le n i (j + 2 * i) crc (set_entry t (i + j) (Z.lxor crc (entry t j))) else t
  end.
(** [for (i = 1 << (CRC_LE_BITS - 1); i; i >>= 1)] *)
Fixpoint init_le (n : nat) (i crc : Z) (t : list Z) : list Z :=
  match n with
  | O => t
  | S n => if i =? 0 then t else
           let crc := crc_bit_le crc in init_le n (Z.shiftr i 1) crc (fill_le 256 i 0 crc t)
  end.
Definition crc32init_le : list Z := init_le 9 128 1 (replicate 256 0).

(** [for (j = 0; j < i; j++)] *)
Fixpoint fill_be (n : nat) (i j crc : Z) (t : list Z) : list Z :=
  match n with
  | O => t
  | S n => if j <? i then fill_be n i (j + 1) crc (set_entry t (i + j) (Z.lxor crc (entry t j))) else t
  end.
(** [for (i = 1; i < BE_TABLE_SIZE; i <<= 1)] *)
Fixpoint init_be (n : nat) (i crc : Z) (t : list Z) : list Z :=
  match n with
  | O => t
  | S n => if i <? 256 then let crc := crc_bit_be crc in init_be n (Z.shiftl i 1) crc (fill_be 256 i 0 crc t)
           else t
  end.
Definition crc32init_be : list Z := init_be 9 1 0x80000000 (replicate 256 0).

(** [cpu_to_be32] *)
Definition bswap32 (x : Z) : Z :=
  Z.lor (Z.lor (Z.shiftl (Z.land x 0xff) 24) (Z.shiftl (Z.land x 0xff00) 8))
        (Z.lor (Z.shiftr (Z.land x 0xff0000) 8) (Z.shiftr (Z.land x 0xff000000) 24)).

Definition crc32table_le : list Z := Eval vm_compute in crc32init_le.
Definition crc32table_be : list Z := Eval vm_compute in map bswap32 crc32init_be.

(** ** The loop (crc32.c) *)

Section Loop.
Context (tab : list Z).

Definition DO_CRC (crc x : Z) : Z := Z.lxor (entry tab (Z.land (Z.lxor crc x) 255)) (Z.shiftr crc 8).

(** The loop that aligns the pointer [b]: the bytes left and the checksum. *)
Fixpoint align_loop (crc b : Z) (p : list Z) : Z * list Z :=
  match p with
  | [] => (crc, [])
  | x :: p =>
      let crc := DO_CRC crc x in
      if bool_decide (p = []) || (Z.land (b + 1) 3 =? 0) then (crc, p) else align_loop crc (b + 1) p
  end.
(** [while (--len)] over words *)
Fixpoint word_loop (crc : Z) (n : nat) (p : list Z) : Z * list Z :=
  match n, p with
  | S n, x0 :: x1 :: x2 :: x3 :: p =>
      let crc := Z.lxor crc (x0 + Z.shiftl (x1 + Z.shiftl (x2 + Z.shiftl x3 8) 8) 8) in
      word_loop (DO_CRC (DO_CRC (DO_CRC (DO_CRC crc 0) 0) 0) 0) n p
  | _, _ => (crc, p)
  end.
Fixpoint byte_loop (crc : Z) (p : list Z) : Z :=
  match p with [] => crc | x :: p => byte_loop (DO_CRC crc x) p end.

(** [b] is the address of the bytes [p]. *)
Definition crc_loop (crc b : Z) (p : list Z) : Z :=
  let '(crc, p) := if negb (Z.land b 3 =? 0) && negb (bool_decide (p = [])) then align_loop crc b p else (crc, p) in
  let '(crc, p) := if 4 <=? Z.of_nat (length p) then word_loop crc (length p / 4) p else (crc, p) in
  byte_loop crc p.

End Loop.

Definition crc32_le (crc b : Z) (p : list Z) : Z := crc_loop crc32table_le crc b p.
Definition crc32_be (crc b : Z) (p : list Z) : Z := bswap32 (crc_loop crc32table_be (bswap32 crc) b p).

(** ** The checksum bit by bit *)

Definition bits8 (f : Z → Z) (c : Z) : Z := f (f (f (f (f (f (f (f c))))))).
Definition crc_spec_le (crc : Z) (p : list Z) : Z := foldl (λ c x, bits8 crc_bit_le (Z.lxor c x)) crc p.
Definition crc_spec_be (crc : Z) (p : list Z) : Z :=
  foldl (λ c x, bits8 crc_bit_be (Z.lxor c (Z.shiftl x 24))) crc p.

Definition byte (x : Z) : Prop := 0 ≤ x < 256.

(** ** The loop takes one byte after the other *)

Lemma byte_high x i : byte x → 8 ≤ i → Z.testbit x i = false.
Proof.
  intros Hx Hi. unfold byte in Hx. destruct (decide (x = 0)) as [->|]; [apply Z.bits_0|].
  apply Z.bits_above_log2; [lia|]. assert (Z.log2 x < 8) by (apply Z.log2_lt_pow2; lia). lia.
Qed.

Lemma add_shiftl8 x y : byte x → 0 ≤ y → x + Z.shiftl y 8 = Z.lxor x (Z.shiftl y 8).
Proof.
  intros Hx Hy. apply Z.add_nocarry_lxor. apply Z.bits_inj'. intros i Hi. rewrite Z.land_spec, Z.bits_0, Z.shiftl_spec by lia.
  destruct (Z.ltb_spec i 8) as [H|H].
  - rewrite (Z.testbit_neg_r y) by lia. apply andb_false_r.
  - by rewrite (byte_high x).
Qed.

Lemma land_255 x : Z.land x 255 = x mod 256.
Proof. change 255 with (Z.ones 8). by rewrite Z.land_ones. Qed.

(** What is shifted in later does not matter for this byte. *)
Lemma DO_CRC_word tab crc x y : DO_CRC tab (Z.lxor crc (Z.lxor x (Z.shiftl y 8))) 0 =
  Z.lxor (DO_CRC tab (Z.lxor crc x) 0) y.
Proof.
  unfold DO_CRC. rewrite !Z.lxor_0_r. rewrite !Z.shiftr_lxor. rewrite (Z.shiftr_shiftl_l y 8 8), Z.shiftl_0_r by lia.
  replace (Z.land (Z.lxor crc (Z.lxor x (Z.shiftl y 8))) 255) with (Z.land (Z.lxor crc x) 255).
  - by rewrite !Z.lxor_assoc.
  - apply Z.bits_inj'. intros i Hi. change 255 with (Z.ones 8). rewrite !Z.land_spec, !Z.lxor_spec, Z.shiftl_spec by lia.
    destruct (Z.ltb_spec i 8) as [H|H]; [|rewrite Z.ones_spec_high by lia; by rewrite !andb_false_r].
    rewrite (Z.testbit_neg_r y) by lia. by rewrite xorb_false_r.
Qed.

Lemma DO_CRC_byte tab crc x : byte x → DO_CRC tab (Z.lxor crc x) 0 = DO_CRC tab crc x.
Proof.
  intros Hx. unfold DO_CRC. rewrite Z.lxor_0_r, Z.shiftr_lxor. f_equal.
  rewrite (Z.shiftr_div_pow2 x) by lia. change (2 ^ 8) with 256. rewrite (Z.div_small x) by apply Hx. apply Z.lxor_0_r.
Qed.

Lemma word_step tab crc x0 x1 x2 x3 : byte x0 → byte x1 → byte x2 → byte x3 →
  DO_CRC tab (DO_CRC tab (DO_CRC tab (DO_CRC tab
    (Z.lxor crc (x0 + Z.shiftl (x1 + Z.shiftl (x2 + Z.shiftl x3 8) 8) 8)) 0) 0) 0) 0 =
  DO_CRC tab (DO_CRC tab (DO_CRC tab (DO_CRC tab crc x0) x1) x2) x3.
Proof.
  intros H0 H1 H2 H3. assert (Hs : ∀ x, 0 ≤ x → 0 ≤ Z.shiftl x 8) by (intros; by apply Z.shiftl_nonneg).
  assert (0 ≤ x3) by apply H3. assert (0 ≤ x2) by apply H2. assert (0 ≤ x1) by apply H1. specialize (Hs x3) as Hs3.
  assert (Hs2 : 0 ≤ x2 + Z.shiftl x3 8) by (specialize (Hs x3); lia).
  assert (Hs1 : 0 ≤ x1 + Z.shiftl (x2 + Z.shiftl x3 8) 8) by (specialize (Hs (x2 + Z.shiftl x3 8)); lia).
  rewrite (add_shiftl8 x0) by done. rewrite DO_CRC_word. rewrite (add_shiftl8 x1) by done. rewrite DO_CRC_word.
  rewrite (add_shiftl8 x2) by done. rewrite DO_CRC_word. by rewrite !DO_CRC_byte.
Qed.

Lemma byte_loop_foldl tab crc p : byte_loop tab crc p = foldl (DO_CRC tab) crc p.
Proof. revert crc. induction p as [|x p IH]; intros crc; [done|]. apply IH. Qed.

Lemma align_loop_foldl tab p crc b :
  let '(crc', p') := align_loop tab crc b p in
  foldl (DO_CRC tab) crc p = foldl (DO_CRC tab) crc' p' ∧ ∃ q, p = q ++ p'.
Proof.
  revert crc b. induction p as [|x p IH]; intros crc b; cbn [align_loop]; [split; [done|by exists []]|].
  destruct (_ || _); [split; [done|by exists [x]]|]. specialize (IH (DO_CRC tab crc x) (b + 1)).
  destruct (align_loop tab (DO_CRC tab crc x) (b + 1) p) as [crc' p']. destruct IH as [IH [q ->]]. split; [exact IH|].
  by exists (x :: q).
Qed.

Lemma word_loop_foldl tab n p crc : Forall byte p →
  let '(crc', p') := word_loop tab crc n p in foldl (DO_CRC tab) crc p = foldl (DO_CRC tab) crc' p'.
Proof.
  revert p crc. induction n as [|n IH]; intros p crc Hp; [by destruct p|].
  destruct p as [|x0 [|x1 [|x2 [|x3 p]]]]; try done. cbn [word_loop].
  do 4 (apply list.Forall_cons in Hp; destruct Hp as [? Hp]). rewrite word_step by done.
  exact (IH p (DO_CRC tab (DO_CRC tab (DO_CRC tab (DO_CRC tab crc x0) x1) x2) x3) Hp).
Qed.

Lemma crc_loop_foldl tab crc b p : Forall byte p → crc_loop tab crc b p = foldl (DO_CRC tab) crc p.
Proof.
  intros Hp. unfold crc_loop.
  assert (H1 : let '(c, q) := if negb (Z.land b 3 =? 0) && negb (bool_decide (p = [])) then align_loop tab crc b p else (crc, p) in
    foldl (DO_CRC tab) crc p = foldl (DO_CRC tab) c q ∧ Forall byte q).
  { destruct (_ && _); [|done]. pose proof (align_loop_foldl tab p crc b) as H. destruct (align_loop tab crc b p) as [c q].
    destruct H as [H [r ->]]. split; [done|]. by apply list.Forall_app in Hp as [_ ?]. }
  revert H1. destruct (if negb (Z.land b 3 =? 0) && negb (bool_decide (p = [])) then align_loop tab crc b p else (crc, p)) as [c q].
  intros [-> Hq].
  destruct (4 <=? _); [|apply byte_loop_foldl].
  pose proof (word_loop_foldl tab (length q / 4) q c Hq) as H2. destruct (word_loop tab c (length q / 4) q) as [c' q'].
  rewrite H2. apply byte_loop_foldl.
Qed.

(** ** The tables hold eight bit steps *)

Lemma land_pow2_eqb c k : 0 ≤ k → (Z.land c (2 ^ k) =? 0) = negb (Z.testbit c k).
Proof.
  intros Hk. destruct (Z.testbit c k) eqn:E; cbn [negb].
  - apply Z.eqb_neq. intros H. apply (f_equal (λ z, Z.testbit z k)) in H.
    by rewrite Z.land_spec, E, Z.pow2_bits_true, Z.bits_0 in H.
  - apply Z.eqb_eq. apply Z.bits_inj'. intros i Hi. rewrite Z.land_spec, Z.bits_0, Z.pow2_bits_eqb by done.
    destruct (Z.eqb_spec k i) as [<-|]; [by rewrite E|apply andb_false_r].
Qed.

(** The polynomial is added if a bit is set. *)
Lemma lxor_select x y P (a b : bool) :
  Z.lxor (Z.lxor x y) (if negb (xorb a b) then 0 else P) =
  Z.lxor (Z.lxor x (if negb a then 0 else P)) (Z.lxor y (if negb b then 0 else P)).
Proof.
  destruct a, b; cbn [xorb negb]; rewrite ?Z.lxor_0_r; try done.
  - rewrite (Z.lxor_comm y), Z.lxor_assoc, <- (Z.lxor_assoc P), Z.lxor_nilpotent. by rewrite Z.lxor_0_l.
  - by rewrite !Z.lxor_assoc, (Z.lxor_comm y).
  - by rewrite Z.lxor_assoc.
Qed.

Lemma crc_bit_le_lxor a b : crc_bit_le (Z.lxor a b) = Z.lxor (crc_bit_le a) (crc_bit_le b).
Proof.
  unfold crc_bit_le. rewrite Z.shiftr_lxor.
  assert (Hb : ∀ c, (Z.land c 1 =? 0) = negb (Z.testbit c 0)) by (intros c; by apply (land_pow2_eqb c 0)).
  rewrite !Hb, Z.lxor_spec. apply lxor_select.
Qed.

Lemma bits8_lxor f a b : (∀ x y, f (Z.lxor x y) = Z.lxor (f x) (f y)) →
  bits8 f (Z.lxor a b) = Z.lxor (bits8 f a) (bits8 f b).
Proof. intros H. unfold bits8. by rewrite !H. Qed.

Lemma crc_bit_le_double z : crc_bit_le (2 * z) = z.
Proof.
  unfold crc_bit_le. replace (Z.land (2 * z) 1) with 0.
  - cbn [Z.eqb]. rewrite Z.lxor_0_r, Z.shiftr_div_pow2 by done. change (2 ^ 1) with 2. rewrite Z.mul_comm. by apply Z.div_mul.
  - change 1 with (Z.ones 1). rewrite Z.land_ones by done. change (2 ^ 1) with 2. rewrite Z.mul_comm. by rewrite Z.mod_mul.
Qed.

Lemma bits8_le_shift y : bits8 crc_bit_le (Z.shiftl y 8) = y.
Proof.
  rewrite Z.shiftl_mul_pow2 by done. unfold bits8.
  replace (y * 2 ^ 8) with (2 * (2 * (2 * (2 * (2 * (2 * (2 * (2 * y)))))))) by lia. by rewrite !crc_bit_le_double.
Qed.

Lemma split_low x k : 0 ≤ k → x = Z.lxor (Z.land x (Z.ones k)) (Z.shiftl (Z.shiftr x k) k).
Proof.
  intros Hk. apply Z.bits_inj'. intros i Hi. rewrite Z.lxor_spec, Z.land_spec, Z.shiftl_spec by lia.
  destruct (Z.ltb_spec i k).
  - rewrite Z.ones_spec_low, (Z.testbit_neg_r (Z.shiftr x k)) by lia. by rewrite andb_true_r, xorb_false_r.
  - rewrite Z.ones_spec_high, Z.shiftr_spec, Z.sub_add by lia. by rewrite andb_false_r.
Qed.

(** A statement about every byte, checked by evaluation. *)
Lemma for_all_bytes (P : Z → bool) : forallb (λ n, P (Z.of_nat n)) (seq 0 256) = true → ∀ x, byte x → P x = true.
Proof.
  intros H x Hx. unfold byte in Hx. rewrite forallb_forall in H. specialize (H (Z.to_nat x)). rewrite Z2Nat.id in H by lia.
  apply H, in_seq. lia.
Qed.

Lemma table_le i : byte i → entry crc32table_le i = bits8 crc_bit_le i.
Proof.
  intros Hi. apply Z.eqb_eq. revert i Hi. apply for_all_bytes. vm_compute. reflexivity.
Qed.

Lemma byte_land x : byte (Z.land x 255).
Proof. rewrite land_255. unfold byte. by apply Z.mod_pos_bound. Qed.

Lemma DO_CRC_le c x : byte x → DO_CRC crc32table_le c x = bits8 crc_bit_le (Z.lxor c x).
Proof.
  intros Hx. unfold DO_CRC. rewrite table_le by apply byte_land. rewrite (split_low (Z.lxor c x) 8) at 2 by done.
  rewrite (bits8_lxor crc_bit_le _ _ crc_bit_le_lxor), bits8_le_shift. f_equal.
  rewrite Z.shiftr_lxor, (Z.shiftr_div_pow2 x) by done. change (2 ^ 8) with 256. rewrite (Z.div_small x) by apply Hx.
  by rewrite Z.lxor_0_r.
Qed.

(** ** The big-endian table *)

Lemma u32_lxor a b : u32 (Z.lxor a b) = Z.lxor (u32 a) (u32 b).
Proof.
  unfold u32, wrap. rewrite <- !Z.land_ones by done. apply Z.bits_inj'. intros i Hi.
  rewrite !Z.land_spec, !Z.lxor_spec, !Z.land_spec. by destruct (Z.testbit (Z.ones 32) i), (Z.testbit a i), (Z.testbit b i).
Qed.

Lemma crc_bit_be_lxor a b : crc_bit_be (Z.lxor a b) = Z.lxor (crc_bit_be a) (crc_bit_be b).
Proof.
  unfold crc_bit_be. rewrite Z.shiftl_lxor, u32_lxor. change 0x80000000 with (2 ^ 31).
  rewrite !land_pow2_eqb, Z.lxor_spec by done. apply lxor_select.
Qed.

Lemma crc_bit_be_double z : 0 ≤ z < 2 ^ 31 → crc_bit_be z = 2 * z.
Proof.
  intros Hz. unfold crc_bit_be. change 0x80000000 with (2 ^ 31). rewrite land_pow2_eqb by done.
  assert (E : Z.testbit z 31 = false).
  { destruct (decide (z = 0)) as [->|]; [done|]. apply Z.bits_above_log2; [lia|]. apply Z.log2_lt_pow2; lia. }
  rewrite E. cbn [negb]. rewrite Z.lxor_0_r, Z.shiftl_mul_pow2, u32_small by lia. lia.
Qed.

Lemma bits8_be_low z : 0 ≤ z < 2 ^ 24 → bits8 crc_bit_be z = Z.shiftl z 8.
Proof.
  intros Hz. assert (H : ∀ k, 0 ≤ k < 8 → crc_bit_be (2 ^ k * z) = 2 ^ (k + 1) * z).
  { intros k Hk. assert (2 ^ k ≤ 2 ^ 7) by (apply Z.pow_le_mono_r; lia). assert (0 < 2 ^ k) by lia.
    rewrite crc_bit_be_double, Z.pow_add_r by nia. lia. }
  unfold bits8. replace (crc_bit_be z) with (2 ^ (0 + 1) * z) by (rewrite <- (H 0) by lia; f_equal; lia).
  rewrite (H (0 + 1)), (H (0 + 1 + 1)), (H (0 + 1 + 1 + 1)), (H (0 + 1 + 1 + 1 + 1)), (H (0 + 1 + 1 + 1 + 1 + 1)),
    (H (0 + 1 + 1 + 1 + 1 + 1 + 1)), (H (0 + 1 + 1 + 1 + 1 + 1 + 1 + 1)) by lia.
  rewrite Z.shiftl_mul_pow2 by done. change (2 ^ (0 + 1 + 1 + 1 + 1 + 1 + 1 + 1 + 1)) with (2 ^ 8). lia.
Qed.

(** ** Swapping bytes *)

Lemma mask_bit k j : 0 ≤ k → Z.testbit (Z.shiftl (Z.ones 8) k) j = (k <=? j) && (j <? k + 8).
Proof.
  intros Hk. destruct (Z.ltb_spec j 0) as [H|H].
  - rewrite Z.testbit_neg_r by done. destruct (Z.leb_spec k j); [lia|done].
  - rewrite Z.shiftl_spec by done. destruct (Z.leb_spec k j); cbn [andb]; [|by rewrite Z.testbit_neg_r by lia].
    destruct (Z.ltb_spec j (k + 8)); [apply Z.ones_spec_low; lia|apply Z.ones_spec_high; lia].
Qed.

(** The bit of [x] that is bit [i] of the swapped word. *)
Definition swap_bit (i : Z) : Z := 24 - 8 * (i / 8) + i mod 8.

Lemma bswap32_bits x i : 0 ≤ i → Z.testbit (bswap32 x) i = (i <? 32) && Z.testbit x (swap_bit i).
Proof.
  intros Hi. unfold bswap32. change 0xff with (Z.shiftl (Z.ones 8) 0). change 0xff00 with (Z.shiftl (Z.ones 8) 8).
  change 0xff0000 with (Z.shiftl (Z.ones 8) 16). change 0xff000000 with (Z.shiftl (Z.ones 8) 24).
  rewrite !Z.lor_spec, !Z.shiftl_spec, !Z.shiftr_spec, !Z.land_spec, !mask_bit by lia. unfold swap_bit.
  pose proof (Z.div_mod i 8 ltac:(done)) as Hdm. pose proof (Z.mod_pos_bound i 8 ltac:(done)) as Hm.
  set (q := i / 8) in *. set (r := i mod 8) in *.
  assert (q = 0 ∨ q = 1 ∨ q = 2 ∨ q = 3 ∨ 4 ≤ q) as [E|[E|[E|[E|E]]]] by lia;
    repeat match goal with
    | |- context [Z.leb ?a ?b] => destruct (Z.leb_spec a b); try lia
    | |- context [Z.ltb ?a ?b] => destruct (Z.ltb_spec a b); try lia
    end; cbn [andb]; rewrite ?andb_false_r, ?andb_true_r, ?orb_false_r, ?orb_false_l; try done; f_equal; lia.
Qed.

Lemma swap_bit_range i : 0 ≤ i < 32 → 0 ≤ swap_bit i < 32.
Proof.
  intros Hi. unfold swap_bit. pose proof (Z.div_mod i 8 ltac:(done)). pose proof (Z.mod_pos_bound i 8 ltac:(done)). lia.
Qed.
Lemma swap_bit_invol i : 0 ≤ i < 32 → swap_bit (swap_bit i) = i.
Proof.
  intros Hi. unfold swap_bit at 1. pose proof (Z.div_mod i 8 ltac:(done)) as Hd. pose proof (Z.mod_pos_bound i 8 ltac:(done)).
  assert (E : swap_bit i = 8 * (3 - i / 8) + i mod 8) by (unfold swap_bit; lia).
  assert (E1 : swap_bit i / 8 = 3 - i / 8) by (rewrite E, Z.mul_comm, Z.div_add_l, (Z.div_small (i mod 8)) by lia; lia).
  assert (E2 : swap_bit i mod 8 = i mod 8) by (rewrite E, Z.add_comm, Z.mul_comm, Z.mod_add, Z.mod_mod by lia; lia).
  rewrite E1, E2. lia.
Qed.
Lemma swap_bit_next i : 0 ≤ i → swap_bit (i + 8) = swap_bit i - 8.
Proof.
  intros Hi. unfold swap_bit. replace (i + 8) with (i + 1 * 8) by lia. rewrite Z.div_add, Z.mod_add by lia. lia.
Qed.

Lemma bswap32_lxor a b : bswap32 (Z.lxor a b) = Z.lxor (bswap32 a) (bswap32 b).
Proof.
  apply Z.bits_inj'. intros i Hi. rewrite Z.lxor_spec, !bswap32_bits, Z.lxor_spec by done. by destruct (i <? 32).
Qed.
Lemma bswap32_invol x : 0 ≤ x < 2 ^ 32 → bswap32 (bswap32 x) = x.
Proof.
  intros Hx. apply Z.bits_inj'. intros i Hi. rewrite bswap32_bits by done. destruct (Z.ltb_spec i 32) as [H|H]; cbn [andb].
  - pose proof (swap_bit_range i ltac:(lia)). rewrite bswap32_bits, swap_bit_invol by lia.
    destruct (Z.ltb_spec (swap_bit i) 32); [done|lia].
  - by rewrite testbit_high.
Qed.

Lemma table_be i : byte i → entry crc32table_be i = bswap32 (bits8 crc_bit_be (Z.shiftl i 24)).
Proof.
  intros Hi. apply Z.eqb_eq. revert i Hi. apply for_all_bytes. vm_compute. reflexivity.
Qed.

Lemma lxor_range a b : 0 ≤ a < 2 ^ 32 → 0 ≤ b < 2 ^ 32 → 0 ≤ Z.lxor a b < 2 ^ 32.
Proof.
  intros Ha Hb. replace (Z.lxor a b) with (u32 (Z.lxor a b)); [apply u32_range|].
  rewrite u32_lxor, (u32_small a), (u32_small b) by done. done.
Qed.

Lemma crc_bit_be_range c : 0 ≤ crc_bit_be c < 2 ^ 32.
Proof.
  unfold crc_bit_be. apply lxor_range; [apply u32_range|]. destruct (_ =? _); [lia|unfold CRCPOLY_BE; lia].
Qed.

(** The eight bit steps of a word: the table entry of its top byte and the rest
    moved up. *)
Lemma bits8_be_split y : 0 ≤ y < 2 ^ 32 →
  bits8 crc_bit_be y = Z.lxor (bits8 crc_bit_be (Z.shiftl (Z.shiftr y 24) 24)) (Z.shiftl (Z.land y (Z.ones 24)) 8).
Proof.
  intros Hy. rewrite (split_low y 24) at 1 by done. rewrite Z.lxor_comm, (bits8_lxor crc_bit_be _ _ crc_bit_be_lxor). f_equal.
  apply bits8_be_low. rewrite Z.land_ones by done. by apply Z.mod_pos_bound.
Qed.

Lemma DO_CRC_be c x : 0 ≤ c < 2 ^ 32 → byte x →
  DO_CRC crc32table_be (bswap32 c) x = bswap32 (bits8 crc_bit_be (Z.lxor c (Z.shiftl x 24))).
Proof.
  intros Hc Hx. assert (Hsx : 0 ≤ Z.shiftl x 24 < 2 ^ 32) by (rewrite Z.shiftl_mul_pow2 by done; unfold byte in Hx; lia).
  set (y := Z.lxor c (Z.shiftl x 24)). assert (Hy : 0 ≤ y < 2 ^ 32) by (by apply lxor_range).
  rewrite (bits8_be_split y Hy), bswap32_lxor. unfold DO_CRC.
  assert (Hsw : ∀ i, 0 ≤ i < 8 → swap_bit i = 24 + i).
  { intros i Hi. unfold swap_bit. rewrite Z.div_small, Z.mod_small by lia. lia. }
  assert (Ei : Z.land (Z.lxor (bswap32 c) x) 255 = Z.shiftr y 24).
  { apply Z.bits_inj'. intros i Hi. change 255 with (Z.ones 8).
    rewrite Z.land_spec, Z.lxor_spec, bswap32_bits, Z.shiftr_spec by done. unfold y.
    destruct (Z.ltb_spec i 8) as [H|H].
    - rewrite Z.ones_spec_low, andb_true_r, Z.lxor_spec, Z.shiftl_spec, Hsw by lia.
      destruct (Z.ltb_spec i 32); [|lia]. cbn [andb]. f_equal; f_equal; lia.
    - rewrite Z.ones_spec_high, andb_false_r by lia. symmetry. apply (testbit_high y); lia. }
  rewrite Ei, table_be by (rewrite <- Ei; apply byte_land). f_equal.
  apply Z.bits_inj'. intros i Hi. rewrite Z.shiftr_spec, !bswap32_bits by lia.
  destruct (Z.ltb_spec (i + 8) 32) as [H|H]; cbn [andb].
  - destruct (Z.ltb_spec i 32); [|lia]. cbn [andb]. rewrite swap_bit_next by done.
    assert (8 ≤ swap_bit i < 32).
    { unfold swap_bit. pose proof (Z.div_mod i 8 ltac:(done)). pose proof (Z.mod_pos_bound i 8 ltac:(done)). lia. }
    rewrite Z.shiftl_spec, Z.land_spec, Z.ones_spec_low, andb_true_r by lia. unfold y.
    by rewrite Z.lxor_spec, Z.shiftl_spec, (Z.testbit_neg_r x), xorb_false_r by lia.
  - destruct (Z.ltb_spec i 32); cbn [andb]; [|done].
    assert (swap_bit i < 8).
    { unfold swap_bit. pose proof (Z.div_mod i 8 ltac:(done)). pose proof (Z.mod_pos_bound i 8 ltac:(done)). lia. }
    pose proof (swap_bit_range i ltac:(lia)). by rewrite Z.shiftl_spec, Z.testbit_neg_r by lia.
Qed.

Lemma crc32_bytes (crc b : Z) (p : list Z) :
  0 ≤ crc < 2 ^ 32 → Forall byte p →
  crc32_le crc b p = crc_spec_le crc p ∧ crc32_be crc b p = crc_spec_be crc p.
Proof.
  intros Hc Hp. unfold crc32_le, crc32_be. rewrite !crc_loop_foldl by done. split.
  - clear Hc. revert crc. induction Hp as [|x p Hx Hp IH]; intros crc; [done|]. cbn [foldl crc_spec_le].
    rewrite DO_CRC_le by done. apply IH.
  - assert (H : foldl (DO_CRC crc32table_be) (bswap32 crc) p = bswap32 (crc_spec_be crc p) ∧ 0 ≤ crc_spec_be crc p < 2 ^ 32).
    { revert crc Hc. induction Hp as [|x p Hx Hp IH]; intros crc Hc; [done|]. cbn [foldl]. rewrite DO_CRC_be by done.
      apply IH. apply crc_bit_be_range. }
    destruct H as [-> H]. by apply bswap32_invol.
Qed.

(** C20: the table-driven checksums equal the bit-by-bit division by the CRC-32
    polynomial, least or most significant bit first, for every seed, every
    alignment of the buffer and every length. *)
Theorem crc32_bitwise (crc b : Z) (p : list Z) :
  0 ≤ crc < 2 ^ 32 → Forall byte p →
  crc32_le crc b p = crc_spec_le crc p ∧ crc32_be crc b p = crc_spec_be crc p.
Proof. apply crc32_bytes. Qed.

(** The checksum of "123456789" from the seed of Ethernet. *)
Lemma crc32_bitwise_witness :
  Z.lxor (crc32_le 0xffffffff 2 [49; 50; 51; 52; 53; 54; 55; 56; 57]) 0xffffffff = 0xcbf43926 ∧
  crc32_le 0xffffffff 2 [49; 50; 51; 52; 53; 54; 55; 56; 57] =
    crc_spec_le 0xffffffff [49; 50; 51; 52; 53; 54; 55; 56; 57].
Proof.
  split; [vm_compute; reflexivity|]. refine (proj1 (crc32_bitwise 0xffffffff 2 [49; 50; 51; 52; 53; 54; 55; 56; 57] _ _)); [lia|].
  repeat (apply list.Forall_cons; split; [unfold byte; lia|]). by apply list.Forall_nil.
Defined.
