(* ===== verification/Bitrev.v ===== *)
(** Reversing bits: lib/bitrev.c.

    Bytes are reversed with a table and words byte by byte.  [bitrev32] is proved
    to reverse the 32 bits of a word, and the two checksums of [Crc32] are proved
    to be mirror images of each other under it. *)

From S2P Require Import Prelude FindBit Crc32.

Definition byte_rev_table : list Z := [
   0x00; 0x80; 0x40; 0xc0; 0x20; 0xa0; 0x60; 0xe0; 0x10; 0x90; 0x50; 0xd0; 0x30; 0xb0; 0x70; 0xf0;
   0x08; 0x88; 0x48; 0xc8; 0x28; 0xa8; 0x68; 0xe8; 0x18; 0x98; 0x58; 0xd8; 0x38; 0xb8; 0x78; 0xf8;
   0x04; 0x84; 0x44; 0xc4; 0x24; 0xa4; 0x64; 0xe4; 0x14; 0x94; 0x54; 0xd4; 0x34; 0xb4; 0x74; 0xf4;
   0x0c; 0x8c; 0x4c; 0xcc; 0x2c; 0xac; 0x6c; 0xec; 0x1c; 0x9c; 0x5c; 0xdc; 0x3c; 0xbc; 0x7c; 0xfc;
   0x02; 0x82; 0x42; 0xc2; 0x22; 0xa2; 0x62; 0xe2; 0x12; 0x92; 0x52; 0xd2; 0x32; 0xb2; 0x72; 0xf2;
   0x0a; 0x8a; 0x4a; 0xca; 0x2a; 0xaa; 0x6a; 0xea; 0x1a; 0x9a; 0x5a; 0xda; 0x3a; 0xba; 0x7a; 0xfa;
   0x06; 0x86; 0x46; 0xc6; 0x26; 0xa6; 0x66; 0xe6; 0x16; 0x96; 0x56; 0xd6; 0x36; 0xb6; 0x76; 0xf6;
   0x0e; 0x8e; 0x4e; 0xce; 0x2e; 0xae; 0x6e; 0xee; 0x1e; 0x9e; 0x5e; 0xde; 0x3e; 0xbe; 0x7e; 0xfe;
   0x01; 0x81; 0x41; 0xc1; 0x21; 0xa1; 0x61; 0xe1; 0x11; 0x91; 0x51; 0xd1; 0x31; 0xb1; 0x71; 0xf1;
   0x09; 0x89; 0x49; 0xc9; 0x29; 0xa9; 0x69; 0xe9; 0x19; 0x99; 0x59; 0xd9; 0x39; 0xb9; 0x79; 0xf9;
   0x05; 0x85; 0x45; 0xc5; 0x25; 0xa5; 0x65; 0xe5; 0x15; 0x95; 0x55; 0xd5; 0x35; 0xb5; 0x75; 0xf5;
   0x0d; 0x8d; 0x4d; 0xcd; 0x2d; 0xad; 0x6d; 0xed; 0x1d; 0x9d; 0x5d; 0xdd; 0x3d; 0xbd; 0x7d; 0xfd;
   0x03; 0x83; 0x43; 0xc3; 0x23; 0xa3; 0x63; 0xe3; 0x13; 0x93; 0x53; 0xd3; 0x33; 0xb3; 0x73; 0xf3;
   0x0b; 0x8b; 0x4b; 0xcb; 0x2b; 0xab; 0x6b; 0xeb; 0x1b; 0x9b; 0x5b; 0xdb; 0x3b; 0xbb; 0x7b; 0xfb;
   0x07; 0x87; 0x47; 0xc7; 0x27; 0xa7; 0x67; 0xe7; 0x17; 0x97; 0x57; 0xd7; 0x37; 0xb7; 0x77; 0xf7;
   0x0f; 0x8f; 0x4f; 0xcf; 0x2f; 0xaf; 0x6f; 0xef; 0x1f; 0x9f; 0x5f; 0xdf; 0x3f; 0xbf; 0x7f; 0xff].

Definition bitrev8 (x : Z) : Z := entry byte_rev_table x.
Definition bitrev16 (x : Z) : Z := Z.lor (Z.shiftl (bitrev8 (Z.land x 0xff)) 8) (bitrev8 (Z.shiftr x 8)).
Definition bitrev32 (x : Z) : Z := Z.lor (Z.shiftl (bitrev16 (Z.land x 0xffff)) 16) (bitrev16 (Z.shiftr x 16)).

Lemma bitrev8_table x : byte x → byte (bitrev8 x) ∧ ∀ i, 0 ≤ i < 8 → Z.testbit (bitrev8 x) i = Z.testbit x (7 - i).
Proof.
  intros Hx.
  assert (H : (0 <=? bitrev8 x) && (bitrev8 x <? 256) &&
    forallb (λ n, Bool.eqb (Z.testbit (bitrev8 x) (Z.of_nat n)) (Z.testbit x (7 - Z.of_nat n))) (seq 0 8) = true).
  { revert x Hx. apply for_all_bytes. vm_compute. reflexivity. }
  apply andb_prop in H as [H H3]. apply andb_prop in H as [H1 H2]. split; [unfold byte; lia|].
  intros i Hi. rewrite forallb_forall in H3. specialize (H3 (Z.to_nat i)). rewrite Z2Nat.id in H3 by lia.
  apply Bool.eqb_prop, H3, in_seq. lia.
Qed.

Lemma byte_of_half x : 0 ≤ x < 2 ^ 16 → byte (Z.shiftr x 8).
Proof. intros Hx. rewrite Z.shiftr_div_pow2 by done. unfold byte. split; [apply Z.div_pos; lia|]. apply Z.div_lt_upper_bound; lia. Qed.

Lemma bitrev16_bits x i : 0 ≤ x < 2 ^ 16 → 0 ≤ i → Z.testbit (bitrev16 x) i = (i <? 16) && Z.testbit x (15 - i).
Proof.
  intros Hx Hi. destruct (bitrev8_table (Z.land x 255) (byte_land x)) as [Hb1 H1].
  destruct (bitrev8_table (Z.shiftr x 8) (byte_of_half x Hx)) as [Hb2 H2].
  unfold bitrev16. rewrite Z.lor_spec, Z.shiftl_spec by done. change 0xff with 255.
  destruct (Z.ltb_spec i 8) as [H|H].
  - rewrite Z.testbit_neg_r, H2, Z.shiftr_spec by lia. cbn [orb]. destruct (Z.ltb_spec i 16); [|lia]. cbn [andb]. f_equal. lia.
  - rewrite (byte_high _ i Hb2), orb_false_r by done. destruct (Z.ltb_spec i 16) as [H'|H']; cbn [andb].
    + rewrite H1, Z.land_spec by lia. change 255 with (Z.ones 8). rewrite Z.ones_spec_low, andb_true_r by lia. f_equal. lia.
    + apply (byte_high _ (i - 8) Hb1). lia.
Qed.

Lemma bitrev32_bits x i : 0 ≤ x < 2 ^ 32 → 0 ≤ i → Z.testbit (bitrev32 x) i = (i <? 32) && Z.testbit x (31 - i).
Proof.
  intros Hx Hi. unfold bitrev32.
  assert (Hl : 0 ≤ Z.land x 0xffff < 2 ^ 16) by (change 0xffff with (Z.ones 16); rewrite Z.land_ones by done; by apply Z.mod_pos_bound).
  assert (Hh : 0 ≤ Z.shiftr x 16 < 2 ^ 16).
  { rewrite Z.shiftr_div_pow2 by done. split; [apply Z.div_pos; lia|]. apply Z.div_lt_upper_bound; lia. }
  rewrite Z.lor_spec, Z.shiftl_spec by done. rewrite (bitrev16_bits (Z.shiftr x 16)) by done.
  destruct (Z.ltb_spec i 16) as [H|H]; cbn [andb orb].
  - rewrite Z.testbit_neg_r, Z.shiftr_spec by lia. cbn [orb]. destruct (Z.ltb_spec i 32); [|lia]. cbn [andb]. f_equal. lia.
  - rewrite orb_false_r, bitrev16_bits by (done || lia). destruct (Z.ltb_spec i 32), (Z.ltb_spec (i - 16) 16); try lia; cbn [andb]; try done.
    rewrite Z.land_spec. change 0xffff with (Z.ones 16). rewrite Z.ones_spec_low, andb_true_r by lia. f_equal. lia.
Qed.

Lemma bitrev32_range x : 0 ≤ x < 2 ^ 32 → 0 ≤ bitrev32 x < 2 ^ 32.
Proof.
  intros Hx. replace (bitrev32 x) with (u32 (bitrev32 x)); [apply u32_range|]. unfold u32, wrap. rewrite <- Z.land_ones by done.
  apply Z.bits_inj'. intros i Hi. rewrite Z.land_spec, bitrev32_bits by done.
  destruct (Z.ltb_spec i 32); [rewrite Z.ones_spec_low by lia; by rewrite andb_true_r|done].
Qed.

Lemma bitrev32_invol x : 0 ≤ x < 2 ^ 32 → bitrev32 (bitrev32 x) = x.
Proof.
  intros Hx. apply Z.bits_inj'. intros i Hi. rewrite bitrev32_bits by (by apply bitrev32_range || done).
  destruct (Z.ltb_spec i 32); cbn [andb]; [|by rewrite testbit_high].
  rewrite bitrev32_bits by (done || lia). destruct (Z.ltb_spec (31 - i) 32); [|lia]. cbn [andb]. f_equal. lia.
Qed.

Lemma bitrev32_lxor a b : 0 ≤ a < 2 ^ 32 → 0 ≤ b < 2 ^ 32 → bitrev32 (Z.lxor a b) = Z.lxor (bitrev32 a) (bitrev32 b).
Proof.
  intros Ha Hb. apply Z.bits_inj'. intros i Hi. rewrite Z.lxor_spec, !bitrev32_bits, Z.lxor_spec by (done || by apply lxor_range).
  by destruct (i <? 32).
Qed.

(** ** The two checksums are mirror images *)

Lemma bitrev32_bit c : 0 ≤ c < 2 ^ 32 → bitrev32 (crc_bit_be c) = crc_bit_le (bitrev32 c).
Proof.
  intros Hc. unfold crc_bit_be, crc_bit_le. change 0x80000000 with (2 ^ 31). rewrite land_pow2_eqb by done.
  assert (Hb : (Z.land (bitrev32 c) 1 =? 0) = negb (Z.testbit (bitrev32 c) 0)) by (by apply (land_pow2_eqb _ 0)).
  rewrite Hb, bitrev32_bits by done. cbn [Z.ltb Z.compare andb]. change (31 - 0) with 31.
  assert (Hp : 0 ≤ (if negb (Z.testbit c 31) then 0 else CRCPOLY_BE) < 2 ^ 32)
    by (destruct (Z.testbit c 31); cbn [negb]; unfold CRCPOLY_BE; lia).
  rewrite bitrev32_lxor by (apply u32_range || exact Hp). f_equal.
  - apply Z.bits_inj'. intros i Hi. rewrite bitrev32_bits, Z.shiftr_spec, bitrev32_bits by (apply u32_range || done || lia).
    unfold u32, wrap. rewrite <- Z.land_ones by done. destruct (Z.ltb_spec i 32), (Z.ltb_spec (i + 1) 32); try lia; cbn [andb]; try done.
    + rewrite Z.land_spec, Z.ones_spec_low, andb_true_r, Z.shiftl_spec by lia. f_equal. lia.
    + assert (i = 31) as -> by lia. by rewrite Z.land_spec, Z.shiftl_spec, Z.testbit_neg_r by lia.
  - destruct (Z.testbit c 31); vm_compute; reflexivity.
Qed.

Lemma bitrev32_bits8 c : 0 ≤ c < 2 ^ 32 → bitrev32 (bits8 crc_bit_be c) = bits8 crc_bit_le (bitrev32 c).
Proof.
  intros Hc. unfold bits8. rewrite !bitrev32_bit by (apply crc_bit_be_range || done). done.
Qed.

Lemma bitrev32_top x : byte x → bitrev32 (Z.shiftl (bitrev8 x) 24) = x.
Proof.
  intros Hx. apply Z.eqb_eq. revert x Hx. apply for_all_bytes. vm_compute. reflexivity.
Qed.

(** The checksum of lsbit-first bit streams is the mirror image of the
    msbit-first one: reversing the seed, every byte and the result turns
    [crc32_be] into [crc32_le]; [bitrev32] is its own inverse. *)
Theorem crc32_mirror (crc b : Z) (p : list Z) :
  0 ≤ crc < 2 ^ 32 → Forall byte p →
  bitrev32 (crc32_be crc b (map bitrev8 p)) = crc32_le (bitrev32 crc) b p ∧ bitrev32 (bitrev32 crc) = crc.
Proof.
  intros Hc Hp. split; [|by apply bitrev32_invol].
  assert (Hp' : Forall byte (map bitrev8 p)).
  { induction Hp as [|x p Hx Hp IH]; [by apply list.Forall_nil|]. cbn [map]. apply list.Forall_cons. split; [by apply bitrev8_table|done]. }
  rewrite (proj2 (crc32_bytes crc b _ Hc Hp')), (proj1 (crc32_bytes (bitrev32 crc) b p (bitrev32_range crc Hc) Hp)).
  clear Hp'. revert crc Hc. induction Hp as [|x p Hx Hp IH]; intros crc Hc; [done|]. cbn [map crc_spec_be crc_spec_le foldl].
  assert (Hs : 0 ≤ Z.shiftl (bitrev8 x) 24 < 2 ^ 32).
  { destruct (bitrev8_table x Hx) as [Hb _]. unfold byte in Hb. rewrite Z.shiftl_mul_pow2 by done. lia. }
  fold (crc_spec_be (bits8 crc_bit_be (Z.lxor crc (Z.shiftl (bitrev8 x) 24))) (map bitrev8 p)).
  rewrite IH by apply crc_bit_be_range. unfold crc_spec_le. f_equal.
  by rewrite bitrev32_bits8, bitrev32_lxor, bitrev32_top by (done || by apply lxor_range).
Qed.

Lemma crc32_mirror_witness :
  bitrev32 (crc32_be 0xffffffff 1 (map bitrev8 [1; 2; 3; 4; 5; 6; 7])) = crc32_le (bitrev32 0xffffffff) 1 [1; 2; 3; 4; 5; 6; 7].
Proof.
  refine (proj1 (crc32_mirror 0xffffffff 1 [1; 2; 3; 4; 5; 6; 7] _ _)); [lia|]. repeat (apply list.Forall_cons; split; [unfold byte; lia|]). by apply list.Forall_nil.
Defined.
