(* ===== verification/Vsprintf.v ===== *)
(** Numbers and strings: lib/vsprintf.c and lib/ctype.c.

    A string is the list of its characters without the NUL byte.  The formatter
    writes into a buffer of given size through a pointer that runs on past its
    end; its arguments are a list of numbers, strings and pointers to integers.  The buffer and the text behind it are taken to
    lie within the address space, so the pointer does not wrap around and the
    clamp of [end] in [vsnprintf] never acts.  It is proved to produce the beginning of a
    text that does not depend on the size, and parsing the text of a number
    is proved to give the number back. *)

From S2P Require Import Prelude.

(** ** ctype.c, ctype.h *)

Definition _ctype : list Z := [
   8; 8; 8; 8; 8; 8; 8; 8; 8; 40; 40; 40; 40; 40; 8; 8;
   8; 8; 8; 8; 8; 8; 8; 8; 8; 8; 8; 8; 8; 8; 8; 8;
   160; 16; 16; 16; 16; 16; 16; 16; 16; 16; 16; 16; 16; 16; 16; 16;
   4; 4; 4; 4; 4; 4; 4; 4; 4; 4; 16; 16; 16; 16; 16; 16;
   16; 65; 65; 65; 65; 65; 65; 1; 1; 1; 1; 1; 1; 1; 1; 1;
   1; 1; 1; 1; 1; 1; 1; 1; 1; 1; 1; 16; 16; 16; 16; 16;
   16; 66; 66; 66; 66; 66; 66; 2; 2; 2; 2; 2; 2; 2; 2; 2;
   2; 2; 2; 2; 2; 2; 2; 2; 2; 2; 2; 16; 16; 16; 16; 8;
   0; 0; 0; 0; 0; 0; 0; 0; 0; 0; 0; 0; 0; 0; 0; 0;
   0; 0; 0; 0; 0; 0; 0; 0; 0; 0; 0; 0; 0; 0; 0; 0;
   160; 16; 16; 16; 16; 16; 16; 16; 16; 16; 16; 16; 16; 16; 16; 16;
   16; 16; 16; 16; 16; 16; 16; 16; 16; 16; 16; 16; 16; 16; 16; 16;
   1; 1; 1; 1; 1; 1; 1; 1; 1; 1; 1; 1; 1; 1; 1; 1;
   1; 1; 1; 1; 1; 1; 1; 16; 1; 1; 1; 1; 1; 1; 1; 2;
   2; 2; 2; 2; 2; 2; 2; 2; 2; 2; 2; 2; 2; 2; 2; 2;
   2; 2; 2; 2; 2; 2; 2; 16; 2; 2; 2; 2; 2; 2; 2; 2].
Definition _U : Z := 1.
Definition _L : Z := 2.
Definition _D : Z := 4.
Definition _X : Z := 64.
Definition __ismask (c : Z) : Z := nth (Z.to_nat (u8 c)) _ctype 0.
Definition isdigit (c : Z) : bool := negb (Z.land (__ismask c) _D =? 0).
Definition isxdigit (c : Z) : bool := negb (Z.land (__ismask c) (Z.lor _D _X) =? 0).
Definition islower (c : Z) : bool := negb (Z.land (__ismask c) _L =? 0).
Definition toupper (c : Z) : Z := if islower c then u8 (c - 32) else u8 c.

(** The character [n] behind the pointer; NUL at the end of the string. *)
Definition at_ (s : list Z) (n : nat) : Z := nth n s 0.

(** ** Parsing numbers *)

(** The digit loop of [simple_strtoul] ([w] = 32) and [simple_strtoull] ([w] =
    64); the result and the rest of the string. *)
Definition digit_value (c : Z) : Z := if isdigit c then c - 48 else toupper c - 65 + 10.
Fixpoint digit_loop (w base result : Z) (cp : list Z) : Z * list Z :=
  match cp with
  | [] => (result, [])
  | c :: cp' =>
      if isxdigit c && (digit_value c <? base) then digit_loop w base (wrap w (wrap w (result * base) + digit_value c)) cp'
      else (result, cp)
  end.
(** The base and what follows the prefix. *)
Definition parse_prefix (cp : list Z) (base : Z) : Z * list Z :=
  if base =? 0 then
    if at_ cp 0 =? 48 then
      let cp := drop 1 cp in
      if (toupper (at_ cp 0) =? 88) && isxdigit (at_ cp 1) then (16, drop 1 cp) else (8, cp)
    else (10, cp)
  else if base =? 16 then
    if (at_ cp 0 =? 48) && (toupper (at_ cp 1) =? 88) then (16, drop 2 cp) else (16, cp)
  else (base, cp).
Definition simple_strtoul (cp : list Z) (base : Z) : Z * list Z :=
  let '(base, cp) := parse_prefix cp base in digit_loop 32 base 0 cp.
Definition simple_strtol (cp : list Z) (base : Z) : Z * list Z :=
  if at_ cp 0 =? 45
  then let '(r, e) := simple_strtoul (drop 1 cp) base in (s32 (- r), e)
  else let '(r, e) := simple_strtoul cp base in (s32 r, e).
Definition simple_strtoull (cp : list Z) (base : Z) : Z * list Z :=
  let '(base, cp) := parse_prefix cp base in digit_loop 64 base 0 cp.
Definition s64 (z : Z) : Z := (z + 2 ^ 63) mod 2 ^ 64 - 2 ^ 63.
Definition simple_strtoll (cp : list Z) (base : Z) : Z * list Z :=
  if at_ cp 0 =? 45
  then let '(r, e) := simple_strtoull (drop 1 cp) base in (s64 (- r), e)
  else let '(r, e) := simple_strtoull cp base in (s64 r, e).

Fixpoint skip_atoi (i : Z) (s : list Z) : Z * list Z :=
  match s with
  | c :: s' => if isdigit c then skip_atoi (s32 (i * 10 + c - 48)) s' else (i, s)
  | [] => (i, [])
  end.

(** ** Output *)

(** An argument: a number of the width its conversion reads, the address of a
    readable string, or the address of an integer that may be written.  Strings
    and integers lie outside the buffer. *)
Inductive varg := VNum (n : Z) | VStr (addr : Z) (s : list Z) | VPtr (addr : Z).

Record obuf := OBuf {
  ob_mem : list Z;       (* the buffer, [size] bytes *)
  ob_pos : Z;            (* str - buf *)
  ob_args : list varg;
  ob_stored : list (Z * Z);    (* the words written through the pointers of %n *)
}.
Abbreviation OM := (M obuf).

(** A byte stored behind the buffer is a fault. *)
Definition store_char (i c : Z) : OM unit := λ o,
  if i <? Z.of_nat (length (ob_mem o)) then Done (tt, OBuf (<[Z.to_nat i := c]> (ob_mem o)) (ob_pos o) (ob_args o) (ob_stored o))
  else Fault FBounds.
(** [end - buf] *)
Definition ob_size (o : obuf) : Z := Z.of_nat (length (ob_mem o)).
(** [if (str < end) *str = c; ++str;] *)
Definition emit (c : Z) : OM unit :=
  pos ← gets ob_pos; size ← gets ob_size;
  (if pos <? size then store_char pos c else mret tt) ;;
  modify (λ o, OBuf (ob_mem o) (ob_pos o + 1) (ob_args o) (ob_stored o)).
Lemma emit_run c o : emit c o =
  Done (tt, OBuf (if ob_pos o <? ob_size o then <[Z.to_nat (ob_pos o) := c]> (ob_mem o) else ob_mem o) (ob_pos o + 1) (ob_args o) (ob_stored o)).
Proof. unfold emit, store_char, ob_size. run_simpl. destruct (ob_pos o <? _) eqn:E; [|done]. rewrite E. done. Qed.
Fixpoint emit_all (s : list Z) : OM unit :=
  match s with [] => mret tt | c :: s => emit c ;; emit_all s end.

(** [while (n-- > 0)] output [c]; the value of [n] afterwards *)
Fixpoint emit_times (n : nat) (c : Z) : OM unit := match n with O => mret tt | S n => emit c ;; emit_times n c end.
Definition pad (c n : Z) : OM Z := emit_times (Z.to_nat n) c ;; mret (Z.min n 0 - 1).

(** [va_arg]; an argument that was not passed is a fault of the caller. *)
Definition va_arg : OM varg := λ o,
  match ob_args o with
  | a :: r => Done (a, OBuf (ob_mem o) (ob_pos o) r (ob_stored o))
  | [] => Fault FNull
  end.
Definition va_num : OM Z :=
  a ← va_arg; match a with VNum n | VStr n _ | VPtr n => mret n end.

Definition ZEROPAD : Z := 1.
Definition SIGN : Z := 2.
Definition PLUS : Z := 4.
Definition SPACE : Z := 8.
Definition LEFT : Z := 16.
Definition SPECIAL : Z := 32.
Definition LARGE : Z := 64.
Definition flag (type f : Z) : bool := negb (Z.land type f =? 0).

(** [digits[d]]: the letters in lower or upper case *)
Definition digit_char (type d : Z) : Z := if d <? 10 then 48 + d else (if flag type LARGE then 65 else 97) + (d - 10).

(** [while (num != 0) tmp[i++] = digits[do_div(num, base)]]: the digits,
    lowest first; [tmp] has [n] free bytes. *)
Fixpoint tmp_digits (n : nat) (type num base : Z) : OM (list Z) :=
  if num =? 0 then mret [] else
  match n with
  | O => fail FBounds
  | S n => r ← tmp_digits n type (num / base) base; mret (digit_char type (num mod base) :: r)
  end.

(** The sign, the absolute value and the width that is left. *)
Definition number_sign (num size type : Z) : Z * Z * Z :=
  if flag type SIGN then
    if s64 num <? 0 then (45, u64 (- num), s32 (size - 1))
    else if flag type PLUS then (43, num, s32 (size - 1))
    else if flag type SPACE then (32, num, s32 (size - 1))
    else (0, num, size)
  else (0, num, size).

Definition number (num base size precision type : Z) : OM unit :=
  let type := if flag type LEFT then Z.land type (Z.lnot ZEROPAD) else type in
  if (base <? 2) || (36 <? base) then fail FPanic else
  let c := if flag type ZEROPAD then 48 else 32 in
  let '(sign, num, size) := number_sign num size type in
  let size := if flag type SPECIAL then if base =? 16 then s32 (size - 2) else if base =? 8 then s32 (size - 1) else size else size in
  tmp ← (if num =? 0 then mret [48] else tmp_digits 66 type num base);
  let i := Z.of_nat (length tmp) in
  let precision := if precision <? i then i else precision in
  let size := s32 (size - precision) in
  size ← (if flag type (ZEROPAD + LEFT) then mret size else pad 32 size);
  (if sign =? 0 then mret tt else emit sign) ;;
  (if flag type SPECIAL then
     if base =? 8 then emit 48
     else if base =? 16 then emit 48 ;; emit (if flag type LARGE then 88 else 120)
     else mret tt
   else mret tt) ;;
  size ← (if flag type LEFT then mret size else pad c size);
  pad 48 (precision - i) ;;
  emit_all (rev tmp) ;;
  pad 32 size ;;
  mret tt.

(** ** vsnprintf *)

(** The flags after the per cent sign. *)
Fixpoint parse_flags (flags : Z) (fmt : list Z) : Z * list Z :=
  match fmt with
  | c :: r =>
      if c =? 45 then parse_flags (Z.lor flags LEFT) r
      else if c =? 43 then parse_flags (Z.lor flags PLUS) r
      else if c =? 32 then parse_flags (Z.lor flags SPACE) r
      else if c =? 35 then parse_flags (Z.lor flags SPECIAL) r
      else if c =? 48 then parse_flags (Z.lor flags ZEROPAD) r
      else (flags, fmt)
  | [] => (flags, fmt)
  end.

(** The field width, the flags and the rest of the format. *)
Definition parse_width (flags : Z) (fmt : list Z) : OM (Z * Z * list Z) :=
  if isdigit (at_ fmt 0) then let '(n, r) := skip_atoi 0 fmt in mret (n, flags, r)
  else if at_ fmt 0 =? 42 then
    n ← va_num;
    let n := s32 n in
    mret (if n <? 0 then (s32 (- n), Z.lor flags LEFT, drop 1 fmt) else (n, flags, drop 1 fmt))
  else mret (-1, flags, fmt).

Definition parse_precision (fmt : list Z) : OM (Z * list Z) :=
  if at_ fmt 0 =? 46 then
    let fmt := drop 1 fmt in
    '(p, r) ← (if isdigit (at_ fmt 0) then mret (skip_atoi 0 fmt)
               else if at_ fmt 0 =? 42 then n ← va_num; mret (s32 n, drop 1 fmt)
               else mret (-1, fmt));
    mret (if p <? 0 then 0 else p, r)
  else mret (-1, fmt).

(** The qualifier h, l, L, Z, z or t; -1 if there is none. *)
Definition parse_qualifier (fmt : list Z) : Z * list Z :=
  let c := at_ fmt 0 in
  if (c =? 104) || (c =? 108) || (c =? 76) || (c =? 90) || (c =? 122) || (c =? 116) then
    if (c =? 108) && (at_ fmt 1 =? 108) then (76, drop 2 fmt) else (c, drop 1 fmt)
  else (-1, fmt).

Definition s16 (z : Z) : Z := (z + 2 ^ 15) mod 2 ^ 16 - 2 ^ 15.

(** The argument of an integer conversion as an [unsigned long long]. *)
Definition int_arg (qualifier flags n : Z) : Z :=
  if qualifier =? 76 then u64 n
  else if qualifier =? 108 then if flag flags SIGN then u64 (s32 n) else u32 n
  else if (qualifier =? 90) || (qualifier =? 122) then u32 n
  else if qualifier =? 116 then u64 (s32 n)
  else if qualifier =? 104 then if flag flags SIGN then u64 (s16 (u16 n)) else u16 n
  else if flag flags SIGN then u64 (s32 n) else u32 n.

Definition PAGE_SIZE : Z := 4096.
(** "<NULL>" *)
Definition null_string : list Z := [60; 78; 85; 76; 76; 62].

Definition fmt_char (field_width flags : Z) : OM unit :=
  fw ← (if flag flags LEFT then mret field_width else emit_times (Z.to_nat (field_width - 1)) 32 ;; mret (Z.min (field_width - 1) 0));
  n ← va_num;
  emit (u8 n) ;;
  emit_times (Z.to_nat (fw - 1)) 32.

(** The string an argument points to; below the first page it is replaced, and
    an address at which there is no string is a fault. *)
Definition va_string : OM (list Z) :=
  a ← va_arg;
  let addr := match a with VNum n | VStr n _ | VPtr n => n end in
  if u32 addr <? PAGE_SIZE then mret null_string
  else match a with VStr _ s => mret s | _ => fail FNull end.

(** [strnlen(s, precision)] takes its bound as a [size_t]. *)
Definition fmt_string (field_width precision flags : Z) : OM unit :=
  s ← va_string;
  let len := Z.min (Z.of_nat (length s)) (u32 precision) in
  let str := take (Z.to_nat len) s in
  fw ← (if flag flags LEFT then mret field_width
        else emit_times (Z.to_nat (field_width - len)) 32 ;; mret (Z.min field_width len - 1));
  emit_all str ;;
  emit_times (Z.to_nat (fw - len)) 32.

(** [*ip = (str - buf)], for a pointer to an [int], [long] or [size_t], all of
    32 bits. *)
Definition store_count : OM unit :=
  a ← va_arg;
  match a with
  | VPtr ip => modify (λ o, OBuf (ob_mem o) (ob_pos o) (ob_args o) (ob_stored o ++ [(ip, u32 (ob_pos o))]))
  | _ => fail FNull
  end.

(** A conversion whose specifier is the first character of [fmt]; the rest of the
    format. *)
Definition fmt_conv (flags field_width precision qualifier : Z) (fmt : list Z) : OM (list Z) :=
  let integer base flags :=
    n ← va_num; number (int_arg qualifier flags n) base field_width precision flags ;; mret (drop 1 fmt) in
  let c := at_ fmt 0 in
  if c =? 99 then fmt_char field_width flags ;; mret (drop 1 fmt)
  else if c =? 115 then fmt_string field_width precision flags ;; mret (drop 1 fmt)
  else if c =? 112 then
    n ← va_num;
    (if field_width =? -1 then number (u32 n) 16 8 precision (Z.lor flags ZEROPAD)
     else number (u32 n) 16 field_width precision flags) ;;
    mret (drop 1 fmt)
  else if c =? 110 then store_count ;; mret (drop 1 fmt)
  else if c =? 37 then emit 37 ;; mret (drop 1 fmt)
  else if c =? 111 then integer 8 flags
  else if c =? 88 then integer 16 (Z.lor flags LARGE)
  else if c =? 120 then integer 16 flags
  else if (c =? 100) || (c =? 105) then integer 10 (Z.lor flags SIGN)
  else if c =? 117 then integer 10 flags
  else
    emit 37 ;;
    match fmt with
    | [] => mret []
    | c :: r => emit c ;; mret r
    end.

Definition fmt_directive (fmt : list Z) : OM (list Z) :=
  let '(flags, fmt) := parse_flags 0 fmt in
  '(field_width, flags, fmt) ← parse_width flags fmt;
  '(precision, fmt) ← parse_precision fmt;
  let '(qualifier, fmt) := parse_qualifier fmt in
  fmt_conv flags field_width precision qualifier fmt.

(** [for (; *fmt; ++fmt)]: every round takes a character off the format. *)
Fixpoint fmt_loop (fuel : nat) (fmt : list Z) : OM unit :=
  match fuel, fmt with
  | _, [] => mret tt
  | O, _ => fail FFuel
  | S fuel, c :: fmt =>
      if c =? 37 then fmt' ← fmt_directive fmt; fmt_loop fuel fmt' else emit c ;; fmt_loop fuel fmt
  end.

(** [if (size > 0) { if (str < end) *str = 0; else *(end - 1) = 0; }] *)
Definition terminate (size : Z) : OM unit :=
  pos ← gets ob_pos;
  if 0 <? size then if pos <? size then store_char pos 0 else store_char (size - 1) 0 else mret tt.
Lemma terminate_run {X} (f : obuf → X) o : (terminate (ob_size o) ;; gets f) o =
  let o' := OBuf (if 0 <? ob_size o
                  then if ob_pos o <? ob_size o then <[Z.to_nat (ob_pos o) := 0]> (ob_mem o) else <[Z.to_nat (ob_size o - 1) := 0]> (ob_mem o)
                  else ob_mem o) (ob_pos o) (ob_args o) (ob_stored o) in Done (f o', o').
Proof.
  unfold terminate, store_char, ob_size. run_simpl. destruct (Z.ltb_spec 0 (Z.of_nat (length (ob_mem o)))) as [Hs|]; [|by destruct o].
  destruct (ob_pos o <? _) eqn:E; [by rewrite E|]. destruct (Z.ltb_spec (Z.of_nat (length (ob_mem o)) - 1) (Z.of_nat (length (ob_mem o)))); [done|lia].
Qed.
(** The result is [str - buf] as an [int]. *)
Definition vsnprintf (fmt : list Z) : OM Z := λ o,
  let size := Z.of_nat (length (ob_mem o)) in
  if s32 size <? 0 then Done (0, o) else
  match fmt_loop (length fmt) fmt o with
  | Fault e => Fault e
  | Done (_, o) => (terminate size ;; gets (λ o, s32 (ob_pos o))) o
  end.
Definition vscnprintf (fmt : list Z) : OM Z := λ o,
  match vsnprintf fmt o with
  | Fault e => Fault e
  | Done (i, o') =>
      let size := Z.of_nat (length (ob_mem o)) in
      Done (if size <=? u32 i then s32 (size - 1) else i, o')
  end.

(** ** The text does not depend on the buffer *)

(** The buffer [mem] after the text [s] was put at position [pos]. *)
Fixpoint overlay (mem : list Z) (pos : Z) (s : list Z) : list Z :=
  match s with
  | [] => mem
  | c :: s => overlay (if pos <? Z.of_nat (length mem) then <[Z.to_nat pos := c]> mem else mem) (pos + 1) s
  end.

Lemma overlay_length mem pos s : length (overlay mem pos s) = length mem.
Proof.
  revert mem pos. induction s as [|c s IH]; intros mem pos; [done|]. cbn [overlay]. rewrite IH.
  destruct (_ <? _); [apply length_insert|done].
Qed.

Lemma overlay_app mem pos s t : overlay mem pos (s ++ t) = overlay (overlay mem pos s) (pos + Z.of_nat (length s)) t.
Proof.
  revert mem pos. induction s as [|c s IH]; intros mem pos; cbn [app overlay length]; [by rewrite Z.add_0_r|].
  rewrite IH. f_equal. lia.
Qed.

Lemma overlay_lookup mem pos s i : 0 ≤ pos → (i < length mem)%nat →
  overlay mem pos s !! i =
    (if (Z.to_nat pos <=? i)%nat && (i <? Z.to_nat pos + length s)%nat then s !! (i - Z.to_nat pos)%nat else mem !! i).
Proof.
  revert mem pos. induction s as [|c s IH]; intros mem pos Hp Hi; cbn [overlay length].
  - destruct (Nat.leb_spec (Z.to_nat pos) i), (Nat.ltb_spec i (Z.to_nat pos + 0)); cbn [andb]; try done. lia.
  - rewrite IH; [|lia|by destruct (_ <? _); rewrite ?length_insert].
    assert (E : Z.to_nat (pos + 1) = S (Z.to_nat pos)) by lia. rewrite E.
    destruct (decide (i = Z.to_nat pos)) as [->|Hne].
    + destruct (Nat.leb_spec (S (Z.to_nat pos)) (Z.to_nat pos)); [lia|]. cbn [andb].
      destruct (Nat.leb_spec (Z.to_nat pos) (Z.to_nat pos)), (Nat.ltb_spec (Z.to_nat pos) (Z.to_nat pos + S (length s))); try lia.
      cbn [andb]. rewrite Nat.sub_diag. cbn. destruct (Z.ltb_spec pos (Z.of_nat (length mem))); [|lia].
      by apply list_lookup_insert_eq.
    + destruct (Nat.leb_spec (S (Z.to_nat pos)) i), (Nat.leb_spec (Z.to_nat pos) i); try lia; cbn [andb].
      * destruct (Nat.ltb_spec i (S (Z.to_nat pos) + length s)), (Nat.ltb_spec i (Z.to_nat pos + S (length s))); try lia.
        -- replace (i - Z.to_nat pos)%nat with (S (i - S (Z.to_nat pos))) by lia. done.
        -- destruct (_ <? _); [|done]. apply list_lookup_insert_ne. done.
      * destruct (_ <? _); [|done]. apply list_lookup_insert_ne. done.
Qed.

(** [m] does the same, whatever the buffer holds and however long it is: it
    faults, or it puts a text at the position and goes on behind it. *)
Definition oblivious {X} (m : OM X) : Prop := ∀ pos args st,
  (∃ e, ∀ mem, m (OBuf mem pos args st) = Fault e) ∨
  (∃ x s args' st', ∀ mem, m (OBuf mem pos args st) = Done (x, OBuf (overlay mem pos s) (pos + Z.of_nat (length s)) args' st')).

Lemma oblivious_ret {X} (x : X) : oblivious (mret x).
Proof. intros pos args st. right. exists x, [], args, st. intros mem. cbn. by rewrite Z.add_0_r. Qed.
Lemma oblivious_fail {X} e : oblivious (fail e : OM X).
Proof. intros pos args st. left. by exists e. Qed.
Lemma oblivious_bind {X Y} (m : OM X) (f : X → OM Y) : oblivious m → (∀ x, oblivious (f x)) → oblivious (x ← m; f x).
Proof.
  intros Hm Hf pos args st. destruct (Hm pos args st) as [[e He]|(x & s & args' & st' & E)].
  { left. exists e. intros mem. run_simpl. by rewrite He. }
  destruct (Hf x (pos + Z.of_nat (length s)) args' st') as [[e He]|(y & t & args2 & st2 & E2)].
  { left. exists e. intros mem. run_simpl. rewrite E. apply He. }
  right. exists y, (s ++ t), args2, st2. intros mem. run_simpl. rewrite E. cbn beta iota. rewrite E2.
  rewrite overlay_app, length_app. do 3 f_equal. lia.
Qed.
Lemma oblivious_emit c : oblivious (emit c).
Proof. intros pos args st. right. exists tt, [c], args, st. intros mem. apply emit_run. Qed.
Lemma oblivious_va_arg : oblivious va_arg.
Proof.
  intros pos [|a args] st; [left; by exists FNull|]. right. exists a, [], args, st. intros mem. cbn. by rewrite Z.add_0_r.
Qed.
Lemma oblivious_store_count : oblivious store_count.
Proof.
  intros pos [|[n|n s|ip] args] st; try (left; by exists FNull).
  right. exists tt, [], args, (st ++ [(ip, u32 pos)]). intros mem. cbn. by rewrite Z.add_0_r.
Qed.

Create HintDb oblivious discriminated.
#[export] Hint Resolve oblivious_ret oblivious_fail oblivious_emit oblivious_va_arg oblivious_store_count : oblivious.

(** Take a computation apart. *)
Ltac oblivious :=
  repeat first
  [ solve [eauto with oblivious]
  | apply oblivious_bind; [|intros ?]
  | case_match ].

Lemma oblivious_emit_times n c : oblivious (emit_times n c).
Proof. induction n; cbn [emit_times]; oblivious. Qed.
Lemma oblivious_emit_all s : oblivious (emit_all s).
Proof. induction s; cbn [emit_all]; oblivious. Qed.
#[export] Hint Resolve oblivious_emit_times oblivious_emit_all : oblivious.
Lemma oblivious_pad c n : oblivious (pad c n).
Proof. unfold pad. oblivious. Qed.
Lemma oblivious_va_num : oblivious va_num.
Proof. unfold va_num. oblivious. Qed.
Lemma oblivious_tmp_digits n type num base : oblivious (tmp_digits n type num base).
Proof. revert num. induction n; intros num; cbn [tmp_digits]; oblivious. Qed.
#[export] Hint Resolve oblivious_pad oblivious_va_num oblivious_tmp_digits : oblivious.
Lemma oblivious_number num base size precision type : oblivious (number num base size precision type).
Proof. unfold number. oblivious. Qed.
#[export] Hint Resolve oblivious_number : oblivious.
Lemma oblivious_fmt_conv flags fw p q fmt : oblivious (fmt_conv flags fw p q fmt).
Proof. unfold fmt_conv, fmt_char, fmt_string, va_string. oblivious. Qed.
Lemma oblivious_parse_width flags fmt : oblivious (parse_width flags fmt).
Proof. unfold parse_width. oblivious. Qed.
Lemma oblivious_parse_precision fmt : oblivious (parse_precision fmt).
Proof. unfold parse_precision. oblivious. Qed.
#[export] Hint Resolve oblivious_fmt_conv oblivious_parse_width oblivious_parse_precision : oblivious.
Lemma oblivious_fmt_directive fmt : oblivious (fmt_directive fmt).
Proof. unfold fmt_directive. oblivious. Qed.
#[export] Hint Resolve oblivious_fmt_directive : oblivious.
Lemma oblivious_fmt_loop fuel fmt : oblivious (fmt_loop fuel fmt).
Proof. revert fmt. induction fuel; intros [|c fmt]; cbn [fmt_loop]; oblivious. Qed.

(** ** Only a missing or wrong argument is a fault *)

(** What a conversion wants of its argument: any number or address, a string, or
    a pointer to write through. *)
Inductive arg_kind := KNum | KStr | KPtr.
Definition kind_ok (k : arg_kind) (a : varg) : bool :=
  match k, a with
  | KNum, _ | KStr, VStr _ _ | KPtr, VPtr _ => true
  | KStr, (VNum n | VPtr n) => u32 n <? PAGE_SIZE
  | KPtr, _ => false
  end.
Fixpoint kinds_ok (ks : list arg_kind) (args : list varg) : bool :=
  match ks, args with
  | [], _ => true
  | k :: ks, a :: args => kind_ok k a && kinds_ok ks args
  | _ :: _, [] => false
  end.

(** The arguments a format takes, read off the format alone. *)
Definition conv_kinds (c : Z) : list arg_kind :=
  if c =? 115 then [KStr]
  else if c =? 110 then [KPtr]
  else if (c =? 99) || (c =? 112) || (c =? 111) || (c =? 88) || (c =? 120) || (c =? 100) || (c =? 105) || (c =? 117)
  then [KNum] else [].
Definition star_kinds (fmt : list Z) : list arg_kind * list Z :=
  if isdigit (at_ fmt 0) then ([], (skip_atoi 0 fmt).2)
  else if at_ fmt 0 =? 42 then ([KNum], drop 1 fmt) else ([], fmt).
Definition dir_kinds (fmt : list Z) : list arg_kind * list Z :=
  let '(kw, fmt) := star_kinds (parse_flags 0 fmt).2 in
  let '(kp, fmt) := if at_ fmt 0 =? 46 then star_kinds (drop 1 fmt) else ([], fmt) in
  let fmt := (parse_qualifier fmt).2 in
  (kw ++ kp ++ conv_kinds (at_ fmt 0), drop 1 fmt).
Fixpoint fmt_kinds (fuel : nat) (fmt : list Z) : list arg_kind :=
  match fuel, fmt with
  | S fuel, c :: fmt =>
      if c =? 37 then let '(ks, fmt') := dir_kinds fmt in ks ++ fmt_kinds fuel fmt' else fmt_kinds fuel fmt
  | _, _ => []
  end.
(** The arguments fit the format; there may be more of them than it takes. *)
Definition args_fit (fmt : list Z) (args : list varg) : bool := kinds_ok (fmt_kinds (length fmt) fmt) args.

Lemma kinds_ok_app ks ks' args :
  kinds_ok (ks ++ ks') args = kinds_ok ks args && kinds_ok ks' (drop (length ks) args).
Proof.
  revert args. induction ks as [|k ks IH]; intros [|a args]; cbn [app kinds_ok length drop andb]; try done.
  by rewrite IH, andb_assoc.
Qed.

(** [m] takes arguments of the kinds [ks], writes only through pointers among
    them, and returns what satisfies [Q]; with other arguments it faults. *)
Definition runs {X} (m : OM X) (ks : list arg_kind) (Q : X → Prop) : Prop := ∀ o,
  if kinds_ok ks (ob_args o)
  then ∃ x o' w, m o = Done (x, o') ∧ ob_args o' = drop (length ks) (ob_args o) ∧
    ob_stored o' = ob_stored o ++ w ∧ Forall (λ x, VPtr x.1 ∈ take (length ks) (ob_args o)) w ∧ Q x
  else m o = Fault FNull.

Lemma runs_step {X} (m : OM X) (Q : X → Prop) :
  (∀ o, ∃ x o', m o = Done (x, o') ∧ ob_args o' = ob_args o ∧ ob_stored o' = ob_stored o ∧ Q x) → runs m [] Q.
Proof.
  intros H o. cbn [kinds_ok]. destruct (H o) as (x & o' & ? & ? & Hs & ?). exists x, o', [].
  by rewrite Hs, app_nil_r, drop_0.
Qed.
Lemma runs_ret {X} (x : X) (Q : X → Prop) : Q x → runs (mret x) [] Q.
Proof. intros ?. apply runs_step. intros o. by exists x, o. Qed.
Lemma runs_bind {X Y} (m : OM X) (f : X → OM Y) ks ks' (P : X → Prop) Q :
  runs m ks P → (∀ x, P x → runs (f x) ks' Q) → runs (x ← m; f x) (ks ++ ks') Q.
Proof.
  intros Hm Hf o. run_simpl. rewrite kinds_ok_app. specialize (Hm o).
  destruct (kinds_ok ks (ob_args o)); cbn [andb]; [|by rewrite Hm].
  destruct Hm as (x & o1 & w1 & -> & Ha1 & Hs1 & Hw1 & Hx). specialize (Hf x Hx o1). rewrite Ha1 in Hf.
  destruct (kinds_ok ks' _); [|done]. destruct Hf as (y & o2 & w2 & -> & Ha2 & Hs2 & Hw2 & Hy).
  exists y, o2, (w1 ++ w2). split; [done|]. split; [by rewrite Ha2, drop_drop, length_app|].
  split; [by rewrite Hs2, Hs1, (assoc_L (++))|]. split; [|done]. rewrite length_app, <- take_take_drop.
  apply list.Forall_app. split; (eapply list.Forall_impl; [eassumption|]); cbn; intros; apply elem_of_app; auto.
Qed.
(** The first part takes no argument, or the only one. *)
Lemma runs_bind0 {X Y} (m : OM X) (f : X → OM Y) ks (P : X → Prop) Q :
  runs m [] P → (∀ x, P x → runs (f x) ks Q) → runs (x ← m; f x) ks Q.
Proof. apply (runs_bind m f []). Qed.
Lemma runs_bind1 {X Y} (m : OM X) (f : X → OM Y) ks (P : X → Prop) Q :
  runs m ks P → (∀ x, P x → runs (f x) [] Q) → runs (x ← m; f x) ks Q.
Proof. rewrite <- (app_nil_r ks) at 2. apply runs_bind. Qed.
Lemma runs_emit c : runs (emit c) [] (λ _, True).
Proof. apply runs_step. intros o. rewrite emit_run. by eexists _, _. Qed.
Lemma runs_va_num : runs va_num [KNum] (λ _, True).
Proof.
  intros [mem pos [|a args] st]; cbn; [done|].
  destruct a; (eexists _, _, []; cbn; by rewrite app_nil_r).
Qed.
Lemma runs_va_string : runs va_string [KStr] (λ _, True).
Proof.
  intros [mem pos [|a args] st]; [done|]. unfold va_string, va_arg. run_simpl. cbn [kinds_ok ob_args kind_ok].
  destruct a as [n|n s|n]; rewrite andb_true_r; destruct (u32 n <? PAGE_SIZE); try done;
    (eexists _, _, []; cbn; by rewrite app_nil_r).
Qed.
Lemma runs_store_count : runs store_count [KPtr] (λ _, True).
Proof.
  intros [mem pos [|[n|n s|ip] args] st]; [done..|]. cbn. eexists _, _, [(ip, u32 pos)]. split; [done|].
  split; [done|]. split; [done|]. split; [|done]. repeat constructor.
Qed.
Create HintDb runs discriminated.
#[export] Hint Resolve runs_emit runs_va_num runs_va_string runs_store_count : runs.

Ltac runs :=
  repeat match goal with
  | |- runs (mret _) _ _ => apply runs_ret; try done
  | |- runs (mbind _ _) _ _ =>
      first [eapply (runs_bind0 _ _ _ (λ _, True)); [solve [runs]|intros ? ?]
            |eapply (runs_bind1 _ _ _ (λ _, True)); [solve [eauto with runs]|intros ? ?]]
  | |- runs (match _ with _ => _ end) _ _ => case_match
  | |- runs _ _ _ => solve [eauto with runs]
  end.

Lemma runs_emit_times n c : runs (emit_times n c) [] (λ _, True).
Proof. induction n; cbn [emit_times]; runs. Qed.
Lemma runs_emit_all s : runs (emit_all s) [] (λ _, True).
Proof. induction s; cbn [emit_all]; runs. Qed.
#[export] Hint Resolve runs_emit_times runs_emit_all : runs.
Lemma runs_pad c n : runs (pad c n) [] (λ _, True).
Proof. unfold pad. runs. Qed.
#[export] Hint Resolve runs_pad : runs.

Lemma runs_tmp_digits n type num base : 2 ≤ base → 0 ≤ num < 2 ^ Z.of_nat n → runs (tmp_digits n type num base) [] (λ _, True).
Proof.
  intros Hb. revert num. induction n as [|n IH]; intros num Hn; cbn [tmp_digits].
  - change (2 ^ Z.of_nat 0) with 1 in Hn. assert (num = 0) as -> by lia. by apply runs_ret.
  - destruct (num =? 0); [by apply runs_ret|]. eapply runs_bind0; [apply IH|intros; by apply runs_ret].
    rewrite Nat2Z.inj_succ, Z.pow_succ_r in Hn by lia. split; [apply Z.div_pos; lia|].
    apply Z.div_lt_upper_bound; [lia|]. nia.
Qed.

Lemma runs_number num base size precision type : 2 ≤ base ≤ 36 → 0 ≤ num < 2 ^ 64 →
  runs (number num base size precision type) [] (λ _, True).
Proof.
  intros Hb Hn. unfold number.
  destruct (Z.ltb_spec base 2), (Z.ltb_spec 36 base); try lia. cbn [orb].
  destruct (number_sign num size _) as [[sign num'] size'] eqn:E.
  assert (Hn' : 0 ≤ num' < 2 ^ 66).
  { assert (0 ≤ u64 (- num) < 2 ^ 64) by (apply Z.mod_pos_bound; done).
    unfold number_sign in E. repeat case_match; simplify_eq; lia. }
  clear E. eapply (runs_bind0 _ _ _ (λ _, True)); [destruct (num' =? 0); [by apply runs_ret|apply runs_tmp_digits; [lia|exact Hn']]|].
  intros tmp _. runs.
Qed.

Lemma flags_shorter flags fmt : (length (parse_flags flags fmt).2 ≤ length fmt)%nat.
Proof.
  revert flags. induction fmt as [|c fmt IH]; intros flags; cbn [parse_flags]; [done|].
  repeat case_match; cbn [snd length]; try (etransitivity; [apply IH|lia]). lia.
Qed.
Lemma skip_atoi_shorter i s : (length (skip_atoi i s).2 ≤ length s)%nat.
Proof.
  revert i. induction s as [|c s IH]; intros i; cbn [skip_atoi]; [done|].
  case_match; cbn [snd length]; [|lia]. etransitivity; [apply IH|lia].
Qed.
Lemma qualifier_shorter fmt : (length (parse_qualifier fmt).2 ≤ length fmt)%nat.
Proof. unfold parse_qualifier. repeat case_match; cbn [snd]; rewrite ?length_drop; lia. Qed.

Lemma star_shorter fmt : (length (star_kinds fmt).2 ≤ length fmt)%nat.
Proof.
  unfold star_kinds. pose proof (skip_atoi_shorter 0 fmt). repeat case_match; cbn [snd]; rewrite ?length_drop; lia.
Qed.
Lemma dir_shorter fmt : (length (dir_kinds fmt).2 ≤ length fmt)%nat.
Proof.
  unfold dir_kinds. pose proof (flags_shorter 0 fmt) as H1. pose proof (star_shorter (parse_flags 0 fmt).2) as H2.
  destruct (star_kinds _) as [kw f2]. cbn [snd] in H2.
  destruct (at_ f2 0 =? 46).
  - pose proof (star_shorter (drop 1 f2)) as H3. rewrite length_drop in H3. destruct (star_kinds (drop 1 f2)) as [kp f3].
    pose proof (qualifier_shorter f3). cbn [snd] in *. rewrite length_drop. lia.
  - pose proof (qualifier_shorter f2). cbn [snd] in *. rewrite length_drop. lia.
Qed.

Lemma runs_width flags fmt : runs (parse_width flags fmt) (star_kinds fmt).1 (λ r, r.2 = (star_kinds fmt).2).
Proof.
  unfold parse_width, star_kinds. destruct (isdigit _); [destruct (skip_atoi 0 fmt); by apply runs_ret|].
  destruct (_ =? 42); [|by apply runs_ret]. eapply runs_bind1; [apply runs_va_num|]. intros n _. apply runs_ret.
  by case_match.
Qed.

Lemma runs_precision fmt (sk := if at_ fmt 0 =? 46 then star_kinds (drop 1 fmt) else ([], fmt)) :
  runs (parse_precision fmt) sk.1 (λ r, r.2 = sk.2).
Proof.
  subst sk. unfold parse_precision, star_kinds. destruct (_ =? 46); [|by apply runs_ret].
  eapply (runs_bind1 _ _ _ (λ r, r.2 = _)); [|intros [p r] E; apply runs_ret; cbn [snd] in E; exact E].
  destruct (isdigit _); [destruct (skip_atoi 0 _); by apply runs_ret|].
  destruct (_ =? 42); [|by apply runs_ret]. eapply runs_bind1; [apply runs_va_num|]. intros n _. by apply runs_ret.
Qed.

Lemma int_arg_range q flags n : 0 ≤ int_arg q flags n < 2 ^ 64.
Proof.
  assert (∀ z, 0 ≤ u64 z < 2 ^ 64) by (intros; by apply Z.mod_pos_bound).
  assert (∀ z, 0 ≤ u32 z < 2 ^ 64) by (intros z; pose proof (u32_range z); lia).
  assert (∀ z, 0 ≤ u16 z < 2 ^ 64) by (intros z; assert (0 ≤ u16 z < 2 ^ 16) by (by apply Z.mod_pos_bound); lia).
  unfold int_arg. repeat case_match; auto.
Qed.

Lemma runs_fmt_char fw flags : runs (fmt_char fw flags) [KNum] (λ _, True).
Proof. unfold fmt_char. runs. Qed.
Lemma runs_fmt_string fw p flags : runs (fmt_string fw p flags) [KStr] (λ _, True).
Proof. unfold fmt_string. eapply runs_bind1; [apply runs_va_string|]. intros s _. cbv zeta. runs. Qed.
#[export] Hint Resolve runs_fmt_char runs_fmt_string : runs.

(** A conversion that prints its number. *)
Lemma runs_integer base q fl fw p flags (r : list Z) : 2 ≤ base ≤ 36 →
  runs (n ← va_num; number (int_arg q fl n) base fw p flags ;; mret r) [KNum] (λ r', r' = r).
Proof.
  intros Hb. eapply runs_bind1; [apply runs_va_num|]. intros n _.
  eapply runs_bind0; [apply runs_number; [done|apply int_arg_range]|]. intros _ _. by apply runs_ret.
Qed.
Lemma runs_pointer fw p flags (r : list Z) :
  runs (n ← va_num;
    (if fw =? -1 then number (u32 n) 16 8 p (Z.lor flags ZEROPAD) else number (u32 n) 16 fw p flags) ;;
    mret r) [KNum] (λ r', r' = r).
Proof.
  assert (Hn : ∀ n s f, runs (number (u32 n) 16 s p f) [] (λ _, True)).
  { intros n s f. apply runs_number; [lia|]. pose proof (u32_range n); lia. }
  eapply runs_bind1; [apply runs_va_num|]. intros n _.
  eapply (runs_bind0 _ _ _ (λ _, True)); [by destruct (fw =? -1)|]. intros _ _. by apply runs_ret.
Qed.

Lemma runs_conv flags fw p q fmt :
  runs (fmt_conv flags fw p q fmt) (conv_kinds (at_ fmt 0)) (λ r, r = drop 1 fmt).
Proof.
  unfold fmt_conv, conv_kinds. cbv zeta.
  repeat match goal with |- context [at_ fmt 0 =? ?c] => destruct (Z.eqb_spec (at_ fmt 0) c) as [E|]; [rewrite E; cbn [Z.eqb Pos.eqb orb]|] end;
    cbn [orb]; first [apply runs_integer; lia|apply runs_pointer|runs].
Qed.

Lemma runs_directive fmt : runs (fmt_directive fmt) (dir_kinds fmt).1 (λ r, r = (dir_kinds fmt).2).
Proof.
  unfold fmt_directive, dir_kinds. destruct (parse_flags 0 fmt) as [flags f1]. cbn [snd].
  pose proof (runs_width flags f1) as Hw. destruct (star_kinds f1) as [kw f2]. cbn [fst snd] in Hw.
  pose proof (runs_precision f2) as Hp. cbv zeta in Hp.
  destruct (if at_ f2 0 =? 46 then _ else _) as [kp f3]. cbn [fst snd] in Hp. cbn [fst snd].
  eapply runs_bind; [exact Hw|]. intros [[fw fl] f2'] E2. cbn [snd] in E2. subst f2'.
  eapply runs_bind; [exact Hp|]. intros [p f3'] E3. cbn [snd] in E3. subst f3'.
  destruct (parse_qualifier f3) as [q f4]. cbn [snd]. apply runs_conv.
Qed.

Lemma runs_loop fuel fmt : (length fmt ≤ fuel)%nat → runs (fmt_loop fuel fmt) (fmt_kinds fuel fmt) (λ _, True).
Proof.
  revert fmt. induction fuel as [|fuel IH]; intros [|c fmt] Hf; cbn [fmt_loop fmt_kinds]; try (by apply runs_ret); [cbn in Hf; lia|].
  cbn in Hf. destruct (c =? 37).
  - pose proof (dir_shorter fmt). pose proof (runs_directive fmt) as Hd. destruct (dir_kinds fmt) as [ks r]. cbn [fst snd] in *.
    eapply runs_bind; [exact Hd|]. intros r' ->. apply IH. lia.
  - eapply runs_bind0; [apply runs_emit|]. intros _ _. apply IH. lia.
Qed.

(** The buffer afterwards: as much of the text as fits, a NUL byte, and the old
    contents behind it. *)
Definition render (mem text : list Z) : list Z :=
  match length mem with
  | O => mem
  | S n => take n text ++ 0 :: drop (S (length (take n text))) mem
  end.

Lemma render_overlay mem text : (0 < length mem)%nat →
  (if Z.of_nat (length text) <? Z.of_nat (length mem) then <[Z.to_nat (Z.of_nat (length text)) := 0]> (overlay mem 0 text)
   else <[Z.to_nat (Z.of_nat (length mem) - 1) := 0]> (overlay mem 0 text)) = render mem text.
Proof.
  intros Hm. unfold render. destruct (length mem) as [|n] eqn:En; [lia|].
  remember (length (take n text)) as k eqn:Hkl. assert (Hk : k = Nat.min n (length text)) by (subst k; apply length_take).
  assert (E : (if Z.of_nat (length text) <? Z.of_nat (S n) then <[Z.to_nat (Z.of_nat (length text)) := 0]> (overlay mem 0 text)
               else <[Z.to_nat (Z.of_nat (S n) - 1) := 0]> (overlay mem 0 text)) = <[k := 0]> (overlay mem 0 text)).
  { destruct (Z.ltb_spec (Z.of_nat (length text)) (Z.of_nat (S n))); do 2 f_equal; lia. }
  rewrite E. apply list_eq. intros i. destruct (decide (i < S n)%nat) as [Hi|Hi].
  - destruct (Nat.lt_total i k) as [Hik|[->|Hik]].
    + rewrite list_lookup_insert_ne, overlay_lookup, lookup_app_l by lia. change (Z.to_nat 0) with 0%nat; cbn [Nat.add].
      destruct (Nat.leb_spec 0 i), (Nat.ltb_spec i (length text)); try lia. cbn [andb].
      rewrite lookup_take, decide_True by lia. f_equal. lia.
    + rewrite list_lookup_insert_eq by (rewrite overlay_length; lia). rewrite lookup_app_r by lia.
      rewrite <- Hkl. by rewrite Nat.sub_diag.
    + rewrite list_lookup_insert_ne, overlay_lookup, lookup_app_r by lia. change (Z.to_nat 0) with 0%nat; cbn [Nat.add]. rewrite <- Hkl.
      destruct (Nat.leb_spec 0 i), (Nat.ltb_spec i (length text)); try lia; cbn [andb].
      replace (i - k)%nat with (S (i - S k)) by lia.
      change ((0 :: drop (S k) mem) !! S (i - S k)%nat) with (drop (S k) mem !! (i - S k)%nat). rewrite lookup_drop. f_equal. lia.
  - rewrite !lookup_ge_None_2; [done|..].
    + rewrite length_app. cbn [length]. rewrite length_drop, <- Hkl. lia.
    + rewrite length_insert, overlay_length. lia.
Qed.

(** The end of [vsnprintf]. *)
Lemma terminate_text mem text args st : (terminate (Z.of_nat (length mem)) ;; gets (λ o, s32 (ob_pos o))) (OBuf (overlay mem 0 text) (Z.of_nat (length text)) args st) =
  Done (s32 (Z.of_nat (length text)), OBuf (render mem text) (Z.of_nat (length text)) args st).
Proof.
  set (o := OBuf _ _ _ _). replace (Z.of_nat (length mem)) with (ob_size o) by (unfold ob_size; cbn; by rewrite overlay_length).
  rewrite terminate_run. unfold o, ob_size. cbn [ob_mem ob_pos ob_args ob_stored]. rewrite overlay_length. cbn zeta. do 3 f_equal.
  destruct (Z.ltb_spec 0 (Z.of_nat (length mem))); [apply render_overlay; lia|].
  destruct mem; [|cbn in *; lia]. unfold render. cbn [length]. assert (length (overlay [] 0 text) = 0%nat) by apply overlay_length.
  by destruct (overlay [] 0 text).
Qed.

(** C21: [vsnprintf] is safe and total.  Whether the arguments fit the format is
    read off the format: a number or address for each number, character, pointer
    and asterisk, a readable string (or an address in the first page) for each
    %s, a pointer to an integer for each %n.  If they fit, there is a text that
    does not depend on the buffer, and for every buffer shorter than 2^31 bytes
    the function puts as much of it into the buffer as fits, always ends it with
    a NUL byte, leaves the rest of the buffer as it was, writes elsewhere only
    through the pointers passed for %n, and returns the length of the whole
    text.  If they do not fit, an argument is missing or a pointer is wild, and
    the call faults. *)
Theorem vsnprintf_truncates (fmt : list Z) (args : list varg) :
  if args_fit fmt args
  then ∃ text args' stored, Forall (λ w, VPtr w.1 ∈ args) stored ∧
    ∀ mem, Z.of_nat (length mem) < 2 ^ 31 →
      vsnprintf fmt (OBuf mem 0 args []) =
        Done (s32 (Z.of_nat (length text)), OBuf (render mem text) (Z.of_nat (length text)) args' stored)
  else ∀ mem, Z.of_nat (length mem) < 2 ^ 31 → vsnprintf fmt (OBuf mem 0 args []) = Fault FNull.
Proof.
  assert (Hneg : ∀ mem : list Z, Z.of_nat (length mem) < 2 ^ 31 → (s32 (Z.of_nat (length mem)) <? 0) = false).
  { intros mem Hm. rewrite s32_small by lia. apply Z.ltb_ge. lia. }
  unfold args_fit. pose proof (λ mem, runs_loop (length fmt) fmt (le_n _) (OBuf mem 0 args [])) as Hr.
  cbn [ob_args] in Hr. destruct (kinds_ok _ args).
  - destruct (oblivious_fmt_loop (length fmt) fmt 0 args []) as [[e He]|([] & text & args' & st & E)].
    { destruct (Hr []) as (x & o' & w & Hx & _). by rewrite He in Hx. }
    exists text, args', st. split.
    + destruct (Hr []) as (x & o' & w & Hx & _ & Hs & Hw & _). rewrite E in Hx. injection Hx as _ <-.
      cbn [ob_stored app] in Hs. subst w. eapply list.Forall_impl; [exact Hw|]. cbn. intros y Hy.
      apply elem_of_take in Hy as (i & Hi & _). by eapply list_elem_of_lookup_2.
    + intros mem Hm. unfold vsnprintf. cbn [ob_mem]. rewrite Hneg, E by done. cbn [ob_mem ob_pos ob_args ob_stored].
      rewrite Z.add_0_l. apply terminate_text.
  - intros mem Hm. unfold vsnprintf. cbn [ob_mem]. by rewrite Hneg, Hr by done.
Qed.

(** A number, a string and a count, into five bytes. *)
Example truncated_text :
  args_fit [37; 45; 51; 100; 37; 115; 37; 110] [VNum 7; VStr 8192 [97; 98]; VPtr 16384] = true ∧
  vsnprintf [37; 45; 51; 100; 37; 115; 37; 110] (OBuf [1; 1; 1; 1; 1] 0 [VNum 7; VStr 8192 [97; 98]; VPtr 16384] []) =
    Done (5, OBuf [55; 32; 32; 97; 0] 5 [] [(16384, 5)]) ∧
  args_fit [37; 115] [VNum 70000] = false.
Proof. vm_compute. split_and!; reflexivity. Qed.

(** [vscnprintf] returns the length of what is in the buffer; with a buffer of no
    bytes, -1 and not 0. *)
Theorem vscnprintf_returns fmt mem args r o : Z.of_nat (length mem) < 2 ^ 31 →
  vscnprintf fmt (OBuf mem 0 args []) = Done (r, o) → ob_pos o < 2 ^ 31 →
  r = if decide (mem = []) then -1 else Z.min (ob_pos o) (Z.of_nat (length mem) - 1).
Proof.
  intros Hm. unfold vscnprintf. destruct (vsnprintf fmt _) as [[i o']|e] eqn:E; [|done]. intros [= <- <-] Hp. cbn [ob_mem].
  assert (Hi : i = s32 (ob_pos o') ∧ 0 ≤ ob_pos o').
  { unfold vsnprintf in E. cbn [ob_mem] in E. rewrite s32_small in E by lia. destruct (Z.ltb_spec (Z.of_nat (length mem)) 0); [lia|].
    destruct (oblivious_fmt_loop (length fmt) fmt 0 args []) as [[e He]|([] & text & args' & st & Ef)]; [by rewrite He in E|].
    rewrite Ef, Z.add_0_l, terminate_text in E. injection E as <- <-. cbn [ob_pos]. split; [done|lia]. }
  destruct Hi as [-> Hpos]. rewrite s32_small, u32_small by lia. case_decide as Hd.
  - subst mem. cbn [length]. destruct (Z.leb_spec (Z.of_nat 0) (ob_pos o')); [done|lia].
  - assert (0 < length mem)%nat by (destruct mem; cbn; [done|lia]).
    destruct (Z.leb_spec (Z.of_nat (length mem)) (ob_pos o')); [rewrite s32_small by lia|]; lia.
Qed.

(** ** The text of a number *)

(** The digits of [num], lowest first. *)
Fixpoint low_digits (n : nat) (type num base : Z) : list Z :=
  match n with
  | O => []
  | S n => if num =? 0 then [] else digit_char type (num mod base) :: low_digits n type (num / base) base
  end.

Definition sign_text (num type : Z) : list Z :=
  if flag type SIGN then
    if s64 num <? 0 then [45] else if flag type PLUS then [43] else if flag type SPACE then [32] else []
  else [].
Definition magnitude (num type : Z) : Z := if flag type SIGN && (s64 num <? 0) then u64 (- num) else num.
Definition prefix_text (base type : Z) : list Z :=
  if flag type SPECIAL then
    if base =? 8 then [48] else if base =? 16 then [48; if flag type LARGE then 88 else 120] else []
  else [].
Definition digits_text (num base precision type : Z) : list Z :=
  let d := if num =? 0 then [48] else rev (low_digits 66 type num base) in
  replicate (Z.to_nat (precision - Z.of_nat (length d))) 48 ++ d.

(** Sign, prefix and digits, filled up to the width: on the right, with zeros
    before the digits, or on the left. *)
Definition number_text (num base size precision type : Z) : list Z :=
  let sign := sign_text num type in
  let prefix := prefix_text base type in
  let digits := digits_text (magnitude num type) base precision type in
  let fill := Z.to_nat (s32 (size - Z.of_nat (length sign) - Z.of_nat (length prefix) - Z.of_nat (length digits))) in
  if flag type LEFT then sign ++ prefix ++ digits ++ replicate fill 32
  else if flag type ZEROPAD then sign ++ prefix ++ replicate fill 48 ++ digits
  else replicate fill 32 ++ sign ++ prefix ++ digits.

Definition put (o : obuf) (s : list Z) : obuf :=
  OBuf (overlay (ob_mem o) (ob_pos o) s) (ob_pos o + Z.of_nat (length s)) (ob_args o) (ob_stored o).
Lemma put_nil o : put o [] = o.
Proof. destruct o. unfold put. cbn. by rewrite Z.add_0_r. Qed.
Lemma put_app o s t : put (put o s) t = put o (s ++ t).
Proof. unfold put. cbn. rewrite overlay_app, length_app. f_equal. lia. Qed.
Lemma emit_put c o : emit c o = Done (tt, put o [c]).
Proof. apply emit_run. Qed.
Lemma emit_all_put s o : emit_all s o = Done (tt, put o s).
Proof.
  revert o. induction s as [|c s IH]; intros o; cbn [emit_all]; [by rewrite put_nil|]. run_simpl. rewrite emit_put. cbn beta iota.
  rewrite IH, put_app. done.
Qed.
Lemma emit_times_put n c o : emit_times n c o = Done (tt, put o (replicate n c)).
Proof.
  revert o. induction n as [|n IH]; intros o; cbn [emit_times replicate]; [by rewrite put_nil|]. run_simpl. rewrite emit_put.
  cbn beta iota. rewrite IH, put_app. done.
Qed.
Lemma pad_put c n o : pad c n o = Done (Z.min n 0 - 1, put o (replicate (Z.to_nat n) c)).
Proof. unfold pad. run_simpl. by rewrite emit_times_put. Qed.

Lemma tmp_digits_low n type num base o : 2 ≤ base → 0 ≤ num < 2 ^ Z.of_nat n →
  tmp_digits n type num base o = Done (low_digits n type num base, o).
Proof.
  intros Hb. revert num. induction n as [|n IH]; intros num Hn; cbn [tmp_digits low_digits].
  - change (2 ^ Z.of_nat 0) with 1 in Hn. assert (num = 0) as -> by lia. done.
  - destruct (num =? 0); [done|]. run_simpl. rewrite IH; [done|].
    rewrite Nat2Z.inj_succ, Z.pow_succ_r in Hn by lia. split; [apply Z.div_pos; lia|].
    apply Z.div_lt_upper_bound; [lia|]. nia.
Qed.

Lemma s32_sub_s32 a b : s32 (s32 a - b) = s32 (a - b).
Proof. apply s32_mod_eq. by rewrite Zminus_mod, s32_congr, <- Zminus_mod. Qed.

(** The flag word with the zero flag cleared. *)
Lemma flag_clear type f : Z.land (Z.lnot ZEROPAD) f = f → flag (Z.land type (Z.lnot ZEROPAD)) f = flag type f.
Proof. intros H. unfold flag. by rewrite <- Z.land_assoc, H. Qed.

(** After a loop that ran the counter down nothing is left to pad. *)
Lemma no_more n : Z.to_nat (Z.min n 0 - 1) = 0%nat.
Proof. lia. Qed.

Lemma flag_zeropad_left type : flag type (ZEROPAD + LEFT) = flag type LEFT || flag type ZEROPAD.
Proof.
  unfold flag. change (ZEROPAD + LEFT) with (Z.lor ZEROPAD LEFT). rewrite Z.land_lor_distr_r.
  destruct (Z.eqb_spec (Z.lor (Z.land type ZEROPAD) (Z.land type LEFT)) 0) as [E|E].
  - apply Z.lor_eq_0_iff in E as [-> ->]. done.
  - destruct (Z.eqb_spec (Z.land type ZEROPAD) 0) as [E1|], (Z.eqb_spec (Z.land type LEFT) 0) as [E2|]; try done.
    by rewrite E1, E2 in E.
Qed.

(** The sign, and what it and the prefix leave of the width. *)
Lemma number_sign_text num size type : number_sign num size type =
  (nth 0 (sign_text num type) 0, magnitude num type,
   if (0 <? length (sign_text num type))%nat then s32 (size - Z.of_nat (length (sign_text num type))) else size).
Proof. unfold number_sign, sign_text, magnitude. by repeat case_match. Qed.
Lemma sign_emit num type o :
  (if nth 0 (sign_text num type) 0 =? 0 then mret tt else emit (nth 0 (sign_text num type) 0)) o = Done (tt, put o (sign_text num type)).
Proof.
  unfold sign_text. destruct (flag type SIGN), (s64 num <? 0), (flag type PLUS), (flag type SPACE); first [apply emit_put|by rewrite put_nil].
Qed.
Lemma prefix_emit base type o :
  (if flag type SPECIAL then
     if base =? 8 then emit 48
     else if base =? 16 then emit 48 ;; emit (if flag type LARGE then 88 else 120)
     else mret tt
   else mret tt) o = Done (tt, put o (prefix_text base type)).
Proof.
  unfold prefix_text. repeat case_match; try apply emit_put; try done; try (by rewrite put_nil); run_simpl; rewrite emit_put; cbn beta iota; by rewrite emit_put, put_app.
Qed.

Definition flat (type : Z) : Z := if flag type LEFT then Z.land type (Z.lnot ZEROPAD) else type.
Lemma flat_flag type f : Z.land (Z.lnot ZEROPAD) f = f → flag (flat type) f = flag type f.
Proof. intros H. unfold flat. destruct (flag type LEFT); [by apply flag_clear|done]. Qed.
Lemma flat_left type : flag (flat type) LEFT = true → flag (flat type) ZEROPAD = false.
Proof.
  unfold flat. destruct (flag type LEFT) eqn:E; [|by rewrite E]. intros _. unfold flag.
  by rewrite <- Z.land_assoc, Z.land_0_r.
Qed.
Lemma flat_low_digits n type num base : low_digits n (flat type) num base = low_digits n type num base.
Proof.
  revert num. induction n as [|n IH]; intros num; cbn [low_digits]; [done|]. rewrite IH. unfold digit_char. by rewrite flat_flag.
Qed.
Lemma flat_text num base size precision type :
  number_text num base size precision (flat type) = number_text num base size precision type.
Proof.
  unfold number_text, sign_text, prefix_text, digits_text, magnitude. rewrite flat_low_digits, !flat_flag by done.
  destruct (flag type LEFT) eqn:E; [done|]. unfold flat. by rewrite E.
Qed.

Lemma magnitude_range num type : 0 ≤ num < 2 ^ 64 → 0 ≤ magnitude num type < 2 ^ 66.
Proof.
  intros Hn. unfold magnitude. assert (0 ≤ u64 (- num) < 2 ^ 64) by (by apply Z.mod_pos_bound). case_match; lia.
Qed.

Lemma low_digits_length n type num base : (length (low_digits n type num base) ≤ n)%nat.
Proof. revert num. induction n as [|n IH]; intros num; cbn [low_digits]; [done|]. case_match; cbn [length]; [lia|]. specialize (IH (num / base)). lia. Qed.

Lemma bind_done {X Y} (m : OM X) (f : X → OM Y) o x o' : m o = Done (x, o') → (x ← m; f x) o = f x o'.
Proof. intros E. run_simpl. by rewrite E. Qed.
Lemma bind_ret {X Y} (x : X) (f : X → OM Y) o : (x ← mret x; f x) o = f x o.
Proof. done. Qed.

(** Runs the output operations of a sequence. *)
Ltac run_text :=
  repeat first
    [ rewrite bind_ret
    | rewrite (bind_done _ _ _ _ _ (pad_put _ _ _))
    | rewrite (bind_done _ _ _ _ _ (emit_all_put _ _))
    | rewrite (bind_done _ _ _ _ _ (sign_emit _ _ _))
    | rewrite (bind_done _ _ _ _ _ (prefix_emit _ _ _)) ];
  unfold mret, M_ret.

(** [number] outputs the text. *)
Lemma number_emits num base size precision type o : 2 ≤ base ≤ 36 → 0 ≤ num < 2 ^ 64 → - 2 ^ 31 ≤ size < 2 ^ 31 →
  number num base size precision type o = Done (tt, put o (number_text num base size precision type)).
Proof.
  intros Hb Hn Hs. rewrite <- flat_text. unfold number. fold (flat type). pose proof (flat_left type) as HL.
  generalize dependent (flat type). clear type. intros type HL.
  destruct (Z.ltb_spec base 2), (Z.ltb_spec 36 base); try lia. cbn [orb]. rewrite number_sign_text. cbn beta iota zeta.
  set (d := if magnitude num type =? 0 then [48] else low_digits 66 type (magnitude num type) base).
  assert (Ed : (if magnitude num type =? 0 then mret [48] else tmp_digits 66 type (magnitude num type) base) o = Done (d, o)).
  { unfold d. destruct (_ =? 0); [done|]. apply tmp_digits_low; [lia|]. by apply magnitude_range. }
  rewrite (bind_done _ _ _ _ _ Ed). cbn beta iota zeta.
  set (t := digits_text (magnitude num type) base precision type).
  set (p := if precision <? Z.of_nat (length d) then Z.of_nat (length d) else precision).
  assert (Et : t = replicate (Z.to_nat (p - Z.of_nat (length d))) 48 ++ rev d ∧ Z.of_nat (length t) = p).
  { assert (E : (if magnitude num type =? 0 then [48] else rev (low_digits 66 type (magnitude num type) base)) = rev d) by (unfold d; by destruct (_ =? 0)).
    unfold t, digits_text. rewrite E, !length_app, !length_replicate, !length_rev. unfold p.
    destruct (Z.ltb_spec precision (Z.of_nat (length d))); split; try lia; do 2 f_equal; lia. }
  destruct Et as [Et Lt].
  match goal with |- context [s32 (?s - p)] => assert (Es : s32 (s - p) = s32 (size - Z.of_nat (length (sign_text num type)) - Z.of_nat (length (prefix_text base type)) - Z.of_nat (length t))) end.
  { rewrite Lt. assert (Hp : ∀ z, s32 ((if flag type SPECIAL then if base =? 16 then s32 (z - 2) else if base =? 8 then s32 (z - 1) else z else z) - p) =
      s32 (z - Z.of_nat (length (prefix_text base type)) - p)).
    { intros z. unfold prefix_text. destruct (flag type SPECIAL); [|cbn; f_equal; lia].
      destruct (Z.eqb_spec base 16) as [->|]; [by rewrite s32_sub_s32|]. destruct (base =? 8); [by rewrite s32_sub_s32|cbn; f_equal; lia]. }
    rewrite Hp. destruct (0 <? length (sign_text num type))%nat eqn:El.
    - rewrite <- !Z.sub_add_distr. rewrite s32_sub_s32. f_equal. lia.
    - apply Nat.ltb_ge in El. f_equal. lia. }
  rewrite Es. clear Es. unfold number_text. fold t. clear Ed.
  set (w := s32 (size - Z.of_nat (length (sign_text num type)) - Z.of_nat (length (prefix_text base type)) - Z.of_nat (length t))).
  rewrite flag_zeropad_left. destruct (flag type LEFT); [specialize (HL eq_refl); rewrite HL|destruct (flag type ZEROPAD)]; cbn [orb].
  - run_text. rewrite !put_app, Et. by rewrite <- !app_assoc.
  - run_text. rewrite no_more, !put_app, Et. cbn [replicate]. by rewrite app_nil_r.
  - run_text. rewrite !no_more, !put_app, Et. cbn [replicate]. by rewrite !app_nil_r.
Qed.

(** ** Reading the text back *)

Lemma digit_char_value type d : 0 ≤ d < 16 → isxdigit (digit_char type d) = true ∧ digit_value (digit_char type d) = d ∧ (toupper (digit_char type d) =? 88) = false.
Proof.
  intros Hd. unfold digit_char. destruct (flag type LARGE);
    (assert (d = 0 ∨ d = 1 ∨ d = 2 ∨ d = 3 ∨ d = 4 ∨ d = 5 ∨ d = 6 ∨ d = 7 ∨ d = 8 ∨ d = 9 ∨ d = 10 ∨ d = 11 ∨ d = 12 ∨ d = 13 ∨ d = 14 ∨ d = 15) as H by lia;
     repeat destruct H as [->|H]; try subst d; by vm_compute).
Qed.

Lemma digit_loop_digits w base type n num r rest : 2 ≤ base ≤ 16 → 0 ≤ num < base ^ Z.of_nat n → wrap w r = r →
  digit_loop w base r (rev (low_digits n type num base) ++ rest) =
  digit_loop w base (wrap w (r * base ^ Z.of_nat (length (low_digits n type num base)) + num)) rest.
Proof.
  intros Hb. revert num rest. induction n as [|n IH]; intros num rest Hn Hr; cbn [low_digits].
  - change (base ^ Z.of_nat 0) with 1 in Hn. cbn [rev app length]. change (base ^ Z.of_nat 0) with 1.
    replace (r * 1 + num) with r by lia. by rewrite Hr.
  - destruct (Z.eqb_spec num 0) as [->|Hz].
    { cbn [rev app length]. change (base ^ Z.of_nat 0) with 1. replace (r * 1 + 0) with r by lia. by rewrite Hr. }
    pose proof (Z.mod_pos_bound num base ltac:(lia)) as Hm.
    cbn [rev length]. rewrite <- app_assoc. cbn [app]. rewrite IH; [|split; [apply Z.div_pos; lia|]|done].
    + cbn [digit_loop]. destruct (digit_char_value type (num mod base) ltac:(lia)) as (-> & -> & _).
      destruct (Z.ltb_spec (num mod base) base); [|lia]. cbn [andb]. f_equal.
      unfold wrap. rewrite Zplus_mod_idemp_l. rewrite <- Zplus_mod_idemp_l, Zmult_mod_idemp_l, Zplus_mod_idemp_l.
      f_equal. rewrite Nat2Z.inj_succ, Z.pow_succ_r by lia. pose proof (Z.div_mod num base ltac:(lia)). nia.
    + apply Z.div_lt_upper_bound; [lia|]. rewrite Nat2Z.inj_succ, Z.pow_succ_r in Hn by lia. lia.
Qed.

Lemma low_digits_short n k type num base : 2 ≤ base → 0 ≤ num < base ^ Z.of_nat k → (length (low_digits n type num base) ≤ k)%nat.
Proof.
  intros Hb. revert k num. induction n as [|n IH]; intros k num Hn; cbn [low_digits length]; [lia|].
  destruct (Z.eqb_spec num 0) as [->|Hz]; cbn [length]; [lia|]. destruct k as [|k]; [change (base ^ Z.of_nat 0) with 1 in Hn; lia|].
  apply le_n_S, IH. rewrite Nat2Z.inj_succ, Z.pow_succ_r in Hn by lia. split; [apply Z.div_pos; lia|apply Z.div_lt_upper_bound; lia].
Qed.

(** The string in a buffer ends at the first NUL byte. *)
Fixpoint c_string (mem : list Z) : list Z :=
  match mem with c :: mem => if c =? 0 then [] else c :: c_string mem | [] => [] end.
Lemma c_string_render mem text : Forall (λ c, c ≠ 0) text → (length text < length mem)%nat → c_string (render mem text) = text.
Proof.
  intros Ht Hl. unfold render. destruct (length mem) as [|n]; [lia|]. rewrite take_ge by lia. generalize (drop (S (length text)) mem).
  clear Hl. intros l. induction Ht as [|c text Hc _ IH]; [done|]. cbn [app c_string]. destruct (Z.eqb_spec c 0); [done|]. by rewrite IH.
Qed.

Lemma low_digits_nonzero n type num base : 2 ≤ base → 0 ≤ num → Forall (λ c, c ≠ 0) (low_digits n type num base).
Proof.
  intros Hb. revert num. induction n as [|n IH]; intros num Hn; cbn [low_digits]; [by apply list.Forall_nil|].
  case_match; [by apply list.Forall_nil|]. apply list.Forall_cons. split; [|apply IH, Z.div_pos; lia].
  pose proof (Z.mod_pos_bound num base ltac:(lia)). unfold digit_char. repeat case_match; lia.
Qed.

(** The first of the digits is zero for zero only. *)
Lemma low_digits_top n type num base : 2 ≤ base ≤ 36 → 0 < num < base ^ Z.of_nat n →
  ∃ d r, rev (low_digits n type num base) = digit_char type d :: r ∧ 0 < d < base.
Proof.
  intros Hb. revert num. induction n as [|n IH]; intros num Hn; cbn [low_digits]; [change (base ^ Z.of_nat 0) with 1 in Hn; lia|].
  destruct (Z.eqb_spec num 0); [lia|]. cbn [rev]. destruct (decide (num / base = 0)) as [E|E].
  - rewrite E. assert (Ed : low_digits n type 0 base = []) by (by destruct n). rewrite Ed. exists (num mod base), []. split; [done|].
    pose proof (Z.div_mod num base ltac:(lia)). pose proof (Z.mod_pos_bound num base ltac:(lia)). lia.
  - assert (0 ≤ num / base) by (apply Z.div_pos; lia).
    destruct (IH (num / base)) as (d & r & -> & Hd); [|by exists d, (r ++ [digit_char type (num mod base)])].
    split; [lia|]. rewrite Nat2Z.inj_succ, Z.pow_succ_r in Hn by lia. apply Z.div_lt_upper_bound; lia.
Qed.

(** The conversions that print a number in a form that says its base. *)
Inductive conv := ConvU | ConvO | Convx | ConvX | ConvD.
(** "%lu", "%#lo", "%#lx", "%#lX" and "%ld" *)
Definition conv_format (c : conv) : list Z :=
  match c with
  | ConvU => [37; 108; 117] | ConvO => [37; 35; 108; 111] | Convx => [37; 35; 108; 120]
  | ConvX => [37; 35; 108; 88] | ConvD => [37; 108; 100]
  end.
Definition conv_base (c : conv) : Z := match c with ConvU | ConvD => 10 | ConvO => 8 | Convx | ConvX => 16 end.
Definition conv_flags (c : conv) : Z :=
  match c with ConvU => 0 | ConvO | Convx => SPECIAL | ConvX => Z.lor SPECIAL LARGE | ConvD => SIGN end.
Definition conv_range (c : conv) (n : Z) : Prop := match c with ConvD => - 2 ^ 31 ≤ n < 2 ^ 31 | _ => 0 ≤ n < 2 ^ 32 end.
Definition conv_text (c : conv) (n : Z) : list Z :=
  number_text (int_arg 108 (conv_flags c) n) (conv_base c) (-1) (-1) (conv_flags c).

Lemma conv_directive c : ∃ k, fmt_directive (drop 1 (conv_format c)) =
  fmt_conv (match c with ConvO | Convx | ConvX => SPECIAL | _ => 0 end) (-1) (-1) 108 [k] ∧
  fmt_conv (match c with ConvO | Convx | ConvX => SPECIAL | _ => 0 end) (-1) (-1) 108 [k] =
    (n ← va_num; number (int_arg 108 (conv_flags c) n) (conv_base c) (-1) (-1) (conv_flags c) ;; mret []).
Proof. destruct c; eexists; split; reflexivity. Qed.

Lemma conv_prints c n mem :
  fmt_loop (length (conv_format c)) (conv_format c) (OBuf mem 0 [VNum n] []) = Done (tt, put (OBuf mem 0 [] []) (conv_text c n)).
Proof.
  assert (E : conv_format c = 37 :: drop 1 (conv_format c) ∧ ∃ m, length (conv_format c) = S m) by (destruct c; split; eauto).
  destruct E as [E [m ->]]. rewrite E. cbn [fmt_loop]. change (37 =? 37) with true. cbn iota.
  destruct (conv_directive c) as (k & Ek & Ek'). rewrite Ek, Ek'. run_simpl. unfold va_num, va_arg. run_simpl. cbn [ob_args ob_mem ob_pos ob_stored].
  rewrite number_emits; [by destruct m|destruct c; cbn; lia|apply int_arg_range|lia].
Qed.

(** The digits [number] prints, and what the parser makes of them. *)
Definition digits (type m base : Z) : list Z := if m =? 0 then [48] else rev (low_digits 66 type m base).
Lemma digits_top type m base : 2 ≤ base ≤ 36 → 0 ≤ m < base ^ 66 →
  ∃ d r, digits type m base = digit_char type d :: r ∧ 0 ≤ d < base ∧ (m = 0 ∧ r = [] ∨ d ≠ 0).
Proof.
  intros Hb Hm. unfold digits. destruct (Z.eqb_spec m 0) as [->|].
  - exists 0, []. repeat split; [lia..|by left].
  - destruct (low_digits_top 66 type m base) as (d & r & -> & Hd); [lia|cbn; lia|]. exists d, r. repeat split; [lia..|right; lia].
Qed.
Lemma digits_value w type m base : 2 ≤ base ≤ 16 → 0 ≤ m < base ^ 66 → 0 < w → digit_loop w base 0 (digits type m base) = (wrap w m, []).
Proof.
  intros Hb Hm Hw. assert (W0 : wrap w 0 = 0) by (unfold wrap; by rewrite Z.mod_0_l by lia).
  unfold digits. destruct (Z.eqb_spec m 0) as [->|].
  - assert (E : digit_loop w base 0 [48] = (if 0 <? base then wrap w (wrap w (0 * base) + 0) else 0, if 0 <? base then [] else [48])).
    { cbn [digit_loop]. change (isxdigit 48) with true. change (digit_value 48) with 0. by destruct (0 <? base). }
    rewrite E. destruct (Z.ltb_spec 0 base); [|lia]. by rewrite Z.mul_0_l, W0, Z.add_0_r, W0.
  - rewrite <- (app_nil_r (rev _)), digit_loop_digits; [|done|cbn; lia|done]. cbn [digit_loop]. by rewrite Z.mul_0_l.
Qed.
Lemma digits_short type m base k : 2 ≤ base → 0 ≤ m < base ^ Z.of_nat k → (1 ≤ k)%nat → (length (digits type m base) ≤ k)%nat.
Proof. intros Hb Hm Hk. unfold digits. case_match; [done|]. rewrite length_rev. by apply low_digits_short. Qed.

(** A prefix that says the base, or the base as an argument. *)
Lemma strtoul_prefixed type m base b : base = 8 ∨ base = 10 ∨ base = 16 → flag type SPECIAL = negb (base =? 10) →
  0 ≤ m < 2 ^ 32 → b = 0 ∨ b = base →
  simple_strtoul (prefix_text base type ++ digits type m base) b = (m, []).
Proof.
  intros Hbase Ht Hm Hb.
  assert (Hm' : 0 ≤ m < base ^ 66).
  { assert (2 ^ 32 ≤ base ^ 66); [|lia]. destruct Hbase as [->|[->| ->]]; vm_compute; discriminate. }
  assert (E : digit_loop 32 base 0 (digits type m base) = (m, [])).
  { rewrite digits_value by lia. by rewrite wrap_small. }
  destruct (digits_top type m base) as (d & r & Ed & Hd & Hz); [lia|done|].
  destruct (digit_char_value type d ltac:(lia)) as (Hx & Hv & Hu).
  unfold simple_strtoul, prefix_text. rewrite Ht. destruct Hbase as [->|[->| ->]]; cbn -[digits digit_loop parse_prefix].
  - destruct Hb as [->| ->].
    + assert (Ep : parse_prefix (48 :: digits type m 8) 0 = (8, digits type m 8)).
      { rewrite Ed. unfold parse_prefix. cbn [at_ nth drop Z.eqb]. change (48 =? 48) with true. cbn iota. by rewrite Hu. }
      by rewrite Ep.
    + change (parse_prefix (48 :: digits type m 8) 8) with (8, 48 :: digits type m 8). cbn iota. exact E.
  - destruct Hb as [->| ->].
    + destruct Hz as [[-> ->]|Hz].
      * assert (d = 0) as -> by (unfold digits in Ed; cbn in Ed; unfold digit_char in Ed; simplify_eq/=; destruct (Z.ltb_spec d 10); simplify_eq; lia).
        done.
      * assert (Hc : (digit_char type d =? 48) = false) by (apply Z.eqb_neq; unfold digit_char; repeat case_match; lia).
        assert (Ep : parse_prefix (digits type m 10) 0 = (10, digits type m 10)) by (rewrite Ed; unfold parse_prefix; cbn [at_ nth]; by rewrite Hc).
        by rewrite Ep.
    + change (parse_prefix (digits type m 10) 10) with (10, digits type m 10). exact E.
  - assert (Hl : (toupper (if flag type LARGE then 88 else 120) =? 88) = true) by (by destruct (flag type LARGE)).
    set (l := if flag type LARGE then 88 else 120) in *.
    assert (Ep : parse_prefix (48 :: l :: digits type m 16) b = (16, digits type m 16)).
    { rewrite Ed. unfold parse_prefix. destruct Hb as [->| ->]; cbn [at_ nth drop]; rewrite Hl; [by rewrite Hx|done]. }
    by rewrite Ep.
Qed.

Ltac no_fill := match goal with |- context [replicate (Z.to_nat ?z) _] => replace (Z.to_nat z) with 0%nat by lia; done end.

Lemma conv_text_eq c n : conv_text c n =
  let N := int_arg 108 (conv_flags c) n in
  sign_text N (conv_flags c) ++ prefix_text (conv_base c) (conv_flags c) ++ digits (conv_flags c) (magnitude N (conv_flags c)) (conv_base c).
Proof.
  cbv zeta. unfold conv_text, number_text. set (N := int_arg 108 _ n).
  assert (Ed : digits_text (magnitude N (conv_flags c)) (conv_base c) (-1) (conv_flags c) = digits (conv_flags c) (magnitude N (conv_flags c)) (conv_base c)).
  { unfold digits_text. no_fill. }
  rewrite Ed. assert (HF : flag (conv_flags c) LEFT = false ∧ flag (conv_flags c) ZEROPAD = false) by (by destruct c).
  destruct HF as [-> ->]. set (t := digits _ _ _).
  assert (Lt : (length t ≤ 66)%nat).
  { unfold t, digits. case_match; [cbn; lia|]. rewrite length_rev. apply low_digits_length. }
  assert (Ls : (length (sign_text N (conv_flags c)) ≤ 1)%nat) by (unfold sign_text; repeat case_match; cbn; lia).
  assert (Lp : (length (prefix_text (conv_base c) (conv_flags c)) ≤ 2)%nat) by (unfold prefix_text; repeat case_match; cbn; lia).
  rewrite s32_small by lia. no_fill.
Qed.

(** The sign and the magnitude of a number in range. *)
Lemma conv_signed n : - 2 ^ 31 ≤ n < 2 ^ 31 →
  sign_text (u64 (s32 n)) SIGN = (if n <? 0 then [45] else []) ∧ magnitude (u64 (s32 n)) SIGN = Z.abs n.
Proof.
  intros Hn. rewrite s32_small by lia. unfold sign_text, magnitude. change (flag SIGN SIGN) with true.
  change (flag SIGN PLUS) with false. change (flag SIGN SPACE) with false. cbn [andb].
  assert (E : s64 (u64 n) = n) by (unfold s64, u64, wrap; rewrite Zplus_mod_idemp_l, Z.mod_small by lia; lia).
  rewrite E. destruct (Z.ltb_spec n 0); split; try done; unfold u64, wrap.
  - rewrite <- Z.sub_0_l, Zminus_mod_idemp_r, Z.mod_small by lia. lia.
  - rewrite Z.mod_small by lia. lia.
Qed.
Lemma conv_value c n : conv_range c n →
  let N := int_arg 108 (conv_flags c) n in
  sign_text N (conv_flags c) = (if n <? 0 then [45] else []) ∧ magnitude N (conv_flags c) = Z.abs n.
Proof.
  intros Hn. destruct c; [| | | |by apply conv_signed]; cbn [conv_range] in Hn; cbv zeta; unfold sign_text, magnitude;
    (change (int_arg _ _ n) with (u32 n); rewrite u32_small by done; destruct (Z.ltb_spec n 0); [lia|]; split; [done|];
     rewrite Z.abs_eq by lia; done).
Qed.

Lemma conv_flags_special c : flag (conv_flags c) SPECIAL = negb (conv_base c =? 10).
Proof. by destruct c. Qed.
Lemma conv_base_cases c : conv_base c = 8 ∨ conv_base c = 10 ∨ conv_base c = 16.
Proof. destruct c; cbn; auto. Qed.

(** The function that reads the number. *)
Definition conv_parse (c : conv) : list Z → Z → Z * list Z := match c with ConvD => simple_strtol | _ => simple_strtoul end.

Lemma conv_reads c n b : conv_range c n → b = 0 ∨ b = conv_base c → conv_parse c (conv_text c n) b = (n, []).
Proof.
  intros Hn Hb. rewrite conv_text_eq. cbv zeta. destruct (conv_value c n Hn) as [-> ->].
  assert (Ha : 0 ≤ Z.abs n < 2 ^ 32) by (destruct c; cbn [conv_range] in Hn; lia).
  pose proof (strtoul_prefixed (conv_flags c) (Z.abs n) (conv_base c) b (conv_base_cases c) (conv_flags_special c) Ha Hb) as E.
  destruct c; cbn [conv_range conv_parse] in *; try (destruct (Z.ltb_spec n 0); [lia|]; rewrite Z.abs_eq in * by lia; exact E).
  unfold simple_strtol. destruct (Z.ltb_spec n 0).
  - cbn [app at_ nth drop]. change (45 =? 45) with true. cbn iota.
    rewrite drop_0. rewrite E. f_equal. rewrite s32_small; lia.
  - cbn [app] in *. change (prefix_text (conv_base ConvD) (conv_flags ConvD)) with (@nil Z) in *. cbn [app] in *.
    destruct (digits_top (conv_flags ConvD) (Z.abs n) (conv_base ConvD)) as (d & r & Ed & Hd & _); [cbn; lia|cbn -[Z.pow]; lia|].
    assert (E45 : (at_ (digits (conv_flags ConvD) (Z.abs n) (conv_base ConvD)) 0 =? 45) = false).
    { rewrite Ed. cbn [at_ nth]. apply Z.eqb_neq. unfold digit_char. repeat case_match; lia. }
    rewrite E45, E. f_equal. rewrite s32_small; lia.
Qed.

Lemma conv_text_plain c n : conv_range c n → Forall (λ z, z ≠ 0) (conv_text c n) ∧ (length (conv_text c n) ≤ 14)%nat.
Proof.
  intros Hn. rewrite conv_text_eq. cbv zeta. destruct (conv_value c n Hn) as [-> ->].
  assert (Ha : 0 ≤ Z.abs n < 2 ^ 32) by (destruct c; cbn [conv_range] in Hn; lia). split.
  - apply list.Forall_app; split; [|apply list.Forall_app; split].
    + destruct (n <? 0); repeat constructor; lia.
    + unfold prefix_text. repeat case_match; repeat constructor; lia.
    + unfold digits. case_match; [repeat constructor; lia|]. apply List.Forall_rev, low_digits_nonzero; [destruct c; cbn; lia|lia].
  - rewrite !length_app. assert (length (digits (conv_flags c) (Z.abs n) (conv_base c)) ≤ 11)%nat.
    { apply digits_short; [destruct c; cbn; lia| |lia]. destruct c; cbn [conv_base]; cbn -[Z.abs]; lia. }
    assert (length (prefix_text (conv_base c) (conv_flags c)) ≤ 2)%nat by (unfold prefix_text; repeat case_match; cbn; lia).
    destruct (n <? 0); cbn [length]; lia.
Qed.

(** What [vsnprintf] prints for an integer conversion, the number parsers read
    back: for "%lu", "%#lo", "%#lx" and "%#lX" with [simple_strtoul], and for
    "%ld" with [simple_strtol], every value of the type printed into a buffer of
    at least 15 bytes is read back from the string in the buffer, to its end, both
    with the base of the conversion and with base 0, where the parser finds the
    base itself. *)
Theorem number_text_roundtrip (c : conv) (n b : Z) (mem : list Z) :
  conv_range c n → (15 ≤ length mem)%nat → Z.of_nat (length mem) < 2 ^ 31 → b = 0 ∨ b = conv_base c →
  ∃ len o, vsnprintf (conv_format c) (OBuf mem 0 [VNum n] []) = Done (len, o) ∧
    len = Z.of_nat (length (c_string (ob_mem o))) ∧ conv_parse c (c_string (ob_mem o)) b = (n, []).
Proof.
  intros Hn Hm Hm' Hb. destruct (conv_text_plain c n Hn) as [Hz Hl]. unfold vsnprintf. cbn [ob_mem].
  rewrite s32_small by lia. destruct (Z.ltb_spec (Z.of_nat (length mem)) 0); [lia|]. rewrite conv_prints.
  unfold put. cbn [ob_mem ob_pos ob_args ob_stored]. rewrite Z.add_0_l, terminate_text.
  eexists _, _. split; [done|]. cbn [ob_mem]. rewrite c_string_render by (done || lia).
  split; [rewrite s32_small; lia|]. by apply conv_reads.
Qed.
Example number_text_roundtrip_witness :
  ∃ len o, vsnprintf (conv_format Convx) (OBuf (replicate 20 170) 0 [VNum 48879] []) = Done (len, o) ∧
    len = Z.of_nat (length (c_string (ob_mem o))) ∧ conv_parse Convx (c_string (ob_mem o)) 0 = (48879, []).
Proof. apply number_text_roundtrip; [cbn; lia|cbn; lia|cbn; lia|by left]. Defined.
Example prints_beef : c_string (ob_mem (match vsnprintf (conv_format Convx) (OBuf (replicate 20 170) 0 [VNum 48879] []) with Done (_, o) => o | _ => OBuf [] 0 [] [] end))
  = [48; 120; 98; 101; 101; 102].
Proof. by vm_compute. Qed.
