(* ===== verification/RadixTree.v ===== *)
(** Radix trees: lib/radix-tree.c, radix-tree.h.

    A tree maps 32-bit indices to items, with two tags per item.  Nodes of 64
    slots lie in memory under their addresses; a slot and the root hold plain
    words, and an odd word in the root is an item itself.  The height of the
    tree adapts to the largest index.  Nodes come from a cache of zeroed objects
    or from the preloaded pool, and go back after a grace period. *)

From S2P Require Import Prelude Kit.

Definition EEXIST : Z := 17.
Definition RADIX_TREE_MAP_SHIFT : Z := 6.
Definition RADIX_TREE_MAP_SIZE : Z := 64.
Definition RADIX_TREE_MAP_MASK : Z := 63.
Definition RADIX_TREE_INDEX_BITS : Z := 32.
Definition RADIX_TREE_MAX_PATH : Z := 7.
Definition RADIX_TREE_MAX_TAGS : Z := 2.
Definition RADIX_TREE_DIRECT_PTR : Z := 1.
Definition __GFP_BITS_SHIFT : Z := 20.
Definition __GFP_BITS_MASK : Z := 2 ^ 20 - 1.
Definition __GFP_WAIT : Z := 0x10.

Definition radix_tree_ptr_to_direct (p : Z) : Z := Z.lor p RADIX_TREE_DIRECT_PTR.
Definition radix_tree_direct_to_ptr (p : Z) : Z := Z.ldiff p RADIX_TREE_DIRECT_PTR.
Definition radix_tree_is_direct_ptr (p : Z) : bool := negb (Z.land p RADIX_TREE_DIRECT_PTR =? 0).

Record rnode := RNode {
  rn_height : Z;
  rn_count : Z;
  rn_slots : list Z;            (* 64 words *)
  rn_tags : list (list Z);      (* for each tag two words of bits *)
}.
(** [radix_tree_node_ctor] *)
Definition radix_tree_node_ctor : rnode := RNode 0 0 (replicate 64 0) (replicate 2 (replicate 2 0)).

(** The bit operations on an array of words. *)
Definition __set_bit (nr : Z) (ws : list Z) : list Z :=
  alter (λ w, Z.lor w (Z.shiftl 1 (nr mod 32))) (Z.to_nat (nr / 32)) ws.
Definition __clear_bit (nr : Z) (ws : list Z) : list Z :=
  alter (λ w, Z.ldiff w (Z.shiftl 1 (nr mod 32))) (Z.to_nat (nr / 32)) ws.
Definition tag_bit (nr : Z) (ws : list Z) : bool := Z.testbit (nth (Z.to_nat (nr / 32)) ws 0) (nr mod 32).

(** [__maxindex]: the shift by a negative count is undefined, but its result is
    replaced. *)
Definition __maxindex (height : Z) : Z :=
  let tmp := u32 (height * RADIX_TREE_MAP_SHIFT) in
  if RADIX_TREE_INDEX_BITS <=? tmp then 2 ^ 32 - 1
  else Z.shiftr (Z.shiftr (2 ^ 32 - 1) (RADIX_TREE_INDEX_BITS - tmp - 1)) 1.
Definition radix_tree_init_maxindex : list Z := map (λ i, __maxindex (Z.of_nat i)) (seq 0 (Z.to_nat RADIX_TREE_MAX_PATH)).
Definition height_to_maxindex : list Z := Eval vm_compute in radix_tree_init_maxindex.

(** The address of a block of the kit: blocks are word-aligned. *)
Definition addr (l : loc) : Z := 4 * Zpos l.

Section Radix.
Context {A : Type} `{KitMemory A}.

Record rtst := RtSt {
  nodes : gmap Z rnode;         (* allocated nodes by address *)
  r_height : Z;                 (* struct radix_tree_root *)
  r_gfp : Z;
  r_rnode : Z;
  preloads : list Z;            (* radix_tree_preloads, the last one first *)
  rcu_queue : list Z;           (* nodes that wait for a grace period *)
  mem : A;
}.
Abbreviation RM := (M rtst).

Definition with_nodes (h : gmap Z rnode) (s : rtst) : rtst := RtSt h (r_height s) (r_gfp s) (r_rnode s) (preloads s) (rcu_queue s) (mem s).
Definition with_height (z : Z) (s : rtst) : rtst := RtSt (nodes s) z (r_gfp s) (r_rnode s) (preloads s) (rcu_queue s) (mem s).
Definition with_gfp (z : Z) (s : rtst) : rtst := RtSt (nodes s) (r_height s) z (r_rnode s) (preloads s) (rcu_queue s) (mem s).
Definition with_rnode (z : Z) (s : rtst) : rtst := RtSt (nodes s) (r_height s) (r_gfp s) z (preloads s) (rcu_queue s) (mem s).
Definition with_preloads (l : list Z) (s : rtst) : rtst := RtSt (nodes s) (r_height s) (r_gfp s) (r_rnode s) l (rcu_queue s) (mem s).
Definition with_rcu (l : list Z) (s : rtst) : rtst := RtSt (nodes s) (r_height s) (r_gfp s) (r_rnode s) (preloads s) l (mem s).
Definition with_mem (a : A) (s : rtst) : rtst := RtSt (nodes s) (r_height s) (r_gfp s) (r_rnode s) (preloads s) (rcu_queue s) a.

(** Access to a node through its address. *)
Definition load_node (a : Z) : RM rnode := λ s,
  match nodes s !! a with Some k => Done (k, s) | None => Fault (if a =? 0 then FNull else FFreed) end.
Definition store_node (a : Z) (k : rnode) : RM unit := modify (λ s, with_nodes (<[a := k]> (nodes s)) s).
Definition load_slot (a o : Z) : RM Z :=
  k ← load_node a;
  match rn_slots k !! Z.to_nat o with Some x => mret x | None => fail FBounds end.
Definition store_slot (a o x : Z) : RM unit :=
  k ← load_node a;
  match rn_slots k !! Z.to_nat o with
  | Some _ => store_node a (RNode (rn_height k) (rn_count k) (<[Z.to_nat o := x]> (rn_slots k)) (rn_tags k))
  | None => fail FBounds
  end.
Definition set_height (a h : Z) : RM unit :=
  k ← load_node a; store_node a (RNode h (rn_count k) (rn_slots k) (rn_tags k)).
Definition set_count (a : Z) (f : Z → Z) : RM unit :=
  k ← load_node a; store_node a (RNode (rn_height k) (u32 (f (rn_count k))) (rn_slots k) (rn_tags k)).

Definition tags_of (k : rnode) (tag : Z) : RM (list Z) :=
  match rn_tags k !! Z.to_nat tag with Some ws => mret ws | None => fail FBounds end.
Definition tag_set (a tag offset : Z) : RM unit :=
  k ← load_node a; ws ← tags_of k tag;
  store_node a (RNode (rn_height k) (rn_count k) (rn_slots k) (<[Z.to_nat tag := __set_bit offset ws]> (rn_tags k))).
Definition tag_clear (a tag offset : Z) : RM unit :=
  k ← load_node a; ws ← tags_of k tag;
  store_node a (RNode (rn_height k) (rn_count k) (rn_slots k) (<[Z.to_nat tag := __clear_bit offset ws]> (rn_tags k))).
Definition tag_get (a tag offset : Z) : RM bool :=
  k ← load_node a; ws ← tags_of k tag; mret (tag_bit offset ws).
Definition any_tag_set (a tag : Z) : RM bool :=
  k ← load_node a; ws ← tags_of k tag; mret (existsb (λ w, negb (w =? 0)) ws).

Definition root_gfp_mask (s : rtst) : Z := Z.land (r_gfp s) __GFP_BITS_MASK.
Definition root_tag_set (tag : Z) : RM unit := modify (λ s, with_gfp (Z.lor (r_gfp s) (Z.shiftl 1 (tag + __GFP_BITS_SHIFT))) s).
Definition root_tag_clear (tag : Z) : RM unit := modify (λ s, with_gfp (Z.ldiff (r_gfp s) (Z.shiftl 1 (tag + __GFP_BITS_SHIFT))) s).
Definition root_tag_clear_all : RM unit := modify (λ s, with_gfp (Z.land (r_gfp s) __GFP_BITS_MASK) s).
Definition root_tag_get (tag : Z) : RM bool := gets (λ s, negb (Z.land (r_gfp s) (Z.shiftl 1 (tag + __GFP_BITS_SHIFT)) =? 0)).

(** ** Allocation *)

(** [kmem_cache_alloc(radix_tree_node_cachep, ...)], which runs the constructor *)
Definition node_cache_alloc : RM Z := λ s,
  match kit_malloc (mem s) with
  | Some (l, a) => Done (addr l, with_nodes (<[addr l := radix_tree_node_ctor]> (nodes s)) (with_mem a s))
  | None => Done (0, s)
  end.
Definition radix_tree_node_alloc : RM Z :=
  gfp_mask ← gets root_gfp_mask;
  ret ← node_cache_alloc;
  ret ← (if (ret =? 0) && (Z.land gfp_mask __GFP_WAIT =? 0) then
           rtp ← gets preloads;
           match rtp with
           | n :: rest => modify (with_preloads rest) ;; mret n
           | [] => mret ret
           end
         else mret ret);
  assert FBug (negb (radix_tree_is_direct_ptr ret)) ;;
  mret ret.
(** The node goes to the queue of [call_rcu]; the writer does not touch it again. *)
Definition radix_tree_node_free (a : Z) : RM unit :=
  _ ← load_node a; modify (λ s, with_nodes (delete a (nodes s)) (with_rcu (rcu_queue s ++ [a]) s)).
(** A grace period: [radix_tree_node_rcu_free] for every queued node. *)
Definition rcu_grace : RM unit := modify (λ s,
  with_rcu [] (with_mem (foldl (λ m a, kit_free (Z.to_pos (a / 4)) m) (mem s) (rcu_queue s)) s)).

(** [while (rtp->nr < ARRAY_SIZE(rtp->nodes))]; nothing else fills the pool here. *)
Fixpoint preload_loop (fuel : nat) : RM Z :=
  rtp ← gets preloads;
  if Z.of_nat (length rtp) <? RADIX_TREE_MAX_PATH then
    match fuel with
    | O => fail FFuel
    | S fuel =>
        node ← node_cache_alloc;
        if node =? 0 then mret (- ENOMEM) else modify (λ s, with_preloads (node :: preloads s) s) ;; preload_loop fuel
    end
  else mret 0.
Definition radix_tree_preload : RM Z := preload_loop (Z.to_nat RADIX_TREE_MAX_PATH).

Definition radix_tree_maxindex (height : Z) : RM Z :=
  match height_to_maxindex !! Z.to_nat height with Some x => mret x | None => fail FBounds end.

(** ** Insertion *)

(** [while (index > radix_tree_maxindex(height)) height++] *)
Fixpoint find_height (fuel : nat) (height index : Z) : RM Z :=
  mx ← radix_tree_maxindex height;
  if mx <? index then match fuel with O => fail FFuel | S fuel => find_height fuel (u32 (height + 1)) index end
  else mret height.
Fixpoint extend_tags (n : nat) (tag node : Z) : RM unit :=
  match n with
  | O => mret tt
  | S n => b ← root_tag_get tag; (if (b : bool) then tag_set node tag 0 else mret tt) ;; extend_tags n (tag + 1) node
  end.
Fixpoint extend_loop (fuel : nat) (height : Z) : RM Z :=
  match fuel with
  | O => fail FFuel
  | S fuel =>
      node ← radix_tree_node_alloc;
      if node =? 0 then mret (- ENOMEM) else
      rn ← gets r_rnode;
      store_slot node 0 (radix_tree_direct_to_ptr rn) ;;
      extend_tags (Z.to_nat RADIX_TREE_MAX_TAGS) 0 node ;;
      h ← gets r_height;
      let newheight := u32 (h + 1) in
      set_height node newheight ;;
      set_count node (λ _, 1) ;;
      modify (with_rnode node) ;;
      modify (with_height newheight) ;;
      if newheight <? height then extend_loop fuel height else mret 0
  end.
Definition radix_tree_extend (index : Z) : RM Z :=
  h ← gets r_height;
  height ← find_height (Z.to_nat RADIX_TREE_MAX_PATH) (u32 (h + 1)) index;
  rn ← gets r_rnode;
  if rn =? 0 then modify (with_height height) ;; mret 0
  else extend_loop (Z.to_nat RADIX_TREE_MAX_PATH) height.

Definition slot_offset (index shift : Z) : Z := Z.land (Z.shiftr index shift) RADIX_TREE_MAP_MASK.

(** [while (height > 0)] of [radix_tree_insert]: [node], [slot] and [offset] at the
    end, or nothing if a node cannot be allocated. *)
Fixpoint insert_loop (height : nat) (shift index node slot offset : Z) : RM (option (Z * Z * Z)) :=
  match height with
  | O => mret (Some (node, slot, offset))
  | S h =>
      slot ← (if slot =? 0 then
                slot ← radix_tree_node_alloc;
                if slot =? 0 then mret 0 else
                set_height slot (Z.of_nat (S h)) ;;
                (if node =? 0 then modify (with_rnode slot)
                 else store_slot node offset slot ;; set_count node (λ c, c + 1)) ;;
                mret slot
              else mret slot);
      if slot =? 0 then mret None else
      let offset := slot_offset index shift in
      slot' ← load_slot slot offset;
      insert_loop h (u32 (shift - RADIX_TREE_MAP_SHIFT)) index slot slot' offset
  end.

Definition BUG_ON (b : bool) : RM unit := assert FBug (negb b).

Definition top_shift (height : Z) : Z := u32 (u32 (height - 1) * RADIX_TREE_MAP_SHIFT).

Definition radix_tree_insert (index item : Z) : RM Z :=
  BUG_ON (radix_tree_is_direct_ptr item) ;;
  h ← gets r_height;
  mx ← radix_tree_maxindex h;
  error ← (if mx <? index then radix_tree_extend index else mret 0);
  if negb (error =? 0) then mret error else
  slot ← gets r_rnode;
  height ← gets r_height;
  r ← insert_loop (Z.to_nat height) (top_shift height) index 0 slot 0;
  match r with
  | None => mret (- ENOMEM)
  | Some (node, slot, offset) =>
      if negb (slot =? 0) then mret (- EEXIST) else
      (if negb (node =? 0) then
         set_count node (λ c, c + 1) ;;
         store_slot node offset item ;;
         t0 ← tag_get node 0 offset; BUG_ON t0 ;;
         t1 ← tag_get node 1 offset; BUG_ON t1
       else
         modify (with_rnode (radix_tree_ptr_to_direct item)) ;;
         t0 ← root_tag_get 0; BUG_ON t0 ;;
         t1 ← root_tag_get 1; BUG_ON t1) ;;
      mret 0
  end.

(** ** Lookup *)

(** The do loop: the word found at the bottom, or 0; the node has height at least
    1. *)
Fixpoint lookup_loop (height : nat) (shift index node : Z) : RM Z :=
  match height with
  | O => mret node
  | S h =>
      node ← load_slot node (slot_offset index shift);
      if node =? 0 then mret 0 else lookup_loop h (u32 (shift - RADIX_TREE_MAP_SHIFT)) index node
  end.
Definition radix_tree_lookup (index : Z) : RM Z :=
  node ← gets r_rnode;
  if node =? 0 then mret 0 else
  if radix_tree_is_direct_ptr node then mret (if 0 <? index then 0 else radix_tree_direct_to_ptr node) else
  k ← load_node node;
  let height := rn_height k in
  mx ← radix_tree_maxindex height;
  if mx <? index then mret 0 else
  if height =? 0 then fail FFuel else
  lookup_loop (Z.to_nat height) (top_shift height) index node.

(** A pointer to a slot: of the root, or of a node. *)
Inductive pslot := PRoot | PSlot (node offset : Z).
Fixpoint lookup_slot_loop (height : nat) (shift index node : Z) (slot : pslot) : RM (option pslot) :=
  match height with
  | O => mret (Some slot)
  | S h =>
      let slot := PSlot node (slot_offset index shift) in
      node ← load_slot node (slot_offset index shift);
      if node =? 0 then mret None else lookup_slot_loop h (u32 (shift - RADIX_TREE_MAP_SHIFT)) index node slot
  end.
Definition radix_tree_lookup_slot (index : Z) : RM (option pslot) :=
  node ← gets r_rnode;
  if node =? 0 then mret None else
  if radix_tree_is_direct_ptr node then mret (if 0 <? index then None else Some PRoot) else
  k ← load_node node;
  let height := rn_height k in
  mx ← radix_tree_maxindex height;
  if mx <? index then mret None else
  if height =? 0 then fail FFuel else
  lookup_slot_loop (Z.to_nat height) (top_shift height) index node PRoot.
Definition read_pslot (p : pslot) : RM Z := match p with PRoot => gets r_rnode | PSlot n o => load_slot n o end.
Definition radix_tree_deref_slot (p : pslot) : RM Z := x ← read_pslot p; mret (radix_tree_direct_to_ptr x).
Definition radix_tree_replace_slot (p : pslot) (item : Z) : RM unit :=
  BUG_ON (radix_tree_is_direct_ptr item) ;;
  x ← read_pslot p;
  let v := Z.lor item (Z.land x RADIX_TREE_DIRECT_PTR) in
  match p with PRoot => modify (with_rnode v) | PSlot n o => store_slot n o v end.

(** ** Tags *)

Fixpoint tag_set_loop (height : nat) (shift index tag slot : Z) : RM Z :=
  match height with
  | O => mret slot
  | S h =>
      let offset := slot_offset index shift in
      b ← tag_get slot tag offset;
      (if (b : bool) then mret tt else tag_set slot tag offset) ;;
      slot ← load_slot slot offset;
      BUG_ON (slot =? 0) ;;
      tag_set_loop h (u32 (shift - RADIX_TREE_MAP_SHIFT)) index tag slot
  end.
Definition radix_tree_tag_set (index tag : Z) : RM Z :=
  height ← gets r_height;
  mx ← radix_tree_maxindex height;
  BUG_ON (mx <? index) ;;
  slot ← gets r_rnode;
  slot ← tag_set_loop (Z.to_nat height) (top_shift height) index tag slot;
  (if slot =? 0 then mret tt else
   b ← root_tag_get tag; if (b : bool) then mret tt else root_tag_set tag) ;;
  mret slot.

(** The way down of [radix_tree_tag_clear] and [radix_tree_delete]: the word at the
    bottom and the path to it, the last node first; 0 if the way ends early. *)
Fixpoint path_loop (height : nat) (shift index slot : Z) (path : list (Z * Z)) : RM (Z * list (Z * Z)) :=
  match height with
  | O => mret (slot, path)
  | S h =>
      if slot =? 0 then mret (0, path) else
      let offset := slot_offset index shift in
      slot' ← load_slot slot offset;
      path_loop h (u32 (shift - RADIX_TREE_MAP_SHIFT)) index slot' ((slot, offset) :: path)
  end.
(** [while (pathp->node)]: whether the root was reached *)
Fixpoint clear_loop (path : list (Z * Z)) (tag : Z) : RM bool :=
  match path with
  | [] => mret true
  | (node, offset) :: path =>
      b ← tag_get node tag offset;
      if negb b then mret false else
      tag_clear node tag offset ;;
      a ← any_tag_set node tag;
      if (a : bool) then mret false else clear_loop path tag
  end.
Definition radix_tree_tag_clear (index tag : Z) : RM Z :=
  height ← gets r_height;
  mx ← radix_tree_maxindex height;
  if mx <? index then mret 0 else
  rn ← gets r_rnode;
  '(slot, path) ← path_loop (Z.to_nat height) (top_shift height) index rn [];
  if slot =? 0 then mret 0 else
  up ← clear_loop path tag;
  (if (up : bool) then b ← root_tag_get tag; if (b : bool) then root_tag_clear tag else mret tt else mret tt) ;;
  mret slot.
Definition radix_tree_tagged (tag : Z) : RM bool := root_tag_get tag.

(** ** Deletion *)

Fixpoint shrink_loop (fuel : nat) : RM unit :=
  h ← gets r_height;
  if h =? 0 then mret tt else
  to_free ← gets r_rnode;
  k ← load_node to_free;
  if negb (rn_count k =? 1) then mret tt else
  newptr ← load_slot to_free 0;
  if newptr =? 0 then mret tt else
  match fuel with
  | O => fail FFuel
  | S fuel =>
      modify (with_rnode (if h =? 1 then radix_tree_ptr_to_direct newptr else newptr)) ;;
      modify (with_height (u32 (h - 1))) ;;
      tag_clear to_free 0 0 ;;
      tag_clear to_free 1 0 ;;
      store_slot to_free 0 0 ;;
      set_count to_free (λ _, 0) ;;
      radix_tree_node_free to_free ;;
      shrink_loop fuel
  end.
Definition radix_tree_shrink : RM unit := shrink_loop (Z.to_nat RADIX_TREE_MAX_PATH).

Fixpoint delete_tags (n : nat) (tag index node offset : Z) : RM unit :=
  match n with
  | O => mret tt
  | S n =>
      b ← tag_get node tag offset;
      (if (b : bool) then radix_tree_tag_clear index tag ;; mret tt else mret tt) ;;
      delete_tags n (tag + 1) index node offset
  end.
Definition free_if (to_free : Z) : RM unit := if to_free =? 0 then mret tt else radix_tree_node_free to_free.
Fixpoint delete_loop (path : list (Z * Z)) (to_free : Z) : RM unit :=
  match path with
  | [] =>
      root_tag_clear_all ;;
      modify (with_height 0) ;;
      modify (with_rnode 0) ;;
      free_if to_free
  | (node, offset) :: path =>
      store_slot node offset 0 ;;
      set_count node (λ c, c - 1) ;;
      free_if to_free ;;
      k ← load_node node;
      if negb (rn_count k =? 0) then
        rn ← gets r_rnode; if node =? rn then radix_tree_shrink else mret tt
      else delete_loop path node
  end.
Definition radix_tree_delete (index : Z) : RM Z :=
  height ← gets r_height;
  mx ← radix_tree_maxindex height;
  if mx <? index then mret 0 else
  rn ← gets r_rnode;
  if (height =? 0) && negb (rn =? 0) then
    root_tag_clear_all ;;
    modify (with_rnode 0) ;;
    mret (radix_tree_direct_to_ptr rn)
  else
  '(slot, path) ← path_loop (Z.to_nat height) (top_shift height) index rn [];
  if slot =? 0 then mret 0 else
  match path with
  | [] => fail FNull
  | (node, offset) :: _ =>
      delete_tags (Z.to_nat RADIX_TREE_MAX_TAGS) 0 index node offset ;;
      delete_loop path 0 ;;
      mret slot
  end.

(** ** Gang lookup *)

(** The inner [for (;;)] of [__lookup] and [__lookup_tag]: the next index and,
    unless the search leaves the node, the slot found. *)
Fixpoint scan_slots (fuel : nat) (p : Z → RM bool) (shift index i : Z) : RM (Z * option Z) :=
  b ← p i;
  if (b : bool) then mret (index, Some i) else
  let index := u32 (Z.ldiff index (Z.shiftl 1 shift - 1) + Z.shiftl 1 shift) in
  if index =? 0 then mret (index, None) else
  let i := i + 1 in
  if i =? RADIX_TREE_MAP_SIZE then mret (index, None) else
  match fuel with O => fail FFuel | S fuel => scan_slots fuel p shift index i end.
(** [for (i = index & MASK; i < SIZE; i++)]: the items, at most [max], and the next
    index; [n] slots are left. *)
Fixpoint grab (n : nat) (p : Z → RM Z) (i index max : Z) : RM (list Z * Z) :=
  match n with
  | O => mret ([], index)
  | S n =>
      let index := u32 (index + 1) in
      node ← p i;
      if node =? 0 then grab n p (i + 1) index max
      else if max =? 1 then mret ([node], index)
      else '(r, index) ← grab n p (i + 1) index (max - 1); mret (node :: r, index)
  end.
Definition grab_from (p : Z → RM Z) (index max : Z) : RM (list Z * Z) :=
  let i := Z.land index RADIX_TREE_MAP_MASK in grab (Z.to_nat (RADIX_TREE_MAP_SIZE - i)) p i index max.

(** [for ( ; height > 1; height--)] of [__lookup]; [height] counts the levels above
    the last. *)
Fixpoint lookup_levels (height : nat) (shift index slot max : Z) : RM (list Z * Z) :=
  match height with
  | O => grab_from (load_slot slot) index max
  | S h =>
      '(index, f) ← scan_slots (Z.to_nat RADIX_TREE_MAP_SIZE) (λ i, x ← load_slot slot i; mret (negb (x =? 0)))
                      shift index (slot_offset index shift);
      match f with
      | None => mret ([], index)
      | Some i =>
          slot ← load_slot slot i;
          if slot =? 0 then mret ([], index) else lookup_levels h (u32 (shift - RADIX_TREE_MAP_SHIFT)) index slot max
      end
  end.
Definition __lookup (slot index max : Z) : RM (list Z * Z) :=
  k ← load_node slot;
  let height := rn_height k in
  if height =? 0 then mret ([], index) else lookup_levels (Z.to_nat (height - 1)) (top_shift height) index slot max.

(** The items with the tag at the bottom level. *)
Definition tagged_item (slot tag j : Z) : RM Z := b ← tag_get slot tag j; if (b : bool) then load_slot slot j else mret 0.
Fixpoint lookup_tag_levels (height : nat) (shift index slot max tag : Z) : RM (list Z * Z) :=
  '(index, f) ← scan_slots (Z.to_nat RADIX_TREE_MAP_SIZE) (tag_get slot tag) shift index (slot_offset index shift);
  match f with
  | None => mret ([], index)
  | Some i =>
      match height with
      | O => grab_from (tagged_item slot tag) index max
      | S h =>
          slot ← load_slot slot i;
          if slot =? 0 then mret ([], index)
          else lookup_tag_levels h (u32 (shift - RADIX_TREE_MAP_SHIFT)) index slot max tag
      end
  end.
Definition __lookup_tag (slot index max tag : Z) : RM (list Z * Z) :=
  k ← load_node slot;
  let height := rn_height k in
  if height =? 0 then mret ([], index) else lookup_tag_levels (Z.to_nat (height - 1)) (top_shift height) index slot max tag.

(** [while (ret < max_items)]: a round from [cur_index] with the items so far *)
Definition gang_round (search : Z → Z → RM (list Z * Z)) (max_index max_items : Z) (x : Z * list Z) : RM (Z * list Z + list Z) :=
  let '(cur_index, acc) := x in
  if negb (Z.of_nat (length acc) <? max_items) then mret (inr acc) else
  if max_index <? cur_index then mret (inr acc) else
  '(r, next_index) ← search cur_index (u32 (max_items - Z.of_nat (length acc)));
  mret (if next_index =? 0 then inr (acc ++ r) else inl (next_index, acc ++ r)).
Definition gang_loop (search : Z → Z → RM (list Z * Z)) (max_index first_index max_items : Z) : RM (list Z) :=
  r ← loop_pos (gang_round search max_index max_items) (2 ^ 33)%positive (first_index, []);
  match r with inr l => mret l | inl _ => fail FFuel end.

Definition radix_tree_gang_lookup (first_index max_items : Z) : RM (list Z) :=
  node ← gets r_rnode;
  if node =? 0 then mret [] else
  if radix_tree_is_direct_ptr node then mret (if 0 <? first_index then [] else [radix_tree_direct_to_ptr node]) else
  k ← load_node node;
  max_index ← radix_tree_maxindex (rn_height k);
  gang_loop (__lookup node) max_index first_index max_items.
Definition radix_tree_gang_lookup_tag (first_index max_items tag : Z) : RM (list Z) :=
  b ← root_tag_get tag;
  if negb b then mret [] else
  node ← gets r_rnode;
  if node =? 0 then mret [] else
  if radix_tree_is_direct_ptr node then mret (if 0 <? first_index then [] else [radix_tree_direct_to_ptr node]) else
  k ← load_node node;
  max_index ← radix_tree_maxindex (rn_height k);
  gang_loop (λ i m, __lookup_tag node i m tag) max_index first_index max_items.

End Radix.
