(* ===== verification/RadixTreeInv.v ===== *)
(** The invariant of the radix trees of [RadixTree].

    The nodes of a tree are named by their position: the level, 1 at the bottom,
    and the index prefix they stand for.  A ghost map from positions to
    addresses says which nodes the tree has; that every slot, count and tag agrees
    with it is local to a node and its children.  The operations on nodes are
    shown to keep the invariant, except for tags that are under way. *)

From S2P Require Import Prelude Kit FindBit RadixTree.

(** ** Index arithmetic *)

(** The part of an index above [lev] levels. *)
Definition px (lev : nat) (i : Z) : Z := i / 64 ^ Z.of_nat lev.

Lemma pow64 n : 64 ^ Z.of_nat (S n) = 64 * 64 ^ Z.of_nat n.
Proof. by rewrite Nat2Z.inj_succ, Z.pow_succ_r by lia. Qed.
Lemma pow64_pos n : 0 < 64 ^ Z.of_nat n.
Proof. apply Z.pow_pos_nonneg; lia. Qed.
Lemma px_0 i : px 0 i = i.
Proof. unfold px. by rewrite Z.div_1_r. Qed.
Lemma px_S n i : px (S n) i = px n i / 64.
Proof. unfold px. rewrite pow64, Z.mul_comm, Z.div_div; [done|pose proof (pow64_pos n); lia|lia]. Qed.
Lemma px_nonneg n i : 0 ≤ i → 0 ≤ px n i.
Proof. intros. unfold px. apply Z.div_pos; [done|apply pow64_pos]. Qed.
Lemma px_split n i : 64 * px (S n) i + px n i mod 64 = px n i.
Proof. rewrite px_S. pose proof (Z.div_mod (px n i) 64). lia. Qed.
Lemma px_mono n i j : i ≤ j → px n i ≤ px n j.
Proof. intros. unfold px. apply Z.div_le_mono; [apply pow64_pos|done]. Qed.
Lemma px_top n i : 0 ≤ i < 64 ^ Z.of_nat n → px n i = 0.
Proof. intros. by apply Z.div_small. Qed.

Lemma slot_offset_px n i : 0 ≤ i → slot_offset i (6 * Z.of_nat n) = px n i mod 64.
Proof.
  intros Hi. unfold slot_offset, RADIX_TREE_MAP_MASK. change 63 with (Z.ones 6). rewrite Z.land_ones by lia.
  rewrite Z.shiftr_div_pow2 by lia. unfold px. by rewrite Z.pow_mul_r by lia.
Qed.
Lemma mod64 z : 0 ≤ z mod 64 < 64.
Proof. by apply Z.mod_pos_bound. Qed.
Lemma split64 pre : 64 * (pre / 64) + pre mod 64 = pre.
Proof. pose proof (Z.div_mod pre 64). lia. Qed.
Lemma join64_div pre o : 0 ≤ o < 64 → (64 * pre + o) / 64 = pre.
Proof. intros. rewrite Z.mul_comm, Z.div_add_l, Z.div_small by lia. lia. Qed.
Lemma join64_mod pre o : 0 ≤ o < 64 → (64 * pre + o) mod 64 = o.
Proof. intros. rewrite Z.add_comm, Z.mul_comm, Z.mod_add, Z.mod_small; lia. Qed.

Lemma maxindex_run {A} `{KitMemory A} h (s : rtst (A:=A)) : 0 ≤ h ≤ 6 →
  radix_tree_maxindex h s = Done (Z.min (64 ^ h - 1) (2 ^ 32 - 1), s).
Proof.
  intros Hh. assert (h = 0 ∨ h = 1 ∨ h = 2 ∨ h = 3 ∨ h = 4 ∨ h = 5 ∨ h = 6) as E by lia.
  repeat destruct E as [->|E]; try subst h; reflexivity.
Qed.
Lemma top_shift_S n : Z.of_nat n ≤ 5 → top_shift (Z.of_nat (S n)) = 6 * Z.of_nat n.
Proof. intros Hn. unfold top_shift, RADIX_TREE_MAP_SHIFT. rewrite (u32_small (_ - 1)) by lia. rewrite u32_small by lia. lia. Qed.

(** ** Words of bits *)

Definition words_wf (ws : list Z) : Prop := length ws = 2%nat ∧ Forall (λ w, 0 ≤ w < 2 ^ 32) ws.

Lemma words_two ws : words_wf ws → ∃ a b, ws = [a; b] ∧ 0 ≤ a < 2 ^ 32 ∧ 0 ≤ b < 2 ^ 32.
Proof.
  intros [Hl Hw]. destruct ws as [|a [|b [|]]]; try discriminate. apply list.Forall_cons in Hw as [Ha Hw].
  apply list.Forall_cons in Hw as [Hb _]. by exists a, b.
Qed.

Lemma bit_cases o : 0 ≤ o < 64 → (o / 32 = 0 ∧ o mod 32 = o ∧ o < 32) ∨ (o / 32 = 1 ∧ o mod 32 = o - 32 ∧ 32 ≤ o).
Proof.
  intros Ho. destruct (Z.lt_ge_cases o 32) as [Hlt|Hge].
  - left. by rewrite Z.div_small, Z.mod_small by lia.
  - right. rewrite <- (Z.add_0_l o) at 1 2. replace (0 + o) with ((o - 32) + 1 * 32) by lia.
    rewrite Z.div_add, Z.mod_add, Z.div_small, Z.mod_small by lia. lia.
Qed.

Lemma one_bit o : 0 ≤ o < 32 → 0 ≤ Z.shiftl 1 o < 2 ^ 32.
Proof. intros Ho. rewrite Z.shiftl_1_l. split; [by apply Z.pow_nonneg|apply Z.pow_lt_mono_r; lia]. Qed.
Lemma one_bit_spec o i : 0 ≤ o → Z.testbit (Z.shiftl 1 o) i = (i =? o).
Proof.
  intros Ho. rewrite Z.shiftl_1_l, Z.pow2_bits_eqb by done. apply Z.eqb_sym.
Qed.

Lemma set_bit_wf o ws : 0 ≤ o < 64 → words_wf ws → words_wf (__set_bit o ws).
Proof.
  intros Ho (a & b & -> & Ha & Hb)%words_two. unfold __set_bit.
  destruct (bit_cases o Ho) as [(E1 & E2 & L1)|(E1 & E2 & L1)]; rewrite E1, E2; (split; [done|]);
    repeat apply list.Forall_cons_2; try done; (apply lor_range; [done|apply one_bit; lia]).
Qed.
Lemma clear_bit_wf o ws : 0 ≤ o < 64 → words_wf ws → words_wf (__clear_bit o ws).
Proof.
  intros Ho (a & b & -> & Ha & Hb)%words_two. unfold __clear_bit.
  destruct (bit_cases o Ho) as [(-> & -> & _)|(-> & -> & _)]; (split; [done|]);
    repeat apply list.Forall_cons_2; try done; rewrite Z.ldiff_land; by apply land_range.
Qed.
Lemma tag_bit_set o o' ws : 0 ≤ o < 64 → 0 ≤ o' < 64 → words_wf ws → tag_bit o' (__set_bit o ws) = (o' =? o) || tag_bit o' ws.
Proof.
  intros Ho Ho' (a & b & -> & Ha & Hb)%words_two. unfold tag_bit, __set_bit.
  destruct (bit_cases o Ho) as [(E1 & E2 & L1)|(E1 & E2 & L1)], (bit_cases o' Ho') as [(E3 & E4 & L2)|(E3 & E4 & L2)]; rewrite E1, E2, E3, E4;
    change (Z.to_nat 0) with 0%nat; change (Z.to_nat 1) with 1%nat; cbn -[Z.testbit Z.shiftl Z.lor Z.eqb]; rewrite ?Z.lor_spec, ?one_bit_spec by lia;
    try (replace (o' - 32 =? o - 32) with (o' =? o) by (destruct (Z.eqb_spec o' o), (Z.eqb_spec (o' - 32) (o - 32)); lia));
    try apply orb_comm; (destruct (Z.eqb_spec o' o); [lia|done]).
Qed.
Lemma tag_bit_clear o o' ws : 0 ≤ o < 64 → 0 ≤ o' < 64 → words_wf ws → tag_bit o' (__clear_bit o ws) = negb (o' =? o) && tag_bit o' ws.
Proof.
  intros Ho Ho' (a & b & -> & Ha & Hb)%words_two. unfold tag_bit, __clear_bit.
  destruct (bit_cases o Ho) as [(E1 & E2 & L1)|(E1 & E2 & L1)], (bit_cases o' Ho') as [(E3 & E4 & L2)|(E3 & E4 & L2)]; rewrite E1, E2, E3, E4;
    change (Z.to_nat 0) with 0%nat; change (Z.to_nat 1) with 1%nat; cbn -[Z.testbit Z.shiftl Z.ldiff Z.eqb]; rewrite ?Z.ldiff_spec, ?one_bit_spec by lia;
    try (replace (o' - 32 =? o - 32) with (o' =? o) by (destruct (Z.eqb_spec o' o), (Z.eqb_spec (o' - 32) (o - 32)); lia));
    try apply andb_comm; (destruct (Z.eqb_spec o' o); [lia|done]).
Qed.
Lemma top_bit w : 0 ≤ w < 2 ^ 32 → w ≠ 0 → ∃ o, 0 ≤ o < 32 ∧ Z.testbit w o = true.
Proof.
  intros Hw Hn. exists (Z.log2 w). split; [split; [apply Z.log2_nonneg|apply Z.log2_lt_pow2; lia]|apply Z.bit_log2; lia].
Qed.
Lemma words_any ws : words_wf ws → existsb (λ w, negb (w =? 0)) ws = true ↔ ∃ o, 0 ≤ o < 64 ∧ tag_bit o ws = true.
Proof.
  intros (a & b & -> & Ha & Hb)%words_two. cbn [existsb]. split.
  - intros E. destruct (Z.eqb_spec a 0) as [->|Hna].
    + destruct (Z.eqb_spec b 0) as [->|Hnb]; [done|]. destruct (top_bit b Hb Hnb) as (o & Ho & Eo).
      exists (o + 32). split; [lia|]. unfold tag_bit. destruct (bit_cases (o + 32)) as [(? & ? & ?)|(-> & -> & _)]; [lia..|]. cbn. by replace (o + 32 - 32) with o by lia.
    + destruct (top_bit a Ha Hna) as (o & Ho & Eo). exists o. split; [lia|]. unfold tag_bit.
      by destruct (bit_cases o) as [(-> & -> & _)|(? & ? & ?)]; [lia| |lia].
  - intros (o & Ho & E). unfold tag_bit in E. destruct (Z.eqb_spec a 0) as [->|]; [|done]. destruct (Z.eqb_spec b 0) as [->|]; [|done].
    destruct (bit_cases o Ho) as [(E1 & _)|(E1 & _)]; rewrite E1 in E; cbn in E; by rewrite Z.bits_0 in E.
Qed.

(** ** Nodes *)

Definition slot_at (k : rnode) (o : Z) : Z := nth (Z.to_nat o) (rn_slots k) 0.
Definition tag_at (k : rnode) (t o : Z) : bool := tag_bit o (nth (Z.to_nat t) (rn_tags k) []).
Definition any_tag (k : rnode) (t : Z) : bool := existsb (λ w, negb (w =? 0)) (nth (Z.to_nat t) (rn_tags k) []).
Definition nz (l : list Z) : Z := Z.of_nat (length (filter (λ x, x ≠ 0) l)).
Definition is_tag (t : Z) : Prop := 0 ≤ t < 2.
Definition is_off (o : Z) : Prop := 0 ≤ o < 64.

Record node_wf (k : rnode) : Prop := {
  nw_slots : length (rn_slots k) = 64%nat;
  nw_tags : ∃ t0 t1, rn_tags k = [t0; t1] ∧ words_wf t0 ∧ words_wf t1;
  nw_count : rn_count k = nz (rn_slots k);
  nw_tagged t o : is_tag t → is_off o → tag_at k t o = true → slot_at k o ≠ 0;
}.

Definition with_slot (o x : Z) (k : rnode) : rnode := RNode (rn_height k) (rn_count k) (<[Z.to_nat o := x]> (rn_slots k)) (rn_tags k).
Definition with_count (c : Z) (k : rnode) : rnode := RNode (rn_height k) c (rn_slots k) (rn_tags k).
Definition with_level (h : Z) (k : rnode) : rnode := RNode h (rn_count k) (rn_slots k) (rn_tags k).
Definition with_tag (t : Z) (ws : list Z) (k : rnode) : rnode := RNode (rn_height k) (rn_count k) (rn_slots k) (<[Z.to_nat t := ws]> (rn_tags k)).
Definition words_of (k : rnode) (t : Z) : list Z := nth (Z.to_nat t) (rn_tags k) [].

Lemma tag_cases t : is_tag t → t = 0 ∨ t = 1.
Proof. unfold is_tag. lia. Qed.

Lemma slots_lookup k o : node_wf k → is_off o → rn_slots k !! Z.to_nat o = Some (slot_at k o).
Proof.
  intros Hk Ho. unfold is_off in Ho. unfold slot_at. destruct (rn_slots k !! Z.to_nat o) as [x|] eqn:E.
  - by rewrite (nth_lookup_Some _ _ _ _ E).
  - apply lookup_ge_None_1 in E. rewrite (nw_slots k Hk) in E. lia.
Qed.
Lemma words_lookup k t : node_wf k → is_tag t → rn_tags k !! Z.to_nat t = Some (words_of k t) ∧ words_wf (words_of k t).
Proof.
  intros Hk Ht. destruct (nw_tags k Hk) as (t0 & t1 & E & H0 & H1). unfold words_of. rewrite E.
  by destruct (tag_cases t Ht) as [-> | ->].
Qed.
Lemma any_tag_true k t : node_wf k → is_tag t → any_tag k t = true ↔ ∃ o, is_off o ∧ tag_at k t o = true.
Proof. intros Hk Ht. apply words_any. by apply words_lookup. Qed.
Lemma any_tag_eq k k' t : rn_tags k' = rn_tags k → any_tag k' t = any_tag k t.
Proof. intros E. unfold any_tag. by rewrite E. Qed.
Lemma any_tag_false k t : node_wf k → is_tag t → (∀ o, is_off o → tag_at k t o = false) → any_tag k t = false.
Proof.
  intros Hk Ht H. apply not_true_iff_false. rewrite any_tag_true by done. intros (o & Ho & E). by rewrite H in E.
Qed.

Lemma slot_at_with k o o' x : node_wf k → is_off o → is_off o' → slot_at (with_slot o x k) o' = if o' =? o then x else slot_at k o'.
Proof.
  intros Hk Ho Ho'. unfold is_off in *. unfold slot_at, with_slot. cbn [rn_slots].
  pose proof (nw_slots k Hk) as Hl. destruct (Z.eqb_spec o' o) as [->|Hne].
  - apply nth_lookup_Some. apply list_lookup_insert_eq. lia.
  - rewrite !nth_lookup. by rewrite list_lookup_insert_ne by lia.
Qed.
Lemma tag_at_with k t t' o ws : node_wf k → is_tag t → is_tag t' →
  tag_at (with_tag t ws k) t' o = if t' =? t then tag_bit o ws else tag_at k t' o.
Proof.
  intros Hk Ht Ht'. destruct (nw_tags k Hk) as (t0 & t1 & E & H0 & H1). unfold tag_at, with_tag. cbn [rn_tags]. rewrite E.
  destruct (tag_cases t Ht) as [-> | ->], (tag_cases t' Ht') as [-> | ->]; done.
Qed.
Lemma any_tag_with k t t' ws : node_wf k → is_tag t → is_tag t' →
  any_tag (with_tag t ws k) t' = if t' =? t then existsb (λ w, negb (w =? 0)) ws else any_tag k t'.
Proof.
  intros Hk Ht Ht'. destruct (nw_tags k Hk) as (t0 & t1 & E & H0 & H1). unfold any_tag, with_tag. cbn [rn_tags]. rewrite E.
  destruct (tag_cases t Ht) as [-> | ->], (tag_cases t' Ht') as [-> | ->]; done.
Qed.

Lemma nz_insert l n x y : l !! n = Some x → nz (<[n := y]> l) = nz l - (if x =? 0 then 0 else 1) + (if y =? 0 then 0 else 1).
Proof.
  intros E. rewrite insert_take_drop by (by eapply lookup_lt_Some). 
  assert (El : nz l = nz (take n l ++ x :: drop (S n) l)) by (by rewrite take_drop_middle). rewrite El. clear El.
  unfold nz. rewrite !list.filter_app, !length_app, !list.filter_cons.
  destruct (Z.eqb_spec x 0), (Z.eqb_spec y 0); repeat case_decide; try done; cbn [length]; lia.
Qed.
Lemma nz_bound l : 0 ≤ nz l ≤ Z.of_nat (length l).
Proof. unfold nz. pose proof (length_filter (λ x : Z, x ≠ 0) l). lia. Qed.
Lemma nz_pos l n x : l !! n = Some x → x ≠ 0 → 0 < nz l.
Proof.
  intros E Hx. unfold nz. assert (x ∈ filter (λ x, x ≠ 0) l) as Hin by (apply list_elem_of_filter; split; [done|by eapply list_elem_of_lookup_2]).
  destruct (filter _ l); [by apply elem_of_nil in Hin|cbn; lia].
Qed.
Lemma nz_zero l n x : nz l = 0 → l !! n = Some x → x = 0.
Proof. intros Hz E. destruct (decide (x = 0)) as [|Hx]; [done|]. pose proof (nz_pos _ _ _ E Hx). lia. Qed.
Lemma nz_one l n m x y : nz l = 1 → l !! n = Some x → l !! m = Some y → x ≠ 0 → n ≠ m → y = 0.
Proof.
  intros H1 En Em Hx Hnm. destruct (decide (y = 0)) as [|Hy]; [done|]. exfalso.
  assert (nz (<[n := 0]> l) = 0) as H0 by (rewrite (nz_insert _ _ _ _ En), H1; change (0 =? 0) with true; destruct (Z.eqb_spec x 0); [done|lia]).
  apply Hy, (nz_zero _ m y H0). by rewrite list_lookup_insert_ne.
Qed.

(** A slot that has no tag gets an item or loses it. *)
Lemma node_wf_slot k o x : node_wf k → is_off o → (∀ t, is_tag t → tag_at k t o = false) →
  node_wf (with_count (rn_count k - (if slot_at k o =? 0 then 0 else 1) + (if x =? 0 then 0 else 1)) (with_slot o x k)).
Proof.
  intros Hk Ho Ht. pose proof (slots_lookup k o Hk Ho) as E. split; cbn.
  - rewrite length_insert. apply Hk.
  - apply Hk.
  - by rewrite (nz_insert _ _ _ _ E), (nw_count k Hk).
  - intros t o' Ht' Ho' Et. change (slot_at (with_slot o x k) o' ≠ 0). rewrite slot_at_with by done.
    destruct (Z.eqb_spec o' o) as [->|]; [|by apply (nw_tagged k Hk t)].
    change (tag_at k t o = true) in Et. by rewrite Ht in Et.
Qed.
Lemma node_wf_set k t o : node_wf k → is_tag t → is_off o → slot_at k o ≠ 0 → node_wf (with_tag t (__set_bit o (words_of k t)) k).
Proof.
  intros Hk Ht Ho Hs. destruct (words_lookup k t Hk Ht) as [_ Hw]. split; [apply Hk| |apply Hk|].
  - destruct (nw_tags k Hk) as (t0 & t1 & E & H0 & H1). pose proof (set_bit_wf o _ Ho Hw) as Hw'. cbn. rewrite E.
    destruct (tag_cases t Ht) as [-> | ->]; cbn; eauto.
  - intros t' o' Ht' Ho'. rewrite tag_at_with by done. change (slot_at (with_tag _ _ k) o') with (slot_at k o').
    destruct (Z.eqb_spec t' t) as [->|]; [|by apply Hk]. rewrite tag_bit_set by done.
    destruct (Z.eqb_spec o' o) as [->|]; [done|]. cbn [orb]. by apply (nw_tagged k Hk t).
Qed.
Lemma node_wf_clear k t o : node_wf k → is_tag t → is_off o → node_wf (with_tag t (__clear_bit o (words_of k t)) k).
Proof.
  intros Hk Ht Ho. destruct (words_lookup k t Hk Ht) as [_ Hw]. split; [apply Hk| |apply Hk|].
  - destruct (nw_tags k Hk) as (t0 & t1 & E & H0 & H1). pose proof (clear_bit_wf o _ Ho Hw) as Hw'. cbn. rewrite E.
    destruct (tag_cases t Ht) as [-> | ->]; cbn; eauto.
  - intros t' o' Ht' Ho'. rewrite tag_at_with by done. change (slot_at (with_tag _ _ k) o') with (slot_at k o').
    destruct (Z.eqb_spec t' t) as [->|]; [|by apply Hk]. rewrite tag_bit_clear by done.
    intros E. apply andb_prop in E as [_ E]. by apply (nw_tagged k Hk t).
Qed.

Lemma ctor_slot o : slot_at radix_tree_node_ctor o = 0.
Proof.
  unfold slot_at. rewrite nth_lookup. cbn [rn_slots radix_tree_node_ctor]. destruct (_ !! _) eqn:E; [|done]. by apply lookup_replicate in E as [-> _].
Qed.
Lemma ctor_tag t o : is_tag t → is_off o → tag_at radix_tree_node_ctor t o = false.
Proof.
  intros Ht Ho. unfold tag_at, tag_bit. destruct (bit_cases o Ho) as [(-> & -> & _)|(-> & -> & _)], (tag_cases t Ht) as [-> | ->]; cbn; apply Z.bits_0.
Qed.
Lemma ctor_wf : node_wf radix_tree_node_ctor.
Proof.
  split; [done| |done|].
  - exists [0; 0], [0; 0]. split; [done|]. assert (words_wf [0; 0]) by (split; [done|]; repeat apply list.Forall_cons_2; try lia; by apply list.Forall_nil). done.
  - intros t o Ht Ho E. by rewrite ctor_tag in E.
Qed.
Lemma node_wf_level h k : node_wf k → node_wf (with_level h k).
Proof. intros [? ? ? ?]. by split. Qed.

(** ** Trees *)

Section Tree.
Context {A : Type} `{KitMemory A}.
Abbreviation rtst := (rtst (A := A)).
Abbreviation posmap := (gmap (nat * Z) Z).
Implicit Types (s : rtst) (pos : posmap).

Definition top s : nat := Z.to_nat (r_height s).
Definition even (x : Z) : Prop := Z.land x 1 = 0.
Definition root_tag s (t : Z) : bool := negb (Z.land (r_gfp s) (Z.shiftl 1 (t + __GFP_BITS_SHIFT)) =? 0).
Definition node_of s pos (lev : nat) (pre : Z) : option rnode := pos !! (lev, pre) ≫= λ a, nodes s !! a.

(** The positions a tree of this height can have. *)
Definition valid_pos s (lev : nat) (pre : Z) : Prop := (1 ≤ lev ≤ top s)%nat ∧ 0 ≤ pre ∧ (lev = top s → pre = 0).
(** What the parent, or the root, says about the node at a position. *)
Definition par_slot s pos (lev : nat) (pre : Z) : Z :=
  if decide (lev = top s) then r_rnode s
  else match node_of s pos (S lev) (pre / 64) with Some k => slot_at k (pre mod 64) | None => 0 end.
Definition par_tag s pos (t : Z) (lev : nat) (pre : Z) : bool :=
  if decide (lev = top s) then root_tag s t
  else match node_of s pos (S lev) (pre / 64) with Some k => tag_at k t (pre mod 64) | None => false end.
Definition any_at s pos (t : Z) (lev : nat) (pre : Z) : bool :=
  match node_of s pos lev pre with Some k => any_tag k t | None => false end.

(** [E]: the positions about which the tags above need not agree yet. *)
Record tree_ok (E : Z → nat → Z → Prop) s pos : Prop := {
  ok_height : 0 ≤ r_height s ≤ 6;
  ok_pos lev pre a : pos !! (lev, pre) = Some a →
    valid_pos s lev pre ∧ a ≠ 0 ∧ even a ∧ pre * 64 ^ Z.of_nat lev < 2 ^ 32 ∧
    ∃ k, nodes s !! a = Some k ∧ node_wf k ∧ rn_height k = Z.of_nat lev;
  ok_inj p q a : pos !! p = Some a → pos !! q = Some a → p = q;
  ok_link lev pre : valid_pos s lev pre → par_slot s pos lev pre = default 0 (pos !! (lev, pre));
  ok_tags t lev pre : is_tag t → valid_pos s lev pre → ¬ E t lev pre → par_tag s pos t lev pre = any_at s pos t lev pre;
  ok_items pre k o : node_of s pos 1 pre = Some k → is_off o → even (slot_at k o);
  ok_direct : r_height s = 0 → (r_rnode s = 0 ∧ ∀ t, is_tag t → root_tag s t = false) ∨
                               (∃ x, even x ∧ x ≠ 0 ∧ r_rnode s = radix_tree_ptr_to_direct x);
}.

(** The item and the tags at an index. *)
Definition item_at s pos (i : Z) : Z :=
  if r_height s =? 0 then if i =? 0 then radix_tree_direct_to_ptr (r_rnode s) else 0
  else match node_of s pos 1 (i / 64) with Some k => slot_at k (i mod 64) | None => 0 end.
Definition tagged_at s pos (t i : Z) : bool :=
  if r_height s =? 0 then (i =? 0) && root_tag s t
  else match node_of s pos 1 (i / 64) with Some k => tag_at k t (i mod 64) | None => false end.

(** What the walk to index [i] finds at level [n]. *)
Definition down s pos (n : nat) (i : Z) : Z :=
  match n with O => item_at s pos i | S _ => default 0 (pos !! (n, px n i)) end.

Definition index_ok s (i : Z) : Prop := 0 ≤ i < 2 ^ 32 ∧ px (top s) i = 0.

Lemma direct_to_direct x : even x → radix_tree_direct_to_ptr (radix_tree_ptr_to_direct x) = x.
Proof.
  unfold even, radix_tree_direct_to_ptr, radix_tree_ptr_to_direct, RADIX_TREE_DIRECT_PTR. intros Hx. apply Z.bits_inj'. intros n Hn.
  rewrite Z.ldiff_spec, Z.lor_spec. assert (Z.testbit (Z.land x 1) n = false) as Hb by (by rewrite Hx, Z.bits_0).
  rewrite Z.land_spec in Hb. destruct (Z.testbit 1 n), (Z.testbit x n); done.
Qed.
Lemma direct_is_direct x : radix_tree_is_direct_ptr (radix_tree_ptr_to_direct x) = true.
Proof.
  unfold radix_tree_is_direct_ptr, radix_tree_ptr_to_direct, RADIX_TREE_DIRECT_PTR. apply negb_true_iff, Z.eqb_neq. intros E.
  assert (Z.testbit (Z.land (Z.lor x 1) 1) 0 = false) as Hb by (by rewrite E, Z.bits_0).
  rewrite Z.land_spec, Z.lor_spec in Hb. by rewrite orb_true_r in Hb.
Qed.
Lemma direct_nonzero x : radix_tree_ptr_to_direct x ≠ 0.
Proof. intros E. pose proof (direct_is_direct x) as H1. by rewrite E in H1. Qed.
Lemma even_not_direct x : even x → radix_tree_is_direct_ptr x = false.
Proof. unfold even, radix_tree_is_direct_ptr, RADIX_TREE_DIRECT_PTR. intros ->. done. Qed.
Lemma even_to_ptr x : even x → radix_tree_direct_to_ptr x = x.
Proof.
  unfold even, radix_tree_direct_to_ptr, RADIX_TREE_DIRECT_PTR. intros Hx. apply Z.bits_inj'. intros n Hn. rewrite Z.ldiff_spec.
  assert (Z.testbit (Z.land x 1) n = false) as Hb by (by rewrite Hx, Z.bits_0). rewrite Z.land_spec in Hb.
  destruct (Z.testbit 1 n), (Z.testbit x n); done.
Qed.

Section Ok.
Context {E : Z → nat → Z → Prop} {s : rtst} {pos : posmap} (OK : tree_ok E s pos).

Lemma node_at lev pre a : pos !! (lev, pre) = Some a →
  ∃ k, nodes s !! a = Some k ∧ node_wf k ∧ rn_height k = Z.of_nat lev ∧ node_of s pos lev pre = Some k.
Proof.
  intros Ep. destruct (ok_pos _ _ _ OK _ _ _ Ep) as (_ & _ & _ & _ & k & Ek & Hk & Hh). exists k. unfold node_of. by rewrite Ep.
Qed.
Lemma node_of_inv lev pre k : node_of s pos lev pre = Some k →
  ∃ a, pos !! (lev, pre) = Some a ∧ nodes s !! a = Some k ∧ node_wf k ∧ rn_height k = Z.of_nat lev.
Proof.
  unfold node_of. destruct (pos !! (lev, pre)) as [a|] eqn:Ep; [|done]. cbn. intros Ek. exists a.
  destruct (ok_pos _ _ _ OK _ _ _ Ep) as (_ & _ & _ & _ & k' & Ek' & Hk & Hh). by simplify_eq.
Qed.
Lemma pos_nonzero lev pre : default 0 (pos !! (lev, pre)) = 0 ↔ pos !! (lev, pre) = None.
Proof.
  destruct (pos !! (lev, pre)) as [a|] eqn:Ep; cbn; [|done]. destruct (ok_pos _ _ _ OK _ _ _ Ep) as (_ & ? & _). split; congruence.
Qed.
Lemma node_of_none lev pre : node_of s pos lev pre = None ↔ pos !! (lev, pre) = None.
Proof.
  split; [|unfold node_of; by intros ->]. intros En. destruct (pos !! (lev, pre)) as [a|] eqn:Ep; [|done].
  destruct (node_at _ _ _ Ep) as (k & _ & _ & _ & Ek). congruence.
Qed.

(** The slots of a node above the bottom are its children. *)
Lemma child_slot n pre a k o : pos !! (S n, pre) = Some a → nodes s !! a = Some k → (1 ≤ n)%nat → is_off o →
  slot_at k o = default 0 (pos !! (n, 64 * pre + o)).
Proof.
  intros Ep Ek Hn Ho. destruct (ok_pos _ _ _ OK _ _ _ Ep) as (([_ Hv] & Hp & _) & _). unfold is_off in Ho.
  rewrite <- (ok_link _ _ _ OK) by (repeat split; lia). unfold par_slot. rewrite decide_False by lia.
  rewrite join64_div, join64_mod by done. unfold node_of. rewrite Ep. cbn. by rewrite Ek.
Qed.
Lemma child_tag t n pre a k o : pos !! (S n, pre) = Some a → nodes s !! a = Some k → (1 ≤ n)%nat → is_off o → is_tag t →
  ¬ E t n (64 * pre + o) → tag_at k t o = any_at s pos t n (64 * pre + o).
Proof.
  intros Ep Ek Hn Ho Ht HE. destruct (ok_pos _ _ _ OK _ _ _ Ep) as (([_ Hv] & Hp & _) & _). unfold is_off in Ho.
  rewrite <- (ok_tags _ _ _ OK) by (done || (repeat split; lia)). unfold par_tag. rewrite decide_False by lia.
  rewrite join64_div, join64_mod by done. unfold node_of. rewrite Ep. cbn. by rewrite Ek.
Qed.

(** Below a missing node there is nothing. *)
Lemma none_below n m i : 0 ≤ i → (1 ≤ m ≤ n)%nat → (n ≤ top s)%nat → pos !! (n, px n i) = None → pos !! (m, px m i) = None.
Proof.
  intros Hi Hm Hn Hnone. revert Hn Hnone. replace n with ((n - m) + m)%nat by lia. induction (n - m)%nat as [|d IH]; intros Hn Hnone; [done|].
  cbn [Nat.add] in *. apply IH; [lia|]. apply pos_nonzero. rewrite <- (ok_link _ _ _ OK).
  - unfold par_slot. rewrite decide_False by lia. rewrite <- px_S. unfold node_of. by rewrite Hnone.
  - repeat split; [lia..|by apply px_nonneg|lia].
Qed.
Lemma down_zero n i : index_ok s i → (n ≤ top s)%nat → down s pos n i = 0 → item_at s pos i = 0.
Proof.
  intros [Hi Ht] Hn Hd. destruct n as [|n]; [done|]. cbn [down] in Hd. apply pos_nonzero in Hd.
  unfold item_at. unfold top in *. destruct (Z.eqb_spec (r_height s) 0) as [|]; [lia|].
  rewrite <- (px_0 i) at 1. rewrite <- px_S. assert (E1 : pos !! (1%nat, px 1 i) = None) by (apply (none_below (S n)); [lia|lia|unfold top; lia|done]).
  unfold node_of. by rewrite E1.
Qed.

Lemma load_down n i a : 0 ≤ i → pos !! (S n, px (S n) i) = Some a →
  load_slot a (slot_offset i (6 * Z.of_nat n)) s = Done (down s pos n i, s).
Proof.
  intros Hi Ep. destruct (node_at _ _ _ Ep) as (k & Ek & Hk & Hh & En). unfold load_slot, load_node. run_simpl. rewrite Ek.
  rewrite slot_offset_px by done. rewrite slots_lookup by (done || apply mod64). do 2 f_equal. destruct n as [|n].
  - cbn [down]. unfold item_at. destruct (ok_pos _ _ _ OK _ _ _ Ep) as ((? & _) & _). unfold top in *.
    destruct (Z.eqb_spec (r_height s) 0); [lia|]. rewrite px_S, px_0 in En. by rewrite En, px_0.
  - cbn [down]. rewrite (child_slot _ _ _ _ _ Ep Ek) by (lia || apply mod64). by rewrite px_split.
Qed.
Lemma down_pos n i a : down s pos (S n) i = a → a ≠ 0 → pos !! (S n, px (S n) i) = Some a.
Proof. cbn [down]. destruct (pos !! _) as [b|]; cbn; intros; congruence. Qed.

Lemma lookup_loop_ok n i a : index_ok s i → pos !! (S n, px (S n) i) = Some a →
  lookup_loop (S n) (6 * Z.of_nat n) i a s = Done (item_at s pos i, s).
Proof.
  intros Hi. revert a. induction n as [|n IH]; intros a Ep.
  - cbn [lookup_loop]. run_simpl. rewrite (load_down _ _ _ (proj1 (proj1 Hi)) Ep). cbn [down]. by destruct (Z.eqb_spec (item_at s pos i) 0) as [->|].
  - destruct (ok_pos _ _ _ OK _ _ _ Ep) as ((? & _) & _). pose proof (ok_height _ _ _ OK). unfold top in *.
    cbn [lookup_loop]. run_simpl. rewrite (load_down _ _ _ (proj1 (proj1 Hi)) Ep).
    destruct (Z.eqb_spec (down s pos (S n) i) 0) as [Ez|Ez].
    + by rewrite (down_zero (S n)) by (done || (unfold top; lia)).
    + unfold RADIX_TREE_MAP_SHIFT. rewrite u32_small by lia. replace (6 * Z.of_nat (S n) - 6) with (6 * Z.of_nat n) by lia.
      apply IH. by apply down_pos.
Qed.

(** Indices beyond the height of the tree have no item. *)
Lemma beyond_none i : 0 ≤ i → px (top s) i ≠ 0 → r_height s ≠ 0 → pos !! (1%nat, px 1 i) = None.
Proof.
  intros Hi Hp Hh. pose proof (ok_height _ _ _ OK). apply (none_below (top s)); [done|unfold top; lia|lia|].
  destruct (pos !! (top s, px (top s) i)) as [a|] eqn:Ep; [|done]. destruct (ok_pos _ _ _ OK _ _ _ Ep) as ((_ & _ & Hz) & _).
  by rewrite Hz in Hp.
Qed.
Lemma beyond_item i : 0 ≤ i → px (top s) i ≠ 0 → item_at s pos i = 0 ∧ ∀ t, tagged_at s pos t i = false.
Proof.
  intros Hi Hp. unfold item_at, tagged_at. destruct (Z.eqb_spec (r_height s) 0) as [E0|E0].
  - unfold top in Hp. rewrite E0, px_0 in Hp. by destruct (Z.eqb_spec i 0).
  - pose proof (beyond_none i Hi Hp E0) as E1. rewrite px_S, px_0 in E1. unfold node_of. by rewrite E1.
Qed.
Lemma maxindex_ok i : 0 ≤ i < 2 ^ 32 →
  (Z.min (64 ^ r_height s - 1) (2 ^ 32 - 1) <? i) = negb (bool_decide (px (top s) i = 0)).
Proof.
  intros Hi. pose proof (ok_height _ _ _ OK). unfold px, top. rewrite Z2Nat.id by lia.
  assert (0 < 64 ^ r_height s) by (apply Z.pow_pos_nonneg; lia).
  destruct (Z.ltb_spec (Z.min (64 ^ r_height s - 1) (2 ^ 32 - 1)) i) as [Hlt|Hge]; symmetry; [apply negb_true_iff, bool_decide_eq_false_2|apply negb_false_iff, bool_decide_eq_true_2].
  - intros Hz. apply Z.div_small_iff in Hz; lia.
  - apply Z.div_small. lia.
Qed.

Lemma root_node : r_height s ≠ 0 → r_rnode s = default 0 (pos !! (top s, 0)).
Proof.
  intros Hh. pose proof (ok_height _ _ _ OK). rewrite <- (ok_link _ _ _ OK) by (unfold valid_pos, top; repeat split; lia).
  unfold par_slot. by rewrite decide_True.
Qed.
Lemma root_some : r_height s ≠ 0 → r_rnode s ≠ 0 → pos !! (top s, 0) = Some (r_rnode s).
Proof. intros Hh Hr. rewrite (root_node Hh) in *. by destruct (pos !! _). Qed.

Lemma root_kind : r_rnode s ≠ 0 → radix_tree_is_direct_ptr (r_rnode s) = (r_height s =? 0).
Proof.
  intros Hr. destruct (Z.eqb_spec (r_height s) 0) as [E0|E0].
  - destruct (ok_direct _ _ _ OK E0) as [[? _]|(x & _ & _ & ->)]; [done|apply direct_is_direct].
  - destruct (ok_pos _ _ _ OK _ _ _ (root_some E0 Hr)) as (_ & _ & He & _). by apply even_not_direct.
Qed.

(** A lookup finds the item. *)
Lemma lookup_ok i : 0 ≤ i < 2 ^ 32 → radix_tree_lookup i s = Done (item_at s pos i, s).
Proof.
  intros Hi. unfold radix_tree_lookup. run_simpl. pose proof (ok_height _ _ _ OK) as Hh.
  destruct (Z.eqb_spec (r_rnode s) 0) as [Er|Er].
  - unfold item_at. rewrite Er. destruct (Z.eqb_spec (r_height s) 0) as [E0|E0]; [by destruct (i =? 0)|].
    assert (pos !! (top s, 0) = None) as En by (rewrite <- pos_nonzero, <- root_node by done; done).
    destruct (decide (px (top s) i = 0)) as [Hp|Hp].
    + rewrite <- Hp in En. assert (E1 : pos !! (1%nat, px 1 i) = None) by (apply (none_below (top s)); [lia|unfold top; lia|lia|done]).
      rewrite px_S, px_0 in E1. unfold node_of. by rewrite E1.
    + pose proof (beyond_none i ltac:(lia) Hp E0) as E1. rewrite px_S, px_0 in E1. unfold node_of. by rewrite E1.
  - rewrite root_kind by done. destruct (Z.eqb_spec (r_height s) 0) as [E0|E0].
    + unfold item_at. rewrite E0. change (0 =? 0) with true. cbn iota. destruct (Z.ltb_spec 0 i), (Z.eqb_spec i 0); try lia; done.
    + pose proof (root_some E0 Er) as Ep. destruct (node_at _ _ _ Ep) as (k & Ek & Hk & Hkh & En). unfold load_node at 1. rewrite Ek.
      rewrite Hkh. unfold top at 1. rewrite Z2Nat.id by lia. rewrite maxindex_run by lia. rewrite maxindex_ok by done.
      destruct (decide (px (top s) i = 0)) as [Hp|Hp].
      * rewrite bool_decide_eq_true_2 by done. cbn [negb]. unfold top in *. rewrite Z2Nat.id by lia. destruct (Z.eqb_spec (r_height s) 0) as [|_]; [done|].
        destruct (Z.to_nat (r_height s)) as [|n] eqn:En'; [lia|]. replace (r_height s) with (Z.of_nat (S n)) by lia.
        rewrite top_shift_S by lia. apply lookup_loop_ok; [split; [done|unfold top; by rewrite En']|by rewrite Hp].
      * rewrite bool_decide_eq_false_2 by done. cbn [negb]. by rewrite (proj1 (beyond_item i ltac:(lia) Hp)).
Qed.

End Ok.

(** ** Changing a node *)

Definition upd_node (a : Z) (k : rnode) s : rtst := with_nodes (<[a := k]> (nodes s)) s.

Lemma node_of_upd E s pos lev0 pre0 a k' lev pre : tree_ok E s pos → pos !! (lev0, pre0) = Some a →
  node_of (upd_node a k' s) pos lev pre = if decide ((lev, pre) = (lev0, pre0)) then Some k' else node_of s pos lev pre.
Proof.
  intros OK Ep. unfold node_of. cbn [nodes upd_node with_nodes]. destruct (decide ((lev, pre) = (lev0, pre0))) as [[= -> ->]|Hne].
  - rewrite Ep. cbn. by rewrite lookup_insert_eq.
  - destruct (pos !! (lev, pre)) as [b|] eqn:Eb; [|done]. cbn. rewrite lookup_insert_ne; [done|].
    intros ->. by apply Hne, (ok_inj _ _ _ OK _ _ b).
Qed.

Lemma upd_ok E E' s pos lev0 pre0 a k k' :
  tree_ok E s pos → pos !! (lev0, pre0) = Some a → nodes s !! a = Some k →
  node_wf k' → rn_height k' = rn_height k →
  ((1 < lev0)%nat → ∀ o, is_off o → slot_at k' o = slot_at k o) →
  (lev0 = 1%nat → ∀ o, is_off o → even (slot_at k' o)) →
  (∀ t lev pre, is_tag t → ¬ E' t lev pre → (S lev, pre / 64) ≠ (lev0, pre0) → (lev, pre) ≠ (lev0, pre0) → ¬ E t lev pre) →
  (∀ t lev o, is_tag t → is_off o → (1 ≤ lev)%nat → lev0 = S lev → ¬ E' t lev (64 * pre0 + o) →
    tag_at k' t o = any_at s pos t lev (64 * pre0 + o)) →
  (∀ t, is_tag t → ¬ E' t lev0 pre0 → par_tag s pos t lev0 pre0 = any_tag k' t) →
  tree_ok E' (upd_node a k' s) pos.
Proof.
  intros OK Ep Ek Hk' Hh Hs He HE Hc Ha. pose proof (node_of_upd E s pos lev0 pre0 a k') as Hn.
  assert (Hpar : ∀ lev pre, 0 ≤ pre → (lev = top s → pre = 0) → lev ≠ top s → (S lev, pre / 64) = (lev0, pre0) →
    lev0 = S lev ∧ pre = 64 * pre0 + pre mod 64) by (intros lev pre _ _ _ [= <- <-]; by rewrite split64).
  split.
  - apply OK.
  - intros lev pre b Eb. destruct (ok_pos _ _ _ OK _ _ _ Eb) as (? & ? & ? & ? & kb & Ekb & ? & ?). do 4 (split; [done|]).
    cbn [nodes upd_node with_nodes]. destruct (decide (b = a)) as [->|].
    + exists k'. rewrite lookup_insert_eq. simplify_eq. split_and!; [done..|congruence].
    + exists kb. by rewrite lookup_insert_ne.
  - apply OK.
  - intros lev pre Hv. rewrite <- (ok_link _ _ _ OK) by done. unfold par_slot. change (top (upd_node a k' s)) with (top s).
    destruct (decide (lev = top s)) as [|Hl]; [done|]. rewrite Hn by done. case_decide as Hd; [|done].
    destruct (Hpar lev pre) as [-> Epre]; [apply Hv..|done|done|]. injection Hd as <-. unfold node_of. rewrite Ep. cbn. rewrite Ek.
    apply Hs; [destruct Hv; lia|apply mod64].
  - intros t lev pre Ht Hv HE'. unfold par_tag, any_at. change (top (upd_node a k' s)) with (top s). rewrite !Hn by done.
    destruct (decide (lev = top s)) as [Hl|Hl]; [|destruct (decide ((S lev, pre / 64) = (lev0, pre0))) as [Hd|Hd]].
    + case_decide as Hd'.
      * injection Hd' as -> ->. rewrite <- Ha by done. unfold par_tag. by rewrite decide_True.
      * change (root_tag (upd_node a k' s) t) with (root_tag s t). fold (any_at s pos t lev pre). rewrite <- (ok_tags _ _ _ OK t lev pre Ht Hv); [unfold par_tag; by rewrite decide_True|].
        apply HE; try done. intros [= <- <-]. destruct (ok_pos _ _ _ OK _ _ _ Ep) as ((? & _) & _). lia.
    + destruct (Hpar lev pre) as [El Epre]; [apply Hv..|done|done|]. rewrite decide_False by (intros [= ? ?]; lia).
      fold (any_at s pos t lev pre). rewrite Epre at 2. apply Hc; try done; [apply mod64|apply Hv|]. by rewrite <- Epre.
    + case_decide as Hd'; [injection Hd' as -> ->; rewrite <- Ha by done; unfold par_tag; by rewrite decide_False|].
      fold (any_at s pos t lev pre). rewrite <- (ok_tags _ _ _ OK t lev pre Ht Hv); [unfold par_tag; by rewrite decide_False|]. by apply HE.
  - intros pre kk o. rewrite Hn by done. case_decide as Hd; [|apply OK]. injection Hd as <- <-. intros [= <-]. by apply He.
  - apply OK.
Qed.

End Tree.
