(* ===== verification/RadixTreeOps.v ===== *)
(** The operations of [RadixTree] keep the invariant of [RadixTreeInv], and what
    they do to the items and tags. *)

From S2P Require Import Prelude Kit FindBit RadixTree RadixTreeInv.

Section Ops.
Context {A : Type} `{KitMemory A}.
Abbreviation rtst := (rtst (A := A)).
Abbreviation posmap := (gmap (nat * Z) Z).
Implicit Types (s : rtst) (pos : posmap).

Definition no_exempt : Z → nat → Z → Prop := λ _ _ _, False.

(** Items and tags are the same. *)
Definition same_items s pos s' pos' : Prop := ∀ i, 0 ≤ i < 2 ^ 32 →
  item_at s' pos' i = item_at s pos i ∧ ∀ t, is_tag t → tagged_at s' pos' t i = tagged_at s pos t i.

Lemma same_items_refl s pos : same_items s pos s pos.
Proof. by intros i Hi. Qed.
Lemma same_items_trans s1 p1 s2 p2 s3 p3 : same_items s1 p1 s2 p2 → same_items s2 p2 s3 p3 → same_items s1 p1 s3 p3.
Proof.
  intros H1 H2 i Hi. destruct (H1 i Hi) as [E1 T1], (H2 i Hi) as [E2 T2]. split; [congruence|]. intros t Ht. rewrite T2, T1; done.
Qed.

(** ** Running the accesses *)

Lemma load_node_run a k s : nodes s !! a = Some k → load_node a s = Done (k, s).
Proof. intros E. unfold load_node. by rewrite E. Qed.
Lemma store_slot_run a o x k s : nodes s !! a = Some k → node_wf k → is_off o →
  store_slot a o x s = Done (tt, upd_node a (with_slot o x k) s).
Proof. intros E Hk Ho. unfold store_slot. run_simpl. rewrite (load_node_run _ _ _ E). cbn. by rewrite slots_lookup. Qed.
Lemma store_slot_run' a o x k s : nodes s !! a = Some k → length (rn_slots k) = 64%nat → is_off o →
  store_slot a o x s = Done (tt, upd_node a (with_slot o x k) s).
Proof.
  intros E Hk Ho. unfold store_slot. run_simpl. rewrite (load_node_run _ _ _ E). cbn. unfold is_off in Ho.
  destruct (rn_slots k !! Z.to_nat o) eqn:El; [done|]. apply lookup_ge_None_1 in El. lia.
Qed.
Lemma set_count_run a f k s : nodes s !! a = Some k → set_count a f s = Done (tt, upd_node a (with_count (u32 (f (rn_count k))) k) s).
Proof. intros E. unfold set_count. run_simpl. by rewrite (load_node_run _ _ _ E). Qed.
Lemma set_height_run a h k s : nodes s !! a = Some k → set_height a h s = Done (tt, upd_node a (with_level h k) s).
Proof. intros E. unfold set_height. run_simpl. by rewrite (load_node_run _ _ _ E). Qed.
Lemma tag_get_run a t o k s : nodes s !! a = Some k → node_wf k → is_tag t → tag_get a t o s = Done (tag_at k t o, s).
Proof.
  intros E Hk Ht. unfold tag_get, tags_of. run_simpl. rewrite (load_node_run _ _ _ E). by rewrite (proj1 (words_lookup k t Hk Ht)).
Qed.
Lemma tag_set_run a t o k s : nodes s !! a = Some k → node_wf k → is_tag t →
  tag_set a t o s = Done (tt, upd_node a (with_tag t (__set_bit o (words_of k t)) k) s).
Proof.
  intros E Hk Ht. unfold tag_set, tags_of. run_simpl. rewrite (load_node_run _ _ _ E). by rewrite (proj1 (words_lookup k t Hk Ht)).
Qed.
Lemma tag_clear_run a t o k s : nodes s !! a = Some k → node_wf k → is_tag t →
  tag_clear a t o s = Done (tt, upd_node a (with_tag t (__clear_bit o (words_of k t)) k) s).
Proof.
  intros E Hk Ht. unfold tag_clear, tags_of. run_simpl. rewrite (load_node_run _ _ _ E). by rewrite (proj1 (words_lookup k t Hk Ht)).
Qed.
Lemma any_tag_set_run a t k s : nodes s !! a = Some k → node_wf k → is_tag t → any_tag_set a t s = Done (any_tag k t, s).
Proof.
  intros E Hk Ht. unfold any_tag_set, tags_of. run_simpl. rewrite (load_node_run _ _ _ E). by rewrite (proj1 (words_lookup k t Hk Ht)).
Qed.
Lemma upd_upd a k k' s : upd_node a k' (upd_node a k s) = upd_node a k' s.
Proof. unfold upd_node, with_nodes. cbn. by rewrite insert_insert_eq. Qed.
Lemma upd_same a k s : nodes (upd_node a k s) !! a = Some k.
Proof. cbn. apply lookup_insert_eq. Qed.

(** ** Frames *)

Lemma node_of_frame s s' pos lev pre : (∀ p a, pos !! p = Some a → nodes s' !! a = nodes s !! a) →
  node_of s' pos lev pre = node_of s pos lev pre.
Proof. intros Hn. unfold node_of. destruct (pos !! (lev, pre)) as [a|] eqn:Ep; [|done]. cbn. by apply (Hn (lev, pre)). Qed.

Lemma frame_ok E s s' pos : tree_ok E s pos →
  (∀ p a, pos !! p = Some a → nodes s' !! a = nodes s !! a) →
  r_height s' = r_height s → r_gfp s' = r_gfp s → r_rnode s' = r_rnode s →
  tree_ok E s' pos ∧ same_items s pos s' pos.
Proof.
  intros OK Hn Hh Hg Hr. pose proof (λ lev pre, node_of_frame s s' pos lev pre Hn) as Ho.
  assert (Ht : top s' = top s) by (unfold top; congruence). assert (Hrt : ∀ t, root_tag s' t = root_tag s t) by (intros; unfold root_tag; congruence).
  split; [split|].
  - rewrite Hh. apply OK.
  - intros lev pre a Ep. unfold valid_pos. rewrite Ht. destruct (ok_pos _ _ _ OK _ _ _ Ep) as (? & ? & ? & ? & k & ? & ? & ?).
    do 4 (split; [done|]). exists k. by rewrite (Hn _ _ Ep).
  - apply OK.
  - intros lev pre. unfold valid_pos, par_slot. rewrite Ht, Hr, Ho. apply OK.
  - intros t lev pre. unfold valid_pos, par_tag, any_at. rewrite Ht, Hrt, !Ho. apply OK.
  - intros pre k o. rewrite Ho. apply OK.
  - rewrite Hh, Hr. setoid_rewrite Hrt. apply OK.
  - intros i Hi. unfold item_at, tagged_at. rewrite Hh, Hr, Ho. split; [done|]. intros. by rewrite Hrt.
Qed.

(** ** Linking and unlinking a node *)

(** The position of the child in slot [o]. *)
Definition kid (pre o : Z) : Z := 64 * pre + o.

Lemma kid_inv lev pre n p o : is_off o → (S lev, pre / 64) = (S n, p) → lev = n ∧ pre = kid p (pre mod 64).
Proof. intros Ho [= -> <-]. unfold kid. by rewrite split64. Qed.
Lemma kid_div p o : is_off o → kid p o / 64 = p.
Proof. apply join64_div. Qed.
Lemma kid_mod p o : is_off o → kid p o mod 64 = o.
Proof. apply join64_mod. Qed.

(** A node without items. *)
Definition bare (k : rnode) : Prop := (∀ o, is_off o → slot_at k o = 0) ∧ ∀ t o, is_tag t → is_off o → tag_at k t o = false.

Lemma bare_any k t : node_wf k → bare k → is_tag t → any_tag k t = false.
Proof. intros Hk [_ Hb] Ht. apply any_tag_false; auto. Qed.
Lemma bare_ctor h : bare (with_level h radix_tree_node_ctor).
Proof. split; [intros o Ho; apply ctor_slot|intros t o; apply ctor_tag]. Qed.
Lemma bare_count k : node_wf k → rn_count k = 0 → bare k.
Proof.
  intros Hk Hc. assert (Hs : ∀ o, is_off o → slot_at k o = 0).
  { intros o Ho. rewrite (nw_count k Hk) in Hc. by eapply (nz_zero _ _ _ Hc), slots_lookup. }
  split; [done|]. intros t o Ht Ho. apply not_true_iff_false. intros Et. by apply (nw_tagged k Hk t o) in Et; auto.
Qed.

(** The child in slot [o] of the node at [(S n, pre)] becomes [new]; neither the old
    nor the new child has items. *)
Section Relink.
Context (E : Z → nat → Z → Prop) (s : rtst) (pos : posmap) (OK : tree_ok E s pos).
Context (n : nat) (pre o a : Z) (k : rnode) (Hn : (1 ≤ n)%nat) (Ho : is_off o).
Context (Ep : pos !! (S n, pre) = Some a) (Ek : nodes s !! a = Some k).
Context (new : option Z).
Let q : nat * Z := (n, kid pre o).
Let new_node : option rnode := new ≫= λ c, nodes s !! c.
Context (Hold : ∀ k0, node_of s pos n (kid pre o) = Some k0 → bare k0).
Context (Hnt : ∀ t, is_tag t → tag_at k t o = false).
Context (Hnew : ∀ c, new = Some c → c ≠ 0 ∧ even c ∧ kid pre o * 64 ^ Z.of_nat n < 2 ^ 32 ∧ (∀ p b, pos !! p = Some b → b ≠ c) ∧
  ∃ cn, nodes s !! c = Some cn ∧ node_wf cn ∧ bare cn ∧ rn_height cn = Z.of_nat n).

Definition relink_node : rnode :=
  with_count (rn_count k - (if slot_at k o =? 0 then 0 else 1) + (if default 0 new =? 0 then 0 else 1)) (with_slot o (default 0 new) k).
Let s' : rtst := upd_node a relink_node s.
Let pos' : posmap := partial_alter (λ _, new) q pos.

Lemma relink_wf : node_wf relink_node.
Proof using OK Ep Ek Ho Hnt.
  destruct (node_at OK _ _ _ Ep) as (k0 & Ek0 & Hk & _). simplify_eq. by apply node_wf_slot.
Qed.
Lemma relink_slot o' : is_off o' → slot_at relink_node o' = if o' =? o then default 0 new else slot_at k o'.
Proof using OK Ep Ek Ho.
  destruct (node_at OK _ _ _ Ep) as (k0 & Ek0 & Hk & _). simplify_eq. intros Ho'. by rewrite <- slot_at_with.
Qed.
Lemma relink_pos p : pos' !! p = if decide (p = q) then new else pos !! p.
Proof. unfold pos'. case_decide as Hq; [subst; apply lookup_partial_alter_eq|by apply lookup_partial_alter_ne]. Qed.
Lemma relink_node_of lev p : node_of s' pos' lev p =
  if decide ((lev, p) = q) then new_node else if decide ((lev, p) = (S n, pre)) then Some relink_node else node_of s pos lev p.
Proof using OK Ep Hnew.
  unfold node_of at 1. rewrite relink_pos. destruct (decide ((lev, p) = q)) as [Hq|Hq].
  - unfold new_node. destruct new as [c|]; [|done]. cbn. rewrite lookup_insert_ne; [done|].
    intros <-. destruct (Hnew a eq_refl) as (_ & _ & _ & Hf & _). by apply (Hf _ _ Ep).
  - change (pos !! (lev, p) ≫= λ b, nodes s' !! b) with (node_of s' pos lev p).
    apply (node_of_upd E s pos (S n) pre a relink_node lev p OK Ep).
Qed.
Lemma relink_new_bare k0 : new_node = Some k0 → bare k0 ∧ node_wf k0.
Proof using Hnew.
  unfold new_node. destruct new as [c|]; [|done]. cbn. destruct (Hnew c eq_refl) as (_ & _ & _ & _ & cn & -> & ? & ? & _). by intros [= <-].
Qed.
Lemma relink_par_div lev p : (lev, p) = q → (S lev, p / 64) = (S n, pre).
Proof using Ho. intros [= -> ->]. by rewrite kid_div. Qed.
Lemma relink_level : (S n ≤ top s)%nat.
Proof using OK Ep. by destruct (ok_pos _ _ _ OK _ _ _ Ep) as (([? ?] & _) & _). Qed.
(** The old and the new child have no children. *)
Lemma relink_below lev p : valid_pos s lev p → lev ≠ top s → (S lev, p / 64) = q → pos !! (lev, p) = None.
Proof using OK Hold.
  intros Hv Hlt Hq. apply (pos_nonzero OK). rewrite <- (ok_link _ _ _ OK lev p Hv). unfold par_slot. rewrite decide_False by done.
  injection Hq as -> ->. destruct (node_of s pos n (kid pre o)) as [k0|] eqn:E0; [|done]. apply (proj1 (Hold k0 eq_refl)), mod64.
Qed.

Lemma relink_link lev p : valid_pos s lev p → par_slot s' pos' lev p = default 0 (pos' !! (lev, p)).
Proof using OK Ep Ek Ho Hn Hold Hnew.
  intros Hv. pose proof (ok_link _ _ _ OK lev p Hv) as Hl. pose proof relink_level as Htop. unfold par_slot in *. change (top s') with (top s).
  rewrite relink_pos. destruct (decide (lev = top s)) as [Hlt|Hlt].
  { rewrite decide_False by (unfold q; intros [= ? _]; lia). done. }
  rewrite relink_node_of. destruct (decide ((S lev, p / 64) = q)) as [Hq|Hq].
  - rewrite decide_False by (unfold q in *; injection Hq as ? ?; intros [= ? ?]; lia). rewrite relink_below by done.
    destruct new_node as [k0|] eqn:E0; [|done]. apply (proj1 (proj1 (relink_new_bare k0 E0))), mod64.
  - destruct (decide ((S lev, p / 64) = (S n, pre))) as [Hq'|Hq'].
    + rewrite relink_slot by apply mod64. destruct (kid_inv _ _ _ _ _ Ho Hq') as [El Hp]. injection Hq' as _ Epp.
      destruct (node_at OK _ _ _ Ep) as (k0 & Ek0 & _ & _ & En). rewrite El, Epp, En in Hl. simplify_eq.
      destruct (Z.eqb_spec (p mod 64) o) as [Hpo|Hpo].
      * rewrite decide_True by (unfold q; congruence). done.
      * rewrite decide_False; [done|]. unfold q. intros [= Hx]. apply Hpo. rewrite Hx. by apply kid_mod.
    + rewrite decide_False; [done|]. intros Hx. by apply Hq', relink_par_div.
Qed.

Lemma relink_any t lev p : is_tag t → any_at s' pos' t lev p = any_at s pos t lev p.
Proof using OK Ep Ek Hold Hnew.
  intros Ht. unfold any_at. rewrite relink_node_of.
  destruct (decide ((lev, p) = q)) as [Hq|Hq]; [|destruct (decide ((lev, p) = (S n, pre))) as [Hq'|Hq']; [|done]].
  - injection Hq as -> ->. transitivity false.
    + destruct new_node as [k0|] eqn:E0; [|done]. apply bare_any; [apply (relink_new_bare k0 E0)..|done].
    + destruct (node_of s pos n (kid pre o)) as [k0|] eqn:E0; [|done]. symmetry. apply bare_any; [|by apply Hold|done].
      by destruct (node_of_inv OK _ _ _ E0) as (? & ? & ? & ? & _).
  - injection Hq' as -> ->. destruct (node_at OK _ _ _ Ep) as (k0 & Ek0 & _ & _ & ->). by simplify_eq.
Qed.
Lemma relink_par_tag t lev p : is_tag t → valid_pos s lev p → par_tag s' pos' t lev p = par_tag s pos t lev p.
Proof using OK Ep Ek Hold Hnew.
  intros Ht Hv. unfold par_tag. change (top s') with (top s). destruct (decide (lev = top s)) as [|Hlt]; [done|]. rewrite relink_node_of.
  destruct (decide ((S lev, p / 64) = q)) as [Hq|Hq]; [|destruct (decide ((S lev, p / 64) = (S n, pre))) as [Hq'|Hq']; [|done]].
  - injection Hq as -> ->. transitivity false.
    + destruct new_node as [k0|] eqn:E0; [|done]. apply (proj2 (proj1 (relink_new_bare k0 E0))); [done|apply mod64].
    + destruct (node_of s pos n (kid pre o)) as [k0|] eqn:E0; [|done]. symmetry. apply (proj2 (Hold k0 eq_refl)); [done|apply mod64].
  - injection Hq' as -> ->. destruct (node_at OK _ _ _ Ep) as (k0 & Ek0 & _ & _ & ->). by simplify_eq.
Qed.

Lemma relink_ok : tree_ok E s' pos' ∧ same_items s pos s' pos'.
Proof using OK Ep Ek Ho Hn Hold Hnew Hnt.
  destruct (node_at OK _ _ _ Ep) as (k0 & Ek0 & Hk & Hkh & En). simplify_eq. split; [split|].
  - apply OK.
  - intros lev p b. rewrite relink_pos. change (valid_pos s') with (valid_pos s). destruct (decide ((lev, p) = q)) as [Hq|Hq].
    + injection Hq as -> ->. intros Eb. destruct (Hnew b Eb) as (? & ? & ? & Hf & cn & Ecn & ? & ? & ?). split_and!; try done.
      * destruct (ok_pos _ _ _ OK _ _ _ Ep) as (([? ?] & ? & _) & _). unfold kid, valid_pos, is_off in *. repeat split; lia.
      * exists cn. cbn. by rewrite lookup_insert_ne by (by apply (Hf _ _ Ep)).
    + intros Eb. destruct (ok_pos _ _ _ OK _ _ _ Eb) as (? & ? & ? & ? & kb & Ekb & ? & ?). do 4 (split; [done|]).
      cbn. destruct (decide (b = a)) as [->|]; [|exists kb; by rewrite lookup_insert_ne].
      exists relink_node. rewrite lookup_insert_eq. split_and!; [done|apply relink_wf|simplify_eq; done].
  - intros p1 p2 b. rewrite !relink_pos. destruct (decide (p1 = q)) as [->|H1], (decide (p2 = q)) as [->|H2]; [done|..|apply OK].
    + intros Eb E2. destruct (Hnew b Eb) as (_ & _ & _ & Hf & _). by apply Hf in E2.
    + intros E1 Eb. destruct (Hnew b Eb) as (_ & _ & _ & Hf & _). by apply Hf in E1.
  - apply relink_link.
  - intros t lev p Ht Hv HE. rewrite relink_par_tag, relink_any by done. by apply OK.
  - intros p kk oo. rewrite relink_node_of. destruct (decide ((1%nat, p) = q)) as [Hq|Hq].
    + intros Ekk Hoo. destruct (relink_new_bare kk Ekk) as [[Hb _] _]. by rewrite Hb.
    + case_decide as Hq'; [|apply OK]. injection Hq' as ? ?. lia.
  - apply OK.
  - intros i Hi. unfold item_at, tagged_at. change (r_height s') with (r_height s).
    destruct (Z.eqb_spec (r_height s) 0) as [|_]; [done|]. rewrite relink_node_of. case_decide as Hq; [|case_decide as Hq'; [injection Hq' as ? ?; lia|done]].
    pose proof (mod64 i) as Hm. injection Hq as -> ->. split; [|intros t Ht];
      (destruct new_node as [k0|] eqn:E0; [destruct (relink_new_bare k0 E0) as [[Hb1 Hb2] _]|];
       destruct (node_of s pos n (kid pre o)) as [k1|] eqn:E1; try (destruct (Hold k1 eq_refl) as [Ho1 Ho2]); try done;
       rewrite ?Hb1, ?Hb2, ?Ho1, ?Ho2; done).
Qed.

End Relink.

(** ** The root *)

Lemma px_mul lev pre : px lev (pre * 64 ^ Z.of_nat lev) = pre.
Proof. unfold px. apply Z.div_mul. pose proof (pow64_pos lev). lia. Qed.

Lemma pos_none E s pos : tree_ok E s pos → pos !! (top s, 0) = None → ∀ p, pos !! p = None.
Proof.
  intros OK Hr [lev pre]. destruct (pos !! (lev, pre)) as [a|] eqn:Ep; [|done].
  destruct (ok_pos _ _ _ OK _ _ _ Ep) as (([H1 H2] & H3 & _) & _). set (i := pre * 64 ^ Z.of_nat lev).
  assert (Hi : 0 ≤ i) by (pose proof (pow64_pos lev); unfold i; lia).
  assert (En : pos !! (lev, px lev i) = None); [|unfold i in En; rewrite px_mul in En; congruence].
  apply (none_below OK (top s)); [lia..|]. destruct (decide (px (top s) i = 0)) as [->|Hz]; [done|].
  destruct (pos !! (top s, px (top s) i)) as [b|] eqn:Eb; [|done]. destruct (ok_pos _ _ _ OK _ _ _ Eb) as ((_ & _ & Hb) & _). by rewrite Hb in Hz.
Qed.

Lemma empty_ok E s : 0 ≤ r_height s ≤ 6 → r_rnode s = 0 → (∀ t, is_tag t → root_tag s t = false) → tree_ok E s ∅.
Proof.
  intros Hh Hr Ht. split; try done.
  - intros lev pre Hv. unfold par_slot, node_of. rewrite !lookup_empty. by case_decide.
  - intros t lev pre Hv. unfold par_tag, any_at, node_of. rewrite !lookup_empty. intros. case_decide; [by apply Ht|done].
  - auto.
Qed.
Lemma empty_items s i : r_rnode s = 0 → item_at s ∅ i = 0 ∧ ∀ t, (∀ t, is_tag t → root_tag s t = false) → is_tag t → tagged_at s ∅ t i = false.
Proof.
  intros Hr. unfold item_at, tagged_at, node_of. rewrite !lookup_empty, Hr. cbn. destruct (r_height s =? 0); [|done].
  split; [by destruct (i =? 0)|]. intros t Hz Ht. rewrite Hz by done. by rewrite andb_false_r.
Qed.

Lemma root_tags_node s pos t : tree_ok no_exempt s pos → r_height s ≠ 0 → is_tag t → root_tag s t = any_at s pos t (top s) 0.
Proof.
  intros OK Hh Ht. pose proof (ok_height _ _ _ OK).
  rewrite <- (ok_tags _ _ _ OK t (top s) 0 Ht); [unfold par_tag; by rewrite decide_True|unfold valid_pos, top; repeat split; lia|intros []].
Qed.
Lemma no_root_tags s pos t : tree_ok no_exempt s pos → r_rnode s = 0 → is_tag t → root_tag s t = false.
Proof.
  intros OK Hr Ht. destruct (decide (r_height s = 0)) as [E0|E0].
  - destruct (ok_direct _ _ _ OK E0) as [[_ Hz]|(x & _ & _ & Hx)]; [by apply Hz|]. rewrite Hr in Hx. by destruct (direct_nonzero x).
  - rewrite (root_tags_node _ _ _ OK E0 Ht). unfold any_at, node_of. rewrite (proj1 (pos_nonzero OK (top s) 0)); [done|]. by rewrite <- (root_node OK E0).
Qed.
Lemma no_root_empty E s pos : tree_ok E s pos → r_rnode s = 0 → pos = ∅.
Proof.
  intros OK Hr. apply map_eq. intros p. rewrite lookup_empty. destruct (decide (r_height s = 0)) as [E0|E0].
  - destruct p as [lev pre]. destruct (pos !! (lev, pre)) eqn:Ep; [|done]. destruct (ok_pos _ _ _ OK _ _ _ Ep) as (([? ?] & _) & _). unfold top in *. lia.
  - apply (pos_none _ _ _ OK), (pos_nonzero OK). by rewrite <- (root_node OK E0).
Qed.

(** A single node without items. *)
Lemma single_ok E s c cn : 1 ≤ r_height s ≤ 6 → r_rnode s = c → c ≠ 0 → even c → nodes s !! c = Some cn → node_wf cn → bare cn →
  rn_height cn = r_height s → (∀ t, is_tag t → root_tag s t = false) → tree_ok E s {[(top s, 0) := c]}.
Proof.
  intros Hh Hr Hc He Ec Hcn Hb Hch Ht.
  assert (Hof : ∀ lev p, node_of s {[(top s, 0) := c]} lev p = if decide ((lev, p) = (top s, 0)) then Some cn else None).
  { intros lev p. unfold node_of. case_decide as Hd; [rewrite Hd, lookup_singleton_eq; done|]. by rewrite lookup_singleton_ne. }
  split.
  - lia.
  - intros lev p b Eb. apply lookup_singleton_Some in Eb as [[= <- <-] <-]. split_and!; try done; [unfold valid_pos, top; repeat split; lia|].
    exists cn. split_and!; try done. unfold top. lia.
  - intros p1 p2 b [<- _]%lookup_singleton_Some [<- _]%lookup_singleton_Some. done.
  - intros lev p ([? ?] & Hp & Hz). unfold par_slot. rewrite Hof. destruct (decide (lev = top s)) as [->|].
    + rewrite (Hz eq_refl), lookup_singleton_eq. done.
    + rewrite lookup_singleton_ne by congruence. case_decide as Hd; [by rewrite (proj1 Hb) by apply mod64|done].
  - intros t lev p Htt ([? ?] & Hp & Hz) _. unfold par_tag, any_at. rewrite !Hof. transitivity false.
    + destruct (decide (lev = top s)); [by apply Ht|]. case_decide; [|done]. apply Hb; [done|apply mod64].
    + case_decide; [|done]. symmetry. by apply bare_any.
  - intros p kk oo. rewrite Hof. case_decide; [|done]. intros [= <-] Hoo. by rewrite (proj1 Hb).
  - intros ?. lia.
Qed.
Lemma single_items s c cn i : r_height s ≠ 0 → nodes s !! c = Some cn → bare cn →
  item_at s {[(top s, 0) := c]} i = 0 ∧ ∀ t, is_tag t → tagged_at s {[(top s, 0) := c]} t i = false.
Proof.
  intros Hh Ec Hb. unfold item_at, tagged_at. destruct (Z.eqb_spec (r_height s) 0); [done|]. unfold node_of.
  destruct (decide ((top s, 0) = (1%nat, i / 64))) as [<-|]; [rewrite lookup_singleton_eq|by rewrite lookup_singleton_ne by done].
  cbn. rewrite Ec. split; [apply Hb, mod64|]. intros t Ht. apply Hb; [done|apply mod64].
Qed.

(** ** A new root above the old one *)

Section Grow.
Context (s : rtst) (pos : posmap) (OK : tree_ok no_exempt s pos) (c : Z) (kn : rnode).
Context (Hr : r_rnode s ≠ 0) (Hh : r_height s < 6) (Hc : c ≠ 0) (He : even c).
Context (Hf : ∀ p b, pos !! p = Some b → b ≠ c).
Context (Hkn : node_wf kn) (Hlev : rn_height kn = r_height s + 1).
Context (Hs0 : slot_at kn 0 = radix_tree_direct_to_ptr (r_rnode s)) (Hs : ∀ o, is_off o → o ≠ 0 → slot_at kn o = 0).
Context (Ht0 : ∀ t, is_tag t → tag_at kn t 0 = root_tag s t) (Ht : ∀ t o, is_tag t → is_off o → o ≠ 0 → tag_at kn t o = false).
Let s' : rtst := with_height (r_height s + 1) (with_rnode c (upd_node c kn s)).
Let pos' : posmap := <[(S (top s), 0) := c]> pos.

Lemma grow_top : top s' = S (top s).
Proof using OK. pose proof (ok_height _ _ _ OK). unfold s', top. cbn. lia. Qed.
Lemma grow_node_of lev p : node_of s' pos' lev p = if decide ((lev, p) = (S (top s), 0)) then Some kn else node_of s pos lev p.
Proof using Hf.
  unfold node_of, pos'. case_decide as Hd; [rewrite Hd, lookup_insert_eq; cbn; by rewrite lookup_insert_eq|].
  rewrite lookup_insert_ne by done. destruct (pos !! (lev, p)) as [b|] eqn:Eb; [|done]. cbn. rewrite lookup_insert_ne; [done|].
  intros <-. by apply (Hf _ _ Eb).
Qed.
Lemma grow_any t : is_tag t → any_tag kn t = root_tag s t.
Proof using Hkn Ht0 Ht.
  intros Htt. destruct (root_tag s t) eqn:Er.
  - apply any_tag_true; [done..|]. exists 0. split; [unfold is_off; lia|]. by rewrite Ht0.
  - apply any_tag_false; [done..|]. intros o Ho. destruct (decide (o = 0)) as [->|]; [by rewrite Ht0|by apply Ht].
Qed.
(** Below the new root. *)
Lemma grow_below lev p : (lev ≤ top s)%nat → pos' !! (lev, p) = pos !! (lev, p).
Proof. intros Hl. unfold pos'. rewrite lookup_insert_ne; [done|]. intros [= ? _]. lia. Qed.
Lemma grow_side p : p ≠ 0 → pos !! (top s, p) = None.
Proof using OK.
  intros Hp. destruct (pos !! (top s, p)) eqn:Eb; [|done]. destruct (ok_pos _ _ _ OK _ _ _ Eb) as ((_ & _ & Hz) & _). by rewrite Hz in Hp.
Qed.
Lemma grow_parent lev p : 0 ≤ p → (S lev, p / 64) = (S (top s), 0) → lev = top s ∧ p mod 64 = p ∧ is_off p.
Proof.
  intros Hp [= -> Hd]. pose proof (Z.div_mod p 64 ltac:(lia)) as E. pose proof (mod64 p). unfold is_off. rewrite Hd in E. lia.
Qed.

Lemma grow_link lev p : valid_pos s' lev p → par_slot s' pos' lev p = default 0 (pos' !! (lev, p)).
Proof using OK Hf Hr Hs0 Hs.
  intros ([Hl1 Hl2] & Hp & Hz). unfold par_slot. rewrite grow_top in *. destruct (decide (lev = S (top s))) as [->|Hlt].
  { rewrite (Hz eq_refl). unfold pos'. by rewrite lookup_insert_eq. }
  rewrite grow_below, grow_node_of by lia. destruct (decide ((S lev, p / 64) = (S (top s), 0))) as [Hd|Hd].
  - destruct (grow_parent _ _ Hp Hd) as (-> & -> & Ho). destruct (decide (p = 0)) as [->|Hp0].
    + rewrite Hs0, <- (root_node OK) by (unfold top in *; lia). apply even_to_ptr.
      destruct (decide (r_rnode s = 0)) as [->|Hn0]; [done|]. pose proof (root_some OK ltac:(unfold top in *; lia) Hn0) as Ep.
      by destruct (ok_pos _ _ _ OK _ _ _ Ep) as (_ & _ & ? & _).
    + by rewrite Hs, grow_side.
  - destruct (decide (lev = top s)) as [->|Hlt'].
    + assert (p ≠ 0) by (intros ->; by apply Hd). rewrite (grow_side p) by done.
      unfold node_of. destruct (pos !! (S (top s), p / 64)) eqn:Eb; [|done]. destruct (ok_pos _ _ _ OK _ _ _ Eb) as (([? ?] & _) & _). lia.
    + rewrite <- (ok_link _ _ _ OK) by (repeat split; lia). unfold par_slot. by rewrite decide_False.
Qed.
Lemma grow_tags t lev p : is_tag t → valid_pos s' lev p → par_tag s' pos' t lev p = any_at s' pos' t lev p.
Proof using OK Hf Hr Hkn Ht0 Ht.
  intros Htt ([Hl1 Hl2] & Hp & Hz). unfold par_tag, any_at. rewrite grow_top in *. rewrite !grow_node_of.
  destruct (decide (lev = S (top s))) as [->|Hlt].
  { rewrite decide_True by (by rewrite Hz). rewrite grow_any by done. done. }
  rewrite (decide_False (P := (lev, p) = _)) by congruence. fold (any_at s pos t lev p).
  destruct (decide ((S lev, p / 64) = (S (top s), 0))) as [Hd|Hd].
  - destruct (grow_parent _ _ Hp Hd) as (-> & -> & Ho). destruct (decide (p = 0)) as [->|Hp0].
    + rewrite Ht0 by done. apply root_tags_node; [done|unfold top in *; lia|done].
    + unfold any_at, node_of. by rewrite Ht, grow_side.
  - destruct (decide (lev = top s)) as [->|Hlt'].
    + assert (p ≠ 0) by (intros ->; by apply Hd). unfold any_at, node_of. rewrite (grow_side p) by done.
      destruct (pos !! (S (top s), p / 64)) eqn:Eb; [|done]. destruct (ok_pos _ _ _ OK _ _ _ Eb) as (([? ?] & _) & _). lia.
    + rewrite <- (ok_tags _ _ _ OK) by (done || (repeat split; lia) || intros []). unfold par_tag. by rewrite decide_False.
Qed.

Lemma direct_item : r_height s = 0 → even (radix_tree_direct_to_ptr (r_rnode s)).
Proof using OK Hr.
  intros E0. destruct (ok_direct _ _ _ OK E0) as [[? _]|(x & Hx & _ & ->)]; [done|]. by rewrite direct_to_direct.
Qed.

Lemma grow_ok : tree_ok no_exempt s' pos'.
Proof using OK Hr Hh Hc He Hf Hkn Hlev Hs0 Hs Ht0 Ht.
  pose proof (ok_height _ _ _ OK) as Hh'. split.
  - cbn. lia.
  - intros lev p b. unfold pos'. destruct (decide ((lev, p) = (S (top s), 0))) as [Hd|Hd].
    + rewrite Hd, lookup_insert_eq. injection Hd as -> ->. intros [= <-]. unfold valid_pos. rewrite grow_top.
      split_and!; try done; try lia. exists kn. cbn. rewrite lookup_insert_eq. split_and!; try done. rewrite Hlev. unfold top. lia.
    + rewrite lookup_insert_ne by done. intros Eb. destruct (ok_pos _ _ _ OK _ _ _ Eb) as (([? ?] & ? & Hz) & ? & ? & ? & kb & Ekb & ? & ?).
      unfold valid_pos. rewrite grow_top. split_and!; try done; try lia. exists kb. cbn. rewrite lookup_insert_ne by (intros <-; by apply (Hf _ _ Eb)). done.
  - intros p1 p2 b. unfold pos'. destruct (decide (p1 = (S (top s), 0))) as [->|H1], (decide (p2 = (S (top s), 0))) as [->|H2];
      rewrite ?lookup_insert_eq, ?lookup_insert_ne by done; [done|..|apply OK].
    + intros [= <-] E2. by apply Hf in E2.
    + intros E1 [= <-]. by apply Hf in E1.
  - apply grow_link.
  - intros t lev p Htt Hv _. by apply grow_tags.
  - intros p kk o. rewrite grow_node_of. case_decide as Hd; [|apply OK]. intros [= <-] Ho. injection Hd as Hd _.
    destruct (decide (o = 0)) as [->|]; [rewrite Hs0; apply direct_item; unfold top in Hd; lia|by rewrite Hs].
  - cbn. lia.
Qed.
Lemma grow_items : same_items s pos s' pos'.
Proof using OK Hr Hh Hf Hs0 Hs Ht0 Ht.
  intros i Hi. pose proof (ok_height _ _ _ OK) as Hh'. unfold item_at, tagged_at. rewrite grow_node_of.
  change (r_height s') with (r_height s + 1). destruct (Z.eqb_spec (r_height s + 1) 0) as [|_]; [lia|].
  destruct (Z.eqb_spec (r_height s) 0) as [E0|E0].
  - assert (Ht1 : top s = 0%nat) by (unfold top; lia). rewrite Ht1. destruct (decide ((1%nat, i / 64) = (1%nat, 0))) as [Hd|Hd].
    + destruct (grow_parent 0 i) as (_ & -> & Ho); [lia|rewrite Ht1; congruence|]. destruct (Z.eqb_spec i 0) as [->|]; cbn [andb]; [split; auto|].
      split; [by apply Hs|]. intros t Htt. by apply Ht.
    + assert (Ep : pos !! (1%nat, i / 64) = None).
      { destruct (pos !! _) eqn:Eb; [|done]. destruct (ok_pos _ _ _ OK _ _ _ Eb) as (([? ?] & _) & _). lia. }
      unfold node_of. rewrite Ep. cbn. destruct (Z.eqb_spec i 0) as [->|]; [by destruct Hd|done].
  - rewrite decide_False; [done|]. unfold top. intros [= ? _]. lia.
Qed.

End Grow.

(** ** The only child becomes the root *)

Section Shrink.
Context (s : rtst) (pos : posmap) (OK : tree_ok no_exempt s pos) (a : Z) (k : rnode).
Context (Hh : r_height s ≠ 0) (Ha : r_rnode s = a) (Ha0 : a ≠ 0) (Ek : nodes s !! a = Some k).
Context (Hc : rn_count k = 1) (Hx : slot_at k 0 ≠ 0).
Context (s' : rtst) (Hh' : r_height s' = r_height s - 1) (Hg' : r_gfp s' = r_gfp s).
Context (Hr' : r_rnode s' = if r_height s =? 1 then radix_tree_ptr_to_direct (slot_at k 0) else slot_at k 0).
Context (Hn' : ∀ b, b ≠ a → nodes s' !! b = nodes s !! b).
Let pos' : posmap := delete (top s, 0) pos.

Lemma shrink_pos : pos !! (top s, 0) = Some a.
Proof using All. rewrite <- Ha. apply (root_some OK); congruence. Qed.
Lemma shrink_wf : node_wf k.
Proof using All. destruct (node_at OK _ _ _ shrink_pos) as (k0 & Ek0 & ? & _). by simplify_eq. Qed.
Lemma shrink_others o : is_off o → o ≠ 0 → slot_at k o = 0.
Proof using All.
  intros Ho Hne. pose proof shrink_wf as Hk. rewrite (nw_count k Hk) in Hc.
  apply (nz_one (rn_slots k) (Z.to_nat 0) (Z.to_nat o) (slot_at k 0)); try done; try (apply slots_lookup; [done|]; unfold is_off in *; lia).
  unfold is_off in Ho. lia.
Qed.
Lemma shrink_any t : is_tag t → any_tag k t = tag_at k t 0.
Proof using All.
  intros Ht. pose proof shrink_wf as Hk. destruct (tag_at k t 0) eqn:Et.
  - apply any_tag_true; [done..|]. exists 0. split; [unfold is_off; lia|done].
  - apply any_tag_false; [done..|]. intros o Ho. destruct (decide (o = 0)) as [->|Hne]; [done|]. apply not_true_iff_false. intros E.
    by apply (nw_tagged k Hk t o Ht Ho) in E; rewrite shrink_others in E.
Qed.
Lemma shrink_top : S (top s') = top s.
Proof using All. pose proof (ok_height _ _ _ OK). unfold top. lia. Qed.
Lemma shrink_node_of lev p : node_of s' pos' lev p = if decide ((lev, p) = (top s, 0)) then None else node_of s pos lev p.
Proof using All.
  unfold node_of, pos'. case_decide as Hd; [by rewrite Hd, lookup_delete_eq|]. rewrite lookup_delete_ne by done.
  destruct (pos !! (lev, p)) as [b|] eqn:Eb; [|done]. cbn. apply Hn'. intros ->. apply Hd, (ok_inj _ _ _ OK _ _ _ Eb shrink_pos).
Qed.
Lemma shrink_root_tag t : root_tag s' t = root_tag s t.
Proof using All. unfold root_tag. by rewrite Hg'. Qed.
Lemma shrink_kid : (1 ≤ top s')%nat → slot_at k 0 = default 0 (pos !! (top s', 0)) ∧
  (∀ t, is_tag t → tag_at k t 0 = any_at s pos t (top s') 0) ∧ ∀ p, p ≠ 0 → pos !! (top s', p) = None.
Proof using All.
  intros Htop. pose proof shrink_pos as Ep. rewrite <- shrink_top in Ep. split_and!.
  - rewrite (child_slot OK _ _ _ _ 0 Ep Ek Htop) by (unfold is_off; lia). done.
  - intros t Ht. rewrite (child_tag OK t _ _ _ _ 0 Ep Ek Htop) by (done || (unfold is_off; lia) || intros []). done.
  - intros p Hp. destruct (pos !! (top s', p)) as [b|] eqn:Eb; [|done]. destruct (ok_pos _ _ _ OK _ _ _ Eb) as ((? & Hp0 & _) & Hb0 & _).
    pose proof (ok_link _ _ _ OK (top s') p) as Hl. rewrite Eb in Hl. cbn in Hl. exfalso. apply Hb0. rewrite <- Hl by (pose proof shrink_top; repeat split; lia).
    unfold par_slot. rewrite decide_False by (pose proof shrink_top; lia). rewrite shrink_top. destruct (decide (p / 64 = 0)) as [Hz|Hz].
    + rewrite Hz. unfold node_of. rewrite shrink_pos. cbn. rewrite Ek. apply shrink_others; [apply mod64|].
      pose proof (Z.div_mod p 64 ltac:(lia)) as E. rewrite Hz in E. lia.
    + unfold node_of. rewrite (grow_side s pos OK) by done. done.
Qed.

Lemma shrink_ok : tree_ok no_exempt s' pos'.
Proof using All.
  pose proof (ok_height _ _ _ OK) as Hb. pose proof shrink_top as Htop.
  assert (Hval : ∀ lev p, valid_pos s' lev p → valid_pos s lev p ∧ lev ≠ top s ∧ (lev, p) ≠ (top s, 0)).
  { intros lev p ([? ?] & ? & Hz). repeat split; try lia. intros [= ? _]. lia. }
  split.
  - lia.
  - intros lev p b Eb. unfold pos' in Eb. apply lookup_delete_Some in Eb as [Hne Eb].
    destruct (ok_pos _ _ _ OK _ _ _ Eb) as (([? ?] & ? & Hz) & ? & ? & ? & kb & Ekb & ? & ?). split_and!; try done.
    + assert (lev ≠ top s) by (intros ->; apply Hne; f_equal; symmetry; by apply Hz). repeat split; try lia. intros ->.
      destruct (decide (p = 0)) as [|Hp]; [done|]. destruct shrink_kid as (_ & _ & Hk); [lia|]. by rewrite Hk in Eb.
    + exists kb. rewrite Hn'; [done|]. intros ->. apply Hne. symmetry. apply (ok_inj _ _ _ OK _ _ _ Eb shrink_pos).
  - intros p1 p2 b [_ E1]%lookup_delete_Some [_ E2]%lookup_delete_Some. by apply (ok_inj _ _ _ OK p1 p2 b).
  - intros lev p Hv. destruct (Hval lev p Hv) as (Hv' & Hl & Hq). unfold pos'. rewrite lookup_delete_ne by done. unfold par_slot.
    destruct (decide (lev = top s')) as [->|Hl'].
    + destruct Hv as (? & _ & Hz). rewrite (Hz eq_refl), Hr'. rewrite (proj2 (Z.eqb_neq (r_height s) 1)) by (unfold top in *; lia). apply shrink_kid. lia.
    + rewrite shrink_node_of, decide_False by (intros [= ? _]; lia). rewrite <- (ok_link _ _ _ OK) by done. unfold par_slot. by rewrite decide_False.
  - intros t lev p Ht Hv _. destruct (Hval lev p Hv) as (Hv' & Hl & Hq). unfold par_tag, any_at. rewrite !shrink_node_of, (decide_False (P := (lev, p) = _)) by done.
    fold (any_at s pos t lev p). destruct (decide (lev = top s')) as [->|Hl'].
    + destruct Hv as (? & _ & Hz). rewrite (Hz eq_refl), shrink_root_tag, (root_tags_node s pos t OK Hh Ht). unfold any_at at 1, node_of. rewrite shrink_pos. cbn.
      rewrite Ek, shrink_any by done. apply shrink_kid; [lia|done].
    + rewrite decide_False by (intros [= ? _]; lia). rewrite <- (ok_tags _ _ _ OK) by (done || intros []). unfold par_tag. by rewrite decide_False.
  - intros p kk o. rewrite shrink_node_of. case_decide; [done|]. apply OK.
  - intros E0. right. exists (slot_at k 0). rewrite Hr'. rewrite (proj2 (Z.eqb_eq (r_height s) 1)) by lia. split_and!; try done.
    apply (ok_items _ _ _ OK 0 k 0); [|unfold is_off; lia]. pose proof shrink_pos as Ep. unfold top in Ep. replace (Z.to_nat (r_height s)) with 1%nat in Ep by lia.
    unfold node_of. rewrite Ep. cbn. done.
Qed.
Lemma shrink_items : same_items s pos s' pos'.
Proof using All.
  intros i Hi. pose proof (ok_height _ _ _ OK) as Hb. unfold item_at, tagged_at. rewrite shrink_node_of, Hh'.
  destruct (Z.eqb_spec (r_height s) 0) as [|_]; [done|]. destruct (Z.eqb_spec (r_height s - 1) 0) as [E1|E1].
  - assert (Et : top s = 1%nat) by (unfold top; lia). pose proof shrink_pos as Ep. rewrite Et in Ep. rewrite Hr'. rewrite (proj2 (Z.eqb_eq (r_height s) 1)) by lia.
    assert (Ev : even (slot_at k 0)) by (apply (ok_items _ _ _ OK 0 k 0); [unfold node_of; rewrite Ep; done|unfold is_off; lia]).
    rewrite direct_to_direct by done. destruct (decide (i / 64 = 0)) as [Hz|Hz].
    + rewrite Hz. unfold node_of. rewrite Ep. cbn. rewrite Ek. pose proof (Z.div_mod i 64 ltac:(lia)) as E. rewrite Hz in E. replace (i mod 64) with i by lia.
      assert (is_off i) by (pose proof (mod64 i); unfold is_off; lia).
      destruct (Z.eqb_spec i 0) as [->|Hi0]; cbn [andb].
      * split; [done|]. intros t Ht. rewrite shrink_root_tag, (root_tags_node s pos t OK Hh Ht). unfold any_at, node_of. rewrite shrink_pos. cbn. rewrite Ek. by apply shrink_any.
      * split; [by rewrite shrink_others|]. intros t Ht. symmetry. apply not_true_iff_false. intros Et'.
        apply (nw_tagged k shrink_wf t i) in Et'; try done. by rewrite shrink_others in Et'.
    + pose proof (grow_side s pos OK (i / 64) Hz) as En. rewrite Et in En. unfold node_of. rewrite En. cbn. by destruct (Z.eqb_spec i 0) as [->|].
  - rewrite decide_False; [done|]. unfold top. intros [= ? _]. lia.
Qed.

End Shrink.

End Ops.
