(* ===== verification/RadixTreeRefine.v ===== *)
(** Insertion into radix trees.

    The memory of a tree: which nodes are allocated, pooled or waiting for a grace
    period.  [radix_tree_extend] and [radix_tree_insert] finish without a fault
    on a tree that satisfies the invariant of [RadixTreeInv], keep it, and add
    the item or leave all items as they were. *)

From S2P Require Import Prelude Kit FindBit RadixTree RadixTreeInv RadixTreeOps.

Section Refine.
Context {A : Type} `{KitMemory A}.
Abbreviation rtst := (rtst (A := A)).
Abbreviation posmap := (gmap (nat * Z) Z).
Implicit Types (s : rtst) (pos : posmap).

(** ** Memory *)

(** Every node is part of the tree, preloaded, or [x], a node under way; nodes that
    wait for a grace period are not used. *)
Record mem_ok (x : Z) s pos : Prop := {
  mo_live a k : nodes s !! a = Some k → ∃ l, a = addr l ∧ l ∈ live (mem s);
  mo_owned a k : nodes s !! a = Some k → (∃ p, pos !! p = Some a) ∨ a ∈ preloads s ∨ a = x;
  mo_nodup : NoDup (preloads s);
  mo_pre a : a ∈ preloads s → nodes s !! a = Some radix_tree_node_ctor ∧ (∀ p, pos !! p ≠ Some a) ∧ a ≠ x;
  mo_rcu_nodup : NoDup (rcu_queue s);
  mo_rcu a : a ∈ rcu_queue s → nodes s !! a = None ∧ ∃ l, a = addr l ∧ l ∈ live (mem s);
}.

Lemma addr_ok l : addr l ≠ 0 ∧ even (addr l).
Proof.
  unfold addr, even. split; [lia|]. rewrite Z.mul_comm. change 4 with (2 ^ 2). rewrite <- Z.shiftl_mul_pow2 by lia.
  apply Z.bits_inj'. intros n Hn. rewrite Z.land_spec, Z.bits_0. destruct (decide (n = 0)) as [->|]; [by rewrite Z.shiftl_spec_low|].
  replace (Z.testbit 1 n) with false; [apply andb_false_r|]. symmetry. apply Z.bits_above_log2; cbn; lia.
Qed.
Lemma addr_inj l l' : addr l = addr l' → l = l'.
Proof. unfold addr. lia. Qed.

(** The nodes change, but not those in the pool. *)
Lemma mem_change x x' s s' pos pos' : mem_ok x s pos →
  preloads s' = preloads s → rcu_queue s' = rcu_queue s → mem s' = mem s →
  (∀ a, a ∈ preloads s → nodes s' !! a = nodes s !! a ∧ (∀ p, pos' !! p ≠ Some a) ∧ a ≠ x') →
  (∀ a, is_Some (nodes s' !! a) → is_Some (nodes s !! a)) →
  (∀ a k, nodes s !! a = Some k → ((∃ p, pos !! p = Some a) ∨ a = x) → (∃ p, pos' !! p = Some a) ∨ a = x' ∨ nodes s' !! a = None) →
  mem_ok x' s' pos'.
Proof.
  intros [Hl Ho Hd Hp Hrd Hr] Ep Er Em Hpre Hdom Hown. split; rewrite ?Ep, ?Er, ?Em; try done.
  - intros a k Ek. destruct (Hdom a) as [k0 Ek0]; [by exists k|]. by apply (Hl a k0).
  - intros a k Ek. destruct (Hdom a) as [k0 Ek0]; [by exists k|]. destruct (Ho a k0 Ek0) as [Hx|[Hx|Hx]]; [|by auto|];
      (destruct (Hown a k0 Ek0) as [?|[?|Hn]]; [by auto..|congruence]).
  - intros a Ha. destruct (Hpre a Ha) as (-> & ? & ?). destruct (Hp a Ha) as (-> & _). done.
  - intros a Ha. destruct (Hr a Ha) as [Hn ?]. split; [|done]. destruct (nodes s' !! a) eqn:En; [|done].
    destruct (Hdom a) as [? Hx]; [by rewrite En|]. congruence.
Qed.

(** A node is put into the queue. *)
Definition freed (c : Z) s : rtst := with_nodes (delete c (nodes s)) (with_rcu (rcu_queue s ++ [c]) s).
Lemma mem_free x s pos c k : mem_ok x s pos → x = c ∨ x = 0 → nodes s !! c = Some k → c ∉ preloads s → (∀ p, pos !! p ≠ Some c) →
  mem_ok 0 (freed c s) pos.
Proof.
  intros [Hl Ho Hd Hp Hrd Hr] Hx Ec Hcp Hcq. split; cbn; try done.
  - intros a ka [Hne Ea]%lookup_delete_Some. by apply (Hl a ka).
  - intros a ka [Hne Ea]%lookup_delete_Some. destruct (Ho a ka Ea) as [?|[?| ->]]; auto. destruct Hx; [congruence|auto].
  - intros a Ha. destruct (Hp a Ha) as (Ea & ? & _). destruct (Hl a _ Ea) as (l & -> & _). destruct (addr_ok l).
    rewrite lookup_delete_ne by (by intros ->). done.
  - apply list.NoDup_app. split_and!; [done| |apply list.NoDup_singleton]. intros a Ha Hc%list_elem_of_singleton. subst. destruct (Hr c Ha). congruence.
  - intros a [Ha|Ha%list_elem_of_singleton]%elem_of_app.
    + destruct (Hr a Ha) as [Hn ?]. split; [|done]. destruct (decide (a = c)) as [->|]; [by rewrite lookup_delete_eq|by rewrite lookup_delete_ne].
    + subst a. rewrite lookup_delete_eq. split; [done|by apply (Hl c k)].
Qed.

Definition same_root s s' : Prop := r_height s' = r_height s ∧ r_gfp s' = r_gfp s ∧ r_rnode s' = r_rnode s.

(** A node from the cache. *)
Definition from_cache (l : loc) (m : A) s : rtst := with_nodes (<[addr l := radix_tree_node_ctor]> (nodes s)) (with_mem m s).
Lemma cache_ok E s pos l m : tree_ok E s pos → mem_ok 0 s pos → kit_malloc (mem s) = Some (l, m) →
  nodes s !! addr l = None ∧ (∀ p b, pos !! p = Some b → b ≠ addr l) ∧ tree_ok E (from_cache l m s) pos ∧ same_items s pos (from_cache l m s) pos ∧
  mem_ok (addr l) (from_cache l m s) pos.
Proof.
  intros OK [Hl Ho Hd Hp Hrd Hr] Em. destruct (kit_malloc_fresh _ _ _ Em) as [Hfr Hlv].
  assert (Hfresh : nodes s !! addr l = None).
  { destruct (nodes s !! addr l) eqn:En; [|done]. destruct (Hl _ _ En) as (l' & ->%addr_inj & ?). done. }
  assert (Hpos : ∀ p b, pos !! p = Some b → b ≠ addr l).
  { intros [lev p] b Eb ->. destruct (ok_pos _ _ _ OK _ _ _ Eb) as (_ & _ & _ & _ & k & Ek & _). congruence. }
  destruct (frame_ok E s (from_cache l m s) pos OK) as [OK' Hsame]; try done.
  { intros p b Eb. cbn. rewrite lookup_insert_ne; [done|]. intros <-. by apply (Hpos _ _ Eb). }
  split_and!; try done. split; cbn; try done.
  + intros a k [[<- _]|[Hne Ea]]%lookup_insert_Some; [exists l; rewrite Hlv; set_solver|]. destruct (Hl a k Ea) as (l' & ? & ?). exists l'. rewrite Hlv. set_solver.
  + intros a k [[<- _]|[Hne Ea]]%lookup_insert_Some; [auto|]. destruct (Ho a k Ea) as [?|[?|Hz]]; auto. destruct (Hl a k Ea) as (l' & ? & _). subst a. by destruct (addr_ok l').
  + intros a Ha. destruct (Hp a Ha) as (Ea & ? & ?). assert (a ≠ addr l) by congruence. rewrite lookup_insert_ne by done. done.
  + intros a Ha. destruct (Hr a Ha) as (Ea & l' & -> & Hl'). split; [|exists l'; rewrite Hlv; set_solver].
    rewrite lookup_insert_ne; [done|]. intros ->%addr_inj. done.
Qed.

(** A new node: zeroed, not part of the tree. *)
Lemma alloc_ok E s pos : tree_ok E s pos → mem_ok 0 s pos →
  ∃ c s', radix_tree_node_alloc s = Done (c, s') ∧ tree_ok E s' pos ∧ same_items s pos s' pos ∧ same_root s s' ∧
    (∀ n, can_alloc (S n) (mem s) = true → c ≠ 0 ∧ can_alloc n (mem s') = true) ∧
    (c = 0 ∧ s' = s ∨
     c ≠ 0 ∧ even c ∧ nodes s' !! c = Some radix_tree_node_ctor ∧ (∀ p b, pos !! p = Some b → b ≠ c) ∧ mem_ok c s' pos ∧
       (∀ b, b ≠ c → nodes s' !! b = nodes s !! b)).
Proof.
  intros OK MO. pose proof MO as [Hl Ho Hd Hp Hrd Hr]. unfold radix_tree_node_alloc, node_cache_alloc, BUG_ON. run_simpl.
  destruct (kit_malloc (mem s)) as [[l m]|] eqn:Em.
  - destruct (addr_ok l) as [Hl0 Hle]. destruct (cache_ok E s pos l m OK MO Em) as (Hfresh & Hpos & OK' & Hsame & MO').
    destruct (Z.eqb_spec (addr l) 0) as [|_]; [done|]. cbn [andb]. rewrite even_not_direct by done. cbn [negb].
    eexists _, _. split; [done|]. split_and!; try done.
    { intros n Hn. cbn [can_alloc] in Hn. rewrite Em in Hn. done. }
    right. split_and!; try done; cbn; [by rewrite lookup_insert_eq|]. intros b Hb. by rewrite lookup_insert_ne.
  - change (0 =? 0) with true. cbn [andb].
    destruct (Z.land (root_gfp_mask s) __GFP_WAIT =? 0); [destruct (preloads s) as [|c rest] eqn:Epre|].
    1,3: exists 0, s; split; [done|]; split_and!; try done; [intros n Hn; cbn [can_alloc] in Hn; by rewrite Em in Hn|by left].
    destruct (Hp c ltac:(set_solver)) as (Ec & Hcp & _). destruct (Hl c _ Ec) as (l & -> & Hlive). destruct (addr_ok l) as [Hl0 Hle].
    rewrite even_not_direct by done. cbn [negb].
    destruct (frame_ok E s (with_preloads rest s) pos OK) as [OK' Hsame]; try done.
    eexists _, _. split; [done|]. split_and!; try done; [intros n Hn; cbn [can_alloc] in Hn; by rewrite Em in Hn|]. right. split_and!; try done.
    { intros p b Eb ->. by apply (Hcp p). }
    apply list.NoDup_cons in Hd as [Hc Hd]. split; cbn; try done.
    + intros a k Ea. destruct (Ho a k Ea) as [?|[[->|?]%elem_of_cons|Hz]]; auto. destruct (Hl a k Ea) as (l' & ? & _). subst a. by destruct (addr_ok l').
    + intros a Ha. destruct (Hp a ltac:(set_solver)) as (? & ? & ?). split_and!; try done. by intros ->.
Qed.

(** ** Insertion *)

Lemma node_count_bound k : node_wf k → 0 ≤ rn_count k ≤ 64.
Proof. intros Hk. rewrite (nw_count k Hk). pose proof (nz_bound (rn_slots k)). rewrite (nw_slots k Hk) in *. lia. Qed.
Lemma free_slot_count k o : node_wf k → is_off o → slot_at k o = 0 → rn_count k < 64.
Proof.
  intros Hk Ho Hz. rewrite (nw_count k Hk). pose proof (slots_lookup k o Hk Ho) as E. rewrite Hz in E.
  pose proof (nz_insert _ _ _ 2 E) as Hi. change (0 =? 0) with true in Hi. change (2 =? 0) with false in Hi. cbn iota in Hi.
  pose proof (nz_bound (<[Z.to_nat o := 2]> (rn_slots k))) as Hb. rewrite length_insert, (nw_slots k Hk) in Hb. lia.
Qed.

(** The invariant of the tree and of the memory. *)
Definition good s pos : Prop := tree_ok no_exempt s pos ∧ mem_ok 0 s pos.

(** Where the walk to index [i] is: below [node], in slot [offset], [n] levels are
    left. *)
Definition walk_at s pos (n : nat) (i node offset : Z) : Prop :=
  (n = top s ∧ node = 0) ∨ ((n < top s)%nat ∧ pos !! (S n, px (S n) i) = Some node ∧ offset = px n i mod 64).

Lemma px_range n i : 0 ≤ i < 2 ^ 32 → px n i * 64 ^ Z.of_nat n < 2 ^ 32.
Proof. intros Hi. unfold px. pose proof (Z.mul_div_le i (64 ^ Z.of_nat n) (pow64_pos n)). lia. Qed.

(** The new node becomes the root. *)
Lemma link_root s pos c : tree_ok no_exempt s pos → mem_ok c s pos → r_height s ≠ 0 → r_rnode s = 0 → c ≠ 0 → even c →
  nodes s !! c = Some radix_tree_node_ctor →
  let s' := with_rnode c (upd_node c (with_level (r_height s) radix_tree_node_ctor) s) in
  good s' {[(top s, 0) := c]} ∧ same_items s pos s' {[(top s, 0) := c]}.
Proof.
  intros OK MO Hh Hr Hc He Ec s'. pose proof (ok_height _ _ _ OK). pose proof (no_root_empty _ _ _ OK Hr) as ->.
  assert (Et : ∀ t, is_tag t → root_tag s' t = false) by (intros t Ht; apply (no_root_tags s ∅ t OK Hr Ht)).
  split; [split|].
  - apply (single_ok no_exempt s' c (with_level (r_height s) radix_tree_node_ctor)); try done; cbn; [lia|apply lookup_insert_eq| |apply bare_ctor].
    apply node_wf_level, ctor_wf.
  - eapply mem_change; [exact MO|done..| | |].
    + intros a Ha. destruct (mo_pre _ _ _ MO a Ha) as (Ea & _ & Hac). cbn. rewrite lookup_insert_ne by done. split_and!; [done| |].
      * intros p [_ Hx]%lookup_singleton_Some. congruence.
      * intros ->. destruct (mo_live _ _ _ MO 0 _ Ea) as (l & E0 & _). by destruct (addr_ok l).
    + intros a. cbn. destruct (decide (a = c)) as [->|]; [by rewrite Ec|by rewrite lookup_insert_ne].
    + intros a k Ea [[p Hp]| ->]; [by rewrite lookup_empty in Hp|]. left. exists (top s, 0). apply lookup_singleton_eq.
  - intros i Hi. destruct (single_items s' c (with_level (r_height s) radix_tree_node_ctor) i) as [E1 E2]; try done; [cbn; apply lookup_insert_eq|apply bare_ctor|].
    change (top s') with (top s) in *. destruct (empty_items s i Hr) as [E3 E4]. split; [congruence|]. intros t Ht. rewrite E2 by done. symmetry.
    apply E4; [|done]. intros t' Ht'. apply (no_root_tags s ∅ t' OK Hr Ht').
Qed.

(** The new node becomes a child. *)
Lemma link_child s pos c n i node : tree_ok no_exempt s pos → mem_ok c s pos → 0 ≤ i < 2 ^ 32 → (1 ≤ n)%nat →
  pos !! (S n, px (S n) i) = Some node → pos !! (n, px n i) = None → c ≠ 0 → even c → (∀ p b, pos !! p = Some b → b ≠ c) →
  nodes s !! c = Some radix_tree_node_ctor →
  let s1 := upd_node c (with_level (Z.of_nat n) radix_tree_node_ctor) s in
  ∃ s', (store_slot node (px n i mod 64) c ;; set_count node (λ x, x + 1)) s1 = Done (tt, s') ∧
    good s' (<[(n, px n i) := c]> pos) ∧ same_items s pos s' (<[(n, px n i) := c]> pos) ∧
    r_height s' = r_height s ∧ r_gfp s' = r_gfp s ∧ mem s' = mem s.
Proof.
  intros OK MO Hi Hn Ep Eq Hc He Hf Ec s1. destruct (node_at OK _ _ _ Ep) as (k & Ek & Hk & _).
  assert (Hnc : node ≠ c) by (by apply (Hf (S n, px (S n) i))). assert (Ho : is_off (px n i mod 64)) by apply mod64.
  destruct (frame_ok no_exempt s s1 pos OK) as [OK1 Hsame]; try done.
  { intros p b Eb. cbn. by rewrite lookup_insert_ne by (symmetry; by apply (Hf p)). }
  assert (Ek1 : nodes s1 !! node = Some k) by (cbn; by rewrite lookup_insert_ne).
  assert (Hz : slot_at k (px n i mod 64) = 0) by (rewrite (child_slot OK _ _ _ _ _ Ep Ek Hn Ho), px_split, Eq; done).
  assert (Ekid : kid (px (S n) i) (px n i mod 64) = px n i) by apply px_split.
  destruct (relink_ok no_exempt s1 pos OK1 n (px (S n) i) (px n i mod 64) node k Hn Ho Ep Ek1 (Some c)) as [OK2 Hsame2].
  - rewrite Ekid. unfold node_of. by rewrite Eq.
  - intros t Ht. apply not_true_iff_false. intros Et. by apply (nw_tagged k Hk t _ Ht Ho).
  - intros c' [= <-]. rewrite Ekid. split_and!; try done; [by apply px_range|]. exists (with_level (Z.of_nat n) radix_tree_node_ctor).
    split_and!; [cbn; apply lookup_insert_eq|apply node_wf_level, ctor_wf|apply bare_ctor|done].
  - rewrite Ekid in *. change (partial_alter (λ _, Some c) (n, px n i) pos) with (<[(n, px n i) := c]> pos) in *.
    run_simpl. rewrite (store_slot_run _ _ _ _ _ Ek1 Hk Ho), (set_count_run _ _ _ _ (upd_same _ _ _)), upd_upd.
    pose proof (free_slot_count k _ Hk Ho Hz). pose proof (node_count_bound k Hk). cbn [rn_count with_slot]. rewrite u32_small by lia.
    eexists. split; [done|]. unfold relink_node in OK2, Hsame2. rewrite Hz in OK2, Hsame2. cbn [default id] in OK2, Hsame2. unfold id in OK2, Hsame2. change (0 =? 0) with true in OK2, Hsame2.
    destruct (Z.eqb_spec c 0) as [|_]; [done|]. cbn iota in OK2, Hsame2. rewrite Z.sub_0_r in OK2, Hsame2.
    split_and!; try done; [split; [exact OK2|]|eapply same_items_trans; [exact Hsame|exact Hsame2]].
    eapply mem_change; [exact MO|done..| | |].
    + intros a Ha. destruct (mo_pre _ _ _ MO a Ha) as (Ea & Hap & Hac). cbn. rewrite !lookup_insert_ne by (done || (intros <-; by apply (Hap (S n, px (S n) i)))).
      split_and!; [done| |].
      * intros p. destruct (decide (p = (n, px n i))) as [->|]; [rewrite lookup_insert_eq; congruence|by rewrite lookup_insert_ne].
      * intros ->. destruct (mo_live _ _ _ MO 0 _ Ea) as (l & E0 & _). by destruct (addr_ok l).
    + intros a. cbn. destruct (decide (a = c)) as [->|]; [by rewrite Ec|]. destruct (decide (a = node)) as [->|]; [by rewrite Ek|].
      by rewrite !lookup_insert_ne.
    + intros a ka Ea [[p Hp]| ->]; left.
      * exists p. rewrite lookup_insert_ne; [done|]. intros <-. congruence.
      * exists (n, px n i). apply lookup_insert_eq.
Qed.

Lemma can_alloc_mono n m (a : A) : can_alloc (n + m) a = true → can_alloc m a = true.
Proof.
  revert a. induction m as [|m IH]; intros a; [done|]. rewrite Nat.add_succ_r. cbn [can_alloc]. destruct (kit_malloc a) as [[l a']|]; [apply IH|done].
Qed.

(** The tree keeps its height and its tags. *)
Definition same_shape s s' : Prop := r_height s' = r_height s ∧ r_gfp s' = r_gfp s.

(** The node at level [S m], allocated if it is missing. *)
Definition insert_node (m : nat) (node slot offset : Z) : M rtst Z :=
  if slot =? 0 then
    slot ← radix_tree_node_alloc;
    if slot =? 0 then mret 0 else
    set_height slot (Z.of_nat (S m)) ;;
    (if node =? 0 then modify (with_rnode slot)
     else store_slot node offset slot ;; set_count node (λ c, c + 1)) ;;
    mret slot
  else mret slot.

Lemma insert_node_ok s pos m i node offset : good s pos → index_ok s i → (S m ≤ top s)%nat → walk_at s pos (S m) i node offset →
  ∃ c s' pos', insert_node m node (down s pos (S m) i) offset s = Done (c, s') ∧ good s' pos' ∧ same_items s pos s' pos' ∧ same_shape s s' ∧
    (∀ n, can_alloc (S n) (mem s) = true → c ≠ 0 ∧ can_alloc n (mem s') = true) ∧
    (c ≠ 0 → pos' !! (S m, px (S m) i) = Some c).
Proof.
  intros [OK MO] [Hi Hpx] Hm Hw. unfold insert_node. destruct (Z.eqb_spec (down s pos (S m) i) 0) as [Ez|Ez].
  2:{ exists (down s pos (S m) i), s, pos. split_and!; try done; [intros n Hn; split; [done|by apply (can_alloc_mono 1)]|].
      intros _. by apply (down_pos (s := s)). }
  cbn [down] in Ez. apply (pos_nonzero OK) in Ez.
  destruct (alloc_ok no_exempt s pos OK MO) as (c & s1 & Ea & OK1 & Hsame & (Hh & Hg & Hr) & Hal & Hc). run_simpl. rewrite Ea.
  destruct Hc as [[-> ->]|(Hc & He & Ec & Hf & MO1 & Hother)].
  { exists 0, s, pos. change (0 =? 0) with true. by split_and!. }
  destruct (Z.eqb_spec c 0) as [|_]; [done|]. rewrite (set_height_run _ _ _ _ Ec).
  assert (Htop : top s1 = top s) by (unfold top; congruence).
  destruct Hw as [[Et ->]|(Hlt & Ep & ->)].
  - change (0 =? 0) with true. cbn iota. assert (Hpx0 : px (S m) i = 0) by congruence.
    destruct (link_root s1 pos c OK1 MO1) as [Hgood Hsame2]; try done.
    { unfold top in *. lia. }
    { rewrite Hr. rewrite (root_node OK) by (unfold top in *; lia). rewrite <- Et, <- Hpx0. by rewrite Ez. }
    replace (Z.of_nat (S m)) with (r_height s1) by (pose proof (ok_height _ _ _ OK); unfold top in *; lia).
    eexists c, _, _. split; [done|]. split_and!; [exact Hgood|eapply same_items_trans; done|done|intros n Hn; split; [done|by apply Hal]|].
    intros _. rewrite Htop, <- Et, Hpx0. apply lookup_singleton_eq.
  - destruct (Z.eqb_spec node 0) as [->|Hn0]; [by destruct (ok_pos _ _ _ OK _ _ _ Ep) as (_ & ? & _)|].
    destruct (link_child s1 pos c (S m) i node OK1 MO1) as (s2 & E2 & Hgood & Hsame2 & Hh2 & Hg2 & Hm2); try done; [lia|].
    run_simpl. rewrite E2. eexists c, s2, _. split; [done|]. split_and!; [exact Hgood|eapply same_items_trans; done|split; congruence| |].
    + intros n Hn. split; [done|]. rewrite Hm2. by apply Hal.
    + intros _. apply lookup_insert_eq.
Qed.

Lemma insert_node_zero m node slot offset s s' : insert_node m node slot offset s = Done (0, s') → slot = 0.
Proof. unfold insert_node. destruct (Z.eqb_spec slot 0) as [|]; [done|]. by intros [=]. Qed.

Lemma insert_loop_ok n : ∀ sh i node offset s pos, good s pos → index_ok s i → (n ≤ top s)%nat → (∀ m, n = S m → sh = 6 * Z.of_nat m) →
  walk_at s pos n i node offset →
  ∃ r s' pos', insert_loop n sh i node (down s pos n i) offset s = Done (r, s') ∧ good s' pos' ∧ same_items s pos s' pos' ∧ same_shape s s' ∧
    (∀ m, can_alloc (n + m) (mem s) = true → r ≠ None ∧ can_alloc m (mem s') = true) ∧ (r = None → item_at s pos i = 0) ∧
    (∀ node' slot' offset', r = Some (node', slot', offset') → slot' = item_at s' pos' i ∧ walk_at s' pos' 0 i node' offset').
Proof.
  induction n as [|m IH]; intros sh i node offset s pos Hgood Hi Hn Hsh Hw.
  - eexists _, s, pos. split; [done|]. split_and!; try done. intros node' slot' offset' [= <- <- <-]. done.
  - cbn [insert_loop]. fold (insert_node m node (down s pos (S m) i) offset). rewrite (Hsh m eq_refl).
    destruct (insert_node_ok s pos m i node offset Hgood Hi Hn Hw) as (c & s1 & pos1 & E1 & Hgood1 & Hsame1 & [Hh1 Hg1] & Hal & Hc). run_simpl. rewrite E1.
    destruct (Z.eqb_spec c 0) as [->|Hc0].
    { exists None, s1, pos1. split_and!; try done.
      - intros m' Hm'. by destruct (Hal (m + m')%nat Hm').
      - intros _. apply (down_zero (proj1 Hgood) (S m)); [done..|]. by apply insert_node_zero in E1. }
    specialize (Hc Hc0). pose proof Hgood1 as [OK1 _]. rewrite (load_down OK1 m i c) by (done || apply Hi).
    pose proof (ok_height _ _ _ OK1) as Hb. assert (Htop : top s1 = top s) by (unfold top; congruence).
    destruct (IH (u32 (6 * Z.of_nat m - RADIX_TREE_MAP_SHIFT)) i c (slot_offset i (6 * Z.of_nat m)) s1 pos1) as (r & s2 & pos2 & E2 & Hgood2 & Hsame2 & [Hh2 Hg2] & Hal2 & Hno & Hres); try done.
    + destruct Hi as [? ?]. split; [done|]. by rewrite Htop.
    + lia.
    + intros m' ->. unfold RADIX_TREE_MAP_SHIFT. rewrite u32_small; unfold top in *; lia.
    + right. split_and!; [lia|done|]. apply slot_offset_px, Hi.
    + exists r, s2, pos2. split; [exact E2|]. split_and!; [exact Hgood2|eapply same_items_trans; done|split; congruence| | |done].
      * intros m' Hm'. apply Hal2. by apply Hal.
      * intros Er. rewrite <- (proj1 (Hsame1 i (proj1 Hi))). by apply Hno.
Qed.

(** ** Extension *)

Definition tag_words (b : bool) : list Z := if b then [1; 0] else [0; 0].
(** The node that [radix_tree_extend] puts above the root. *)
Definition root_above (h x : Z) (b0 b1 : bool) : rnode := RNode h 1 (<[0%nat := x]> (replicate 64 0)) [tag_words b0; tag_words b1].

Lemma root_above_slot h x b0 b1 o : is_off o → slot_at (root_above h x b0 b1) o = if o =? 0 then x else 0.
Proof.
  intros Ho. unfold slot_at, root_above. cbn [rn_slots]. rewrite nth_lookup. unfold is_off in Ho.
  destruct (Z.eqb_spec o 0) as [->|Hne]; [done|]. rewrite list_lookup_insert_ne by lia. by rewrite lookup_replicate_2 by lia.
Qed.
Lemma root_above_tag h x b0 b1 t o : is_tag t → is_off o → tag_at (root_above h x b0 b1) t o = (o =? 0) && (if t =? 0 then b0 else b1).
Proof.
  intros Ht Ho. assert (Hw : ∀ b, tag_bit o (tag_words b) = (o =? 0) && b).
  { intros b. unfold tag_bit, tag_words. destruct (bit_cases o Ho) as [(-> & -> & Hlt)|(-> & -> & Hlt)]; destruct b; change (Z.to_nat 0) with 0%nat; change (Z.to_nat 1) with 1%nat;
      cbn [nth]; rewrite ?Z.bits_0, ?andb_false_r; try done.
    - change (Z.testbit 1 o) with (Z.testbit (Z.shiftl 1 0) o). rewrite one_bit_spec by done. by destruct (o =? 0).
    - destruct (Z.eqb_spec o 0); [lia|done]. }
  unfold tag_at, root_above. cbn [rn_tags]. destruct (tag_cases t Ht) as [-> | ->]; apply Hw.
Qed.
Lemma root_above_wf h x b0 b1 : x ≠ 0 → node_wf (root_above h x b0 b1).
Proof.
  intros Hx. assert (Hw : ∀ b, words_wf (tag_words b)).
  { intros b. unfold tag_words. destruct b; (split; [done|]); repeat apply list.Forall_cons_2; try lia; by apply list.Forall_nil. }
  split.
  - done.
  - by exists (tag_words b0), (tag_words b1).
  - cbn [rn_count rn_slots root_above]. rewrite (nz_insert _ _ 0 x) by done. change (0 =? 0) with true. destruct (Z.eqb_spec x 0); done.
  - intros t o Ht Ho. rewrite root_above_tag, root_above_slot by done. by destruct (o =? 0).
Qed.

Lemma root_tag_get_run t s : root_tag_get t s = Done (root_tag s t, s).
Proof. done. Qed.
Lemma extend_tags_run c s k : nodes s !! c = Some k → rn_tags k = rn_tags radix_tree_node_ctor →
  extend_tags (Z.to_nat RADIX_TREE_MAX_TAGS) 0 c s =
  Done (tt, upd_node c (RNode (rn_height k) (rn_count k) (rn_slots k) [tag_words (root_tag s 0); tag_words (root_tag s 1)]) s).
Proof.
  intros Ec Ht. change (Z.to_nat RADIX_TREE_MAX_TAGS) with 2%nat. cbn [extend_tags]. run_simpl. rewrite root_tag_get_run.
  assert (Hid : ∀ k', nodes s !! c = Some k' → upd_node c k' s = s).
  { intros k' E. unfold upd_node, with_nodes. rewrite insert_id by done. by destruct s. }
  assert (E0 : (if root_tag s 0 then tag_set c 0 0 else mret tt) s =
    Done (tt, upd_node c (RNode (rn_height k) (rn_count k) (rn_slots k) [tag_words (root_tag s 0); [0; 0]]) s)).
  { destruct (root_tag s 0); [|rewrite Hid; [done|]; rewrite Ec; destruct k; cbn in *; by subst].
    unfold tag_set, tags_of. run_simpl. rewrite (load_node_run _ _ _ Ec), Ht. done. }
  unfold mret, M_ret in E0. rewrite E0. set (s1 := upd_node _ _ s). change (root_tag_get (0 + 1) s1) with (Done (root_tag s 1, s1)).
  set (k1 := RNode (rn_height k) (rn_count k) (rn_slots k) [tag_words (root_tag s 0); [0; 0]]) in *.
  destruct (root_tag s 1); [|done].
  unfold tag_set, tags_of. run_simpl. rewrite (load_node_run c k1 s1 (upd_same _ _ _)).
  transitivity (Done (tt, upd_node c (RNode (rn_height k) (rn_count k) (rn_slots k) [tag_words (root_tag s 0); tag_words true]) s1)); [done|].
  unfold s1. by rewrite upd_upd.
Qed.

(** One more level. *)
Lemma extend_step s pos c : tree_ok no_exempt s pos → mem_ok c s pos → r_rnode s ≠ 0 → r_height s < 6 → c ≠ 0 → even c →
  (∀ p b, pos !! p = Some b → b ≠ c) → nodes s !! c = Some radix_tree_node_ctor →
  let s' := with_height (r_height s + 1) (with_rnode c
              (upd_node c (root_above (r_height s + 1) (radix_tree_direct_to_ptr (r_rnode s)) (root_tag s 0) (root_tag s 1)) s)) in
  good s' (<[(S (top s), 0) := c]> pos) ∧ same_items s pos s' (<[(S (top s), 0) := c]> pos).
Proof.
  intros OK MO Hr Hh Hc He Hf Ec s'. pose proof (ok_height _ _ _ OK) as Hb.
  set (x := radix_tree_direct_to_ptr (r_rnode s)).
  assert (Hx : x ≠ 0).
  { unfold x. destruct (decide (r_height s = 0)) as [E0|E0].
    - destruct (ok_direct _ _ _ OK E0) as [[? _]|(y & Hy & Hy0 & ->)]; [done|]. by rewrite direct_to_direct.
    - destruct (ok_pos _ _ _ OK _ _ _ (root_some OK E0 Hr)) as (_ & _ & Hev & _). by rewrite even_to_ptr. }
  pose proof (root_above_wf (r_height s + 1) x (root_tag s 0) (root_tag s 1) Hx) as Hkn.
  assert (Hs0 : slot_at (root_above (r_height s + 1) x (root_tag s 0) (root_tag s 1)) 0 = x) by (by rewrite root_above_slot by (unfold is_off; lia)).
  assert (Hs : ∀ o, is_off o → o ≠ 0 → slot_at (root_above (r_height s + 1) x (root_tag s 0) (root_tag s 1)) o = 0).
  { intros o Ho Hne. rewrite root_above_slot by done. by destruct (Z.eqb_spec o 0). }
  assert (Ht0 : ∀ t, is_tag t → tag_at (root_above (r_height s + 1) x (root_tag s 0) (root_tag s 1)) t 0 = root_tag s t).
  { intros t Ht. rewrite root_above_tag by (done || (unfold is_off; lia)). by destruct (tag_cases t Ht) as [-> | ->]. }
  assert (Ht : ∀ t o, is_tag t → is_off o → o ≠ 0 → tag_at (root_above (r_height s + 1) x (root_tag s 0) (root_tag s 1)) t o = false).
  { intros t o Ht Ho Hne. rewrite root_above_tag by done. by destruct (Z.eqb_spec o 0). }
  split; [split|].
  - by apply (grow_ok s pos OK).
  - eapply mem_change; [exact MO|done..| | |].
    + intros a Ha. destruct (mo_pre _ _ _ MO a Ha) as (Ea & Hap & Hac). cbn. rewrite lookup_insert_ne by done. split_and!; [done| |].
      * intros p. destruct (decide (p = (S (top s), 0))) as [->|]; [rewrite lookup_insert_eq; congruence|by rewrite lookup_insert_ne].
      * intros ->. destruct (mo_live _ _ _ MO 0 _ Ea) as (l & E0 & _). by destruct (addr_ok l).
    + intros a. cbn. destruct (decide (a = c)) as [->|]; [by rewrite Ec|by rewrite lookup_insert_ne].
    + intros a ka Ea [[p Hp]| ->]; left; [|exists (S (top s), 0); apply lookup_insert_eq].
      exists p. rewrite lookup_insert_ne; [done|]. intros <-. destruct (ok_pos _ _ _ OK _ _ _ Hp) as (([? ?] & _) & _). lia.
  - by apply (grow_items s pos OK).
Qed.

Lemma extend_loop_ok fuel : ∀ s pos height, good s pos → r_rnode s ≠ 0 → r_height s < height ≤ 6 → height - r_height s ≤ Z.of_nat fuel →
  ∃ r s' pos', extend_loop fuel height s = Done (r, s') ∧ good s' pos' ∧ same_items s pos s' pos' ∧
    (r = 0 ∧ r_height s' = height ∨ r = - ENOMEM) ∧
    (∀ n, can_alloc (Z.to_nat (height - r_height s) + n) (mem s) = true → r = 0 ∧ can_alloc n (mem s') = true).
Proof.
  induction fuel as [|fuel IH]; intros s pos height [OK MO] Hr Hh Hf; [lia|].
  pose proof (ok_height _ _ _ OK) as Hb.
  destruct (alloc_ok no_exempt s pos OK MO) as (c & s1 & Ea & OK1 & Hsame & (Hh1 & Hg1 & Hr1) & Hal & Hc).
  assert (Hal' : ∀ n, can_alloc (Z.to_nat (height - r_height s) + n) (mem s) = true →
    c ≠ 0 ∧ can_alloc (Z.to_nat (height - (r_height s + 1)) + n) (mem s1) = true).
  { intros n Hn. apply Hal. replace (S (Z.to_nat (height - (r_height s + 1)) + n)) with (Z.to_nat (height - r_height s) + n)%nat by lia. done. }
  cbn [extend_loop]. run_simpl. rewrite Ea. destruct Hc as [[-> ->]|(Hc & He & Ec & Hfr & MO1 & _)].
  { exists (- ENOMEM), s, pos. change (0 =? 0) with true. split_and!; try done; [by right|]. intros n Hn. by destruct (Hal' n Hn). }
  destruct (Z.eqb_spec c 0) as [|_]; [done|].
  rewrite (store_slot_run' _ _ _ _ _ Ec) by (done || (unfold is_off; lia)).
  rewrite (extend_tags_run _ _ _ (upd_same _ _ _)) by done. rewrite upd_upd.
  rewrite (set_height_run _ _ _ _ (upd_same _ _ _)), upd_upd, (set_count_run _ _ _ _ (upd_same _ _ _)), upd_upd.
  destruct (extend_step s1 pos c OK1 MO1) as [Hgood2 Hsame2]; try done; [congruence|lia|].
  match type of Hgood2 with good ?s2 _ => match goal with |- context [(if ?x <? height then _ else _) ?s3] =>
    replace s3 with s2 by (rewrite <- (u32_small (r_height s1 + 1)) by lia; reflexivity);
    replace x with (r_height s + 1) by (rewrite <- Hh1, <- (u32_small (r_height s1 + 1)) by lia; reflexivity) end end.
  rewrite Hh1 in Hgood2, Hsame2 |- *.
  match type of Hgood2 with good ?s2 ?p2 => destruct (Z.ltb_spec (r_height s + 1) height) as [Hlt|Hge];
    [destruct (IH s2 p2 height) as (r & s3 & pos3 & E3 & Hgood3 & Hsame3 & Hres & Hal3); try done; cbn; try lia|] end.
  - exists r, s3, pos3. split; [exact E3|]. split_and!; [exact Hgood3|do 2 (eapply same_items_trans; [eassumption|]); done|done|].
    intros n Hn. apply Hal3. by apply Hal'.
  - eexists 0, _, _. split; [done|]. split_and!; [exact Hgood2|eapply same_items_trans; eassumption|left; cbn; split; [done|lia]|].
    intros n Hn. split; [done|]. apply Hal' in Hn as [_ Hn]. by apply can_alloc_mono in Hn.
Qed.

Lemma find_height_ok fuel h i s : 0 ≤ h ≤ 6 → 0 ≤ i < 2 ^ 32 → 6 - h ≤ Z.of_nat fuel →
  ∃ h', find_height fuel h i s = Done (h', s) ∧ h ≤ h' ≤ 6 ∧ i < 64 ^ h'.
Proof.
  revert h. induction fuel as [|fuel IH]; intros h Hh Hi Hf; cbn [find_height]; run_simpl; rewrite maxindex_run by done;
    (destruct (Z.ltb_spec (Z.min (64 ^ h - 1) (2 ^ 32 - 1)) i) as [Hlt|Hge]; [|exists h; split_and!; try done; lia]).
  - assert (h = 6) as -> by lia. cbn in Hlt. lia.
  - destruct (decide (h = 6)) as [->|]; [cbn in Hlt; lia|]. rewrite u32_small by lia.
    destruct (IH (h + 1)) as (h' & E & ? & ?); [lia..|]. exists h'. split_and!; try done; lia.
Qed.

Lemma index_ok_height s i : 0 ≤ i < 2 ^ 32 → 0 ≤ r_height s → i < 64 ^ r_height s → index_ok s i.
Proof. intros Hi Hh Hlt. split; [done|]. apply px_top. unfold top. rewrite Z2Nat.id by done. lia. Qed.

Lemma extend_ok s pos i : good s pos → 0 ≤ i < 2 ^ 32 → r_height s < 6 →
  ∃ r s' pos', radix_tree_extend i s = Done (r, s') ∧ good s' pos' ∧ same_items s pos s' pos' ∧
    (r = 0 ∧ index_ok s' i ∨ r = - ENOMEM) ∧
    (∀ n, can_alloc (6 + n) (mem s) = true → r = 0 ∧ can_alloc n (mem s') = true).
Proof.
  intros [OK MO] Hi Hh. pose proof (ok_height _ _ _ OK) as Hb. unfold radix_tree_extend. run_simpl. rewrite (u32_small (r_height s + 1)) by lia.
  destruct (find_height_ok (Z.to_nat RADIX_TREE_MAX_PATH) (r_height s + 1) i s) as (h & -> & Hhr & Hhi); [lia|done|unfold RADIX_TREE_MAX_PATH; lia|].
  destruct (Z.eqb_spec (r_rnode s) 0) as [Er|Er].
  - pose proof (no_root_empty _ _ _ OK Er) as ->. assert (Hnt : ∀ t, is_tag t → root_tag s t = false) by (intros t Ht; by apply (no_root_tags s ∅ t)).
    exists 0, (with_height h s), ∅. split; [done|]. split_and!.
    + split; [apply empty_ok; try done; cbn; lia|]. by destruct MO.
    + intros j Hj. destruct (empty_items s j Er) as [E1 E2], (empty_items (with_height h s) j Er) as [E3 E4]. split; [congruence|].
      intros t Ht. rewrite E2, E4; done.
    + left. split; [done|]. apply index_ok_height; cbn; lia || done.
    + intros n Hn. split; [done|]. by apply (can_alloc_mono 6).
  - destruct (extend_loop_ok (Z.to_nat RADIX_TREE_MAX_PATH) s pos h) as (r & s1 & pos1 & E1 & Hgood & Hsame & Hres & Hal); [by split|done|lia|unfold RADIX_TREE_MAX_PATH; lia|].
    exists r, s1, pos1. split; [exact E1|]. split_and!; try done.
    + destruct Hres as [[-> Eh]|]; [left|by right]. split; [done|]. apply index_ok_height; [done|lia|congruence].
    + intros n Hn. apply Hal. apply (can_alloc_mono (6 - Z.to_nat (h - r_height s))).
      replace (6 - Z.to_nat (h - r_height s) + (Z.to_nat (h - r_height s) + n))%nat with (6 + n)%nat by lia. done.
Qed.

(** ** Storing an item *)

Definition set_item s pos s' pos' (i x : Z) : Prop := ∀ j, 0 ≤ j < 2 ^ 32 →
  item_at s' pos' j = (if j =? i then x else item_at s pos j) ∧ ∀ t, is_tag t → tagged_at s' pos' t j = tagged_at s pos t j.

Lemma mem_upd x s pos p a k : mem_ok x s pos → pos !! p = Some a → is_Some (nodes s !! a) → mem_ok x (upd_node a k s) pos.
Proof.
  intros MO Ep [k0 Ek]. eapply mem_change; [exact MO|done..| | |].
  - intros b Hb. destruct (mo_pre _ _ _ MO b Hb) as (Eb & Hbp & Hbx). cbn. rewrite lookup_insert_ne; [done|]. intros <-. by apply (Hbp p).
  - intros b. cbn. destruct (decide (b = a)) as [->|]; [by rewrite Ek|by rewrite lookup_insert_ne].
  - intros b kb _ [?| ->]; auto.
Qed.

(** A slot of a leaf changes. *)
Lemma leaf_upd s pos pre a k c o x : good s pos → pos !! (1%nat, pre) = Some a → nodes s !! a = Some k → is_off o →
  node_wf (with_count c (with_slot o x k)) → even x →
  let s' := upd_node a (with_count c (with_slot o x k)) s in good s' pos ∧ set_item s pos s' pos (kid pre o) x.
Proof.
  intros [OK MO] Ep Ek Ho Hk' Hx s'. destruct (node_at OK _ _ _ Ep) as (k0 & Ek0 & Hk & Hkh & En). simplify_eq.
  set (k' := with_count _ _) in *. split; [split|].
  - apply (upd_ok no_exempt no_exempt s pos 1 pre a k k' OK Ep Ek Hk'); try done.
    + lia.
    + intros _ o' Ho'. change (slot_at k' o') with (slot_at (with_slot o x k) o'). rewrite slot_at_with by done.
      destruct (o' =? o); [done|]. by apply (ok_items _ _ _ OK pre k).
    + lia.
    + intros t Ht _. rewrite (ok_tags _ _ _ OK t 1 pre Ht) by first [apply (ok_pos _ _ _ OK _ _ _ Ep)|intros []].
      unfold any_at. by rewrite En.
  - by eapply mem_upd.
  - intros j Hj. unfold item_at, tagged_at. change (r_height s') with (r_height s).
    destruct (ok_pos _ _ _ OK _ _ _ Ep) as (([_ Htop] & _) & _). destruct (Z.eqb_spec (r_height s) 0) as [|_]; [unfold top in *; lia|].
    unfold s'. rewrite (node_of_upd no_exempt s pos 1 pre a k' 1 (j / 64) OK Ep). case_decide as Hd.
    + injection Hd as <-. rewrite En. change (slot_at k' (j mod 64)) with (slot_at (with_slot o x k) (j mod 64)). rewrite slot_at_with by (done || apply mod64).
      split; [|done]. destruct (Z.eqb_spec (j mod 64) o) as [<-|Hne].
      * unfold kid. rewrite split64, Z.eqb_refl. done.
      * destruct (Z.eqb_spec j (kid (j / 64) o)) as [Ej|]; [|done]. exfalso. apply Hne. rewrite Ej. by apply kid_mod.
    + destruct (Z.eqb_spec j (kid pre o)) as [->|]; [|done]. by rewrite kid_div in Hd.
Qed.
Lemma leaf_ok s pos pre a k o x : good s pos → pos !! (1%nat, pre) = Some a → nodes s !! a = Some k → is_off o →
  (∀ t, is_tag t → tag_at k t o = false) → even x →
  let s' := upd_node a (with_count (rn_count k - (if slot_at k o =? 0 then 0 else 1) + (if x =? 0 then 0 else 1)) (with_slot o x k)) s in
  good s' pos ∧ set_item s pos s' pos (kid pre o) x.
Proof.
  intros Hg Ep Ek Ho Hnt Hx. destruct (node_at (proj1 Hg) _ _ _ Ep) as (k0 & Ek0 & Hk & _). simplify_eq.
  apply leaf_upd; try done. by apply node_wf_slot.
Qed.

(** The way to an index as a position: the leaf and the slot. *)
Lemma kid_px i : kid (px 1 i) (px 0 i mod 64) = i.
Proof. unfold kid. rewrite px_split. apply px_0. Qed.

(** ** radix_tree_insert *)

Lemma same_then_set s1 p1 s2 p2 s3 p3 i x : same_items s1 p1 s2 p2 → set_item s2 p2 s3 p3 i x → set_item s1 p1 s3 p3 i x.
Proof.
  intros H1 H2 j Hj. destruct (H1 j Hj) as [E1 T1], (H2 j Hj) as [E2 T2]. rewrite <- E1. split; [done|]. intros t Ht. by rewrite T2, T1.
Qed.

(** The last step of an insertion. *)
Definition insert_item (node offset item : Z) : M rtst unit :=
  if negb (node =? 0) then
    set_count node (λ c, c + 1) ;;
    store_slot node offset item ;;
    t0 ← tag_get node 0 offset; BUG_ON t0 ;;
    t1 ← tag_get node 1 offset; BUG_ON t1
  else
    modify (with_rnode (radix_tree_ptr_to_direct item)) ;;
    t0 ← root_tag_get 0; BUG_ON t0 ;;
    t1 ← root_tag_get 1; BUG_ON t1.

Lemma insert_item_ok s pos i node offset x : good s pos → index_ok s i → walk_at s pos 0 i node offset → item_at s pos i = 0 → even x → x ≠ 0 →
  ∃ s', insert_item node offset x s = Done (tt, s') ∧ good s' pos ∧ set_item s pos s' pos i x.
Proof.
  intros [OK MO] [Hi Hpx] Hw Hz Hx Hx0. unfold insert_item, BUG_ON. destruct Hw as [[Et ->]|(Ht & Ep & ->)].
  - change (0 =? 0) with true. cbn [negb]. run_simpl. assert (Hh : r_height s = 0) by (pose proof (ok_height _ _ _ OK); unfold top in *; lia).
    assert (i = 0) as -> by (rewrite <- Et, px_0 in Hpx; done).
    unfold item_at in Hz. rewrite Hh in Hz. cbn in Hz.
    destruct (ok_direct _ _ _ OK Hh) as [[Hr Hnt]|(y & Hy & Hy0 & Hr)]; [|by rewrite Hr, direct_to_direct in Hz].
    set (s' := with_rnode (radix_tree_ptr_to_direct x) s).
    change (root_tag_get 0 s') with (Done (root_tag s 0, s')). rewrite (Hnt 0) by (unfold is_tag; lia). cbn [negb].
    change (root_tag_get 1 s') with (Done (root_tag s 1, s')). rewrite (Hnt 1) by (unfold is_tag; lia). cbn [negb].
    exists s'. split; [done|]. pose proof (no_root_empty _ _ _ OK Hr) as ->. split; [split|].
    + split; try done; [apply OK|intros lev pre Hv|intros t lev pre _ Hv|].
      all: try (destruct Hv as ([? ?] & _); unfold top, s' in *; cbn in *; lia). intros _. right. by exists x.
    + by destruct MO.
    + intros j Hj. unfold item_at, tagged_at. change (r_height s') with (r_height s). rewrite Hh. change (0 =? 0) with true. cbn iota.
      destruct (Z.eqb_spec j 0) as [->|]; [|done]. split; [by apply direct_to_direct|done].
  - destruct (node_at OK _ _ _ Ep) as (k & Ek & Hk & Hkh & En). destruct (ok_pos _ _ _ OK _ _ _ Ep) as (_ & Hn0 & _).
    destruct (Z.eqb_spec node 0) as [|_]; [done|]. cbn [negb]. run_simpl. assert (Ho : is_off (px 0 i mod 64)) by apply mod64.
    assert (Hsz : slot_at k (px 0 i mod 64) = 0).
    { unfold item_at in Hz. destruct (Z.eqb_spec (r_height s) 0); [unfold top in *; lia|]. rewrite <- (px_0 i) in Hz at 1. rewrite <- px_S, En in Hz. by rewrite px_0. }
    assert (Hnt : ∀ t, is_tag t → tag_at k t (px 0 i mod 64) = false).
    { intros t Ht'. apply not_true_iff_false. intros Et. by apply (nw_tagged k Hk t _ Ht' Ho). }
    destruct (leaf_ok s pos (px 1 i) node k (px 0 i mod 64) x) as [Hgood Hset]; try done. rewrite kid_px in Hset.
    rewrite Hsz in Hgood, Hset. change (0 =? 0) with true in Hgood, Hset. destruct (Z.eqb_spec x 0) as [|_]; [done|]. cbn iota in Hgood, Hset.
    rewrite Z.sub_0_r in Hgood, Hset.
    rewrite (set_count_run _ _ _ _ Ek). pose proof (free_slot_count k _ Hk Ho Hsz). pose proof (node_count_bound k Hk). rewrite u32_small by lia.
    rewrite (store_slot_run' _ _ _ _ _ (upd_same _ _ _)) by (done || apply Hk). rewrite upd_upd.
    set (k' := with_slot _ _ _). change (good (upd_node node k' s) pos) in Hgood. change (set_item s pos (upd_node node k' s) pos i x) in Hset.
    assert (Hk' : node_wf k') by (destruct (node_at (proj1 Hgood) _ _ _ Ep) as (k2 & Ek2 & ? & _); rewrite upd_same in Ek2; by injection Ek2 as <-).
    rewrite (tag_get_run _ 0 _ k' _ (upd_same _ _ _) Hk') by (unfold is_tag; lia).
    change (tag_at k' 0 (px 0 i mod 64)) with (tag_at k 0 (px 0 i mod 64)). rewrite Hnt by (unfold is_tag; lia). cbn [negb].
    rewrite (tag_get_run _ 1 _ k' _ (upd_same _ _ _) Hk') by (unfold is_tag; lia).
    change (tag_at k' 1 (px 0 i mod 64)) with (tag_at k 1 (px 0 i mod 64)). rewrite Hnt by (unfold is_tag; lia). cbn [negb].
    eexists. split; [reflexivity|]. split; done.
Qed.

(** Looking for the place in a tree that is high enough. *)
Lemma insert_walk s pos i : good s pos → index_ok s i →
  ∃ r s' pos', insert_loop (Z.to_nat (r_height s)) (top_shift (r_height s)) i 0 (r_rnode s) 0 s = Done (r, s') ∧
    good s' pos' ∧ same_items s pos s' pos' ∧ same_shape s s' ∧
    (can_alloc 6 (mem s) = true → r ≠ None) ∧ (r = None → item_at s pos i = 0) ∧
    (∀ node slot offset, r = Some (node, slot, offset) → (slot = 0 ↔ item_at s' pos' i = 0) ∧ walk_at s' pos' 0 i node offset).
Proof.
  intros Hgood Hi. pose proof Hgood as [OK _]. pose proof (ok_height _ _ _ OK) as Hb. destruct (decide (r_height s = 0)) as [E0|E0].
  - rewrite E0. eexists _, s, pos. split; [done|]. split_and!; try done. intros node slot offset [= <- <- <-]. split; [|left; unfold top; by rewrite E0].
    destruct Hi as [_ Hpx]. unfold top in Hpx. rewrite E0, px_0 in Hpx. subst i. unfold item_at. rewrite E0. change (0 =? 0) with true. cbn iota.
    destruct (ok_direct _ _ _ OK E0) as [[-> _]|(y & Hy & Hy0 & ->)]; [done|]. rewrite direct_to_direct by done. split; [intros E; by destruct (direct_nonzero y)|done].
  - replace (r_rnode s) with (down s pos (top s) i).
    + destruct (insert_loop_ok (top s) (top_shift (r_height s)) i 0 0 s pos) as (r & s' & pos' & E1 & Hgood' & Hsame & Hshape & Hal & Hno & Hres); try done.
      * intros m Hm. replace (r_height s) with (Z.of_nat (S m)) by (unfold top in Hm; lia). apply top_shift_S. unfold top in Hm. lia.
      * by left.
      * exists r, s', pos'. split; [exact E1|]. split_and!; try done.
        -- intros Hal6. apply (Hal 0%nat). rewrite Nat.add_0_r. apply (can_alloc_mono (6 - top s)).
           replace (6 - top s + top s)%nat with 6%nat by (unfold top; lia). done.
        -- intros node slot offset Er. destruct (Hres _ _ _ Er) as [-> ?]. done.
    + rewrite (root_node OK E0). destruct Hi as [_ Hpx]. destruct (top s) as [|n] eqn:Et; [unfold top in Et; lia|]. cbn [down]. by rewrite Hpx.
Qed.

Lemma insert_ok s pos i x : good s pos → 0 ≤ i < 2 ^ 32 → even x → x ≠ 0 →
  ∃ r s' pos', radix_tree_insert i x s = Done (r, s') ∧ good s' pos' ∧
    (r = 0 ∧ item_at s pos i = 0 ∧ set_item s pos s' pos' i x ∨
     r = - EEXIST ∧ item_at s pos i ≠ 0 ∧ same_items s pos s' pos' ∨
     r = - ENOMEM ∧ item_at s pos i = 0 ∧ same_items s pos s' pos') ∧
    (can_alloc 12 (mem s) = true → r ≠ - ENOMEM).
Proof.
  intros Hgood Hi Hx Hx0. pose proof Hgood as [OK _]. pose proof (ok_height _ _ _ OK) as Hb.
  unfold radix_tree_insert. run_simpl. rewrite even_not_direct by done. change (BUG_ON false s) with (@Done (unit * rtst) (tt, s)). cbn beta iota. rewrite maxindex_run by done. rewrite (maxindex_ok OK i Hi).
  assert (Hext : ∃ r s1 pos1, (if negb (bool_decide (px (top s) i = 0)) then radix_tree_extend i else λ s, Done (0, s)) s = Done (r, s1) ∧
    good s1 pos1 ∧ same_items s pos s1 pos1 ∧ (r = 0 ∧ index_ok s1 i ∨ r = - ENOMEM) ∧
    (∀ n, can_alloc (6 + n) (mem s) = true → r = 0 ∧ can_alloc n (mem s1) = true) ∧ (r ≠ 0 → item_at s pos i = 0)).
  { destruct (decide (px (top s) i = 0)) as [Hp|Hp].
    - rewrite bool_decide_eq_true_2 by done. exists 0, s, pos. split_and!; try done; [left; by split_and!|]. intros n Hn. split; [done|by apply (can_alloc_mono 6)].
    - rewrite bool_decide_eq_false_2 by done. destruct (extend_ok s pos i) as (r & s1 & pos1 & Ee & Hx1 & Hx2 & Hx3 & Hx4); try done.
      2:{ exists r, s1, pos1. split_and!; try done. intros _. by apply (beyond_item OK); [lia|]. }
      destruct (decide (r_height s = 6)) as [E6|]; [|lia].
      exfalso. apply Hp. unfold top. rewrite E6. apply px_top. change (64 ^ Z.of_nat (Z.to_nat 6)) with (2 ^ 36). lia. }
  destruct Hext as (e & s1 & pos1 & -> & Hgood1 & Hsame1 & He & Hal1 & Hno1). destruct He as [[-> Hidx]| ->].
  2:{ change (negb (- ENOMEM =? 0)) with true. cbn iota. eexists _, s1, pos1. split; [done|]. split_and!; try done; [right; right; by split_and!; [|apply Hno1|]|].
      intros Hal. by destruct (Hal1 6%nat Hal). }
  change (negb (0 =? 0)) with false. cbn iota. destruct (insert_walk s1 pos1 i Hgood1 Hidx) as (r & s2 & pos2 & -> & Hgood2 & Hsame2 & [Hh2 _] & Hal2 & Hno2 & Hres).
  pose proof (same_items_trans _ _ _ _ _ _ Hsame1 Hsame2) as Hsame. destruct r as [[[node slot] offset]|].
  2:{ eexists _, s2, pos2. split; [done|]. split_and!; try done; [right; right; split_and!; [done| |done]; rewrite <- (proj1 (Hsame1 i Hi)); by apply Hno2|]. intros Hal. destruct (Hal1 6%nat Hal) as [_ Hal6]. by destruct (Hal2 Hal6). }
  destruct (Hres _ _ _ eq_refl) as [Hslot Hw]. destruct (Hsame i Hi) as [Eitem _]. destruct (Z.eqb_spec slot 0) as [Es|Es]; cbn [negb].
  - fold (insert_item node offset x). destruct (insert_item_ok s2 pos2 i node offset x) as (s3 & E3 & Hgood3 & Hset); try done; [|by apply Hslot|].
    { destruct Hidx as [? Hpx]. split; [done|]. unfold top in *. by rewrite Hh2. }
    unfold insert_item in E3. run_simpl. rewrite E3. eexists 0, s3, pos2. split; [done|]. split_and!; try done.
    left. split_and!; [done|rewrite <- Eitem; by apply Hslot|]. by eapply same_then_set.
  - eexists _, s2, pos2. split; [done|]. split_and!; try done. right; left. split_and!; try done. rewrite <- Eitem. intros E0. by apply Es, Hslot.
Qed.

End Refine.
