(* ===== verification/RadixTreeTags.v ===== *)
(** Tags of radix trees: [radix_tree_tag_set] and [radix_tree_tag_clear] keep the
    invariant of [RadixTreeInv] and change one tag. *)

From S2P Require Import Prelude Kit FindBit RadixTree RadixTreeInv RadixTreeOps RadixTreeRefine.

Section Tags.
Context {A : Type} `{KitMemory A}.
Abbreviation rtst := (rtst (A := A)).
Abbreviation posmap := (gmap (nat * Z) Z).
Implicit Types (s : rtst) (pos : posmap).

Definition set_tag s pos s' pos' (t i : Z) (b : bool) : Prop := ∀ j, 0 ≤ j < 2 ^ 32 →
  item_at s' pos' j = item_at s pos j ∧
  ∀ t', is_tag t' → tagged_at s' pos' t' j = if (t' =? t) && (j =? i) then b else tagged_at s pos t' j.

(** ** The tags of the root *)

Lemma root_tag_bit s t : is_tag t → root_tag s t = Z.testbit (r_gfp s) (t + 20).
Proof.
  intros Ht. unfold root_tag, __GFP_BITS_SHIFT. unfold is_tag in Ht. destruct (Z.testbit (r_gfp s) (t + 20)) eqn:E.
  - apply negb_true_iff, Z.eqb_neq. intros E0. assert (Z.testbit (Z.land (r_gfp s) (Z.shiftl 1 (t + 20))) (t + 20) = false) as Hb by (by rewrite E0, Z.bits_0).
    rewrite Z.land_spec, E, one_bit_spec, Z.eqb_refl in Hb by lia. done.
  - apply negb_false_iff, Z.eqb_eq, Z.bits_inj'. intros n Hn. rewrite Z.land_spec, one_bit_spec, Z.bits_0 by lia.
    destruct (Z.eqb_spec n (t + 20)) as [->|]; [by rewrite E|apply andb_false_r].
Qed.
Definition root_set (t : Z) s : rtst := with_gfp (Z.lor (r_gfp s) (Z.shiftl 1 (t + __GFP_BITS_SHIFT))) s.
Definition root_clear (t : Z) s : rtst := with_gfp (Z.ldiff (r_gfp s) (Z.shiftl 1 (t + __GFP_BITS_SHIFT))) s.
Lemma root_tag_root_set s t t' : is_tag t → is_tag t' → root_tag (root_set t s) t' = (t' =? t) || root_tag s t'.
Proof.
  intros Ht Ht'. rewrite !root_tag_bit by done. unfold is_tag, root_set, __GFP_BITS_SHIFT in *. cbn [r_gfp with_gfp]. rewrite Z.lor_spec, one_bit_spec by lia.
  rewrite orb_comm. f_equal. destruct (Z.eqb_spec t' t), (Z.eqb_spec (t' + 20) (t + 20)); lia || done.
Qed.
Lemma root_tag_root_clear s t t' : is_tag t → is_tag t' → root_tag (root_clear t s) t' = negb (t' =? t) && root_tag s t'.
Proof.
  intros Ht Ht'. rewrite !root_tag_bit by done. unfold is_tag, root_clear, __GFP_BITS_SHIFT in *. cbn [r_gfp with_gfp]. rewrite Z.ldiff_spec, one_bit_spec by lia.
  rewrite andb_comm. f_equal. f_equal. destruct (Z.eqb_spec t' t), (Z.eqb_spec (t' + 20) (t + 20)); lia || done.
Qed.

(** Only the tags of the root change. *)
Lemma gfp_ok E E' s pos g : tree_ok E s pos → r_height s ≠ 0 →
  (∀ t, is_tag t → ¬ E' t (top s) 0 → root_tag (with_gfp g s) t = any_at s pos t (top s) 0) →
  (∀ t lev p, is_tag t → (1 ≤ lev)%nat → ¬ E' t lev p → lev ≠ top s → ¬ E t lev p) →
  tree_ok E' (with_gfp g s) pos.
Proof.
  intros OK Hh Hr HE. split; try apply OK; try done.
  intros t lev p Ht Hv HE'. unfold par_tag. change (top (with_gfp g s)) with (top s). destruct (decide (lev = top s)) as [->|Hl].
  - destruct Hv as (_ & _ & Hz). rewrite (Hz eq_refl) in *. by apply Hr.
  - pose proof (ok_tags _ _ _ OK t lev p Ht Hv (HE t lev p Ht (proj1 (proj1 Hv)) HE' Hl)) as Hx. unfold par_tag in Hx. by rewrite decide_False in Hx.
Qed.

(** ** The tags of a node *)

(** A node that only differs in one tag of one slot. *)
Definition retag (k k' : rnode) (t o : Z) (b : bool) : Prop :=
  node_wf k' ∧ rn_height k' = rn_height k ∧ (∀ o', is_off o' → slot_at k' o' = slot_at k o') ∧
  ∀ t' o', is_tag t' → is_off o' → tag_at k' t' o' = if (t' =? t) && (o' =? o) then b else tag_at k t' o'.

Lemma retag_set k t o : node_wf k → is_tag t → is_off o → slot_at k o ≠ 0 → retag k (with_tag t (__set_bit o (words_of k t)) k) t o true.
Proof.
  intros Hk Ht Ho Hs. split_and!; [by apply node_wf_set|done|done|]. intros t' o' Ht' Ho'. rewrite tag_at_with by done.
  destruct (Z.eqb_spec t' t) as [->|]; [|done]. cbn [andb]. rewrite tag_bit_set by (done || by apply words_lookup). by destruct (o' =? o).
Qed.
Lemma retag_clear k t o : node_wf k → is_tag t → is_off o → retag k (with_tag t (__clear_bit o (words_of k t)) k) t o false.
Proof.
  intros Hk Ht Ho. split_and!; [by apply node_wf_clear|done|done|]. intros t' o' Ht' Ho'. rewrite tag_at_with by done.
  destruct (Z.eqb_spec t' t) as [->|]; [|done]. cbn [andb]. rewrite tag_bit_clear by (done || by apply words_lookup). by destruct (o' =? o).
Qed.
Lemma retag_same k t o b : node_wf k → is_tag t → is_off o → tag_at k t o = b → retag k k t o b.
Proof.
  intros Hk Ht Ho E. split_and!; try done. intros t' o' Ht' Ho'. destruct (Z.eqb_spec t' t) as [->|]; [|done].
  by destruct (Z.eqb_spec o' o) as [->|].
Qed.
Lemma retag_any k k' t o b t' : node_wf k → retag k k' t o b → is_tag t' → t' ≠ t → any_tag k' t' = any_tag k t'.
Proof.
  intros Hk (Hk' & _ & _ & Htag) Ht' Hne. apply eq_true_iff_eq. rewrite !any_tag_true by done.
  split; intros (o' & Ho' & E); exists o'; (split; [done|]); rewrite Htag in * by done; (destruct (Z.eqb_spec t' t); done).
Qed.

(** The effect of changing one tag of a node on items and tags. *)
Lemma retag_items E s pos n i a k k' t b : tree_ok E s pos → 0 ≤ i → pos !! (S n, px (S n) i) = Some a → nodes s !! a = Some k → is_tag t →
  retag k k' t (px n i mod 64) b →
  match n with O => set_tag s pos (upd_node a k' s) pos t i b | S _ => same_items s pos (upd_node a k' s) pos end.
Proof.
  intros OK Hi Ep Ek Ht (Hk' & _ & Hslot & Htag). pose proof (node_of_upd E s pos (S n) (px (S n) i) a k') as Hof.
  destruct (ok_pos _ _ _ OK _ _ _ Ep) as (([_ Htop] & _) & _). assert (Hh : r_height s ≠ 0) by (unfold top in *; lia).
  assert (En : node_of s pos (S n) (px (S n) i) = Some k) by (unfold node_of; by rewrite Ep).
  destruct n as [|n]; intros j Hj; unfold item_at, tagged_at; change (r_height (upd_node a k' s)) with (r_height s);
    (destruct (Z.eqb_spec (r_height s) 0) as [|_]; [done|]); rewrite Hof by done.
  - case_decide as Hd.
    + injection Hd as Hd. rewrite <- Hd in En. rewrite En. split; [apply Hslot, mod64|]. intros t' Ht'. rewrite Htag by (done || apply mod64). rewrite px_0.
      rewrite px_S, px_0 in Hd. assert (Hji : (j mod 64 =? i mod 64) = (j =? i)).
      { pose proof (Z.div_mod j 64 ltac:(lia)). pose proof (Z.div_mod i 64 ltac:(lia)). destruct (Z.eqb_spec (j mod 64) (i mod 64)), (Z.eqb_spec j i); congruence || lia. }
      by rewrite Hji.
    + split; [done|]. intros t' Ht'. destruct (Z.eqb_spec j i) as [->|]; [|by rewrite andb_false_r]. exfalso. apply Hd. by rewrite px_S, px_0.
  - rewrite decide_False by (intros [= ? _]). done.
Qed.

(** ** radix_tree_tag_set *)

(** The root and the node that comes next may disagree with the tags below. *)
Definition setting s (t i : Z) (n : nat) : Z → nat → Z → Prop := λ t' lev p, t' = t ∧ ((lev, p) = (top s, 0) ∨ (lev, p) = (n, px n i)).

Lemma tag_set_step s pos m i a k k' t : tree_ok (setting s t i (S m)) s pos → index_ok s i → pos !! (S m, px (S m) i) = Some a → nodes s !! a = Some k →
  is_tag t → retag k k' t (px m i mod 64) true →
  ((S m = top s)%nat ∨ par_tag s pos t (S m) (px (S m) i) = true) →
  tree_ok (setting s t i m) (upd_node a k' s) pos.
Proof.
  intros OK [Hi Hpx] Ep Ek Ht Hre Hpar. pose proof Hre as (Hk' & Hh & Hslot & Htag). destruct (node_at OK _ _ _ Ep) as (k0 & Ek0 & Hk & Hkh & En). simplify_eq.
  destruct (ok_pos _ _ _ OK _ _ _ Ep) as (Hv & _). pose proof Hv as ([_ Htop] & _).
  assert (Ho : is_off (px m i mod 64)) by apply mod64.
  assert (Hany : any_tag k' t = true) by (apply any_tag_true; [done..|]; exists (px m i mod 64); split; [done|]; rewrite Htag by done; by rewrite !Z.eqb_refl).
  apply (upd_ok (setting s t i (S m)) (setting s t i m) s pos (S m) (px (S m) i) a k k'); try done.
  - intros [= Em] o' Ho'. rewrite Hslot by done. apply (ok_items _ _ _ OK (px (S m) i) k o'); [|done]. by rewrite Em in En |- *.
  - intros t' lev p Ht' HE _ Hne [-> [Hx|Hx]]; [apply HE; split; [done|by left]|done].
  - intros t' lev o' Ht' Ho' Hlev [= <-] HE. rewrite Htag by done. destruct ((t' =? t) && (o' =? px m i mod 64)) eqn:Eb.
    + apply andb_prop in Eb as [->%Z.eqb_eq ->%Z.eqb_eq]. exfalso. apply HE. split; [done|]. right. by rewrite px_split.
    + rewrite (child_tag OK t' m _ _ _ o' Ep Ek) by (done || lia || (intros [_ [[= ? _]|[= ? _]]]; lia)). done.
  - intros t' Ht' HE. destruct (decide (t' = t)) as [->|Hne].
    + rewrite Hany. destruct Hpar as [Et|]; [|done]. exfalso. apply HE. split; [done|]. left. rewrite Et, Hpx. done.
    + rewrite (retag_any k k' t _ true t') by done. rewrite (ok_tags _ _ _ OK t' _ _ Ht' Hv) by (intros [? _]; done). unfold any_at. by rewrite En.
Qed.

Lemma same_set_tag s1 p1 s2 p2 s3 p3 t i b : same_items s1 p1 s2 p2 → set_tag s2 p2 s3 p3 t i b → set_tag s1 p1 s3 p3 t i b.
Proof.
  intros H1 H2 j Hj. destruct (H1 j Hj) as [E1 T1], (H2 j Hj) as [E2 T2]. split; [congruence|]. intros t' Ht'. rewrite T2, T1; done.
Qed.
Lemma set_tag_same s1 p1 s2 p2 s3 p3 t i b : set_tag s1 p1 s2 p2 t i b → same_items s2 p2 s3 p3 → set_tag s1 p1 s3 p3 t i b.
Proof.
  intros H1 H2 j Hj. destruct (H1 j Hj) as [E1 T1], (H2 j Hj) as [E2 T2]. split; [congruence|]. intros t' Ht'. rewrite T2, T1; done.
Qed.
Lemma upd_id a k s : nodes s !! a = Some k → upd_node a k s = s.
Proof. intros E. unfold upd_node, with_nodes. rewrite insert_id by done. by destruct s. Qed.
Lemma item_retag E s pos n i a k k' t b j : tree_ok E s pos → 0 ≤ i → 0 ≤ j < 2 ^ 32 → pos !! (S n, px (S n) i) = Some a → nodes s !! a = Some k → is_tag t →
  retag k k' t (px n i mod 64) b → item_at (upd_node a k' s) pos j = item_at s pos j.
Proof. intros OK Hi Hj Ep Ek Ht Hre. pose proof (retag_items E s pos n i a k k' t b OK Hi Ep Ek Ht Hre) as Hx. destruct n; apply (Hx j Hj). Qed.

Lemma tag_set_loop_ok n : ∀ sh i t s pos, tree_ok (setting s t i n) s pos → mem_ok 0 s pos → index_ok s i → is_tag t → (n ≤ top s)%nat →
  (∀ m, n = S m → sh = 6 * Z.of_nat m) → item_at s pos i ≠ 0 → r_height s ≠ 0 →
  (n = top s ∨ any_at s pos t (top s) 0 = true ∧ ((1 ≤ n)%nat → par_tag s pos t n (px n i) = true)) →
  ∃ s', tag_set_loop n sh i t (down s pos n i) s = Done (item_at s pos i, s') ∧ tree_ok (setting s t i 0) s' pos ∧ mem_ok 0 s' pos ∧
    same_root s s' ∧ any_at s' pos t (top s) 0 = true ∧
    match n with O => same_items s pos s' pos | S _ => set_tag s pos s' pos t i true end.
Proof.
  induction n as [|m IH]; intros sh i t s pos OK MO Hidx Ht Hn Hsh Hitem Hh Hinv; pose proof (ok_height _ _ _ OK) as Hb.
  { exists s. split; [done|]. split_and!; try done. destruct Hinv as [E0|[? _]]; [unfold top in E0; lia|done]. }
  assert (Hd : down s pos (S m) i ≠ 0) by (intros Hd; by apply Hitem, (down_zero OK (S m))).
  pose proof (down_pos (s := s) (pos := pos) m i _ eq_refl Hd) as Ep. set (a := down s pos (S m) i) in *.
  destruct (node_at OK _ _ _ Ep) as (k & Ek & Hk & _ & En). assert (Ho : is_off (px m i mod 64)) by apply mod64.
  rewrite (Hsh m eq_refl). cbn [tag_set_loop]. rewrite (slot_offset_px m i) by apply Hidx. run_simpl. rewrite (tag_get_run _ _ _ _ _ Ek Hk Ht).
  assert (Hs : slot_at k (px m i mod 64) = down s pos m i).
  { pose proof (load_down OK m i a (proj1 (proj1 Hidx)) Ep) as E. rewrite slot_offset_px in E by apply Hidx. unfold load_slot in E. run_simpl.
    rewrite (load_node_run _ _ _ Ek), slots_lookup in E by done. by injection E. }
  assert (Hs0 : slot_at k (px m i mod 64) ≠ 0) by (rewrite Hs; intros Hx; apply Hitem, (down_zero OK m); [done|lia|done]).
  assert (Hstep : ∃ k', (if tag_at k t (px m i mod 64) then mret tt else tag_set a t (px m i mod 64)) s = Done (tt, upd_node a k' s) ∧ retag k k' t (px m i mod 64) true).
  { destruct (tag_at k t (px m i mod 64)) eqn:Eb; [exists k; split; [by rewrite upd_id|by apply retag_same]|].
    eexists. split; [by rewrite (tag_set_run _ _ _ _ _ Ek Hk Ht)|by apply retag_set]. }
  destruct Hstep as (k' & Erun & Hre). unfold mret, M_ret in Erun. rewrite Erun. set (s1 := upd_node a k' s).
  assert (OK1 : tree_ok (setting s t i m) s1 pos) by (apply (tag_set_step s pos m i a k k' t); try done; destruct Hinv as [?|[_ Hp]]; [by left|right; apply Hp; lia]).
  assert (Hitem1 : item_at s1 pos i = item_at s pos i) by (apply (item_retag _ s pos m i a k k' t true i OK); try done; apply Hidx).
  pose proof Hidx as [Hi Hpx]. assert (Hidx1 : index_ok s1 i) by (split; done).
  pose proof (load_down OK1 m i a (proj1 Hi) Ep) as El. rewrite slot_offset_px in El by lia. rewrite El.
  destruct (Z.eqb_spec (down s1 pos m i) 0) as [Hz|Hz]; [exfalso; apply Hitem; rewrite <- Hitem1; apply (down_zero OK1 m); [done|unfold top in *; cbn; lia|done]|].
  change (BUG_ON false s1) with (@Done (unit * rtst) (tt, s1)). cbn beta iota.
  destruct (IH (u32 (6 * Z.of_nat m - RADIX_TREE_MAP_SHIFT)) i t s1 pos) as (s2 & E2 & OK2 & MO2 & (Hr1 & Hr2 & Hr3) & Hany2 & Hset2); try done.
  - by eapply mem_upd.
  - change (top s1) with (top s). lia.
  - intros m' ->. unfold RADIX_TREE_MAP_SHIFT. rewrite u32_small; unfold top in *; lia.
  - congruence.
  - right. destruct Hre as (Hk' & _ & _ & Htag). split.
    + unfold any_at, s1. rewrite (node_of_upd _ s pos (S m) (px (S m) i) a k' _ _ OK Ep). change (top (upd_node a k' s)) with (top s). case_decide as Hdd.
      * apply any_tag_true; [done..|]. exists (px m i mod 64). split; [done|]. rewrite Htag by done. by rewrite !Z.eqb_refl.
      * destruct Hinv as [Et|[Hany _]]; [|exact Hany]. exfalso. apply Hdd. by rewrite <- Et, <- Hpx, <- Et.
    + intros Hm. unfold par_tag. change (top s1) with (top s). rewrite decide_False by lia. unfold s1. rewrite <- px_S.
      rewrite (node_of_upd _ s pos (S m) (px (S m) i) a k' _ _ OK Ep), decide_True by done. rewrite Htag by done. by rewrite !Z.eqb_refl.
  - exists s2. rewrite E2, Hitem1. split; [done|]. split_and!; try done.
    pose proof (retag_items _ s pos m i a k k' t true OK ltac:(lia) Ep Ek Ht Hre) as Hx. fold s1 in Hx. destruct m; [by eapply set_tag_same|by eapply same_set_tag].
Qed.

Lemma item_even s pos : tree_ok no_exempt s pos → r_height s ≠ 0 → ∀ i, even (item_at s pos i).
Proof.
  intros OK E0 i. unfold item_at. destruct (Z.eqb_spec (r_height s) 0); [done|]. destruct (node_of s pos 1 (i / 64)) as [k|] eqn:En; [|done].
  apply (ok_items _ _ _ OK _ _ _ En), mod64.
Qed.
(** The end of [radix_tree_tag_set]. *)
Lemma mark_root_run t s slot : slot ≠ 0 → is_tag t →
  ∃ g, (if slot =? 0 then mret tt else b ← root_tag_get t; if (b : bool) then mret tt else root_tag_set t) s = Done (tt, with_gfp g s) ∧
    ∀ t', is_tag t' → root_tag (with_gfp g s) t' = (t' =? t) || root_tag s t'.
Proof.
  intros Hs Ht. destruct (Z.eqb_spec slot 0) as [|_]; [done|]. rewrite (run_bind _ _ _ _ _ (root_tag_get_run t s)). destruct (root_tag s t) eqn:Er.
  - exists (r_gfp s). split; [by destruct s|]. intros t' Ht'. change (root_tag (with_gfp (r_gfp s) s) t') with (root_tag s t'). by destruct (Z.eqb_spec t' t) as [->|].
  - eexists. split; [done|]. intros t' Ht'. by apply root_tag_root_set.
Qed.

(** What the tag operations return for an item: the word in its slot, which in the
    root of a tree of height 0 has the bit of an item set. *)
Definition tag_result (height x : Z) : Z := if (height =? 0) && negb (x =? 0) then radix_tree_ptr_to_direct x else x.
Lemma tag_result_node h x : h ≠ 0 → tag_result h x = x.
Proof. intros Hh. unfold tag_result. by destruct (Z.eqb_spec h 0). Qed.
Lemma tag_result_root s pos x : r_height s = 0 → r_rnode s = radix_tree_ptr_to_direct x → even x → x ≠ 0 →
  tag_result (r_height s) (item_at s pos 0) = r_rnode s.
Proof.
  intros E0 Hr Hx Hx0. unfold tag_result, item_at. rewrite E0, Hr. cbn. rewrite direct_to_direct by done.
  by destruct (Z.eqb_spec x 0).
Qed.
Lemma tag_result_zero h : tag_result h 0 = 0.
Proof. unfold tag_result. by rewrite andb_false_r. Qed.

(** Tagging an item that is present. *)
Lemma tag_set_ok s pos i t : good s pos → 0 ≤ i < 2 ^ 32 → is_tag t → item_at s pos i ≠ 0 →
  ∃ s', ∃ r, radix_tree_tag_set i t s = Done (r, s') ∧ r = tag_result (r_height s) (item_at s pos i) ∧ good s' pos ∧ set_tag s pos s' pos t i true.
Proof.
  intros [OK MO] Hi Ht Hitem. pose proof (ok_height _ _ _ OK) as Hb. unfold radix_tree_tag_set.
  rewrite (run_bind _ _ s (r_height s) s eq_refl), (run_bind _ _ _ _ _ (maxindex_run _ s Hb)), (maxindex_ok OK i Hi).
  destruct (decide (px (top s) i = 0)) as [Hp|Hp]; [|by destruct (beyond_item OK i ltac:(lia) Hp)]. rewrite bool_decide_eq_true_2 by done.
  rewrite (run_bind (BUG_ON (negb true)) _ s tt s eq_refl), (run_bind _ _ s (r_rnode s) s eq_refl). destruct (decide (r_height s = 0)) as [E0|E0].
  - unfold item_at in Hitem. rewrite E0 in Hitem. change (0 =? 0) with true in Hitem. cbn iota in Hitem.
    assert (i = 0) as -> by (by destruct (Z.eqb_spec i 0)). change (0 =? 0) with true in Hitem. cbn iota in Hitem.
    destruct (ok_direct _ _ _ OK E0) as [[Hr _]|(x & Hx & Hx0 & Hr)]; [by rewrite Hr in Hitem|].
    destruct (mark_root_run t s (r_rnode s)) as (g & Erun & Hrt); [rewrite Hr; apply direct_nonzero|done|].
    assert (El : tag_set_loop (Z.to_nat (r_height s)) (top_shift (r_height s)) 0 t (r_rnode s) s = Done (r_rnode s, s)) by (by rewrite E0).
    rewrite (run_bind _ _ _ _ _ El), (run_bind _ _ _ _ _ Erun).
    exists (with_gfp g s), (r_rnode s). split; [done|]. split_and!; [symmetry; by apply (tag_result_root s pos x)|split; [|by destruct MO]|].
    + assert (Hno : ∀ lev p, ¬ valid_pos s lev p) by (intros lev p ([? ?] & _); unfold top in *; lia). split; try apply OK.
      * intros t' lev p _ Hv. by destruct (Hno lev p).
      * intros _. right. by exists x.
    + intros j Hj. unfold item_at, tagged_at. change (r_height (with_gfp g s)) with (r_height s). rewrite E0. change (0 =? 0) with true. cbn iota. split; [done|].
      intros t' Ht'. destruct (Z.eqb_spec j 0) as [->|]; [|by rewrite andb_false_r]. cbn [andb]. rewrite andb_true_r, Hrt by done. by destruct (t' =? t).
  - destruct (tag_set_loop_ok (top s) (top_shift (r_height s)) i t s pos) as (s1 & E1 & OK1 & MO1 & (Hh1 & Hg1 & Hr1) & Hany1 & Hset1); try done.
    + destruct OK as [? ? ? ? Hot ? ?]. split; try done. intros t' lev p Ht' Hv _. by apply Hot; [..|intros []].
    + intros m Hm. replace (r_height s) with (Z.of_nat (S m)) by (unfold top in Hm; lia). apply top_shift_S. unfold top in Hm. lia.
    + by left.
    + replace (down s pos (top s) i) with (r_rnode s) in E1.
      2:{ rewrite (root_node OK E0). destruct (top s) as [|n] eqn:Et; [unfold top in Et; lia|]. cbn [down]. by rewrite Hp. }
      destruct (mark_root_run t s1 (item_at s pos i) Hitem Ht) as (g & Erun & Hrt). assert (Htop : top s1 = top s) by (unfold top; congruence).
      rewrite (run_bind _ _ _ _ _ E1), (run_bind _ _ _ _ _ Erun). exists (with_gfp g s1), (item_at s pos i). split; [done|].
      split_and!; [by rewrite tag_result_node|split; [|by destruct MO1]|].
      * apply (gfp_ok (setting s t i 0)); [done|congruence| |].
        -- intros t' Ht' _. rewrite Hrt by done. rewrite Htop. destruct (Z.eqb_spec t' t) as [->|Hne]; [done|]. cbn [orb].
           pose proof (ok_tags _ _ _ OK1 t' (top s1) 0 Ht') as Hx. unfold par_tag in Hx. rewrite decide_True, Htop in Hx by done. apply Hx.
           ++ unfold valid_pos. rewrite Htop. unfold top. repeat split; lia.
           ++ intros [? _]. done.
        -- intros t' lev p _ Hlev _ Hl [-> [[= -> ->]|[= -> ->]]]; [by rewrite Htop in Hl|lia].
      * assert (Hs2 : set_tag s pos s1 pos t i true) by (destruct (top s) eqn:Et; [unfold top in Et; lia|done]).
        intros j Hj. destruct (Hs2 j Hj) as [E2 T2]. unfold item_at, tagged_at in *. change (r_height (with_gfp g s1)) with (r_height s1).
        rewrite Hh1 in *. destruct (Z.eqb_spec (r_height s) 0); done.
Qed.

(** ** Paths *)

(** The nodes from level [lev] up to the root on the way to index [i], with the
    slots taken. *)
Fixpoint path_from pos (tp : nat) (i : Z) (lev : nat) (l : list (Z * Z)) : Prop :=
  match l with
  | [] => lev = S tp
  | (a, o) :: l => (lev ≤ tp)%nat ∧ pos !! (lev, px lev i) = Some a ∧ o = px (pred lev) i mod 64 ∧ path_from pos tp i (S lev) l
  end.

Lemma path_loop_ok n : ∀ sh i path s pos, good s pos → index_ok s i → r_height s ≠ 0 → (n ≤ top s)%nat → (∀ m, n = S m → sh = 6 * Z.of_nat m) →
  path_from pos (top s) i (S n) path →
  ∃ slot path', path_loop n sh i (down s pos n i) path s = Done ((slot, path'), s) ∧ slot = item_at s pos i ∧
    (item_at s pos i ≠ 0 → path_from pos (top s) i 1 path').
Proof.
  induction n as [|m IH]; intros sh i path s pos Hgood Hidx Hh Hn Hsh Hp; pose proof Hgood as [OK _]; [by eexists _, path|].
  cbn [path_loop]. rewrite (Hsh m eq_refl). destruct (Z.eqb_spec (down s pos (S m) i) 0) as [Ez|Ez].
  - pose proof (down_zero OK (S m) i Hidx Hn Ez) as E0. eexists 0, path. split; [done|]. by rewrite E0.
  - pose proof (down_pos (s := s) (pos := pos) m i _ eq_refl Ez) as Ep. set (a := down s pos (S m) i) in *.
    pose proof (load_down OK m i a (proj1 (proj1 Hidx)) Ep) as El. rewrite (run_bind _ _ _ _ _ El). rewrite (slot_offset_px m i) by apply Hidx.
    apply IH; try done; [lia|].
    intros m' ->. pose proof (ok_height _ _ _ OK). unfold RADIX_TREE_MAP_SHIFT. rewrite u32_small; unfold top in *; lia.
Qed.

(** ** radix_tree_tag_clear *)

(** The node at level [n] on the way to [i] may have lost its last tag. *)
Definition clearing (t i : Z) (n : nat) : Z → nat → Z → Prop := λ t' lev p, t' = t ∧ (lev, p) = (n, px n i).

Lemma weaken_ok E E' s pos : tree_ok E s pos →
  (∀ t lev p, is_tag t → valid_pos s lev p → E t lev p → ¬ E' t lev p → par_tag s pos t lev p = any_at s pos t lev p) → tree_ok E' s pos.
Proof.
  intros OK HE. split; try apply OK. intros t lev p Ht Hv HE'. destruct (decide (par_tag s pos t lev p = any_at s pos t lev p)) as [|Hne]; [done|].
  apply (ok_tags _ _ _ OK t lev p Ht Hv). intros HEt. by apply Hne, HE.
Qed.

Lemma clear_step s pos m i a k k' t : tree_ok (clearing t i m) s pos → pos !! (S m, px (S m) i) = Some a → nodes s !! a = Some k → is_tag t →
  retag k k' t (px m i mod 64) false → ((1 ≤ m)%nat → any_at s pos t m (px m i) = false) →
  tree_ok (clearing t i (S m)) (upd_node a k' s) pos.
Proof.
  intros OK Ep Ek Ht Hre Hc. pose proof Hre as (Hk' & Hh & Hslot & Htag). destruct (node_at OK _ _ _ Ep) as (k0 & Ek0 & Hk & Hkh & En). simplify_eq.
  destruct (ok_pos _ _ _ OK _ _ _ Ep) as (Hv & _). pose proof Hv as ([_ Htop] & _).
  apply (upd_ok (clearing t i m) (clearing t i (S m)) s pos (S m) (px (S m) i) a k k'); try done.
  - intros [= Em] o' Ho'. rewrite Hslot by done. apply (ok_items _ _ _ OK (px (S m) i) k o'); [|done]. by rewrite Em in En |- *.
  - intros t' lev p Ht' HE Hpar _ [-> [= -> ->]]. apply Hpar. by rewrite <- px_S.
  - intros t' lev o' Ht' Ho' Hlev [= <-] HE. rewrite Htag by done. destruct ((t' =? t) && (o' =? px m i mod 64)) eqn:Eb.
    + apply andb_prop in Eb as [->%Z.eqb_eq ->%Z.eqb_eq]. by rewrite px_split, Hc.
    + rewrite (child_tag OK t' m _ _ _ o' Ep Ek); try done. intros [-> [= Hx]]. rewrite Z.eqb_refl in Eb. cbn [andb] in Eb.
      apply Z.eqb_neq in Eb. apply Eb. rewrite <- Hx. by rewrite join64_mod.
  - intros t' Ht' HE. destruct (decide (t' = t)) as [->|Hne]; [by destruct HE|].
    rewrite (retag_any k k' t _ false t') by done. rewrite (ok_tags _ _ _ OK t' _ _ Ht' Hv) by (intros [? _]; done). unfold any_at. by rewrite En.
Qed.

Lemma par_tag_upd E s pos lev p a k' t : tree_ok E s pos → pos !! (lev, p) = Some a → par_tag (upd_node a k' s) pos t lev p = par_tag s pos t lev p.
Proof.
  intros OK Ep. unfold par_tag. change (top (upd_node a k' s)) with (top s). case_decide; [done|].
  rewrite (node_of_upd E s pos lev p a k' _ _ OK Ep), decide_False; [done|]. intros [= ? _]. lia.
Qed.

Lemma clear_loop_ok l : ∀ m i t s pos, tree_ok (clearing t i m) s pos → mem_ok 0 s pos → 0 ≤ i → px (top s) i = 0 → is_tag t →
  path_from pos (top s) i (S m) l → ((1 ≤ m)%nat → any_at s pos t m (px m i) = false) →
  ∃ up s', clear_loop l t s = Done (up, s') ∧ mem_ok 0 s' pos ∧ same_root s s' ∧
    (if (up : bool) then tree_ok (clearing t i (top s)) s' pos ∧ ((1 ≤ top s)%nat → any_at s' pos t (top s) 0 = false) else tree_ok no_exempt s' pos) ∧
    ((1 ≤ m)%nat → same_items s pos s' pos) ∧ (m = 0%nat → (1 ≤ top s)%nat → set_tag s pos s' pos t i false).
Proof.
  induction l as [|[a o] l IH]; intros m i t s pos OK MO Hi Hpx Ht Hpath Hany; cbn [path_from] in Hpath.
  { exists true, s. split; [done|]. injection Hpath as ->. split_and!; try done; [intros ?; rewrite <- Hpx; by apply Hany|lia]. }
  destruct Hpath as (Hm & Ep & -> & Hpath). cbn [pred]. destruct (node_at OK _ _ _ Ep) as (k & Ek & Hk & _ & En). assert (Ho : is_off (px m i mod 64)) by apply mod64.
  cbn [clear_loop pred]. rewrite (run_bind _ _ _ _ _ (tag_get_run _ _ _ _ _ Ek Hk Ht)). destruct (tag_at k t (px m i mod 64)) eqn:Eb; cbn [negb].
  2:{ exists false, s. split; [done|]. split_and!; try done.
      - apply (weaken_ok (clearing t i m)); [done|]. intros t' lev p Ht' Hv [-> [= -> ->]] _. rewrite Hany by apply Hv. unfold par_tag.
        rewrite decide_False by lia. rewrite <- px_S, En. done.
      - intros -> _ j Hj. split; [done|]. intros t' Ht'. destruct (Z.eqb_spec t' t) as [->|]; [|done]. destruct (Z.eqb_spec j i) as [->|]; [|done]. cbn [andb].
        unfold tagged_at. destruct (Z.eqb_spec (r_height s) 0); [unfold top in *; lia|]. rewrite px_S, px_0 in En. rewrite En. by rewrite px_0 in Eb. }
  pose proof (retag_clear k t _ Hk Ht Ho) as Hre. rewrite (run_bind _ _ _ _ _ (tag_clear_run _ _ _ _ _ Ek Hk Ht)). set (k' := with_tag _ _ _) in *. set (s1 := upd_node a k' s).
  pose proof (clear_step s pos m i a k k' t OK Ep Ek Ht Hre Hany) as OK1. pose proof (retag_items _ s pos m i a k k' t false OK Hi Ep Ek Ht Hre) as Hit. fold s1 in OK1, Hit.
  assert (MO1 : mem_ok 0 s1 pos) by (by eapply mem_upd). pose proof Hre as (Hk' & _).
  assert (Hany1 : any_at s1 pos t (S m) (px (S m) i) = any_tag k' t).
  { unfold any_at, s1. by rewrite (node_of_upd _ s pos (S m) (px (S m) i) a k' _ _ OK Ep), decide_True. }
  rewrite (run_bind _ _ _ _ _ (any_tag_set_run a t k' s1 (upd_same _ _ _) Hk' Ht)). destruct (any_tag k' t) eqn:Ea.
  - exists false, s1. split; [done|]. split_and!; try done.
    + apply (weaken_ok (clearing t i (S m))); [done|]. intros t' lev p Ht' Hv [-> [= -> ->]] _. rewrite Hany1. unfold s1. rewrite (par_tag_upd _ s pos _ _ _ _ _ OK Ep).
      rewrite (ok_tags _ _ _ OK t (S m) _ Ht Hv) by (intros [_ [= ? _]]; lia). unfold any_at. rewrite En. apply any_tag_true; [done..|]. by exists (px m i mod 64).
    + intros Hm1. by destruct m; [lia|].
    + by intros -> _.
  - destruct (IH (S m) i t s1 pos) as (up & s2 & E2 & MO2 & (Hr1 & Hr2 & Hr3) & Hres & Hsame & _); try done.
    exists up, s2. split; [done|]. split_and!; try done.
    + intros Hm1. destruct m; [lia|]. eapply same_items_trans; [exact Hit|apply Hsame; lia].
    + intros -> _. eapply set_tag_same; [exact Hit|apply Hsame; lia].
Qed.

Lemma untagged s pos i t : tree_ok no_exempt s pos → is_tag t → item_at s pos i = 0 → tagged_at s pos t i = false.
Proof.
  intros OK Ht. unfold item_at, tagged_at. destruct (Z.eqb_spec (r_height s) 0) as [E0|E0].
  - destruct (Z.eqb_spec i 0) as [->|]; [|done]. intros Hz. destruct (ok_direct _ _ _ OK E0) as [[_ Hn]|(x & Hx & Hx0 & Hr)]; [by apply Hn|].
    by rewrite Hr, direct_to_direct in Hz.
  - destruct (node_of s pos 1 (i / 64)) as [k|] eqn:En; [|done]. intros Hz. destruct (node_of_inv OK _ _ _ En) as (a & _ & _ & Hk & _).
    apply not_true_iff_false. intros Et. by apply (nw_tagged k Hk t (i mod 64) Ht (mod64 i)) in Et.
Qed.
Lemma set_tag_refl s pos i t : tree_ok no_exempt s pos → is_tag t → item_at s pos i = 0 → set_tag s pos s pos t i false.
Proof.
  intros OK Ht Hz j Hj. split; [done|]. intros t' Ht'. destruct (Z.eqb_spec t' t) as [->|]; [|done]. destruct (Z.eqb_spec j i) as [->|]; [|done]. cbn [andb]. by apply untagged.
Qed.

Lemma unmark_root_run t s : is_tag t →
  ∃ g, (b ← root_tag_get t; if (b : bool) then root_tag_clear t else mret tt) s = Done (tt, with_gfp g s) ∧
    ∀ t', is_tag t' → root_tag (with_gfp g s) t' = negb (t' =? t) && root_tag s t'.
Proof.
  intros Ht. rewrite (run_bind _ _ _ _ _ (root_tag_get_run t s)). destruct (root_tag s t) eqn:Er.
  - eexists. split; [done|]. intros t' Ht'. by apply root_tag_root_clear.
  - exists (r_gfp s). split; [by destruct s|]. intros t' Ht'. change (root_tag (with_gfp (r_gfp s) s) t') with (root_tag s t').
    destruct (Z.eqb_spec t' t) as [->|]; done.
Qed.

Lemma tag_clear_ok s pos i t : good s pos → 0 ≤ i < 2 ^ 32 → is_tag t →
  ∃ r s', radix_tree_tag_clear i t s = Done (r, s') ∧ r = tag_result (r_height s) (item_at s pos i) ∧ good s' pos ∧
    r_height s' = r_height s ∧ set_tag s pos s' pos t i false.
Proof.
  intros [OK MO] Hi Ht. pose proof (ok_height _ _ _ OK) as Hb. unfold radix_tree_tag_clear.
  rewrite (run_bind _ _ s (r_height s) s eq_refl), (run_bind _ _ _ _ _ (maxindex_run _ s Hb)), (maxindex_ok OK i Hi).
  destruct (decide (px (top s) i = 0)) as [Hp|Hp].
  2:{ rewrite bool_decide_eq_false_2 by done. cbn [negb]. destruct (beyond_item OK i ltac:(lia) Hp) as [Hz _]. exists 0, s. rewrite Hz, tag_result_zero.
      split_and!; try done. by apply set_tag_refl. }
  rewrite bool_decide_eq_true_2 by done. cbn [negb]. rewrite (run_bind _ _ s (r_rnode s) s eq_refl). destruct (decide (r_height s = 0)) as [E0|E0].
  - assert (i = 0) as -> by (unfold top in Hp; by rewrite E0, px_0 in Hp).
    assert (El : path_loop (Z.to_nat (r_height s)) (top_shift (r_height s)) 0 (r_rnode s) [] s = Done ((r_rnode s, []), s)) by (by rewrite E0).
    rewrite (run_bind _ _ _ _ _ El). cbn beta iota. destruct (ok_direct _ _ _ OK E0) as [[Hr _]|(x & Hx & Hx0 & Hr)].
    { rewrite Hr. change (0 =? 0) with true. cbn iota. assert (Hz : item_at s pos 0 = 0) by (unfold item_at; by rewrite E0, Hr).
      exists 0, s. rewrite Hz, tag_result_zero. split_and!; try done. by apply set_tag_refl. }
    destruct (Z.eqb_spec (r_rnode s) 0) as [Hr0|_]; [rewrite Hr in Hr0; by destruct (direct_nonzero x)|].
    destruct (unmark_root_run t s Ht) as (g & Erun & Hrt). cbn [clear_loop]. rewrite (run_bind _ _ s true s eq_refl), (run_bind _ _ _ _ _ Erun).
    exists (r_rnode s), (with_gfp g s). split; [done|]. split_and!; [symmetry; by apply (tag_result_root s pos x)|split; [|by destruct MO]|done|].
    + assert (Hno : ∀ lev p, ¬ valid_pos s lev p) by (intros lev p ([? ?] & _); unfold top in *; lia). split; try apply OK.
      * intros t' lev p _ Hv. by destruct (Hno lev p).
      * intros _. right. by exists x.
    + intros j Hj. unfold item_at, tagged_at. change (r_height (with_gfp g s)) with (r_height s). rewrite E0. change (0 =? 0) with true. cbn iota. split; [done|].
      intros t' Ht'. destruct (Z.eqb_spec j 0) as [->|]; [|by rewrite andb_false_r]. cbn [andb]. rewrite andb_true_r, Hrt by done. by destruct (t' =? t).
  - assert (Htop : (1 ≤ top s)%nat) by (unfold top; lia).
    destruct (path_loop_ok (top s) (top_shift (r_height s)) i [] s pos) as (slot & path & El & Hslot & Hpath); try done.
    { intros m Hm. replace (r_height s) with (Z.of_nat (S m)) by (unfold top in Hm; lia). apply top_shift_S. unfold top in Hm. lia. }
    replace (down s pos (top s) i) with (r_rnode s) in El.
    2:{ rewrite (root_node OK E0). destruct (top s) as [|n] eqn:Et; [lia|]. cbn [down]. by rewrite Hp. }
    rewrite (run_bind _ _ _ _ _ El). cbn beta iota. subst slot. destruct (Z.eqb_spec (item_at s pos i) 0) as [Hz|Hz].
    { exists 0, s. rewrite Hz, tag_result_zero. split_and!; try done. by apply set_tag_refl. }
    destruct (clear_loop_ok path 0 i t s pos) as (up & s1 & E1 & MO1 & (Hh1 & Hg1 & Hr1) & Hres & _ & Hset); try done; [|lia|by apply Hpath|lia|].
    { apply (weaken_ok no_exempt); [done|]. intros ? ? ? ? ? []. }
    specialize (Hset eq_refl Htop). rewrite (run_bind _ _ _ _ _ E1). destruct up.
    + destruct Hres as [OK1 Hany]. destruct (unmark_root_run t s1 Ht) as (g & Erun & Hrt). rewrite (run_bind _ _ _ _ _ Erun).
      exists (item_at s pos i), (with_gfp g s1). split; [done|]. assert (Htop1 : top s1 = top s) by (unfold top; congruence).
      split_and!; [by rewrite tag_result_node|split; [|by destruct MO1]|done|].
      * apply (gfp_ok (clearing t i (top s))); [done|congruence| |].
        -- intros t' Ht' _. rewrite Hrt by done. rewrite Htop1. destruct (Z.eqb_spec t' t) as [->|Hne]; [by rewrite Hany|]. cbn [negb andb].
           pose proof (ok_tags _ _ _ OK1 t' (top s1) 0 Ht') as Hx. unfold par_tag in Hx. rewrite decide_True, Htop1 in Hx by done. apply Hx.
           ++ unfold valid_pos. rewrite Htop1. repeat split; lia.
           ++ intros [? _]. done.
        -- intros t' lev p _ Hlev _ Hl [-> [= -> ->]]. by rewrite Htop1 in Hl.
      * intros j Hj. destruct (Hset j Hj) as [E2 T2]. unfold item_at, tagged_at in *. change (r_height (with_gfp g s1)) with (r_height s1).
        rewrite Hh1 in *. destruct (Z.eqb_spec (r_height s) 0); done.
    + exists (item_at s pos i), s1. split; [done|]. split_and!; try done. by rewrite tag_result_node.
Qed.

End Tags.
