(* ===== verification/RadixTreeDelete.v ===== *)
(** Deletion from radix trees: [radix_tree_delete] keeps the invariant of
    [RadixTreeInv], frees the nodes that become empty and takes away levels that
    are not needed. *)

From S2P Require Import Prelude Kit FindBit RadixTree RadixTreeInv RadixTreeOps RadixTreeRefine RadixTreeTags.

Section Delete.
Context {A : Type} `{KitMemory A}.
Abbreviation rtst := (rtst (A := A)).
Abbreviation posmap := (gmap (nat * Z) Z).
Implicit Types (s : rtst) (pos : posmap).

(** ** Shrinking *)

Lemma freed_run a k s : nodes s !! a = Some k → radix_tree_node_free a s = Done (tt, freed a s).
Proof. intros E. unfold radix_tree_node_free. by rewrite (run_bind _ _ _ _ _ (load_node_run _ _ _ E)). Qed.

(** One level is taken away; the old root is cleared and freed. *)
Definition shrink_once (to_free newptr h : Z) : M rtst unit :=
  modify (with_rnode (if h =? 1 then radix_tree_ptr_to_direct newptr else newptr)) ;;
  modify (with_height (u32 (h - 1))) ;;
  tag_clear to_free 0 0 ;;
  tag_clear to_free 1 0 ;;
  store_slot to_free 0 0 ;;
  set_count to_free (λ _, 0) ;;
  radix_tree_node_free to_free.

Lemma shrink_once_run s a k h : nodes s !! a = Some k → node_wf k → 1 ≤ h ≤ 6 →
  ∃ s', shrink_once a (slot_at k 0) h s = Done (tt, s') ∧ nodes s' = delete a (nodes s) ∧ r_height s' = h - 1 ∧ r_gfp s' = r_gfp s ∧
    r_rnode s' = (if h =? 1 then radix_tree_ptr_to_direct (slot_at k 0) else slot_at k 0) ∧
    preloads s' = preloads s ∧ rcu_queue s' = rcu_queue s ++ [a] ∧ mem s' = mem s.
Proof.
  intros Ek Hk Hh. unfold shrink_once. assert (Ht0 : is_tag 0) by (unfold is_tag; lia). assert (Ht1 : is_tag 1) by (unfold is_tag; lia).
  assert (Ho : is_off 0) by (unfold is_off; lia).
  set (s1 := with_height (u32 (h - 1)) (with_rnode (if h =? 1 then radix_tree_ptr_to_direct (slot_at k 0) else slot_at k 0) s)).
  set (k1 := with_tag 0 (__clear_bit 0 (words_of k 0)) k). pose proof (node_wf_clear k 0 0 Hk Ht0 Ho) as Hk1. fold k1 in Hk1.
  pose proof (node_wf_clear k1 1 0 Hk1 Ht1 Ho) as Hk2.
  rewrite (run_bind _ _ s tt _ eq_refl), (run_bind _ _ _ tt s1 eq_refl).
  rewrite (run_bind _ _ _ _ _ (tag_clear_run a 0 0 k s1 Ek Hk Ht0)), (run_bind _ _ _ _ _ (tag_clear_run a 1 0 _ _ (upd_same _ _ _) Hk1 Ht1)), upd_upd.
  rewrite (run_bind _ _ _ _ _ (store_slot_run a 0 0 _ _ (upd_same _ _ _) Hk2 Ho)), upd_upd.
  rewrite (run_bind _ _ _ _ _ (set_count_run a _ _ _ (upd_same _ _ _))), upd_upd.
  rewrite (freed_run _ _ _ (upd_same _ _ _)). eexists. split; [reflexivity|]. cbn. rewrite delete_insert_eq, u32_small by lia. done.
Qed.

Lemma shrink_loop_ok fuel : ∀ s pos, good s pos → (r_height s ≠ 0 → r_rnode s ≠ 0) → r_height s ≤ Z.of_nat fuel →
  ∃ s' pos', shrink_loop fuel s = Done (tt, s') ∧ good s' pos' ∧ same_items s pos s' pos'.
Proof.
  induction fuel as [|fuel IH]; intros s pos Hgood Hr Hf; pose proof Hgood as [OK MO]; pose proof (ok_height _ _ _ OK) as Hb;
    cbn [shrink_loop]; rewrite (run_bind _ _ s (r_height s) s eq_refl);
    (destruct (Z.eqb_spec (r_height s) 0) as [E0|E0]; [by exists s, pos|]); [lia|].
  rewrite (run_bind _ _ s (r_rnode s) s eq_refl). pose proof (root_some OK E0 (Hr E0)) as Ep. destruct (node_at OK _ _ _ Ep) as (k & Ek & Hk & _).
  rewrite (run_bind _ _ _ _ _ (load_node_run _ _ _ Ek)). destruct (Z.eqb_spec (rn_count k) 1) as [Hc|Hc]; cbn [negb]; [|by exists s, pos].
  assert (El : load_slot (r_rnode s) 0 s = Done (slot_at k 0, s)).
  { unfold load_slot. rewrite (run_bind _ _ _ _ _ (load_node_run _ _ _ Ek)). by rewrite slots_lookup by (done || (unfold is_off; lia)). }
  rewrite (run_bind _ _ _ _ _ El). destruct (Z.eqb_spec (slot_at k 0) 0) as [Hz|Hz]; [by exists s, pos|].
  destruct (shrink_once_run s (r_rnode s) k (r_height s)) as (s1 & E1 & Hn1 & Hh1 & Hg1 & Hr1 & Hp1 & Hq1 & Hm1); [done|done|lia|].
  assert (Hcont : ∃ s' pos', (shrink_once (r_rnode s) (slot_at k 0) (r_height s) ;; shrink_loop fuel) s = Done (tt, s') ∧ good s' pos' ∧ same_items s pos s' pos').
  2:{ destruct Hcont as (s' & pos' & E & ?). exists s', pos'. split; [|done]. rewrite <- E. unfold shrink_once. run_simpl. destruct (tag_clear _ _ _ _) as [[? ?]|]; [|done].
      destruct (tag_clear _ _ _ _) as [[? ?]|]; [|done]. destruct (store_slot _ _ _ _) as [[? ?]|]; [|done]. by destruct (set_count _ _ _) as [[? ?]|]. }
  rewrite (run_bind _ _ _ _ _ E1). set (pos1 := delete (top s, 0) pos).
  assert (Hn' : ∀ b, b ≠ r_rnode s → nodes s1 !! b = nodes s !! b) by (intros b Hne; by rewrite Hn1, lookup_delete_ne).
  pose proof (shrink_ok s pos OK (r_rnode s) k E0 eq_refl (Hr E0) Ek Hc Hz s1 Hh1 Hg1 Hr1 Hn') as OK1. fold pos1 in OK1.
  pose proof (shrink_items s pos OK (r_rnode s) k E0 eq_refl (Hr E0) Ek Hc Hz s1 Hh1 Hg1 Hr1 Hn') as Hsame. fold pos1 in Hsame.
  assert (MO1 : mem_ok 0 s1 pos1).
  { assert (Ha : ∀ p, pos1 !! p ≠ Some (r_rnode s)).
    { intros p [Hne Ep']%lookup_delete_Some. by apply Hne, (ok_inj _ _ _ OK _ _ _ Ep Ep'). }
    assert (MOx : mem_ok (r_rnode s) s pos1).
    { eapply mem_change; [exact MO|done..| |done|].
      - intros a Hpre. destruct (mo_pre _ _ _ MO a Hpre) as (Ea & Hap & _). split_and!; [done| |by intros ->; apply (Hap _ Ep)].
        intros p [_ Ep']%lookup_delete_Some. by apply (Hap p).
      - intros a ka Ea [[p Hp]|E]; [|destruct (mo_live _ _ _ MO a ka Ea) as (l & El' & _); subst; by destruct (addr_ok l)].
        destruct (decide (p = (top s, 0))) as [->|]; [right; left; congruence|left; exists p; unfold pos1; by rewrite lookup_delete_ne]. }
    assert (MOf : mem_ok 0 (freed (r_rnode s) s) pos1).
    { apply (mem_free (r_rnode s) s pos1 (r_rnode s) k); try done; [by left|]. intros Hpre. by destruct (mo_pre _ _ _ MOx _ Hpre) as (_ & _ & ?). }
    destruct MOf. by split; rewrite ?Hn1, ?Hp1, ?Hq1, ?Hm1. }
  destruct (IH s1 pos1) as (s2 & pos2 & E2 & Hgood2 & Hsame2); [by split| |lia|].
  { intros _. rewrite Hr1. destruct (r_height s =? 1); [apply direct_nonzero|done]. }
  exists s2, pos2. split; [exact E2|]. split; [done|]. by eapply same_items_trans.
Qed.

(** ** The way up *)

Lemma path_from_change pos pos' tp i lev l : (∀ lev', (lev ≤ lev')%nat → pos' !! (lev', px lev' i) = pos !! (lev', px lev' i)) →
  path_from pos tp i lev l → path_from pos' tp i lev l.
Proof.
  revert lev. induction l as [|[a o] l IH]; intros lev Hsame; cbn [path_from]; [done|]. intros (? & Ep & ? & Hl). split_and!; try done.
  - by rewrite Hsame.
  - apply IH; [|done]. intros lev' Hl'. apply Hsame. lia.
Qed.

(** A child without items is taken out of its parent and freed. *)
Lemma unlink_ok s pos n i a k c kc : good s pos → 0 ≤ i → (1 ≤ n)%nat → pos !! (S n, px (S n) i) = Some a → nodes s !! a = Some k →
  pos !! (n, px n i) = Some c → nodes s !! c = Some kc → bare kc →
  ∃ s', (store_slot a (px n i mod 64) 0 ;; set_count a (λ x, x - 1) ;; free_if c) s = Done (tt, s') ∧
    good s' (delete (n, px n i) pos) ∧ same_items s pos s' (delete (n, px n i) pos) ∧ same_root s s'.
Proof.
  intros [OK MO] Hi Hn Ep Ek Eq Ec Hbare. destruct (node_at OK _ _ _ Ep) as (k0 & Ek0 & Hk & _ & En). simplify_eq.
  destruct (node_at OK _ _ _ Eq) as (kc0 & Ec0 & Hkc & _ & Enc). simplify_eq. destruct (ok_pos _ _ _ OK _ _ _ Eq) as (Hvq & Hc0 & _).
  assert (Ho : is_off (px n i mod 64)) by apply mod64. assert (Ekid : kid (px (S n) i) (px n i mod 64) = px n i) by apply px_split.
  assert (Hslot : slot_at k (px n i mod 64) = c) by (rewrite (child_slot OK _ _ _ _ _ Ep Ek Hn Ho), px_split, Eq; done).
  assert (Hac : a ≠ c) by (intros ->; pose proof (ok_inj _ _ _ OK _ _ _ Ep Eq) as [= ? _]; lia).
  destruct (relink_ok no_exempt s pos OK n (px (S n) i) (px n i mod 64) a k Hn Ho Ep Ek None) as [OK1 Hsame1].
  - rewrite Ekid, Enc. by intros k0 [= <-].
  - intros t Ht. rewrite (child_tag OK t _ _ _ _ _ Ep Ek Hn Ho Ht) by intros []. rewrite px_split. unfold any_at. rewrite Enc. by apply bare_any.
  - done.
  - rewrite Ekid in *. change (partial_alter (λ _, None) (n, px n i) pos) with (delete (n, px n i) pos) in *.
    rewrite (run_bind _ _ _ _ _ (store_slot_run _ _ _ _ _ Ek Hk Ho)), (run_bind _ _ _ _ _ (set_count_run _ _ _ _ (upd_same _ _ _))), upd_upd.
    unfold relink_node in OK1, Hsame1. rewrite Hslot in OK1, Hsame1. cbn [default] in OK1, Hsame1. change (0 =? 0) with true in OK1, Hsame1. cbn iota in OK1, Hsame1.
    destruct (Z.eqb_spec c 0) as [|_]; [done|]. rewrite Z.add_0_r in OK1, Hsame1. cbn [rn_count with_slot].
    assert (0 < rn_count k). { rewrite (nw_count k Hk). eapply nz_pos; [by apply slots_lookup|congruence]. }
    pose proof (node_count_bound k Hk). rewrite u32_small by lia. set (s1 := upd_node a _ s) in *.
    assert (Ec1 : nodes s1 !! c = Some kc) by (cbn; by rewrite lookup_insert_ne).
    unfold free_if. destruct (Z.eqb_spec c 0) as [|_]; [done|]. rewrite (freed_run _ _ _ Ec1). exists (freed c s1). split; [done|].
    assert (Hcq : ∀ p, delete (n, px n i) pos !! p ≠ Some c) by (intros p [Hne Ep']%lookup_delete_Some; by apply Hne, (ok_inj _ _ _ OK _ _ _ Eq Ep')).
    destruct (frame_ok no_exempt s1 (freed c s1) _ OK1) as [OK2 Hsame2]; try done.
    { intros p b Eb. cbn. rewrite lookup_delete_ne; [done|]. intros <-. by apply (Hcq p). }
    split_and!; [split; [done|]|by eapply same_items_trans|done].
    apply (mem_free c s1 _ c kc); try done; [|by left|].
    + eapply mem_change; [exact MO|done..| | |].
      * intros b Hb. destruct (mo_pre _ _ _ MO b Hb) as (Eb & Hbp & _). cbn. rewrite lookup_insert_ne by (intros <-; by apply (Hbp _ Ep)).
        split_and!; [done| |by intros ->; apply (Hbp _ Eq)]. intros p [_ Ep']%lookup_delete_Some. by apply (Hbp p).
      * intros b. cbn. destruct (decide (b = a)) as [->|]; [by rewrite Ek|by rewrite lookup_insert_ne].
      * intros b kb Eb [[p Hp]|E]; [|destruct (mo_live _ _ _ MO b kb Eb) as (l & El' & _); subst; by destruct (addr_ok l)].
        destruct (decide (p = (n, px n i))) as [->|]; [right; left; congruence|left; exists p; by rewrite lookup_delete_ne].
    + intros Hpre. destruct (mo_pre _ _ _ MO c Hpre) as (_ & Hx & _). by apply (Hx _ Eq).
Qed.

(** The last node is freed: the tree is empty. *)
Lemma clear_all_ok s pos c kc : good s pos → r_height s ≠ 0 → pos !! (top s, 0) = Some c → nodes s !! c = Some kc → bare kc →
  ∃ s', (root_tag_clear_all ;; modify (with_height 0) ;; modify (with_rnode 0) ;; free_if c) s = Done (tt, s') ∧ good s' ∅ ∧ same_items s pos s' ∅.
Proof.
  intros [OK MO] Hh Ep Ec Hbare. destruct (ok_pos _ _ _ OK _ _ _ Ep) as (Hv & Hc0 & _). unfold root_tag_clear_all.
  set (s1 := with_rnode 0 (with_height 0 (with_gfp (Z.land (r_gfp s) __GFP_BITS_MASK) s))).
  rewrite (run_bind _ _ s tt _ eq_refl), (run_bind _ _ _ tt _ eq_refl), (run_bind _ _ _ tt s1 eq_refl). unfold free_if. destruct (Z.eqb_spec c 0) as [|_]; [done|].
  rewrite (freed_run c kc s1 Ec). exists (freed c s1). split; [done|].
  assert (Hrt : ∀ t, is_tag t → root_tag (freed c s1) t = false).
  { intros t Ht. rewrite root_tag_bit by done. cbn. rewrite Z.land_spec. replace (Z.testbit __GFP_BITS_MASK (t + 20)) with false; [apply andb_false_r|].
    unfold is_tag in Ht. assert (t = 0 ∨ t = 1) as [-> | ->] by lia; done. }
  assert (Hkids : ∀ p, p ≠ (top s, 0) → pos !! p = None).
  { intros [lev pre] Hne. destruct (pos !! (lev, pre)) as [b|] eqn:Eb; [|done]. exfalso.
    destruct (ok_pos _ _ _ OK _ _ _ Eb) as (([H1 H2] & H3 & Hz) & _). assert (Hlt : lev ≠ top s) by (intros ->; apply Hne; by rewrite Hz).
    set (i := pre * 64 ^ Z.of_nat lev). assert (Hi : 0 ≤ i) by (pose proof (pow64_pos lev); unfold i; lia).
    destruct (top s) as [|n] eqn:Et; [lia|]. assert (En : pos !! (lev, px lev i) = None); [|unfold i in En; rewrite px_mul in En; congruence].
    apply (none_below OK n); [lia..|]. destruct (decide (px (S n) i = 0)) as [Hpz|Hpz].
    - apply (pos_nonzero OK). rewrite <- px_split, Hpz. rewrite <- (child_slot OK _ _ _ _ _ Ep Ec) by (lia || apply mod64). apply Hbare, mod64.
    - apply (none_below OK (S n)); [lia..|]. destruct (pos !! (S n, px (S n) i)) as [d|] eqn:Ed; [|done].
      destruct (ok_pos _ _ _ OK _ _ _ Ed) as ((_ & _ & Hzz) & _). by rewrite Hzz in Hpz. }
  split; [split|].
  - apply empty_ok; [cbn; lia|done|done].
  - assert (MOx : mem_ok c s1 ∅).
    { eapply mem_change; [exact MO|done..| |done|].
      - intros a Hpre. destruct (mo_pre _ _ _ MO a Hpre) as (Ea & Hap & _). split_and!; [done|by intros p; rewrite lookup_empty|by intros ->; apply (Hap _ Ep)].
      - intros a ka Ea [[p Hp]|E]; [|destruct (mo_live _ _ _ MO a ka Ea) as (l & El' & _); subst; by destruct (addr_ok l)].
        right; left. destruct (decide (p = (top s, 0))) as [->|Hne]; [congruence|]. by rewrite Hkids in Hp. }
    apply (mem_free c s1 ∅ c kc); try done; [by left|]. intros Hpre. by destruct (mo_pre _ _ _ MOx _ Hpre) as (_ & _ & ?).
  - intros j Hj. destruct (empty_items (freed c s1) j eq_refl) as [E1 E2]. rewrite E1.
    assert (Hitem : item_at s pos j = 0).
    { unfold item_at. destruct (Z.eqb_spec (r_height s) 0); [done|]. destruct (node_of s pos 1 (j / 64)) as [k|] eqn:En; [|done].
      destruct (node_of_inv OK _ _ _ En) as (a & Ea & Eka & _). destruct (decide ((1%nat, j / 64) = (top s, 0))) as [E|E]; [|by rewrite Hkids in Ea].
      rewrite E, Ep in Ea. simplify_eq. apply Hbare, mod64. }
    split; [done|]. intros t Ht. rewrite E2 by done. symmetry. by apply untagged.
Qed.

Lemma seq3_run {X Y Z' W} (m1 : M rtst X) (m2 : M rtst Y) (m3 : M rtst Z') (r : M rtst W) s x s' :
  (m1 ;; m2 ;; m3) s = Done (x, s') → (m1 ;; m2 ;; m3 ;; r) s = r s'.
Proof.
  unfold mbind, M_bind. destruct (m1 s) as [[? s1]|]; [|done]. destruct (m2 s1) as [[? s2]|]; [|done]. by intros ->.
Qed.

(** A node has lost a slot: it is freed, too, or the tree may shrink. *)
Definition delete_next (node : Z) (path : list (Z * Z)) : M rtst unit :=
  k ← load_node node;
  if negb (rn_count k =? 0) then rn ← gets r_rnode; if node =? rn then radix_tree_shrink else mret tt
  else delete_loop path node.

Lemma shrink_if_ok s pos node : good s pos → node ≠ 0 →
  ∃ s' pos', (rn ← gets r_rnode; if node =? rn then radix_tree_shrink else mret tt) s = Done (tt, s') ∧ good s' pos' ∧ same_items s pos s' pos'.
Proof.
  intros Hgood Hn. rewrite (run_bind _ _ s (r_rnode s) s eq_refl). destruct (Z.eqb_spec node (r_rnode s)) as [E|]; [|by exists s, pos].
  apply shrink_loop_ok; [done|congruence|]. pose proof (ok_height _ _ _ (proj1 Hgood)). unfold RADIX_TREE_MAX_PATH. lia.
Qed.

Lemma delete_up l : ∀ m i c kc s pos, good s pos → 0 ≤ i → px (top s) i = 0 → (1 ≤ m)%nat → path_from pos (top s) i (S m) l →
  pos !! (m, px m i) = Some c → nodes s !! c = Some kc → bare kc →
  ∃ s' pos', delete_loop l c s = Done (tt, s') ∧ good s' pos' ∧ same_items s pos s' pos'.
Proof.
  induction l as [|[a o] l IH]; intros m i c kc s pos Hgood Hi Hpx Hm Hpath Ec Ek Hbare; cbn [path_from delete_loop] in *.
  - injection Hpath as ->. rewrite Hpx in Ec. destruct (clear_all_ok s pos c kc) as (s' & E & Hgood' & Hsame); try done; [unfold top in *; lia|].
    by exists s', ∅.
  - destruct Hpath as (Htop & Ep & -> & Hpath). cbn [pred]. destruct (node_at (proj1 Hgood) _ _ _ Ep) as (k & Eka & _).
    destruct (unlink_ok s pos m i a k c kc) as (s1 & E1 & Hgood1 & Hsame1 & (Hh1 & _)); try done.
    rewrite (seq3_run _ _ _ _ _ _ _ E1). fold (delete_next a l). set (pos1 := delete (m, px m i) pos) in *.
    assert (Htop1 : top s1 = top s) by (unfold top; congruence).
    assert (Ep1 : pos1 !! (S m, px (S m) i) = Some a) by (unfold pos1; rewrite lookup_delete_ne; [done|intros [= ? _]; lia]).
    destruct (node_at (proj1 Hgood1) _ _ _ Ep1) as (k1 & Ek1 & Hk1 & _). destruct (ok_pos _ _ _ (proj1 Hgood1) _ _ _ Ep1) as (_ & Ha0 & _).
    unfold delete_next. rewrite (run_bind _ _ _ _ _ (load_node_run _ _ _ Ek1)). destruct (Z.eqb_spec (rn_count k1) 0) as [Hc|Hc]; cbn [negb].
    + destruct (IH (S m) i a k1 s1 pos1) as (s2 & pos2 & E2 & Hgood2 & Hsame2); try done; [by rewrite Htop1|lia| |by apply bare_count|].
      * rewrite Htop1. eapply path_from_change; [|exact Hpath]. intros lev' Hl. unfold pos1. rewrite lookup_delete_ne; [done|]. intros [= ? _]. lia.
      * exists s2, pos2. split; [done|]. split; [done|]. by eapply same_items_trans.
    + destruct (shrink_if_ok s1 pos1 a Hgood1 Ha0) as (s2 & pos2 & E2 & Hgood2 & Hsame2). exists s2, pos2. split; [done|]. split; [done|]. by eapply same_items_trans.
Qed.

(** The item leaves its slot, and the nodes above that become empty go. *)
Lemma delete_leaf l i a s pos : good s pos → 0 ≤ i < 2 ^ 32 → px (top s) i = 0 → path_from pos (top s) i 2 l → (1 ≤ top s)%nat →
  pos !! (1%nat, px 1 i) = Some a → item_at s pos i ≠ 0 → (∀ t, is_tag t → tagged_at s pos t i = false) →
  ∃ s' pos', delete_loop ((a, px 0 i mod 64) :: l) 0 s = Done (tt, s') ∧ good s' pos' ∧ set_item s pos s' pos' i 0.
Proof.
  intros Hgood Hi Hpx Hpath Htop Ep Hitem Hnt. pose proof Hgood as [OK MO]. destruct (node_at OK _ _ _ Ep) as (k & Ek & Hk & _ & En).
  assert (Ho : is_off (px 0 i mod 64)) by apply mod64. assert (E0 : r_height s ≠ 0) by (unfold top in *; lia).
  rewrite px_S, px_0 in En. unfold item_at in Hitem. unfold tagged_at in Hnt. destruct (Z.eqb_spec (r_height s) 0) as [|_]; [done|]. rewrite En in Hitem. setoid_rewrite En in Hnt.
  destruct (leaf_ok s pos (px 1 i) a k (px 0 i mod 64) 0) as [Hgood1 Hset]; try done; [by rewrite px_0|]. rewrite kid_px in Hset.
  cbn [delete_loop]. rewrite (run_bind _ _ _ _ _ (store_slot_run _ _ _ _ _ Ek Hk Ho)), (run_bind _ _ _ _ _ (set_count_run _ _ _ _ (upd_same _ _ _))), upd_upd.
  change (free_if 0) with (mret tt : M rtst unit). rewrite (run_bind (mret tt) _ _ tt _ eq_refl). cbn [rn_count with_slot].
  assert (Hs : slot_at k (px 0 i mod 64) ≠ 0) by (by rewrite px_0).
  destruct (Z.eqb_spec (slot_at k (px 0 i mod 64)) 0) as [|_]; [done|]. change (0 =? 0) with true in Hgood1, Hset. cbn iota in Hgood1, Hset. rewrite Z.add_0_r in Hgood1, Hset.
  assert (0 < rn_count k) by (rewrite (nw_count k Hk); eapply nz_pos; [by apply slots_lookup|done]). pose proof (node_count_bound k Hk). rewrite u32_small by lia.
  set (k1 := with_count _ _) in *. set (s1 := upd_node a k1 s) in *. fold (delete_next a l).
  destruct (node_at (proj1 Hgood1) _ _ _ Ep) as (k1' & Ek1 & Hk1 & _). unfold s1 in Ek1. rewrite upd_same in Ek1. injection Ek1 as <-.
  unfold delete_next. rewrite (run_bind _ _ _ _ _ (load_node_run a k1 s1 (upd_same _ _ _))).
  assert (Hcomp : ∀ s2 pos2, same_items s1 pos s2 pos2 → set_item s pos s2 pos2 i 0).
  { intros s2 pos2 Hsame j Hj. destruct (Hset j Hj) as [E1 T1], (Hsame j Hj) as [E2 T2]. split; [congruence|]. intros t Ht. by rewrite T2, T1. }
  destruct (Z.eqb_spec (rn_count k1) 0) as [Hc|Hc]; cbn [negb].
  - destruct (delete_up l 1 i a k1 s1 pos) as (s2 & pos2 & E2 & Hgood2 & Hsame2); try done; [lia|apply upd_same|by apply bare_count|].
    exists s2, pos2. split; [done|]. split; [done|]. by apply Hcomp.
  - destruct (ok_pos _ _ _ OK _ _ _ Ep) as (_ & Ha0 & _). destruct (shrink_if_ok s1 pos a Hgood1 Ha0) as (s2 & pos2 & E2 & Hgood2 & Hsame2).
    exists s2, pos2. split; [done|]. split; [done|]. by apply Hcomp.
Qed.

(** ** radix_tree_delete *)

(** The tags of the item at [i] with numbers from [lo] on are cleared. *)
Lemma delete_tags_ok n : ∀ lo i a s pos, good s pos → 0 ≤ i < 2 ^ 32 → r_height s ≠ 0 → pos !! (1%nat, px 1 i) = Some a → 0 ≤ lo → lo + Z.of_nat n ≤ 2 →
  ∃ s', delete_tags n lo i a (px 0 i mod 64) s = Done (tt, s') ∧ good s' pos ∧ r_height s' = r_height s ∧
    ∀ j, 0 ≤ j < 2 ^ 32 → item_at s' pos j = item_at s pos j ∧
      ∀ t, is_tag t → tagged_at s' pos t j = if (lo <=? t) && (t <? lo + Z.of_nat n) && (j =? i) then false else tagged_at s pos t j.
Proof.
  induction n as [|n IH]; intros lo i a s pos Hgood Hi E0 Ep Hlo Hn; cbn [delete_tags].
  - exists s. split; [done|]. split_and!; try done. intros j Hj. split; [done|]. intros t Ht.
    destruct (Z.leb_spec lo t), (Z.ltb_spec t (lo + Z.of_nat 0)); cbn [andb]; try done. lia.
  - assert (Ht : is_tag lo) by (unfold is_tag; lia). destruct (node_at (proj1 Hgood) _ _ _ Ep) as (k & Ek & Hk & _ & En).
    rewrite (run_bind _ _ _ _ _ (tag_get_run _ _ _ _ _ Ek Hk Ht)).
    assert (Htag : tagged_at s pos lo i = tag_at k lo (px 0 i mod 64)).
    { unfold tagged_at. destruct (Z.eqb_spec (r_height s) 0); [done|]. rewrite px_S, px_0 in En. by rewrite En, px_0. }
    assert (Hstep : ∃ s1, (if tag_at k lo (px 0 i mod 64) then radix_tree_tag_clear i lo ;; mret tt else mret tt) s = Done (tt, s1) ∧ good s1 pos ∧ r_height s1 = r_height s ∧ set_tag s pos s1 pos lo i false).
    { destruct (tag_at k lo (px 0 i mod 64)).
      - destruct (tag_clear_ok s pos i lo Hgood Hi Ht) as (r & s1 & E1 & _ & Hgood1 & Hh1 & Hset). exists s1. by rewrite (run_bind _ _ _ _ _ E1).
      - exists s. split_and!; try done. intros j Hj. split; [done|]. intros t' Ht'. destruct (Z.eqb_spec t' lo) as [->|]; [|done]. by destruct (Z.eqb_spec j i) as [->|]. }
    destruct Hstep as (s1 & E1 & Hgood1 & Hh1 & Hset). rewrite (run_bind _ _ _ _ _ E1).
    destruct (IH (lo + 1) i a s1 pos) as (s2 & E2 & Hgood2 & Hh2 & Hres); try done; [congruence|lia..|]. exists s2. split; [done|]. split_and!; try done; [congruence|].
    intros j Hj. destruct (Hset j Hj) as [Ei Ti], (Hres j Hj) as [Ej Tj]. split; [congruence|]. intros t Ht'. rewrite Tj, Ti by done.
    destruct (Z.eqb_spec j i); [|by rewrite !andb_false_r]. rewrite !andb_true_r.
    destruct (Z.leb_spec (lo + 1) t), (Z.ltb_spec t (lo + 1 + Z.of_nat n)), (Z.eqb_spec t lo), (Z.leb_spec lo t), (Z.ltb_spec t (lo + Z.of_nat (S n))); cbn [andb]; try done; lia.
Qed.

Definition del_item s pos s' pos' (i : Z) : Prop := ∀ j, 0 ≤ j < 2 ^ 32 →
  item_at s' pos' j = (if j =? i then 0 else item_at s pos j) ∧ ∀ t, is_tag t → tagged_at s' pos' t j = if j =? i then false else tagged_at s pos t j.

Lemma del_item_refl s pos i : good s pos → item_at s pos i = 0 → del_item s pos s pos i.
Proof.
  intros [OK _] Hz j Hj. destruct (Z.eqb_spec j i) as [->|]; [|done]. split; [done|]. intros t Ht. by apply untagged.
Qed.

Lemma delete_ok s pos i : good s pos → 0 ≤ i < 2 ^ 32 →
  ∃ s' pos', radix_tree_delete i s = Done (item_at s pos i, s') ∧ good s' pos' ∧ del_item s pos s' pos' i.
Proof.
  intros Hgood Hi. pose proof Hgood as [OK MO]. pose proof (ok_height _ _ _ OK) as Hb. unfold radix_tree_delete.
  rewrite (run_bind _ _ s (r_height s) s eq_refl), (run_bind _ _ _ _ _ (maxindex_run _ s Hb)), (maxindex_ok OK i Hi).
  destruct (decide (px (top s) i = 0)) as [Hp|Hp].
  2:{ rewrite bool_decide_eq_false_2 by done. cbn [negb]. destruct (beyond_item OK i ltac:(lia) Hp) as [Hz _]. exists s, pos. rewrite Hz.
      split_and!; try done. by apply del_item_refl. }
  rewrite bool_decide_eq_true_2 by done. cbn [negb]. rewrite (run_bind _ _ s (r_rnode s) s eq_refl). destruct (decide (r_height s = 0)) as [E0|E0].
  - assert (i = 0) as -> by (unfold top in Hp; by rewrite E0, px_0 in Hp). rewrite E0. change (0 =? 0) with true. cbn [andb].
    destruct (Z.eqb_spec (r_rnode s) 0) as [Hr|Hr]; cbn [negb].
    { rewrite Hr. assert (Hz : item_at s pos 0 = 0) by (unfold item_at; by rewrite E0, Hr). rewrite Hz. exists s, pos. split_and!; try done. by apply del_item_refl. }
    assert (Hitem : item_at s pos 0 = radix_tree_direct_to_ptr (r_rnode s)) by (unfold item_at; by rewrite E0). rewrite Hitem.
    set (s1 := with_rnode 0 (with_gfp (Z.land (r_gfp s) __GFP_BITS_MASK) s)). exists s1, ∅. split; [done|].
    assert (Hrt : ∀ t, is_tag t → root_tag s1 t = false).
    { intros t Ht. rewrite root_tag_bit by done. cbn. rewrite Z.land_spec. replace (Z.testbit __GFP_BITS_MASK (t + 20)) with false; [apply andb_false_r|].
      destruct (tag_cases t Ht) as [-> | ->]; done. }
    assert (Hpos : pos = ∅).
    { apply map_eq. intros [lev p]. rewrite lookup_empty. destruct (pos !! (lev, p)) eqn:Ep; [|done]. destruct (ok_pos _ _ _ OK _ _ _ Ep) as (([? ?] & _) & _). unfold top in *. lia. }
    subst pos. split; [split; [apply empty_ok; [done|done|done]|by destruct MO]|]. intros j Hj.
    destruct (empty_items s1 j eq_refl) as [E1 E2]. rewrite E1. unfold item_at, tagged_at. rewrite E0. change (0 =? 0) with true. cbn iota.
    split; [by destruct (j =? 0)|]. intros t Ht. change (r_height s1) with (r_height s). rewrite E0. change (0 =? 0) with true. cbn iota. rewrite Hrt by done. rewrite andb_false_r.
    by destruct (j =? 0).
  - destruct (Z.eqb_spec (r_height s) 0) as [|_]; [done|]. cbn [andb]. assert (Htop : (1 ≤ top s)%nat) by (unfold top; lia).
    destruct (path_loop_ok (top s) (top_shift (r_height s)) i [] s pos) as (slot & path & El & Hslot & Hpath); try done.
    { intros m Hm. replace (r_height s) with (Z.of_nat (S m)) by (unfold top in Hm; lia). apply top_shift_S. unfold top in Hm. lia. }
    replace (down s pos (top s) i) with (r_rnode s) in El.
    2:{ rewrite (root_node OK E0). destruct (top s) as [|n] eqn:Et; [lia|]. cbn [down]. by rewrite Hp. }
    rewrite (run_bind _ _ _ _ _ El). cbn beta iota. subst slot. destruct (Z.eqb_spec (item_at s pos i) 0) as [Hz|Hz].
    { exists s, pos. rewrite Hz. split_and!; try done. by apply del_item_refl. }
    specialize (Hpath Hz). destruct path as [|[a o] path]; [cbn in Hpath; lia|]. cbn [path_from pred] in Hpath. destruct Hpath as (_ & Ep & -> & Hpath).
    destruct (delete_tags_ok (Z.to_nat RADIX_TREE_MAX_TAGS) 0 i a s pos) as (s1 & E1 & Hgood1 & Hh1 & Hres); try done.
    assert (Htop1 : top s1 = top s) by (unfold top; congruence). destruct (Hres i Hi) as [Ei Ti].
    destruct (delete_leaf path i a s1 pos) as (s2 & pos2 & E2 & Hgood2 & Hset); try done; [by rewrite Htop1|by rewrite Htop1|lia|congruence| |].
    { intros t Ht. rewrite Ti, Z.eqb_refl by done. unfold is_tag in Ht. change (0 + Z.of_nat (Z.to_nat RADIX_TREE_MAX_TAGS)) with 2.
      destruct (Z.leb_spec 0 t), (Z.ltb_spec t 2); cbn [andb]; try done; lia. }
    rewrite (run_bind _ _ _ _ _ E1), (run_bind _ _ _ _ _ E2). exists s2, pos2. split; [done|]. split; [done|]. intros j Hj.
    destruct (Hset j Hj) as [Ej Tj], (Hres j Hj) as [Ej' Tj']. split; [by rewrite Ej, Ej'|]. intros t Ht. rewrite Tj, Tj' by done. unfold is_tag in Ht.
    change (0 + Z.of_nat (Z.to_nat RADIX_TREE_MAX_TAGS)) with 2. destruct (Z.leb_spec 0 t), (Z.ltb_spec t 2); cbn [andb]; try lia. done.
Qed.

End Delete.
