(* ===== verification/RadixTreeGang.v ===== *)
(** Gang lookups of radix trees: [radix_tree_gang_lookup] and
    [radix_tree_gang_lookup_tag] return the first items, or the first items with
    a tag, in the order of their indices. *)

From S2P Require Import Prelude Kit FindBit RadixTree RadixTreeInv RadixTreeOps RadixTreeRefine RadixTreeTags.

(** ** Values in a range of indices *)

(** The values of [f] other than 0 at [n] indices from [j] on. *)
Fixpoint pick (f : Z → Z) (n : nat) (j : Z) : list Z :=
  match n with O => [] | S n => if f j =? 0 then pick f n (j + 1) else f j :: pick f n (j + 1) end.
(** The indices from [lo] up to [hi]. *)
Definition upto (f : Z → Z) (lo hi : Z) : list Z := pick f (Z.to_nat (hi - lo)) lo.

Lemma pick_app f n m j : pick f (n + m) j = pick f n j ++ pick f m (j + Z.of_nat n).
Proof.
  revert j. induction n as [|n IH]; intros j; cbn [pick Nat.add app]; [by rewrite Z.add_0_r|].
  rewrite IH. replace (j + 1 + Z.of_nat n) with (j + Z.of_nat (S n)) by lia. by destruct (f j =? 0).
Qed.
Lemma pick_zero f n j : (∀ k, j ≤ k < j + Z.of_nat n → f k = 0) → pick f n j = [].
Proof.
  revert j. induction n as [|n IH]; intros j Hz; cbn [pick]; [done|]. rewrite (Hz j) by lia. change (0 =? 0) with true. cbn iota.
  apply IH. intros k Hk. apply Hz. lia.
Qed.
Lemma pick_ext f g n j : (∀ k, j ≤ k < j + Z.of_nat n → f k = g k) → pick f n j = pick g n j.
Proof.
  revert j. induction n as [|n IH]; intros j He; cbn [pick]; [done|]. rewrite (He j) by lia. rewrite IH; [done|]. intros k Hk. apply He. lia.
Qed.
Lemma upto_split f lo mid hi : lo ≤ mid ≤ hi → upto f lo hi = upto f lo mid ++ upto f mid hi.
Proof.
  intros Hm. unfold upto. replace (Z.to_nat (hi - lo)) with (Z.to_nat (mid - lo) + Z.to_nat (hi - mid))%nat by lia. rewrite pick_app. do 2 f_equal. lia.
Qed.
Lemma upto_zero f lo hi : (∀ k, lo ≤ k < hi → f k = 0) → upto f lo hi = [].
Proof. intros Hz. apply pick_zero. intros k Hk. apply Hz. lia. Qed.
Lemma upto_one f lo : upto f lo (lo + 1) = if f lo =? 0 then [] else [f lo].
Proof. unfold upto. replace (lo + 1 - lo) with 1 by lia. done. Qed.

Section Gang.
Context {A : Type} `{KitMemory A}.
Abbreviation rtst := (rtst (A := A)).
Abbreviation posmap := (gmap (nat * Z) Z).
Implicit Types (s : rtst) (pos : posmap).

(** ** One node *)

Lemma u32_next e : 0 ≤ e ≤ 2 ^ 32 → u32 e = if e =? 2 ^ 32 then 0 else e.
Proof. intros He. destruct (Z.eqb_spec e (2 ^ 32)) as [->|]; [done|]. apply u32_small. lia. Qed.
Lemma u32_u32_add a b : u32 (u32 a + b) = u32 (a + b).
Proof. unfold u32, wrap. apply Zplus_mod_idemp_l. Qed.

(** The bottom level: the items found and the index after the last slot read. *)
Lemma grab_ok s (p : Z → M rtst Z) f n : ∀ i index max, (∀ o, i ≤ o ≤ i + Z.of_nat n → p o s = Done (f (index + (o - i)), s)) → 1 ≤ max →
  0 ≤ index → index + Z.of_nat n < 2 ^ 32 →
  ∃ e, grab (S n) p i index max s = Done ((upto f index e, u32 e), s) ∧ index < e ≤ index + Z.of_nat (S n) ∧ Z.of_nat (length (upto f index e)) ≤ max.
Proof.
  induction n as [|n IH]; intros i index max Hp Hmax Hi Hn; cbn [grab].
  - rewrite (run_bind _ _ _ _ _ (Hp i ltac:(lia))), Z.sub_diag, Z.add_0_r. exists (index + 1). rewrite upto_one.
    destruct (Z.eqb_spec (f index) 0); [split; [done|cbn; lia]|]. destruct (Z.eqb_spec max 1); (split; [done|cbn; lia]).
  - rewrite (run_bind _ _ _ _ _ (Hp i ltac:(lia))), Z.sub_diag, Z.add_0_r, (u32_small (index + 1)) by lia.
    assert (Hp' : ∀ o, i + 1 ≤ o ≤ i + 1 + Z.of_nat n → p o s = Done (f (index + 1 + (o - (i + 1))), s)).
    { intros o Ho. rewrite Hp by lia. do 3 f_equal. lia. }
    assert (Hcons : ∀ e, index + 1 < e → upto f index e = (if f index =? 0 then [] else [f index]) ++ upto f (index + 1) e) by (intros e He; rewrite (upto_split f index (index + 1)) by lia; by rewrite upto_one).
    destruct (Z.eqb_spec (f index) 0) as [Ez|Ez].
    + destruct (IH (i + 1) (index + 1) max) as (e & E & He & Hl); [done|lia..|]. exists e. rewrite Hcons by lia. split; [exact E|]. split; [lia|done].
    + destruct (Z.eqb_spec max 1) as [->|].
      * exists (index + 1). rewrite upto_one. destruct (Z.eqb_spec (f index) 0); [done|]. rewrite u32_small by lia. split; [done|cbn; lia].
      * destruct (IH (i + 1) (index + 1) (max - 1)) as (e & E & He & Hl); [done|lia..|]. exists e. rewrite Hcons by lia.
        rewrite (run_bind _ _ _ _ _ E). split; [done|]. split; [lia|]. cbn [app length]. lia.
Qed.

Lemma clear_low index n : 0 ≤ index → Z.ldiff index (Z.shiftl 1 (6 * Z.of_nat n) - 1) = index / 64 ^ Z.of_nat n * 64 ^ Z.of_nat n.
Proof.
  intros Hi. rewrite Z.shiftl_1_l. replace (2 ^ (6 * Z.of_nat n) - 1) with (Z.ones (6 * Z.of_nat n)) by (rewrite Z.ones_equiv; lia).
  rewrite Z.ldiff_ones_r by lia. rewrite Z.shiftl_mul_pow2, Z.shiftr_div_pow2 by lia. by rewrite Z.pow_mul_r by lia.
Qed.
Lemma pow64_divides n : (n ≤ 5)%nat → ∃ c, 2 ^ 32 = c * 64 ^ Z.of_nat n.
Proof. intros Hn. exists (2 ^ (32 - 6 * Z.of_nat n)). change 64 with (2 ^ 6). rewrite <- Z.pow_mul_r, <- Z.pow_add_r by lia. f_equal. lia. Qed.

(** The next slot begins within the index range, or at its end. *)
Lemma next_slot index n : (n ≤ 5)%nat → 0 ≤ index < 2 ^ 32 → index < (index / 64 ^ Z.of_nat n + 1) * 64 ^ Z.of_nat n ≤ 2 ^ 32.
Proof.
  intros Hn Hi. pose proof (pow64_pos n) as Hd. set (D := 64 ^ Z.of_nat n) in *. pose proof (Z.div_mod index D ltac:(lia)). pose proof (Z.mod_pos_bound index D Hd).
  split; [lia|]. destruct (pow64_divides n Hn) as [c Hc]. fold D in Hc. assert (index / D < c) by (apply Z.div_lt_upper_bound; lia). nia.
Qed.

(** The scan of a node for the next slot in use. *)
Lemma scan_ok s (p : Z → M rtst bool) flag f n pre : (n ≤ 5)%nat → (∀ o, is_off o → p o s = Done (flag o, s)) →
  (∀ o j, is_off o → flag o = false → 0 ≤ j < 2 ^ 32 → px n j = 64 * pre + o → f j = 0) →
  ∀ fuel index i, 0 ≤ index < 2 ^ 32 → px n index = 64 * pre + i → is_off i → 63 - i ≤ Z.of_nat fuel →
  ∃ e r, scan_slots fuel p (6 * Z.of_nat n) index i s = Done ((u32 e, r), s) ∧ index ≤ e ≤ 2 ^ 32 ∧ (∀ j, index ≤ j < e → f j = 0) ∧
    match r with Some o => is_off o ∧ flag o = true ∧ e < 2 ^ 32 ∧ px n e = 64 * pre + o | None => index < e end.
Proof.
  intros Hn Hp Hz. pose proof (pow64_pos n) as Hd. induction fuel as [|fuel IH]; intros index i Hi Hq Ho Hf; cbn [scan_slots];
    rewrite (run_bind _ _ _ _ _ (Hp i Ho)); (destruct (flag i) eqn:Eb; [exists index, (Some i); rewrite u32_small by lia; split_and!; try done; lia|]);
    rewrite clear_low by lia; rewrite Z.shiftl_1_l, Z.pow_mul_r by lia; change (2 ^ 6) with 64;
    pose proof (next_slot index n Hn Hi) as He; set (D := 64 ^ Z.of_nat n) in *; set (e := (index / D + 1) * D) in *;
    (replace (index / D * D + D) with e by (unfold e; lia)); rewrite (u32_next e) by lia;
    assert (Hzero : ∀ j, index ≤ j < e → f j = 0)
      by (intros j Hj; apply (Hz i); [done|done|lia|]; rewrite <- Hq; unfold px; fold D; symmetry;
          apply (Z.div_unique_pos j D (index / D) (j - index / D * D)); [pose proof (Z.div_mod index D ltac:(lia)); pose proof (Z.mod_pos_bound index D Hd); unfold e in Hj; lia|lia]).
  all: destruct (Z.eqb_spec e (2 ^ 32)) as [Ee|Ee];
    [change (0 =? 0) with true; cbn iota; exists e, None; rewrite u32_next, Ee, Z.eqb_refl by lia; split_and!; try done; try lia; intros j Hj; apply Hzero; lia|].
  all: destruct (Z.eqb_spec e 0); [lia|]; unfold RADIX_TREE_MAP_SIZE.
  all: destruct (Z.eqb_spec (i + 1) 64) as [E64|E64];
    [exists e, None; rewrite u32_next by lia; destruct (Z.eqb_spec e (2 ^ 32)); [done|]; split_and!; try done; lia|].
  { unfold is_off in Ho. lia. }
  assert (Hpe : px n e = 64 * pre + (i + 1)) by (unfold px; fold D; unfold e; rewrite Z.div_mul by lia; unfold px in Hq; fold D in Hq; lia).
  destruct (IH e (i + 1)) as (e2 & r & E2 & He2 & Hz2 & Hr); [lia|done|unfold is_off in *; lia|lia|].
  exists e2, r. split; [exact E2|]. split_and!; [lia|lia| |].
  - intros j Hj. destruct (Z.lt_ge_cases j e); [apply Hzero; lia|apply Hz2; lia].
  - destruct r; [done|lia].
Qed.

(** ** The tree *)

Section Walk.
Context (s : rtst) (pos : posmap) (OK : tree_ok no_exempt s pos).

Lemma load_slot_run a k o : nodes s !! a = Some k → node_wf k → is_off o → load_slot a o s = Done (slot_at k o, s).
Proof.
  intros Ek Hk Ho. unfold load_slot. rewrite (run_bind _ _ _ _ _ (load_node_run _ _ _ Ek)). by rewrite slots_lookup.
Qed.

(** The items in the slots of a leaf. *)
Lemma leaf_items pre a k o : pos !! (1%nat, pre) = Some a → nodes s !! a = Some k → is_off o →
  item_at s pos (64 * pre + o) = slot_at k o ∧ ∀ t, tagged_at s pos t (64 * pre + o) = tag_at k t o.
Proof using OK.
  intros Ep Ek Ho. destruct (ok_pos _ _ _ OK _ _ _ Ep) as (([_ Htop] & _) & _). unfold item_at, tagged_at. destruct (Z.eqb_spec (r_height s) 0); [unfold top in *; lia|].
  rewrite join64_div, join64_mod by done. unfold node_of. rewrite Ep. cbn. rewrite Ek. done.
Qed.

(** A slot in use above the bottom has the child. *)
Lemma child_at n pre a k o : pos !! (S n, pre) = Some a → nodes s !! a = Some k → (1 ≤ n)%nat → is_off o → slot_at k o ≠ 0 →
  pos !! (n, 64 * pre + o) = Some (slot_at k o).
Proof using OK.
  intros Ep Ek Hn Ho. rewrite (child_slot OK _ _ _ _ _ Ep Ek) by done. destruct (pos !! (n, _)) as [c|]; [done|]. cbn. congruence.
Qed.

(** Slots without a child have no items below. *)
Lemma empty_slot n pre a k o j : pos !! (S n, pre) = Some a → nodes s !! a = Some k → is_off o → slot_at k o = 0 → 0 ≤ j < 2 ^ 32 → px n j = 64 * pre + o →
  item_at s pos j = 0.
Proof using OK.
  intros Ep Ek Ho Hz Hj Hpx. destruct (ok_pos _ _ _ OK _ _ _ Ep) as (([_ Htop] & _) & _). destruct n as [|n].
  - rewrite px_0 in Hpx. subst j. by rewrite (proj1 (leaf_items pre a k o Ep Ek Ho)).
  - destruct (decide (px (top s) j = 0)) as [Ht|Ht]; [|by apply (beyond_item OK); [lia|]].
    apply (down_zero OK (S n)); [by split|lia|]. cbn [down]. rewrite Hpx. by rewrite <- (child_slot OK _ _ _ _ _ Ep Ek) by (lia || done).
Qed.
(** A tagged item has the tag in all the nodes above. *)
Lemma tag_up n : ∀ pre a k o t j, pos !! (S n, pre) = Some a → nodes s !! a = Some k → is_off o → is_tag t → tag_at k t o = false → 0 ≤ j < 2 ^ 32 → px n j = 64 * pre + o →
  tagged_at s pos t j = false.
Proof using OK.
  induction n as [|n IH]; intros pre a k o t j Ep Ek Ho Ht Hf Hj Hpx.
  - rewrite px_0 in Hpx. subst j. by rewrite (proj2 (leaf_items pre a k o Ep Ek Ho)).
  - rewrite (child_tag OK t _ _ _ _ _ Ep Ek) in Hf by (lia || done || intros []). rewrite <- Hpx in Hf. destruct (pos !! (S n, px (S n) j)) as [b|] eqn:Eb.
    + destruct (node_at OK _ _ _ Eb) as (kb & Ekb & Hkb & _ & Enb). unfold any_at in Hf. rewrite Enb in Hf.
      apply (IH (px (S n) j) b kb (px n j mod 64)); try done; [apply mod64| |by rewrite px_split].
      apply not_true_iff_false. intros Et. assert (any_tag kb t = true) by (apply any_tag_true; [done..|]; exists (px n j mod 64); split; [apply mod64|done]). congruence.
    + assert (Hz : item_at s pos j = 0); [|by apply untagged]. destruct (node_at OK _ _ _ Ep) as (k0 & Ek0 & Hk & _). simplify_eq.
      eapply (empty_slot (S n) pre a k o); try done. rewrite (child_slot OK _ _ _ _ _ Ep Ek) by (lia || done). rewrite <- Hpx, Eb. done.
Qed.

(** The result of a search from [index]: the values up to some index [e]. *)
Definition searched (f : Z → Z) (index max : Z) (r : outcome (list Z * Z * rtst)) : Prop :=
  ∃ e, r = Done ((upto f index e, u32 e), s) ∧ index < e ≤ 2 ^ 32 ∧ Z.of_nat (length (upto f index e)) ≤ max.

Lemma searched_skip f index e max r : index ≤ e → (∀ j, index ≤ j < e → f j = 0) → searched f e max r → searched f index max r.
Proof.
  intros He Hz (e2 & -> & He2 & Hl). exists e2. rewrite (upto_split f index e e2) by lia. rewrite (upto_zero f index e) by done. cbn [app]. split; [done|]. split; [lia|done].
Qed.

Lemma grab_from_ok f (p : Z → M rtst Z) pre index max : (∀ o, is_off o → p o s = Done (f (64 * pre + o), s)) → 0 ≤ index < 2 ^ 32 → index / 64 = pre → 1 ≤ max →
  searched f index max (grab_from p index max s).
Proof.
  intros Hp Hi Hpre Hmax. unfold grab_from, RADIX_TREE_MAP_MASK, RADIX_TREE_MAP_SIZE. change 63 with (Z.ones 6). rewrite Z.land_ones by lia. change (2 ^ 6) with 64.
  pose proof (mod64 index) as Hm. pose proof (Z.div_mod index 64 ltac:(lia)) as Hd. rewrite Hpre in Hd. replace (Z.to_nat (64 - index mod 64)) with (S (Z.to_nat (63 - index mod 64))) by lia.
  assert (Hend : index + (63 - index mod 64) < 2 ^ 32).
  { pose proof (next_slot index 1 ltac:(lia) Hi) as Hx. change (64 ^ Z.of_nat 1) with 64 in Hx. rewrite Hpre in Hx. lia. }
  destruct (grab_ok s p f (Z.to_nat (63 - index mod 64)) (index mod 64) index max) as (e & E & He & Hl); [|done|lia|lia|].
  - intros o Ho. rewrite Hp by (unfold is_off; lia). do 3 f_equal. lia.
  - exists e. split; [done|]. split; [lia|done].
Qed.

Lemma lookup_levels_ok h : ∀ pre a index max, pos !! (S h, pre) = Some a → px (S h) index = pre → 0 ≤ index < 2 ^ 32 → 1 ≤ max →
  searched (item_at s pos) index max (lookup_levels h (6 * Z.of_nat h) index a max s).
Proof using OK.
  induction h as [|h IH]; intros pre a index max Ep Hpx Hi Hmax; destruct (node_at OK _ _ _ Ep) as (k & Ek & Hk & _).
  - cbn [lookup_levels]. apply (grab_from_ok _ _ pre); try done.
    intros o Ho. rewrite (load_slot_run a k o Ek Hk Ho). by rewrite (proj1 (leaf_items pre a k o Ep Ek Ho)).
  - cbn [lookup_levels]. destruct (ok_pos _ _ _ OK _ _ _ Ep) as (([_ Htop] & _) & _). pose proof (ok_height _ _ _ OK) as Hb.
    destruct (scan_ok s (λ i, x ← load_slot a i; mret (negb (x =? 0))) (λ o, negb (slot_at k o =? 0)) (item_at s pos) (S h) pre) with
      (fuel := Z.to_nat RADIX_TREE_MAP_SIZE) (index := index) (i := slot_offset index (6 * Z.of_nat (S h))) as (e & r & E & He & Hz & Hr).
    + unfold top in Htop. lia.
    + intros o Ho. by rewrite (run_bind _ _ _ _ _ (load_slot_run a k o Ek Hk Ho)).
    + intros o j Ho Hf Hj Hjp. apply (empty_slot (S h) pre a k o); try done. apply negb_false_iff, Z.eqb_eq in Hf. done.
    + done.
    + rewrite slot_offset_px by lia. rewrite <- Hpx. by rewrite px_split.
    + rewrite slot_offset_px by lia. apply mod64.
    + rewrite slot_offset_px by lia. pose proof (mod64 (px (S h) index)). unfold RADIX_TREE_MAP_SIZE. lia.
    + rewrite (run_bind _ _ _ _ _ E). cbn beta iota. destruct r as [o|].
      * destruct Hr as (Ho & Hf & Hlt & Hpe). apply negb_true_iff, Z.eqb_neq in Hf. rewrite (run_bind _ _ _ _ _ (load_slot_run a k o Ek Hk Ho)).
        destruct (Z.eqb_spec (slot_at k o) 0) as [|_]; [done|]. rewrite (u32_small e) by lia. unfold RADIX_TREE_MAP_SHIFT. rewrite u32_small by (unfold top in *; lia).
        replace (6 * Z.of_nat (S h) - 6) with (6 * Z.of_nat h) by lia. apply (searched_skip _ index e); [lia|done|].
        apply (IH (64 * pre + o)); try done; [|lia]. apply (child_at (S h) pre a k o); (done || lia).
      * exists e. rewrite upto_zero by done. split; [done|]. split; [lia|cbn; lia].
Qed.

Lemma lookup_tag_levels_ok h : ∀ pre a index max t, is_tag t → pos !! (S h, pre) = Some a → px (S h) index = pre → 0 ≤ index < 2 ^ 32 → 1 ≤ max →
  searched (λ j, if tagged_at s pos t j then item_at s pos j else 0) index max (lookup_tag_levels h (6 * Z.of_nat h) index a max t s).
Proof using OK.
  induction h as [|h IH]; intros pre a index max t Ht Ep Hpx Hi Hmax; destruct (node_at OK _ _ _ Ep) as (k & Ek & Hk & _); cbn [lookup_tag_levels].
  all: destruct (ok_pos _ _ _ OK _ _ _ Ep) as (([_ Htop] & _) & _); pose proof (ok_height _ _ _ OK) as Hb.
  all: match goal with |- searched _ _ _ ((scan_slots _ _ (6 * Z.of_nat ?n) _ _ ≫= _) _) =>
    destruct (scan_ok s (tag_get a t) (tag_at k t) (λ j, if tagged_at s pos t j then item_at s pos j else 0) n pre) with
      (fuel := Z.to_nat RADIX_TREE_MAP_SIZE) (index := index) (i := slot_offset index (6 * Z.of_nat n)) as (e & r & E & He & Hz & Hr);
      [unfold top in Htop; lia|intros o Ho; by apply tag_get_run|intros o j Ho Hf Hj Hjp; by rewrite (tag_up n pre a k o t j)|done
      |rewrite slot_offset_px by lia; rewrite <- Hpx; by rewrite px_split|rewrite slot_offset_px by lia; apply mod64
      |rewrite slot_offset_px by lia; pose proof (mod64 (px n index)); unfold RADIX_TREE_MAP_SIZE; lia|] end.
  all: rewrite (run_bind _ _ _ _ _ E); cbn beta iota; destruct r as [o|];
    [|exists e; rewrite upto_zero by done; split; [done|]; split; [lia|cbn; lia]].
  all: destruct Hr as (Ho & Hf & Hlt & Hpe); rewrite (u32_small e) by lia; apply (searched_skip _ index e); [lia|done|].
  - apply (grab_from_ok _ _ pre); [|lia|by rewrite px_0 in Hpe; rewrite Hpe, join64_div|done].
    intros o' Ho'. unfold tagged_item. rewrite (run_bind _ _ _ _ _ (tag_get_run a t o' k s Ek Hk Ht)). destruct (leaf_items pre a k o' Ep Ek Ho') as [-> ->].
    destruct (tag_at k t o'); [by apply load_slot_run|done].
  - rewrite (run_bind _ _ _ _ _ (load_slot_run a k o Ek Hk Ho)). pose proof (nw_tagged k Hk t o Ht Ho Hf) as Hs. destruct (Z.eqb_spec (slot_at k o) 0) as [|_]; [done|].
    unfold RADIX_TREE_MAP_SHIFT. rewrite u32_small by (unfold top in *; lia). replace (6 * Z.of_nat (S h) - 6) with (6 * Z.of_nat h) by lia.
    apply (IH (64 * pre + o)); try done; [|lia]. apply (child_at (S h) pre a k o); (done || lia).
Qed.

(** The loop of searches; [f] has no values beyond the height of the tree. *)
Lemma gang_loop_ok f (search : Z → Z → M rtst (list Z * Z)) first max :
  (∀ index m, 0 ≤ index < 2 ^ 32 → px (top s) index = 0 → 1 ≤ m → searched f index m (search index m s)) →
  (∀ j, 0 ≤ j → px (top s) j ≠ 0 → f j = 0) → 0 ≤ first < 2 ^ 32 → 0 ≤ max < 2 ^ 32 →
  gang_loop search (Z.min (64 ^ r_height s - 1) (2 ^ 32 - 1)) first max s = Done (take (Z.to_nat max) (upto f first (2 ^ 32)), s).
Proof using OK.
  intros Hs Hz Hf Hm. set (I := λ (x : Z * list Z) s', s' = s ∧ x.2 = upto f first x.1 ∧ first ≤ x.1 < 2 ^ 32 ∧ Z.of_nat (length x.2) ≤ max).
  set (Q := λ r s', s' = s ∧ r = take (Z.to_nat max) (upto f first (2 ^ 32))).
  assert (Ht : triple (I (first, [])) (loop_pos (gang_round search (Z.min (64 ^ r_height s - 1) (2 ^ 32 - 1)) max) (2 ^ 33)%positive (first, []))
    (λ r s', match r with inl _ => False | inr r => Q r s' end)).
  { apply (loop_pos_total _ I Q (λ x, 2 ^ 32 - x.1)); [|simpl; lia].
    intros [cur acc] s' (-> & Ha & Hc & Hl). unfold I, Q. cbn [fst snd] in *. subst acc. unfold gang_round.
    destruct (Z.ltb_spec (Z.of_nat (length (upto f first cur))) max) as [Hlt|Hge]; cbn [negb].
    + rewrite (maxindex_ok OK) by lia. case_bool_decide as Hp; cbn [negb].
      * rewrite u32_small by lia. destruct (Hs cur (max - Z.of_nat (length (upto f first cur)))) as (e & E & He & Hle); [lia|done|lia|].
        rewrite (run_bind _ _ _ _ _ E). rewrite <- upto_split by lia. rewrite u32_next by lia.
        assert (Hlen : Z.of_nat (length (upto f first e)) ≤ max) by (rewrite (upto_split f first cur e) by lia; rewrite length_app; lia).
        destruct (Z.eqb_spec e (2 ^ 32)) as [->|]; cbn [M_ret mret].
        -- change (0 =? 0) with true. cbn iota. split; [done|]. rewrite take_ge by lia. done.
        -- destruct (Z.eqb_spec e 0); [lia|]. cbn [fst snd]. split_and!; [done|done|lia..].
      * cbn [M_ret mret]. split; [done|]. rewrite (upto_split f first cur (2 ^ 32)) by lia. rewrite (upto_zero f cur); [rewrite app_nil_r, take_ge by lia; done|].
        intros k Hk. apply Hz; [lia|]. pose proof (px_mono (top s) cur k ltac:(lia)). pose proof (px_nonneg (top s) cur ltac:(lia)). lia.
    + cbn [M_ret mret]. split; [done|]. rewrite (upto_split f first cur (2 ^ 32)) by lia. rewrite take_app_length' by lia. done. }
  assert (HI : I (first, []) s) by (unfold I; cbn [fst snd]; split; [done|]; split; [unfold upto; by rewrite Z.sub_diag|]; cbn; lia).
  specialize (Ht s HI). unfold gang_loop. destruct (loop_pos _ _ _ s) as [[[x|r] s']|] eqn:E; try done. rewrite (run_bind _ _ _ _ _ E). destruct Ht as [-> ->]. done.
Qed.

(** The items, or the items with a tag. *)
Definition tagged_item_at (t j : Z) : Z := if tagged_at s pos t j then item_at s pos j else 0.


(** A root without a node has no items; a direct root has one at index 0. *)
Lemma no_items i : r_rnode s = 0 → 0 ≤ i < 2 ^ 32 → item_at s pos i = 0.
Proof using All.
  intros Er Hi. pose proof (lookup_ok OK i Hi) as E. unfold radix_tree_lookup in E. rewrite (run_bind _ _ s (r_rnode s) s eq_refl) in E.
  rewrite Er in E. change (0 =? 0) with true in E. cbn iota in E. by injection E.
Qed.
Lemma direct_gang f first max : f 0 ≠ 0 → (∀ j, j ≠ 0 → f j = 0) → 0 ≤ first < 2 ^ 32 → 1 ≤ max →
  take (Z.to_nat max) (upto f first (2 ^ 32)) = if 0 <? first then [] else [f 0].
Proof.
  intros H0 Hz Hf Hm. destruct (Z.ltb_spec 0 first) as [Hlt|Hge].
  - rewrite upto_zero; [by rewrite take_nil|]. intros k Hk. apply Hz. lia.
  - assert (first = 0) as -> by lia. rewrite (upto_split f 0 (0 + 1) (2 ^ 32)) by lia. rewrite (upto_zero f (0 + 1)) by (intros k Hk; apply Hz; lia).
    rewrite upto_one, app_nil_r. destruct (Z.eqb_spec (f 0) 0); [done|]. rewrite take_ge by (cbn; lia). done.
Qed.
Lemma direct_nonzero_item : r_height s = 0 → r_rnode s ≠ 0 → radix_tree_direct_to_ptr (r_rnode s) ≠ 0.
Proof using All.
  intros E0 Er. destruct (ok_direct _ _ _ OK E0) as [[? _]|(x & Hx & Hx0 & ->)]; [done|]. by rewrite direct_to_direct.
Qed.

(** The search from the root node, for items and for tagged items. *)
Lemma root_search {R} (levels : nat → Z → Z → Z → Z → M rtst R) (m0 : Z → R) index m : r_height s ≠ 0 → r_rnode s ≠ 0 →
  (k ← load_node (r_rnode s);
   let height := rn_height k in
   if height =? 0 then mret (m0 index) else levels (Z.to_nat (height - 1)) (top_shift height) index (r_rnode s) m) s =
  levels (pred (top s)) (6 * Z.of_nat (pred (top s))) index (r_rnode s) m s.
Proof using All.
  intros E0 Er. destruct (node_at OK _ _ _ (root_some OK E0 Er)) as (k & Ek & Hk & Hh & _). pose proof (ok_height _ _ _ OK) as Hb.
  rewrite (run_bind _ _ _ _ _ (load_node_run _ _ _ Ek)). cbn zeta. rewrite Hh.
  destruct (top s) as [|n] eqn:Et; [unfold top in Et; lia|]. destruct (Z.eqb_spec (Z.of_nat (S n)) 0); [lia|]. rewrite top_shift_S by (unfold top in Et; lia).
  by replace (Z.to_nat (Z.of_nat (S n) - 1)) with (pred (S n)) by lia.
Qed.
Lemma root_gang f search first max : r_height s ≠ 0 → r_rnode s ≠ 0 →
  (∀ index m, 0 ≤ index < 2 ^ 32 → px (top s) index = 0 → 1 ≤ m → searched f index m (search index m s)) →
  (∀ j, 0 ≤ j → px (top s) j ≠ 0 → f j = 0) → 0 ≤ first < 2 ^ 32 → 0 ≤ max < 2 ^ 32 →
  (k ← load_node (r_rnode s); max_index ← radix_tree_maxindex (rn_height k); gang_loop search max_index first max) s =
  Done (take (Z.to_nat max) (upto f first (2 ^ 32)), s).
Proof using All.
  intros E0 Er Hs Hz Hf Hm. destruct (node_at OK _ _ _ (root_some OK E0 Er)) as (k & Ek & Hk & Hh & _). pose proof (ok_height _ _ _ OK) as Hb.
  rewrite (run_bind _ _ _ _ _ (load_node_run _ _ _ Ek)). rewrite Hh. unfold top at 1. rewrite Z2Nat.id by lia.
  rewrite (run_bind _ _ _ _ _ (maxindex_run (r_height s) s Hb)). by apply gang_loop_ok.
Qed.

(** The number of items a gang lookup may give: an item in the root is given even
    if none is asked for. *)
Definition gang_max (height max : Z) : Z := if height =? 0 then Z.max 1 max else max.

Lemma gang_lookup_ok first max : 0 ≤ first < 2 ^ 32 → 0 ≤ max < 2 ^ 32 →
  radix_tree_gang_lookup first max s = Done (take (Z.to_nat (gang_max (r_height s) max)) (upto (item_at s pos) first (2 ^ 32)), s).
Proof using All.
  intros Hf Hm. unfold radix_tree_gang_lookup, gang_max. rewrite (run_bind _ _ s (r_rnode s) s eq_refl). destruct (Z.eqb_spec (r_rnode s) 0) as [Er|Er].
  - rewrite upto_zero; [by rewrite take_nil|]. intros k Hk. apply no_items; [done|lia].
  - rewrite (root_kind OK) by done. destruct (Z.eqb_spec (r_height s) 0) as [E0|E0].
    + rewrite direct_gang; try lia; unfold item_at; rewrite E0; cbn -[Z.ltb]; [done|by apply direct_nonzero_item|]. intros j Hj. by destruct (Z.eqb_spec j 0).
    + apply root_gang; try done; [|intros j ? ?; by apply (beyond_item OK)].
      intros index m Hi Hp Hm1. unfold __lookup. rewrite (root_search lookup_levels (λ i, ([], i))) by done.
      apply (lookup_levels_ok _ 0); try done; (replace (S (pred (top s))) with (top s) by (pose proof (ok_height _ _ _ OK); unfold top; lia)); [by apply (root_some OK)|done].
Qed.
(** Without the tag in the root no item has it. *)
Lemma root_untagged t i : is_tag t → root_tag s t = false → 0 ≤ i < 2 ^ 32 → tagged_at s pos t i = false.
Proof using All.
  intros Ht Hr Hi. destruct (decide (px (top s) i = 0)) as [Hp|Hp]; [|by apply (beyond_item OK); [lia|]].
  destruct (Z.eqb_spec (r_height s) 0) as [E0|E0]; [unfold tagged_at; rewrite E0, Hr; apply andb_false_r|].
  destruct (decide (r_rnode s = 0)) as [Er|Er]; [apply untagged; [done..|by apply no_items]|].
  pose proof (ok_height _ _ _ OK) as Hb. pose proof (root_some OK E0 Er) as Ep. destruct (node_at OK _ _ _ Ep) as (k & Ek & Hk & _ & En).
  assert (Ha : any_tag k t = false).
  { transitivity (any_at s pos t (top s) 0); [unfold any_at; by rewrite En|]. rewrite <- (ok_tags _ _ _ OK) by (try done; try (intros []); unfold valid_pos, top; repeat split; lia).
    unfold par_tag. by rewrite decide_True. }
  destruct (top s) as [|n] eqn:Et; [unfold top in Et; lia|]. apply (tag_up n 0 (r_rnode s) k (px n i mod 64)); try done; [apply mod64| |].
  - apply not_true_iff_false. intros E. apply not_true_iff_false in Ha. apply Ha, any_tag_true; [done..|]. exists (px n i mod 64). split; [apply mod64|done].
  - rewrite <- Hp. by rewrite px_split.
Qed.
Lemma gang_lookup_tag_ok first max t : is_tag t → 0 ≤ first < 2 ^ 32 → 0 ≤ max < 2 ^ 32 →
  radix_tree_gang_lookup_tag first max t s = Done (take (Z.to_nat (gang_max (r_height s) max)) (upto (tagged_item_at t) first (2 ^ 32)), s).
Proof using All.
  intros Ht Hf Hm. unfold radix_tree_gang_lookup_tag, gang_max. rewrite (run_bind _ _ s (root_tag s t) s eq_refl).
  destruct (root_tag s t) eqn:Et; cbn [negb]; [|rewrite upto_zero; [by rewrite take_nil|]; intros k Hk; unfold tagged_item_at; rewrite root_untagged by (done || lia); done].
  rewrite (run_bind _ _ s (r_rnode s) s eq_refl). destruct (Z.eqb_spec (r_rnode s) 0) as [Er|Er].
  - rewrite upto_zero; [by rewrite take_nil|]. intros k Hk. unfold tagged_item_at. rewrite no_items by (done || lia). by destruct (tagged_at s pos t k).
  - rewrite (root_kind OK) by done. destruct (Z.eqb_spec (r_height s) 0) as [E0|E0].
    + rewrite direct_gang; try lia; unfold tagged_item_at, tagged_at, item_at; rewrite E0; cbn -[Z.ltb]; rewrite ?Et; [done|by apply direct_nonzero_item|]. intros j Hj. by destruct (Z.eqb_spec j 0).
    + apply root_gang; try done; [|intros j ? ?; unfold tagged_item_at; by rewrite (proj2 (beyond_item OK j ltac:(done) ltac:(done)))].
      intros index m Hi Hp Hm1. unfold __lookup_tag. rewrite (root_search (λ h sh i a m, lookup_tag_levels h sh i a m t) (λ i, ([], i))) by done.
      apply (lookup_tag_levels_ok _ 0); try done; (replace (S (pred (top s))) with (top s) by (pose proof (ok_height _ _ _ OK); unfold top; lia)); [by apply (root_some OK)|done].
Qed.

End Walk.
End Gang.
