(* ===== verification/RadixTreeMap.v ===== *)
(** Radix trees as finite maps.

    The specification of a radix tree is a finite map from indices to items with
    two tags.  Every sequence of operations that respects the conditions of the
    code (items are even words, tags are set on items) runs without a fault,
    gives the results of the map and keeps the invariant of [RadixTreeInv]. *)

From S2P Require Import Prelude Kit FindBit RadixTree RadixTreeInv RadixTreeOps RadixTreeRefine RadixTreeTags RadixTreeDelete RadixTreeGang.

(** ** The specification *)

Record entry := Entry { e_item : Z; e_tag0 : bool; e_tag1 : bool }.
Definition e_tag (e : entry) (t : Z) : bool := if t =? 0 then e_tag0 e else e_tag1 e.
Definition put_tag (t : Z) (b : bool) (e : entry) : entry := if t =? 0 then Entry (e_item e) b (e_tag1 e) else Entry (e_item e) (e_tag0 e) b.
Abbreviation rmap := (gmap Z entry).
Definition item_in (m : rmap) (i : Z) : Z := match m !! i with Some e => e_item e | None => 0 end.
Definition tagged_in (m : rmap) (t i : Z) : bool := match m !! i with Some e => e_tag e t | None => false end.

Inductive op :=
  | OInsert (i x : Z) | ODelete (i : Z) | OLookup (i : Z) | OReplace (i x : Z)
  | OTagSet (i t : Z) | OTagClear (i t : Z) | OTagged (t : Z)
  | OGang (first max : Z) | OGangTag (first max t : Z)
  | OPreload | OGrace.
(** The tag operations and the gang lookups depend on whether the tree is a single
    item in the root: their results are given with the height of the tree. *)
Inductive ret := RInt (z : Z) | RItem (x : Z) | RBool (b : bool) | RTag (height x : Z) | RItems (height : Z) (l : list Z).

Definition in_range (i : Z) : Prop := 0 ≤ i < 2 ^ 32.
Definition is_item (x : Z) : Prop := even x ∧ x ≠ 0.
(** What the code demands of a caller. *)
Definition allowed (m : rmap) (o : op) : Prop :=
  match o with
  | OInsert i x | OReplace i x => in_range i ∧ is_item x
  | ODelete i | OLookup i => in_range i
  | OTagSet i t => in_range i ∧ is_tag t ∧ is_Some (m !! i)
  | OTagClear i t => in_range i ∧ is_tag t
  | OTagged t => is_tag t
  | OGang first max => in_range first ∧ 0 ≤ max < 2 ^ 32
  | OGangTag first max t => in_range first ∧ 0 ≤ max < 2 ^ 32 ∧ is_tag t
  | OPreload | OGrace => True
  end.
(** A tree of this height can hold the map: one of height 0 has an item at index 0
    at most. *)
Definition fits (height : Z) (m : rmap) : Prop := height = 0 → ∀ i, is_Some (m !! i) → i = 0.
(** The result and the map after an operation; only memory may run out. *)
Definition spec (m : rmap) (o : op) (r : ret) (m' : rmap) : Prop :=
  match o with
  | OInsert i x =>
      match m !! i with
      | Some _ => r = RInt (- EEXIST) ∧ m' = m
      | None => r = RInt 0 ∧ m' = <[i := Entry x false false]> m ∨ r = RInt (- ENOMEM) ∧ m' = m
      end
  | ODelete i => r = RItem (item_in m i) ∧ m' = delete i m
  | OLookup i => r = RItem (item_in m i) ∧ m' = m
  | OReplace i x => r = RItem (item_in m i) ∧ m' = alter (λ e, Entry x (e_tag0 e) (e_tag1 e)) i m
  | OTagSet i t => (∃ h, fits h m ∧ r = RTag h (tag_result h (item_in m i))) ∧ m' = alter (put_tag t true) i m
  | OTagClear i t => (∃ h, fits h m ∧ r = RTag h (tag_result h (item_in m i))) ∧ m' = alter (put_tag t false) i m
  | OTagged t => (∃ b, r = RBool b ∧ (b = true ↔ ∃ i, tagged_in m t i = true)) ∧ m' = m
  | OGang first max =>
      (∃ h, fits h m ∧ r = RItems h (take (Z.to_nat (gang_max h max)) (upto (item_in m) first (2 ^ 32)))) ∧ m' = m
  | OGangTag first max t =>
      (∃ h, fits h m ∧
        r = RItems h (take (Z.to_nat (gang_max h max)) (upto (λ i, if tagged_in m t i then item_in m i else 0) first (2 ^ 32)))) ∧
      m' = m
  | OPreload => (r = RInt 0 ∨ r = RInt (- ENOMEM)) ∧ m' = m
  | OGrace => r = RInt 0 ∧ m' = m
  end.

(** A caller: the next operation depends on the results so far. *)
Inductive caller := Halt | Do (o : op) (k : ret → caller).
Fixpoint spec_run (m : rmap) (c : caller) (rs : list ret) (m' : rmap) : Prop :=
  match c, rs with
  | Halt, [] => m' = m
  | Do o k, r :: rs => ∃ m1, spec m o r m1 ∧ spec_run m1 (k r) rs m'
  | _, _ => False
  end.
(** A caller that respects the conditions, whatever the results are. *)
Fixpoint safe (m : rmap) (c : caller) : Prop :=
  match c with Halt => True | Do o k => allowed m o ∧ ∀ r m', spec m o r m' → safe m' (k r) end.

(** ** The code *)

Section Map.
Context {A : Type} `{KitMemory A}.
Abbreviation rtst := (rtst (A := A)).
Abbreviation posmap := (gmap (nat * Z) Z).
Implicit Types (s : rtst) (pos : posmap) (m : rmap).

(** [INIT_RADIX_TREE(root, mask)] *)
Definition INIT_RADIX_TREE (mask : Z) (a : A) : rtst := RtSt ∅ 0 mask 0 [] [] a.

(** Lookup of a slot and replacement of its item, as a holder of the slot does it. *)
Definition replace_at (i x : Z) : M rtst Z :=
  p ← radix_tree_lookup_slot i;
  match p with
  | None => mret 0
  | Some p => old ← radix_tree_deref_slot p; radix_tree_replace_slot p x ;; mret old
  end.
Definition run_op (o : op) : M rtst ret :=
  match o with
  | OInsert i x => r ← radix_tree_insert i x; mret (RInt r)
  | ODelete i => r ← radix_tree_delete i; mret (RItem r)
  | OLookup i => r ← radix_tree_lookup i; mret (RItem r)
  | OReplace i x => r ← replace_at i x; mret (RItem r)
  | OTagSet i t => h ← gets r_height; r ← radix_tree_tag_set i t; mret (RTag h r)
  | OTagClear i t => h ← gets r_height; r ← radix_tree_tag_clear i t; mret (RTag h r)
  | OTagged t => r ← radix_tree_tagged t; mret (RBool r)
  | OGang first max => h ← gets r_height; r ← radix_tree_gang_lookup first max; mret (RItems h r)
  | OGangTag first max t => h ← gets r_height; r ← radix_tree_gang_lookup_tag first max t; mret (RItems h r)
  | OPreload => r ← radix_tree_preload; mret (RInt r)
  | OGrace => rcu_grace ;; mret (RInt 0)
  end.
Fixpoint run_ops (c : caller) : M rtst (list ret) :=
  match c with Halt => mret [] | Do o k => r ← run_op o; rs ← run_ops (k r); mret (r :: rs) end.

(** ** Slots *)

(** The slot of an item. *)
Definition slot_of s pos (i : Z) (p : pslot) : Prop :=
  match p with
  | PRoot => r_height s = 0 ∧ i = 0
  | PSlot a o => pos !! (1%nat, px 1 i) = Some a ∧ o = px 0 i mod 64
  end.
Lemma lookup_slot_loop_ok s pos n i a p : tree_ok no_exempt s pos → index_ok s i → pos !! (S n, px (S n) i) = Some a →
  ∃ q, lookup_slot_loop (S n) (6 * Z.of_nat n) i a p s = Done (q, s) ∧
    match q with None => item_at s pos i = 0 | Some q => item_at s pos i ≠ 0 ∧ slot_of s pos i q end.
Proof.
  intros OK Hi. revert a p. induction n as [|n IH]; intros a p Ep.
  - cbn [lookup_slot_loop]. rewrite (run_bind _ _ _ _ _ (load_down OK _ _ _ (proj1 (proj1 Hi)) Ep)). cbn [down].
    destruct (Z.eqb_spec (item_at s pos i) 0) as [Ez|Ez]; (eexists; split; [done|]); [done|]. split; [done|]. split; [done|].
    apply slot_offset_px. apply Hi.
  - destruct (ok_pos _ _ _ OK _ _ _ Ep) as ((? & _) & _). pose proof (ok_height _ _ _ OK). unfold top in *.
    cbn [lookup_slot_loop]. rewrite (run_bind _ _ _ _ _ (load_down OK _ _ _ (proj1 (proj1 Hi)) Ep)).
    destruct (Z.eqb_spec (down s pos (S n) i) 0) as [Ez|Ez].
    + eexists. split; [done|]. by rewrite (down_zero OK (S n)) by (done || (unfold top; lia)).
    + unfold RADIX_TREE_MAP_SHIFT. rewrite (u32_small (6 * Z.of_nat (S n) - 6)) by lia. replace (6 * Z.of_nat (S n) - 6) with (6 * Z.of_nat n) by lia.
      apply (IH _ (PSlot a (slot_offset i (6 * Z.of_nat (S n))))). by apply (down_pos (s := s)).
Qed.
Lemma lookup_slot_ok s pos i : tree_ok no_exempt s pos → 0 ≤ i < 2 ^ 32 →
  ∃ q, radix_tree_lookup_slot i s = Done (q, s) ∧
    match q with None => item_at s pos i = 0 | Some q => item_at s pos i ≠ 0 ∧ slot_of s pos i q end.
Proof.
  intros OK Hi. unfold radix_tree_lookup_slot. rewrite (run_bind _ _ s (r_rnode s) s eq_refl). pose proof (ok_height _ _ _ OK) as Hh.
  destruct (Z.eqb_spec (r_rnode s) 0) as [Er|Er]; [eexists; split; [done|by apply (no_items s pos)]|].
  rewrite (root_kind OK) by done. destruct (Z.eqb_spec (r_height s) 0) as [E0|E0].
  - eexists. split; [done|]. pose proof (direct_nonzero_item s pos OK E0 Er). unfold item_at. rewrite E0. cbn -[Z.ltb].
    destruct (Z.ltb_spec 0 i), (Z.eqb_spec i 0); try lia; done.
  - pose proof (root_some OK E0 Er) as Ep. destruct (node_at OK _ _ _ Ep) as (k & Ek & Hk & Hkh & En).
    rewrite (run_bind _ _ _ _ _ (load_node_run _ _ _ Ek)). rewrite Hkh. unfold top. rewrite Z2Nat.id by lia.
    rewrite (run_bind _ _ _ _ _ (maxindex_run (r_height s) s Hh)). rewrite (maxindex_ok OK) by done. case_bool_decide as Hp; cbn [negb].
    + unfold top in *. destruct (Z.eqb_spec (r_height s) 0) as [|_]; [done|].
      destruct (Z.to_nat (r_height s)) as [|n] eqn:En'; [lia|]. replace (r_height s) with (Z.of_nat (S n)) by lia.
      rewrite top_shift_S by lia. apply lookup_slot_loop_ok; [done|split; [done|unfold top; by rewrite En']|by rewrite Hp].
    + eexists. split; [done|]. by apply (beyond_item OK); [lia|].
Qed.

(** An item is replaced; its tags stay. *)
Lemma replace_leaf s pos i a k x : good s pos → pos !! (1%nat, px 1 i) = Some a → nodes s !! a = Some k → item_at s pos i ≠ 0 → is_item x →
  good (upd_node a (with_slot (px 0 i mod 64) x k) s) pos ∧ set_item s pos (upd_node a (with_slot (px 0 i mod 64) x k) s) pos i x.
Proof.
  intros Hg Ep Ek Hit [Hx Hx0]. pose proof Hg as [OK _]. destruct (node_at OK _ _ _ Ep) as (k0 & Ek0 & Hk & _). simplify_eq.
  pose proof (mod64 (px 0 i)) as Ho. destruct (leaf_items s pos OK (px 1 i) a k (px 0 i mod 64) Ep Ek Ho) as [Es _]. rewrite px_split, px_0 in Es. rewrite <- (px_0 i) in Es at 2.
  assert (Hw : node_wf (with_count (rn_count k) (with_slot (px 0 i mod 64) x k))).
  { destruct Hk as [Hl Ht Hc Hn]. split; [cbn; by rewrite length_insert|done| |].
    - cbn. rewrite (nz_insert _ _ _ _ (slots_lookup k _ (Build_node_wf k Hl Ht Hc Hn) Ho)), <- Es, Hc.
      destruct (Z.eqb_spec (item_at s pos i) 0), (Z.eqb_spec x 0); [done..|lia].
    - intros t o Ht' Ho' Hto. change (slot_at (with_slot (px 0 i mod 64) x k) o ≠ 0). rewrite slot_at_with by (done || by split).
      destruct (o =? _); [done|]. by apply (Hn t o). }
  pose proof (leaf_upd s pos (px 1 i) a k (rn_count k) (px 0 i mod 64) x Hg Ep Ek Ho Hw Hx) as Hlu. cbn zeta in Hlu.
  rewrite kid_px in Hlu. exact Hlu.
Qed.
Lemma direct_land x : Z.land (radix_tree_ptr_to_direct x) RADIX_TREE_DIRECT_PTR = 1.
Proof.
  unfold radix_tree_ptr_to_direct, RADIX_TREE_DIRECT_PTR. rewrite Z.land_comm. apply Z.bits_inj'. intros n Hn. rewrite Z.land_spec, Z.lor_spec.
  destruct (Z.testbit 1 n), (Z.testbit x n); done.
Qed.

Lemma replace_ok s pos i x : good s pos → 0 ≤ i < 2 ^ 32 → is_item x →
  ∃ s', replace_at i x s = Done (item_at s pos i, s') ∧ good s' pos ∧ (item_at s pos i = 0 ∧ s' = s ∨ item_at s pos i ≠ 0 ∧ set_item s pos s' pos i x).
Proof.
  intros Hg Hi Hx. pose proof Hg as [OK MO]. destruct (lookup_slot_ok s pos i OK Hi) as (q & E & Hq). unfold replace_at. rewrite (run_bind _ _ _ _ _ E).
  destruct q as [[|a o]|]; [| |exists s; rewrite Hq; split; [done|]; split; [done|by left]].
  - destruct Hq as (Hit & E0 & ->). destruct (ok_direct _ _ _ OK E0) as [[Hr Hnt]|(y & Hy & Hy0 & Hr)]; [unfold item_at in Hit; rewrite E0, Hr in Hit; done|].
    assert (Ey : item_at s pos 0 = y) by (unfold item_at; rewrite E0, Hr; cbn; by apply direct_to_direct).
    unfold radix_tree_deref_slot, radix_tree_replace_slot, BUG_ON, read_pslot. run_simpl. rewrite even_not_direct by apply Hx. cbn [negb].
    rewrite Hr, direct_land, direct_to_direct, <- Ey by done. eexists. split; [done|]. fold (radix_tree_ptr_to_direct x). split; [split|].
    + destruct OK as [H1 H2 H3 H4 H5 H6 H7]. change (0 ≤ r_height s ≤ 6) in H1. split; try done.
      * intros lev pre Hv. destruct Hv as ([? ?] & _). unfold top in *. cbn in *. lia.
      * intros _. right. exists x. split; [apply Hx|]. split; [apply Hx|done].
    + by destruct MO.
    + right. split; [done|]. intros j Hj. unfold item_at, tagged_at. cbn. rewrite E0. cbn. destruct (Z.eqb_spec j 0); [|done]. split; [apply direct_to_direct, Hx|done].
  - destruct Hq as (Hit & Ep & ->). destruct (node_at OK _ _ _ Ep) as (k & Ek & Hk & _). pose proof (mod64 (px 0 i)) as Ho.
    destruct (leaf_items s pos OK (px 1 i) a k (px 0 i mod 64) Ep Ek Ho) as [Es _]. rewrite px_split, px_0 in Es. rewrite <- (px_0 i) in Es at 2.
    destruct (ok_pos _ _ _ OK _ _ _ Ep) as (([? Htop] & _) & _). assert (Hev : even (slot_at k (px 0 i mod 64))) by (rewrite <- Es; apply item_even; [done|unfold top in Htop; lia]).
    unfold radix_tree_deref_slot, radix_tree_replace_slot, BUG_ON, read_pslot. run_simpl. rewrite even_not_direct by apply Hx. cbn [negb].
    rewrite !(load_slot_run s _ _ _ Ek Hk Ho). unfold RADIX_TREE_DIRECT_PTR. rewrite Hev, Z.lor_0_r. rewrite (store_slot_run _ _ _ _ _ Ek Hk Ho).
    rewrite even_to_ptr by done. rewrite <- Es. eexists. split; [done|]. destruct (replace_leaf s pos i a k x Hg Ep Ek Hit Hx) as [? ?]. split; [done|by right].
Qed.

(** ** The tag of the root *)

Lemma tag_down s pos t n : tree_ok no_exempt s pos → is_tag t → (1 ≤ n)%nat → ∀ pre, any_at s pos t n pre = true → ∃ i, in_range i ∧ tagged_at s pos t i = true.
Proof.
  intros OK Ht. induction n as [|n IH]; intros Hn pre; [lia|]. unfold any_at. destruct (node_of s pos (S n) pre) as [k|] eqn:En; [|done].
  destruct (node_of_inv OK _ _ _ En) as (a & Ep & Ek & Hk & _). intros (o & Ho & Eo)%any_tag_true; [|done..].
  destruct (ok_pos _ _ _ OK _ _ _ Ep) as ((_ & Hpre & _) & _ & _ & Hlt & _). destruct n as [|n].
  - exists (64 * pre + o). rewrite (proj2 (leaf_items s pos OK pre a k o Ep Ek Ho)). split; [|done]. unfold in_range, is_off in *. change (64 ^ Z.of_nat 1) with 64 in Hlt. lia.
  - rewrite (child_tag OK t _ _ _ _ _ Ep Ek) in Eo by (lia || done || intros []). eapply IH; [lia|done].
Qed.
Lemma tagged_ok s pos t : tree_ok no_exempt s pos → is_tag t →
  ∃ b, radix_tree_tagged t s = Done (b, s) ∧ (b = true ↔ ∃ i, in_range i ∧ tagged_at s pos t i = true).
Proof.
  intros OK Ht. exists (root_tag s t). split; [done|]. split.
  - intros Hr. pose proof (ok_height _ _ _ OK) as Hb. destruct (decide (r_height s = 0)) as [E0|E0].
    + exists 0. split; [unfold in_range; lia|]. unfold tagged_at. by rewrite E0, Hr.
    + apply (tag_down s pos t (top s) OK Ht ltac:(unfold top; lia) 0). rewrite <- (ok_tags _ _ _ OK) by (try done; try (intros []); unfold valid_pos, top; repeat split; lia).
      unfold par_tag. by rewrite decide_True.
  - intros (i & Hi & Et). destruct (root_tag s t) eqn:Er; [done|]. by rewrite (root_untagged s pos OK t i Ht Er Hi) in Et.
Qed.

(** ** The pool and grace periods *)

Lemma preload_loop_ok fuel : ∀ s pos, good s pos → RADIX_TREE_MAX_PATH ≤ Z.of_nat (length (preloads s)) + Z.of_nat fuel →
  ∃ r s', preload_loop fuel s = Done (r, s') ∧ good s' pos ∧ same_items s pos s' pos ∧
    (r = 0 ∧ RADIX_TREE_MAX_PATH ≤ Z.of_nat (length (preloads s')) ∨ r = - ENOMEM).
Proof.
  induction fuel as [|fuel IH]; intros s pos Hg Hf; cbn [preload_loop]; rewrite (run_bind _ _ s (preloads s) s eq_refl);
    (destruct (Z.ltb_spec (Z.of_nat (length (preloads s))) RADIX_TREE_MAX_PATH); [|exists 0, s; split_and!; try done; by left]); [lia|].
  pose proof Hg as [OK MO]. unfold node_cache_alloc. destruct (kit_malloc (mem s)) as [[l m]|] eqn:Em.
  - destruct (cache_ok no_exempt s pos l m OK MO Em) as (Hfr & Hpos & OK' & Hsame & MO'). destruct (addr_ok l) as [Hl0 _].
    rewrite (run_bind _ _ _ (addr l) (from_cache l m s)) by (by rewrite Em). destruct (Z.eqb_spec (addr l) 0) as [|_]; [done|].
    set (s1 := with_preloads (addr l :: preloads s) (from_cache l m s)). rewrite (run_bind _ _ _ tt s1) by done.
    assert (Hg1 : good s1 pos).
    { split; [by apply (frame_ok no_exempt (from_cache l m s) s1 pos OK')|]. destruct MO' as [Hl Ho Hd Hp Hrd Hr]. split; try done.
      - intros a k Ea. destruct (Ho a k Ea) as [?|[?| ->]]; [by left|right; left; by apply elem_of_cons; right|right; left; by apply elem_of_cons; left].
      - apply list.NoDup_cons. split; [|done]. intros Hin. by destruct (Hp _ Hin) as (_ & _ & ?).
      - intros a [->|Ha]%elem_of_cons; [split_and!; [cbn; by rewrite lookup_insert_eq|intros p Ep; by destruct (Hpos p _ Ep)|done]|].
        destruct (Hp a Ha) as (Ea & Hpa & _). split_and!; [done|done|]. destruct (Hl a _ Ea) as (l' & -> & _). by destruct (addr_ok l'). }
    destruct (IH s1 pos Hg1) as (r & s2 & E2 & Hg2 & Hsame2 & Hr); [cbn [preloads s1 with_preloads length]; lia|]. exists r, s2. split_and!; try done.
    eapply same_items_trans; [exact Hsame|exact Hsame2].
  - rewrite (run_bind _ _ _ 0 s) by (by rewrite Em). exists (- ENOMEM), s. split; [done|]. split_and!; try done; by right.
Qed.

Lemma addr_to_pos l : Z.to_pos (addr l / 4) = l.
Proof. unfold addr. rewrite Z.mul_comm, Z.div_mul by lia. done. Qed.
Lemma free_all_live (q : list Z) : ∀ (a : A) l, l ∈ live a → (∀ x, x ∈ q → Z.to_pos (x / 4) ≠ l) → l ∈ live (foldl (λ (b : A) x, kit_free (Z.to_pos (x / 4)) b) a q).
Proof.
  induction q as [|x q IH]; intros a l Hl Hq; [done|]. cbn. apply IH; [|intros y Hy; apply Hq; by apply elem_of_cons; right].
  rewrite kit_free_live. pose proof (Hq x ltac:(set_solver)). set_solver.
Qed.
Lemma grace_ok s pos : good s pos → ∃ s', rcu_grace s = Done (tt, s') ∧ good s' pos ∧ same_items s pos s' pos ∧ rcu_queue s' = [].
Proof.
  intros [OK [Hl Ho Hd Hp Hrd Hr]]. eexists. split; [done|]. destruct (frame_ok no_exempt s (with_rcu [] (with_mem (foldl (λ (b : A) x, kit_free (Z.to_pos (x / 4)) b) (mem s) (rcu_queue s)) s)) pos OK) as [OK' Hsame]; try done.
  split; [split; [done|]|done]. split; cbn; try done; [|by apply list.NoDup_nil|by intros a Ha%elem_of_nil].
  intros a k Ea. destruct (Hl a k Ea) as (l & -> & Hlv). exists l. split; [done|]. apply free_all_live; [done|]. intros x Hx E.
  destruct (Hr x Hx) as (En & l' & -> & _). rewrite addr_to_pos in E. congruence.
Qed.

(** ** Refinement *)

Record represents s pos m : Prop := {
  rep_range i e : m !! i = Some e → in_range i ∧ e_item e ≠ 0;
  rep_item i : in_range i → item_in m i = item_at s pos i;
  rep_tag t i : is_tag t → in_range i → tagged_in m t i = tagged_at s pos t i;
}.
Lemma rep_none s pos m i : represents s pos m → in_range i → m !! i = None ↔ item_at s pos i = 0.
Proof.
  intros R Hi. rewrite <- (rep_item _ _ _ R i Hi). unfold item_in. destruct (m !! i) as [e|] eqn:E; [|done].
  destruct (rep_range _ _ _ R i e E). split; [done|intros; congruence].
Qed.
Lemma rep_fits s pos m : represents s pos m → fits (r_height s) m.
Proof.
  intros R E0 i [e He]. destruct (rep_range _ _ _ R i e He) as [Hi Hn]. pose proof (rep_item _ _ _ R i Hi) as Hit.
  unfold item_in in Hit. rewrite He in Hit. unfold item_at in Hit. rewrite E0 in Hit. cbn in Hit.
  destruct (Z.eqb_spec i 0); congruence.
Qed.
Lemma rep_same s pos s' pos' m : represents s pos m → same_items s pos s' pos' → represents s' pos' m.
Proof.
  intros [Hr Hi Ht] Hs. split; [done| |].
  - intros i Hx. rewrite (proj1 (Hs i Hx)). by apply Hi.
  - intros t i Hx Hy. rewrite (proj2 (Hs i Hy)) by done. by apply Ht.
Qed.
Lemma rep_insert s pos s' pos' m i x : tree_ok no_exempt s pos → represents s pos m → in_range i → is_item x → item_at s pos i = 0 →
  set_item s pos s' pos' i x → represents s' pos' (<[i := Entry x false false]> m).
Proof.
  intros OK [Hr Hi Ht] Hx [_ Hx0] Hz Hs. split.
  - intros j e [[<- <-]|[_ E]]%lookup_insert_Some; [done|by apply Hr].
  - intros j Hj. rewrite (proj1 (Hs j Hj)). unfold item_in. destruct (Z.eqb_spec j i) as [->|]; [by rewrite lookup_insert_eq|].
    rewrite lookup_insert_ne by done. by apply Hi.
  - intros t j Hj Hj'. rewrite (proj2 (Hs j Hj')) by done. unfold tagged_in. destruct (decide (j = i)) as [->|].
    + rewrite lookup_insert_eq. rewrite (untagged s pos i t OK Hj Hz). unfold e_tag. cbn. by destruct (t =? 0).
    + rewrite lookup_insert_ne by done. by apply Ht.
Qed.
Lemma rep_delete s pos s' pos' m i : represents s pos m → del_item s pos s' pos' i → represents s' pos' (delete i m).
Proof.
  intros [Hr Hi Ht] Hs. split.
  - intros j e [_ E]%lookup_delete_Some. by apply Hr.
  - intros j Hj. rewrite (proj1 (Hs j Hj)). unfold item_in. destruct (Z.eqb_spec j i) as [->|]; [by rewrite lookup_delete_eq|].
    rewrite lookup_delete_ne by done. by apply Hi.
  - intros t j Hj Hj'. rewrite (proj2 (Hs j Hj')) by done. unfold tagged_in. destruct (Z.eqb_spec j i) as [->|]; [by rewrite lookup_delete_eq|].
    rewrite lookup_delete_ne by done. by apply Ht.
Qed.
Lemma rep_alter s pos s' pos' m i f : represents s pos m → (∀ e, m !! i = Some e → e_item (f e) ≠ 0) →
  (∀ j, in_range j → item_at s' pos' j = (if j =? i then match m !! i with Some e => e_item (f e) | None => 0 end else item_at s pos j) ∧
    ∀ t, is_tag t → tagged_at s' pos' t j = if j =? i then match m !! i with Some e => e_tag (f e) t | None => false end else tagged_at s pos t j) →
  represents s' pos' (alter f i m).
Proof.
  intros [Hr Hi Ht] Hf Hs. split.
  - intros j e. destruct (decide (j = i)) as [->|].
    + rewrite lookup_alter_eq. intros (e' & E & ->)%fmap_Some. split; [by apply (Hr i e')|by apply Hf].
    + rewrite lookup_alter_ne by done. apply Hr.
  - intros j Hj. rewrite (proj1 (Hs j Hj)). unfold item_in. destruct (Z.eqb_spec j i) as [->|].
    + rewrite lookup_alter_eq. by destruct (m !! i).
    + rewrite lookup_alter_ne by done. by apply Hi.
  - intros t j Hj Hj'. rewrite (proj2 (Hs j Hj')) by done. unfold tagged_in. destruct (Z.eqb_spec j i) as [->|].
    + rewrite lookup_alter_eq. by destruct (m !! i).
    + rewrite lookup_alter_ne by done. by apply Ht.
Qed.
Lemma rep_replace s pos s' pos' m i x : represents s pos m → in_range i → is_item x → item_at s pos i ≠ 0 → set_item s pos s' pos' i x →
  represents s' pos' (alter (λ e, Entry x (e_tag0 e) (e_tag1 e)) i m).
Proof.
  intros R Hi [_ Hx] Hn Hs. apply (rep_alter s pos); [done|done|]. intros j Hj. destruct (Hs j Hj) as [-> Hst].
  destruct (m !! i) as [e|] eqn:E; [|apply (rep_none s pos m i R Hi) in E; done]. split; [by destruct (Z.eqb_spec j i)|]. intros t Ht. rewrite Hst by done.
  destruct (Z.eqb_spec j i) as [->|]; [|done]. rewrite <- (rep_tag _ _ _ R) by done. unfold tagged_in. by rewrite E.
Qed.
Lemma rep_put_tag s pos s' pos' m i t b : represents s pos m → in_range i → is_tag t → (b = true → is_Some (m !! i)) → set_tag s pos s' pos' t i b →
  represents s' pos' (alter (put_tag t b) i m).
Proof.
  intros R Hi Ht Hb Hs. assert (Hit : ∀ e, e_item (put_tag t b e) = e_item e) by (intros e; unfold put_tag; by destruct (t =? 0)).
  apply (rep_alter s pos); [done|intros e E; rewrite Hit; by apply (rep_range _ _ _ R i e)|].
  intros j Hj. destruct (Hs j Hj) as [-> Hst]. split.
  - destruct (Z.eqb_spec j i) as [->|]; [|done]. rewrite <- (rep_item _ _ _ R) by done. unfold item_in. destruct (m !! i); [by rewrite Hit|done].
  - intros t' Ht'. rewrite Hst by done. destruct (Z.eqb_spec j i) as [->|]; [|by rewrite andb_false_r]. rewrite andb_true_r.
    rewrite <- (rep_tag _ _ _ R) by done. unfold tagged_in. destruct (m !! i) as [e|] eqn:E.
    + unfold put_tag, e_tag. destruct (tag_cases t Ht) as [-> | ->], (tag_cases t' Ht') as [-> | ->]; done.
    + destruct b; [by destruct (Hb eq_refl)|]. by destruct (t' =? t).
Qed.
Lemma rep_init mask a : 0 ≤ mask < 2 ^ 20 → good (INIT_RADIX_TREE mask a) ∅ ∧ represents (INIT_RADIX_TREE mask a) ∅ ∅.
Proof.
  intros Hm. assert (Hrt : ∀ t, is_tag t → root_tag (INIT_RADIX_TREE mask a) t = false).
  { intros t Ht. unfold root_tag. apply negb_false_iff, Z.eqb_eq. cbn. apply Z.bits_inj'. intros n Hn. rewrite Z.land_spec, Z.bits_0.
    unfold __GFP_BITS_SHIFT, is_tag in *. rewrite one_bit_spec by lia. destruct (Z.eqb_spec n (t + 20)) as [->|]; [|apply andb_false_r]. rewrite andb_true_r.
    destruct (decide (mask = 0)) as [->|]; [apply Z.bits_0|]. apply Z.bits_above_log2; [lia|]. assert (Z.log2 mask < 20) by (apply Z.log2_lt_pow2; lia). lia. }
  split; [split|].
  - split; try done.
    + intros lev pre ([? ?] & _). unfold top in *. cbn in *. lia.
    + intros t lev pre _ ([? ?] & _). unfold top in *. cbn in *. lia.
    + intros _. left. split; [done|apply Hrt].
  - split; cbn; try done; try (by apply list.NoDup_nil); by intros x Hx%elem_of_nil.
  - split; [done| |].
    + intros i Hi. unfold item_at. cbn. by destruct (i =? 0).
    + intros t i Ht Hi. unfold tagged_at. cbn -[root_tag]. by rewrite Hrt, andb_false_r.
Qed.

(** One operation. *)
Lemma step_ok s pos m o : good s pos → represents s pos m → allowed m o →
  ∃ r s' pos' m', run_op o s = Done (r, s') ∧ good s' pos' ∧ represents s' pos' m' ∧ spec m o r m'.
Proof.
  intros Hg R. pose proof Hg as [OK _]. destruct o as [i x|i|i|i x|i t|i t|t|first max|first max t| |]; cbn [allowed run_op spec].
  - intros [Hi Hx]. destruct (insert_ok s pos i x Hg Hi (proj1 Hx) (proj2 Hx)) as (r & s' & pos' & E & Hg' & Hc & _). rewrite (run_bind _ _ _ _ _ E).
    pose proof (rep_none s pos m i R Hi) as Hn. destruct Hc as [(-> & Hz & Hs)|[(-> & Hz & Hs)|(-> & Hz & Hs)]].
    + eexists _, s', pos', (<[i := Entry x false false]> m). split; [done|]. split; [done|]. split; [by eapply rep_insert|]. rewrite (proj2 Hn Hz). by left.
    + eexists _, s', pos', m. split; [done|]. split; [done|]. split; [by eapply rep_same|]. destruct (m !! i); [done|]. by destruct Hz; apply Hn.
    + eexists _, s', pos', m. split; [done|]. split; [done|]. split; [by eapply rep_same|]. rewrite (proj2 Hn Hz). by right.
  - intros Hi. destruct (delete_ok s pos i Hg Hi) as (s' & pos' & E & Hg' & Hd). rewrite (run_bind _ _ _ _ _ E).
    eexists _, s', pos', (delete i m). split; [done|]. split; [done|]. split; [by eapply rep_delete|]. by rewrite (rep_item _ _ _ R i Hi).
  - intros Hi. rewrite (run_bind _ _ _ _ _ (lookup_ok OK i Hi)). eexists _, s, pos, m. split; [done|]. split; [done|]. split; [done|]. by rewrite (rep_item _ _ _ R i Hi).
  - intros [Hi Hx]. destruct (replace_ok s pos i x Hg Hi Hx) as (s' & E & Hg' & Hc). rewrite (run_bind _ _ _ _ _ E).
    eexists _, s', pos, _. split; [done|]. split; [done|]. split; [|split; [by rewrite (rep_item _ _ _ R i Hi)|done]].
    destruct Hc as [[Hz ->]|[Hn Hs]]; [|by eapply rep_replace]. pose proof (proj2 (rep_none s pos m i R Hi) Hz) as Hm.
    replace (alter _ i m) with m; [done|]. apply map_eq. intros j. destruct (decide (j = i)) as [->|]; [by rewrite lookup_alter_eq, Hm|by rewrite lookup_alter_ne].
  - intros (Hi & Ht & Hm). assert (Hn : item_at s pos i ≠ 0) by (intros Hz%(rep_none s pos m i R Hi); by rewrite Hz in Hm; destruct Hm).
    destruct (tag_set_ok s pos i t Hg Hi Ht Hn) as (s' & r & E & Er & Hg' & Hs).
    rewrite (run_bind _ _ s (r_height s) s eq_refl), (run_bind _ _ _ _ _ E).
    eexists _, s', pos, _. split; [done|]. split; [done|]. split; [|split; [|done]; exists (r_height s); split; [by eapply rep_fits|by rewrite (rep_item _ _ _ R i Hi), Er]].
    by eapply rep_put_tag.
  - intros (Hi & Ht). destruct (tag_clear_ok s pos i t Hg Hi Ht) as (r & s' & E & Er & Hg' & _ & Hs).
    rewrite (run_bind _ _ s (r_height s) s eq_refl), (run_bind _ _ _ _ _ E).
    eexists _, s', pos, _. split; [done|]. split; [done|]. split; [|split; [|done]; exists (r_height s); split; [by eapply rep_fits|by rewrite (rep_item _ _ _ R i Hi), Er]].
    by eapply rep_put_tag.
  - intros Ht. destruct (tagged_ok s pos t OK Ht) as (b & E & Hb). rewrite (run_bind _ _ _ _ _ E).
    eexists _, s, pos, m. split; [done|]. split; [done|]. split; [done|]. split; [|done]. exists b. split; [done|]. rewrite Hb. split.
    + intros (i & Hi & Et). exists i. by rewrite (rep_tag _ _ _ R).
    + intros (i & Et). assert (Hi : in_range i) by (unfold tagged_in in Et; destruct (m !! i) as [e|] eqn:Em; [by apply (rep_range _ _ _ R i e)|done]).
      exists i. by rewrite <- (rep_tag _ _ _ R).
  - intros (Hi & Hmax). rewrite (run_bind _ _ s (r_height s) s eq_refl), (run_bind _ _ _ _ _ (gang_lookup_ok s pos OK first max Hi Hmax)).
    eexists _, s, pos, m. split; [done|]. split; [done|]. split; [done|]. split; [|done]. exists (r_height s). split; [by eapply rep_fits|]. do 2 f_equal. apply pick_ext. intros k Hk. symmetry. apply (rep_item _ _ _ R). unfold in_range in *. lia.
  - intros (Hi & Hmax & Ht). rewrite (run_bind _ _ s (r_height s) s eq_refl), (run_bind _ _ _ _ _ (gang_lookup_tag_ok s pos OK first max t Ht Hi Hmax)).
    eexists _, s, pos, m. split; [done|]. split; [done|]. split; [done|]. split; [|done]. exists (r_height s). split; [by eapply rep_fits|]. do 2 f_equal. apply pick_ext. intros k Hk.
    assert (in_range k) by (unfold in_range in *; lia). unfold tagged_item_at. by rewrite (rep_item _ _ _ R), (rep_tag _ _ _ R).
  - intros _. destruct (preload_loop_ok (Z.to_nat RADIX_TREE_MAX_PATH) s pos Hg) as (r & s' & E & Hg' & Hs & Hr); [unfold RADIX_TREE_MAX_PATH; lia|].
    rewrite (run_bind _ _ _ _ _ E). eexists _, s', pos, m. split; [done|]. split; [done|]. split; [by eapply rep_same|]. split; [|done].
    destruct Hr as [[-> _]| ->]; auto.
  - intros _. destruct (grace_ok s pos Hg) as (s' & E & Hg' & Hs & _). rewrite (run_bind _ _ _ _ _ E). eexists _, s', pos, m. split; [done|]. split; [done|]. split; [by eapply rep_same|done].
Qed.

(** A sequence of operations. *)
Lemma ops_ok c : ∀ s pos m, good s pos → represents s pos m → safe m c →
  ∃ rs s' pos' m', run_ops c s = Done (rs, s') ∧ good s' pos' ∧ represents s' pos' m' ∧ spec_run m c rs m'.
Proof.
  induction c as [|o k IH]; intros s pos m Hg R; cbn [safe run_ops].
  - intros _. by exists [], s, pos, m.
  - intros [Ha Hs]. destruct (step_ok s pos m o Hg R Ha) as (r & s1 & pos1 & m1 & E1 & Hg1 & R1 & Sp1). rewrite (run_bind _ _ _ _ _ E1).
    destruct (IH r s1 pos1 m1 Hg1 R1 (Hs r m1 Sp1)) as (rs & s2 & pos2 & m2 & E2 & Hg2 & R2 & Sp2). rewrite (run_bind _ _ _ _ _ E2).
    exists (r :: rs), s2, pos2, m2. split; [done|]. split; [done|]. split; [done|]. by exists m1.
Qed.

(** ** The properties *)

(** C22: from an empty tree on, every sequence of insertions, deletions, lookups,
    replacements, tag operations, gang lookups, preloads and grace periods by a
    caller that respects the conditions of the code (items are even words other
    than 0, only items are tagged) finishes without a fault and gives the
    results of a finite map from indices to items with two tags.  An insertion
    can only fail for want of memory or because the index is taken.  A tag
    operation returns the item of the index or 0; in a tree of height 0 it
    returns the item with its lowest bit set, not its address.  A gang lookup
    gives the first [max_items] items, or tagged items, in the order of the
    indices; in a tree of height 0 it gives the one item even if [max_items] is
    0. *)
Theorem radix_tree_refines_map c mask (a : A) : 0 ≤ mask < 2 ^ 20 → safe ∅ c →
  ∃ rs s' m', run_ops c (INIT_RADIX_TREE mask a) = Done (rs, s') ∧ spec_run ∅ c rs m' ∧
    ∀ i, 0 ≤ i < 2 ^ 32 → radix_tree_lookup i s' = Done (item_in m' i, s').
Proof.
  intros Hm Hs. destruct (rep_init mask a Hm) as [Hg R]. destruct (ops_ok c _ _ _ Hg R Hs) as (rs & s' & pos' & m' & E & Hg' & R' & Sp).
  exists rs, s', m'. split; [done|]. split; [done|]. intros i Hi. rewrite (rep_item _ _ _ R' i Hi). apply (lookup_ok (proj1 Hg')), Hi.
Qed.

(** C23: the trees that the operations build are well formed: every node is at one
    position of the tree, its height and count are right, a tag is set in
    a node exactly if a node below has it, and every allocated node belongs to
    the tree, to the preloaded pool or to the queue of freed nodes. *)
Theorem radix_tree_well_formed c mask (a : A) : 0 ≤ mask < 2 ^ 20 → safe ∅ c →
  match run_ops c (INIT_RADIX_TREE mask a) with
  | Done (_, s') => ∃ pos, tree_ok no_exempt s' pos ∧ mem_ok 0 s' pos
  | Fault _ => False
  end.
Proof.
  intros Hm Hs. destruct (rep_init mask a Hm) as [Hg R]. destruct (ops_ok c _ _ _ Hg R Hs) as (rs & s' & pos' & m' & E & Hg' & _).
  rewrite E. by exists pos'.
Qed.

(** C40: an insertion fails with -ENOMEM only if twelve nodes cannot be
    allocated, six to reach the height of the index and six on the way down, and
    with -EEXIST only if the index is taken; when it fails, every lookup gives
    what it gave before.  Otherwise the index had no item, the item is found
    under it afterwards, and the lookups of all other indices are as before. *)
Theorem radix_tree_insert_total s pos i x : good s pos → 0 ≤ i < 2 ^ 32 → even x → x ≠ 0 →
  ∃ r s', radix_tree_insert i x s = Done (r, s') ∧ (can_alloc 12 (mem s) = true → r ≠ - ENOMEM) ∧
    (r = 0 ∧ radix_tree_lookup i s = Done (0, s) ∧ radix_tree_lookup i s' = Done (x, s') ∨
     r = - EEXIST ∧ (∃ y, y ≠ 0 ∧ radix_tree_lookup i s = Done (y, s)) ∨
     r = - ENOMEM ∧ radix_tree_lookup i s = Done (0, s)) ∧
    ∀ j, 0 ≤ j < 2 ^ 32 → r ≠ 0 ∨ j ≠ i →
      ∃ y, radix_tree_lookup j s = Done (y, s) ∧ radix_tree_lookup j s' = Done (y, s').
Proof.
  intros Hg Hi Hx Hx0. destruct (insert_ok s pos i x Hg Hi Hx Hx0) as (r & s' & pos' & E & [OK' _] & Hc & Hal). exists r, s'. split; [done|]. split; [done|].
  pose proof (λ j Hj, lookup_ok (proj1 Hg) j Hj) as L. pose proof (λ j Hj, lookup_ok OK' j Hj) as L'. split.
  - rewrite (L i Hi), (L' i Hi). destruct Hc as [(-> & Hz & Hs)|[(-> & Hz & Hs)|(-> & Hz & Hs)]]; [|by eauto 10|rewrite Hz; auto].
    rewrite (proj1 (Hs i Hi)), Z.eqb_refl, Hz. auto.
  - intros j Hj Hne. exists (item_at s pos j). rewrite (L j Hj), (L' j Hj). split; [done|].
    destruct Hc as [(-> & _ & Hs)|[(-> & _ & Hs)|(-> & _ & Hs)]]; rewrite (proj1 (Hs j Hj)); [|done..].
    destruct Hne; [done|]. by destruct (Z.eqb_spec j i).
Qed.

End Map.

(** ** Witnesses and examples *)

(** A caller that inserts an item, tags it, and looks for tagged items. *)
Definition tagging_caller : caller :=
  Do (OInsert 70 8) (λ r, match r with RInt 0 => Do (OTagSet 70 1) (λ _, Do (OGangTag 0 5 1) (λ _, Do (ODelete 70) (λ _, Halt))) | _ => Halt end).
Lemma tagging_caller_safe : safe ∅ tagging_caller.
Proof.
  split; [done|]. intros r m' [[-> ->]|[-> ->]]; [|done]. split; [split; [done|]; split; [done|by eexists]|]. intros r m' [_ ->].
  split; [done|]. intros r' m' [_ ->]. by split.
Qed.
Lemma radix_tree_refines_map_witness : ∃ rs s' m', run_ops tagging_caller (INIT_RADIX_TREE 0 pool_empty) = Done (rs, s') ∧ spec_run ∅ tagging_caller rs m' ∧
    ∀ i, 0 ≤ i < 2 ^ 32 → radix_tree_lookup i s' = Done (item_in m' i, s').
Proof. apply (radix_tree_refines_map tagging_caller 0 pool_empty); [lia|apply tagging_caller_safe]. Defined.
Example tagging_caller_results : match run_ops tagging_caller (INIT_RADIX_TREE 0 pool_empty) with Done (rs, _) => rs | Fault _ => [] end =
  [RInt 0; RTag 2 8; RItems 2 [8]; RItem 8].
Proof. vm_compute. reflexivity. Qed.

Lemma radix_tree_well_formed_witness :
  match run_ops tagging_caller (INIT_RADIX_TREE 0 pool_empty) with
  | Done (_, s') => ∃ pos, tree_ok no_exempt s' pos ∧ mem_ok 0 s' pos
  | Fault _ => False
  end.
Proof. apply (radix_tree_well_formed tagging_caller 0 pool_empty); [lia|apply tagging_caller_safe]. Defined.
Lemma radix_tree_insert_total_witness :
  ∃ r s', radix_tree_insert 70 8 (INIT_RADIX_TREE 0 pool_empty) = Done (r, s') ∧ r ≠ - ENOMEM.
Proof.
  destruct (radix_tree_insert_total (INIT_RADIX_TREE 0 pool_empty) ∅ 70 8) as (r & s' & E & Hr & _);
    [by apply rep_init; lia|lia|done|done|]. exists r, s'. split; [exact E|]. apply Hr. vm_compute. reflexivity.
Defined.

(** Seven preloaded nodes are not always enough for an insertion: with one item at
    index 0, an insertion at the last index takes eleven. *)
Definition nearly_full : pool := Pool (list_to_set (Pos.of_succ_nat <$> seq 0 57)) eq_refl.
Theorem preload_not_enough :
  match (_ ← radix_tree_insert 0 8; p ← radix_tree_preload; r ← radix_tree_insert (2 ^ 32 - 1) 16; mret (p, r)) (INIT_RADIX_TREE 0 nearly_full) with
  | Done (x, _) => x = (0, - ENOMEM)
  | Fault _ => False
  end.
Proof. vm_compute. reflexivity. Qed.
(** At height 0 the tag operations return the word in the root, with the bit that marks
    an item. *)
Theorem tag_set_returns_direct :
  match (_ ← radix_tree_insert 0 8; r ← radix_tree_tag_set 0 0; r' ← radix_tree_tag_clear 0 0; mret (r, r')) (INIT_RADIX_TREE 0 pool_empty) with
  | Done (x, _) => x = (9, 9)
  | Fault _ => False
  end.
Proof. vm_compute. reflexivity. Qed.
(** With an item in the root a gang lookup of no items gives one. *)
Theorem gang_lookup_of_none :
  match (_ ← radix_tree_insert 0 8; radix_tree_gang_lookup 0 0) (INIT_RADIX_TREE 0 pool_empty) with
  | Done (x, _) => x = [8]
  | Fault _ => False
  end.
Proof. vm_compute. reflexivity. Qed.
