(* ===== verification/Mutex.v ===== *)
(** Mutexes: kernel/mutex.c with the fast paths of asm/mutex.h.

    Any number of threads lock, try to lock and unlock one mutex.  A thread's
    calls are the steps between two accesses to what is shared: the counter, the
    spin lock of the list of waiters, the list, and the state and sleep lock of the
    tasks.  The counter is 1 if the mutex is free, 0 if it is locked, and negative
    if it is locked and there may be waiters.  Whether a signal is pending is left
    open, and any task may be woken at any time by others. *)

From S2P Require Import Prelude Sched.

(** What a thread does next. *)
Inductive mpc :=
| MIdle
| MHeld                       (* the thread has the mutex *)
| LFast (intr : bool)         (* mutex_lock, mutex_lock_interruptible: the decrement *)
| TFast                       (* mutex_trylock: the compare-and-exchange *)
| LLock (intr : bool)         (* __mutex_lock_common: spin_lock_mutex *)
| LAdd (intr : bool)          (* list_add_tail *)
| LXchg (intr : bool)         (* atomic_xchg(&lock->count, -1) *)
| LTest (intr : bool)         (* signal_pending, __set_task_state *)
| LUnlock (intr : bool)       (* spin_unlock_mutex *)
| LSwitch (intr : bool)       (* schedule: switch (current->state) *)
| LYield (intr : bool)        (* schedule: dde_kit_thread_schedule *)
| LDown (intr : bool)         (* schedule: dde_kit_sem_down *)
| LRelock (intr : bool)       (* spin_lock_mutex *)
| LIntr                       (* mutex_remove_waiter after a signal *)
| LIntrOut                    (* spin_unlock_mutex, return -EINTR *)
| LGot                        (* mutex_remove_waiter *)
| LEmpty                      (* if (list_empty) atomic_set(&lock->count, 0) *)
| LOut                        (* spin_unlock_mutex *)
| UFast                       (* mutex_unlock: the increment *)
| ULock                       (* __mutex_unlock_common_slowpath: spin_lock_mutex *)
| USet                        (* atomic_set(&lock->count, 1) *)
| UWake                       (* if (!list_empty) wake_up_process: the state *)
| UUp (j : nat)               (* wake_up_process: dde_kit_sem_up *)
| UOut.                       (* spin_unlock_mutex *)

Record mthread := MThread { mt_pc : mpc; mt_task : task }.

(** [struct mutex] and the threads. *)
Record msys := MSys {
  count : Z;
  wait_lock : option nat;
  wait_list : list nat;
  mth : nat → mthread;
}.

Definition set_mpc (pc : mpc) (t : mthread) : mthread := MThread pc (mt_task t).
Definition set_mstate (st : Z) (t : mthread) : mthread := MThread (mt_pc t) (Task st (tk_sleep_lock (mt_task t))).
Definition msem_add (d : Z) (t : mthread) : mthread := MThread (mt_pc t) (Task (tk_state (mt_task t)) (tk_sleep_lock (mt_task t) + d)).

Definition with_count (c : Z) (σ : msys) : msys := MSys c (wait_lock σ) (wait_list σ) (mth σ).
Definition with_wait_lock (l : option nat) (σ : msys) : msys := MSys (count σ) l (wait_list σ) (mth σ).
Definition with_wait_list (q : list nat) (σ : msys) : msys := MSys (count σ) (wait_lock σ) q (mth σ).
Definition mgoto (i : nat) (pc : mpc) (σ : msys) : msys := MSys (count σ) (wait_lock σ) (wait_list σ) (upd_at i (set_mpc pc) (mth σ)).
Definition on_mthread (i : nat) (f : mthread → mthread) (σ : msys) : msys := MSys (count σ) (wait_lock σ) (wait_list σ) (upd_at i f (mth σ)).

Definition spin_lock_mutex (i : nat) (pc : mpc) (σ : msys) : option msys :=
  match wait_lock σ with None => Some (mgoto i pc (with_wait_lock (Some i) σ)) | Some _ => None end.
Definition spin_unlock_mutex (i : nat) (pc : mpc) (σ : msys) : msys := mgoto i pc (with_wait_lock None σ).
Definition mutex_remove_waiter (i : nat) (σ : msys) : msys := with_wait_list (filter (λ j, j ≠ i) (wait_list σ)) σ.

(** The fast paths; the slow path is taken if the new value is negative, or not
    positive. *)
Definition __mutex_fastpath_lock (i : nat) (intr : bool) (σ : msys) : msys :=
  let c := s32 (count σ - 1) in mgoto i (if c <? 0 then LLock intr else MHeld) (with_count c σ).
Definition __mutex_fastpath_unlock (i : nat) (σ : msys) : msys :=
  let c := s32 (count σ + 1) in mgoto i (if 0 <? c then MIdle else ULock) (with_count c σ).
Definition __mutex_fastpath_trylock (i : nat) (σ : msys) : msys :=
  if count σ =? 1 then mgoto i MHeld (with_count 0 σ) else mgoto i MIdle σ.

(** The slow paths; [o] says whether a signal is pending; [None]: the thread
    waits. *)
Definition __mutex_lock_common (i : nat) (o : bool) (pc : mpc) (σ : msys) : option msys :=
  let t := mth σ i in
  match pc with
  | LLock c => spin_lock_mutex i (LAdd c) σ
  | LAdd c => Some (mgoto i (LXchg c) (with_wait_list (wait_list σ ++ [i]) σ))
  | LXchg c => Some (mgoto i (if count σ =? 1 then LGot else LTest c) (with_count (-1) σ))
  | LTest c => Some (if c && o then mgoto i LIntr σ
                     else mgoto i (LUnlock c) (on_mthread i (set_mstate (if c then TASK_INTERRUPTIBLE else TASK_UNINTERRUPTIBLE)) σ))
  | LUnlock c => Some (spin_unlock_mutex i (LSwitch c) σ)
  | LSwitch c => Some (mgoto i (if tk_state (mt_task t) =? TASK_RUNNING then LYield c else LDown c) σ)
  | LYield c => Some (mgoto i (LRelock c) σ)
  | LDown c => if 0 <? tk_sleep_lock (mt_task t) then Some (mgoto i (LRelock c) (on_mthread i (msem_add (-1)) σ)) else None
  | LRelock c => spin_lock_mutex i (LXchg c) σ
  | LIntr => Some (mgoto i LIntrOut (mutex_remove_waiter i σ))
  | LIntrOut => Some (spin_unlock_mutex i MIdle σ)
  | LGot => Some (mgoto i LEmpty (mutex_remove_waiter i σ))
  | LEmpty => Some (mgoto i LOut (match wait_list σ with [] => with_count 0 σ | _ => σ end))
  | LOut => Some (spin_unlock_mutex i MHeld σ)
  | _ => None
  end.
Definition __mutex_unlock_common_slowpath (i : nat) (pc : mpc) (σ : msys) : option msys :=
  match pc with
  | ULock => spin_lock_mutex i USet σ
  | USet => Some (mgoto i UWake (with_count 1 σ))
  | UWake => Some (match wait_list σ with
                   | [] => mgoto i UOut σ
                   | j :: _ => mgoto i (UUp j) (on_mthread j (set_mstate TASK_RUNNING) σ)
                   end)
  | UUp j => Some (mgoto i UOut (on_mthread j (msem_add 1) σ))
  | UOut => Some (spin_unlock_mutex i MIdle σ)
  | _ => None
  end.

(** The next step of thread [i]. *)
Definition mutex_run (i : nat) (o : bool) (σ : msys) : option msys :=
  match mt_pc (mth σ i) with
  | MIdle | MHeld => None
  | LFast c => Some (__mutex_fastpath_lock i c σ)
  | TFast => Some (__mutex_fastpath_trylock i σ)
  | UFast => Some (__mutex_fastpath_unlock i σ)
  | ULock | USet | UWake | UUp _ | UOut => __mutex_unlock_common_slowpath i (mt_pc (mth σ i)) σ
  | pc => __mutex_lock_common i o pc σ
  end.

(** [mutex_init] *)
Definition __mutex_init : msys := MSys 1 None [] (λ _, MThread MIdle (Task TASK_RUNNING 0)).

(** A call starts: a thread without the mutex locks it or tries to, the holder
    unlocks it.  There are [n] threads. *)
Definition may_start (pc pc' : mpc) : bool :=
  match pc, pc' with MIdle, LFast _ | MIdle, TFast | MHeld, UFast => true | _, _ => false end.
Inductive mutex_step (n : nat) : msys → msys → Prop :=
| MsStart σ i pc : (i < n)%nat → may_start (mt_pc (mth σ i)) pc = true → mutex_step n σ (mgoto i pc σ)
| MsRun σ σ' i o : mutex_run i o σ = Some σ' → mutex_step n σ σ'
| MsOtherState σ i : mutex_step n σ (on_mthread i (set_mstate TASK_RUNNING) σ)
| MsOtherUp σ i : mutex_step n σ (on_mthread i (msem_add 1) σ).

(** ** Invariant *)

Definition mlocked (pc : mpc) : bool :=
  match pc with
  | MIdle | MHeld | LFast _ | TFast | LLock _ | LSwitch _ | LYield _ | LDown _ | LRelock _ | UFast | ULock => false
  | _ => true
  end.
Definition mqueued (pc : mpc) : bool :=
  match pc with
  | LXchg _ | LTest _ | LUnlock _ | LSwitch _ | LYield _ | LDown _ | LRelock _ | LIntr | LGot => true
  | _ => false
  end.
(** The thread has the mutex: it took it and has not given it back. *)
Definition owner (pc : mpc) : bool :=
  match pc with MHeld | UFast | ULock | USet | LGot | LEmpty | LOut => true | _ => false end.
(** The thread has decremented the counter and not exchanged it yet. *)
Definition counted (pc : mpc) : bool := match pc with LLock _ | LAdd _ | LXchg _ => true | _ => false end.
(** The thread will wake a waiter, or is a waiter that will try again. *)
Definition helps (t : mthread) : bool :=
  match mt_pc t with
  | ULock | USet | UWake | UUp _ | LXchg _ | LYield _ | LRelock _ => true
  | LSwitch _ => (tk_state (mt_task t) =? TASK_RUNNING) || (0 <? tk_sleep_lock (mt_task t))
  | LDown _ => 0 <? tk_sleep_lock (mt_task t)
  | _ => false
  end.

Abbreviation mpc_of σ i := (mt_pc (mth σ i)).
Abbreviation msem_of σ i := (tk_sleep_lock (mt_task (mth σ i))).

Record mutex_inv (n : nat) (σ : msys) : Prop := {
  mi_lock i : mlocked (mpc_of σ i) = true ↔ wait_lock σ = Some i;
  mi_list i : i ∈ wait_list σ ↔ mqueued (mpc_of σ i) = true;
  mi_unique i j : owner (mpc_of σ i) = true → owner (mpc_of σ j) = true → i = j;
  mi_free : count σ = 1 ∨ ∃ i, owner (mpc_of σ i) = true;
  mi_owned i : owner (mpc_of σ i) = true → count σ ≤ 0;
  mi_cover : wait_list σ ≠ [] → count σ < 0 ∨ ∃ k, helps (mth σ k) = true;
  mi_up i j : mpc_of σ i = UUp j → j ∈ wait_list σ;
  mi_sem i : 0 ≤ msem_of σ i;
  mi_low : - 1 - tally n (λ i, counted (mpc_of σ i)) ≤ count σ ≤ 1;
  mi_idle i : (n ≤ i)%nat → mpc_of σ i = MIdle;
}.

(** A wake-up of another task keeps the invariant. *)
Lemma mutex_inv_on_thread n σ j f : (∀ t, mt_pc (f t) = mt_pc t) → (∀ t, tk_sleep_lock (mt_task t) ≤ tk_sleep_lock (mt_task (f t))) →
  (∀ t, helps t = true → helps (f t) = true) → mutex_inv n σ → mutex_inv n (on_mthread j f σ).
Proof.
  intros Hpc Hsem Hh [H1 H2 H3 H4 H5 H6 H7 H8 H9 H10].
  assert (Ep : ∀ i, mt_pc (upd_at j f (mth σ) i) = mpc_of σ i).
  { intros i. destruct (decide (i = j)) as [->|Hne]; [by rewrite upd_at_eq|by rewrite upd_at_ne]. }
  split; cbn [on_mthread count wait_lock wait_list mth].
  - intros i. rewrite Ep. apply H1.
  - intros i. rewrite Ep. apply H2.
  - intros i k. rewrite !Ep. apply H3.
  - destruct H4 as [?|[i Hi]]; [by left|right; exists i; by rewrite Ep].
  - intros i. rewrite Ep. apply H5.
  - intros E. destruct (H6 E) as [?|[k Hk]]; [by left|right]. exists k. destruct (decide (k = j)) as [->|Hne]; [rewrite upd_at_eq; auto|by rewrite upd_at_ne].
  - intros i k. rewrite Ep. apply H7.
  - intros i. destruct (decide (i = j)) as [->|Hne]; [rewrite upd_at_eq; etransitivity; [apply H8|apply Hsem]|rewrite upd_at_ne by done; apply H8].
  - rewrite (tally_same n (λ i, counted (mpc_of σ i))) by (intros i _; by rewrite Ep). done.
  - intros i. rewrite Ep. apply H10.
Qed.
Lemma helps_state t : helps t = true → helps (set_mstate TASK_RUNNING t) = true.
Proof. unfold helps. cbn. destruct (mt_pc t); try done. Qed.
Lemma helps_up t : helps t = true → helps (msem_add 1 t) = true.
Proof.
  unfold helps. cbn. destruct (mt_pc t); try done.
  - destruct (_ =? TASK_RUNNING); [done|]. cbn. intros ?%Z.ltb_lt. apply Z.ltb_lt. lia.
  - intros ?%Z.ltb_lt. apply Z.ltb_lt. lia.
Qed.

(** What a step of a thread may do to the counter and the ownership. *)
Definition own_step (o o' : bool) (c c' : Z) : Prop :=
  o' = o ∧ (c' = c ∨ c ≤ 0 ∧ c' ≤ 0) ∨ c = 1 ∧ o' = true ∧ c' ≤ 0 ∨ o = true ∧ o' = false ∧ c' = 1.

(** Thread [i] moves on: what its new position and the shared words must satisfy. *)
Lemma mutex_inv_goto n σ σ' i :
  mutex_inv n σ → (i < n)%nat → (∀ j, j ≠ i → mth σ' j = mth σ j) → 0 ≤ msem_of σ' i →
  (mlocked (mpc_of σ' i) = true ↔ wait_lock σ' = Some i) →
  (∀ j, j ≠ i → wait_lock σ' = Some j ↔ wait_lock σ = Some j) →
  (i ∈ wait_list σ' ↔ mqueued (mpc_of σ' i) = true) →
  (∀ j, j ≠ i → j ∈ wait_list σ' ↔ j ∈ wait_list σ) → (wait_list σ' = wait_list σ ∨ mlocked (mpc_of σ i) = true) →
  own_step (owner (mpc_of σ i)) (owner (mpc_of σ' i)) (count σ) (count σ') →
  (wait_list σ' ≠ [] → helps (mth σ' i) = true ∨ count σ' < 0 ∨ (∃ k, k ≠ i ∧ helps (mth σ k) = true) ∨
     (wait_list σ ≠ [] ∧ helps (mth σ i) = false ∧ (count σ < 0 → count σ' < 0))) →
  (∀ j, mpc_of σ' i = UUp j → j ∈ wait_list σ') →
  - 1 - tally n (λ j, counted (mpc_of σ j)) + bool2Z (counted (mpc_of σ i)) - bool2Z (counted (mpc_of σ' i)) ≤ count σ' ≤ 1 →
  mutex_inv n σ'.
Proof.
  intros [H1 H2 H3 H4 H5 H6 H7 H8 H9 H10] Hn Hj Hs Hl Hl' Hq Hq' Hqc Ho Hcov Hup Hlow. split.
  - intros j. destruct (decide (j = i)) as [->|Hne]; [done|]. rewrite Hj, Hl', H1 by done. done.
  - intros j. destruct (decide (j = i)) as [->|Hne]; [done|]. rewrite Hj, Hq', H2 by done. done.
  - assert (Hu : ∀ j, j ≠ i → owner (mpc_of σ' i) = true → owner (mpc_of σ j) = true → False).
    { intros j Hne Oi Oj. destruct Ho as [[E _]|[[E _]|(_ & E & _)]]; [|specialize (H5 j Oj); lia|congruence]. apply Hne, H3; congruence. }
    intros j k Oj Ok. destruct (decide (j = i)) as [->|Hnj], (decide (k = i)) as [->|Hnk]; [done|rewrite Hj in Ok by done; by destruct (Hu k)|rewrite Hj in Oj by done; by destruct (Hu j)|].
    rewrite Hj in Oj, Ok by done. by apply H3.
  - destruct Ho as [[E Hc]|[(_ & E & _)|(_ & _ & E)]]; [|right; by exists i|by left].
    destruct H4 as [E1|[k Ok]]; [left; lia|]. right. exists k. destruct (decide (k = i)) as [->|]; [congruence|by rewrite Hj].
  - intros j Oj. destruct Ho as [[E Hc]|[(_ & E & Hc)|(Oi & E & Hc)]]; [|done|].
    + assert (count σ ≤ 0); [|lia]. apply (H5 j). destruct (decide (j = i)) as [->|]; [congruence|by rewrite Hj in Oj].
    + destruct (decide (j = i)) as [->|Hne]; [congruence|]. rewrite Hj in Oj by done. by destruct Hne; apply H3.
  - intros E. destruct (Hcov E) as [?|[?|[(k & Hne & Hk)|(Hw & Hi & Hc)]]]; [right; by exists i|by left|right; exists k; by rewrite Hj|].
    destruct (H6 Hw) as [?|[k Hk]]; [left; auto|]. right. exists k. rewrite Hj; [done|]. intros ->. congruence.
  - intros j k Ej. destruct (decide (j = i)) as [->|Hne]; [by apply Hup|]. rewrite Hj in Ej by done. pose proof (H7 j k Ej) as Hin.
    destruct Hqc as [->|L]; [done|]. exfalso. apply H1 in L. assert (L' : wait_lock σ = Some j) by (apply H1; by rewrite Ej). congruence.
  - intros j. destruct (decide (j = i)) as [->|Hne]; [done|]. rewrite Hj by done. apply H8.
  - rewrite (tally_change n (λ j, counted (mpc_of σ j)) (λ j, counted (mpc_of σ' j)) i Hn); [lia|]. intros j Hne. by rewrite Hj.
  - intros j Hle. rewrite Hj by lia. by apply H10.
Qed.

(** A step that leaves the counter, the spin lock and the list. *)
Lemma mutex_inv_local n σ σ' i :
  mutex_inv n σ → (i < n)%nat → (∀ j, j ≠ i → mth σ' j = mth σ j) → 0 ≤ msem_of σ' i →
  count σ' = count σ → wait_lock σ' = wait_lock σ → wait_list σ' = wait_list σ →
  mlocked (mpc_of σ' i) = mlocked (mpc_of σ i) → mqueued (mpc_of σ' i) = mqueued (mpc_of σ i) →
  owner (mpc_of σ' i) = owner (mpc_of σ i) → counted (mpc_of σ' i) = counted (mpc_of σ i) →
  (helps (mth σ i) = true → helps (mth σ' i) = true ∨ wait_list σ = [] ∨ ∃ k, k ≠ i ∧ helps (mth σ k) = true) →
  (∀ j, mpc_of σ' i = UUp j → j ∈ wait_list σ) →
  mutex_inv n σ'.
Proof.
  intros I Hn Hj Hs Ec El Eq Hl Hq Ho Hc Hh Hup. apply (mutex_inv_goto n σ σ' i I Hn Hj Hs); rewrite ?Ec, ?El, ?Eq, ?Hl, ?Hq, ?Ho, ?Hc; auto.
  - apply (mi_lock n σ I).
  - apply (mi_list n σ I).
  - left. auto.
  - intros E. destruct (helps (mth σ i)) eqn:Eh; [|auto 6]. destruct (Hh eq_refl) as [?|[?|?]]; [auto|done|auto].
  - pose proof (mi_low n σ I). lia.
Qed.
(** A step that takes or gives up the spin lock. *)
Lemma mutex_inv_spin n σ i pc l :
  mutex_inv n σ → (i < n)%nat →
  (wait_lock σ = None ∧ mlocked pc = true ∧ l = Some i ∨ mlocked (mpc_of σ i) = true ∧ mlocked pc = false ∧ l = None) →
  mqueued pc = mqueued (mpc_of σ i) → owner pc = owner (mpc_of σ i) → (counted (mpc_of σ i) = true → counted pc = true) →
  (helps (mth σ i) = true → helps (set_mpc pc (mth σ i)) = true) → (∀ j, pc ≠ UUp j) →
  mutex_inv n (mgoto i pc (with_wait_lock l σ)).
Proof.
  intros I Hn Hl Hq Ho Hc Hh Hup. apply (mutex_inv_goto n σ _ i I Hn); cbn [mgoto with_wait_lock count wait_lock wait_list mth]; rewrite ?upd_at_eq; cbn [set_mpc mt_pc mt_task]; auto.
  - intros j Hne. by rewrite upd_at_ne.
  - apply (mi_sem n σ I).
  - destruct Hl as [(_ & -> & ->)|(_ & -> & ->)]; split; congruence.
  - intros j Hne. destruct Hl as [(E & _ & ->)|(L & _ & ->)]; [split; congruence|]. apply (mi_lock n σ I) in L. split; congruence.
  - rewrite Hq. apply (mi_list n σ I).
  - rewrite Ho. left. auto.
  - intros E. destruct (helps (mth σ i)) eqn:Eh; auto 6.
  - intros j E. by destruct (Hup j).
  - pose proof (mi_low n σ I). destruct (counted (mpc_of σ i)), (counted pc); cbn; try lia.
Qed.
(** A step of the holder of the spin lock that changes the list. *)
Lemma mutex_inv_queue n σ i pc q :
  mutex_inv n σ → (i < n)%nat → mlocked (mpc_of σ i) = true → mlocked pc = true →
  (i ∈ q ↔ mqueued pc = true) → (∀ j, j ≠ i → j ∈ q ↔ j ∈ wait_list σ) → owner pc = owner (mpc_of σ i) → counted pc = counted (mpc_of σ i) →
  helps (set_mpc pc (mth σ i)) = true ∨ (q ≠ [] → wait_list σ ≠ []) ∧ helps (mth σ i) = false → (∀ j, pc ≠ UUp j) →
  mutex_inv n (mgoto i pc (with_wait_list q σ)).
Proof.
  intros I Hn L L' Hq Hq' Ho Hc Hh Hup. apply (mutex_inv_goto n σ _ i I Hn); cbn [mgoto with_wait_list count wait_lock wait_list mth]; rewrite ?upd_at_eq; cbn [set_mpc mt_pc mt_task]; auto.
  - intros j Hne. by rewrite upd_at_ne.
  - apply (mi_sem n σ I).
  - rewrite L'. split; [|done]. intros _. by apply (mi_lock n σ I).
  - rewrite Ho. left. auto.
  - intros E. destruct Hh as [?|[Hw ?]]; [auto|]. auto 8.
  - intros j E. by destruct (Hup j).
  - rewrite Hc. pose proof (mi_low n σ I). lia.
Qed.
(** A step that changes the counter. *)
Lemma mutex_inv_count n σ i pc c :
  mutex_inv n σ → (i < n)%nat → mlocked pc = mlocked (mpc_of σ i) → mqueued pc = mqueued (mpc_of σ i) →
  own_step (owner (mpc_of σ i)) (owner pc) (count σ) c →
  c < 0 ∨ helps (set_mpc pc (mth σ i)) = true ∨ wait_list σ = [] ∨ helps (mth σ i) = false ∧ 0 ≤ count σ → (∀ j, pc ≠ UUp j) →
  - 1 - tally n (λ j, counted (mpc_of σ j)) + bool2Z (counted (mpc_of σ i)) - bool2Z (counted pc) ≤ c ≤ 1 →
  mutex_inv n (mgoto i pc (with_count c σ)).
Proof.
  intros I Hn L Hq Ho Hh Hup Hc. apply (mutex_inv_goto n σ _ i I Hn); cbn [mgoto with_count count wait_lock wait_list mth]; rewrite ?upd_at_eq; cbn [set_mpc mt_pc mt_task]; auto.
  - intros j Hne. by rewrite upd_at_ne.
  - apply (mi_sem n σ I).
  - rewrite L. apply (mi_lock n σ I).
  - rewrite Hq. apply (mi_list n σ I).
  - intros E. destruct Hh as [?|[?|[?|[? ?]]]]; [auto|auto|done|]. right. right. right. split; [done|]. split; [done|]. lia.
  - intros j E. by destruct (Hup j).
Qed.

Lemma remove_waiter_self (i : nat) (q : list nat) : i ∈ filter (λ j, j ≠ i) q ↔ false = true.
Proof. rewrite list_elem_of_filter. split; naive_solver. Qed.
Lemma remove_waiter_other (i j : nat) (q : list nat) : j ≠ i → j ∈ filter (λ j, j ≠ i) q ↔ j ∈ q.
Proof. rewrite list_elem_of_filter. split; naive_solver. Qed.

Lemma active n σ i : mutex_inv n σ → mpc_of σ i ≠ MIdle → (i < n)%nat.
Proof. intros I Hne. destruct (decide (i < n)%nat) as [|Hge]; [done|]. destruct Hne. apply (mi_idle n σ I). lia. Qed.

(** The fast paths. *)
Lemma mutex_inv_fast n σ i : Z.of_nat n < 2 ^ 31 → mutex_inv n σ →
  (∀ c, mpc_of σ i = LFast c → mutex_inv n (__mutex_fastpath_lock i c σ)) ∧
  (mpc_of σ i = TFast → mutex_inv n (__mutex_fastpath_trylock i σ)) ∧
  (mpc_of σ i = UFast → mutex_inv n (__mutex_fastpath_unlock i σ)).
Proof.
  intros Hn I. pose proof (mi_low n σ I) as Hlow. split; [intros c E|split; intros E];
    assert (Hi : (i < n)%nat) by (apply (active n σ i I); by rewrite E); assert (Hh : helps (mth σ i) = false) by (unfold helps; by rewrite E).
  - pose proof (tally_less n (λ j, counted (mpc_of σ j)) i Hi ltac:(cbn; by rewrite E)) as Ht. pose proof (tally_bound n (λ j, counted (mpc_of σ j))). unfold __mutex_fastpath_lock. rewrite s32_small by lia.
    destruct (Z.ltb_spec (count σ - 1) 0); apply mutex_inv_count; rewrite ?E; try done; cbn [owner counted bool2Z]; try lia.
    + left. split; [done|lia].
    + right. left. lia.
    + right. right. right. split; [done|lia].
  - unfold __mutex_fastpath_trylock. destruct (Z.eqb_spec (count σ) 1) as [E1|E1].
    + apply mutex_inv_count; rewrite ?E; try done; cbn [owner counted bool2Z]; [right; left; lia|right; right; right; split; [done|lia]|].
      pose proof (tally_bound n (λ j, counted (mpc_of σ j))). lia.
    + apply (mutex_inv_local n σ _ i I Hi); cbn [mgoto count wait_lock wait_list mth]; rewrite ?upd_at_eq, ?E; try done; [|apply (mi_sem n σ I)|unfold helps; by rewrite E].
      intros j Hne. by rewrite upd_at_ne.
  - pose proof (tally_bound n (λ j, counted (mpc_of σ j))) as Ht. assert (Hc : count σ ≤ 0) by (apply (mi_owned n σ I i); by rewrite E).
    unfold __mutex_fastpath_unlock. rewrite s32_small by lia.
    destruct (Z.ltb_spec 0 (count σ + 1)); apply mutex_inv_count; rewrite ?E; try done; cbn [owner counted bool2Z]; try lia.
    + right. right. repeat split. lia.
    + right. right. right. split; [done|lia].
    + left. split; [done|lia].
    + right. by left.
Qed.

Lemma mpc_on_thread σ i j f : (∀ t, mt_pc (f t) = mt_pc t) → mpc_of (on_mthread j f σ) i = mpc_of σ i.
Proof. intros Hf. cbn [on_mthread mth]. destruct (decide (i = j)) as [->|Hne]; [by rewrite upd_at_eq|by rewrite upd_at_ne]. Qed.

Ltac mfacts I i :=
  cbn [mgoto with_count with_wait_lock with_wait_list on_mthread mth count wait_lock wait_list];
  rewrite ?upd_at_eq; cbn [set_mpc set_mstate msem_add mt_pc mt_task tk_state tk_sleep_lock];
  first [ by intros; rewrite ?(upd_at_ne i) by done | exact (mi_sem _ _ I i) | done ].

Lemma mutex_inv_run n σ σ' i o : Z.of_nat n < 2 ^ 31 → mutex_inv n σ → mutex_run i o σ = Some σ' → mutex_inv n σ'.
Proof.
  intros Hn I. destruct (mutex_inv_fast n σ i Hn I) as (HL & HT & HU). pose proof (mi_low n σ I) as Hlow. pose proof (tally_bound n (λ j, counted (mpc_of σ j))) as Ht.
  assert (Hi : mpc_of σ i ≠ MIdle → (i < n)%nat) by apply active, I.
  assert (Hh : helps (mth σ i) = helps (MThread (mpc_of σ i) (mt_task (mth σ i)))) by done.
  unfold mutex_run, __mutex_lock_common, __mutex_unlock_common_slowpath, spin_lock_mutex, spin_unlock_mutex, mutex_remove_waiter.
  destruct (mpc_of σ i) as [| |c| |c|c|c|c|c|c|c|c|c| | | | | | | | | |j|] eqn:Epc; intros E; simplify_eq; try (specialize (Hi ltac:(done))); auto.
  - destruct (wait_lock σ) eqn:El; simplify_eq. apply mutex_inv_spin; rewrite ?Epc; auto; by rewrite Hh.
  - apply mutex_inv_queue; rewrite ?Epc; auto; set_solver.
  - destruct (Z.eqb_spec (count σ) 1) as [E1|E1]; apply mutex_inv_count; rewrite ?Epc; auto; cbn [owner counted bool2Z]; try lia.
    + right. left. lia.
    + pose proof (tally_pos n (λ j, counted (mpc_of σ j)) i Hi ltac:(cbn; by rewrite Epc)). lia.
    + left. split; [done|lia].
    + pose proof (tally_pos n (λ j, counted (mpc_of σ j)) i Hi ltac:(cbn; by rewrite Epc)). lia.
  - destruct (c && o); (apply (mutex_inv_local n σ _ i I Hi); rewrite ?Epc; try mfacts I i); rewrite Hh; done.
  - apply mutex_inv_spin; rewrite ?Epc; auto; by rewrite Hh.
  - destruct (tk_state (mt_task (mth σ i)) =? TASK_RUNNING) eqn:Es; (apply (mutex_inv_local n σ _ i I Hi); rewrite ?Epc; try mfacts I i); rewrite Hh; cbn; rewrite upd_at_eq; cbn [helps mt_pc mt_task]; rewrite Es; auto.
  - apply (mutex_inv_local n σ _ i I Hi); rewrite ?Epc; try mfacts I i. left. cbn. by rewrite upd_at_eq.
  - destruct (Z.ltb_spec 0 (msem_of σ i)) as [Hs|]; simplify_eq. apply (mutex_inv_local n σ _ i I Hi); rewrite ?Epc; try mfacts I i.
    + cbn. rewrite !upd_at_eq. cbn. lia.
    + left. cbn. by rewrite !upd_at_eq.
  - destruct (wait_lock σ) eqn:El; simplify_eq. apply mutex_inv_spin; rewrite ?Epc; auto; by rewrite Hh.
  - apply mutex_inv_queue; rewrite ?Epc; auto using remove_waiter_self, remove_waiter_other; try done. right. split; [|by rewrite Hh]. intros Hq E0. by rewrite E0 in Hq.
  - apply mutex_inv_spin; rewrite ?Epc; auto; by rewrite Hh.
  - apply mutex_inv_queue; rewrite ?Epc; auto using remove_waiter_self, remove_waiter_other; try done. right. split; [|by rewrite Hh]. intros Hq E0. by rewrite E0 in Hq.
  - assert (Hc : count σ ≤ 0) by (apply (mi_owned n σ I i); by rewrite Epc). destruct (wait_list σ) eqn:El.
    + apply mutex_inv_count; rewrite ?Epc; auto; cbn [owner counted bool2Z]; [|lia]. left. split; [done|lia].
    + apply (mutex_inv_local n σ _ i I Hi); rewrite ?Epc; try mfacts I i. rewrite Hh. done.
  - apply mutex_inv_spin; rewrite ?Epc; auto; by rewrite Hh.
  - destruct (wait_lock σ) eqn:El; simplify_eq. apply mutex_inv_spin; rewrite ?Epc; auto; by rewrite Hh.
  - assert (Hc : count σ ≤ 0) by (apply (mi_owned n σ I i); by rewrite Epc). apply mutex_inv_count; rewrite ?Epc; auto; cbn [owner counted bool2Z]; [|lia]. right. right. done.
  - destruct (wait_list σ) as [|j l] eqn:El.
    + apply (mutex_inv_local n σ _ i I Hi); rewrite ?Epc; try mfacts I i. by right; left.
    + assert (I' : mutex_inv n (on_mthread j (set_mstate TASK_RUNNING) σ)) by (apply mutex_inv_on_thread; [done|done|apply helps_state|done]).
      apply (mutex_inv_local n _ _ i I' Hi); rewrite ?mpc_on_thread, ?Epc by done; try mfacts I' i.
      * intros _. left. cbn. by rewrite upd_at_eq.
      * cbn. rewrite upd_at_eq. intros k [= <-]. rewrite El. set_solver.
  - assert (I' : mutex_inv n (on_mthread j (msem_add 1) σ)).
    { apply mutex_inv_on_thread; [done|intros t; cbn; lia|apply helps_up|done]. }
    apply (mutex_inv_local n _ _ i I' Hi); rewrite ?mpc_on_thread, ?Epc by done; try mfacts I' i.
    intros _. right. right. pose proof (mi_up n σ I i j Epc) as Hin. apply (mi_list n σ I) in Hin. exists j. split; [intros ->; by rewrite Epc in Hin|].
    assert (L : mlocked (mpc_of σ j) = false).
    { apply not_true_is_false. intros L. apply (mi_lock n σ I) in L. assert (L' : wait_lock σ = Some i) by (apply (mi_lock n σ I); by rewrite Epc).
      assert (i = j) as -> by congruence. by rewrite Epc in Hin. }
    pose proof (mi_sem n σ I j). unfold helps. cbn. rewrite upd_at_eq. cbn.
    destruct (mpc_of σ j); try done; [apply orb_true_iff; right|]; apply Z.ltb_lt; lia.
  - apply mutex_inv_spin; rewrite ?Epc; auto; by rewrite Hh.
Qed.

Lemma mutex_inv_step n σ σ' : Z.of_nat n < 2 ^ 31 → mutex_inv n σ → mutex_step n σ σ' → mutex_inv n σ'.
Proof.
  intros Hn I Hst. destruct Hst as [σ i pc Hi Hs|σ σ' i o E|σ i|σ i].
  - apply (mutex_inv_local n σ _ i I Hi); cbn [mgoto count wait_lock wait_list mth]; rewrite ?upd_at_eq; cbn [set_mpc mt_pc mt_task]; try done.
    1: intros j Hne; by rewrite upd_at_ne.
    1: apply (mi_sem n σ I).
    all: unfold helps; destruct (mpc_of σ i), pc; done.
  - by eapply mutex_inv_run.
  - apply mutex_inv_on_thread; [done|done|apply helps_state|done].
  - apply mutex_inv_on_thread; [done|intros t; cbn; lia|apply helps_up|done].
Qed.
Lemma mutex_inv_init n : mutex_inv n __mutex_init.
Proof.
  split; cbn; try done; try (intros; split; [|done]; set_solver); [by left|]. pose proof (tally_bound n (λ _, false)). lia.
Qed.
Lemma mutex_inv_reachable n σ : Z.of_nat n < 2 ^ 31 → rtc (mutex_step n) __mutex_init σ → mutex_inv n σ.
Proof. intros Hn Hr. pose proof (mutex_inv_init n) as H0. revert H0. induction Hr; eauto using mutex_inv_step. Qed.

(** A thread that cannot go on is outside, waits for the spin lock or sleeps. *)
Lemma mutex_blocked σ i : (∀ o, mutex_run i o σ = None) →
  mpc_of σ i = MIdle ∨ mpc_of σ i = MHeld ∨ is_Some (wait_lock σ) ∧ mlocked (mpc_of σ i) = false ∨ (∃ c, mpc_of σ i = LDown c) ∧ msem_of σ i ≤ 0.
Proof.
  intros Hb. specialize (Hb true). unfold mutex_run, __mutex_lock_common, __mutex_unlock_common_slowpath, spin_lock_mutex in Hb.
  destruct (mpc_of σ i) as [| |c| |c|c|c|c|c|c|c|c|c| | | | | | | | | |j|]; auto; try done; try (destruct (wait_lock σ); [right; right; left; eauto|done]).
  right. right. right. destruct (Z.ltb_spec 0 (msem_of σ i)); [done|]. eauto.
Qed.

(** C24: mutual exclusion: in every interleaving of locks, interruptible locks, attempts and unlocks by
    fewer than 2^31 threads, at most one thread has the mutex; the counter
    does not overflow, is 1 exactly if nobody has the mutex, and the threads in the list
    are those that wait. *)
Theorem mutex_exclusion n (σ : msys) : Z.of_nat n < 2 ^ 31 → rtc (mutex_step n) __mutex_init σ →
  (∀ i j, owner (mpc_of σ i) = true → owner (mpc_of σ j) = true → i = j) ∧
  (count σ = 1 ↔ ∀ i, owner (mpc_of σ i) = false) ∧ - 2 ^ 31 ≤ count σ ≤ 1 ∧
  ∀ i, i ∈ wait_list σ ↔ mqueued (mpc_of σ i) = true.
Proof.
  intros Hn Hr. pose proof (mutex_inv_reachable n σ Hn Hr) as I. split; [apply (mi_unique n σ I)|]. split; [|split; [|apply (mi_list n σ I)]].
  - split.
    + intros E i. apply not_true_is_false. intros O. pose proof (mi_owned n σ I i O). lia.
    + intros Hno. destruct (mi_free n σ I) as [?|[i O]]; [done|]. by rewrite Hno in O.
  - pose proof (mi_low n σ I). pose proof (tally_bound n (λ i, counted (mpc_of σ i))). lia.
Qed.

(** C25: no wake-up is lost: if no thread can go on by itself and one sleeps in
    [mutex_lock], then a thread has the mutex and is free to unlock it, and the unlock
    takes the slow path, which wakes a waiter. *)
Theorem mutex_no_lost_wakeup n (σ : msys) : Z.of_nat n < 2 ^ 31 → rtc (mutex_step n) __mutex_init σ →
  (∀ i o, mutex_run i o σ = None) →
  ∀ i c, mpc_of σ i = LDown c → ∃ k, mpc_of σ k = MHeld ∧ mpc_of (__mutex_fastpath_unlock k σ) k = ULock.
Proof.
  intros Hn Hr Hb i c E. pose proof (mutex_inv_reachable n σ Hn Hr) as I.
  assert (Hfree : wait_lock σ = None).
  { destruct (wait_lock σ) as [k|] eqn:El; [|done]. apply (mi_lock n σ I) in El.
    destruct (mutex_blocked σ k (Hb k)) as [E1|[E1|[[_ E1]|[(c1 & E1) _]]]]; rewrite E1 in El; done. }
  assert (Hall : ∀ k, mpc_of σ k = MIdle ∨ mpc_of σ k = MHeld ∨ (∃ c, mpc_of σ k = LDown c) ∧ msem_of σ k ≤ 0).
  { intros k. destruct (mutex_blocked σ k (Hb k)) as [?|[?|[[[x Hx] _]|?]]]; [auto|auto|congruence|auto]. }
  assert (Hq : wait_list σ ≠ []) by (intros E0; assert (i ∈ wait_list σ) as Hin by (apply (mi_list n σ I); by rewrite E); rewrite E0 in Hin; by apply elem_of_nil in Hin).
  assert (Hc : count σ < 0).
  { destruct (mi_cover n σ I Hq) as [?|[k Hk]]; [done|]. exfalso. unfold helps in Hk.
    destruct (Hall k) as [Ek|[Ek|[[c' Ek] Hs]]]; rewrite Ek in Hk; try done. apply Z.ltb_lt in Hk. lia. }
  destruct (mi_free n σ I) as [?|[k O]]; [lia|]. exists k. split.
  - destruct (Hall k) as [Ek|[Ek|[[c' Ek] _]]]; [|done|]; by rewrite Ek in O.
  - pose proof (mi_low n σ I). pose proof (tally_bound n (λ i, counted (mpc_of σ i))). unfold __mutex_fastpath_unlock. rewrite s32_small by lia. cbn. rewrite upd_at_eq. cbn.
    destruct (Z.ltb_spec 0 (count σ + 1)); [lia|done].
Qed.

(** A schedule: threads that start calls ([inl]) or take their next step ([inr]). *)
Fixpoint mutex_exec (l : list (nat * mpc + nat)) (σ : msys) : msys :=
  match l with
  | [] => σ
  | inl (i, pc) :: l => mutex_exec l (if may_start (mpc_of σ i) pc then mgoto i pc σ else σ)
  | inr i :: l => mutex_exec l (default σ (mutex_run i false σ))
  end.
Definition below (n : nat) (x : nat * mpc + nat) : bool := match x with inl (i, _) => bool_decide (i < n)%nat | inr _ => true end.
Lemma mutex_exec_reachable n l σ : forallb (below n) l = true → rtc (mutex_step n) σ (mutex_exec l σ).
Proof.
  revert σ. induction l as [|[[i pc]|i] l IH]; intros σ; cbn [mutex_exec forallb]; [intros _; apply rtc_refl|intros [Hi%bool_decide_eq_true Hl]%andb_true_iff|intros Hl].
  - destruct (may_start _ _) eqn:E; [|by apply IH]. eapply rtc_l; [by apply MsStart|by apply IH].
  - destruct (mutex_run i false σ) as [σ'|] eqn:E; [|by apply IH]. eapply rtc_l; [by eapply MsRun|by apply IH].
Qed.

(** Thread 0 has the mutex, thread 1 sleeps; then thread 0 unlocks and thread 1 gets it. *)
Definition contended : msys := mutex_exec ([inl (0%nat, LFast false); inr 0%nat; inl (1%nat, LFast false)] ++ replicate 8 (inr 1%nat)) __mutex_init.
Definition handed_over : msys := mutex_exec (inl (0%nat, UFast) :: replicate 6 (inr 0%nat) ++ replicate 6 (inr 1%nat)) contended.
Lemma mutex_exclusion_witness : mpc_of handed_over 1 = MHeld ∧ mpc_of handed_over 0 = MIdle ∧
  ∀ i, owner (mpc_of handed_over i) = true → i = 1%nat.
Proof.
  split; [vm_compute; reflexivity|]. split; [vm_compute; reflexivity|]. intros i Hi.
  apply (mutex_exclusion 2 handed_over); [lia| |exact Hi|vm_compute; reflexivity].
  unfold handed_over, contended. etransitivity; apply mutex_exec_reachable; vm_compute; reflexivity.
Defined.
Lemma mutex_no_lost_wakeup_witness : ∃ k, mpc_of contended k = MHeld ∧ mpc_of (__mutex_fastpath_unlock k contended) k = ULock.
Proof.
  refine (mutex_no_lost_wakeup 2 contended _ _ _ 1 false _); [lia|apply mutex_exec_reachable; vm_compute; reflexivity| |vm_compute; reflexivity].
  intros [|[|i]] o; vm_compute; reflexivity.
Defined.
