(* ===== verification/Semaphore.v ===== *)
(** Semaphores: lib/semaphore-sleepers.c with the fast paths of asm/semaphore.h.

    Any number of threads call [down], [down_interruptible], [down_trylock] and
    [up] on one semaphore.  The counter goes down with every attempt; what the
    threads that failed have taken too much is kept in [sleepers] and put back
    by the next thread that tries.  The field [sleepers] and the wait queue are
    only used under the lock of the queue, so that a step is what a thread does
    between two accesses to the counter, the lock or the state of a task.
    Whether a signal is pending is left open, and any task may be woken at any
    time by others. *)

From S2P Require Import Prelude Sched.

(** What a thread does next; [intr]: in [down_interruptible]. *)
Inductive sempc :=
| SIdle
| DFast (intr : bool)        (* down, down_interruptible: the decrement *)
| DState (intr : bool)       (* __down: tsk->state = TASK_... *)
| DLock (intr : bool)        (* spin_lock_irqsave *)
| DAdd (intr : bool)         (* add_wait_queue_exclusive_locked, sem->sleepers++ *)
| DTry (intr : bool)         (* signal_pending, atomic_add_negative, sem->sleepers = ... *)
| DUnlock (intr : bool)      (* spin_unlock_irqrestore *)
| DSwitch (intr : bool)      (* schedule: switch (current->state) *)
| DYield (intr : bool)       (* schedule: dde_kit_thread_schedule *)
| DDown (intr : bool)        (* schedule: dde_kit_sem_down *)
| DRelock (intr : bool)      (* spin_lock_irqsave *)
| DAgain (intr : bool)       (* tsk->state = TASK_... *)
| DRemove                    (* remove_wait_queue_locked *)
| SWake (rest : list nat) (own : bool)           (* __wake_up_common: the entries left *)
| SUp (j : nat) (rest : list nat) (own : bool)   (* try_to_wake_up: dde_kit_sem_up *)
| SUnlock (own : bool)       (* spin_unlock_irqrestore *)
| SRunning                   (* tsk->state = TASK_RUNNING *)
| TFast                      (* down_trylock: the decrement *)
| TLock                      (* __down_trylock: spin_lock_irqsave *)
| TTry                       (* atomic_add_negative, sem->sleepers = 0 *)
| UFast                      (* up: the increment *)
| ULock.                     (* __up: wake_up: spin_lock_irqsave *)

Record sthread := SThread { st_pc : sempc; st_task : task }.

(** [struct semaphore], the threads, and how often it was taken and given back. *)
Record ssys := SSys {
  s_count : Z;
  sleepers : Z;
  s_lock : option nat;
  s_queue : list nat;
  sth : nat → sthread;
  s_taken : Z;
  s_ups : Z;
}.

Definition set_sempc (pc : sempc) (t : sthread) : sthread := SThread pc (st_task t).
Definition set_sstate (st : Z) (t : sthread) : sthread := SThread (st_pc t) (Task st (tk_sleep_lock (st_task t))).
Definition ssem_add (d : Z) (t : sthread) : sthread := SThread (st_pc t) (Task (tk_state (st_task t)) (tk_sleep_lock (st_task t) + d)).

Definition sgoto (i : nat) (pc : sempc) (σ : ssys) : ssys :=
  SSys (s_count σ) (sleepers σ) (s_lock σ) (s_queue σ) (upd_at i (set_sempc pc) (sth σ)) (s_taken σ) (s_ups σ).
Definition on_sthread (i : nat) (f : sthread → sthread) (σ : ssys) : ssys :=
  SSys (s_count σ) (sleepers σ) (s_lock σ) (s_queue σ) (upd_at i f (sth σ)) (s_taken σ) (s_ups σ).
Definition with_slock (l : option nat) (σ : ssys) : ssys := SSys (s_count σ) (sleepers σ) l (s_queue σ) (sth σ) (s_taken σ) (s_ups σ).
Definition with_squeue (q : list nat) (σ : ssys) : ssys := SSys (s_count σ) (sleepers σ) (s_lock σ) q (sth σ) (s_taken σ) (s_ups σ).
Definition with_scount (c s : Z) (σ : ssys) : ssys := SSys c s (s_lock σ) (s_queue σ) (sth σ) (s_taken σ) (s_ups σ).
Definition took (σ : ssys) : ssys := SSys (s_count σ) (sleepers σ) (s_lock σ) (s_queue σ) (sth σ) (s_taken σ + 1) (s_ups σ).
Definition gave (σ : ssys) : ssys := SSys (s_count σ) (sleepers σ) (s_lock σ) (s_queue σ) (sth σ) (s_taken σ) (s_ups σ + 1).
Definition sacquire (i : nat) (pc : sempc) (σ : ssys) : option ssys :=
  match s_lock σ with None => Some (sgoto i pc (with_slock (Some i) σ)) | Some _ => None end.

(** The fast paths: the decrement and what follows if the result is negative, and
    the increment, after which [__up] is called unless the result is positive. *)
Definition down_fast (i : nat) (fail : sempc) (σ : ssys) : ssys :=
  let c := s32 (s_count σ - 1) in
  if c <? 0 then sgoto i fail (with_scount c (sleepers σ) σ) else sgoto i SIdle (took (with_scount c (sleepers σ) σ)).
Definition up (i : nat) (σ : ssys) : ssys :=
  let c := s32 (s_count σ + 1) in
  sgoto i (if 0 <? c then SIdle else ULock) (gave (with_scount c (sleepers σ) σ)).

Definition sleep_state (intr : bool) : Z := if intr then TASK_INTERRUPTIBLE else TASK_UNINTERRUPTIBLE.
(** [__down] and [__down_interruptible]; [o]: a signal is pending. *)
Definition __down (i : nat) (o : bool) (pc : sempc) (σ : ssys) : option ssys :=
  let t := sth σ i in
  match pc with
  | DState c => Some (sgoto i (DLock c) (on_sthread i (set_sstate (sleep_state c)) σ))
  | DLock c => sacquire i (DAdd c) σ
  | DAdd c => Some (sgoto i (DTry c) (with_scount (s_count σ) (s32 (sleepers σ + 1)) (with_squeue (s_queue σ ++ [i]) σ)))
  | DTry c =>
      if c && o then Some (sgoto i DRemove (with_scount (s32 (s_count σ + sleepers σ)) 0 σ)) else
      let v := s32 (s_count σ + (sleepers σ - 1)) in
      Some (if v <? 0 then sgoto i (DUnlock c) (with_scount v 1 σ) else sgoto i DRemove (took (with_scount v 0 σ)))
  | DUnlock c => Some (sgoto i (DSwitch c) (with_slock None σ))
  | DSwitch c => Some (sgoto i (if tk_state (st_task t) =? TASK_RUNNING then DYield c else DDown c) σ)
  | DYield c => Some (sgoto i (DRelock c) σ)
  | DDown c => if 0 <? tk_sleep_lock (st_task t) then Some (sgoto i (DRelock c) (on_sthread i (ssem_add (-1)) σ)) else None
  | DRelock c => sacquire i (DAgain c) σ
  | DAgain c => Some (sgoto i (DTry c) (on_sthread i (set_sstate (sleep_state c)) σ))
  | DRemove => let q := filter (λ j, j ≠ i) (s_queue σ) in Some (sgoto i (SWake q true) (with_squeue q σ))
  | SRunning => Some (sgoto i SIdle (on_sthread i (set_sstate TASK_RUNNING) σ))
  | _ => None
  end.
(** [__down_trylock] *)
Definition __down_trylock (i : nat) (pc : sempc) (σ : ssys) : option ssys :=
  match pc with
  | TLock => sacquire i TTry σ
  | TTry => let v := s32 (s_count σ + (sleepers σ + 1)) in
            Some (sgoto i (if v <? 0 then SUnlock false else SWake (s_queue σ) false) (with_scount v 0 σ))
  | _ => None
  end.
(** [wake_up_locked], which goes through the whole queue: the wake function of the
    port always returns 0; [__up] takes the lock before. *)
Definition __up (i : nat) (pc : sempc) (σ : ssys) : option ssys :=
  match pc with
  | ULock => sacquire i (SWake (s_queue σ) false) σ
  | SWake [] own => Some (sgoto i (SUnlock own) σ)
  | SWake (j :: rest) own => Some (sgoto i (SUp j rest own) (on_sthread j (set_sstate TASK_RUNNING) σ))
  | SUp j rest own => Some (sgoto i (SWake rest own) (on_sthread j (ssem_add 1) σ))
  | SUnlock own => Some (sgoto i (if own then SRunning else SIdle) (with_slock None σ))
  | _ => None
  end.

Definition sem_run (i : nat) (o : bool) (σ : ssys) : option ssys :=
  match st_pc (sth σ i) with
  | SIdle => None
  | DFast c => Some (down_fast i (DState c) σ)
  | TFast => Some (down_fast i TLock σ)
  | UFast => Some (up i σ)
  | TLock | TTry => __down_trylock i (st_pc (sth σ i)) σ
  | ULock | SWake _ _ | SUp _ _ _ | SUnlock _ => __up i (st_pc (sth σ i)) σ
  | pc => __down i o pc σ
  end.

Definition sema_init (val : Z) : ssys := SSys val 0 None [] (λ _, SThread SIdle (Task TASK_RUNNING 0)) 0 0.

Definition call_start (pc : sempc) : bool := match pc with DFast _ | TFast | UFast => true | _ => false end.
(** There are [n] threads. *)
Inductive sem_step (n : nat) : ssys → ssys → Prop :=
| SsStart σ i pc : (i < n)%nat → st_pc (sth σ i) = SIdle → call_start pc = true → sem_step n σ (sgoto i pc σ)
| SsRun σ σ' i o : sem_run i o σ = Some σ' → sem_step n σ σ'
| SsOtherState σ i : sem_step n σ (on_sthread i (set_sstate TASK_RUNNING) σ)
| SsOtherUp σ i : sem_step n σ (on_sthread i (ssem_add 1) σ).

(** ** Invariant *)

Definition slocked (pc : sempc) : bool :=
  match pc with
  | DAdd _ | DTry _ | DUnlock _ | DAgain _ | DRemove | SWake _ _ | SUp _ _ _ | SUnlock _ | TTry => true
  | _ => false
  end.
Definition squeued (pc : sempc) : bool :=
  match pc with DTry _ | DUnlock _ | DSwitch _ | DYield _ | DDown _ | DRelock _ | DAgain _ | DRemove => true | _ => false end.
(** The thread has taken 1 off the counter that [sleepers] does not count yet. *)
Definition in_flight (pc : sempc) : bool := match pc with DState _ | DLock _ | DAdd _ | TLock | TTry => true | _ => false end.
Definition tries (pc : sempc) : bool := match pc with DTry _ => true | _ => false end.
(** The wake-ups that a thread has still to do. *)
Definition to_wake (pc : sempc) : option (list nat) :=
  match pc with SWake rest _ => Some rest | SUp j rest _ => Some (j :: rest) | _ => None end.
(** The thread will wake the waiters, or is a waiter that will try again. *)
Definition shelps (t : sthread) : bool :=
  match st_pc t with
  | DTry _ | DYield _ | DRelock _ | DAgain _ | DRemove | SWake _ _ | SUp _ _ _ | ULock => true
  | DSwitch _ => (tk_state (st_task t) =? TASK_RUNNING) || (0 <? tk_sleep_lock (st_task t))
  | DDown _ => 0 <? tk_sleep_lock (st_task t)
  | _ => false
  end.

Abbreviation sempc_of σ i := (st_pc (sth σ i)).
Abbreviation ssem_of σ i := (tk_sleep_lock (st_task (sth σ i))).
(** What is left: the initial value and the ups less the successful downs. *)
Definition avail (v : Z) (σ : ssys) : Z := v + s_ups σ - s_taken σ.
Definition flights (n : nat) (σ : ssys) : Z := tally n (λ j, in_flight (sempc_of σ j)).

Record sem_inv (n : nat) (v : Z) (σ : ssys) : Prop := {
  si_lock i : slocked (sempc_of σ i) = true ↔ s_lock σ = Some i;
  si_queue i : i ∈ s_queue σ ↔ squeued (sempc_of σ i) = true;
  si_sem i : 0 ≤ ssem_of σ i;
  si_count : s_count σ = avail v σ - sleepers σ - flights n σ;
  si_avail : 0 ≤ avail v σ ∧ 0 ≤ s_taken σ;
  si_sleepers : 0 ≤ sleepers σ ≤ 2;
  si_two : sleepers σ = 2 → ∃ i, tries (sempc_of σ i) = true;
  si_cover : s_queue σ ≠ [] → s_count σ < 0 ∨ ∃ k, shelps (sth σ k) = true;
  si_wake i l j : to_wake (sempc_of σ i) = Some l → j ∈ s_queue σ → j ∈ l ∨ shelps (sth σ j) = true;
  si_idle i : (n ≤ i)%nat → sempc_of σ i = SIdle;
}.

(** A wake-up of another task keeps the invariant. *)
Lemma sem_inv_on_thread n v σ j f : (∀ t, st_pc (f t) = st_pc t) → (∀ t, tk_sleep_lock (st_task t) ≤ tk_sleep_lock (st_task (f t))) →
  (∀ t, shelps t = true → shelps (f t) = true) → sem_inv n v σ → sem_inv n v (on_sthread j f σ).
Proof.
  intros Hpc Hsem Hh [H1 H2 H3 H4 H5 H6 H7 H8 H9 H10].
  assert (Ep : ∀ i, st_pc (upd_at j f (sth σ) i) = sempc_of σ i).
  { intros i. destruct (decide (i = j)) as [->|Hne]; [by rewrite upd_at_eq|by rewrite upd_at_ne]. }
  assert (Eh : ∀ i, shelps (sth σ i) = true → shelps (upd_at j f (sth σ) i) = true).
  { intros i. destruct (decide (i = j)) as [->|Hne]; [rewrite upd_at_eq; auto|by rewrite upd_at_ne]. }
  split; cbn [on_sthread s_count sleepers s_lock s_queue sth].
  - intros i. rewrite Ep. apply H1.
  - intros i. rewrite Ep. apply H2.
  - intros i. destruct (decide (i = j)) as [->|Hne]; [rewrite upd_at_eq; etransitivity; [apply H3|apply Hsem]|rewrite upd_at_ne by done; apply H3].
  - rewrite H4. unfold flights. cbn. rewrite (tally_same n (λ i, in_flight (sempc_of σ i)) (λ i, in_flight (st_pc (upd_at j f (sth σ) i)))); [done|]. intros i _. by rewrite Ep.
  - done.
  - done.
  - intros E. destruct (H7 E) as [i Hi]. exists i. by rewrite Ep.
  - intros E. destruct (H8 E) as [?|[k Hk]]; [by left|right]. exists k. auto.
  - intros i l k. rewrite Ep. intros E Hk. destruct (H9 i l k E Hk); auto.
  - intros i. rewrite Ep. apply H10.
Qed.
Lemma shelps_state t : shelps t = true → shelps (set_sstate TASK_RUNNING t) = true.
Proof. unfold shelps. cbn. destruct (st_pc t); done. Qed.
Lemma shelps_up t : shelps t = true → shelps (ssem_add 1 t) = true.
Proof.
  unfold shelps. cbn. destruct (st_pc t); try done.
  - destruct (_ =? TASK_RUNNING); [done|]. cbn. intros ?%Z.ltb_lt. apply Z.ltb_lt. lia.
  - intros ?%Z.ltb_lt. apply Z.ltb_lt. lia.
Qed.

(** Thread [i] moves on: what its new position and the shared words must satisfy. *)
Lemma sem_inv_goto n v σ σ' i :
  sem_inv n v σ → (i < n)%nat → (∀ j, j ≠ i → sth σ' j = sth σ j) → 0 ≤ ssem_of σ' i →
  (* the lock *)
  (slocked (sempc_of σ' i) = true ↔ s_lock σ' = Some i) → (∀ j, j ≠ i → s_lock σ' = Some j ↔ s_lock σ = Some j) →
  (* the queue *)
  (i ∈ s_queue σ' ↔ squeued (sempc_of σ' i) = true) → (∀ j, j ≠ i → j ∈ s_queue σ' ↔ j ∈ s_queue σ) →
  (s_queue σ' = s_queue σ ∨ slocked (sempc_of σ i) = true) →
  (* the counters *)
  s_count σ' = avail v σ' - sleepers σ' - (flights n σ - bool2Z (in_flight (sempc_of σ i)) + bool2Z (in_flight (sempc_of σ' i))) →
  0 ≤ avail v σ' → 0 ≤ s_taken σ' → 0 ≤ sleepers σ' ≤ 2 →
  (sleepers σ' = 2 → tries (sempc_of σ' i) = true ∨ sleepers σ = 2 ∧ tries (sempc_of σ i) = false) →
  (* the waiters *)
  (s_queue σ' ≠ [] → shelps (sth σ' i) = true ∨ s_count σ' < 0 ∨ (∃ k, k ≠ i ∧ shelps (sth σ k) = true) ∨
     (s_queue σ ≠ [] ∧ shelps (sth σ i) = false ∧ (s_count σ < 0 → s_count σ' < 0))) →
  (∀ l j, to_wake (sempc_of σ' i) = Some l → j ∈ s_queue σ' → j ≠ i → j ∈ l ∨ shelps (sth σ j) = true) →
  (slocked (sempc_of σ i) = false → shelps (sth σ i) = true → squeued (sempc_of σ i) = true → shelps (sth σ' i) = true) →
  sem_inv n v σ'.
Proof.
  intros [H1 H2 H3 H4 H5 H6 H7 H8 H9 H10] Hn Hj Hs Hl Hl' Hq Hq' Hqc Hc Ha Hta Hsl H2s Hcov Hw Hmono. split.
  - intros j. destruct (decide (j = i)) as [->|Hne]; [done|]. rewrite Hj, Hl', H1 by done. done.
  - intros j. destruct (decide (j = i)) as [->|Hne]; [done|]. rewrite Hj, Hq', H2 by done. done.
  - intros j. destruct (decide (j = i)) as [->|Hne]; [done|]. rewrite Hj by done. apply H3.
  - rewrite Hc. unfold flights. rewrite (tally_change n (λ j, in_flight (sempc_of σ j)) (λ j, in_flight (sempc_of σ' j)) i Hn); [lia|]. intros j Hne. by rewrite Hj.
  - done.
  - done.
  - intros E. destruct (H2s E) as [?|[E2 Hf]]; [by exists i|]. destruct (H7 E2) as [k Hk]. exists k. rewrite Hj; [done|]. intros ->. congruence.
  - intros E. destruct (Hcov E) as [?|[?|[(k & Hne & Hk)|(Hw' & Hi & Hc')]]]; [right; by exists i|by left|right; exists k; by rewrite Hj|].
    destruct (H8 Hw') as [?|[k Hk]]; [left; auto|]. right. exists k. rewrite Hj; [done|]. intros ->. congruence.
  - intros k l j Ek Hin. destruct (decide (k = i)) as [->|Hnk].
    + destruct (decide (j = i)) as [->|Hnj]; [apply Hq in Hin; by destruct (sempc_of σ' i)|]. rewrite (Hj j Hnj). by apply Hw.
    + rewrite Hj in Ek by done. assert (Lk : s_lock σ = Some k) by (apply H1; by destruct (sempc_of σ k)).
      assert (Li : slocked (sempc_of σ i) = false) by (apply not_true_is_false; intros L; apply H1 in L; congruence).
      destruct Hqc as [Eq|L]; [|congruence]. rewrite Eq in Hin. destruct (H9 k l j Ek Hin) as [?|Hh]; [by left|right].
      destruct (decide (j = i)) as [->|Hnj]; [|by rewrite Hj]. apply Hmono; [done|done|by apply H2].
  - intros j Hle. rewrite Hj by lia. by apply H10.
Qed.

(** A step that leaves the counters, the lock and the queue. *)
Lemma sem_inv_local n v σ σ' i :
  sem_inv n v σ → (i < n)%nat → (∀ j, j ≠ i → sth σ' j = sth σ j) → 0 ≤ ssem_of σ' i →
  s_count σ' = s_count σ → sleepers σ' = sleepers σ → s_lock σ' = s_lock σ → s_queue σ' = s_queue σ → s_taken σ' = s_taken σ → s_ups σ' = s_ups σ →
  slocked (sempc_of σ' i) = slocked (sempc_of σ i) → squeued (sempc_of σ' i) = squeued (sempc_of σ i) → in_flight (sempc_of σ' i) = in_flight (sempc_of σ i) →
  tries (sempc_of σ i) = false →
  (shelps (sth σ i) = true → shelps (sth σ' i) = true ∨ squeued (sempc_of σ i) = false ∧ (s_queue σ ≠ [] → ∃ k, k ≠ i ∧ shelps (sth σ k) = true)) →
  (∀ l j, to_wake (sempc_of σ' i) = Some l → j ∈ s_queue σ → j ≠ i → j ∈ l ∨ shelps (sth σ j) = true) →
  sem_inv n v σ'.
Proof.
  intros I Hn Hj Hs Ec Es El Eq Et Eu Hl Hq Hf Htr Hh Hw.
  assert (Ea : avail v σ' = avail v σ) by (unfold avail; congruence).
  apply (sem_inv_goto n v σ σ' i I Hn Hj Hs); rewrite ?Ec, ?Es, ?El, ?Eq, ?Ea, ?Et, ?Hl, ?Hq, ?Hf; auto.
  - apply (si_lock n v σ I).
  - apply (si_queue n v σ I).
  - pose proof (si_count n v σ I). lia.
  - apply (si_avail n v σ I).
  - apply (si_avail n v σ I).
  - apply (si_sleepers n v σ I).
  - intros E. destruct (shelps (sth σ i)) eqn:Eh; [|auto 8]. destruct (Hh eq_refl) as [?|[_ Hk]]; [auto|]. right. right. left. auto.
  - intros L Hhi Hqi. destruct (Hh Hhi) as [?|[? _]]; [done|congruence].
Qed.
(** A step that takes or gives up the lock. *)
Lemma sem_inv_spin n v σ i pc l :
  sem_inv n v σ → (i < n)%nat →
  (s_lock σ = None ∧ slocked pc = true ∧ l = Some i ∨ slocked (sempc_of σ i) = true ∧ slocked pc = false ∧ l = None) →
  squeued pc = squeued (sempc_of σ i) → in_flight pc = in_flight (sempc_of σ i) → tries (sempc_of σ i) = false →
  (shelps (sth σ i) = true → shelps (set_sempc pc (sth σ i)) = true) →
  (∀ l j, to_wake pc = Some l → j ∈ s_queue σ → j ≠ i → j ∈ l ∨ shelps (sth σ j) = true) →
  sem_inv n v (sgoto i pc (with_slock l σ)).
Proof.
  intros I Hn Hl Hq Hf Htr Hh Hw. apply (sem_inv_goto n v σ _ i I Hn); cbn [sgoto with_slock s_count sleepers s_lock s_queue sth s_taken s_ups]; rewrite ?upd_at_eq; cbn [set_sempc st_pc st_task]; auto.
  - intros j Hne. by rewrite upd_at_ne.
  - apply (si_sem n v σ I).
  - destruct Hl as [(_ & -> & ->)|(_ & -> & ->)]; split; congruence.
  - intros j Hne. destruct Hl as [(E & _ & ->)|(L & _ & ->)]; [split; congruence|]. apply (si_lock n v σ I) in L. split; congruence.
  - rewrite Hq. apply (si_queue n v σ I).
  - rewrite Hf. pose proof (si_count n v σ I). unfold avail in *. cbn. lia.
  - apply (si_avail n v σ I).
  - apply (si_avail n v σ I).
  - apply (si_sleepers n v σ I).
  - intros E. destruct (shelps (sth σ i)) eqn:Eh; auto 8.
Qed.

Lemma sactive n v σ i : sem_inv n v σ → sempc_of σ i ≠ SIdle → (i < n)%nat.
Proof. intros I Hne. destruct (decide (i < n)%nat) as [|Hge]; [done|]. destruct Hne. apply (si_idle n v σ I). lia. Qed.

(** The range of the counter. *)
Lemma sem_range n v σ : sem_inv n v σ → 0 ≤ v → Z.of_nat n < 2 ^ 31 - 4 → v + s_ups σ < 2 ^ 31 - 1 →
  - 2 ^ 31 + 2 ≤ s_count σ ≤ v + s_ups σ ∧ - 2 ^ 31 + 2 ≤ s_count σ + sleepers σ ≤ v + s_ups σ ∧ 0 ≤ flights n σ.
Proof.
  intros I Hv Hn Hb. pose proof (si_count n v σ I). pose proof (si_avail n v σ I) as [? ?]. pose proof (si_sleepers n v σ I). unfold avail, flights in *.
  pose proof (tally_bound n (λ j, in_flight (sempc_of σ j))). lia.
Qed.

(** The fast paths. *)
Lemma sem_inv_down_fast n v σ i fail : 0 ≤ v → Z.of_nat n < 2 ^ 31 - 4 → v + s_ups σ < 2 ^ 31 - 1 → sem_inv n v σ → (i < n)%nat →
  (∃ c, sempc_of σ i = DFast c ∧ fail = DState c) ∨ sempc_of σ i = TFast ∧ fail = TLock → sem_inv n v (down_fast i fail σ).
Proof.
  intros Hv Hn Hb I Hi Hpc. pose proof (sem_range n v σ I Hv Hn Hb) as (Hr & _ & Hfl). pose proof (si_count n v σ I) as Hc. pose proof (si_avail n v σ I) as [Ha Hta]. pose proof (si_sleepers n v σ I) as Hs.
  assert (Hf : slocked (sempc_of σ i) = false ∧ squeued (sempc_of σ i) = false ∧ in_flight (sempc_of σ i) = false ∧ tries (sempc_of σ i) = false ∧ shelps (sth σ i) = false ∧
    slocked fail = false ∧ squeued fail = false ∧ in_flight fail = true ∧ tries fail = false ∧ to_wake fail = None)
    by (unfold shelps; destruct Hpc as [(c & -> & ->)|[-> ->]]; done).
  destruct Hf as (L & Q & F & T & Hh & L' & Q' & F' & T' & W').
  assert (HL : false = true ↔ s_lock σ = Some i) by (rewrite <- (si_lock n v σ I), L; done).
  assert (HQ : i ∈ s_queue σ ↔ false = true) by (rewrite (si_queue n v σ I), Q; done).
  unfold down_fast. rewrite s32_small by lia. destruct (Z.ltb_spec (s_count σ - 1) 0); apply (sem_inv_goto n v σ _ i I Hi);
    cbn [sgoto took with_scount s_count sleepers s_lock s_queue sth s_taken s_ups]; rewrite ?upd_at_eq; cbn [set_sempc st_pc st_task];
    rewrite ?L, ?Q, ?F, ?T, ?L', ?Q', ?F', ?T', ?W'; auto; try (intros j Hne; by rewrite upd_at_ne); try apply (si_sem n v σ I).
  all: unfold avail in *; cbn -[flights]; try lia; try congruence; try done.
  intros E. right. right. right. split; [done|]. split; [done|lia].
Qed.
Lemma sem_inv_up n v σ i : 0 ≤ v → Z.of_nat n < 2 ^ 31 - 4 → v + s_ups σ < 2 ^ 31 - 1 → sem_inv n v σ → (i < n)%nat → sempc_of σ i = UFast → sem_inv n v (up i σ).
Proof.
  intros Hv Hn Hb I Hi E. pose proof (sem_range n v σ I Hv Hn Hb) as (Hr & _ & Hfl). pose proof (si_count n v σ I) as Hc. pose proof (si_avail n v σ I) as [Ha Hta]. pose proof (si_sleepers n v σ I) as Hs.
  unfold up. rewrite s32_small by lia. destruct (Z.ltb_spec 0 (s_count σ + 1)); apply (sem_inv_goto n v σ _ i I Hi);
    cbn [sgoto gave with_scount s_count sleepers s_lock s_queue sth s_taken s_ups]; rewrite ?upd_at_eq; cbn [set_sempc st_pc st_task];
    rewrite ?E; auto; try (intros j Hne; by rewrite upd_at_ne); try apply (si_sem n v σ I).
  all: try (rewrite <- (si_lock n v σ I); by rewrite E); try (rewrite (si_queue n v σ I); by rewrite E).
  all: unfold avail in *; cbn -[flights]; try lia; try congruence; try done.
  intros Hq. right. right. right. split; [done|]. split; [unfold shelps; by rewrite E|lia].
Qed.

Lemma spc_on_thread σ i j f : (∀ t, st_pc (f t) = st_pc t) → sempc_of (on_sthread j f σ) i = sempc_of σ i.
Proof. intros Hf. cbn [on_sthread sth]. destruct (decide (i = j)) as [->|Hne]; [by rewrite upd_at_eq|by rewrite upd_at_ne]. Qed.

Ltac sfacts I i :=
  cbn [sgoto took gave with_scount with_slock with_squeue on_sthread s_count sleepers s_lock s_queue sth s_taken s_ups];
  rewrite ?upd_at_eq; cbn [set_sempc set_sstate ssem_add st_pc st_task tk_state tk_sleep_lock];
  first [ by intros; rewrite ?(upd_at_ne i) by done | exact (si_sem _ _ _ I i) | done ].

(** The thread at the head of the loop, with the lock. *)
Lemma sem_inv_try n v σ i c o : 0 ≤ v → Z.of_nat n < 2 ^ 31 - 4 → v + s_ups σ < 2 ^ 31 - 1 → sem_inv n v σ → (i < n)%nat → sempc_of σ i = DTry c →
  ∀ σ', __down i o (DTry c) σ = Some σ' → sem_inv n v σ'.
Proof.
  intros Hv Hn Hb I Hi E σ'. pose proof (sem_range n v σ I Hv Hn Hb) as (Hr & Hr' & Hfl). pose proof (si_count n v σ I) as Hc. pose proof (si_avail n v σ I) as [Ha Hta]. pose proof (si_sleepers n v σ I) as Hs.
  cbn [__down]. assert (Hlk : s_lock σ = Some i) by (apply (si_lock n v σ I); by rewrite E). assert (Hin : i ∈ s_queue σ) by (apply (si_queue n v σ I); by rewrite E).
  destruct (c && o); [|rewrite (s32_small (s_count σ + (sleepers σ - 1))) by lia; destruct (Z.ltb_spec (s_count σ + (sleepers σ - 1)) 0)]; intros [= <-];
    apply (sem_inv_goto n v σ _ i I Hi); try sfacts I i; cbn [sgoto took with_scount s_count sleepers s_lock s_queue sth s_taken s_ups]; rewrite ?upd_at_eq; cbn [set_sempc st_pc st_task]; rewrite ?E; auto.
  all: rewrite ?s32_small by lia; unfold avail in *; cbn -[flights]; try lia; try done.
Qed.
Lemma sem_inv_trylock n v σ i : 0 ≤ v → Z.of_nat n < 2 ^ 31 - 4 → v + s_ups σ < 2 ^ 31 - 1 → sem_inv n v σ → (i < n)%nat → sempc_of σ i = TTry →
  ∀ σ', __down_trylock i TTry σ = Some σ' → sem_inv n v σ'.
Proof.
  intros Hv Hn Hb I Hi E σ'. pose proof (sem_range n v σ I Hv Hn Hb) as (Hr & Hr' & Hfl). pose proof (si_count n v σ I) as Hc. pose proof (si_avail n v σ I) as [Ha Hta]. pose proof (si_sleepers n v σ I) as Hs.
  cbn [__down_trylock]. assert (Hlk : s_lock σ = Some i) by (apply (si_lock n v σ I); by rewrite E). assert (Hin : i ∉ s_queue σ) by (rewrite (si_queue n v σ I), E; done).
  rewrite s32_small by lia. destruct (Z.ltb_spec (s_count σ + (sleepers σ + 1)) 0); intros [= <-];
    apply (sem_inv_goto n v σ _ i I Hi); try sfacts I i; cbn [sgoto took with_scount s_count sleepers s_lock s_queue sth s_taken s_ups]; rewrite ?upd_at_eq; cbn [set_sempc st_pc st_task]; rewrite ?E; auto.
  all: unfold avail in *; cbn -[flights]; try lia; try done.
  intros l j [= <-]. auto.
Qed.
Lemma sem_inv_add n v σ i c : 0 ≤ v → Z.of_nat n < 2 ^ 31 - 4 → sem_inv n v σ → (i < n)%nat → sempc_of σ i = DAdd c →
  sem_inv n v (sgoto i (DTry c) (with_scount (s_count σ) (s32 (sleepers σ + 1)) (with_squeue (s_queue σ ++ [i]) σ))).
Proof.
  intros Hv Hn I Hi E. pose proof (si_count n v σ I) as Hc. pose proof (si_avail n v σ I) as [Ha Hta]. pose proof (si_sleepers n v σ I) as Hs.
  assert (Hlk : s_lock σ = Some i) by (apply (si_lock n v σ I); by rewrite E).
  assert (H2 : sleepers σ ≠ 2).
  { intros E2. destruct (si_two n v σ I E2) as [k Hk]. assert (s_lock σ = Some k) by (apply (si_lock n v σ I); by destruct (sempc_of σ k)). assert (k = i) as -> by congruence. by rewrite E in Hk. }
  rewrite s32_small by lia.
  apply (sem_inv_goto n v σ _ i I Hi); try sfacts I i; cbn [sgoto with_squeue with_scount s_count sleepers s_lock s_queue sth s_taken s_ups]; rewrite ?upd_at_eq; cbn [set_sempc st_pc st_task]; rewrite ?E; auto.
  all: unfold avail in *; cbn -[flights]; try lia; try done; try set_solver.
Qed.
Lemma sem_inv_remove n v σ i : sem_inv n v σ → (i < n)%nat → sempc_of σ i = DRemove →
  sem_inv n v (sgoto i (SWake (filter (λ j, j ≠ i) (s_queue σ)) true) (with_squeue (filter (λ j, j ≠ i) (s_queue σ)) σ)).
Proof.
  intros I Hi E. pose proof (si_count n v σ I) as Hc. assert (Hlk : s_lock σ = Some i) by (apply (si_lock n v σ I); by rewrite E).
  apply (sem_inv_goto n v σ _ i I Hi); try sfacts I i; cbn [sgoto with_squeue with_scount s_count sleepers s_lock s_queue sth s_taken s_ups]; rewrite ?upd_at_eq; cbn [set_sempc st_pc st_task]; rewrite ?E; auto.
  all: unfold avail in *; cbn -[flights]; try lia; try done; try apply (si_avail n v σ I); try apply (si_sleepers n v σ I).
  - rewrite list_elem_of_filter. split; naive_solver.
  - intros j Hne. rewrite list_elem_of_filter. naive_solver.
  - intros l j [= <-]. auto.
Qed.

(** A queued thread without the lock helps once its sleep lock was raised. *)
Lemma woken n v σ i j : sem_inv n v σ → slocked (sempc_of σ i) = true → j ≠ i → j ∈ s_queue σ → shelps (sth (on_sthread j (ssem_add 1) σ) j) = true.
Proof.
  intros I Li Hne Hj. apply (si_queue n v σ I) in Hj. assert (Lj : slocked (sempc_of σ j) = false).
  { apply not_true_is_false. intros L. apply (si_lock n v σ I) in L, Li. congruence. }
  pose proof (si_sem n v σ I j). unfold shelps. cbn. rewrite upd_at_eq. cbn.
  destruct (sempc_of σ j); try done; [apply orb_true_iff; right|]; apply Z.ltb_lt; lia.
Qed.

Lemma sem_inv_run n v σ σ' i o : 0 ≤ v → Z.of_nat n < 2 ^ 31 - 4 → v + s_ups σ < 2 ^ 31 - 1 → sem_inv n v σ → sem_run i o σ = Some σ' → sem_inv n v σ'.
Proof.
  intros Hv Hn Hb I. assert (Hi : sempc_of σ i ≠ SIdle → (i < n)%nat) by apply (sactive n v σ i I).
  assert (Hh : shelps (sth σ i) = shelps (SThread (sempc_of σ i) (st_task (sth σ i)))) by done.
  unfold sem_run. destruct (sempc_of σ i) as [|c|c|c|c|c|c|c|c|c|c|c| |[|j rest] own|j rest own|own| | | | | |] eqn:Epc; try (specialize (Hi ltac:(done))); try done.
  - intros [= <-]. apply sem_inv_down_fast; eauto.
  - cbn [__down]. intros [= <-]. apply (sem_inv_local n v σ _ i I Hi); rewrite ?Epc; try sfacts I i. by rewrite Hh.
  - cbn [__down]. unfold sacquire. destruct (s_lock σ) eqn:El; [done|]. intros [= <-]. apply sem_inv_spin; rewrite ?Epc; auto; try done. by rewrite Hh.
  - cbn [__down]. intros [= <-]. by apply sem_inv_add.
  - by apply sem_inv_try.
  - cbn [__down]. intros [= <-]. apply sem_inv_spin; rewrite ?Epc; auto; try done. by rewrite Hh.
  - cbn [__down]. intros [= <-]. destruct (tk_state (st_task (sth σ i)) =? TASK_RUNNING) eqn:Es; (apply (sem_inv_local n v σ _ i I Hi); rewrite ?Epc; try sfacts I i); rewrite Hh; cbn; rewrite upd_at_eq; cbn [shelps st_pc st_task]; rewrite Es; auto.
  - cbn [__down]. intros [= <-]. apply (sem_inv_local n v σ _ i I Hi); rewrite ?Epc; try sfacts I i. left. cbn. by rewrite upd_at_eq.
  - cbn [__down]. destruct (Z.ltb_spec 0 (ssem_of σ i)) as [Hs|]; [|done]. intros [= <-]. apply (sem_inv_local n v σ _ i I Hi); rewrite ?Epc; try sfacts I i.
    + cbn. rewrite !upd_at_eq. cbn. lia.
    + left. cbn. by rewrite !upd_at_eq.
  - cbn [__down]. unfold sacquire. destruct (s_lock σ) eqn:El; [done|]. intros [= <-]. apply sem_inv_spin; rewrite ?Epc; auto; done.
  - cbn [__down]. intros [= <-]. apply (sem_inv_local n v σ _ i I Hi); rewrite ?Epc; try sfacts I i. left. cbn. by rewrite !upd_at_eq.
  - cbn [__down]. intros [= <-]. by apply sem_inv_remove.
  - cbn [__up]. intros [= <-]. apply (sem_inv_local n v σ _ i I Hi); rewrite ?Epc; try sfacts I i. intros _. right. split; [done|]. intros Hq.
    destruct (s_queue σ) as [|j q] eqn:Eq; [done|]. exists j. assert (Hj : j ∈ s_queue σ) by (rewrite Eq; set_solver).
    split; [intros ->; apply (si_queue n v σ I) in Hj; by rewrite Epc in Hj|]. destruct (si_wake n v σ I i [] j) as [Hx|?]; [by rewrite Epc|done|by apply elem_of_nil in Hx|done].
  - cbn [__up]. intros [= <-]. assert (I' : sem_inv n v (on_sthread j (set_sstate TASK_RUNNING) σ)) by (apply sem_inv_on_thread; [done|done|apply shelps_state|done]).
    apply (sem_inv_local n v _ _ i I' Hi); rewrite ?spc_on_thread, ?Epc by done; try sfacts I' i.
    + intros _. left. cbn. by rewrite upd_at_eq.
    + cbn [sgoto sth]. rewrite upd_at_eq. intros l k [= <-] Hk _. apply (si_wake n v _ I' i (j :: rest) k); [by rewrite spc_on_thread, Epc|done].
  - cbn [__up]. intros [= <-]. assert (I' : sem_inv n v (on_sthread j (ssem_add 1) σ)) by (apply sem_inv_on_thread; [done|intros t; cbn; lia|apply shelps_up|done]).
    apply (sem_inv_local n v _ _ i I' Hi); rewrite ?spc_on_thread, ?Epc by done; try sfacts I' i.
    + intros _. left. cbn. by rewrite upd_at_eq.
    + cbn [sgoto sth]. rewrite upd_at_eq. intros l k [= <-] Hk Hne. destruct (si_wake n v _ I' i (j :: rest) k) as [[->|?]%elem_of_cons|?]; [by rewrite spc_on_thread, Epc|done| |by left|by right].
      right. apply (woken n v σ i j I); [by rewrite Epc|done|done].
  - cbn [__up]. intros [= <-]. destruct own; (apply sem_inv_spin; rewrite ?Epc; auto; try done; by rewrite Hh).
  - cbn [__down]. intros [= <-]. apply (sem_inv_local n v σ _ i I Hi); rewrite ?Epc; try sfacts I i. by rewrite Hh.
  - intros [= <-]. apply sem_inv_down_fast; auto.
  - cbn [__down_trylock]. unfold sacquire. destruct (s_lock σ) eqn:El; [done|]. intros [= <-]. apply sem_inv_spin; rewrite ?Epc; auto; try done. by rewrite Hh.
  - by apply sem_inv_trylock.
  - intros [= <-]. by apply sem_inv_up.
  - cbn [__up]. unfold sacquire. destruct (s_lock σ) eqn:El; [done|]. intros [= <-]. apply sem_inv_spin; rewrite ?Epc; auto; try done.
    intros l j [= <-]. auto.
Qed.

Lemma sem_ups_run i o σ σ' : sem_run i o σ = Some σ' → s_ups σ ≤ s_ups σ'.
Proof.
  unfold sem_run, __down, __up, __down_trylock, down_fast, up, sacquire. intros E. repeat case_match; simplify_eq; cbn; lia.
Qed.
Lemma sem_inv_step n v σ σ' : 0 ≤ v → Z.of_nat n < 2 ^ 31 - 4 → v + s_ups σ' < 2 ^ 31 - 1 → sem_step n σ σ' → sem_inv n v σ → sem_inv n v σ'.
Proof.
  intros Hv Hn Hb Hst I. destruct Hst as [σ i pc Hi E Hs|σ σ' i o E|σ i|σ i].
  - apply (sem_inv_local n v σ _ i I Hi); cbn [sgoto s_count sleepers s_lock s_queue sth s_taken s_ups]; rewrite ?upd_at_eq, ?E; cbn [set_sempc st_pc st_task]; try done.
    1: intros j Hne; by rewrite upd_at_ne.
    1: apply (si_sem n v σ I).
    all: unfold shelps; rewrite ?E; destruct pc; done.
  - eapply sem_inv_run; [done|done| |done|done]. apply sem_ups_run in E. lia.
  - apply sem_inv_on_thread; [done|done|apply shelps_state|done].
  - apply sem_inv_on_thread; [done|intros t; cbn; lia|apply shelps_up|done].
Qed.
Lemma sem_ups_step n σ σ' : sem_step n σ σ' → s_ups σ ≤ s_ups σ'.
Proof. intros [σ0 i pc Hi E Hs|σ0 σ1 i o E|σ0 i|σ0 i]; cbn; try lia. by apply sem_ups_run in E. Qed.
Lemma sem_inv_init n v : 0 ≤ v → sem_inv n v (sema_init v).
Proof.
  intros Hv. split; cbn; try done; try lia; try (intros; split; [|done]; set_solver).
  - unfold avail, flights. cbn. rewrite tally_none by done. lia.
  - unfold avail. cbn. lia.
Qed.
Lemma sem_inv_reachable n v σ : 0 ≤ v → Z.of_nat n < 2 ^ 31 - 4 → v + s_ups σ < 2 ^ 31 - 1 → rtc (sem_step n) (sema_init v) σ → sem_inv n v σ.
Proof.
  intros Hv Hn Hb Hr. revert Hb. apply (rtc_ind_r (R := sem_step n) (λ σ, v + s_ups σ < 2 ^ 31 - 1 → sem_inv n v σ) (sema_init v)); [intros _; by apply sem_inv_init| |done].
  intros σ1 σ2 _ Hst IH Hb. apply (sem_inv_step n v σ1 σ2 Hv Hn Hb Hst). apply IH. pose proof (sem_ups_step _ _ _ Hst). lia.
Qed.

(** A thread that cannot go on is idle, waits for the lock or sleeps. *)
Lemma sem_blocked σ i : (∀ o, sem_run i o σ = None) →
  sempc_of σ i = SIdle ∨ is_Some (s_lock σ) ∧ slocked (sempc_of σ i) = false ∨ (∃ c, sempc_of σ i = DDown c) ∧ ssem_of σ i ≤ 0.
Proof.
  intros Hb. specialize (Hb true). unfold sem_run, __down, __up, __down_trylock, sacquire in Hb.
  destruct (sempc_of σ i) as [|c|c|c|c|c|c|c|c|c|c|c| |[|j rest] own|j rest own|own| | | | | |]; auto; try done; try (destruct (s_lock σ); [right; left; eauto|done]).
  - destruct (c && true); done.
  - right. right. destruct (Z.ltb_spec 0 (ssem_of σ i)); [done|]. eauto.
Qed.

(** C26: a semaphore counts: in every interleaving of [down], [down_interruptible],
    [down_trylock] and [up] by any number of threads (with fewer than 2^31 - 4 of
    them and a value below 2^31 - 1), the successful downs never exceed the
    initial value and the ups; and no wake-up is lost: if no thread can go on by
    itself and one sleeps, nothing is left of the semaphore that it could take. *)
Theorem semaphore_sound n v (σ : ssys) : 0 ≤ v → Z.of_nat n < 2 ^ 31 - 4 → v + s_ups σ < 2 ^ 31 - 1 → rtc (sem_step n) (sema_init v) σ →
  0 ≤ s_taken σ ≤ v + s_ups σ ∧
  ((∀ i o, sem_run i o σ = None) → ∀ i, sempc_of σ i = SIdle ∨ (∃ c, sempc_of σ i = DDown c) ∧ s_taken σ = v + s_ups σ).
Proof.
  intros Hv Hn Hb Hr. pose proof (sem_inv_reachable n v σ Hv Hn Hb Hr) as I. pose proof (si_avail n v σ I) as [Ha Ht]. split; [unfold avail in Ha; lia|]. intros Hbl.
  assert (Hfree : s_lock σ = None).
  { destruct (s_lock σ) as [k|] eqn:El; [|done]. apply (si_lock n v σ I) in El.
    destruct (sem_blocked σ k (Hbl k)) as [E1|[[_ E1]|[(c1 & E1) _]]]; rewrite E1 in El; done. }
  assert (Hall : ∀ k, sempc_of σ k = SIdle ∨ (∃ c, sempc_of σ k = DDown c) ∧ ssem_of σ k ≤ 0).
  { intros k. destruct (sem_blocked σ k (Hbl k)) as [?|[[[x Hx] _]|?]]; [auto|congruence|auto]. }
  intros i. destruct (Hall i) as [?|[[c E] _]]; [by left|right]. split; [eauto|].
  assert (Hq : s_queue σ ≠ []) by (intros E0; assert (i ∈ s_queue σ) as Hin by (apply (si_queue n v σ I); by rewrite E); rewrite E0 in Hin; by apply elem_of_nil in Hin).
  assert (Hc : s_count σ < 0).
  { destruct (si_cover n v σ I Hq) as [?|[k Hk]]; [done|]. exfalso. unfold shelps in Hk. destruct (Hall k) as [Ek|[[c' Ek] Hs]]; rewrite Ek in Hk; [done|]. apply Z.ltb_lt in Hk. lia. }
  assert (Hf : flights n σ = 0).
  { unfold flights. apply tally_none. intros j. by destruct (Hall j) as [->|[[c' ->] _]]. }
  assert (Hs : sleepers σ ≠ 2) by (intros E2; destruct (si_two n v σ I E2) as [k Hk]; by destruct (Hall k) as [Ek|[[c' Ek] _]]; rewrite Ek in Hk).
  pose proof (si_sleepers n v σ I). pose proof (si_count n v σ I). unfold avail in *. lia.
Qed.

(** A schedule: threads that start calls ([inl]) or take their next step ([inr]). *)
Fixpoint sem_exec (l : list (nat * sempc + nat)) (σ : ssys) : ssys :=
  match l with
  | [] => σ
  | inl (i, pc) :: l => sem_exec l (match sempc_of σ i with SIdle => if call_start pc then sgoto i pc σ else σ | _ => σ end)
  | inr i :: l => sem_exec l (default σ (sem_run i false σ))
  end.
Definition sbelow (n : nat) (x : nat * sempc + nat) : bool := match x with inl (i, _) => bool_decide (i < n)%nat | inr _ => true end.
Lemma sem_exec_reachable n l σ : forallb (sbelow n) l = true → rtc (sem_step n) σ (sem_exec l σ).
Proof.
  revert σ. induction l as [|[[i pc]|i] l IH]; intros σ; cbn [sem_exec forallb]; [intros _; apply rtc_refl|intros [Hi%bool_decide_eq_true Hl]%andb_true_iff|intros Hl].
  - destruct (sempc_of σ i) eqn:E; try by apply IH. destruct (call_start pc) eqn:Ec; [|by apply IH]. eapply rtc_l; [by apply SsStart|by apply IH].
  - destruct (sem_run i false σ) as [σ'|] eqn:E; [|by apply IH]. eapply rtc_l; [by eapply SsRun|by apply IH].
Qed.
(** A semaphore of 1: two threads go down, the second sleeps; after an up it goes
    on. *)
Definition sem_demo : ssys :=
  sem_exec ([inl (0%nat, DFast false); inr 0%nat; inl (1%nat, DFast false)] ++ replicate 7 (inr 1%nat) ++
            [inl (0%nat, UFast)] ++ replicate 6 (inr 0%nat) ++ replicate 10 (inr 1%nat)) (sema_init 1).
Lemma semaphore_sound_witness : s_ups sem_demo = 1 ∧ s_taken sem_demo = 2 ∧ 0 ≤ s_taken sem_demo ≤ 1 + s_ups sem_demo.
Proof.
  split; [vm_compute; reflexivity|]. split; [vm_compute; reflexivity|].
  apply (semaphore_sound 2 1 sem_demo); [lia|lia|vm_compute; reflexivity|apply sem_exec_reachable; vm_compute; reflexivity].
Defined.
