(* ===== verification/Idr.v ===== *)
(** Small integer ids: lib/idr.c, idr.h.

    An idr maps ids to pointers in a tree of layers with 32 slots.  The bitmap
    of a layer says which slots are full: at the lowest level which ids are
    taken, above which subtrees have no free id.  The layers form a tree without
    sharing, so that a layer is a value here and its level is part of its type; the
    stack [pa] of the layers above is the recursion.  Layers come from a list of free
    ones that must be all zero, which is checked where a layer is given back.
    The answers of [kmem_cache_alloc] are a parameter of [idr_pre_get]. *)

From S2P Require Import Prelude FindBit.

Definition ENOSPC : Z := 28.
Definition IDR_BITS : Z := 5.
Definition IDR_SIZE : Z := 32.
Definition IDR_MASK : Z := 31.
Definition IDR_FULL : Z := 2 ^ 32 - 1.
Definition MAX_ID_BIT : Z := 2 ^ 31.
Definition MAX_ID_MASK : Z := 2 ^ 31 - 1.
Definition MAX_LEVEL : nat := 7.
Definition IDR_FREE_MAX : Z := 14.

(** [struct idr_layer]; an entry is a layer, or a pointer of the user *)
Record idr_layer (X : Type) := Layer { l_bitmap : Z; l_ary : list (option X); l_count : Z }.
Arguments Layer {X}. Arguments l_bitmap {X}. Arguments l_ary {X}. Arguments l_count {X}.
(** What is in an entry of level [l]: at level 0 a pointer *)
Fixpoint entry (l : nat) : Type := match l with O => Z | S l => idr_layer (entry l) end.
(** The layers of level [l] of the code, 0 at the bottom *)
Abbreviation layer l := (idr_layer (entry l)).

(** [idr_cache_ctor] *)
Definition idr_cache_ctor {X} : idr_layer X := Layer 0 (replicate 32 None) 0.

(** [struct idr]; [layers] is one more than the level of [top], 0 without it.
    [id_free_cnt] counts layers in memory, of more than 128 bytes each: it does not
    overflow. *)
Record idr := Idr { top : option (sigT (λ l, layer l)); id_free_cnt : Z }.
Abbreviation IM := (M idr).
Definition layers (s : idr) : nat := match top s with Some (existT l _) => S l | None => 0 end.
Definition with_top (t : option (sigT (λ l, layer l))) (s : idr) : idr := Idr t (id_free_cnt s).
Definition with_free (n : Z) (s : idr) : idr := Idr (top s) n.

Definition idr_init : idr := Idr None 0.

Definition all_zero {X} (p : idr_layer X) : bool := (l_bitmap p =? 0) && (l_count p =? 0) && forallb (λ e, match e with None => true | Some _ => false end) (l_ary p).
(** A layer from the list, or none. *)
Definition alloc_layer {X} : IM (option (idr_layer X)) :=
  n ← gets id_free_cnt;
  if n =? 0 then mret None else modify (with_free (n - 1)) ;; mret (Some idr_cache_ctor).
(** The layer must be all zero but for the first entry, which links the list. *)
Definition __free_layer {X} (p : idr_layer X) : IM unit :=
  assert FBug (all_zero (Layer (l_bitmap p) (<[0%nat := None]> (l_ary p)) (l_count p))) ;;
  modify (λ s, with_free (id_free_cnt s + 1) s).
Definition free_layer {X} (p : idr_layer X) : IM unit := __free_layer p.

Fixpoint idr_pre_get (answers : list bool) : IM Z :=
  n ← gets id_free_cnt;
  if n <? IDR_FREE_MAX then
    match answers with
    | true :: answers => free_layer (X := Z) idr_cache_ctor ;; idr_pre_get answers
    | _ => mret 0
    end
  else mret 1.

(** ** Allocation *)

(** [n = (id >> (IDR_BITS*l)) & IDR_MASK] *)
Definition digit (l : nat) (id : Z) : Z := Z.land (Z.shiftr id (IDR_BITS * Z.of_nat l)) IDR_MASK.
(** [bm = ~p->bitmap; m = find_next_bit(&bm, IDR_SIZE, n)] *)
Definition next_free (bm n : Z) : IM Z := λ s,
  match find_next_bit IDR_SIZE n [u32 (Z.lnot bm)] with Done (m, _) => Done (m, s) | Fault e => Fault e end.
(** [id = ((id >> sh) ^ n ^ m) << sh] *)
Definition move_id (l : nat) (id n m : Z) : Z :=
  let sh := IDR_BITS * Z.of_nat l in s32 (Z.shiftl (Z.lxor (Z.lxor (Z.shiftr id sh) n) m) sh).
(** [id = (id | ((1 << (IDR_BITS * l)) - 1)) + 1] *)
Definition skip_id (l : nat) (id : Z) : Z := s32 (Z.lor id (s32 (Z.shiftl 1 (IDR_BITS * Z.of_nat l)) - 1) + 1).
Definition bad_id (id : Z) : bool := (MAX_ID_BIT <=? u32 id) || (id <? 0).

Definition ary_at {X} (p : idr_layer X) (m : Z) : IM (option X) :=
  match l_ary p !! Z.to_nat m with Some e => mret e | None => fail FBounds end.
Definition set_entry {X} (m : Z) (e : option X) (p : idr_layer X) : idr_layer X := Layer (l_bitmap p) (<[Z.to_nat m := e]> (l_ary p)) (l_count p).
Definition mark {X} (m : Z) (p : idr_layer X) : idr_layer X := Layer (Z.lor (l_bitmap p) (Z.shiftl 1 m)) (l_ary p) (l_count p).
Definition unmark {X} (m : Z) (p : idr_layer X) : idr_layer X := Layer (Z.ldiff (l_bitmap p) (Z.shiftl 1 m)) (l_ary p) (l_count p).
Definition add_count {X} (d : Z) (p : idr_layer X) : idr_layer X := Layer (l_bitmap p) (l_ary p) (s32 (l_count p + d)).

(** How a level of [sub_alloc] ends: no space, go back to the level above with
    the next id; the pointer is planted; or an error.  The layer comes
    back with the changes so far. *)
Inductive sub_res (l : nat) :=
| SBack (id : Z) (p : layer l)
| SDone (id : Z) (p : layer l)
| SErr (e : Z) (p : layer l).
Arguments SBack {l}. Arguments SDone {l}. Arguments SErr {l}.

(** One turn of [while (1)] at a layer, up to the descent: the next entry and id, or
    the end. *)
Definition find_entry (l : nat) (p : layer l) (id : Z) : IM (sub_res l + Z * Z) :=
  let n := digit l id in
  m ← next_free (l_bitmap p) n;
  if m =? IDR_SIZE then mret (inl (SBack (skip_id (S l) id) p)) else
  let id := if m =? n then id else move_id l id n m in
  if bad_id id then mret (inl (SErr (-3) p)) else mret (inr (m, id)).

(** [p->ary[m]], which is created if it is missing; none if there is no layer left *)
Definition get_child {X} (p : idr_layer (idr_layer X)) (m : Z) : IM (option (idr_layer X * idr_layer (idr_layer X))) :=
  c ← ary_at p m;
  match c with
  | Some c => mret (Some (c, p))
  | None =>
      new ← alloc_layer;
      mret (match new with Some c => Some (c, add_count 1 (set_entry m (Some c) p)) | None => None end)
  end.
(** The turns of the loop at a layer above the leaves; [sub] is the descent. *)
Fixpoint turns {l : nat} (sub : layer l → Z → IM (sub_res l)) (fuel : nat) (p : layer (S l)) (id : Z) : IM (sub_res (S l)) :=
  match fuel with
  | O => fail FFuel
  | S fuel =>
      f ← find_entry (S l) p id;
      match f with
      | inl r => mret r
      | inr (m, id) =>
          c ← get_child p m;
          match c with
          | None => mret (SErr (l := S l) (-1) p)
          | Some (c, p) =>
              r ← sub c id;
              match r with
              | SBack id c => turns sub fuel (set_entry m (Some c) p) id
              | SErr e c => mret (SErr (l := S l) e (set_entry m (Some c) p))
              | SDone id c =>
                  let p := set_entry m (Some c) p in
                  mret (SDone (l := S l) id (if l_bitmap c =? IDR_FULL then mark (digit (S l) id) p else p))
              end
          end
      end
  end.
Fixpoint sub_alloc (l : nat) (ptr : Z) : layer l → Z → IM (sub_res l) :=
  match l return layer l → Z → IM (sub_res l) with
  | O => λ p id,
      f ← find_entry 0 p id;
      match f with
      | inl r => mret r
      | inr (m, id) => mret (SDone (l := 0) id (add_count 1 (mark m (set_entry m (Some ptr) p))))
      end
  | S l => turns (sub_alloc l ptr) 64
  end.

(** ** Growth *)

(** [while ((layers < (MAX_LEVEL - 1)) && (id >= (1 << (layers*IDR_BITS))))]; [built]
    counts the new layers, which are given back if memory is short.  A layer with no
    entries becomes one of a higher level. *)
Fixpoint grow (fuel built : nat) (l : nat) (p : layer l) (id : Z) : IM (option (sigT (λ l, layer l))) :=
  if (S l <? MAX_LEVEL - 1)%nat && (s32 (Z.shiftl 1 (Z.of_nat (S l) * IDR_BITS)) <=? id) then
    match fuel with
    | O => fail FFuel
    | S fuel =>
        if l_count p =? 0 then
          assert FBug (all_zero p) ;; grow fuel built (S l) (Layer (l_bitmap p) (replicate 32 None) (l_count p) : layer (S l)) id
        else
          new ← alloc_layer (X := entry (S l));
          match new with
          | None => modify (λ s, with_free (id_free_cnt s + Z.of_nat built) s) ;; mret None
          | Some q =>
              let q : layer (S l) := Layer (l_bitmap q) (<[0%nat := Some p]> (l_ary q)) 1 in
              grow fuel (S built) (S l) (if l_bitmap p =? IDR_FULL then mark 0 q else q) id
          end
    end
  else mret (Some (existT l p)).

(** The top layer, or a new one for an empty tree *)
Definition get_top : IM (option (sigT (λ l, layer l))) :=
  t ← gets top;
  match t with
  | Some t => mret (Some t)
  | None => new ← alloc_layer; mret (match new with Some p => Some (existT 0%nat (p : layer 0)) | None => None end)
  end.
Definition put_top (l : nat) (p : layer l) : IM unit := modify (with_top (Some (existT l p))).
Fixpoint idr_get_new_above_int (fuel : nat) (ptr id : Z) : IM Z :=
  match fuel with
  | O => fail FFuel
  | S fuel =>
      t ← get_top;
      match t with
      | None => mret (-1)
      | Some (existT l p) =>
          t ← grow MAX_LEVEL 0 l p id;
          match t with
          | None => mret (-1)
          | Some (existT l p) =>
              put_top l p ;;
              r ← sub_alloc l ptr p id;
              match r with
              | SBack id p => put_top l p ;; idr_get_new_above_int fuel ptr id
              | SDone id p => put_top l p ;; mret id
              | SErr e p => put_top l p ;; mret e
              end
          end
      end
  end.
(** The id on success *)
Definition idr_get_new_above (ptr starting_id : Z) : IM (Z * option Z) :=
  rv ← idr_get_new_above_int 8 ptr starting_id;
  mret (if rv <? 0 then (if rv =? -1 then - EAGAIN else - ENOSPC, None) else (0, Some rv)).
Definition idr_get_new (ptr : Z) : IM (Z * option Z) :=
  rv ← idr_get_new_above_int 8 ptr 0;
  mret (if rv <? 0 then (if rv =? -1 then - EAGAIN else - ENOSPC, None) else (0, Some rv)).

(** ** Removal *)

(** Whether the id was there, and the layer unless it was freed. *)
Fixpoint sub_remove (l : nat) (id : Z) : layer l → IM (bool * option (layer l)) :=
  match l return layer l → IM (bool * option (layer l)) with
  | O => λ p,
      let n := Z.land id IDR_MASK in
      if Z.testbit (l_bitmap p) n then
        let p := add_count (-1) (set_entry n None (unmark n p)) in
        if l_count p =? 0 then free_layer p ;; mret (true, None) else mret (true, Some p)
      else mret (false, Some p)
  | S l' => λ p,
      let n := digit (S l') id in
      let p := unmark n p in
      c ← ary_at p n;
      match c with
      | None => mret (false, Some p)
      | Some c =>
          r ← sub_remove l' id c;
          match r with
          | (found, Some c) => mret (found, Some (set_entry n (Some c) p))
          | (found, None) =>
              let p := add_count (-1) (set_entry n None p) in
              if l_count p =? 0 then free_layer p ;; mret (found, None) else mret (found, Some p)
          end
      end
  end.
(** The top layer goes if it only has a first entry. *)
Definition drop_top (t : sigT (λ l, layer l)) : IM unit :=
  match t with
  | existT (S l) p =>
      match l_ary p with
      | Some c :: _ => if l_count p =? 1 then free_layer (Layer 0 (l_ary p) 0) ;; put_top l c else mret tt
      | _ => mret tt
      end
  | existT O _ => mret tt
  end.
Definition idr_remove (id : Z) : IM unit :=
  let id := Z.land id MAX_ID_MASK in
  t ← gets top;
  (match t with
   | None => mret tt
   | Some (existT l p) =>
       r ← sub_remove l id p;
       match r with (_, Some p) => put_top l p | (_, None) => modify (with_top None) end
   end) ;;
  t ← gets top;
  (match t with None => mret tt | Some t => drop_top t end) ;;
  n ← gets id_free_cnt;
  if IDR_FREE_MAX <=? n then modify (with_free (n - 1)) else mret tt.
(** Every layer of the list goes back to the cache. *)
Definition idr_destroy : IM unit := modify (with_free 0).

(** ** Lookup *)

Fixpoint find_down (l : nat) (id : Z) : layer l → IM Z :=
  match l return layer l → IM Z with
  | O => λ p, e ← ary_at p (digit 0 id); mret (default 0 e)
  | S l' => λ p, c ← ary_at p (digit (S l') id); match c with None => mret 0 | Some c => find_down l' id c end
  end.
Definition idr_find (id : Z) : IM Z :=
  let id := Z.land id MAX_ID_MASK in
  t ← gets top;
  match t with
  | None => mret 0
  | Some (existT l p) => if s32 (Z.shiftl 1 (Z.of_nat (S l) * IDR_BITS)) <=? id then mret 0 else find_down l id p
  end.
Fixpoint replace_down (l : nat) (id ptr : Z) : layer l → IM (option (Z * layer l)) :=
  match l return layer l → IM (option (Z * layer l)) with
  | O => λ p,
      let n := Z.land id IDR_MASK in
      if Z.testbit (l_bitmap p) n then old ← ary_at p n; mret (Some (default 0 old, set_entry n (Some ptr) p)) else mret None
  | S l' => λ p,
      let n := digit (S l') id in
      c ← ary_at p n;
      match c with
      | None => mret None
      | Some c => r ← replace_down l' id ptr c; mret (match r with Some (old, c) => Some (old, set_entry n (Some c) p) | None => None end)
      end
  end.
(** The old pointer, or an error. *)
Definition idr_replace (ptr id : Z) : IM (Z + Z) :=
  let id := Z.land id MAX_ID_MASK in
  t ← gets top;
  match t with
  | None => mret (inr (if s32 (Z.shiftl 1 0) <=? id then - EINVAL else - ENOENT))
  | Some (existT l p) =>
      if s32 (Z.shiftl 1 (Z.of_nat (S l) * IDR_BITS)) <=? id then mret (inr (- EINVAL)) else
      r ← replace_down l id ptr p;
      match r with Some (old, p) => put_top l p ;; mret (inl old) | None => mret (inr (- ENOENT)) end
  end.

(** ** Misallocation *)

Definition twenty : list bool := replicate 20 true.
(** [idr_get_new_above] looks at the entries of a layer without the higher digits of
    the id, which may have changed on the way up: after the id 1023 was taken, a
    request for an id of at least 1023 gets 1024, but the pointer is put where
    that of id 0 belongs. *)
Theorem idr_misallocates :
  match (_ ← idr_pre_get twenty; a ← idr_get_new_above 8 1023; _ ← idr_pre_get twenty; b ← idr_get_new_above 16 1023;
         x ← idr_find 1024; y ← idr_find 0; mret (a, b, x, y)) idr_init with
  | Done (r, _) => r = ((0, Some 1023), (0, Some 1024), 0, 16)
  | Fault _ => False
  end.
Proof. vm_compute. reflexivity. Qed.
(** [idr_remove] does not compare the id with the size of the tree: with the ids 0 and 1
    in a tree of one layer, the removal of id 32 removes id 0. *)
Theorem idr_removes_other :
  match (_ ← idr_pre_get twenty; a ← idr_get_new 8; b ← idr_get_new 16; _ ← idr_remove 32; x ← idr_find 0; y ← idr_find 1; mret (a, b, x, y)) idr_init with
  | Done (r, _) => r = ((0, Some 0), (0, Some 1), 0, 16)
  | Fault _ => False
  end.
Proof. vm_compute. reflexivity. Qed.
