(* ===== verification/IdrTree.v ===== *)
(** The tree of an idr: its invariant and what the walks of [Idr] do to it.

    An entry of level [l] holds the pointers of [B l] ids.  [slot] reads them,
    [wf] relates the bitmaps and counts to the entries: a bit is set exactly if
    everything below it is taken.  [sub_alloc] finds the least free id from a starting
    id on, provided that the starting id is [plain]: a carry out of a layer must
    not run through the layer above. *)

From S2P Require Import Prelude FindBit Idr.

Definition B (l : nat) : Z := 32 ^ Z.of_nat l.

(** ** Arithmetic *)

Lemma B_pos l : 0 < B l.
Proof. apply Z.pow_pos_nonneg; lia. Qed.
Lemma B_S l : B (S l) = 32 * B l.
Proof. unfold B. rewrite Nat2Z.inj_succ, Z.pow_succ_r by lia. lia. Qed.
Lemma B_pow2 l : B l = 2 ^ (5 * Z.of_nat l).
Proof. unfold B. change 32 with (2 ^ 5). by rewrite <- Z.pow_mul_r by lia. Qed.
Lemma B_le l l' : (l ≤ l')%nat → B l ≤ B l'.
Proof. intros. apply Z.pow_le_mono_r; lia. Qed.
Lemma B_bound l : (l ≤ 6)%nat → B l ≤ 2 ^ 30.
Proof. intros. change (2 ^ 30) with (B 6). by apply B_le. Qed.

Lemma low_xor h a : 0 ≤ a < 32 → Z.lxor (Z.shiftl h 5) a = 32 * h + a.
Proof.
  intros Ha. rewrite <- Z.add_nocarry_lxor.
  - rewrite Z.shiftl_mul_pow2 by lia. change (2 ^ 5) with 32. lia.
  - apply Z.bits_inj'. intros i Hi. rewrite Z.land_spec, Z.bits_0. destruct (Z.lt_ge_cases i 5).
    + by rewrite Z.shiftl_spec_low.
    + rewrite (Z.bits_above_log2 a), andb_false_r; [done|lia|]. destruct (decide (a = 0)) as [->|]; [cbn; lia|].
      apply Z.log2_lt_pow2; [lia|]. apply Z.lt_le_trans with (2 ^ 5); [lia|]. apply Z.pow_le_mono_r; lia.
Qed.
Lemma digit_eq l id : digit l id = (id / B l) mod 32.
Proof. unfold digit, IDR_BITS, IDR_MASK. rewrite Z.shiftr_div_pow2, <- B_pow2 by lia. change 31 with (Z.ones 5). by rewrite Z.land_ones by lia. Qed.
Lemma digit_range l id : 0 ≤ digit l id < 32.
Proof. rewrite digit_eq. apply Z.mod_pos_bound. lia. Qed.
(** An id without the digits up to level [l], those above it *)
Lemma id_split l id : id = B (S l) * (id / B (S l)) + (B l * digit l id + id mod B l).
Proof.
  rewrite digit_eq, B_S. pose proof (B_pos l). rewrite (Z.mul_comm 32), <- Z.div_div by lia.
  pose proof (Z.div_mod (id / B l) 32 ltac:(lia)). pose proof (Z.div_mod id (B l) ltac:(lia)). nia.
Qed.
Lemma low_split l id : id mod B (S l) = B l * digit l id + id mod B l.
Proof. pose proof (id_split l id). pose proof (B_pos (S l)). pose proof (Z.div_mod id (B (S l)) ltac:(lia)). lia. Qed.

Lemma move_id_eq l id m : 0 ≤ m < 32 → 0 ≤ id < 2 ^ 30 → B (S l) ≤ 2 ^ 30 →
  move_id l id (digit l id) m = B (S l) * (id / B (S l)) + B l * m.
Proof.
  intros Hm Hid Hl. pose proof (B_pos l). pose proof (digit_range l id). pose proof (id_split l id) as E.
  assert (Hq : id / B l = 32 * (id / B (S l)) + digit l id).
  { rewrite digit_eq, B_S, (Z.mul_comm 32 (B l)), <- Z.div_div by lia. apply Z.div_mod. lia. }
  unfold move_id, IDR_BITS. cbv zeta. rewrite Z.shiftr_div_pow2, Z.shiftl_mul_pow2, <- B_pow2 by lia. rewrite Hq.
  rewrite <- low_xor, (Z.lxor_assoc _ _ (digit l id)), Z.lxor_nilpotent, Z.lxor_0_r, low_xor by lia.
  assert (0 ≤ id / B (S l)) by (apply Z.div_pos; [lia|apply B_pos]).
  assert (Hd : id / B (S l) * B (S l) ≤ id) by (pose proof (Z.mul_div_le id (B (S l)) (B_pos _)); lia). rewrite B_S in *.
  rewrite s32_small; [lia|]. nia.
Qed.
Lemma skip_id_eq l id : 0 ≤ id < 2 ^ 30 → B l ≤ 2 ^ 30 → skip_id l id = B l * (id / B l + 1).
Proof.
  intros Hid Hl. pose proof (B_pos l). unfold skip_id, IDR_BITS. rewrite Z.shiftl_1_l, <- B_pow2, (s32_small (B l)) by lia.
  assert (E : Z.lor id (B l - 1) = B l * (id / B l) + (B l - 1)).
  { replace (B l - 1) with (Z.ones (5 * Z.of_nat l)) by (rewrite B_pow2, Z.ones_equiv; lia).
    rewrite (Z.mul_comm (B l)), B_pow2, <- Z.shiftl_mul_pow2, <- Z.shiftr_div_pow2 by lia. rewrite Z.add_nocarry_lxor.
    - apply Z.bits_inj'. intros i Hi. rewrite Z.lor_spec, Z.lxor_spec. destruct (Z.lt_ge_cases i (5 * Z.of_nat l)).
      + rewrite Z.shiftl_spec_low, Z.ones_spec_low by lia. by rewrite orb_true_r.
      + rewrite Z.ones_spec_high, Z.shiftl_spec, Z.shiftr_spec by lia. rewrite orb_false_r, xorb_false_r. f_equal. lia.
    - apply Z.bits_inj'. intros i Hi. rewrite Z.land_spec, Z.bits_0. destruct (Z.lt_ge_cases i (5 * Z.of_nat l)).
      + by rewrite Z.shiftl_spec_low by lia.
      + by rewrite Z.ones_spec_high, andb_false_r by lia. }
  rewrite E. pose proof (Z.mul_div_le id (B l) ltac:(lia)). pose proof (Z.div_pos id (B l) ltac:(lia) ltac:(lia)). rewrite s32_small; nia.
Qed.

(** ** The invariant *)

Definition entry_at {X} (p : idr_layer X) (m : Z) : option X := mjoin (l_ary p !! Z.to_nat m).
Definition used {X} (p : idr_layer X) (i : nat) : bool := match entry_at p (Z.of_nat i) with Some _ => true | None => false end.
Definition some {X} (e : option X) : bool := match e with Some _ => true | None => false end.

(** One layer, where [full] says which entries are full. *)
Record shape {X} (full : X → bool) (p : idr_layer X) : Prop := Shape {
  sh_len : length (l_ary p) = 32%nat;
  sh_word : 0 ≤ l_bitmap p < 2 ^ 32;
  sh_count : l_count p = tally 32 (used p);
  sh_bit m : 0 ≤ m < 32 → Z.testbit (l_bitmap p) m = match entry_at p m with Some x => full x | None => false end }.
Definition full (l : nat) : entry l → bool := match l with O => λ _, true | S l => λ p : layer l, l_bitmap p =? IDR_FULL end.
Fixpoint wf (l : nat) : entry l → Prop :=
  match l with
  | O => λ _, True
  | S l => λ p : layer l, shape (full l) p ∧ ∀ m x, 0 ≤ m < 32 → entry_at p m = Some x → wf l x
  end.
(** The pointer of id [j] *)
Fixpoint slot (l : nat) : entry l → Z → option Z :=
  match l with
  | O => λ v _, Some v
  | S l => λ (p : layer l) j, match entry_at p (j / B l) with Some x => slot l x (j mod B l) | None => None end
  end.

Section Layer.
Context {X : Type} (full : X → bool).
Implicit Types (p : idr_layer X) (e : option X).

Lemma low_word x : (∀ i, 32 ≤ i → Z.testbit x i = false) → 0 ≤ x < 2 ^ 32.
Proof.
  intros H. replace x with (x mod 2 ^ 32); [apply Z.mod_pos_bound; lia|]. apply Z.bits_inj'. intros i Hi.
  destruct (Z.lt_ge_cases i 32); [by rewrite Z.mod_pow2_bits_low|]. rewrite Z.mod_pow2_bits_high by lia. symmetry. apply H. lia.
Qed.
Lemma ary_at_run p m s : shape full p → 0 ≤ m < 32 → ary_at p m s = Done (entry_at p m, s).
Proof.
  intros Hs Hm. unfold ary_at, entry_at. destruct (l_ary p !! Z.to_nat m) as [e|] eqn:E; [done|].
  apply lookup_ge_None in E. rewrite (sh_len _ _ Hs) in E. lia.
Qed.
Lemma entry_at_set p m e i b c : length (l_ary p) = 32%nat → 0 ≤ m < 32 → 0 ≤ i →
  entry_at (Layer b (<[Z.to_nat m := e]> (l_ary p)) c) i = if i =? m then e else entry_at p i.
Proof.
  intros Hl Hm Hi. unfold entry_at. cbn [l_ary]. destruct (Z.eqb_spec i m) as [->|].
  - by rewrite list_lookup_insert_eq by lia.
  - by rewrite list_lookup_insert_ne by lia.
Qed.
Lemma count_bound p : shape full p → 0 ≤ l_count p ≤ 32.
Proof. intros Hs. rewrite (sh_count _ _ Hs). apply (tally_bound 32). Qed.
(** Storing an entry, with its bit and the count *)
Lemma shape_set p m e b c : shape full p → 0 ≤ m < 32 →
  (∀ i, 0 ≤ i → Z.testbit b i = if i =? m then match e with Some x => full x | None => false end else Z.testbit (l_bitmap p) i) →
  c = l_count p - bool2Z (some (entry_at p m)) + bool2Z (some e) →
  shape full (Layer b (<[Z.to_nat m := e]> (l_ary p)) c).
Proof.
  intros Hs Hm Hb ->. pose proof (sh_len _ _ Hs) as Hl. constructor; cbn [l_ary l_bitmap l_count].
  - by rewrite length_insert.
  - apply low_word. intros i Hi. rewrite Hb by lia. destruct (Z.eqb_spec i m); [lia|]. apply testbit_high; [apply (sh_word _ _ Hs)|lia].
  - set (c := _ + _). symmetry. etrans; [apply (tally_change 32 (used p) _ (Z.to_nat m)); [lia|]|].
    2: { subst c. rewrite (sh_count _ _ Hs). unfold used. rewrite entry_at_set, !Z2Nat.id, Z.eqb_refl by lia. done. }
    intros j Hj. unfold used. rewrite entry_at_set by lia. by destruct (Z.eqb_spec (Z.of_nat j) m); [lia|].
  - intros i Hi. rewrite Hb, entry_at_set by lia. destruct (Z.eqb_spec i m); [done|]. by apply (sh_bit _ _ Hs).
Qed.
Lemma shape_new : shape full idr_cache_ctor.
Proof.
  constructor; [done|cbn; lia|by vm_compute|]. intros m Hm. unfold entry_at, idr_cache_ctor. cbn [l_ary l_bitmap].
  rewrite lookup_replicate_2 by lia. apply Z.bits_0.
Qed.
Lemma entry_at_new m : entry_at (idr_cache_ctor (X := X)) m = None.
Proof. unfold entry_at. cbn [idr_cache_ctor l_ary]. destruct (replicate 32 (None (A := X)) !! _) eqn:E; [|done]. apply lookup_replicate in E as [-> _]. done. Qed.
(** A layer without entries *)
Lemma shape_empty p : shape full p → l_count p = 0 → p = idr_cache_ctor.
Proof.
  intros Hs Hc. pose proof (sh_len _ _ Hs) as Hl. assert (Hu : ∀ m, 0 ≤ m < 32 → entry_at p m = None).
  { intros m Hm. destruct (entry_at p m) eqn:E; [|done]. pose proof (tally_pos 32 (used p) (Z.to_nat m) ltac:(lia)) as Hp.
    rewrite <- (sh_count _ _ Hs) in Hp. unfold used in Hp. rewrite Z2Nat.id, E in Hp by lia. specialize (Hp eq_refl). lia. }
  destruct p as [b a c]. cbn in *. subst c. unfold idr_cache_ctor. f_equal.
  - apply word_0; [apply (sh_word _ _ Hs)|]. intros i Hi. by rewrite (sh_bit _ _ Hs), Hu by lia.
  - apply list_eq. intros i. destruct (decide (i < 32)%nat).
    + rewrite lookup_replicate_2 by lia. specialize (Hu (Z.of_nat i) ltac:(lia)). unfold entry_at in Hu. cbn in Hu. rewrite Nat2Z.id in Hu.
      destruct (a !! i) as [[x|]|] eqn:E; [done|done|]. apply lookup_ge_None in E. lia.
    + rewrite !lookup_ge_None_2; [done| |lia]. rewrite length_replicate. lia.
Qed.
Lemma full_bits p : 0 ≤ l_bitmap p < 2 ^ 32 → l_bitmap p = IDR_FULL ↔ ∀ m, 0 ≤ m < 32 → Z.testbit (l_bitmap p) m = true.
Proof.
  intros Hw. change IDR_FULL with ONES. split.
  - intros -> m Hm. rewrite ones_bits by lia. destruct (Z.ltb_spec m 32); [done|lia].
  - intros H. apply word_ext; [done|vm_compute; split; [discriminate|done]|]. intros i Hi. rewrite H, ones_bits by lia. destruct (Z.ltb_spec i 32); [done|lia].
Qed.
(** The next entry that is not full *)
Lemma next_free_ok p n s : shape full p → 0 ≤ n < 32 →
  ∃ m, next_free (l_bitmap p) n s = Done (m, s) ∧ n ≤ m ≤ 32 ∧ (m < 32 → Z.testbit (l_bitmap p) m = false) ∧
    ∀ k, n ≤ k < m → Z.testbit (l_bitmap p) k = true.
Proof.
  intros Hs Hn. assert (Hw : words_ok [u32 (Z.lnot (l_bitmap p))]) by (constructor; [apply u32_range|constructor]).
  assert (Hb : ∀ i, 0 ≤ i < 32 → bit [u32 (Z.lnot (l_bitmap p))] i = negb (Z.testbit (l_bitmap p) i)).
  { intros i Hi. unfold bit. rewrite Z.div_small, Z.mod_small by lia. change ([_] !! Z.to_nat 0) with (Some (u32 (Z.lnot (l_bitmap p)))). cbv iota.
    rewrite u32_mod, Z.mod_pow2_bits_low, Z.lnot_spec by lia. done. }
  unfold next_free. change IDR_SIZE with 32. rewrite find_next_bit_spec by (done || (cbn; lia)). exists (next (bit [u32 (Z.lnot (l_bitmap p))]) 32 n).
  split; [done|]. unfold next. destruct (Z.leb_spec 32 n); [lia|].
  destruct (scan_result (bit [u32 (Z.lnot (l_bitmap p))]) n (Z.to_nat (32 - n))) as (H1 & H2 & H3). rewrite Z2Nat.id in * by lia.
  split; [lia|]. split.
  - intros Hm. specialize (H2 ltac:(lia)). rewrite Hb in H2 by lia. by apply negb_true_iff.
  - intros k Hk. specialize (H3 k Hk). rewrite Hb in H3 by lia. by apply negb_false_iff.
Qed.

End Layer.

(** ** Layers and slots *)

Lemma div_at l m i : 0 ≤ i < B l → (B l * m + i) / B l = m ∧ (B l * m + i) mod B l = i.
Proof.
  intros Hi. split; [symmetry; by apply (Z.div_unique_pos _ _ _ i)|symmetry; by apply (Z.mod_unique_pos _ _ m)].
Qed.
Lemma split_at l i : 0 ≤ i < B (S l) → ∃ m j, i = B l * m + j ∧ 0 ≤ m < 32 ∧ 0 ≤ j < B l.
Proof.
  rewrite B_S. intros Hi. pose proof (B_pos l). exists (i / B l), (i mod B l). split; [apply Z.div_mod; lia|].
  split; [|apply Z.mod_pos_bound; lia]. split; [apply Z.div_pos; lia|apply Z.div_lt_upper_bound; lia].
Qed.
Lemma digit_at l id m j : 0 ≤ m < 32 → 0 ≤ j < B l → digit l (id - id mod B (S l) + (B l * m + j)) = m.
Proof.
  intros Hm Hj. rewrite digit_eq. pose proof (Z.div_mod id (B (S l)) ltac:(pose proof (B_pos (S l)); lia)) as E.
  replace (id - id mod B (S l) + (B l * m + j)) with (B l * (m + id / B (S l) * 32) + j) by (rewrite B_S in E |- *; lia).
  destruct (div_at l (m + id / B (S l) * 32) j Hj) as [-> _]. rewrite Z.mod_add, Z.mod_small by lia. done.
Qed.
(** The part of the slots behind an entry *)
Definition behind l (p : layer l) (m i : Z) : option Z := match entry_at p m with Some x => slot l x i | None => None end.
Lemma slot_behind l (p : layer l) m i : 0 ≤ i < B l → slot (S l) p (B l * m + i) = behind l p m i.
Proof. intros Hi. cbn [slot]. destruct (div_at l m i Hi) as [-> ->]. done. Qed.

Lemma wf_set l (p : layer l) m e b c : wf (S l) p → 0 ≤ m < 32 → (∀ x, e = Some x → wf l x) →
  (∀ i, 0 ≤ i → Z.testbit b i = if i =? m then match e with Some x => full l x | None => false end else Z.testbit (l_bitmap p) i) →
  c = l_count p - bool2Z (some (entry_at p m)) + bool2Z (some e) →
  wf (S l) (Layer b (<[Z.to_nat m := e]> (l_ary p)) c).
Proof.
  intros [Hs Hw] Hm He Hb Hc. split; [by apply shape_set|]. intros i x Hi. rewrite entry_at_set by (lia || apply (sh_len _ _ Hs)).
  destruct (Z.eqb_spec i m); [apply He|by apply Hw].
Qed.
Lemma behind_set l (p : layer l) m e b c i j : wf (S l) p → 0 ≤ m < 32 → 0 ≤ i →
  behind l (Layer b (<[Z.to_nat m := e]> (l_ary p)) c) i j = if i =? m then match e with Some x => slot l x j | None => None end else behind l p i j.
Proof. intros [Hs _] Hm Hi. unfold behind. rewrite entry_at_set by (lia || apply (sh_len _ _ Hs)). by destruct (i =? m). Qed.
Lemma wf_new l : wf (S l) idr_cache_ctor.
Proof. split; [apply shape_new|]. intros m x _. by rewrite entry_at_new. Qed.
Lemma slot_new l j : slot (S l) idr_cache_ctor j = None.
Proof. cbn [slot]. by rewrite entry_at_new. Qed.

Lemma full_spec l x : wf l x → full l x = true ↔ ∀ j, 0 ≤ j < B l → slot l x j ≠ None.
Proof.
  revert x. induction l as [|l IH]; intros x Hx; [split; [by intros _ j _|done]|]. change (layer l) in x. destruct Hx as [Hs Hw].
  cbn [full]. rewrite Z.eqb_eq, full_bits by apply (sh_word _ _ Hs). split.
  - intros Hb j Hj. destruct (split_at l j Hj) as (m & i & -> & Hm & Hi). rewrite slot_behind by done. specialize (Hb m Hm).
    rewrite (sh_bit _ _ Hs) in Hb by done. unfold behind. destruct (entry_at x m) as [y|] eqn:E in Hb |- *; [|done].
    apply IH; [by apply (Hw m)|done..].
  - intros Hf m Hm. rewrite (sh_bit _ _ Hs) by done. pose proof (λ i Hi, Hf (B l * m + i) Hi) as H. pose proof (B_pos l).
    destruct (entry_at x m) as [y|] eqn:E.
    + apply IH; [by apply (Hw m)|]. intros i Hi. specialize (H i). rewrite slot_behind in H by done. unfold behind in H. rewrite E in H.
      apply H. rewrite B_S. nia.
    + specialize (H 0). rewrite slot_behind in H by lia. unfold behind in H. rewrite E in H. exfalso. apply H; [|done]. rewrite B_S. nia.
Qed.
Lemma full_false l x : wf l x → full l x = false ↔ ∃ j, 0 ≤ j < B l ∧ slot l x j = None.
Proof.
  intros Hx. split.
  - intros Hf. destruct (decide (Exists (λ j, slot l x (Z.of_nat j) = None) (seq 0 (Z.to_nat (B l))))) as [He|Hn].
    + apply list.Exists_exists in He as (j & Hj & E). apply elem_of_seq in Hj. exists (Z.of_nat j). split; [lia|done].
    + assert (full l x = true); [|congruence]. apply full_spec; [done|]. intros j Hj E. apply Hn, list.Exists_exists.
      exists (Z.to_nat j). split; [apply elem_of_seq; lia|]. by rewrite Z2Nat.id by lia.
  - intros (j & Hj & E). destruct (full l x) eqn:Ef; [|done]. exfalso. by apply (proj1 (full_spec l x Hx) Ef j Hj).
Qed.
Lemma bit_true l (p : layer l) m i : wf (S l) p → 0 ≤ m < 32 → Z.testbit (l_bitmap p) m = true → 0 ≤ i < B l → behind l p m i ≠ None.
Proof.
  intros [Hs Hw] Hm Hb Hi. rewrite (sh_bit _ _ Hs) in Hb by done. unfold behind. destruct (entry_at p m) as [y|] eqn:E in Hb |- *; [|done].
  apply (full_spec l y); [by apply (Hw m)|done..].
Qed.
Lemma bit_false l (p : layer l) m : wf (S l) p → 0 ≤ m < 32 → Z.testbit (l_bitmap p) m = false → ∃ i, 0 ≤ i < B l ∧ behind l p m i = None.
Proof.
  intros [Hs Hw] Hm Hb. rewrite (sh_bit _ _ Hs) in Hb by done. unfold behind. destruct (entry_at p m) as [y|] eqn:E in Hb |- *.
  - apply full_false; [by apply (Hw m)|done].
  - exists 0. pose proof (B_pos l). split; [lia|done].
Qed.

(** ** Allocation *)

(** [j] is the first free id in [lo..hi) *)
Record least_free (f : Z → option Z) (lo hi j : Z) : Prop := LeastFree {
  lf_range : lo ≤ j < hi;
  lf_free : f j = None;
  lf_least i : lo ≤ i < j → f i ≠ None }.
(** A digit of the id, but the lowest, is not 31 or the ones below it are 0 *)
Definition plain (l : nat) (id : Z) : Prop := ∀ k, (1 ≤ k ≤ l)%nat → digit k id ≠ 31 ∨ id mod B k = 0.

Lemma mod_le l k x : (k ≤ l)%nat → x mod B l = 0 → x mod B k = 0.
Proof.
  intros Hk Hx. pose proof (B_pos k). assert (E : B l = B k * B (l - k)) by (unfold B; rewrite <- Z.pow_add_r by lia; f_equal; lia).
  rewrite (Z.div_mod x (B l)) by (pose proof (B_pos l); lia). rewrite Hx, E, Z.add_0_r, <- !Z.mul_assoc, Z.mul_comm. apply Z.mod_mul. lia.
Qed.
Lemma plain_zero l id : id mod B l = 0 → plain l id.
Proof. intros H k Hk. right. apply (mod_le l); [lia|done]. Qed.
Lemma plain_le l l' id : (l' ≤ l)%nat → plain l id → plain l' id.
Proof. intros Hl Hp k Hk. apply Hp. lia. Qed.

(** The id after the step to entry [m]: its low digits stay if [m] is its digit *)
Definition step_to (l : nat) (id m : Z) : Z := if m =? digit l id then id else id - id mod B (S l) + B l * m.
Definition step_low (l : nat) (id m : Z) : Z := if m =? digit l id then id mod B l else 0.
Lemma step_low_range l id m : 0 ≤ step_low l id m < B l.
Proof. unfold step_low. pose proof (B_pos l). destruct (m =? _); [apply Z.mod_pos_bound|]; lia. Qed.
Lemma step_to_eq l id m : step_to l id m = id - id mod B (S l) + (B l * m + step_low l id m).
Proof. unfold step_to, step_low. destruct (Z.eqb_spec m (digit l id)) as [->|]; [|lia]. rewrite low_split. lia. Qed.
Lemma step_to_mod l id m : 0 ≤ m < 32 → step_to l id m mod B l = step_low l id m.
Proof.
  intros Hm. pose proof (B_pos (S l)). rewrite step_to_eq. pose proof (Z.div_mod id (B (S l)) ltac:(lia)).
  replace (id - id mod B (S l) + (B l * m + step_low l id m)) with (B l * (32 * (id / B (S l)) + m) + step_low l id m) by (rewrite B_S in *; lia).
  apply div_at, step_low_range.
Qed.
Lemma step_to_range l id m : 0 ≤ m < 32 → 0 ≤ id < 2 ^ 30 → (l ≤ 5)%nat → 0 ≤ step_to l id m < 2 ^ 30.
Proof.
  intros Hm Hid Hl. pose proof (B_pos l). pose proof (step_low_range l id m). rewrite step_to_eq.
  assert (E : 2 ^ 30 = B (S l) * B (5 - l)) by (change (2 ^ 30) with (B 6); unfold B; rewrite <- Z.pow_add_r by lia; f_equal; lia).
  pose proof (Z.div_mod id (B (S l)) ltac:(pose proof (B_pos (S l)); lia)).
  assert (0 ≤ id / B (S l) < B (5 - l)) by (split; [apply Z.div_pos|apply Z.div_lt_upper_bound]; (pose proof (B_pos (S l)); lia)).
  rewrite E. rewrite B_S in *. nia.
Qed.
Lemma step_to_plain l id m : 0 ≤ m < 32 → plain l id → plain l (step_to l id m).
Proof.
  intros Hm Hp. destruct (decide (m = digit l id)) as [->|Hne]; [unfold step_to; by rewrite Z.eqb_refl|].
  apply plain_zero. rewrite step_to_mod by done. unfold step_low. by destruct (Z.eqb_spec m (digit l id)).
Qed.

Lemma find_entry_ok l (p : layer l) id s : wf (S l) p → (l ≤ 5)%nat → 0 ≤ id < 2 ^ 30 →
  ∃ r, find_entry l p id s = Done (r, s) ∧
    match r with
    | inl r => r = SBack (id - id mod B (S l) + B (S l)) p ∧ ∀ k, digit l id ≤ k < 32 → Z.testbit (l_bitmap p) k = true
    | inr (m, id') => digit l id ≤ m < 32 ∧ Z.testbit (l_bitmap p) m = false ∧ (∀ k, digit l id ≤ k < m → Z.testbit (l_bitmap p) k = true) ∧
        id' = step_to l id m
    end.
Proof.
  intros [Hs Hw] Hl Hid. pose proof (digit_range l id) as Hd. destruct (next_free_ok _ p _ s Hs Hd) as (m & En & Hm & Hf & Ht).
  unfold find_entry. cbv zeta. rewrite (run_bind _ _ _ _ _ En). change IDR_SIZE with 32. pose proof (B_bound (S l) ltac:(lia)) as Hb.
  pose proof (B_pos (S l)). pose proof (Z.div_mod id (B (S l)) ltac:(lia)) as Edm. destruct (Z.eqb_spec m 32) as [->|Hne].
  - eexists. split; [done|]. rewrite skip_id_eq by done. split; [f_equal; lia|done].
  - assert (Em : (if m =? digit l id then id else move_id l id (digit l id) m) = step_to l id m).
    { unfold step_to. destruct (m =? digit l id); [done|]. rewrite move_id_eq by lia. lia. }
    rewrite Em. pose proof (step_to_range l id m ltac:(lia) Hid Hl). unfold bad_id, MAX_ID_BIT. rewrite u32_small by lia.
    destruct (Z.leb_spec (2 ^ 31) (step_to l id m)); [lia|]. destruct (Z.ltb_spec (step_to l id m) 0); [lia|].
    eexists. split; [done|]. split; [lia|]. split; [apply Hf; lia|done].
Qed.

(** A free id behind the entry found is the first of the layer. *)
Lemma least_lift l (p : layer l) id m j : wf (S l) p → digit l id ≤ m < 32 → (∀ k, digit l id ≤ k < m → Z.testbit (l_bitmap p) k = true) →
  least_free (behind l p m) (step_low l id m) (B l) j → least_free (slot (S l) p) (id mod B (S l)) (B (S l)) (B l * m + j).
Proof.
  intros Hw Hm Hk [Hr Hf Hl]. pose proof (digit_range l id). pose proof (step_low_range l id m). pose proof (B_pos l).
  pose proof (Z.mod_pos_bound id (B l) ltac:(lia)). rewrite low_split. unfold step_low in *.
  assert (B l * digit l id + id mod B l ≤ B l * m + j) by (destruct (Z.eqb_spec m (digit l id)); [subst m|]; nia).
  split.
  - rewrite B_S. split; [lia|]. nia.
  - rewrite slot_behind by lia. done.
  - intros i Hi. destruct (split_at l i) as (k & i' & -> & Hk' & Hi'); [rewrite B_S; nia|]. rewrite slot_behind by done.
    assert (digit l id ≤ k ≤ m) by nia. destruct (decide (k = m)) as [->|]; [|apply bit_true; [done..| |done]; apply Hk; lia].
    apply Hl. destruct (Z.eqb_spec m (digit l id)) as [->|]; nia.
Qed.

(** What [sub_alloc] does: the slots from the id on are taken and the layer above
    is asked for the next id; the first free slot gets the pointer; or there are not enough
    layers, and no slot changes. *)
Definition alloc_ok l (ptr : Z) (p : layer l) (id : Z) (s : idr) (r : sub_res l) (s' : idr) : Prop :=
  let lo := id mod B (S l) in
  match r with
  | SBack id' p' => p' = p ∧ s' = s ∧ id' = id - lo + B (S l) ∧ ∀ j, lo ≤ j < B (S l) → slot (S l) p j ≠ None
  | SDone id' p' =>
      wf (S l) p' ∧ (∃ n, s' = with_free n s ∧ 0 ≤ n ≤ id_free_cnt s ∧ id_free_cnt s - Z.of_nat l ≤ n) ∧
      ∃ j, id' = id - lo + j ∧ least_free (slot (S l) p) lo (B (S l)) j ∧
        ∀ i, 0 ≤ i < B (S l) → slot (S l) p' i = if i =? j then Some ptr else slot (S l) p i
  | SErr e p' =>
      e = -1 ∧ wf (S l) p' ∧ (∃ n, s' = with_free n s ∧ 0 ≤ n ≤ id_free_cnt s) ∧ id_free_cnt s < Z.of_nat l ∧
      ∀ i, 0 ≤ i < B (S l) → slot (S l) p' i = slot (S l) p i
  end.

Lemma lor_bit_at b m i : 0 ≤ m → 0 ≤ i → Z.testbit (Z.lor b (Z.shiftl 1 m)) i = if i =? m then true else Z.testbit b i.
Proof.
  intros Hm Hi. rewrite Z.lor_spec, Z.shiftl_1_l, Z.pow2_bits_eqb, Z.eqb_sym by done. destruct (i =? m); [apply orb_true_r|apply orb_false_r].
Qed.
Lemma back_slots l (p : layer l) id : wf (S l) p → (∀ k, digit l id ≤ k < 32 → Z.testbit (l_bitmap p) k = true) →
  ∀ j, id mod B (S l) ≤ j < B (S l) → slot (S l) p j ≠ None.
Proof.
  intros Hw Hk j. rewrite low_split. pose proof (digit_range l id). pose proof (B_pos l). pose proof (Z.mod_pos_bound id (B l) ltac:(lia)). intros Hj.
  destruct (split_at l j) as (m & i & -> & Hm & Hi); [nia|]. rewrite slot_behind by done. apply bit_true; [done..| |done]. apply Hk. nia.
Qed.

Lemma sub_alloc_leaf ptr (p : layer 0) id s : wf 1 p → 0 ≤ id < 2 ^ 30 → 0 ≤ id_free_cnt s →
  ∃ r s', sub_alloc 0 ptr p id s = Done (r, s') ∧ alloc_ok 0 ptr p id s r s'.
Proof.
  intros Hw Hid Hc. destruct (find_entry_ok 0 p id s Hw ltac:(lia) Hid) as (r & E & Hr). cbn [sub_alloc]. rewrite (run_bind _ _ _ _ _ E).
  destruct r as [r|[m id']].
  - destruct Hr as [-> Hk]. eexists _, _. split; [done|]. split; [done|]. split; [done|]. split; [done|]. by apply back_slots.
  - destruct Hr as (Hm & Hf & Hk & ->). eexists _, _. split; [done|]. pose proof (digit_range 0 id). pose proof Hw as [Hs _].
    assert (En : entry_at p m = None) by (rewrite (sh_bit _ _ Hs) in Hf by lia; by destruct (entry_at p m)). pose proof (count_bound _ _ Hs) as Hcb.
    assert (Hb0 : ∀ i, 0 ≤ i < B 1 → ∃ k, i = B 0 * k + 0 ∧ 0 ≤ k < 32) by (intros i Hi; exists i; unfold B in *; cbn in *; lia).
    split; [|split; [exists (id_free_cnt s); destruct s; cbn in *; repeat split; lia|]].
    + unfold add_count, mark, set_entry. cbn [l_bitmap l_ary l_count entry] in *. rewrite s32_small by lia.
      apply wf_set; [done|lia|done| |cbn [entry] in *; rewrite En; cbn; lia]. intros i Hi. apply lor_bit_at; lia.
    + exists (B 0 * m + 0). split; [|split].
      * rewrite step_to_eq. pose proof (step_low_range 0 id m). change (B 0) with 1 in *. lia.
      * apply least_lift; [done..|]. pose proof (step_low_range 0 id m). change (B 0) with 1 in *. split; [lia|by unfold behind; rewrite En|lia].
      * intros i Hi. destruct (Hb0 i Hi) as (k & -> & Hk'). rewrite !slot_behind by (change (B 0) with 1; lia).
        unfold add_count, mark, set_entry. cbn [l_bitmap l_ary l_count]. rewrite behind_set by (done || lia).
        change (B 0) with 1. destruct (Z.eqb_spec k m), (Z.eqb_spec (1 * k + 0) (1 * m + 0)); (done || lia).
Qed.

Lemma alloc_layer_run {X} s :
  alloc_layer (X := X) s = if id_free_cnt s =? 0 then Done (None, s) else Done (Some idr_cache_ctor, with_free (id_free_cnt s - 1) s).
Proof. unfold alloc_layer. rewrite (run_bind _ _ s (id_free_cnt s) s eq_refl). by destruct (id_free_cnt s =? 0). Qed.
(** The child that is there or new *)
Lemma get_child_ok {X} (full : idr_layer X → bool) (p : idr_layer (idr_layer X)) m s : shape full p → 0 ≤ m < 32 → 0 ≤ id_free_cnt s →
  (∃ c, entry_at p m = Some c ∧ get_child p m s = Done (Some (c, p), s)) ∨
  (entry_at p m = None ∧ id_free_cnt s = 0 ∧ get_child p m s = Done (None, s)) ∨
  (entry_at p m = None ∧ 0 < id_free_cnt s ∧
   get_child p m s = Done (Some (idr_cache_ctor, Layer (l_bitmap p) (<[Z.to_nat m := Some idr_cache_ctor]> (l_ary p)) (l_count p + 1)), with_free (id_free_cnt s - 1) s)).
Proof.
  intros Hs Hm Hc. unfold get_child. rewrite (run_bind _ _ _ _ _ (ary_at_run _ p m s Hs Hm)). destruct (entry_at p m) as [c|] eqn:E; [left; by exists c|right].
  pose proof (count_bound _ _ Hs) as Hb. pose proof (alloc_layer_run (X := X) s) as Ea. destruct (Z.eqb_spec (id_free_cnt s) 0); rewrite (run_bind _ _ _ _ _ Ea); [by left|right]. split; [done|]. split; [lia|].
  unfold add_count, set_entry. cbn [l_bitmap l_ary l_count]. by rewrite s32_small by lia.
Qed.

Lemma set_same {X} (p : idr_layer X) m x : entry_at p m = Some x → set_entry m (Some x) p = p.
Proof.
  intros E. unfold set_entry. destruct p as [b a n]. cbn [l_bitmap l_ary l_count]. rewrite list_insert_id; [done|].
  unfold entry_at in E. cbn in E. by destruct (a !! Z.to_nat m) as [[]|] eqn:E'; simplify_eq/=.
Qed.

Section Child.
Context (l : nat).
Implicit Types p : layer (S l).

(** The layer with a new child: the bit is set if the child is full. *)
Definition with_child p (m : Z) (c : layer l) : layer (S l) :=
  Layer (if l_bitmap c =? IDR_FULL then Z.lor (l_bitmap p) (Z.shiftl 1 m) else l_bitmap p)
    (<[Z.to_nat m := Some c]> (l_ary p)) (l_count p - bool2Z (some (entry_at p m)) + 1).
Lemma with_child_wf p m (c : layer l) : wf (S (S l)) p → 0 ≤ m < 32 → Z.testbit (l_bitmap p) m = false → wf (S l) c → wf (S (S l)) (with_child p m c).
Proof.
  intros Hw Hm Hb Hc. apply wf_set; [done|done| | |done]; [by intros x [= <-]|]. intros i Hi. change (full (S l) c) with (l_bitmap c =? IDR_FULL).
  destruct (l_bitmap c =? IDR_FULL); [apply lor_bit_at; lia|]. by destruct (Z.eqb_spec i m) as [->|].
Qed.
Lemma with_child_slots p m (c : layer l) (f : Z → option Z) : wf (S (S l)) p → 0 ≤ m < 32 →
  (∀ i, 0 ≤ i < B (S l) → slot (S l) c i = f (B (S l) * m + i)) →
  (∀ k i, k ≠ m → 0 ≤ i < B (S l) → f (B (S l) * k + i) = slot (S (S l)) p (B (S l) * k + i)) →
  ∀ i, 0 ≤ i < B (S (S l)) → slot (S (S l)) (with_child p m c) i = f i.
Proof.
  intros Hw Hm Hf Hn i Hi. destruct (split_at (S l) i Hi) as (k & j & -> & Hk & Hj). rewrite slot_behind by done.
  unfold with_child. rewrite behind_set by (done || lia). destruct (Z.eqb_spec k m) as [->|]; [by apply Hf|]. by rewrite Hn, slot_behind.
Qed.

(** The child of the entry, its slots and how the layer is changed *)
Lemma child_ok p m s : wf (S (S l)) p → 0 ≤ m < 32 → 0 ≤ id_free_cnt s →
  (entry_at p m = None ∧ id_free_cnt s = 0 ∧ get_child (X := entry l) p m s = Done (None, s)) ∨
  ∃ (c : layer l) p1 n, get_child (X := entry l) p m s = Done (Some (c, p1), with_free n s) ∧ 0 ≤ n ≤ id_free_cnt s ∧ id_free_cnt s - 1 ≤ n ∧ wf (S l) c ∧ (∀ i, slot (S l) c i = behind (S l) p m i) ∧
    (∀ c', set_entry m (Some c') p1 = Layer (l_bitmap p) (<[Z.to_nat m := Some c']> (l_ary p)) (l_count p - bool2Z (some (entry_at p m)) + 1)) ∧
    (entry_at p m ≠ None → entry_at p m = Some c ∧ p1 = p ∧ n = id_free_cnt s).
Proof.
  intros Hw Hm Hc. destruct (get_child_ok (X := entry l) (full (S l)) p m s (proj1 Hw) Hm Hc) as [(c & E & Eg)|[?|(E & Hn & Eg)]]; [right|by left|right].
  - change (entry_at (X := entry (S l)) p m = Some c) in E. exists c, p, (id_free_cnt s). split; [rewrite Eg; by destruct s|]. rewrite E. split; [lia|]. split; [lia|]. split; [by apply (proj2 Hw m)|].
    split; [intros i; unfold behind; by rewrite E|]. split; [|done]. intros c'. unfold set_entry. f_equal. cbn. lia.
  - change (entry_at (X := entry (S l)) p m = None) in E. eexists _, _, _. split; [exact Eg|]. split; [lia|]. split; [lia|]. split; [apply wf_new|].
    split; [intros i; unfold behind; rewrite E; apply slot_new|]. split; [|by rewrite E]. intros c'. unfold set_entry. cbn [l_bitmap l_ary l_count].
    rewrite E, list_insert_insert_eq. f_equal. cbn. lia.
Qed.

Section Turn.
Context (ptr : Z) (sub : layer l → Z → IM (sub_res l)).
Context (Hl : (S l ≤ 5)%nat).
Context (Hsub : ∀ (c : layer l) id s, wf (S l) c → 0 ≤ id < 2 ^ 30 → plain l id → 0 ≤ id_free_cnt s →
  ∃ r s', sub c id s = Done (r, s') ∧ alloc_ok l ptr c id s r s').

(** One turn ends the search, or leads to a turn with the next entry. *)
Lemma turn_ok fuel p id s : wf (S (S l)) p → 0 ≤ id < 2 ^ 30 → plain (S l) id → 0 ≤ id_free_cnt s →
  (∃ r s', turns sub (S fuel) p id s = Done (r, s') ∧ alloc_ok (S l) ptr p id s r s') ∨
  (id mod B (S l) ≠ 0 ∧ turns sub (S fuel) p id s = turns sub fuel p (step_to (S l) id (digit (S l) id + 1)) s ∧
   ∀ i, id mod B (S (S l)) ≤ i < B (S l) * (digit (S l) id + 1) → slot (S (S l)) p i ≠ None).
Proof using All.
  intros Hw Hid Hp Hc. destruct (find_entry_ok (S l) p id s Hw Hl Hid) as (r & E & Hr). cbn [turns]. rewrite (run_bind _ _ _ _ _ E).
  pose proof (digit_range (S l) id) as Hd. destruct r as [r|[m id']].
  { left. destruct Hr as [-> Hk]. eexists _, _. split; [done|]. split; [done|]. split; [done|]. split; [done|]. by apply back_slots. }
  destruct Hr as (Hm & Hf & Hk & ->).
  destruct (child_ok p m s Hw ltac:(lia) Hc) as [(En & H0 & Eg)|(c & p1 & n & Eg & Hn & Hn1 & Hwc & Hsc & Hset & Hsome)]; rewrite (run_bind _ _ _ _ _ Eg).
  { left. eexists _, _. split; [done|]. split; [done|]. split; [done|]. split; [exists (id_free_cnt s); destruct s; cbn in *; repeat split; lia|].
    split; [lia|done]. }
  destruct (Hsub c (step_to (S l) id m) (with_free n s) Hwc) as (r & s' & Er & Hr); [apply step_to_range; (done || lia)| |cbn; lia|].
  { apply (plain_le (S l)); [lia|]. apply step_to_plain; [lia|done]. }
  rewrite (run_bind _ _ _ _ _ Er). pose proof (step_low_range (S l) id m) as Hlow. unfold alloc_ok in Hr. rewrite step_to_mod in Hr by lia.
  destruct r as [id'' c'|id'' c'|e c']; cbv zeta in Hr.
  - right. destruct Hr as (-> & -> & -> & Hall).
    assert (Hne : entry_at p m ≠ None).
    { intros En. apply (Hall (step_low (S l) id m)); [lia|]. rewrite Hsc. unfold behind. by rewrite En. }
    destruct (Hsome Hne) as (En & -> & ->). destruct (bit_false (S l) p m Hw ltac:(lia) Hf) as (i & Hi & Ei). rewrite <- Hsc in Ei.
    assert (Hlo : step_low (S l) id m ≠ 0) by (intros Hz; rewrite Hz in Hall; by apply (Hall i)).
    unfold step_low in Hlo, Hall. destruct (Z.eqb_spec m (digit (S l) id)) as [Em|]; [|done].
    split; [done|]. destruct (Hp (S l) ltac:(lia)) as [H31|]; [|done]. split.
    + match goal with |- turns _ _ ?q _ _ = _ => replace q with p by (symmetry; exact (set_same (X := entry (S l)) p m c En)) end.
      replace (with_free (id_free_cnt s) s) with s by (by destruct s). f_equal.
      rewrite !step_to_eq, <- Em. unfold step_low. rewrite <- Em, Z.eqb_refl. destruct (Z.eqb_spec (m + 1) m); lia.
    + intros j. rewrite low_split, <- Em. pose proof (Z.mod_pos_bound id (B (S l)) (B_pos _)). intros Hj.
      replace j with (B (S l) * m + (j - B (S l) * m)) by lia. rewrite slot_behind by lia. rewrite <- Hsc. apply Hall. lia.
  - left. destruct Hr as (Hw' & (n' & -> & Hn' & Hn'') & j & -> & Hlf & Hsl). cbn [id_free_cnt with_free] in *. pose proof (lf_range _ _ _ _ Hlf) as Hj.
    assert (Eid : step_to (S l) id m - step_low (S l) id m + j = id - id mod B (S (S l)) + (B (S l) * m + j)) by (rewrite step_to_eq; lia).
    assert (Ed : digit (S l) (step_to (S l) id m - step_low (S l) id m + j) = m) by (rewrite Eid; apply digit_at; lia).
    eexists _, _. split; [done|]. rewrite Ed, Hset.
    change (wf (S l) (c' : layer l)) in Hw'.
    replace (if l_bitmap c' =? IDR_FULL then mark m _ else _) with (with_child p m c') by (unfold with_child, mark; by destruct (l_bitmap c' =? IDR_FULL)).
    split; [by apply with_child_wf; (done || lia)|]. split; [exists n'; split; [done|lia]|].
    exists (B (S l) * m + j). split; [done|]. split.
    + apply least_lift; [done..|]. destruct Hlf as [H1 H2 H3]. split; [done|by rewrite <- Hsc|]. intros i Hi. rewrite <- Hsc. by apply H3.
    + apply (with_child_slots p m c' (λ i, if i =? B (S l) * m + j then Some ptr else slot (S (S l)) p i)); [done|lia|..].
      * intros i Hi. rewrite Hsl, Hsc, slot_behind by done. destruct (Z.eqb_spec i j), (Z.eqb_spec (B (S l) * m + i) (B (S l) * m + j)); (done || lia).
      * intros k i Hne Hi. destruct (Z.eqb_spec (B (S l) * k + i) (B (S l) * m + j)); [nia|done].
  - left. destruct Hr as (-> & Hw' & (n' & -> & Hn') & Hcnt & Hsl). cbn [id_free_cnt with_free] in *. eexists _, _. split; [done|]. rewrite Hset.
    assert (Hnf : full (S l) c' = false).
    { apply full_false; [done|]. destruct (bit_false (S l) p m Hw ltac:(lia) Hf) as (i & Hi & Ei). exists i. split; [done|]. by rewrite Hsl, Hsc. }
    change (full (S l) c') with (l_bitmap c' =? IDR_FULL) in Hnf.
    replace (Layer _ _ _) with (with_child p m c') by (unfold with_child; by rewrite Hnf).
    split; [done|]. split; [by apply with_child_wf; (done || lia)|]. split; [exists n'; split; [done|lia]|]. split; [lia|].
    apply with_child_slots; [done|lia| |done]. intros i Hi. by rewrite Hsl, Hsc, slot_behind.
Qed.

Lemma turns_ok fuel p id s : wf (S (S l)) p → 0 ≤ id < 2 ^ 30 → plain (S l) id → 0 ≤ id_free_cnt s →
  ∃ r s', turns sub (S (S fuel)) p id s = Done (r, s') ∧ alloc_ok (S l) ptr p id s r s'.
Proof using All.
  intros Hw Hid Hp Hc. destruct (turn_ok (S fuel) p id s Hw Hid Hp Hc) as [?|(Hz & E & Ht)]; [done|]. rewrite E.
  set (d := digit (S l) id + 1) in *. pose proof (digit_range (S l) id) as Hd. pose proof (B_pos (S l)) as HB.
  assert (H31 : 0 ≤ d < 32) by (destruct (Hp (S l) ltac:(lia)); [lia|done]).
  assert (Hd' : step_low (S l) id d = 0) by (unfold step_low; destruct (Z.eqb_spec d (digit (S l) id)); [lia|done]).
  pose proof (step_to_mod (S l) id d H31) as Em. rewrite Hd' in Em. pose proof (step_to_range (S l) id d H31 Hid Hl) as Hr.
  assert (Elo : step_to (S l) id d mod B (S (S l)) = B (S l) * d).
  { rewrite low_split, Em, step_to_eq, Hd', digit_at by lia. lia. }
  assert (Eb : step_to (S l) id d - B (S l) * d = id - id mod B (S (S l))) by (rewrite step_to_eq, Hd'; lia).
  assert (Hlo : id mod B (S (S l)) ≤ B (S l) * d) by (rewrite low_split; pose proof (Z.mod_pos_bound id (B (S l)) HB); nia).
  destruct (turn_ok fuel p _ s Hw Hr (plain_zero _ _ Em) Hc) as [(r & s' & Er & Hok)|(Hz' & _)]; [|done].
  exists r, s'. split; [done|]. unfold alloc_ok in *. rewrite Elo, Eb in Hok. cbv zeta in *.
  assert (Hall : ∀ j, id mod B (S (S l)) ≤ j < B (S (S l)) → (B (S l) * d ≤ j → slot (S (S l)) p j ≠ None) → slot (S (S l)) p j ≠ None).
  { intros j Hj Hge. destruct (Z.le_gt_cases (B (S l) * d) j); [auto|]. apply Ht. lia. }
  destruct r as [id' p'|id' p'|e p'].
  - destruct Hok as (? & ? & ? & Hf). repeat split; auto. intros j Hj. apply Hall; [done|]. intros ?. apply Hf. lia.
  - destruct Hok as (? & ? & j & -> & [H1 H2 H3] & Hs). split; [done|]. split; [done|]. exists j. split; [done|]. split; [|done]. split; [lia|done|].
    intros i Hi. apply Hall; [lia|]. intros ?. apply H3. lia.
  - done.
Qed.
End Turn.
End Child.

Lemma sub_alloc_ok l ptr (p : layer l) id s : (l ≤ 5)%nat → wf (S l) p → 0 ≤ id < 2 ^ 30 → plain l id → 0 ≤ id_free_cnt s →
  ∃ r s', sub_alloc l ptr p id s = Done (r, s') ∧ alloc_ok l ptr p id s r s'.
Proof.
  revert p id s. induction l as [|l IH]; intros p id s Hl Hw Hid Hp Hc; [by apply sub_alloc_leaf|].
  cbn [sub_alloc]. apply turns_ok; try done. intros c id' s' Hwc Hid' Hp' Hc'. apply IH; (done || lia).
Qed.
