(* ===== verification/IdrMap.v ===== *)
(** Ids as a finite map.

    The specification of an idr is a finite map from ids to pointers with a
    flag that says whether layers are reserved.  [idr_get_new] and, for [plain] starting
    ids, [idr_get_new_above] give the least free id; with layers reserved by
    [idr_pre_get] they cannot fail. *)

From S2P Require Import Prelude FindBit Idr IdrTree.

(** The state between two operations *)
Definition idr_ok (s : idr) : Prop :=
  0 ≤ id_free_cnt s ∧ match top s with None => True | Some (existT l p) => (l ≤ 5)%nat ∧ wf (S l) p end.
Definition in_tree l (p : layer l) (j : Z) : option Z := if (0 <=? j) && (j <? B (S l)) then slot (S l) p j else None.
Definition view (s : idr) (j : Z) : option Z := match top s with None => None | Some (existT l p) => in_tree l p j end.

Lemma shift_B l : (l ≤ 5)%nat → s32 (Z.shiftl 1 (Z.of_nat (S l) * IDR_BITS)) = B (S l).
Proof.
  intros Hl. unfold IDR_BITS. rewrite Z.shiftl_1_l, Z.mul_comm, <- B_pow2. pose proof (B_bound (S l) ltac:(lia)). pose proof (B_pos (S l)). apply s32_small. lia.
Qed.
Lemma in_tree_slot l (p : layer l) j : 0 ≤ j < B (S l) → in_tree l p j = slot (S l) p j.
Proof. intros Hj. unfold in_tree. destruct (Z.leb_spec 0 j), (Z.ltb_spec j (B (S l))); (done || lia). Qed.
Lemma in_tree_out l (p : layer l) j : ¬ 0 ≤ j < B (S l) → in_tree l p j = None.
Proof. intros Hj. unfold in_tree. destruct (Z.leb_spec 0 j), (Z.ltb_spec j (B (S l))); (done || lia). Qed.
Lemma in_tree_ext l (p : layer l) f : (∀ j, ¬ 0 ≤ j < B (S l) → f j = None) → (∀ j, 0 ≤ j < B (S l) → slot (S l) p j = f j) → ∀ j, in_tree l p j = f j.
Proof.
  intros H0 H1 j. destruct (decide (0 ≤ j < B (S l))); [rewrite in_tree_slot by done; auto|]. rewrite in_tree_out by done. symmetry. auto.
Qed.
Lemma in_tree_new l j : in_tree l idr_cache_ctor j = None.
Proof. unfold in_tree. rewrite slot_new. by destruct (_ && _). Qed.

Lemma put_top_run l (p : layer l) s : put_top l p s = Done (tt, Idr (Some (existT l p)) (id_free_cnt s)).
Proof. done. Qed.

(** ** Growth *)

Lemma idr_grow_ok fuel built l (p : layer l) id s : (l ≤ 5)%nat → (5 - l ≤ fuel)%nat → wf (S l) p → 0 ≤ id < 2 ^ 30 → 0 ≤ id_free_cnt s →
  (grow fuel built l p id s = Done (None, with_free (id_free_cnt s + Z.of_nat built) s) ∧ id_free_cnt s < 5 - Z.of_nat l) ∨
  ∃ l' (p' : layer l') n, grow fuel built l p id s = Done (Some (existT l' p'), with_free n s) ∧ (l ≤ l' ≤ 5)%nat ∧ wf (S l') p' ∧ id < B (S l') ∧
    0 ≤ n ≤ id_free_cnt s ∧ id_free_cnt s - Z.of_nat (l' - l) ≤ n ∧ ∀ j, in_tree l' p' j = in_tree l p j.
Proof.
  revert built l p s. induction fuel as [|fuel IH]; intros built l p s Hl Hfu Hw Hid Hc; cbn [grow]; rewrite shift_B by done.
  { right. exists l, p, (id_free_cnt s). assert (l = 5)%nat as -> by lia. split; [by destruct s|]. split; [lia|]. split; [done|].
    change (B 6) with (2 ^ 30). repeat split; (done || lia). }
  unfold MAX_LEVEL. destruct (Nat.ltb_spec (S l) (7 - 1)) as [H5|H5], (Z.leb_spec (B (S l)) id) as [Hge|Hlt]; cbn [andb].
  2-4: right; exists l, p, (id_free_cnt s); split; [by destruct s|]; split; [lia|]; split; [done|]; split; [|repeat split; (done || lia)];
    first [done|replace (S l) with 6%nat by lia; change (B 6) with (2 ^ 30); lia].
  destruct (Z.eqb_spec (l_count p) 0) as [Ez|Ez].
  - rewrite (shape_empty _ p (proj1 Hw) Ez). replace (all_zero _) with true by done. rewrite (run_bind _ _ s tt s eq_refl).
    destruct (IH built (S l) idr_cache_ctor s ltac:(lia) ltac:(lia) (wf_new _) Hid Hc) as [[E ?]|(l' & p' & n & E & ? & ? & ? & ? & ? & Hv)].
    + left. split; [exact E|lia].
    + right. exists l', p', n. split; [exact E|]. split; [lia|]. split; [done|]. split; [done|]. split; [done|]. split; [lia|].
      intros j. by rewrite Hv, !in_tree_new.
  - pose proof (alloc_layer_run (X := entry (S l)) s) as Ea. destruct (Z.eqb_spec (id_free_cnt s) 0) as [E0|E0]; rewrite (run_bind _ _ _ _ _ Ea); [left; split; [done|lia]|].
    assert (Hq : wf (S (S l)) (with_child l idr_cache_ctor 0 p)) by (apply with_child_wf; [apply wf_new|lia|done|done]).
    assert (Hv : ∀ j, in_tree (S l) (with_child l idr_cache_ctor 0 p) j = in_tree l p j).
    { apply in_tree_ext.
      - intros j Hj. apply in_tree_out. rewrite B_S in Hj. pose proof (B_pos (S l)). lia.
      - apply with_child_slots; [apply wf_new|lia| |].
        + intros i Hi. rewrite Z.mul_0_r. by rewrite in_tree_slot.
        + intros k i Hk Hi. rewrite slot_new. apply in_tree_out. nia. }
    match goal with |- context [grow fuel (S built) (S l) ?q id] => replace q with (with_child l idr_cache_ctor 0 p) by (unfold with_child, mark; cbn; by destruct (l_bitmap p =? IDR_FULL)) end.
    destruct (IH (S built) (S l) _ (with_free (id_free_cnt s - 1) s) ltac:(lia) ltac:(lia) Hq Hid) as [[E ?]|(l' & p' & n & E & ? & ? & ? & ? & ? & Hv')]; [cbn; lia|left|right].
    + rewrite E. unfold with_free. cbn in *. split; [|lia]. do 3 f_equal. lia.
    + exists l', p', n. rewrite E. cbn in *. split; [done|]. split; [lia|]. split; [done|]. split; [done|]. split; [lia|]. split; [lia|].
      intros j. by rewrite Hv'.
Qed.

(** ** Allocation *)

Lemma get_top_ok s : idr_ok s →
  (get_top s = Done (None, s) ∧ id_free_cnt s = 0 ∧ top s = None) ∨
  ∃ l (p : layer l) n, get_top s = Done (Some (existT l p), with_free n s) ∧ (l ≤ 5)%nat ∧ wf (S l) p ∧ 0 ≤ n ∧
    id_free_cnt s + Z.of_nat (layers s) ≤ n + Z.of_nat (S l) ∧ ∀ j, view s j = in_tree l p j.
Proof.
  destruct s as [[[l p]|] c]; intros [Hc Ht]; cbn in Hc, Ht.
  - right. exists l, p, c. destruct Ht. split; [done|]. split; [done|]. split; [done|]. split; [done|]. split; [cbn; lia|done].
  - unfold get_top. rewrite (run_bind _ _ (Idr None c) None _ eq_refl). pose proof (alloc_layer_run (X := Z) (Idr None c)) as Ea. cbn [id_free_cnt] in Ea.
    destruct (Z.eqb_spec c 0) as [->|]; rewrite (run_bind _ _ _ _ _ Ea); [by left|right]. exists 0%nat, idr_cache_ctor, (c - 1).
    split; [done|]. split; [lia|]. split; [apply (wf_new 0)|]. split; [lia|]. split; [cbn; lia|]. intros j. by rewrite in_tree_new.
Qed.

(** The outcome of a request for an id of at least [id] *)
Definition int_ok (ptr id : Z) (s : idr) (r : Z) (s' : idr) : Prop :=
  idr_ok s' ∧
  (least_free (view s) id (2 ^ 30) r ∧ (∀ j, view s' j = if j =? r then Some ptr else view s j) ∨
   r = -1 ∧ id_free_cnt s + Z.of_nat (layers s) < 11 ∧ ∀ j, view s' j = view s j).

Lemma pass_ok fuel ptr id s : idr_ok s → 0 ≤ id < 2 ^ 30 → plain 5 id →
  (∃ r s', idr_get_new_above_int (S fuel) ptr id s = Done (r, s') ∧ int_ok ptr id s r s') ∨
  ∃ l s1, (l ≤ 5)%nat ∧ idr_get_new_above_int (S fuel) ptr id s = idr_get_new_above_int fuel ptr (B (S l)) s1 ∧ idr_ok s1 ∧ id < B (S l) ∧
    id_free_cnt s + Z.of_nat (layers s) ≤ id_free_cnt s1 + Z.of_nat (layers s1) ∧ (∀ j, view s1 j = view s j) ∧
    (∀ j, id ≤ j < B (S l) → view s j ≠ None) ∧ view s (B (S l)) = None.
Proof.
  intros Hs Hid Hp. cbn [idr_get_new_above_int].
  destruct (get_top_ok s Hs) as [(E & Hc & Ht)|(l & p & n & E & Hl & Hw & Hn & Hcnt & Hv)]; rewrite (run_bind _ _ _ _ _ E).
  { left. eexists _, _. split; [done|]. split; [done|]. right. unfold layers. rewrite Ht, Hc. repeat split; (done || lia). }
  destruct (idr_grow_ok MAX_LEVEL 0 l p id (with_free n s) Hl ltac:(unfold MAX_LEVEL; lia) Hw Hid Hn) as [[Eg Hlt]|(l' & p' & n' & Eg & Hl' & Hw' & Hlt & Hn1 & Hn2 & Hv')];
    rewrite (run_bind _ _ _ _ _ Eg); cbn [id_free_cnt with_free] in *.
  { left. eexists _, _. split; [done|]. split; [split; [cbn; lia|apply Hs]|]. right. split; [done|]. split; [lia|done]. }
  rewrite (run_bind _ _ _ _ _ (put_top_run _ _ _)). cbn [id_free_cnt with_free].
  destruct (sub_alloc_ok l' ptr p' id (Idr (Some (existT l' p')) n') ltac:(lia) Hw' Hid) as (r & s' & Er & Hr); [apply (plain_le 5); [lia|done]|cbn; lia|].
  rewrite (run_bind _ _ _ _ _ Er). unfold alloc_ok in Hr. rewrite Z.mod_small in Hr by lia. cbv zeta in Hr. replace (id - id) with 0 in Hr by lia.
  pose proof (B_bound (S l') ltac:(lia)) as HB. assert (Hvs : ∀ j, view s j = in_tree l' p' j) by (intros j; by rewrite Hv, Hv').
  destruct r as [id'' q|id'' q|e q]; cbn [id_free_cnt] in Hr.
  - right. destruct Hr as (-> & -> & -> & Hall). exists l', (Idr (Some (existT l' p')) n'). rewrite (run_bind _ _ _ _ _ (put_top_run _ _ _)). cbn [id_free_cnt with_free].
    split; [lia|]. split; [done|]. split; [split; [cbn; lia|split; [lia|done]]|]. split; [done|]. split; [cbn; lia|]. split; [by intros j|].
    split; [intros j Hj; rewrite Hvs, in_tree_slot by lia; by apply Hall|]. rewrite Hvs. apply in_tree_out. lia.
  - left. destruct Hr as (Hq & (n2 & -> & Hn3 & Hn4) & j & -> & [H1 H2 H3] & Hsl). eexists _, _.
    rewrite (run_bind _ _ _ _ _ (put_top_run _ _ _)). cbn [id_free_cnt with_free]. split; [done|]. split; [split; [cbn; lia|split; [lia|done]]|]. left. split.
    + split; [lia|rewrite Hvs, in_tree_slot by lia; done|]. intros i Hi. rewrite Hvs, in_tree_slot by lia. apply H3. lia.
    + apply in_tree_ext.
      * intros i Hi. destruct (Z.eqb_spec i (0 + j)); [lia|]. rewrite Hvs. by apply in_tree_out.
      * intros i Hi. rewrite Hsl, Hvs, in_tree_slot by done. done.
  - left. destruct Hr as (-> & Hq & (n2 & -> & Hn3) & Hn4 & Hsl). eexists _, _.
    rewrite (run_bind _ _ _ _ _ (put_top_run _ _ _)). cbn [id_free_cnt with_free]. split; [done|]. split; [split; [cbn; lia|split; [lia|done]]|]. right.
    split; [done|]. split; [lia|]. apply in_tree_ext; [intros i Hi; rewrite Hvs; by apply in_tree_out|]. intros i Hi. rewrite Hsl, Hvs, in_tree_slot by done. done.
Qed.
Lemma get_int_ok fuel ptr id s : idr_ok s → 0 ≤ id < 2 ^ 30 → plain 5 id → (∃ j, id ≤ j < 2 ^ 30 ∧ view s j = None) →
  ∃ r s', idr_get_new_above_int (S (S fuel)) ptr id s = Done (r, s') ∧ int_ok ptr id s r s'.
Proof.
  intros Hs Hid Hp (j & Hj & Ej). destruct (pass_ok (S fuel) ptr id s Hs Hid Hp) as [?|(l & s1 & Hl & E & Hs1 & Hlt & Hc & Hv & Hall & Hn)]; [done|]. rewrite E.
  pose proof (B_pos (S l)). assert (Hr : B (S l) < 2 ^ 30).
  { destruct (Z.lt_ge_cases (B (S l)) (2 ^ 30)); [done|]. exfalso. apply (Hall j); [lia|done]. }
  assert (Hp' : plain 5 (B (S l))).
  { intros k Hk. destruct (Nat.le_gt_cases k (S l)).
    - right. apply (mod_le (S l)); [done|]. apply Z.mod_same. lia.
    - left. rewrite digit_eq, Z.div_small; [done|]. split; [lia|]. unfold B. apply Z.pow_lt_mono_r; lia. }
  destruct (pass_ok fuel ptr (B (S l)) s1 Hs1 ltac:(lia) Hp') as [(r & s' & Er & Hok & Hr')|(l' & s2 & _ & _ & _ & Hlt' & _ & _ & Hall' & _)].
  - exists r, s'. split; [done|]. split; [done|]. destruct Hr' as [([H1 H2 H3] & H4)|(-> & H1 & H2)]; [left|right].
    + rewrite Hv in H2. split; [|intros i; by rewrite H4, Hv]. split; [lia|done|]. intros i Hi.
      destruct (Z.lt_ge_cases i (B (S l))); [apply Hall; lia|]. rewrite <- Hv. apply H3. lia.
    + split; [done|]. split; [lia|]. intros i. by rewrite H2, Hv.
  - exfalso. apply (Hall' (B (S l))); [lia|]. by rewrite Hv.
Qed.
(** The answers of both functions for the result *)
Definition answer (rv : Z) : Z * option Z := if rv <? 0 then (if rv =? -1 then - EAGAIN else - ENOSPC, None) else (0, Some rv).
Lemma get_new_above_ok ptr id s : idr_ok s → 0 ≤ id < 2 ^ 30 → plain 5 id → (∃ j, id ≤ j < 2 ^ 30 ∧ view s j = None) →
  ∃ r s', idr_get_new_above ptr id s = Done (answer r, s') ∧ int_ok ptr id s r s'.
Proof.
  intros Hs Hid Hp Hf. destruct (get_int_ok 6 ptr id s Hs Hid Hp Hf) as (r & s' & E & Hok). exists r, s'. split; [|done].
  unfold idr_get_new_above. by rewrite (run_bind _ _ _ _ _ E).
Qed.
Lemma get_new_ok ptr s : idr_ok s → (∃ j, 0 ≤ j < 2 ^ 30 ∧ view s j = None) →
  ∃ r s', idr_get_new ptr s = Done (answer r, s') ∧ int_ok ptr 0 s r s'.
Proof.
  intros Hs Hf. destruct (get_int_ok 6 ptr 0 s Hs ltac:(lia)) as (r & s' & E & Hok); [|done|].
  - apply plain_zero. done.
  - exists r, s'. split; [|done]. unfold idr_get_new. by rewrite (run_bind _ _ _ _ _ E).
Qed.

(** ** Lookup and replacement *)

Lemma slot_low l (p : layer (S l)) id : slot (S (S l)) p (id mod B (S (S l))) = behind (S l) p (digit (S l) id) (id mod B (S l)).
Proof. rewrite low_split. apply slot_behind, Z.mod_pos_bound, B_pos. Qed.
Lemma slot_leaf (p : layer 0) id : slot 1 p (id mod B 1) = entry_at p (digit 0 id).
Proof. rewrite low_split, slot_behind by (apply Z.mod_pos_bound, B_pos). unfold behind. by destruct (entry_at p (digit 0 id)). Qed.
Lemma find_down_ok l (p : layer l) id s : wf (S l) p → find_down l id p s = Done (default 0 (slot (S l) p (id mod B (S l))), s).
Proof.
  revert p. induction l as [|l IH]; intros p [Hs Hw]; cbn [find_down]; rewrite (run_bind _ _ _ _ _ (ary_at_run _ p _ s Hs (digit_range _ _))).
  - by rewrite slot_leaf.
  - rewrite slot_low. unfold behind. destruct (entry_at p (digit (S l) id)) as [c|] eqn:E; [|done].
    apply IH. by apply (Hw (digit (S l) id) c (digit_range _ _)).
Qed.
Lemma mask_id id : 0 ≤ id < 2 ^ 31 → Z.land id MAX_ID_MASK = id.
Proof. intros Hid. change MAX_ID_MASK with (Z.ones 31). rewrite Z.land_ones by lia. by apply Z.mod_small. Qed.
Lemma find_ok id s : idr_ok s → 0 ≤ id < 2 ^ 31 → idr_find id s = Done (default 0 (view s id), s).
Proof.
  intros [_ Ht] Hid. unfold idr_find. rewrite mask_id, (run_bind _ _ s (top s) s eq_refl) by done. unfold view.
  destruct (top s) as [[l p]|]; [|done]. destruct Ht as [Hl Hw]. rewrite shift_B by done. destruct (Z.leb_spec (B (S l)) id).
  - by rewrite in_tree_out by lia.
  - rewrite (find_down_ok l p id s Hw), in_tree_slot, Z.mod_small by lia. done.
Qed.

(** Storing a pointer where there is one, and the slots *)
Definition stored l (p p' : layer l) (id : Z) (v : option Z) : Prop :=
  ∀ i, 0 ≤ i < B (S l) → slot (S l) p' i = if i =? id mod B (S l) then v else slot (S l) p i.
Lemma stored_lift l (p p' : layer (S l)) (c c' : layer l) id v :
  (∀ k i, 0 ≤ k < 32 → behind (S l) p' k i = if k =? digit (S l) id then slot (S l) c' i else behind (S l) p k i) → (∀ i, behind (S l) p (digit (S l) id) i = slot (S l) c i) →
  stored l c c' id v → stored (S l) p p' id v.
Proof.
  intros Hb Hc Hs i Hi. destruct (split_at (S l) i Hi) as (k & j & -> & Hk & Hj). rewrite !slot_behind, Hb, low_split by done.
  pose proof (Z.mod_pos_bound id (B (S l)) (B_pos _)). destruct (Z.eqb_spec k (digit (S l) id)) as [->|].
  - rewrite Hs, Hc by done. destruct (Z.eqb_spec j (id mod B (S l))), (Z.eqb_spec (B (S l) * digit (S l) id + j) (B (S l) * digit (S l) id + id mod B (S l))); (done || lia).
  - destruct (Z.eqb_spec (B (S l) * k + j) (B (S l) * digit (S l) id + id mod B (S l))); [nia|done].
Qed.
Lemma full_same l x y : wf l x → wf l y → (∀ j, 0 ≤ j < B l → slot l x j = None ↔ slot l y j = None) → full l x = full l y.
Proof.
  intros Hx Hy H. apply Bool.eq_iff_eq_true. rewrite !full_spec by done. split; intros Hf j Hj E; apply (Hf j Hj), H; done.
Qed.
Lemma stored_leaf (p p' : layer 0) id v : (∀ k, 0 ≤ k < 32 → entry_at p' k = if k =? digit 0 id then v else entry_at p k) → stored 0 p p' id v.
Proof.
  intros He i Hi. change (B 1) with 32 in *. rewrite <- (Z.mod_small i 32) at 1 3 by done. change 32 with (B 1). rewrite !slot_leaf.
  assert (Ed : ∀ x, digit 0 x = x mod B 1) by (intros x; rewrite digit_eq; change (B 0) with 1; by rewrite Z.div_1_r).
  rewrite He by apply digit_range. rewrite !Ed. change (B 1) with 32. by rewrite (Z.mod_small i 32).
Qed.
Lemma digit_0 id : Z.land id IDR_MASK = digit 0 id.
Proof. done. Qed.

Lemma replace_down_ok l (p : layer l) id ptr s : wf (S l) p → ∃ r, replace_down l id ptr p s = Done (r, s) ∧
  match r with
  | Some (old, p') => slot (S l) p (id mod B (S l)) = Some old ∧ wf (S l) p' ∧ stored l p p' id (Some ptr)
  | None => slot (S l) p (id mod B (S l)) = None
  end.
Proof.
  revert p. induction l as [|l IH]; intros p [Hs Hw]; cbn [replace_down].
  - rewrite slot_leaf, digit_0. pose proof (digit_range 0 id) as Hd. pose proof (sh_bit _ _ Hs _ Hd) as Hb. destruct (entry_at p (digit 0 id)) as [v|] eqn:E in Hb |- *; rewrite Hb; cbn [full].
    + rewrite (run_bind _ _ _ _ _ (ary_at_run _ p _ s Hs Hd)), E. eexists. split; [done|]. split; [done|]. split.
      * apply wf_set; [done..| |cbn [entry] in *; rewrite E; cbn; lia]. intros i Hi. destruct (Z.eqb_spec i (digit 0 id)) as [->|]; [exact Hb|done].
      * apply stored_leaf. intros k Hk. apply entry_at_set; (lia || apply (sh_len _ _ Hs)).
    + by exists None.
  - pose proof (digit_range (S l) id) as Hd. rewrite slot_low, (run_bind _ _ _ _ _ (ary_at_run _ p _ s Hs Hd)). unfold behind.
    destruct (entry_at p (digit (S l) id)) as [c|] eqn:E; [|by exists None]. pose proof (Hw _ _ Hd E) as Hc. change (wf (S l) (c : layer l)) in Hc.
    destruct (IH c Hc) as (r & Er & Hr). rewrite (run_bind _ _ _ _ _ Er). eexists. split; [done|]. destruct r as [[old c']|]; [|done].
    destruct Hr as (Eo & Hc' & Hst). split; [done|]. split.
    + apply wf_set; [done|done| | |]; [by intros x [= <-]| |rewrite E; cbn; lia]. intros i Hi. destruct (Z.eqb_spec i (digit (S l) id)) as [->|]; [|done].
      rewrite (sh_bit _ _ Hs), E by done. apply full_same; [done..|]. intros j Hj. rewrite Hst by done. destruct (Z.eqb_spec j (id mod B (S l))) as [->|]; [|done]. by rewrite Eo.
    + apply (stored_lift l _ _ c c'); [|intros i; unfold behind; by rewrite E|done]. intros k i Hk. unfold set_entry. by rewrite behind_set by (done || lia).
Qed.
Lemma idr_replace_ok ptr id s : idr_ok s → 0 ≤ id < 2 ^ 31 → ∃ r s', idr_replace ptr id s = Done (r, s') ∧ idr_ok s' ∧ id_free_cnt s' = id_free_cnt s ∧
  match r with
  | inl old => view s id = Some old ∧ ∀ j, view s' j = if j =? id then Some ptr else view s j
  | inr e => (e = - EINVAL ∨ e = - ENOENT) ∧ view s id = None ∧ s' = s
  end.
Proof.
  intros [Hc Ht] Hid. unfold idr_replace. rewrite mask_id, (run_bind _ _ s (top s) s eq_refl) by done. pose proof Ht as Ht'.
  destruct (top s) as [[l p]|] eqn:E.
  2: { eexists _, _. split; [done|]. split; [split; [done|by rewrite E]|]. split; [done|]. split; [destruct (_ <=? _); auto|]. unfold view. by rewrite E. }
  assert (Hv : ∀ j, view s j = in_tree l p j) by (intros j; unfold view; by rewrite E).
  destruct Ht as [Hl Hw]. rewrite shift_B by done. destruct (Z.leb_spec (B (S l)) id).
  { eexists _, _. split; [done|]. split; [split; [done|by rewrite E]|]. split; [done|]. split; [auto|]. rewrite Hv. split; [apply in_tree_out; lia|done]. }
  destruct (replace_down_ok l p id ptr s Hw) as (r & Er & Hr). rewrite (run_bind _ _ _ _ _ Er). rewrite Z.mod_small in Hr by lia. destruct r as [[old p']|].
  - rewrite (run_bind _ _ _ _ _ (put_top_run _ _ _)). eexists _, _. split; [done|]. destruct Hr as (Eo & Hw' & Hst). split; [by split|]. split; [done|].
    rewrite Hv. split; [by rewrite in_tree_slot by lia|]. apply in_tree_ext.
    + intros j Hj. destruct (Z.eqb_spec j id); [lia|]. rewrite Hv. by apply in_tree_out.
    + intros j Hj. rewrite Hst, Hv, in_tree_slot, Z.mod_small by lia. done.
  - eexists _, _. split; [done|]. split; [split; [done|by rewrite E]|]. split; [done|]. split; [auto|]. rewrite Hv. split; [by rewrite in_tree_slot by lia|done].
Qed.

(** ** Removal *)

Lemma ldiff_bit_at b m i : 0 ≤ m → 0 ≤ i → Z.testbit (Z.ldiff b (Z.shiftl 1 m)) i = if i =? m then false else Z.testbit b i.
Proof.
  intros Hm Hi. rewrite Z.ldiff_spec, Z.shiftl_1_l, Z.pow2_bits_eqb, Z.eqb_sym by done. destruct (i =? m); [apply andb_false_r|apply andb_true_r].
Qed.
Lemma free_layer_run {X} (full : X → bool) (p : idr_layer X) s : shape full p → l_count p = 0 → free_layer p s = Done (tt, with_free (id_free_cnt s + 1) s).
Proof. intros Hs Hc. by rewrite (shape_empty _ _ Hs Hc). Qed.
Lemma clear_entry {X} (full : X → bool) (p : idr_layer X) n : shape full p → 0 ≤ n < 32 → entry_at p n ≠ None →
  add_count (-1) (set_entry n None (unmark n p)) =
  Layer (Z.ldiff (l_bitmap p) (Z.shiftl 1 n)) (<[Z.to_nat n := None]> (l_ary p)) (l_count p - bool2Z (some (entry_at p n)) + bool2Z (some (None (A := X)))).
Proof.
  intros Hs Hn He. pose proof (count_bound _ _ Hs). unfold add_count, set_entry, unmark. cbn [l_bitmap l_ary l_count].
  rewrite s32_small by lia. f_equal. destruct (entry_at p n); [cbn; lia|done].
Qed.
(** The end of a level: the layer goes if it is empty. *)
Definition removed l (p : layer l) (id : Z) (o : option (layer l)) : Prop :=
  match o with
  | Some p' => wf (S l) p' ∧ stored l p p' id None
  | None => stored l p idr_cache_ctor id None
  end.
Lemma end_level l (p p' : layer l) id s : wf (S l) p' → stored l p p' id None →
  ∃ o n, (if l_count p' =? 0 then free_layer p' ;; mret (true, None) else mret (true, Some p')) s = Done ((true, o), with_free n s) ∧ id_free_cnt s ≤ n ∧ removed l p id o.
Proof.
  intros Hw Hst. destruct (Z.eqb_spec (l_count p') 0) as [E|E].
  - exists None, (id_free_cnt s + 1). rewrite (run_bind _ _ _ _ _ (free_layer_run _ _ s (proj1 Hw) E)). split; [done|]. split; [lia|].
    by rewrite (shape_empty _ _ (proj1 Hw) E) in Hst.
  - exists (Some p'), (id_free_cnt s). split; [by destruct s|]. split; [lia|done].
Qed.
Lemma sub_remove_ok l (p : layer l) id s : wf (S l) p → slot (S l) p (id mod B (S l)) ≠ None →
  ∃ o n, sub_remove l id p s = Done ((true, o), with_free n s) ∧ id_free_cnt s ≤ n ∧ removed l p id o.
Proof.
  revert p s. induction l as [|l IH]; intros p s Hwp Hne; pose proof Hwp as [Hs Hw]; cbn [sub_remove]; cbv zeta.
  - rewrite slot_leaf in Hne. rewrite digit_0. pose proof (digit_range 0 id) as Hd. pose proof (sh_bit _ _ Hs _ Hd) as Hb. rewrite Hb.
    destruct (entry_at p (digit 0 id)) as [v|] eqn:E in Hb |- *; [|done]. cbn [full]. apply end_level; rewrite (clear_entry (full 0) p) by done.
    + apply wf_set; [done..| |done]. intros i Hi. apply ldiff_bit_at; lia.
    + apply stored_leaf. intros k Hk. apply entry_at_set; (lia || apply (sh_len _ _ Hs)).
  - pose proof (digit_range (S l) id) as Hd. rewrite slot_low in Hne. unfold behind in Hne.
    rewrite (run_bind _ _ s (entry_at p (digit (S l) id)) s) by exact (ary_at_run _ p _ s Hs Hd).
    destruct (entry_at p (digit (S l) id)) as [c|] eqn:E; [|done]. pose proof (Hw _ _ Hd E) as Hc. change (wf (S l) (c : layer l)) in Hc.
    destruct (IH c s Hc Hne) as (o & n & Er & Hn & Hr). rewrite (run_bind _ _ _ _ _ Er).
    assert (Hbe : ∀ i, behind (S l) p (digit (S l) id) i = slot (S l) c i) by (intros i; unfold behind; by rewrite E).
    destruct o as [c'|].
    + destruct Hr as [Hc' Hst]. eexists _, n. split; [done|]. split; [done|]. split.
      * apply (wf_set (S l) p); [done|done| | |]; [by intros x [= <-]| |rewrite E; cbn; lia]. intros i Hi. unfold unmark. cbn [l_bitmap]. rewrite ldiff_bit_at by lia.
        destruct (Z.eqb_spec i (digit (S l) id)) as [->|]; [|done]. symmetry. apply full_false; [done|]. exists (id mod B (S l)).
        pose proof (Z.mod_pos_bound id (B (S l)) (B_pos _)). split; [done|]. by rewrite Hst, Z.eqb_refl.
      * apply (stored_lift l _ _ c c'); [|done|done]. intros k i Hk. unfold set_entry, unmark. cbn [l_bitmap l_ary l_count]. by rewrite behind_set by (done || lia).
    + edestruct (end_level (S l) p) as (o & n' & Ee & Hn' & Hr'); [| |exists o, n'; split; [|split; [|exact Hr']]]; cycle 2.
      * rewrite Ee. done.
      * cbn in Hn'. lia.
      * rewrite (clear_entry (full (S l)) p) by (done || by rewrite E). apply wf_set; [done|done|done| |done]. intros i Hi. apply ldiff_bit_at; lia.
      * rewrite (clear_entry (full (S l)) p) by (done || by rewrite E). apply (stored_lift l _ _ c idr_cache_ctor); [|done|done].
        intros k i Hk. rewrite behind_set by (done || lia). by rewrite slot_new.
Qed.
(** A layer whose only entry is the first *)
Lemma only_first {X} (full : X → bool) (p : idr_layer X) : shape full p → entry_at p 0 ≠ None → l_count p = 1 → <[0%nat := None]> (l_ary p) = replicate 32 None.
Proof.
  intros Hs He Hc. assert (Hp : shape full (Layer (Z.ldiff (l_bitmap p) (Z.shiftl 1 0)) (<[Z.to_nat 0 := None]> (l_ary p)) 0)).
  { apply shape_set; [done|lia| |]; [intros i Hi; apply ldiff_bit_at; lia|]. rewrite Hc. by destruct (entry_at p 0). }
  pose proof (f_equal l_ary (shape_empty _ _ Hp eq_refl)) as E. done.
Qed.
Lemma drop_top_ok l (p : layer l) s : idr_ok s → top s = Some (existT l p) →
  ∃ s', drop_top (existT l p) s = Done (tt, s') ∧ idr_ok s' ∧ id_free_cnt s ≤ id_free_cnt s' ∧ ∀ j, view s' j = view s j.
Proof.
  intros Hok Et. destruct l as [|l]; [exists s; split; [done|]; split; [done|]; split; [lia|done]|]. pose proof Hok as [Hc Ht]. rewrite Et in Ht. destruct Ht as [Hl Hw].
  pose proof Hw as [Hs Hwc]. assert (Hk : ∃ s', Done (tt, s) = Done (tt, s') ∧ idr_ok s' ∧ id_free_cnt s ≤ id_free_cnt s' ∧ ∀ j, view s' j = view s j) by (exists s; split; [done|]; split; [done|]; split; [lia|done]).
  cbn [drop_top]. destruct (l_ary p) as [|[c|] a] eqn:Ea; [exact Hk| |exact Hk]. destruct (Z.eqb_spec (l_count p) 1) as [E1|]; [|exact Hk].
  assert (E0 : entry_at p 0 = Some c) by (unfold entry_at; by rewrite Ea). pose proof (only_first _ p Hs ltac:(by rewrite E0) E1) as Er.
  rewrite (run_bind _ _ s tt (with_free (id_free_cnt s + 1) s)).
  2: { unfold free_layer, __free_layer. cbn [l_bitmap l_ary l_count]. change (entry (S l)) with (layer l) in *. rewrite <- Ea, Er. done. }
  rewrite put_top_run. eexists. split; [done|]. pose proof (Hwc 0 c ltac:(lia) E0) as Hwc'. split; [split; [cbn; lia|split; [lia|exact Hwc']]|]. split; [cbn; lia|].
  unfold view. rewrite Et. cbn [top]. apply in_tree_ext.
  - intros j Hj. destruct (decide (0 ≤ j < B (S (S l)))) as [Hj'|Hj']; [|by apply in_tree_out]. rewrite in_tree_slot by done.
    destruct (split_at (S l) j Hj') as (k & i & -> & Hk' & Hi). rewrite slot_behind by done. unfold behind. assert (k ≠ 0) by (intros ->; lia).
    replace (entry_at p k) with (None (A := entry (S l))); [done|]. pose proof (f_equal (λ x, x !! Z.to_nat k) Er) as Ek. cbn beta in Ek.
    rewrite list_lookup_insert_ne, lookup_replicate_2 in Ek by lia. unfold entry_at. by rewrite Ek.
  - intros j Hj. rewrite in_tree_slot by (rewrite B_S; pose proof (B_pos (S l)); lia).
    replace (slot (S (S l)) p j) with (behind (S l) p 0 j) by (rewrite <- slot_behind by done; f_equal; lia). unfold behind. by rewrite E0.
Qed.
Lemma remove_ok id s : idr_ok s → 0 ≤ id < 2 ^ 31 → view s id ≠ None →
  ∃ s', idr_remove id s = Done (tt, s') ∧ idr_ok s' ∧ Z.min (id_free_cnt s) 13 ≤ id_free_cnt s' ∧ ∀ j, view s' j = if j =? id then None else view s j.
Proof.
  intros [Hc Ht] Hid Hne. unfold idr_remove. rewrite mask_id, (run_bind _ _ s (top s) s eq_refl) by done.
  assert (Hv : view s = match top s with None => λ _, None | Some (existT l p) => in_tree l p end) by (unfold view; by destruct (top s) as [[]|]).
  rewrite Hv in *. destruct (top s) as [[l p]|] eqn:Et; [|done]. destruct Ht as [Hl Hw].
  assert (Hr : 0 ≤ id < B (S l)) by (destruct (decide (0 ≤ id < B (S l))); [done|]; by rewrite in_tree_out in Hne).
  rewrite in_tree_slot in Hne by done. destruct (sub_remove_ok l p id s Hw) as (o & n & Er & Hn & Ho); [by rewrite Z.mod_small by lia|].
  assert (Hst : ∀ p' : layer l, stored l p p' id None → ∀ j, in_tree l p' j = if j =? id then None else in_tree l p j).
  { intros p' Hp'. apply in_tree_ext; intros j Hj; [by rewrite in_tree_out, Tauto.if_same by done|]. by rewrite Hp', Z.mod_small, in_tree_slot by lia. }
  set (f := λ j, if j =? id then None else in_tree l p j).
  assert (H1 : ∃ s1, (r ← sub_remove l id p; match r with (_, Some p) => put_top l p | (_, None) => modify (with_top None) end) s = Done (tt, s1) ∧
    idr_ok s1 ∧ id_free_cnt s ≤ id_free_cnt s1 ∧ ∀ j, view s1 j = f j).
  { rewrite (run_bind _ _ _ _ _ Er). destruct o as [p'|]; (eexists; split; [done|]).
    - destruct Ho as [Hw' Hp']. split; [split; [cbn; lia|by split]|]. split; [done|]. intros j. by apply Hst.
    - split; [split; [cbn; lia|done]|]. split; [done|]. intros j. unfold f. rewrite <- (Hst _ Ho), in_tree_new. done. }
  destruct H1 as (s1 & E1 & Hs1 & Hc1 & Hv1). rewrite (run_bind _ _ _ _ _ E1), (run_bind _ _ s1 (top s1) s1 eq_refl).
  assert (H2 : ∃ s2, (match top s1 with None => mret tt | Some t => drop_top t end) s1 = Done (tt, s2) ∧ idr_ok s2 ∧ id_free_cnt s1 ≤ id_free_cnt s2 ∧ ∀ j, view s2 j = view s1 j).
  { destruct (top s1) as [[l1 p1]|] eqn:E; [by apply drop_top_ok|]. exists s1. split; [done|]. split; [done|]. split; [lia|done]. }
  destruct H2 as (s2 & E2 & Hs2 & Hc2 & Hv2). rewrite (run_bind _ _ _ _ _ E2), (run_bind _ _ s2 (id_free_cnt s2) s2 eq_refl). unfold IDR_FREE_MAX.
  destruct (Z.leb_spec 14 (id_free_cnt s2)); (eexists; split; [done|]); destruct Hs2 as [Hs2 Hs2'].
  - split; [split; [cbn; lia|done]|]. split; [cbn; lia|]. intros j. unfold view in *. cbn. by rewrite Hv2, Hv1.
  - split; [by split|]. split; [lia|]. intros j. by rewrite Hv2, Hv1.
Qed.
Lemma pre_get_ok answers s : idr_ok s → ∃ r s', idr_pre_get answers s = Done (r, s') ∧ idr_ok s' ∧ id_free_cnt s ≤ id_free_cnt s' ∧
  (r = 1 ∧ 14 ≤ id_free_cnt s' ∨ r = 0) ∧ ∀ j, view s' j = view s j.
Proof.
  revert s. induction answers as [|b answers IH]; intros s Hs; cbn [idr_pre_get]; rewrite (run_bind _ _ s (id_free_cnt s) s eq_refl);
    unfold IDR_FREE_MAX; (destruct (Z.ltb_spec (id_free_cnt s) 14); [|by eexists _, _; split; [done|]; repeat split; auto; (apply Hs || lia)]).
  - eexists _, _. split; [done|]. split; [done|]. split; [lia|]. by split; [right|].
  - destruct b; [|eexists _, _; split; [done|]; split; [done|]; split; [lia|]; by split; [right|]].
    rewrite (run_bind _ _ _ _ _ (free_layer_run (X := Z) (λ _, true) _ s (shape_new _) eq_refl)).
    destruct (IH (with_free (id_free_cnt s + 1) s)) as (r & s' & E & Hs' & Hc & Hr & Hv); [destruct Hs; split; [cbn; lia|done]|]. cbn in Hc.
    exists r, s'. split; [done|]. split; [done|]. split; [lia|]. split; [done|]. intros j. by rewrite Hv.
Qed.

(** ** The specification *)

Inductive idr_op :=
  | IPre (answers : list bool) | INew (ptr : Z) | INewAbove (ptr id : Z)
  | IFind (id : Z) | IReplace (ptr id : Z) | IRemove (id : Z) | IDestroy.
Inductive idr_ret := INone | IInt (z : Z) | IGot (r : Z * option Z) | IPtr (x : Z + Z).
(** The map, and whether layers are reserved *)
Record idr_map := IdrMap { im : gmap Z Z; reserved : bool }.

Definition has_free (m : gmap Z Z) (id : Z) : Prop := ∃ j, id ≤ j < 2 ^ 30 ∧ m !! j = None.
Definition idr_allowed (a : idr_map) (o : idr_op) : Prop :=
  match o with
  | IPre _ | IDestroy => True
  | INew _ => has_free (im a) 0
  | INewAbove _ id => 0 ≤ id < 2 ^ 30 ∧ plain 5 id ∧ has_free (im a) id
  | IFind id | IReplace _ id => 0 ≤ id < 2 ^ 31
  | IRemove id => is_Some (im a !! id)
  end.
(** The least free id; without reserved layers the request may fail. *)
Definition new_spec (a : idr_map) (ptr id : Z) (r : idr_ret) (a' : idr_map) : Prop :=
  (∃ j, r = IGot (0, Some j) ∧ least_free (λ i, im a !! i) id (2 ^ 30) j ∧ a' = IdrMap (<[j := ptr]> (im a)) false) ∨
  (reserved a = false ∧ r = IGot (- EAGAIN, None) ∧ a' = a).
Definition idr_spec (a : idr_map) (o : idr_op) (r : idr_ret) (a' : idr_map) : Prop :=
  match o with
  | IPre _ => r = IInt 1 ∧ a' = IdrMap (im a) true ∨ r = IInt 0 ∧ a' = a
  | INew ptr => new_spec a ptr 0 r a'
  | INewAbove ptr id => new_spec a ptr id r a'
  | IFind id => r = IInt (default 0 (im a !! id)) ∧ a' = a
  | IReplace ptr id =>
      match im a !! id with
      | Some old => r = IPtr (inl old) ∧ a' = IdrMap (<[id := ptr]> (im a)) (reserved a)
      | None => (r = IPtr (inr (- EINVAL)) ∨ r = IPtr (inr (- ENOENT))) ∧ a' = a
      end
  | IRemove id => r = INone ∧ a' = IdrMap (delete id (im a)) (reserved a)
  | IDestroy => r = INone ∧ a' = IdrMap (im a) false
  end.
(** A user: the next operation depends on the results so far. *)
Inductive idr_user := IHalt | IDo (o : idr_op) (k : idr_ret → idr_user).
Fixpoint idr_spec_run (a : idr_map) (c : idr_user) (rs : list idr_ret) (a' : idr_map) : Prop :=
  match c, rs with
  | IHalt, [] => a' = a
  | IDo o k, r :: rs => ∃ a1, idr_spec a o r a1 ∧ idr_spec_run a1 (k r) rs a'
  | _, _ => False
  end.
Fixpoint idr_safe (a : idr_map) (c : idr_user) : Prop :=
  match c with IHalt => True | IDo o k => idr_allowed a o ∧ ∀ r a', idr_spec a o r a' → idr_safe a' (k r) end.

Definition idr_run_op (o : idr_op) : IM idr_ret :=
  match o with
  | IPre answers => r ← idr_pre_get answers; mret (IInt r)
  | INew ptr => r ← idr_get_new ptr; mret (IGot r)
  | INewAbove ptr id => r ← idr_get_new_above ptr id; mret (IGot r)
  | IFind id => r ← idr_find id; mret (IInt r)
  | IReplace ptr id => r ← idr_replace ptr id; mret (IPtr r)
  | IRemove id => idr_remove id ;; mret INone
  | IDestroy => idr_destroy ;; mret INone
  end.
Fixpoint idr_run (c : idr_user) : IM (list idr_ret) :=
  match c with IHalt => mret [] | IDo o k => r ← idr_run_op o; rs ← idr_run (k r); mret (r :: rs) end.

(** ** Refinement *)

Record idr_rep (a : idr_map) (s : idr) : Prop := IdrRep {
  ir_ok : idr_ok s;
  ir_view j : view s j = im a !! j;
  ir_reserved : reserved a = true → 11 ≤ id_free_cnt s }.

Lemma view_range s j : idr_ok s → view s j ≠ None → 0 ≤ j < 2 ^ 30.
Proof.
  intros [_ Ht] Hj. unfold view in Hj. destruct (top s) as [[l p]|]; [|done]. pose proof (B_bound (S l) ltac:(lia)).
  destruct (decide (0 ≤ j < B (S l))); [lia|]. by rewrite in_tree_out in Hj.
Qed.
Lemma new_refines a s ptr id r s' : idr_rep a s → 0 ≤ id → int_ok ptr id s r s' → ∃ a', idr_rep a' s' ∧ new_spec a ptr id (IGot (answer r)) a'.
Proof.
  intros [Hok Hv Hr] Hid [Hok' [([H1 H2 H3] & Hv')|(-> & Hc & Hv')]].
  - exists (IdrMap (<[r := ptr]> (im a)) false). split.
    + split; [done| |done]. intros j. rewrite Hv'. cbn. destruct (Z.eqb_spec j r) as [->|]; [by rewrite lookup_insert_eq|by rewrite lookup_insert_ne, Hv].
    + left. exists r. unfold answer. destruct (Z.ltb_spec r 0); [lia|]. split; [done|]. split; [|done]. split; [lia|by rewrite <- Hv|]. intros i Hi. rewrite <- Hv. by apply H3.
  - assert (Er : reserved a = false) by (destruct (reserved a); [specialize (Hr eq_refl); lia|done]). exists a. split; [|by right].
    split; [done| |by rewrite Er]. intros j. by rewrite Hv', Hv.
Qed.
Lemma op_refines a s o : idr_rep a s → idr_allowed a o → ∃ r s' a', idr_run_op o s = Done (r, s') ∧ idr_rep a' s' ∧ idr_spec a o r a'.
Proof.
  intros R Ha. pose proof R as [Hok Hv Hr].
  assert (Hfree : ∀ id, has_free (im a) id → ∃ j, id ≤ j < 2 ^ 30 ∧ view s j = None) by (intros id (j & Hj & Ej); exists j; by rewrite Hv).
  destruct o as [ans|ptr|ptr id|id|ptr id|id|]; cbn [idr_run_op idr_allowed idr_spec] in *.
  - destruct (pre_get_ok ans s Hok) as (r & s' & E & Hok' & Hc & Hr' & Hv'). rewrite (run_bind _ _ _ _ _ E).
    destruct Hr' as [[-> H14]| ->]; eexists _, s', _; (split; [done|]).
    + split; [|by left]. split; [done|intros j; by rewrite Hv', Hv|cbn; lia].
    + split; [|by right]. split; [done|intros j; by rewrite Hv', Hv|intros H; specialize (Hr H); lia].
  - destruct (get_new_ok ptr s Hok (Hfree 0 Ha)) as (r & s' & E & Hi). rewrite (run_bind _ _ _ _ _ E).
    destruct (new_refines a s ptr 0 r s' R ltac:(lia) Hi) as (a' & R' & Hn). by exists (IGot (answer r)), s', a'.
  - destruct Ha as (Hid & Hp & Hf). destruct (get_new_above_ok ptr id s Hok Hid Hp (Hfree id Hf)) as (r & s' & E & Hi). rewrite (run_bind _ _ _ _ _ E).
    destruct (new_refines a s ptr id r s' R ltac:(lia) Hi) as (a' & R' & Hn). by exists (IGot (answer r)), s', a'.
  - rewrite (run_bind _ _ _ _ _ (find_ok id s Hok Ha)). eexists _, s, a. split; [done|]. split; [done|]. by rewrite <- Hv.
  - destruct (idr_replace_ok ptr id s Hok Ha) as (r & s' & E & Hok' & Hc & Hr'). rewrite (run_bind _ _ _ _ _ E). rewrite Hv in Hr'. destruct r as [old|e].
    + destruct Hr' as [Eo Hv']. rewrite Eo. eexists _, s', _. split; [done|]. split; [|done]. split; [done| |cbn; by rewrite Hc]. intros j. rewrite Hv'. cbn.
      destruct (Z.eqb_spec j id) as [->|]; [by rewrite lookup_insert_eq|by rewrite lookup_insert_ne, Hv].
    + destruct Hr' as (He & Eo & ->). rewrite Eo. eexists _, s, a. split; [done|]. split; [done|]. split; [|done]. destruct He as [->| ->]; auto.
  - destruct Ha as [x Ex]. assert (Hne : view s id ≠ None) by (by rewrite Hv, Ex). pose proof (view_range s id Hok Hne).
    destruct (remove_ok id s Hok ltac:(lia) Hne) as (s' & E & Hok' & Hc & Hv'). rewrite (run_bind _ _ _ _ _ E). eexists _, s', _. split; [done|]. split; [|done].
    split; [done| |cbn; intros Hre; specialize (Hr Hre); lia]. intros j. rewrite Hv'. cbn. destruct (Z.eqb_spec j id) as [->|]; [by rewrite lookup_delete_eq|by rewrite lookup_delete_ne, Hv].
  - eexists _, _, _. split; [done|]. split; [|done]. split; [|intros j; apply Hv|done]. destruct Hok. by split.
Qed.
Lemma run_refines c a s : idr_rep a s → idr_safe a c → ∃ rs s' a', idr_run c s = Done (rs, s') ∧ idr_rep a' s' ∧ idr_spec_run a c rs a'.
Proof.
  revert a s. induction c as [|o k IH]; intros a s R Hs; [by exists [], s, a|]. destruct Hs as [Ha Hk].
  destruct (op_refines a s o R Ha) as (r & s1 & a1 & E & R1 & Hsp). destruct (IH r a1 s1 R1 (Hk r a1 Hsp)) as (rs & s' & a' & E' & R' & Hrun).
  exists (r :: rs), s', a'. cbn [idr_run]. rewrite (run_bind _ _ _ _ _ E), (run_bind _ _ _ _ _ E'). split; [done|]. split; [done|]. by exists a1.
Qed.
Lemma init_rep : idr_rep (IdrMap ∅ false) idr_init.
Proof. split; [split; [cbn; lia|done]|done|done]. Qed.

(** C27: from an empty idr on, every sequence of operations by a user that only
    removes ids it has, asks for new ids from [plain] starting ids (0 is one) and does not
    use up the ids below 2^30, finishes without a fault and behaves like a finite map from
    ids to pointers: a new id is the least free one that is at least the starting id, a
    lookup gives the pointer that was stored last, and after [idr_pre_get] has returned 1 the next
    request cannot fail. *)
Theorem idr_refines_map c : idr_safe (IdrMap ∅ false) c →
  ∃ rs s' a', idr_run c idr_init = Done (rs, s') ∧ idr_spec_run (IdrMap ∅ false) c rs a' ∧
    ∀ id, 0 ≤ id < 2 ^ 31 → idr_find id s' = Done (default 0 (im a' !! id), s').
Proof.
  intros Hs. destruct (run_refines c _ _ init_rep Hs) as (rs & s' & a' & E & [Hok Hv _] & Hr). exists rs, s', a'. split; [done|]. split; [done|].
  intros id Hid. rewrite <- Hv. by apply find_ok.
Qed.
Lemma idr_refines_map_witness :
  let c := IDo (IPre (replicate 14 true)) (λ _, IDo (INewAbove 100 33) (λ _, IDo (IFind 33) (λ _, IHalt))) in
  idr_safe (IdrMap ∅ false) c ∧
  ∃ rs s' a', idr_run c idr_init = Done (rs, s') ∧ idr_spec_run (IdrMap ∅ false) c rs a' ∧ rs = [IInt 1; IGot (0, Some 33); IInt 100].
Proof.
  set (c := IDo _ _). cbv zeta.
  assert (Hs : idr_safe (IdrMap ∅ false) c).
  { split; [done|]. intros r a Hr. assert (Em : im a = ∅) by (destruct Hr as [[_ ->]|[_ ->]]; done). split.
    - split; [lia|]. split; [|exists 33; rewrite Em; split; [lia|done]].
      intros k Hk. left. destruct k as [|[|[|[|[|[|k]]]]]]; try lia; vm_compute; discriminate.
    - intros r' a' _. split; [cbn; lia|]. done. }
  split; [done|]. destruct (idr_refines_map c Hs) as (rs & s' & a' & E & Hr & _). exists rs, s', a'. split; [done|]. split; [done|].
  assert (E' : match idr_run c idr_init with Done (rs, _) => rs = [IInt 1; IGot (0, Some 33); IInt 100] | Fault _ => False end) by (vm_compute; reflexivity).
  by rewrite E in E'.
Defined.
