(* ===== verification/Pci.v ===== *)
(** PCI devices: the configuration access of the port (dde_kit/pci.c) and what the
    Linux files drivers/pci/access.c, pci.c, probe.c and setup-res.c do with it.

    The configuration space belongs to the kit: its accessors are the class
    [KitPci].  The state is that space and one device, [struct pci_dev].  Delays
    and messages are left out, as are MSI and the firmware hooks for power
    states, which are not part of the port's configuration. *)

From S2P Require Import Prelude.

(** ** The kit

    [dde_kit_pci_readb], [readw] and [readl] for the sizes 1, 2 and 4, and the
    functions for writing. *)
Class KitPci (A : Type) := {
  kit_pci_read (size bus slot fn pos : Z) : A → Z;
  kit_pci_write (size bus slot fn pos v : Z) : A → A;
  kit_pci_read_range size bus slot fn pos a : 0 ≤ size → 0 ≤ kit_pci_read size bus slot fn pos a < 2 ^ (8 * size);
}.

(** ** Constants of pci_regs.h, pci.h and ioport.h *)

Definition PCIBIOS_SUCCESSFUL : Z := 0.
Definition PCIBIOS_BAD_REGISTER_NUMBER : Z := 135.
Definition PCI_COMMAND : Z := 4.
Definition PCI_COMMAND_IO : Z := 1.
Definition PCI_COMMAND_MEMORY : Z := 2.
Definition PCI_COMMAND_MASTER : Z := 4.
Definition PCI_STATUS : Z := 6.
Definition PCI_STATUS_CAP_LIST : Z := 16.
Definition PCI_HEADER_TYPE : Z := 14.
Definition PCI_BASE_ADDRESS_0 : Z := 16.
Definition PCI_BASE_ADDRESS_MEM_MASK : Z := 2 ^ 32 - 16.
Definition PCI_BASE_ADDRESS_IO_MASK : Z := 2 ^ 32 - 4.
Definition PCI_ROM_ADDRESS_ENABLE : Z := 1.
Definition PCI_ROM_ADDRESS_MASK : Z := 2 ^ 32 - 2048.
Definition PCI_CAPABILITY_LIST : Z := 52.
Definition PCI_CB_CAPABILITY_LIST : Z := 20.
Definition PCI_CAP_LIST_NEXT : Z := 1.
Definition PCI_CAP_ID_PM : Z := 1.
Definition PCI_CAP_ID_PCIX : Z := 7.
Definition PCI_CAP_ID_HT : Z := 8.
Definition PCI_CAP_ID_EXP : Z := 16.
Definition PCI_FIND_CAP_TTL : nat := 48.
Definition PCI_ROM_RESOURCE : Z := 6.
Definition PCI_NUM_RESOURCES : nat := 11.
Definition IORESOURCE_IO : Z := 256.
Definition IORESOURCE_MEM : Z := 512.
Definition IORESOURCE_PREFETCH : Z := 4096.
Definition IORESOURCE_READONLY : Z := 8192.
Definition IORESOURCE_CACHEABLE : Z := 16384.
Definition IORESOURCE_UNSET : Z := 2 ^ 29.
Definition IORESOURCE_ROM_ENABLE : Z := 1.
Definition IORESOURCE_PCI_FIXED : Z := 16.
Definition PCI_REGION_FLAG_MASK : Z := 15.
Definition PCI_D0 : Z := 0.
Definition PCI_D1 : Z := 1.
Definition PCI_D2 : Z := 2.
Definition PCI_D3hot : Z := 3.
Definition PCI_UNKNOWN : Z := 5.
Definition EIO : Z := 5.

Definition PCI_SLOT (devfn : Z) : Z := Z.land (Z.shiftr devfn 3) 31.
Definition PCI_FUNC (devfn : Z) : Z := Z.land devfn 7.

(** ** Data *)

(** The fields of [struct resource] that describe a region *)
Record pres := PRes { p_start : Z; p_end : Z; p_flags : Z }.
(** [struct pci_cap_saved_state] *)
Record saved_cap := SavedCap { cap_nr : Z; cap_data : list Z }.
(** [struct pci_dev] and the fields of its bus *)
Record pci_dev := PciDev {
  bus_number : Z; devfn : Z; hdr_type : Z; resources : list pres; rom_base_reg : Z; current_state : Z; enable_cnt : Z;
  is_busmaster : bool; no_d1d2 : bool; bridge_no_d1d2 : bool; cfg_size : Z; saved_config_space : list Z; saved_cap_space : list saved_cap }.

Definition with_resources (x : list pres) (d : pci_dev) : pci_dev :=
  PciDev (bus_number d) (devfn d) (hdr_type d) x (rom_base_reg d) (current_state d) (enable_cnt d) (is_busmaster d) (no_d1d2 d) (bridge_no_d1d2 d) (cfg_size d) (saved_config_space d) (saved_cap_space d).
Definition with_rom_base_reg (x : Z) (d : pci_dev) : pci_dev :=
  PciDev (bus_number d) (devfn d) (hdr_type d) (resources d) x (current_state d) (enable_cnt d) (is_busmaster d) (no_d1d2 d) (bridge_no_d1d2 d) (cfg_size d) (saved_config_space d) (saved_cap_space d).
Definition with_current_state (x : Z) (d : pci_dev) : pci_dev :=
  PciDev (bus_number d) (devfn d) (hdr_type d) (resources d) (rom_base_reg d) x (enable_cnt d) (is_busmaster d) (no_d1d2 d) (bridge_no_d1d2 d) (cfg_size d) (saved_config_space d) (saved_cap_space d).
Definition with_enable_cnt (x : Z) (d : pci_dev) : pci_dev :=
  PciDev (bus_number d) (devfn d) (hdr_type d) (resources d) (rom_base_reg d) (current_state d) x (is_busmaster d) (no_d1d2 d) (bridge_no_d1d2 d) (cfg_size d) (saved_config_space d) (saved_cap_space d).
Definition with_is_busmaster (x : bool) (d : pci_dev) : pci_dev :=
  PciDev (bus_number d) (devfn d) (hdr_type d) (resources d) (rom_base_reg d) (current_state d) (enable_cnt d) x (no_d1d2 d) (bridge_no_d1d2 d) (cfg_size d) (saved_config_space d) (saved_cap_space d).
Definition with_saved (x : list Z) (y : list saved_cap) (d : pci_dev) : pci_dev :=
  PciDev (bus_number d) (devfn d) (hdr_type d) (resources d) (rom_base_reg d) (current_state d) (enable_cnt d) (is_busmaster d) (no_d1d2 d) (bridge_no_d1d2 d) (cfg_size d) x y.

Section Pci.
Context {A : Type} `{KitPci A}.

Record pst := Pst { cfg : A; dev : pci_dev }.
Abbreviation PM := (M pst).
Definition on_dev (f : pci_dev → pci_dev) : PM unit := modify (λ s, Pst (cfg s) (f (dev s))).

(** ** Access to the configuration space *)

(** [dde_linux26_pci_read] stores as many bytes at [*val] as were read. *)
Definition dde_linux26_pci_read (pos size val : Z) : PM Z :=
  s ← get;
  let d := dev s in
  mret (if (size =? 1) || (size =? 2) || (size =? 4)
        then Z.lor (Z.ldiff val (Z.ones (8 * size))) (kit_pci_read size (bus_number d) (PCI_SLOT (devfn d)) (PCI_FUNC (devfn d)) pos (cfg s))
        else val).
Definition dde_linux26_pci_write (pos size val : Z) : PM Z :=
  (if (size =? 1) || (size =? 2) || (size =? 4)
   then modify (λ s, Pst (kit_pci_write size (bus_number (dev s)) (PCI_SLOT (devfn (dev s))) (PCI_FUNC (devfn (dev s))) pos (wrap (8 * size) val) (cfg s)) (dev s))
   else mret tt) ;;
  mret PCIBIOS_SUCCESSFUL.

(** [PCI_byte_BAD], [PCI_word_BAD], [PCI_dword_BAD] *)
Definition PCI_BAD (len pos : Z) : bool := negb (Z.land pos (len - 1) =? 0).
(** The functions the macros define; without a value the variable is not set. *)
Definition PCI_OP_READ (len pos : Z) : PM (Z * option Z) :=
  if PCI_BAD len pos then mret (PCIBIOS_BAD_REGISTER_NUMBER, None)
  else data ← dde_linux26_pci_read pos len 0; mret (PCIBIOS_SUCCESSFUL, Some (wrap (8 * len) data)).
Definition PCI_OP_WRITE (len pos value : Z) : PM Z :=
  if PCI_BAD len pos then mret PCIBIOS_BAD_REGISTER_NUMBER else dde_linux26_pci_write pos len value.
Definition pci_bus_read_config_byte := PCI_OP_READ 1.
Definition pci_bus_read_config_word := PCI_OP_READ 2.
Definition pci_bus_read_config_dword := PCI_OP_READ 4.
Definition pci_bus_write_config_byte := PCI_OP_WRITE 1.
Definition pci_bus_write_config_word := PCI_OP_WRITE 2.
Definition pci_bus_write_config_dword := PCI_OP_WRITE 4.
(** The value of a variable that a read was to set; using it unset is a fault. *)
Definition value_of (m : PM (Z * option Z)) : PM Z :=
  r ← m; match snd r with Some v => mret v | None => fail FBug end.
Definition pci_read_config_byte (pos : Z) : PM Z := value_of (pci_bus_read_config_byte pos).
Definition pci_read_config_word (pos : Z) : PM Z := value_of (pci_bus_read_config_word pos).
Definition pci_read_config_dword (pos : Z) : PM Z := value_of (pci_bus_read_config_dword pos).
Definition pci_write_config_word (pos v : Z) : PM unit := _ ← pci_bus_write_config_word pos v; mret tt.
Definition pci_write_config_dword (pos v : Z) : PM unit := _ ← pci_bus_write_config_dword pos v; mret tt.

(** ** Capabilities *)

(** The position and what is left of [*ttl] *)
Fixpoint __pci_find_next_cap_ttl (ttl : nat) (pos cap : Z) : PM (Z * nat) :=
  match ttl with
  | O => mret (0, O)
  | S ttl =>
      pos ← pci_read_config_byte pos;
      if pos <? 64 then mret (0, ttl) else
      let pos := Z.ldiff pos 3 in
      id ← pci_read_config_byte pos;
      if id =? 255 then mret (0, ttl)
      else if id =? cap then mret (pos, ttl)
      else __pci_find_next_cap_ttl ttl (u8 (pos + PCI_CAP_LIST_NEXT)) cap
  end.
Definition __pci_find_next_cap (pos cap : Z) : PM Z := r ← __pci_find_next_cap_ttl PCI_FIND_CAP_TTL pos cap; mret (fst r).
Definition pci_find_next_capability (pos cap : Z) : PM Z := __pci_find_next_cap (u8 (pos + PCI_CAP_LIST_NEXT)) cap.
Definition __pci_bus_find_cap_start (hdr : Z) : PM Z :=
  status ← pci_read_config_word PCI_STATUS;
  mret (if Z.land status PCI_STATUS_CAP_LIST =? 0 then 0
        else if (hdr =? 0) || (hdr =? 1) then PCI_CAPABILITY_LIST
        else if hdr =? 2 then PCI_CB_CAPABILITY_LIST else 0).
Definition pci_find_capability (cap : Z) : PM Z :=
  hdr ← gets (hdr_type ∘ dev);
  pos ← __pci_bus_find_cap_start hdr;
  if pos =? 0 then mret 0 else __pci_find_next_cap pos cap.
Definition pci_bus_find_capability (cap : Z) : PM Z :=
  hdr ← pci_read_config_byte PCI_HEADER_TYPE;
  pos ← __pci_bus_find_cap_start (Z.land hdr 127);
  if pos =? 0 then mret 0 else __pci_find_next_cap pos cap.

Fixpoint ext_loop (ttl : nat) (pos header cap : Z) : PM Z :=
  match ttl with
  | O => mret 0
  | S ttl =>
      if Z.land header 65535 =? cap then mret pos else
      let pos := Z.land (Z.shiftr header 20) 4092 in
      if pos <? 256 then mret 0 else
      r ← pci_bus_read_config_dword pos;
      match r with (0, Some header) => ext_loop ttl pos header cap | _ => mret 0 end
  end.
Definition pci_find_ext_capability (cap : Z) : PM Z :=
  size ← gets (cfg_size ∘ dev);
  if size <=? 256 then mret 0 else
  r ← pci_bus_read_config_dword 256;
  match r with (0, Some header) => if header =? 0 then mret 0 else ext_loop 480 256 header cap | _ => mret 0 end.

Fixpoint ht_loop (fuel ttl : nat) (pos mask ht_cap : Z) : PM Z :=
  if pos =? 0 then mret 0 else
  match fuel with
  | O => fail FFuel
  | S fuel =>
      cap ← pci_read_config_byte (pos + 3);
      if Z.land cap mask =? ht_cap then mret pos else
      r ← __pci_find_next_cap_ttl ttl (u8 (pos + PCI_CAP_LIST_NEXT)) PCI_CAP_ID_HT;
      ht_loop fuel (snd r) (fst r) mask ht_cap
  end.
Definition __pci_find_next_ht_cap (pos ht_cap : Z) : PM Z :=
  let mask := if (ht_cap =? 0) || (ht_cap =? 32) then 224 else 248 in
  r ← __pci_find_next_cap_ttl PCI_FIND_CAP_TTL (u8 pos) PCI_CAP_ID_HT;
  ht_loop PCI_FIND_CAP_TTL (snd r) (fst r) mask ht_cap.
Definition pci_find_next_ht_capability (pos ht_cap : Z) : PM Z := __pci_find_next_ht_cap (pos + PCI_CAP_LIST_NEXT) ht_cap.
Definition pci_find_ht_capability (ht_cap : Z) : PM Z :=
  hdr ← gets (hdr_type ∘ dev);
  pos ← __pci_bus_find_cap_start hdr;
  if pos =? 0 then mret 0 else __pci_find_next_ht_cap pos ht_cap.

(** ** Base address registers *)

Definition res_at (i : Z) : PM pres :=
  d ← gets dev;
  match resources d !! Z.to_nat i with Some r => if i <? 0 then fail FBounds else mret r | None => fail FBounds end.
Definition set_res (i : Z) (r : pres) : PM unit := _ ← res_at i; on_dev (λ d, with_resources (<[Z.to_nat i := r]> (resources d)) d).

Definition pci_calc_resource_flags (flags : Z) : Z :=
  if negb (Z.land flags 1 =? 0) then IORESOURCE_IO
  else if negb (Z.land flags 8 =? 0) then Z.lor IORESOURCE_MEM IORESOURCE_PREFETCH
  else IORESOURCE_MEM.
Definition pci_size (base maxbase mask : Z) : Z :=
  let size := Z.land mask maxbase in
  if size =? 0 then 0 else
  let size := u32 (Z.land size (u32 (Z.lnot (size - 1))) - 1) in
  if (base =? maxbase) && negb (Z.land (Z.lor base size) mask =? mask) then 0 else size.

(** What a register reads as after [ones] was written to it; the old value is written back. *)
Definition probe_reg (reg ones : Z) : PM (Z * Z) :=
  l ← pci_read_config_dword reg;
  pci_write_config_dword reg ones ;;
  sz ← pci_read_config_dword reg;
  pci_write_config_dword reg l ;;
  mret (l, sz).
(** The upper half of a 64-bit register; the resource is [r] so far. *)
Definition read_high (reg l sz : Z) (r : pres) : PM pres :=
  p ← probe_reg (reg + 4) (2 ^ 32 - 1);
  let '(lhi, szhi) := p in
  if negb (pci_size lhi szhi (2 ^ 32 - 1) =? 0) then mret (PRes 0 (p_end r) 0)
  else if negb (lhi =? 0) then
    pci_write_config_dword reg (Z.ldiff l PCI_BASE_ADDRESS_MEM_MASK) ;;
    pci_write_config_dword (reg + 4) 0 ;;
    mret (PRes 0 sz (p_flags r))
  else mret r.
(** One turn of the loop of [pci_read_bases]: the next index *)
Definition read_base (pos : Z) : PM Z :=
  res ← res_at pos;
  let reg := PCI_BASE_ADDRESS_0 + 4 * pos in
  p ← probe_reg reg (2 ^ 32 - 1);
  let '(l, sz) := p in
  if (sz =? 0) || (sz =? 2 ^ 32 - 1) then mret (pos + 1) else
  let l := if l =? 2 ^ 32 - 1 then 0 else l in
  let mem := Z.land l 1 =? 0 in
  let sz := pci_size l sz (if mem then PCI_BASE_ADDRESS_MEM_MASK else Z.land PCI_BASE_ADDRESS_IO_MASK 65535) in
  if sz =? 0 then mret (pos + 1) else
  let mask := if mem then PCI_BASE_ADDRESS_MEM_MASK else PCI_BASE_ADDRESS_IO_MASK in
  let start := Z.land l mask in
  let r := PRes start (u64 (start + sz)) (Z.lor (Z.lor (p_flags res) (Z.ldiff l mask)) (pci_calc_resource_flags l)) in
  if Z.land l 7 =? 4 then r ← read_high reg l sz r; set_res pos r ;; mret (pos + 2)
  else set_res pos r ;; mret (pos + 1).
Fixpoint bases_loop (fuel : nat) (pos howmany : Z) : PM unit :=
  if pos <? howmany then
    match fuel with O => fail FFuel | S fuel => next ← read_base pos; bases_loop fuel next howmany end
  else mret tt.
Definition read_rom (rom : Z) : PM unit :=
  on_dev (with_rom_base_reg (u8 rom)) ;;
  res ← res_at PCI_ROM_RESOURCE;
  p ← probe_reg rom (2 ^ 32 - 2);
  let '(l, sz) := p in
  let l := if l =? 2 ^ 32 - 1 then 0 else l in
  if negb (sz =? 0) && negb (sz =? 2 ^ 32 - 1) then
    let sz := pci_size l sz PCI_ROM_ADDRESS_MASK in
    if sz =? 0 then mret tt else
    let start := Z.land l PCI_ROM_ADDRESS_MASK in
    set_res PCI_ROM_RESOURCE (PRes start (u64 (start + sz))
      (Z.lor (Z.land l IORESOURCE_ROM_ENABLE) (IORESOURCE_MEM + IORESOURCE_PREFETCH + IORESOURCE_READONLY + IORESOURCE_CACHEABLE)))
  else mret tt.
Definition pci_read_bases (howmany rom : Z) : PM unit :=
  bases_loop (Z.to_nat howmany) 0 howmany ;;
  if rom =? 0 then mret tt else read_rom rom.

(** [pci_update_resource]; bus addresses are the addresses of the CPU on this architecture. *)
Definition pci_update_resource (i : Z) : PM unit :=
  res ← res_at i;
  if p_flags res =? 0 then mret tt else
  if negb (Z.land (p_flags res) IORESOURCE_PCI_FIXED =? 0) then mret tt else
  let start := u32 (p_start res) in
  let new := Z.lor start (Z.land (p_flags res) PCI_REGION_FLAG_MASK) in
  rom ← gets (rom_base_reg ∘ dev);
  let write (reg new : Z) : PM unit :=
    pci_write_config_dword reg new ;;
    _ ← pci_read_config_dword reg;
    (if Z.land new 7 =? 4 then pci_write_config_dword (reg + 4) 0 ;; _ ← pci_read_config_dword (reg + 4); mret tt else mret tt) ;;
    set_res i (PRes (p_start res) (p_end res) (Z.ldiff (p_flags res) IORESOURCE_UNSET)) in
  if i <? 6 then write (PCI_BASE_ADDRESS_0 + 4 * i) new
  else if i =? PCI_ROM_RESOURCE then
    if Z.land (p_flags res) IORESOURCE_ROM_ENABLE =? 0 then mret tt else write rom (Z.lor new PCI_ROM_ADDRESS_ENABLE)
  else mret tt.
Fixpoint restore_loop (n : nat) (i : Z) : PM unit :=
  match n with O => mret tt | S n => pci_update_resource i ;; restore_loop n (i + 1) end.
Definition pci_restore_bars : PM unit :=
  hdr ← gets (hdr_type ∘ dev);
  if hdr =? 0 then restore_loop 6 0 else if hdr =? 1 then restore_loop 2 0 else if hdr =? 2 then restore_loop 1 0 else mret tt.

(** ** Enabling *)

(** The loop over the resources; none if the device is not available *)
Fixpoint enable_loop (n : nat) (idx mask cmd : Z) : PM (option Z) :=
  match n with
  | O => mret (Some cmd)
  | S n =>
      if negb (Z.testbit mask idx) then enable_loop n (idx + 1) mask cmd else
      r ← res_at idx;
      if Z.land (p_flags r) (IORESOURCE_IO + IORESOURCE_MEM) =? 0 then enable_loop n (idx + 1) mask cmd else
      if (idx =? PCI_ROM_RESOURCE) && (Z.land (p_flags r) IORESOURCE_ROM_ENABLE =? 0) then enable_loop n (idx + 1) mask cmd else
      if (p_start r =? 0) && negb (p_end r =? 0) then mret None else
      let cmd := if Z.land (p_flags r) IORESOURCE_IO =? 0 then cmd else Z.lor cmd PCI_COMMAND_IO in
      let cmd := if Z.land (p_flags r) IORESOURCE_MEM =? 0 then cmd else Z.lor cmd PCI_COMMAND_MEMORY in
      enable_loop n (idx + 1) mask cmd
  end.
Definition pcibios_enable_resources (mask : Z) : PM Z :=
  old_cmd ← pci_read_config_word PCI_COMMAND;
  r ← enable_loop PCI_NUM_RESOURCES 0 mask old_cmd;
  match r with
  | None => mret (- EINVAL)
  | Some cmd => (if cmd =? old_cmd then mret tt else pci_write_config_word PCI_COMMAND cmd) ;; mret 0
  end.
Definition pcibios_enable_device (mask : Z) : PM Z :=
  err ← pcibios_enable_resources mask; if err <? 0 then mret err else mret 0.

Definition pci_no_d1d2 (d : pci_dev) : bool := no_d1d2 d || bridge_no_d1d2 d.
(** The control word for the new state, and whether the registers have to be restored *)
Definition new_pmcsr (current state pmcsr : Z) : Z * bool :=
  if (current =? PCI_D0) || (current =? PCI_D1) || (current =? PCI_D2) then (Z.lor (Z.ldiff pmcsr 3) state, false)
  else (0, (current =? PCI_UNKNOWN) && (Z.land pmcsr 3 =? PCI_D3hot) && (Z.land pmcsr 4 =? 0)).
Definition pci_set_power_state (state : Z) : PM Z :=
  let state := if PCI_D3hot <? state then PCI_D3hot else state in
  d ← gets dev;
  if negb (state =? PCI_D0) && (state <? current_state d) then mret (- EINVAL) else
  if current_state d =? state then mret 0 else
  if ((state =? PCI_D1) || (state =? PCI_D2)) && pci_no_d1d2 d then mret 0 else
  pm ← pci_find_capability PCI_CAP_ID_PM;
  if pm =? 0 then mret (- EIO) else
  pmc ← pci_read_config_word (pm + 2);
  if 3 <? Z.land pmc 7 then mret (- EIO) else
  if (state =? PCI_D1) && (Z.land pmc 512 =? 0) then mret (- EIO) else
  if (state =? PCI_D2) && (Z.land pmc 1024 =? 0) then mret (- EIO) else
  pmcsr ← pci_read_config_word (pm + 4);
  let '(pmcsr, need_restore) := new_pmcsr (current_state d) state pmcsr in
  pci_write_config_word (pm + 4) pmcsr ;;
  on_dev (with_current_state state) ;;
  (if need_restore then pci_restore_bars else mret tt) ;;
  mret 0.

Definition pci_enable_device_bars (bars : Z) : PM Z :=
  err ← pci_set_power_state PCI_D0;
  if (err <? 0) && negb (err =? - EIO) then mret err else
  err ← pcibios_enable_device bars;
  if err <? 0 then mret err else mret 0.
(** [pci_fixup_device] does nothing in the port. *)
Definition __pci_enable_device : PM Z := pci_enable_device_bars (2 ^ 11 - 1).
Definition add_enable (d : Z) : PM Z :=
  c ← gets (enable_cnt ∘ dev); on_dev (with_enable_cnt (s32 (c + d))) ;; mret (s32 (c + d)).
Definition pci_enable_device : PM Z :=
  c ← add_enable 1;
  if 1 <? c then mret 0 else
  result ← __pci_enable_device;
  (if result <? 0 then _ ← add_enable (-1); mret tt else mret tt) ;;
  mret result.
Definition pci_disable_device : PM unit :=
  c ← add_enable (-1);
  if negb (c =? 0) then mret tt else
  command ← pci_read_config_word PCI_COMMAND;
  (if Z.land command PCI_COMMAND_MASTER =? 0 then mret tt else pci_write_config_word PCI_COMMAND (Z.ldiff command PCI_COMMAND_MASTER)) ;;
  on_dev (with_is_busmaster false).
Definition pci_set_master : PM unit :=
  cmd ← pci_read_config_word PCI_COMMAND;
  (if Z.land cmd PCI_COMMAND_MASTER =? 0 then pci_write_config_word PCI_COMMAND (Z.lor cmd PCI_COMMAND_MASTER) else mret tt) ;;
  on_dev (with_is_busmaster true).
Definition pci_enable_wake (state : Z) (enable : bool) : PM Z :=
  pm ← pci_find_capability PCI_CAP_ID_PM;
  if pm =? 0 then mret (if enable then - EIO else 0) else
  value ← pci_read_config_word (pm + 2);
  let value := Z.shiftr (Z.land value 63488) 11 in
  if (value =? 0) || negb (Z.testbit value state) then mret (if enable then - EINVAL else 0) else
  value ← pci_read_config_word (pm + 4);
  let value := Z.lor value (32768 + 256) in
  let value := if enable then value else Z.ldiff value 256 in
  pci_write_config_word (pm + 4) value ;; mret 0.

(** ** Saving and restoring *)

Fixpoint save_loop (n : nat) (i : Z) : PM (list Z) :=
  match n with O => mret [] | S n => v ← pci_read_config_dword (4 * i); vs ← save_loop n (i + 1); mret (v :: vs) end.
Fixpoint read_words (l : list Z) : PM (list Z) :=
  match l with [] => mret [] | p :: l => v ← pci_read_config_word p; vs ← read_words l; mret (v :: vs) end.
Fixpoint write_words (l : list (Z * Z)) : PM unit :=
  match l with [] => mret tt | (p, v) :: l => pci_write_config_word p v ;; write_words l end.
(** [pci_find_saved_cap] and [pci_remove_saved_cap]; the saved state comes from [kzalloc], which gives memory if [mem] says so. *)
Fixpoint pci_find_saved_cap (cap : Z) (l : list saved_cap) : option (saved_cap * list saved_cap) :=
  match l with
  | [] => None
  | x :: l => if cap_nr x =? cap then Some (x, l) else (λ '(y, l), (y, x :: l)) <$> pci_find_saved_cap cap l
  end.
Definition save_cap (mem : bool) (cap : Z) (offsets : list Z) : PM Z :=
  pos ← pci_find_capability cap;
  if pos <=? 0 then mret 0 else
  if negb mem then mret (- ENOMEM) else
  data ← read_words (map (Z.add pos) offsets);
  on_dev (λ d, with_saved (saved_config_space d) (SavedCap 0 data :: saved_cap_space d) d) ;;
  mret 0.
Definition restore_cap (cap : Z) (offsets : list Z) : PM unit :=
  saved ← gets (saved_cap_space ∘ dev);
  pos ← pci_find_capability cap;
  match pci_find_saved_cap cap saved with
  | Some (x, rest) =>
      if pos <=? 0 then mret tt else
      write_words (zip (map (Z.add pos) offsets) (cap_data x)) ;;
      on_dev (λ d, with_saved (saved_config_space d) rest d)
  | None => mret tt
  end.
(** [PCI_EXP_DEVCTL], [LNKCTL], [SLTCTL], [RTCTL]; [PCI_X_CMD] *)
Definition pcie_offsets : list Z := [8; 16; 24; 28].
Definition pci_save_pcie_state (mem : bool) : PM Z := save_cap mem PCI_CAP_ID_EXP pcie_offsets.
Definition pci_restore_pcie_state : PM unit := restore_cap PCI_CAP_ID_EXP pcie_offsets.
Definition pci_save_pcix_state (mem : bool) : PM Z := save_cap mem PCI_CAP_ID_PCIX [2].
Definition pci_restore_pcix_state : PM unit := restore_cap PCI_CAP_ID_PCIX [2].

Definition pci_save_state (mem mem' : bool) : PM Z :=
  vs ← save_loop 16 0;
  on_dev (λ d, with_saved vs (saved_cap_space d) d) ;;
  i ← pci_save_pcie_state mem;
  if negb (i =? 0) then mret i else
  i ← pci_save_pcix_state mem';
  if negb (i =? 0) then mret i else mret 0.
Fixpoint restore_config (n : nat) : PM unit :=
  match n with
  | O => mret tt
  | S n =>
      val ← pci_read_config_dword (4 * Z.of_nat n);
      saved ← gets (saved_config_space ∘ dev);
      match saved !! n with
      | None => fail FBounds
      | Some v => (if val =? v then mret tt else pci_write_config_dword (4 * Z.of_nat n) v) ;; restore_config n
      end
  end.
Definition pci_restore_state : PM Z :=
  pci_restore_pcie_state ;; restore_config 16 ;; pci_restore_pcix_state ;; mret 0.
End Pci.
Arguments pst : clear implicits.
