(* ===== verification/PciBars.v ===== *)
(** Base address registers of PCI devices: what [pci_read_bases] finds out and
    [pci_restore_bars] writes back.

    The registers of a device behave as the PCI specification says: each has a
    set of writable bits, the others are fixed ([PciRegisters]).  The writable bits of
    a base address register give the size of the region, the fixed ones its type. *)

From S2P Require Import Prelude Pci.

(** The base address registers and the two places of the expansion ROM register *)
Definition bar_reg (reg : Z) : Prop := (16 ≤ reg < 40 ∨ reg = 48 ∨ reg = 56) ∧ reg mod 4 = 0.
Class PciRegisters (A : Type) `{KitPci A} := {
  writable (bus slot fn reg : Z) : Z;
  writable_range bus slot fn reg : 0 ≤ writable bus slot fn reg < 2 ^ 32;
  reg_write bus slot fn reg v a : bar_reg reg → 0 ≤ v < 2 ^ 32 →
    kit_pci_read 4 bus slot fn reg (kit_pci_write 4 bus slot fn reg v a) =
    Z.lor (Z.land v (writable bus slot fn reg)) (Z.ldiff (kit_pci_read 4 bus slot fn reg a) (writable bus slot fn reg));
  reg_other bus slot fn reg reg' v a : bar_reg reg → reg' mod 4 = 0 → reg' ≠ reg →
    kit_pci_read 4 bus slot fn reg' (kit_pci_write 4 bus slot fn reg v a) = kit_pci_read 4 bus slot fn reg' a;
}.

(** ** An instance: words with writable bits *)

Section Words.
Context (mask : Z * Z * Z * Z → Z).
Definition word_of (k : Z * Z * Z * Z) (a : gmap (Z * Z * Z * Z) Z) : Z := u32 (default 0 (a !! k)).
Definition words_read (size bus slot fn pos : Z) (a : gmap (Z * Z * Z * Z) Z) : Z :=
  wrap (8 * size) (Z.shiftr (word_of (bus, slot, fn, pos - pos mod 4) a) (8 * (pos mod 4))).
Definition words_write (size bus slot fn pos v : Z) (a : gmap (Z * Z * Z * Z) Z) : gmap (Z * Z * Z * Z) Z :=
  let k := (bus, slot, fn, pos - pos mod 4) in
  let m := Z.land (u32 (mask k)) (Z.shiftl (Z.ones (8 * size)) (8 * (pos mod 4))) in
  <[k := Z.lor (Z.land (Z.shiftl v (8 * (pos mod 4))) m) (Z.ldiff (word_of k a) m)]> a.
End Words.
Definition cfg_words (mask : Z * Z * Z * Z → Z) : Type := gmap (Z * Z * Z * Z) Z.
#[export] Program Instance words_kit mask : KitPci (cfg_words mask) := {| kit_pci_read := words_read; kit_pci_write := words_write mask |}.
Next Obligation. intros. apply wrap_range. lia. Qed.

Lemma u32_lor a b : 0 ≤ a < 2 ^ 32 → 0 ≤ b < 2 ^ 32 → u32 (Z.lor a b) = Z.lor a b.
Proof. intros. apply u32_small. by apply lor_range. Qed.
Lemma ldiff_range w a b : 0 ≤ w → 0 ≤ a < 2 ^ w → 0 ≤ Z.ldiff a b < 2 ^ w.
Proof.
  intros Hw Ha. split; [apply Z.ldiff_nonneg; lia|]. replace a with (a mod 2 ^ w) by (apply Z.mod_small; lia).
  replace (Z.ldiff (a mod 2 ^ w) b) with (Z.ldiff (a mod 2 ^ w) b mod 2 ^ w); [apply Z.mod_pos_bound; lia|].
  apply Z.bits_inj'. intros i Hi. destruct (Z.lt_ge_cases i w); [by rewrite Z.mod_pow2_bits_low|].
  by rewrite Z.ldiff_spec, !Z.mod_pow2_bits_high by lia.
Qed.
Lemma land_range_l w a b : 0 ≤ w → 0 ≤ a < 2 ^ w → 0 ≤ b → 0 ≤ Z.land a b < 2 ^ w.
Proof.
  intros Hw Ha Hb. split; [apply Z.land_nonneg; lia|].
  replace (Z.land a b) with (Z.land a b mod 2 ^ w); [apply Z.mod_pos_bound; lia|].
  apply Z.bits_inj'. intros i Hi. destruct (Z.lt_ge_cases i w); [by rewrite Z.mod_pow2_bits_low|].
  rewrite Z.mod_pow2_bits_high, Z.land_spec by lia. replace a with (a mod 2 ^ w) by (apply Z.mod_small; lia). by rewrite Z.mod_pow2_bits_high by lia.
Qed.
#[export] Program Instance words_regs mask : PciRegisters (cfg_words mask) := {| writable bus slot fn reg := u32 (mask (bus, slot, fn, reg)) |}.
Next Obligation. intros. apply u32_range. Qed.
Next Obligation.
  intros mask bus slot fn reg v a [_ Hr] Hv. unfold kit_pci_read, kit_pci_write. cbn. unfold words_read, words_write. rewrite Hr.
  rewrite Z.sub_0_r, Z.mul_0_r, !Z.shiftl_0_r, !Z.shiftr_0_r. unfold word_of at 1. rewrite lookup_insert_eq. cbn [default].
  change (wrap (8 * 4)) with u32. rewrite u32_u32. pose proof (u32_range (mask (bus, slot, fn, reg))) as Hm.
  replace (Z.land (u32 (mask (bus, slot, fn, reg))) (Z.ones (8 * 4))) with (u32 (mask (bus, slot, fn, reg)))
    by (rewrite Z.land_ones by lia; symmetry; by apply Z.mod_small).
  unfold id. replace (u32 (word_of (bus, slot, fn, reg) a)) with (word_of (bus, slot, fn, reg) a) by (unfold word_of; by rewrite u32_u32).
  apply u32_lor; [apply land_range_l; lia|]. apply ldiff_range; [lia|]. apply u32_range.
Qed.
Next Obligation.
  intros mask bus slot fn reg reg' v a [_ Hr] Hr' Hne. unfold kit_pci_read, kit_pci_write. cbn. unfold words_read, words_write, word_of. rewrite Hr, Hr'.
  rewrite lookup_insert_ne; [done|]. intros [=]. lia.
Qed.

(** ** Bits *)

(** The writable part of a register is its upper bits. *)
Definition upper (k : Z) : Z := 2 ^ 32 - 2 ^ k.
Lemma upper_shift k : 0 ≤ k ≤ 32 → upper k = Z.shiftl (Z.ones (32 - k)) k.
Proof. intros Hk. unfold upper. rewrite Z.shiftl_mul_pow2, Z.ones_equiv by lia. rewrite Z.mul_pred_l, <- Z.pow_add_r by lia. f_equal. f_equal. lia. Qed.
Lemma upper_land k q low : 0 ≤ k ≤ 32 → 0 ≤ low < 2 ^ k → 0 ≤ 2 ^ k * q + low < 2 ^ 32 → Z.land (2 ^ k * q + low) (upper k) = 2 ^ k * q.
Proof.
  intros Hk Hl Hx. rewrite upper_shift by done. pose proof (Z.pow_pos_nonneg 2 k ltac:(lia) ltac:(lia)).
  assert (Eq : Z.shiftr (2 ^ k * q + low) k = q) by (rewrite Z.shiftr_div_pow2 by lia; symmetry; apply (Z.div_unique_pos _ _ _ low); lia).
  assert (Hq : 0 ≤ q < 2 ^ (32 - k)).
  { split; [nia|]. apply (Z.mul_lt_mono_pos_l (2 ^ k)); [lia|]. rewrite <- Z.pow_add_r by lia. replace (k + (32 - k)) with 32 by lia. lia. }
  apply Z.bits_inj'. intros i Hi. rewrite Z.land_spec. destruct (Z.lt_ge_cases i k).
  - rewrite Z.shiftl_spec_low, andb_false_r, Z.mul_comm, <- Z.shiftl_mul_pow2, Z.shiftl_spec_low by lia. done.
  - rewrite Z.shiftl_spec, (Z.mul_comm _ q), <- Z.shiftl_mul_pow2, Z.shiftl_spec by lia. rewrite Z.shiftl_mul_pow2, Z.mul_comm by lia.
    replace (Z.testbit (2 ^ k * q + low) i) with (Z.testbit q (i - k)) by (rewrite <- Eq at 1; rewrite Z.shiftr_spec by lia; f_equal; lia).
    rewrite <- Z.land_spec, Z.land_ones, Z.mod_small by lia. done.
Qed.
Lemma land_ldiff x m : Z.ldiff x m = x - Z.land x m.
Proof.
  enough (Z.ldiff x m + Z.land x m = x) by lia. rewrite Z.add_nocarry_lxor.
  - apply Z.bits_inj'. intros i Hi. rewrite Z.lxor_spec, Z.ldiff_spec, Z.land_spec. by destruct (Z.testbit x i), (Z.testbit m i).
  - apply Z.bits_inj'. intros i Hi. rewrite Z.land_spec, Z.ldiff_spec, Z.land_spec, Z.bits_0. by destruct (Z.testbit x i), (Z.testbit m i).
Qed.
Lemma upper_ldiff k q low : 0 ≤ k ≤ 32 → 0 ≤ low < 2 ^ k → 0 ≤ 2 ^ k * q + low < 2 ^ 32 → Z.ldiff (2 ^ k * q + low) (upper k) = low.
Proof. intros. rewrite land_ldiff, upper_land by done. lia. Qed.
Lemma upper_lor k low : 0 ≤ k ≤ 32 → 0 ≤ low < 2 ^ k → Z.lor (upper k) low = upper k + low.
Proof.
  intros Hk Hl. assert (E : upper k + low = 2 ^ k * (2 ^ (32 - k) - 1) + low).
  { unfold upper. rewrite Z.mul_sub_distr_l, <- Z.pow_add_r by lia. replace (k + (32 - k)) with 32 by lia. lia. }
  assert (Hr : 0 ≤ 2 ^ k * (2 ^ (32 - k) - 1) + low < 2 ^ 32) by (rewrite <- E; unfold upper; pose proof (Z.pow_le_mono_r 2 k 32); lia).
  pose proof (upper_land k _ low Hk Hl Hr) as H1. pose proof (upper_ldiff k _ low Hk Hl Hr) as H2. rewrite <- E in H1, H2.
  rewrite <- (Z.lor_ldiff_and (upper k + low) (upper k)). rewrite H1, H2, Z.lor_comm. f_equal. lia.
Qed.
Lemma masked_back l ones m : Z.lor (Z.land l m) (Z.ldiff (Z.lor (Z.land ones m) (Z.ldiff l m)) m) = l.
Proof.
  apply Z.bits_inj'. intros i Hi. rewrite Z.lor_spec, Z.land_spec, Z.ldiff_spec, Z.lor_spec, Z.land_spec, Z.ldiff_spec.
  by destruct (Z.testbit l i), (Z.testbit m i), (Z.testbit ones i).
Qed.
Lemma land_pow2 x k : 0 ≤ k → Z.land x (2 ^ k - 1) = x mod 2 ^ k.
Proof. intros Hk. replace (2 ^ k - 1) with (Z.ones k) by (rewrite Z.ones_equiv; lia). by apply Z.land_ones. Qed.

(** ** Regions *)

(** What a base address register is for: nothing, memory of size 2^k at [base] with the
    type bits [low], I/O ports, or memory with a 64-bit register of two words *)
Inductive bar := BNone | BMem (k base low : Z) | BIo (k base : Z) | BMem64 (k base low : Z).
Definition region_ok (lo hi k base : Z) : Prop := lo ≤ k ≤ hi ∧ base mod 2 ^ k = 0 ∧ 0 ≤ base < 2 ^ 32.
Definition bar_ok (b : bar) : Prop :=
  match b with
  | BNone => True
  | BMem k base low => region_ok 4 31 k base ∧ low ∈ [0; 2; 8; 10]
  | BIo k base => region_ok 2 15 k base
  | BMem64 k base low => region_ok 4 31 k base ∧ low ∈ [4; 12]
  end.
Definition width (b : bar) : Z := match b with BMem64 _ _ _ => 2 | _ => 1 end.
(** The resource that describes it *)
Definition bar_res (b : bar) : option pres :=
  match b with
  | BNone => None
  | BMem k base low | BMem64 k base low => Some (PRes base (base + (2 ^ k - 1)) (Z.lor low (pci_calc_resource_flags low)))
  | BIo k base => Some (PRes base (base + (2 ^ k - 1)) (Z.lor 1 IORESOURCE_IO))
  end.

(** The size does not depend on the address, but for one case. *)
Lemma pci_size_cases l M mask : pci_size l M mask = if l =? M then pci_size M M mask else pci_size (M + 1) M mask.
Proof.
  unfold pci_size. destruct (Z.land mask M =? 0); [by destruct (l =? M)|]. destruct (Z.eqb_spec l M) as [->|]; [by rewrite Z.eqb_refl|].
  destruct (Z.eqb_spec (M + 1) M); [lia|done].
Qed.
Definition size_right (mask low k : Z) : bool :=
  (pci_size (upper k + low) (upper k + low) mask =? 2 ^ k - 1) && (pci_size (upper k + low + 1) (upper k + low) mask =? 2 ^ k - 1).
Lemma size_right_ok mask low k l : size_right mask low k = true → pci_size l (upper k + low) mask = 2 ^ k - 1.
Proof. intros [H1%Z.eqb_eq H2%Z.eqb_eq]%andb_true_iff. rewrite pci_size_cases. by destruct (l =? _). Qed.
Lemma sizes_mem : forallb (λ k, forallb (λ low, size_right PCI_BASE_ADDRESS_MEM_MASK low (Z.of_nat k)) [0; 2; 8; 10; 4; 12]) (seq 4 28) = true.
Proof. vm_compute. reflexivity. Qed.
Lemma sizes_io : forallb (λ k, size_right (Z.land PCI_BASE_ADDRESS_IO_MASK 65535) 1 (Z.of_nat k)) (seq 2 14) = true.
Proof. vm_compute. reflexivity. Qed.
Lemma size_mem k low l : 4 ≤ k ≤ 31 → low ∈ [0; 2; 8; 10; 4; 12] → pci_size l (upper k + low) PCI_BASE_ADDRESS_MEM_MASK = 2 ^ k - 1.
Proof.
  intros Hk Hlow. apply size_right_ok. pose proof sizes_mem as Hs. rewrite forallb_forall in Hs. specialize (Hs (Z.to_nat k)). rewrite forallb_forall in Hs.
  rewrite Z2Nat.id in Hs by lia. apply Hs; [apply in_seq; lia|]. by apply list_elem_of_In.
Qed.
Lemma size_io k l : 2 ≤ k ≤ 15 → pci_size l (upper k + 1) (Z.land PCI_BASE_ADDRESS_IO_MASK 65535) = 2 ^ k - 1.
Proof.
  intros Hk. apply size_right_ok. pose proof sizes_io as Hs. rewrite forallb_forall in Hs. specialize (Hs (Z.to_nat k)).
  rewrite Z2Nat.id in Hs by lia. apply Hs. apply in_seq. lia.
Qed.

(** ** Reading and writing registers *)

Section Bars.
Context {A : Type} {HK : KitPci A} {HR : PciRegisters A}.
Implicit Types s : pst A.

Definition rd s (reg : Z) : Z := kit_pci_read 4 (bus_number (dev s)) (PCI_SLOT (devfn (dev s))) (PCI_FUNC (devfn (dev s))) reg (cfg s).
Definition wm s (reg : Z) : Z := writable (bus_number (dev s)) (PCI_SLOT (devfn (dev s))) (PCI_FUNC (devfn (dev s))) reg.
Definition wr s (reg v : Z) : pst A :=
  Pst (kit_pci_write 4 (bus_number (dev s)) (PCI_SLOT (devfn (dev s))) (PCI_FUNC (devfn (dev s))) reg v (cfg s)) (dev s).
Lemma rd_range s reg : 0 ≤ rd s reg < 2 ^ 32.
Proof. apply (kit_pci_read_range 4). lia. Qed.
Lemma aligned reg : reg mod 4 = 0 → PCI_BAD 4 reg = false.
Proof. intros Hr. unfold PCI_BAD. change (4 - 1) with (2 ^ 2 - 1). rewrite land_pow2 by lia. change (2 ^ 2) with 4. by rewrite Hr. Qed.
Lemma read_dword_run s reg : reg mod 4 = 0 → pci_read_config_dword reg s = Done (rd s reg, s).
Proof.
  intros Hr. unfold pci_read_config_dword, value_of, pci_bus_read_config_dword, PCI_OP_READ. rewrite (aligned _ Hr). unfold dde_linux26_pci_read. change (8 * 4) with 32.
  change ((4 =? 1) || (4 =? 2) || (4 =? 4)) with true. run_simpl. unfold get. cbn beta iota. cbn [snd]. rewrite Z.ldiff_0_l, Z.lor_0_l. do 2 f_equal. apply wrap_small, rd_range.
Qed.
Lemma write_dword_run s reg v : reg mod 4 = 0 → 0 ≤ v < 2 ^ 32 → pci_write_config_dword reg v s = Done (tt, wr s reg v).
Proof.
  intros Hr Hv. unfold pci_write_config_dword, pci_bus_write_config_dword, PCI_OP_WRITE. rewrite (aligned _ Hr). unfold dde_linux26_pci_write.
  change (8 * 4) with 32. change ((4 =? 1) || (4 =? 2) || (4 =? 4)) with true. run_simpl. by rewrite wrap_small.
Qed.
Lemma rd_wr s reg v : bar_reg reg → 0 ≤ v < 2 ^ 32 → rd (wr s reg v) reg = Z.lor (Z.land v (wm s reg)) (Z.ldiff (rd s reg) (wm s reg)).
Proof. intros. by apply reg_write. Qed.
Lemma rd_wr_other s reg reg' v : bar_reg reg → reg' mod 4 = 0 → reg' ≠ reg → rd (wr s reg v) reg' = rd s reg'.
Proof. intros. by apply reg_other. Qed.

(** The same device with the same registers *)
Definition same_regs s s' : Prop := dev s' = dev s ∧ ∀ reg, reg mod 4 = 0 → rd s' reg = rd s reg.
Lemma wm_dev s s' reg : dev s' = dev s → wm s' reg = wm s reg.
Proof. unfold wm. by intros ->. Qed.
Lemma probe_ok s reg ones : bar_reg reg → 0 ≤ ones < 2 ^ 32 →
  ∃ s', probe_reg reg ones s = Done ((rd s reg, Z.lor (Z.land ones (wm s reg)) (Z.ldiff (rd s reg) (wm s reg))), s') ∧ same_regs s s'.
Proof.
  intros Hr Ho. pose proof Hr as [_ Hm]. exists (wr (wr s reg ones) reg (rd s reg)). split.
  - unfold probe_reg. rewrite (run_bind _ _ _ _ _ (read_dword_run s reg Hm)), (run_bind _ _ _ _ _ (write_dword_run s reg ones Hm Ho)).
    rewrite (run_bind _ _ _ _ _ (read_dword_run (wr s reg ones) reg Hm)), (run_bind _ _ _ _ _ (write_dword_run _ reg _ Hm (rd_range s reg))). by rewrite rd_wr.
  - split; [done|]. intros reg' Hr'. destruct (decide (reg' = reg)) as [->|]; [|by rewrite !rd_wr_other].
    rewrite rd_wr, rd_wr by (done || apply rd_range). apply masked_back.
Qed.
Lemma res_at_run s i r : 0 ≤ i → resources (dev s) !! Z.to_nat i = Some r → res_at i s = Done (r, s).
Proof. intros Hi E. unfold res_at. rewrite (run_bind _ _ s (dev s) s eq_refl), E. by destruct (Z.ltb_spec i 0); [lia|]. Qed.
Definition put_res s (i : Z) (r : pres) : pst A := Pst (cfg s) (with_resources (<[Z.to_nat i := r]> (resources (dev s))) (dev s)).
Lemma set_res_run s i r r' : 0 ≤ i → resources (dev s) !! Z.to_nat i = Some r → set_res i r' s = Done (tt, put_res s i r').
Proof. intros Hi E. unfold set_res. by rewrite (run_bind _ _ _ _ _ (res_at_run s i r Hi E)). Qed.

(** ** Probing *)

(** The registers of a region *)
Definition bar_at s (b : bar) (reg : Z) : Prop :=
  match b with
  | BNone => wm s reg = 0 ∧ rd s reg = 0
  | BMem k base low => wm s reg = upper k ∧ rd s reg = base + low
  | BIo k base => wm s reg = upper k ∧ rd s reg = base + 1
  | BMem64 k base low => wm s reg = upper k ∧ rd s reg = base + low ∧ wm s (reg + 4) = 2 ^ 32 - 1 ∧ rd s (reg + 4) = 0
  end.
Lemma bar_reg_at pos : 0 ≤ pos < 6 → bar_reg (PCI_BASE_ADDRESS_0 + 4 * pos).
Proof. intros Hp. unfold PCI_BASE_ADDRESS_0. split; [lia|]. rewrite Z.mul_comm, Z.mod_add by lia. done. Qed.

(** What the probe of a region with writable bits reads *)
Lemma probe_value k base low : 0 ≤ k ≤ 31 → base mod 2 ^ k = 0 → 0 ≤ base < 2 ^ 32 → 0 ≤ low < 2 ^ k →
  Z.lor (Z.land (2 ^ 32 - 1) (upper k)) (Z.ldiff (base + low) (upper k)) = upper k + low ∧ base + low < 2 ^ 32 ∧ Z.land (base + low) (upper k) = base ∧ Z.ldiff (base + low) (upper k) = low.
Proof.
  intros Hk Hm Hb Hl. assert (Hp : 0 < 2 ^ k ≤ 2 ^ 31) by (split; [apply Z.pow_pos_nonneg; lia|apply Z.pow_le_mono_r; lia]).
  apply Z.mod_divide in Hm as [q Hq]; [|lia]. assert (E32 : 2 ^ 32 = 2 ^ k * 2 ^ (32 - k)) by (rewrite <- Z.pow_add_r by lia; f_equal; lia).
  assert (Hlt : base + low < 2 ^ 32).
  { rewrite E32 in Hb |- *. assert (q < 2 ^ (32 - k)) by (apply (Z.mul_lt_mono_pos_l (2 ^ k)); lia). nia. }
  rewrite Hq, (Z.mul_comm q) in *. rewrite upper_ldiff, upper_land by lia.
  split; [|done]. change (2 ^ 32 - 1) with (Z.ones 32). rewrite Z.land_comm, Z.land_ones, Z.mod_small by (unfold upper; lia).
  apply upper_lor; lia.
Qed.
Lemma low_land l m : 0 ≤ m < 16 → Z.land l m = Z.land (l mod 16) m.
Proof.
  intros Hm. replace m with (Z.land 15 m) at 1.
  - rewrite Z.land_assoc. change 15 with (2 ^ 4 - 1). by rewrite land_pow2 by lia.
  - rewrite Z.land_comm. change 15 with (2 ^ 4 - 1). rewrite land_pow2 by lia. apply Z.mod_small. lia.
Qed.
Lemma calc_flags_low l : pci_calc_resource_flags l = pci_calc_resource_flags (l mod 16).
Proof. unfold pci_calc_resource_flags. by rewrite (low_land l 1), (low_land l 8), <- !low_land by lia. Qed.
Lemma base_mod k base j : 0 ≤ j ≤ k → base mod 2 ^ k = 0 → base mod 2 ^ j = 0.
Proof.
  intros Hj Hm. pose proof (Z.pow_pos_nonneg 2 k ltac:(lia) ltac:(lia)). pose proof (Z.pow_pos_nonneg 2 j ltac:(lia) ltac:(lia)).
  apply Z.mod_divide in Hm; [|lia]. apply Z.mod_divide; [lia|]. etrans; [|exact Hm]. exists (2 ^ (k - j)). rewrite <- Z.pow_add_r by lia. f_equal. lia.
Qed.

(** The result of a turn for a register that is used *)
Definition after s (pos : Z) (o : option pres) : pci_dev :=
  match o with Some r => with_resources (<[Z.to_nat pos := r]> (resources (dev s))) (dev s) | None => dev s end.
Lemma rd_put_res s i r reg : rd (put_res s i r) reg = rd s reg.
Proof. done. Qed.

(** The steps up to the registers of the upper half *)
Lemma read_base_start s pos r0 k base low mem : 0 ≤ pos < 6 → resources (dev s) !! Z.to_nat pos = Some r0 → p_flags r0 = 0 →
  (if mem : bool then 4 ≤ k ≤ 31 ∧ low ∈ [0; 2; 8; 10; 4; 12] else 2 ≤ k ≤ 15 ∧ low = 1) → base mod 2 ^ k = 0 → 0 ≤ base < 2 ^ 32 →
  wm s (PCI_BASE_ADDRESS_0 + 4 * pos) = upper k → rd s (PCI_BASE_ADDRESS_0 + 4 * pos) = base + low →
  ∃ s', same_regs s s' ∧ read_base pos s =
    (let r := PRes base (base + (2 ^ k - 1)) (Z.lor low (pci_calc_resource_flags low)) in
     if low =? 4 then r ← read_high (PCI_BASE_ADDRESS_0 + 4 * pos) (base + low) (2 ^ k - 1) r; set_res pos r ;; mret (pos + 2)
     else if low =? 12 then r ← read_high (PCI_BASE_ADDRESS_0 + 4 * pos) (base + low) (2 ^ k - 1) r; set_res pos r ;; mret (pos + 2)
     else set_res pos r ;; mret (pos + 1)) s'.
Proof.
  intros Hp Er E0 Hk Hm Hb Ew Ev. destruct (probe_ok s _ (2 ^ 32 - 1) (bar_reg_at pos Hp) ltac:(lia)) as (s' & Es & Hsame). rewrite Ew, Ev in Es.
  assert (Hk2 : 2 ≤ k ≤ 31) by (destruct mem; lia). assert (Hlow : 0 ≤ low < 2 ^ (if mem then 4 else 2)).
  { destruct mem; [|lia]. destruct Hk as [_ Hk]. rewrite !elem_of_cons, elem_of_nil in Hk. lia. }
  assert (Hlk : 0 ≤ low < 2 ^ k) by (pose proof (Z.pow_le_mono_r 2 (if mem then 4 else 2) k); destruct mem; lia).
  destruct (probe_value k base low ltac:(lia) Hm Hb Hlk) as (Esz & Hlt & _). rewrite Esz in Es. exists s'. split; [done|].
  unfold read_base. rewrite (run_bind _ _ _ _ _ (res_at_run s pos r0 ltac:(lia) Er)), (run_bind _ _ _ _ _ Es), E0, Z.lor_0_l. cbv zeta.
  assert (H4 : base mod 4 = 0) by (apply (base_mod k base 2); [lia|done]). assert (Hl3 : low mod 4 ≠ 3 ∧ low < 2 ^ k - 1).
  { destruct mem.
    - destruct Hk as [Hk Hl]. pose proof (Z.pow_le_mono_r 2 4 k ltac:(lia) ltac:(lia)). rewrite !elem_of_cons, elem_of_nil in Hl.
      destruct Hl as [->|[->|[->|[->|[->|[->|[]]]]]]]; (split; [done|lia]).
    - destruct Hk as [Hk ->]. pose proof (Z.pow_le_mono_r 2 2 k ltac:(lia) ltac:(lia)). split; [done|lia]. }
  assert (Hup : 0 < upper k) by (unfold upper; pose proof (Z.pow_le_mono_r 2 k 31); lia).
  destruct (Z.eqb_spec (upper k + low) 0); [lia|]. destruct (Z.eqb_spec (upper k + low) (2 ^ 32 - 1)); [unfold upper in *; lia|]. cbn [orb].
  destruct (Z.eqb_spec (base + low) (2 ^ 32 - 1)) as [Eff|_]; [exfalso; revert Eff H4 Hl3; clear; Z.div_mod_to_equations; lia|].
  assert (Hu : u64 (base + (2 ^ k - 1)) = base + (2 ^ k - 1)) by (apply wrap_small; pose proof (Z.pow_le_mono_r 2 k 31); pose proof (Z.pow_pos_nonneg 2 k); lia).
  assert (Hz : 2 ^ k - 1 ≠ 0) by lia. destruct mem.
  - destruct Hk as [Hk Hl]. assert (E16 : (base + low) mod 16 = low).
    { assert (H16 : base mod 16 = 0) by (apply (base_mod k base 4); [lia|done]). revert H16 Hlow. clear. Z.div_mod_to_equations. lia. }
    destruct (probe_value 4 base low ltac:(lia) ltac:(apply (base_mod k base 4); [lia|done]) Hb Hlow) as (_ & _ & El & Ed).
    rewrite (low_land _ 1), (low_land _ 7), calc_flags_low, E16 by lia. change PCI_BASE_ADDRESS_MEM_MASK with (upper 4).
    assert (Hodd : (Z.land low 1 =? 0) = true) by (rewrite !elem_of_cons, elem_of_nil in Hl; destruct Hl as [->|[->|[->|[->|[->|[->|[]]]]]]]; done).
    rewrite Hodd. cbv iota. rewrite (size_mem k low (base + low) Hk Hl : pci_size (base + low) (upper k + low) (upper 4) = _).
    destruct (Z.eqb_spec (2 ^ k - 1) 0); [done|]. rewrite El, Ed, Hu. cbv zeta.
    rewrite !elem_of_cons, elem_of_nil in Hl; destruct Hl as [->|[->|[->|[->|[->|[->|[]]]]]]]; reflexivity.
  - destruct Hk as [Hk ->]. destruct (probe_value 2 base 1 ltac:(lia) H4 Hb ltac:(lia)) as (_ & _ & El & Ed).
    assert (Hodd : (Z.land (base + 1) 1 =? 0) = false /\ (Z.land (base + 1) 7 =? 4) = false).
    { change 1 with (2 ^ 1 - 1) at 2. change 7 with (2 ^ 3 - 1). rewrite !land_pow2 by lia. change (2 ^ 1) with 2. change (2 ^ 3) with 8.
      split; apply Z.eqb_neq; revert H4; clear; Z.div_mod_to_equations; lia. }
    assert (Hfl : pci_calc_resource_flags (base + 1) = pci_calc_resource_flags 1) by (unfold pci_calc_resource_flags; by rewrite (proj1 Hodd)).
    rewrite (proj1 Hodd), (proj2 Hodd). cbv iota. rewrite size_io by done. destruct (Z.eqb_spec (2 ^ k - 1) 0); [done|].
    change PCI_BASE_ADDRESS_IO_MASK with (upper 2). rewrite El, Ed, Hu, Hfl. reflexivity.
Qed.

Lemma read_base_ok s b pos r0 : 0 ≤ pos → pos + width b ≤ 6 → resources (dev s) !! Z.to_nat pos = Some r0 → p_flags r0 = 0 →
  bar_ok b → bar_at s b (PCI_BASE_ADDRESS_0 + 4 * pos) →
  ∃ s', read_base pos s = Done (pos + width b, s') ∧ dev s' = after s pos (bar_res b) ∧ ∀ reg, reg mod 4 = 0 → rd s' reg = rd s reg.
Proof.
  intros Hp Hw Er E0 Hok Hat.
  assert (Hset : ∀ s' r (n : Z), same_regs s s' → ∃ s'', (set_res pos r ;; (mret n : M (pst A) Z)) s' = Done (n, s'') ∧ dev s'' = after s pos (Some r) ∧ ∀ reg, reg mod 4 = 0 → rd s'' reg = rd s reg).
  { intros s' r n [Ed Hr]. rewrite <- Ed in Er. rewrite (run_bind _ _ _ _ _ (set_res_run s' pos r0 r Hp Er)). eexists. split; [done|]. split; [cbn; by rewrite Ed|].
    intros reg Hreg. rewrite rd_put_res. by apply Hr. }
  destruct b as [|k base low|k base|k base low]; cbn [width bar_ok bar_at bar_res] in *.
  - destruct Hat as [Ew Ev]. destruct (probe_ok s _ (2 ^ 32 - 1) (bar_reg_at pos ltac:(lia)) ltac:(lia)) as (s' & Es & Hsame). rewrite Ew, Ev in Es.
    exists s'. unfold read_base. rewrite (run_bind _ _ _ _ _ (res_at_run s pos r0 Hp Er)), (run_bind _ _ _ _ _ Es). split; [done|apply Hsame].
  - destruct Hok as [(Hk & Hm & Hb) Hl], Hat as [Ew Ev].
    destruct (read_base_start s pos r0 k base low true ltac:(lia) Er E0) as (s' & Hsame & E); [split; [done|set_solver]|done..|]. rewrite E. cbv zeta.
    rewrite !elem_of_cons, elem_of_nil in Hl. destruct Hl as [->|[->|[->|[->|[]]]]]; by apply Hset.
  - destruct Hok as (Hk & Hm & Hb), Hat as [Ew Ev].
    destruct (read_base_start s pos r0 k base 1 false ltac:(lia) Er E0) as (s' & Hsame & E); [done..|]. rewrite E. by apply Hset.
  - destruct Hok as [(Hk & Hm & Hb) Hl], Hat as (Ew & Ev & Ewh & Evh). set (reg := PCI_BASE_ADDRESS_0 + 4 * pos) in *.
    destruct (read_base_start s pos r0 k base low true ltac:(lia) Er E0) as (s1 & Hsame & E); [split; [done|set_solver]|done..|]. rewrite E. cbv zeta.
    assert (Hhi : bar_reg (reg + 4)) by (replace (reg + 4) with (PCI_BASE_ADDRESS_0 + 4 * (pos + 1)) by (subst reg; lia); apply bar_reg_at; lia).
    destruct (probe_ok s1 (reg + 4) (2 ^ 32 - 1) Hhi ltac:(lia)) as (s2 & Es & Hsame2).
    assert (Ewh' : wm s1 (reg + 4) = 2 ^ 32 - 1) by (rewrite (wm_dev s s1) by apply Hsame; done).
    assert (Evh' : rd s1 (reg + 4) = 0) by (rewrite (proj2 Hsame) by apply Hhi; done). rewrite Ewh', Evh' in Es.
    change (Z.lor (Z.land (2 ^ 32 - 1) (2 ^ 32 - 1)) (Z.ldiff 0 (2 ^ 32 - 1))) with (2 ^ 32 - 1) in Es.
    assert (Eh : ∀ l sz r, read_high reg l sz r s1 = Done (r, s2)) by (intros; unfold read_high; by rewrite (run_bind _ _ _ _ _ Es)).
    assert (Hsame' : same_regs s s2).
    { destruct Hsame as [Ha Hb'], Hsame2 as [Hc Hd]. split; [by rewrite Hc|]. intros r Hr. by rewrite Hd, Hb'. }
    rewrite !elem_of_cons, elem_of_nil in Hl. subst reg. destruct Hl as [->|[->|[]]]; cbn [Z.eqb Pos.eqb]; rewrite (run_bind _ _ _ _ _ (Eh _ _ _)); by apply Hset.
Qed.

(** The registers from [pos] on *)
Fixpoint bars_at s (pos : Z) (bs : list bar) : Prop :=
  match bs with [] => True | b :: bs => bar_ok b ∧ bar_at s b (PCI_BASE_ADDRESS_0 + 4 * pos) ∧ bars_at s (pos + width b) bs end.
Fixpoint bars_width (bs : list bar) : Z := match bs with [] => 0 | b :: bs => width b + bars_width bs end.
(** The resources they give *)
Fixpoint fill (pos : Z) (bs : list bar) (l : list pres) : list pres :=
  match bs with
  | [] => l
  | b :: bs => fill (pos + width b) bs (match bar_res b with Some r => <[Z.to_nat pos := r]> l | None => l end)
  end.
Lemma width_pos b : 1 ≤ width b ≤ 2.
Proof. destruct b; cbn; lia. Qed.
Lemma bars_width_pos bs : 0 ≤ bars_width bs.
Proof. induction bs as [|b bs IH]; cbn [bars_width]; [lia|]. pose proof (width_pos b). lia. Qed.
Definition same_bus (d d' : pci_dev) : Prop := bus_number d' = bus_number d ∧ devfn d' = devfn d.
Lemma bars_at_ext s s' pos bs : 0 ≤ pos → pos + bars_width bs ≤ 6 → same_bus (dev s) (dev s') → (∀ reg, reg mod 4 = 0 → rd s' reg = rd s reg) → bars_at s pos bs → bars_at s' pos bs.
Proof.
  intros Hp Hw [Eb Ef] Hr. revert pos Hp Hw. induction bs as [|b bs IH]; intros pos Hp Hw; [done|]. cbn [bars_at bars_width] in *. pose proof (width_pos b). pose proof (bars_width_pos bs).
  intros (Hok & Hat & Hrest). split; [done|]. split; [|apply IH; (done || lia)].
  assert (Hwm : ∀ reg, wm s' reg = wm s reg) by (intros reg; unfold wm; by rewrite Eb, Ef). pose proof (bar_reg_at pos ltac:(lia)) as [_ Hm].
  assert (Hm' : (PCI_BASE_ADDRESS_0 + 4 * pos + 4) mod 4 = 0) by (revert Hm; clear; Z.div_mod_to_equations; lia).
  destruct b; cbn [bar_at] in *; rewrite !Hwm, !Hr by done; done.
Qed.
Lemma bases_loop_ok fuel s pos bs : 0 ≤ pos → pos + bars_width bs ≤ 6 → (length bs ≤ fuel)%nat → bars_at s pos bs → length (resources (dev s)) = 12%nat →
  (∀ i r, pos ≤ i → resources (dev s) !! Z.to_nat i = Some r → p_flags r = 0) →
  ∃ s', bases_loop fuel pos (pos + bars_width bs) s = Done (tt, s') ∧ dev s' = with_resources (fill pos bs (resources (dev s))) (dev s) ∧
    ∀ reg, reg mod 4 = 0 → rd s' reg = rd s reg.
Proof.
  revert s pos fuel. induction bs as [|b bs IH]; intros s pos fuel Hp Hw Hf Hat Hlen Hz.
  { exists s. split; [|split; [by destruct s as [? []]|done]]. destruct fuel; cbn [bases_loop bars_width]; (destruct (Z.ltb_spec pos (pos + 0)); [lia|done]). }
  cbn [bars_at bars_width fill length] in *. destruct fuel as [|fuel]; [lia|]. destruct Hat as (Hok & Hat & Hrest). pose proof (width_pos b). pose proof (bars_width_pos bs).
  destruct (lookup_lt_is_Some_2 (resources (dev s)) (Z.to_nat pos)) as [r0 Er]; [lia|].
  destruct (read_base_ok s b pos r0 Hp ltac:(lia) Er (Hz pos r0 ltac:(lia) Er) Hok Hat) as (s1 & E1 & Ed & Hr).
  cbn [bases_loop]. destruct (Z.ltb_spec pos (pos + (width b + bars_width bs))); [|lia]. rewrite (run_bind _ _ _ _ _ E1).
  assert (Hres : resources (dev s1) = match bar_res b with Some r => <[Z.to_nat pos := r]> (resources (dev s)) | None => resources (dev s) end) by (rewrite Ed; by destruct (bar_res b)).
  destruct (IH s1 (pos + width b) fuel ltac:(lia) ltac:(lia) ltac:(lia)) as (s' & E2 & Ed' & Hr').
  - apply (bars_at_ext s); try done; [lia|lia|]. rewrite Ed. by destruct (bar_res b).
  - rewrite Hres. destruct (bar_res b); [by rewrite length_insert|done].
  - intros i r Hi. rewrite Hres. destruct (bar_res b); [rewrite list_lookup_insert_ne by lia|]; apply Hz; lia.
  - exists s'. replace (pos + (width b + bars_width bs)) with (pos + width b + bars_width bs) by lia. split; [done|]. split.
    + rewrite Ed', Hres, Ed. by destruct (bar_res b).
    + intros reg Hreg. by rewrite Hr', Hr.
Qed.

(** ** Restoring *)

(** The fixed bits of the registers are those of the region; the others may have any value. *)
Definition bar_fixed s (b : bar) (reg : Z) : Prop :=
  match b with
  | BNone => wm s reg = 0 ∧ rd s reg = 0
  | BMem k base low => wm s reg = upper k ∧ Z.ldiff (rd s reg) (upper k) = low
  | BIo k base => wm s reg = upper k ∧ Z.ldiff (rd s reg) (upper k) = 1
  | BMem64 k base low => wm s reg = upper k ∧ Z.ldiff (rd s reg) (upper k) = low ∧ wm s (reg + 4) = 2 ^ 32 - 1
  end.
(** The resources of the device are those of the region. *)
Definition bar_in (l : list pres) (b : bar) (pos : Z) : Prop :=
  match b with
  | BNone => ∃ r, l !! Z.to_nat pos = Some r ∧ p_flags r = 0
  | BMem64 _ _ _ => l !! Z.to_nat pos = bar_res b ∧ ∃ r, l !! Z.to_nat (pos + 1) = Some r ∧ p_flags r = 0
  | _ => l !! Z.to_nat pos = bar_res b
  end.
(** Only registers of the region change. *)
Definition within s s' (lo hi : Z) : Prop := dev s' = dev s ∧ ∀ reg, reg mod 4 = 0 → ¬ (PCI_BASE_ADDRESS_0 + 4 * lo ≤ reg < PCI_BASE_ADDRESS_0 + 4 * hi) → rd s' reg = rd s reg.

Lemma flags_bits low : low ∈ [0; 2; 8; 10; 4; 12; 1] → let f := Z.lor low (pci_calc_resource_flags low) in
  f ≠ 0 ∧ Z.land f IORESOURCE_PCI_FIXED = 0 ∧ Z.land f PCI_REGION_FLAG_MASK = low ∧ Z.ldiff f IORESOURCE_UNSET = f.
Proof. rewrite !elem_of_cons, elem_of_nil. intros [->|[->|[->|[->|[->|[->|[->|[]]]]]]]]; vm_compute; (split; [discriminate|done]). Qed.
Lemma same_put s pos r : resources (dev s) !! Z.to_nat pos = Some r → put_res s pos r = s.
Proof. intros E. destruct s as [c d]. unfold put_res. cbn [cfg dev] in *. f_equal. destruct d. cbn in *. unfold with_resources. cbn. by rewrite list_insert_id. Qed.
Lemma upper_range k : 0 ≤ k ≤ 32 → 0 ≤ upper k < 2 ^ 32.
Proof. intros Hk. unfold upper. pose proof (Z.pow_le_mono_r 2 k 32). pose proof (Z.pow_pos_nonneg 2 k). lia. Qed.

(** A resource whose register is there *)
Lemma update_ok s pos k base low : 0 ≤ pos < 6 → low ∈ [0; 2; 8; 10; 4; 12; 1] → 0 ≤ k ≤ 31 → 0 ≤ low < 2 ^ k → base mod 2 ^ k = 0 → 0 ≤ base < 2 ^ 32 →
  resources (dev s) !! Z.to_nat pos = Some (PRes base (base + (2 ^ k - 1)) (Z.lor low (pci_calc_resource_flags low))) →
  wm s (PCI_BASE_ADDRESS_0 + 4 * pos) = upper k → Z.ldiff (rd s (PCI_BASE_ADDRESS_0 + 4 * pos)) (upper k) = low →
  let reg := PCI_BASE_ADDRESS_0 + 4 * pos in
  pci_update_resource pos s = Done (tt, if Z.land (base + low) 7 =? 4 then wr (wr s reg (base + low)) (reg + 4) 0 else wr s reg (base + low)) ∧
  rd (wr s reg (base + low)) reg = base + low.
Proof.
  intros Hp Hlow Hk Hl Hm Hb Er Ew Ef reg. pose proof (bar_reg_at pos Hp) as Hreg. fold reg in Hreg, Ew, Ef. pose proof Hreg as [_ Hmod].
  destruct (probe_value k base low Hk Hm Hb Hl) as (_ & Hlt & El & Edf). destruct (flags_bits low Hlow) as (Hf0 & Hfx & Hfm & Hfu).
  assert (Hor : Z.lor base low = base + low) by (rewrite <- (Z.lor_ldiff_and (base + low) (upper k)), El, Edf; apply Z.lor_comm). split.
  - unfold pci_update_resource. rewrite (run_bind _ _ _ _ _ (res_at_run s pos _ ltac:(lia) Er)). cbn [p_flags p_start p_end].
    destruct (Z.eqb_spec (Z.lor low (pci_calc_resource_flags low)) 0); [done|]. rewrite Hfx. cbn [negb Z.eqb]. cbv zeta. rewrite Hfm, u32_small, Hor, Hfu by lia.
    rewrite (run_bind _ _ s (rom_base_reg (dev s)) s eq_refl). destruct (Z.ltb_spec pos 6); [|lia]. fold reg.
    rewrite (run_bind _ _ _ _ _ (write_dword_run s reg (base + low) Hmod ltac:(lia))), (run_bind _ _ _ _ _ (read_dword_run _ reg Hmod)).
    assert (Hmod4 : (reg + 4) mod 4 = 0) by (revert Hmod; clear; Z.div_mod_to_equations; lia).
    assert (Hdone : ∀ s', dev s' = dev s → set_res pos (PRes base (base + (2 ^ k - 1)) (Z.lor low (pci_calc_resource_flags low))) s' = Done (tt, s')).
    { intros s' Ed. rewrite <- Ed in Er. rewrite (set_res_run s' pos _ _ ltac:(lia) Er). by rewrite same_put. }
    destruct (Z.land (base + low) 7 =? 4).
    + assert (E4 : ∀ s', (pci_write_config_dword (reg + 4) 0 ;; _ ← pci_read_config_dword (reg + 4); mret tt) s' = Done (tt, wr s' (reg + 4) 0)).
      { intros s'. by rewrite (run_bind _ _ _ _ _ (write_dword_run s' (reg + 4) 0 Hmod4 ltac:(lia))), (run_bind _ _ _ _ _ (read_dword_run _ (reg + 4) Hmod4)). }
      rewrite (run_bind _ _ _ _ _ (E4 _)). by apply Hdone.
    + rewrite (run_bind _ _ (wr s reg (base + low)) tt _ eq_refl). by apply Hdone.
  - rewrite rd_wr, Ew, Ef, El by (done || lia). exact Hor.
Qed.
Lemma update_skip s pos r : 0 ≤ pos → resources (dev s) !! Z.to_nat pos = Some r → p_flags r = 0 → pci_update_resource pos s = Done (tt, s).
Proof. intros Hp Er E0. unfold pci_update_resource. by rewrite (run_bind _ _ _ _ _ (res_at_run s pos r Hp Er)), E0. Qed.
Lemma within_refl s lo hi : within s s lo hi.
Proof. done. Qed.
Lemma within_wr s pos v lo hi : 0 ≤ pos < 6 → lo ≤ pos < hi → within s (wr s (PCI_BASE_ADDRESS_0 + 4 * pos) v) lo hi.
Proof. intros Hp Hr. split; [done|]. intros reg Hreg Hout. apply rd_wr_other; [by apply bar_reg_at|done|lia]. Qed.
Lemma within_trans s s1 s2 lo mid hi : lo ≤ mid ≤ hi → within s s1 lo mid → within s1 s2 mid hi → within s s2 lo hi.
Proof. intros Hm [Ed Hr] [Ed' Hr']. split; [by rewrite Ed'|]. intros reg Hreg Hout. rewrite Hr', Hr; (done || lia). Qed.

Lemma restore_bar_ok s b pos : 0 ≤ pos → pos + width b ≤ 6 → bar_ok b → bar_fixed s b (PCI_BASE_ADDRESS_0 + 4 * pos) → bar_in (resources (dev s)) b pos →
  ∃ s', restore_loop (Z.to_nat (width b)) pos s = Done (tt, s') ∧ bar_at s' b (PCI_BASE_ADDRESS_0 + 4 * pos) ∧ within s s' pos (pos + width b).
Proof.
  intros Hp Hw Hok Hf Hin. set (reg := PCI_BASE_ADDRESS_0 + 4 * pos) in *.
  assert (H7 : ∀ k base low, 4 ≤ k → base mod 2 ^ k = 0 → 0 ≤ low < 16 → Z.land (base + low) 7 = low mod 8).
  { intros k base low Hk Hm Hl. change 7 with (2 ^ 3 - 1). rewrite land_pow2 by lia. change (2 ^ 3) with 8. pose proof (base_mod k base 3 ltac:(lia) Hm) as H8.
    change (2 ^ 3) with 8 in H8. revert H8. clear. Z.div_mod_to_equations. lia. }
  destruct b as [|k base low|k base|k base low]; cbn [width bar_ok bar_fixed bar_in bar_res bar_at] in *.
  - destruct Hin as (r & Er & E0). exists s. change (Z.to_nat 1) with 1%nat. cbn [restore_loop]. by rewrite (run_bind _ _ _ _ _ (update_skip s pos r Hp Er E0)).
  - destruct Hok as [(Hk & Hm & Hb) Hl], Hf as [Ew Ef]. assert (Hl16 : 0 ≤ low < 16 ∧ low mod 8 ≠ 4) by (rewrite !elem_of_cons, elem_of_nil in Hl; destruct Hl as [->|[->|[->|[->|[]]]]]; done).
    pose proof (Z.pow_le_mono_r 2 4 k ltac:(lia) ltac:(lia)).
    destruct (update_ok s pos k base low ltac:(lia) ltac:(set_solver) ltac:(lia) ltac:(lia) Hm Hb Hin Ew Ef) as [E Er].
    rewrite (H7 k base low) in E by (done || lia). destruct (Z.eqb_spec (low mod 8) 4); [lia|]. exists (wr s reg (base + low)).
    change (Z.to_nat 1) with 1%nat. cbn [restore_loop]. rewrite (run_bind _ _ _ _ _ E). split; [done|]. split; [done|]. apply within_wr; lia.
  - destruct Hok as (Hk & Hm & Hb), Hf as [Ew Ef]. pose proof (Z.pow_le_mono_r 2 2 k ltac:(lia) ltac:(lia)).
    destruct (update_ok s pos k base 1 ltac:(lia) ltac:(set_solver) ltac:(lia) ltac:(lia) Hm Hb Hin Ew Ef) as [E Er].
    assert (E7 : (Z.land (base + 1) 7 =? 4) = false).
    { change 7 with (2 ^ 3 - 1). rewrite land_pow2 by lia. change (2 ^ 3) with 8. pose proof (base_mod k base 1 ltac:(lia) Hm) as H8.
      change (2 ^ 1) with 2 in H8. apply Z.eqb_neq. revert H8. clear. Z.div_mod_to_equations. lia. }
    rewrite E7 in E. exists (wr s reg (base + 1)). change (Z.to_nat 1) with 1%nat. cbn [restore_loop]. rewrite (run_bind _ _ _ _ _ E).
    split; [done|]. split; [done|]. apply within_wr; lia.
  - destruct Hok as [(Hk & Hm & Hb) Hl], Hf as (Ew & Ef & Eh), Hin as [Hin (r & Er & E0)].
    assert (Hl16 : 0 ≤ low < 16 ∧ low mod 8 = 4) by (rewrite !elem_of_cons, elem_of_nil in Hl; destruct Hl as [->|[->|[]]]; done).
    pose proof (Z.pow_le_mono_r 2 4 k ltac:(lia) ltac:(lia)).
    destruct (update_ok s pos k base low ltac:(lia) ltac:(set_solver) ltac:(lia) ltac:(lia) Hm Hb Hin Ew Ef) as [E Ev].
    rewrite (H7 k base low) in E by (done || lia). rewrite (proj2 Hl16) in E. cbn [Z.eqb Pos.eqb] in E.
    exists (wr (wr s reg (base + low)) (reg + 4) 0). change (Z.to_nat 2) with 2%nat. cbn [restore_loop].
    rewrite (run_bind _ _ _ _ _ E), (run_bind _ _ _ _ _ (update_skip (wr (wr s reg (base + low)) (reg + 4) 0) (pos + 1) r ltac:(lia) Er E0)). split; [done|].
    assert (Er4 : reg + 4 = PCI_BASE_ADDRESS_0 + 4 * (pos + 1)) by (subst reg; lia). pose proof (bar_reg_at (pos + 1) ltac:(lia)) as Hr4. rewrite <- Er4 in Hr4.
    pose proof (bar_reg_at pos ltac:(lia)) as [_ Hmod]. fold reg in Hmod. split.
    + split; [done|]. split; [rewrite rd_wr_other; (done || lia)|]. split; [done|]. rewrite rd_wr by (done || lia).
      replace (wm (wr s reg (base + low)) (reg + 4)) with (2 ^ 32 - 1) by (symmetry; exact Eh). rewrite rd_wr_other by (apply Hr4 || (by apply bar_reg_at; lia) || lia).
      change (Z.land 0 (2 ^ 32 - 1)) with 0. rewrite Z.lor_0_l. change (2 ^ 32 - 1) with (Z.ones 32). apply Z.ldiff_ones_r_low; [apply rd_range|].
      destruct (decide (rd s (reg + 4) = 0)) as [->|]; [done|]. apply Z.log2_lt_pow2; pose proof (rd_range s (reg + 4)); lia.
    + apply (within_trans s (wr s reg (base + low)) _ pos (pos + 1)); [lia|apply within_wr; lia|]. rewrite Er4. apply within_wr; lia.
Qed.

Fixpoint bars_fixed s (pos : Z) (bs : list bar) : Prop :=
  match bs with [] => True | b :: bs => bar_ok b ∧ bar_fixed s b (PCI_BASE_ADDRESS_0 + 4 * pos) ∧ bars_fixed s (pos + width b) bs end.
Fixpoint bars_in (l : list pres) (pos : Z) (bs : list bar) : Prop :=
  match bs with [] => True | b :: bs => bar_in l b pos ∧ bars_in l (pos + width b) bs end.

Lemma fill_below bs pos l i : 0 ≤ pos → (i < Z.to_nat pos)%nat → fill pos bs l !! i = l !! i.
Proof.
  revert pos l. induction bs as [|b bs IH]; intros pos l Hp Hi; [done|]. cbn [fill]. pose proof (width_pos b). rewrite IH by lia.
  destruct (bar_res b); [by rewrite list_lookup_insert_ne by lia|done].
Qed.
Lemma fill_in bs pos l : 0 ≤ pos → pos + bars_width bs ≤ 6 → length l = 12%nat → (∀ i r, pos ≤ i → l !! Z.to_nat i = Some r → p_flags r = 0) → bars_in (fill pos bs l) pos bs.
Proof.
  revert pos l. induction bs as [|b bs IH]; intros pos l Hp Hw Hl Hz; [done|]. cbn [fill bars_in bars_width] in *. pose proof (width_pos b). pose proof (bars_width_pos bs).
  set (l' := match bar_res b with Some r => <[Z.to_nat pos := r]> l | None => l end).
  assert (Hl' : length l' = 12%nat) by (subst l'; destruct (bar_res b); [by rewrite length_insert|done]).
  assert (Hne : ∀ i, (i ≠ Z.to_nat pos) → l' !! i = l !! i) by (intros i Hi; subst l'; destruct (bar_res b); [by rewrite list_lookup_insert_ne|done]).
  assert (Hsome : ∀ i, 0 ≤ i < 12 → pos ≤ i → ∃ r, l !! Z.to_nat i = Some r ∧ p_flags r = 0).
  { intros i Hi Hge. destruct (lookup_lt_is_Some_2 l (Z.to_nat i)) as [r Er]; [lia|]. exists r. split; [done|]. by apply (Hz i). }
  split.
  - destruct b; cbn [bar_in bar_res width] in *; rewrite ?fill_below by lia; subst l'; rewrite ?list_lookup_insert_eq by lia; try done.
    + apply Hsome; lia.
    + split; [done|]. assert (Hn1 : ∃ r, l !! Z.to_nat (pos + 1) = Some r ∧ p_flags r = 0) by (apply Hsome; lia).
      by rewrite list_lookup_insert_ne by lia.
  - apply IH; [lia|lia|done|]. intros i r Hi. rewrite Hne by lia. apply Hz. lia.
Qed.
Lemma fill_above bs pos l i : 0 ≤ pos → (Z.to_nat (pos + bars_width bs) ≤ i)%nat → fill pos bs l !! i = l !! i.
Proof.
  revert pos l. induction bs as [|b bs IH]; intros pos l Hp Hi; [done|]. cbn [fill bars_width] in *. pose proof (width_pos b). pose proof (bars_width_pos bs).
  rewrite IH by lia. destruct (bar_res b); [by rewrite list_lookup_insert_ne by lia|done].
Qed.
Lemma fill_length bs pos l : length (fill pos bs l) = length l.
Proof. revert pos l. induction bs as [|b bs IH]; intros pos l; [done|]. cbn [fill]. rewrite IH. destruct (bar_res b); [apply length_insert|done]. Qed.
Lemma bars_length bs : (length bs ≤ Z.to_nat (bars_width bs))%nat.
Proof. induction bs as [|b bs IH]; cbn [length bars_width]; [lia|]. pose proof (width_pos b). pose proof (bars_width_pos bs). lia. Qed.
Lemma bars_in_rom bs pos l r : 0 ≤ pos → pos + bars_width bs ≤ 6 → bars_in l pos bs → bars_in (<[6%nat := r]> l) pos bs.
Proof.
  revert pos. induction bs as [|b bs IH]; intros pos Hp Hw; [done|]. cbn [bars_in bars_width] in *. pose proof (width_pos b). pose proof (bars_width_pos bs).
  intros [Hb Hbs]. split; [|apply IH; (done || lia)]. destruct b; cbn [bar_in width] in *; rewrite ?list_lookup_insert_ne by lia; done.
Qed.
Lemma restore_loop_app n m i s : restore_loop (n + m) i s = (restore_loop n i ;; restore_loop m (i + Z.of_nat n)) s.
Proof.
  revert i s. induction n as [|n IH]; intros i s; cbn [Nat.add restore_loop].
  - rewrite (run_bind _ _ s tt s eq_refl). f_equal. lia.
  - unfold mbind, M_bind in *. destruct (pci_update_resource i s) as [[[] s1]|]; [|done]. rewrite IH. destruct (restore_loop n (i + 1) s1) as [[[] s2]|]; [|done].
    by replace (i + 1 + Z.of_nat n) with (i + Z.of_nat (S n)) by lia.
Qed.
Lemma bars_fixed_ext s s1 lo hi q bs : within s s1 lo hi → hi ≤ q → 0 ≤ q → q + bars_width bs ≤ 6 → bars_fixed s q bs → bars_fixed s1 q bs.
Proof.
  intros [Ed Hr]. revert q. induction bs as [|c bs IH]; intros q Hge Hq Hw; [done|]. cbn [bars_fixed bars_width] in *.
  pose proof (width_pos c). pose proof (bars_width_pos bs). intros (Hok & Hf & Hrest). split; [done|]. split; [|apply IH; (done || lia)].
  pose proof (bar_reg_at q ltac:(lia)) as [_ Hm]. assert (Hwm : ∀ reg, wm s1 reg = wm s reg) by (intros; by apply wm_dev).
  destruct c; cbn [bar_fixed] in *; rewrite !Hwm, !Hr by (done || lia); done.
Qed.
Lemma restore_ok s pos bs : 0 ≤ pos → pos + bars_width bs ≤ 6 → bars_fixed s pos bs → bars_in (resources (dev s)) pos bs →
  ∃ s', restore_loop (Z.to_nat (bars_width bs)) pos s = Done (tt, s') ∧ bars_at s' pos bs ∧ within s s' pos (pos + bars_width bs).
Proof.
  revert s pos. induction bs as [|b bs IH]; intros s pos Hp Hw Hf Hin; [by exists s|]. cbn [bars_fixed bars_in bars_at bars_width] in *.
  destruct Hf as (Hok & Hf & Hfs), Hin as [Hin Hins]. pose proof (width_pos b). pose proof (bars_width_pos bs).
  destruct (restore_bar_ok s b pos Hp ltac:(lia) Hok Hf Hin) as (s1 & E1 & Hat & Hwi).
  pose proof (bars_fixed_ext s s1 _ _ (pos + width b) bs Hwi ltac:(lia) ltac:(lia) ltac:(lia) Hfs) as Hfs1.
  destruct (IH s1 (pos + width b) ltac:(lia) ltac:(lia) Hfs1) as (s' & E2 & Hats & Hwi2); [rewrite (proj1 Hwi); done|].
  exists s'. replace (Z.to_nat (width b + bars_width bs)) with (Z.to_nat (width b) + Z.to_nat (bars_width bs))%nat by lia.
  rewrite restore_loop_app, (run_bind _ _ _ _ _ E1), Z2Nat.id by lia. split; [done|]. split.
  - split; [done|]. split; [|done]. destruct Hwi2 as [Ed Hr]. assert (Hwm : ∀ reg, wm s' reg = wm s1 reg) by (intros; by apply wm_dev).
    pose proof (bar_reg_at pos ltac:(lia)) as [_ Hm]. assert (Hm4 : (PCI_BASE_ADDRESS_0 + 4 * pos + 4) mod 4 = 0) by (revert Hm; clear; Z.div_mod_to_equations; lia).
    destruct b; cbn [bar_at width] in *; rewrite !Hwm, !Hr by (done || lia); done.
  - replace (pos + (width b + bars_width bs)) with (pos + width b + bars_width bs) by lia. eapply within_trans; [|done|done]. lia.
Qed.
Lemma bars_at_rd s s' pos bs i : bars_at s pos bs → bars_at s' pos bs → pos ≤ i < pos + bars_width bs → rd s' (PCI_BASE_ADDRESS_0 + 4 * i) = rd s (PCI_BASE_ADDRESS_0 + 4 * i).
Proof.
  revert pos. induction bs as [|b bs IH]; intros pos; cbn [bars_at bars_width]; [lia|]. intros (_ & Ha & Hr) (_ & Ha' & Hr') Hi.
  destruct (Z.lt_ge_cases i (pos + width b)) as [Hlt|Hge]; [|apply (IH (pos + width b)); (done || lia)].
  assert (Hc : i = pos ∨ i = pos + 1 ∧ width b = 2) by (pose proof (width_pos b); lia). destruct Hc as [->|[-> Hw]].
  - destruct b; cbn [bar_at] in *; naive_solver congruence.
  - replace (PCI_BASE_ADDRESS_0 + 4 * (pos + 1)) with (PCI_BASE_ADDRESS_0 + 4 * pos + 4) by lia. destruct b; cbn [bar_at width] in *; lia.
Qed.
(** ** The expansion ROM *)

(** What the expansion ROM register is for: nothing, or a ROM of size 2^k at [base], enabled or not *)
Inductive romreg := RomNone | Rom (k base en : Z).
Definition rom_at s (rom : Z) (q : romreg) : Prop :=
  match q with
  | RomNone => rom = 0 ∨ (rom = 48 ∨ rom = 56) ∧ wm s rom = 0 ∧ rd s rom = 0
  | Rom k base en => (rom = 48 ∨ rom = 56) ∧ region_ok 11 31 k base ∧ 0 ≤ en ≤ 1 ∧ wm s rom = upper k + 1 ∧ rd s rom = base + en
  end.
(** The resource of the ROM afterwards; it was [r0] *)
Definition rom_res (q : romreg) (r0 : pres) : pres :=
  match q with
  | RomNone => r0
  | Rom k base en => PRes base (base + (2 ^ k - 1))
      (Z.lor en (IORESOURCE_MEM + IORESOURCE_PREFETCH + IORESOURCE_READONLY + IORESOURCE_CACHEABLE))
  end.
(** What [read_rom] makes of the register's value and of what the probe reads *)
Definition rom_found (l sz : Z) (r0 : pres) : pres :=
  let l := if l =? 2 ^ 32 - 1 then 0 else l in
  if negb (sz =? 0) && negb (sz =? 2 ^ 32 - 1) then
    let sz := pci_size l sz PCI_ROM_ADDRESS_MASK in
    if sz =? 0 then r0 else
    let start := Z.land l PCI_ROM_ADDRESS_MASK in
    PRes start (u64 (start + sz))
      (Z.lor (Z.land l IORESOURCE_ROM_ENABLE) (IORESOURCE_MEM + IORESOURCE_PREFETCH + IORESOURCE_READONLY + IORESOURCE_CACHEABLE))
  else r0.
Definition rom_probed s (rom : Z) : Z := Z.lor (Z.land (2 ^ 32 - 2) (wm s rom)) (Z.ldiff (rd s rom) (wm s rom)).

Lemma sizes_rom : forallb (λ k, size_right PCI_ROM_ADDRESS_MASK 0 (Z.of_nat k)) (seq 11 21) = true.
Proof. vm_compute. reflexivity. Qed.
Lemma size_rom k l : 11 ≤ k ≤ 31 → pci_size l (upper k) PCI_ROM_ADDRESS_MASK = 2 ^ k - 1.
Proof.
  intros Hk. rewrite <- (Z.add_0_r (upper k)). apply size_right_ok. pose proof sizes_rom as Hs. rewrite forallb_forall in Hs.
  specialize (Hs (Z.to_nat k)). rewrite Z2Nat.id in Hs by lia. apply Hs. apply in_seq. lia.
Qed.
Lemma upper_ones : forallb (λ k, Z.land (2 ^ 32 - 2) (upper (Z.of_nat k) + 1) =? upper (Z.of_nat k)) (seq 11 21) = true.
Proof. vm_compute. reflexivity. Qed.
Lemma rom_probe k base en : 11 ≤ k ≤ 31 → base mod 2 ^ k = 0 → 0 ≤ base < 2 ^ 32 → 0 ≤ en ≤ 1 →
  Z.lor (Z.land (2 ^ 32 - 2) (upper k + 1)) (Z.ldiff (base + en) (upper k + 1)) = upper k.
Proof.
  intros Hk Hm Hb Hen. assert (2 ^ 11 ≤ 2 ^ k) by (apply Z.pow_le_mono_r; lia).
  destruct (probe_value k base en ltac:(lia) Hm Hb ltac:(lia)) as (_ & _ & _ & Ed).
  pose proof upper_ones as Ho. rewrite forallb_forall in Ho. specialize (Ho (Z.to_nat k) ltac:(apply in_seq; lia)).
  rewrite Z2Nat.id in Ho by lia. apply Z.eqb_eq in Ho. rewrite Ho, <- (upper_lor k 1), <- Z.ldiff_ldiff_l, Ed by lia.
  assert (en = 0 ∨ en = 1) as [-> | ->] by lia; apply Z.lor_0_r.
Qed.

Lemma read_rom_ok s rom r0 : rom = 48 ∨ rom = 56 → resources (dev s) !! 6%nat = Some r0 →
  ∃ s', read_rom rom s = Done (tt, s') ∧ (∀ reg, reg mod 4 = 0 → rd s' reg = rd s reg) ∧
    resources (dev s') = <[6%nat := rom_found (rd s rom) (rom_probed s rom) r0]> (resources (dev s)) ∧ hdr_type (dev s') = hdr_type (dev s).
Proof.
  intros Hrom Er. assert (Hb : bar_reg rom) by (unfold bar_reg; destruct Hrom as [->| ->]; (split; [lia|done])).
  set (s1 := Pst (cfg s) (with_rom_base_reg (u8 rom) (dev s))). change (resources (dev s1) !! Z.to_nat 6 = Some r0) in Er.
  destruct (probe_ok s1 rom (2 ^ 32 - 2) Hb ltac:(lia)) as (s2 & E & Ed & Hr). unfold read_rom. rewrite (run_bind (on_dev (with_rom_base_reg (u8 rom))) _ s tt s1 eq_refl), (run_bind _ _ _ _ _ (res_at_run s1 6 r0 ltac:(lia) Er)), (run_bind _ _ _ _ _ E).
  change (rd s1 rom) with (rd s rom). change (wm s1 rom) with (wm s rom). fold (rom_probed s rom). unfold rom_found. cbv zeta.
  assert (Hskip : ∃ s', Done (tt, s2) = Done (tt, s') ∧ (∀ reg, reg mod 4 = 0 → rd s' reg = rd s reg) ∧ resources (dev s') = <[6%nat := r0]> (resources (dev s)) ∧ hdr_type (dev s') = hdr_type (dev s)).
  { exists s2. split; [done|]. rewrite Ed. split; [intros; by rewrite Hr|]. split; [|done]. cbn. by rewrite list_insert_id. }
  destruct (_ && _); [|exact Hskip]. destruct (pci_size _ _ _ =? 0); [exact Hskip|].
  rewrite <- Ed in Er. rewrite (set_res_run s2 6 r0 _ ltac:(lia) Er). eexists. split; [done|]. cbn [put_res dev cfg resources with_resources hdr_type].
  split; [intros reg Hreg; exact (Hr reg Hreg)|]. by rewrite Ed.
Qed.

Lemma rom_found_ok s rom q r0 : rom ≠ 0 → rom_at s rom q → rom_found (rd s rom) (rom_probed s rom) r0 = rom_res q r0.
Proof.
  intros Hne. unfold rom_found, rom_probed. destruct q as [|k base en]; cbn [rom_at rom_res].
  - intros [|(_ & -> & ->)]; [done|reflexivity].
  - intros (_ & (Hk & Hm & Hb) & Hen & -> & ->).
    assert (Hk11 : 2 ^ 11 ≤ 2 ^ k ≤ 2 ^ 31) by (split; apply Z.pow_le_mono_r; lia).
    rewrite rom_probe by done. destruct (probe_value 11 base en ltac:(lia) ltac:(apply (base_mod k base 11); [lia|done]) Hb ltac:(lia)) as (_ & Hlt & El & _).
    assert (H4 : base mod 4 = 0) by (apply (base_mod k base 2); [lia|done]).
    assert (Eff : (base + en =? 2 ^ 32 - 1) = false) by (apply Z.eqb_neq; intros E; revert E H4 Hen; clear; Z.div_mod_to_equations; lia).
    rewrite Eff. cbv zeta. destruct (Z.eqb_spec (upper k) 0); [unfold upper in *; lia|].
    destruct (Z.eqb_spec (upper k) (2 ^ 32 - 1)); [unfold upper in *; lia|]. cbn [negb andb].
    rewrite size_rom by done. destruct (Z.eqb_spec (2 ^ k - 1) 0); [lia|]. change PCI_ROM_ADDRESS_MASK with (upper 11). rewrite El.
    f_equal; [apply wrap_small; lia|]. f_equal. change IORESOURCE_ROM_ENABLE with (2 ^ 1 - 1). rewrite land_pow2 by lia.
    change (2 ^ 1) with 2. revert H4 Hen. clear. Z.div_mod_to_equations. lia.
Qed.

Lemma probed_ok s bs rom : bars_at s 0 bs → bars_width bs ≤ 6 → rom = 0 ∨ rom = 48 ∨ rom = 56 →
  length (resources (dev s)) = 12%nat → (∀ i r, resources (dev s) !! i = Some r → p_flags r = 0) →
  ∃ s', pci_read_bases (bars_width bs) rom s = Done (tt, s') ∧ bars_in (resources (dev s')) 0 bs ∧ hdr_type (dev s') = hdr_type (dev s) ∧
    (∀ reg, reg mod 4 = 0 → rd s' reg = rd s reg) ∧
    ∀ q, rom_at s rom q → resources (dev s') !! 6%nat = rom_res q <$> resources (dev s) !! 6%nat.
Proof.
  intros Hat Hw Hrom Hl Hz. pose proof (bars_width_pos bs). unfold pci_read_bases.
  destruct (bases_loop_ok (Z.to_nat (bars_width bs)) s 0 bs ltac:(lia) ltac:(lia) (bars_length bs) Hat Hl) as (s1 & E & Ed & Hr); [intros i r _; apply Hz|].
  rewrite Z.add_0_l in E. rewrite (run_bind _ _ _ _ _ E). pose proof (fill_in bs 0 (resources (dev s)) ltac:(lia) ltac:(lia) Hl ltac:(intros i r _; apply Hz)) as Hin.
  destruct (lookup_lt_is_Some_2 (resources (dev s)) 6%nat) as [r0 Er]; [lia|].
  assert (Er1 : resources (dev s1) !! 6%nat = Some r0) by (rewrite Ed; cbn [resources with_resources]; rewrite fill_above by lia; exact Er).
  destruct (Z.eqb_spec rom 0) as [->|Hne].
  - exists s1. split; [done|]. rewrite Ed. split; [done|]. split; [done|]. split; [done|]. intros q Hq. rewrite <- Ed, Er1, Er.
    by destruct q; [|destruct Hq as [[|] _]].
  - destruct Hrom as [->|Hrom]; [done|].
    destruct (read_rom_ok s1 rom r0 Hrom Er1) as (s' & E2 & Hr' & Hres & Hh). exists s'. split; [done|]. split; [|split; [by rewrite Hh, Ed|split]].
    + rewrite Hres, Ed. apply bars_in_rom; [lia|lia|done].
    + intros reg Hreg. by rewrite Hr', Hr.
    + intros q Hq. rewrite Hres, Er, list_lookup_insert_eq by (apply lookup_lt_Some in Er1; lia). cbn. f_equal.
      assert (Hm : rom mod 4 = 0) by (by destruct Hrom as [->| ->]). rewrite <- (rom_found_ok s rom q r0 Hne Hq). f_equal; [by apply Hr|].
      unfold rom_probed. rewrite Hr by done. replace (wm s1 rom) with (wm s rom); [done|]. unfold wm. by rewrite Ed.
Qed.

(** C28: the sizes and types of the regions of a device are found out without a lasting change of its
    registers.  Each base address register is unused, or stands for memory of up to 2 GB, for I/O ports, or,
    as a pair of registers, for memory of up to 2 GB with a 64-bit address below 4 GB (the upper register
    is 0 and can hold any value); the expansion ROM register is unused or stands for a ROM of up to 2 GB.
    Then after [pci_read_bases] the resources describe exactly these regions, the ROM's resource is untouched
    if there is none, and every register reads as before. *)
Theorem pci_bases_probed s bs rom q : bars_at s 0 bs → bars_width bs ≤ 6 → rom_at s rom q →
  length (resources (dev s)) = 12%nat → (∀ i r, resources (dev s) !! i = Some r → p_flags r = 0) →
  ∃ s', pci_read_bases (bars_width bs) rom s = Done (tt, s') ∧ bars_in (resources (dev s')) 0 bs ∧
    resources (dev s') !! 6%nat = rom_res q <$> resources (dev s) !! 6%nat ∧
    hdr_type (dev s') = hdr_type (dev s) ∧ ∀ reg, reg mod 4 = 0 → rd s' reg = rd s reg.
Proof.
  intros Hat Hw Hq Hl Hz.
  assert (Hrom : rom = 0 ∨ rom = 48 ∨ rom = 56) by (destruct q; cbn [rom_at] in Hq; naive_solver).
  destruct (probed_ok s bs rom Hat Hw Hrom Hl Hz) as (s' & ? & ? & ? & ? & H6). exists s'. eauto 10.
Qed.

(** A device that lost the contents of its base address registers gets them back: if the resources are
    those that [pci_read_bases] found and the fixed bits of the registers are the same, then after
    [pci_restore_bars] each register reads as it did when the device was probed, and no other register
    has changed. *)
Theorem pci_bars_restored s s1 s2 bs rom : bars_at s 0 bs → bars_width bs = 6 → rom = 0 ∨ rom = 48 ∨ rom = 56 → hdr_type (dev s) = 0 →
  length (resources (dev s)) = 12%nat → (∀ i r, resources (dev s) !! i = Some r → p_flags r = 0) →
  pci_read_bases 6 rom s = Done (tt, s1) → dev s2 = dev s1 → bars_fixed s2 0 bs →
  ∃ s3, pci_restore_bars s2 = Done (tt, s3) ∧ (∀ i, 0 ≤ i < 6 → rd s3 (PCI_BASE_ADDRESS_0 + 4 * i) = rd s (PCI_BASE_ADDRESS_0 + 4 * i)) ∧
    ∀ reg, reg mod 4 = 0 → ¬ (16 ≤ reg < 40) → rd s3 reg = rd s2 reg.
Proof.
  intros Hat Hw Hrom Hh Hl Hz E1 Ed Hf. destruct (probed_ok s bs rom Hat ltac:(lia) Hrom Hl Hz) as (s1' & E & Hin & Hh' & _). rewrite Hw, E1 in E. simplify_eq.
  rewrite <- Ed in Hin, Hh'. destruct (restore_ok s2 0 bs ltac:(lia) ltac:(lia) Hf Hin) as (s3 & E3 & Hat3 & Hwi). rewrite Hw in E3. exists s3. split.
  - unfold pci_restore_bars. rewrite (run_bind _ _ s2 (hdr_type (dev s2)) s2 eq_refl), Hh', Hh. exact E3.
  - split; [intros i Hi; apply (bars_at_rd s s3 0 bs); (done || lia)|]. intros reg Hr Hout. apply (proj2 Hwi); [done|]. unfold PCI_BASE_ADDRESS_0. lia.
Qed.
End Bars.

(** ** A device *)

Definition demo_mask (k : Z * Z * Z * Z) : Z :=
  let '(_, _, _, reg) := k in if reg =? 48 then upper 16 + 1 else if reg =? 16 then upper 12 else if reg =? 20 then upper 5 else if reg =? 24 then upper 16 else if reg =? 28 then 2 ^ 32 - 1 else 0.
Definition demo_cfg (a b c d : Z) : cfg_words demo_mask := <[(0, 0, 0, 16) := a]> (<[(0, 0, 0, 20) := b]> (<[(0, 0, 0, 24) := c]> (<[(0, 0, 0, 28) := d]> (<[(0, 0, 0, 48) := 4272947200 + 1]> ∅)))).
Definition demo_dev : pci_dev := PciDev 0 0 0 (replicate 12 (PRes 0 0 0)) 0 PCI_UNKNOWN 0 false false false 256 [] [].
Definition demo : pst (cfg_words demo_mask) := Pst (demo_cfg (4273930240 + 8) (49152 + 1) (3758096384 + 4) 0) demo_dev.
Definition demo_bars : list bar := [BMem 12 4273930240 8; BIo 5 49152; BMem64 16 3758096384 4; BNone; BNone].
Lemma demo_flags i r : resources demo_dev !! i = Some r → p_flags r = 0.
Proof. cbn [resources demo_dev]. intros [-> _]%lookup_replicate. done. Qed.
(** Facts about the registers of a device by computation *)
Ltac device_facts :=
  unfold bar_ok, region_ok; repeat match goal with |- _ ∧ _ => split end; clear; first [exact I|lia|(vm_compute; reflexivity)|set_solver].
Lemma demo_at : bars_at demo 0 demo_bars.
Proof.
  cbn [bars_at demo_bars]. unfold bar_at. device_facts.
Qed.
Lemma pci_bases_probed_witness :
  ∃ s', pci_read_bases (bars_width demo_bars) 48 demo = Done (tt, s') ∧
    take 3 (resources (dev s')) = [PRes 4273930240 4273934335 4616; PRes 49152 49183 257; PRes 3758096384 3758161919 516] ∧
    bars_in (resources (dev s')) 0 demo_bars ∧
    resources (dev s') !! 6%nat = rom_res (Rom 16 4272947200 1) <$> resources (dev demo) !! 6%nat.
Proof.
  destruct (pci_bases_probed demo demo_bars 48 (Rom 16 4272947200 1) demo_at ltac:(cbn; lia)) as (s' & E & Hin & H6 & _).
  - cbn [rom_at]. split; [by left|]. device_facts.
  - reflexivity.
  - exact demo_flags.
  - exists s'. split; [done|]. split; [|by split].
    assert (E' : match pci_read_bases (bars_width demo_bars) 48 demo with Done (_, s) => take 3 (resources (dev s)) | Fault _ => [] end =
      [PRes 4273930240 4273934335 4616; PRes 49152 49183 257; PRes 3758096384 3758161919 516]) by (vm_compute; reflexivity).
    by rewrite E in E'.
Defined.
Lemma pci_bars_restored_witness :
  ∃ s1 s3, pci_read_bases 6 48 demo = Done (tt, s1) ∧ pci_restore_bars (Pst (demo_cfg 8 1 4 7) (dev s1)) = Done (tt, s3) ∧ rd s3 24 = 3758096388.
Proof.
  destruct (probed_ok demo demo_bars 48 demo_at ltac:(cbn; lia) ltac:(lia) eq_refl demo_flags) as (s1 & E1 & _).
  assert (Hbus : bus_number (dev s1) = 0 ∧ devfn (dev s1) = 0).
  { assert (E' : match pci_read_bases 6 48 demo with Done (_, s) => (bus_number (dev s), devfn (dev s)) | Fault _ => (1, 1) end = (0, 0)) by (vm_compute; reflexivity).
    change (bars_width demo_bars) with 6 in E1. rewrite E1 in E'. exact (conj (f_equal fst E') (f_equal snd E')). }
  destruct (pci_bars_restored demo s1 (Pst (demo_cfg 8 1 4 7) (dev s1)) demo_bars 48 demo_at eq_refl ltac:(lia) eq_refl eq_refl demo_flags E1 eq_refl)
    as (s3 & E & Hr & _).
  - cbn [bars_fixed demo_bars width]. unfold bar_fixed, wm, rd. cbn [dev cfg]. rewrite (proj1 Hbus), (proj2 Hbus).
    device_facts.
  - exists s1, s3. split; [done|]. split; [done|]. specialize (Hr 2 ltac:(lia)). change (PCI_BASE_ADDRESS_0 + 4 * 2) with 24 in Hr. rewrite Hr. vm_compute. reflexivity.
Defined.

(** ** Regions of 8 GB *)

Definition big_mask (k : Z * Z * Z * Z) : Z := let '(_, _, _, reg) := k in if reg =? 20 then upper 1 else 0.
(** A 64-bit register of a region of 8 GB has no writable bit in its lower half: [pci_read_bases] takes
    the lower half for unused and the upper half for a register of its own, and reports 16 bytes of memory
    at the upper half of the address. *)
Theorem pci_splits_large_bar :
  match pci_read_bases 6 0 (Pst (<[(0, 0, 0, 16) := 4]> (<[(0, 0, 0, 20) := 64]> ∅) : cfg_words big_mask) demo_dev) with
  | Done (_, s) => take 2 (resources (dev s)) = [PRes 0 0 0; PRes 64 79 IORESOURCE_MEM]
  | Fault _ => False
  end.
Proof. vm_compute. reflexivity. Qed.
