(* ===== verification/PciCaps.v ===== *)
(** Capabilities of PCI devices, and what is saved of them.

    A capability list is a chain of pointers in the configuration space.  The
    search follows at most 48 of them, so that it ends for every content of the space; it
    gives the first capability with the id that is looked for. *)

From S2P Require Import Prelude Pci PciBars.

Section Caps.
Context {A : Type} {HK : KitPci A}.
Implicit Types s : pst A.

Definition rb s (pos : Z) : Z := kit_pci_read 1 (bus_number (dev s)) (PCI_SLOT (devfn (dev s))) (PCI_FUNC (devfn (dev s))) pos (cfg s).
Lemma rb_range s pos : 0 ≤ rb s pos < 256.
Proof. apply (kit_pci_read_range 1). lia. Qed.
Lemma read_byte_run s pos : pci_read_config_byte pos s = Done (rb s pos, s).
Proof.
  unfold pci_read_config_byte, value_of, pci_bus_read_config_byte, PCI_OP_READ. replace (PCI_BAD 1 pos) with false by (unfold PCI_BAD; by rewrite Z.land_0_r).
  unfold dde_linux26_pci_read. change (8 * 1) with 8. change ((1 =? 1) || (1 =? 2) || (1 =? 4)) with true. run_simpl. unfold get. cbn beta iota. cbn [snd].
  rewrite Z.ldiff_0_l, Z.lor_0_l. do 2 f_equal. apply wrap_small, rb_range.
Qed.
Lemma read_word_total s pos : pos mod 2 = 0 → ∃ v, 0 ≤ v < 65536 ∧ pci_read_config_word pos s = Done (v, s).
Proof.
  intros Hp. eexists. split; [|unfold pci_read_config_word, value_of, pci_bus_read_config_word, PCI_OP_READ; replace (PCI_BAD 2 pos) with false; [reflexivity|]].
  - apply (wrap_range 16). lia.
  - unfold PCI_BAD. change (2 - 1) with (2 ^ 1 - 1). rewrite land_pow2 by lia. change (2 ^ 1) with 2. by rewrite Hp.
Qed.

(** The list from the pointer at [at_] on: positions and ids.  It ends with a pointer
    into the header or with the id 255. *)
Fixpoint cap_list s (at_ : Z) (l : list (Z * Z)) : Prop :=
  match l with
  | [] => rb s at_ < 64 ∨ rb s (Z.ldiff (rb s at_) 3) = 255
  | (p, id) :: l => 64 ≤ rb s at_ ∧ p = Z.ldiff (rb s at_) 3 ∧ id = rb s p ∧ id ≠ 255 ∧ cap_list s (p + PCI_CAP_LIST_NEXT) l
  end.
Definition first_cap (cap : Z) (l : list (Z * Z)) : Z := match list_find (λ x, snd x = cap) l with Some (_, (p, _)) => p | None => 0 end.

Lemma cap_pos s at_ : 64 ≤ rb s at_ → 64 ≤ Z.ldiff (rb s at_) 3 ≤ 252.
Proof.
  intros Hge. pose proof (rb_range s at_). rewrite land_ldiff. change 3 with (2 ^ 2 - 1). rewrite land_pow2 by lia. change (2 ^ 2) with 4.
  Z.div_mod_to_equations. lia.
Qed.
Lemma cap_ttl_ok ttl s at_ cap l : cap_list s at_ l →
  ∃ n, __pci_find_next_cap_ttl ttl at_ cap s = Done ((first_cap cap (take ttl l), n), s).
Proof.
  revert at_ l. induction ttl as [|ttl IH]; intros at_ l Hl; [by exists 0%nat|]. cbn [__pci_find_next_cap_ttl].
  rewrite (run_bind _ _ _ _ _ (read_byte_run s at_)). destruct l as [|[p id] l]; cbn [cap_list take] in *.
  - destruct (Z.ltb_spec (rb s at_) 64); [by eexists|]. destruct Hl as [Hl|Hl]; [lia|]. rewrite (run_bind _ _ _ _ _ (read_byte_run s _)), Hl. by eexists.
  - destruct Hl as (Hge & -> & -> & Hne & Hl). destruct (Z.ltb_spec (rb s at_) 64); [lia|]. cbv zeta. rewrite (run_bind _ _ _ _ _ (read_byte_run s _)).
    destruct (Z.eqb_spec (rb s (Z.ldiff (rb s at_) 3)) 255); [done|]. pose proof (cap_pos s at_ Hge).
    destruct (Z.eqb_spec (rb s (Z.ldiff (rb s at_) 3)) cap) as [E|E].
    + eexists. unfold first_cap. cbn [list_find]. by rewrite decide_True.
    + replace (u8 (Z.ldiff (rb s at_) 3 + PCI_CAP_LIST_NEXT)) with (Z.ldiff (rb s at_) 3 + PCI_CAP_LIST_NEXT) by (symmetry; apply (wrap_small 8); unfold PCI_CAP_LIST_NEXT; lia).
      destruct (IH _ _ Hl) as [n' En]. exists n'. rewrite En. unfold first_cap. cbn [list_find]. rewrite decide_False by done.
      by destruct (list_find _ _) as [[? []]|].
Qed.

Lemma cap_ttl_total ttl s at_ cap :
  ∃ p n, __pci_find_next_cap_ttl ttl at_ cap s = Done ((p, n), s) ∧ (p = 0 ∨ 64 ≤ p ≤ 252 ∧ p mod 4 = 0 ∧ rb s p = cap).
Proof.
  revert at_. induction ttl as [|ttl IH]; intros at_; [by exists 0, 0%nat; auto|]. cbn [__pci_find_next_cap_ttl].
  rewrite (run_bind _ _ _ _ _ (read_byte_run s at_)). destruct (Z.ltb_spec (rb s at_) 64); [eexists _, _; split; [done|auto]|].
  cbv zeta. rewrite (run_bind _ _ _ _ _ (read_byte_run s _)). destruct (rb s (Z.ldiff (rb s at_) 3) =? 255); [eexists _, _; split; [done|auto]|].
  destruct (Z.eqb_spec (rb s (Z.ldiff (rb s at_) 3)) cap) as [E|E]; [|apply IH]. eexists _, _. split; [done|]. right. split; [by apply cap_pos|]. split; [|done].
  rewrite land_ldiff. change 3 with (2 ^ 2 - 1). rewrite land_pow2 by lia. change (2 ^ 2) with 4. Z.div_mod_to_equations. lia.
Qed.
Lemma cap_start_run s hdr st : pci_read_config_word PCI_STATUS s = Done (st, s) → __pci_bus_find_cap_start hdr s =
  Done (if Z.land st PCI_STATUS_CAP_LIST =? 0 then 0 else if (hdr =? 0) || (hdr =? 1) then PCI_CAPABILITY_LIST else if hdr =? 2 then PCI_CB_CAPABILITY_LIST else 0, s).
Proof. intros E. unfold __pci_bus_find_cap_start. by rewrite (run_bind _ _ _ _ _ E). Qed.

(** C0: [pci_find_capability] ends for every content of the configuration space and changes nothing.  For a
    device with a capability list it gives the position of the first of the 48 first capabilities that has the id,
    and 0 if none has. *)
Theorem pci_capability_found s cap :
  (∃ p, pci_find_capability cap s = Done (p, s) ∧ (p = 0 ∨ 64 ≤ p ≤ 252 ∧ p mod 4 = 0 ∧ rb s p = cap)) ∧
  ∀ l status, hdr_type (dev s) = 0 → pci_read_config_word PCI_STATUS s = Done (status, s) → Z.land status PCI_STATUS_CAP_LIST ≠ 0 →
    cap_list s PCI_CAPABILITY_LIST l → pci_find_capability cap s = Done (first_cap cap (take PCI_FIND_CAP_TTL l), s).
Proof.
  unfold pci_find_capability. rewrite (run_bind _ _ s (hdr_type (dev s)) s eq_refl). split.
  - destruct (read_word_total s PCI_STATUS eq_refl) as (st & _ & Es). rewrite (run_bind _ _ _ _ _ (cap_start_run s _ st Es)).
    destruct (_ =? 0); [eexists; split; [done|auto]|]. unfold __pci_find_next_cap. edestruct (cap_ttl_total PCI_FIND_CAP_TTL s) as (p & n & E & Hp).
    rewrite (run_bind _ _ _ _ _ E). by exists p.
  - intros l status Hh Es Hst Hl. rewrite (run_bind _ _ _ _ _ (cap_start_run s _ status Es)), Hh. destruct (Z.eqb_spec (Z.land status PCI_STATUS_CAP_LIST) 0); [done|].
    cbn [orb Z.eqb]. destruct (cap_ttl_ok PCI_FIND_CAP_TTL s PCI_CAPABILITY_LIST cap l Hl) as [n0 En].
    change (PCI_CAPABILITY_LIST =? 0) with false. cbv iota. unfold __pci_find_next_cap. by rewrite (run_bind _ _ _ _ _ En).
Qed.

(** ** Enabling the regions of a device *)

(** The resources of the mask from [idx] on that are regions and, for the expansion ROM, enabled *)
Fixpoint selected (n : nat) (idx mask : Z) (l : list pres) : list pres :=
  match n, l with
  | S n, r :: l =>
      (if Z.testbit mask idx && negb (Z.land (p_flags r) (IORESOURCE_IO + IORESOURCE_MEM) =? 0) &&
          negb ((idx =? PCI_ROM_RESOURCE) && (Z.land (p_flags r) IORESOURCE_ROM_ENABLE =? 0))
       then [r] else []) ++ selected n (idx + 1) mask l
  | _, _ => []
  end.
Definition unassigned (r : pres) : bool := (p_start r =? 0) && negb (p_end r =? 0).
Definition is_io (r : pres) : bool := negb (Z.land (p_flags r) IORESOURCE_IO =? 0).
Definition is_mem (r : pres) : bool := negb (Z.land (p_flags r) IORESOURCE_MEM =? 0).
Definition needed (l : list pres) : Z := Z.lor (if existsb is_io l then PCI_COMMAND_IO else 0) (if existsb is_mem l then PCI_COMMAND_MEMORY else 0).

Lemma needed_cons r l cmd : Z.lor (Z.lor (Z.lor cmd (if is_io r then PCI_COMMAND_IO else 0)) (if is_mem r then PCI_COMMAND_MEMORY else 0)) (needed l) = Z.lor cmd (needed (r :: l)).
Proof.
  unfold needed. cbn [existsb]. rewrite <- !Z.lor_assoc. f_equal. destruct (is_io r), (is_mem r), (existsb is_io l), (existsb is_mem l); reflexivity.
Qed.
Lemma enable_loop_ok n s idx mask cmd : 0 ≤ idx → (Z.to_nat idx + n ≤ length (resources (dev s)))%nat →
  enable_loop n idx mask cmd s =
  Done (let l := selected n idx mask (drop (Z.to_nat idx) (resources (dev s))) in if existsb unassigned l then None else Some (Z.lor cmd (needed l)), s).
Proof.
  revert idx cmd. induction n as [|n IH]; intros idx cmd Hi Hn; cbn [enable_loop selected].
  { unfold needed. cbn. by rewrite Z.lor_0_r. }
  destruct (lookup_lt_is_Some_2 (resources (dev s)) (Z.to_nat idx)) as [r Er]; [lia|]. rewrite (drop_S _ r _ Er).
  assert (IH' : ∀ cmd, enable_loop n (idx + 1) mask cmd s =
    Done (let l := selected n (idx + 1) mask (drop (S (Z.to_nat idx)) (resources (dev s))) in if existsb unassigned l then None else Some (Z.lor cmd (needed l)), s)).
  { intros c. rewrite IH by lia. by replace (Z.to_nat (idx + 1)) with (S (Z.to_nat idx)) by lia. }
  destruct (Z.testbit mask idx); cbn [negb andb app]; [|apply IH'].
  rewrite (run_bind _ _ _ _ _ (res_at_run s idx r Hi Er)). destruct (Z.land (p_flags r) (IORESOURCE_IO + IORESOURCE_MEM) =? 0); cbn [negb andb app]; [apply IH'|].
  destruct ((idx =? PCI_ROM_RESOURCE) && (Z.land (p_flags r) IORESOURCE_ROM_ENABLE =? 0)); cbn [negb app]; [apply IH'|]. cbv zeta. cbn [existsb].
  change ((p_start r =? 0) && negb (p_end r =? 0)) with (unassigned r). destruct (unassigned r); cbn [orb]; [done|].
  replace (if Z.land (p_flags r) IORESOURCE_IO =? 0 then cmd else Z.lor cmd PCI_COMMAND_IO) with (Z.lor cmd (if is_io r then PCI_COMMAND_IO else 0))
    by (unfold is_io; destruct (_ =? 0); cbn [negb]; [by rewrite Z.lor_0_r|done]).
  set (c1 := Z.lor cmd _). replace (if Z.land (p_flags r) IORESOURCE_MEM =? 0 then c1 else Z.lor c1 PCI_COMMAND_MEMORY) with (Z.lor c1 (if is_mem r then PCI_COMMAND_MEMORY else 0))
    by (unfold is_mem; destruct (_ =? 0); cbn [negb]; [by rewrite Z.lor_0_r|done]).
  rewrite IH'. cbv zeta. by rewrite <- needed_cons.
Qed.

(** C0: [pcibios_enable_device] looks at the regions that the mask selects.  If one of them has no address it
    returns -EINVAL and writes nothing; otherwise it adds to the command register exactly the bits for I/O and for memory
    that the regions need, and writes the register only if it changes. *)
Theorem pci_regions_enabled s mask cmd : (11 ≤ length (resources (dev s)))%nat → pci_read_config_word PCI_COMMAND s = Done (cmd, s) →
  let l := selected 11 0 mask (resources (dev s)) in
  pcibios_enable_device mask s =
  if existsb unassigned l then Done (- EINVAL, s)
  else if Z.lor cmd (needed l) =? cmd then Done (0, s)
  else match pci_write_config_word PCI_COMMAND (Z.lor cmd (needed l)) s with Done (_, s') => Done (0, s') | Fault e => Fault e end.
Proof.
  intros Hl Ec l. unfold pcibios_enable_device, pcibios_enable_resources.
  assert (E : enable_loop PCI_NUM_RESOURCES 0 mask cmd s = Done (if existsb unassigned l then None else Some (Z.lor cmd (needed l)), s)).
  { rewrite enable_loop_ok by (change PCI_NUM_RESOURCES with 11%nat; lia). done. }
  unfold mbind, M_bind in *. rewrite Ec, E. destruct (existsb unassigned l); [done|]. destruct (Z.lor cmd (needed l) =? cmd); [done|].
  by destruct (pci_write_config_word PCI_COMMAND (Z.lor cmd (needed l)) s) as [[[] ?]|].
Qed.
End Caps.

(** ** A device with capabilities *)

Definition exp_mask (k : Z * Z * Z * Z) : Z := let '(_, _, _, reg) := k in if (reg =? 72) || (reg =? 4) then 65535 else 0.
(** Capabilities at 64 (power management) and 80 (PCI Express) *)
Definition exp_cfg : cfg_words exp_mask :=
  <[(0, 0, 0, 4) := Z.shiftl PCI_STATUS_CAP_LIST 16]> (<[(0, 0, 0, 52) := 80]> (<[(0, 0, 0, 80) := PCI_CAP_ID_PM]> ∅)).
Definition exp_dev : pst (cfg_words exp_mask) := Pst exp_cfg demo_dev.
Lemma exp_list : cap_list exp_dev PCI_CAPABILITY_LIST [(80, 1)].
Proof.
  cbn [cap_list]. split; [vm_compute; discriminate|]. do 2 (split; [vm_compute; reflexivity|]). split; [done|].
  left. vm_compute. reflexivity.
Qed.
Lemma exp_status : pci_read_config_word PCI_STATUS exp_dev = Done (PCI_STATUS_CAP_LIST, exp_dev).
Proof. vm_compute. reflexivity. Qed.
Lemma pci_capability_found_witness : pci_find_capability PCI_CAP_ID_PM exp_dev = Done (80, exp_dev) ∧ pci_find_capability PCI_CAP_ID_EXP exp_dev = Done (0, exp_dev).
Proof.
  assert (Hs : Z.land PCI_STATUS_CAP_LIST PCI_STATUS_CAP_LIST ≠ 0) by discriminate. split.
  - rewrite (proj2 (pci_capability_found exp_dev PCI_CAP_ID_PM) [(80, 1)] PCI_STATUS_CAP_LIST eq_refl exp_status Hs exp_list). do 2 f_equal.
  - rewrite (proj2 (pci_capability_found exp_dev PCI_CAP_ID_EXP) [(80, 1)] PCI_STATUS_CAP_LIST eq_refl exp_status Hs exp_list). do 2 f_equal.
Defined.
(** The first region of this device has a size and no address *)
Definition bare_dev : pst (cfg_words exp_mask) := Pst exp_cfg (with_resources (<[0%nat := PRes 0 15 IORESOURCE_MEM]> (resources demo_dev)) demo_dev).
Lemma pci_regions_enabled_witness : pcibios_enable_device 1 bare_dev = Done (- EINVAL, bare_dev).
Proof.
  rewrite (pci_regions_enabled bare_dev 1 0); [reflexivity|vm_compute; lia|vm_compute; reflexivity].
Defined.

(** ** Saved state *)

Definition pcie_mask (k : Z * Z * Z * Z) : Z := let '(_, _, _, reg) := k in if reg =? 72 then 65535 else 0.
Definition pcie_dev (devctl : Z) (d : pci_dev) : pst (cfg_words pcie_mask) :=
  Pst (<[(0, 0, 0, 4) := Z.shiftl PCI_STATUS_CAP_LIST 16]> (<[(0, 0, 0, 52) := 64]> (<[(0, 0, 0, 64) := PCI_CAP_ID_EXP]> (<[(0, 0, 0, 72) := devctl]> ∅)))) d.
(** [pci_save_pcie_state] does not set the number of the capability it saves, so that [pci_restore_pcie_state]
    does not find it: the control registers are not restored, and the saved states pile up. *)
Theorem pcie_state_lost :
  match pci_save_state true true (pcie_dev 10 demo_dev) with
  | Done (_, s1) =>
      match pci_restore_state (pcie_dev 0 (dev s1)) with
      | Done (r, s2) => r = 0 ∧ match pci_read_config_word 72 s2 with Done (v, _) => v = 0 | Fault _ => False end ∧ length (saved_cap_space (dev s2)) = 1%nat
      | Fault _ => False
      end
  | Fault _ => False
  end.
Proof. vm_compute. repeat split. Qed.
