(* ===== verification/Hid.v ===== *)
(** HID reports: drivers/hid/hid-core.c.

    A device describes its reports by a report descriptor, a string of items.
    [hid_parse_report] builds from it a [struct hid_device]: collections, and for
    each report the fields with their usages and their place in the report.
    Received reports are taken apart by [hid_input_report], reports to send are put
    together by [hid_output_report].

    Reports belong to one entry of one hash table, and fields to one report, so
    that they are modelled as values.  Whether an allocation succeeds is
    a parameter, [mem n] for the [n]-th one; [live] counts the objects that are
    allocated and not freed.  Messages are left out. *)

From S2P Require Import Prelude.

(** ** Constants (hid.h) *)

Definition HID_MAX_USAGES : Z := 1024.
Definition HID_MAX_FIELDS : Z := 64.
Definition HID_GLOBAL_STACK_SIZE : nat := 4.
Definition HID_COLLECTION_STACK_SIZE : nat := 4.
Definition HID_DEFAULT_NUM_COLLECTIONS : nat := 16.
Definition HID_COLLECTION_PHYSICAL : Z := 0.
Definition HID_COLLECTION_APPLICATION : Z := 1.
Definition HID_COLLECTION_LOGICAL : Z := 2.
Definition HID_INPUT_REPORT : Z := 0.
Definition HID_OUTPUT_REPORT : Z := 1.
Definition HID_FEATURE_REPORT : Z := 2.
Definition HID_MAIN_ITEM_VARIABLE : Z := 2.
Definition HID_UP_KEYBOARD : Z := 0x70000.
Definition HID_CLAIMED_INPUT : Z := 1.
Definition HID_CLAIMED_HIDDEV : Z := 2.

(** ** Data *)

(** The environment of global items; [struct hid_global] *)
Record hid_global := HidGlobal { usage_page : Z; logical_minimum : Z; logical_maximum : Z; physical_minimum : Z; physical_maximum : Z; unit_exponent : Z; unit_ : Z; report_id : Z; report_size : Z; report_count : Z }.
Definition with_usage_page (x : Z) (y : hid_global) : hid_global :=
  HidGlobal x (logical_minimum y) (logical_maximum y) (physical_minimum y) (physical_maximum y) (unit_exponent y) (unit_ y) (report_id y) (report_size y) (report_count y).
Definition with_logical_minimum (x : Z) (y : hid_global) : hid_global :=
  HidGlobal (usage_page y) x (logical_maximum y) (physical_minimum y) (physical_maximum y) (unit_exponent y) (unit_ y) (report_id y) (report_size y) (report_count y).
Definition with_logical_maximum (x : Z) (y : hid_global) : hid_global :=
  HidGlobal (usage_page y) (logical_minimum y) x (physical_minimum y) (physical_maximum y) (unit_exponent y) (unit_ y) (report_id y) (report_size y) (report_count y).
Definition with_physical_minimum (x : Z) (y : hid_global) : hid_global :=
  HidGlobal (usage_page y) (logical_minimum y) (logical_maximum y) x (physical_maximum y) (unit_exponent y) (unit_ y) (report_id y) (report_size y) (report_count y).
Definition with_physical_maximum (x : Z) (y : hid_global) : hid_global :=
  HidGlobal (usage_page y) (logical_minimum y) (logical_maximum y) (physical_minimum y) x (unit_exponent y) (unit_ y) (report_id y) (report_size y) (report_count y).
Definition with_unit_exponent (x : Z) (y : hid_global) : hid_global :=
  HidGlobal (usage_page y) (logical_minimum y) (logical_maximum y) (physical_minimum y) (physical_maximum y) x (unit_ y) (report_id y) (report_size y) (report_count y).
Definition with_unit_ (x : Z) (y : hid_global) : hid_global :=
  HidGlobal (usage_page y) (logical_minimum y) (logical_maximum y) (physical_minimum y) (physical_maximum y) (unit_exponent y) x (report_id y) (report_size y) (report_count y).
Definition with_report_id (x : Z) (y : hid_global) : hid_global :=
  HidGlobal (usage_page y) (logical_minimum y) (logical_maximum y) (physical_minimum y) (physical_maximum y) (unit_exponent y) (unit_ y) x (report_size y) (report_count y).
Definition with_report_size (x : Z) (y : hid_global) : hid_global :=
  HidGlobal (usage_page y) (logical_minimum y) (logical_maximum y) (physical_minimum y) (physical_maximum y) (unit_exponent y) (unit_ y) (report_id y) x (report_count y).
Definition with_report_count (x : Z) (y : hid_global) : hid_global :=
  HidGlobal (usage_page y) (logical_minimum y) (logical_maximum y) (physical_minimum y) (physical_maximum y) (unit_exponent y) (unit_ y) (report_id y) (report_size y) x.

(** The environment of local items.  [usage] stands for the first [usage_index] entries of the arrays
    [usage] and [collection_index]; the others are zero, as the environment is cleared after every main item. *)
Record hid_local := HidLocal { usage : list (Z * Z); usage_minimum : Z; delimiter_depth : Z; delimiter_branch : Z }.
Definition with_usage (x : list (Z * Z)) (y : hid_local) : hid_local :=
  HidLocal x (usage_minimum y) (delimiter_depth y) (delimiter_branch y).
Definition with_usage_minimum (x : Z) (y : hid_local) : hid_local :=
  HidLocal (usage y) x (delimiter_depth y) (delimiter_branch y).
Definition with_delimiter_depth (x : Z) (y : hid_local) : hid_local :=
  HidLocal (usage y) (usage_minimum y) x (delimiter_branch y).
Definition with_delimiter_branch (x : Z) (y : hid_local) : hid_local :=
  HidLocal (usage y) (usage_minimum y) (delimiter_depth y) x.

Record hid_collection := HidCollection { c_type : Z; c_usage : Z; c_level : Z }.
(** The fields of [struct hid_usage] that the parser sets *)
Record hid_usage := HidUsage { hid : Z; u_collection : Z }.
(** A field; its tables of usages and values are allocated with it. *)
Record hid_field := HidField {
  physical : Z; logical : Z; application : Z; usages : list hid_usage; maxusage : Z; flags : Z; f_offset : Z; f_size : Z; f_count : Z; f_type : Z;
  value : list Z; f_min : Z; f_max : Z; f_pmin : Z; f_pmax : Z; f_exponent : Z; f_unit : Z; index : Z }.
(** A report; [maxfield] is the length of [fields]. *)
Record hid_report := HidReport { r_id : Z; r_type : Z; fields : list hid_field; r_size : Z }.
(** The reports of a type; the hash table has 256 entries, the list links the same reports by their ids. *)
Record hid_report_enum := HidEnum { numbered : Z; report_list : list Z; report_id_hash : gmap Z hid_report }.
(** A device; [collection_size] is the length of [collection]. *)
Record hid_device := HidDevice { rdesc : list Z; collection : list hid_collection; maxcollection : Z; maxapplication : Z; report_enum : list hid_report_enum }.
Definition with_collection (x : list hid_collection) (y : hid_device) : hid_device :=
  HidDevice (rdesc y) x (maxcollection y) (maxapplication y) (report_enum y).
Definition with_maxcollection (x : Z) (y : hid_device) : hid_device :=
  HidDevice (rdesc y) (collection y) x (maxapplication y) (report_enum y).
Definition with_maxapplication (x : Z) (y : hid_device) : hid_device :=
  HidDevice (rdesc y) (collection y) (maxcollection y) x (report_enum y).
Definition with_report_enum (x : list hid_report_enum) (y : hid_device) : hid_device :=
  HidDevice (rdesc y) (collection y) (maxcollection y) (maxapplication y) x.

(** The parser, whose device is beside it in the state; a stack is the
    list of its entries, the last pushed one first, and its pointer is the length. *)
Record hid_parser := HidParser { global : hid_global; global_stack : list hid_global; local : hid_local; collection_stack : list Z }.
Definition with_global (x : hid_global) (y : hid_parser) : hid_parser :=
  HidParser x (global_stack y) (local y) (collection_stack y).
Definition with_global_stack (x : list hid_global) (y : hid_parser) : hid_parser :=
  HidParser (global y) x (local y) (collection_stack y).
Definition with_local (x : hid_local) (y : hid_parser) : hid_parser :=
  HidParser (global y) (global_stack y) x (collection_stack y).
Definition with_collection_stack (x : list Z) (y : hid_parser) : hid_parser :=
  HidParser (global y) (global_stack y) (local y) x.
(** What [kzalloc] and [memset] make of them *)
Definition zero_global : hid_global := HidGlobal 0 0 0 0 0 0 0 0 0 0.
Definition zero_local : hid_local := HidLocal [] 0 0 0.
Definition zero_collection : hid_collection := HidCollection 0 0 0.
Definition zero_parser : hid_parser := HidParser zero_global [] zero_local [].
Definition zero_enum : hid_report_enum := HidEnum 0 [] ∅.

(** ** Items *)

(** [struct hid_item]; the data of a short item are kept as the unsigned value. *)
Inductive item_format := HID_ITEM_FORMAT_SHORT | HID_ITEM_FORMAT_LONG.
Record hid_item := HidItem { format : item_format; i_size : Z; i_type : Z; i_tag : Z; i_data : Z }.

Definition HID_ITEM_TAG_LONG : Z := 15.

(** [fetch_item] on the bytes from [start] to [end]: the item and the bytes after it *)
Definition fetch_item (start : list Z) : option (hid_item * list Z) :=
  match start with
  | [] => None
  | b :: start =>
      let type := Z.land (Z.shiftr b 2) 3 in
      let tag := Z.land (Z.shiftr b 4) 15 in
      if tag =? HID_ITEM_TAG_LONG then
        match start with
        | size :: tag :: start =>
            if Z.of_nat (length start) <? size then None
            else Some (HidItem HID_ITEM_FORMAT_LONG size type tag 0, drop (Z.to_nat size) start)
        | _ => None
        end
      else
        let size := Z.land b 3 in
        if size =? 0 then Some (HidItem HID_ITEM_FORMAT_SHORT 0 type tag 0, start)
        else if size =? 1 then
          match start with b0 :: start => Some (HidItem HID_ITEM_FORMAT_SHORT 1 type tag b0, start) | _ => None end
        else if size =? 2 then
          match start with
          | b0 :: b1 :: start => Some (HidItem HID_ITEM_FORMAT_SHORT 2 type tag (b0 + 256 * b1), start)
          | _ => None
          end
        else
          match start with
          | b0 :: b1 :: b2 :: b3 :: start =>
              Some (HidItem HID_ITEM_FORMAT_SHORT 4 type tag (b0 + 256 * (b1 + 256 * (b2 + 256 * b3))), start)
          | _ => None
          end
  end.

(** The sign extension of the low [w] bits *)
Definition sext (w z : Z) : Z := (z + 2 ^ (w - 1)) mod 2 ^ w - 2 ^ (w - 1).
Definition item_udata (item : hid_item) : Z :=
  if (i_size item =? 1) || (i_size item =? 2) || (i_size item =? 4) then i_data item else 0.
Definition item_sdata (item : hid_item) : Z :=
  if i_size item =? 1 then sext 8 (i_data item)
  else if i_size item =? 2 then sext 16 (i_data item)
  else if i_size item =? 4 then sext 32 (i_data item) else 0.

(** ** The parser *)

Section Hid.
Context (mem : nat → bool).

(** The allocations so far, the objects that are live, and the parser with its device *)
Record hst := Hst { tries : nat; live : Z; parser : hid_parser; device : hid_device }.
Abbreviation HM := (M hst).

Definition kzalloc : HM bool := λ s,
  let b := mem (tries s) in Done (b, Hst (S (tries s)) (live s + bool2Z b) (parser s) (device s)).
Definition kfree (n : Z) : HM unit := modify (λ s, Hst (tries s) (live s - n) (parser s) (device s)).
Definition on_parser (f : hid_parser → hid_parser) : HM unit := modify (λ s, Hst (tries s) (live s) (f (parser s)) (device s)).
Definition on_device (f : hid_device → hid_device) : HM unit := modify (λ s, Hst (tries s) (live s) (parser s) (f (device s))).
Definition on_global (f : hid_global → hid_global) : HM unit := on_parser (λ p, with_global (f (global p)) p).
Definition on_local (f : hid_local → hid_local) : HM unit := on_parser (λ p, with_local (f (local p)) p).

(** The report of a type and an id, and a change of it *)
Definition enum_at (type : Z) : HM hid_report_enum :=
  d ← gets device; match report_enum d !! Z.to_nat type with Some e => mret e | None => fail FBounds end.
Definition report_at (type id : Z) : HM hid_report :=
  e ← enum_at type; match report_id_hash e !! id with Some r => mret r | None => fail FNull end.
Definition set_enum (type : Z) (e : hid_report_enum) : HM unit :=
  on_device (λ d, with_report_enum (<[Z.to_nat type := e]> (report_enum d)) d).
Definition set_report (type id : Z) (r : hid_report) : HM unit :=
  e ← enum_at type; set_enum type (HidEnum (numbered e) (report_list e) (<[id := r]> (report_id_hash e))).

(** The report is there afterwards unless the result is false; the table has 256 entries. *)
Definition hid_register_report (type id : Z) : HM bool :=
  report_enum ← enum_at type;
  if 256 <=? id then fail FBounds else
  match report_id_hash report_enum !! id with
  | Some _ => mret true
  | None =>
      ok ← kzalloc;
      if negb ok then mret false else
      set_enum type (HidEnum (if id =? 0 then numbered report_enum else 1) (report_list report_enum ++ [id])
        (<[id := HidReport id type [] 0]> (report_id_hash report_enum))) ;;
      mret true
  end.

(** The field, which is linked into the report when its contents are set *)
Definition hid_register_field (report : hid_report) (usages values : Z) : HM (option hid_field) :=
  if Z.of_nat (length (fields report)) =? HID_MAX_FIELDS then mret None else
  ok ← kzalloc;
  if negb ok then mret None else
  mret (Some (HidField 0 0 0 (replicate (Z.to_nat usages) (HidUsage 0 0)) 0 0 0 0 0 0 (replicate (Z.to_nat values) 0) 0 0 0 0 0 0 (Z.of_nat (length (fields report))))).

(** Make sure that there is room for one more collection. *)
Definition grow_collections : HM bool :=
  d ← gets device;
  if maxcollection d =? Z.of_nat (length (collection d)) then
    ok ← kzalloc;
    if negb ok then mret false else
    on_device (with_collection (collection d ++ replicate (length (collection d)) zero_collection)) ;;
    kfree 1 ;; mret true
  else mret true.
Definition open_collection (type : Z) : HM Z :=
  p ← gets parser;
  d ← gets device;
  let usage := match usage (local p) with (u, _) :: _ => u | [] => 0 end in
  if decide (length (collection_stack p) = HID_COLLECTION_STACK_SIZE) then mret (-1) else
  ok ← grow_collections;
  if negb ok then mret (-1) else
  on_parser (with_collection_stack (maxcollection d :: collection_stack p)) ;;
  d ← gets device;
  if negb (maxcollection d <? Z.of_nat (length (collection d))) then fail FBounds else
  on_device (with_collection (<[Z.to_nat (maxcollection d) := HidCollection type usage (Z.of_nat (length (collection_stack p)))]> (collection d))) ;;
  on_device (with_maxcollection (maxcollection d + 1)) ;;
  (if type =? HID_COLLECTION_APPLICATION then on_device (with_maxapplication (maxapplication d + 1)) else mret tt) ;;
  mret 0.

Definition close_collection : HM Z :=
  p ← gets parser;
  match collection_stack p with
  | [] => mret (-1)
  | _ :: stack => on_parser (with_collection_stack stack) ;; mret 0
  end.

Fixpoint lookup_collection (stack : list Z) (type : Z) : HM Z :=
  match stack with
  | [] => mret 0
  | n :: stack =>
      d ← gets device;
      match collection d !! Z.to_nat n with
      | None => fail FBounds
      | Some c => if c_type c =? type then mret (c_usage c) else lookup_collection stack type
      end
  end.
Definition hid_lookup_collection (type : Z) : HM Z := p ← gets parser; lookup_collection (collection_stack p) type.

Definition hid_add_usage (u : Z) : HM Z :=
  p ← gets parser;
  let l := local p in
  if HID_MAX_USAGES <=? Z.of_nat (length (usage l)) then mret (-1) else
  on_local (with_usage (usage l ++ [(u, match collection_stack p with n :: _ => n | [] => 0 end)])) ;;
  mret 0.

(** The usages of a field: those parsed, the last one as often as there are excess values *)
Definition field_usages (l : list (Z * Z)) (n : Z) : list hid_usage :=
  map (λ i, match l !! (if decide (length l ≤ i)%nat then length l - 1 else i)%nat with
            | Some (u, c) => HidUsage u c | None => HidUsage 0 0 end) (seq 0 (Z.to_nat n)).

(** The contents of a field of a report *)
Definition fill_field (report_type flags offset usages : Z) (report : hid_report) (field : hid_field) : HM Z :=
  p ← gets parser;
  let g := global p in
  physical ← hid_lookup_collection HID_COLLECTION_PHYSICAL;
  logical ← hid_lookup_collection HID_COLLECTION_LOGICAL;
  application ← hid_lookup_collection HID_COLLECTION_APPLICATION;
  set_report report_type (report_id g) (HidReport (r_id report) (r_type report)
    (fields report ++ [HidField physical logical application (field_usages (usage (local p)) usages) usages flags offset (report_size g) (report_count g) report_type
       (value field) (logical_minimum g) (logical_maximum g) (physical_minimum g) (physical_maximum g) (unit_exponent g) (unit_ g) (index field)])
    (r_size report)) ;;
  mret 0.

Definition hid_add_field (report_type flags : Z) : HM Z :=
  p ← gets parser;
  let g := global p in
  ok ← hid_register_report report_type (report_id g);
  if negb ok then mret (-1) else
  if logical_maximum g <? logical_minimum g then mret (-1) else
  report ← report_at report_type (report_id g);
  let offset := r_size report in
  let report := HidReport (r_id report) (r_type report) (fields report) (u32 (r_size report + u32 (report_size g * report_count g))) in
  set_report report_type (report_id g) report ;;
  let l := usage (local p) in
  if decide (length l = O) then mret 0 else
  let usages := Z.max (Z.of_nat (length l)) (report_count g) in
  field ← hid_register_field report usages (report_count g);
  match field with None => mret 0 | Some field => fill_field report_type flags offset usages report field end.

Definition hid_parser_global (item : hid_item) : HM Z :=
  p ← gets parser;
  let g := global p in
  let set f : HM Z := on_global f ;; mret 0 in
  if i_tag item =? 10 then
    if decide (length (global_stack p) = HID_GLOBAL_STACK_SIZE) then mret (-1)
    else on_parser (with_global_stack (g :: global_stack p)) ;; mret 0
  else if i_tag item =? 11 then
    match global_stack p with
    | [] => mret (-1)
    | g :: stack => on_parser (λ p, with_global g (with_global_stack stack p)) ;; mret 0
    end
  else if i_tag item =? 0 then set (with_usage_page (item_udata item))
  else if i_tag item =? 1 then set (with_logical_minimum (item_sdata item))
  else if i_tag item =? 2 then
    set (with_logical_maximum (if logical_minimum g <? 0 then item_sdata item else s32 (item_udata item)))
  else if i_tag item =? 3 then set (with_physical_minimum (item_sdata item))
  else if i_tag item =? 4 then
    set (with_physical_maximum (if physical_minimum g <? 0 then item_sdata item else s32 (item_udata item)))
  else if i_tag item =? 5 then set (with_unit_exponent (item_sdata item))
  else if i_tag item =? 6 then set (with_unit_ (item_udata item))
  else if i_tag item =? 7 then
    on_global (with_report_size (item_udata item)) ;; mret (if 32 <? item_udata item then -1 else 0)
  else if i_tag item =? 9 then
    on_global (with_report_count (item_udata item)) ;; mret (if HID_MAX_USAGES <? item_udata item then -1 else 0)
  else if i_tag item =? 8 then
    on_global (with_report_id (item_udata item)) ;; mret (if item_udata item =? 0 then -1 else 0)
  else mret (-1).

(** The loop over a range of usages; at most [HID_MAX_USAGES] of them can be added. *)
Fixpoint add_usages (fuel : nat) (n data : Z) : HM Z :=
  if n <=? data then
    match fuel with
    | O => fail FFuel
    | S fuel => r ← hid_add_usage n; if negb (r =? 0) then mret (-1) else add_usages fuel (u32 (n + 1)) data
    end
  else mret 0.

Definition hid_parser_local (item : hid_item) : HM Z :=
  if i_size item =? 0 then mret (-1) else
  p ← gets parser;
  let l := local p in
  let data := item_udata item in
  let full := if i_size item <=? 2 then u32 (u32 (Z.shiftl (usage_page (global p)) 16) + data) else data in
  if i_tag item =? 10 then
    if negb (data =? 0) then
      if negb (delimiter_depth l =? 0) then mret (-1) else
      on_local (λ l, with_delimiter_branch (u32 (delimiter_branch l + 1)) (with_delimiter_depth (delimiter_depth l + 1) l)) ;; mret 1
    else
      if delimiter_depth l <? 1 then mret (-1) else
      on_local (with_delimiter_depth (delimiter_depth l - 1)) ;; mret 1
  else if i_tag item =? 0 then
    if 1 <? delimiter_branch l then mret 0 else hid_add_usage full
  else if i_tag item =? 1 then
    if 1 <? delimiter_branch l then mret 0 else on_local (with_usage_minimum full) ;; mret 0
  else if i_tag item =? 2 then
    if 1 <? delimiter_branch l then mret 0 else add_usages (S (Z.to_nat HID_MAX_USAGES)) (usage_minimum l) full
  else mret 0.

Definition hid_parser_main (item : hid_item) : HM Z :=
  let data := item_udata item in
  ret ← (if i_tag item =? 10 then open_collection (Z.land data 255)
         else if i_tag item =? 12 then close_collection
         else if i_tag item =? 8 then hid_add_field HID_INPUT_REPORT data
         else if i_tag item =? 9 then hid_add_field HID_OUTPUT_REPORT data
         else if i_tag item =? 11 then hid_add_field HID_FEATURE_REPORT data
         else mret 0);
  on_local (λ _, zero_local) ;;
  mret ret.

Definition hid_parser_reserved (item : hid_item) : HM Z := mret 0.

Definition dispatch_type (item : hid_item) : HM Z :=
  if i_type item =? 0 then hid_parser_main item
  else if i_type item =? 1 then hid_parser_global item
  else if i_type item =? 2 then hid_parser_local item
  else if i_type item =? 3 then hid_parser_reserved item
  else fail FBounds.

(** ** Freeing *)

Definition hid_free_report (report : hid_report) : HM unit :=
  seqM (map (λ _, kfree 1) (fields report)) ;; kfree 1.
Fixpoint free_hash (n : nat) (j : Z) (e : hid_report_enum) : HM unit :=
  match n with
  | O => mret tt
  | S n => (match report_id_hash e !! j with Some r => hid_free_report r | None => mret tt end) ;; free_hash n (j + 1) e
  end.
Definition hid_free_device (d : hid_device) : HM unit :=
  seqM (map (free_hash 256 0) (report_enum d)) ;;
  kfree 1 ;; kfree 1 ;; kfree 1.

(** ** Parsing a descriptor *)

(** The error exits: the device and the parser are freed. *)
Definition parse_failed : HM (option hid_device) :=
  d ← gets device; hid_free_device d ;; kfree 1 ;; mret None.

Fixpoint parse_loop (fuel : nat) (start : list Z) : HM (option hid_device) :=
  match fetch_item start with
  | None => parse_failed
  | Some (item, start) =>
      match format item with HID_ITEM_FORMAT_LONG => parse_failed | HID_ITEM_FORMAT_SHORT =>
      r ← dispatch_type item;
      if negb (r =? 0) then parse_failed else
      match start with
      | [] =>
          p ← gets parser;
          if decide (length (collection_stack p) = O) then
            if delimiter_depth (local p) =? 0 then
              kfree 1 ;; d ← gets device; mret (Some d)
            else parse_failed
          else parse_failed
      | _ => match fuel with O => fail FFuel | S fuel => parse_loop fuel start end
      end
      end
  end.

Definition hid_parse_report (start : list Z) : HM (option hid_device) :=
  ok ← kzalloc;
  if negb ok then mret None else
  ok ← kzalloc;
  if negb ok then kfree 1 ;; mret None else
  ok ← kzalloc;
  if negb ok then kfree 1 ;; kfree 1 ;; mret None else
  on_device (λ _, HidDevice start (replicate HID_DEFAULT_NUM_COLLECTIONS zero_collection) 0 0 (replicate 3 zero_enum)) ;;
  ok ← kzalloc;
  if negb ok then kfree 1 ;; kfree 1 ;; kfree 1 ;; mret None else
  on_parser (λ _, zero_parser) ;;
  parse_loop (length start) start.
End Hid.
