(* ===== verification/HidParse.v ===== *)
(** Parsing of report descriptors.

    The invariant of the parser, and that every descriptor leads to a device
    that is well formed or to an error that leaves nothing allocated. *)

From S2P Require Import Prelude Hid.

(** ** Well-formed devices *)

Definition s32_ok (z : Z) : Prop := - 2 ^ 31 ≤ z < 2 ^ 31.
Definition field_ok (f : hid_field) : Prop :=
  0 ≤ f_size f ≤ 32 ∧ 0 ≤ f_count f ≤ HID_MAX_USAGES ∧ Z.of_nat (length (usages f)) = maxusage f ∧ f_count f ≤ maxusage f ∧
  0 < maxusage f ≤ HID_MAX_USAGES ∧ Z.of_nat (length (value f)) = f_count f ∧ Forall s32_ok (value f) ∧ s32_ok (f_min f) ∧ s32_ok (f_max f) ∧ f_min f ≤ f_max f.
(** Fields follow each other in a report without overlap. *)
Fixpoint laid_out (from : Z) (l : list hid_field) (size : Z) : Prop :=
  match l with
  | [] => from ≤ size
  | f :: l => field_ok f ∧ from ≤ f_offset f ∧ laid_out (f_offset f + f_size f * f_count f) l size
  end.
Definition report_ok (bound type id : Z) (r : hid_report) : Prop :=
  0 ≤ id < 256 ∧ r_id r = id ∧ r_type r = type ∧ Z.of_nat (length (fields r)) ≤ HID_MAX_FIELDS ∧ laid_out 0 (fields r) (r_size r) ∧ r_size r ≤ bound.
Definition enum_ok (bound type : Z) (e : hid_report_enum) : Prop :=
  NoDup (report_list e) ∧ (∀ id, id ∈ report_list e ↔ is_Some (report_id_hash e !! id)) ∧
  (∀ id r, report_id_hash e !! id = Some r → report_ok bound type id r) ∧
  numbered e = (if decide (Forall (λ id, id = 0) (report_list e)) then 0 else 1).
Definition device_ok (bound : Z) (d : hid_device) : Prop :=
  length (report_enum d) = 3%nat ∧ (∀ i e, report_enum d !! i = Some e → enum_ok bound (Z.of_nat i) e) ∧
  0 ≤ maxcollection d ≤ Z.of_nat (length (collection d)) ∧ collection d ≠ [].

(** The objects that hang on a device: its reports and their fields *)
Definition weight (o : option hid_report) : Z := match o with Some r => 1 + Z.of_nat (length (fields r)) | None => 0 end.
Fixpoint hash_weight (n : nat) (j : Z) (h : gmap Z hid_report) : Z :=
  match n with O => 0 | S n => weight (h !! j) + hash_weight n (j + 1) h end.
Fixpoint enums_weight (l : list hid_report_enum) : Z :=
  match l with [] => 0 | e :: l => hash_weight 256 0 (report_id_hash e) + enums_weight l end.
Definition objects (d : hid_device) : Z := enums_weight (report_enum d).

Lemma hash_weight_out n j h id r : id < j ∨ j + Z.of_nat n ≤ id → hash_weight n j (<[id := r]> h) = hash_weight n j h.
Proof.
  revert j. induction n as [|n IH]; intros j Hj; [done|]. cbn [hash_weight]. rewrite lookup_insert_ne by lia. rewrite IH by lia. done.
Qed.
Lemma hash_weight_insert n j h id r : j ≤ id < j + Z.of_nat n →
  hash_weight n j (<[id := r]> h) = hash_weight n j h + weight (Some r) - weight (h !! id).
Proof.
  revert j. induction n as [|n IH]; intros j Hj; [lia|]. cbn [hash_weight]. destruct (decide (id = j)) as [->|Hne].
  - rewrite lookup_insert_eq, hash_weight_out by lia. lia.
  - rewrite lookup_insert_ne, IH by lia. lia.
Qed.
Lemma enums_weight_insert l i e e' : l !! i = Some e →
  enums_weight (<[i := e']> l) = enums_weight l + hash_weight 256 0 (report_id_hash e') - hash_weight 256 0 (report_id_hash e).
Proof.
  revert i. induction l as [|x l IH]; intros [|i] E; [done|done| |].
  - injection E as ->. change (<[0%nat := e']> (e :: l)) with (e' :: l). cbn [enums_weight]. lia.
  - change (<[S i := e']> (x :: l)) with (x :: <[i := e']> l). cbn [enums_weight]. rewrite (IH i E). lia.
Qed.

(** ** The parser *)

Definition global_ok (g : hid_global) : Prop :=
  s32_ok (logical_minimum g) ∧ s32_ok (logical_maximum g) ∧ 0 ≤ report_size g ≤ 32 ∧ 0 ≤ report_count g ≤ HID_MAX_USAGES ∧ 0 ≤ report_id g < 256.
Definition stack_ok (n : Z) (l : list Z) : Prop := Forall (λ i, 0 ≤ i < n) l.
Definition parser_ok (d : hid_device) (p : hid_parser) : Prop :=
  global_ok (global p) ∧ Forall global_ok (global_stack p) ∧ stack_ok (maxcollection d) (collection_stack p) ∧
  (length (collection_stack p) ≤ HID_COLLECTION_STACK_SIZE)%nat ∧ Z.of_nat (length (usage (local p))) ≤ HID_MAX_USAGES.
Definition dev_inv (bound base : Z) (s : hst) : Prop := device_ok bound (device s) ∧ live s = base + objects (device s).
Definition hid_inv (bound base : Z) (s : hst) : Prop := dev_inv bound base s ∧ parser_ok (device s) (parser s).
(** After an item: the parser may be broken only if the result is an error. *)
Definition item_post (bound base : Z) (r : Z) (s : hst) : Prop := dev_inv bound base s ∧ (r = 0 → parser_ok (device s) (parser s)).

Lemma enum_ok_weaken b b' t e : b ≤ b' → enum_ok b t e → enum_ok b' t e.
Proof.
  intros Hb (? & ? & Hr & ?). split; [done|]. split; [done|]. split; [|done]. intros id r E. destruct (Hr id r E) as (? & ? & ? & ? & ? & ?). unfold report_ok.
  repeat (split; [done|]). lia.
Qed.
Lemma device_ok_weaken b b' d : b ≤ b' → device_ok b d → device_ok b' d.
Proof. intros Hb (? & He & ?). split; [done|]. split; [|done]. intros i e E. by eapply enum_ok_weaken, He. Qed.
Lemma dev_inv_weaken b b' base s : b ≤ b' → dev_inv b base s → dev_inv b' base s.
Proof. intros Hb [? ?]. split; [by eapply device_ok_weaken|done]. Qed.
Lemma inv_post b base s r : hid_inv b base s → item_post b base r s.
Proof. intros [? ?]. by split. Qed.
#[local] Hint Resolve inv_post dev_inv_weaken : dde.

Definition byte_ok (b : Z) : Prop := 0 ≤ b < 256.
Definition item_ok (item : hid_item) : Prop := 0 ≤ i_data item < 2 ^ 32 ∧ (i_size item = 1 ∨ i_size item = 2 ∨ i_size item = 0 ∨ i_size item = 4) ∧ 0 ≤ i_type item < 4.
(** A Report ID item fits the table of reports. *)
Definition id_small (item : hid_item) : bool := negb ((i_type item =? 1) && (i_tag item =? 8)) || (item_udata item <? 256).

Lemma item_udata_range item : item_ok item → 0 ≤ item_udata item < 2 ^ 32.
Proof. intros [? ?]. unfold item_udata. by destruct (_ || _). Qed.
Lemma sext_range w z : 0 < w ≤ 32 → s32_ok (sext w z).
Proof.
  intros Hw. unfold sext, s32_ok. pose proof (Z.mod_pos_bound (z + 2 ^ (w - 1)) (2 ^ w) ltac:(lia)).
  assert (2 ^ w = 2 * 2 ^ (w - 1)) by (rewrite <- Z.pow_succ_r by lia; f_equal; lia).
  assert (2 ^ (w - 1) ≤ 2 ^ 31) by (apply Z.pow_le_mono_r; lia). lia.
Qed.
Lemma item_sdata_range item : s32_ok (item_sdata item).
Proof. unfold item_sdata. repeat destruct (_ =? _); try (apply sext_range; lia). unfold s32_ok. lia. Qed.

Section Parse.
Context (mem : nat → bool).

(** ** Global and local items *)

Lemma on_parser_post b base s f r : dev_inv b base s → (r = 0 → parser_ok (device s) (f (parser s))) →
  item_post b base r (Hst (tries s) (live s) (f (parser s)) (device s)).
Proof. intros [? ?] ?. by split. Qed.

Lemma global_spec b base item : item_ok item → id_small item = true → i_type item = 1 →
  triple (hid_inv b base) (hid_parser_global item) (item_post b base).
Proof.
  intros Hi Hid Ht s [Hd Hp]. pose proof Hp as (Hg & Hst & Hcs & Hcl & Hu). unfold hid_parser_global.
  rewrite (run_bind _ _ s (parser s) s eq_refl). cbv zeta.
  pose proof (item_udata_range item Hi) as Hud. pose proof (item_sdata_range item) as Hsd.
  assert (Hs32 : s32_ok (s32 (item_udata item))) by (pose proof (s32_range (item_udata item)); unfold s32_ok; lia).
  assert (Hset : ∀ f r, (r = 0 → global_ok (f (global (parser s)))) →
    match (on_global f ;; mret r) s with Done (r, s') => item_post b base r s' | Fault _ => False end).
  { intros f r Hf. unfold on_global, on_parser. run_simpl. apply (on_parser_post _ _ _ (λ p, with_global (f (global p)) p)); [done|]. intros Hr. split; [by apply Hf|done]. }
  destruct Hg as (Hg1 & Hg2 & Hg3 & Hg4 & Hg5). unfold global_ok, HID_MAX_USAGES in *.
  destruct (Z.eqb_spec (i_tag item) 10).
  { destruct (decide _); [by apply inv_post|]. unfold on_parser. run_simpl. apply (on_parser_post _ _ _ (with_global_stack _)); [done|]. intros _.
    split; [done|]. split; [by constructor|done]. }
  destruct (Z.eqb_spec (i_tag item) 11).
  { destruct (global_stack (parser s)) as [|g st] eqn:Es; [by apply inv_post|]. unfold on_parser. run_simpl. apply (on_parser_post _ _ _ (λ p, with_global g (with_global_stack st p))); [done|]. intros _.
    apply list.Forall_cons in Hst as [? ?]. by split. }
  repeat match goal with |- context [Z.eqb (i_tag item) ?k] => destruct (Z.eqb_spec (i_tag item) k); [apply Hset; intros Hr; cbn; unfold s32_ok in *; repeat split; try lia; try (destruct (_ <? _); lia)|] end.
  - destruct (Z.ltb_spec 32 (item_udata item)); lia.
  - destruct (Z.ltb_spec 1024 (item_udata item)); lia.
  - unfold id_small in Hid. rewrite Ht, e in Hid. cbn in Hid. lia.
  - by apply inv_post.
Qed.

Lemma add_usage_spec b base u :
  triple (hid_inv b base) (hid_add_usage u) (λ r s, hid_inv b base s).
Proof.
  intros s [Hd Hp]. pose proof Hp as (Hg & Hst & Hcs & Hcl & Hu). unfold hid_add_usage. rewrite (run_bind _ _ s (parser s) s eq_refl). cbv zeta.
  destruct (Z.leb_spec HID_MAX_USAGES (Z.of_nat (length (usage (local (parser s)))))); [by split|].
  unfold on_local, on_parser. run_simpl. split; [done|]. cbn. unfold parser_ok. cbn. rewrite length_app. cbn.
  repeat (split; [done|]). lia.
Qed.
(** The loop over a range of usages ends because the table is full before the range is exhausted. *)
Lemma add_usages_spec b base fuel n data :
  triple (λ s, hid_inv b base s ∧ HID_MAX_USAGES < Z.of_nat (length (usage (local (parser s)))) + Z.of_nat fuel) (add_usages fuel n data) (λ r s, hid_inv b base s).
Proof.
  revert n. induction fuel as [|fuel IH]; intros n s [Hi Hf].
  { destruct Hi as (Hd & _ & _ & _ & _ & Hu). lia. }
  cbn [add_usages]. destruct (n <=? data); [|done]. pose proof (add_usage_spec b base n s Hi) as Ha. unfold hid_add_usage in *.
  rewrite (run_bind _ _ s (parser s) s eq_refl) in Ha. unfold mbind at 1, M_bind at 1. rewrite (run_bind _ _ s (parser s) s eq_refl). cbv zeta in *.
  destruct (Z.leb_spec HID_MAX_USAGES (Z.of_nat (length (usage (local (parser s)))))); [done|].
  unfold on_local, on_parser in *. run_simpl. change (negb (0 =? 0)) with false. cbv iota. apply IH. split; [done|]. cbn. rewrite length_app. cbn. lia.
Qed.
Lemma local_spec b base item : item_ok item → triple (hid_inv b base) (hid_parser_local item) (item_post b base).
Proof.
  intros Hi s Hs. unfold hid_parser_local. destruct (_ =? 0); [by apply inv_post|]. rewrite (run_bind _ _ s (parser s) s eq_refl). cbv zeta.
  assert (Hpost : ∀ m : M hst Z, triple (hid_inv b base) m (λ r s, hid_inv b base s) → match m s with Done (r, s') => item_post b base r s' | Fault _ => False end).
  { intros m Hm. specialize (Hm s Hs). destruct (m s) as [[r s']|]; [by apply inv_post|done]. }
  assert (Hloc : ∀ f r, usage (f (local (parser s))) = usage (local (parser s)) → match (on_local f ;; mret r) s with Done (r, s') => item_post b base r s' | Fault _ => False end).
  { intros f r Hf. unfold on_local, on_parser. run_simpl. destruct Hs as [Hd Hp]. apply (on_parser_post _ _ _ (λ p, with_local (f (local p)) p)); [done|]. intros _.
    destruct Hp as (? & ? & ? & ? & ?). unfold parser_ok. cbn. by rewrite Hf. }
  set (full := if i_size item <=? 2 then _ else _). destruct (i_tag item =? 10).
  { destruct (negb (item_udata item =? 0)).
    - destruct (negb (_ =? 0)); [by apply inv_post|by apply Hloc].
    - destruct (_ <? 1); [by apply inv_post|by apply Hloc]. }
  destruct (i_tag item =? 0); [destruct (1 <? _); [by apply inv_post|apply Hpost, add_usage_spec]|].
  destruct (i_tag item =? 1); [destruct (1 <? _); [by apply inv_post|by apply Hloc]|].
  destruct (i_tag item =? 2); [destruct (1 <? _); [by apply inv_post|]|by apply inv_post].
  apply Hpost. intros s' Hs'. apply add_usages_spec. split; [done|]. unfold HID_MAX_USAGES. lia.
Qed.

(** ** Main items *)

Lemma stack_ok_weaken n n' l : n ≤ n' → stack_ok n l → stack_ok n' l.
Proof. intros Hn Hl. eapply list.Forall_impl; [exact Hl|]. cbn. lia. Qed.
Lemma close_spec b base : triple (hid_inv b base) close_collection (item_post b base).
Proof.
  intros s Hs. pose proof Hs as (Hd & Hg & Hst & Hcs & Hcl & Hu). unfold close_collection. rewrite (run_bind _ _ s (parser s) s eq_refl).
  destruct (collection_stack (parser s)) as [|n l] eqn:E; [by apply inv_post|]. unfold on_parser. run_simpl.
  apply (on_parser_post _ _ _ (with_collection_stack l)); [done|]. intros _. apply list.Forall_cons in Hcs as [? ?]. unfold parser_ok. cbn in *.
  repeat (split; [done|]). split; [lia|done].
Qed.

Lemma grow_spec b base :
  triple (hid_inv b base) (grow_collections mem) (λ r s, hid_inv b base s ∧ (r = true → maxcollection (device s) < Z.of_nat (length (collection (device s))))).
Proof.
  intros s [[Hd Hl] Hp]. unfold grow_collections. rewrite (run_bind _ _ s (device s) s eq_refl). pose proof Hd as (Hn & He & Hc & Hne).
  destruct (Z.eqb_spec (maxcollection (device s)) (Z.of_nat (length (collection (device s))))) as [Em|Em].
  - unfold kzalloc. run_simpl. destruct (mem (tries s)); cbn [negb bool2Z].
    + unfold on_device, kfree. run_simpl. cbn. split.
      * split; [|done]. split; cbn; [|unfold objects in *; cbn; lia]. split; [done|]. split; [done|]. split; [cbn; rewrite length_app, length_replicate; lia|]. cbn.
        destruct (collection (device s)); done.
      * intros _. rewrite length_app, length_replicate. destruct (collection (device s)); [done|]. cbn [length] in *. lia.
    + split; [|done]. split; [|done]. split; cbn; [done|lia].
  - run_simpl. split; [|lia]. by split.
Qed.
Lemma open_spec b base type : triple (hid_inv b base) (open_collection mem type) (item_post b base).
Proof.
  intros s Hs. unfold open_collection. rewrite (run_bind _ _ s (parser s) s eq_refl), (run_bind _ _ s (device s) s eq_refl). cbv zeta.
  destruct (decide _) as [|Hlen]; [by apply inv_post|]. destruct (triple_run _ _ _ s (grow_spec b base) Hs) as (ok & s1 & E & Hs1 & Hok).
  assert (Ep : parser s1 = parser s ∧ maxcollection (device s1) = maxcollection (device s)).
  { revert E. unfold grow_collections, kzalloc, on_device, kfree. run_simpl. repeat case_match; intros; simplify_eq; done. }
  destruct Ep as [Ep Em]. rewrite (run_bind _ _ _ _ _ E). destruct ok; cbn [negb]; [|by apply inv_post]. specialize (Hok eq_refl).
  destruct Hs1 as [[(Hn & He & Hc & Hne) Hl] (Hg & Hst & Hcs & Hcl & Hu)]. rewrite Ep in *. unfold on_parser, on_device. run_simpl. cbn.
  destruct (Z.ltb_spec (maxcollection (device s1)) (Z.of_nat (length (collection (device s1))))); [|lia]. cbn [negb]. unfold objects in *.
  destruct (type =? HID_COLLECTION_APPLICATION); (split; [split; [split; [done|split; [done|]]|done]|intros _]);
    cbn; try (rewrite length_insert; split; [lia|]; intros E0; apply Hne, length_zero_iff_nil; by rewrite <- (length_insert _ (Z.to_nat (maxcollection (device s1))) (HidCollection type (match usage (local (parser s)) with (u, _) :: _ => u | [] => 0 end) (Z.of_nat (length (collection_stack (parser s)))))), E0).
  all: unfold parser_ok; cbn; rewrite Ep; split; [done|]; split; [done|].
  all: split; [constructor; [lia|]; eapply stack_ok_weaken; [|done]; lia|]. all: split; [unfold HID_COLLECTION_STACK_SIZE in *; cbn; lia|done].
Qed.

Lemma laid_out_le from l size : laid_out from l size → from ≤ size.
Proof.
  revert from. induction l as [|f l IH]; intros from; cbn [laid_out]; [done|]. intros ((? & ? & ?) & ? & Hl). specialize (IH _ Hl). nia.
Qed.
Lemma laid_out_weaken from l size size' : size ≤ size' → laid_out from l size → laid_out from l size'.
Proof. intros Hs. revert from. induction l as [|f l IH]; intros from; cbn [laid_out]; [lia|]. intros (? & ? & ?). auto. Qed.
Lemma laid_out_snoc from l size f size' : laid_out from l size → field_ok f → f_offset f = size → size + f_size f * f_count f ≤ size' → laid_out from (l ++ [f]) size'.
Proof.
  intros Hl Hf Ho Hs. revert from Hl. induction l as [|g l IH]; intros from; cbn [laid_out app].
  - intros ?. split; [done|]. split; [lia|]. by rewrite Ho.
  - intros (? & ? & ?). auto.
Qed.

Lemma put_enum_ok b b' d i e e' : device_ok b d → report_enum d !! i = Some e → b ≤ b' → enum_ok b' (Z.of_nat i) e' →
  device_ok b' (with_report_enum (<[i := e']> (report_enum d)) d) ∧
  objects (with_report_enum (<[i := e']> (report_enum d)) d) = objects d + hash_weight 256 0 (report_id_hash e') - hash_weight 256 0 (report_id_hash e).
Proof.
  intros (Hn & He & Hc & Hne) Ei Hb He'. split; [|by apply enums_weight_insert]. split; [cbn; by rewrite length_insert|]. split; [|done].
  intros j x Ej. cbn in Ej. destruct (decide (i = j)) as [<-|Hij].
  - rewrite list_lookup_insert_eq in Ej by (by eapply lookup_lt_Some). by injection Ej as <-.
  - rewrite list_lookup_insert_ne in Ej by done. by eapply enum_ok_weaken, He.
Qed.
(** The report of [id] is replaced by a report that is as good. *)
Lemma replace_report_ok b b' type e id r r' : enum_ok b type e → b ≤ b' → report_id_hash e !! id = Some r → report_ok b' type id r' →
  enum_ok b' type (HidEnum (numbered e) (report_list e) (<[id := r']> (report_id_hash e))).
Proof.
  intros He Hb Er Hr'. destruct (enum_ok_weaken b b' type e Hb He) as (? & Hl & Hr & ?). split; [done|]. split; [|split; [|done]]; cbn.
  - intros j. rewrite Hl. destruct (decide (id = j)) as [<-|?]; [rewrite lookup_insert_eq, Er; split; by eexists|by rewrite lookup_insert_ne].
  - intros j x. destruct (decide (id = j)) as [<-|?]; [rewrite lookup_insert_eq; intros [= <-]; done|rewrite lookup_insert_ne by done; apply Hr].
Qed.
Lemma new_report_ok b type e id : enum_ok b type e → 0 ≤ b → 0 ≤ id < 256 → report_id_hash e !! id = None →
  enum_ok b type (HidEnum (if id =? 0 then numbered e else 1) (report_list e ++ [id]) (<[id := HidReport id type [] 0]> (report_id_hash e))).
Proof.
  intros (Hnd & Hl & Hr & Hnum) Hb Hid En. split; [|split; [|split]]; cbn.
  - apply list.NoDup_app. split; [done|]. split; [|apply list.NoDup_singleton]. intros x Hx ->%list_elem_of_singleton. apply Hl in Hx. rewrite En in Hx. by destruct Hx.
  - intros j. rewrite elem_of_app, list_elem_of_singleton, Hl. destruct (decide (id = j)) as [<-|?].
    + rewrite lookup_insert_eq. split; [by eexists|by right].
    + rewrite lookup_insert_ne by done. split; [by intros [?| ->]|by left].
  - intros j x. destruct (decide (id = j)) as [<-|?]; [rewrite lookup_insert_eq; intros [= <-]|rewrite lookup_insert_ne by done; apply Hr].
    unfold report_ok. cbn. unfold HID_MAX_FIELDS. repeat (split; [done || lia|]). lia.
  - rewrite Hnum. destruct (Z.eqb_spec id 0) as [->|Hne].
    + apply decide_ext. rewrite list.Forall_app, list.Forall_singleton. naive_solver.
    + rewrite decide_False; [done|]. rewrite list.Forall_app, list.Forall_singleton. naive_solver.
Qed.

Lemma register_report_spec b base type id : 0 ≤ b → 0 ≤ type < 3 → 0 ≤ id < 256 →
  triple (hid_inv b base) (hid_register_report mem type id)
    (λ ok s, hid_inv b base s ∧ (ok = true → ∃ e r, report_enum (device s) !! Z.to_nat type = Some e ∧ report_id_hash e !! id = Some r)).
Proof.
  intros Hb Ht Hid s [[Hd Hl] Hp]. unfold hid_register_report, enum_at. pose proof Hd as (Hn & He & _).
  destruct (lookup_lt_is_Some_2 (report_enum (device s)) (Z.to_nat type)) as [e Ee]; [lia|].
  rewrite (run_bind _ _ s e s) by (by rewrite (run_bind _ _ s (device s) s eq_refl), Ee). destruct (Z.leb_spec 256 id); [lia|].
  destruct (report_id_hash e !! id) as [r|] eqn:Er; [split; [by split|]; intros _; by exists e, r|].
  unfold kzalloc. run_simpl. destruct (mem (tries s)); cbn [negb bool2Z]; [|split; [|done]; split; [|done]; split; [done|cbn; lia]].
  specialize (He _ _ Ee). replace (Z.of_nat (Z.to_nat type)) with type in He by lia.
  unfold set_enum, on_device. run_simpl. set (e' := HidEnum _ _ _).
  destruct (put_enum_ok b b (device s) (Z.to_nat type) e e' Hd Ee ltac:(lia)) as [Hd' Ho]; [replace (Z.of_nat (Z.to_nat type)) with type by lia; by apply new_report_ok|].
  cbn. split; [split; [split; [done|]|done]|].
  - cbn [live device]. rewrite Ho. subst e'. cbn [report_id_hash]. rewrite hash_weight_insert, Er by lia. cbn [weight fields length]. lia.
  - intros _. exists e'. rewrite list_lookup_insert_eq by lia. eexists. split; [done|]. apply lookup_insert_eq.
Qed.

Lemma lookup_run s stack type : stack_ok (Z.of_nat (length (collection (device s)))) stack → ∃ u, lookup_collection stack type s = Done (u, s).
Proof.
  induction stack as [|n l IH]; intros Hs; cbn [lookup_collection]; [by eexists|]. rewrite (run_bind _ _ s (device s) s eq_refl).
  apply list.Forall_cons in Hs as [Hn Hs]. destruct (lookup_lt_is_Some_2 (collection (device s)) (Z.to_nat n)) as [c ->]; [lia|].
  destruct (c_type c =? type); [by eexists|]. by apply IH.
Qed.
Lemma lookup_collection_run s type : stack_ok (Z.of_nat (length (collection (device s)))) (collection_stack (parser s)) → ∃ u, hid_lookup_collection type s = Done (u, s).
Proof. intros Hs. unfold hid_lookup_collection. rewrite (run_bind _ _ s (parser s) s eq_refl). by apply lookup_run. Qed.
Lemma report_at_run s type id e r : report_enum (device s) !! Z.to_nat type = Some e → report_id_hash e !! id = Some r → report_at type id s = Done (r, s).
Proof. intros Ee Er. unfold report_at, enum_at. run_simpl. by rewrite Ee, Er. Qed.
Definition with_report (type id : Z) (r : hid_report) (e : hid_report_enum) (d : hid_device) : hid_device :=
  with_report_enum (<[Z.to_nat type := HidEnum (numbered e) (report_list e) (<[id := r]> (report_id_hash e))]> (report_enum d)) d.
Lemma set_report_run s type id e r : report_enum (device s) !! Z.to_nat type = Some e →
  set_report type id r s = Done (tt, Hst (tries s) (live s) (parser s) (with_report type id r e (device s))).
Proof. intros Ee. unfold set_report, enum_at, set_enum, on_device. run_simpl. by rewrite Ee. Qed.
(** Replacing a report keeps the invariant; the objects change by the number of fields. *)
Lemma with_report_ok b b' type id e r r' d : device_ok b d → 0 ≤ type → 0 ≤ id < 256 → report_enum d !! Z.to_nat type = Some e → report_id_hash e !! id = Some r →
  b ≤ b' → report_ok b' type id r' →
  device_ok b' (with_report type id r' e d) ∧ objects (with_report type id r' e d) = objects d + Z.of_nat (length (fields r')) - Z.of_nat (length (fields r)).
Proof.
  intros Hd Ht Hid Ee Er Hb Hr'. pose proof Hd as (_ & He & _). specialize (He _ _ Ee). edestruct put_enum_ok as [Hd' Ho]; [exact Hd|exact Ee|exact Hb| |].
  - eapply replace_report_ok; [exact He|done|exact Er|]. by replace (Z.of_nat (Z.to_nat type)) with type by lia.
  - split; [exact Hd'|]. unfold with_report. rewrite Ho. cbn [report_id_hash]. rewrite hash_weight_insert, Er by lia. cbn [weight]. lia.
Qed.

Lemma field_usages_length l n : 0 ≤ n → Z.of_nat (length (field_usages l n)) = n.
Proof. intros Hn. unfold field_usages. rewrite length_map, length_seq. lia. Qed.

(** The largest number of bits a field takes *)
Definition max_field_bits : Z := 32 * HID_MAX_USAGES.

Lemma fill_field_spec b base s type flags offset n e r field :
  device_ok b (device s) → parser_ok (device s) (parser s) → live s = base + objects (device s) + 1 → 0 ≤ type →
  let g := global (parser s) in
  report_enum (device s) !! Z.to_nat type = Some e → report_id_hash e !! report_id g = Some r → Z.of_nat (length (fields r)) < HID_MAX_FIELDS →
  logical_minimum g ≤ logical_maximum g → 0 < n ≤ HID_MAX_USAGES → report_count g ≤ n → value field = replicate (Z.to_nat (report_count g)) 0 →
  laid_out 0 (fields r) offset → offset + report_size g * report_count g ≤ r_size r →
  match fill_field type flags offset n r field s with Done (x, s') => item_post b base x s' | Fault _ => False end.
Proof.
  intros Hd Hp Hl Ht g Ee Er Hfn Hlm Hn Hcn Hv Hlo Hsz. unfold fill_field. rewrite (run_bind _ _ s (parser s) s eq_refl). cbv zeta. fold g.
  pose proof Hp as ((Hg1 & Hg2 & Hg3 & Hg4 & Hg5) & _ & Hcs & _). fold g in Hg1, Hg2, Hg3, Hg4, Hg5.
  assert (Hst : stack_ok (Z.of_nat (length (collection (device s)))) (collection_stack (parser s))) by (eapply stack_ok_weaken; [|exact Hcs]; apply Hd).
  destruct (lookup_collection_run s HID_COLLECTION_PHYSICAL Hst) as [u1 E1], (lookup_collection_run s HID_COLLECTION_LOGICAL Hst) as [u2 E2], (lookup_collection_run s HID_COLLECTION_APPLICATION Hst) as [u3 E3].
  rewrite (run_bind _ _ _ _ _ E1), (run_bind _ _ _ _ _ E2), (run_bind _ _ _ _ _ E3). set (f := HidField _ _ _ _ _ _ _ _ _ _ _ _ _ _ _ _ _ _). set (r' := HidReport _ _ (fields r ++ [f]) _).
  rewrite (run_bind _ _ _ _ _ (set_report_run s type (report_id g) e r' Ee)).
  assert (Hf : field_ok f).
  { unfold field_ok, f. cbn. rewrite Hv, field_usages_length, length_replicate by lia. repeat (split; [done || lia|]). split; [apply list.Forall_replicate; unfold s32_ok; lia|done]. }
  pose proof Hd as (_ & He & _). destruct (He _ _ Ee) as (_ & _ & Hr & _). destruct (Hr _ _ Er) as (_ & Hid & Hty & _ & _ & Hb).
  replace (Z.of_nat (Z.to_nat type)) with type in Hty by lia.
  assert (Hr' : report_ok b type (report_id g) r').
  { unfold report_ok, r'. cbn [r_id r_type fields r_size]. rewrite length_app. cbn [length]. repeat (split; [done || lia|]). split; [by eapply laid_out_snoc|done]. }
  destruct (with_report_ok b b type (report_id g) e r r' (device s) Hd Ht Hg5 Ee Er ltac:(lia) Hr') as [Hd' Ho].
  split; [split; [done|]|done]. cbn [live device]. rewrite Ho. cbn [fields r']. rewrite length_app. cbn [length]. lia.
Qed.

Lemma add_field_spec b base type flags : 0 ≤ b → b + max_field_bits < 2 ^ 32 → 0 ≤ type < 3 →
  triple (hid_inv b base) (hid_add_field mem type flags) (item_post (b + max_field_bits) base).
Proof.
  intros Hb Hbm Ht s Hs. unfold hid_add_field, max_field_bits, HID_MAX_USAGES in *. rewrite (run_bind _ _ s (parser s) s eq_refl). cbv zeta. set (g := global (parser s)).
  pose proof Hs as [_ ((Hg1 & Hg2 & Hg3 & Hg4 & Hg5) & _ & _ & _ & Hul)]. fold g in Hg1, Hg2, Hg3, Hg4, Hg5. change HID_MAX_USAGES with 1024 in Hg4, Hul.
  destruct (triple_run _ _ _ s (register_report_spec b base type (report_id g) Hb Ht Hg5) Hs) as (ok & s1 & E1 & Hs1 & Hok).
  assert (Hw : ∀ r, item_post (b + 32 * 1024) base r s1) by (intros r; destruct Hs1 as [? ?]; split; [eapply dev_inv_weaken; [|done]; lia|done]).
  assert (Ep : parser s1 = parser s) by (revert E1; unfold hid_register_report, enum_at, set_enum, on_device, kzalloc; run_simpl; repeat case_match; intros; simplify_eq; done).
  rewrite (run_bind _ _ _ _ _ E1). destruct ok; cbn [negb]; [|apply Hw]. destruct (Hok eq_refl) as (e & r & Ee & Er).
  destruct (Z.ltb_spec (logical_maximum g) (logical_minimum g)); [apply Hw|].
  rewrite (run_bind _ _ _ _ _ (report_at_run s1 type _ e r Ee Er)). destruct Hs1 as [[Hd Hl] Hp].
  pose proof Hd as (_ & He & _). destruct (He _ _ Ee) as (_ & _ & Hr & _). destruct (Hr _ _ Er) as (_ & Hid & Hty & Hfn & Hlo & Hsz).
  replace (Z.of_nat (Z.to_nat type)) with type in Hty by lia. pose proof (laid_out_le _ _ _ Hlo).
  assert (Hprod : 0 ≤ report_size g * report_count g ≤ 32 * 1024) by nia.
  rewrite (u32_small (report_size g * report_count g)) by lia. rewrite u32_small by lia. set (r1 := HidReport (r_id r) (r_type r) (fields r) (r_size r + report_size g * report_count g)).
  rewrite (run_bind _ _ _ _ _ (set_report_run s1 type (report_id g) e r1 Ee)). set (s2 := Hst _ _ _ _).
  assert (Hr1 : report_ok (b + 32 * 1024) type (report_id g) r1).
  { unfold report_ok. cbn. repeat (split; [done|]). split; [eapply laid_out_weaken; [|done]; lia|lia]. }
  destruct (with_report_ok b (b + 32 * 1024) type (report_id g) e r r1 (device s1) Hd ltac:(lia) Hg5 Ee Er ltac:(lia) Hr1) as [Hd2 Ho2].
  assert (Hp2 : ∀ x d, maxcollection d = maxcollection (device s1) → x = 0 → parser_ok d (parser s1)) by (intros x d Em _; unfold parser_ok; rewrite Em; exact Hp).
  assert (Hs2 : ∀ x, item_post (b + 32 * 1024) base x s2).
  { intros x. split; [split; [done|]|by apply Hp2]. cbn [live device s2]. rewrite Ho2. cbn [fields r1]. lia. }
  destruct (decide _) as [|Hne]; [apply Hs2|].
  unfold hid_register_field. cbn [fields r1]. destruct (Z.eqb_spec (Z.of_nat (length (fields r))) HID_MAX_FIELDS); [apply Hs2|].
  unfold kzalloc. set (nu := Z.max _ _). run_simpl. destruct (mem (tries s2)) eqn:Em; cbn [negb bool2Z].
  - apply (fill_field_spec (b + 32 * 1024) base (Hst _ _ _ _) type flags (r_size r) nu (HidEnum (numbered e) (report_list e) (<[report_id g := r1]> (report_id_hash e))) r1); cbn [device parser live s2]; rewrite ?Ep; fold g.
    all: try done.
    + rewrite <- Ep. by apply (Hp2 0).
    + destruct (Hs2 0) as [[_ Hl2] _]. cbn [live device s2] in Hl2. lia.
    + lia.
    + unfold with_report. cbn. apply list_lookup_insert_eq. by eapply lookup_lt_Some.
    + cbn. apply lookup_insert_eq.
    + cbn. lia.
    + unfold HID_MAX_USAGES, nu. lia.
    + lia.
  - destruct (Hs2 0) as [[Ha Hc] Hq]. split; [split; [done|cbn in *; lia]|done].
Qed.

Lemma main_spec b base item : 0 ≤ b → b + max_field_bits < 2 ^ 32 → triple (hid_inv b base) (hid_parser_main mem item) (item_post (b + max_field_bits) base).
Proof.
  intros Hb Hbm. unfold hid_parser_main. eapply (triple_bind _ _ (item_post (b + max_field_bits) base)).
  - assert (Hweak : ∀ m : M hst Z, triple (hid_inv b base) m (item_post b base) → triple (hid_inv b base) m (item_post (b + max_field_bits) base)).
    { intros m Hm. eapply triple_conseq; [exact Hm|done|]. intros r s [? ?]. split; [eapply dev_inv_weaken; [|done]|done]. unfold max_field_bits, HID_MAX_USAGES. lia. }
    destruct (_ =? 10); [apply Hweak, open_spec|]. destruct (_ =? 12); [apply Hweak, close_spec|].
    repeat (destruct (_ =? _); [apply add_field_spec; (done || (unfold HID_INPUT_REPORT, HID_OUTPUT_REPORT, HID_FEATURE_REPORT; lia))|]).
    apply Hweak, triple_ret. intros s Hs. by apply inv_post.
  - intros r s [Hd Hp]. unfold on_local, on_parser. run_simpl. split; [done|]. intros Hr. destruct (Hp Hr) as (? & ? & ? & ? & ?).
    unfold parser_ok. cbn. repeat (split; [done|]). unfold HID_MAX_USAGES. lia.
Qed.
Lemma dispatch_spec b base item : 0 ≤ b → b + max_field_bits < 2 ^ 32 → item_ok item → id_small item = true →
  triple (hid_inv b base) (dispatch_type mem item) (item_post (b + max_field_bits) base).
Proof.
  intros Hb Hbm Hi Hid. unfold dispatch_type.
  assert (Hweak : ∀ m : M hst Z, triple (hid_inv b base) m (item_post b base) → triple (hid_inv b base) m (item_post (b + max_field_bits) base)).
  { intros m Hm. eapply triple_conseq; [exact Hm|done|]. intros r s [? ?]. split; [eapply dev_inv_weaken; [|done]|done]. unfold max_field_bits, HID_MAX_USAGES. lia. }
  destruct (Z.eqb_spec (i_type item) 0); [by apply main_spec|]. destruct (Z.eqb_spec (i_type item) 1); [by apply Hweak, global_spec|].
  destruct (Z.eqb_spec (i_type item) 2); [by apply Hweak, local_spec|]. destruct (Z.eqb_spec (i_type item) 3); [|destruct Hi as (? & ? & ?); lia].
  apply Hweak, triple_ret. intros s Hs. by apply inv_post.
Qed.

(** ** Freeing *)

Definition freed (n : Z) (s : hst) : hst := Hst (tries s) (live s - n) (parser s) (device s).
Lemma freed_freed n m s : freed n (freed m s) = freed (m + n) s.
Proof. unfold freed. cbn. f_equal. lia. Qed.
Lemma free_report_run r s : hid_free_report r s = Done (tt, freed (weight (Some r)) s).
Proof.
  unfold hid_free_report. assert (H : ∀ (l : list hid_field) s, seqM (map (λ _, kfree 1) l) s = Done (tt, freed (Z.of_nat (length l)) s)).
  { induction l as [|f l IH]; intros s'; [unfold freed; cbn; rewrite Z.sub_0_r; by destruct s'|]. cbn [map seqM]. rewrite (run_bind _ _ s' tt (freed 1 s') eq_refl), IH, freed_freed. do 3 f_equal. cbn [length]. lia. }
  rewrite (run_bind _ _ _ _ _ (H (fields r) s)). change (kfree 1 (freed (Z.of_nat (length (fields r))) s)) with (Done (tt, freed 1 (freed (Z.of_nat (length (fields r))) s))). rewrite freed_freed. do 3 f_equal. cbn. lia.
Qed.
Lemma free_hash_run n j e s : free_hash n j e s = Done (tt, freed (hash_weight n j (report_id_hash e)) s).
Proof.
  revert j s. induction n as [|n IH]; intros j s; cbn [free_hash hash_weight]; [unfold freed; rewrite Z.sub_0_r; by destruct s|].
  assert (E : (match report_id_hash e !! j with Some r => hid_free_report r | None => mret tt end) s = Done (tt, freed (weight (report_id_hash e !! j)) s)).
  { destruct (report_id_hash e !! j); [apply free_report_run|]. unfold freed. cbn. rewrite Z.sub_0_r. by destruct s. }
  by rewrite (run_bind _ _ _ _ _ E), IH, freed_freed.
Qed.
Lemma free_device_run d s : hid_free_device d s = Done (tt, freed (objects d + 3) s).
Proof.
  unfold hid_free_device. assert (H : ∀ l s, seqM (map (free_hash 256 0) l) s = Done (tt, freed (enums_weight l) s)).
  { induction l as [|e l IH]; intros s'; [unfold freed; cbn; rewrite Z.sub_0_r; by destruct s'|]. cbn [map seqM enums_weight]. by rewrite (run_bind _ _ _ _ _ (free_hash_run 256 0 e s')), IH, freed_freed. }
  rewrite (run_bind _ _ _ _ _ (H (report_enum d) s)). set (s1 := freed _ s).
  rewrite (run_bind _ _ s1 tt (freed 1 s1) eq_refl), (run_bind _ _ (freed 1 s1) tt (freed 1 (freed 1 s1)) eq_refl). subst s1.
  transitivity (Done (tt, freed 1 (freed 1 (freed 1 (freed (enums_weight (report_enum d)) s))))); [reflexivity|]. by rewrite !freed_freed.
Qed.

(** ** Items of a descriptor *)

Lemma land_small b k n : 0 ≤ b → 0 ≤ n → k = 2 ^ n - 1 → 0 ≤ Z.land b k < 2 ^ n.
Proof. intros Hb Hn ->. rewrite Z.sub_1_r, <- Z.ones_equiv, Z.land_ones by lia. apply Z.mod_pos_bound. lia. Qed.
Lemma fetch_ok bs item rest : Forall byte_ok bs → fetch_item bs = Some (item, rest) →
  (length rest < length bs)%nat ∧ Forall byte_ok rest ∧ (format item = HID_ITEM_FORMAT_SHORT → item_ok item).
Proof.
  intros Hb E. unfold fetch_item in E. unfold item_ok. destruct bs as [|b bs]; [done|]. apply list.Forall_cons in Hb as [Hb Hbs]. unfold byte_ok in Hb.
  assert (Hty : 0 ≤ Z.land (Z.shiftr b 2) 3 < 4) by (apply (land_small _ _ 2); [apply Z.shiftr_nonneg|..]; lia).
  destruct (_ =? HID_ITEM_TAG_LONG).
  { destruct bs as [|size [|tag bs]]; [done|done|]. destruct (_ <? size); [done|]. simplify_eq. rewrite !list.Forall_cons in Hbs. cbn.
    rewrite length_drop. split; [lia|]. split; [apply list.Forall_drop; naive_solver|done]. }
  destruct (_ =? 0); [simplify_eq; cbn; split; [lia|]; split; [done|]; intros _; lia|].
  destruct (_ =? 1).
  { destruct bs as [|b0 bs]; [done|]. simplify_eq. apply list.Forall_cons in Hbs as [? ?]. unfold byte_ok in *. cbn. split; [lia|]. split; [done|]. intros _. lia. }
  destruct (_ =? 2).
  { destruct bs as [|b0 [|b1 bs]]; [done|done|]. simplify_eq. rewrite !list.Forall_cons in Hbs. unfold byte_ok in *. cbn. split; [lia|]. split; [naive_solver|]. intros _. lia. }
  destruct bs as [|b0 [|b1 [|b2 [|b3 bs]]]]; [done|done|done|done|]. simplify_eq. rewrite !list.Forall_cons in Hbs. unfold byte_ok in *. cbn. split; [lia|]. split; [naive_solver|]. intros _. lia.
Qed.

(** No Report ID of the descriptor is too large for the table of reports. *)
Fixpoint small_ids (n : nat) (bs : list Z) : bool :=
  match n, fetch_item bs with
  | S n, Some (item, rest) => id_small item && small_ids n rest
  | _, _ => true
  end.
(** The bound on the sizes of reports after the items of [n] bytes *)
Definition bits_of (n : nat) : Z := Z.of_nat n * max_field_bits.

Definition parsed_ok (bound base : Z) (r : option hid_device) (s : hst) : Prop :=
  match r with Some d => d = device s ∧ device_ok bound d ∧ live s = base + objects d + 3 | None => live s = base end.
Lemma failed_spec b base : triple (dev_inv b (base + 4)) parse_failed (parsed_ok b base).
Proof.
  intros s [Hd Hl]. unfold parse_failed. rewrite (run_bind _ _ s (device s) s eq_refl), (run_bind _ _ _ _ _ (free_device_run (device s) s)).
  unfold kfree, freed. run_simpl. cbn [parsed_ok live]. lia.
Qed.

Section Loop.
Context (base b B : Z) (Hb : 0 ≤ b ≤ B).
Lemma failed_at : triple (dev_inv b (base + 4)) parse_failed (parsed_ok B base).
Proof. eapply triple_conseq; [apply (failed_spec B)|intros s; apply dev_inv_weaken; lia|done]. Qed.
(** The end of the descriptor *)
Lemma parse_end : triple (hid_inv b (base + 4)) (p ← gets parser;
  if decide (length (collection_stack p) = O) then
    if delimiter_depth (local p) =? 0 then kfree 1 ;; d ← gets device; mret (Some d) else parse_failed
  else parse_failed) (parsed_ok B base).
Proof.
  intros s [Hd Hp]. rewrite (run_bind _ _ s (parser s) s eq_refl). pose proof (failed_at s Hd) as Hf. destruct (decide _); [|exact Hf]. destruct (_ =? 0); [|exact Hf].
  unfold kfree. run_simpl. cbn [parsed_ok device live]. destruct Hd as [Hd Hl]. split; [done|]. split; [by apply (device_ok_weaken b); [lia|]|lia].
Qed.
End Loop.

(** Every turn of the loop consumes at least a byte, so that the fuel is enough. *)
Lemma parse_loop_spec base fuel n bs b B : Forall byte_ok bs → (length bs ≤ n)%nat → (length bs ≤ S fuel)%nat → small_ids n bs = true →
  0 ≤ b → b + bits_of (length bs) ≤ B → B < 2 ^ 32 → triple (hid_inv b (base + 4)) (parse_loop mem fuel bs) (parsed_ok B base).
Proof.
  revert n bs b. induction fuel as [|fuel IH]; intros n bs b Hb Hn Hlen Hid Hb0 Hb1 HB; cbn [parse_loop].
  all: assert (Hmf : 0 < max_field_bits) by done; pose proof (Z.mul_nonneg_nonneg (Z.of_nat (length bs)) max_field_bits ltac:(lia) ltac:(lia)).
  all: destruct (fetch_item bs) as [[item rest]|] eqn:E; [|eapply triple_conseq; [apply (failed_at base b B); unfold bits_of in *; lia|by intros s [? ?]|done]].
  all: destruct (fetch_ok bs item rest Hb E) as (Hlt & Hrest & Hitem).
  all: assert (Hk : max_field_bits + bits_of (length rest) ≤ bits_of (length bs) ∧ 0 ≤ bits_of (length rest)) by (unfold bits_of, max_field_bits, HID_MAX_USAGES; lia).
  all: destruct n as [|n]; [lia|]; cbn [small_ids] in Hid; rewrite E in Hid; apply andb_prop in Hid as [Hid1 Hid2].
  all: destruct (format item); [|eapply triple_conseq; [apply (failed_at base b B); lia|by intros s [? ?]|done]].
  all: eapply triple_bind; [apply (dispatch_spec b (base + 4) item); [done|lia|by apply Hitem|done]|]; intros r.
  all: destruct (Z.eqb_spec r 0) as [->|Hr]; cbn [negb]; [|eapply triple_conseq; [apply (failed_at base (b + max_field_bits) B); lia|by intros s [? ?]|done]].
  all: destruct rest as [|x rest]; [eapply triple_conseq; [apply (parse_end base (b + max_field_bits) B); lia|intros s [? Hp]; split; [done|by apply Hp]|done]|].
  - cbn [length] in Hlt. lia.
  - eapply triple_conseq; [apply (IH n (x :: rest) (b + max_field_bits))|intros s [? Hp]; split; [done|by apply Hp]|done]; (done || lia).
Qed.

(** C29: every report descriptor of at most [HID_MAX_DESCRIPTOR_SIZE] bytes whose report ids are below 256 is
    parsed without a fault and within as many turns as it has bytes, whatever allocations fail.  The result is a
    well-formed device (its fields lie in their reports in order and without overlap, have as many usages and values as they
    need and a valid range, and the tables agree) that [hid_free_device] frees completely, or NULL with
    everything freed that was allocated. *)
Theorem hid_parse_safe bs s : Forall byte_ok bs → (length bs ≤ 4096)%nat → small_ids (length bs) bs = true →
  ∃ r s', hid_parse_report mem bs s = Done (r, s') ∧
    match r with
    | None => live s' = live s
    | Some d => device_ok (bits_of (length bs)) d ∧ ∃ s'', hid_free_device d s' = Done (tt, s'') ∧ live s'' = live s
    end.
Proof.
  intros Hb Hlen Hid. unfold hid_parse_report, kzalloc, kfree, on_device, on_parser.
  do 4 (run_simpl; cbn [tries live parser device]; destruct (mem _); cbn [negb bool2Z]; [|eexists _, _; split; [reflexivity|cbn; lia]]).
  run_simpl. cbn [tries live parser device].
  set (s1 := Hst _ _ zero_parser _). assert (Hs1 : hid_inv 0 (live s + 4) s1).
  { assert (Ho : enums_weight (replicate 3 zero_enum) = 0) by (vm_compute; reflexivity).
    split; [split; [|unfold objects; cbn [device report_enum live s1]; lia]|].
    - split; [done|]. split; [|split; [cbn; lia|done]]. intros i e Ei. apply lookup_replicate in Ei as [-> _]. split; [apply base.NoDup_nil_2|].
      split; [intros id; cbn; rewrite lookup_empty; split; [intros Hx; by inversion Hx|by intros []]|]. split; [intros id r; cbn; by rewrite lookup_empty|]. by rewrite decide_True.
    - split; [unfold global_ok, s32_ok, HID_MAX_USAGES; cbn; lia|]. do 2 (split; [constructor|]). split; [cbn; unfold HID_COLLECTION_STACK_SIZE; lia|done]. }
  destruct (triple_run _ _ _ s1 (parse_loop_spec (live s) (length bs) (length bs) bs 0 (bits_of (length bs)) Hb ltac:(lia) ltac:(lia) Hid ltac:(lia) ltac:(lia)
    ltac:(unfold bits_of, max_field_bits, HID_MAX_USAGES; lia)) Hs1) as (r & s' & E & Hr).
  exists r, s'. split; [exact E|]. destruct r as [d|]; [|exact Hr]. destruct Hr as (-> & Hd & Hl). split; [done|]. rewrite free_device_run. eexists. split; [done|]. cbn. lia.
Qed.
End Parse.

(** ** Descriptors *)

(** The descriptor of a boot keyboard *)
Definition keyboard : list Z :=
  [5; 1; 9; 6; 161; 1; 5; 7; 25; 224; 41; 231; 21; 0; 37; 1; 117; 1; 149; 8; 129; 2; 149; 1; 117; 8; 129; 1; 149; 5; 117; 1; 5; 8; 25; 1; 41; 5;
   145; 2; 149; 1; 117; 3; 145; 1; 149; 6; 117; 8; 21; 0; 37; 101; 5; 7; 25; 0; 41; 101; 129; 0; 192].
Definition hid_start : hst := Hst 0 0 zero_parser (HidDevice [] [] 0 0 []).
Lemma hid_parse_safe_witness :
  (∃ r s', hid_parse_report (λ n, (n <? 7)%nat) keyboard hid_start = Done (r, s') ∧
    match r with
    | None => live s' = 0
    | Some d => device_ok (bits_of (length keyboard)) d ∧ ∃ s'', hid_free_device d s' = Done (tt, s'') ∧ live s'' = 0
    end) ∧
  match hid_parse_report (λ _, true) keyboard hid_start with Done (Some d, s') => live s' = 8 ∧ length (report_enum d) = 3%nat | _ => False end.
Proof.
  split; [|vm_compute; split; reflexivity].
  apply (hid_parse_safe (λ n, (n <? 7)%nat) keyboard hid_start); [|cbn; lia|vm_compute; reflexivity].
  repeat constructor; unfold byte_ok; lia.
Defined.

(** A report id of 256 is used as an index of the table of 256 reports. *)
Theorem report_id_overflows : hid_parse_report (λ _, true) [134; 0; 1; 128] hid_start = Fault FBounds.
Proof. vm_compute. reflexivity. Qed.
(** A descriptor with a set of alternative usages is rejected, as the items that begin and end the set return 1. *)
Theorem delimiter_rejected :
  match hid_parse_report (λ _, true) [5; 1; 9; 6; 161; 1; 117; 1; 149; 1; 9; 224; 129; 2; 192] hid_start with Done (r, _) => r ≠ None | Fault _ => False end ∧
  match hid_parse_report (λ _, true) [5; 1; 9; 6; 161; 1; 117; 1; 149; 1; 169; 1; 9; 224; 169; 0; 129; 2; 192] hid_start with Done (r, _) => r = None | Fault _ => False end.
Proof. vm_compute. split; [discriminate|reflexivity]. Qed.
