(* ===== verification/HidReport.v ===== *)
(** HID reports, sent and received: the part of drivers/hid/hid-core.c that
    takes reports apart and puts them together.

    The buffer of a report is a list of bytes, an access outside of it is a
    fault, and so is a shift by as many bits as the operand has or more, which C leaves
    undefined.  The events that are passed on to hid-input.c and hiddev are
    recorded in a log. *)

From S2P Require Import Prelude Hid HidParse.

(** ** State *)

(** An event with the number of the field in its report, the number of the usage in its field, and a value;
    [hidinput_hid_event] and [hiddev_hid_event], [hiddev_report_event], [hidinput_report_event] *)
Inductive hid_event :=
| InputEvent (field usage v : Z)
| HiddevEvent (field usage v : Z)
| HiddevReport (id : Z)
| InputReport (id : Z).
Record rst := Rst { rtries : nat; data : list Z; log : list hid_event }.
Abbreviation RM := (M rst).

(** [claimed] of the device, and which hooks of hiddev are set *)
Record hid_users := HidUsers { claimed : Z; hiddev_event : bool; hiddev_report : bool }.

Section Report.
Context (mem : nat → bool) (users : hid_users).

Definition log_event (e : hid_event) : RM unit := modify (λ s, Rst (rtries s) (data s) (log s ++ [e])).
Definition rmalloc : RM bool := λ s, Done (mem (rtries s), Rst (S (rtries s)) (data s) (log s)).

(** ** Bit fields *)

(** Little-endian numbers *)
Fixpoint le_val (l : list Z) : Z := match l with [] => 0 | b :: l => b + 256 * le_val l end.
Fixpoint le_bytes (n : nat) (x : Z) : list Z := match n with O => [] | S n => x mod 256 :: le_bytes n (x / 256) end.
Definition in_buffer (p n : Z) (s : rst) : bool := (0 <=? p) && (p + n <=? Z.of_nat (length (data s))).
Definition get_unaligned64 (p : Z) : RM Z := λ s,
  if in_buffer p 8 s then Done (le_val (take 8 (drop (Z.to_nat p) (data s))), s) else Fault FBounds.
Definition put_bytes (p : Z) (bs : list Z) : RM unit := λ s,
  if in_buffer p (Z.of_nat (length bs)) s
  then Done (tt, Rst (rtries s) (take (Z.to_nat p) (data s) ++ bs ++ drop (Z.to_nat p + length bs) (data s)) (log s)) else Fault FBounds.

(** [extract] and [implement] on the report at [report] *)
Definition extract (report offset n : Z) : RM Z :=
  x ← get_unaligned64 (report + Z.shiftr offset 3);
  if 64 <=? n then fail FBounds else
  mret (u32 (Z.land (Z.shiftr x (Z.land offset 7)) (2 ^ n - 1))).
Definition implement (report offset n value : Z) : RM unit :=
  if 64 <=? n then fail FBounds else
  let m := 2 ^ n - 1 in
  let value := Z.land value m in
  let p := report + Z.shiftr offset 3 in
  let offset := Z.land offset 7 in
  x ← get_unaligned64 p;
  let x := Z.ldiff x (u64 (Z.shiftl m offset)) in
  let x := Z.lor x (u64 (Z.shiftl value offset)) in
  put_bytes p (le_bytes 8 x).

Definition snto32 (value n : Z) : RM Z :=
  if n =? 8 then mret (sext 8 value)
  else if n =? 16 then mret (sext 16 value)
  else if n =? 32 then mret (sext 32 value)
  else if (n <=? 0) || (32 <? n) then fail FBounds
  else mret (if Z.land value (2 ^ (n - 1)) =? 0 then s32 value else s32 (Z.lor value (u32 (Z.shiftl (-1) n)))).
Definition s32ton (value n : Z) : RM Z :=
  if (n <=? 0) || (32 <? n) then fail FBounds else
  let a := Z.shiftr value (n - 1) in
  if negb (a =? 0) && negb (a =? -1) then mret (if value <? 0 then 2 ^ (n - 1) else 2 ^ (n - 1) - 1)
  else if n =? 32 then fail FBounds
  else mret (Z.land value (2 ^ n - 1)).

(** ** Received reports *)

(** [search] on an array with [n] entries: 0 if the value is there *)
Fixpoint search (array : list Z) (v : Z) : Z :=
  match array with [] => -1 | x :: array => if x =? v then 0 else search array v end.
Definition hid_process_event (f : hid_field) (usage v : Z) (interrupt : bool) : RM unit :=
  (if Z.land (claimed users) HID_CLAIMED_INPUT =? 0 then mret tt else log_event (InputEvent (index f) usage v)) ;;
  (if negb (Z.land (claimed users) HID_CLAIMED_HIDDEV =? 0) && interrupt && hiddev_event users then log_event (HiddevEvent (index f) usage v) else mret tt).

Definition value_in_range (f : hid_field) (v : Z) : bool := (f_min f <=? v) && (v <=? f_max f).
Definition variable (f : hid_field) : bool := negb (Z.land HID_MAIN_ITEM_VARIABLE (flags f) =? 0).
(** The usage code of a value of an array *)
Definition usage_of (f : hid_field) (v : Z) : RM Z :=
  match usages f !! Z.to_nat (v - f_min f) with Some u => mret (hid u) | None => fail FBounds end.
Definition get_value (f : hid_field) (report n : Z) : RM Z :=
  x ← extract report (u32 (f_offset f + n * f_size f)) (f_size f);
  if f_min f <? 0 then snto32 x (f_size f) else mret (s32 x).
(** The values of a field from the [n]-th on; none if a keyboard reports a rollover *)
Fixpoint read_values (k : nat) (f : hid_field) (report n : Z) : RM (option (list Z)) :=
  match k with
  | O => mret (Some [])
  | S k =>
      v ← get_value f report n;
      roll ← (if negb (variable f) && value_in_range f v then u ← usage_of f v; mret (u =? HID_UP_KEYBOARD + 1) else mret false);
      if (roll : bool) then mret None else
      vs ← read_values k f report (n + 1);
      mret ((λ vs, v :: vs) <$> vs)
  end.
(** The part of an array's event loop for one of the values [v], given those of the other report *)
Definition array_event (f : hid_field) (v : Z) (others : list Z) (pressed : Z) (interrupt : bool) : RM unit :=
  if value_in_range f v then
    u ← usage_of f v;
    if negb (u =? 0) && negb (search others v =? 0) then hid_process_event f (v - f_min f) pressed interrupt else mret tt
  else mret tt.
Fixpoint event_loop (f : hid_field) (n : Z) (olds news : list Z) (all : list Z) (interrupt : bool) : RM unit :=
  match olds, news with
  | old :: olds, new :: news =>
      (if variable f then hid_process_event f n new interrupt
       else array_event f old all 0 interrupt ;; array_event f new (value f) 1 interrupt) ;;
      event_loop f (n + 1) olds news all interrupt
  | _, [] => mret tt
  | [], _ :: _ => fail FBounds
  end.
Definition with_value (vs : list Z) (f : hid_field) : hid_field :=
  HidField (physical f) (logical f) (application f) (usages f) (maxusage f) (flags f) (f_offset f) (f_size f) (f_count f) (f_type f) vs
    (f_min f) (f_max f) (f_pmin f) (f_pmax f) (f_exponent f) (f_unit f) (index f).
(** [hid_input_field]: the field with the values it has afterwards *)
Definition hid_input_field (f : hid_field) (report : Z) (interrupt : bool) : RM hid_field :=
  ok ← rmalloc;
  if negb ok then mret f else
  vs ← read_values (Z.to_nat (f_count f)) f report 0;
  match vs with
  | None => mret f
  | Some vs => event_loop f 0 (value f) vs vs interrupt ;; mret (with_value vs f)
  end.
Fixpoint input_fields (l : list hid_field) (report : Z) (interrupt : bool) : RM (list hid_field) :=
  match l with
  | [] => mret []
  | f :: l => f ← hid_input_field f report interrupt; l ← input_fields l report interrupt; mret (f :: l)
  end.
(** [hid_input_report]: the result and the report enum with the new values *)
Definition hid_input_report (e : hid_report_enum) (size : Z) (interrupt : bool) : RM (Z * hid_report_enum) :=
  if size =? 0 then mret (-1, e) else
  n ← (if numbered e =? 0 then mret 0 else
       s ← get; match data s with b :: _ => mret b | [] => fail FBounds end);
  let '(report, size) := if numbered e =? 0 then (0, size) else (1, size - 1) in
  match report_id_hash e !! n with
  | None => mret (-1, e)
  | Some r =>
      let rsize := s32 (Z.shiftr (u32 (r_size r - 1)) 3 + 1) in
      (if size <? rsize then put_bytes (report + size) (replicate (Z.to_nat (rsize - size)) 0) else mret tt) ;;
      (if negb (Z.land (claimed users) HID_CLAIMED_HIDDEV =? 0) && hiddev_report users then log_event (HiddevReport (r_id r)) else mret tt) ;;
      l ← input_fields (fields r) report interrupt;
      (if Z.land (claimed users) HID_CLAIMED_INPUT =? 0 then mret tt else log_event (InputReport (r_id r))) ;;
      mret (0, HidEnum (numbered e) (report_list e) (<[n := HidReport (r_id r) (r_type r) l (r_size r)]> (report_id_hash e)))
  end.

(** ** Reports to send *)

Fixpoint output_values (f : hid_field) (report n : Z) (vs : list Z) : RM unit :=
  match vs with
  | [] => mret tt
  | v :: vs =>
      x ← (if f_min f <? 0 then s32ton v (f_size f) else mret (u32 v));
      implement report (u32 (f_offset f + n * f_size f)) (f_size f) x ;;
      output_values f report (n + 1) vs
  end.
Definition hid_output_field (f : hid_field) (report : Z) : RM unit :=
  if Z.of_nat (length (value f)) <? f_count f then fail FBounds
  else output_values f report 0 (take (Z.to_nat (f_count f)) (value f)).
Definition hid_output_report (r : hid_report) : RM unit :=
  (if 0 <? r_id r then put_bytes 0 [u8 (r_id r)] else mret tt) ;;
  seqM (map (λ f, hid_output_field f (if 0 <? r_id r then 1 else 0)) (fields r)).
Definition hid_set_field (f : hid_field) (offset v : Z) : RM (Z * hid_field) :=
  if f_count f <=? offset then mret (-1, f) else
  ok ← (if f_min f <? 0 then x ← s32ton v (f_size f); y ← snto32 x (f_size f); mret (v =? y) else mret true);
  if negb ok then mret (-1, f) else mret (0, with_value (<[Z.to_nat offset := v]> (value f)) f).
End Report.
