(* ===== verification/HidBits.v ===== *)
(** Bit fields of HID reports.

    A buffer is a number, its bytes being the digits.  [extract] takes bits out of
    that number and [implement] replaces them; a report that was put together by
    [hid_output_report] is taken apart to the same values. *)

From S2P Require Import Prelude Hid HidParse HidReport.

(** ** Buffers as numbers *)

Lemma le_val_range l : Forall byte_ok l → 0 ≤ le_val l < 256 ^ Z.of_nat (length l).
Proof.
  induction 1 as [|b l Hb Hl IH]; [done|]. cbn [le_val length]. rewrite Nat2Z.inj_succ, Z.pow_succ_r by lia. unfold byte_ok in Hb. lia.
Qed.
Lemma le_val_app l1 l2 : le_val (l1 ++ l2) = le_val l1 + 256 ^ Z.of_nat (length l1) * le_val l2.
Proof. induction l1 as [|b l1 IH]; cbn [le_val app length]; [lia|]. rewrite Nat2Z.inj_succ, Z.pow_succ_r by lia. lia. Qed.
Lemma le_bytes_length n x : length (le_bytes n x) = n.
Proof. revert x. induction n as [|n IH]; intros x; [done|]. cbn [le_bytes length]. by rewrite IH. Qed.
Lemma le_bytes_ok n x : Forall byte_ok (le_bytes n x).
Proof. revert x. induction n as [|n IH]; intros x; constructor; [|apply IH]. unfold byte_ok. apply Z.mod_pos_bound. lia. Qed.
Lemma le_val_bytes n x : le_val (le_bytes n x) = x mod 256 ^ Z.of_nat n.
Proof.
  revert x. induction n as [|n IH]; intros x; cbn [le_bytes le_val]; [by rewrite Z.mod_1_r|]. rewrite IH, Nat2Z.inj_succ, Z.pow_succ_r by lia.
  rewrite Z.rem_mul_r by lia. lia.
Qed.
Lemma pow256 n : 256 ^ Z.of_nat n = 2 ^ (8 * Z.of_nat n).
Proof. change 256 with (2 ^ 8). by rewrite <- Z.pow_mul_r by lia. Qed.

(** The bits of a concatenation *)
Lemma testbit_add_pow a b n k : 0 ≤ n → 0 ≤ a < 2 ^ n → 0 ≤ k → Z.testbit (a + 2 ^ n * b) k = if k <? n then Z.testbit a k else Z.testbit b (k - n).
Proof.
  intros Hn Ha Hk. destruct (Z.ltb_spec k n).
  - rewrite <- (Z.mod_pow2_bits_low (a + 2 ^ n * b) n k) by lia. rewrite Z.mul_comm, Z.mod_add, Z.mod_small by lia. done.
  - replace k with (k - n + n) at 1 by lia. rewrite <- Z.div_pow2_bits by lia. rewrite Z.mul_comm, Z.div_add, Z.div_small by lia. done.
Qed.
Definition bit_at (l : list Z) (k : Z) : bool := Z.testbit (le_val l) k.
Lemma bit_app l1 l2 k : Forall byte_ok l1 → 0 ≤ k → bit_at (l1 ++ l2) k = if k <? 8 * Z.of_nat (length l1) then bit_at l1 k else bit_at l2 (k - 8 * Z.of_nat (length l1)).
Proof.
  intros H1 Hk. unfold bit_at. rewrite le_val_app. pose proof (le_val_range l1 H1) as Hr. rewrite pow256 in *. apply testbit_add_pow; lia.
Qed.
Lemma bit_out l k : Forall byte_ok l → 8 * Z.of_nat (length l) ≤ k → bit_at l k = false.
Proof.
  intros Hl Hk. unfold bit_at. pose proof (le_val_range l Hl) as Hr. rewrite pow256 in Hr. rewrite <- (Z.mod_small (le_val l) (2 ^ (8 * Z.of_nat (length l)))) by done.
  apply Z.mod_pow2_bits_high. lia.
Qed.
Lemma bit_window l p n k : Forall byte_ok l → (p + n ≤ length l)%nat → 0 ≤ k →
  bit_at (take n (drop p l)) k = (k <? 8 * Z.of_nat n) && bit_at l (k + 8 * Z.of_nat p).
Proof.
  intros Hl Hp Hk. rewrite <- (take_drop p l) at 2. rewrite (bit_app (take p l)) by (done || lia || by apply list.Forall_take). rewrite length_take_le by lia.
  destruct (Z.ltb_spec (k + 8 * Z.of_nat p) (8 * Z.of_nat p)); [lia|]. rewrite Z.add_simpl_r. rewrite <- (take_drop n (drop p l)) at 2.
  rewrite (bit_app (take n (drop p l))) by (lia || by apply list.Forall_take, list.Forall_drop). rewrite length_take_le by (rewrite length_drop; lia).
  destruct (Z.ltb_spec k (8 * Z.of_nat n)); [done|]. apply bit_out; [by apply list.Forall_take, list.Forall_drop|]. rewrite length_take_le by (rewrite length_drop; lia). lia.
Qed.
Lemma bit_splice l p bs k : Forall byte_ok l → Forall byte_ok bs → (p + length bs ≤ length l)%nat → 0 ≤ k →
  bit_at (take p l ++ bs ++ drop (p + length bs) l) k =
  if (8 * Z.of_nat p <=? k) && (k <? 8 * Z.of_nat (p + length bs)) then bit_at bs (k - 8 * Z.of_nat p) else bit_at l k.
Proof.
  intros Hl Hb Hp Hk. assert (E : bit_at l k = bit_at (take p l ++ take (length bs) (drop p l) ++ drop (p + length bs) l) k).
  { rewrite <- drop_drop, (take_drop (length bs)), take_drop. done. }
  rewrite E. rewrite !(bit_app (take p l)) by (lia || by apply list.Forall_take). rewrite length_take_le by lia.
  destruct (Z.ltb_spec k (8 * Z.of_nat p)); [by rewrite (proj2 (Z.leb_gt _ _)) by lia|]. rewrite (proj2 (Z.leb_le _ _)) by lia. cbn [andb].
  rewrite !bit_app by (lia || done || by apply list.Forall_take, list.Forall_drop). rewrite length_take_le by (rewrite length_drop; lia).
  destruct (Z.ltb_spec (k - 8 * Z.of_nat p) (8 * Z.of_nat (length bs))), (Z.ltb_spec k (8 * Z.of_nat (p + length bs))); (done || lia).
Qed.

(** ** Fields *)

Definition room (s : rst) (report offset : Z) : Prop :=
  Forall byte_ok (data s) ∧ 0 ≤ report ∧ 0 ≤ offset ∧ report + offset / 8 + 8 ≤ Z.of_nat (length (data s)).
Lemma shiftr3 z : Z.shiftr z 3 = z / 8.
Proof. by rewrite Z.shiftr_div_pow2. Qed.
Lemma land7 z : Z.land z 7 = z mod 8.
Proof. change 7 with (Z.ones 3). by rewrite Z.land_ones. Qed.

Lemma get64_run s p : Forall byte_ok (data s) → 0 ≤ p → p + 8 ≤ Z.of_nat (length (data s)) →
  ∃ x, get_unaligned64 p s = Done (x, s) ∧ ∀ k, 0 ≤ k → Z.testbit x k = (k <? 64) && bit_at (data s) (k + 8 * p).
Proof.
  intros Hb Hp Hl. unfold get_unaligned64, in_buffer. rewrite !(proj2 (Z.leb_le _ _)) by lia. eexists. split; [reflexivity|]. intros k Hk.
  pose proof (bit_window (data s) (Z.to_nat p) 8 k Hb ltac:(lia) Hk) as E. unfold bit_at at 1 in E. rewrite E. by replace (Z.of_nat (Z.to_nat p)) with p by lia.
Qed.
Lemma extract_run s report offset n : room s report offset → 0 ≤ n ≤ 32 →
  ∃ x, extract report offset n s = Done (x, s) ∧ 0 ≤ x < 2 ^ n ∧ ∀ k, 0 ≤ k < n → Z.testbit x k = bit_at (data s) (8 * report + offset + k).
Proof.
  intros (Hb & Hr & Ho & Hl) Hn. unfold extract. rewrite shiftr3, land7. destruct (get64_run s (report + offset / 8) Hb) as (x & E & Hx); [Z.div_mod_to_equations; lia|lia|].
  rewrite (run_bind _ _ _ _ _ E). destruct (Z.leb_spec 64 n); [lia|]. rewrite Z.sub_1_r, <- Z.ones_equiv, Z.land_ones by lia.
  pose proof (Z.mod_pos_bound (Z.shiftr x (offset mod 8)) (2 ^ n) ltac:(lia)) as Hm. assert (2 ^ n ≤ 2 ^ 32) by (apply Z.pow_le_mono_r; lia).
  rewrite u32_small by lia. eexists. split; [reflexivity|]. split; [done|]. intros k Hk. pose proof (Z.mod_pos_bound offset 8 ltac:(lia)).
  rewrite Z.mod_pow2_bits_low, Z.shiftr_spec, Hx by lia. rewrite (proj2 (Z.ltb_lt _ _)) by lia. cbn [andb]. f_equal. Z.div_mod_to_equations; lia.
Qed.

(** What [implement] does to a buffer: [n] bits from [at_] on become those of [v]. *)
Definition patched (s s' : rst) (at_ n v : Z) : Prop :=
  Forall byte_ok (data s') ∧ length (data s') = length (data s) ∧ log s' = log s ∧
  ∀ k, 0 ≤ k → bit_at (data s') k = if (at_ <=? k) && (k <? at_ + n) then Z.testbit v (k - at_) else bit_at (data s) k.
Lemma put_run s p bs : Forall byte_ok (data s) → Forall byte_ok bs → 0 ≤ p → p + Z.of_nat (length bs) ≤ Z.of_nat (length (data s)) →
  ∃ s', put_bytes p bs s = Done (tt, s') ∧ patched s s' (8 * p) (8 * Z.of_nat (length bs)) (le_val bs).
Proof.
  intros Hb Hbs Hp Hl. unfold put_bytes, in_buffer. rewrite !(proj2 (Z.leb_le _ _)) by lia. eexists. split; [reflexivity|]. unfold patched. cbn [data log]. split; [|split; [|split; [done|]]].
  - apply list.Forall_app. split; [by apply list.Forall_take|]. apply list.Forall_app. split; [done|by apply list.Forall_drop].
  - rewrite !length_app, length_take, length_drop. lia.
  - intros k Hk. rewrite bit_splice by (done || lia). replace (Z.of_nat (Z.to_nat p + length bs)) with (p + Z.of_nat (length bs)) by lia. replace (Z.of_nat (Z.to_nat p)) with p by lia.
    replace (8 * (p + Z.of_nat (length bs))) with (8 * p + 8 * Z.of_nat (length bs)) by lia. done.
Qed.
Lemma implement_run s report offset n v : room s report offset → 0 ≤ n ≤ 32 → 0 ≤ v < 2 ^ n →
  ∃ s', implement report offset n v s = Done (tt, s') ∧ patched s s' (8 * report + offset) n v.
Proof.
  intros (Hb & Hr & Ho & Hl) Hn Hv. unfold implement. destruct (Z.leb_spec 64 n); [lia|]. cbv zeta. rewrite shiftr3, land7. pose proof (Z.mod_pos_bound offset 8 ltac:(lia)) as Hm.
  destruct (get64_run s (report + offset / 8) Hb) as (x & E & Hx); [Z.div_mod_to_equations; lia|lia|]. rewrite (run_bind _ _ _ _ _ E).
  rewrite Z.sub_1_r, <- Z.ones_equiv, Z.land_ones, (Z.mod_small v) by lia. set (o := offset mod 8) in *. set (y := Z.lor _ _).
  destruct (put_run s (report + offset / 8) (le_bytes 8 y) Hb (le_bytes_ok 8 y)) as (s' & E' & Hok & Hlen & Hlog & Hbit); [Z.div_mod_to_equations; lia|rewrite le_bytes_length; lia|].
  exists s'. split; [exact E'|]. split; [done|]. split; [done|]. split; [done|]. intros k Hk. rewrite (Hbit k Hk), le_bytes_length, le_val_bytes. change (8 * Z.of_nat 8) with 64.
  assert (Ep : 8 * report + offset = 8 * (report + offset / 8) + o) by (unfold o; Z.div_mod_to_equations; lia). rewrite Ep. clear E E' Hbit Ep. set (p := report + offset / 8) in *. clearbody p o.
  destruct (Z.leb_spec (8 * p) k); cbn [andb]; [|by rewrite (proj2 (Z.leb_gt _ _)) by lia]. destruct (Z.ltb_spec k (8 * p + 64)); cbn [andb].
  - change (256 ^ Z.of_nat 8) with (2 ^ 64). rewrite Z.mod_pow2_bits_low by lia. unfold y. rewrite Z.lor_spec, Z.ldiff_spec, Hx by lia. unfold u64, wrap.
    rewrite !Z.mod_pow2_bits_low, !Z.shiftl_spec by lia. rewrite (proj2 (Z.ltb_lt (k - 8 * p) 64)) by lia. cbn [andb]. replace (k - 8 * p + 8 * p) with k by lia.
    replace (k - 8 * p - o) with (k - (8 * p + o)) by lia. set (j := k - (8 * p + o)). destruct (Z.leb_spec (8 * p + o) k); cbn [andb].
    + rewrite Z.testbit_ones_nonneg by (unfold j; lia). destruct (Z.ltb_spec k (8 * p + o + n)).
      * rewrite (proj2 (Z.ltb_lt j n)) by (unfold j; lia). cbn [negb]. by rewrite andb_false_r.
      * rewrite (proj2 (Z.ltb_ge j n)) by (unfold j; lia). cbn [negb]. rewrite andb_true_r. rewrite <- (Z.mod_small v (2 ^ n)), Z.mod_pow2_bits_high by (unfold j; lia). apply orb_false_r.
    + rewrite !(Z.testbit_neg_r _ j) by (unfold j; lia). cbn [negb]. by rewrite andb_true_r, orb_false_r.
  - rewrite (proj2 (Z.ltb_ge k (8 * p + o + n))) by lia. by rewrite andb_false_r.
Qed.

(** ** Signed values *)

Lemma sext_mod w v : 0 < w → - 2 ^ (w - 1) ≤ v < 2 ^ (w - 1) → sext w (v mod 2 ^ w) = v.
Proof.
  intros Hw Hv. unfold sext. assert (2 ^ w = 2 * 2 ^ (w - 1)) by (rewrite <- Z.pow_succ_r by lia; f_equal; lia).
  rewrite Z.add_mod_idemp_l, Z.mod_small by lia. lia.
Qed.
(** Filling the bits from [n] on with ones *)
Lemma lor_high x n : 0 ≤ n ≤ 32 → 0 ≤ x < 2 ^ n → Z.lor x (u32 (Z.shiftl (-1) n)) = x + 2 ^ 32 - 2 ^ n.
Proof.
  intros Hn Hx. assert (Hp : 2 ^ n ≤ 2 ^ 32) by (apply Z.pow_le_mono_r; lia). assert (E : u32 (Z.shiftl (-1) n) = 2 ^ 32 - 2 ^ n).
  { rewrite Z.shiftl_mul_pow2 by lia. unfold u32, wrap. rewrite <- (Z.mod_add _ 1) by lia. rewrite Z.mod_small; lia. }
  rewrite E. assert (El : Z.land x (2 ^ 32 - 2 ^ n) = 0).
  { replace (2 ^ 32 - 2 ^ n) with ((2 ^ (32 - n) - 1) * 2 ^ n) by (rewrite Z.mul_sub_distr_r, <- Z.pow_add_r by lia; replace (32 - n + n) with 32 by lia; lia).
    apply Z.bits_inj'. intros k Hk. rewrite Z.land_spec, Z.bits_0. destruct (Z.ltb_spec k n).
    - rewrite Z.mul_pow2_bits_low by lia. apply andb_false_r.
    - rewrite <- (Z.mod_small x (2 ^ n)), Z.mod_pow2_bits_high by lia. done. }
  pose proof (Z.add_lor_land x (2 ^ 32 - 2 ^ n)). lia.
Qed.
Lemma snto32_run s v n : 1 ≤ n ≤ 32 → - 2 ^ (n - 1) ≤ v < 2 ^ (n - 1) → snto32 (v mod 2 ^ n) n s = Done (v, s).
Proof.
  intros Hn Hv. unfold snto32. destruct (Z.eqb_spec n 8) as [->|]; [by rewrite sext_mod|]. destruct (Z.eqb_spec n 16) as [->|]; [by rewrite sext_mod|].
  destruct (Z.eqb_spec n 32) as [->|]; [by rewrite sext_mod|]. rewrite (proj2 (Z.leb_gt n 0)), (proj2 (Z.ltb_ge 32 n)) by lia. cbn [orb].
  assert (H2 : 2 ^ n = 2 * 2 ^ (n - 1)) by (rewrite <- Z.pow_succ_r by lia; f_equal; lia). assert (2 ^ (n - 1) ≤ 2 ^ 30) by (apply Z.pow_le_mono_r; lia).
  unfold mret, M_ret. do 2 f_equal. assert (Hbit : (Z.land (v mod 2 ^ n) (2 ^ (n - 1)) =? 0) = negb (Z.testbit v (n - 1))).
  { rewrite <- (Z.mod_pow2_bits_low v n (n - 1)) by lia. set (x := v mod 2 ^ n). destruct (Z.testbit x (n - 1)) eqn:Et; cbn [negb].
    - apply Z.eqb_neq. intros E. apply (f_equal (λ y, Z.testbit y (n - 1))) in E. rewrite Z.land_spec, Et, Z.pow2_bits_true, Z.bits_0 in E by lia. done.
    - apply Z.eqb_eq, Z.bits_inj'. intros k Hk. rewrite Z.land_spec, Z.bits_0, Z.pow2_bits_eqb by lia. destruct (Z.eqb_spec (n - 1) k) as [<-|]; [by rewrite Et|apply andb_false_r]. }
  rewrite Hbit. destruct (Z_lt_le_dec v 0).
  - assert (Et : Z.testbit v (n - 1) = true).
    { rewrite Z.testbit_true by lia. replace (v / 2 ^ (n - 1)) with (-1); [done|]. apply (Z.div_unique _ _ _ (v + 2 ^ (n - 1))); lia. }
    rewrite Et. cbn [negb]. assert (E : v mod 2 ^ n = v + 2 ^ n) by (symmetry; apply (Z.mod_unique _ _ (-1)); lia). rewrite lor_high, E by lia.
    replace (v + 2 ^ n + 2 ^ 32 - 2 ^ n) with (v + 2 ^ 32) by lia. unfold s32. replace (v + 2 ^ 32 + 2 ^ 31) with (v + 2 ^ 31 + 1 * 2 ^ 32) by lia. rewrite Z.mod_add, Z.mod_small by lia. lia.
  - assert (Et : Z.testbit v (n - 1) = false) by (rewrite Z.testbit_false by lia; by rewrite Z.div_small by lia). rewrite Et. cbn [negb]. rewrite Z.mod_small by lia. apply s32_small. lia.
Qed.
Lemma s32ton_run s v n : 1 ≤ n < 32 → - 2 ^ (n - 1) ≤ v < 2 ^ (n - 1) → s32ton v n s = Done (v mod 2 ^ n, s).
Proof.
  intros Hn Hv. unfold s32ton. rewrite (proj2 (Z.leb_gt n 0)), (proj2 (Z.ltb_ge 32 n)) by lia. cbn [orb]. rewrite Z.shiftr_div_pow2 by lia. cbv zeta.
  assert (Ha : v / 2 ^ (n - 1) = 0 ∨ v / 2 ^ (n - 1) = -1).
  { destruct (Z_lt_le_dec v 0); [right; symmetry; apply (Z.div_unique _ _ _ (v + 2 ^ (n - 1))); lia|left; apply Z.div_small; lia]. }
  replace (negb (v / 2 ^ (n - 1) =? 0) && negb (v / 2 ^ (n - 1) =? -1)) with false by (by destruct Ha as [-> | ->]).
  destruct (Z.eqb_spec n 32); [lia|]. rewrite Z.sub_1_r, <- Z.ones_equiv, Z.land_ones by lia. done.
Qed.

(** ** Putting a report together *)

(** A value fits a field; a signed field has at most 31 bits. *)
Definition value_ok (f : hid_field) (v : Z) : Prop :=
  if f_min f <? 0 then 1 ≤ f_size f < 32 ∧ - 2 ^ (f_size f - 1) ≤ v < 2 ^ (f_size f - 1) else s32_ok v ∧ u32 v < 2 ^ f_size f.
Definition encode (f : hid_field) (v : Z) : Z := if f_min f <? 0 then v mod 2 ^ f_size f else u32 v.
(** The report at [report] holds [v] as the [n]-th value of the field. *)
Definition holds (s : rst) (f : hid_field) (report n v : Z) : Prop :=
  ∀ k, 0 ≤ k < f_size f → bit_at (data s) (8 * report + f_offset f + n * f_size f + k) = Z.testbit (encode f v) k.
(** There is room for a report of [bits] bits. *)
Definition fits (s : rst) (report bits : Z) : Prop := Forall byte_ok (data s) ∧ 0 ≤ report ∧ report + bits / 8 + 8 ≤ Z.of_nat (length (data s)).
(** Nothing but the bits from [lo] to [hi] has changed. *)
Definition kept (s s' : rst) (lo hi : Z) : Prop :=
  Forall byte_ok (data s') ∧ length (data s') = length (data s) ∧ log s' = log s ∧ ∀ k, 0 ≤ k → k < lo ∨ hi ≤ k → bit_at (data s') k = bit_at (data s) k.

Lemma kept_trans s1 s2 s3 lo hi lo' hi' LO HI : kept s1 s2 lo hi → kept s2 s3 lo' hi' → LO ≤ lo → LO ≤ lo' → hi ≤ HI → hi' ≤ HI → kept s1 s3 LO HI.
Proof.
  intros (? & ? & ? & Hk1) (? & ? & ? & Hk2) ? ? ? ?. split; [done|]. split; [congruence|]. split; [congruence|]. intros k Hk Hout. rewrite Hk2, Hk1 by lia. done.
Qed.
Lemma kept_fits s s' lo hi report bits : kept s s' lo hi → fits s report bits → fits s' report bits.
Proof. intros (? & Hl & _) (? & ? & ?). split; [done|]. by rewrite Hl. Qed.
Lemma fits_room s report bits offset : fits s report bits → 0 ≤ offset ≤ bits → room s report offset.
Proof. intros (? & ? & ?) Ho. split; [done|]. split; [done|]. split; [lia|]. assert (offset / 8 ≤ bits / 8) by (apply Z.div_le_mono; lia). lia. Qed.
Lemma patched_kept s s' a n v : patched s s' a n v → kept s s' a (a + n).
Proof.
  intros (? & ? & ? & Hb). split; [done|]. split; [done|]. split; [done|]. intros k Hk Hout. rewrite (Hb k Hk).
  destruct (Z.leb_spec a k), (Z.ltb_spec k (a + n)); (done || lia).
Qed.
Lemma encode_range f v : 0 ≤ f_size f ≤ 32 → value_ok f v → 0 ≤ encode f v < 2 ^ f_size f.
Proof.
  intros Hs. unfold value_ok, encode. destruct (f_min f <? 0); [intros _; apply Z.mod_pos_bound; lia|]. intros [_ ?]. pose proof (u32_range v). lia.
Qed.
Lemma encode_run s f v : value_ok f v → (if f_min f <? 0 then s32ton v (f_size f) else mret (u32 v)) s = Done (encode f v, s).
Proof. unfold value_ok, encode. destruct (f_min f <? 0); [intros [? ?]; by apply s32ton_run|done]. Qed.
Lemma holds_kept s s' f report n v lo hi : 0 ≤ report → 0 ≤ f_offset f → 0 ≤ n → 0 ≤ f_size f → kept s s' lo hi → holds s f report n v →
  hi ≤ 8 * report + f_offset f + n * f_size f ∨ 8 * report + f_offset f + (n + 1) * f_size f ≤ lo → holds s' f report n v.
Proof. intros ? ? ? ? (_ & _ & _ & Hk) Hh Hout k Hkr. rewrite Hk by nia. by apply Hh. Qed.

Lemma output_values_run s f report n vs bits : 0 ≤ f_size f ≤ 32 → 0 ≤ f_offset f → 0 ≤ n → f_offset f + (n + Z.of_nat (length vs)) * f_size f ≤ bits → bits < 2 ^ 32 →
  fits s report bits → Forall (value_ok f) vs →
  ∃ s', output_values f report n vs s = Done (tt, s') ∧
    kept s s' (8 * report + f_offset f + n * f_size f) (8 * report + f_offset f + (n + Z.of_nat (length vs)) * f_size f) ∧
    ∀ i v, vs !! i = Some v → holds s' f report (n + Z.of_nat i) v.
Proof.
  intros Hs Ho. revert s n. induction vs as [|v vs IH]; intros s n Hn Hb Hb32 Hf Hv; cbn [output_values].
  { exists s. split; [done|]. split; [|done]. destruct Hf as (? & _). by split. }
  apply list.Forall_cons in Hv as [Hv Hvs]. cbn [length] in *. rewrite (run_bind _ _ _ _ _ (encode_run s f v Hv)). rewrite u32_small by nia.
  destruct (implement_run s report (f_offset f + n * f_size f) (f_size f) (encode f v)) as (s1 & E1 & Hp); [eapply fits_room; [done|nia]|done|by apply encode_range|].
  rewrite (run_bind _ _ _ _ _ E1). pose proof (patched_kept _ _ _ _ _ Hp) as Hk1.
  destruct (IH s1 (n + 1) ltac:(lia) ltac:(nia) Hb32 (kept_fits _ _ _ _ _ _ Hk1 Hf) Hvs) as (s2 & E2 & Hk2 & Hh). exists s2. split; [done|]. split.
  - eapply kept_trans; [exact Hk1|exact Hk2|nia..].
  - intros [|i] w E; [|replace (n + Z.of_nat (S i)) with (n + 1 + Z.of_nat i) by lia; by apply Hh]. injection E as ->. rewrite Z.add_0_r.
    destruct Hf as (_ & Hr & _). eapply holds_kept; [..|exact Hk2| |]; [done|done|done|lia| |nia]. destruct Hp as (_ & _ & _ & Hp). intros k Hk. rewrite Hp by nia.
    rewrite (proj2 (Z.leb_le _ _)), (proj2 (Z.ltb_lt _ _)) by nia. cbn [andb]. f_equal. lia.
Qed.

(** ** Taking it apart *)

Lemma get_value_run s f report n v bits : 0 ≤ f_size f ≤ 32 → 0 ≤ f_offset f → 0 ≤ n → f_offset f + n * f_size f ≤ bits → bits < 2 ^ 32 →
  fits s report bits → value_ok f v → holds s f report n v → get_value f report n s = Done (v, s).
Proof.
  intros Hs Ho Hn Hb Hb32 Hf Hv Hh. unfold get_value. rewrite u32_small by nia.
  destruct (extract_run s report (f_offset f + n * f_size f) (f_size f)) as (x & E & Hx & Hbit); [eapply fits_room; [done|nia]|done|].
  pose proof (encode_range f v Hs Hv) as He. assert (Ex : x = encode f v).
  { apply Z.bits_inj'. intros k Hk. destruct (Z.ltb_spec k (f_size f)).
    - rewrite Hbit by lia. replace (8 * report + (f_offset f + n * f_size f) + k) with (8 * report + f_offset f + n * f_size f + k) by lia. by apply Hh.
    - rewrite <- (Z.mod_small x (2 ^ f_size f)), <- (Z.mod_small (encode f v) (2 ^ f_size f)), !Z.mod_pow2_bits_high by lia. done. }
  rewrite (run_bind _ _ _ _ _ E), Ex. unfold value_ok, encode in *. destruct (f_min f <? 0).
  - apply snto32_run; lia.
  - unfold mret, M_ret. do 2 f_equal. destruct Hv as [Hv _]. unfold s32_ok in Hv. unfold s32, u32, wrap. rewrite Zplus_mod_idemp_l, Z.mod_small by lia. lia.
Qed.

Definition values_ok (f : hid_field) : Prop := Forall (value_ok f) (value f).
Definition reads_back (s : rst) (report : Z) (f : hid_field) : Prop := ∀ i v, value f !! i = Some v → get_value f report (Z.of_nat i) s = Done (v, s).
Definition all_held (s : rst) (report : Z) (f : hid_field) : Prop := ∀ i v, value f !! i = Some v → holds s f report (Z.of_nat i) v.

Lemma output_field_run s f report bits : field_ok f → 0 ≤ f_offset f → f_offset f + f_count f * f_size f ≤ bits → bits < 2 ^ 32 → fits s report bits → values_ok f →
  ∃ s', hid_output_field f report s = Done (tt, s') ∧ kept s s' (8 * report + f_offset f) (8 * report + f_offset f + f_count f * f_size f) ∧ all_held s' report f.
Proof.
  intros (Hs & Hc & _ & _ & _ & Hl & _) Ho Hb Hb32 Hf Hv. unfold hid_output_field. rewrite (proj2 (Z.ltb_ge _ _)) by lia. rewrite take_ge by lia.
  destruct (output_values_run s f report 0 (value f) bits Hs Ho ltac:(lia) ltac:(rewrite Hl; lia) Hb32 Hf Hv) as (s' & E & Hk & Hh). exists s'. split; [done|].
  rewrite Hl, !Z.add_0_l, Z.mul_0_l, Z.add_0_r in Hk. by split.
Qed.
(** Fields do not disturb each other because they do not overlap. *)
Lemma output_fields_run s l report from bits : 0 ≤ from → laid_out from l bits → bits < 2 ^ 32 → fits s report bits → Forall values_ok l →
  ∃ s', seqM (map (λ f, hid_output_field f report) l) s = Done (tt, s') ∧ kept s s' (8 * report + from) (8 * report + bits) ∧ Forall (all_held s' report) l.
Proof.
  revert s from. induction l as [|f l IH]; intros s from Hfr Hl Hb Hf Hv; cbn [map seqM].
  { exists s. split; [done|]. split; [|done]. destruct Hf as (? & _). by split. }
  destruct Hl as (Hfo & Ho & Hl). apply list.Forall_cons in Hv as [Hv Hvs]. pose proof (laid_out_le _ _ _ Hl) as Hle. pose proof Hfo as (Hs & Hc & _ & _ & _ & Hlen & _).
  destruct (output_field_run s f report bits Hfo ltac:(lia) ltac:(lia) Hb Hf Hv) as (s1 & E1 & Hk1 & Hh1). rewrite (run_bind _ _ _ _ _ E1).
  destruct (IH s1 (f_offset f + f_size f * f_count f) ltac:(nia) Hl Hb (kept_fits _ _ _ _ _ _ Hk1 Hf) Hvs) as (s2 & E2 & Hk2 & Hh2). exists s2. split; [done|]. split.
  - eapply kept_trans; [exact Hk1|exact Hk2|nia..].
  - constructor; [|done]. intros i v Ev. pose proof (lookup_lt_Some _ _ _ Ev). destruct Hf as (_ & Hr & _).
    eapply holds_kept; [..|exact Hk2|by apply Hh1|]; [lia|lia|lia|lia|right; nia].
Qed.
Lemma laid_out_end from l size f : 0 ≤ from → laid_out from l size → f ∈ l → field_ok f ∧ 0 ≤ f_offset f ∧ f_offset f + f_count f * f_size f ≤ size.
Proof.
  revert from. induction l as [|g l IH]; intros from Hfr Hl Hf; [by inversion Hf|]. destruct Hl as (Hg & Ho & Hl). pose proof Hg as (? & ? & _).
  apply elem_of_cons in Hf as [->|Hf]; [|by apply (IH (f_offset g + f_size g * f_count g) ltac:(nia) Hl)]. split; [done|]. split; [lia|]. pose proof (laid_out_le _ _ _ Hl). lia.
Qed.
Lemma head_byte b l : byte_ok b → Forall byte_ok l → (∀ k, 0 ≤ k < 8 → bit_at l k = Z.testbit b k) → l ≠ [] → l !! 0%nat = Some b.
Proof.
  intros Hb Hl Hk Hne. destruct l as [|x l]; [done|]. apply list.Forall_cons in Hl as [Hx Hl]. unfold byte_ok in *. cbn. f_equal. apply Z.bits_inj'. intros k H0.
  destruct (Z.ltb_spec k 8).
  - rewrite <- Hk by lia. unfold bit_at. cbn [le_val]. change 256 with (2 ^ 8). rewrite testbit_add_pow by lia. by rewrite (proj2 (Z.ltb_lt _ _)) by lia.
  - rewrite <- (Z.mod_small x (2 ^ 8)), <- (Z.mod_small b (2 ^ 8)), !Z.mod_pow2_bits_high by lia. done.
Qed.

(** C30: a report that [hid_output_report] puts together reads back: the first byte is the id of a numbered
    report, every value of every field is what the receiving side extracts, and no bit outside of the
    report has changed.  The report is one of a device that the parser built, so that its fields do not
    overlap; every value fits its field; no field with a negative minimum has 32 bits (its mask would be
    undefined, [signed32_undefined]); and the buffer has eight bytes more than the report, as [implement]
    reads and writes 64 bits at a time. *)
Theorem hid_report_roundtrip s bound type id r : report_ok bound type id r → bound < 2 ^ 32 → Forall values_ok (fields r) →
  let base := if 0 <? id then 1 else 0 in
  fits s base (r_size r) →
  ∃ s', hid_output_report r s = Done (tt, s') ∧ (0 < id → data s' !! 0%nat = Some id) ∧ Forall (reads_back s' base) (fields r) ∧
    kept s s' 0 (8 * base + r_size r).
Proof.
  intros (Hid & Eid & _ & _ & Hl & Hb) Hb32 Hv base Hf. unfold hid_output_report. rewrite Eid. fold base. pose proof (laid_out_le _ _ _ Hl) as Hr0.
  assert (H0 : ∃ s1, (if 0 <? id then put_bytes 0 [u8 id] else mret tt) s = Done (tt, s1) ∧ kept s s1 0 (8 * base) ∧ (0 < id → ∀ k, 0 ≤ k < 8 → bit_at (data s1) k = Z.testbit id k)).
  { unfold base in *. destruct (Z.ltb_spec 0 id); [|exists s; split; [done|]; split; [|lia]; destruct Hf as (? & _); by split].
    destruct Hf as (Hd & _ & Hlen). assert (0 ≤ r_size r / 8) by (apply Z.div_pos; lia).
    destruct (put_run s 0 [u8 id] Hd) as (s1 & E & Hp); [constructor; [apply (wrap_range 8); lia|constructor]|lia|cbn; lia|]. exists s1. split; [done|]. split; [exact (patched_kept _ _ _ _ _ Hp)|].
    intros _ k Hk. destruct Hp as (_ & _ & _ & Hp). rewrite Hp by lia. rewrite (proj2 (Z.leb_le _ _)), (proj2 (Z.ltb_lt _ _)) by (cbn; lia). cbn [andb le_val length]. rewrite Z.add_0_r. f_equal; [|lia]. apply (wrap_small 8). lia. }
  destruct H0 as (s1 & E1 & Hk1 & Hid1). rewrite (run_bind _ _ _ _ _ E1).
  destruct (output_fields_run s1 (fields r) base 0 (r_size r) ltac:(lia) Hl ltac:(lia) (kept_fits _ _ _ _ _ _ Hk1 Hf) Hv) as (s2 & E2 & Hk2 & Hh).
  assert (Hk : kept s s2 0 (8 * base + r_size r)) by (eapply kept_trans; [exact Hk1|exact Hk2|unfold base; destruct (0 <? id); lia..]).
  exists s2. split; [done|]. split; [|split; [|done]].
  - intros Hp. pose proof Hk2 as (Hd2 & Hl2 & _ & Hb2). unfold base in Hb2. rewrite (proj2 (Z.ltb_lt 0 id) Hp) in Hb2. apply head_byte; [unfold byte_ok; lia|done| |].
    + intros k Hkr. rewrite Hb2 by lia. by apply Hid1.
    + destruct Hf as (_ & ? & Hlen). destruct Hk as (_ & Hlk & _). intros E0. rewrite E0 in Hlk. cbn in Hlk. assert (0 ≤ r_size r / 8) by (apply Z.div_pos; lia). lia.
  - apply list.Forall_forall. intros f Hfi i v Ev. destruct (laid_out_end 0 (fields r) (r_size r) f ltac:(lia) Hl Hfi) as (Hfo & Hof & Hend).
    pose proof Hfo as (Hs & Hc & _ & _ & _ & Hlen & _). pose proof (lookup_lt_Some _ _ _ Ev). pose proof (proj1 (list.Forall_forall _ _) Hh f Hfi) as Hhf. pose proof (proj1 (list.Forall_forall _ _) Hv f Hfi) as Hvf.
    apply (get_value_run s2 f base (Z.of_nat i) v (r_size r)); [done|done|lia|nia|lia|exact (kept_fits _ _ _ _ _ _ Hk Hf)|by apply (list.Forall_lookup_1 _ _ i v Hvf)|by apply Hhf].
Qed.

(** ** Reports *)

(** A numbered report with a field of two signed values of 5 bits, at bit 3, and a field of one value of 9 bits *)
Definition demo_field (offset size count min max : Z) (vs : list Z) : hid_field :=
  HidField 0 0 0 (replicate (Z.to_nat count) (HidUsage 1 0)) count HID_MAIN_ITEM_VARIABLE offset size count HID_OUTPUT_REPORT vs min max 0 0 0 0 0.
Definition demo_report : hid_report := HidReport 3 HID_OUTPUT_REPORT [demo_field 3 5 2 (-16) 15 [-7; 12]; demo_field 13 9 1 0 511 [300]] 24.
Definition demo_buffer : rst := Rst 0 (replicate 12 255) [].
Lemma hid_report_roundtrip_witness :
  ∃ s', hid_output_report demo_report demo_buffer = Done (tt, s') ∧ (0 < 3 → data s' !! 0%nat = Some 3) ∧ Forall (reads_back s' 1) (fields demo_report) ∧
    kept demo_buffer s' 0 (8 * 1 + 24).
Proof.
  apply (hid_report_roundtrip demo_buffer 1000 HID_OUTPUT_REPORT 3 demo_report); [|lia| |].
  - split; [lia|]. split; [done|]. split; [done|]. split; [done|]. cbn [fields demo_report laid_out]. unfold field_ok, HID_MAX_USAGES, s32_ok.
    assert (Hf : ∀ l : list Z, Forall (λ v, -100 ≤ v < 1000) l → Forall s32_ok l) by (intros l Hl; eapply list.Forall_impl; [exact Hl|]; unfold s32_ok; cbn; lia).
    cbn. repeat match goal with |- _ ∧ _ => split end; try lia; try done; apply Hf; repeat constructor; lia.
  - constructor; [|constructor; [|constructor]]; unfold values_ok, value_ok; cbn; repeat constructor; cbn; lia.
  - split; [apply list.Forall_replicate; unfold byte_ok; lia|]. split; vm_compute; discriminate.
Defined.
(** A value of a signed field of 32 bits is masked with [(1 << 32) - 1], which is undefined. *)
Theorem signed32_undefined : hid_output_field (demo_field 0 32 1 (-100) 100 [-5]) 0 demo_buffer = Fault FBounds.
Proof. reflexivity. Qed.
