(* ===== verification/HidInput.v ===== *)
(** Received HID reports.

    For an array field, such as the keys of a keyboard, the device reports which keys
    are pressed; [hid_input_field] turns the difference to the last report into events.  The
    events keep a listener that follows them in step with the field. *)

From S2P Require Import Prelude Hid HidParse HidReport HidBits.

(** ** Keys *)

(** A value of an array that stands for a usage *)
Definition is_key (f : hid_field) (v : Z) : bool :=
  value_in_range f v && match usages f !! Z.to_nat (v - f_min f) with Some u => negb (hid u =? 0) | None => false end.
(** The usages pressed according to a list of values *)
Definition keys (f : hid_field) (l : list Z) : gset Z := list_to_set (map (λ v, v - f_min f) (filter (λ v, is_key f v = true) l)).
(** A listener to the events keeps the set of usages that are pressed. *)
Definition listen (ks : gset Z) (e : hid_event) : gset Z :=
  match e with InputEvent _ u v => if v =? 0 then ks ∖ {[u]} else ks ∪ {[u]} | _ => ks end.

Lemma elem_of_keys f l u : u ∈ keys f l ↔ ∃ v, v ∈ l ∧ is_key f v = true ∧ u = v - f_min f.
Proof.
  unfold keys. rewrite elem_of_list_to_set, list_elem_of_fmap. split.
  - intros (v & -> & Hv%list_elem_of_filter). exists v. naive_solver.
  - intros (v & ? & ? & ->). exists v. split; [done|]. by apply list_elem_of_filter.
Qed.
Lemma key_in f l v : is_key f v = true → v ∈ l ↔ (v - f_min f) ∈ keys f l.
Proof.
  intros Hk. rewrite elem_of_keys. split; [intros ?; by exists v|]. intros (w & Hw & _ & E). by replace v with w by lia.
Qed.
Lemma search_found l v : (search l v =? 0) = bool_decide (v ∈ l).
Proof.
  induction l as [|x l IH]; cbn [search]; [done|]. destruct (Z.eqb_spec x v) as [->|Hne].
  - symmetry. apply bool_decide_eq_true. apply elem_of_cons. by left.
  - rewrite IH. apply bool_decide_ext. rewrite elem_of_cons. naive_solver.
Qed.

Section Input.
Context (mem : nat → bool) (users : hid_users) (Hin : Z.land (claimed users) HID_CLAIMED_INPUT ≠ 0).

(** The usages cover the range of the values. *)
Definition covered (f : hid_field) : Prop := f_max f - f_min f < Z.of_nat (length (usages f)).

Definition added (s s' : rst) (evs : list hid_event) : Prop := data s' = data s ∧ log s' = log s ++ evs.
Lemma added_trans s1 s2 s3 l l' : added s1 s2 l → added s2 s3 l' → added s1 s3 (l ++ l').
Proof. intros [? E1] [? E2]. split; [congruence|]. by rewrite E2, E1, app_assoc. Qed.
Lemma process_run s f u v i : ∃ s' evs, hid_process_event users f u v i s = Done (tt, s') ∧ added s s' evs ∧ ∀ K, foldl listen K evs = listen K (InputEvent (index f) u v).
Proof.
  unfold hid_process_event, log_event. rewrite (proj2 (Z.eqb_neq _ _) Hin). run_simpl. cbn [rtries data log].
  destruct (_ && _ && _); eexists _, _; (split; [reflexivity|]); unfold added; cbn [data log].
  - rewrite <- app_assoc. split; [done|]. done.
  - split; [done|]. done.
Qed.
(** The event of one value: there is one exactly if the value is a key that is not among the others. *)
Lemma array_event_run s f v others p i : covered f →
  ∃ s' evs, array_event users f v others p i s = Done (tt, s') ∧ added s s' evs ∧
    ∀ K, foldl listen K evs = if is_key f v && negb (bool_decide (v - f_min f ∈ keys f others)) then listen K (InputEvent (index f) (v - f_min f) p) else K.
Proof.
  intros Hc. unfold array_event, is_key. destruct (value_in_range f v) eqn:Er; cbn [andb]; [|exists s, []; split; [done|]; split; [split; [done|by rewrite app_nil_r]|done]].
  assert (Hr : f_min f ≤ v ≤ f_max f) by (unfold value_in_range in Er; bool_solve; lia). destruct (lookup_lt_is_Some_2 (usages f) (Z.to_nat (v - f_min f))) as [u Eu]; [unfold covered in Hc; lia|].
  unfold usage_of. rewrite Eu. rewrite (run_bind _ _ s (hid u) s eq_refl). rewrite search_found. destruct (negb (hid u =? 0)) eqn:Eh; cbn [andb]; [|exists s, []; split; [done|]; split; [split; [done|by rewrite app_nil_r]|done]].
  assert (Hk : is_key f v = true) by (unfold is_key; by rewrite Er, Eu, Eh). rewrite (bool_decide_ext _ _ (key_in f others v Hk)).
  destruct (bool_decide _); cbn [negb]; [exists s, []; split; [done|]; split; [split; [done|by rewrite app_nil_r]|done]|apply process_run].
Qed.
(** One turn of the loop of an array: what happens to a usage *)
Definition turn (f : hid_field) (O N : gset Z) (old new : Z) (K : gset Z) : gset Z :=
  let K := if is_key f old && negb (bool_decide (old - f_min f ∈ N)) then K ∖ {[old - f_min f]} else K in
  if is_key f new && negb (bool_decide (new - f_min f ∈ O)) then K ∪ {[new - f_min f]} else K.
Lemma event_loop_run s f n olds news all i : covered f → variable f = false → length olds = length news →
  ∃ s' evs, event_loop users f n olds news all i s = Done (tt, s') ∧ added s s' evs ∧
    ∀ K, foldl listen K evs = foldl (λ K x, turn f (keys f (value f)) (keys f all) (fst x) (snd x) K) K (zip olds news).
Proof.
  intros Hc Hv. revert s n news. induction olds as [|old olds IH]; intros s n [|new news] Hl; [|done|done|].
  { exists s, []. split; [done|]. split; [split; [done|by rewrite app_nil_r]|done]. }
  cbn [event_loop zip]. rewrite Hv. destruct (array_event_run s f old all 0 i Hc) as (s1 & l1 & E1 & A1 & H1). destruct (array_event_run s1 f new (value f) 1 i Hc) as (s2 & l2 & E2 & A2 & H2).
  destruct (IH s2 (n + 1) news ltac:(by injection Hl)) as (s3 & l3 & E3 & A3 & H3). exists s3, (l1 ++ l2 ++ l3). split.
  - rewrite (run_bind _ _ s tt s2); [done|]. by rewrite (run_bind _ _ _ _ _ E1).
  - split; [by eapply added_trans, added_trans|]. intros K. rewrite !foldl_app, H1, H2, H3. done.
Qed.
Definition key_set (f : hid_field) (v : Z) : gset Z := if is_key f v then {[v - f_min f]} else ∅.
Lemma keys_cons f v l : keys f (v :: l) = key_set f v ∪ keys f l.
Proof. unfold keys, key_set. rewrite filter_cons. destruct (is_key f v); [rewrite decide_True by done|rewrite decide_False by done; set_solver]. done. Qed.
Lemma turn_spec f O N old new K u : key_set f new ⊆ N → u ∈ turn f O N old new K ↔ (u ∈ K ∧ ¬ (u ∈ key_set f old ∧ u ∉ N)) ∨ (u ∈ key_set f new ∧ u ∉ O).
Proof.
  unfold turn, key_set. set (a := old - f_min f). set (b := new - f_min f). clearbody a b. intros Hsub.
  assert (Hrel : u ∈ (if is_key f old && negb (bool_decide (a ∈ N)) then K ∖ {[a]} else K) ↔ u ∈ K ∧ ¬ (u ∈ (if is_key f old then {[a]} else ∅ : gset Z) ∧ u ∉ N)).
  { destruct (is_key f old); cbn [andb]; [case_bool_decide; cbn [negb]|]; set_solver. }
  revert Hrel. generalize (if is_key f old && negb (bool_decide (a ∈ N)) then K ∖ {[a]} else K). intros K' <-.
  destruct (is_key f new); cbn [andb]; [case_bool_decide; cbn [negb]|]; set_solver.
Qed.
(** After the turns for [olds] and [news], of the old usages those are left that are not among [olds] or are still
    pressed, and the new ones of [news] are added. *)
Lemma turns_spec f (O N : gset Z) olds news K : length olds = length news → keys f news ⊆ N →
  ∀ u, u ∈ foldl (λ K x, turn f O N (fst x) (snd x) K) K (zip olds news) ↔ (u ∈ K ∧ ¬ (u ∈ keys f olds ∧ u ∉ N)) ∨ (u ∈ keys f news ∧ u ∉ O).
Proof.
  revert news K. induction olds as [|old olds IH]; intros [|new news] K Hl Hsub u; [|done|done|].
  { cbn. set_solver. }
  cbn [zip foldl fst snd]. rewrite keys_cons in Hsub. assert (Hs1 : key_set f new ⊆ N ∧ keys f news ⊆ N) by set_solver. destruct Hs1 as [Hs1 Hs2].
  rewrite (IH news) by (by injection Hl). rewrite turn_spec, !keys_cons, !elem_of_union by done. pose proof (Hs1 u). pose proof (Hs2 u).
  destruct (decide (u ∈ N)), (decide (u ∈ O)); tauto.
Qed.
Lemma turns_keys f O N olds news : length olds = length news → O = keys f olds → N = keys f news → foldl (λ K x, turn f O N (fst x) (snd x) K) O (zip olds news) = N.
Proof.
  intros Hl -> ->. apply set_eq. intros u. rewrite turns_spec by done. destruct (decide (u ∈ keys f olds)), (decide (u ∈ keys f news)); set_solver.
Qed.

(** ** Reading a field *)

(** A field that can be received: arrays have a usage for each value, and signed values have a bit. *)
Definition receivable (f : hid_field) : Prop := field_ok f ∧ (variable f = false → covered f) ∧ (f_min f < 0 → 0 < f_size f).

Lemma get_value_total s f report n bits : receivable f → 0 ≤ f_offset f → 0 ≤ n → f_offset f + n * f_size f ≤ bits → bits < 2 ^ 32 → fits s report bits →
  ∃ v, get_value f report n s = Done (v, s) ∧ s32_ok v.
Proof.
  intros ((Hs & _) & _ & Hsg) Ho Hn Hb Hb32 Hf. unfold get_value. rewrite u32_small by nia.
  destruct (extract_run s report (f_offset f + n * f_size f) (f_size f)) as (x & E & Hx & _); [eapply fits_room; [done|nia]|done|]. rewrite (run_bind _ _ _ _ _ E).
  assert (Hs32 : ∀ z, s32_ok (s32 z)) by (intros z; pose proof (s32_range z); unfold s32_ok; lia).
  destruct (Z.ltb_spec (f_min f) 0); [|by eexists]. specialize (Hsg ltac:(lia)). unfold snto32.
  do 3 (destruct (_ =? _); [eexists; split; [done|apply sext_range; lia]|]). rewrite (proj2 (Z.leb_gt _ _)), (proj2 (Z.ltb_ge _ _)) by lia. cbn [orb]. eexists. split; [done|]. by destruct (_ =? 0).
Qed.
Lemma get_value_data s s' f report n v : data s' = data s → get_value f report n s = Done (v, s) → get_value f report n s' = Done (v, s').
Proof.
  intros Hd. unfold get_value, extract, get_unaligned64, in_buffer. unfold mbind, M_bind. rewrite Hd. destruct (_ && _); [|done]. destruct (64 <=? _); [done|]. cbn.
  destruct (f_min f <? 0); [|by intros [= <-]]. unfold snto32. do 3 (destruct (_ =? _); [by intros [= <-]|]). destruct (_ || _); [done|]. by intros [= <-].
Qed.
Lemma read_values_run s f report bits : receivable f → 0 ≤ f_offset f → f_offset f + f_count f * f_size f ≤ bits → bits < 2 ^ 32 → fits s report bits →
  ∀ k n, 0 ≤ n → n + Z.of_nat k ≤ f_count f →
  ∃ r, read_values k f report n s = Done (r, s) ∧
    ∀ vs, r = Some vs → length vs = k ∧ Forall s32_ok vs ∧ ∀ i v, vs !! i = Some v → get_value f report (n + Z.of_nat i) s = Done (v, s).
Proof.
  intros Hr Ho Hb Hb32 Hf k. pose proof Hr as (Hfo & Hc & _). pose proof Hfo as (Hs & _). induction k as [|k IH]; intros n Hn Hk; cbn [read_values].
  { exists (Some []). split; [done|]. intros vs [= <-]. done. }
  destruct (get_value_total s f report n bits Hr Ho Hn ltac:(nia) Hb32 Hf) as (v & E & Hv). rewrite (run_bind _ _ _ _ _ E).
  assert (Hroll : ∃ b, (if negb (variable f) && value_in_range f v then u ← usage_of f v; mret (u =? HID_UP_KEYBOARD + 1) else mret false) s = Done (b, s)).
  { destruct (variable f) eqn:Ev; cbn [negb andb]; [by eexists|]. destruct (value_in_range f v) eqn:Er; [|by eexists]. unfold value_in_range in Er. bool_solve. specialize (Hc eq_refl). unfold covered in Hc.
    unfold usage_of. destruct (lookup_lt_is_Some_2 (usages f) (Z.to_nat (v - f_min f))) as [u ->]; [lia|]. by eexists. }
  destruct Hroll as [[] Eb]; rewrite (run_bind _ _ _ _ _ Eb); [by exists None|]. destruct (IH (n + 1) ltac:(lia) ltac:(lia)) as (r & E' & Hvs). rewrite (run_bind _ _ _ _ _ E').
  eexists. split; [done|]. destruct r as [vs|]; [|done]. destruct (Hvs vs eq_refl) as (Hl & Hf32 & Hg). intros l [= <-]. cbn [length]. split; [by rewrite Hl|]. split; [by constructor|].
  intros [|i] w Ew; [injection Ew as <-; by rewrite Z.add_0_r|]. replace (n + Z.of_nat (S i)) with (n + 1 + Z.of_nat i) by lia. by apply Hg.
Qed.
Lemma event_loop_variable s f n olds news all i : variable f = true → length olds = length news →
  ∃ s' evs, event_loop users f n olds news all i s = Done (tt, s') ∧ added s s' evs.
Proof.
  intros Hv. revert s n news. induction olds as [|old olds IH]; intros s n [|new news] Hl; [|done|done|].
  { exists s, []. split; [done|]. split; [done|by rewrite app_nil_r]. }
  cbn [event_loop]. rewrite Hv. destruct (process_run s f n new i) as (s1 & l1 & E1 & A1 & _). destruct (IH s1 (n + 1) news ltac:(by injection Hl)) as (s2 & l2 & E2 & A2).
  exists s2, (l1 ++ l2). rewrite (run_bind _ _ _ _ _ E1). split; [done|]. by eapply added_trans.
Qed.

(** What [hid_input_field] does to a field *)
Lemma input_field_run s f report i bits : receivable f → 0 ≤ f_offset f → f_offset f + f_count f * f_size f ≤ bits → bits < 2 ^ 32 → fits s report bits →
  ∃ f' s' evs, hid_input_field mem users f report i s = Done (f', s') ∧ added s s' evs ∧ receivable f' ∧ f_offset f' = f_offset f ∧ f_size f' = f_size f ∧ f_count f' = f_count f ∧
    (variable f = false → foldl listen (keys f (value f)) evs = keys f (value f')) ∧
    (f' = f ∧ evs = [] ∨ ∀ n v, value f' !! n = Some v → get_value f report (Z.of_nat n) s = Done (v, s)).
Proof.
  intros Hr Ho Hb Hb32 Hf. unfold hid_input_field, rmalloc. unfold mbind at 1, M_bind at 1. cbn beta iota. set (s1 := Rst (S (rtries s)) (data s) (log s)).
  assert (Hnone : ∃ f' s' evs, Done (f, s1) = Done (f', s') ∧ added s s' evs ∧ receivable f' ∧ f_offset f' = f_offset f ∧ f_size f' = f_size f ∧ f_count f' = f_count f ∧
    (variable f = false → foldl listen (keys f (value f)) evs = keys f (value f')) ∧ (f' = f ∧ evs = [] ∨ ∀ n v, value f' !! n = Some v → get_value f report (Z.of_nat n) s = Done (v, s))).
  { exists f, s1, []. split; [done|]. split; [split; [done|by rewrite app_nil_r]|]. repeat (split; [done|]). by left. }
  destruct (mem (rtries s)); cbn [negb]; [|exact Hnone]. pose proof Hr as (Hfo & Hc & Hsg). pose proof Hfo as (Hs & Hcn & Hfo').
  destruct (read_values_run s1 f report bits Hr Ho Hb Hb32 Hf (Z.to_nat (f_count f)) 0 ltac:(lia) ltac:(lia)) as (r & E & Hvs). rewrite (run_bind _ _ _ _ _ E).
  destruct r as [vs|]; [|exact Hnone]. destruct (Hvs vs eq_refl) as (Hl & Hf32 & Hg). assert (Hlen : length (value f) = length vs) by (destruct Hfo' as (_ & _ & _ & ? & _); lia).
  assert (Hloop : ∃ s' evs, event_loop users f 0 (value f) vs vs i s1 = Done (tt, s') ∧ added s1 s' evs ∧ (variable f = false → foldl listen (keys f (value f)) evs = keys f vs)).
  { destruct (variable f) eqn:Ev.
    - destruct (event_loop_variable s1 f 0 (value f) vs vs i Ev Hlen) as (s' & evs & ? & ?). by exists s', evs.
    - destruct (event_loop_run s1 f 0 (value f) vs vs i (Hc eq_refl) Ev Hlen) as (s' & evs & ? & ? & HK). exists s', evs. split; [done|]. split; [done|]. intros _. rewrite HK. by apply turns_keys. }
  destruct Hloop as (s' & evs & E' & A & HK). rewrite (run_bind _ _ _ _ _ E'). exists (with_value vs f), s', evs. split; [done|]. split; [exact A|].
  split; [split; [|done]|repeat (split; [done|])].
  - unfold field_ok in *. cbn. rewrite Hl. destruct Hfo as (? & ? & ? & ? & ? & ? & ? & ?). repeat (split; [done || lia|]). done.
  - right. intros n v En. cbn in En. specialize (Hg n v En). rewrite Z.add_0_l in Hg. by apply (get_value_data s1).
Qed.

(** Reports that arrive one after the other in the buffer of a device: the field and the events *)
Fixpoint receive (f : hid_field) (report : Z) (i : bool) (bufs : list (list Z)) : RM hid_field :=
  match bufs with
  | [] => mret f
  | b :: bufs => modify (λ s, Rst (rtries s) b (log s)) ;; f ← hid_input_field mem users f report i; receive f report i bufs
  end.

(** C31: the events for an array of keys keep a listener in step.  The field has a usage for every value of
    its logical range ([covered]; the parser also builds fields that do not, and for them
    [array_reads_behind_usages] shows an access behind the usages), the input layer has claimed the device,
    and every buffer has eight bytes more than the report.  Then over every sequence of reports, whatever is in
    them and whatever allocations fail, a listener that starts with the usages that the field holds and follows
    the events has exactly the usages that the field holds at the end, and no access is outside of the usages of
    the field or of the buffers. *)
Theorem hid_keys_tracked s f report i bits bufs : receivable f → variable f = false → 0 ≤ f_offset f → f_offset f + f_count f * f_size f ≤ bits → bits < 2 ^ 32 →
  Forall (λ b, fits (Rst 0 b []) report bits) bufs →
  ∃ f' s' evs, receive f report i bufs s = Done (f', s') ∧ log s' = log s ++ evs ∧ foldl listen (keys f (value f)) evs = keys f' (value f').
Proof.
  revert s f. induction bufs as [|b bufs IH]; intros s f Hr Hv Ho Hb Hb32 Hf; cbn [receive].
  { exists f, s, []. split; [done|]. by rewrite app_nil_r. }
  apply list.Forall_cons in Hf as [Hf Hfs]. set (s1 := Rst (rtries s) b (log s)).
  rewrite (run_bind (modify (λ s, Rst (rtries s) b (log s))) _ s tt s1 eq_refl).
  destruct (input_field_run s1 f report i bits Hr Ho Hb Hb32 Hf) as (f1 & s2 & l1 & E1 & [_ A1] & Hr1 & Ho1 & Hs1 & Hc1 & HK & _). rewrite (run_bind _ _ _ _ _ E1).
  assert (Hsame : variable f1 = false ∧ ∀ l, keys f1 l = keys f l).
  { revert E1. unfold hid_input_field, rmalloc. run_simpl. repeat case_match; intros; simplify_eq; done. }
  destruct Hsame as [Hv1 Hkeys]. destruct (IH s2 f1 Hr1 Hv1 ltac:(lia) ltac:(rewrite Ho1, Hs1, Hc1; lia) Hb32 Hfs) as (f2 & s3 & l2 & E2 & A2 & HK2).
  exists f2, s3, (l1 ++ l2). split; [done|]. split; [by rewrite A2, A1, app_assoc|]. by rewrite foldl_app, (HK Hv), <- Hkeys.
Qed.

(** ** Reports *)

Lemma input_fields_run s l report i from bits : Forall receivable l → 0 ≤ from → laid_out from l bits → bits < 2 ^ 32 → fits s report bits →
  ∃ l' s', input_fields mem users l report i s = Done (l', s') ∧ data s' = data s ∧ Forall receivable l' ∧ laid_out from l' bits ∧ length l' = length l.
Proof.
  revert s from. induction l as [|f l IH]; intros s from Hr Hfr Hl Hb Hf; cbn [input_fields].
  { by exists [], s. }
  apply list.Forall_cons in Hr as [Hr Hrs]. destruct Hl as (Hfo & Ho & Hl). pose proof (laid_out_le _ _ _ Hl) as Hle. pose proof Hfo as (? & ? & _).
  destruct (input_field_run s f report i bits Hr ltac:(lia) ltac:(lia) Hb Hf) as (f1 & s1 & l1 & E1 & [D1 A1] & Hr1 & Ho1 & Hs1 & Hc1 & _). rewrite (run_bind _ _ _ _ _ E1).
  assert (Hf1 : fits s1 report bits) by (unfold fits in *; by rewrite D1).
  destruct (IH s1 (f_offset f + f_size f * f_count f) Hrs ltac:(nia) Hl Hb Hf1) as (l' & s2 & E2 & D2 & Hr2 & Hl2 & Hn2). rewrite (run_bind _ _ _ _ _ E2).
  exists (f1 :: l'), s2. split; [done|]. split; [congruence|]. split; [by constructor|]. split; [|cbn; by rewrite Hn2]. cbn [laid_out]. rewrite Ho1, Hs1, Hc1. destruct Hr1 as [? _]. done.
Qed.
Lemma log_if (b : bool) e s : ∃ s', (if b then log_event e else mret tt) s = Done (tt, s') ∧ data s' = data s.
Proof. destruct b; by eexists. Qed.

(** The reports of a type can be received in the buffer of [s]. *)
Definition enum_ready (s : rst) (e : hid_report_enum) : Prop :=
  ∀ id r, report_id_hash e !! id = Some r → 0 < r_size r ∧ Forall receivable (fields r) ∧ fits s (if numbered e =? 0 then 0 else 1) (r_size r).

(** A report of any content and length is received without a fault, whatever allocations fail: nothing outside
    of the buffer is touched, and the reports of the device are well formed and can be received
    again afterwards. *)
Theorem hid_input_report_safe s e size i bound type : enum_ok bound type e → bound < 2 ^ 32 → enum_ready s e → Forall byte_ok (data s) → data s ≠ [] → 0 ≤ size →
  ∃ x e' s', hid_input_report mem users e size i s = Done ((x, e'), s') ∧ enum_ok bound type e' ∧ enum_ready s' e' ∧ length (data s') = length (data s).
Proof.
  intros He Hb Hrd Hbytes Hne Hsz. unfold hid_input_report. destruct (Z.eqb_spec size 0) as [|Hsz0]; [by exists (-1), e, s|].
  assert (Hn : ∃ n, (if numbered e =? 0 then mret 0 else s ← get; match data s with b :: _ => mret b | [] => fail FBounds end) s = Done (n, s)).
  { destruct (_ =? 0); [by eexists|]. run_simpl. unfold get. cbn beta iota. destruct (data s); [done|]. by eexists. }
  destruct Hn as [n En]. rewrite (run_bind _ _ _ _ _ En). set (report := if numbered e =? 0 then 0 else 1). set (sz := if numbered e =? 0 then size else size - 1).
  replace (if numbered e =? 0 then (0, size) else (1, size - 1)) with (report, sz) by (unfold report, sz; by destruct (_ =? 0)). assert (Hs0 : 0 ≤ sz) by (unfold sz; destruct (_ =? 0); lia).
  destruct (report_id_hash e !! n) as [r|] eqn:Er; [|by exists (-1), e, s]. destruct (Hrd _ _ Er) as (Hr0 & Hrec & Hfit). fold report in Hfit. pose proof He as (_ & _ & Hok & _).
  pose proof (Hok _ _ Er) as (Hid & Eid & Ety & Hfn & Hlo & Hbd). cbv zeta. rewrite u32_small, shiftr3 by lia. set (rs := (r_size r - 1) / 8 + 1).
  assert (Hrs : 0 ≤ rs ≤ r_size r / 8 + 1 ∧ rs < 2 ^ 31) by (unfold rs; Z.div_mod_to_equations; lia). rewrite s32_small by (fold rs; lia). fold rs.
  assert (Hput : ∃ s1, (if sz <? rs then put_bytes (report + sz) (replicate (Z.to_nat (rs - sz)) 0) else mret tt) s = Done (tt, s1) ∧ Forall byte_ok (data s1) ∧ length (data s1) = length (data s)).
  { destruct (Z.ltb_spec sz rs); [|by exists s]. destruct Hfit as (_ & ? & Hlen). destruct (put_run s (report + sz) (replicate (Z.to_nat (rs - sz)) 0) Hbytes) as (s1 & E1 & H1 & H2 & _).
    - apply list.Forall_replicate. unfold byte_ok. lia.
    - lia.
    - rewrite length_replicate. lia.
    - by exists s1. }
  destruct Hput as (s1 & E1 & Hb1 & Hl1). rewrite (run_bind _ _ _ _ _ E1). destruct (log_if (negb (Z.land (claimed users) HID_CLAIMED_HIDDEV =? 0) && hiddev_report users) (HiddevReport (r_id r)) s1) as (s2 & E2 & D2). rewrite (run_bind _ _ _ _ _ E2).
  assert (Hf2 : fits s2 report (r_size r)) by (destruct Hfit as (_ & ? & ?); split; [by rewrite D2|]; split; [done|]; by rewrite D2, Hl1).
  destruct (input_fields_run s2 (fields r) report i 0 (r_size r) Hrec ltac:(lia) Hlo ltac:(lia) Hf2) as (l' & s3 & E3 & D3 & Hr3 & Hl3 & Hn3). rewrite (run_bind _ _ _ _ _ E3).
  assert (H4 : ∃ s4, (if Z.land (claimed users) HID_CLAIMED_INPUT =? 0 then mret tt else log_event (InputReport (r_id r))) s3 = Done (tt, s4) ∧ data s4 = data s3) by (rewrite (proj2 (Z.eqb_neq _ _) Hin); eexists; split; reflexivity).
  destruct H4 as (s4 & E4 & D4). rewrite (run_bind _ _ _ _ _ E4). assert (Hd4 : length (data s4) = length (data s) ∧ Forall byte_ok (data s4)) by (rewrite D4, D3, D2; by split). destruct Hd4 as [Hl4 Hb4].
  eexists 0, _, s4. split; [done|]. split; [eapply replace_report_ok; [done|lia|exact Er|]; unfold report_ok; cbn; by rewrite Hn3|]. split; [|done].
  intros id r'. cbn [report_id_hash numbered]. assert (Hkeep : ∀ rep bits, fits s rep bits → fits s4 rep bits) by (intros rep bits (? & ? & ?); split; [done|]; by rewrite Hl4).
  destruct (decide (n = id)) as [<-|Hd]; [rewrite lookup_insert_eq; intros [= <-]; cbn; split; [done|]; split; [done|]; by apply Hkeep|].
  rewrite lookup_insert_ne by done. intros Er'. destruct (Hrd _ _ Er') as (? & ? & ?). split; [done|]. split; [done|]. by apply Hkeep.
Qed.
End Input.

(** ** A keyboard *)

(** An array of two keys, with three usages that are keys *)
Definition key_field (vs : list Z) : hid_field :=
  HidField 0 0 0 [HidUsage 0 0; HidUsage 0x70004 0; HidUsage 0x70005 0; HidUsage 0x70006 0] 4 0 0 8 2 HID_INPUT_REPORT vs 0 3 0 0 0 0 0.
Definition input_user : hid_users := HidUsers HID_CLAIMED_INPUT false false.
Definition key_buffer (a b : Z) : list Z := a :: b :: replicate 14 0.
Lemma key_field_ok : receivable (key_field [0; 0]).
Proof.
  split; [|split; [intros _; unfold covered; cbn; lia|cbn; lia]]. unfold field_ok, HID_MAX_USAGES, s32_ok. cbn. repeat match goal with |- _ ∧ _ => split end; try lia; try done.
  repeat constructor; lia.
Qed.
Lemma key_buffer_fits a b : byte_ok a → byte_ok b → fits (Rst 0 (key_buffer a b) []) 0 16.
Proof. intros Ha Hb. split; [constructor; [done|]; constructor; [done|]; apply list.Forall_replicate; unfold byte_ok; lia|]. split; vm_compute; discriminate. Qed.
Lemma hid_keys_tracked_witness :
  (∃ f' s' evs, receive (λ _, true) input_user (key_field [0; 0]) 0 true [key_buffer 1 2; key_buffer 2 3] (Rst 0 [] []) = Done (f', s') ∧ log s' = [] ++ evs ∧
     foldl listen (keys (key_field [0; 0]) [0; 0]) evs = keys f' (value f')) ∧
  match receive (λ _, true) input_user (key_field [0; 0]) 0 true [key_buffer 1 2; key_buffer 2 3] (Rst 0 [] []) with
  | Done (f', s') => value f' = [2; 3] ∧ log s' = [InputEvent 0 1 1; InputEvent 0 2 1; InputEvent 0 1 0; InputEvent 0 3 1]
  | Fault _ => False
  end.
Proof.
  split; [|vm_compute; split; reflexivity].
  refine (hid_keys_tracked (λ _, true) input_user _ (Rst 0 [] []) (key_field [0; 0]) 0 true 16 [key_buffer 1 2; key_buffer 2 3] key_field_ok eq_refl _ _ _ _);
    [done|cbn; lia|cbn; lia|lia|]. constructor; [|constructor; [|constructor]]; apply key_buffer_fits; unfold byte_ok; lia.
Defined.

Definition key_enum : hid_report_enum := HidEnum 0 [0] {[0 := HidReport 0 HID_INPUT_REPORT [key_field [0; 0]] 16]}.
Lemma key_enum_ok : enum_ok 1000 HID_INPUT_REPORT key_enum.
Proof.
  split; [apply list.NoDup_singleton|]. split; [|split; [|done]].
  - intros id. cbn. rewrite list_elem_of_singleton, lookup_singleton_is_Some. naive_solver.
  - intros id r. cbn. intros [<- <-]%lookup_singleton_Some. split; [lia|]. split; [done|]. split; [done|]. split; [cbn; unfold HID_MAX_FIELDS; lia|]. split; [|cbn; lia].
    split; [apply key_field_ok|]. cbn. lia.
Qed.
Lemma hid_input_report_safe_witness :
  ∃ x e' s', hid_input_report (λ _, true) input_user key_enum 1 true (Rst 0 (key_buffer 3 200) []) = Done ((x, e'), s') ∧ enum_ok 1000 HID_INPUT_REPORT e' ∧ enum_ready s' e' ∧ length (data s') = 16%nat.
Proof.
  refine (hid_input_report_safe (λ _, true) input_user _ (Rst 0 (key_buffer 3 200) []) key_enum 1 true 1000 HID_INPUT_REPORT key_enum_ok _ _ _ _ _); [done|lia| | |done|lia].
  - intros id r. cbn. intros [<- <-]%lookup_singleton_Some. cbn. split; [lia|]. split; [constructor; [apply key_field_ok|constructor]|]. apply (key_buffer_fits 3 200); unfold byte_ok; lia.
  - apply (key_buffer_fits 3 200); unfold byte_ok; lia.
Defined.

(** ** What a descriptor can do *)

(** A report without bits is taken to have half a gigabyte, which is cleared from the end of the data on. *)
Theorem empty_report_clears mem users e r s size i : numbered e = 0 → report_id_hash e !! 0 = Some r → r_size r = 0 → 0 < size ≤ Z.of_nat (length (data s)) → Z.of_nat (length (data s)) < 2 ^ 29 →
  hid_input_report mem users e size i s = Fault FBounds.
Proof.
  intros En Er Es Hs Hl. unfold hid_input_report. rewrite (proj2 (Z.eqb_neq _ _)), En by lia. rewrite (run_bind _ _ s 0 s eq_refl). cbn beta iota zeta. change (0 =? 0) with true. cbv iota. rewrite Er, Es.
  change (s32 (Z.shiftr (u32 (0 - 1)) 3 + 1)) with (2 ^ 29). unfold put_bytes, in_buffer. rewrite length_replicate. unfold mbind at 1, M_bind at 1.
  destruct (Z.ltb_spec size (2 ^ 29)); [|lia]. rewrite (proj2 (Z.leb_gt (0 + size + _) _)) by lia. by rewrite andb_false_r.
Qed.
(** A keyboard whose array has a wider range than it has usages makes the kernel read behind the usages. *)
Definition wide_keyboard : list Z := [5; 7; 9; 6; 161; 1; 21; 0; 38; 255; 0; 117; 8; 149; 1; 9; 4; 129; 0; 192].
Theorem array_reads_behind_usages :
  match hid_parse_report (λ _, true) wide_keyboard hid_start with
  | Done (Some d, _) =>
      match report_enum d !! 0%nat with Some e => hid_input_report (λ _, true) input_user e 1 true (Rst 0 (200 :: replicate 63 0) []) = Fault FBounds | None => False end
  | _ => False
  end.
Proof. vm_compute. reflexivity. Qed.
