(* ===== verification/UsbConfig.v ===== *)
(** USB configuration descriptors: drivers/usb/core/config.c.

    A device describes each of its configurations by a string of descriptors.
    [usb_get_configuration] reads them and builds the interfaces, their alternate
    settings and endpoints; [usb_destroy_configuration] frees them.

    Pointers into the string are positions, and an access outside of the buffer is
    a fault.  What the device answers and which allocations succeed are
    parameters; [ulive] counts the objects that are allocated.  The structures have one
    owner each, so that they are values; the cached strings, which other files set, and
    messages are left out. *)

From S2P Require Import Prelude.

Definition USB_MAXALTSETTING : Z := 128.
Definition USB_MAXENDPOINTS : Z := 30.
Definition USB_MAXCONFIG : Z := 8.
Definition USB_MAXINTERFACES : Z := 32.
Definition USB_DT_CONFIG : Z := 2.
Definition USB_DT_INTERFACE : Z := 4.
Definition USB_DT_ENDPOINT : Z := 5.
Definition USB_DT_CONFIG_SIZE : Z := 9.
Definition USB_DT_INTERFACE_SIZE : Z := 9.
Definition USB_DT_ENDPOINT_SIZE : Z := 7.
Definition USB_DT_ENDPOINT_AUDIO_SIZE : Z := 9.

(** ** Data *)

(** Descriptors are their bytes. *)
Record usb_host_endpoint := Endpoint { ep_desc : list Z; ep_extra : Z; ep_extralen : Z }.
Record usb_host_interface := Alt { a_desc : list Z; a_endpoint : option (list usb_host_endpoint); a_extra : Z; a_extralen : Z }.
Record usb_interface_cache := Cache { num_altsetting : Z; ref : Z; altsetting : list usb_host_interface }.
Record usb_host_config := Config { c_desc : list Z; intf_cache : list (option usb_interface_cache); c_extra : Z; c_extralen : Z }.
(** The fields of [struct usb_device] *)
Record usb_device := UDev { bNumConfigurations : Z; config : option (list usb_host_config); rawdescriptors : option (list (option (list Z))) }.

Definition zero_endpoint : usb_host_endpoint := Endpoint [] 0 0.
Definition zero_alt : usb_host_interface := Alt (replicate 9 0) None 0 0.
Definition zero_config : usb_host_config := Config (replicate 9 0) (replicate 32 None) 0 0.

(** Bytes of a descriptor *)
Definition byte (d : list Z) (i : nat) : Z := nth i d 0.
Definition bNumEndpoints (a : usb_host_interface) : Z := byte (a_desc a) 4.
Definition with_bNumEndpoints (n : Z) (a : usb_host_interface) : usb_host_interface := Alt (<[4%nat := n]> (a_desc a)) (a_endpoint a) (a_extra a) (a_extralen a).
Definition bNumInterfaces (c : usb_host_config) : Z := byte (c_desc c) 4.

Section UsbConfig.
Context (mem : nat → bool).

Record ust := Ust { utries : nat; ulive : Z }.
Abbreviation UM := (M ust).
Definition ualloc : UM bool := λ s, let b := mem (utries s) in Done (b, Ust (S (utries s)) (ulive s + bool2Z b)).
Definition ufree : UM unit := modify (λ s, Ust (utries s) (ulive s - 1)).

(** ** Parsing *)

Section Raw.
(** The string of descriptors *)
Context (raw : list Z).

Definition rd (p : Z) : UM Z := if p <? 0 then fail FBounds else match raw !! Z.to_nat p with Some b => mret b | None => fail FBounds end.
Definition memcpy (p n : Z) : UM (list Z) :=
  if (0 <=? p) && (p + n <=? Z.of_nat (length raw)) then mret (take (Z.to_nat n) (drop (Z.to_nat p) raw)) else fail FBounds.

(** The number of bytes that are skipped *)
Fixpoint find_next_descriptor (fuel : nat) (buffer size dt1 dt2 : Z) : UM Z :=
  if 0 <? size then
    type ← rd (buffer + 1);
    if (type =? dt1) || (type =? dt2) then mret 0 else
    len ← rd buffer;
    match fuel with
    | O => fail FFuel
    | S fuel => n ← find_next_descriptor fuel (buffer + len) (size - len) dt1 dt2; mret (len + n)
    end
  else mret 0.

Definition usb_parse_endpoint (ifp : usb_host_interface) (num_ep buffer size : Z) : UM (Z * usb_host_interface) :=
  len ← rd buffer;
  let next : UM Z := find_next_descriptor (Z.to_nat size) (buffer + len) (size - len) USB_DT_ENDPOINT USB_DT_INTERFACE in
  let skip : UM (Z * usb_host_interface) := i ← next; mret (len + i, ifp) in
  if len <? USB_DT_ENDPOINT_SIZE then skip else
  let n := if USB_DT_ENDPOINT_AUDIO_SIZE <=? len then USB_DT_ENDPOINT_AUDIO_SIZE else USB_DT_ENDPOINT_SIZE in
  addr ← rd (buffer + 2);
  let i := Z.ldiff addr 128 in
  if (16 <=? i) || (i =? 0) then skip else
  if num_ep <=? bNumEndpoints ifp then skip else
  match a_endpoint ifp with
  | None => fail FNull
  | Some eps =>
      if Z.of_nat (length eps) <=? bNumEndpoints ifp then fail FBounds else
      d ← memcpy buffer n;
      i ← next;
      mret (len + i, Alt (<[4%nat := u8 (bNumEndpoints ifp + 1)]> (a_desc ifp)) (Some (<[Z.to_nat (bNumEndpoints ifp) := Endpoint d (buffer + len) i]> eps)) (a_extra ifp) (a_extralen ifp))
  end.

Fixpoint parse_endpoints (fuel : nat) (alt : usb_host_interface) (num_ep buffer size : Z) : UM (Z * usb_host_interface) :=
  if 0 <? size then
    type ← rd (buffer + 1);
    if type =? USB_DT_INTERFACE then mret (buffer, alt) else
    r ← usb_parse_endpoint alt num_ep buffer size;
    match fuel with O => fail FFuel | S fuel => parse_endpoints fuel (snd r) num_ep (buffer + fst r) (size - fst r) end
  else mret (buffer, alt).

(** The entry of an interface number *)
Fixpoint find_inum (l : list (Z * Z)) (inum : Z) : option (nat * Z) :=
  match l with
  | [] => None
  | (i, nalt) :: l => if i =? inum then Some (O, nalt) else (λ '(k, nalt), (S k, nalt)) <$> find_inum l inum
  end.
Definition set_cache (i : nat) (c : usb_interface_cache) (config : usb_host_config) : usb_host_config :=
  Config (c_desc config) (<[i := Some c]> (intf_cache config)) (c_extra config) (c_extralen config).
Definition set_alt (k : Z) (a : usb_host_interface) (c : usb_interface_cache) : usb_interface_cache :=
  Cache (num_altsetting c) (ref c) (<[Z.to_nat k := a]> (altsetting c)).

(** [intfs] are the arrays [inums] and [nalts], which have [bNumInterfaces] entries. *)
Definition usb_parse_interface (config : usb_host_config) (buffer size : Z) (intfs : list (Z * Z)) : UM (Z * usb_host_config) :=
  len ← rd buffer;
  let pos := buffer + len in
  let skip : UM (Z * usb_host_config) :=
    i ← find_next_descriptor (Z.to_nat size) pos (size - len) USB_DT_INTERFACE USB_DT_INTERFACE; mret (len + i, config) in
  if len <? USB_DT_INTERFACE_SIZE then skip else
  inum ← rd (buffer + 2);
  match find_inum intfs inum with
  | None => skip
  | Some (i, nalt) =>
      match intf_cache config !! i with
      | None => fail FBounds
      | Some None => skip
      | Some (Some intfc) =>
          if nalt <=? num_altsetting intfc then skip else
          asnum ← rd (buffer + 3);
          if existsb (λ a, byte (a_desc a) 3 =? asnum) (take (Z.to_nat (num_altsetting intfc)) (altsetting intfc)) then skip else
          let k := num_altsetting intfc in
          if Z.of_nat (length (altsetting intfc)) <=? k then fail FBounds else
          d ← memcpy buffer USB_DT_INTERFACE_SIZE;
          let intfc := Cache (k + 1) (ref intfc) (altsetting intfc) in
          i' ← find_next_descriptor (Z.to_nat size) pos (size - len) USB_DT_ENDPOINT USB_DT_INTERFACE;
          let alt := Alt d None pos i' in
          let num_ep := Z.min (bNumEndpoints alt) USB_MAXENDPOINTS in
          let alt := with_bNumEndpoints 0 alt in
          ok ← ualloc;
          if negb ok then mret (- ENOMEM, set_cache i (set_alt k alt intfc) config) else
          let alt := Alt (a_desc alt) (Some (replicate (Z.to_nat num_ep) zero_endpoint)) (a_extra alt) (a_extralen alt) in
          r ← parse_endpoints (Z.to_nat size) alt num_ep (pos + i') (size - len - i');
          mret (fst r - buffer, set_cache i (set_alt k (snd r) intfc) config)
      end
  end.

(** The first pass: the length of the valid descriptors, and the interfaces with the numbers of their settings *)
Fixpoint add_inum (l : list (Z * Z)) (inum : Z) : list (Z * Z) :=
  match l with
  | [] => [(inum, 1)]
  | (i, nalt) :: l => if i =? inum then (i, if nalt <? 255 then nalt + 1 else nalt) :: l else (i, nalt) :: add_inum l inum
  end.
Definition count_alt (l : list (Z * Z)) (inum : Z) : list (Z * Z) :=
  match find_inum l inum with
  | Some _ => add_inum l inum
  | None => if Z.of_nat (length l) <? USB_MAXINTERFACES then add_inum l inum else l
  end.
Fixpoint count_interfaces (fuel : nat) (buffer2 size2 : Z) (l : list (Z * Z)) : UM (Z * list (Z * Z)) :=
  if 0 <? size2 then
    if size2 <? 2 then mret (buffer2, l) else
    len ← rd buffer2;
    if (size2 <? len) || (len <? 2) then mret (buffer2, l) else
    type ← rd (buffer2 + 1);
    l ← (if type =? USB_DT_INTERFACE then
           if len <? USB_DT_INTERFACE_SIZE then mret l else inum ← rd (buffer2 + 2); mret (count_alt l inum)
         else mret l);
    match fuel with O => fail FFuel | S fuel => count_interfaces fuel (buffer2 + len) (size2 - len) l end
  else mret (buffer2, l).

(** The caches of the interfaces from the [i]-th on *)
Fixpoint alloc_caches (l : list (Z * Z)) (i : nat) (config : usb_host_config) : UM (Z * list (Z * Z) * usb_host_config) :=
  match l with
  | [] => mret (0, [], config)
  | (inum, nalt) :: l =>
      let j := Z.min nalt USB_MAXALTSETTING in
      ok ← ualloc;
      if negb ok then mret (- ENOMEM, [], config) else
      if Z.of_nat (length (intf_cache config)) <=? Z.of_nat i then fail FBounds else
      r ← alloc_caches l (S i) (set_cache i (Cache 0 1 (replicate (Z.to_nat j) zero_alt)) config);
      let '(ret, l, config) := r in
      mret (ret, (inum, j) :: l, config)
  end.

Fixpoint parse_interfaces (fuel : nat) (config : usb_host_config) (buffer size : Z) (intfs : list (Z * Z)) : UM (Z * usb_host_config) :=
  if 0 <? size then
    r ← usb_parse_interface config buffer size intfs;
    if fst r <? 0 then mret r else
    match fuel with O => fail FFuel | S fuel => parse_interfaces fuel (snd r) (buffer + fst r) (size - fst r) intfs end
  else mret (0, config).

Definition usb_parse_configuration (config : usb_host_config) (size : Z) : UM (Z * usb_host_config) :=
  d ← memcpy 0 USB_DT_CONFIG_SIZE;
  let config := Config d (intf_cache config) (c_extra config) (c_extralen config) in
  if negb (byte d 1 =? USB_DT_CONFIG) || (byte d 0 <? USB_DT_CONFIG_SIZE) then mret (- EINVAL, config) else
  let len := byte d 0 in
  r ← count_interfaces (Z.to_nat size) len (size - len) [];
  let '(buffer2, intfs) := r in
  let size := buffer2 - len in
  let d := <[4%nat := Z.of_nat (length intfs)]> (<[3%nat := u8 (buffer2 / 256)]> (<[2%nat := u8 buffer2]> d)) in
  r ← alloc_caches intfs 0 (Config d (intf_cache config) (c_extra config) (c_extralen config));
  let '(ret, intfs, config) := r in
  if ret <? 0 then mret (ret, config) else
  i ← find_next_descriptor (Z.to_nat size) len size USB_DT_INTERFACE USB_DT_INTERFACE;
  parse_interfaces (Z.to_nat size) (Config (c_desc config) (intf_cache config) len i) (len + i) (size - i) intfs.
End Raw.

(** ** Freeing *)

Definition kfree_opt {A} (p : option A) : UM unit := match p with Some _ => ufree | None => mret tt end.
Definition usb_release_interface_cache (intfc : usb_interface_cache) : UM unit :=
  seqM (map (λ a, kfree_opt (a_endpoint a)) (take (Z.to_nat (num_altsetting intfc)) (altsetting intfc))) ;; ufree.
(** A cache that someone else still refers to is left to them. *)
Definition kref_put (intfc : usb_interface_cache) : UM unit := if ref intfc =? 1 then usb_release_interface_cache intfc else mret tt.
Fixpoint put_caches (n : nat) (i : nat) (cf : usb_host_config) : UM unit :=
  match n with
  | O => mret tt
  | S n =>
      match intf_cache cf !! i with
      | None => fail FBounds
      | Some p => (match p with Some c => kref_put c | None => mret tt end) ;; put_caches n (S i) cf
      end
  end.
Fixpoint destroy_configs (n : nat) (c : nat) (l : list usb_host_config) : UM unit :=
  match n with
  | O => mret tt
  | S n => match l !! c with None => fail FBounds | Some cf => put_caches (Z.to_nat (bNumInterfaces cf)) 0 cf ;; destroy_configs n (S c) l end
  end.
Fixpoint free_raw (n : nat) (c : nat) (l : list (option (list Z))) : UM unit :=
  match n with
  | O => mret tt
  | S n => match l !! c with None => fail FBounds | Some p => kfree_opt p ;; free_raw n (S c) l end
  end.
Definition usb_destroy_configuration (dev : usb_device) : UM usb_device :=
  match config dev with
  | None => mret dev
  | Some l =>
      (match rawdescriptors dev with Some r => free_raw (Z.to_nat (bNumConfigurations dev)) 0 r ;; ufree | None => mret tt end) ;;
      destroy_configs (Z.to_nat (bNumConfigurations dev)) 0 l ;;
      ufree ;;
      mret (UDev (bNumConfigurations dev) None None)
  end.

(** ** Reading the configurations *)

(** [usb_get_descriptor]: for a configuration and a length of the buffer, the result and the contents of the buffer afterwards *)
Context (usb_get_descriptor : Z → Z → Z * list Z).

(** The configurations from [cfgno] on: the result and how many there are *)
Fixpoint get_configs (n : nat) (cfgno : Z) (cfgs : list usb_host_config) (raws : list (option (list Z))) :
    UM (Z * Z * list usb_host_config * list (option (list Z))) :=
  match n with
  | O => mret (0, cfgno, cfgs, raws)
  | S n =>
      let '(result, buffer) := usb_get_descriptor cfgno USB_DT_CONFIG_SIZE in
      if result <? 0 then mret (0, cfgno, cfgs, raws)
      else if result <? 4 then mret (- EINVAL, cfgno, cfgs, raws)
      else
        let length := Z.max (byte buffer 2 + 256 * byte buffer 3) USB_DT_CONFIG_SIZE in
        ok ← ualloc;
        if negb ok then mret (- ENOMEM, cfgno, cfgs, raws) else
        let '(result, bigbuffer) := usb_get_descriptor cfgno length in
        if result <? 0 then ufree ;; mret (result, cfgno, cfgs, raws) else
        let length := Z.min result length in
        match cfgs !! Z.to_nat cfgno with
        | None => fail FBounds
        | Some c =>
            r ← usb_parse_configuration bigbuffer c length;
            let cfgs := <[Z.to_nat cfgno := snd r]> cfgs in
            let raws := <[Z.to_nat cfgno := Some bigbuffer]> raws in
            if fst r <? 0 then mret (fst r, cfgno + 1, cfgs, raws)
            else get_configs n (cfgno + 1) cfgs raws
        end
  end.
Definition usb_get_configuration (dev : usb_device) : UM (Z * usb_device) :=
  let ncfg := Z.min (bNumConfigurations dev) USB_MAXCONFIG in
  let dev := UDev ncfg (config dev) (rawdescriptors dev) in
  if ncfg <? 1 then mret (- EINVAL, dev) else
  ok ← ualloc;
  if negb ok then mret (- ENOMEM, UDev ncfg None (rawdescriptors dev)) else
  let cfgs := replicate (Z.to_nat ncfg) zero_config in
  ok ← ualloc;
  if negb ok then mret (- ENOMEM, UDev ncfg (Some cfgs) None) else
  let raws := replicate (Z.to_nat ncfg) None in
  ok ← ualloc;
  if negb ok then mret (- ENOMEM, UDev ncfg (Some cfgs) (Some raws)) else
  r ← get_configs (Z.to_nat ncfg) 0 cfgs raws;
  let '(result, cfgno, cfgs, raws) := r in
  ufree ;;
  mret (result, UDev cfgno (Some cfgs) (Some raws)).
End UsbConfig.
