(* ===== verification/UsbConfigSafe.v ===== *)
(** Parsing of USB configurations is safe and complete.

    The first pass of [usb_parse_configuration] finds out up to where the string is a
    sequence of descriptors that fit into it; the second pass relies on that.  Whatever a device answers and
    whatever allocations fail, no access is outside of the buffer or of a table, and
    everything that was allocated is freed by [usb_destroy_configuration]. *)

From S2P Require Import Prelude UsbConfig.

Definition byte_ok (b : Z) : Prop := 0 ≤ b < 256.

(** ** Descriptors in a string *)

Section Raw.
Context (mem : nat → bool) (raw : list Z) (Hraw : Forall byte_ok raw).
Implicit Types s : ust.

Definition at_ (p b : Z) : Prop := 0 ≤ p ∧ raw !! Z.to_nat p = Some b.
(** From [p] on there are [size] bytes of descriptors, each with its length and at least two bytes. *)
Inductive tiled : Z → Z → Prop :=
| tiled_nil p : tiled p 0
| tiled_cons p len ty size : at_ p len → at_ (p + 1) ty → 2 ≤ len ≤ size → p + size ≤ Z.of_nat (length raw) → tiled (p + len) (size - len) → tiled p size.

Lemma rd_run s p b : at_ p b → rd raw p s = Done (b, s).
Proof. intros [Hp E]. unfold rd. destruct (Z.ltb_spec p 0); [lia|]. by rewrite E. Qed.
Lemma at_exists p : 0 ≤ p < Z.of_nat (length raw) → ∃ b, at_ p b ∧ byte_ok b.
Proof. intros Hp. destruct (lookup_lt_is_Some_2 raw (Z.to_nat p)) as [b E]; [lia|]. exists b. split; [split; [lia|done]|]. by eapply list.Forall_lookup_1. Qed.
Lemma at_byte p b : at_ p b → byte_ok b.
Proof. intros [_ E]. by eapply list.Forall_lookup_1. Qed.
Lemma tiled_nonneg p size : tiled p size → 0 ≤ size.
Proof. induction 1; lia. Qed.
Lemma tiled_range p size : tiled p size → 0 < size → 0 ≤ p ∧ p + size ≤ Z.of_nat (length raw).
Proof. destruct 1 as [|p len ty size [? _]]; lia. Qed.
Lemma memcpy_run s p n : 0 ≤ p → 0 ≤ n → p + n ≤ Z.of_nat (length raw) → ∃ d, memcpy raw p n s = Done (d, s) ∧ Z.of_nat (length d) = n ∧ Forall byte_ok d ∧ ∀ i b, Z.of_nat i < n → at_ (p + Z.of_nat i) b → byte d i = b.
Proof.
  intros Hp Hn Hl. unfold memcpy. rewrite !(proj2 (Z.leb_le _ _)) by lia. eexists. split; [reflexivity|]. rewrite length_take, length_drop. split; [lia|]. split; [by apply list.Forall_take, list.Forall_drop|].
  intros i b Hi [_ E]. unfold byte. apply nth_lookup_Some. rewrite lookup_take_lt, lookup_drop by lia. rewrite <- E. f_equal. lia.
Qed.

Lemma find_next_run s fuel p size dt1 dt2 : tiled p size → size ≤ Z.of_nat fuel →
  ∃ i, find_next_descriptor raw fuel p size dt1 dt2 s = Done (i, s) ∧ 0 ≤ i ≤ size ∧ tiled (p + i) (size - i).
Proof.
  intros Ht. revert fuel. induction Ht as [p|p len ty size Hl Hty Hlen Hsz Ht IH]; intros fuel Hf.
  { exists 0. destruct fuel; cbn; (split; [done|]); (split; [lia|]); rewrite Z.add_0_r; constructor. }
  destruct fuel as [|fuel]; [lia|]. cbn [find_next_descriptor]. rewrite (proj2 (Z.ltb_lt _ _)) by lia. rewrite (run_bind _ _ _ _ _ (rd_run s _ _ Hty)).
  destruct (_ || _).
  - exists 0. split; [done|]. split; [lia|]. rewrite Z.add_0_r, Z.sub_0_r. by apply (tiled_cons p len ty).
  - rewrite (run_bind _ _ _ _ _ (rd_run s _ _ Hl)). destruct (IH fuel ltac:(lia)) as (i & E & Hi & Ht'). rewrite (run_bind _ _ _ _ _ E). exists (len + i). split; [done|]. split; [lia|].
    replace (p + (len + i)) with (p + len + i) by lia. by replace (size - (len + i)) with (size - len - i) by lia.
Qed.

(** ** The first pass *)

Definition intfs_ok (l : list (Z * Z)) : Prop := Z.of_nat (length l) ≤ USB_MAXINTERFACES ∧ Forall (λ x, 1 ≤ snd x ≤ 255) l ∧ NoDup l.*1.
Lemma find_inum_elem l inum : find_inum l inum = None ↔ inum ∉ l.*1.
Proof.
  induction l as [|[i n] l IH]; cbn; [split; [intros _ H; by inversion H|done]|]. destruct (Z.eqb_spec i inum) as [->|Hne].
  - split; [done|]. intros H. exfalso. apply H. by left.
  - rewrite fmap_None, IH, not_elem_of_cons. naive_solver.
Qed.
Lemma add_inum_fst l inum : (add_inum l inum).*1 = match find_inum l inum with Some _ => l.*1 | None => l.*1 ++ [inum] end.
Proof.
  induction l as [|[i n] l IH]; cbn; [done|]. destruct (i =? inum); [done|]. cbn. rewrite IH. by destruct (find_inum l inum).
Qed.
Lemma add_inum_ok l inum : Forall (λ x, 1 ≤ snd x ≤ 255) l → Forall (λ x, 1 ≤ snd x ≤ 255) (add_inum l inum).
Proof.
  induction 1 as [|[i n] l Hx Hl IH]; cbn; [repeat constructor; cbn; lia|]. destruct (i =? inum); constructor; try done. cbn in *. destruct (Z.ltb_spec n 255); lia.
Qed.
Lemma count_alt_ok l inum : intfs_ok l → intfs_ok (count_alt l inum).
Proof.
  intros (Hn & Hf & Hd). unfold count_alt. destruct (find_inum l inum) eqn:E; [|destruct (Z.ltb_spec (Z.of_nat (length l)) USB_MAXINTERFACES); [|done]];
    (split; [|split; [by apply add_inum_ok|]]); rewrite <- ?(length_fmap fst (add_inum _ _)), add_inum_fst, E, ?length_app, ?length_fmap; cbn [length]; try lia; try done.
  apply list.NoDup_app. split; [done|]. split; [|apply list.NoDup_singleton]. intros x Hx ->%list_elem_of_singleton. by apply (proj1 (find_inum_elem l inum)).
Qed.
Lemma count_run s fuel p size l : 0 ≤ p → p + size ≤ Z.of_nat (length raw) → size ≤ Z.of_nat fuel → intfs_ok l →
  ∃ p' l', count_interfaces raw fuel p size l s = Done ((p', l'), s) ∧ p ≤ p' ∧ p' ≤ Z.max p (p + size) ∧ tiled p (p' - p) ∧ intfs_ok l'.
Proof.
  revert p size l. induction fuel as [|fuel IH]; intros p size l Hp Hs Hf Hl; cbn [count_interfaces].
  all: assert (Hstop : ∃ p' l', Done ((p, l), s) = Done ((p', l'), s) ∧ p ≤ p' ∧ p' ≤ Z.max p (p + size) ∧ tiled p (p' - p) ∧ intfs_ok l')
    by (exists p, l; split; [done|]; split; [lia|]; split; [lia|]; split; [rewrite Z.sub_diag; constructor|done]).
  { rewrite (proj2 (Z.ltb_ge _ _)) by lia. exact Hstop. }
  destruct (Z.ltb_spec 0 size); [|exact Hstop]. destruct (Z.ltb_spec size 2); [exact Hstop|].
  destruct (at_exists p ltac:(lia)) as (len & Hlen & _). rewrite (run_bind _ _ _ _ _ (rd_run s _ _ Hlen)). destruct (Z.ltb_spec size len); [exact Hstop|]. destruct (Z.ltb_spec len 2); [exact Hstop|]. cbn [orb].
  destruct (at_exists (p + 1) ltac:(lia)) as (ty & Hty & _). rewrite (run_bind _ _ _ _ _ (rd_run s _ _ Hty)).
  assert (Hstep : ∃ l1, (if ty =? USB_DT_INTERFACE then if len <? USB_DT_INTERFACE_SIZE then mret l else inum ← rd raw (p + 2); mret (count_alt l inum) else mret l) s = Done (l1, s) ∧ intfs_ok l1).
  { destruct (ty =? _); [|by exists l]. destruct (Z.ltb_spec len USB_DT_INTERFACE_SIZE); [by exists l|]. unfold USB_DT_INTERFACE_SIZE in *. destruct (at_exists (p + 2) ltac:(lia)) as (inum & Hi & _).
    rewrite (run_bind _ _ _ _ _ (rd_run s _ _ Hi)). eexists. split; [done|]. by apply count_alt_ok. }
  destruct Hstep as (l1 & E1 & Hl1). rewrite (run_bind _ _ _ _ _ E1). destruct (IH (p + len) (size - len) l1 ltac:(lia) ltac:(lia) ltac:(lia) Hl1) as (p' & l' & E & Hp1 & Hp2 & Hp3 & Hp4).
  exists p', l'. split; [done|]. split; [lia|]. split; [lia|]. split; [|done]. apply (tiled_cons p len ty); [done|done|lia|lia|]. by replace (p' - p - len) with (p' - (p + len)) by lia.
Qed.

(** ** Endpoints *)

Definition endpoint_ok (e : usb_host_endpoint) : Prop :=
  (length (ep_desc e) = 7%nat ∨ length (ep_desc e) = 9%nat) ∧ 0 ≤ ep_extra e ∧ 0 ≤ ep_extralen e ∧ ep_extra e + ep_extralen e ≤ Z.of_nat (length raw) ∧
  1 ≤ Z.ldiff (byte (ep_desc e) 2) 128 < 16.
(** A setting: the endpoints that were found fit into the array, which has room for at most [USB_MAXENDPOINTS]. *)
Definition alt_ok (a : usb_host_interface) : Prop :=
  length (a_desc a) = 9%nat ∧ 0 ≤ a_extra a ∧ 0 ≤ a_extralen a ∧ a_extra a + a_extralen a ≤ Z.of_nat (length raw) ∧
  match a_endpoint a with
  | Some eps => Z.of_nat (length eps) ≤ USB_MAXENDPOINTS ∧ 0 ≤ bNumEndpoints a ≤ Z.of_nat (length eps) ∧ Forall endpoint_ok (take (Z.to_nat (bNumEndpoints a)) eps)
  | None => bNumEndpoints a = 0
  end.
Lemma byte_insert_eq d i v : (i < length d)%nat → byte (<[i := v]> d) i = v.
Proof. intros Hi. unfold byte. apply nth_lookup_Some. by apply list_lookup_insert_eq. Qed.
Lemma byte_insert_ne d i j v : i ≠ j → byte (<[i := v]> d) j = byte d j.
Proof. intros Hi. unfold byte. rewrite !nth_lookup. by rewrite list_lookup_insert_ne. Qed.
Lemma take_insert_snoc {A} (l : list A) k x : (k < length l)%nat → take (S k) (<[k := x]> l) = take k l ++ [x].
Proof.
  intros Hk. rewrite (take_S_r _ _ x) by (by apply list_lookup_insert_eq). by rewrite take_insert_ge by lia.
Qed.
Lemma ldiff_address a : byte_ok a → (16 <=? Z.ldiff a 128) || (Z.ldiff a 128 =? 0) = false → 1 ≤ Z.ldiff a 128 < 16.
Proof.
  intros Ha E. apply orb_false_iff in E as [E1 E2]. bool_solve. assert (0 ≤ Z.ldiff a 128) by (apply Z.ldiff_nonneg; left; unfold byte_ok in Ha; lia). lia.
Qed.

Lemma parse_endpoint_run s alt num_ep p size : tiled p size → 0 < size → alt_ok alt → (∃ eps, a_endpoint alt = Some eps ∧ num_ep ≤ Z.of_nat (length eps)) →
  ∃ i alt', usb_parse_endpoint raw alt num_ep p size s = Done ((i, alt'), s) ∧ 2 ≤ i ≤ size ∧ tiled (p + i) (size - i) ∧ alt_ok alt' ∧
    byte (a_desc alt') 3 = byte (a_desc alt) 3 ∧ (∃ eps, a_endpoint alt' = Some eps ∧ num_ep ≤ Z.of_nat (length eps)).
Proof.
  intros Ht Hs Ha Hep. inversion Ht as [|p0 len ty size0 Hl Hty Hlen Hsz Ht']; subst; [lia|]. unfold usb_parse_endpoint. rewrite (run_bind _ _ _ _ _ (rd_run s _ _ Hl)). cbv zeta.
  destruct (find_next_run s (Z.to_nat size) (p + len) (size - len) USB_DT_ENDPOINT USB_DT_INTERFACE Ht' ltac:(lia)) as (i & E & Hi & Hti).
  assert (Hrest : tiled (p + (len + i)) (size - (len + i))) by (replace (p + (len + i)) with (p + len + i) by lia; by replace (size - (len + i)) with (size - len - i) by lia).
  assert (Hskip : ∃ j alt', (j ← find_next_descriptor raw (Z.to_nat size) (p + len) (size - len) USB_DT_ENDPOINT USB_DT_INTERFACE; mret (len + j, alt)) s = Done ((j, alt'), s) ∧ 2 ≤ j ≤ size ∧
    tiled (p + j) (size - j) ∧ alt_ok alt' ∧ byte (a_desc alt') 3 = byte (a_desc alt) 3 ∧ (∃ eps, a_endpoint alt' = Some eps ∧ num_ep ≤ Z.of_nat (length eps))).
  { exists (len + i), alt. rewrite (run_bind _ _ _ _ _ E). split; [done|]. split; [lia|]. done. }
  unfold USB_DT_ENDPOINT_SIZE, USB_DT_ENDPOINT_AUDIO_SIZE. destruct (Z.ltb_spec len 7); [exact Hskip|]. destruct (at_exists (p + 2)) as (addr & Haddr & Hab); [destruct Hl; lia|].
  rewrite (run_bind _ _ _ _ _ (rd_run s _ _ Haddr)). destruct (_ || _) eqn:Eaddr; [exact Hskip|]. destruct (Z.leb_spec num_ep (bNumEndpoints alt)); [exact Hskip|].
  destruct Hep as (eps & Eeps & Hneps). rewrite Eeps. destruct (Z.leb_spec (Z.of_nat (length eps)) (bNumEndpoints alt)); [lia|].
  destruct (memcpy_run s p (if 9 <=? len then 9 else 7)) as (d & Ed & Hdl & Hdb & Hdi); [destruct Hl; lia|destruct (Z.leb_spec 9 len); lia|destruct (Z.leb_spec 9 len); lia|].
  rewrite (run_bind _ _ _ _ _ Ed), (run_bind _ _ _ _ _ E). destruct Ha as (Ha1 & Ha2 & Ha3 & Ha4 & Ha5). rewrite Eeps in Ha5. destruct Ha5 as (Hm & Hn & Hf). unfold USB_MAXENDPOINTS in *.
  set (alt1 := Alt _ _ _ _). assert (En : bNumEndpoints alt1 = bNumEndpoints alt + 1) by (unfold bNumEndpoints at 1, alt1; cbn [a_desc]; rewrite byte_insert_eq by lia; apply (wrap_small 8); lia).
  exists (len + i), alt1. split; [reflexivity|]. split; [lia|]. split; [done|]. split; [|split; [by apply byte_insert_ne|eexists; split; [done|by rewrite length_insert]]].
  unfold alt_ok. rewrite En. cbn [a_desc a_endpoint a_extra a_extralen alt1]. rewrite !length_insert.
  repeat (split; [done || lia|]). rewrite Z2Nat.inj_add, Nat.add_1_r, take_insert_snoc by lia. apply list.Forall_app. split; [done|]. constructor; [|constructor].
  unfold endpoint_ok. cbn [ep_desc ep_extra ep_extralen]. pose proof (tiled_range p size Ht Hs). split; [destruct (9 <=? len); lia|]. split; [lia|]. split; [lia|]. split; [lia|].
  rewrite (Hdi 2%nat addr) by (done || (destruct (9 <=? len); lia)). by apply ldiff_address.
Qed.
Lemma parse_endpoints_run s fuel alt num_ep p size : tiled p size → size ≤ Z.of_nat fuel → alt_ok alt → (∃ eps, a_endpoint alt = Some eps ∧ num_ep ≤ Z.of_nat (length eps)) →
  ∃ p' alt', parse_endpoints raw fuel alt num_ep p size s = Done ((p', alt'), s) ∧ p ≤ p' ≤ p + size ∧ tiled p' (size - (p' - p)) ∧ alt_ok alt' ∧
    byte (a_desc alt') 3 = byte (a_desc alt) 3 ∧ is_Some (a_endpoint alt').
Proof.
  revert alt p size. induction fuel as [|fuel IH]; intros alt p size Ht Hf Ha Hep; cbn [parse_endpoints]; pose proof (tiled_nonneg _ _ Ht).
  all: assert (Hstop : ∃ p' alt', Done ((p, alt), s) = Done ((p', alt'), s) ∧ p ≤ p' ≤ p + size ∧ tiled p' (size - (p' - p)) ∧ alt_ok alt' ∧ byte (a_desc alt') 3 = byte (a_desc alt) 3 ∧ is_Some (a_endpoint alt'))
    by (exists p, alt; split; [done|]; split; [lia|]; split; [by replace (size - (p - p)) with size by lia|]; split; [done|]; split; [done|]; destruct Hep as (eps & -> & _); by eexists).
  { rewrite (proj2 (Z.ltb_ge _ _)) by lia. exact Hstop. }
  destruct (Z.ltb_spec 0 size); [|exact Hstop]. inversion Ht as [|p0 len ty size0 Hl Hty Hlen Hsz Ht']; subst; [lia|]. rewrite (run_bind _ _ _ _ _ (rd_run s _ _ Hty)). destruct (ty =? _); [exact Hstop|].
  destruct (parse_endpoint_run s alt num_ep p size Ht ltac:(lia) Ha Hep) as (i & alt1 & E & Hi & Hti & Ha1 & Hb1 & Hep1). rewrite (run_bind _ _ _ _ _ E). cbn [fst snd].
  destruct (IH alt1 (p + i) (size - i) Hti ltac:(lia) Ha1 Hep1) as (p' & alt' & E' & Hp' & Ht2 & Ha2 & Hb2 & Hs2). exists p', alt'. split; [done|]. split; [lia|].
  split; [by replace (size - (p' - p)) with (size - i - (p' - (p + i))) by lia|]. split; [done|]. split; [congruence|done].
Qed.

(** ** Interfaces *)

Definition asnum (a : usb_host_interface) : Z := byte (a_desc a) 3.
Definition settings (c : usb_interface_cache) : list usb_host_interface := take (Z.to_nat (num_altsetting c)) (altsetting c).
(** The cache of an interface with room for [nalt] settings: those in use are well formed and have different numbers. *)
Definition cache_ok (nalt : Z) (c : usb_interface_cache) : Prop :=
  ref c = 1 ∧ Z.of_nat (length (altsetting c)) = nalt ∧ 0 ≤ num_altsetting c ≤ nalt ∧ Forall alt_ok (settings c) ∧ NoDup (asnum <$> settings c).
Definition config_ok (c : usb_host_config) : Prop :=
  length (c_desc c) = 9%nat ∧ length (intf_cache c) = 32%nat ∧ 0 ≤ bNumInterfaces c ≤ USB_MAXINTERFACES ∧
  ∀ i x, intf_cache c !! i = Some (Some x) → Z.of_nat i < bNumInterfaces c ∧ ∃ nalt, cache_ok nalt x.
(** Every interface has its cache. *)
Definition config_full (intfs : list (Z * Z)) (c : usb_host_config) : Prop :=
  config_ok c ∧ ∀ i inum nalt, intfs !! i = Some (inum, nalt) → ∃ x, intf_cache c !! i = Some (Some x) ∧ cache_ok nalt x.

(** What is allocated for a configuration *)
Definition alt_weight (a : usb_host_interface) : Z := match a_endpoint a with Some _ => 1 | None => 0 end.
Fixpoint alts_weight (l : list usb_host_interface) : Z := match l with [] => 0 | a :: l => alt_weight a + alts_weight l end.
Definition cache_weight (o : option usb_interface_cache) : Z := match o with Some c => 1 + alts_weight (settings c) | None => 0 end.
Fixpoint caches_weight (l : list (option usb_interface_cache)) : Z := match l with [] => 0 | o :: l => cache_weight o + caches_weight l end.
Definition config_weight (c : usb_host_config) : Z := caches_weight (intf_cache c).

Lemma alts_weight_snoc l a : alts_weight (l ++ [a]) = alts_weight l + alt_weight a.
Proof. induction l as [|x l IH]; cbn; lia. Qed.
Lemma caches_weight_insert l i o o' : l !! i = Some o → caches_weight (<[i := o']> l) = caches_weight l + cache_weight o' - cache_weight o.
Proof.
  revert i. induction l as [|x l IH]; intros [|i] E; [done|done| |].
  - injection E as ->. change (<[0%nat := o']> (o :: l)) with (o' :: l). cbn [caches_weight]. lia.
  - change (<[S i := o']> (x :: l)) with (x :: <[i := o']> l). cbn [caches_weight]. rewrite (IH i E). lia.
Qed.
Lemma set_cache_ok i o x nalt c : config_ok c → intf_cache c !! i = Some o → Z.of_nat i < bNumInterfaces c → cache_ok nalt x → config_ok (set_cache i x c).
Proof.
  intros (Hd & Hl & Hn & Hc) Ei Hi Hx. split; [done|]. split; [cbn; by rewrite length_insert|]. split; [done|]. intros j y. cbn. destruct (decide (i = j)) as [<-|Hne].
  - rewrite list_lookup_insert_eq by (by eapply lookup_lt_Some). intros [= <-]. split; [done|]. by exists nalt.
  - rewrite list_lookup_insert_ne by done. apply Hc.
Qed.
Lemma set_cache_full intfs i inum nalt x c : config_full intfs c → intfs !! i = Some (inum, nalt) → cache_ok nalt x → config_full intfs (set_cache i x c).
Proof.
  intros [Hc Hf] Ei Hx. destruct (Hf _ _ _ Ei) as (y & Ey & Hy). pose proof Hc as (_ & _ & _ & Hc'). destruct (Hc' _ _ Ey) as [Hi _]. split; [by eapply set_cache_ok|].
  intros j inum' nalt' Ej. cbn. destruct (decide (i = j)) as [<-|Hne].
  - rewrite Ei in Ej. injection Ej as <- <-. exists x. split; [|done]. apply list_lookup_insert_eq. by eapply lookup_lt_Some.
  - rewrite list_lookup_insert_ne by done. by apply (Hf j inum').
Qed.
(** One more setting *)
Lemma add_setting nalt c a : cache_ok nalt c → num_altsetting c < nalt → alt_ok a → asnum a ∉ asnum <$> settings c →
  let c' := set_alt (num_altsetting c) a (Cache (num_altsetting c + 1) (ref c) (altsetting c)) in
  cache_ok nalt c' ∧ cache_weight (Some c') = cache_weight (Some c) + alt_weight a.
Proof.
  intros (Hr & Hl & Hn & Hf & Hd) Hlt Ha Hnew c'. assert (Es : settings c' = settings c ++ [a]).
  { unfold settings, c', set_alt. cbn [num_altsetting altsetting ref]. rewrite Z2Nat.inj_add, Nat.add_1_r by lia. apply take_insert_snoc. lia. }
  split; [|unfold cache_weight; rewrite Es, alts_weight_snoc; lia]. unfold cache_ok. rewrite Es. cbn [c' set_alt ref num_altsetting altsetting]. rewrite length_insert.
  split; [done|]. split; [done|]. split; [lia|]. split; [apply list.Forall_app; split; [done|by apply list.Forall_singleton]|]. rewrite fmap_app. apply list.NoDup_app. split; [done|].
  split; [|apply list.NoDup_singleton]. intros x Hx ->%list_elem_of_singleton. done.
Qed.
Lemma find_inum_some l inum i nalt : find_inum l inum = Some (i, nalt) → l !! i = Some (inum, nalt).
Proof.
  revert i. induction l as [|[j n] l IH]; intros i; cbn; [done|]. destruct (Z.eqb_spec j inum) as [->|]; [by intros [= <- <-]|].
  destruct (find_inum l inum) as [[k m]|]; [|done]. intros [= <- <-]. cbn. by apply IH.
Qed.
Lemma no_duplicate c n : existsb (λ a, byte (a_desc a) 3 =? n) (settings c) = false → n ∉ asnum <$> settings c.
Proof.
  intros E (a & -> & Ha)%list_elem_of_fmap. assert (E' : existsb (λ b, byte (a_desc b) 3 =? asnum a) (settings c) = true); [|congruence].
  apply existsb_exists. exists a. split; [by apply list_elem_of_In|apply Z.eqb_refl].
Qed.

(** The outcome of parsing one interface descriptor *)
Definition parsed (intfs : list (Z * Z)) (p size : Z) (c c' : usb_host_config) (s s' : ust) (r : Z) : Prop :=
  c_desc c' = c_desc c ∧ config_ok c' ∧ ulive s' - config_weight c' = ulive s - config_weight c ∧
  (r = - ENOMEM ∨ (2 ≤ r ≤ size ∧ tiled (p + r) (size - r) ∧ config_full intfs c')).

Lemma parse_interface_run s c p size intfs : tiled p size → 0 < size → config_full intfs c →
  ∃ r c' s', usb_parse_interface mem raw c p size intfs s = Done ((r, c'), s') ∧ parsed intfs p size c c' s s' r.
Proof.
  intros Ht Hs Hc. pose proof (tiled_range p size Ht Hs) as [Hp0 Hpl]. inversion Ht as [|p0 len ty size0 Hl Hty Hlen Hsz Ht']; subst; [lia|]. unfold usb_parse_interface. rewrite (run_bind _ _ _ _ _ (rd_run s _ _ Hl)). cbv zeta.
  destruct (find_next_run s (Z.to_nat size) (p + len) (size - len) USB_DT_INTERFACE USB_DT_INTERFACE Ht' ltac:(lia)) as (i0 & E0 & Hi0 & Ht0).
  assert (Hskip : ∃ r c' s', (i ← find_next_descriptor raw (Z.to_nat size) (p + len) (size - len) USB_DT_INTERFACE USB_DT_INTERFACE; mret (len + i, c)) s = Done ((r, c'), s') ∧ parsed intfs p size c c' s s' r).
  { exists (len + i0), c, s. rewrite (run_bind _ _ _ _ _ E0). split; [done|]. pose proof Hc as [? _]. split; [done|]. split; [done|]. split; [done|]. right. split; [lia|]. split; [|done].
    replace (p + (len + i0)) with (p + len + i0) by lia. by replace (size - (len + i0)) with (size - len - i0) by lia. }
  unfold USB_DT_INTERFACE_SIZE. destruct (Z.ltb_spec len 9); [exact Hskip|]. destruct (at_exists (p + 2)) as (inum & Hin & _); [lia|]. rewrite (run_bind _ _ _ _ _ (rd_run s _ _ Hin)).
  destruct (find_inum intfs inum) as [[i nalt]|] eqn:Ef; [|exact Hskip]. apply find_inum_some in Ef. pose proof Hc as [Hok Hfull]. destruct (Hfull _ _ _ Ef) as (x & Ex & Hx). rewrite Ex.
  destruct (Z.leb_spec nalt (num_altsetting x)); [exact Hskip|]. destruct (at_exists (p + 3)) as (n & Han & _); [lia|]. rewrite (run_bind _ _ _ _ _ (rd_run s _ _ Han)).
  change (take (Z.to_nat (num_altsetting x)) (altsetting x)) with (settings x). destruct (existsb _ _) eqn:Edup; [exact Hskip|]. apply no_duplicate in Edup.
  destruct (Z.leb_spec (Z.of_nat (length (altsetting x))) (num_altsetting x)); [destruct Hx as (_ & ? & _); lia|].
  destruct (memcpy_run s p 9 Hp0 ltac:(lia) ltac:(lia)) as (d & Ed & Hdl & Hdb & Hdi). rewrite (run_bind _ _ _ _ _ Ed).
  destruct (find_next_run s (Z.to_nat size) (p + len) (size - len) USB_DT_ENDPOINT USB_DT_INTERFACE Ht' ltac:(lia)) as (i' & E' & Hi' & Hti). rewrite (run_bind _ _ _ _ _ E').
  set (num_ep := Z.min _ _). assert (Hnum : 0 ≤ num_ep ≤ USB_MAXENDPOINTS).
  { unfold num_ep, bNumEndpoints. cbn [a_desc]. destruct (at_exists (p + 4)) as (b & Hb & Hbb); [lia|]. rewrite (Hdi 4%nat b) by (done || lia). unfold byte_ok, USB_MAXENDPOINTS in *. lia. }
  set (alt := with_bNumEndpoints 0 _). assert (Hb0 : bNumEndpoints alt = 0) by (unfold bNumEndpoints, alt, with_bNumEndpoints; cbn [a_desc]; apply byte_insert_eq; lia).
  assert (Has : asnum alt = n) by (unfold asnum, alt, with_bNumEndpoints; cbn [a_desc]; rewrite byte_insert_ne by lia; apply Hdi; [lia|done]).
  assert (Hal : alt_ok alt) by (split; [cbn; rewrite length_insert; lia|]; cbn [a_extra a_extralen a_endpoint alt with_bNumEndpoints]; repeat (split; [lia|]); exact Hb0).
  assert (Hdone : ∀ a s' r, alt_ok a → asnum a = n → ulive s' = ulive s + alt_weight a → r = - ENOMEM ∨ (2 ≤ r ≤ size ∧ tiled (p + r) (size - r)) →
    parsed intfs p size c (set_cache i (set_alt (num_altsetting x) a (Cache (num_altsetting x + 1) (ref x) (altsetting x))) c) s s' r).
  { intros a s' r Haok Han' Hlive Hr. rewrite <- Han' in Edup. destruct (add_setting nalt x a Hx ltac:(lia) Haok Edup) as [Hc' Hw']. pose proof (set_cache_full intfs i inum nalt _ c Hc Ef Hc') as Hfc.
    split; [done|]. split; [by destruct Hfc|]. split; [|destruct Hr as [->|[? ?]]; [by left|by right]].
    unfold config_weight, set_cache at 1. cbn [intf_cache]. rewrite (caches_weight_insert _ _ _ _ Ex), Hw'. lia. }
  unfold ualloc. unfold mbind at 1, M_bind at 1. cbn beta iota. destruct (mem (utries s)); cbn [negb bool2Z]; [|eexists _, _, _; split; [reflexivity|]; apply Hdone; [done|done|cbn; lia|by left]].
  set (s1 := Ust _ _). set (alt1 := Alt _ (Some _) _ _). assert (Hal1 : alt_ok alt1).
  { destruct Hal as (? & ? & ? & ? & _). repeat (split; [done|]). cbn [a_endpoint alt1]. change (bNumEndpoints alt1) with (bNumEndpoints alt). rewrite Hb0, length_replicate. split; [lia|]. split; [lia|constructor]. }
  destruct (parse_endpoints_run s1 (Z.to_nat size) alt1 num_ep (p + len + i') (size - len - i') Hti ltac:(lia) Hal1) as (p' & a & Ep & Hp' & Htp & Haok & Hab & [eps Heps]); [eexists; split; [done|rewrite length_replicate; lia]|].
  rewrite (run_bind _ _ _ _ _ Ep). eexists _, _, _. split; [reflexivity|]. cbn [fst snd]. apply Hdone; [done|by rewrite <- Has|unfold alt_weight; rewrite Heps; cbn; lia|right]. cbn [fst]. split; [lia|].
  replace (p + (p' - p)) with p' by lia. by replace (size - (p' - p)) with (size - len - i' - (p' - (p + len + i'))) by lia.
Qed.
Lemma parse_interfaces_run s fuel c p size intfs : tiled p size → size ≤ Z.of_nat fuel → config_full intfs c →
  ∃ r c' s', parse_interfaces mem raw fuel c p size intfs s = Done ((r, c'), s') ∧ (r = 0 ∧ config_full intfs c' ∨ r = - ENOMEM) ∧ config_ok c' ∧ c_desc c' = c_desc c ∧
    ulive s' - config_weight c' = ulive s - config_weight c.
Proof.
  revert s c p size. induction fuel as [|fuel IH]; intros s c p size Ht Hf Hc; cbn [parse_interfaces]; pose proof (tiled_nonneg _ _ Ht); pose proof Hc as [Hok _].
  { rewrite (proj2 (Z.ltb_ge _ _)) by lia. exists 0, c, s. split; [done|]. split; [by left|done]. }
  destruct (Z.ltb_spec 0 size); [|exists 0, c, s; split; [done|]; split; [by left|done]].
  destruct (parse_interface_run s c p size intfs Ht ltac:(lia) Hc) as (r & c1 & s1 & E & Hd & Hok1 & Hw & Hr). rewrite (run_bind _ _ _ _ _ E). cbn [fst snd].
  destruct Hr as [->|(Hr & Ht1 & Hc1)]; [exists (- ENOMEM), c1, s1; split; [done|]; split; [by right|done]|]. rewrite (proj2 (Z.ltb_ge _ _)) by lia.
  destruct (IH s1 c1 (p + r) (size - r) Ht1 ltac:(lia) Hc1) as (r2 & c2 & s2 & E2 & Hr2 & Hok2 & Hd2 & Hw2). exists r2, c2, s2. split; [done|]. split; [done|]. split; [done|]. split; [congruence|lia].
Qed.

Lemma fresh_cache j : 0 ≤ j → cache_ok j (Cache 0 1 (replicate (Z.to_nat j) zero_alt)) ∧ cache_weight (Some (Cache 0 1 (replicate (Z.to_nat j) zero_alt))) = 1.
Proof.
  intros Hj. split; [|done]. split; [done|]. cbn [altsetting num_altsetting]. rewrite length_replicate. split; [lia|]. split; [lia|]. split; [constructor|apply base.NoDup_nil_2].
Qed.
Lemma alloc_caches_run s l i c : config_ok c → bNumInterfaces c = Z.of_nat (i + length l) → Forall (λ x, 1 ≤ snd x) l → (∀ j, (i ≤ j < 32)%nat → intf_cache c !! j = Some None) →
  ∃ r l' c' s', alloc_caches mem l i c s = Done ((r, l', c'), s') ∧ config_ok c' ∧ c_desc c' = c_desc c ∧ ulive s' - config_weight c' = ulive s - config_weight c ∧
    (∀ j, (j < i)%nat → intf_cache c' !! j = intf_cache c !! j) ∧
    (r = - ENOMEM ∨ r = 0 ∧ ∀ k inum nalt, l' !! k = Some (inum, nalt) → ∃ x, intf_cache c' !! (i + k)%nat = Some (Some x) ∧ cache_ok nalt x).
Proof.
  revert s i c. induction l as [|[inum nalt] l IH]; intros s i c Hc Hn Hl Hnone; cbn [alloc_caches].
  { exists 0, [], c, s. split; [done|]. split; [done|]. split; [done|]. split; [done|]. split; [done|]. by right. }
  apply list.Forall_cons in Hl as [Hj Hl]. cbn [snd length] in *. unfold ualloc. unfold mbind at 1, M_bind at 1. cbn beta iota zeta. destruct (mem (utries s)); cbn [negb bool2Z].
  2: { exists (- ENOMEM), [], c, (Ust (S (utries s)) (ulive s + 0)). split; [done|]. split; [done|]. split; [done|]. split; [cbn; lia|]. split; [done|]. by left. }
  pose proof Hc as (_ & Hl32 & Hn32 & _). unfold USB_MAXINTERFACES in *. rewrite Hl32. destruct (Z.leb_spec (Z.of_nat 32) (Z.of_nat i)); [lia|]. set (j := Z.min nalt USB_MAXALTSETTING). assert (Hj0 : 0 ≤ j) by (unfold j, USB_MAXALTSETTING; lia).
  destruct (fresh_cache j Hj0) as [Hx Hw]. set (x := Cache 0 1 _) in *. pose proof (Hnone i ltac:(lia)) as Ei.
  destruct (IH (Ust (S (utries s)) (ulive s + 1)) (S i) (set_cache i x c)) as (r & l' & c' & s' & E & Hc' & Hd' & Hw' & Hlow & Hr).
  - by apply (set_cache_ok i None x j); [| |lia|].
  - rewrite <- Nat.add_succ_comm in Hn. exact Hn.
  - done.
  - intros k Hk. cbn. rewrite list_lookup_insert_ne by lia. apply Hnone. lia.
  - exists r, ((inum, j) :: l'), c', s'. rewrite (run_bind _ _ _ _ _ E). split; [done|]. split; [done|]. split; [done|].
    split; [rewrite Hw'; unfold config_weight, set_cache; cbn [intf_cache ulive]; rewrite (caches_weight_insert _ _ _ _ Ei), Hw; cbn; lia|].
    split; [intros k Hk; rewrite Hlow by lia; cbn; by rewrite list_lookup_insert_ne by lia|]. destruct Hr as [->|[-> Hr]]; [by left|]. right. split; [done|].
    intros [|k] inum' nalt'; cbn; [|intros Ek; rewrite <- Nat.add_succ_comm; by apply (Hr k inum')]. intros [= <- <-]. exists x. split; [|done]. rewrite Nat.add_0_r, Hlow by lia. cbn. apply list_lookup_insert_eq. lia.
Qed.

(** A configuration that was not parsed to the end is harmless if its descriptor does not promise more interfaces than there can be. *)
Definition config_sane (d : list Z) : Prop := byte d 1 = USB_DT_CONFIG ∧ USB_DT_CONFIG_SIZE ≤ byte d 0 ∨ byte d 4 ≤ USB_MAXINTERFACES.
Lemma caches_none n : caches_weight (replicate n None) = 0.
Proof. induction n; cbn in *; lia. Qed.
Lemma parse_configuration_run s size : 9 ≤ Z.of_nat (length raw) → size ≤ Z.of_nat (length raw) → config_sane raw →
  ∃ r c' s', usb_parse_configuration mem raw zero_config size s = Done ((r, c'), s') ∧ config_ok c' ∧ ulive s' = ulive s + config_weight c'.
Proof.
  intros H9 Hsz Hsane. unfold usb_parse_configuration. destruct (memcpy_run s 0 9) as (d & Ed & Hdl & Hdb & Hdi); [lia|lia|lia|]. change USB_DT_CONFIG_SIZE with 9. rewrite (run_bind _ _ _ _ _ Ed).
  assert (Hby : ∀ i, (i < 9)%nat → byte d i = byte raw i ∧ byte_ok (byte d i)).
  { intros i Hi. destruct (at_exists (Z.of_nat i)) as (b & Hb & Hbb); [lia|]. rewrite (Hdi i b) by (done || lia). split; [|done]. destruct Hb as [_ Hb]. unfold byte. symmetry. apply nth_lookup_Some. by rewrite Nat2Z.id in Hb. }
  cbv zeta. cbn [intf_cache c_extra c_extralen zero_config c_desc].
  destruct (negb (byte d 1 =? USB_DT_CONFIG) || (byte d 0 <? 9)) eqn:Ebad.
  { eexists _, _, s. split; [reflexivity|]. split; [|unfold config_weight; cbn [intf_cache]; rewrite caches_none; lia]. split; [cbn; lia|]. split; [done|]. cbn [c_desc intf_cache]. unfold bNumInterfaces. cbn [c_desc].
    destruct (Hby 4%nat ltac:(lia)) as [E4 H4]. destruct (Hby 1%nat ltac:(lia)) as [E1 _]. destruct (Hby 0%nat ltac:(lia)) as [E0 _]. unfold byte_ok in H4. split.
    - destruct Hsane as [[H1 H0]|Hs]; [|rewrite <- E4 in Hs; lia]. rewrite E1, E0, H1 in Ebad. unfold USB_DT_CONFIG_SIZE in H0. rewrite (proj2 (Z.ltb_ge _ _)) in Ebad by lia. done.
    - intros i x Hx. apply lookup_replicate in Hx as [? _]. done. }
  apply orb_false_iff in Ebad as [_ Ebad]. bool_solve. destruct (Hby 0%nat ltac:(lia)) as [_ Hb0]. unfold byte_ok in Hb0. set (len := byte d 0) in *.
  assert (Hcnt : ∃ p' l, count_interfaces raw (Z.to_nat size) len (size - len) [] s = Done ((p', l), s) ∧ len ≤ p' ∧ tiled len (p' - len) ∧ intfs_ok l).
  { destruct (count_run s (Z.to_nat size) len (size - len) []) as (p' & l & E & ? & _ & ? & ?); [lia|lia|lia| |by exists p', l]. split; [cbn; unfold USB_MAXINTERFACES; lia|]. split; [constructor|apply base.NoDup_nil_2]. }
  destruct Hcnt as (p' & l & Ec & Hp' & Htl & Hl & Hl1 & _). rewrite (run_bind _ _ _ _ _ Ec). set (d1 := <[4%nat := _]> _).
  assert (Hd1 : length d1 = 9%nat ∧ byte d1 4 = Z.of_nat (length l)) by (unfold d1; rewrite !length_insert; split; [lia|]; apply byte_insert_eq; rewrite !length_insert; lia). destruct Hd1 as [Hd1 Hd4].
  destruct (alloc_caches_run s l 0 (Config d1 (replicate 32 None) 0 0)) as (r & l' & c1 & s1 & Ea & Hok1 & Hdesc & Hw & _ & Hr).
  - split; [done|]. split; [done|]. unfold bNumInterfaces. cbn [c_desc]. rewrite Hd4. split; [lia|]. intros i x Hx. apply lookup_replicate in Hx as [? _]. done.
  - unfold bNumInterfaces. cbn [c_desc]. by rewrite Hd4.
  - eapply list.Forall_impl; [exact Hl1|]. cbn. lia.
  - intros j Hj. cbn [intf_cache]. apply lookup_replicate. split; [done|lia].
  - unfold config_weight at 2 in Hw. cbn [intf_cache] in Hw. rewrite caches_none in Hw. rewrite (run_bind _ _ _ _ _ Ea). destruct Hr as [->|[-> Hfull]]; [exists (- ENOMEM), c1, s1; split; [done|]; split; [done|lia]|].
    change (0 <? 0) with false. cbv iota. destruct (find_next_run s1 (Z.to_nat (p' - len)) len (p' - len) USB_DT_INTERFACE USB_DT_INTERFACE Htl ltac:(lia)) as (i & Ei & Hi & Hti). rewrite (run_bind _ _ _ _ _ Ei).
    set (c2 := Config (c_desc c1) (intf_cache c1) len i). assert (Hc2 : config_full l' c2) by (split; [exact Hok1|exact Hfull]).
    destruct (parse_interfaces_run s1 (Z.to_nat (p' - len)) c2 (len + i) (p' - len - i) l' Hti ltac:(lia) Hc2) as (r & c3 & s3 & E3 & _ & Hok3 & _ & Hw3). exists r, c3, s3. split; [done|]. split; [done|].
    change (config_weight c2) with (config_weight c1) in Hw3. lia.
Qed.
End Raw.

(** ** Freeing *)

Definition ufreed (n : Z) (s : ust) : ust := Ust (utries s) (ulive s - n).
Lemma ufreed_ufreed n m s : ufreed n (ufreed m s) = ufreed (m + n) s.
Proof. unfold ufreed. cbn. f_equal. lia. Qed.
Lemma ufreed_0 s : ufreed 0 s = s.
Proof. unfold ufreed. rewrite Z.sub_0_r. by destruct s. Qed.
Lemma ufree_run s : ufree s = Done (tt, ufreed 1 s).
Proof. done. Qed.
Lemma release_run c s : usb_release_interface_cache c s = Done (tt, ufreed (cache_weight (Some c)) s).
Proof.
  unfold usb_release_interface_cache. assert (H : ∀ l s, seqM (map (λ a, kfree_opt (a_endpoint a)) l) s = Done (tt, ufreed (alts_weight l) s)).
  { induction l as [|a l IH]; intros s'; cbn [map seqM alts_weight]; [by rewrite ufreed_0|].
    rewrite (run_bind _ _ s' tt (ufreed (alt_weight a) s')); [by rewrite IH, ufreed_ufreed|]. unfold alt_weight, kfree_opt. destruct (a_endpoint a); [done|by rewrite ufreed_0]. }
  rewrite (run_bind _ _ _ _ _ (H _ s)), ufree_run, ufreed_ufreed. unfold cache_weight, settings. do 3 f_equal. lia.
Qed.
Lemma put_caches_run n i cf s : (i + n ≤ length (intf_cache cf))%nat → (∀ j x, intf_cache cf !! j = Some (Some x) → ref x = 1) →
  put_caches n i cf s = Done (tt, ufreed (caches_weight (take n (drop i (intf_cache cf)))) s).
Proof.
  revert i s. induction n as [|n IH]; intros i s Hl Hr; cbn [put_caches]; [by rewrite take_0, ufreed_0|]. destruct (lookup_lt_is_Some_2 (intf_cache cf) i) as [o Eo]; [lia|]. rewrite Eo, (drop_S _ o _ Eo). cbn [take caches_weight].
  rewrite (run_bind _ _ s tt (ufreed (cache_weight o) s)); [by rewrite IH, ufreed_ufreed by (done || lia)|]. destruct o as [x|]; [|by rewrite ufreed_0]. unfold kref_put. rewrite (Hr _ _ Eo). apply release_run.
Qed.
Lemma caches_weight_app l l' : caches_weight (l ++ l') = caches_weight l + caches_weight l'.
Proof. induction l as [|o l IH]; cbn [caches_weight app]; lia. Qed.
Lemma caches_weight_none l : (∀ j x, l !! j ≠ Some (Some x)) → caches_weight l = 0.
Proof.
  induction l as [|o l IH]; intros H; [done|]. cbn [caches_weight]. rewrite IH by (intros j x; apply (H (S j) x)). destruct o as [x|]; [|done]. by destruct (H 0%nat x).
Qed.
Lemma put_config_run raw cf s : config_ok raw cf → put_caches (Z.to_nat (bNumInterfaces cf)) 0 cf s = Done (tt, ufreed (config_weight cf) s).
Proof.
  intros (_ & Hl & Hn & Hc). unfold USB_MAXINTERFACES in Hn. rewrite put_caches_run; [|lia|intros j x Ex; destruct (Hc _ _ Ex) as (_ & nalt & Hx); apply Hx]. rewrite drop_0. do 3 f_equal. unfold config_weight.
  rewrite <- (take_drop (Z.to_nat (bNumInterfaces cf)) (intf_cache cf)) at 2. rewrite caches_weight_app, (caches_weight_none (drop _ _)); [lia|]. intros j x. rewrite lookup_drop. intros Ex. destruct (Hc _ _ Ex). lia.
Qed.

Fixpoint configs_weight (l : list usb_host_config) : Z := match l with [] => 0 | c :: l => config_weight c + configs_weight l end.
Fixpoint raws_weight (l : list (option (list Z))) : Z := match l with [] => 0 | o :: l => match o with Some _ => 1 | None => 0 end + raws_weight l end.
Lemma destroy_configs_run n c l s : (c + n ≤ length l)%nat → Forall (λ cf, ∃ raw, config_ok raw cf) l → destroy_configs n c l s = Done (tt, ufreed (configs_weight (take n (drop c l))) s).
Proof.
  revert c s. induction n as [|n IH]; intros c s Hl Hf; cbn [destroy_configs]; [by rewrite take_0, ufreed_0|]. destruct (lookup_lt_is_Some_2 l c) as [cf Ec]; [lia|]. rewrite Ec, (drop_S _ cf _ Ec). cbn [take configs_weight].
  destruct (list.Forall_lookup_1 _ _ _ _ Hf Ec) as [raw Hok]. by rewrite (run_bind _ _ _ _ _ (put_config_run raw cf s Hok)), IH, ufreed_ufreed by (done || lia).
Qed.
Lemma free_raw_run n c l s : (c + n ≤ length l)%nat → free_raw n c l s = Done (tt, ufreed (raws_weight (take n (drop c l))) s).
Proof.
  revert c s. induction n as [|n IH]; intros c s Hl; cbn [free_raw]; [by rewrite take_0, ufreed_0|]. destruct (lookup_lt_is_Some_2 l c) as [o Ec]; [lia|]. rewrite Ec, (drop_S _ o _ Ec). cbn [take raws_weight].
  rewrite (run_bind _ _ s tt (ufreed (match o with Some _ => 1 | None => 0 end) s)); [by rewrite IH, ufreed_ufreed by lia|]. destruct o; [done|by rewrite ufreed_0].
Qed.
Lemma configs_weight_app l l' : configs_weight (l ++ l') = configs_weight l + configs_weight l'.
Proof. induction l as [|o l IH]; cbn [configs_weight app]; lia. Qed.
Lemma raws_weight_app l l' : raws_weight (l ++ l') = raws_weight l + raws_weight l'.
Proof. induction l as [|o l IH]; cbn [raws_weight app]; lia. Qed.
Lemma configs_weight_zero n : configs_weight (replicate n zero_config) = 0.
Proof. induction n; cbn [replicate configs_weight]; [done|]. unfold config_weight. cbn [intf_cache zero_config]. rewrite caches_none. lia. Qed.
Lemma raws_weight_none n : raws_weight (replicate n None) = 0.
Proof. induction n; cbn [replicate raws_weight]; lia. Qed.
Lemma zero_config_ok : config_ok [] zero_config.
Proof. split; [done|]. split; [done|]. split; [done|]. intros i x Hx. apply lookup_replicate in Hx as [? _]. done. Qed.

(** ** All configurations *)

Section Device.
Context (mem : nat → bool) (answer : Z → Z → Z * list Z).
(** The buffer has the length that was asked for, and no more bytes are returned than that. *)
Definition answers_ok : Prop := ∀ c n, 0 ≤ n → fst (answer c n) ≤ n ∧ Z.of_nat (length (snd (answer c n))) = n ∧ Forall byte_ok (snd (answer c n)).
Context (Hans : answers_ok) (Hsane : ∀ c n, config_sane (snd (answer c n))).

(** The configurations read so far, and those to come, which are zero *)
Definition read_ok (l : list usb_host_config) (r : list (list Z)) : Prop := Forall2 (λ cf raw, config_ok raw cf) l r.
Lemma get_configs_run s n l r : read_ok l r →
  ∃ res l' r' k s', get_configs mem answer n (Z.of_nat (length l)) (l ++ replicate n zero_config) (map Some r ++ replicate n None) s =
    Done ((res, Z.of_nat (length l'), l' ++ replicate k zero_config, map Some r' ++ replicate k None), s') ∧ read_ok l' r' ∧
    ulive s' - configs_weight l' - Z.of_nat (length r') = ulive s - configs_weight l - Z.of_nat (length r).
Proof.
  revert s l r. induction n as [|n IH]; intros s l r Hl; cbn [get_configs].
  { by exists 0, l, r, 0%nat, s. }
  assert (Hstop : ∀ (res : Z) s1, ulive s1 = ulive s → ∃ (res' : Z) l' r' k s', Done ((res, Z.of_nat (length l), l ++ replicate (S n) zero_config, map Some r ++ replicate (S n) None), s1) =
    Done ((res', Z.of_nat (length l'), l' ++ replicate k zero_config, map Some r' ++ replicate k None), s') ∧ read_ok l' r' ∧ ulive s' - configs_weight l' - Z.of_nat (length r') = ulive s - configs_weight l - Z.of_nat (length r))
    by (intros res s1 Hs1; exists res, l, r, (S n), s1; split; [done|]; split; [done|lia]).
  destruct (answer (Z.of_nat (length l)) USB_DT_CONFIG_SIZE) as [result buffer] eqn:Ea. destruct (Z.ltb_spec result 0); [exact (Hstop 0 s eq_refl)|]. destruct (Z.ltb_spec result 4); [exact (Hstop (- EINVAL) s eq_refl)|]. cbv zeta.
  set (len := Z.max _ USB_DT_CONFIG_SIZE). assert (Hlen : 9 ≤ len) by (unfold len, USB_DT_CONFIG_SIZE; lia). unfold ualloc at 1. unfold mbind at 1, M_bind at 1. cbn beta iota. destruct (mem (utries s)); cbn [negb bool2Z]; [|exact (Hstop (- ENOMEM) (Ust (S (utries s)) (ulive s + 0)) ltac:(cbn; lia))].
  destruct (Hans (Z.of_nat (length l)) len ltac:(lia)) as (Hb1 & Hb2 & Hb3). pose proof (Hsane (Z.of_nat (length l)) len) as Hsn. destruct (answer (Z.of_nat (length l)) len) as [res big] eqn:Eb. cbn [fst snd] in *.
  destruct (Z.ltb_spec res 0).
  { rewrite (run_bind _ _ _ _ _ (ufree_run _)). exact (Hstop res (ufreed 1 (Ust (S (utries s)) (ulive s + 1))) ltac:(cbn; lia)). }
  rewrite Nat2Z.id, lookup_app_r, Nat.sub_diag by lia. cbn [replicate lookup list_lookup]. set (s1 := Ust _ _).
  destruct (parse_configuration_run mem big Hb3 s1 (Z.min res len) ltac:(lia) ltac:(lia) Hsn) as (ret & cf & s2 & E2 & Hok & Hw). rewrite (run_bind _ _ _ _ _ E2). cbn [fst snd].
  assert (Hl1 : read_ok (l ++ [cf]) (r ++ [big])) by (apply Forall2_app; [done|by constructor; [|constructor]]). assert (Hlr : length l = length r) by (by eapply Forall2_length).
  assert (Ec : <[length l := cf]> (l ++ zero_config :: replicate n zero_config) = (l ++ [cf]) ++ replicate n zero_config) by (rewrite insert_app_r_alt, Nat.sub_diag by lia; by rewrite <- app_assoc).
  assert (Er : <[length l := Some big]> (map Some r ++ None :: replicate n None) = map Some (r ++ [big]) ++ replicate n None) by (rewrite insert_app_r_alt by (rewrite length_map; lia); rewrite length_map, Hlr, Nat.sub_diag, map_app, <- app_assoc; done).
  rewrite Ec, Er. assert (Elen : Z.of_nat (length l) + 1 = Z.of_nat (length (l ++ [cf]))) by (rewrite length_app; cbn; lia). rewrite Elen.
  assert (Hlive : ulive s2 - configs_weight (l ++ [cf]) - Z.of_nat (length (r ++ [big])) = ulive s - configs_weight l - Z.of_nat (length r)) by (rewrite configs_weight_app, length_app; cbn [configs_weight length]; unfold s1 in Hw; cbn in Hw; lia).
  destruct (ret <? 0); [by exists ret, (l ++ [cf]), (r ++ [big]), n, s2|].
  destruct (IH s2 (l ++ [cf]) (r ++ [big]) Hl1) as (res' & l' & r' & k & s' & E' & Hl' & Hw'). exists res', l', r', k, s'. split; [done|]. split; [done|lia].
Qed.

(** A device after its configurations were read, or an attempt at it *)
Definition udevice_ok (d : usb_device) : Prop :=
  match config d with
  | Some cfgs => 0 ≤ bNumConfigurations d ≤ Z.of_nat (length cfgs) ∧ Forall (λ cf, ∃ raw, config_ok raw cf) cfgs ∧
      match rawdescriptors d with Some r => length r = length cfgs ∧ ∀ i raw cf, r !! i = Some (Some raw) → cfgs !! i = Some cf → config_ok raw cf | None => True end
  | None => True
  end.
Lemma zero_configs_ok n : Forall (λ cf, ∃ raw, config_ok raw cf) (replicate n zero_config).
Proof. apply list.Forall_replicate. exists []. apply zero_config_ok. Qed.
Lemma destroy_run d cfgs s : config d = Some cfgs → 0 ≤ bNumConfigurations d ≤ Z.of_nat (length cfgs) → Forall (λ cf, ∃ raw, config_ok raw cf) cfgs →
  (∀ r, rawdescriptors d = Some r → length r = length cfgs) →
  usb_destroy_configuration d s = Done (UDev (bNumConfigurations d) None None,
    ufreed (match rawdescriptors d with Some r => raws_weight (take (Z.to_nat (bNumConfigurations d)) r) + 1 | None => 0 end + configs_weight (take (Z.to_nat (bNumConfigurations d)) cfgs) + 1) s).
Proof.
  intros Ec Hn Hf Hr. unfold usb_destroy_configuration. rewrite Ec. set (n := Z.to_nat (bNumConfigurations d)). set (w := match rawdescriptors d with Some r => raws_weight (take n r) + 1 | None => 0 end).
  rewrite (run_bind _ _ s tt (ufreed w s)).
  - rewrite (run_bind _ _ _ _ _ (destroy_configs_run n 0 cfgs _ ltac:(lia) Hf)), drop_0, ufreed_ufreed, (run_bind _ _ _ _ _ (ufree_run _)), ufreed_ufreed. done.
  - unfold w. destruct (rawdescriptors d) as [r|]; [|by rewrite ufreed_0]. by rewrite (run_bind _ _ _ _ _ (free_raw_run n 0 r s ltac:(rewrite (Hr r eq_refl); lia))), drop_0, ufree_run, ufreed_ufreed.
Qed.

Lemma ualloc_run s : ualloc mem s = Done (mem (utries s), Ust (S (utries s)) (ulive s + bool2Z (mem (utries s)))).
Proof. done. Qed.
Lemma get_early k raws s : (raws = None ∨ raws = Some (replicate k None)) →
  udevice_ok (UDev (Z.of_nat k) (Some (replicate k zero_config)) raws) ∧
  ∃ d' s', usb_destroy_configuration (UDev (Z.of_nat k) (Some (replicate k zero_config)) raws) s = Done (d', s') ∧ ulive s' = ulive s - 1 - (match raws with Some _ => 1 | None => 0 end).
Proof.
  intros Hr. split.
  - unfold udevice_ok. cbn [config bNumConfigurations rawdescriptors]. rewrite length_replicate. split; [lia|]. split; [apply zero_configs_ok|].
    destruct Hr as [->| ->]; [done|]. rewrite length_replicate. split; [done|]. intros i raw cf Hi. apply lookup_replicate in Hi as [? _]. done.
  - rewrite (destroy_run _ (replicate k zero_config)); [eexists _, _; split; [reflexivity|]|done|cbn [bNumConfigurations]; rewrite length_replicate; lia|apply zero_configs_ok|].
    + cbn [bNumConfigurations rawdescriptors ulive ufreed]. rewrite Nat2Z.id, take_replicate, configs_weight_zero. destruct Hr as [->| ->]; [lia|]. rewrite take_replicate, raws_weight_none. lia.
    + cbn [rawdescriptors]. intros r ->. destruct Hr as [?|[= ->]]; [done|]. by rewrite !length_replicate.
Qed.
Lemma raws_weight_some (r : list (list Z)) : raws_weight (map Some r) = Z.of_nat (length r).
Proof. induction r; cbn [map raws_weight length]; lia. Qed.
Lemma get_late l r k s : read_ok l r →
  let d := UDev (Z.of_nat (length l)) (Some (l ++ replicate k zero_config)) (Some (map Some r ++ replicate k None)) in
  udevice_ok d ∧ ∃ d' s', usb_destroy_configuration d s = Done (d', s') ∧ ulive s' = ulive s - configs_weight l - Z.of_nat (length r) - 2.
Proof.
  intros Hl d. assert (Hlr : length l = length r) by (by eapply Forall2_length).
  assert (Hall : Forall (λ cf, ∃ raw, config_ok raw cf) (l ++ replicate k zero_config)) by (apply list.Forall_app; split; [clear - Hl; induction Hl; constructor; [by eexists|done]|apply zero_configs_ok]).
  split.
  - unfold udevice_ok, d. cbn [config bNumConfigurations rawdescriptors]. rewrite !length_app, !length_replicate, length_map. split; [lia|]. split; [done|]. split; [lia|].
    intros i raw cf Hi Hc. destruct (decide (i < length l)%nat) as [Hlt|].
    + rewrite lookup_app_l in Hi by (rewrite length_map; lia). rewrite lookup_app_l in Hc by lia. change (map Some r) with (Some <$> r) in Hi. rewrite list_lookup_fmap in Hi. destruct (r !! i) as [raw'|] eqn:Er; [|done]. injection Hi as ->.
      by apply (Forall2_lookup_lr _ _ _ _ _ _ Hl Hc).
    + rewrite lookup_app_r in Hi by (rewrite length_map; lia). apply lookup_replicate in Hi as [? _]. done.
  - rewrite (destroy_run d (l ++ replicate k zero_config)); [eexists _, _; split; [reflexivity|]|done|unfold d; cbn [bNumConfigurations]; rewrite length_app; lia|done|].
    + unfold d. cbn [bNumConfigurations rawdescriptors ulive ufreed]. rewrite Nat2Z.id, take_app_length, Hlr, <- (length_map Some r), take_app_length, raws_weight_some, length_map. lia.
    + unfold d. cbn [rawdescriptors]. intros ? [= <-]. rewrite !length_app, !length_replicate, length_map. lia.
Qed.

(** C32: whatever a device answers to the requests for its configuration descriptors, as long as no invalid
    descriptor promises more interfaces than there can be, and whatever allocations fail:
    [usb_get_configuration] ends without an access outside of the descriptors or of a table; the configurations are well formed
    (settings of an interface have different numbers, endpoints fit their arrays, and the extra descriptors lie
    in the string that was read); and [usb_destroy_configuration] frees everything that was allocated. *)
Theorem usb_configuration_safe s n :
  ∃ res d s', usb_get_configuration mem answer (UDev n None None) s = Done ((res, d), s') ∧ udevice_ok d ∧
    ∃ d' s'', usb_destroy_configuration d s' = Done (d', s'') ∧ ulive s'' = ulive s.
Proof.
  unfold usb_get_configuration. cbn [bNumConfigurations config rawdescriptors]. cbv zeta. generalize (Z.min n USB_MAXCONFIG). intros ncfg.
  destruct (Z.ltb_spec ncfg 1); [eexists _, _, _; split; [reflexivity|]; split; [done|]; by eexists _, _|].
  assert (Hex : ∃ k, ncfg = Z.of_nat k) by (exists (Z.to_nat ncfg); lia). destruct Hex as [k ->]. rewrite !Nat2Z.id.
  rewrite (run_bind _ _ _ _ _ (ualloc_run s)). destruct (mem (utries s)); cbn [negb]; [|eexists _, _, _; split; [reflexivity|]; split; [done|]; eexists _, _; split; [reflexivity|cbn; lia]].
  set (s1 := Ust _ _). rewrite (run_bind _ _ _ _ _ (ualloc_run s1)). destruct (mem (utries s1)); cbn [negb].
  2: { eexists _, _, _. split; [reflexivity|]. destruct (get_early k None (Ust (S (utries s1)) (ulive s1 + bool2Z false)) (or_introl eq_refl)) as [Hok (d' & s' & E & Hl)].
       split; [exact Hok|]. exists d', s'. split; [exact E|]. cbn in Hl. lia. }
  set (s2 := Ust (S (utries s1)) _). rewrite (run_bind _ _ _ _ _ (ualloc_run s2)). destruct (mem (utries s2)); cbn [negb].
  2: { eexists _, _, _. split; [reflexivity|]. destruct (get_early k (Some (replicate k None)) (Ust (S (utries s2)) (ulive s2 + bool2Z false)) (or_intror eq_refl)) as [Hok (d' & s' & E & Hl)].
       split; [exact Hok|]. exists d', s'. split; [exact E|]. cbn in Hl. lia. }
  set (s3 := Ust (S (utries s2)) _). destruct (get_configs_run s3 k [] [] ltac:(constructor)) as (res & l' & r' & k' & s4 & E4 & Hl' & Hw).
  cbn [length map app] in E4. change (Z.of_nat 0) with 0 in E4. rewrite (run_bind _ _ _ _ _ E4). rewrite (run_bind _ _ _ _ _ (ufree_run s4)).
  eexists _, _, _. split; [reflexivity|]. destruct (get_late l' r' k' (ufreed 1 s4) Hl') as [Hok (d' & s' & E & Hl)]. split; [exact Hok|]. exists d', s'. split; [exact E|]. cbn in Hl, Hw. lia.
Qed.
End Device.

(** A device with one configuration: an interface with an endpoint for bulk transfers *)
Definition bulk_config : list Z := [9; 2; 25; 0; 1; 1; 0; 128; 50; 9; 4; 0; 0; 1; 8; 6; 80; 0; 7; 5; 129; 2; 64; 0; 0].
Definition answer_with (d : list Z) (_ n : Z) : Z * list Z := (Z.min n (Z.of_nat (length d)), take (Z.to_nat n) (d ++ replicate (Z.to_nat n) 0)).
Lemma answer_with_ok d : Forall byte_ok d → answers_ok (answer_with d).
Proof.
  intros Hd c n Hn. cbn [answer_with fst snd]. rewrite length_take, length_app, length_replicate. split; [lia|]. split; [lia|]. apply list.Forall_take, list.Forall_app. split; [done|]. by apply list.Forall_replicate.
Qed.
Lemma answer_with_sane d c n : byte d 4 ≤ USB_MAXINTERFACES → config_sane (snd (answer_with d c n)).
Proof.
  intros Hd. right. cbn [answer_with snd]. unfold byte in *. rewrite nth_lookup in *. unfold USB_MAXINTERFACES in *. destruct (decide (4 < Z.to_nat n)%nat); [rewrite lookup_take_lt by lia|rewrite lookup_take_ge by lia; cbn; lia].
  rewrite lookup_app. destruct (d !! 4%nat); [done|]. destruct (replicate _ _ !! _) eqn:E; [|done]. apply lookup_replicate in E as [-> _]. cbn. lia.
Qed.
Lemma usb_configuration_safe_witness :
  (∃ res d s', usb_get_configuration (λ _, true) (answer_with bulk_config) (UDev 1 None None) (Ust 0 0) = Done ((res, d), s') ∧ udevice_ok d ∧
    ∃ d' s'', usb_destroy_configuration d s' = Done (d', s'') ∧ ulive s'' = 0) ∧
  match usb_get_configuration (λ _, true) (answer_with bulk_config) (UDev 1 None None) (Ust 0 0) with
  | Done ((0, UDev 1 (Some [c]) (Some [Some raw])), s) =>
      raw = bulk_config ∧ ulive s = 5 ∧ match intf_cache c !! 0%nat with Some (Some i) => map a_endpoint (altsetting i) = [Some [Endpoint [7; 5; 129; 2; 64; 0; 0] 25 0]] | _ => False end
  | _ => False
  end.
Proof.
  split; [|by vm_compute].
  apply (usb_configuration_safe (λ _, true) (answer_with bulk_config)); [apply answer_with_ok; repeat constructor; unfold byte_ok; lia|].
  intros c n. by apply answer_with_sane.
Defined.

(** A descriptor of another type is rejected only after it was copied, with its number of interfaces, so
    that [usb_destroy_configuration] goes through more entries than [intf_cache] has. *)
Theorem rejected_config_overruns :
  ∃ d s, usb_get_configuration (λ _, true) (answer_with [9; 4; 9; 0; 255; 1; 0; 128; 50]) (UDev 1 None None) (Ust 0 0) = Done ((- EINVAL, d), s) ∧
    usb_destroy_configuration d s = Fault FBounds.
Proof. eexists _, _. split; [vm_compute; reflexivity|]. by vm_compute. Qed.
