(* ===== verification/Rwsem.v ===== *)
(** Reader-writer semaphores: lib/rwsem.c with the fast paths of asm/rwsem.h.

    Any number of threads take one semaphore for reading or writing, give it back
    or turn a write lock into a read lock.  The lower half of the counter counts
    the active threads, the upper half, which is negative, the writers and those
    that wait.  The list of waiters is only used under the spin lock [wait_lock],
    so that a step is what a thread does between two accesses to the counter, the
    lock, the field [task] of a waiter or the state of a task; reference counts of
    tasks are left out.  Any task may be woken at any time by others.

    [__rwsem_do_wake] takes back its increment of the counter if others were active.
    The flag [fixed] chooses between the code, which then compares the whole
    counter with 0, and a version that looks at the active threads only. *)

From S2P Require Import Prelude Sched.

Definition RWSEM_ACTIVE_BIAS : Z := 1.
Definition RWSEM_ACTIVE_MASK : Z := 65535.
Definition RWSEM_WAITING_BIAS : Z := -65536.
Definition RWSEM_ACTIVE_WRITE_BIAS : Z := RWSEM_WAITING_BIAS + RWSEM_ACTIVE_BIAS.

(** Where [__rwsem_do_wake] was called: by a thread that waits itself ([w]: for
    writing), by [rwsem_wake] or by [rwsem_downgrade_wake]. *)
Inductive rwcaller := KDown (w : bool) | KUp | KDowngrade.
(** What a thread does next *)
Inductive rwpc :=
| RwIdle
| RwRead                                          (* the thread has a read lock *)
| RwWrite                                         (* the thread has the write lock *)
| RdFast                                          (* __down_read *)
| WrFast                                          (* __down_write *)
| RdTry                                           (* __down_read_trylock: the load *)
| RdCas (old : Z)                                 (* cmpxchg *)
| WrTry                                           (* __down_write_trylock *)
| FState (w : bool)                               (* rwsem_down_failed_common: set_task_state *)
| FLock (w : bool)                                (* spin_lock_irq *)
| FAdjust (w : bool)                              (* list_add_tail, rwsem_atomic_update *)
| FTest (w : bool)                                (* if (!waiter->task) *)
| FSwitch (w : bool)                              (* schedule: switch (current->state) *)
| FYield (w : bool)                               (* schedule: dde_kit_thread_schedule *)
| FDown (w : bool)                                (* schedule: dde_kit_sem_down *)
| FAgain (w : bool)                               (* set_task_state *)
| FOut (w : bool)                                 (* tsk->state = TASK_RUNNING *)
| KTry (k : rwcaller)                             (* __rwsem_do_wake: try_again *)
| KUndo (k : rwcaller)                            (* undo *)
| KReaders (k : rwcaller)                         (* readers_only *)
| KGrant (k : rwcaller) (rest : list nat)         (* waiter->task = NULL *)
| KWake (k : rwcaller) (j : nat) (rest : list nat)  (* wake_up_process: the state *)
| KSem (k : rwcaller) (j : nat) (rest : list nat)   (* wake_up_process: dde_kit_sem_up *)
| KUnlock (k : rwcaller)                          (* spin_unlock_irq *)
| RdUp                                            (* __up_read *)
| WrUp                                            (* __up_write *)
| ULock                                           (* rwsem_wake: spin_lock_irqsave *)
| WrDown                                          (* __downgrade_write *)
| GLock.                                          (* rwsem_downgrade_wake: spin_lock_irqsave *)

(** A thread; [rw_task]: the field [task] of its waiter is set. *)
Record rwthread := RwThread { rw_pc : rwpc; rw_tsk : task; rw_task : bool }.
(** [struct rw_semaphore] and the threads; the waiters with their flags ([true]: for writing). *)
Record rw_semaphore := RwSem { rw_count : Z; rw_lock : option nat; rw_list : list (nat * bool); rth : nat → rwthread }.

Definition set_rwpc (pc : rwpc) (t : rwthread) : rwthread := RwThread pc (rw_tsk t) (rw_task t).
Definition set_rwstate (st : Z) (t : rwthread) : rwthread := RwThread (rw_pc t) (Task st (tk_sleep_lock (rw_tsk t))) (rw_task t).
Definition rwsem_add (d : Z) (t : rwthread) : rwthread := RwThread (rw_pc t) (Task (tk_state (rw_tsk t)) (tk_sleep_lock (rw_tsk t) + d)) (rw_task t).
Definition set_rwtask (b : bool) (t : rwthread) : rwthread := RwThread (rw_pc t) (rw_tsk t) b.
Definition with_rwcount (c : Z) (σ : rw_semaphore) : rw_semaphore := RwSem c (rw_lock σ) (rw_list σ) (rth σ).
Definition with_rwlock (l : option nat) (σ : rw_semaphore) : rw_semaphore := RwSem (rw_count σ) l (rw_list σ) (rth σ).
Definition with_rwlist (q : list (nat * bool)) (σ : rw_semaphore) : rw_semaphore := RwSem (rw_count σ) (rw_lock σ) q (rth σ).
Definition on_rwthread (i : nat) (f : rwthread → rwthread) (σ : rw_semaphore) : rw_semaphore := RwSem (rw_count σ) (rw_lock σ) (rw_list σ) (upd_at i f (rth σ)).
Definition rwgoto (i : nat) (pc : rwpc) (σ : rw_semaphore) : rw_semaphore := on_rwthread i (set_rwpc pc) σ.

Definition __init_rwsem : rw_semaphore := RwSem 0 None [] (λ _, RwThread RwIdle (Task TASK_RUNNING 0) false).

(** [rwsem_atomic_update], whose result is the new value, and [rwsem_atomic_add] *)
Definition rwsem_atomic_update (delta : Z) (σ : rw_semaphore) : rw_semaphore := with_rwcount (s32 (rw_count σ + delta)) σ.
Definition active (c : Z) : Z := Z.land c RWSEM_ACTIVE_MASK.

(** ** Fast paths *)

Definition __down_read (i : nat) (σ : rw_semaphore) : rw_semaphore :=
  let σ := rwsem_atomic_update RWSEM_ACTIVE_BIAS σ in rwgoto i (if rw_count σ <? 0 then FState false else RwRead) σ.
Definition __down_write (i : nat) (σ : rw_semaphore) : rw_semaphore :=
  let old := rw_count σ in
  rwgoto i (if old =? 0 then RwWrite else FState true) (rwsem_atomic_update RWSEM_ACTIVE_WRITE_BIAS σ).
Definition read_try (i : nat) (old : Z) (σ : rw_semaphore) : rw_semaphore := rwgoto i (if old + RWSEM_ACTIVE_BIAS <=? 0 then RwIdle else RdCas old) σ.
Definition __down_read_trylock (i : nat) (pc : rwpc) (σ : rw_semaphore) : rw_semaphore :=
  match pc with
  | RdCas old => if rw_count σ =? old then rwgoto i RwRead (with_rwcount (s32 (old + RWSEM_ACTIVE_BIAS)) σ) else read_try i (rw_count σ) σ
  | _ => read_try i (rw_count σ) σ
  end.
Definition __down_write_trylock (i : nat) (σ : rw_semaphore) : rw_semaphore :=
  if rw_count σ =? 0 then rwgoto i RwWrite (with_rwcount RWSEM_ACTIVE_WRITE_BIAS σ) else rwgoto i RwIdle σ.
(** [call_rwsem_wake] goes on only if the lower half of the old value was 1. *)
Definition call_rwsem_wake (i : nat) (old : Z) (σ : rw_semaphore) : rw_semaphore := rwgoto i (if active (old - 1) =? 0 then ULock else RwIdle) σ.
Definition __up_read (i : nat) (σ : rw_semaphore) : rw_semaphore :=
  let old := rw_count σ in
  let σ := rwsem_atomic_update (- RWSEM_ACTIVE_BIAS) σ in
  if rw_count σ <? 0 then call_rwsem_wake i old σ else rwgoto i RwIdle σ.
Definition __up_write (i : nat) (σ : rw_semaphore) : rw_semaphore :=
  let old := rw_count σ in
  let σ := rwsem_atomic_update (- RWSEM_ACTIVE_WRITE_BIAS) σ in
  if rw_count σ =? 0 then rwgoto i RwIdle σ else call_rwsem_wake i old σ.
Definition __downgrade_write (i : nat) (σ : rw_semaphore) : rw_semaphore :=
  let σ := rwsem_atomic_update (- RWSEM_WAITING_BIAS) σ in rwgoto i (if rw_count σ <? 0 then GLock else RwRead) σ.

(** ** Slow paths *)

Section Slow.
Context (fixed : bool).

Definition rwlock (i : nat) (pc : rwpc) (σ : rw_semaphore) : option rw_semaphore :=
  match rw_lock σ with None => Some (rwgoto i pc (with_rwlock (Some i) σ)) | Some _ => None end.

Definition rwsem_down_failed_common (i : nat) (pc : rwpc) (σ : rw_semaphore) : option rw_semaphore :=
  let t := rth σ i in
  match pc with
  | FState w => Some (rwgoto i (FLock w) (on_rwthread i (set_rwstate TASK_UNINTERRUPTIBLE) σ))
  | FLock w => rwlock i (FAdjust w) σ
  | FAdjust w =>
      let adjustment := if w then - RWSEM_ACTIVE_BIAS else RWSEM_WAITING_BIAS - RWSEM_ACTIVE_BIAS in
      let σ := rwsem_atomic_update adjustment (with_rwlist (rw_list σ ++ [(i, w)]) (on_rwthread i (set_rwtask true) σ)) in
      Some (rwgoto i (if active (rw_count σ) =? 0 then KTry (KDown w) else KUnlock (KDown w)) σ)
  | FTest w => Some (rwgoto i (if rw_task t then FSwitch w else FOut w) σ)
  | FSwitch w => Some (rwgoto i (if tk_state (rw_tsk t) =? TASK_RUNNING then FYield w else FDown w) σ)
  | FYield w => Some (rwgoto i (FAgain w) σ)
  | FDown w => if 0 <? tk_sleep_lock (rw_tsk t) then Some (rwgoto i (FAgain w) (on_rwthread i (rwsem_add (-1)) σ)) else None
  | FAgain w => Some (rwgoto i (FTest w) (on_rwthread i (set_rwstate TASK_UNINTERRUPTIBLE) σ))
  | FOut w => Some (rwgoto i (if w then RwWrite else RwRead) (on_rwthread i (set_rwstate TASK_RUNNING) σ))
  | _ => None
  end.

(** The readers at the front of the queue *)
Fixpoint front_readers (l : list (nat * bool)) : list nat := match l with (j, false) :: l => j :: front_readers l | _ => [] end.
Definition downgrading (k : rwcaller) : bool := match k with KDowngrade => true | _ => false end.
Definition __rwsem_do_wake (i : nat) (pc : rwpc) (σ : rw_semaphore) : option rw_semaphore :=
  match pc with
  | KTry k =>
      let oldcount := rw_count σ in
      let σ := rwsem_atomic_update RWSEM_ACTIVE_BIAS σ in
      if negb (active oldcount =? 0) then Some (rwgoto i (KUndo k) σ) else
      match rw_list σ with
      | [] => None
      | (j, true) :: q => Some (rwgoto i (KGrant k [j]) (with_rwlist q σ))
      | (_, false) :: _ => Some (rwgoto i (KReaders k) σ)
      end
  | KUndo k =>
      let σ := rwsem_atomic_update (- RWSEM_ACTIVE_BIAS) σ in
      Some (rwgoto i (if (if fixed then active (rw_count σ) else rw_count σ) =? 0 then KTry k else KUnlock k) σ)
  | KReaders k =>
      let l := front_readers (rw_list σ) in
      let woken := Z.of_nat (length l) * (RWSEM_ACTIVE_BIAS - RWSEM_WAITING_BIAS) - (if downgrading k then 0 else RWSEM_ACTIVE_BIAS) in
      Some (rwgoto i (KGrant k l) (with_rwlist (drop (length l) (rw_list σ)) (rwsem_atomic_update woken σ)))
  | KGrant k [] => Some (rwgoto i (KUnlock k) σ)
  | KGrant k (j :: rest) => Some (rwgoto i (KWake k j rest) (on_rwthread j (set_rwtask false) σ))
  | KWake k j rest => Some (rwgoto i (KSem k j rest) (on_rwthread j (set_rwstate TASK_RUNNING) σ))
  | KSem k j rest => Some (rwgoto i (KGrant k rest) (on_rwthread j (rwsem_add 1) σ))
  | _ => None
  end.
Definition after_wake (k : rwcaller) : rwpc := match k with KDown w => FTest w | KUp => RwIdle | KDowngrade => RwRead end.
Definition rwsem_wake (i : nat) (σ : rw_semaphore) : option rw_semaphore :=
  rwlock i (match rw_list σ with [] => KUnlock KUp | _ => KTry KUp end) σ.
Definition rwsem_downgrade_wake (i : nat) (σ : rw_semaphore) : option rw_semaphore :=
  rwlock i (match rw_list σ with (_, false) :: _ => KReaders KDowngrade | _ => KUnlock KDowngrade end) σ.

(** The next step of thread [i]; [None]: it waits. *)
Definition rwsem_run (i : nat) (σ : rw_semaphore) : option rw_semaphore :=
  let pc := rw_pc (rth σ i) in
  match pc with
  | RwIdle | RwRead | RwWrite => None
  | RdFast => Some (__down_read i σ)
  | WrFast => Some (__down_write i σ)
  | RdTry | RdCas _ => Some (__down_read_trylock i pc σ)
  | WrTry => Some (__down_write_trylock i σ)
  | RdUp => Some (__up_read i σ)
  | WrUp => Some (__up_write i σ)
  | WrDown => Some (__downgrade_write i σ)
  | ULock => rwsem_wake i σ
  | GLock => rwsem_downgrade_wake i σ
  | KUnlock k => Some (rwgoto i (after_wake k) (with_rwlock None σ))
  | KTry _ | KUndo _ | KReaders _ | KGrant _ _ | KWake _ _ _ | KSem _ _ _ => __rwsem_do_wake i pc σ
  | _ => rwsem_down_failed_common i pc σ
  end.

(** A call starts.  There are [n] threads. *)
Definition rw_may_start (pc pc' : rwpc) : bool :=
  match pc, pc' with
  | RwIdle, (RdFast | WrFast | RdTry | WrTry) | RwRead, RdUp | RwWrite, (WrUp | WrDown) => true
  | _, _ => false
  end.
Inductive rwsem_step (n : nat) : rw_semaphore → rw_semaphore → Prop :=
| RwStart σ i pc : (i < n)%nat → rw_may_start (rw_pc (rth σ i)) pc = true → rwsem_step n σ (rwgoto i pc σ)
| RwRun σ σ' i : rwsem_run i σ = Some σ' → rwsem_step n σ σ'
| RwOtherState σ i : rwsem_step n σ (on_rwthread i (set_rwstate TASK_RUNNING) σ)
| RwOtherUp σ i : rwsem_step n σ (on_rwthread i (rwsem_add 1) σ).

(** A schedule: threads that start calls ([inl]) or take their next step ([inr]). *)
Fixpoint rwsem_exec (l : list (nat * rwpc + nat)) (σ : rw_semaphore) : rw_semaphore :=
  match l with
  | [] => σ
  | inl (i, pc) :: l => rwsem_exec l (if rw_may_start (rw_pc (rth σ i)) pc then rwgoto i pc σ else σ)
  | inr i :: l => rwsem_exec l (default σ (rwsem_run i σ))
  end.
Definition rw_below (n : nat) (x : nat * rwpc + nat) : bool := match x with inl (i, _) => bool_decide (i < n)%nat | inr _ => true end.
Lemma rwsem_exec_reachable n l σ : forallb (rw_below n) l = true → rtc (rwsem_step n) σ (rwsem_exec l σ).
Proof.
  revert σ. induction l as [|[[i pc]|i] l IH]; intros σ; cbn [rwsem_exec forallb]; [intros _; apply rtc_refl|intros [Hi%bool_decide_eq_true Hl]%andb_true_iff|intros Hl].
  - destruct (rw_may_start _ pc) eqn:E; [|by apply IH]. eapply rtc_l; [by apply RwStart|by apply IH].
  - destruct (rwsem_run i σ) as [σ'|] eqn:E; [|by apply IH]. eapply rtc_l; [by eapply RwRun|by apply IH].
Qed.
End Slow.

(** ** A lost wake-up

    Thread 0 has a read lock and the writers 1 and 2 wait.  It gives the lock back, but
    before it comes to wake anybody, the reader 3 queues up, finds no active thread
    and gives the lock to 1.  Thread 0 now finds that 1 is active, and while its own
    increment is in the counter, 1 gives the lock back, takes 0 for an active thread
    and wakes nobody. *)
Definition rw_call (i : nat) (pc : rwpc) (steps : nat) : list (nat * rwpc + nat) := inl (i, pc) :: replicate steps (inr i).
Definition lost_schedule : list (nat * rwpc + nat) :=
  rw_call 0 RdFast 1 ++ rw_call 1 WrFast 7 ++ rw_call 2 WrFast 7 ++ rw_call 0 RdUp 1 ++ rw_call 3 RdFast 12 ++
  replicate 4 (inr 1%nat) ++ [inr 0%nat; inr 0%nat] ++ rw_call 1 WrUp 1 ++ replicate 2 (inr 0%nat).
