(* ===== verification/RwsemInv.v ===== *)
(** Reader-writer semaphores exclude, and where a wake-up is lost.

    The invariant gives the counter as a sum over the threads: who holds the lock,
    who has failed on a fast path, who waits and who wakes.  From it follow that a
    writer is alone, for the code and for the corrected version, and that the
    corrected version loses no wake-up, while the code does. *)

From S2P Require Import Prelude Sched Rwsem.

(** ** What a thread contributes to the counter *)

(** [CFail]: it has added itself to the active threads and not got the lock. *)
Inductive rwclass := CNone | CHold (w : bool) | CFail (w : bool) | CWait (w : bool).
Definition kclass (k : rwcaller) : rwclass := match k with KDown w => CWait w | KUp => CNone | KDowngrade => CHold false end.
Definition rwcls (pc : rwpc) : rwclass :=
  match pc with
  | RwIdle | RdFast | WrFast | RdTry | RdCas _ | WrTry | ULock => CNone
  | RwRead | RdUp | GLock => CHold false
  | RwWrite | WrUp | WrDown => CHold true
  | FState w | FLock w | FAdjust w => CFail w
  | FTest w | FSwitch w | FYield w | FDown w | FAgain w | FOut w => CWait w
  | KTry k | KUndo k | KReaders k | KGrant k _ | KWake k _ _ | KSem k _ _ | KUnlock k => kclass k
  end.
Definition rlocked (pc : rwpc) : bool :=
  match pc with FAdjust _ | KTry _ | KUndo _ | KReaders _ | KGrant _ _ | KWake _ _ _ | KSem _ _ _ | KUnlock _ => true | _ => false end.
(** The increment of [__rwsem_do_wake] *)
Definition extra (pc : rwpc) : bool := match pc with KUndo _ => true | KReaders k => negb (downgrading k) | _ => false end.
(** Waiters that were taken from the list and are still to be told, and the one that is being woken *)
Definition pending (pc : rwpc) : list nat := match pc with KGrant _ l | KWake _ _ l | KSem _ _ l => l | _ => [] end.
Definition target (pc : rwpc) : option nat := match pc with KWake _ j _ | KSem _ j _ => Some j | _ => None end.
(** A thread that will look for someone to wake *)
Definition waker (pc : rwpc) : bool := match pc with ULock | KTry _ => true | _ => false end.

Definition cact (c : rwclass) (q : bool) : bool := match c with CNone => false | CHold _ | CFail _ => true | CWait _ => negb q end.
Definition cwait (c : rwclass) (q : bool) : bool := match c with CNone => false | CHold w | CFail w => w | CWait w => w || q end.
Definition cheld (c : rwclass) (q : bool) : option bool := match c with CHold w => Some w | CWait w => if q then None else Some w | _ => None end.

Abbreviation rpc σ i := (rw_pc (rth σ i)).
Abbreviation rtask σ i := (rw_task (rth σ i)).
Abbreviation rsem σ i := (tk_sleep_lock (rw_tsk (rth σ i))).

Definition inq (q : list (nat * bool)) (i : nat) : bool := bool_decide (i ∈ q.*1).
(** Who holds the lock, and how ([true]: for writing) *)
Definition holder (σ : rw_semaphore) (i : nat) : option bool := cheld (rwcls (rpc σ i)) (inq (rw_list σ) i).
Definition acts (n : nat) (σ : rw_semaphore) : Z := tally n (λ i, cact (rwcls (rpc σ i)) (inq (rw_list σ) i)) + tally n (λ i, extra (rpc σ i)).
Definition waits (n : nat) (σ : rw_semaphore) : Z := tally n (λ i, cwait (rwcls (rpc σ i)) (inq (rw_list σ) i)).

Definition front_ok (σ : rw_semaphore) (pc : rwpc) : Prop :=
  match pc with
  | KTry _ | KUndo _ => rw_list σ ≠ []
  | KReaders _ => (∃ j q, rw_list σ = (j, false) :: q) ∧ ∀ j, holder σ j ≠ Some true
  | _ => True
  end.
Definition sleeping (pc : rwpc) : bool := match pc with FSwitch _ | FDown _ => true | _ => false end.

Section Inv.
Context (fixed : bool) (n : nat) (Hn : Z.of_nat n < 2 ^ 15).

Record rw_inv (σ : rw_semaphore) : Prop := {
  ri_idle i : (n ≤ i)%nat → rpc σ i = RwIdle;
  ri_lock i : rw_lock σ = Some i ↔ rlocked (rpc σ i) = true;
  ri_nodup : NoDup (rw_list σ).*1;
  ri_queue i w : (i, w) ∈ rw_list σ → rwcls (rpc σ i) = CWait w ∧ rtask σ i = true;
  ri_out i w : rpc σ i = FOut w → rtask σ i = false;
  ri_cas i old : rpc σ i = RdCas old → 0 ≤ old;
  ri_pnodup i : NoDup (pending (rpc σ i));
  ri_pending i j : j ∈ pending (rpc σ i) → (∃ w, rwcls (rpc σ j) = CWait w) ∧ rtask σ j = true ∧ inq (rw_list σ) j = false;
  ri_front i : front_ok σ (rpc σ i);
  ri_count : rw_count σ = acts n σ - 65536 * waits n σ;
  ri_excl i j w : holder σ i = Some true → holder σ j = Some w → i = j;
  ri_sem i : 0 ≤ rsem σ i;
  ri_cover : fixed = true → rw_list σ ≠ [] → 1 ≤ acts n σ ∨ ∃ i, waker (rpc σ i) = true;
  ri_granted i w : rwcls (rpc σ i) = CWait w → inq (rw_list σ) i = false → rtask σ i = true → ∃ j, i ∈ pending (rpc σ j);
  ri_woken i : sleeping (rpc σ i) = true → rtask σ i = false → 0 < rsem σ i ∨ ∃ j, target (rpc σ j) = Some i;
}.

(** ** Reading the counter *)

Lemma acts_range σ : 0 ≤ acts n σ < 65535.
Proof. unfold acts. pose proof (tally_bound n (λ i, cact (rwcls (rpc σ i)) (inq (rw_list σ) i))). pose proof (tally_bound n (λ i, extra (rpc σ i))). lia. Qed.
Lemma waits_range σ : 0 ≤ waits n σ < 32768.
Proof. unfold waits. pose proof (tally_bound n (λ i, cwait (rwcls (rpc σ i)) (inq (rw_list σ) i))). lia. Qed.
Lemma active_of a w : 0 ≤ a < 65536 → active (a - 65536 * w) = a.
Proof. intros Ha. unfold active. change RWSEM_ACTIVE_MASK with (Z.ones 16). rewrite Z.land_ones by lia. symmetry. apply (Z.mod_unique _ _ (- w)); lia. Qed.
Lemma active_acts σ : rw_inv σ → active (rw_count σ) = acts n σ.
Proof. intros I. rewrite (ri_count σ I). apply active_of. pose proof (acts_range σ). lia. Qed.
Lemma count_s32 a w : 0 ≤ a < 65536 → 0 ≤ w < 32768 → s32 (a - 65536 * w) = a - 65536 * w.
Proof. intros. apply s32_small. lia. Qed.
Lemma below σ i : rw_inv σ → rwcls (rpc σ i) ≠ CNone → (i < n)%nat.
Proof. intros I Hc. destruct (decide (i < n)%nat) as [|H]; [done|]. by rewrite (ri_idle σ I) in Hc by lia. Qed.
Lemma holder_acts σ i w : rw_inv σ → holder σ i = Some w → 1 ≤ acts n σ.
Proof.
  intros I Hh. unfold holder in Hh. assert (Hi : (i < n)%nat) by (apply (below σ i I); intros E; by rewrite E in Hh). unfold acts.
  assert (1 ≤ tally n (λ i, cact (rwcls (rpc σ i)) (inq (rw_list σ) i))) by (apply (tally_pos n _ i Hi); by destruct (rwcls (rpc σ i)), (inq (rw_list σ) i)).
  pose proof (tally_bound n (λ i, extra (rpc σ i))). lia.
Qed.
Lemma writer_waits σ i : rw_inv σ → holder σ i = Some true → 1 ≤ waits n σ.
Proof.
  intros I Hh. unfold holder in Hh. assert (Hi : (i < n)%nat) by (apply (below σ i I); intros E; by rewrite E in Hh). unfold waits. apply (tally_pos n _ i Hi). cbn.
  by destruct (rwcls (rpc σ i)) as [|[]|[]|[]], (inq (rw_list σ) i).
Qed.
Lemma free_no_holder σ i : rw_inv σ → acts n σ = 0 → holder σ i = None.
Proof. intros I Ha. destruct (holder σ i) as [w|] eqn:E; [|done]. pose proof (holder_acts σ i w I E). lia. Qed.
Lemma nonneg_no_waits σ : rw_inv σ → 0 ≤ rw_count σ → waits n σ = 0 ∧ rw_count σ = acts n σ.
Proof. intros I Hc. rewrite (ri_count σ I) in *. pose proof (acts_range σ). pose proof (waits_range σ). lia. Qed.
Lemma no_waits_no_writer σ i : rw_inv σ → waits n σ = 0 → holder σ i ≠ Some true.
Proof. intros I Hw E. pose proof (writer_waits σ i I E). lia. Qed.
Lemma inq_elem q i w : (i, w) ∈ q → inq q i = true.
Proof. intros Hi. unfold inq. apply bool_decide_eq_true. apply list_elem_of_fmap. by exists (i, w). Qed.
Lemma inq_elem_inv q i : inq q i = true → ∃ w, (i, w) ∈ q.
Proof. unfold inq. intros Hi%bool_decide_eq_true. apply list_elem_of_fmap in Hi as ([i' w] & -> & Hi). by exists w. Qed.
Lemma queued_wait σ i : rw_inv σ → inq (rw_list σ) i = true → ∃ w, rwcls (rpc σ i) = CWait w ∧ rtask σ i = true ∧ (i, w) ∈ rw_list σ.
Proof. intros I [w Hw]%inq_elem_inv. exists w. destruct (ri_queue σ I i w Hw). done. Qed.
Lemma unlocked_pending pc : rlocked pc = false → pending pc = [] ∧ target pc = None ∧ extra pc = false.
Proof. by destruct pc. Qed.
Lemma other_unlocked σ i j : rw_inv σ → rlocked (rpc σ i) = true → j ≠ i → rlocked (rpc σ j) = false.
Proof. intros I Li Hne. apply not_true_is_false. intros Lj. apply (ri_lock σ I) in Li, Lj. congruence. Qed.
Lemma front_unlocked σ pc : rlocked pc = false → front_ok σ pc.
Proof. by destruct pc. Qed.
(** A thread that is about to wake readers counts as active. *)
Lemma readers_acts σ i k : rw_inv σ → rpc σ i = KReaders k → 1 ≤ acts n σ.
Proof.
  intros I E. destruct (downgrading k) eqn:Ek; [destruct k; try done; apply (holder_acts σ i false I); unfold holder; by rewrite E|].
  assert (Hi : (i < n)%nat) by (destruct (decide (i < n)%nat); [done|]; rewrite (ri_idle σ I) in E by lia; done).
  unfold acts. pose proof (tally_bound n (λ i, cact (rwcls (rpc σ i)) (inq (rw_list σ) i))). assert (1 ≤ tally n (λ i, extra (rpc σ i))); [|lia].
  apply (tally_pos n _ i Hi). rewrite E. cbn. by rewrite Ek.
Qed.

(** ** Steps that leave the list *)

Lemma rw_inv_goto σ σ' i : rw_inv σ → (i < n)%nat → (∀ j, j ≠ i → rth σ' j = rth σ j) → rtask σ' i = rtask σ i → 0 ≤ rsem σ' i →
  (rw_lock σ' = Some i ↔ rlocked (rpc σ' i) = true) → (∀ j, j ≠ i → rw_lock σ' = Some j ↔ rw_lock σ = Some j) →
  rw_list σ' = rw_list σ →
  (∀ w, rwcls (rpc σ i) = CWait w → rtask σ i = true → rwcls (rpc σ' i) = CWait w) → (∀ w, rwcls (rpc σ' i) = CWait w → rwcls (rpc σ i) = CWait w) →
  (∀ w, rpc σ' i = FOut w → rtask σ i = false) → (∀ old, rpc σ' i = RdCas old → 0 ≤ old) → pending (rpc σ' i) = pending (rpc σ i) → front_ok σ' (rpc σ' i) →
  rw_count σ' = acts n σ' - 65536 * waits n σ' →
  (∀ w, holder σ' i = Some w → holder σ i = Some w ∨ acts n σ = 0 ∨ w = false ∧ (∀ j, j ≠ i → holder σ j ≠ Some true)) →
  (fixed = true → rw_list σ ≠ [] → 1 ≤ acts n σ' ∨ waker (rpc σ' i) = true ∨ waker (rpc σ i) = false ∧ acts n σ ≤ acts n σ') →
  (sleeping (rpc σ' i) = true → rtask σ i = false → sleeping (rpc σ i) = true ∧ rsem σ' i = rsem σ i) →
  (∀ k, target (rpc σ i) = Some k → target (rpc σ' i) = Some k ∨ 0 < rsem σ' k) →
  rw_inv σ'.
Proof.
  intros I Hi Hj Ht Hs Hl Hl' Eq Hc Hc' Ho Hcas Hp Hf Hcnt Hh Hcov Hsl Htg.
  assert (Hhj : ∀ j, j ≠ i → holder σ' j = holder σ j) by (intros j Hne; unfold holder; by rewrite Hj, Eq).
  assert (Htj : ∀ j, rtask σ' j = rtask σ j) by (intros j; destruct (decide (j = i)) as [->|]; [done|by rewrite Hj]).
  assert (Hpj : ∀ j, pending (rpc σ' j) = pending (rpc σ j)) by (intros j; destruct (decide (j = i)) as [->|]; [done|by rewrite Hj]).
  assert (Hcj : ∀ j w, rwcls (rpc σ j) = CWait w → rtask σ j = true → rwcls (rpc σ' j) = CWait w) by (intros j w; destruct (decide (j = i)) as [->|]; [by auto|by rewrite Hj]).
  split.
  - intros j Hle. rewrite Hj by lia. by apply (ri_idle σ I).
  - intros j. destruct (decide (j = i)) as [->|Hne]; [done|]. rewrite Hj, Hl' by done. apply (ri_lock σ I).
  - rewrite Eq. apply (ri_nodup σ I).
  - intros j w. rewrite Eq, Htj. intros Hjw. destruct (ri_queue σ I j w Hjw). auto.
  - intros j w. rewrite Htj. destruct (decide (j = i)) as [->|]; [by apply Ho|]. rewrite Hj by done. apply (ri_out σ I).
  - intros j old. destruct (decide (j = i)) as [->|]; [by apply Hcas|]. rewrite Hj by done. apply (ri_cas σ I).
  - intros j. rewrite Hpj. apply (ri_pnodup σ I).
  - intros j k. rewrite Hpj, Eq, Htj. intros Hk. destruct (ri_pending σ I j k Hk) as ([w Hw] & Hk1 & Hk2). split; [|done]. exists w. auto.
  - intros j. destruct (decide (j = i)) as [->|Hne]; [done|]. rewrite Hj by done. pose proof (ri_front σ I j) as F. destruct (rpc σ j) as [| | | | | | | | | | | | | | | | | | |k0| | | | | | | | |] eqn:Ej; try done; cbn [front_ok] in *; rewrite Eq; try done.
    destruct F as [F1 F2]. split; [done|]. intros k. destruct (decide (k = i)) as [->|]; [|by rewrite Hhj]. intros E. destruct (Hh true E) as [E'|[E'|[? _]]]; [by apply (F2 i)| |done]. pose proof (readers_acts σ j k0 I Ej). lia.
  - done.
  - intros j k w Ej Ek. destruct (decide (j = i)) as [->|Hnj], (decide (k = i)) as [->|Hnk]; [done| | |].
    + rewrite Hhj in Ek by done. destruct (Hh true Ej) as [E'|[E'|[? _]]]; [by apply (ri_excl σ I i k w)|by rewrite (free_no_holder σ k I E') in Ek|done].
    + rewrite Hhj in Ej by done. destruct (Hh w Ek) as [E'|[E'|[_ E']]]; [by apply (ri_excl σ I j i w)|by rewrite (free_no_holder σ j I E') in Ej|by destruct (E' j)].
    + rewrite Hhj in Ej, Ek by done. by apply (ri_excl σ I j k w).
  - intros j. destruct (decide (j = i)) as [->|]; [done|]. rewrite Hj by done. apply (ri_sem σ I).
  - rewrite Eq. intros Hfx Hq. destruct (Hcov Hfx Hq) as [?|[?|[Hw Ha]]]; [by left|right; by exists i|]. destruct (ri_cover σ I Hfx Hq) as [?|[k Hk]]; [left; lia|].
    right. exists k. rewrite Hj; [done|]. intros ->. congruence.
  - intros j w Hw. rewrite Eq, Htj. intros Hq Htk. assert (Hw0 : rwcls (rpc σ j) = CWait w) by (destruct (decide (j = i)) as [->|]; [by auto|by rewrite Hj in Hw]).
    destruct (ri_granted σ I j w Hw0 Hq Htk) as [k Hk]. exists k. by rewrite Hpj.
  - intros j Hjs. rewrite Htj. intros Htk.
    assert (Hj0 : sleeping (rpc σ j) = true ∧ rsem σ' j = rsem σ j) by (destruct (decide (j = i)) as [->|]; [by auto|rewrite Hj in * by done; done]). destruct Hj0 as [Hs0 Es].
    destruct (ri_woken σ I j Hs0 Htk) as [?|[k Hk]]; [left; lia|]. destruct (decide (k = i)) as [->|]; [|right; exists k; by rewrite Hj]. destruct (Htg j Hk); [right; by exists i|by left].
Qed.

Lemma acts_goto σ σ' i : (i < n)%nat → (∀ j, j ≠ i → rth σ' j = rth σ j) → rw_list σ' = rw_list σ →
  acts n σ' = acts n σ - bool2Z (cact (rwcls (rpc σ i)) (inq (rw_list σ) i)) + bool2Z (cact (rwcls (rpc σ' i)) (inq (rw_list σ) i)) - bool2Z (extra (rpc σ i)) + bool2Z (extra (rpc σ' i)).
Proof.
  intros Hi Hj Eq. unfold acts. rewrite Eq, (tally_change n (λ j, cact (rwcls (rpc σ j)) (inq (rw_list σ) j)) (λ j, cact (rwcls (rpc σ' j)) (inq (rw_list σ) j)) i Hi) by (intros j Hne; by rewrite Hj).
  rewrite (tally_change n (λ j, extra (rpc σ j)) (λ j, extra (rpc σ' j)) i Hi) by (intros j Hne; by rewrite Hj). lia.
Qed.
Lemma waits_goto σ σ' i : (i < n)%nat → (∀ j, j ≠ i → rth σ' j = rth σ j) → rw_list σ' = rw_list σ →
  waits n σ' = waits n σ - bool2Z (cwait (rwcls (rpc σ i)) (inq (rw_list σ) i)) + bool2Z (cwait (rwcls (rpc σ' i)) (inq (rw_list σ) i)).
Proof.
  intros Hi Hj Eq. unfold waits. rewrite Eq, (tally_change n (λ j, cwait (rwcls (rpc σ j)) (inq (rw_list σ) j)) (λ j, cwait (rwcls (rpc σ' j)) (inq (rw_list σ) j)) i Hi) by (intros j Hne; by rewrite Hj). lia.
Qed.

(** A step within a class that leaves the counter; the lock is left, taken or given back. *)
Definition rwlock_step (σ σ' : rw_semaphore) (i : nat) : Prop :=
  rw_lock σ' = rw_lock σ ∧ rlocked (rpc σ' i) = rlocked (rpc σ i) ∨
  rw_lock σ = None ∧ rw_lock σ' = Some i ∧ rlocked (rpc σ' i) = true ∨
  rlocked (rpc σ i) = true ∧ rw_lock σ' = None ∧ rlocked (rpc σ' i) = false.
Lemma rw_inv_local σ σ' i : rw_inv σ → (i < n)%nat → (∀ j, j ≠ i → rth σ' j = rth σ j) → rtask σ' i = rtask σ i → 0 ≤ rsem σ' i → rwlock_step σ σ' i →
  rw_list σ' = rw_list σ → rw_count σ' = rw_count σ → rwcls (rpc σ' i) = rwcls (rpc σ i) → extra (rpc σ' i) = extra (rpc σ i) →
  (∀ w, rpc σ' i = FOut w → rtask σ i = false) → (∀ old, rpc σ' i = RdCas old → 0 ≤ old) → pending (rpc σ' i) = pending (rpc σ i) → front_ok σ (rpc σ' i) →
  (rw_list σ ≠ [] → waker (rpc σ i) = true → waker (rpc σ' i) = true) →
  (sleeping (rpc σ' i) = true → rtask σ i = false → sleeping (rpc σ i) = true ∧ rsem σ' i = rsem σ i) →
  (∀ k, target (rpc σ i) = Some k → target (rpc σ' i) = Some k ∨ 0 < rsem σ' k) →
  rw_inv σ'.
Proof.
  intros I Hi Hj Ht Hs Hl Eq Ec Hc He Ho Hcas Hp Hf Hw Hsl Htg. pose proof (acts_goto σ σ' i Hi Hj Eq) as Ea. pose proof (waits_goto σ σ' i Hi Hj Eq) as Ew. rewrite Hc, He in Ea. rewrite Hc in Ew.
  assert (Ea' : acts n σ' = acts n σ) by lia. assert (Ew' : waits n σ' = waits n σ) by lia.
  assert (Hh : ∀ j, holder σ' j = holder σ j) by (intros j; unfold holder; rewrite Eq; destruct (decide (j = i)) as [->|]; [by rewrite Hc|by rewrite Hj]).
  apply (rw_inv_goto σ σ' i I Hi Hj Ht Hs); try done.
  - destruct Hl as [[-> ->]|[(_ & -> & ->)|(_ & -> & ->)]]; [apply (ri_lock σ I)|done|done].
  - intros j Hne. destruct Hl as [[-> _]|[(-> & -> & _)|(L & -> & _)]]; [done|split; congruence|]. apply (ri_lock σ I) in L. split; congruence.
  - congruence.
  - congruence.
  - clear -Hf Eq Hh. destruct (rpc σ' i); cbn [front_ok] in *; rewrite ?Eq; try done. destruct Hf as [F1 F2]. split; [done|]. intros j. rewrite Hh. apply F2.
  - by rewrite Ec, (ri_count σ I), Ea', Ew'.
  - intros w. rewrite Hh. auto.
  - intros Hfx Hq. destruct (waker (rpc σ i)) eqn:E; [right; left; by apply Hw|]. right. right. split; [done|lia].
Qed.

(** A task is woken by others, or its state changes. *)
Lemma rw_inv_on σ j f : rw_inv σ → (∀ t, rw_pc (f t) = rw_pc t) → (∀ t, rw_task (f t) = rw_task t) → (∀ t, tk_sleep_lock (rw_tsk t) ≤ tk_sleep_lock (rw_tsk (f t))) → rw_inv (on_rwthread j f σ).
Proof.
  intros I Fp Ft Fs. set (σ' := on_rwthread j f σ). assert (Ep : ∀ i, rpc σ' i = rpc σ i) by (intros i; cbn; destruct (decide (i = j)) as [->|]; [by rewrite upd_at_eq, Fp|by rewrite upd_at_ne]).
  assert (Et : ∀ i, rtask σ' i = rtask σ i) by (intros i; cbn; destruct (decide (i = j)) as [->|]; [by rewrite upd_at_eq, Ft|by rewrite upd_at_ne]).
  assert (Es : ∀ i, rsem σ i ≤ rsem σ' i) by (intros i; cbn; destruct (decide (i = j)) as [->|]; [by rewrite upd_at_eq|by rewrite upd_at_ne]).
  assert (Ea : acts n σ' = acts n σ) by (unfold acts; f_equal; apply tally_same; intros i _; by rewrite Ep). assert (Ew : waits n σ' = waits n σ) by (apply tally_same; intros i _; by rewrite Ep).
  assert (Eh : ∀ i, holder σ' i = holder σ i) by (intros i; unfold holder; by rewrite Ep).
  destruct I as [H1 H2 H3 H4 H5 Hcas H6 H7 H8 H9 H10 H11 H12 H13 H14].
  split; intros; rewrite ?Ea, ?Ew, ?Et, ?Eh, ?Ep in *; eauto.
  - pose proof (H8 i) as F. destruct (rpc σ i); try done. destruct F as [F1 F2]. split; [done|]. intros k1. by rewrite Eh.
  - pose proof (H11 i). pose proof (Es i). lia.
  - destruct (H12 ltac:(done) ltac:(done)) as [?|[k Hk]]; [by left|right; exists k; by rewrite Ep].
  - destruct (H13 i w ltac:(done) ltac:(done) ltac:(done)) as [k Hk]. exists k. by rewrite Ep.
  - pose proof (Es i). destruct (H14 i ltac:(done) ltac:(done)) as [?|[k Hk]]; [left; lia|right; exists k; by rewrite Ep].
Qed.

(** A step that changes the counter *)
Section Count.
Context (σ : rw_semaphore) (i : nat) (pc : rwpc).
Let q := inq (rw_list σ) i.
Definition dacts : Z := bool2Z (cact (rwcls pc) q) - bool2Z (cact (rwcls (rpc σ i)) q) + bool2Z (extra pc) - bool2Z (extra (rpc σ i)).
Definition dwaits : Z := bool2Z (cwait (rwcls pc) q) - bool2Z (cwait (rwcls (rpc σ i)) q).
Lemma count_after δ : rw_inv σ → (i < n)%nat → δ = dacts - 65536 * dwaits →
  s32 (rw_count σ + δ) = acts n σ + dacts - 65536 * (waits n σ + dwaits) ∧ 0 ≤ acts n σ + dacts < 65535 ∧ 0 ≤ waits n σ + dwaits < 32768.
Proof.
  intros I Hi ->. set (σ' := rwgoto i pc σ). assert (Hj : ∀ j, j ≠ i → rth σ' j = rth σ j) by (intros j Hne; cbn; by rewrite upd_at_ne). assert (Ep : rpc σ' i = pc) by (cbn; by rewrite upd_at_eq).
  assert (Ea : acts n σ' = acts n σ + dacts) by (rewrite (acts_goto σ σ' i Hi Hj eq_refl), Ep; unfold dacts, q; lia). assert (Ew : waits n σ' = waits n σ + dwaits) by (rewrite (waits_goto σ σ' i Hi Hj eq_refl), Ep; unfold dwaits, q; lia).
  pose proof (acts_range σ') as Ra. pose proof (waits_range σ') as Rw. rewrite Ea in Ra. rewrite Ew in Rw. rewrite (ri_count σ I). split; [|done].
  replace (acts n σ - 65536 * waits n σ + (dacts - 65536 * dwaits)) with (acts n σ + dacts - 65536 * (waits n σ + dwaits)) by lia. apply count_s32; lia.
Qed.
Lemma rw_inv_count δ : rw_inv σ → (i < n)%nat → rlocked pc = rlocked (rpc σ i) →
  (rwcls pc = rwcls (rpc σ i) ∨ (∀ w, rwcls (rpc σ i) ≠ CWait w) ∧ (∀ w, rwcls pc ≠ CWait w)) →
  pending (rpc σ i) = [] → target (rpc σ i) = None → pending pc = [] → sleeping pc = false → (∀ w, pc ≠ FOut w) → (∀ old, pc ≠ RdCas old) →
  δ = dacts - 65536 * dwaits → front_ok (rwgoto i pc (rwsem_atomic_update δ σ)) pc →
  (∀ w, cheld (rwcls pc) q = Some w → holder σ i = Some w ∨ acts n σ = 0 ∨ w = false ∧ (∀ j, j ≠ i → holder σ j ≠ Some true)) →
  (fixed = true → rw_list σ ≠ [] → 1 ≤ acts n σ + dacts ∨ waker pc = true ∨ waker (rpc σ i) = false ∧ 0 ≤ dacts) →
  rw_inv (rwgoto i pc (rwsem_atomic_update δ σ)).
Proof.
  intros I Hi Hl Hc Hp1 Ht Hp2 Hs Ho Hcas Hd Hf Hh Hcov. set (σ' := rwgoto i pc _). assert (Hj : ∀ j, j ≠ i → rth σ' j = rth σ j) by (intros j Hne; cbn; by rewrite upd_at_ne).
  assert (Ei : rth σ' i = set_rwpc pc (rth σ i)) by (cbn; by rewrite upd_at_eq). assert (Ep : rpc σ' i = pc) by (by rewrite Ei).
  assert (Ea : acts n σ' = acts n σ + dacts) by (rewrite (acts_goto σ σ' i Hi Hj eq_refl), Ep; unfold dacts, q; lia). assert (Ew : waits n σ' = waits n σ + dwaits) by (rewrite (waits_goto σ σ' i Hi Hj eq_refl), Ep; unfold dwaits, q; lia).
  apply (rw_inv_goto σ σ' i I Hi Hj); rewrite ?Ep; try done.
  - by rewrite Ei.
  - rewrite Ei. apply (ri_sem σ I).
  - rewrite Hl. apply (ri_lock σ I).
  - intros w. destruct Hc as [->|[Hc _]]; [done|]. intros E. by destruct (Hc w).
  - intros w. destruct Hc as [->|[_ Hc]]; [done|]. intros E. by destruct (Hc w).
  - intros w E. by destruct (Ho w).
  - intros old E. by destruct (Hcas old).
  - by rewrite Hp1, Hp2.
  - change (rw_count σ') with (s32 (rw_count σ + δ)). destruct (count_after δ I Hi Hd) as (-> & _). by rewrite Ea, Ew.
  - intros w. unfold holder at 1. rewrite Ep. apply Hh.
  - intros Hfx Hq. rewrite Ea. destruct (Hcov Hfx Hq) as [?|[?|[? ?]]]; [by left|by right; left|]. right. right. split; [done|lia].
  - by rewrite Hs.
  - by rewrite Ht.
Qed.
End Count.

Lemma queue_waits σ σ' i : rw_inv σ → rw_list σ ≠ [] → rw_list σ' = rw_list σ → (∀ j, j ≠ i → rth σ' j = rth σ j) → (∀ w, rwcls (rpc σ i) ≠ CWait w) → 1 ≤ waits n σ'.
Proof.
  intros I Hq Eq Hj Hi. destruct (rw_list σ) as [|[j w] l] eqn:El; [done|]. assert (Hin : (j, w) ∈ rw_list σ) by (rewrite El; by left). destruct (ri_queue σ I j w Hin) as [Hc _].
  assert (Hne : j ≠ i) by (intros ->; by destruct (Hi w)). unfold waits. apply (tally_pos n _ j); [apply (below σ j I); by rewrite Hc|]. cbn. rewrite Hj, Hc, Eq by done. cbn. rewrite <- El, (inq_elem _ j w Hin). by destruct w.
Qed.

(** ** Fast paths *)

Ltac rwcount I Hi E := apply rw_inv_count; [exact I|exact Hi|by rewrite E|right; rewrite E; split; done|by rewrite E|by rewrite E|done|done|done|done|unfold dacts, dwaits; rewrite E; done|done| |].
Ltac rwafter I Hi E pc δ :=
  let Ec := fresh "Ec" in let Ha := fresh "Ha" in let Hw := fresh "Hw" in
  lazymatch type of I with rw_inv ?σ =>
    lazymatch type of Hi with (?i < _)%nat =>
      pose proof (acts_range σ); pose proof (waits_range σ); destruct (count_after σ i pc δ I Hi) as (Ec & Ha & Hw); [unfold dacts, dwaits; by rewrite E|];
      unfold dacts, dwaits in Ec, Ha, Hw; rewrite E in Ec, Ha, Hw; cbn [bool2Z rwcls kclass cact cwait extra negb] in Ec, Ha, Hw;
      change (rw_count (rwsem_atomic_update δ σ)) with (s32 (rw_count σ + δ)); rewrite ?Ec
    end
  end.
Lemma rw_inv_down_read σ i : rw_inv σ → (i < n)%nat → rpc σ i = RdFast → rw_inv (__down_read i σ).
Proof.
  intros I Hi E. unfold __down_read. cbv zeta. change RWSEM_ACTIVE_BIAS with 1. rwafter I Hi E RwRead 1. destruct (Z.ltb_spec (acts n σ + (1 - 0 + 0 - 0) - 65536 * (waits n σ + (0 - 0))) 0); rwcount I Hi E.
  2,4: intros _ _; left; unfold dacts; rewrite E; cbn; lia.
  - done.
  - intros w [= <-]. right. right. split; [done|]. intros j _. apply (no_waits_no_writer σ j I). lia.
Qed.
Lemma rw_inv_take_write σ i : rw_inv σ → (i < n)%nat → rpc σ i = WrFast ∨ rpc σ i = WrTry → rw_count σ = 0 → rw_inv (rwgoto i RwWrite (rwsem_atomic_update RWSEM_ACTIVE_WRITE_BIAS σ)).
Proof.
  intros I Hi E Hc. rewrite (ri_count σ I) in Hc. pose proof (acts_range σ). pose proof (waits_range σ). destruct E as [E|E]; rwcount I Hi E; try (intros _ _; left; unfold dacts; rewrite E; cbn; lia); intros w _; right; left; lia.
Qed.
Lemma rw_inv_down_write σ i : rw_inv σ → (i < n)%nat → rpc σ i = WrFast → rw_inv (__down_write i σ).
Proof.
  intros I Hi E. unfold __down_write. destruct (Z.eqb_spec (rw_count σ) 0); [apply rw_inv_take_write; auto|]. pose proof (acts_range σ). rwcount I Hi E; [done|]. intros _ _. left. unfold dacts. rewrite E. cbn. lia.
Qed.
Lemma rw_inv_read_try σ i old : rw_inv σ → (i < n)%nat → rwcls (rpc σ i) = CNone → rlocked (rpc σ i) = false → waker (rpc σ i) = false → rw_inv (read_try i old σ).
Proof.
  intros I Hi Ec El Ew. destruct (unlocked_pending _ El) as (Ep & Et & Ee). unfold read_try. set (pc := if old + RWSEM_ACTIVE_BIAS <=? 0 then RwIdle else RdCas old).
  assert (Hpc : rwcls pc = CNone ∧ rlocked pc = false ∧ extra pc = false ∧ pending pc = [] ∧ (∀ w, pc ≠ FOut w) ∧ sleeping pc = false ∧ (∀ o, pc = RdCas o → 0 ≤ o) ∧ (∀ τ, front_ok τ pc)).
  { unfold pc. destruct (Z.leb_spec (old + RWSEM_ACTIVE_BIAS) 0); repeat split; try done. intros o [= <-]. unfold RWSEM_ACTIVE_BIAS in *. lia. }
  destruct Hpc as (P1 & P2 & P3 & P4 & P5 & P6 & P7 & P8).
  apply (rw_inv_local σ _ i I Hi); cbn [rwgoto on_rwthread rw_count rw_lock rw_list rth]; rewrite ?upd_at_eq; cbn [set_rwpc rw_pc rw_tsk rw_task]; rewrite ?P1, ?P3, ?P4, ?P6, ?Ec, ?Ep, ?Et, ?Ee; try done; auto.
  - intros j Hne. by rewrite upd_at_ne.
  - apply (ri_sem σ I).
  - left. split; [done|]. cbn. rewrite upd_at_eq. cbn. by rewrite P2, El.
  - intros w Hw. by destruct (P5 w).
  - by rewrite Ew.
Qed.
Lemma rw_inv_read_trylock σ i : rw_inv σ → (i < n)%nat → rpc σ i = RdTry ∨ (∃ old, rpc σ i = RdCas old) → rw_inv (__down_read_trylock i (rpc σ i) σ).
Proof.
  intros I Hi [E|[old E]]; rewrite E; cbn [__down_read_trylock]; [apply rw_inv_read_try; auto; by rewrite E|].
  destruct (Z.eqb_spec (rw_count σ) old) as [Hold|]; [|apply rw_inv_read_try; auto; by rewrite E]. pose proof (ri_cas σ I i old E). rewrite <- Hold. change (with_rwcount _ σ) with (rwsem_atomic_update 1 σ).
  destruct (nonneg_no_waits σ I ltac:(lia)) as [Hw _]. pose proof (acts_range σ). rwcount I Hi E.
  - intros w [= <-]. right. right. split; [done|]. intros j _. by apply no_waits_no_writer.
  - intros _ _. left. unfold dacts. rewrite E. cbn. lia.
Qed.
Lemma rw_inv_write_trylock σ i : rw_inv σ → (i < n)%nat → rpc σ i = WrTry → rw_inv (__down_write_trylock i σ).
Proof.
  intros I Hi E. unfold __down_write_trylock. destruct (Z.eqb_spec (rw_count σ) 0) as [Ec|]; [pose proof (rw_inv_take_write σ i I Hi (or_intror E) Ec) as H; unfold rwsem_atomic_update in H; by rewrite Ec in H|].
  change (rwgoto i RwIdle σ) with (read_try i (- 1) σ). apply rw_inv_read_try; auto; by rewrite E.
Qed.

(** Giving the lock back *)
Lemma active_less σ : rw_inv σ → 1 ≤ acts n σ → active (rw_count σ - 1) = acts n σ - 1.
Proof.
  intros I Ha. rewrite (ri_count σ I). replace (acts n σ - 65536 * waits n σ - 1) with (acts n σ - 1 - 65536 * waits n σ) by lia. apply active_of. pose proof (acts_range σ). lia.
Qed.
Lemma rw_inv_up σ i pc δ : rw_inv σ → (i < n)%nat → (rpc σ i = RdUp ∧ δ = -1 ∨ rpc σ i = WrUp ∧ δ = 65535) → (pc = ULock ∨ pc = RwIdle) →
  (rw_list σ ≠ [] → acts n σ = 1 → pc = ULock) → rw_inv (rwgoto i pc (rwsem_atomic_update δ σ)).
Proof.
  intros I Hi E Hpc Hw. assert (Ha : 1 ≤ acts n σ) by (destruct E as [[E _]|[E _]]; eapply holder_acts; [done|unfold holder; by rewrite E|done|unfold holder; by rewrite E]).
  destruct E as [[E ->]|[E ->]]; destruct Hpc as [->| ->]; rwcount I Hi E; try done; intros _ Hq; unfold dacts; rewrite E; cbn; try auto; left; destruct (decide (acts n σ = 1)) as [E1|]; [by specialize (Hw Hq E1)|lia|by specialize (Hw Hq E1)|lia].
Qed.
Lemma rw_inv_up_read σ i : rw_inv σ → (i < n)%nat → rpc σ i = RdUp → rw_inv (__up_read i σ).
Proof.
  intros I Hi E. assert (Ha1 : 1 ≤ acts n σ) by (eapply holder_acts; [done|unfold holder; by rewrite E]).
  unfold __up_read, call_rwsem_wake. cbv zeta. change (- RWSEM_ACTIVE_BIAS) with (-1). rwafter I Hi E RwIdle (-1). rewrite (active_less σ I Ha1).
  destruct (Z.ltb_spec (acts n σ + (0 - 1 + 0 - 0) - 65536 * (waits n σ + (0 - 0))) 0); [destruct (Z.eqb_spec (acts n σ - 1) 0)|]; apply rw_inv_up; auto; [lia|].
  intros Hq _. exfalso. pose proof (queue_waits σ σ i I Hq eq_refl ltac:(done) ltac:(by rewrite E)). lia.
Qed.
Lemma rw_inv_up_write σ i : rw_inv σ → (i < n)%nat → rpc σ i = WrUp → rw_inv (__up_write i σ).
Proof.
  intros I Hi E. assert (Ha1 : 1 ≤ acts n σ) by (eapply holder_acts; [done|unfold holder; by rewrite E]).
  unfold __up_write, call_rwsem_wake. cbv zeta. change (- RWSEM_ACTIVE_WRITE_BIAS) with 65535. rwafter I Hi E RwIdle 65535. rewrite (active_less σ I Ha1).
  destruct (Z.eqb_spec (acts n σ + (0 - 1 + 0 - 0) - 65536 * (waits n σ + (0 - 1))) 0); [|destruct (Z.eqb_spec (acts n σ - 1) 0)]; apply rw_inv_up; auto; [|lia].
  intros Hq _. exfalso. set (σ' := rwgoto i RwIdle σ). assert (Hj : ∀ j, j ≠ i → rth σ' j = rth σ j) by (intros j Hne; cbn; by rewrite upd_at_ne).
  pose proof (queue_waits σ σ' i I Hq eq_refl Hj ltac:(by rewrite E)) as Hq'. rewrite (waits_goto σ σ' i Hi Hj eq_refl) in Hq'. cbn [σ' rwgoto on_rwthread rth] in Hq'. rewrite upd_at_eq, E in Hq'. cbn in Hq'. lia.
Qed.
Lemma rw_inv_downgrade σ i : rw_inv σ → (i < n)%nat → rpc σ i = WrDown → rw_inv (__downgrade_write i σ).
Proof.
  intros I Hi E. assert (Hh : holder σ i = Some true) by (unfold holder; by rewrite E). pose proof (holder_acts σ i true I Hh).
  unfold __downgrade_write. cbv zeta. change (- RWSEM_WAITING_BIAS) with 65536. destruct (_ <? 0); rwcount I Hi E; try (intros _ _; left; unfold dacts; rewrite E; cbn; lia);
    intros w [= <-]; right; right; (split; [done|]); intros j Hne Hj; apply Hne; symmetry; by apply (ri_excl σ I i j true).
Qed.
Lemma rw_inv_undo σ i k : rw_inv σ → (i < n)%nat → rpc σ i = KUndo k → rw_inv (default σ (__rwsem_do_wake fixed i (KUndo k) σ)).
Proof.
  intros I Hi E. cbn [__rwsem_do_wake default]. cbv zeta. change (- RWSEM_ACTIVE_BIAS) with (-1). pose proof (ri_front σ I i) as F. rewrite E in F. cbn in F.
  destruct (count_after σ i (KUnlock k) (-1) I Hi) as (Ec & Ha & Hw); [unfold dacts, dwaits; rewrite E; cbn; lia|]. unfold dacts, dwaits in Ec, Ha, Hw; rewrite E in Ec, Ha, Hw. cbn [rwcls extra bool2Z] in Ec, Ha, Hw.
  set (b := (if fixed then _ else _) =? 0).
  assert (Hb : fixed = true → b = false → 1 ≤ acts n σ - 1).
  { unfold b. intros -> H. apply Z.eqb_neq in H. revert H. change (rw_count (rwsem_atomic_update (-1) σ)) with (s32 (rw_count σ + -1)). rewrite Ec, active_of by lia. lia. }
  destruct b; apply rw_inv_count; rewrite ?E; auto; try done; try (unfold dacts, dwaits; rewrite E; cbn [rwcls extra bool2Z]; lia).
  - intros w Hw'. left. unfold holder. by rewrite E.
  - intros w Hw'. left. unfold holder. by rewrite E.
  - intros Hfx _. left. pose proof (Hb Hfx eq_refl). unfold dacts. rewrite E. cbn [rwcls extra bool2Z]. lia.
Qed.

(** ** Steps of the thread with the spin lock that change the list *)

Lemma locked_shape pc : rlocked pc = true → sleeping pc = false ∧ (∀ w, pc ≠ FOut w) ∧ (∀ old, pc ≠ RdCas old).
Proof. by destruct pc. Qed.
Lemma rw_inv_list σ σ' i : rw_inv σ → (i < n)%nat → (∀ j, j ≠ i → rth σ' j = rth σ j) → rsem σ' i = rsem σ i → rw_lock σ' = rw_lock σ →
  rlocked (rpc σ i) = true → rlocked (rpc σ' i) = true → target (rpc σ i) = None →
  NoDup (rw_list σ').*1 → (∀ j w, (j, w) ∈ rw_list σ' → rwcls (rpc σ' j) = CWait w ∧ rtask σ' j = true) →
  NoDup (pending (rpc σ' i)) → (∀ j, j ∈ pending (rpc σ' i) → (∃ w, rwcls (rpc σ' j) = CWait w) ∧ rtask σ' j = true ∧ inq (rw_list σ') j = false) →
  front_ok σ' (rpc σ' i) → rw_count σ' = acts n σ' - 65536 * waits n σ' → (∀ j k w, holder σ' j = Some true → holder σ' k = Some w → j = k) →
  (1 ≤ acts n σ' ∨ waker (rpc σ' i) = true) →
  (∀ j w, rwcls (rpc σ' j) = CWait w → inq (rw_list σ') j = false → rtask σ' j = true → j ∈ pending (rpc σ' i)) → rw_inv σ'.
Proof.
  intros I Hi Hj Hs El L L' Ht Hnd Hq Hpn Hp Hf Hc Hx Hcov Hg. assert (Hu : ∀ j, j ≠ i → rlocked (rpc σ' j) = false) by (intros j Hne; rewrite Hj by done; by apply (other_unlocked σ i j I L)).
  destruct (locked_shape _ L') as (S1 & S2 & S3). split; try done.
  - intros j Hle. rewrite Hj by lia. by apply (ri_idle σ I).
  - intros j. rewrite El. destruct (decide (j = i)) as [->|Hne]; [split; [done|]; intros _; by apply (ri_lock σ I)|]. rewrite Hj by done. apply (ri_lock σ I).
  - intros j w. destruct (decide (j = i)) as [->|Hne]; [intros E; by destruct (S2 w)|]. rewrite Hj by done. apply (ri_out σ I).
  - intros j old. destruct (decide (j = i)) as [->|Hne]; [intros E; by destruct (S3 old)|]. rewrite Hj by done. apply (ri_cas σ I).
  - intros j. destruct (decide (j = i)) as [->|Hne]; [done|]. destruct (unlocked_pending _ (Hu j Hne)) as (-> & _). apply base.NoDup_nil_2.
  - intros j k. destruct (decide (j = i)) as [->|Hne]; [apply Hp|]. destruct (unlocked_pending _ (Hu j Hne)) as (-> & _). by intros ?%elem_of_nil.
  - intros j. destruct (decide (j = i)) as [->|Hne]; [done|]. by apply front_unlocked, Hu.
  - intros j. destruct (decide (j = i)) as [->|Hne]; [rewrite Hs|rewrite Hj by done]; apply (ri_sem σ I).
  - intros _ _. destruct Hcov; [by left|right; by exists i].
  - intros j w H1 H2 H3. exists i. by apply (Hg j w).
  - intros j Hsl Htk. destruct (decide (j = i)) as [->|Hne]; [congruence|]. rewrite Hj in Hsl, Htk by done. destruct (ri_woken σ I j Hsl Htk) as [?|[k Hk]]; [left; by rewrite Hj|].
    destruct (decide (k = i)) as [->|Hne']; [congruence|]. right. exists k. by rewrite Hj.
Qed.
Lemma granted_lock σ i j w : rw_inv σ → rlocked (rpc σ i) = true → pending (rpc σ i) = [] → rwcls (rpc σ j) = CWait w → inq (rw_list σ) j = false → rtask σ j = true → False.
Proof.
  intros I L Hp H1 H2 H3. destruct (ri_granted σ I j w H1 H2 H3) as [k Hk]. destruct (decide (k = i)) as [->|Hne]; [rewrite Hp in Hk; by apply elem_of_nil in Hk|].
  destruct (unlocked_pending _ (other_unlocked σ i k I L Hne)) as (E & _). rewrite E in Hk. by apply elem_of_nil in Hk.
Qed.
Lemma inq_false q i : inq q i = false ↔ i ∉ q.*1.
Proof. unfold inq. by rewrite bool_decide_eq_false. Qed.
Lemma not_queued σ i : rw_inv σ → (∀ w, rwcls (rpc σ i) ≠ CWait w) → inq (rw_list σ) i = false.
Proof. intros I Hc. destruct (inq (rw_list σ) i) eqn:E; [|done]. destruct (queued_wait σ i I E) as (w & Hw & _). by destruct (Hc w). Qed.
Lemma inq_app q i w j : inq (q ++ [(i, w)]) j = (inq q j || bool_decide (j = i)).
Proof. unfold inq. rewrite fmap_app. cbn. rewrite <- bool_decide_or. apply bool_decide_ext. rewrite elem_of_app, list_elem_of_singleton. done. Qed.

(** The classes and places in the list change for [i] only, and the increments of wakers for [i'] only. *)
Lemma counts_change σ σ' i i' : (i < n)%nat → (i' < n)%nat → (∀ j, j ≠ i → rwcls (rpc σ' j) = rwcls (rpc σ j)) → (∀ j, j ≠ i → inq (rw_list σ') j = inq (rw_list σ) j) →
  (∀ j, j ≠ i' → extra (rpc σ' j) = extra (rpc σ j)) →
  acts n σ' = acts n σ - bool2Z (cact (rwcls (rpc σ i)) (inq (rw_list σ) i)) + bool2Z (cact (rwcls (rpc σ' i)) (inq (rw_list σ') i)) - bool2Z (extra (rpc σ i')) + bool2Z (extra (rpc σ' i')) ∧
  waits n σ' = waits n σ - bool2Z (cwait (rwcls (rpc σ i)) (inq (rw_list σ) i)) + bool2Z (cwait (rwcls (rpc σ' i)) (inq (rw_list σ') i)).
Proof.
  intros Hi Hi' Hc Hq He. unfold acts, waits.
  rewrite (tally_change n (λ j, cact (rwcls (rpc σ j)) (inq (rw_list σ) j)) (λ j, cact (rwcls (rpc σ' j)) (inq (rw_list σ') j)) i Hi) by (intros j Hne; by rewrite Hc, Hq).
  rewrite (tally_change n (λ j, extra (rpc σ j)) (λ j, extra (rpc σ' j)) i' Hi' He).
  rewrite (tally_change n (λ j, cwait (rwcls (rpc σ j)) (inq (rw_list σ) j)) (λ j, cwait (rwcls (rpc σ' j)) (inq (rw_list σ') j)) i Hi) by (intros j Hne; by rewrite Hc, Hq). lia.
Qed.
Lemma rw_inv_adjust σ i w : rw_inv σ → (i < n)%nat → rpc σ i = FAdjust w → rw_inv (default σ (rwsem_down_failed_common i (FAdjust w) σ)).
Proof.
  intros I Hi E. cbn [rwsem_down_failed_common default]. cbv zeta. set (σ1 := rwsem_atomic_update _ _).
  assert (Hnq : inq (rw_list σ) i = false) by (apply (not_queued σ i I); by rewrite E).
  assert (Hgen : ∀ pc, rwcls pc = CWait w → rlocked pc = true → extra pc = false → pending pc = [] → acts n (rwgoto i pc σ1) = acts n σ - 1 ∧ waits n (rwgoto i pc σ1) = waits n σ - bool2Z w + 1).
  { intros pc Hcl Hlk Hex Hpe. set (σ' := rwgoto i pc σ1). destruct (counts_change σ σ' i i Hi Hi) as [-> ->].
    - intros j Hne. cbn. by rewrite !upd_at_ne.
    - intros j Hne. change (rw_list σ') with (rw_list σ ++ [(i, w)]). rewrite inq_app, bool_decide_eq_false_2 by done. apply orb_false_r.
    - intros j Hne. cbn. by rewrite !upd_at_ne.
    - change (rw_list σ') with (rw_list σ ++ [(i, w)]). cbn [σ' rwgoto on_rwthread rth σ1]. rewrite !upd_at_eq. cbn [set_rwpc rw_pc]. rewrite E, Hcl, Hex, inq_app, bool_decide_eq_true_2, orb_true_r by done. cbn. rewrite orb_true_r. cbn. lia. }
  pose proof (acts_range (rwgoto i (KUnlock (KDown w)) σ1)) as Ra. pose proof (waits_range (rwgoto i (KUnlock (KDown w)) σ1)) as Rw. destruct (Hgen (KUnlock (KDown w)) eq_refl eq_refl eq_refl eq_refl) as [Ea Ew]. rewrite Ea in Ra. rewrite Ew in Rw.
  assert (Ec : rw_count σ1 = acts n σ - 1 - 65536 * (waits n σ - bool2Z w + 1)).
  { cbn [σ1 rwsem_atomic_update with_rwcount rw_count with_rwlist on_rwthread]. rewrite (ri_count σ I). rewrite <- (count_s32 (acts n σ - 1) (waits n σ - bool2Z w + 1)) by lia. f_equal. unfold RWSEM_WAITING_BIAS, RWSEM_ACTIVE_BIAS, bool2Z. destruct w; lia. }
  rewrite Ec, active_of by lia. set (pc := if _ =? 0 then _ else _).
  assert (Hpc : rwcls pc = CWait w ∧ rlocked pc = true ∧ extra pc = false ∧ pending pc = [] ∧ (acts n σ - 1 = 0 → waker pc = true) ∧ (∀ τ, rw_list τ ≠ [] → front_ok τ pc)).
  { unfold pc. destruct (Z.eqb_spec (acts n σ - 1) 0); repeat split; done. }
  destruct Hpc as (P1 & P2 & P3 & P4 & P5 & P6). destruct (Hgen pc P1 P2 P3 P4) as [Ea' Ew']. set (σ' := rwgoto i pc σ1) in *.
  assert (Hj : ∀ j, j ≠ i → rth σ' j = rth σ j) by (intros j Hne; cbn; by rewrite !upd_at_ne). assert (Ep : rpc σ' i = pc) by (cbn; by rewrite upd_at_eq). assert (Et : rtask σ' i = true) by (cbn; by rewrite !upd_at_eq).
  assert (Hh : ∀ j, holder σ' j = holder σ j).
  { intros j. unfold holder. change (rw_list σ') with (rw_list σ ++ [(i, w)]). rewrite inq_app. destruct (decide (j = i)) as [->|Hne]; [rewrite Ep, P1, bool_decide_eq_true_2, orb_true_r, E by done; done|]. rewrite Hj, bool_decide_eq_false_2, orb_false_r by done. done. }
  apply (rw_inv_list σ σ' i I Hi Hj); rewrite ?Ep, ?P4; try done.
  - cbn. by rewrite !upd_at_eq.
  - by rewrite E.
  - by rewrite E.
  - change (rw_list σ') with (rw_list σ ++ [(i, w)]). rewrite fmap_app. apply list.NoDup_app. split; [apply (ri_nodup σ I)|]. split; [|apply list.NoDup_singleton]. cbn. intros j Hj1 ->%list_elem_of_singleton. by apply (proj1 (inq_false _ _) Hnq).
  - intros j w' Hin. change (rw_list σ') with (rw_list σ ++ [(i, w)]) in Hin. apply elem_of_app in Hin as [Hin|[= -> ->]%list_elem_of_singleton]; [|by rewrite Ep, P1, Et].
    assert (j ≠ i) by (intros ->; by rewrite (inq_elem _ _ _ Hin) in Hnq). rewrite Hj by done. by apply (ri_queue σ I).
  - apply base.NoDup_nil_2.
  - by intros j ?%elem_of_nil.
  - apply P6. cbn. by destruct (rw_list σ).
  - rewrite Ea', Ew'. exact Ec.
  - intros j k w'. rewrite !Hh. apply (ri_excl σ I).
  - rewrite Ea'. destruct (decide (acts n σ - 1 = 0)); [right; by apply P5|left; lia].
  - intros j w' H1 H2 H3. exfalso. change (rw_list σ') with (rw_list σ ++ [(i, w)]) in H2. rewrite inq_app in H2. apply orb_false_iff in H2 as [H2 Hne%bool_decide_eq_false]. rewrite Hj in H1, H3 by done.
    apply (granted_lock σ i j w' I); try done; by rewrite E.
Qed.

(** [try_again]: the front waiter is a writer, *)
Lemma inq_cons q j w k : inq ((j, w) :: q) k = (bool_decide (k = j) || inq q k).
Proof. unfold inq. cbn. rewrite <- bool_decide_or. apply bool_decide_ext. apply elem_of_cons. Qed.
Lemma rw_inv_grant_writer σ i k j q : rw_inv σ → (i < n)%nat → rpc σ i = KTry k → acts n σ = 0 → rw_list σ = (j, true) :: q →
  rw_inv (rwgoto i (KGrant k [j]) (with_rwlist q (rwsem_atomic_update 1 σ))).
Proof.
  intros I Hi E Ha Hq. set (σ' := rwgoto i _ _). pose proof (ri_nodup σ I) as Hnd. rewrite Hq in Hnd. cbn in Hnd. apply list.NoDup_cons in Hnd as [Hjq Hnd].
  destruct (ri_queue σ I j true) as [Hcj Htj]; [rewrite Hq; by left|]. assert (Hjn : (j < n)%nat) by (apply (below σ j I); by rewrite Hcj).
  assert (Hcls : ∀ l, rwcls (rpc σ' l) = rwcls (rpc σ l)) by (intros l; cbn; destruct (decide (l = i)) as [->|]; [rewrite upd_at_eq, E; done|by rewrite upd_at_ne]).
  assert (Htk : ∀ l, rtask σ' l = rtask σ l) by (intros l; cbn; destruct (decide (l = i)) as [->|]; [by rewrite upd_at_eq|by rewrite upd_at_ne]).
  assert (Hqj : inq q j = false) by (by apply inq_false). assert (Hql : ∀ l, l ≠ j → inq q l = inq (rw_list σ) l) by (intros l Hne; rewrite Hq, inq_cons, bool_decide_eq_false_2 by done; done).
  assert (Hqj' : inq (rw_list σ) j = true) by (rewrite Hq, inq_cons, bool_decide_eq_true_2 by done; done).
  destruct (counts_change σ σ' j i Hjn Hi) as [Ea Ew]; [done|exact Hql|intros l Hne; cbn; by rewrite upd_at_ne|]. change (rw_list σ') with q in Ea, Ew.
  replace (extra (rpc σ' i)) with false in Ea by (cbn; by rewrite upd_at_eq). rewrite Hcls, Hcj, Hqj, Hqj', E in Ea. rewrite Hcls, Hcj, Hqj, Hqj' in Ew. cbn in Ea, Ew.
  assert (Hh : ∀ l w, holder σ' l = Some w → l = j).
  { intros l w Hl. destruct (decide (l = j)) as [|Hne]; [done|]. unfold holder in Hl. change (rw_list σ') with q in Hl. rewrite Hcls, Hql in Hl by done. change (holder σ l = Some w) in Hl. by rewrite (free_no_holder σ l I Ha) in Hl. }
  apply (rw_inv_list σ σ' i I Hi); try (cbn; rewrite ?upd_at_eq, ?E; done).
  - intros l Hne. cbn. by rewrite upd_at_ne.
  - intros l w Hin. rewrite Hcls, Htk. apply (ri_queue σ I). rewrite Hq. by right.
  - cbn. rewrite upd_at_eq. cbn. apply list.NoDup_singleton.
  - intros l. replace (pending (rpc σ' i)) with [j] by (cbn; by rewrite upd_at_eq). intros ->%list_elem_of_singleton. rewrite Hcls, Htk. change (rw_list σ') with q. eauto.
  - change (rw_count σ') with (s32 (rw_count σ + 1)). rewrite Ea, Ew, (ri_count σ I). pose proof (acts_range σ'). pose proof (waits_range σ').
    replace (acts n σ - 65536 * waits n σ + 1) with (acts n σ' - 65536 * waits n σ') by lia. rewrite count_s32 by lia. lia.
  - intros l m w Hl Hm. by rewrite (Hh l true Hl), (Hh m w Hm).
  - left. lia.
  - intros l w H1 H2 H3. rewrite Hcls in H1. rewrite Htk in H3. change (rw_list σ') with q in H2. replace (pending (rpc σ' i)) with [j] by (cbn; by rewrite upd_at_eq).
    apply list_elem_of_singleton. destruct (decide (l = j)) as [|Hne]; [done|]. exfalso. rewrite Hql in H2 by done. apply (granted_lock σ i l w I); try done; by rewrite E.
Qed.
(** or there are active threads, or the front waiter is a reader. *)
Lemma rw_inv_try σ σ' i k : rw_inv σ → (i < n)%nat → rpc σ i = KTry k → __rwsem_do_wake fixed i (KTry k) σ = Some σ' → rw_inv σ'.
Proof.
  intros I Hi E. cbn [__rwsem_do_wake]. cbv zeta. rewrite (active_acts σ I). change RWSEM_ACTIVE_BIAS with 1. pose proof (ri_front σ I i) as F. rewrite E in F. cbn in F. pose proof (acts_range σ).
  destruct (Z.eqb_spec (acts n σ) 0) as [Ha|Ha]; cbn [negb].
  - cbn [rwsem_atomic_update with_rwcount rw_list]. destruct (rw_list σ) as [|[j [|]] q] eqn:Eq; [done| |]; intros [= <-].
    + by apply rw_inv_grant_writer.
    + assert (Hk : downgrading k = false) by (destruct k; try done; assert (holder σ i = Some false) as Hh by (unfold holder; by rewrite E); by rewrite (free_no_holder σ i I Ha) in Hh).
      assert (Hh : ∀ l, holder (rwgoto i (KReaders k) (rwsem_atomic_update 1 σ)) l = holder σ l).
      { intros l. unfold holder. cbn [rwgoto on_rwthread rwsem_atomic_update with_rwcount rth rw_list]. destruct (decide (l = i)) as [->|]; [by rewrite upd_at_eq, E|by rewrite upd_at_ne]. }
      apply rw_inv_count; rewrite ?E; auto; try done.
      * unfold dacts, dwaits. rewrite E. cbn [rwcls extra]. rewrite Hk. cbn [negb bool2Z]. lia.
      * cbn [front_ok]. split; [exists j, q; cbn; done|]. intros l. rewrite Hh, (free_no_holder σ l I Ha). done.
      * intros _ _. left. unfold dacts. rewrite E. cbn [rwcls extra]. rewrite Hk. cbn [negb bool2Z]. lia.
  - intros [= <-]. apply rw_inv_count; rewrite ?E; auto; try done.
    + unfold dacts, dwaits. rewrite E. cbn [rwcls extra bool2Z]. lia.
    + intros w Hw. left. unfold holder. by rewrite E.
    + intros _ _. left. unfold dacts. rewrite E. cbn [rwcls extra bool2Z]. lia.
Qed.

(** [readers_only] *)
Lemma front_split q : q = ((λ j, (j, false)) <$> front_readers q) ++ drop (length (front_readers q)) q.
Proof. induction q as [|[j [|]] q IH]; cbn; [done|done|]. by f_equal. Qed.
Lemma tally_more l : ∀ p r, NoDup l → (∀ j, j ∈ l → (j < n)%nat ∧ p j = false ∧ r j = true) → (∀ j, j ∉ l → r j = p j) → tally n r = tally n p + Z.of_nat (length l).
Proof.
  induction l as [|j l IH]; intros p r Hnd Hin Hout; [rewrite (tally_same n p r); [cbn; lia|]; intros j _; apply Hout; by intros ?%elem_of_nil|].
  apply list.NoDup_cons in Hnd as [Hj Hnd]. destruct (Hin j ltac:(by left)) as (Hjn & Hpj & Hrj). set (p' := λ k, if decide (k = j) then true else p k).
  rewrite (IH p' r Hnd).
  - rewrite (tally_change n p p' j Hjn) by (intros k Hk; unfold p'; by rewrite decide_False). unfold p'. rewrite decide_True, Hpj by done. cbn. lia.
  - intros k Hk. destruct (Hin k ltac:(by right)) as (? & Hpk & ?). split; [done|]. split; [|done]. unfold p'. rewrite decide_False; [done|]. intros ->. done.
  - intros k Hk. unfold p'. destruct (decide (k = j)) as [->|Hne]; [done|]. apply Hout. rewrite not_elem_of_cons. done.
Qed.
Lemma rw_inv_readers σ σ' i k : rw_inv σ → (i < n)%nat → rpc σ i = KReaders k → __rwsem_do_wake fixed i (KReaders k) σ = Some σ' → rw_inv σ'.
Proof.
  intros I Hi E [= <-]. set (l := front_readers (rw_list σ)). set (σ' := rwgoto i _ _). pose proof (ri_front σ I i) as F. rewrite E in F. destruct F as [(j0 & q0 & Eq0) Hnw].
  set (q := drop (length l) (rw_list σ)) in *. assert (Hsp : rw_list σ = ((λ j, (j, false)) <$> l) ++ q) by apply front_split. assert (Hl0 : l ≠ []) by (unfold l; by rewrite Eq0).
  assert (Hf1 : (rw_list σ).*1 = l ++ q.*1) by (rewrite Hsp at 1; rewrite fmap_app, <- list_fmap_compose; f_equal; clear; induction l; cbn; congruence).
  pose proof (ri_nodup σ I) as Hnd. rewrite Hf1 in Hnd. apply list.NoDup_app in Hnd as (Hndl & Hlq & Hndq).
  assert (Hcls : ∀ j, rwcls (rpc σ' j) = rwcls (rpc σ j)) by (intros j; cbn; destruct (decide (j = i)) as [->|]; [rewrite upd_at_eq, E; done|by rewrite upd_at_ne]).
  assert (Htk : ∀ j, rtask σ' j = rtask σ j) by (intros j; cbn; destruct (decide (j = i)) as [->|]; [by rewrite upd_at_eq|by rewrite upd_at_ne]).
  assert (Hin : ∀ j, j ∈ l → rwcls (rpc σ j) = CWait false ∧ rtask σ j = true ∧ inq (rw_list σ) j = true ∧ inq q j = false).
  { intros j Hj. assert (Hj' : (j, false) ∈ rw_list σ) by (rewrite Hsp; apply elem_of_app; left; apply list_elem_of_fmap; eauto). destruct (ri_queue σ I j false Hj'). split; [done|]. split; [done|]. split; [by apply (inq_elem _ j false)|]. apply inq_false. auto. }
  assert (Hout : ∀ j, j ∉ l → inq q j = inq (rw_list σ) j) by (intros j Hj; unfold inq; apply bool_decide_ext; rewrite Hf1, elem_of_app; naive_solver).
  assert (Ex : tally n (λ j, extra (rpc σ' j)) = tally n (λ j, extra (rpc σ j)) - bool2Z (negb (downgrading k))).
  { rewrite (tally_change n (λ j, extra (rpc σ j)) (λ j, extra (rpc σ' j)) i Hi) by (intros j Hne; cbn; by rewrite upd_at_ne). cbn [σ' rwgoto on_rwthread rth]. rewrite upd_at_eq, E. cbn. lia. }
  assert (Ea : acts n σ' = acts n σ + Z.of_nat (length l) - bool2Z (negb (downgrading k))).
  { unfold acts. rewrite Ex. rewrite (tally_more l (λ j, cact (rwcls (rpc σ j)) (inq (rw_list σ) j)) (λ j, cact (rwcls (rpc σ' j)) (inq (rw_list σ') j)) Hndl); [lia| |].
    - intros j Hj. destruct (Hin j Hj) as (H1 & _ & H3 & H4). change (rw_list σ') with q. rewrite Hcls, H1, H3, H4. split; [|done]. apply (below σ j I). by rewrite H1.
    - intros j Hj. change (rw_list σ') with q. by rewrite Hcls, Hout. }
  assert (Ew : waits n σ = waits n σ' + Z.of_nat (length l)).
  { unfold waits. apply (tally_more l); [done| |].
    - intros j Hj. destruct (Hin j Hj) as (H1 & _ & H3 & H4). change (rw_list σ') with q. rewrite Hcls, H1, H3, H4. split; [|done]. apply (below σ j I). by rewrite H1.
    - intros j Hj. change (rw_list σ') with q. by rewrite Hcls, Hout. }
  assert (Hh : ∀ j, holder σ' j ≠ Some true).
  { intros j. unfold holder. change (rw_list σ') with q. rewrite Hcls. destruct (decide (j ∈ l)) as [Hj|Hj]; [destruct (Hin j Hj) as (-> & _ & _ & ->); done|]. rewrite Hout by done. apply Hnw. }
  assert (Hp : pending (rpc σ' i) = l) by (cbn; by rewrite upd_at_eq).
  apply (rw_inv_list σ σ' i I Hi); rewrite ?Hp; try (cbn; rewrite ?upd_at_eq, ?E; done).
  - intros j Hne. cbn. by rewrite upd_at_ne.
  - intros j w Hj. rewrite Hcls, Htk. apply (ri_queue σ I). rewrite Hsp. apply elem_of_app. by right.
  - intros j Hj. destruct (Hin j Hj) as (H1 & H2 & _ & H4). rewrite Hcls, Htk. eauto.
  - change (rw_count σ') with (s32 (rw_count σ + (Z.of_nat (length l) * (RWSEM_ACTIVE_BIAS - RWSEM_WAITING_BIAS) - (if downgrading k then 0 else RWSEM_ACTIVE_BIAS)))).
    unfold RWSEM_WAITING_BIAS, RWSEM_ACTIVE_BIAS. pose proof (acts_range σ'). pose proof (waits_range σ'). rewrite (ri_count σ I), <- (count_s32 (acts n σ') (waits n σ')) by lia. f_equal. unfold bool2Z in Ea. destruct (downgrading k); cbn [negb] in Ea; lia.
  - intros j m w Hj. by destruct (Hh j).
  - left. pose proof (readers_acts σ i k I E). assert (1 ≤ Z.of_nat (length l)) by (destruct l; [done|cbn; lia]). unfold bool2Z in Ea. destruct (downgrading k); cbn [negb] in Ea; lia.
  - intros j w H1 H2 H3. rewrite Hcls in H1. rewrite Htk in H3. change (rw_list σ') with q in H2. destruct (decide (j ∈ l)) as [|Hne]; [done|]. exfalso. rewrite Hout in H2 by done. apply (granted_lock σ i j w I); try done; by rewrite E.
Qed.

(** A waiter is told that it has the lock; it may be the thread itself. *)
Lemma rw_inv_tell σ i k j rest : rw_inv σ → (i < n)%nat → rpc σ i = KGrant k (j :: rest) → rw_inv (rwgoto i (KWake k j rest) (on_rwthread j (set_rwtask false) σ)).
Proof.
  intros I Hi E. set (σ' := rwgoto i _ _). pose proof (ri_pnodup σ I i) as Hnd. rewrite E in Hnd. apply list.NoDup_cons in Hnd as [Hjr Hnd].
  destruct (ri_pending σ I i j) as (_ & _ & Hqj); [rewrite E; by left|].
  assert (Hpi : rpc σ' i = KWake k j rest) by (cbn; by rewrite upd_at_eq).
  assert (Hpm : ∀ m, m ≠ i → rpc σ' m = rpc σ m) by (intros m Hne; cbn; rewrite upd_at_ne by done; destruct (decide (m = j)) as [->|]; [by rewrite upd_at_eq|by rewrite upd_at_ne]).
  assert (Htj : rtask σ' j = false) by (cbn; destruct (decide (j = i)) as [->|]; [by rewrite !upd_at_eq|by rewrite upd_at_ne, upd_at_eq]).
  assert (Htm : ∀ m, m ≠ j → rtask σ' m = rtask σ m) by (intros m Hne; cbn; destruct (decide (m = i)) as [->|]; [by rewrite upd_at_eq, upd_at_ne|by rewrite !upd_at_ne]).
  assert (Hsm : ∀ m, rsem σ' m = rsem σ m) by (intros m; cbn; unfold upd_at; repeat case_decide; done).
  assert (Hcls : ∀ m, rwcls (rpc σ' m) = rwcls (rpc σ m)) by (intros m; destruct (decide (m = i)) as [->|]; [by rewrite Hpi, E|by rewrite Hpm]).
  assert (Hex : ∀ m, extra (rpc σ' m) = extra (rpc σ m)) by (intros m; destruct (decide (m = i)) as [->|]; [by rewrite Hpi, E|by rewrite Hpm]).
  assert (Hlk : ∀ m, rlocked (rpc σ' m) = rlocked (rpc σ m)) by (intros m; destruct (decide (m = i)) as [->|]; [by rewrite Hpi, E|by rewrite Hpm]).
  assert (Hh : ∀ m, holder σ' m = holder σ m) by (intros m; unfold holder; by rewrite Hcls).
  assert (Ea : acts n σ' = acts n σ) by (unfold acts; f_equal; apply tally_same; intros m _; rewrite ?Hcls, ?Hex; done). assert (Ew : waits n σ' = waits n σ) by (apply tally_same; intros m _; by rewrite Hcls).
  split.
  - intros m Hle. rewrite Hpm by lia. by apply (ri_idle σ I).
  - intros m. rewrite Hlk. apply (ri_lock σ I).
  - apply (ri_nodup σ I).
  - intros m w Hm. change (rw_list σ') with (rw_list σ) in Hm. assert (m ≠ j) by (intros ->; by rewrite (inq_elem _ _ _ Hm) in Hqj). rewrite Hcls, Htm by done. by apply (ri_queue σ I).
  - intros m w Em. destruct (decide (m = j)) as [->|]; [done|]. rewrite Htm by done. apply (ri_out σ I m w). destruct (decide (m = i)) as [->|]; [by rewrite Hpi in Em|by rewrite Hpm in Em].
  - intros m old Em. apply (ri_cas σ I m). destruct (decide (m = i)) as [->|]; [by rewrite Hpi in Em|by rewrite Hpm in Em].
  - intros m. destruct (decide (m = i)) as [->|]; [by rewrite Hpi|]. rewrite Hpm by done. apply (ri_pnodup σ I).
  - intros m p Hp. rewrite Hcls. destruct (decide (m = i)) as [->|Hne].
    + rewrite Hpi in Hp. cbn in Hp. rewrite Htm by (intros ->; done). apply (ri_pending σ I i). rewrite E. by right.
    + rewrite Hpm in Hp by done. destruct (unlocked_pending _ (other_unlocked σ i m I ltac:(by rewrite E) Hne)) as (Ep & _). rewrite Ep in Hp. by apply elem_of_nil in Hp.
  - intros m. destruct (decide (m = i)) as [->|Hne]; [by rewrite Hpi|]. rewrite Hpm by done. apply front_unlocked, (other_unlocked σ i m I); [by rewrite E|done].
  - rewrite Ea, Ew. apply (ri_count σ I).
  - intros m p w. rewrite !Hh. apply (ri_excl σ I).
  - intros m. rewrite Hsm. apply (ri_sem σ I).
  - intros Hfx Hq. rewrite Ea. destruct (ri_cover σ I Hfx Hq) as [?|[m Hm]]; [by left|]. right. exists m. rewrite Hpm; [done|]. intros ->. by rewrite E in Hm.
  - intros m w H1 H2 H3. assert (Hmj : m ≠ j) by (intros ->; by rewrite Htj in H3). rewrite Hcls in H1. rewrite Htm in H3 by done. destruct (ri_granted σ I m w H1 H2 H3) as [p Hp]. exists p.
    destruct (decide (p = i)) as [->|]; [|by rewrite Hpm]. rewrite E in Hp. rewrite Hpi. cbn. by apply elem_of_cons in Hp as [->|].
  - intros m Hs Ht. rewrite Hsm. destruct (decide (m = j)) as [->|Hne]; [right; exists i; by rewrite Hpi|]. rewrite Htm in Ht by done.
    assert (Hs0 : sleeping (rpc σ m) = true) by (destruct (decide (m = i)) as [->|]; [by rewrite Hpi in Hs|by rewrite Hpm in Hs]).
    destruct (ri_woken σ I m Hs0 Ht) as [?|[p Hp]]; [by left|]. right. exists p. rewrite Hpm; [done|]. intros ->. by rewrite E in Hp.
Qed.

(** ** All steps *)

Ltac rwlocal I Hi E := apply (rw_inv_local _ _ _ I Hi); cbn [rwgoto on_rwthread with_rwlock rw_count rw_lock rw_list rth]; rewrite ?upd_at_eq; cbn [set_rwpc set_rwstate rwsem_add rw_pc rw_tsk rw_task tk_sleep_lock]; rewrite ?E; try done;
  try (intros ? ?; by rewrite ?upd_at_ne); try apply (ri_sem _ I).
Lemma lock_same σ σ' i : rw_lock σ' = rw_lock σ → rlocked (rpc σ' i) = rlocked (rpc σ i) → rwlock_step σ σ' i.
Proof. by left. Qed.
Lemma rw_inv_out σ i w : rw_inv σ → (i < n)%nat → rpc σ i = FOut w → rw_inv (rwgoto i (if w then RwWrite else RwRead) (on_rwthread i (set_rwstate TASK_RUNNING) σ)).
Proof.
  intros I Hi E. set (σ' := rwgoto i _ _). assert (Hj : ∀ j, j ≠ i → rth σ' j = rth σ j) by (intros j Hne; cbn; by rewrite !upd_at_ne). pose proof (ri_out σ I i w E) as Ht.
  assert (Ep : rpc σ' i = if w then RwWrite else RwRead) by (cbn; by rewrite upd_at_eq). assert (Ec : rwcls (rpc σ' i) = CHold w) by (rewrite Ep; by destruct w).
  assert (Hq : inq (rw_list σ) i = false) by (destruct (inq (rw_list σ) i) eqn:Eq; [|done]; destruct (queued_wait σ i I Eq) as (? & _ & ? & _); congruence).
  assert (Hpc : rlocked (rpc σ' i) = false ∧ extra (rpc σ' i) = false ∧ pending (rpc σ' i) = [] ∧ target (rpc σ' i) = None ∧ sleeping (rpc σ' i) = false ∧ (∀ o, rpc σ' i ≠ RdCas o) ∧ (∀ w', rpc σ' i ≠ FOut w')) by (rewrite Ep; by destruct w).
  destruct Hpc as (P1 & P2 & P3 & P4 & P5 & P6 & P7). pose proof (acts_goto σ σ' i Hi Hj eq_refl) as Ea. pose proof (waits_goto σ σ' i Hi Hj eq_refl) as Ew. rewrite Ec, E, P2, Hq in Ea. rewrite Ec, E, Hq in Ew. cbn in Ea, Ew. rewrite orb_false_r in Ew.
  apply (rw_inv_goto σ σ' i I Hi Hj); rewrite ?P1, ?P3, ?P4, ?P5, ?Ec, ?E; try done.
  - cbn. by rewrite !upd_at_eq.
  - cbn. rewrite !upd_at_eq. apply (ri_sem σ I).
  - split; [|done]. intros L%(ri_lock σ I). by rewrite E in L.
  - congruence.
  - intros o Eo. by destruct (P6 o).
  - by apply front_unlocked.
  - change (rw_count σ') with (rw_count σ). rewrite (ri_count σ I). lia.
  - intros w'. unfold holder. rewrite Ec, E, Hq. cbn. auto.
  - intros _ _. right. right. split; [done|lia].
Qed.
(** Taking the spin lock *)
Lemma rw_inv_lock σ σ' i pc : rw_inv σ → (i < n)%nat → rwlock i pc σ = Some σ' → rlocked pc = true → rlocked (rpc σ i) = false → rwcls pc = rwcls (rpc σ i) → extra pc = false → pending pc = [] → front_ok σ pc →
  (rw_list σ ≠ [] → waker (rpc σ i) = true → waker pc = true) → rw_inv σ'.
Proof.
  unfold rwlock. intros I Hi El L L' Hc He Hp Hf Hw. destruct (rw_lock σ) eqn:Elk; [done|]. injection El as <-. destruct (unlocked_pending _ L') as (E1 & E2 & E3). destruct (locked_shape _ L) as (S1 & S2 & S3).
  rwlocal I Hi E1; rewrite ?He, ?Hp, ?E1, ?E2, ?E3, ?S1; auto; try done.
  - right. left. split; [done|]. split; [done|]. cbn. by rewrite upd_at_eq.
  - intros w E. by destruct (S2 w).
  - intros w E. by destruct (S3 w).
Qed.

Lemma rw_inv_run σ σ' i : rw_inv σ → rwsem_run fixed i σ = Some σ' → rw_inv σ'.
Proof.
  intros I. assert (Hi : rpc σ i ≠ RwIdle → (i < n)%nat) by (intros H; destruct (decide (i < n)%nat); [done|]; by rewrite (ri_idle σ I) in H by lia).
  unfold rwsem_run. destruct (rpc σ i) as [| | | | | |old| |w|w|w|w|w|w|w|w|w|k|k|k|k [|j rest]|k j rest|k j rest|k| | | | |] eqn:E; try (specialize (Hi ltac:(done))); try done.
  - intros [= <-]. by apply rw_inv_down_read.
  - intros [= <-]. by apply rw_inv_down_write.
  - intros [= <-]. pose proof (rw_inv_read_trylock σ i I Hi (or_introl E)) as H. by rewrite E in H.
  - intros [= <-]. pose proof (rw_inv_read_trylock σ i I Hi (or_intror (ex_intro _ old E))) as H. by rewrite E in H.
  - intros [= <-]. by apply rw_inv_write_trylock.
  - cbn [rwsem_down_failed_common]. intros [= <-]. rwlocal I Hi E. apply lock_same; [done|]. cbn. by rewrite upd_at_eq, E.
  - intros El. apply (rw_inv_lock σ σ' i (FAdjust w) I Hi El); rewrite ?E; done.
  - intros El. pose proof (rw_inv_adjust σ i w I Hi E) as H. by rewrite El in H.
  - cbn [rwsem_down_failed_common]. intros [= <-]. destruct (rtask σ i) eqn:Et; rwlocal I Hi E; try (apply lock_same; [done|]; cbn; by rewrite upd_at_eq, E). by rewrite Et.
  - cbn [rwsem_down_failed_common]. intros [= <-]. destruct (_ =? _); rwlocal I Hi E; apply lock_same; [done| |done|]; cbn; by rewrite upd_at_eq, E.
  - cbn [rwsem_down_failed_common]. intros [= <-]. rwlocal I Hi E. apply lock_same; [done|]. cbn. by rewrite upd_at_eq, E.
  - cbn [rwsem_down_failed_common]. destruct (Z.ltb_spec 0 (rsem σ i)); [|done]. intros [= <-]. rwlocal I Hi E; [cbn; lia|]. apply lock_same; [done|]. cbn. by rewrite upd_at_eq, E.
  - cbn [rwsem_down_failed_common]. intros [= <-]. rwlocal I Hi E. apply lock_same; [done|]. cbn. by rewrite upd_at_eq, E.
  - cbn [rwsem_down_failed_common]. intros [= <-]. by apply rw_inv_out.
  - by apply rw_inv_try.
  - intros El. pose proof (rw_inv_undo σ i k I Hi E) as H. by rewrite El in H.
  - by apply rw_inv_readers.
  - cbn [__rwsem_do_wake]. intros [= <-]. rwlocal I Hi E. apply lock_same; [done|]. cbn. by rewrite upd_at_eq, E.
  - cbn [__rwsem_do_wake]. intros [= <-]. by apply rw_inv_tell.
  - cbn [__rwsem_do_wake]. intros [= <-]. assert (I' : rw_inv (on_rwthread j (set_rwstate TASK_RUNNING) σ)) by (by apply rw_inv_on). assert (E' : rpc (on_rwthread j (set_rwstate TASK_RUNNING) σ) i = KWake k j rest) by (cbn; unfold upd_at; by case_decide).
    apply (rw_inv_local _ _ i I' Hi); rewrite ?E'; cbn [rwgoto on_rwthread rw_count rw_lock rw_list rth]; rewrite ?(upd_at_eq i (set_rwpc _)); try done.
    all: try (intros m Hm; by rewrite upd_at_ne). 1: apply (ri_sem _ I'). 2: intros m [= ->]; by left. apply lock_same; [done|]. rewrite E'. cbn. by rewrite upd_at_eq.
  - cbn [__rwsem_do_wake]. intros [= <-]. assert (I' : rw_inv (on_rwthread j (rwsem_add 1) σ)) by (apply rw_inv_on; [done|done|done|intros t; cbn; lia]). assert (E' : rpc (on_rwthread j (rwsem_add 1) σ) i = KSem k j rest) by (cbn; unfold upd_at; by case_decide).
    apply (rw_inv_local _ _ i I' Hi); rewrite ?E'; cbn [rwgoto on_rwthread rw_count rw_lock rw_list rth]; rewrite ?(upd_at_eq i (set_rwpc _)); try done.
    all: try (intros m Hm; by rewrite upd_at_ne). 1: apply (ri_sem _ I'). 2: { intros m [= ->]. right. pose proof (ri_sem σ I m). unfold upd_at. repeat case_decide; cbn; try lia; done. }
    apply lock_same; [done|]. rewrite E'. cbn. by rewrite upd_at_eq.
  - intros [= <-]. destruct k; rwlocal I Hi E; right; right; (split; [by rewrite E|]); (split; [done|]); cbn; by rewrite upd_at_eq.
  - intros [= <-]. by apply rw_inv_up_read.
  - intros [= <-]. by apply rw_inv_up_write.
  - unfold rwsem_wake. destruct (rw_list σ) eqn:Eq; intros El; eapply (rw_inv_lock σ σ' i _ I Hi El); rewrite ?E, ?Eq; try done. cbn. by rewrite Eq.
  - intros [= <-]. by apply rw_inv_downgrade.
  - unfold rwsem_downgrade_wake. destruct (rw_list σ) as [|[j [|]] q] eqn:Eq; intros El; eapply (rw_inv_lock σ σ' i _ I Hi El); rewrite ?E, ?Eq; try done.
    cbn. rewrite Eq. split; [by exists j, q|]. intros m Hm. assert (m = i) as -> by (apply (ri_excl σ I m i false Hm); unfold holder; by rewrite E). unfold holder in Hm. by rewrite E in Hm.
Qed.
Lemma start_shape pc pc' : rw_may_start pc pc' = true → rwcls pc' = rwcls pc ∧ rlocked pc = false ∧ rlocked pc' = false ∧ extra pc = false ∧ pending pc = [] ∧ waker pc = false ∧ target pc = None ∧
  extra pc' = false ∧ sleeping pc' = false ∧ (∀ w, pc' ≠ FOut w) ∧ (∀ o, pc' ≠ RdCas o).
Proof. by destruct pc; try done; destruct pc'. Qed.
Lemma rw_inv_step σ σ' : rwsem_step fixed n σ σ' → rw_inv σ → rw_inv σ'.
Proof.
  intros [σ0 i pc Hi Hs|σ0 σ1 i E|σ0 i|σ0 i] I.
  - destruct (start_shape _ _ Hs) as (S1 & S2 & S3 & S4 & S5 & S6 & S7 & S8 & S9 & S10 & S11). rwlocal I Hi S1; rewrite ?S4, ?S5, ?S7, ?S8, ?S9; try done.
    + apply lock_same; [done|]. cbn. rewrite upd_at_eq. cbn. congruence.
    + intros w E. by destruct (S10 w).
    + intros o E. by destruct (S11 o).
    + by apply unlocked_pending.
    + by apply front_unlocked.
    + by rewrite S6.
  - by apply (rw_inv_run σ0 σ1 i).
  - by apply rw_inv_on.
  - apply rw_inv_on; [done|done|done|intros t; cbn; lia].
Qed.
Lemma rw_inv_init : rw_inv __init_rwsem.
Proof.
  split; cbn; try done; try (intros; by apply elem_of_nil in H).
  - apply base.NoDup_nil_2.
  - intros i. apply base.NoDup_nil_2.
  - unfold acts, waits. cbn. by rewrite !tally_none.
Qed.
Lemma rw_inv_reachable σ : rtc (rwsem_step fixed n) __init_rwsem σ → rw_inv σ.
Proof.
  intros Hr. apply (rtc_ind_r (R := rwsem_step fixed n) rw_inv __init_rwsem); [apply rw_inv_init| |done]. intros σ1 σ2 _ Hst. by apply rw_inv_step.
Qed.

(** A thread that cannot go on is between two calls, waits for the spin lock or sleeps. *)
Lemma rw_blocked σ i : rw_inv σ → rwsem_run fixed i σ = None →
  (rpc σ i = RwIdle ∨ rpc σ i = RwRead ∨ rpc σ i = RwWrite) ∨ is_Some (rw_lock σ) ∧ rlocked (rpc σ i) = false ∨ (∃ w, rpc σ i = FDown w) ∧ rsem σ i ≤ 0.
Proof.
  intros I. unfold rwsem_run. pose proof (ri_front σ I i) as F. destruct (rpc σ i) as [| | | | | |old| |w|w|w|w|w|w|w|w|w|k|k|k|k [|j rest]|k j rest|k j rest|k| | | | |] eqn:E; auto; cbn [rwsem_down_failed_common __rwsem_do_wake]; try done;
    try (unfold rwsem_wake, rwsem_downgrade_wake, rwlock; destruct (rw_lock σ); [intros _; right; left; eauto|done]).
  - destruct (Z.ltb_spec 0 (rsem σ i)); [done|]. intros _. right. right. eauto.
  - cbn in F. destruct (negb _); [done|]. cbn. by destruct (rw_list σ) as [|[? [|]]].
Qed.
End Inv.

Lemma tally_exists n p : 1 ≤ tally n p → ∃ j, p j = true.
Proof. induction n as [|n IH]; cbn [tally]; [lia|]. destruct (p n) eqn:E; [by exists n|]. cbn. intros. apply IH. lia. Qed.

(** C33: reader-writer semaphores exclude: in every interleaving of [down_read], [down_write], their try
    variants, [up_read], [up_write] and [downgrade_write] by fewer than 2^15 threads, a thread that has the
    lock for writing is the only one that has it.  This holds for the code and for the corrected version. *)
Theorem rwsem_exclusion fixed n (σ : rw_semaphore) : Z.of_nat n < 2 ^ 15 → rtc (rwsem_step fixed n) __init_rwsem σ →
  ∀ i j, rpc σ i = RwWrite → rpc σ j = RwRead ∨ rpc σ j = RwWrite → i = j.
Proof.
  intros Hn Hr i j Ei Ej. pose proof (rw_inv_reachable fixed n Hn σ Hr) as I. destruct Ej as [Ej|Ej]; [apply (ri_excl fixed n σ I i j false)|apply (ri_excl fixed n σ I i j true)]; unfold holder; by rewrite ?Ei, ?Ej.
Qed.

(** With a test of the active part of the counter in the undo path of [__rwsem_do_wake], no wake-up is
    lost: if no thread can go on by itself and one sleeps, somebody has the lock. *)
Theorem rwsem_fixed_no_lost_wakeup n (σ : rw_semaphore) : Z.of_nat n < 2 ^ 15 → rtc (rwsem_step true n) __init_rwsem σ →
  (∀ i, rwsem_run true i σ = None) → ∀ i w, rpc σ i = FDown w → ∃ j, rpc σ j = RwRead ∨ rpc σ j = RwWrite.
Proof.
  intros Hn Hr Hb i w E. pose proof (rw_inv_reachable true n Hn σ Hr) as I.
  assert (Hfree : rw_lock σ = None).
  { destruct (rw_lock σ) as [k|] eqn:El; [|done]. apply (ri_lock true n σ I) in El. destruct (rw_blocked true n σ k I (Hb k)) as [[E1|[E1|E1]]|[[_ E1]|[[w1 E1] _]]]; rewrite E1 in El; done. }
  assert (Hall : ∀ k, (rpc σ k = RwIdle ∨ rpc σ k = RwRead ∨ rpc σ k = RwWrite) ∨ (∃ w, rpc σ k = FDown w) ∧ rsem σ k ≤ 0).
  { intros k. destruct (rw_blocked true n σ k I (Hb k)) as [?|[[[x Hx] _]|?]]; [auto|congruence|auto]. }
  assert (Hunl : ∀ k, pending (rpc σ k) = [] ∧ target (rpc σ k) = None ∧ extra (rpc σ k) = false ∧ waker (rpc σ k) = false).
  { intros k. destruct (Hall k) as [[->|[->| ->]]|[[w' ->] _]]; done. }
  assert (Hq : ∀ k w', rpc σ k = FDown w' → inq (rw_list σ) k = true).
  { intros k w' Ek. destruct (inq (rw_list σ) k) eqn:Eq; [done|]. exfalso. destruct (rtask σ k) eqn:Et.
    - destruct (ri_granted true n σ I k w') as [m Hm]; [by rewrite Ek|done|done|]. destruct (Hunl m) as (Em & _). rewrite Em in Hm. by apply elem_of_nil in Hm.
    - destruct (ri_woken true n σ I k) as [Hs|[m Hm]]; [by rewrite Ek|done| |destruct (Hunl m) as (_ & Em & _); congruence].
      destruct (Hall k) as [[E1|[E1|E1]]|[_ E1]]; try congruence. lia. }
  destruct (ri_cover true n σ I eq_refl) as [Ha|[k Hk]].
  - intros Eq. pose proof (Hq i w E) as Hi. rewrite Eq in Hi. done.
  - unfold acts in Ha. rewrite (tally_none n (λ k, extra (rpc σ k))) in Ha by (intros k; apply (Hunl k)). destruct (tally_exists n (λ k, cact (rwcls (rpc σ k)) (inq (rw_list σ) k))) as [k Hk]; [lia|]. exists k.
    destruct (Hall k) as [[E1|?]|[[w' E1] _]]; [by rewrite E1 in Hk|done|]. by rewrite E1, (Hq k w' E1) in Hk.
  - destruct (Hunl k) as (_ & _ & _ & Ek). congruence.
Qed.

(** Readers 0 and 1 and the writer 2: it waits until both have given the lock back. *)
Definition demo_schedule : list (nat * rwpc + nat) :=
  rw_call 0 RdFast 1 ++ rw_call 1 RdTry 2 ++ rw_call 2 WrFast 7 ++ rw_call 0 RdUp 1 ++ rw_call 1 RdUp 8 ++ replicate 4 (inr 2%nat).
Definition rw_demo (fixed : bool) : rw_semaphore := rwsem_exec fixed demo_schedule __init_rwsem.
Lemma rwsem_exclusion_witness : rpc (rw_demo false) 2 = RwWrite ∧ ∀ j, rpc (rw_demo false) j = RwRead ∨ rpc (rw_demo false) j = RwWrite → 2%nat = j.
Proof.
  assert (H1 : Z.of_nat 3 < 2 ^ 15) by lia. assert (H2 : rtc (rwsem_step false 3) __init_rwsem (rw_demo false)) by (exact (rwsem_exec_reachable false 3 demo_schedule __init_rwsem eq_refl)).
  assert (H3 : rpc (rw_demo false) 2 = RwWrite) by (vm_compute; reflexivity). split; [exact H3|]. intros j. exact (rwsem_exclusion false 3 (rw_demo false) H1 H2 2%nat j H3).
Defined.
(** The writer 1 sleeps while 0 has the lock. *)
Definition sleep_schedule : list (nat * rwpc + nat) := rw_call 0 RdFast 1 ++ rw_call 1 WrFast 7.
Definition rw_sleep : rw_semaphore := rwsem_exec true sleep_schedule __init_rwsem.
Lemma rwsem_fixed_no_lost_wakeup_witness : rpc rw_sleep 1 = FDown true ∧ ∃ j, rpc rw_sleep j = RwRead ∨ rpc rw_sleep j = RwWrite.
Proof.
  assert (H1 : Z.of_nat 2 < 2 ^ 15) by lia. assert (H2 : rtc (rwsem_step true 2) __init_rwsem rw_sleep) by (exact (rwsem_exec_reachable true 2 sleep_schedule __init_rwsem eq_refl)).
  assert (H3 : rpc rw_sleep 1 = FDown true) by (vm_compute; reflexivity). assert (H4 : ∀ i, rwsem_run true i rw_sleep = None) by (intros [|[|i]]; vm_compute; reflexivity).
  split; [exact H3|]. exact (rwsem_fixed_no_lost_wakeup 2 rw_sleep H1 H2 H4 1%nat true H3).
Defined.

(** The code does lose one: no thread has the lock or can go on, and two sleep. *)
Theorem rwsem_lost_wakeup : ∃ σ, rtc (rwsem_step false 4) __init_rwsem σ ∧ (∀ i, rwsem_run false i σ = None) ∧ rpc σ 2 = FDown true ∧ rpc σ 3 = FDown false ∧
  ∀ j, rpc σ j ≠ RwRead ∧ rpc σ j ≠ RwWrite.
Proof.
  exists (rwsem_exec false lost_schedule __init_rwsem). split; [exact (rwsem_exec_reachable false 4 lost_schedule __init_rwsem eq_refl)|].
  split; [intros [|[|[|[|i]]]]; vm_compute; reflexivity|]. split; [vm_compute; reflexivity|]. split; [vm_compute; reflexivity|].
  intros [|[|[|[|i]]]]; vm_compute; done.
Qed.
