(* ===== verification/UsbVdev.v ===== *)
(** Virtual USB devices: arch/dde_kit/usb_vdev.c.

    The driver binds to every USB interface, tells the server about it and submits control
    URBs on its behalf.  Objects are allocated at fresh addresses, and an access to a freed one is a
    fault.  Which allocations succeed, what [usb_submit_urb] answers, and the device of an
    interface are parameters; the core holds a reference to a URB from a successful
    submission until it was given back. *)

From S2P Require Import Prelude UsbVhcd.

Definition USB_CLASS_HUB : Z := 9.
Definition USB_DEVICE_ID_MATCH_DEV_CLASS : Z := 0x0010.
Definition USB_DEVICE_ID_MATCH_INT_CLASS : Z := 0x0080.
Definition USB_REQ_CLEAR_FEATURE : Z := 0x01.
Definition USB_REQ_SET_INTERFACE : Z := 0x0B.
Definition USB_RECIP_INTERFACE : Z := 0x01.
Definition USB_RECIP_ENDPOINT : Z := 0x02.
Definition USB_ENDPOINT_HALT : Z := 0.
Definition USB_DIR_IN : Z := 0x80.

Record usb_device_id := DeviceId { match_flags : Z; bDeviceClass : Z; bInterfaceClass : Z }.
Record vdev := Vdev { v_dev : loc; v_interface : loc; v_device_id : usb_device_id }.
Record urb_context := UrbContext { dev_handle : loc; urb_handle : Z }.
(** The fields of [struct urb] that are set *)
Record vurb := Vurb { vu_dev : option loc; vu_pipe : Z; vu_setup : option (list Z); vu_context : option loc; vu_refcnt : Z }.

(** The calls of the server: a device connects or disconnects, a URB is complete. *)
Inductive vcall := ConnectCb (v : loc) | DisconnectCb (v : option loc) | CompleteCb (dev : loc) (handle : Z).

Record vst := Vst {
  v_tries : nat; v_next : loc;
  vdevs : gmap loc vdev; v_contexts : gmap loc urb_context; v_urbs : gmap loc vurb; v_buffers : Z;
  intfdata : gmap loc loc; intf_refs : loc → Z; dev_refs : loc → Z;
  v_submits : nat; v_calls : list vcall
}.
Definition vset_devs (m : gmap loc vdev) (s : vst) : vst := Vst (v_tries s) (v_next s) m (v_contexts s) (v_urbs s) (v_buffers s) (intfdata s) (intf_refs s) (dev_refs s) (v_submits s) (v_calls s).
Definition vset_contexts (m : gmap loc urb_context) (s : vst) : vst := Vst (v_tries s) (v_next s) (vdevs s) m (v_urbs s) (v_buffers s) (intfdata s) (intf_refs s) (dev_refs s) (v_submits s) (v_calls s).
Definition vset_urbs (m : gmap loc vurb) (s : vst) : vst := Vst (v_tries s) (v_next s) (vdevs s) (v_contexts s) m (v_buffers s) (intfdata s) (intf_refs s) (dev_refs s) (v_submits s) (v_calls s).
Definition vset_intf (m : gmap loc loc) (ir dr : loc → Z) (s : vst) : vst := Vst (v_tries s) (v_next s) (vdevs s) (v_contexts s) (v_urbs s) (v_buffers s) m ir dr (v_submits s) (v_calls s).
Definition vbuffer (s : vst) : vst := Vst (v_tries s) (v_next s) (vdevs s) (v_contexts s) (v_urbs s) (v_buffers s + 1) (intfdata s) (intf_refs s) (dev_refs s) (v_submits s) (v_calls s).
Definition vcb (c : vcall) (s : vst) : vst := Vst (v_tries s) (v_next s) (vdevs s) (v_contexts s) (v_urbs s) (v_buffers s) (intfdata s) (intf_refs s) (dev_refs s) (v_submits s) (v_calls s ++ [c]).
Definition add_ref (l : loc) (d : Z) (f : loc → Z) : loc → Z := λ k, if decide (k = l) then f k + d else f k.

Abbreviation VM := (M vst).

Section Vdev.
Context (mem : nat → bool) (dma : nat → bool) (submit : nat → Z) (interface_to_usbdev : loc → loc) (devnum : loc → Z).

Definition valloc : VM (option loc) := λ s,
  if mem (v_tries s) then Done (Some (v_next s), Vst (S (v_tries s)) (Pos.succ (v_next s)) (vdevs s) (v_contexts s) (v_urbs s) (v_buffers s) (intfdata s) (intf_refs s) (dev_refs s) (v_submits s) (v_calls s))
  else Done (None, Vst (S (v_tries s)) (v_next s) (vdevs s) (v_contexts s) (v_urbs s) (v_buffers s) (intfdata s) (intf_refs s) (dev_refs s) (v_submits s) (v_calls s)).

(** ** Binding *)

Definition is_hub (id : usb_device_id) : bool :=
  (match_flags id =? USB_DEVICE_ID_MATCH_DEV_CLASS) && (bDeviceClass id =? USB_CLASS_HUB) || (match_flags id =? USB_DEVICE_ID_MATCH_INT_CLASS) && (bInterfaceClass id =? USB_CLASS_HUB).
Definition vdev_probe (interface : loc) (id : usb_device_id) : VM Z :=
  if is_hub id then mret (- ENODEV) else
  p ← valloc;
  match p with
  | None => mret (- ENOMEM)
  | Some v =>
      let dev := interface_to_usbdev interface in
      modify (λ s, vset_devs (<[v := Vdev dev interface id]> (vdevs s)) s) ;;
      modify (λ s, vset_intf (<[interface := v]> (intfdata s)) (add_ref interface 1 (intf_refs s)) (add_ref dev 1 (dev_refs s)) s) ;;
      modify (vcb (ConnectCb v)) ;;
      mret 0
  end.
Definition kfree_vdev (p : option loc) : VM unit := λ s,
  match p with
  | None => Done (tt, s)
  | Some v => match vdevs s !! v with Some _ => Done (tt, vset_devs (delete v (vdevs s)) s) | None => Fault FFreed end
  end.
Definition vdev_disconnect (interface : loc) : VM unit :=
  p ← gets (λ s, intfdata s !! interface);
  modify (vcb (DisconnectCb p)) ;;
  kfree_vdev p ;;
  modify (λ s, vset_intf (delete interface (intfdata s)) (add_ref interface (-1) (intf_refs s)) (add_ref (interface_to_usbdev interface) (-1) (dev_refs s)) s).

(** ** URBs *)

Definition get_vurb (u : loc) : VM vurb := λ s, match v_urbs s !! u with Some x => Done (x, s) | None => Fault FFreed end.
Definition put_vurb (u : loc) (x : vurb) : VM unit := modify (λ s, vset_urbs (<[u := x]> (v_urbs s)) s).
Definition with_vrefcnt (n : Z) (x : vurb) : vurb := Vurb (vu_dev x) (vu_pipe x) (vu_setup x) (vu_context x) n.
Definition usb_free_vurb (u : loc) : VM unit :=
  x ← get_vurb u;
  if vu_refcnt x =? 1 then modify (λ s, vset_urbs (delete u (v_urbs s)) s) else put_vurb u (with_vrefcnt (vu_refcnt x - 1) x).
Definition get_context (p : option loc) : VM (loc * urb_context) := λ s,
  match p with
  | None => Fault FNull
  | Some c => match v_contexts s !! c with Some x => Done ((c, x), s) | None => Fault FFreed end
  end.

Definition urb_completion_handler (u : loc) : VM unit :=
  x ← get_vurb u;
  p ← get_context (vu_context x);
  modify (vcb (CompleteCb (dev_handle (snd p)) (urb_handle (snd p)))) ;;
  modify (λ s, vset_contexts (delete (fst p) (v_contexts s)) s) ;;
  usb_free_vurb u.

Definition usb_sndctrlpipe (dev : loc) (endpoint : Z) : Z := Z.lor (u32 (Z.shiftl PIPE_CONTROL 30)) (u32 (Z.lor (Z.shiftl (devnum dev) 8) (Z.shiftl endpoint 15))).
Definition usb_rcvctrlpipe (dev : loc) (endpoint : Z) : Z := Z.lor (usb_sndctrlpipe dev endpoint) USB_DIR_IN.

(** By which [return] the function was left *)
Inductive submitted := SNoMemory | SIgnored | SFailed | SSent (u : loc).
Definition rbyte (data : list Z) (i : nat) : VM Z := match data !! i with Some b => mret b | None => fail FBounds end.
Definition dde_linux26_usb_vdev_submit_control_urb (handle : loc) (endpoint : Z) (direction_input : bool) (urb_handle : Z) (data_size : Z) (data : list Z) : VM submitted :=
  devs ← gets vdevs;
  match devs !! handle with
  | None => fail FFreed
  | Some d =>
      let dev := v_dev d in
      p ← valloc;
      match p with
      | None => mret SNoMemory
      | Some urb =>
          put_vurb urb (Vurb None 0 None None 1) ;;
          q ← valloc;
          match q with
          | None => usb_free_vurb urb ;; mret SNoMemory
          | Some context =>
              modify (λ s, vset_contexts (<[context := UrbContext handle urb_handle]> (v_contexts s)) s) ;;
              put_vurb urb (Vurb (Some dev) 0 None (Some context) 1) ;;
              bRequest ← rbyte data 1;
              bRequestType ← rbyte data 0;
              if (bRequest =? USB_REQ_SET_INTERFACE) && (bRequestType =? USB_RECIP_INTERFACE) then mret SIgnored else
              lo ← rbyte data 2;
              hi ← rbyte data 3;
              if (bRequest =? USB_REQ_CLEAR_FEATURE) && (bRequestType =? USB_RECIP_ENDPOINT) && (lo + 256 * hi =? USB_ENDPOINT_HALT) then mret SIgnored else
              let pipe := if direction_input then usb_rcvctrlpipe dev endpoint else usb_sndctrlpipe dev endpoint in
              n ← gets v_submits;
              if negb (dma n) then fail FNull else
              modify vbuffer ;;
              if (length data <? 8)%nat then fail FBounds else
              put_vurb urb (Vurb (Some dev) pipe (Some (take 8 data)) (Some context) 1) ;;
              modify (λ s, Vst (v_tries s) (v_next s) (vdevs s) (v_contexts s) (v_urbs s) (v_buffers s) (intfdata s) (intf_refs s) (dev_refs s) (S n) (v_calls s)) ;;
              if submit n =? 0 then put_vurb urb (Vurb (Some dev) pipe (Some (take 8 data)) (Some context) 2) ;; mret (SSent urb) else mret SFailed
          end
      end
  end.
(** The core gives a URB back. *)
Definition give_back (u : loc) : VM unit := urb_completion_handler u ;; usb_free_vurb u.

(** ** Runs *)

Inductive vop :=
| OProbe (i : loc) (id : usb_device_id)
| ODisconnect (i : loc)
| OSubmit (v : loc) (endpoint : Z) (din : bool) (handle size : Z) (data : list Z)
| OGiveBack (u : loc).
(** The state, the URBs that are under way with the handles of their submission, and how many URBs have been lost *)
Record vworld := VWorld { vs : vst; in_flight : gmap loc (loc * Z); lost : Z }.
Definition vstep (w : vworld) (o : vop) : outcome vworld :=
  match o with
  | OProbe i id => match vdev_probe i id (vs w) with Done (_, s) => Done (VWorld s (in_flight w) (lost w)) | Fault f => Fault f end
  | ODisconnect i => match vdev_disconnect i (vs w) with Done (_, s) => Done (VWorld s (in_flight w) (lost w)) | Fault f => Fault f end
  | OSubmit v e d h z l =>
      match dde_linux26_usb_vdev_submit_control_urb v e d h z l (vs w) with
      | Done (SSent u, s) => Done (VWorld s (<[u := (v, h)]> (in_flight w)) (lost w))
      | Done (SNoMemory, s) => Done (VWorld s (in_flight w) (lost w))
      | Done (_, s) => Done (VWorld s (in_flight w) (lost w + 1))
      | Fault f => Fault f
      end
  | OGiveBack u => match give_back u (vs w) with Done (_, s) => Done (VWorld s (delete u (in_flight w)) (lost w)) | Fault f => Fault f end
  end.
(** What the core and the server guarantee: an interface is bound once, URBs are submitted for
    connected devices with a complete request, and only URBs under way are given back. *)
Definition vop_ok (w : vworld) (o : vop) : Prop :=
  match o with
  | OProbe i _ => intfdata (vs w) !! i = None
  | ODisconnect i => is_Some (intfdata (vs w) !! i)
  | OSubmit v _ _ _ _ data => is_Some (vdevs (vs w) !! v) ∧ (8 ≤ length data)%nat
  | OGiveBack u => is_Some (in_flight w !! u)
  end.
Definition vinit : vworld := VWorld (Vst 0 1%positive ∅ ∅ ∅ 0 ∅ (λ _, 0) (λ _, 0) 0 []) ∅ 0.
Inductive vreach : vworld → Prop :=
| vreach_init : vreach vinit
| vreach_step w w' o : vreach w → vop_ok w o → vstep w o = Done w' → vreach w'.

(** ** Accounting *)

Definition bound_to (d : loc) (m : gmap loc loc) : Z := Z.of_nat (size (filter (λ p : loc * loc, interface_to_usbdev (fst p) = d) m)).
Record vinv (w : vworld) : Prop := {
  vi_dev_fresh k : is_Some (vdevs (vs w) !! k) → (k < v_next (vs w))%positive;
  vi_urb_fresh k : is_Some (v_urbs (vs w) !! k) → (k < v_next (vs w))%positive;
  vi_ctx_fresh k : is_Some (v_contexts (vs w) !! k) → (k < v_next (vs w))%positive;
  vi_urb u x : v_urbs (vs w) !! u = Some x → ∃ c ctx, vu_context x = Some c ∧ v_contexts (vs w) !! c = Some ctx ∧
    match in_flight w !! u with Some h => vu_refcnt x = 2 ∧ ctx = UrbContext (fst h) (snd h) | None => vu_refcnt x = 1 end;
  vi_inj u u' x x' : v_urbs (vs w) !! u = Some x → v_urbs (vs w) !! u' = Some x' → vu_context x = vu_context x' → u = u';
  vi_flight u : is_Some (in_flight w !! u) → is_Some (v_urbs (vs w) !! u);
  vi_urbs : Z.of_nat (size (v_urbs (vs w))) = Z.of_nat (size (in_flight w)) + lost w;
  vi_ctxs : size (v_contexts (vs w)) = size (v_urbs (vs w));
  vi_bufs : v_buffers (vs w) = Z.of_nat (v_submits (vs w));
  vi_bound i v : intfdata (vs w) !! i = Some v → ∃ x, vdevs (vs w) !! v = Some x ∧ v_interface x = i;
  vi_dev v x : vdevs (vs w) !! v = Some x → intfdata (vs w) !! v_interface x = Some v ∧ v_dev x = interface_to_usbdev (v_interface x);
  vi_irefs i : intf_refs (vs w) i = match intfdata (vs w) !! i with Some _ => 1 | None => 0 end;
  vi_drefs d : dev_refs (vs w) d = bound_to d (intfdata (vs w));
}.
Lemma vinv_init : vinv vinit.
Proof.
  split; cbn; try done; try (intros; rewrite lookup_empty in *; (done || by destruct H)).
Qed.
Lemma bound_insert d i v m : m !! i = None → bound_to d (<[i := v]> m) = bound_to d m + (if decide (interface_to_usbdev i = d) then 1 else 0).
Proof.
  intros Hi. unfold bound_to. case_decide as H.
  - rewrite map_filter_insert_True by done. rewrite map_size_insert_None; [lia|]. apply map_lookup_filter_None. by left.
  - rewrite map_filter_insert_not by done. lia.
Qed.
Lemma bound_delete d i m : is_Some (m !! i) → bound_to d (delete i m) = bound_to d m - (if decide (interface_to_usbdev i = d) then 1 else 0).
Proof. intros [v Hv]. rewrite <- (insert_delete_id m i v Hv) at 2. rewrite bound_insert by apply lookup_delete_eq. lia. Qed.

Definition vtried (next : loc) (s : vst) : vst := Vst (S (v_tries s)) next (vdevs s) (v_contexts s) (v_urbs s) (v_buffers s) (intfdata s) (intf_refs s) (dev_refs s) (v_submits s) (v_calls s).
Lemma valloc_run s : valloc s = if mem (v_tries s) then Done (Some (v_next s), vtried (Pos.succ (v_next s)) s) else Done (None, vtried (v_next s) s).
Proof. done. Qed.
(** What the paths through a submission leave *)
Definition same_devs (s s' : vst) : Prop := vdevs s' = vdevs s ∧ intfdata s' = intfdata s ∧ intf_refs s' = intf_refs s ∧ dev_refs s' = dev_refs s ∧ v_calls s' = v_calls s ∧ (v_next s ≤ v_next s')%positive.
Definition new_urb (s s' : vst) (v : loc) (h refs : Z) (sent : nat) : Prop :=
  ∃ x, v_urbs s' = <[v_next s := x]> (v_urbs s) ∧ vu_context x = Some (Pos.succ (v_next s)) ∧ vu_refcnt x = refs ∧ v_contexts s' = <[Pos.succ (v_next s) := UrbContext v h]> (v_contexts s) ∧
    v_next s' = Pos.succ (Pos.succ (v_next s)) ∧ v_submits s' = (v_submits s + sent)%nat ∧ v_buffers s' = v_buffers s + Z.of_nat sent.
Definition submit_post (s s' : vst) (v : loc) (h : Z) (r : submitted) : Prop :=
  match r with
  | SNoMemory => v_urbs s' = v_urbs s ∧ v_contexts s' = v_contexts s ∧ v_submits s' = v_submits s ∧ v_buffers s' = v_buffers s
  | SIgnored => new_urb s s' v h 1 0
  | SFailed => new_urb s s' v h 1 1
  | SSent u => u = v_next s ∧ new_urb s s' v h 2 1
  end.
Lemma submit_run v e d h z data s : is_Some (vdevs s !! v) → (8 ≤ length data)%nat → (∀ n, dma n = true) → v_urbs s !! v_next s = None →
  ∃ r s', dde_linux26_usb_vdev_submit_control_urb v e d h z data s = Done (r, s') ∧ same_devs s s' ∧ submit_post s s' v h r.
Proof.
  intros [x Hx] Hd Hdma Hf. destruct data as [|b0 [|b1 [|b2 [|b3 [|b4 [|b5 [|b6 [|b7 data]]]]]]]]; try (cbn in Hd; lia). unfold dde_linux26_usb_vdev_submit_control_urb.
  rewrite (run_bind _ _ s (vdevs s) s eq_refl), Hx. pose proof (valloc_run s) as Ev. destruct (mem (v_tries s)); rewrite (run_bind _ _ _ _ _ Ev); clear Ev.
  2: { eexists SNoMemory, _. split; [reflexivity|]. split; [repeat split; cbn; lia|done]. }
  set (s1 := vtried _ s). set (s2 := vset_urbs (<[v_next s := Vurb None 0 None None 1]> (v_urbs s)) s1). rewrite (run_bind _ _ s1 tt s2 eq_refl).
  pose proof (valloc_run s2) as Ev. destruct (mem (v_tries s2)); rewrite (run_bind _ _ _ _ _ Ev); clear Ev.
  2: { set (s3 := vtried _ s2). assert (E : usb_free_vurb (v_next s) s3 = Done (tt, vset_urbs (v_urbs s) s3)).
    { unfold usb_free_vurb. rewrite (run_bind _ _ s3 (Vurb None 0 None None 1) s3); [|unfold get_vurb; cbn; by rewrite lookup_insert_eq]. cbn. unfold modify. cbn. by rewrite delete_insert_eq, delete_id by done. }
    rewrite (run_bind _ _ _ _ _ E). eexists SNoMemory, _. split; [reflexivity|]. split; [repeat split; cbn; lia|done]. }
  set (s3 := vtried _ s2). set (c := Pos.succ (v_next s)). change (v_next s2) with c. set (s4 := vset_contexts (<[c := UrbContext v h]> (v_contexts s)) s3). rewrite (run_bind _ _ s3 tt s4 eq_refl).
  set (s5 := vset_urbs (<[v_next s := Vurb (Some (v_dev x)) 0 None (Some c) 1]> (v_urbs s4)) s4). rewrite (run_bind _ _ s4 tt s5 eq_refl), (run_bind _ _ s5 b1 s5 eq_refl), (run_bind _ _ s5 b0 s5 eq_refl).
  assert (Hig : ∃ r s', (mret SIgnored : VM submitted) s5 = Done (r, s') ∧ same_devs s s' ∧ submit_post s s' v h r).
  { eexists SIgnored, s5. split; [reflexivity|]. split; [repeat split; cbn; lia|]. eexists. split; [cbn; apply insert_insert_eq|]. split; [done|]. split; [done|]. split; [done|]. split; [done|]. split; cbn; lia. }
  destruct (_ && _); [exact Hig|]. rewrite (run_bind _ _ s5 b2 s5 eq_refl), (run_bind _ _ s5 b3 s5 eq_refl). destruct (_ && _); [exact Hig|]. clear Hig.
  rewrite (run_bind _ _ s5 (v_submits s) s5 eq_refl), Hdma. cbn [negb]. rewrite (run_bind _ _ s5 tt (vbuffer s5) eq_refl). cbn [length Nat.ltb Nat.leb]. set (pipe := if d then _ else _). set (setup := Some (take 8 _)).
  set (s6 := vset_urbs (<[v_next s := Vurb (Some (v_dev x)) pipe setup (Some c) 1]> (v_urbs s5)) (vbuffer s5)). rewrite (run_bind _ _ (vbuffer s5) tt s6 eq_refl). unfold modify at 1, mbind at 1, M_bind at 1. set (s7 := Vst _ _ _ _ _ _ _ _ _ _ _).
  destruct (submit (v_submits s) =? 0).
  - set (s8 := vset_urbs (<[v_next s := Vurb (Some (v_dev x)) pipe setup (Some c) 2]> (v_urbs s7)) s7). rewrite (run_bind _ _ s7 tt s8 eq_refl). eexists (SSent _), s8. split; [reflexivity|]. split; [repeat split; cbn; lia|].
    split; [done|]. eexists. split; [cbn; rewrite !insert_insert_eq; reflexivity|]. split; [done|]. split; [done|]. split; [done|]. split; [done|]. split; cbn; lia.
  - eexists SFailed, s7. split; [reflexivity|]. split; [repeat split; cbn; lia|]. eexists. split; [cbn; rewrite !insert_insert_eq; reflexivity|]. split; [done|]. split; [done|]. split; [done|]. split; [done|]. split; cbn; lia.
Qed.

Lemma give_back_run u x c ctx s : v_urbs s !! u = Some x → vu_context x = Some c → v_contexts s !! c = Some ctx → vu_refcnt x = 2 →
  give_back u s = Done (tt, vset_urbs (delete u (v_urbs s)) (vset_contexts (delete c (v_contexts s)) (vcb (CompleteCb (dev_handle ctx) (urb_handle ctx)) s))).
Proof.
  intros Hu Hc Hx Hr. unfold give_back. set (s1 := vset_contexts _ _).
  assert (E : urb_completion_handler u s = Done (tt, vset_urbs (<[u := with_vrefcnt 1 x]> (v_urbs s)) s1)).
  { unfold urb_completion_handler. rewrite (run_bind _ _ s x s) by (unfold get_vurb; by rewrite Hu). rewrite (run_bind _ _ s (c, ctx) s) by (unfold get_context; by rewrite Hc, Hx).
    rewrite (run_bind _ _ s tt (vcb (CompleteCb (dev_handle ctx) (urb_handle ctx)) s) eq_refl), (run_bind _ _ _ tt s1 eq_refl). unfold usb_free_vurb. rewrite (run_bind _ _ s1 x s1) by (unfold get_vurb; cbn; by rewrite Hu). by rewrite Hr. }
  rewrite (run_bind _ _ _ _ _ E). set (s2 := vset_urbs _ s1). unfold usb_free_vurb. rewrite (run_bind _ _ s2 (with_vrefcnt 1 x) s2) by (unfold get_vurb; cbn; by rewrite lookup_insert_eq). cbn. unfold modify. cbn. by rewrite delete_insert_eq.
Qed.

(** ** Every operation keeps the books *)

Lemma vinv_probe w i id : vinv w → intfdata (vs w) !! i = None → ∃ r s', vdev_probe i id (vs w) = Done (r, s') ∧ vinv (VWorld s' (in_flight w) (lost w)).
Proof.
  intros I Hi. unfold vdev_probe. destruct (is_hub id); [eexists _, _; split; [reflexivity|]; by destruct w|]. pose proof (valloc_run (vs w)) as Ev. destruct (mem (v_tries (vs w))); rewrite (run_bind _ _ _ _ _ Ev); clear Ev.
  2: { eexists _, _. split; [reflexivity|]. destruct I. split; cbn; auto. }
  set (v := v_next (vs w)). assert (Hv : vdevs (vs w) !! v = None) by (destruct (vdevs (vs w) !! v) eqn:E; [|done]; pose proof (vi_dev_fresh w I v ltac:(eauto)); unfold v in *; lia).
  eexists _, _. split; [reflexivity|]. destruct I as [H1 H2 H3 H4 H5 H6 H7 H8 H9 H10 H11 H12 H13]. split; cbn; auto.
  - intros k. destruct (decide (k = v)) as [->|]; [intros _; unfold v; lia|]. rewrite lookup_insert_ne by done. intros Hk. pose proof (H1 k Hk). lia.
  - intros k Hk. pose proof (H2 k Hk). lia.
  - intros k Hk. pose proof (H3 k Hk). lia.
  - intros j u. destruct (decide (j = i)) as [->|]; [rewrite lookup_insert_eq; intros [= <-]; eexists; by rewrite lookup_insert_eq|]. rewrite lookup_insert_ne by done. intros Hj. destruct (H10 j u Hj) as (x & Hx & ?). exists x.
    rewrite lookup_insert_ne; [done|]. intros ->. congruence.
  - intros u x. destruct (decide (u = v)) as [->|]; [rewrite lookup_insert_eq; intros [= <-]; cbn; by rewrite lookup_insert_eq|]. rewrite lookup_insert_ne by done. intros Hx. destruct (H11 u x Hx) as [Hy ?]. rewrite lookup_insert_ne; [done|]. intros E. rewrite <- E in Hy. congruence.
  - intros j. unfold add_ref. case_decide as E; [subst; rewrite lookup_insert_eq, H12, Hi; done|]. by rewrite lookup_insert_ne.
  - intros d. rewrite bound_insert by done. unfold add_ref. rewrite H13. destruct (decide (d = interface_to_usbdev i)); destruct (decide (interface_to_usbdev i = d)); (congruence || lia).
Qed.
Lemma vinv_disconnect w i : vinv w → is_Some (intfdata (vs w) !! i) → ∃ s', vdev_disconnect i (vs w) = Done (tt, s') ∧ vinv (VWorld s' (in_flight w) (lost w)).
Proof.
  intros I [v Hv]. destruct (vi_bound w I i v Hv) as (x & Hx & Hxi). unfold vdev_disconnect. rewrite (run_bind _ _ (vs w) (Some v) (vs w)) by (unfold gets; by rewrite Hv). set (s1 := vcb (DisconnectCb (Some v)) (vs w)). rewrite (run_bind _ _ _ tt s1 eq_refl).
  rewrite (run_bind _ _ s1 tt (vset_devs (delete v (vdevs (vs w))) s1)) by (unfold kfree_vdev; cbn; by rewrite Hx). eexists. split; [reflexivity|].
  destruct I as [H1 H2 H3 H4 H5 H6 H7 H8 H9 H10 H11 H12 H13]. split; cbn; auto.
  - intros k [y Hy]. apply lookup_delete_Some in Hy as [_ Hy]. eauto.
  - intros j u [Hne Hj]%lookup_delete_Some. destruct (H10 j u Hj) as (y & Hy & Hyi). exists y. split; [|done]. apply lookup_delete_Some. split; [|done]. intros <-. congruence.
  - intros u y [Hne Hy]%lookup_delete_Some. destruct (H11 u y Hy) as [Hyu Hyd]. split; [|done]. apply lookup_delete_Some. split; [|done]. intros E. rewrite <- E in Hyu. congruence.
  - intros j. unfold add_ref. case_decide as E; [subst j; rewrite lookup_delete_eq, H12, Hv; done|]. by rewrite lookup_delete_ne.
  - intros d. rewrite bound_delete by eauto. unfold add_ref. rewrite H13. destruct (decide (d = interface_to_usbdev i)); destruct (decide (interface_to_usbdev i = d)); (congruence || lia).
Qed.

Lemma vinv_new_urb w s' v h refs sent fl l : vinv w → same_devs (vs w) s' → new_urb (vs w) s' v h refs sent →
  (refs = 2 ∧ fl = <[v_next (vs w) := (v, h)]> (in_flight w) ∧ l = lost w ∨ refs = 1 ∧ fl = in_flight w ∧ l = lost w + 1) → vinv (VWorld s' fl l).
Proof.
  intros I (D1 & D2 & D3 & D4 & _ & _) (x & N1 & N2 & N3 & N4 & N5 & N6 & N7) Hfl. set (u := v_next (vs w)) in *.
  assert (Hu : v_urbs (vs w) !! u = None) by (destruct (v_urbs (vs w) !! u) eqn:E; [|done]; pose proof (vi_urb_fresh w I u ltac:(eauto)); unfold u in *; lia).
  assert (Hc : ∀ k, (u ≤ k)%positive → v_contexts (vs w) !! k = None) by (intros k Hk; destruct (v_contexts (vs w) !! k) eqn:E; [|done]; pose proof (vi_ctx_fresh w I k ltac:(eauto)); unfold u in *; lia).
  assert (Hf : in_flight w !! u = None) by (destruct (in_flight w !! u) eqn:E; [|done]; destruct (vi_flight w I u ltac:(eauto)); congruence).
  assert (Hfl' : (∀ k, k ≠ u → fl !! k = in_flight w !! k) ∧ Z.of_nat (size fl) + l = Z.of_nat (size (in_flight w)) + lost w + 1 ∧ match fl !! u with Some p => refs = 2 ∧ p = (v, h) | None => refs = 1 end).
  { destruct Hfl as [(-> & -> & ->)|(-> & -> & ->)]; [|split; [done|split; [lia|by rewrite Hf]]]. split; [intros k Hk; by rewrite lookup_insert_ne|]. rewrite map_size_insert_None, lookup_insert_eq by done. split; [lia|done]. }
  destruct Hfl' as (F1 & F2 & F3). destruct I as [H1 H2 H3 H4 H5 H6 H7 H8 H9 H10 H11 H12 H13]. split; cbn [vs in_flight lost]; rewrite ?D1, ?D2, ?D3, ?D4, ?N5; auto.
  - intros k Hk. pose proof (H1 k Hk). unfold u in *. lia.
  - intros k. rewrite N1. destruct (decide (k = u)) as [->|]; [lia|]. rewrite lookup_insert_ne by done. intros Hk. pose proof (H2 k Hk). unfold u in *. lia.
  - intros k. rewrite N4. destruct (decide (k = Pos.succ u)) as [->|]; [lia|]. rewrite lookup_insert_ne by done. intros Hk. pose proof (H3 k Hk). unfold u in *. lia.
  - intros k y. rewrite N1, N4. destruct (decide (k = u)) as [->|Hne].
    + rewrite lookup_insert_eq. intros [= <-]. exists (Pos.succ u), (UrbContext v h). rewrite lookup_insert_eq. split; [done|]. split; [done|]. destruct (fl !! u); [|congruence]. destruct F3 as [-> ->]. done.
    + rewrite lookup_insert_ne by done. intros Hy. destruct (H4 k y Hy) as (c & ctx & Hc1 & Hc2 & Hc3). exists c, ctx. rewrite F1 by done. split; [done|]. split; [|done]. rewrite lookup_insert_ne; [done|]. intros <-. rewrite Hc in Hc2 by lia. done.
  - intros k k' y y'. rewrite N1.
    assert (Hold : ∀ k y, v_urbs (vs w) !! k = Some y → vu_context y ≠ Some (Pos.succ u)) by (intros m z Hz Ez; destruct (H4 m z Hz) as (c & ctx & Hc1 & Hc2 & _); assert (c = Pos.succ u) as -> by congruence; rewrite Hc in Hc2 by lia; done).
    destruct (decide (k = u)) as [->|], (decide (k' = u)) as [->|]; [done|rewrite lookup_insert_eq, lookup_insert_ne by done|rewrite lookup_insert_eq, lookup_insert_ne by done|rewrite !lookup_insert_ne by done; eauto].
    + intros [= <-] Hy' E. rewrite N2 in E. by destruct (Hold k' y').
    + intros Hy [= <-] E. rewrite N2 in E. by destruct (Hold k y).
  - intros k. rewrite N1. destruct (decide (k = u)) as [->|]; [rewrite lookup_insert_eq; eauto|]. rewrite F1, lookup_insert_ne by done. apply H6.
  - rewrite N1, map_size_insert_None by done. lia.
  - rewrite N1, N4, !map_size_insert_None by (done || apply Hc; lia). lia.
  - rewrite N6, N7. lia.
Qed.
Lemma vinv_give_back w u : vinv w → is_Some (in_flight w !! u) → ∃ s' h, give_back u (vs w) = Done (tt, s') ∧ in_flight w !! u = Some h ∧ v_calls s' = v_calls (vs w) ++ [CompleteCb (fst h) (snd h)] ∧ vinv (VWorld s' (delete u (in_flight w)) (lost w)).
Proof.
  intros I [h Hh]. destruct (vi_flight w I u ltac:(eauto)) as [x Hx]. destruct (vi_urb w I u x Hx) as (c & ctx & Hc & Hctx & Hr). rewrite Hh in Hr. destruct Hr as [Hr ->]. rewrite (give_back_run u x c _ (vs w) Hx Hc Hctx Hr). eexists _, h. split; [reflexivity|]. split; [done|]. split; [done|].
  destruct I as [H1 H2 H3 H4 H5 H6 H7 H8 H9 H10 H11 H12 H13]. split; cbn [vs in_flight lost vset_urbs vset_contexts vcb v_tries v_next vdevs v_contexts v_urbs v_buffers intfdata intf_refs dev_refs v_submits v_calls]; auto.
  - intros k [y Hy]. apply lookup_delete_Some in Hy as [_ Hy]. eauto.
  - intros k [y Hy]. apply lookup_delete_Some in Hy as [_ Hy]. eauto.
  - intros k y [Hne Hy]%lookup_delete_Some. destruct (H4 k y Hy) as (c' & ctx' & Hc1 & Hc2 & Hc3). exists c', ctx'. rewrite (lookup_delete_ne (in_flight w)) by done. split; [done|]. split; [|done]. apply lookup_delete_Some. split; [|done]. intros <-. apply Hne. apply (H5 u k x y Hx Hy). congruence.
  - intros k k' y y' [_ Hy]%lookup_delete_Some [_ Hy']%lookup_delete_Some. eauto.
  - intros k [y Hy]. apply lookup_delete_Some in Hy as [Hne Hy]. destruct (H6 k ltac:(eauto)) as [z Hz]. exists z. by apply lookup_delete_Some.
  - pose proof (map_size_ne_0_lookup_2 (in_flight w) u ltac:(eauto)). pose proof (map_size_ne_0_lookup_2 (v_urbs (vs w)) u ltac:(eauto)). rewrite !map_size_delete_Some by eauto. lia.
  - rewrite !map_size_delete_Some by eauto. lia.
Qed.

Lemma vstep_ok w o : (∀ n, dma n = true) → vinv w → vop_ok w o → ∃ w', vstep w o = Done w' ∧ vinv w'.
Proof.
  intros Hdma I Ho. destruct o as [i id|i|v e d h z data|u]; cbn [vop_ok vstep] in *.
  - destruct (vinv_probe w i id I Ho) as (r & s' & -> & I'). eauto.
  - destruct (vinv_disconnect w i I Ho) as (s' & -> & I'). eauto.
  - destruct Ho as [Hv Hd]. assert (Hf : v_urbs (vs w) !! v_next (vs w) = None) by (destruct (v_urbs (vs w) !! v_next (vs w)) eqn:E; [|done]; pose proof (vi_urb_fresh w I (v_next (vs w)) ltac:(eauto)); lia).
    destruct (submit_run v e d h z data (vs w) Hv Hd Hdma Hf) as (r & s' & -> & Hs & Hp). destruct r as [| | |u]; cbn [submit_post] in Hp.
    + destruct Hs as (D1 & D2 & D3 & D4 & D5 & D6), Hp as (P1 & P2 & P3 & P4). eexists. split; [reflexivity|]. destruct I as [H1 H2 H3 H4 H5 H6 H7 H8 H9 H10 H11 H12 H13].
      split; cbn [vs in_flight lost]; rewrite ?D1, ?D2, ?D3, ?D4, ?P1, ?P2, ?P3, ?P4; auto; intros k Hk; [pose proof (H1 k Hk)|pose proof (H2 k Hk)|pose proof (H3 k Hk)]; lia.
    + eexists. split; [reflexivity|]. eapply vinv_new_urb; eauto.
    + eexists. split; [reflexivity|]. eapply vinv_new_urb; eauto.
    + destruct Hp as [-> Hp]. eexists. split; [reflexivity|]. eapply vinv_new_urb; eauto.
  - destruct (vinv_give_back w u I Ho) as (s' & h & -> & _ & _ & I'). eauto.
Qed.
Lemma vinv_reach w : (∀ n, dma n = true) → vreach w → vinv w.
Proof. intros Hdma. induction 1 as [|w w' o Hr IH Ho E]; [apply vinv_init|]. destruct (vstep_ok w o Hdma IH Ho) as (w1 & E1 & I1). congruence. Qed.

(** C34: the books of the virtual USB devices: as long as setup buffers can be allocated, every sequence of
    binding, unbinding, submissions and completions runs without a fault; a completed URB is reported once with the
    handles of its submission; the URBs and contexts in memory are those under way and those that
    were lost, because a request was not implemented or was refused; and once all
    devices are gone and no URB is under way, all references are given back and every setup buffer that was ever
    allocated is still there. *)
Theorem vdev_accounting : (∀ n, dma n = true) → ∀ w, vreach w →
  (∀ o, vop_ok w o → ∃ w', vstep w o = Done w') ∧
  (∀ u h, in_flight w !! u = Some h → ∃ s', give_back u (vs w) = Done (tt, s') ∧ v_calls s' = v_calls (vs w) ++ [CompleteCb (fst h) (snd h)]) ∧
  Z.of_nat (size (v_urbs (vs w))) = Z.of_nat (size (in_flight w)) + lost w ∧ size (v_contexts (vs w)) = size (v_urbs (vs w)) ∧
  (intfdata (vs w) = ∅ → in_flight w = ∅ →
    vdevs (vs w) = ∅ ∧ (∀ i, intf_refs (vs w) i = 0) ∧ (∀ d, dev_refs (vs w) d = 0) ∧ Z.of_nat (size (v_urbs (vs w))) = lost w ∧ v_buffers (vs w) = Z.of_nat (v_submits (vs w))).
Proof.
  intros Hdma w Hr. pose proof (vinv_reach w Hdma Hr) as I. split; [intros o Ho; destruct (vstep_ok w o Hdma I Ho) as (w' & E & _); eauto|].
  split; [intros u h Hh; destruct (vinv_give_back w u I ltac:(eauto)) as (s' & h' & E & Eh & Ec & _); exists s'; split; [done|]; congruence|].
  split; [apply (vi_urbs w I)|]. split; [apply (vi_ctxs w I)|]. intros Hi Hf. pose proof (vi_urbs w I) as Hu. rewrite Hf, map_size_empty in Hu. repeat split; [| | |lia|apply (vi_bufs w I)].
  - apply map_eq. intros v. rewrite lookup_empty. destruct (vdevs (vs w) !! v) as [x|] eqn:E; [|done]. destruct (vi_dev w I v x E) as [H _]. by rewrite Hi, lookup_empty in H.
  - intros i. by rewrite (vi_irefs w I), Hi, lookup_empty.
  - intros d. by rewrite (vi_drefs w I), Hi.
Qed.
End Vdev.

(** A device is connected, a request is sent and completed, a request that is not implemented is made, and the device goes. *)
Definition demo_ops : list vop :=
  [OProbe 7%positive (DeviceId 0 0 0); OSubmit 1%positive 0 true 42 8 [0x80; 6; 0; 1; 0; 0; 18; 0]; OSubmit 1%positive 0 false 43 8 [1; 11; 1; 0; 0; 0; 0; 0]; OGiveBack 2%positive; ODisconnect 7%positive].
#[global] Instance vop_ok_dec w o : Decision (vop_ok w o).
Proof. destruct o; apply _. Defined.
Abbreviation demo_step := (vstep (λ _, true) (λ _, true) (λ _, 0) Pos.succ (λ _, 3)).
Fixpoint vrun (ops : list vop) (w : vworld) : option vworld :=
  match ops with
  | [] => Some w
  | o :: ops => if decide (vop_ok w o) then match demo_step w o with Done w' => vrun ops w' | Fault _ => None end else None
  end.
Abbreviation demo_reach := (vreach (λ _, true) (λ _, true) (λ _, 0) Pos.succ (λ _, 3)).
Lemma vrun_reach ops w w' : vrun ops w = Some w' → demo_reach w → demo_reach w'.
Proof.
  revert w. induction ops as [|o ops IH]; intros w; cbn [vrun]; [by intros [= <-]|]. destruct (decide (vop_ok w o)) as [Ho|]; [|done]. destruct (demo_step w o) as [w1|] eqn:E; [|done]. intros Hr Hw. apply (IH w1 Hr). by eapply vreach_step.
Qed.
Definition demo_world : vworld := default vinit (vrun demo_ops vinit).
Lemma vdev_accounting_witness : v_calls (vs demo_world) = [ConnectCb 1%positive; CompleteCb 1%positive 42; DisconnectCb (Some 1%positive)] ∧
  Z.of_nat (size (v_urbs (vs demo_world))) = Z.of_nat (size (in_flight demo_world)) + lost demo_world.
Proof.
  split; [vm_compute; reflexivity|]. assert (Hr : demo_reach demo_world) by (apply (vrun_reach demo_ops vinit); [vm_compute; reflexivity|apply vreach_init]).
  exact (proj1 (proj2 (proj2 (vdev_accounting (λ _, true) (λ _, true) (λ _, 0) Pos.succ (λ _, 3) (λ _, eq_refl) demo_world Hr)))).
Defined.

(** The device is gone and nothing is under way, but the request that is not implemented has left its URB and
    context, and the completed one its setup buffer. *)
Theorem vdev_leaks : demo_reach demo_world ∧ vdevs (vs demo_world) = ∅ ∧ in_flight demo_world = ∅ ∧
  size (v_urbs (vs demo_world)) = 1%nat ∧ size (v_contexts (vs demo_world)) = 1%nat ∧ v_buffers (vs demo_world) = 1.
Proof. split; [apply (vrun_reach demo_ops vinit); [vm_compute; reflexivity|apply vreach_init]|]. by vm_compute. Qed.
(** The address of the setup buffer is used without a check, and the size of the data is not looked at. *)
Definition one_vdev : vst := vs (default vinit (vrun [OProbe 7%positive (DeviceId 0 0 0)] vinit)).
Theorem setup_buffer_unchecked :
  dde_linux26_usb_vdev_submit_control_urb (λ _, true) (λ _, false) (λ _, 0) (λ _, 3) 1%positive 0 true 42 8 [0x80; 6; 0; 1; 0; 0; 18; 0] one_vdev = Fault FNull ∧
  dde_linux26_usb_vdev_submit_control_urb (λ _, true) (λ _, true) (λ _, 0) (λ _, 3) 1%positive 0 true 42 4 [0x80; 6; 0; 1] one_vdev = Fault FBounds.
Proof. split; vm_compute; reflexivity. Qed.
