(* ===== verification/Kthread.v ===== *)
(** Kernel threads: kernel/kthread.c.

    Any number of callers create and stop kernel threads; thread [j] is the one that the [j]-th call
    of [kthread_create] asks for.  A step is one access to what is shared: the
    structure [create] on the stack of the creator, [kthread_stop_info], its mutex, and
    the state and sleep lock of the tasks.  Completions and mutexes are taken as
    atomic, as Completion and Mutex show.  The function of a thread returns
    whenever it wants with any value, and any task may be woken at any time. *)

From S2P Require Import Prelude Sched.

Definition EINTR : Z := 4.

(** [kthread_create] by the creator of thread [j], *)
Inductive crpc :=
| CrIdle
| CrCall          (* the structure is set up; if (!helper_wq) *)
| CrRun           (* create.work.func, in the thread of the creator *)
| CrWait          (* wait_for_completion(&create.done) *)
| CrReturn        (* reads create.result and returns *)
| CrDone (ok : bool).
(** [keventd_create_kthread] for thread [j], *)
Inductive wkpc :=
| WkNone
| WkSpawn         (* kernel_thread *)
| WkWait          (* wait_for_completion(&create->started) *)
| WkResult        (* create->result = find_task_by_pid(pid) *)
| WkComplete      (* complete(&create->done) *)
| WkEnd.
#[global] Instance wkpc_eq_dec : EqDecision wkpc.
Proof. solve_decision. Defined.
(** [kthread], *)
Inductive ktpc :=
| KtNone
| KtCopy          (* reads create->threadfn, create->data *)
| KtState         (* __set_current_state(TASK_INTERRUPTIBLE) *)
| KtStarted       (* complete(&create->started) *)
| KtSwitch        (* schedule: switch (current->state) *)
| KtYield         (* schedule: dde_kit_thread_schedule *)
| KtDown          (* schedule: dde_kit_sem_down *)
| KtTest          (* if (!kthread_should_stop()) *)
| KtFn            (* threadfn(data) *)
| KtCheck         (* if (kthread_should_stop()) *)
| KtErr           (* kthread_stop_info.err = ret *)
| KtComplete      (* complete(&kthread_stop_info.done) *)
| KtExit.
(** and [kthread_stop] for thread [j] *)
Inductive sppc :=
| SpIdle
| SpLock (j : nat)            (* mutex_lock *)
| SpInit (j : nat)            (* init_completion *)
| SpSet (j : nat)             (* kthread_stop_info.k = k *)
| SpState (j : nat)           (* wake_up_process: the state *)
| SpUp (j : nat)              (* wake_up_process: dde_kit_sem_up *)
| SpWait (j : nat)            (* wait_for_completion *)
| SpClear (j : nat)           (* kthread_stop_info.k = NULL *)
| SpErr (j : nat)             (* ret = kthread_stop_info.err *)
| SpUnlock (j : nat) (ret : Z)  (* mutex_unlock *)
| SpDone (j : nat) (ret : Z).

(** [struct kthread_create_info], while it is [ci_live] *)
Record kthread_create_info := CreateInfo { ci_live : bool; ci_started : Z; ci_done : Z; ci_result : option bool }.
(** A thread; [kt_ret] is its variable [ret], [kt_ran]: [threadfn] was called. *)
Record kthr := Kthr { kt_pc : ktpc; kt_tsk : task; kt_ret : Z; kt_ran : bool }.
(** [helper_wq] with its queue and the request it works on, [kthread_stop_info], and whether a structure was
    used after its creator had returned *)
Record ksys := KSys {
  helper_wq : bool; k_queue : list nat; k_current : option nat;
  k_cr : nat → crpc; k_ci : nat → kthread_create_info; k_wk : nat → wkpc; k_kt : nat → kthr;
  stop_lock : option nat; stop_k : option nat; stop_err : Z; stop_done : Z; k_sp : nat → sppc;
  k_bad : bool
}.

Definition set_cr (j : nat) (pc : crpc) (σ : ksys) : ksys := KSys (helper_wq σ) (k_queue σ) (k_current σ) (upd_at j (λ _, pc) (k_cr σ)) (k_ci σ) (k_wk σ) (k_kt σ) (stop_lock σ) (stop_k σ) (stop_err σ) (stop_done σ) (k_sp σ) (k_bad σ).
Definition set_wk (j : nat) (pc : wkpc) (σ : ksys) : ksys := KSys (helper_wq σ) (k_queue σ) (k_current σ) (k_cr σ) (k_ci σ) (upd_at j (λ _, pc) (k_wk σ)) (k_kt σ) (stop_lock σ) (stop_k σ) (stop_err σ) (stop_done σ) (k_sp σ) (k_bad σ).
Definition on_kt (j : nat) (f : kthr → kthr) (σ : ksys) : ksys := KSys (helper_wq σ) (k_queue σ) (k_current σ) (k_cr σ) (k_ci σ) (k_wk σ) (upd_at j f (k_kt σ)) (stop_lock σ) (stop_k σ) (stop_err σ) (stop_done σ) (k_sp σ) (k_bad σ).
Definition set_sp (c : nat) (pc : sppc) (σ : ksys) : ksys := KSys (helper_wq σ) (k_queue σ) (k_current σ) (k_cr σ) (k_ci σ) (k_wk σ) (k_kt σ) (stop_lock σ) (stop_k σ) (stop_err σ) (stop_done σ) (upd_at c (λ _, pc) (k_sp σ)) (k_bad σ).
Definition set_queue (h : bool) (q : list nat) (o : option nat) (σ : ksys) : ksys := KSys h q o (k_cr σ) (k_ci σ) (k_wk σ) (k_kt σ) (stop_lock σ) (stop_k σ) (stop_err σ) (stop_done σ) (k_sp σ) (k_bad σ).
Definition set_stop (l k : option nat) (e d : Z) (σ : ksys) : ksys := KSys (helper_wq σ) (k_queue σ) (k_current σ) (k_cr σ) (k_ci σ) (k_wk σ) (k_kt σ) l k e d (k_sp σ) (k_bad σ).
(** An access to the structure [create] *)
Definition on_ci (j : nat) (f : kthread_create_info → kthread_create_info) (σ : ksys) : ksys :=
  KSys (helper_wq σ) (k_queue σ) (k_current σ) (k_cr σ) (upd_at j f (k_ci σ)) (k_wk σ) (k_kt σ) (stop_lock σ) (stop_k σ) (stop_err σ) (stop_done σ) (k_sp σ) (k_bad σ || negb (ci_live (k_ci σ j))).
Definition kt_goto (pc : ktpc) (t : kthr) : kthr := Kthr pc (kt_tsk t) (kt_ret t) (kt_ran t).
Definition kt_state (st : Z) (t : kthr) : kthr := Kthr (kt_pc t) (Task st (tk_sleep_lock (kt_tsk t))) (kt_ret t) (kt_ran t).
Definition kt_sem (d : Z) (t : kthr) : kthr := Kthr (kt_pc t) (Task (tk_state (kt_tsk t)) (tk_sleep_lock (kt_tsk t) + d)) (kt_ret t) (kt_ran t).
Definition kt_return (v : Z) (t : kthr) : kthr := Kthr (kt_pc t) (kt_tsk t) v true.
Definition ci_start (d : Z) (x : kthread_create_info) : kthread_create_info := CreateInfo (ci_live x) (ci_started x + d) (ci_done x) (ci_result x).
Definition ci_finish (d : Z) (x : kthread_create_info) : kthread_create_info := CreateInfo (ci_live x) (ci_started x) (ci_done x + d) (ci_result x).
Definition ci_set_result (b : bool) (x : kthread_create_info) : kthread_create_info := CreateInfo (ci_live x) (ci_started x) (ci_done x) (Some b).
Definition ci_end (x : kthread_create_info) : kthread_create_info := CreateInfo false (ci_started x) (ci_done x) (ci_result x).
Definition new_info : kthread_create_info := CreateInfo true 0 0 None.
Definition new_thread (_ : kthr) : kthr := Kthr KtCopy (Task TASK_RUNNING 0) (- EINTR) false.

Definition kthread_should_stop (j : nat) (σ : ksys) : bool := match stop_k σ with Some k => bool_decide (k = j) | None => false end.

(** The steps; [None]: it waits. *)
Definition kthread_create (j : nat) (σ : ksys) : option ksys :=
  match k_cr σ j with
  | CrCall => Some (if helper_wq σ then set_cr j CrWait (set_queue (helper_wq σ) (k_queue σ ++ [j]) (k_current σ) σ) else set_cr j CrRun (set_wk j WkSpawn σ))
  | CrRun => match k_wk σ j with WkEnd => Some (set_cr j CrReturn σ) | _ => None end
  | CrWait => if 0 <? ci_done (k_ci σ j) then Some (set_cr j CrReturn (on_ci j (ci_finish (-1)) σ)) else None
  | CrReturn => Some (set_cr j (CrDone (default false (ci_result (k_ci σ j)))) (on_ci j ci_end σ))
  | _ => None
  end.
(** [ok]: the thread can be created. *)
Definition keventd_create_kthread (j : nat) (ok : bool) (σ : ksys) : option ksys :=
  match k_wk σ j with
  | WkSpawn => Some (if ok then set_wk j WkWait (on_kt j new_thread σ) else set_wk j WkComplete (on_ci j (ci_set_result false) σ))
  | WkWait => if 0 <? ci_started (k_ci σ j) then Some (set_wk j WkResult (on_ci j (ci_start (-1)) σ)) else None
  | WkResult => Some (set_wk j WkComplete (on_ci j (ci_set_result true) σ))
  | WkComplete => Some (set_wk j WkEnd (on_ci j (ci_finish 1) σ))
  | _ => None
  end.
(** [v]: what [threadfn] returns. *)
Definition kthread (j : nat) (v : Z) (σ : ksys) : option ksys :=
  let t := k_kt σ j in
  match kt_pc t with
  | KtCopy => Some (on_kt j (kt_goto KtState) (on_ci j id σ))
  | KtState => Some (on_kt j (kt_goto KtStarted) (on_kt j (kt_state TASK_INTERRUPTIBLE) σ))
  | KtStarted => Some (on_kt j (kt_goto KtSwitch) (on_ci j (ci_start 1) σ))
  | KtSwitch => Some (on_kt j (kt_goto (if tk_state (kt_tsk t) =? TASK_RUNNING then KtYield else KtDown)) σ)
  | KtYield => Some (on_kt j (kt_goto KtTest) σ)
  | KtDown => if 0 <? tk_sleep_lock (kt_tsk t) then Some (on_kt j (kt_goto KtTest) (on_kt j (kt_sem (-1)) σ)) else None
  | KtTest => Some (on_kt j (kt_goto (if kthread_should_stop j σ then KtCheck else KtFn)) σ)
  | KtFn => Some (on_kt j (kt_goto KtCheck) (on_kt j (kt_return v) σ))
  | KtCheck => Some (on_kt j (kt_goto (if kthread_should_stop j σ then KtErr else KtExit)) σ)
  | KtErr => Some (on_kt j (kt_goto KtComplete) (set_stop (stop_lock σ) (stop_k σ) (kt_ret t) (stop_done σ) σ))
  | KtComplete => Some (on_kt j (kt_goto KtExit) (set_stop (stop_lock σ) (stop_k σ) (stop_err σ) (stop_done σ + 1) σ))
  | _ => None
  end.
Definition kthread_stop (c : nat) (σ : ksys) : option ksys :=
  match k_sp σ c with
  | SpLock j => match stop_lock σ with None => Some (set_sp c (SpInit j) (set_stop (Some c) (stop_k σ) (stop_err σ) (stop_done σ) σ)) | Some _ => None end
  | SpInit j => Some (set_sp c (SpSet j) (set_stop (stop_lock σ) (stop_k σ) (stop_err σ) 0 σ))
  | SpSet j => Some (set_sp c (SpState j) (set_stop (stop_lock σ) (Some j) (stop_err σ) (stop_done σ) σ))
  | SpState j => Some (set_sp c (SpUp j) (on_kt j (kt_state TASK_RUNNING) σ))
  | SpUp j => Some (set_sp c (SpWait j) (on_kt j (kt_sem 1) σ))
  | SpWait j => if 0 <? stop_done σ then Some (set_sp c (SpClear j) (set_stop (stop_lock σ) (stop_k σ) (stop_err σ) (stop_done σ - 1) σ)) else None
  | SpClear j => Some (set_sp c (SpErr j) (set_stop (stop_lock σ) None (stop_err σ) (stop_done σ) σ))
  | SpErr j => Some (set_sp c (SpUnlock j (stop_err σ)) σ)
  | SpUnlock j v => Some (set_sp c (SpDone j v) (set_stop None (stop_k σ) (stop_err σ) (stop_done σ) σ))
  | _ => None
  end.
(** [helper_wq] takes the next request when it is done with the last. *)
Definition helper_next (σ : ksys) : option ksys :=
  match k_current σ, k_queue σ with
  | None, j :: q => Some (set_wk j WkSpawn (set_queue (helper_wq σ) q (Some j) σ))
  | Some j, q => match k_wk σ j with WkEnd => Some (set_queue (helper_wq σ) q None σ) | _ => None end
  | None, [] => None
  end.

Definition k_init : ksys :=
  KSys false [] None (λ _, CrIdle) (λ _, CreateInfo false 0 0 None) (λ _, WkNone) (λ _, Kthr KtNone (Task TASK_RUNNING 0) 0 false) None None 0 0 (λ _, SpIdle) false.
Inductive k_step : ksys → ksys → Prop :=
| KsHelper σ : k_step σ (set_queue true (k_queue σ) (k_current σ) σ)
| KsCall σ j : k_cr σ j = CrIdle → k_step σ (set_cr j CrCall (KSys (helper_wq σ) (k_queue σ) (k_current σ) (k_cr σ) (upd_at j (λ _, new_info) (k_ci σ)) (k_wk σ) (k_kt σ) (stop_lock σ) (stop_k σ) (stop_err σ) (stop_done σ) (k_sp σ) (k_bad σ)))
| KsCreate σ σ' j : kthread_create j σ = Some σ' → k_step σ σ'
| KsNext σ σ' : helper_next σ = Some σ' → k_step σ σ'
| KsWork σ σ' j ok : keventd_create_kthread j ok σ = Some σ' → k_step σ σ'
| KsThread σ σ' j v : kthread j v σ = Some σ' → k_step σ σ'
| KsStop σ c j : k_sp σ c = SpIdle → k_cr σ j = CrDone true → k_step σ (set_sp c (SpLock j) σ)
| KsStopRun σ σ' c : kthread_stop c σ = Some σ' → k_step σ σ'
| KsOtherState σ j : k_step σ (on_kt j (kt_state TASK_RUNNING) σ)
| KsOtherUp σ j : k_step σ (on_kt j (kt_sem 1) σ).

(** ** Creation *)

Definition early (t : kthr) : bool := match kt_pc t with KtCopy | KtState | KtStarted => true | _ => false end.
(** The thread has said that it was started. *)
Definition past (t : kthr) : bool := match kt_pc t with KtNone | KtCopy | KtState | KtStarted => false | _ => true end.
Definition result_ok (x : kthread_create_info) (t : kthr) : Prop := early t = false ∧ ∃ b, ci_result x = Some b ∧ (b = true → past t = true).
(** What is true of one creation; [q]: it is in the queue. *)
Record cinv (c : crpc) (w : wkpc) (x : kthread_create_info) (t : kthr) (q : bool) : Prop := {
  c_live : ci_live x = match c with CrCall | CrRun | CrWait | CrReturn => true | _ => false end;
  c_phase : match c with CrIdle | CrCall => w = WkNone | CrReturn | CrDone _ => w = WkEnd | CrRun => w ≠ WkNone | CrWait => if q then w = WkNone else w ≠ WkNone end;
  c_queue : q = true → c = CrWait;
  c_work : match w with
    | WkNone | WkSpawn => kt_pc t = KtNone ∧ (c ≠ CrIdle → ci_started x = 0 ∧ ci_done x = 0)
    | WkWait => kt_pc t ≠ KtNone ∧ ci_done x = 0 ∧ ci_started x = bool2Z (past t)
    | WkResult => past t = true ∧ ci_done x = 0
    | WkComplete => result_ok x t ∧ ci_done x = 0
    | WkEnd => result_ok x t ∧ (c = CrWait → 0 < ci_done x)
    end;
  c_done : c = CrDone true → past t = true;
}.
Definition inqueue (σ : ksys) (j : nat) : bool := bool_decide (j ∈ k_queue σ).
Record create_inv (σ : ksys) : Prop := {
  cr_each j : cinv (k_cr σ j) (k_wk σ j) (k_ci σ j) (k_kt σ j) (inqueue σ j);
  cr_nodup : NoDup (k_queue σ);
  cr_current j : k_current σ = Some j → k_wk σ j ≠ WkNone;
  cr_bad : k_bad σ = false;
}.
(** A step for [j] *)
Lemma create_inv_one σ σ' j : create_inv σ → (∀ i, i ≠ j → k_cr σ' i = k_cr σ i ∧ k_wk σ' i = k_wk σ i ∧ k_ci σ' i = k_ci σ i ∧ k_kt σ' i = k_kt σ i ∧ (i ∈ k_queue σ' ↔ i ∈ k_queue σ)) →
  cinv (k_cr σ' j) (k_wk σ' j) (k_ci σ' j) (k_kt σ' j) (inqueue σ' j) → NoDup (k_queue σ') →
  (∀ i, k_current σ' = Some i → i = j ∨ k_current σ = Some i) → (k_current σ' = Some j → k_wk σ' j ≠ WkNone) → k_bad σ' = false → create_inv σ'.
Proof.
  intros I Ho Hj Hn Hc Hcj Hb. split; [|done| |done].
  - intros i. destruct (decide (i = j)) as [->|Hne]; [done|]. destruct (Ho i Hne) as (-> & -> & -> & -> & Hq). unfold inqueue. rewrite (bool_decide_ext _ _ Hq). apply (cr_each σ I).
  - intros i Hi. destruct (decide (i = j)) as [->|Hne]; [by apply Hcj|]. destruct (Hc i Hi) as [?|Hi']; [done|]. destruct (Ho i Hne) as (_ & -> & _). by apply (cr_current σ I).
Qed.
Ltac kother := intros ? ?; cbn; rewrite ?upd_at_ne by done; done.
Lemma cinv_access c w x t q : cinv c w x t q → early t = true ∨ w = WkSpawn ∨ w = WkWait ∨ w = WkResult ∨ w = WkComplete ∨ c = CrWait ∨ c = CrReturn → ci_live x = true.
Proof.
  intros [H1 H2 _ H4 _] H. rewrite H1. assert (He : early t = true → w = WkWait).
  { intros E. unfold early in E. destruct w; try done; [destruct H4 as [E1 _]; by rewrite E1 in E|destruct H4 as [E1 _]; by rewrite E1 in E|destruct H4 as [E1 _]; unfold past in E1; by destruct (kt_pc t)|destruct H4 as [[E1 _] _]; unfold early in E1; congruence|destruct H4 as [[E1 _] _]; unfold early in E1; congruence]. }
  destruct H as [E|H]; [rewrite (He E) in H2; by destruct c, q|]. destruct c; try done; exfalso; rewrite H2 in H; naive_solver.
Qed.
Lemma on_ci_ok σ j f : create_inv σ → ci_live (k_ci σ j) = true → k_bad (on_ci j f σ) = false.
Proof. intros I E. cbn. by rewrite (cr_bad σ I), E. Qed.
Lemma cinv_kt c w x t t' q : cinv c w x t q → early t' = early t → past t' = past t → (kt_pc t' = KtNone ↔ kt_pc t = KtNone) → cinv c w x t' q.
Proof.
  intros [H1 H2 H3 H4 H5] He Hp Hn. split; auto; [|by rewrite Hp]. unfold result_ok in *. rewrite He, Hp. destruct w; rewrite ?Hn; auto.
Qed.
Lemma create_inv_kt σ σ' j : create_inv σ → k_cr σ' = k_cr σ → k_wk σ' = k_wk σ → k_ci σ' = k_ci σ → (∀ i, i ≠ j → k_kt σ' i = k_kt σ i) → k_queue σ' = k_queue σ → k_current σ' = k_current σ → k_bad σ' = k_bad σ →
  early (k_kt σ' j) = early (k_kt σ j) → past (k_kt σ' j) = past (k_kt σ j) → (kt_pc (k_kt σ' j) = KtNone ↔ kt_pc (k_kt σ j) = KtNone) → create_inv σ'.
Proof.
  intros I E1 E2 E3 E4 E5 E6 E7 He Hp Hn. apply (create_inv_one σ σ' j I); rewrite ?E1, ?E2, ?E3, ?E5, ?E6, ?E7.
  - intros i Hi. by rewrite E4.
  - unfold inqueue. rewrite E5. by eapply cinv_kt; [apply (cr_each σ I)| | |].
  - apply (cr_nodup σ I).
  - auto.
  - apply (cr_current σ I).
  - apply (cr_bad σ I).
Qed.
Lemma create_inv_create σ σ' j : create_inv σ → kthread_create j σ = Some σ' → create_inv σ'.
Proof.
  intros I. pose proof (cr_each σ I j) as C. unfold kthread_create. destruct (k_cr σ j) eqn:E; try done.
  - intros [= <-]. destruct C as [C1 C2 C3 C4 C5]. assert (Hq : inqueue σ j = false) by (destruct (inqueue σ j); [by specialize (C3 eq_refl)|done]). cbn in C2. rewrite C2 in C4. destruct C4 as [C4 C6].
    destruct (helper_wq σ); apply (create_inv_one σ _ j I); cbn; rewrite ?upd_at_eq; try (apply (cr_bad σ I)); auto.
    + intros i Hi. rewrite upd_at_ne, elem_of_app, list_elem_of_singleton by done. naive_solver.
    + unfold inqueue. cbn. rewrite bool_decide_eq_true_2 by (apply elem_of_app; right; by apply list_elem_of_singleton). split; cbn; auto; try done. rewrite C2. split; [done|]. intros _. by apply C6.
    + apply list.NoDup_app. split; [apply (cr_nodup σ I)|]. split; [|apply list.NoDup_singleton]. intros i Hi ->%list_elem_of_singleton. by apply bool_decide_eq_false in Hq.
    + apply (cr_current σ I).
    + intros i Hi. by rewrite !upd_at_ne.
    + change (inqueue _ j) with (inqueue σ j). rewrite Hq. split; cbn; auto; try done.
    + apply (cr_nodup σ I).
  - destruct (k_wk σ j) eqn:Ew; try done. intros [= <-]. destruct C as [C1 C2 C3 C4 C5]. apply (create_inv_one σ _ j I); cbn; rewrite ?upd_at_eq; try (apply (cr_bad σ I)); try apply (cr_nodup σ I); try apply (cr_current σ I); auto.
    + intros i Hi. by rewrite upd_at_ne.
    + change (inqueue _ j) with (inqueue σ j). rewrite Ew. split; cbn; auto; try done; [intros Hq; by specialize (C3 Hq)|]. destruct C4. by split.
  - destruct (Z.ltb_spec 0 (ci_done (k_ci σ j))) as [Hd|]; [|done]. intros [= <-]. pose proof (cinv_access _ _ _ _ _ C ltac:(auto 8)) as Hl. pose proof C as [C1 C2 C3 C4 C5]. assert (Hw : k_wk σ j = WkEnd).
    { destruct (k_wk σ j); try done; [destruct C4 as [_ C4]; destruct (C4 ltac:(done)); lia|destruct C4 as [_ C4]; destruct (C4 ltac:(done)); lia|destruct C4 as (_ & C4 & _); lia|destruct C4 as (_ & C4); lia|destruct C4 as (_ & C4); lia]. }
    assert (Hq : inqueue σ j = false) by (destruct (inqueue σ j); [congruence|done]). apply (create_inv_one σ _ j I); cbn; rewrite ?upd_at_eq; try apply (cr_nodup σ I); try apply (cr_current σ I); auto.
    + intros i Hi. by rewrite !upd_at_ne.
    + change (inqueue _ j) with (inqueue σ j). rewrite Hw, Hq in *. split; cbn; auto; try done. destruct C4. by split.
    + by rewrite (cr_bad σ I), Hl.
  - intros [= <-]. pose proof (cinv_access _ _ _ _ _ C ltac:(auto 8)) as Hl. destruct C as [C1 C2 C3 C4 C5]. cbn in C2. rewrite C2 in C4. assert (Hq : inqueue σ j = false) by (destruct (inqueue σ j); [by specialize (C3 eq_refl)|done]).
    apply (create_inv_one σ _ j I); cbn; rewrite ?upd_at_eq; try apply (cr_nodup σ I); try apply (cr_current σ I); auto.
    + intros i Hi. by rewrite !upd_at_ne.
    + change (inqueue _ j) with (inqueue σ j). rewrite C2, Hq. destruct C4 as [(R1 & b & R2 & R3) _]. split; cbn; auto; try done; [split; [split; [done|]; by exists b|done]|]. rewrite R2. cbn. intros [= ->]. auto.
    + by rewrite (cr_bad σ I), Hl.
Qed.
Lemma create_inv_work σ σ' j ok : create_inv σ → keventd_create_kthread j ok σ = Some σ' → create_inv σ'.
Proof.
  intros I. pose proof (cr_each σ I j) as C. unfold keventd_create_kthread. destruct (k_wk σ j) eqn:E; try done.
  all: pose proof (cinv_access _ _ _ _ _ C ltac:(auto 8)) as Hl; pose proof C as [C1 C2 C3 C4 C5].
  all: assert (Hq : inqueue σ j = false) by (destruct (inqueue σ j); [rewrite (C3 eq_refl) in C2|]; done).
  all: assert (Hc : k_cr σ j = CrRun ∨ k_cr σ j = CrWait) by (destruct (k_cr σ j); auto; (done || (rewrite C1 in Hl; done))).
  - destruct C4 as [C4 C6]. destruct C6 as [C6 C7]; [intros E'; rewrite E' in Hc; by destruct Hc|]. destruct ok; intros [= <-]; apply (create_inv_one σ _ j I); cbn; rewrite ?upd_at_eq; try apply (cr_nodup σ I); try apply (cr_bad σ I); auto; try kother.
    + change (inqueue _ j) with (inqueue σ j). rewrite Hq. destruct Hc as [-> | ->]; split; cbn; auto; done.
    + change (inqueue _ j) with (inqueue σ j). rewrite Hq. assert (R : result_ok (ci_set_result false (k_ci σ j)) (k_kt σ j)) by (split; [unfold early; by rewrite C4|by exists false]). destruct Hc as [-> | ->]; split; cbn; auto; done.
    + by rewrite (cr_bad σ I), Hl.
  - destruct (Z.ltb_spec 0 (ci_started (k_ci σ j))) as [Hs|]; [|done]. intros [= <-]. destruct C4 as (C4 & C6 & C7). apply (create_inv_one σ _ j I); cbn; rewrite ?upd_at_eq; try apply (cr_nodup σ I); auto; try kother.
    + change (inqueue _ j) with (inqueue σ j). rewrite Hq. assert (past (k_kt σ j) = true) by (destruct (past (k_kt σ j)); [done|cbn in C7; lia]). destruct Hc as [-> | ->]; split; cbn; auto; done.
    + by rewrite (cr_bad σ I), Hl.
  - intros [= <-]. destruct C4 as (C4 & C6). apply (create_inv_one σ _ j I); cbn; rewrite ?upd_at_eq; try apply (cr_nodup σ I); auto; try kother.
    + change (inqueue _ j) with (inqueue σ j). rewrite Hq. assert (result_ok (ci_set_result true (k_ci σ j)) (k_kt σ j)) by (split; [unfold early, past in *; by destruct (kt_pc (k_kt σ j))|by exists true]). destruct Hc as [-> | ->]; split; cbn; auto; done.
    + by rewrite (cr_bad σ I), Hl.
  - intros [= <-]. destruct C4 as (C4 & C6). apply (create_inv_one σ _ j I); cbn; rewrite ?upd_at_eq; try apply (cr_nodup σ I); auto; try kother.
    + change (inqueue _ j) with (inqueue σ j). rewrite Hq. destruct Hc as [-> | ->]; split; cbn; auto; try done; (split; [done|]; intros _; lia).
    + by rewrite (cr_bad σ I), Hl.
Qed.
Lemma create_inv_next σ σ' : create_inv σ → helper_next σ = Some σ' → create_inv σ'.
Proof.
  intros I. unfold helper_next. destruct (k_current σ) as [j|] eqn:Ec.
  - destruct (k_wk σ j); try done. intros [= <-]. split; cbn; [apply (cr_each σ I)|apply (cr_nodup σ I)|done|apply (cr_bad σ I)].
  - destruct (k_queue σ) as [|j q] eqn:Eq; [done|]. intros [= <-]. pose proof (cr_nodup σ I) as Hn. rewrite Eq in Hn. apply list.NoDup_cons in Hn as [Hjq Hn].
    pose proof (cr_each σ I j) as [C1 C2 C3 C4 C5]. assert (Hq : inqueue σ j = true) by (unfold inqueue; apply bool_decide_eq_true; rewrite Eq; by left). rewrite Hq in *. rewrite (C3 eq_refl) in *. rewrite C2 in C4.
    apply (create_inv_one σ _ j I); cbn; rewrite ?upd_at_eq; auto; try apply (cr_bad σ I).
    + intros i Hi. rewrite upd_at_ne, Eq, elem_of_cons by done. naive_solver.
    + unfold inqueue. cbn. rewrite (C3 eq_refl), bool_decide_eq_false_2 by done. split; cbn; auto; done.
    + intros i [= <-]. by left.
Qed.
Lemma create_inv_thread σ σ' j v : create_inv σ → kthread j v σ = Some σ' → create_inv σ'.
Proof.
  intros I. pose proof (cr_each σ I j) as C. unfold kthread. destruct (kt_pc (k_kt σ j)) eqn:E; try done.
  - intros [= <-]. assert (He : early (k_kt σ j) = true) by (unfold early; by rewrite E). pose proof (cinv_access _ _ _ _ _ C ltac:(auto)) as Hl.
    apply (create_inv_one σ _ j I); cbn; rewrite ?upd_at_eq; try apply (cr_nodup σ I); try apply (cr_current σ I); auto; try kother; [|by rewrite (cr_bad σ I), Hl].
    eapply cinv_kt; [exact C| | |]; unfold early, past; cbn; rewrite E; done.
  - intros [= <-]. eapply (create_inv_kt σ _ j I); cbn; try done; try kother; unfold early, past; rewrite !upd_at_eq, ?E; done.
  - intros [= <-]. assert (He : early (k_kt σ j) = true) by (unfold early; by rewrite E). pose proof (cinv_access _ _ _ _ _ C ltac:(auto)) as Hl.
    apply (create_inv_one σ _ j I); cbn; rewrite ?upd_at_eq; try apply (cr_nodup σ I); try apply (cr_current σ I); auto; try kother; [|by rewrite (cr_bad σ I), Hl].
    change (inqueue _ j) with (inqueue σ j). destruct C as [C1 C2 C3 C4 C5]. unfold result_ok, early, past in *. rewrite E in *. split; cbn; auto.
    destruct (k_wk σ j); [by destruct C4|by destruct C4| |by destruct C4|by destruct C4 as [[? _] _]|by destruct C4 as [[? _] _]]. destruct C4 as (_ & C6 & C7). split; [done|]. split; [done|]. rewrite C7. done.
  - intros [= <-]. eapply (create_inv_kt σ _ j I); cbn; try done; try kother; unfold early, past; rewrite !upd_at_eq; cbn; rewrite E; by destruct (_ =? _).
  - intros [= <-]. eapply (create_inv_kt σ _ j I); cbn; try done; try kother; unfold early, past; rewrite !upd_at_eq; cbn; rewrite E; done.
  - destruct (0 <? _); [|done]. intros [= <-]. eapply (create_inv_kt σ _ j I); cbn; try done; try kother; unfold early, past; rewrite !upd_at_eq; cbn; rewrite E; done.
  - intros [= <-]. eapply (create_inv_kt σ _ j I); cbn; try done; try kother; unfold early, past; rewrite !upd_at_eq; cbn; rewrite E; by destruct (kthread_should_stop j σ).
  - intros [= <-]. eapply (create_inv_kt σ _ j I); cbn; try done; try kother; unfold early, past; rewrite !upd_at_eq; cbn; rewrite E; done.
  - intros [= <-]. eapply (create_inv_kt σ _ j I); cbn; try done; try kother; unfold early, past; rewrite !upd_at_eq; cbn; rewrite E; by destruct (kthread_should_stop j σ).
  - intros [= <-]. eapply (create_inv_kt σ _ j I); cbn; try done; try kother; unfold early, past; rewrite !upd_at_eq; cbn; rewrite E; done.
  - intros [= <-]. eapply (create_inv_kt σ _ j I); cbn; try done; try kother; unfold early, past; rewrite !upd_at_eq; cbn; rewrite E; done.
Qed.

(** ** Stopping *)

Definition splocked (pc : sppc) : bool := match pc with SpInit _ | SpSet _ | SpState _ | SpUp _ | SpWait _ | SpClear _ | SpErr _ | SpUnlock _ _ => true | _ => false end.
Definition stopped (pc : sppc) : option nat :=
  match pc with SpIdle => None | SpLock j | SpInit j | SpSet j | SpState j | SpUp j | SpWait j | SpClear j | SpErr j | SpUnlock j _ | SpDone j _ => Some j end.
(** [kthread_stop_info.k] is set; and the thread has not been heard of. *)
Definition kphase (pc : sppc) : option nat := match pc with SpState j | SpUp j | SpWait j | SpClear j => Some j | _ => None end.
Definition wphase (pc : sppc) : option nat := match pc with SpState j | SpUp j | SpWait j => Some j | _ => None end.
Definition reporting (t : kthr) : bool := match kt_pc t with KtErr | KtComplete => true | _ => false end.
Definition asleep (t : kthr) : bool := match kt_pc t with KtSwitch | KtDown => true | _ => false end.
Abbreviation ksem σ j := (tk_sleep_lock (kt_tsk (k_kt σ j))).

Record stop_inv (σ : ksys) : Prop := {
  st_lock c : stop_lock σ = Some c ↔ splocked (k_sp σ c) = true;
  st_past c j : stopped (k_sp σ c) = Some j → past (k_kt σ j) = true;
  st_k j : stop_k σ = Some j ↔ ∃ c, kphase (k_sp σ c) = Some j;
  st_reporting j : reporting (k_kt σ j) = true → (∃ c, wphase (k_sp σ c) = Some j) ∧ stop_done σ = 0;
  st_complete j : kt_pc (k_kt σ j) = KtComplete → stop_err σ = kt_ret (k_kt σ j);
  st_done c j : wphase (k_sp σ c) = Some j → stop_done σ = 0 ∨ stop_done σ = 1 ∧ kt_pc (k_kt σ j) = KtExit ∧ stop_err σ = kt_ret (k_kt σ j);
  st_set c j : k_sp σ c = SpSet j → stop_done σ = 0;
  st_clear c j : k_sp σ c = SpClear j ∨ k_sp σ c = SpErr j → kt_pc (k_kt σ j) = KtExit ∧ stop_err σ = kt_ret (k_kt σ j);
  st_ret c j v : k_sp σ c = SpUnlock j v ∨ k_sp σ c = SpDone j v → kt_pc (k_kt σ j) = KtExit ∧ v = kt_ret (k_kt σ j);
  st_sem j : 0 ≤ ksem σ j;
  st_up c j : k_sp σ c = SpWait j → asleep (k_kt σ j) = true → 0 < ksem σ j;
  st_ran j : kt_pc (k_kt σ j) ≠ KtNone → kt_ran (k_kt σ j) = false → kt_ret (k_kt σ j) = - EINTR;
}.
Lemma phases pc : (wphase pc ≠ None → kphase pc = wphase pc) ∧ (kphase pc ≠ None → splocked pc = true ∧ stopped pc = kphase pc).
Proof. by destruct pc. Qed.
Lemma same_stopper σ c c' : stop_inv σ → splocked (k_sp σ c) = true → splocked (k_sp σ c') = true → c = c'.
Proof. intros I L L'. apply (st_lock σ I) in L, L'. congruence. Qed.
Lemma wphase_locked pc j : wphase pc = Some j → splocked pc = true.
Proof. by destruct pc. Qed.

(** A step that changes one thread and is not a report *)
Lemma stop_inv_kt σ σ' j : stop_inv σ → (∀ i, i ≠ j → k_kt σ' i = k_kt σ i) → k_sp σ' = k_sp σ → stop_lock σ' = stop_lock σ → stop_k σ' = stop_k σ → stop_err σ' = stop_err σ → stop_done σ' = stop_done σ →
  let t := k_kt σ j in let t' := k_kt σ' j in
  (past t = true → past t' = true) → (reporting t' = true → kt_pc t' = kt_pc t ∧ kt_ret t' = kt_ret t) → (kt_pc t = KtExit → kt_pc t' = KtExit ∧ kt_ret t' = kt_ret t) →
  (kt_pc t' ≠ KtNone → kt_ran t' = false → kt_ret t' = - EINTR) → 0 ≤ ksem σ' j → (asleep t' = true → past t = true → asleep t = true ∧ ksem σ j ≤ ksem σ' j) → stop_inv σ'.
Proof.
  intros I Hi E1 E2 E3 E4 E5 t t' Hp Hr Hx Hran Hs Ha.
  assert (Hexit : ∀ k, kt_pc (k_kt σ k) = KtExit → kt_pc (k_kt σ' k) = KtExit ∧ kt_ret (k_kt σ' k) = kt_ret (k_kt σ k)) by (intros k Hk; destruct (decide (k = j)) as [->|]; [by apply Hx|by rewrite Hi]).
  split; rewrite ?E1, ?E2, ?E3, ?E4, ?E5.
  - apply (st_lock σ I).
  - intros c k Hk. pose proof (st_past σ I c k Hk). destruct (decide (k = j)) as [->|]; [by apply Hp|by rewrite Hi].
  - apply (st_k σ I).
  - intros k Hk. apply (st_reporting σ I). destruct (decide (k = j)) as [->|]; [|by rewrite Hi in Hk]. destruct (Hr Hk) as [E _]. unfold reporting in *. unfold t, t' in *. by rewrite <- E.
  - intros k Hk. destruct (decide (k = j)) as [->|]; [|rewrite Hi in * by done; by apply (st_complete σ I)]. destruct Hr as [E Er]; [unfold reporting, t'; by rewrite Hk|]. unfold t, t' in *. rewrite Er. apply (st_complete σ I). congruence.
  - intros c k Hk. destruct (st_done σ I c k Hk) as [?|(? & Hk1 & Hk2)]; [by left|right]. destruct (Hexit k Hk1) as [? ->]. done.
  - apply (st_set σ I).
  - intros c k Hk. destruct (st_clear σ I c k Hk) as [Hk1 Hk2]. destruct (Hexit k Hk1) as [? ->]. done.
  - intros c k v Hk. destruct (st_ret σ I c k v Hk) as [Hk1 Hk2]. destruct (Hexit k Hk1) as [? ->]. done.
  - intros k. destruct (decide (k = j)) as [->|]; [done|]. rewrite Hi by done. apply (st_sem σ I).
  - intros c k Hk Hsl. destruct (decide (k = j)) as [->|]; [|rewrite Hi in * by done; by apply (st_up σ I c)]. destruct (Ha Hsl) as [Ha1 Ha2]; [apply (st_past σ I c); by rewrite Hk|]. pose proof (st_up σ I c j Hk Ha1). lia.
  - intros k. destruct (decide (k = j)) as [->|]; [done|]. rewrite Hi by done. apply (st_ran σ I).
Qed.
Lemma stop_inv_same σ σ' : stop_inv σ → k_kt σ' = k_kt σ → k_sp σ' = k_sp σ → stop_lock σ' = stop_lock σ → stop_k σ' = stop_k σ → stop_err σ' = stop_err σ → stop_done σ' = stop_done σ → stop_inv σ'.
Proof. intros [] E0 E1 E2 E3 E4 E5. by split; rewrite ?E0, ?E1, ?E2, ?E3, ?E4, ?E5. Qed.
Lemma stop_inv_work σ σ' j ok : create_inv σ → stop_inv σ → keventd_create_kthread j ok σ = Some σ' → stop_inv σ'.
Proof.
  intros C I. pose proof (cr_each σ C j) as [_ _ _ C4 _]. unfold keventd_create_kthread. destruct (k_wk σ j) eqn:E; try done.
  - destruct ok; intros [= <-]; [|by apply (stop_inv_same σ)]. destruct C4 as [C4 _]. apply (stop_inv_kt σ _ j I); try done; cbn; rewrite ?upd_at_eq; unfold past; rewrite ?C4; try done.
    intros i Hi. by rewrite upd_at_ne.
  - destruct (_ <? _); [|done]. intros [= <-]. by apply (stop_inv_same σ).
  - intros [= <-]. by apply (stop_inv_same σ).
  - intros [= <-]. by apply (stop_inv_same σ).
Qed.
Lemma should_stop_wait σ j : stop_inv σ → kthread_should_stop j σ = true → kt_pc (k_kt σ j) ≠ KtExit → (∃ c, wphase (k_sp σ c) = Some j) ∧ stop_done σ = 0.
Proof.
  intros I Hs Hx. unfold kthread_should_stop in Hs. destruct (stop_k σ) as [k|] eqn:Ek; [|done]. apply bool_decide_eq_true in Hs as ->. apply (st_k σ I) in Ek as [c Hc].
  assert (Hw : wphase (k_sp σ c) = Some j) by (destruct (k_sp σ c) as [| | | | | | |k| | |] eqn:Ec; try done; injection Hc as ->; by destruct (st_clear σ I c j (or_introl Ec))).
  split; [by exists c|]. destruct (st_done σ I c j Hw) as [?|(_ & ? & _)]; done.
Qed.
(** The only thread that reports is the one that is being stopped. *)
Lemma report_unique σ c j k : stop_inv σ → wphase (k_sp σ c) = Some j → reporting (k_kt σ k) = true → k = j.
Proof.
  intros I Hc Hk. destruct (st_reporting σ I k Hk) as [[c' Hc'] _]. assert (c' = c) as -> by (apply (same_stopper σ c' c I); by eapply wphase_locked). congruence.
Qed.
(** A step of the thread that reports *)
Lemma stop_inv_report σ σ' c j : stop_inv σ → wphase (k_sp σ c) = Some j → past (k_kt σ j) = true → kt_pc (k_kt σ j) ≠ KtExit → stop_done σ = 0 → (∀ i, i ≠ j → k_kt σ' i = k_kt σ i) → k_sp σ' = k_sp σ → stop_lock σ' = stop_lock σ → stop_k σ' = stop_k σ →
  kt_tsk (k_kt σ' j) = kt_tsk (k_kt σ j) → kt_ret (k_kt σ' j) = kt_ret (k_kt σ j) → kt_ran (k_kt σ' j) = kt_ran (k_kt σ j) →
  (kt_pc (k_kt σ' j) = KtErr ∧ stop_done σ' = 0 ∨ kt_pc (k_kt σ' j) = KtComplete ∧ stop_done σ' = 0 ∧ stop_err σ' = kt_ret (k_kt σ j) ∨ kt_pc (k_kt σ' j) = KtExit ∧ stop_done σ' = 1 ∧ stop_err σ' = kt_ret (k_kt σ j)) → stop_inv σ'.
Proof.
  intros I Hc Hp Hx Hd Hi E1 E2 E3 Et Er Eran Hcase. assert (Hw : ∀ c' i, wphase (k_sp σ c') = Some i → i = j) by (intros c' i Hc'; assert (c' = c) as -> by (apply (same_stopper σ c' c I); by eapply wphase_locked); congruence).
  assert (Hl : ∀ c', splocked (k_sp σ c') = true → c' = c) by (intros c' Hc'; apply (same_stopper σ c' c I); [done|by eapply wphase_locked]).
  assert (Hp' : past (k_kt σ' j) = true) by (unfold past; by destruct Hcase as [[-> _]|[[-> _]|[-> _]]]).
  split; rewrite ?E1, ?E2, ?E3.
  - apply (st_lock σ I).
  - intros c' i H. destruct (decide (i = j)) as [->|]; [done|]. rewrite Hi by done. by apply (st_past σ I c').
  - apply (st_k σ I).
  - intros i H. destruct (decide (i = j)) as [->|Hne]; [|rewrite Hi in H by done; by destruct Hne; apply (report_unique σ c j i I Hc)]. split; [by exists c|]. unfold reporting in H. destruct Hcase as [[? ?]|[(? & ? & ?)|[Ex _]]]; try done. by rewrite Ex in H.
  - intros i H. destruct (decide (i = j)) as [->|Hne]; [|rewrite Hi in H by done; destruct Hne; apply (report_unique σ c j i I Hc); unfold reporting; by rewrite H]. rewrite Er. destruct Hcase as [[? ?]|[(? & ? & ?)|(? & ? & ?)]]; congruence.
  - intros c' i H. rewrite (Hw c' i H). rewrite Er. destruct Hcase as [[? ?]|[(? & ? & ?)|(? & ? & ?)]]; auto.
  - intros c' i H. assert (c' = c) as -> by (apply Hl; by rewrite H). by rewrite H in Hc.
  - intros c' i H. assert (c' = c) as -> by (apply Hl; by destruct H as [-> | ->]). by destruct H as [H|H]; rewrite H in Hc.
  - intros c' i v H. destruct (decide (i = j)) as [->|]; [by destruct (st_ret σ I c' j v H)|]. rewrite Hi by done. by apply (st_ret σ I c').
  - intros i. destruct (decide (i = j)) as [->|]; [rewrite Et|rewrite Hi by done]; apply (st_sem σ I).
  - intros c' i H Ha. destruct (decide (i = j)) as [->|]; [unfold asleep in Ha; by destruct Hcase as [[Ex _]|[[Ex _]|[Ex _]]]; rewrite Ex in Ha|]. rewrite Hi in * by done. by apply (st_up σ I c').
  - intros i. destruct (decide (i = j)) as [->|]; [|rewrite Hi by done; apply (st_ran σ I)]. rewrite Er, Eran. intros _. apply (st_ran σ I). intros E. unfold past in Hp. by rewrite E in Hp.
Qed.
Ltac ktlocal I E := lazymatch type of E with kt_pc (k_kt _ ?j) = _ => apply (stop_inv_kt _ _ j I) end; cbn; rewrite ?upd_at_eq; unfold past, reporting, asleep; cbn; rewrite ?E; try done; try (intros ? ?; by rewrite ?upd_at_ne); try apply (st_sem _ I).
Lemma stop_inv_thread σ σ' j v : stop_inv σ → kthread j v σ = Some σ' → stop_inv σ'.
Proof.
  intros I. pose proof (st_ran σ I j) as Hran. unfold kthread. destruct (kt_pc (k_kt σ j)) eqn:E; try done.
  - intros [= <-]. ktlocal I E. intros _. by apply Hran.
  - intros [= <-]. ktlocal I E. intros _. by apply Hran.
  - intros [= <-]. ktlocal I E. intros _. by apply Hran.
  - intros [= <-]. destruct (_ =? _); ktlocal I E; intros _; by apply Hran.
  - intros [= <-]. ktlocal I E. intros _. by apply Hran.
  - destruct (Z.ltb_spec 0 (ksem σ j)); [|done]. intros [= <-]. ktlocal I E; [intros _; by apply Hran|lia].
  - intros [= <-]. destruct (kthread_should_stop j σ); ktlocal I E; intros _; by apply Hran.
  - intros [= <-]. ktlocal I E.
  - intros [= <-]. destruct (kthread_should_stop j σ) eqn:Es; [|ktlocal I E; intros _; by apply Hran]. destruct (should_stop_wait σ j I Es) as [[c Hc] Hd]; [congruence|].
    apply (stop_inv_report σ _ c j I Hc); cbn; rewrite ?upd_at_eq; unfold past; rewrite ?E; auto. intros i Hi. by rewrite upd_at_ne.
  - intros [= <-]. destruct (st_reporting σ I j) as [[c Hc] Hd]; [unfold reporting; by rewrite E|].
    apply (stop_inv_report σ _ c j I Hc); cbn; rewrite ?upd_at_eq; unfold past; rewrite ?E; auto. intros i Hi. by rewrite upd_at_ne.
  - intros [= <-]. destruct (st_reporting σ I j) as [[c Hc] Hd]; [unfold reporting; by rewrite E|]. pose proof (st_complete σ I j E) as He.
    apply (stop_inv_report σ _ c j I Hc); cbn; rewrite ?upd_at_eq; unfold past; rewrite ?E; auto; [intros i Hi; by rewrite upd_at_ne|]. right. right. split; [done|]. split; [lia|done].
Qed.
(** A step of the caller of [kthread_stop] that has the mutex, or takes it *)
Lemma stop_inv_sp σ σ' c : stop_inv σ → (∀ c', c' ≠ c → splocked (k_sp σ c') = false) → (∀ c', c' ≠ c → k_sp σ' c' = k_sp σ c') → k_kt σ' = k_kt σ → stop_err σ' = stop_err σ →
  (stop_lock σ' = if splocked (k_sp σ' c) then Some c else None) → stopped (k_sp σ' c) = stopped (k_sp σ c) → (stop_k σ' = kphase (k_sp σ' c)) →
  (∀ j, reporting (k_kt σ j) = true → wphase (k_sp σ' c) = Some j ∧ stop_done σ' = 0) →
  (∀ j, wphase (k_sp σ' c) = Some j → stop_done σ' = 0 ∨ stop_done σ' = 1 ∧ kt_pc (k_kt σ j) = KtExit ∧ stop_err σ = kt_ret (k_kt σ j)) →
  (∀ j, k_sp σ' c = SpSet j → stop_done σ' = 0) → (∀ j, k_sp σ' c = SpClear j ∨ k_sp σ' c = SpErr j → kt_pc (k_kt σ j) = KtExit ∧ stop_err σ = kt_ret (k_kt σ j)) →
  (∀ j v, k_sp σ' c = SpUnlock j v ∨ k_sp σ' c = SpDone j v → kt_pc (k_kt σ j) = KtExit ∧ v = kt_ret (k_kt σ j)) →
  (∀ j, k_sp σ' c = SpWait j → asleep (k_kt σ j) = true → 0 < ksem σ j) → stop_inv σ'.
Proof.
  intros I Hu Hs Ek Ee El Est Ekk Hr Hd Hset Hcl Hret Hup.
  assert (Hn : ∀ c', c' ≠ c → splocked (k_sp σ' c') = false ∧ kphase (k_sp σ' c') = None ∧ wphase (k_sp σ' c') = None) by (intros c' Hne; rewrite Hs by done; pose proof (Hu c' Hne); by destruct (k_sp σ c')).
  split; rewrite ?Ek, ?Ee.
  - intros c'. rewrite El. destruct (decide (c' = c)) as [->|Hne]; [by destruct (splocked (k_sp σ' c))|]. destruct (Hn c' Hne) as [-> _]. split; [|done]. destruct (splocked (k_sp σ' c)); congruence.
  - intros c' j. destruct (decide (c' = c)) as [->|Hne]; [rewrite Est|rewrite Hs by done]; apply (st_past σ I).
  - intros j. rewrite Ekk. split; [by exists c|]. intros [c' Hc']. destruct (decide (c' = c)) as [->|Hne]; [done|]. destruct (Hn c' Hne) as (_ & E & _). congruence.
  - intros j Hj. destruct (Hr j Hj). split; [by exists c|done].
  - apply (st_complete σ I).
  - intros c' j Hc'. destruct (decide (c' = c)) as [->|Hne]; [by apply Hd|]. destruct (Hn c' Hne) as (_ & _ & E). congruence.
  - intros c' j Hc'. destruct (decide (c' = c)) as [->|Hne]; [by apply (Hset j)|]. destruct (Hn c' Hne) as (E & _). by rewrite Hc' in E.
  - intros c' j Hc'. destruct (decide (c' = c)) as [->|Hne]; [by apply Hcl|]. destruct (Hn c' Hne) as (E & _). by destruct Hc' as [Hc'|Hc']; rewrite Hc' in E.
  - intros c' j v Hc'. destruct (decide (c' = c)) as [->|Hne]; [by apply Hret|]. rewrite Hs in Hc' by done. by apply (st_ret σ I c').
  - apply (st_sem σ I).
  - intros c' j Hc'. destruct (decide (c' = c)) as [->|Hne]; [by apply Hup|]. destruct (Hn c' Hne) as (E & _). by rewrite Hc' in E.
  - apply (st_ran σ I).
Qed.
Lemma others_unlocked σ c : stop_inv σ → (stop_lock σ = None ∨ splocked (k_sp σ c) = true) → ∀ c', c' ≠ c → splocked (k_sp σ c') = false.
Proof. intros I Hl c' Hne. apply not_true_is_false. intros L. destruct Hl as [E|L']; [apply (st_lock σ I) in L; congruence|]. apply Hne. by apply (same_stopper σ c' c I). Qed.
(** Outside of the phases no thread reports. *)
Lemma no_report σ c j : stop_inv σ → (∀ c', c' ≠ c → splocked (k_sp σ c') = false) → wphase (k_sp σ c) = None ∨ stop_done σ ≠ 0 → reporting (k_kt σ j) = true → False.
Proof.
  intros I Hu Hw Hj. destruct (st_reporting σ I j Hj) as [[c' Hc'] Hd]. destruct Hw as [Hw|Hw]; [|done]. destruct (decide (c' = c)) as [->|Hne]; [congruence|]. pose proof (Hu c' Hne) as E. apply wphase_locked in Hc'. congruence.
Qed.
Lemma stop_inv_on σ j f : stop_inv σ → (∀ t, kt_pc (f t) = kt_pc t ∧ kt_ret (f t) = kt_ret t ∧ kt_ran (f t) = kt_ran t ∧ tk_sleep_lock (kt_tsk t) ≤ tk_sleep_lock (kt_tsk (f t))) → stop_inv (on_kt j f σ).
Proof.
  intros I Hf. destruct (Hf (k_kt σ j)) as (F1 & F2 & F3 & F4). pose proof (st_sem σ I j). apply (stop_inv_kt σ _ j I); cbn; rewrite ?upd_at_eq; unfold past, reporting, asleep; rewrite ?F1, ?F2, ?F3; try done; try lia; [intros i Hi; by rewrite upd_at_ne|apply (st_ran σ I)].
Qed.
Lemma stop_k_phase σ c : stop_inv σ → (∀ c', c' ≠ c → splocked (k_sp σ c') = false) → stop_k σ = kphase (k_sp σ c).
Proof.
  intros I Hu. destruct (stop_k σ) as [j|] eqn:E.
  - apply (st_k σ I) in E as [c' Hc']. destruct (decide (c' = c)) as [->|Hne]; [done|]. pose proof (Hu c' Hne) as E. by destruct (k_sp σ c').
  - destruct (kphase (k_sp σ c)) as [j|] eqn:Ek; [|done]. assert (stop_k σ = Some j) by (apply (st_k σ I); eauto). congruence.
Qed.
Ltac spstep I E Hu := eapply (stop_inv_sp _ _ _ I Hu); cbn; rewrite ?upd_at_eq, ?E; cbn; try done; try (intros ? ?; by rewrite upd_at_ne); try (by intros ? [?|?]); try (by intros ? ? [?|?]).
Lemma stop_inv_stop σ σ' c : stop_inv σ → kthread_stop c σ = Some σ' → stop_inv σ'.
Proof.
  intros I. unfold kthread_stop. destruct (k_sp σ c) as [|j|j|j|j|j|j|j|j|j v|j v] eqn:E; try done.
  - destruct (stop_lock σ) eqn:El; [done|]. intros [= <-]. pose proof (others_unlocked σ c I (or_introl El)) as Hu. pose proof (stop_k_phase σ c I Hu) as Hk. rewrite E in Hk. spstep I E Hu.
    intros i Hi. exfalso. apply (no_report σ c i I Hu); [left; by rewrite E|done].
  - intros [= <-]. assert (L : splocked (k_sp σ c) = true) by (by rewrite E). pose proof (others_unlocked σ c I (or_intror L)) as Hu. pose proof (stop_k_phase σ c I Hu) as Hk. rewrite E in Hk. spstep I E Hu; [apply (st_lock σ I); by rewrite E|].
    intros i Hi. exfalso. apply (no_report σ c i I Hu); [left; by rewrite E|done].
  - intros [= <-]. assert (L : splocked (k_sp σ c) = true) by (by rewrite E). pose proof (others_unlocked σ c I (or_intror L)) as Hu. pose proof (st_set σ I c j E) as Hd. spstep I E Hu; [apply (st_lock σ I); by rewrite E| |auto].
    intros i Hi. exfalso. apply (no_report σ c i I Hu); [left; by rewrite E|done].
  - intros [= <-]. assert (I' : stop_inv (on_kt j (kt_state TASK_RUNNING) σ)) by (apply stop_inv_on; [done|]; intros t; cbn; repeat split; lia). set (σ1 := on_kt j _ σ) in *. assert (E' : k_sp σ1 c = SpState j) by done. clearbody σ1.
    assert (L : splocked (k_sp σ1 c) = true) by (by rewrite E'). pose proof (others_unlocked σ1 c I' (or_intror L)) as Hu. pose proof (stop_k_phase σ1 c I' Hu) as Hk. rewrite E' in Hk. spstep I' E' Hu; [apply (st_lock σ1 I'); by rewrite E'| |].
    + intros i Hi. destruct (st_reporting σ1 I' i Hi) as [[c' Hc'] Hd]. split; [|done]. assert (c' = c) as -> by (apply (same_stopper σ1 c' c I'); [by eapply wphase_locked|by rewrite E']). by rewrite E' in Hc'.
    + intros i [= <-]. apply (st_done σ1 I' c). by rewrite E'.
  - intros [= <-]. assert (I' : stop_inv (on_kt j (kt_sem 1) σ)) by (apply stop_inv_on; [done|]; intros t; cbn; repeat split; lia). set (σ1 := on_kt j _ σ) in *. assert (E' : k_sp σ1 c = SpUp j) by done. assert (Hs : 0 < ksem σ1 j) by (cbn; rewrite upd_at_eq; cbn; pose proof (st_sem σ I j); lia). clearbody σ1.
    assert (L : splocked (k_sp σ1 c) = true) by (by rewrite E'). pose proof (others_unlocked σ1 c I' (or_intror L)) as Hu. pose proof (stop_k_phase σ1 c I' Hu) as Hk. rewrite E' in Hk. spstep I' E' Hu; [apply (st_lock σ1 I'); by rewrite E'| | |].
    + intros i Hi. destruct (st_reporting σ1 I' i Hi) as [[c' Hc'] Hd]. split; [|done]. assert (c' = c) as -> by (apply (same_stopper σ1 c' c I'); [by eapply wphase_locked|by rewrite E']). by rewrite E' in Hc'.
    + intros i [= <-]. apply (st_done σ1 I' c). by rewrite E'.
    + by intros i [= <-] _.
  - destruct (Z.ltb_spec 0 (stop_done σ)) as [Hd|]; [|done]. intros [= <-]. assert (L : splocked (k_sp σ c) = true) by (by rewrite E). pose proof (others_unlocked σ c I (or_intror L)) as Hu. pose proof (stop_k_phase σ c I Hu) as Hk. rewrite E in Hk.
    destruct (st_done σ I c j) as [?|(Hd1 & Hx)]; [by rewrite E|lia|]. spstep I E Hu; [apply (st_lock σ I); by rewrite E| |].
    + intros i Hi. exfalso. apply (no_report σ c i I Hu); [right; lia|done].
    + by intros i [[= <-]|?].
  - intros [= <-]. assert (L : splocked (k_sp σ c) = true) by (by rewrite E). pose proof (others_unlocked σ c I (or_intror L)) as Hu. pose proof (st_clear σ I c j (or_introl E)) as Hx. spstep I E Hu; [apply (st_lock σ I); by rewrite E| |].
    + intros i Hi. exfalso. apply (no_report σ c i I Hu); [left; by rewrite E|done].
    + by intros i [?|[= <-]].
  - intros [= <-]. assert (L : splocked (k_sp σ c) = true) by (by rewrite E). pose proof (others_unlocked σ c I (or_intror L)) as Hu. pose proof (stop_k_phase σ c I Hu) as Hk. rewrite E in Hk. destruct (st_clear σ I c j (or_intror E)) as [Hx He]. spstep I E Hu; [apply (st_lock σ I); by rewrite E| |].
    + intros i Hi. exfalso. apply (no_report σ c i I Hu); [left; by rewrite E|done].
    + by intros i v [[= <- <-]|?].
  - intros [= <-]. assert (L : splocked (k_sp σ c) = true) by (by rewrite E). pose proof (others_unlocked σ c I (or_intror L)) as Hu. pose proof (stop_k_phase σ c I Hu) as Hk. rewrite E in Hk. pose proof (st_ret σ I c j v (or_introl E)) as Hx. spstep I E Hu.
    + intros i Hi. exfalso. apply (no_report σ c i I Hu); [left; by rewrite E|done].
    + by intros i v' [?|[= <- <-]].
Qed.
Lemma stop_inv_call σ c j : stop_inv σ → k_sp σ c = SpIdle → past (k_kt σ j) = true → stop_inv (set_sp c (SpLock j) σ).
Proof.
  intros I E Hp. set (σ' := set_sp c (SpLock j) σ).
  assert (Hs : ∀ c', k_sp σ' c' = SpLock j ∧ k_sp σ c' = SpIdle ∨ k_sp σ' c' = k_sp σ c') by (intros c'; cbn; destruct (decide (c' = c)) as [->|]; [left; by rewrite upd_at_eq|right; by rewrite upd_at_ne]).
  split; cbn [σ' set_sp k_kt stop_lock stop_k stop_err stop_done]; change (upd_at c (λ _, SpLock j) (k_sp σ)) with (k_sp σ').
  - intros c'. rewrite (st_lock σ I). by destruct (Hs c') as [[-> ->]| ->].
  - intros c' i. destruct (Hs c') as [[-> _]| ->]; [by intros [= <-]|apply (st_past σ I)].
  - intros i. rewrite (st_k σ I). split; intros [c' Hc']; exists c'; by destruct (Hs c') as [[E1 E2]|E1]; rewrite E1 in *; rewrite ?E2 in *.
  - intros i Hi. destruct (st_reporting σ I i Hi) as [[c' Hc'] Hd]. split; [|done]. exists c'. by destruct (Hs c') as [[_ E2]| ->]; [rewrite E2 in Hc'|].
  - apply (st_complete σ I).
  - intros c' i. destruct (Hs c') as [[-> _]| ->]; [done|apply (st_done σ I)].
  - intros c' i. destruct (Hs c') as [[-> _]| ->]; [done|apply (st_set σ I)].
  - intros c' i. destruct (Hs c') as [[-> _]| ->]; [by intros [?|?]|apply (st_clear σ I)].
  - intros c' i v. destruct (Hs c') as [[-> _]| ->]; [by intros [?|?]|apply (st_ret σ I)].
  - apply (st_sem σ I).
  - intros c' i. destruct (Hs c') as [[-> _]| ->]; [done|apply (st_up σ I)].
  - apply (st_ran σ I).
Qed.
Lemma create_inv_on σ j f : create_inv σ → (∀ t, kt_pc (f t) = kt_pc t) → create_inv (on_kt j f σ).
Proof. intros I Hf. apply (create_inv_kt σ _ j I); try done; cbn; unfold early, past; rewrite ?upd_at_eq, ?Hf; try done. intros i Hi. by rewrite upd_at_ne. Qed.
Lemma create_inv_stop σ σ' c : create_inv σ → kthread_stop c σ = Some σ' → create_inv σ'.
Proof.
  assert (Hsame : ∀ τ τ', create_inv τ → k_cr τ' = k_cr τ → k_wk τ' = k_wk τ → k_ci τ' = k_ci τ → k_kt τ' = k_kt τ → k_queue τ' = k_queue τ → k_current τ' = k_current τ → k_bad τ' = k_bad τ → create_inv τ').
  { intros τ τ' [H1 H2 H3 H4] E1 E2 E3 E4 E5 E6 E7. split; rewrite ?E2, ?E5, ?E6, ?E7; auto. intros j. unfold inqueue. rewrite E1, E3, E4, E5. apply H1. }
  intros I. unfold kthread_stop. destruct (k_sp σ c); try done; [destruct (stop_lock σ); [done|]|..| | | |]; try (intros [= <-]; by apply (Hsame σ)).
  - intros [= <-]. apply (Hsame (on_kt j (kt_state TASK_RUNNING) σ)); try done. by apply create_inv_on.
  - intros [= <-]. apply (Hsame (on_kt j (kt_sem 1) σ)); try done. by apply create_inv_on.
  - destruct (_ <? _); [|done]. intros [= <-]. by apply (Hsame σ).
Qed.

Definition k_inv (σ : ksys) : Prop := create_inv σ ∧ stop_inv σ.
Lemma k_inv_step σ σ' : k_step σ σ' → k_inv σ → k_inv σ'.
Proof.
  intros H [C I]. destruct H as [σ|σ j E|σ σ' j E|σ σ' E|σ σ' j ok E|σ σ' j v E|σ c j E1 E2|σ σ' c E|σ j|σ j].
  - split; [|by apply (stop_inv_same σ)]. destruct C as [H1 H2 H3 H4]. split; auto.
  - split; [|by apply (stop_inv_same σ)]. pose proof (cr_each σ C j) as [C1 C2 C3 C4 C5]. rewrite E in *. rewrite C2 in C4. assert (Hq : inqueue σ j = false) by (destruct (inqueue σ j); [by specialize (C3 eq_refl)|done]).
    apply (create_inv_one σ _ j C); cbn; rewrite ?upd_at_eq; try apply (cr_nodup σ C); try apply (cr_current σ C); try apply (cr_bad σ C); auto; try kother. change (inqueue _ j) with (inqueue σ j). rewrite C2, Hq. split; cbn; auto; try done. destruct C4. by split.
  - split; [by eapply create_inv_create|]. unfold kthread_create in E. destruct (k_cr σ j); try done; [injection E as <-; destruct (helper_wq σ)|destruct (k_wk σ j); try done; injection E as <-|destruct (_ <? _); [injection E as <-|done]|injection E as <-]; by apply (stop_inv_same σ).
  - split; [by eapply create_inv_next|]. unfold helper_next in E. destruct (k_current σ) as [i|]; [destruct (k_wk σ i); try done; injection E as <-|destruct (k_queue σ); [done|]; injection E as <-]; by apply (stop_inv_same σ).
  - split; [by eapply create_inv_work|by eapply stop_inv_work].
  - split; [by eapply create_inv_thread|by eapply stop_inv_thread].
  - split; [destruct C as [H1 H2 H3 H4]; split; auto|]. apply stop_inv_call; [done|done|]. by apply (c_done _ _ _ _ _ (cr_each σ C j)).
  - split; [by eapply create_inv_stop|by eapply stop_inv_stop].
  - split; [by apply create_inv_on|]. apply stop_inv_on; [done|]. intros t. cbn. repeat split; lia.
  - split; [by apply create_inv_on|]. apply stop_inv_on; [done|]. intros t. cbn. repeat split; lia.
Qed.
Lemma k_inv_reachable σ : rtc k_step k_init σ → k_inv σ.
Proof.
  intros Hr. apply (rtc_ind_r (R := k_step) k_inv k_init); [|intros σ1 σ2 _ Hst; by apply k_inv_step|done]. split.
  - split; [intros j; by split|apply base.NoDup_nil_2|done|done].
  - split; cbn; try done; try (by intros ? ? [?|?]); try (by intros ? ? ? [?|?]). intros j. split; [done|]. by intros [? ?].
Qed.

(** Creating kernel threads: in every interleaving of any number of creators, the helper and the
    threads, the structure on the stack of a creator is not used after [kthread_create] has returned; a
    thread that was returned has started and waits to be woken or was; and as long as a creator waits, the
    helper or a new thread can go on. *)
Theorem kthread_create_sound σ : rtc k_step k_init σ →
  k_bad σ = false ∧ (∀ j, k_cr σ j = CrDone true → past (k_kt σ j) = true) ∧
  (∀ j, k_cr σ j = CrWait ∨ k_cr σ j = CrRun → is_Some (kthread_create j σ) ∨ is_Some (helper_next σ) ∨ ∃ i, is_Some (keventd_create_kthread i true σ) ∨ is_Some (kthread i 0 σ)).
Proof.
  intros Hr. destruct (k_inv_reachable σ Hr) as [C I]. split; [apply (cr_bad σ C)|]. split; [intros j; apply (c_done _ _ _ _ _ (cr_each σ C j))|].
  assert (Hw : ∀ i, k_wk σ i ≠ WkNone → k_wk σ i ≠ WkEnd → is_Some (keventd_create_kthread i true σ) ∨ is_Some (kthread i 0 σ)).
  { intros i Hi1 Hi2. pose proof (c_work _ _ _ _ _ (cr_each σ C i)) as W. unfold keventd_create_kthread, kthread. destruct (k_wk σ i); try done; try (left; by eexists). destruct W as (W1 & _ & W2). destruct (past (k_kt σ i)) eqn:Ep.
    - left. rewrite W2. by eexists.
    - right. unfold past in Ep. destruct (kt_pc (k_kt σ i)); try done; by eexists. }
  intros j Hj. pose proof (cr_each σ C j) as [_ C2 C3 C4 _]. destruct Hj as [E|E]; rewrite E in *.
  - destruct (inqueue σ j) eqn:Eq.
    + right. destruct (k_current σ) as [i|] eqn:Ec.
      * pose proof (cr_current σ C i Ec) as Hi. destruct (decide (k_wk σ i = WkEnd)) as [Ei|Hne]; [left; unfold helper_next; rewrite Ec, Ei; by eexists|]. right. exists i. by apply Hw.
      * left. unfold helper_next. rewrite Ec. unfold inqueue in Eq. apply bool_decide_eq_true in Eq. destruct (k_queue σ); [by apply elem_of_nil in Eq|by eexists].
    + destruct (decide (k_wk σ j = WkEnd)) as [Ej|Hne]; [|right; right; exists j; by apply Hw]. left. unfold kthread_create. rewrite E. rewrite Ej in C4. destruct C4 as [_ C4]. destruct (Z.ltb_spec 0 (ci_done (k_ci σ j))); [by eexists|]. specialize (C4 eq_refl). lia.
  - destruct (decide (k_wk σ j = WkEnd)) as [Ej|Hne]; [|right; right; exists j; by apply Hw]. left. unfold kthread_create. rewrite E, Ej. by eexists.
Qed.

(** C35: stopping kernel threads: in every interleaving [kthread_stop] returns only after the thread has
    come to its end, with the result of its function, or [-EINTR] if that was never called; at
    most one thread sees that it should stop, one that a caller waits for; and as long as a caller waits, the
    thread can go on (no wake-up is lost) unless it had ended on its own before. *)
Theorem kthread_stop_sound σ : rtc k_step k_init σ →
  (∀ c j v, k_sp σ c = SpDone j v → kt_pc (k_kt σ j) = KtExit ∧ v = kt_ret (k_kt σ j) ∧ (kt_ran (k_kt σ j) = false → v = - EINTR)) ∧
  (∀ j, kthread_should_stop j σ = true → ∃ c, stopped (k_sp σ c) = Some j ∧ stop_lock σ = Some c) ∧
  (∀ c j, k_sp σ c = SpWait j → is_Some (kthread_stop c σ) ∨ (∀ v, is_Some (kthread j v σ)) ∨ kt_pc (k_kt σ j) = KtExit).
Proof.
  intros Hr. destruct (k_inv_reachable σ Hr) as [C I]. split; [|split].
  - intros c j v E. destruct (st_ret σ I c j v (or_intror E)) as [H1 H2]. split; [done|]. split; [done|]. intros H3. rewrite H2. apply (st_ran σ I); [congruence|done].
  - intros j. unfold kthread_should_stop. destruct (stop_k σ) as [k|] eqn:Ek; [|done]. intros ->%bool_decide_eq_true. apply (st_k σ I) in Ek as [c Hc]. exists c. destruct (proj2 (phases (k_sp σ c))) as [L ->]; [congruence|]. split; [done|]. by apply (st_lock σ I).
  - intros c j E. unfold kthread_stop. rewrite E. destruct (0 <? stop_done σ); [left; by eexists|]. right. pose proof (st_past σ I c j ltac:(by rewrite E)) as Hp. pose proof (st_up σ I c j E) as Hu. unfold past, asleep in Hp, Hu. unfold kthread.
    destruct (kt_pc (k_kt σ j)) eqn:Ek; try done; auto; left; intros v; try (by eexists). destruct (Z.ltb_spec 0 (ksem σ j)); [by eexists|]. specialize (Hu eq_refl). lia.
Qed.

(** Schedules *)
Inductive kact := AHelper | ACall (j : nat) | ACreate (j : nat) | ANext | AWork (j : nat) | AThread (j : nat) (v : Z) | AStop (c j : nat) | AStopRun (c : nat) | AWake (j : nat).
Definition kact_run (a : kact) (σ : ksys) : ksys :=
  match a with
  | AHelper => set_queue true (k_queue σ) (k_current σ) σ
  | ACall j => match k_cr σ j with CrIdle => set_cr j CrCall (KSys (helper_wq σ) (k_queue σ) (k_current σ) (k_cr σ) (upd_at j (λ _, new_info) (k_ci σ)) (k_wk σ) (k_kt σ) (stop_lock σ) (stop_k σ) (stop_err σ) (stop_done σ) (k_sp σ) (k_bad σ)) | _ => σ end
  | ACreate j => default σ (kthread_create j σ)
  | ANext => default σ (helper_next σ)
  | AWork j => default σ (keventd_create_kthread j true σ)
  | AThread j v => default σ (kthread j v σ)
  | AStop c j => match k_sp σ c, k_cr σ j with SpIdle, CrDone true => set_sp c (SpLock j) σ | _, _ => σ end
  | AStopRun c => default σ (kthread_stop c σ)
  | AWake j => on_kt j (kt_sem 1) (on_kt j (kt_state TASK_RUNNING) σ)
  end.
Fixpoint k_exec (l : list kact) (σ : ksys) : ksys := match l with [] => σ | a :: l => k_exec l (kact_run a σ) end.
Lemma k_exec_reachable l σ : rtc k_step k_init σ → rtc k_step k_init (k_exec l σ).
Proof.
  revert σ. induction l as [|a l IH]; intros σ Hr; cbn [k_exec]; [done|]. apply IH. destruct a as [|j|j| |j|j v|c j|c|j]; cbn [kact_run].
  - eapply rtc_r; [exact Hr|apply KsHelper].
  - destruct (k_cr σ j) eqn:E; try done. eapply rtc_r; [exact Hr|by apply KsCall].
  - destruct (kthread_create j σ) eqn:E; [|done]. eapply rtc_r; [exact Hr|by eapply KsCreate].
  - destruct (helper_next σ) eqn:E; [|done]. eapply rtc_r; [exact Hr|by eapply KsNext].
  - destruct (keventd_create_kthread j true σ) eqn:E; [|done]. eapply rtc_r; [exact Hr|by eapply KsWork].
  - destruct (kthread j v σ) eqn:E; [|done]. eapply rtc_r; [exact Hr|by eapply KsThread].
  - destruct (k_sp σ c) eqn:E1; try done. destruct (k_cr σ j) as [| | | | |[]] eqn:E2; try done. eapply rtc_r; [exact Hr|by apply KsStop].
  - destruct (kthread_stop c σ) eqn:E; [|done]. eapply rtc_r; [exact Hr|by eapply KsStopRun].
  - eapply rtc_r; [eapply rtc_r; [exact Hr|apply KsOtherState]|apply KsOtherUp].
Qed.
(** Thread 0 is created without the helper, woken and stopped while its function runs, which returns 5; thread 1 is created by the
    helper and stopped before it was woken. *)
Definition create_0 : list kact := [ACall 0; ACreate 0; AWork 0; AThread 0 0; AThread 0 0; AThread 0 0; AWork 0; AWork 0; AWork 0; ACreate 0; ACreate 0].
Definition create_1 : list kact := [AHelper; ACall 1; ACreate 1; ANext; AWork 1; AThread 1 0; AThread 1 0; AThread 1 0; AWork 1; AWork 1; AWork 1; ACreate 1; ACreate 1].
Definition stop (c j : nat) : list kact := AStop c j :: replicate 6 (AStopRun c).
Definition k_demo : ksys :=
  k_exec (create_0 ++ [AWake 0; AThread 0 0; AThread 0 0; AThread 0 0] ++ stop 0 0 ++ [AThread 0 5; AThread 0 0; AThread 0 0; AThread 0 0] ++ replicate 4 (AStopRun 0) ++
          create_1 ++ stop 1 1 ++ replicate 6 (AThread 1 0) ++ replicate 4 (AStopRun 1)) k_init.
Lemma k_demo_reachable : rtc k_step k_init k_demo.
Proof. apply k_exec_reachable, rtc_refl. Qed.
Lemma kthread_create_sound_witness : k_cr k_demo 1%nat = CrDone true ∧ past (k_kt k_demo 1%nat) = true.
Proof. split; [vm_compute; reflexivity|]. exact (proj1 (proj2 (kthread_create_sound k_demo k_demo_reachable)) 1%nat eq_refl). Defined.
Lemma kthread_stop_sound_witness : k_sp k_demo 0%nat = SpDone 0 5 ∧ k_sp k_demo 1%nat = SpDone 1 (- EINTR) ∧ kt_pc (k_kt k_demo 0%nat) = KtExit.
Proof.
  split; [vm_compute; reflexivity|]. split; [vm_compute; reflexivity|]. exact (proj1 (proj1 (kthread_stop_sound k_demo k_demo_reachable) 0%nat 0%nat 5 eq_refl)).
Defined.
