(* ===== verification/FileSys.v ===== *)
(** Pseudo file systems: arch/dde_kit/inodes.c and fs.c, and the block device nodes of fs/block_dev.c.

    The port keeps just so much of the file system layer that block devices and sockets can have
    inodes.  Inodes, super blocks and mounts are records at addresses; the
    lists [s_inodes], [super_blocks], [fs_supers] and [all_bdevs] are lists of addresses.  A
    table of operations is static or a variable on the stack of
    [get_sb_pseudo], whose use after the return is a fault.  Which allocations succeed is a
    parameter. *)

From S2P Require Import Prelude.

Definition I_LOCK : Z := 8.
Definition I_NEW : Z := 64.
Definition S_BIAS : Z := 2 ^ 30.
Definition MAX_NON_LFS : Z := 2 ^ 31 - 1.
Definition MS_ACTIVE : Z := 2 ^ 30.
Definition MS_NOUSER : Z := 2 ^ 31.
Definition S_IFBLK : Z := 0x6000.
Definition S_IFDIR : Z := 0x4000.
Definition S_IRUSR : Z := 0x100.
Definition S_IWUSR : Z := 0x80.

(** An inode, with the block device that [BDEV_I] finds around it *)
Record inode := Inode {
  i_sb : option loc; i_blkbits : Z; i_count : Z; i_nlink : Z; i_state : Z; i_mode : Z; i_rdev : Z; i_bdev : bool;
  bd_dev : Z; bd_inode : option loc; bd_block_size : Z
}.
Definition zero_inode : inode := Inode None 0 0 0 0 0 0 false 0 None 0.
(** [s_op]: a static table, with [alloc_inode] or without, or the local variable [default_ops] *)
Inductive super_operations := OpNull | OpStatic (alloc_inode : bool) | OpLocal.
Record super_block := Super {
  s_type : option Z; s_inodes : list loc; s_blocksize_bits : Z; s_flags : Z; s_magic : Z; s_op : super_operations; s_count : Z; s_active : Z; s_maxbytes : Z; s_time_gran : Z
}.
Definition zero_super : super_block := Super None [] 0 0 0 OpNull 0 0 0 0.

Record fst_ := Fst {
  f_tries : nat; f_next : loc; inodes : gmap loc inode; supers : gmap loc super_block;
  super_blocks : list loc; fs_supers : gmap Z (list loc); vfs_mounts : list (Z * loc); all_bdevs : list loc;
  in_frame : bool  (* [get_sb_pseudo] has not returned *)
}.
Definition fset_inodes (m : gmap loc inode) (s : fst_) : fst_ := Fst (f_tries s) (f_next s) m (supers s) (super_blocks s) (fs_supers s) (vfs_mounts s) (all_bdevs s) (in_frame s).
Definition fset_supers (m : gmap loc super_block) (s : fst_) : fst_ := Fst (f_tries s) (f_next s) (inodes s) m (super_blocks s) (fs_supers s) (vfs_mounts s) (all_bdevs s) (in_frame s).
Definition fset_lists (l : list loc) (m : gmap Z (list loc)) (s : fst_) : fst_ := Fst (f_tries s) (f_next s) (inodes s) (supers s) l m (vfs_mounts s) (all_bdevs s) (in_frame s).
Definition fset_mounts (l : list (Z * loc)) (s : fst_) : fst_ := Fst (f_tries s) (f_next s) (inodes s) (supers s) (super_blocks s) (fs_supers s) l (all_bdevs s) (in_frame s).
Definition fset_bdevs (l : list loc) (s : fst_) : fst_ := Fst (f_tries s) (f_next s) (inodes s) (supers s) (super_blocks s) (fs_supers s) (vfs_mounts s) l (in_frame s).
Definition fset_frame (b : bool) (s : fst_) : fst_ := Fst (f_tries s) (f_next s) (inodes s) (supers s) (super_blocks s) (fs_supers s) (vfs_mounts s) (all_bdevs s) b.
Definition ftried (next : loc) (s : fst_) : fst_ := Fst (S (f_tries s)) next (inodes s) (supers s) (super_blocks s) (fs_supers s) (vfs_mounts s) (all_bdevs s) (in_frame s).

Abbreviation FM := (M fst_).

Section FileSys.
Context (mem : nat → bool).

Definition falloc : FM (option loc) := λ s, if mem (f_tries s) then Done (Some (f_next s), ftried (Pos.succ (f_next s)) s) else Done (None, ftried (f_next s) s).
Definition sb_get (sb : loc) : FM super_block := λ s, match supers s !! sb with Some x => Done (x, s) | None => Fault FFreed end.
Definition sb_set (sb : loc) (f : super_block → super_block) : FM unit := x ← sb_get sb; modify (λ s, fset_supers (<[sb := f x]> (supers s)) s).
(** Access through a pointer that may be NULL *)
Definition get_inode (p : option loc) : FM (loc * inode) := λ s,
  match p with None => Fault FNull | Some i => match inodes s !! i with Some x => Done ((i, x), s) | None => Fault FFreed end end.
Definition put_inode (i : loc) (x : inode) : FM unit := modify (λ s, fset_inodes (<[i := x]> (inodes s)) s).

(** [sb->s_op->alloc_inode] *)
Definition op_alloc_inode (sb : loc) : FM bool :=
  x ← sb_get sb;
  match s_op x with
  | OpNull => fail FNull
  | OpStatic b => mret b
  | OpLocal => b ← gets in_frame; if (b : bool) then mret false else fail FFreed
  end.
(** Both the operation and [kzalloc] give a new inode or NULL; what the allocator leaves in the fields is taken as 0. *)
Definition new_inode (sb : loc) : FM (option loc) :=
  _ ← op_alloc_inode sb;
  p ← falloc;
  match p with None => mret None | Some i => put_inode i zero_inode ;; mret (Some i) end.
Definition dde_linux26_alloc_inode (sb : loc) : FM (option loc) :=
  _ ← op_alloc_inode sb;
  p ← falloc;
  match p with
  | None => mret None
  | Some i =>
      x ← sb_get sb;
      put_inode i (Inode (Some sb) (s_blocksize_bits x) 1 1 (i_state zero_inode) (i_mode zero_inode) 0 false (bd_dev zero_inode) (bd_inode zero_inode) (bd_block_size zero_inode)) ;;
      mret (Some i)
  end.
Definition inode_count (n : Z) (x : inode) : inode := Inode (i_sb x) (i_blkbits x) n (i_nlink x) (i_state x) (i_mode x) (i_rdev x) (i_bdev x) (bd_dev x) (bd_inode x) (bd_block_size x).
Definition inode_state (n : Z) (x : inode) : inode := Inode (i_sb x) (i_blkbits x) (i_count x) (i_nlink x) n (i_mode x) (i_rdev x) (i_bdev x) (bd_dev x) (bd_inode x) (bd_block_size x).
Definition __iget (p : option loc) : FM unit := q ← get_inode p; put_inode (fst q) (inode_count (i_count (snd q) + 1) (snd q)).
Definition unlock_new_inode (i : loc) : FM unit := q ← get_inode (Some i); put_inode i (inode_state (Z.ldiff (i_state (snd q)) (Z.lor I_LOCK I_NEW)) (snd q)).

(** The functions of the caller that compare an inode with the data and set it up; an error of the latter is a [BUG]. *)
Section Lookup.
Context {D : Type} (test : option (inode → D → bool)) (set : option (inode → D → Z * inode)).
Definition dde_linux26_new_inode (sb : loc) (data : D) : FM (option loc) :=
  ret ← dde_linux26_alloc_inode sb;
  (match set with
   | None => mret tt
   | Some f =>
       q ← get_inode ret;
       let '(err, x) := f (snd q) data in
       put_inode (fst q) x ;;
       if err =? 0 then mret tt else fail FBug
   end) ;;
  __iget ret ;;
  q ← get_inode ret;
  put_inode (fst q) (inode_state (Z.lor I_LOCK I_NEW) (snd q)) ;;
  sb_set sb (λ x, Super (s_type x) (s_inodes x ++ [fst q]) (s_blocksize_bits x) (s_flags x) (s_magic x) (s_op x) (s_count x) (s_active x) (s_maxbytes x) (s_time_gran x)) ;;
  mret ret.
Fixpoint find_inode (l : list loc) (data : D) : FM (option loc) :=
  match l with
  | [] => mret None
  | i :: l =>
      match test with
      | None => find_inode l data
      | Some t => q ← get_inode (Some i); if t (snd q) data then mret (Some i) else find_inode l data
      end
  end.
Definition iget5_locked (sb : loc) (data : D) : FM (option loc) :=
  x ← sb_get sb;
  r ← find_inode (s_inodes x) data;
  match r with Some i => mret (Some i) | None => dde_linux26_new_inode sb data end.

(** [stest] and [sset]: the same for super blocks *)
Context (stest : option (super_block → D → bool)) (sset : super_block → D → Z * super_block).
Fixpoint find_super (l : list loc) (data : D) : FM (option loc) :=
  match stest, l with
  | Some t, i :: l => x ← sb_get i; if t x data then mret (Some i) else find_super l data
  | _, _ => mret None
  end.
Definition sget (type : Z) (data : D) : FM loc :=
  l ← gets (λ s, default [] (fs_supers s !! type));
  r ← find_super l data;
  match r with
  | Some b => mret b
  | None =>
      p ← falloc;
      match p with
      | None => fail FBug
      | Some s =>
          let '(err, x) := sset (Super None [] 0 0 0 OpNull S_BIAS 1 MAX_NON_LFS 1000000000) data in
          if negb (err =? 0) then fail FBug else
          modify (λ st, fset_supers (<[s := Super (Some type) (s_inodes x) (s_blocksize_bits x) (s_flags x) (s_magic x) (s_op x) (s_count x) (s_active x) (s_maxbytes x) (s_time_gran x)]> (supers st)) st) ;;
          modify (λ st, fset_lists (super_blocks st ++ [s]) (<[type := s :: default [] (fs_supers st !! type)]> (fs_supers st)) st) ;;
          mret s
      end
  end.
End Lookup.

Definition set_anon_super (x : super_block) (_ : unit) : Z * super_block := (0, x).
(** The super block that is mounted *)
Definition get_sb_pseudo (fs_type : Z) (ops : option bool) (magic : Z) : FM loc :=
  modify (fset_frame true) ;;
  s ← sget (D := unit) None set_anon_super fs_type tt;
  sb_set s (λ x, Super (s_type x) (s_inodes x) 10 MS_NOUSER magic (match ops with Some a => OpStatic a | None => OpLocal end) (s_count x) (s_active x) (2 ^ 64 - 1) 1) ;;
  root ← new_inode s;
  match root with
  | None => fail FBug
  | Some i =>
      q ← get_inode (Some i);
      put_inode i (Inode (i_sb (snd q)) (i_blkbits (snd q)) (i_count (snd q)) (i_nlink (snd q)) (i_state (snd q)) (Z.lor S_IFDIR (Z.lor S_IRUSR S_IWUSR)) (i_rdev (snd q)) (i_bdev (snd q)) (bd_dev (snd q)) (bd_inode (snd q)) (bd_block_size (snd q))) ;;
      sb_set s (λ x, Super (s_type x) (s_inodes x) (s_blocksize_bits x) (Z.lor (s_flags x) MS_ACTIVE) (s_magic x) (s_op x) (s_count x) (s_active x) (s_maxbytes x) (s_time_gran x)) ;;
      modify (fset_frame false) ;;
      mret s
  end.
(** [kern_mount]; [name]: the name of the type. *)
Definition dde_linux26_kern_mount (type name : Z) (get_sb : FM loc) : FM loc :=
  l ← gets vfs_mounts;
  if existsb (λ m, fst m =? name) l then fail FBug else
  p ← falloc;
  match p with
  | None => fail FNull
  | Some _ =>
      q ← falloc;
      match q with
      | None => fail FNull
      | Some _ =>
          sb ← get_sb;
          modify (λ s, fset_mounts (vfs_mounts s ++ [(name, sb)]) s) ;;
          mret sb
      end
  end.

(** ** Block device nodes (fs/block_dev.c) *)

Definition bdev_test (x : inode) (dev : Z) : bool := bd_dev x =? dev.
Definition bdev_set (x : inode) (dev : Z) : Z * inode := (0, Inode (i_sb x) (i_blkbits x) (i_count x) (i_nlink x) (i_state x) (i_mode x) (i_rdev x) (i_bdev x) dev (bd_inode x) (bd_block_size x)).
Definition bd_get_sb (type : Z) : FM loc := get_sb_pseudo type (Some true) 0x62646576.
Definition bdev_cache_init (type name : Z) : FM loc := dde_linux26_kern_mount type name (bd_get_sb type).
(** A block device is given by its inode. *)
Definition bdget (sb : loc) (dev : Z) : FM (option loc) :=
  r ← iget5_locked (Some bdev_test) (Some bdev_set) sb dev;
  match r with
  | None => mret None
  | Some i =>
      q ← get_inode (Some i);
      (if negb (Z.land (i_state (snd q)) I_NEW =? 0) then
         let x := snd q in
         put_inode i (Inode (i_sb x) (i_blkbits x) (i_count x) (i_nlink x) (i_state x) S_IFBLK dev true (bd_dev x) (Some i) (Z.shiftl 1 (i_blkbits x))) ;;
         modify (λ s, fset_bdevs (i :: all_bdevs s) s) ;;
         unlock_new_inode i
       else mret tt) ;;
      mret (Some i)
  end.
End FileSys.

(** ** Steps of the accesses *)

Lemma get_inode_run i x s : inodes s !! i = Some x → get_inode (Some i) s = Done ((i, x), s).
Proof. unfold get_inode. by intros ->. Qed.
Lemma sb_get_run sb x s : supers s !! sb = Some x → sb_get sb s = Done (x, s).
Proof. unfold sb_get. by intros ->. Qed.
Lemma sb_set_run sb f x s : supers s !! sb = Some x → sb_set sb f s = Done (tt, fset_supers (<[sb := f x]> (supers s)) s).
Proof. intros H. unfold sb_set. by rewrite (run_bind _ _ s x s (sb_get_run _ _ _ H)). Qed.

(** Running straight-line code, with the look-up of what was just stored *)
Ltac fs_run := unfold mbind, M_bind, mret, M_ret, modify, sb_set, sb_get, get_inode, put_inode; cbn -[insert lookup Z.land Z.lor Z.ldiff Z.shiftl]; rewrite ?lookup_insert_eq.

(** ** What [bdget] promises: a table from device numbers to inodes *)

Section Bdget.
Context (mem : nat → bool) (sb : loc).
(** The inode of a device *)
Definition bd_node (dev : Z) (i : loc) : inode := Inode (Some sb) 10 2 1 0 S_IFBLK dev true dev (Some i) 1024.
Record bd_rel (m : gmap Z loc) (l : list loc) (x : super_block) (s : fst_) : Prop := {
  br_super : supers s !! sb = Some x;
  br_list : s_inodes x = l;
  br_op : s_op x = OpStatic true;
  br_bits : s_blocksize_bits x = 10;
  br_node : ∀ d i, m !! d = Some i → inodes s !! i = Some (bd_node d i) ∧ i ∈ l;
  br_in : ∀ i, i ∈ l → ∃ d, m !! d = Some i;
  br_next : ∀ i y, inodes s !! i = Some y → (i < f_next s)%positive;
  br_all : all_bdevs s = reverse l;
  br_nodup : NoDup l
}.
Lemma find_bdev m l x s k dev : bd_rel m l x s → (∀ i, i ∈ k → i ∈ l) →
  ∃ r, find_inode (Some bdev_test) k dev s = Done (r, s) ∧ match r with Some i => m !! dev = Some i | None => ∀ i, m !! dev = Some i → i ∉ k end.
Proof.
  intros R. induction k as [|i k IH]; intros Hk; cbn [find_inode]; [exists None; split; [done|set_solver]|].
  destruct (br_in _ _ _ _ R i (Hk i ltac:(set_solver))) as [d Hd]. destruct (br_node _ _ _ _ R d i Hd) as [Hi _].
  rewrite (run_bind _ _ s (i, bd_node d i) s (get_inode_run _ _ _ Hi)). unfold bdev_test at 1. cbn.
  destruct (Z.eqb_spec d dev) as [->|Hne]; [by exists (Some i)|]. destruct (IH ltac:(set_solver)) as ([j|] & -> & Hr); [by exists (Some j)|].
  exists None. split; [done|]. intros j Hj. apply not_elem_of_cons. split; [|by apply Hr]. intros ->. destruct (br_node _ _ _ _ R dev i Hj) as [Hi' _]. rewrite Hi in Hi'. by simplify_eq.
Qed.
Lemma bdget_known m l x s dev i : bd_rel m l x s → m !! dev = Some i → bdget mem sb dev s = Done (Some i, s).
Proof.
  intros R Hi. destruct (find_bdev m l x s l dev R ltac:(done)) as (r & Hf & Hr). destruct (br_node _ _ _ _ R dev i Hi) as [Hn Hl].
  destruct r as [j|]; [|by destruct (Hr i Hi)]. assert (j = i) as -> by congruence.
  unfold bdget. erewrite run_bind; [|unfold iget5_locked; rewrite (run_bind _ _ s x s (sb_get_run _ _ _ (br_super _ _ _ _ R))), (br_list _ _ _ _ R), (run_bind _ _ s _ s Hf); done].
  cbv iota beta. by rewrite (run_bind _ _ s (i, bd_node dev i) s (get_inode_run _ _ _ Hn)).
Qed.
(** A device that has no inode yet: without memory a NULL pointer is used, else the new inode joins the three lists. *)
Definition bd_added (dev : Z) (x : super_block) (s : fst_) : fst_ :=
  let n := f_next s in
  Fst (S (f_tries s)) (Pos.succ n) (<[n := bd_node dev n]> (inodes s))
    (<[sb := Super (s_type x) (s_inodes x ++ [n]) (s_blocksize_bits x) (s_flags x) (s_magic x) (s_op x) (s_count x) (s_active x) (s_maxbytes x) (s_time_gran x)]> (supers s))
    (super_blocks s) (fs_supers s) (vfs_mounts s) (n :: all_bdevs s) (in_frame s).
(** Before [bdget] goes on with it *)
Definition bd_fresh (dev : Z) (x : super_block) (s : fst_) : fst_ :=
  let n := f_next s in
  Fst (S (f_tries s)) (Pos.succ n) (<[n := Inode (Some sb) 10 2 1 (Z.lor I_LOCK I_NEW) 0 0 false dev None 0]> (inodes s))
    (supers (bd_added dev x s)) (super_blocks s) (fs_supers s) (vfs_mounts s) (all_bdevs s) (in_frame s).
Lemma alloc_inode_run x s : supers s !! sb = Some x → s_op x = OpStatic true →
  dde_linux26_alloc_inode mem sb s =
  if mem (f_tries s) then Done (Some (f_next s), fset_inodes (<[f_next s := Inode (Some sb) (s_blocksize_bits x) 1 1 0 0 0 false 0 None 0]> (inodes s)) (ftried (Pos.succ (f_next s)) s))
  else Done (None, ftried (f_next s) s).
Proof.
  intros H Ho. unfold dde_linux26_alloc_inode. erewrite run_bind; [|unfold op_alloc_inode; rewrite (run_bind _ _ s x s (sb_get_run _ _ _ H)), Ho; done].
  destruct (mem (f_tries s)) eqn:E; erewrite run_bind; [| by unfold falloc; rewrite E | | by unfold falloc; rewrite E]; [|done].
  cbv iota beta. fs_run. by rewrite H.
Qed.
Lemma bdget_new m l x s dev : bd_rel m l x s → m !! dev = None →
  bdget mem sb dev s = if mem (f_tries s) then Done (Some (f_next s), bd_added dev x s) else Fault FNull.
Proof.
  intros R Hm. destruct (find_bdev m l x s l dev R ltac:(done)) as ([j|] & Hf & Hr); [congruence|].
  pose proof (br_super _ _ _ _ R) as Hs. pose proof (alloc_inode_run x s Hs (br_op _ _ _ _ R)) as Ha.
  assert (Hg : iget5_locked mem (Some bdev_test) (Some bdev_set) sb dev s = dde_linux26_new_inode mem (Some bdev_set) sb dev s)
    by (unfold iget5_locked; by rewrite (run_bind _ _ s x s (sb_get_run _ _ _ Hs)), (br_list _ _ _ _ R), (run_bind _ _ s _ s Hf)).
  assert (Hn : dde_linux26_new_inode mem (Some bdev_set) sb dev s =
    if mem (f_tries s) then Done (Some (f_next s), bd_fresh dev x s) else Fault FNull).
  { unfold dde_linux26_new_inode, mbind at 1, M_bind at 1. rewrite Ha. destruct (mem (f_tries s)); [|done]. unfold __iget. do 5 fs_run. rewrite Hs. do 2 fs_run. rewrite !insert_insert_eq. unfold bd_fresh, bd_added, fset_inodes, fset_supers. cbn -[insert]. by rewrite (br_bits _ _ _ _ R). }
  unfold bdget, mbind at 1, M_bind at 1. rewrite Hg, Hn. destruct (mem (f_tries s)); [|done]. unfold bd_fresh, unlock_new_inode. do 2 fs_run. change (negb (Z.land (Z.lor I_LOCK I_NEW) I_NEW =? 0)) with true. do 3 fs_run. by rewrite !insert_insert_eq.
Qed.
Lemma bd_rel_added m l x s dev : bd_rel m l x s → m !! dev = None → ∃ x', bd_rel (<[dev := f_next s]> m) (l ++ [f_next s]) x' (bd_added dev x s).
Proof.
  intros R Hm. eexists.
  assert (Hf : ∀ d i, m !! d = Some i → i ≠ f_next s).
  { intros d i [H _]%(br_node _ _ _ _ R) ->. apply (br_next _ _ _ _ R) in H. lia. }
  assert (Hl : ∀ i, i ∈ l → i ≠ f_next s) by (intros i [d H]%(br_in _ _ _ _ R); by eapply Hf).
  split; cbn -[insert lookup].
  - apply lookup_insert_eq.
  - cbn. by rewrite (br_list _ _ _ _ R).
  - apply (br_op _ _ _ _ R).
  - apply (br_bits _ _ _ _ R).
  - intros d i. destruct (decide (d = dev)) as [->|Hd].
    + rewrite lookup_insert_eq. intros [= <-]. rewrite lookup_insert_eq. set_solver.
    + rewrite lookup_insert_ne by done. intros H. rewrite lookup_insert_ne by (intros E; by destruct (Hf d i H)). apply (br_node _ _ _ _ R) in H. set_solver.
  - intros i [H|H]%elem_of_app.
    + destruct (br_in _ _ _ _ R i H) as [d Hd]. exists d. rewrite lookup_insert_ne; congruence.
    + exists dev. rewrite lookup_insert_eq. set_solver.
  - intros i y. destruct (decide (i = f_next s)) as [->|Hi]; [lia|]. rewrite lookup_insert_ne by done. intros H%(br_next _ _ _ _ R). lia.
  - rewrite reverse_snoc. by rewrite (br_all _ _ _ _ R).
  - apply list.NoDup_app. split; [apply (br_nodup _ _ _ _ R)|]. split; [|apply list.NoDup_singleton]. intros i Hi ->%list_elem_of_singleton. by destruct (Hl _ Hi).
Qed.
(** Calls in a row *)
Fixpoint bdgets (devs : list Z) : FM (list (option loc)) :=
  match devs with [] => mret [] | d :: devs => i ← bdget mem sb d; l ← bdgets devs; mret (i :: l) end.
Lemma bdgets_run devs m l x s : bd_rel m l x s →
  match bdgets devs s with
  | Done (rs, s') => ∃ m' l' x', bd_rel m' l' x' s' ∧ m ⊆ m' ∧ rs = (λ d, m' !! d) <$> devs ∧ (∀ d, is_Some (m' !! d) ↔ is_Some (m !! d) ∨ d ∈ devs)
  | Fault f => f = FNull ∧ ∃ n, mem n = false
  end.
Proof.
  revert m l x s. induction devs as [|d devs IH]; intros m l x s R; cbn [bdgets].
  { exists m, l, x. do 3 (split; [done|]). set_solver. }
  assert (Hstep : (∃ n, bdget mem sb d s = Fault FNull ∧ mem n = false) ∨
    ∃ i m1 l1 x1 s1, bdget mem sb d s = Done (Some i, s1) ∧ bd_rel m1 l1 x1 s1 ∧ m ⊆ m1 ∧ m1 !! d = Some i ∧ ∀ e, is_Some (m1 !! e) ↔ is_Some (m !! e) ∨ e = d).
  { destruct (m !! d) as [i|] eqn:Em.
    - right. exists i, m, l, x, s. rewrite (bdget_known m l x s d i R Em). do 4 (split; [done|]). intros e. split; [auto|]. intros [?| ->]; [done|]. by rewrite Em.
    - rewrite (bdget_new m l x s d R Em). destruct (mem (f_tries s)) eqn:E; [|left; eauto]. right. destruct (bd_rel_added m l x s d R Em) as [x1 R1].
      eexists _, _, _, x1, _. split; [done|]. split; [exact R1|]. split; [by apply insert_subseteq|]. split; [apply lookup_insert_eq|].
      intros e. rewrite lookup_insert_is_Some. destruct (decide (d = e)); naive_solver. }
  destruct Hstep as [(n & E & En)|(i & m1 & l1 & x1 & s1 & E & R1 & Hsub & Hd & Hdom)]; unfold mbind, M_bind; rewrite E; [by eauto|].
  specialize (IH m1 l1 x1 s1 R1). destruct (bdgets devs s1) as [[rs s2]|f]; [|done]. destruct IH as (m2 & l2 & x2 & R2 & Hs2 & -> & Hdom2).
  exists m2, l2, x2. split; [done|]. split; [by etrans|]. split; [cbn; by rewrite (lookup_weaken _ _ _ _ Hd Hs2)|].
  intros e. rewrite Hdom2, Hdom, elem_of_cons. tauto.
Qed.
End Bdget.

Definition fst_init : fst_ := Fst 0 1%positive ∅ ∅ [] ∅ [] [] false.
Definition bdev_run (mem : nat → bool) (type name : Z) (devs : list Z) : FM (list (option loc)) :=
  sb ← bdev_cache_init mem type name; bdgets mem sb devs.
(** The super block comes third, after the mount and its name, and the root inode fourth. *)
Definition bd_super : loc := 3%positive.
Lemma bdev_cache_init_run mem type name :
  match bdev_cache_init mem type name fst_init with
  | Done (sb, s) => sb = bd_super ∧ ∃ x, bd_rel sb ∅ [] x s
  | Fault f => (f = FNull ∨ f = FBug) ∧ ∃ n, mem n = false
  end.
Proof.
  unfold bdev_cache_init, dde_linux26_kern_mount, bd_get_sb, get_sb_pseudo, sget, new_inode, op_alloc_inode, falloc, gets. fs_run.
  destruct (mem 0%nat) eqn:E0; fs_run; [|by eauto]. destruct (mem 1%nat) eqn:E1; fs_run; [|by eauto]. rewrite lookup_empty. fs_run.
  destruct (mem 2%nat) eqn:E2; fs_run; [|by eauto].
  do 3 fs_run. destruct (mem 3%nat) eqn:E3; [|do 2 fs_run; by eauto].
  do 5 fs_run. split; [done|]. eexists. split; cbn -[insert lookup]; try done; try apply lookup_insert_eq; try set_solver.
  - intros i y. rewrite !lookup_insert_Some, lookup_empty. naive_solver lia.
  - apply base.NoDup_nil_2.
Qed.

(** Block device nodes: whatever calls of [bdget] follow [bdev_cache_init], unless an allocation fails they finish and agree
    with one table from device numbers to inodes, which has just the numbers asked for; so the same number always gives the
    same node and different numbers different ones.  The node is complete and no longer new, its reference count is 2 however often it was
    asked for, and [all_bdevs] has each node once.  If an allocation fails, a NULL pointer is used or the code stops in a BUG. *)
Theorem bdget_refines mem type name devs :
  match bdev_run mem type name devs fst_init with
  | Done (rs, s) => ∃ m : gmap Z loc,
      rs = (λ d, m !! d) <$> devs ∧ (∀ d, is_Some (m !! d) ↔ d ∈ devs) ∧
      (∀ d e i, m !! d = Some i → m !! e = Some i → d = e) ∧
      (∀ d i, m !! d = Some i → inodes s !! i = Some (bd_node bd_super d i)) ∧
      NoDup (all_bdevs s) ∧ (∀ i, i ∈ all_bdevs s ↔ ∃ d, m !! d = Some i)
  | Fault f => (f = FNull ∨ f = FBug) ∧ ∃ n, mem n = false
  end.
Proof.
  pose proof (bdev_cache_init_run mem type name) as H. unfold bdev_run, mbind, M_bind. destruct (bdev_cache_init mem type name fst_init) as [[sb s]|f]; [|done].
  destruct H as (-> & x & R). pose proof (bdgets_run mem bd_super devs ∅ [] x s R) as H. destruct (bdgets mem bd_super devs s) as [[rs s']|f]; [|naive_solver].
  destruct H as (m & l & x' & R' & _ & -> & Hd). pose proof (br_node _ _ _ _ _ R') as Hn. exists m. split; [done|]. split.
  { intros d. rewrite Hd, lookup_empty, is_Some_alt. naive_solver. }
  split; [|split; [|split]].
  - intros d e i [H1 _]%Hn [H2 _]%Hn. rewrite H1 in H2. by simplify_eq.
  - intros d i [H _]%Hn. done.
  - rewrite (br_all _ _ _ _ _ R'). rewrite reverse_Permutation. apply (br_nodup _ _ _ _ _ R').
  - intros i. rewrite (br_all _ _ _ _ _ R'), elem_of_reverse. split; [apply (br_in _ _ _ _ _ R')|]. intros [d [_ H]%Hn]. done.
Qed.

(** A failing allocation: the NULL check of [bdget] comes after the pointer was used in [dde_linux26_new_inode]. *)
Theorem bdget_null_unchecked dev : bdev_run (λ n, n <? 4)%nat 0 0 [dev] fst_init = Fault FNull.
Proof. vm_compute. reflexivity. Qed.
(** [get_sb_pseudo] without operations: the table it installs is a local variable of the function, so the first inode
    taken from the mounted super block reads a stack frame that is gone. *)
Theorem default_ops_dangle magic dev :
  (sb ← dde_linux26_kern_mount (λ _, true) 0 0 (get_sb_pseudo (λ _, true) 0 None magic); iget5_locked (λ _, true) (Some bdev_test) (Some bdev_set) sb dev) fst_init = Fault FFreed.
Proof. vm_compute. reflexivity. Qed.
