(* ===== verification/Mempool.v ===== *)
(** Memory pools: mm/mempool.c.

    A pool keeps [min_nr] elements in reserve for allocations that must not fail.  First creating
    and destroying a pool, which only one thread does; then any number of threads that
    allocate, free and resize.  A step is what happens under the lock of the pool, or one access
    outside of it; the functions [alloc] and [free] of the pool are the allocator below, which
    gives an element that is not in use or fails, at any time.  An element is in [m_live] from the one to the other.

    [io_schedule_timeout] of the port (arch/dde_kit/sched.c) prints a warning and returns at once, so that a
    thread that finds the pool empty does not sleep but tries again; and as [try_to_wake_up] returns 0,
    [wake_up] leaves the entry of a thread in the wait queue, from which [finish_wait] takes it. *)

From S2P Require Import Prelude.

(** ** Creating and destroying *)

(** [elements[0 .. curr_nr-1]], the last one first, and the length of the array *)
Record mempool := Mempool { p_self : loc; p_array : loc; p_min : Z; p_elements : list loc; p_cap : Z }.
(** Memory, with the number of allocations so far *)
Record mst := Mst { ms_tries : nat; ms_next : loc; ms_live : gset loc }.
Abbreviation MM := (M mst).

Section Create.
Context (mem : nat → bool).
Definition mp_alloc : MM (option loc) := λ s,
  if mem (ms_tries s) then Done (Some (ms_next s), Mst (S (ms_tries s)) (Pos.succ (ms_next s)) ({[ms_next s]} ∪ ms_live s))
  else Done (None, Mst (S (ms_tries s)) (ms_next s) (ms_live s)).
Definition mp_free (e : loc) : MM unit := λ s, if bool_decide (e ∈ ms_live s) then Done (tt, Mst (ms_tries s) (ms_next s) (ms_live s ∖ {[e]})) else Fault FFreed.
Definition add_element (p : mempool) (e : loc) : MM mempool :=
  if p_min p <=? Z.of_nat (length (p_elements p)) then fail FBug else
  if p_cap p <=? Z.of_nat (length (p_elements p)) then fail FBounds else mret (Mempool (p_self p) (p_array p) (p_min p) (e :: p_elements p) (p_cap p)).
Fixpoint free_elements (l : list loc) : MM unit := match l with [] => mret tt | e :: l => mp_free e ;; free_elements l end.
Definition free_pool (p : mempool) : MM unit := free_elements (p_elements p) ;; mp_free (p_array p) ;; mp_free (p_self p).
(** while (pool->curr_nr < pool->min_nr) *)
Fixpoint fill_pool (fuel : nat) (p : mempool) : MM (option mempool) :=
  if Z.of_nat (length (p_elements p)) <? p_min p then
    match fuel with
    | O => fail FFuel
    | S fuel =>
        e ← mp_alloc;
        match e with
        | None => free_pool p ;; mret None
        | Some e => p ← add_element p e; fill_pool fuel p
        end
    end
  else mret (Some p).
Definition mempool_create_node (min_nr : Z) : MM (option mempool) :=
  pool ← mp_alloc;
  match pool with
  | None => mret None
  | Some pool =>
      a ← mp_alloc;
      match a with
      | None => mp_free pool ;; mret None
      | Some a => fill_pool (Z.to_nat min_nr) (Mempool pool a min_nr [] min_nr)
      end
  end.
Definition mempool_create (min_nr : Z) : MM (option mempool) := mempool_create_node min_nr.
Definition mempool_destroy (p : mempool) : MM unit :=
  if Z.of_nat (length (p_elements p)) =? p_min p then free_pool p else fail FBug.
End Create.

(** ** Using the pool *)

Inductive mpc :=
| MpIdle
| MpGot (r : option loc)       (* mempool_alloc returned *)
| MpRet (r : Z)                (* mempool_resize returned *)
| AlAlloc (wait : bool)        (* element = pool->alloc(gfp_temp, pool->pool_data); [wait]: __GFP_WAIT *)
| AlLock (wait : bool)         (* takes an element under the lock *)
| AlPrepare                    (* prepare_to_wait *)
| AlCheck                      (* if (!pool->curr_nr) *)
| AlSleep                      (* io_schedule_timeout: returns at once *)
| AlFinish                     (* finish_wait *)
| FrCurr (e : loc)             (* reads pool->curr_nr *)
| FrMin (e : loc) (curr : Z)   (* compares with pool->min_nr *)
| FrLock (e : loc)             (* adds the element under the lock *)
| FrWake                       (* wake_up(&pool->wait) *)
| FrFree (e : loc)             (* pool->free(element, pool->pool_data) *)
| RzStart (n : Z)              (* new_min_nr <= pool->min_nr, under the lock *)
| RzFree (n : Z) (e : loc)     (* pool->free, without the lock *)
| RzShrink (n : Z)             (* while (new_min_nr < pool->curr_nr), under the lock again *)
| RzGrow (n : Z)               (* kmalloc *)
| RzSwap (n : Z)               (* replaces the array under the lock *)
| RzAlloc (n : Z)              (* element = pool->alloc(...) *)
| RzAdd (n : Z) (e : loc)      (* adds the element under the lock *)
| RzDrop (e : loc).            (* pool->free: Raced *)
(** A thread with the elements it owns between the calls; whether it is in the wait queue, and how often its sleep
    lock was raised *)
Record mthr := MThr { mt_pc : mpc; mt_own : gset loc; mt_q : bool; mt_ups : nat }.
Record mpool := MPool { min_nr : Z; elements : list loc; m_cap : Z; m_live : gset loc; m_thr : nat → mthr; m_bad : bool }.

Definition curr_nr (σ : mpool) : Z := Z.of_nat (length (elements σ)).
Definition set_thr (c : nat) (f : mthr → mthr) (σ : mpool) : mpool := MPool (min_nr σ) (elements σ) (m_cap σ) (m_live σ) (upd_at c f (m_thr σ)) (m_bad σ).
Definition goto (pc : mpc) (t : mthr) : mthr := MThr pc (mt_own t) (mt_q t) (mt_ups t).
Definition m_at (c : nat) (pc : mpc) (σ : mpool) : mpool := set_thr c (goto pc) σ.
Definition gain (e : loc) (t : mthr) : mthr := MThr (mt_pc t) ({[e]} ∪ mt_own t) (mt_q t) (mt_ups t).
Definition lose (e : loc) (t : mthr) : mthr := MThr (mt_pc t) (mt_own t ∖ {[e]}) (mt_q t) (mt_ups t).
Definition set_min (n : Z) (σ : mpool) : mpool := MPool n (elements σ) (m_cap σ) (m_live σ) (m_thr σ) (m_bad σ).
Definition m_new (e : loc) (σ : mpool) : mpool := MPool (min_nr σ) (elements σ) (m_cap σ) ({[e]} ∪ m_live σ) (m_thr σ) (m_bad σ).
Definition m_free (e : loc) (σ : mpool) : mpool := MPool (min_nr σ) (elements σ) (m_cap σ) (m_live σ ∖ {[e]}) (m_thr σ) (m_bad σ || negb (bool_decide (e ∈ m_live σ))).
(** [add_element] and [remove_element]; a [BUG_ON] or an access outside of the array is recorded. *)
Definition m_add (e : loc) (σ : mpool) : mpool := MPool (min_nr σ) (e :: elements σ) (m_cap σ) (m_live σ) (m_thr σ) (m_bad σ || (min_nr σ <=? curr_nr σ) || (m_cap σ <=? curr_nr σ)).
Definition m_pop (l : list loc) (σ : mpool) : mpool := MPool (min_nr σ) l (m_cap σ) (m_live σ) (m_thr σ) (m_bad σ).
Definition m_bug (σ : mpool) : mpool := MPool (min_nr σ) (elements σ) (m_cap σ) (m_live σ) (m_thr σ) true.
(** The array replaced by one of [n] entries *)
Definition m_swap (n : Z) (σ : mpool) : mpool := MPool n (elements σ) n (m_live σ) (m_thr σ) (m_bad σ || (n <? curr_nr σ)).
Definition wake_all (σ : mpool) : mpool := MPool (min_nr σ) (elements σ) (m_cap σ) (m_live σ) (λ c, let t := m_thr σ c in if mt_q t then MThr (mt_pc t) (mt_own t) true (S (mt_ups t)) else t) (m_bad σ).

(** The steps; [None]: the thread is not in this function.  [r]: what the allocator gives. *)
Definition allocated (r : option loc) (σ : mpool) (k : option loc → mpool) : option mpool :=
  match r with None => Some (k None) | Some e => if bool_decide (e ∈ m_live σ) then None else Some (k (Some e)) end.
Definition mempool_alloc (c : nat) (r : option loc) (σ : mpool) : option mpool :=
  match mt_pc (m_thr σ c) with
  | AlAlloc w => allocated r σ (λ r, match r with Some e => m_at c (MpGot (Some e)) (set_thr c (gain e) (m_new e σ)) | None => m_at c (AlLock w) σ end)
  | AlLock w => Some (match elements σ with e :: l => m_at c (MpGot (Some e)) (set_thr c (gain e) (m_pop l σ)) | [] => m_at c (if w then AlPrepare else MpGot None) σ end)
  | AlPrepare => Some (set_thr c (λ t, MThr AlCheck (mt_own t) true (mt_ups t)) σ)
  | AlCheck => Some (m_at c (if curr_nr σ =? 0 then AlSleep else AlFinish) σ)
  | AlSleep => Some (m_at c AlFinish σ)
  | AlFinish => Some (set_thr c (λ t, MThr (AlAlloc true) (mt_own t) false (mt_ups t)) σ)
  | _ => None
  end.
Definition mempool_free (c : nat) (σ : mpool) : option mpool :=
  match mt_pc (m_thr σ c) with
  | FrCurr e => Some (m_at c (FrMin e (curr_nr σ)) σ)
  | FrMin e v => Some (m_at c (if v <? min_nr σ then FrLock e else FrFree e) σ)
  | FrLock e => Some (if curr_nr σ <? min_nr σ then m_at c FrWake (m_add e σ) else m_at c (FrFree e) σ)
  | FrWake => Some (m_at c MpIdle (wake_all σ))
  | FrFree e => Some (m_at c MpIdle (m_free e σ))
  | _ => None
  end.
(** The test of the loop that shrinks the pool, and of the one that grows it *)
Definition shrink_pool (c : nat) (n : Z) (σ : mpool) : mpool :=
  if n <? curr_nr σ then match elements σ with e :: l => m_at c (RzFree n e) (m_pop l σ) | [] => m_bug σ end
  else m_at c (MpRet 0) (set_min n σ).
Definition grow_pool (c : nat) (n : Z) (σ : mpool) : mpool := m_at c (if curr_nr σ <? min_nr σ then RzAlloc n else MpRet 0) σ.
(** [ok]: the array can be allocated. *)
Definition mempool_resize (c : nat) (r : option loc) (ok : bool) (σ : mpool) : option mpool :=
  match mt_pc (m_thr σ c) with
  | RzStart n => Some (if n <=? 0 then m_bug σ else if n <=? min_nr σ then shrink_pool c n σ else m_at c (RzGrow n) σ)
  | RzFree n e => Some (m_at c (RzShrink n) (m_free e σ))
  | RzShrink n => Some (shrink_pool c n σ)
  | RzGrow n => Some (m_at c (if ok then RzSwap n else MpRet (- ENOMEM)) σ)
  | RzSwap n => Some (if n <=? min_nr σ then m_at c (MpRet 0) σ else grow_pool c n (m_swap n σ))
  | RzAlloc n => allocated r σ (λ r, match r with Some e => m_at c (RzAdd n e) (m_new e σ) | None => m_at c (MpRet 0) σ end)
  | RzAdd n e => Some (if curr_nr σ <? min_nr σ then grow_pool c n (m_add e σ) else m_at c (RzDrop e) σ)
  | RzDrop e => Some (m_at c (MpRet 0) (m_free e σ))
  | _ => None
  end.

Definition idle (pc : mpc) : bool := match pc with MpIdle | MpGot _ | MpRet _ => true | _ => false end.
Definition resizing (pc : mpc) : bool := match pc with RzStart _ | RzFree _ _ | RzShrink _ | RzGrow _ | RzSwap _ | RzAlloc _ | RzAdd _ _ | RzDrop _ => true | _ => false end.
(** Who resizes the pool: nobody, one thread at a time, or any *)
Inductive resizes := NoResize | OneResize | AnyResize.
Definition may_resize (z : resizes) (σ : mpool) : Prop :=
  match z with NoResize => False | OneResize => ∀ c, resizing (mt_pc (m_thr σ c)) = false | AnyResize => True end.
Inductive mp_step (z : resizes) : mpool → mpool → Prop :=
| MsCallAlloc σ c w : idle (mt_pc (m_thr σ c)) = true → mp_step z σ (m_at c (AlAlloc w) σ)
| MsCallFree σ c e : idle (mt_pc (m_thr σ c)) = true → e ∈ mt_own (m_thr σ c) → mp_step z σ (m_at c (FrCurr e) (set_thr c (lose e) σ))
| MsCallResize σ c n : idle (mt_pc (m_thr σ c)) = true → 0 < n < 2 ^ 30 → may_resize z σ → mp_step z σ (m_at c (RzStart n) σ)
| MsAlloc σ c r σ' : mempool_alloc c r σ = Some σ' → mp_step z σ σ'
| MsFree σ c σ' : mempool_free c σ = Some σ' → mp_step z σ σ'
| MsResize σ c r ok σ' : mempool_resize c r ok σ = Some σ' → mp_step z σ σ'.
(** The pool when it has been created *)
Definition mp_start (p : mempool) : mpool := MPool (p_min p) (p_elements p) (p_cap p) (list_to_set (p_elements p)) (λ _, MThr MpIdle ∅ false 0) false.

(** ** What creating and destroying do *)

Definition pool_objs (p : mempool) : list loc := p_elements p ++ [p_array p; p_self p].
(** The memory [L] and, apart from it, the objects of the list *)
Record holds (L : gset loc) (l : list loc) (s : mst) : Prop := {
  ho_live : ms_live s = L ∪ list_to_set l;
  ho_nodup : NoDup l;
  ho_apart : ∀ x, x ∈ l → x ∉ L;
  ho_next : ∀ x, x ∈ ms_live s → (x < ms_next s)%positive
}.
Lemma mp_alloc_run mem L l s : holds L l s →
  match mp_alloc mem s with
  | Done (Some e, s') => holds L (e :: l) s'
  | Done (None, s') => holds L l s' ∧ mem (ms_tries s) = false
  | Fault _ => False
  end.
Proof.
  intros H. unfold mp_alloc. destruct (mem (ms_tries s)); [|split; [|done]; destruct H; by split]. pose proof (ho_next _ _ _ H) as Hn.
  assert (Hf : ms_next s ∉ ms_live s) by (intros ?%Hn; lia). rewrite (ho_live _ _ _ H) in Hf. split; cbn.
  - rewrite (ho_live _ _ _ H). set_solver.
  - apply list.NoDup_cons. split; [set_solver|apply H].
  - intros x [->|Hx]%elem_of_cons; [set_solver|]. by apply H.
  - intros x [->%elem_of_singleton|Hx%Hn]%elem_of_union; lia.
Qed.
Lemma mp_free_run L e l s : holds L (e :: l) s → ∃ s', mp_free e s = Done (tt, s') ∧ holds L l s'.
Proof.
  intros H. pose proof (ho_nodup _ _ _ H) as [Hl Hd]%list.NoDup_cons. pose proof (ho_apart _ _ _ H e ltac:(set_solver)) as He.
  unfold mp_free. rewrite bool_decide_eq_true_2 by (rewrite (ho_live _ _ _ H); set_solver). eexists. split; [done|]. split; cbn.
  - rewrite (ho_live _ _ _ H). set_solver.
  - done.
  - intros x Hx. apply H. set_solver.
  - intros x Hx. apply H. set_solver.
Qed.
Lemma free_elements_run L l k s : holds L (l ++ k) s → ∃ s', free_elements l s = Done (tt, s') ∧ holds L k s'.
Proof.
  revert s. induction l as [|e l IH]; intros s H; cbn [free_elements]; [by eexists|].
  destruct (mp_free_run _ _ _ _ H) as (s1 & E & H1). rewrite (run_bind _ _ _ _ _ E). by apply IH.
Qed.
Lemma free_pool_run L p s : holds L (pool_objs p) s → ∃ s', free_pool p s = Done (tt, s') ∧ holds L [] s'.
Proof.
  intros H. destruct (free_elements_run _ _ _ _ H) as (s1 & E & H1). unfold free_pool. rewrite (run_bind _ _ _ _ _ E).
  destruct (mp_free_run _ _ _ _ H1) as (s2 & E2 & H2). rewrite (run_bind _ _ _ _ _ E2). by apply mp_free_run.
Qed.
Lemma fill_pool_run mem fuel L p s : holds L (pool_objs p) s → p_min p = p_cap p → p_min p - Z.of_nat (length (p_elements p)) ≤ Z.of_nat fuel → Z.of_nat (length (p_elements p)) ≤ Z.max 0 (p_min p) →
  match fill_pool mem fuel p s with
  | Done (Some q, s') => holds L (pool_objs q) s' ∧ p_min q = p_min p ∧ p_cap q = p_min p ∧ Z.of_nat (length (p_elements q)) = Z.max 0 (p_min p)
  | Done (None, s') => holds L [] s' ∧ ∃ n, mem n = false
  | Fault _ => False
  end.
Proof.
  revert p s. induction fuel as [|fuel IH]; intros p s H Hc Hf Hm; cbn [fill_pool]; destruct (Z.ltb_spec (Z.of_nat (length (p_elements p))) (p_min p)) as [Hl|Hl];
    try lia; try (split; [done|]; split; [done|]; split; [done|lia]).
  pose proof (mp_alloc_run mem _ _ _ H) as Ha. destruct (mp_alloc mem s) as [[[e|] s1]|] eqn:E; [| |done]; rewrite (run_bind _ _ _ _ _ E).
  - unfold add_element. destruct (Z.leb_spec (p_min p) (Z.of_nat (length (p_elements p)))); [lia|]. destruct (Z.leb_spec (p_cap p) (Z.of_nat (length (p_elements p)))); [lia|].
    refine (IH (Mempool (p_self p) (p_array p) (p_min p) (e :: p_elements p) (p_cap p)) s1 Ha Hc _ _); cbn [p_min p_elements length]; lia.
  - destruct Ha as [H1 Hn]. destruct (free_pool_run _ _ _ H1) as (s2 & E2 & H2). rewrite (run_bind _ _ _ _ _ E2). cbn. eauto.
Qed.
(** [mempool_create] gives a full pool, or, if an allocation failed, NULL with all memory given back; destroying the pool gives back all of it. *)
Theorem mempool_create_spec mem n L s : holds L [] s →
  match mempool_create mem n s with
  | Done (Some p, s') => holds L (pool_objs p) s' ∧ p_min p = n ∧ p_cap p = n ∧ Z.of_nat (length (p_elements p)) = Z.max 0 n ∧
      (0 ≤ n → ∃ s'', mempool_destroy p s' = Done (tt, s'') ∧ ms_live s'' = L)
  | Done (None, s') => ms_live s' = L ∧ ∃ n, mem n = false
  | Fault _ => False
  end.
Proof.
  intros H. unfold mempool_create, mempool_create_node. pose proof (mp_alloc_run mem _ _ _ H) as Ha. destruct (mp_alloc mem s) as [[[a|] s1]|] eqn:E; [| |done]; rewrite (run_bind _ _ _ _ _ E).
  2: { destruct Ha as [H1 Hn]. cbn. rewrite (ho_live _ _ _ H1). split; [set_solver|eauto]. }
  pose proof (mp_alloc_run mem _ _ _ Ha) as Hb. destruct (mp_alloc mem s1) as [[[b|] s2]|] eqn:E2; [| |done]; rewrite (run_bind _ _ _ _ _ E2).
  - pose proof (fill_pool_run mem (Z.to_nat n) L (Mempool a b n [] n) s2 Hb eq_refl ltac:(cbn; lia) ltac:(cbn; lia)) as Hp.
    destruct (fill_pool mem (Z.to_nat n) (Mempool a b n [] n) s2) as [[[p|] s3]|]; [| |done]; cbn [p_min] in Hp.
    + destruct Hp as (H3 & Hm & Hc & Hl). do 4 (split; [done|]). intros Hn. unfold mempool_destroy. rewrite Hm, Hl, Z.max_r, Z.eqb_refl by done.
      destruct (free_pool_run _ _ _ H3) as (s4 & E4 & H4). exists s4. split; [done|]. rewrite (ho_live _ _ _ H4). set_solver.
    + destruct Hp as [H3 Hn]. split; [|done]. rewrite (ho_live _ _ _ H3). set_solver.
  - destruct Hb as [H2 Hn]. destruct (mp_free_run _ _ _ _ H2) as (s3 & E3 & H3). rewrite (run_bind _ _ _ _ _ E3). cbn. rewrite (ho_live _ _ _ H3). split; [set_solver|eauto].
Qed.

(** ** Every element is in one place *)

Definition pc_set (pc : mpc) : gset loc :=
  match pc with FrCurr e | FrMin e _ | FrLock e | FrFree e | RzFree _ e | RzAdd _ e | RzDrop e => {[e]} | _ => ∅ end.
(** What a thread has *)
Definition held (t : mthr) : gset loc := mt_own t ∪ pc_set (mt_pc t).
Record mem_inv (σ : mpool) : Prop := {
  mi_nodup : NoDup (elements σ);
  mi_live : ∀ e, e ∈ m_live σ ↔ e ∈ elements σ ∨ ∃ c, e ∈ held (m_thr σ c);
  mi_pool : ∀ c e, e ∈ held (m_thr σ c) → e ∉ elements σ;
  mi_one : ∀ c d e, e ∈ held (m_thr σ c) → e ∈ held (m_thr σ d) → c = d;
  mi_self : ∀ c e, e ∈ mt_own (m_thr σ c) → e ∉ pc_set (mt_pc (m_thr σ c))
}.
(** A step of thread [c] that does not touch the elements; [c] takes the top one or a new one, puts one into the pool or frees one. *)
Lemma mem_keep σ σ' c : mem_inv σ → elements σ' = elements σ → m_live σ' = m_live σ → (∀ d, d ≠ c → mt_own (m_thr σ' d) = mt_own (m_thr σ d) ∧ mt_pc (m_thr σ' d) = mt_pc (m_thr σ d)) →
  (∀ e, e ∈ held (m_thr σ' c) ↔ e ∈ held (m_thr σ c)) → (∀ e, e ∈ mt_own (m_thr σ' c) → e ∉ pc_set (mt_pc (m_thr σ' c))) → mem_inv σ'.
Proof.
  intros I He Hl Ho Hh Hs. assert (Ha : ∀ d e, e ∈ held (m_thr σ' d) ↔ e ∈ held (m_thr σ d)).
  { intros d e. destruct (decide (d = c)) as [->|Hd]; [done|]. unfold held. by destruct (Ho d Hd) as [-> ->]. }
  split; rewrite ?He, ?Hl; try setoid_rewrite Ha; try apply I.
  intros d e. destruct (decide (d = c)) as [->|Hd]; [apply Hs|]. destruct (Ho d Hd) as (-> & ->). apply (mi_self _ I).
Qed.
Lemma mem_move σ σ' c x (inpool inlive inheld : bool) : mem_inv σ →
  NoDup (elements σ') →
  (∀ e, e ∈ elements σ' ↔ (e ≠ x ∧ e ∈ elements σ) ∨ (e = x ∧ inpool = true)) →
  (∀ e, e ∈ m_live σ' ↔ (e ≠ x ∧ e ∈ m_live σ) ∨ (e = x ∧ inlive = true)) →
  (∀ d, d ≠ c → m_thr σ' d = m_thr σ d) → (∀ d, d ≠ c → x ∉ held (m_thr σ d)) →
  (∀ e, e ∈ held (m_thr σ' c) ↔ (e ≠ x ∧ e ∈ held (m_thr σ c)) ∨ (e = x ∧ inheld = true)) →
  inlive = inpool || inheld → inpool && inheld = false →
  (∀ e, e ∈ mt_own (m_thr σ' c) → e ∉ pc_set (mt_pc (m_thr σ' c))) → mem_inv σ'.
Proof.
  intros I Hnd Hp Hl Ho Hx Hh E1 E2 Hs.
  assert (Ha : ∀ d e, e ∈ held (m_thr σ' d) ↔ (e ≠ x ∧ e ∈ held (m_thr σ d)) ∨ (e = x ∧ inheld = true ∧ d = c)).
  { intros d e. destruct (decide (d = c)) as [->|Hd]; [rewrite Hh; naive_solver|]. rewrite (Ho d Hd). specialize (Hx d Hd). destruct (decide (e = x)) as [->|]; naive_solver. }
  split; [done| | | |].
  - intros e. rewrite Hl, Hp, (mi_live _ I). setoid_rewrite Ha. destruct (decide (e = x)) as [->|Hne]; [|naive_solver]. rewrite E1, orb_true_iff. split.
    + intros [[? _]|[_ [H|H]]]; [done|auto|]. right. exists c. auto.
    + intros [[[? _]|[_ H]]|[d [[? _]|(_ & H & _)]]]; try done; auto.
  - intros d e. rewrite Ha, Hp. intros [[Hne H]|(-> & Hi & ->)].
    + intros [[_ H']|[-> _]]; [|done]. by apply (mi_pool _ I d e).
    + rewrite Hi, andb_true_r in E2. rewrite E2. naive_solver.
  - intros d1 d2 e. rewrite !Ha. intros [[Hne H]|(-> & Hi & ->)] [[Hne' H']|(? & Hi' & ->)]; try done. by apply (mi_one _ I d1 d2 e).
  - intros d e. destruct (decide (d = c)) as [->|Hd]; [apply Hs|]. rewrite (Ho d Hd). apply (mi_self _ I).
Qed.

Ltac munfold := unfold m_at, set_thr, goto, gain, lose, set_min, m_new, m_free, m_add, m_pop, m_bug, m_swap, wake_all in *; cbn -[Z.of_nat] in *.
Ltac mthr E := rewrite ?upd_at_eq; cbn; unfold held; cbn; rewrite ?E; cbn.
(** Membership in small sets, with [x] the element that moves *)
Ltac msets := let e := fresh "e" in intros e; rewrite ?elem_of_union, ?elem_of_difference, ?elem_of_singleton, ?elem_of_empty, ?elem_of_cons; try tauto.
Ltac msetx x := let e := fresh "e" in intros e; rewrite ?elem_of_union, ?elem_of_difference, ?elem_of_singleton, ?elem_of_empty, ?elem_of_cons; destruct (decide (e = x)) as [->|]; intuition congruence.
Ltac mkeep I E := lazymatch type of E with context [mt_pc (m_thr ?s ?c)] => eapply (mem_keep s _ c I) end; munfold;
  [done|done|intros ? ?; rewrite ?upd_at_ne by done; try case_match; done|mthr E; msets|mthr E; msets].
Ltac mmove I E x p l h := lazymatch type of E with context [mt_pc (m_thr ?s ?c)] => eapply (mem_move s _ c x p l h I) end; munfold;
  [| | |intros ? ?; by rewrite ?upd_at_ne| |mthr E|done|done|mthr E].
Section MemSteps.
Context (σ : mpool) (I : mem_inv σ) (c : nat).
(** An element that [c] works on is nobody else's; a new one is nobody's, and the top one is only in the pool. *)
Lemma pc_alone e : e ∈ pc_set (mt_pc (m_thr σ c)) → e ∉ mt_own (m_thr σ c) ∧ e ∉ elements σ ∧ e ∈ m_live σ ∧ ∀ d, d ≠ c → e ∉ held (m_thr σ d).
Proof using I.
  intros H. assert (Hh : e ∈ held (m_thr σ c)) by (unfold held; set_solver). split; [intros ?; by eapply (mi_self _ I c e)|]. split; [by apply (mi_pool _ I c)|].
  split; [apply (mi_live _ I); eauto|]. intros d Hd H'. apply Hd. by apply (mi_one _ I d c e).
Qed.
Lemma new_alone e : e ∉ m_live σ → e ∉ elements σ ∧ e ∉ mt_own (m_thr σ c) ∧ ∀ d, e ∉ held (m_thr σ d).
Proof using I.
  rewrite (mi_live _ I). intros H. split; [auto|]. assert (Hd : ∀ d, e ∉ held (m_thr σ d)) by eauto. split; [|done]. specialize (Hd c). unfold held in Hd. set_solver.
Qed.
Lemma top_alone e l : elements σ = e :: l → e ∉ l ∧ NoDup l ∧ e ∈ m_live σ ∧ e ∉ mt_own (m_thr σ c) ∧ ∀ d, e ∉ held (m_thr σ d).
Proof using I.
  intros E. pose proof (mi_nodup _ I) as H. rewrite E in H. apply list.NoDup_cons in H as [? ?]. split; [done|]. split; [done|]. split; [apply (mi_live _ I); rewrite E; set_solver|].
  assert (Hd : ∀ d, e ∉ held (m_thr σ d)) by (intros d Hd; apply (mi_pool _ I d e Hd); rewrite E; set_solver). split; [|done]. specialize (Hd c). unfold held in Hd. set_solver.
Qed.
Lemma mempool_alloc_mem r σ' : mempool_alloc c r σ = Some σ' → mem_inv σ'.
Proof using I.
  unfold mempool_alloc. destruct (mt_pc (m_thr σ c)) eqn:E; try done.
  - unfold allocated. destruct r as [e|]; [|intros [= <-]; mkeep I E]. case_bool_decide as Hl; [done|]. intros [= <-]. destruct (new_alone e Hl) as (H1 & H2 & H3).
    mmove I E e false true true; [apply I|msetx e|msetx e|done|msetx e|msets].
  - destruct (elements σ) as [|e l] eqn:El; intros [= <-]; [destruct wait; mkeep I E|]. destruct (top_alone e l El) as (H1 & H2 & H3 & H4 & H5).
    mmove I E e false true true; [done|rewrite El; msetx e|msetx e|done|msetx e|msets].
  - intros [= <-]. mkeep I E.
  - intros [= <-]. destruct (curr_nr σ =? 0); mkeep I E.
  - intros [= <-]. mkeep I E.
  - intros [= <-]. mkeep I E.
Qed.
Lemma mempool_free_mem σ' : mempool_free c σ = Some σ' → mem_inv σ'.
Proof using I.
  unfold mempool_free. destruct (mt_pc (m_thr σ c)) as [| | | | | | | | |e|e v|e| |e| | | | | | | |] eqn:E; try done; try (destruct (pc_alone e ltac:(rewrite E; set_solver)) as (H1 & H2 & H3 & H4)); intros [= <-].
  - mkeep I E. congruence.
  - destruct (v <? min_nr σ); mkeep I E; congruence.
  - destruct (curr_nr σ <? min_nr σ); [|mkeep I E; congruence].
    mmove I E e true true false; [apply list.NoDup_cons; split; [done|apply I]|msetx e|msetx e|done|msetx e|msets].
  - mkeep I E; destruct (mt_q (m_thr σ c)); cbn; tauto.
  - mmove I E e false false false; [apply I|msetx e|msetx e|done|msetx e|msets].
Qed.
Lemma mempool_resize_mem r ok σ' : mempool_resize c r ok σ = Some σ' → mem_inv σ'.
Proof using I.
  assert (Hs : ∀ n, pc_set (mt_pc (m_thr σ c)) = ∅ → mem_inv (shrink_pool c n σ)).
  { intros n E. unfold shrink_pool. destruct (n <? curr_nr σ); [|mkeep I E]. destruct (elements σ) as [|e l] eqn:El; [mkeep I E|]. destruct (top_alone e l El) as (H1 & H2 & H3 & H4 & H5).
    mmove I E e false true true; [done|rewrite El; msetx e|msetx e|done|msetx e|msetx e]. }
  unfold mempool_resize. destruct (mt_pc (m_thr σ c)) as [| | | | | | | | | | | | | |n|n e|n|n|n|n|n e|e] eqn:E; try done; try (destruct (pc_alone e ltac:(rewrite E; set_solver)) as (H1 & H2 & H3 & H4)).
  - intros [= <-]. destruct (n <=? 0); [mkeep I E|]. destruct (n <=? min_nr σ); [|mkeep I E]. by apply Hs.
  - intros [= <-]. mmove I E e false false false; [apply I|msetx e|msetx e|done|msetx e|msets].
  - intros [= <-]. by apply Hs.
  - intros [= <-]. destruct ok; mkeep I E.
  - intros [= <-]. destruct (n <=? min_nr σ); [mkeep I E|]. unfold grow_pool. destruct (_ <? _); mkeep I E.
  - unfold allocated. destruct r as [e|]; [|intros [= <-]; mkeep I E]. case_bool_decide as Hl; [done|]. intros [= <-]. destruct (new_alone e Hl) as (H1 & H2 & H3).
    mmove I E e false true true; [apply I|msetx e|msetx e|done|msetx e|msetx e].
  - intros [= <-]. destruct (curr_nr σ <? min_nr σ); [|mkeep I E; congruence]. unfold grow_pool. destruct (_ <? _);
      (mmove I E e true true false; [apply list.NoDup_cons; split; [done|apply I]|msetx e|msetx e|done|msetx e|msets]).
  - intros [= <-]. mmove I E e false false false; [apply I|msetx e|msetx e|done|msetx e|msets].
Qed.
End MemSteps.

Lemma mem_step z σ σ' : mem_inv σ → mp_step z σ σ' → mem_inv σ'.
Proof.
  intros I. inversion 1 as [? c w E|? c e E He|? c n E Hn Hz|? c r ? E|? c ? E|? c r ok ? E]; subst.
  - destruct (mt_pc (m_thr σ c)) eqn:E'; try done; mkeep I E'.
  - pose proof (mi_self _ I c e He). destruct (mt_pc (m_thr σ c)) eqn:E'; try done; (eapply (mem_keep _ _ c I); munfold; [done|done|intros ? ?; by rewrite ?upd_at_ne|mthr E'; msetx e|mthr E'; msetx e]).
  - destruct (mt_pc (m_thr σ c)) eqn:E'; try done; mkeep I E'.
  - by eapply mempool_alloc_mem.
  - by eapply mempool_free_mem.
  - by eapply mempool_resize_mem.
Qed.

(** ** The numbers: if no two threads resize the pool at a time *)

Record num_inv (σ : mpool) : Prop := {
  ni_curr : curr_nr σ ≤ min_nr σ;
  ni_min : 0 < min_nr σ ≤ m_cap σ;
  ni_bad : m_bad σ = false;
  ni_one : ∀ c d, resizing (mt_pc (m_thr σ c)) = true → resizing (mt_pc (m_thr σ d)) = true → c = d;
  ni_start : ∀ c n, mt_pc (m_thr σ c) = RzStart n → 0 < n;
  ni_shrink : ∀ c n, mt_pc (m_thr σ c) = RzShrink n ∨ (∃ e, mt_pc (m_thr σ c) = RzFree n e) → 0 < n ≤ min_nr σ
}.
Lemma num_thread σ σ' c : num_inv σ → (∀ d, d ≠ c → mt_pc (m_thr σ' d) = mt_pc (m_thr σ d)) →
  curr_nr σ' ≤ min_nr σ' → 0 < min_nr σ' ≤ m_cap σ' → m_bad σ' = false →
  (resizing (mt_pc (m_thr σ' c)) = true → resizing (mt_pc (m_thr σ c)) = true ∨ ∀ d, resizing (mt_pc (m_thr σ d)) = false) →
  (resizing (mt_pc (m_thr σ c)) = true ∨ min_nr σ' = min_nr σ) →
  (match mt_pc (m_thr σ' c) with RzStart n => 0 < n | RzShrink n | RzFree n _ => 0 < n ≤ min_nr σ' | _ => True end) → num_inv σ'.
Proof.
  intros I Ho Hc Hm Hb Hr Hz Hp. split; [done|done|done| | |].
  - intros d1 d2 H1 H2. destruct (decide (d1 = c)) as [->|N1], (decide (d2 = c)) as [->|N2]; [done| | |].
    + rewrite Ho in H2 by done. destruct (Hr H1) as [H|H]; [by apply (ni_one _ I)|congruence].
    + rewrite Ho in H1 by done. destruct (Hr H2) as [H|H]; [by apply (ni_one _ I)|congruence].
    + rewrite !Ho in * by done. by apply (ni_one _ I).
  - intros d n E. destruct (decide (d = c)) as [->|N]; [by rewrite E in Hp|]. rewrite Ho in E by done. by apply (ni_start _ I d).
  - intros d n E. destruct (decide (d = c)) as [->|N]; [by destruct E as [E|[e E]]; rewrite E in Hp|]. rewrite Ho in E by done. destruct Hz as [H| ->]; [|by apply (ni_shrink _ I d)].
    destruct N. apply (ni_one _ I); [|done]. by destruct E as [-> |[e ->]].
Qed.
Ltac nstep I E := lazymatch type of E with context [mt_pc (m_thr ?s ?c)] => eapply (num_thread s _ c I) end; munfold; rewrite ?upd_at_eq, ?E; cbn;
  [intros ? ?; rewrite ?upd_at_ne by done; try case_match; done|try apply I|try apply I|try apply I|try done; auto|auto|try done].
Lemma num_alloc σ c r σ' : num_inv σ → mempool_alloc c r σ = Some σ' → num_inv σ'.
Proof.
  intros I. unfold mempool_alloc. destruct (mt_pc (m_thr σ c)) eqn:E; try done.
  - unfold allocated. destruct r as [e|]; [case_bool_decide; [done|]|]; intros [= <-]; nstep I E.
  - destruct (elements σ) as [|e l] eqn:El; intros [= <-]; [destruct wait; nstep I E|]. pose proof (ni_curr _ I) as Hc. unfold curr_nr in Hc. rewrite El in Hc. nstep I E. unfold curr_nr. cbn -[Z.of_nat] in *. lia.
  - intros [= <-]. nstep I E.
  - intros [= <-]. destruct (_ =? 0); nstep I E.
  - intros [= <-]. nstep I E.
  - intros [= <-]. nstep I E.
Qed.
Lemma freed_live σ c e : mem_inv σ → e ∈ pc_set (mt_pc (m_thr σ c)) → m_bad σ = false → m_bad σ || negb (bool_decide (e ∈ m_live σ)) = false.
Proof. intros I He ->. destruct (pc_alone σ I c e He) as (_ & _ & H & _). by rewrite bool_decide_eq_true_2. Qed.
Lemma add_fits σ e : num_inv σ → curr_nr σ < min_nr σ → m_bad (m_add e σ) = false ∧ curr_nr (m_add e σ) ≤ min_nr σ.
Proof.
  intros I H. pose proof (ni_min _ I). unfold m_add. cbn [m_bad]. rewrite (ni_bad _ I). unfold curr_nr in *. cbn -[Z.of_nat].
  destruct (Z.leb_spec (min_nr σ) (Z.of_nat (length (elements σ)))); [lia|]. destruct (Z.leb_spec (m_cap σ) (Z.of_nat (length (elements σ)))); [lia|]. cbn -[Z.of_nat]. split; [done|lia].
Qed.
Lemma num_free σ c σ' : mem_inv σ → num_inv σ → mempool_free c σ = Some σ' → num_inv σ'.
Proof.
  intros J I. unfold mempool_free. destruct (mt_pc (m_thr σ c)) as [| | | | | | | | |e|e v|e| |e| | | | | | | |] eqn:E; try done; intros [= <-].
  - nstep I E.
  - destruct (v <? min_nr σ); nstep I E.
  - destruct (Z.ltb_spec (curr_nr σ) (min_nr σ)) as [Hl|Hl]; [|nstep I E]. destruct (add_fits σ e I Hl). nstep I E; done.
  - nstep I E.
  - pose proof (freed_live σ c e J ltac:(rewrite E; set_solver) (ni_bad _ I)). nstep I E. done.
Qed.
Lemma num_shrink σ c n : num_inv σ → resizing (mt_pc (m_thr σ c)) = true → 0 < n ≤ min_nr σ → num_inv (shrink_pool c n σ).
Proof.
  intros I E Hn. unfold shrink_pool. pose proof (ni_curr _ I) as Hc. pose proof (ni_min _ I). destruct (Z.ltb_spec n (curr_nr σ)) as [Hl|Hl].
  - unfold curr_nr in *. destruct (elements σ) as [|e l] eqn:El; [cbn in Hl; lia|]. nstep I E. unfold curr_nr. cbn -[Z.of_nat] in *. lia.
  - nstep I E; [done|lia].
Qed.
Lemma num_grow_pool σ c n : num_inv σ → resizing (mt_pc (m_thr σ c)) = true → num_inv (grow_pool c n σ).
Proof. intros I E. unfold grow_pool. destruct (_ <? _); nstep I E. Qed.
Lemma num_resize σ c r ok σ' : mem_inv σ → num_inv σ → mempool_resize c r ok σ = Some σ' → num_inv σ'.
Proof.
  intros J I. assert (Hr : mempool_resize c r ok σ = Some σ' → resizing (mt_pc (m_thr σ c)) = true) by (unfold mempool_resize; by destruct (mt_pc (m_thr σ c))).
  intros H. specialize (Hr H). pose proof (ni_min _ I) as Hm. revert H.
  unfold mempool_resize. destruct (mt_pc (m_thr σ c)) as [| | | | | | | | | | | | | |n|n e|n|n|n|n|n e|e] eqn:E; try done.
  - intros [= <-]. pose proof (ni_start _ I c n E). destruct (Z.leb_spec n 0); [lia|]. destruct (Z.leb_spec n (min_nr σ)); [|nstep I E]. apply num_shrink; [done|by rewrite E|lia].
  - intros [= <-]. pose proof (freed_live σ c e J ltac:(rewrite E; set_solver) (ni_bad _ I)). nstep I E; [done|]. apply (ni_shrink _ I c). eauto.
  - intros [= <-]. apply num_shrink; [done|by rewrite E|]. apply (ni_shrink _ I c). eauto.
  - intros [= <-]. destruct ok; nstep I E.
  - intros [= <-]. destruct (Z.leb_spec n (min_nr σ)) as [Hl|Hl]; [nstep I E|]. pose proof (ni_curr _ I) as Hc.
    apply num_grow_pool; [|cbn; by rewrite E]. unfold m_swap. eapply (num_thread _ _ c I); cbn; rewrite ?E; auto; [unfold curr_nr in *; cbn; lia|lia|]. rewrite (ni_bad _ I). destruct (Z.ltb_spec n (curr_nr σ)); [lia|done].
  - unfold allocated. destruct r as [e|]; [case_bool_decide; [done|]|]; intros [= <-]; nstep I E.
  - intros [= <-]. destruct (Z.ltb_spec (curr_nr σ) (min_nr σ)) as [Hl|Hl]; [|nstep I E]. destruct (add_fits σ e I Hl).
    apply num_grow_pool; [|cbn; by rewrite E]. eapply (num_thread _ _ c I); cbn -[m_add curr_nr]; unfold m_add; cbn -[curr_nr]; rewrite ?E; auto.
  - intros [= <-]. pose proof (freed_live σ c e J ltac:(rewrite E; set_solver) (ni_bad _ I)). nstep I E. done.
Qed.
Lemma num_step z σ σ' : mem_inv σ → num_inv σ → z ≠ AnyResize → mp_step z σ σ' → num_inv σ'.
Proof.
  intros J I Hz. inversion 1 as [? c w E|? c e E He|? c n E Hn Hr|? c r ? E|? c ? E|? c r ok ? E]; subst.
  - destruct (mt_pc (m_thr σ c)) eqn:E'; try done; nstep I E'.
  - destruct (mt_pc (m_thr σ c)) eqn:E'; try done; nstep I E'.
  - destruct z; [done| |done]. destruct (mt_pc (m_thr σ c)) eqn:E'; try done; nstep I E'; lia.
  - by eapply num_alloc.
  - by eapply num_free.
  - by eapply num_resize.
Qed.

(** ** The start, and the invariant of every run *)

(** The size of the array in bytes does not wrap. *)
Definition created (n : Z) (p : mempool) : Prop := 0 < n < 2 ^ 30 ∧ ∃ mem L s s', holds L [] s ∧ mempool_create mem n s = Done (Some p, s').
Lemma start_inv n p : created n p → mem_inv (mp_start p) ∧ num_inv (mp_start p) ∧ min_nr (mp_start p) = n ∧ curr_nr (mp_start p) = n.
Proof.
  intros (Hn & mem & L & s & s' & Hh & E). pose proof (mempool_create_spec mem n L s Hh) as H. rewrite E in H. destruct H as (Hp & Hm & Hc & Hl & _).
  pose proof (ho_nodup _ _ _ Hp) as [Hd _]%list.NoDup_app. split; [|split; [|split]].
  - split; cbn; unfold held; cbn; try done; [intros e; rewrite elem_of_list_to_set|..]; set_solver.
  - split; cbn; unfold curr_nr; cbn; try done; [lia|lia|]. by intros ? ? [?|[? ?]].
  - done.
  - unfold curr_nr. cbn. lia.
Qed.
Lemma run_inv z n p σ : created n p → z ≠ AnyResize → rtc (mp_step z) (mp_start p) σ → mem_inv σ ∧ num_inv σ.
Proof.
  intros (H1 & H2 & _)%start_inv Hz Hr. revert H1 H2. induction Hr as [|σ1 σ2 σ3 Hs _ IH]; [done|]. intros J I. apply IH; [by eapply mem_step|by eapply num_step].
Qed.

(** C36: however threads allocate, free and, one at a time, resize a pool that [mempool_create] gave, no [BUG_ON] is reached, no element is written outside of the array and
    nothing is freed that is not allocated; the pool has at most [min_nr] elements, as many as the array has room for; and every element that came from the allocator is
    in exactly one place, once in the pool or with one thread. *)
Theorem mempool_sound z n p σ : created n p → z ≠ AnyResize → rtc (mp_step z) (mp_start p) σ →
  m_bad σ = false ∧ curr_nr σ ≤ min_nr σ ≤ m_cap σ ∧ 0 < min_nr σ ∧ NoDup (elements σ) ∧
  (∀ e, e ∈ m_live σ ↔ e ∈ elements σ ∨ ∃ c, e ∈ held (m_thr σ c)) ∧
  (∀ c e, e ∈ held (m_thr σ c) → e ∉ elements σ ∧ ∀ d, e ∈ held (m_thr σ d) → d = c).
Proof.
  intros Hc Hz Hr. destruct (run_inv z n p σ Hc Hz Hr) as [J I]. pose proof (ni_curr _ I). pose proof (ni_min _ I). split; [apply I|]. split; [lia|]. split; [lia|]. split; [apply J|]. split; [apply J|].
  intros c e He. split; [by apply (mi_pool _ J c)|]. intros d Hd. by apply (mi_one _ J d c e).
Qed.

(** ** The reserve, if the pool is not resized *)

(** The element that a thread is going to give back to the allocator *)
Definition giving (m : Z) (pc : mpc) : option loc := match pc with FrFree e => Some e | FrMin e v => if m <=? v then Some e else None | _ => None end.
(** As many elements as the pool is to keep stay in use. *)
Definition reserve (σ : mpool) : Prop := ∃ K : gset loc, Z.of_nat (size K) = min_nr σ ∧ K ⊆ m_live σ ∧ ∀ c e, giving (min_nr σ) (mt_pc (m_thr σ c)) = Some e → e ∉ K.
Lemma giving_held m t e : giving m (mt_pc t) = Some e → e ∈ held t.
Proof. unfold held. destruct (mt_pc t); cbn; try done; [case_match|]; intros [= ->]; set_solver. Qed.
Lemma reserve_full σ : mem_inv σ → curr_nr σ = min_nr σ → reserve σ.
Proof.
  intros J H. exists (list_to_set (elements σ)). split; [rewrite size_list_to_set by apply J; done|]. split.
  - intros e He%elem_of_list_to_set. apply (mi_live _ J). auto.
  - intros c e He%giving_held. rewrite elem_of_list_to_set. by apply (mi_pool _ J c).
Qed.
Lemma reserve_keep σ σ' : reserve σ → min_nr σ' = min_nr σ → (∀ e, e ∈ m_live σ → e ∈ m_live σ') →
  (∀ c e, giving (min_nr σ) (mt_pc (m_thr σ' c)) = Some e → giving (min_nr σ) (mt_pc (m_thr σ c)) = Some e) → reserve σ'.
Proof. intros (K & H1 & H2 & H3) Hm Hl Hg. exists K. rewrite Hm. split; [done|]. split; [set_solver|]. eauto. Qed.
Record guar (σ : mpool) : Prop := { gu_one : ∀ c, resizing (mt_pc (m_thr σ c)) = false; gu_reserve : reserve σ }.
Lemma one_thread σ σ' c : (∀ d, resizing (mt_pc (m_thr σ d)) = false) → (∀ d, d ≠ c → mt_pc (m_thr σ' d) = mt_pc (m_thr σ d)) → resizing (mt_pc (m_thr σ' c)) = false → ∀ d, resizing (mt_pc (m_thr σ' d)) = false.
Proof. intros H Ho Hc d. destruct (decide (d = c)) as [->|N]; [done|]. by rewrite Ho. Qed.
(** A step of thread [c] that gives no element away *)
Lemma guar_thread σ σ' c : guar σ → (∀ d, d ≠ c → mt_pc (m_thr σ' d) = mt_pc (m_thr σ d)) → min_nr σ' = min_nr σ → (∀ e, e ∈ m_live σ → e ∈ m_live σ') →
  resizing (mt_pc (m_thr σ' c)) = false → giving (min_nr σ) (mt_pc (m_thr σ' c)) = None ∨ giving (min_nr σ) (mt_pc (m_thr σ' c)) = giving (min_nr σ) (mt_pc (m_thr σ c)) ∨ reserve σ' → guar σ'.
Proof.
  intros G Ho Hm Hl Hr Hg. split; [by eapply one_thread; [apply G|..]|].
  destruct Hg as [Hg|[Hg|Hg]]; [| |done]; (eapply reserve_keep; [apply G|done|done|]); intros d e; (destruct (decide (d = c)) as [->|N]; [|by rewrite Ho]); congruence.
Qed.
Ltac gstep G E := lazymatch type of E with context [mt_pc (m_thr ?s ?c)] => eapply (guar_thread s _ c G) end; munfold; rewrite ?upd_at_eq, ?E; cbn;
  [intros ? ?; rewrite ?upd_at_ne by done; try case_match; done|done|try done; set_solver|done|auto].
Lemma guar_alloc σ c r σ' : guar σ → mempool_alloc c r σ = Some σ' → guar σ'.
Proof.
  intros G. unfold mempool_alloc. destruct (mt_pc (m_thr σ c)) eqn:E; try done.
  - unfold allocated. destruct r as [e|]; [case_bool_decide; [done|]|]; intros [= <-]; gstep G E.
  - destruct (elements σ) as [|e l] eqn:El; intros [= <-]; [destruct wait; gstep G E|]. gstep G E.
  - intros [= <-]. gstep G E.
  - intros [= <-]. destruct (_ =? 0); gstep G E.
  - intros [= <-]. gstep G E.
  - intros [= <-]. gstep G E.
Qed.
Lemma guar_free σ c σ' : mem_inv σ' → num_inv σ → guar σ → mempool_free c σ = Some σ' → guar σ'.
Proof.
  intros J I G. pose proof (ni_curr _ I) as Hc. unfold mempool_free. destruct (mt_pc (m_thr σ c)) as [| | | | | | | | |e|e v|e| |e| | | | | | | |] eqn:E; try done; intros [= <-].
  - gstep G E. destruct (Z.leb_spec (min_nr σ) (curr_nr σ)); [|auto]. right; right. apply (reserve_full _ J). unfold curr_nr in *. cbn. lia.
  - destruct (Z.ltb_spec v (min_nr σ)); gstep G E. right; left. destruct (Z.leb_spec (min_nr σ) v); [done|lia].
  - destruct (Z.ltb_spec (curr_nr σ) (min_nr σ)); gstep G E. right; right. apply (reserve_full _ J). unfold curr_nr in *. cbn. lia.
  - gstep G E.
  - split.
    + by eapply (one_thread σ _ c); [apply G|intros ? ?; munfold; by rewrite upd_at_ne|munfold; by rewrite upd_at_eq].
    + destruct (gu_reserve _ G) as (K & H1 & H2 & H3). exists K. munfold. split; [done|]. pose proof (H3 c e ltac:(by rewrite E)) as He. split; [set_solver|].
      intros d x. destruct (decide (d = c)) as [->|N]; [by rewrite upd_at_eq|rewrite upd_at_ne by done; apply H3].
Qed.
Lemma guar_step σ σ' : mem_inv σ' → num_inv σ → guar σ → mp_step NoResize σ σ' → guar σ'.
Proof.
  intros J I G. inversion 1 as [? c w E|? c e E He|? c n E Hn Hr|? c r ? E|? c ? E|? c r ok ? E]; subst.
  - destruct (mt_pc (m_thr σ c)) eqn:E'; try done; gstep G E'.
  - destruct (mt_pc (m_thr σ c)) eqn:E'; try done; gstep G E'.
  - done.
  - by eapply guar_alloc.
  - by eapply guar_free.
  - exfalso. pose proof (gu_one _ G c) as H'. unfold mempool_resize in E. by destruct (mt_pc (m_thr σ c)).
Qed.
Lemma min_const σ σ' : guar σ → mp_step NoResize σ σ' → min_nr σ' = min_nr σ.
Proof.
  intros G. inversion 1 as [? c w E|? c e E He|? c n E Hn Hr|? c r ? E|? c ? E|? c r ok ? E]; subst; try done.
  - unfold mempool_alloc, allocated in E. by repeat (case_match; simplify_eq).
  - unfold mempool_free in E. by repeat (case_match; simplify_eq).
  - exfalso. pose proof (gu_one _ G c) as H'. unfold mempool_resize in E. by destruct (mt_pc (m_thr σ c)).
Qed.
Lemma run_guar n p σ : created n p → rtc (mp_step NoResize) (mp_start p) σ → mem_inv σ ∧ num_inv σ ∧ guar σ ∧ min_nr σ = n.
Proof.
  intros Hc. pose proof (start_inv n p Hc) as (J0 & I0 & Hm & Hl). intros Hr.
  assert (G0 : guar (mp_start p)) by (split; [done|apply reserve_full; [done|lia]]). revert J0 I0 G0 Hm. clear Hl.
  induction Hr as [|σ1 σ2 σ3 Hs _ IH]; [done|]. intros J I G Hm. pose proof (mem_step _ _ _ J Hs) as J2. pose proof (num_step NoResize σ1 σ2 J I ltac:(done) Hs) as I2.
  apply IH; [done|done|by apply (guar_step σ1)|]. by rewrite (min_const σ1 σ2 G Hs).
Qed.

(** Inside [mempool_alloc] *)
Definition in_alloc (pc : mpc) : bool := match pc with AlAlloc _ | AlLock _ | AlPrepare | AlCheck | AlSleep | AlFinish => true | _ => false end.
(** [k] steps of thread [c] in [mempool_alloc], with an allocator that fails *)
Fixpoint alloc_steps (k : nat) (c : nat) (σ : mpool) : option mpool :=
  match k with O => Some σ | S k => σ' ← mempool_alloc c None σ; alloc_steps k c σ' end.
Lemma alloc_steps_S k c σ0 σ1 : mempool_alloc c None σ0 = Some σ1 → alloc_steps (S k) c σ0 = alloc_steps k c σ1.
Proof. intros E. cbn [alloc_steps]. by rewrite E. Qed.
Lemma alloc_steps_take σ c e l : in_alloc (mt_pc (m_thr σ c)) = true → elements σ = e :: l →
  ∃ k σ', (k ≤ 5)%nat ∧ alloc_steps k c σ = Some σ' ∧ mt_pc (m_thr σ' c) = MpGot (Some e) ∧ e ∈ mt_own (m_thr σ' c) ∧ elements σ' = l.
Proof.
  intros Hp He. assert (Hn : (curr_nr σ =? 0) = false) by (apply Z.eqb_neq; unfold curr_nr; rewrite He; cbn; lia).
  assert (H1 : ∀ σ0 w, elements σ0 = e :: l → mt_pc (m_thr σ0 c) = AlLock w → ∃ σ', alloc_steps 1 c σ0 = Some σ' ∧ mt_pc (m_thr σ' c) = MpGot (Some e) ∧ e ∈ mt_own (m_thr σ' c) ∧ elements σ' = l).
  { intros σ0 w E0 E1. cbn [alloc_steps mbind option_bind]. unfold mempool_alloc. rewrite E1, E0. eexists. split; [done|]. munfold. rewrite !upd_at_eq. cbn. set_solver. }
  pose proof (λ k, alloc_steps_S k c) as Hs.
  assert (H2 : ∀ σ0 w, elements σ0 = e :: l → mt_pc (m_thr σ0 c) = AlAlloc w → ∃ σ', alloc_steps 2 c σ0 = Some σ' ∧ mt_pc (m_thr σ' c) = MpGot (Some e) ∧ e ∈ mt_own (m_thr σ' c) ∧ elements σ' = l).
  { intros σ0 w E0 E1. rewrite (Hs _ _ (m_at c (AlLock w) σ0)) by (unfold mempool_alloc; by rewrite E1). apply (H1 _ w); [done|]. munfold. by rewrite upd_at_eq. }
  assert (H3 : ∀ σ0, elements σ0 = e :: l → mt_pc (m_thr σ0 c) = AlFinish → ∃ σ', alloc_steps 3 c σ0 = Some σ' ∧ mt_pc (m_thr σ' c) = MpGot (Some e) ∧ e ∈ mt_own (m_thr σ' c) ∧ elements σ' = l).
  { intros σ0 E0 E1. erewrite Hs by (unfold mempool_alloc; by rewrite E1). apply (H2 _ true); [done|]. munfold. by rewrite upd_at_eq. }
  assert (H4 : ∀ σ0, elements σ0 = e :: l → mt_pc (m_thr σ0 c) = AlCheck ∨ mt_pc (m_thr σ0 c) = AlSleep → ∃ σ', alloc_steps 4 c σ0 = Some σ' ∧ mt_pc (m_thr σ' c) = MpGot (Some e) ∧ e ∈ mt_own (m_thr σ' c) ∧ elements σ' = l).
  { intros σ0 E0 E1. rewrite (Hs _ _ (m_at c AlFinish σ0)).
    - apply H3; [done|]. munfold. by rewrite upd_at_eq.
    - unfold mempool_alloc. destruct E1 as [-> | ->]; [|done]. destruct (Z.eqb_spec (curr_nr σ0) 0) as [Hz|]; [|done]. unfold curr_nr in Hz. by rewrite E0 in Hz. }
  destruct (mt_pc (m_thr σ c)) eqn:E; try done.
  - destruct (H2 σ _ He E) as (σ' & ?). exists 2%nat, σ'. split; [lia|done].
  - destruct (H1 σ _ He E) as (σ' & ?). exists 1%nat, σ'. split; [lia|done].
  - destruct (H4 (set_thr c (λ t, MThr AlCheck (mt_own t) true (mt_ups t)) σ) He) as (σ' & ?); [left; munfold; by rewrite upd_at_eq|].
    exists 5%nat, σ'. split; [lia|]. erewrite Hs by (unfold mempool_alloc; by rewrite E). done.
  - destruct (H4 σ He (or_introl E)) as (σ' & ?). exists 4%nat, σ'. split; [lia|done].
  - destruct (H4 σ He (or_intror E)) as (σ' & ?). exists 4%nat, σ'. split; [lia|done].
  - destruct (H3 σ He E) as (σ' & ?). exists 3%nat, σ'. split; [lia|done].
Qed.

(** C37: the guarantee of a pool of [n] elements that is not resized: in every interleaving of allocations and frees, [n] elements stay in the pool or with threads that are
    not giving them back to the allocator; so when no thread has an element the pool is full, and while the pool is empty some thread has an element that it will not give back
    to the allocator.  [mempool_alloc] never blocks: as soon as the pool has an element, a thread inside it gets one within five steps of its own in which nobody disturbs it, even if the allocator
    fails.  Growing the pool is excluded because the elements added are not guaranteed. *)
Theorem mempool_reserve n p σ : created n p → rtc (mp_step NoResize) (mp_start p) σ →
  (∃ K : gset loc, Z.of_nat (size K) = n ∧ K ⊆ m_live σ ∧ ∀ c e, giving n (mt_pc (m_thr σ c)) = Some e → e ∉ K) ∧
  ((∀ c, held (m_thr σ c) = ∅) → curr_nr σ = n) ∧
  (elements σ = [] → ∃ d e, e ∈ held (m_thr σ d) ∧ giving n (mt_pc (m_thr σ d)) ≠ Some e) ∧
  (∀ c e l, in_alloc (mt_pc (m_thr σ c)) = true → elements σ = e :: l →
    ∃ k σ', (k ≤ 5)%nat ∧ alloc_steps k c σ = Some σ' ∧ mt_pc (m_thr σ' c) = MpGot (Some e) ∧ e ∈ mt_own (m_thr σ' c) ∧ elements σ' = l).
Proof.
  intros Hc Hr. pose proof (proj1 Hc) as Hn. destruct (run_guar n p σ Hc Hr) as (J & I & G & Hm). pose proof (gu_reserve _ G) as HK. unfold reserve in HK. rewrite Hm in HK. split; [done|].
  destruct HK as (K & Hs & Hl & Hg). split; [|split].
  - intros Hh. pose proof (ni_curr _ I). assert (K ⊆ list_to_set (elements σ)) as Hk%subseteq_size.
    { intros e [He|[d He]]%Hl%(mi_live _ J); [by apply elem_of_list_to_set|]. rewrite Hh in He. set_solver. }
    rewrite size_list_to_set in Hk by apply J. unfold curr_nr in *. lia.
  - intros He. destruct (set_choose_or_empty K) as [[e Ke]|HE]; [|assert (K = ∅) as -> by set_solver; rewrite size_empty in Hs; lia].
    pose proof (Hl e Ke) as [Hin|[d Hd]]%(mi_live _ J); [rewrite He in Hin; set_solver|]. exists d, e. split; [done|]. intros Hgi. by apply (Hg d e).
  - intros c e l. apply alloc_steps_take.
Qed.

(** ** Schedules *)

(** A thread calls one of the functions, or makes a step: what the allocator gives, and whether the array can be allocated *)
Inductive mact := CAlloc (c : nat) (w : bool) | CFree (c : nat) (e : loc) | CResize (c : nat) (n : Z) | Run (c : nat) (r : option loc) (b : bool).
Definition mact_run (a : mact) (σ : mpool) : mpool :=
  match a with
  | CAlloc c w => if idle (mt_pc (m_thr σ c)) then m_at c (AlAlloc w) σ else σ
  | CFree c e => if idle (mt_pc (m_thr σ c)) && bool_decide (e ∈ mt_own (m_thr σ c)) then m_at c (FrCurr e) (set_thr c (lose e) σ) else σ
  | CResize c n => if idle (mt_pc (m_thr σ c)) && (0 <? n) && (n <? 2 ^ 30) then m_at c (RzStart n) σ else σ
  | Run c r b => match mempool_alloc c r σ with Some σ' => σ' | None => match mempool_free c σ with Some σ' => σ' | None => default σ (mempool_resize c r b σ) end end
  end.
Fixpoint mp_exec (l : list mact) (σ : mpool) : mpool := match l with [] => σ | a :: l => mp_exec l (mact_run a σ) end.
Definition resizes_any (z : resizes) : bool := match z with AnyResize => true | _ => false end.
Lemma mp_exec_run z l σ : (resizes_any z || forallb (λ a, match a with CResize _ _ => false | _ => true end) l) = true → rtc (mp_step z) σ (mp_exec l σ).
Proof.
  revert σ. induction l as [|a l IH]; intros σ Hz; cbn [mp_exec]; [apply rtc_refl|].
  assert (Ha : rtc (mp_step z) σ (mact_run a σ)).
  { destruct a as [c w|c e|c n|c r b]; cbn [mact_run].
    - destruct (idle _) eqn:E; [|done]. by apply rtc_once, MsCallAlloc.
    - destruct (idle _) eqn:E; [|done]. case_bool_decide; [|done]. by apply rtc_once, MsCallFree.
    - destruct (idle _) eqn:E; [|done]. destruct (Z.ltb_spec 0 n); [|done]. destruct (Z.ltb_spec n (2 ^ 30)); [|done]. apply rtc_once, MsCallResize; [done|lia|]. by destruct z.
    - destruct (mempool_alloc c r σ) eqn:E1; [by eapply rtc_once, MsAlloc|]. destruct (mempool_free c σ) eqn:E2; [by eapply rtc_once, MsFree|].
      destruct (mempool_resize c r b σ) eqn:E3; [by eapply rtc_once, MsResize|done]. }
  etrans; [exact Ha|]. apply IH. destruct (resizes_any z); [done|]. cbn in Hz. by apply andb_true_iff in Hz as [_ ?].
Qed.

(** A pool of two elements, with an allocator that fails: two threads take them and a third one waits. *)
Definition mem0 : mst := Mst 0 1%positive ∅.
Definition demo_pool : mempool := Mempool 1%positive 2%positive 2 [4%positive; 3%positive] 2.
Lemma mem0_holds : holds ∅ [] mem0.
Proof. split; cbn; [set_solver|apply base.NoDup_nil_2|set_solver|set_solver]. Qed.
Lemma demo_created : created 2 demo_pool.
Proof. split; [lia|]. eexists (λ _, true), ∅, mem0, _. split; [apply mem0_holds|]. vm_compute. reflexivity. Qed.
Definition takes (c : nat) : list mact := [CAlloc c true; Run c None false; Run c None false].
Definition demo_wait : mpool := mp_exec (takes 0 ++ takes 1 ++ takes 2 ++ replicate 2 (Run 2 None false)) (mp_start demo_pool).
Lemma demo_wait_reachable z : rtc (mp_step z) (mp_start demo_pool) demo_wait.
Proof. apply mp_exec_run. by destruct z. Qed.
Lemma mempool_reserve_witness : mt_pc (m_thr demo_wait 2) = AlSleep ∧ elements demo_wait = [] ∧
  ∃ d e, e ∈ held (m_thr demo_wait d) ∧ giving 2 (mt_pc (m_thr demo_wait d)) ≠ Some e.
Proof.
  split; [vm_compute; reflexivity|]. split; [vm_compute; reflexivity|].
  exact (proj1 (proj2 (proj2 (mempool_reserve 2 demo_pool demo_wait demo_created (demo_wait_reachable NoResize)))) eq_refl).
Defined.
(** A thread that waits for an element does so without sleeping: while the pool is empty and the allocator fails, six steps of it lead from the start of the loop back to it. *)
Theorem mempool_alloc_spins σ c : mt_pc (m_thr σ c) = AlAlloc true → elements σ = [] →
  ∃ σ', alloc_steps 6 c σ = Some σ' ∧ mt_pc (m_thr σ' c) = AlAlloc true ∧ elements σ' = [].
Proof.
  intros E He. pose proof (alloc_steps_S) as Hs.
  rewrite (Hs _ c σ (m_at c (AlLock true) σ)) by (unfold mempool_alloc; by rewrite E).
  erewrite Hs by (unfold mempool_alloc; munfold; rewrite upd_at_eq, He; reflexivity).
  erewrite Hs by (unfold mempool_alloc; munfold; rewrite upd_at_eq; reflexivity).
  erewrite Hs by (unfold mempool_alloc; munfold; rewrite upd_at_eq; reflexivity).
  unfold curr_nr. cbn [elements]. rewrite ?He. cbn [length Z.of_nat Z.eqb].
  erewrite Hs by (unfold mempool_alloc; munfold; rewrite upd_at_eq; reflexivity).
  erewrite Hs by (unfold mempool_alloc; munfold; rewrite upd_at_eq; reflexivity).
  eexists. split; [reflexivity|]. munfold. rewrite upd_at_eq. done.
Qed.
Lemma mempool_alloc_spins_witness : ∃ σ', alloc_steps 6 0 (m_at 0 (AlAlloc true) demo_wait) = Some σ' ∧ mt_pc (m_thr σ' 0) = AlAlloc true ∧ elements σ' = [].
Proof. apply (mempool_alloc_spins (m_at 0 (AlAlloc true) demo_wait) 0); vm_compute; reflexivity. Defined.
(** Then a fourth one grows the pool to 4, for which the allocator gives only two elements. *)
Definition demo_grown : mpool := mp_exec [Run 3 None true; Run 3 None true; Run 3 None true; Run 3 (Some 5%positive) true; Run 3 None true; Run 3 (Some 6%positive) true; Run 3 None true; Run 3 None true] (m_at 3 (RzStart 4) demo_wait).
Lemma demo_grown_reachable : rtc (mp_step OneResize) (mp_start demo_pool) demo_grown.
Proof.
  etrans; [apply demo_wait_reachable|]. eapply rtc_l; [|by apply mp_exec_run]. apply (MsCallResize _ _ 3%nat 4); [vm_compute; reflexivity|lia|].
  destruct (run_guar 2 demo_pool demo_wait demo_created (demo_wait_reachable NoResize)) as (_ & _ & G & _). exact (gu_one _ G).
Qed.
Lemma mempool_sound_witness : elements demo_grown = [6%positive; 5%positive] ∧ min_nr demo_grown = 4 ∧ m_bad demo_grown = false ∧ curr_nr demo_grown ≤ min_nr demo_grown ≤ m_cap demo_grown.
Proof.
  split; [vm_compute; reflexivity|]. split; [vm_compute; reflexivity|].
  assert (Hz : OneResize ≠ AnyResize) by discriminate. pose proof (mempool_sound OneResize 2 demo_pool demo_grown demo_created Hz demo_grown_reachable) as (H1 & H2 & _). exact (conj H1 H2).
Defined.
(** Two threads resize a pool of 4 elements: the first shrinks it to 3 and has let go of the lock to free an element, the second shrinks it to 1 and grows it to 2, for which it
    installs an array of 2; the first goes on and sets [min_nr] to 3.  The next free writes behind the array. *)
Definition pool4 : mempool := Mempool 1%positive 2%positive 4 [6%positive; 5%positive; 4%positive; 3%positive] 4.
Definition race : list mact :=
  [CResize 0 3; Run 0 None true] ++ CResize 1 1 :: replicate 5 (Run 1 None true) ++ CResize 1 2 :: replicate 3 (Run 1 None true) ++ [Run 1 (Some 7%positive) true; Run 1 None true] ++
  [Run 0 None true; Run 0 None true] ++ [CAlloc 2 true; Run 2 (Some 8%positive) true; CFree 2 8%positive] ++ replicate 3 (Run 2 None true).
Theorem mempool_resize_race : created 4 pool4 ∧ ∃ σ, rtc (mp_step AnyResize) (mp_start pool4) σ ∧ m_bad σ = true ∧ m_cap σ = 2 ∧ min_nr σ = 3 ∧ curr_nr σ = 3.
Proof.
  split.
  - split; [lia|]. eexists (λ _, true), ∅, mem0, _. split; [apply mem0_holds|]. vm_compute. reflexivity.
  - exists (mp_exec race (mp_start pool4)). split; [by apply mp_exec_run|]. repeat split; vm_compute; reflexivity.
Qed.
