(* ===== verification/Klist.v ===== *)
(** Lists that may be changed during iterations: lib/klist.c.

    The nodes of a list are counted: the list itself has a reference as long as the owner has not deleted the node, and so has every iterator whose current node it is.
    Every function takes the lock of the list once, so that a function is a step; [put] follows in the
    same step, as does what [klist_release] does to the node after it has told the owner, who has to keep the node for that long.  A node is used for one list and once: one that is added again counts as another node. *)

From S2P Require Import Prelude.

(** [n_refs]: references to the object around the node, from [get] and [put] *)
Record klist_node := KNode { n_ref : Z; n_klist : bool; n_removed : Z; n_refs : Z }.
Record klist := Klist { k_list : list loc; k_nodes : gmap loc klist_node }.
Abbreviation LM := (M klist).

(** The node behind [n]; [None]: [n] is not on the list, its pointers are poisoned. *)
Fixpoint list_next (n : loc) (l : list loc) : option (option loc) :=
  match l with [] => None | x :: l => if decide (x = n) then Some (head l) else list_next n l end.

(** The nodes behind [n] *)
Fixpoint after (n : loc) (l : list loc) : list loc := match l with [] => [] | x :: l => if decide (x = n) then l else after n l end.

Section Klist.
(** whether the list has [get] and [put] *)
Context (getput : bool).
Definition klist_init : klist := Klist [] ∅.
Definition knode (n : loc) : LM klist_node := λ k, match k_nodes k !! n with Some x => Done (x, k) | None => Fault FFreed end.
Definition set_node (n : loc) (x : klist_node) : LM unit := modify (λ k, Klist (k_list k) (<[n := x]> (k_nodes k))).
Definition set_list (f : list loc → list loc) : LM unit := modify (λ k, Klist (f (k_list k)) (k_nodes k)).
Definition klist_node_init (n : loc) : LM unit := set_node n (KNode 1 true 0 (if getput then 1 else 0)).
Definition klist_add_head (n : loc) : LM unit := klist_node_init n ;; set_list (λ l, n :: l).
Definition klist_add_tail (n : loc) : LM unit := klist_node_init n ;; set_list (λ l, l ++ [n]).
(** Taking a reference to a node that has none is a use after the release. *)
Definition knode_get (n : loc) : LM unit := x ← knode n; if n_ref x =? 0 then fail FBug else set_node n (KNode (n_ref x + 1) (n_klist x) (n_removed x) (n_refs x)).
Definition klist_release (n : loc) : LM unit :=
  k ← get;
  match list_next n (k_list k) with
  | None => fail FFreed
  | Some _ => set_list (filter (λ x, x ≠ n)) ;; x ← knode n; set_node n (KNode (n_ref x) false (n_removed x + 1) (n_refs x))
  end.
Definition klist_dec_and_del (n : loc) : LM bool :=
  x ← knode n;
  set_node n (KNode (n_ref x - 1) (n_klist x) (n_removed x) (n_refs x)) ;;
  if n_ref x - 1 =? 0 then klist_release n ;; mret true else mret false.
Definition knode_put (n : loc) : LM unit :=
  if getput then x ← knode n; set_node n (KNode (n_ref x) (n_klist x) (n_removed x) (n_refs x - 1)) else mret tt.
Definition klist_del (n : loc) : LM unit :=
  x ← knode n;
  if negb (n_klist x) then fail FNull else
  b ← klist_dec_and_del n;
  if (b : bool) then knode_put n else mret tt.
Definition klist_node_attached (n : loc) : LM bool := x ← knode n; mret (n_klist x).
(** [klist_remove] after [klist_del]; [false]: it waits. *)
Definition klist_removed (n : loc) : LM bool :=
  x ← knode n;
  if 0 <? n_removed x then set_node n (KNode (n_ref x) (n_klist x) (n_removed x - 1) (n_refs x)) ;; mret true else mret false.
(** Iterators, given by [i_cur]; the functions return the new one. *)
Definition klist_iter_init_node (n : option loc) : LM (option loc) :=
  match n with None => mret None | Some n => knode_get n ;; mret (Some n) end.
Definition klist_iter_init : LM (option loc) := klist_iter_init_node None.
Definition klist_iter_exit (cur : option loc) : LM (option loc) :=
  match cur with None => mret None | Some n => klist_del n ;; mret None end.
Definition klist_next (cur : option loc) : LM (option loc) :=
  p ← (match cur with
       | Some n =>
           k ← get;
           match list_next n (k_list k) with
           | None => fail FFreed
           | Some next => b ← klist_dec_and_del n; mret (next, b)
           end
       | None => k ← get; mret (head (k_list k), true)
       end);
  (match fst p with Some n => knode_get n | None => mret tt end) ;;
  (match cur with Some n => if snd p : bool then knode_put n else mret tt | None => mret tt end) ;;
  mret (fst p).
End Klist.

(** ** Owners of nodes and iterations *)

(** An iteration: the nodes ahead of it when it began, and those that it has returned *)
Inductive phase := ItNone | ItRunning | ItEnd.
Record iteration := Iter { it_phase : phase; it_cur : option loc; it_start : list loc; it_seen : list loc }.
Record klsys := KlSys { k_k : klist; k_deleted : gset loc; k_done : gset loc; k_iter : nat → iteration }.
Definition set_iter (j : nat) (it : iteration) (k : klist) (σ : klsys) : klsys := KlSys k (k_deleted σ) (k_done σ) (upd_at j (λ _, it) (k_iter σ)).
Definition kl_init : klsys := KlSys klist_init ∅ ∅ (λ _, Iter ItNone None [] []).
Section Steps.
Context (getput : bool).
(** The calls: an owner adds a new node, deletes it once and may wait for its removal once; iterations begin at the head or at a node that is still owned,
    go on and end. *)
Inductive kcall := AddHead (n : loc) | AddTail (n : loc) | Del (n : loc) | Removed (n : loc) | IterInit (j : nat) | IterInitNode (j : nat) (n : loc) | Next (j : nat) | Exit (j : nat).
Definition kcall_ok (a : kcall) (σ : klsys) : Prop :=
  match a with
  | AddHead n | AddTail n => k_nodes (k_k σ) !! n = None
  | Del n => is_Some (k_nodes (k_k σ) !! n) ∧ n ∉ k_deleted σ
  | Removed n => n ∈ k_deleted σ ∧ n ∉ k_done σ
  | IterInit j => it_phase (k_iter σ j) = ItNone
  | IterInitNode j n => it_phase (k_iter σ j) = ItNone ∧ is_Some (k_nodes (k_k σ) !! n) ∧ n ∉ k_deleted σ
  | Next j => it_phase (k_iter σ j) = ItRunning
  | Exit j => it_phase (k_iter σ j) = ItRunning
  end.
Definition on_klist {A} (m : LM A) (f : A → klist → klsys) (σ : klsys) : outcome klsys := match m (k_k σ) with Done (a, k) => Done (f a k) | Fault e => Fault e end.
Definition kcall_run (a : kcall) (σ : klsys) : outcome klsys :=
  let keep := λ (_ : unit) k, KlSys k (k_deleted σ) (k_done σ) (k_iter σ) in
  match a with
  | AddHead n => on_klist (klist_add_head getput n) keep σ
  | AddTail n => on_klist (klist_add_tail getput n) keep σ
  | Del n => on_klist (klist_del getput n) (λ _ k, KlSys k ({[n]} ∪ k_deleted σ) (k_done σ) (k_iter σ)) σ
  | Removed n => on_klist (klist_removed n) (λ b k, KlSys k (k_deleted σ) (if b : bool then {[n]} ∪ k_done σ else k_done σ) (k_iter σ)) σ
  | IterInit j => on_klist klist_iter_init (λ c k, set_iter j (Iter ItRunning c (k_list (k_k σ)) []) k σ) σ
  | IterInitNode j n => on_klist (klist_iter_init_node (Some n)) (λ c k, set_iter j (Iter ItRunning c (after n (k_list (k_k σ))) []) k σ) σ
  | Next j =>
      let it := k_iter σ j in
      on_klist (klist_next getput (it_cur it)) (λ c k, set_iter j (match c with Some n => Iter ItRunning c (it_start it) (it_seen it ++ [n]) | None => Iter ItEnd None (it_start it) (it_seen it) end) k σ) σ
  | Exit j => on_klist (klist_iter_exit getput (it_cur (k_iter σ j))) (λ c k, set_iter j (Iter ItNone c [] []) k σ) σ
  end.
Inductive kl_step : klsys → klsys → Prop := KlStep a σ σ' : kcall_ok a σ → kcall_run a σ = Done σ' → kl_step σ σ'.
End Steps.

(** ** References: the owner is [None], the iterator [j] is [Some j]. *)

Section Core.
Context (getput : bool).
(** [U]: the nodes that were added; [D]: nodes whose removal was waited for; [H]: who has references; [P]: nodes whose [put] is still to come *)
Record core (U D : gset loc) (H : loc → gset (option nat)) (P : gset loc) (k : klist) : Prop := {
  co_nodup : NoDup (k_list k);
  co_list : ∀ n, n ∈ k_list k ↔ H n ≠ ∅;
  co_dom : ∀ n, H n ≠ ∅ → is_Some (k_nodes k !! n);
  co_ref : ∀ n x, k_nodes k !! n = Some x → n_ref x = Z.of_nat (size (H n));
  co_att : ∀ n x, k_nodes k !! n = Some x → n_klist x = bool_decide (H n ≠ ∅);
  co_rem : ∀ n x, k_nodes k !! n = Some x → n_removed x = bool2Z (bool_decide (H n = ∅ ∧ n ∉ D));
  co_done : ∀ n, n ∈ D → H n = ∅;
  co_refs : ∀ n x, k_nodes k !! n = Some x → n_refs x = bool2Z (getput && bool_decide (H n ≠ ∅ ∨ n ∈ P));
  co_put : ∀ n, n ∈ P → is_Some (k_nodes k !! n);
  co_used : ∀ n, is_Some (k_nodes k !! n) ↔ n ∈ U
}.
Definition hupd (n : loc) (v : gset (option nat)) (H : loc → gset (option nat)) : loc → gset (option nat) := λ m, if decide (m = n) then v else H m.
Lemma hupd_eq n v H : hupd n v H n = v.
Proof. unfold hupd. by rewrite decide_True. Qed.
Lemma hupd_ne n m v H : m ≠ n → hupd n v H m = H m.
Proof. intros ?. unfold hupd. by rewrite decide_False. Qed.
Lemma list_next_in n A B : n ∉ A → list_next n (A ++ n :: B) = Some (head B).
Proof. induction A as [|a A IH]; cbn; [by rewrite decide_True|]. intros [? ?]%not_elem_of_cons. rewrite decide_False by congruence. by apply IH. Qed.
Lemma after_in n A B : n ∉ A → after n (A ++ n :: B) = B.
Proof. induction A as [|a A IH]; cbn; [by rewrite decide_True|]. intros [? ?]%not_elem_of_cons. rewrite decide_False by congruence. by apply IH. Qed.
Lemma nodup_split (n : loc) l : NoDup l → n ∈ l → ∃ A B, l = A ++ n :: B ∧ n ∉ A ∧ n ∉ B.
Proof. intros Hd (A & B & ->)%list_elem_of_split. apply list.NoDup_app in Hd as (_ & H1 & [H2 _]%list.NoDup_cons). exists A, B. split; [done|]. split; [|done]. intros H. apply (H1 n H). set_solver. Qed.
(** Only node [n] and its holders change. *)
Lemma core_node U D H P k n (U' : gset loc) D' v P' x l : core U D H P k → (∀ m, m ∈ U' ↔ m = n ∨ m ∈ U) → NoDup l → (∀ m, m ≠ n → (m ∈ l ↔ m ∈ k_list k)) → (∀ m, m ≠ n → (m ∈ D' ↔ m ∈ D)) → (∀ m, m ≠ n → (m ∈ P' ↔ m ∈ P)) →
  (n ∈ l ↔ v ≠ ∅) → x = KNode (Z.of_nat (size v)) (bool_decide (v ≠ ∅)) (bool2Z (bool_decide (v = ∅ ∧ n ∉ D'))) (bool2Z (getput && bool_decide (v ≠ ∅ ∨ n ∈ P'))) → (n ∈ D' → v = ∅) →
  core U' D' (hupd n v H) P' (Klist l (<[n := x]> (k_nodes k))).
Proof.
  intros C HU Hd Hl HD HP Hn -> Hv. split; cbn -[insert]; [done|..]; intros m; (destruct (decide (m = n)) as [->|N]; [rewrite ?hupd_eq|rewrite ?hupd_ne by done]).
  all: try (intros y; first [rewrite lookup_insert_eq; intros [= <-]; reflexivity | rewrite lookup_insert_ne by done; by eapply C]).
  all: rewrite ?Hl, ?HD, ?HP by done; try done; rewrite ?lookup_insert_eq, ?lookup_insert_ne by done; try (by eauto); try (by eapply C).
  - intros y Hy. rewrite (co_rem _ _ _ _ _ C m y Hy). f_equal. apply bool_decide_ext. by rewrite HD.
  - intros y Hy. rewrite (co_refs _ _ _ _ _ C m y Hy). do 2 f_equal. apply bool_decide_ext. by rewrite HP.
  - rewrite HU. naive_solver.
  - rewrite HU, (co_used _ _ _ _ _ C). naive_solver.
Qed.
Lemma used_in U D H P k n x : core U D H P k → k_nodes k !! n = Some x → ∀ m, m ∈ U ↔ m = n ∨ m ∈ U.
Proof. intros C Hx m. split; [auto|]. intros [->|?]; [|done]. apply (co_used _ _ _ _ _ C). eauto. Qed.
(** Operations on a node, as changes of its holders *)
Lemma node_of U D H P k n : core U D H P k → n ∈ k_list k → ∃ x, k_nodes k !! n = Some x ∧ 0 < n_ref x.
Proof.
  intros C Hn%(co_list _ _ _ _ _ C). destruct (co_dom _ _ _ _ _ C n Hn) as [x Hx]. exists x. split; [done|]. rewrite (co_ref _ _ _ _ _ C n x Hx).
  assert (size (H n) ≠ 0%nat) by (intros E%size_empty_inv; apply Hn; set_solver). lia.
Qed.
Lemma knode_run n x k : k_nodes k !! n = Some x → knode n k = Done (x, k).
Proof. unfold knode. by intros ->. Qed.
Lemma add_core U D H P k n (hd : bool) : core U D H P k → k_nodes k !! n = None → n ∉ D →
  ∃ k', (if hd then klist_add_head getput n else klist_add_tail getput n) k = Done (tt, k') ∧ core ({[n]} ∪ U) D (hupd n {[None]} H) P k' ∧ k_list k' = (if hd then n :: k_list k else k_list k ++ [n]).
Proof.
  intros C Hf Hd. assert (Hl : n ∉ k_list k) by (intros (x & Hx & _)%(node_of _ _ _ _ _ _ C); congruence). assert (HP : n ∉ P) by (intros [x Hx]%(co_put _ _ _ _ _ C); congruence).
  exists (Klist (if hd then n :: k_list k else k_list k ++ [n]) (<[n := KNode 1 true 0 (if getput then 1 else 0)]> (k_nodes k))).
  split; [by destruct hd|]. split; [|done]. eapply core_node; [exact C|..]; try done.
  - set_solver.
  - destruct hd; [apply list.NoDup_cons; by split; [|apply C]|]. apply list.NoDup_app. split; [apply C|]. split; [set_solver|apply list.NoDup_singleton].
  - destruct hd; set_solver.
  - destruct hd; set_solver.
  - rewrite size_singleton, !bool_decide_eq_true_2, (bool_decide_eq_false_2 (_ = ∅ ∧ _)) by set_solver. by destruct getput.
Qed.
Lemma get_core U D H P k n j : core U D H P k → n ∈ k_list k → Some j ∉ H n → n ∉ D → n ∉ P → ∃ k', knode_get n k = Done (tt, k') ∧ core U D (hupd n ({[Some j]} ∪ H n) H) P k' ∧ k_list k' = k_list k.
Proof.
  intros C Hn Hj HD HP. destruct (node_of _ _ _ _ _ _ C Hn) as (x & Hx & Hr). pose proof (proj1 (co_list _ _ _ _ _ C n) Hn) as Hne. unfold knode_get. rewrite (run_bind _ _ _ _ _ (knode_run _ _ _ Hx)).
  destruct (Z.eqb_spec (n_ref x) 0); [lia|]. eexists. split; [done|]. split; [|done]. eapply core_node; [exact C|by eapply used_in|apply C|done|done|done|set_solver| |done].
  rewrite (co_ref _ _ _ _ _ C n x Hx), (co_att _ _ _ _ _ C n x Hx), (co_rem _ _ _ _ _ C n x Hx), (co_refs _ _ _ _ _ C n x Hx), size_union, size_singleton by set_solver.
  rewrite !(bool_decide_eq_true_2 (_ ≠ ∅)), !(bool_decide_eq_true_2 (_ ∨ _)), !(bool_decide_eq_false_2 (_ = ∅ ∧ _)) by set_solver. f_equal. lia.
Qed.
Lemma drop_core U D H P k n h : core U D H P k → h ∈ H n → n ∉ P → ∃ b k', klist_dec_and_del n k = Done (b, k') ∧ core U D (hupd n (H n ∖ {[h]}) H) (if b : bool then {[n]} ∪ P else P) k' ∧
  k_list k' = (if b then filter (λ x, x ≠ n) (k_list k) else k_list k) ∧ b = bool_decide (H n ∖ {[h]} = ∅).
Proof.
  intros C Hh HP. assert (Hne : H n ≠ ∅) by set_solver. pose proof (proj2 (co_list _ _ _ _ _ C n) Hne) as Hn. destruct (node_of _ _ _ _ _ _ C Hn) as (x & Hx & Hr).
  assert (HD : n ∉ D) by (intros ?%(co_done _ _ _ _ _ C); done). pose proof (co_ref _ _ _ _ _ C n x Hx) as Href.
  assert (Hs : Z.of_nat (size (H n ∖ {[h]})) = n_ref x - 1).
  { rewrite Href, size_difference, size_singleton by set_solver. assert (size (H n) ≠ 0%nat) by (intros E%size_empty_inv; set_solver). lia. }
  unfold klist_dec_and_del. rewrite (run_bind _ _ _ _ _ (knode_run _ _ _ Hx)), (run_bind _ _ k tt _ eq_refl). case_bool_decide as Hv.
  - rewrite Hv, size_empty in Hs. destruct (Z.eqb_spec (n_ref x - 1) 0); [|lia]. destruct (nodup_split n (k_list k) (co_nodup _ _ _ _ _ C) Hn) as (A & B & El & HA & _).
    exists true. eexists. split.
    { unfold klist_release, mbind, M_bind, set_node, set_list, modify, get. cbn -[insert lookup filter]. rewrite El, list_next_in by done. cbn -[insert lookup filter]. unfold knode. cbn -[insert lookup filter]. rewrite lookup_insert_eq. cbn -[insert lookup filter]. by rewrite <-El. }
    split; [|by split]. rewrite insert_insert_eq, Hv. eapply core_node; [exact C|by eapply used_in|..]; try done.
    + apply list.NoDup_filter, C.
    + intros m Hm. rewrite list_elem_of_filter. naive_solver.
    + set_solver.
    + rewrite list_elem_of_filter. naive_solver.
    + rewrite (co_rem _ _ _ _ _ C n x Hx), (co_refs _ _ _ _ _ C n x Hx), size_empty. rewrite (bool_decide_eq_false_2 (H n = ∅ ∧ _)), !(bool_decide_eq_true_2 (_ ∨ _)), (bool_decide_eq_true_2 (∅ = ∅ ∧ _)), (bool_decide_eq_false_2 (∅ ≠ ∅)) by set_solver.
      f_equal. lia.
  - destruct (Z.eqb_spec (n_ref x - 1) 0) as [E|E]; [rewrite E in Hs; destruct Hv; apply leibniz_equiv, size_empty_inv; lia|].
    exists false. eexists. split; [done|]. split; [|by split]. eapply core_node; [exact C|by eapply used_in|apply C|..]; try done.
    rewrite Hs, (co_att _ _ _ _ _ C n x Hx), (co_rem _ _ _ _ _ C n x Hx), (co_refs _ _ _ _ _ C n x Hx).
    by rewrite !(bool_decide_eq_true_2 (_ ≠ ∅)), !(bool_decide_eq_true_2 (_ ∨ _)), !(bool_decide_eq_false_2 (_ = ∅ ∧ _)) by set_solver.
Qed.
Lemma core_ext U D H H' P P' k : core U D H P k → (∀ n, H n = H' n) → (∀ n, n ∈ P ↔ n ∈ P') → core U D H' P' k.
Proof.
  intros C E EP. split; try setoid_rewrite <-E; try apply C.
  - intros n x. rewrite <-E. apply (co_att _ _ _ _ _ C).
  - intros n x. rewrite <-E. apply (co_rem _ _ _ _ _ C).
  - intros n x Hx. rewrite <-E, (co_refs _ _ _ _ _ C n x Hx). do 2 f_equal. apply bool_decide_ext. by rewrite EP.
  - intros n Hn%EP. by apply (co_put _ _ _ _ _ C).
Qed.
Lemma put_core U D H P k n : core U D H ({[n]} ∪ P) k → n ∉ P → H n = ∅ → ∃ k', knode_put getput n k = Done (tt, k') ∧ core U D H P k' ∧ k_list k' = k_list k.
Proof.
  intros C HP Hn. destruct (co_put _ _ _ _ _ C n ltac:(set_solver)) as [x Hx]. pose proof (co_refs _ _ _ _ _ C n x Hx) as Hr.
  unfold knode_put. destruct (Bool.bool_dec getput true) as [Eg|Eg%not_true_iff_false]; rewrite Eg in *.
  - rewrite (run_bind _ _ _ _ _ (knode_run _ _ _ Hx)). eexists. split; [done|]. split; [|done].
    eapply (core_ext _ _ (hupd n ∅ H) _ P); [|intros m; unfold hupd; destruct (decide (m = n)) as [->|]; [by rewrite Hn|done]|done]. eapply core_node; [exact C|by eapply used_in|apply C|..]; try done; [set_solver|rewrite (co_list _ _ _ _ _ C); by rewrite Hn|].
    rewrite Hr, (co_ref _ _ _ _ _ C n x Hx), (co_att _ _ _ _ _ C n x Hx), (co_rem _ _ _ _ _ C n x Hx), Hn, Eg.
    rewrite (bool_decide_eq_true_2 (_ ∨ n ∈ {[n]} ∪ P)), (bool_decide_eq_false_2 (_ ∨ n ∈ P)) by set_solver. done.
  - exists k. split; [done|]. split; [|done]. destruct C as [C1 C2 C3 C4 C5 C6 C7 C8 C9 C10]. split; try done.
    + intros m y Hy. specialize (C8 m y Hy). by rewrite Eg in *.
    + intros m Hm. apply C9. set_solver.
Qed.
Lemma removed_core U D H P k n : core U D H P k → is_Some (k_nodes k !! n) → n ∉ D → n ∉ P → ∃ k', klist_removed n k = Done (bool_decide (H n = ∅), k') ∧ core U (if bool_decide (H n = ∅) then {[n]} ∪ D else D) H P k' ∧ k_list k' = k_list k.
Proof.
  intros C [x Hx] HD HP. unfold klist_removed. rewrite (run_bind _ _ _ _ _ (knode_run _ _ _ Hx)). pose proof (co_rem _ _ _ _ _ C n x Hx) as Hr.
  destruct (decide (H n = ∅)) as [Hv|Hv]; [rewrite (bool_decide_eq_true_2 (H n = ∅)) by done|rewrite (bool_decide_eq_false_2 (H n = ∅)) by done].
  - rewrite bool_decide_eq_true_2 in Hr by done. rewrite Hr. eexists. split; [done|]. split; [|done].
    eapply (core_ext _ _ (hupd n ∅ H) _ P); [|intros m; unfold hupd; destruct (decide (m = n)) as [->|]; [by rewrite Hv|done]|done]. eapply core_node; [exact C|by eapply used_in|apply C|..]; try done; [set_solver|rewrite (co_list _ _ _ _ _ C); by rewrite Hv|].
    rewrite (co_ref _ _ _ _ _ C n x Hx), (co_att _ _ _ _ _ C n x Hx), (co_refs _ _ _ _ _ C n x Hx), Hv. rewrite (bool_decide_eq_false_2 (_ ∧ n ∉ {[n]} ∪ D)) by set_solver. done.
  - rewrite bool_decide_eq_false_2 in Hr by naive_solver. rewrite Hr. eauto.
Qed.
Lemma filter_absent (n : loc) (l : list loc) : n ∉ l → filter (λ x, x ≠ n) l = l.
Proof. induction l as [|a l IH]; [done|]. intros [? ?]%not_elem_of_cons. rewrite filter_cons, decide_True by congruence. by rewrite IH. Qed.
Lemma filter_split (n : loc) (A B : list loc) : n ∉ A → n ∉ B → filter (λ x, x ≠ n) (A ++ n :: B) = A ++ B.
Proof.
  intros HA HB. rewrite list.filter_app, filter_cons, decide_False by congruence. by rewrite !filter_absent.
Qed.
Lemma del_core U D H k n h : core U D H ∅ k → h ∈ H n → ∃ b k', klist_del getput n k = Done (tt, k') ∧ core U D (hupd n (H n ∖ {[h]}) H) ∅ k' ∧ k_list k' = (if b : bool then filter (λ x, x ≠ n) (k_list k) else k_list k) ∧ (b = true → H n ∖ {[h]} = ∅).
Proof.
  intros C Hh. assert (Hne : H n ≠ ∅) by set_solver. destruct (co_dom _ _ _ _ _ C n Hne) as [x Hx]. unfold klist_del. rewrite (run_bind _ _ _ _ _ (knode_run _ _ _ Hx)), (co_att _ _ _ _ _ C n x Hx), bool_decide_eq_true_2 by done. cbn [negb].
  destruct (drop_core U D H ∅ k n h C Hh ltac:(set_solver)) as (b & k1 & E & C1 & L1 & Hb). rewrite (run_bind _ _ _ _ _ E). exists b. destruct b; [|eexists; split; [done|]; by split].
  destruct (put_core U D _ ∅ k1 n C1 ltac:(set_solver) ltac:(rewrite hupd_eq; by eapply bool_decide_eq_true_1)) as (k2 & E2 & C2 & L2). exists k2. rewrite L2. split; [done|]. split; [done|]. split; [done|]. intros _. by eapply bool_decide_eq_true_1.
Qed.
Lemma next_core U D H k n j A B : core U D H ∅ k → k_list k = A ++ n :: B → Some j ∈ H n → (∀ m, m ≠ n → Some j ∉ H m) →
  let H' := hupd n (H n ∖ {[Some j]}) H in
  ∃ b k', klist_next getput (Some n) k = Done (head B, k') ∧ core U D (match head B with Some m => hupd m ({[Some j]} ∪ H m) H' | None => H' end) ∅ k' ∧ k_list k' = (if b : bool then A ++ B else A ++ n :: B) ∧ (b = true → H n ∖ {[Some j]} = ∅).
Proof.
  intros C El Hj Ho H'. pose proof (co_nodup _ _ _ _ _ C) as Hd. rewrite El in Hd. apply list.NoDup_app in Hd as (_ & HA & [HB HdB]%list.NoDup_cons). assert (HnA : n ∉ A) by (intros Hn; apply (HA n Hn); set_solver).
  destruct (drop_core U D H ∅ k n (Some j) C Hj ltac:(set_solver)) as (b & k1 & E & C1 & L1 & Hb). rewrite El, filter_split in L1 by done. fold H' in C1. exists b.
  unfold klist_next. rewrite (run_bind _ _ k (head B, b) k1) by (unfold mbind, M_bind, get; rewrite El, list_next_in by done; by rewrite E). cbn [fst snd].
  set (H2 := match head B with Some m => hupd m ({[Some j]} ∪ H m) H' | None => H' end).
  assert (Hg : ∃ k2, (match head B with Some m => knode_get m | None => mret tt end) k1 = Done (tt, k2) ∧ core U D H2 (if b then {[n]} ∪ ∅ else ∅) k2 ∧ k_list k2 = k_list k1).
  { unfold H2. destruct B as [|m B]; [by eexists|]. cbn [head]. assert (Hm : m ≠ n) by set_solver.
    assert (Hin : m ∈ k_list k1) by (rewrite L1; destruct b; set_solver). assert (HH : H' m = H m) by (unfold H'; by rewrite hupd_ne).
    destruct (get_core U D H' (if b then {[n]} ∪ ∅ else ∅) k1 m j C1 Hin ltac:(rewrite HH; by apply Ho)) as (k2 & E2 & C2 & L2); [|destruct b; set_solver|rewrite HH in C2; eauto].
    intros Hx%(co_done _ _ _ _ _ C1). by apply (co_list _ _ _ _ _ C1) in Hin. }
  destruct Hg as (k2 & E2 & C2 & L2). rewrite (run_bind _ _ k1 tt k2 E2). assert (Hb' : b = true → H n ∖ {[Some j]} = ∅) by (intros ->; by eapply bool_decide_eq_true_1). destruct b; [|exists k2; rewrite L2; by split].
  assert (Hn : H2 n = ∅). { assert (H' n = ∅) by (unfold H'; rewrite hupd_eq; by eapply bool_decide_eq_true_1). unfold H2. destruct B as [|m B]; [done|]. cbn [head]. rewrite hupd_ne by set_solver. done. }
  destruct (put_core U D H2 ∅ k2 n C2 ltac:(set_solver) Hn) as (k3 & E3 & C3 & L3). rewrite (run_bind _ _ k2 tt k3 E3). exists k3. rewrite L3, L2. split; [done|]. split; [done|]. by split.
Qed.
Lemma first_core U D H k j : core U D H ∅ k → (∀ m, Some j ∉ H m) →
  ∃ k', klist_next getput None k = Done (head (k_list k), k') ∧ core U D (match head (k_list k) with Some m => hupd m ({[Some j]} ∪ H m) H | None => H end) ∅ k' ∧ k_list k' = k_list k.
Proof.
  intros C Ho. unfold klist_next. rewrite (run_bind _ _ k (head (k_list k), true) k eq_refl). cbn [fst snd]. destruct (k_list k) as [|m l] eqn:El; [exists k; by split|]. cbn [head].
  assert (Hin : m ∈ k_list k) by (rewrite El; set_solver). destruct (get_core U D H ∅ k m j C Hin (Ho m)) as (k2 & E2 & C2 & L2); [|set_solver|rewrite (run_bind _ _ k tt k2 E2); exists k2; rewrite L2; by split].
  intros Hx%(co_done _ _ _ _ _ C). by apply (co_list _ _ _ _ _ C) in Hin.
Qed.
End Core.

(** ** The iterations *)

Definition iter_ok (U : gset loc) (l : list loc) (it : iteration) : Prop :=
  NoDup (it_seen it) ∧ (∀ x, x ∈ it_seen it → x ∈ U) ∧ (∀ x, x ∈ it_start it → x ∈ U) ∧
  match it_phase it, it_cur it with
  | ItNone, None => True
  | ItRunning, None => it_seen it = []
  | ItRunning, Some c => ∃ A B, l = A ++ c :: B ∧ (∀ x, x ∈ it_start it → x ∈ A ∨ x = c → x ∈ it_seen it) ∧ ∀ x, x ∈ B → x ∉ it_seen it
  | ItEnd, None => ∀ x, x ∈ it_start it → x ∈ l → x ∈ it_seen it
  | _, Some _ => False
  end.
Lemma iter_remove U l it n : iter_ok U l it → it_cur it ≠ Some n → iter_ok U (filter (λ x, x ≠ n) l) it.
Proof.
  intros (H1 & H2 & H3 & H4) Hn. split; [done|]. split; [done|]. split; [done|]. destruct (it_phase it), (it_cur it) as [c|]; try done.
  - destruct H4 as (A & B & -> & Hs & Hb). exists (filter (λ x, x ≠ n) A), (filter (λ x, x ≠ n) B). rewrite list.filter_app, filter_cons, decide_True by congruence. split; [done|].
    split; [intros x Hx [[_ ?]%list_elem_of_filter| ->]; auto|]. intros x [_ ?]%list_elem_of_filter. auto.
  - intros x Hx [_ ?]%list_elem_of_filter. auto.
Qed.
Lemma iter_add U l it n (hd : bool) : iter_ok U l it → n ∉ U → iter_ok ({[n]} ∪ U) (if hd then n :: l else l ++ [n]) it.
Proof.
  intros (H1 & H2 & H3 & H4) Hn. split; [done|]. split; [set_solver|]. split; [set_solver|]. assert (Hs : n ∉ it_start it) by auto. assert (He : n ∉ it_seen it) by auto. destruct (it_phase it), (it_cur it) as [c|]; try done.
  - destruct H4 as (A & B & -> & Ha & Hb). destruct hd; [exists (n :: A), B|exists A, (B ++ [n]); rewrite <-(assoc (++)); cbn]; (split; [done|]); split; try done.
    + intros x Hx [[->|?]%elem_of_cons| ->]; [done|auto|auto].
    + intros x [?| ->%list_elem_of_singleton]%elem_of_app; auto.
  - intros x Hx Hl. apply H4; [done|]. destruct hd; set_solver.
Qed.
Lemma iter_next U A c B it (b : bool) : iter_ok U (A ++ c :: B) it → (∀ x, x ∈ it_start it → x ∈ A ∨ x = c → x ∈ it_seen it) → (∀ x, x ∈ B → x ∉ it_seen it) → NoDup (A ++ c :: B) → (∀ x, x ∈ A ++ c :: B → x ∈ U) →
  iter_ok U (if b then A ++ B else A ++ c :: B) (match head B with Some n => Iter ItRunning (head B) (it_start it) (it_seen it ++ [n]) | None => Iter ItEnd None (it_start it) (it_seen it) end).
Proof.
  intros (H1 & H2 & H3 & _) Ha Hb Hd HU. apply list.NoDup_app in Hd as (_ & _ & [_ HdB]%list.NoDup_cons). destruct B as [|m B]; cbn [head]; (split; [|split; [|split]]); cbn; try done.
  - intros x Hx Hl. apply Ha; [done|]. destruct b; set_solver.
  - apply list.NoDup_app. split; [done|]. split; [intros x Hx ->%list_elem_of_singleton; by apply (Hb m); [set_solver|]|apply list.NoDup_singleton].
  - intros x [?| ->%list_elem_of_singleton]%elem_of_app; [auto|]. apply HU. set_solver.
  - apply list.NoDup_cons in HdB as [Hm _]. exists (if b then A else A ++ [c]), B. split; [destruct b; [done|by rewrite <-(assoc (++))]|]. split.
    + intros x Hx [Hl| ->]; apply elem_of_app; [left; apply Ha; [done|]; destruct b; set_solver|right; set_solver].
    + intros x Hx. rewrite not_elem_of_app, list_elem_of_singleton. split; [apply Hb; set_solver|congruence].
Qed.
Lemma iter_first U l it : iter_ok U l it → it_seen it = [] → NoDup l → (∀ x, x ∈ l → x ∈ U) →
  iter_ok U l (match head l with Some n => Iter ItRunning (head l) (it_start it) (it_seen it ++ [n]) | None => Iter ItEnd None (it_start it) (it_seen it) end).
Proof.
  intros (H1 & H2 & H3 & _) Hs Hd HU. rewrite Hs. destruct l as [|m l]; cbn [head]; (split; [|split; [|split]]); cbn; try done; try set_solver.
  - apply list.NoDup_singleton.
  - exists [], l. apply list.NoDup_cons in Hd as [Hm _]. split; [done|]. set_solver.
Qed.

(** ** The invariant of every run *)

Section Run.
Context (getput : bool).
Record kl_inv (U : gset loc) (H : loc → gset (option nat)) (σ : klsys) : Prop := {
  ki_core : core getput U (k_done σ) H ∅ (k_k σ);
  ki_own : ∀ n, None ∈ H n ↔ n ∈ U ∧ n ∉ k_deleted σ;
  ki_cur : ∀ n j, Some j ∈ H n ↔ it_cur (k_iter σ j) = Some n;
  ki_del : ∀ n, n ∈ k_deleted σ → n ∈ U;
  ki_done : ∀ n, n ∈ k_done σ → n ∈ k_deleted σ;
  ki_it : ∀ j, iter_ok U (k_list (k_k σ)) (k_iter σ j)
}.
Lemma list_used U H σ n : kl_inv U H σ → n ∈ k_list (k_k σ) → n ∈ U.
Proof. intros I Hn. pose proof (ki_core _ _ _ I) as C. apply (co_used _ _ _ _ _ _ C). apply (co_list _ _ _ _ _ _ C) in Hn. by apply (co_dom _ _ _ _ _ _ C). Qed.
Definition goes (a : kcall) (σ : klsys) : Prop := ∃ σ', kcall_run getput a σ = Done σ' ∧ ∃ U H, kl_inv U H σ'.
Lemma goes_add U H σ n (hd : bool) : kl_inv U H σ → k_nodes (k_k σ) !! n = None → goes (if hd then AddHead n else AddTail n) σ.
Proof.
  intros I Hn. pose proof (ki_core _ _ _ I) as C. assert (HU : n ∉ U) by (intros [x Hx]%(co_used _ _ _ _ _ _ C); congruence). assert (Hd : n ∉ k_deleted σ) by (intros ?%(ki_del _ _ _ I); done).
  destruct (add_core getput U _ H ∅ (k_k σ) n hd C Hn ltac:(intros ?%(ki_done _ _ _ I); done)) as (k' & E & C' & L).
  exists (KlSys k' (k_deleted σ) (k_done σ) (k_iter σ)). split; [destruct hd; cbn; unfold on_klist; by rewrite E|]. exists ({[n]} ∪ U), (hupd n {[None]} H).
  assert (Hc : ∀ j, it_cur (k_iter σ j) ≠ Some n). { intros j Hj%(ki_cur _ _ _ I). apply HU, (co_used _ _ _ _ _ _ C), (co_dom _ _ _ _ _ _ C). set_solver. }
  split; cbn; [done|..].
  - intros m. unfold hupd. destruct (decide (m = n)) as [->|N]; [set_solver|]. rewrite (ki_own _ _ _ I). set_solver.
  - intros m j. unfold hupd. destruct (decide (m = n)) as [->|N]; [specialize (Hc j); set_solver|apply (ki_cur _ _ _ I)].
  - intros m Hm%(ki_del _ _ _ I). set_solver.
  - apply (ki_done _ _ _ I).
  - intros j. rewrite L. apply iter_add; [apply (ki_it _ _ _ I)|done].
Qed.
Lemma goes_del U H σ n : kl_inv U H σ → n ∈ U → n ∉ k_deleted σ → goes (Del n) σ.
Proof.
  intros I HU Hd. pose proof (ki_core _ _ _ I) as C. destruct (del_core getput U _ H (k_k σ) n None C) as (b & k' & E & C' & L & Hb); [by apply (ki_own _ _ _ I)|].
  eexists. split; [cbn; unfold on_klist; by rewrite E|]. eexists U, _. split; cbn; [exact C'|..].
  - intros m. unfold hupd. destruct (decide (m = n)) as [->|N]; [set_solver|]. rewrite (ki_own _ _ _ I). set_solver.
  - intros m j. rewrite <-(ki_cur _ _ _ I m j). unfold hupd. destruct (decide (m = n)) as [->|N]; set_solver.
  - intros m [->%elem_of_singleton|Hm]%elem_of_union; [done|by apply (ki_del _ _ _ I)].
  - intros m Hm%(ki_done _ _ _ I). set_solver.
  - intros j. rewrite L. destruct b; [|apply (ki_it _ _ _ I)]. apply iter_remove; [apply (ki_it _ _ _ I)|]. intros Hj%(ki_cur _ _ _ I). specialize (Hb eq_refl). set_solver.
Qed.
Lemma inv_iter U H σ j it H' k' : kl_inv U H σ → core getput U (k_done σ) H' ∅ k' → (∀ n, None ∈ H' n ↔ None ∈ H n) → (∀ n i, i ≠ j → (Some i ∈ H' n ↔ Some i ∈ H n)) → (∀ n, Some j ∈ H' n ↔ it_cur it = Some n) →
  (∀ i, i ≠ j → iter_ok U (k_list k') (k_iter σ i)) → iter_ok U (k_list k') it → kl_inv U H' (set_iter j it k' σ).
Proof.
  intros I C Hn Ho Hj Hi Hit. split; cbn; [done| | |apply (ki_del _ _ _ I)|apply (ki_done _ _ _ I)|].
  - intros n. rewrite Hn. apply (ki_own _ _ _ I).
  - intros n i. destruct (decide (i = j)) as [->|N]; [rewrite upd_at_eq; apply Hj|]. rewrite upd_at_ne by done. rewrite Ho by done. apply (ki_cur _ _ _ I).
  - intros i. destruct (decide (i = j)) as [->|N]; [by rewrite upd_at_eq|rewrite upd_at_ne by done; auto].
Qed.
Lemma goes_removed U H σ n : kl_inv U H σ → n ∈ k_deleted σ → n ∉ k_done σ → goes (Removed n) σ.
Proof.
  intros I Hd HD. pose proof (ki_core _ _ _ I) as C. destruct (removed_core getput U _ H ∅ (k_k σ) n C) as (k' & E & C' & L); [by apply (co_used _ _ _ _ _ _ C), (ki_del _ _ _ I)|done|set_solver|].
  eexists. split; [cbn; unfold on_klist; by rewrite E|]. exists U, H. split; cbn; [exact C'|apply (ki_own _ _ _ I)|apply (ki_cur _ _ _ I)|apply (ki_del _ _ _ I)| |].
  - intros m. case_bool_decide; [|apply (ki_done _ _ _ I)]. intros [->%elem_of_singleton|Hm]%elem_of_union; [done|by apply (ki_done _ _ _ I)].
  - intros j. rewrite L. apply (ki_it _ _ _ I).
Qed.
Lemma cur_none U H σ j : kl_inv U H σ → it_phase (k_iter σ j) = ItNone → it_cur (k_iter σ j) = None.
Proof. intros I E. destruct (ki_it _ _ _ I j) as (_ & _ & _ & Hm). rewrite E in Hm. by destruct (it_cur (k_iter σ j)). Qed.
Lemma goes_init U H σ j : kl_inv U H σ → it_phase (k_iter σ j) = ItNone → goes (IterInit j) σ.
Proof.
  intros I Hp. pose proof (ki_core _ _ _ I) as C. pose proof (cur_none U H σ j I Hp) as Hc. eexists. split; [done|]. exists U, H. eapply inv_iter; [done|done|done|done| |intros i _; apply (ki_it _ _ _ I)|].
  - intros n. by rewrite (ki_cur _ _ _ I), Hc.
  - split; [apply base.NoDup_nil_2|]. split; [set_solver|]. split; [|done]. intros x. by apply (list_used U H σ).
Qed.
Lemma goes_init_node U H σ j n : kl_inv U H σ → it_phase (k_iter σ j) = ItNone → n ∈ U → n ∉ k_deleted σ → goes (IterInitNode j n) σ.
Proof.
  intros I Hp HU Hd. pose proof (ki_core _ _ _ I) as C. pose proof (cur_none U H σ j I Hp) as Hc. assert (Hn : None ∈ H n) by (by apply (ki_own _ _ _ I)). assert (Hl : n ∈ k_list (k_k σ)) by (apply (co_list _ _ _ _ _ _ C); set_solver).
  assert (Hj : ∀ m, Some j ∉ H m) by (intros m Hm%(ki_cur _ _ _ I); congruence).
  destruct (get_core getput U _ H ∅ (k_k σ) n j C Hl (Hj n)) as (k' & E & C' & L); [intros ?%(ki_done _ _ _ I); done|set_solver|].
  eexists. split; [cbn; unfold on_klist, klist_iter_init_node; rewrite (run_bind _ _ _ _ _ E); done|]. exists U. eexists. eapply inv_iter; [done|exact C'|..]; cbn.
  - intros m. unfold hupd. destruct (decide (m = n)) as [->|N]; set_solver.
  - intros m i Hi. unfold hupd. destruct (decide (m = n)) as [->|N]; set_solver.
  - intros m. unfold hupd. destruct (decide (m = n)) as [->|N]; [set_solver|]. specialize (Hj m). naive_solver.
  - intros i _. rewrite L. apply (ki_it _ _ _ I).
  - destruct (nodup_split n _ (co_nodup _ _ _ _ _ _ C) Hl) as (A & B & El & HA & HB). split; [apply base.NoDup_nil_2|]. split; [set_solver|]. cbn. rewrite L, El, after_in by done. split.
    { intros x Hx. apply (list_used U H σ); [done|]. rewrite El. set_solver. }
    exists A, B. split; [done|]. split; [|set_solver]. pose proof (co_nodup _ _ _ _ _ _ C) as HN. rewrite El in HN. apply list.NoDup_app in HN as (_ & HN & _). intros x Hx [Hx'| ->]; [|done]. destruct (HN x Hx'). set_solver.
Qed.
Lemma goes_exit U H σ j : kl_inv U H σ → goes (Exit j) σ.
Proof.
  intros I. pose proof (ki_core _ _ _ I) as C. destruct (it_cur (k_iter σ j)) as [n|] eqn:Hc.
  - destruct (del_core getput U _ H (k_k σ) n (Some j) C) as (b & k' & E & C' & L & Hb); [by apply (ki_cur _ _ _ I)|].
    eexists. split; [cbn; unfold on_klist, klist_iter_exit; rewrite Hc, (run_bind _ _ _ _ _ E); done|]. exists U. eexists. eapply inv_iter; [done|exact C'|..]; cbn.
    + intros m. unfold hupd. destruct (decide (m = n)) as [->|N]; set_solver.
    + intros m i Hi. unfold hupd. destruct (decide (m = n)) as [->|N]; set_solver.
    + intros m. unfold hupd. destruct (decide (m = n)) as [->|N]; [set_solver|]. rewrite (ki_cur _ _ _ I). naive_solver.
    + intros i Hi. rewrite L. destruct b; [|apply (ki_it _ _ _ I)]. apply iter_remove; [apply (ki_it _ _ _ I)|]. intros Hx%(ki_cur _ _ _ I). specialize (Hb eq_refl). set_solver.
    + split; [apply base.NoDup_nil_2|]. set_solver.
  - eexists. split; [cbn; unfold on_klist, klist_iter_exit; rewrite Hc; done|]. exists U, H. eapply inv_iter; [done|done|done|done| |intros i _; apply (ki_it _ _ _ I)|].
    + intros n. by rewrite (ki_cur _ _ _ I), Hc.
    + split; [apply base.NoDup_nil_2|]. set_solver.
Qed.
(** The holders after an iterator has gone on to [o] *)
Lemma moved_holders (H H' : loc → gset (option nat)) j o n : (∀ m, Some j ∉ H m) → (match o with Some m => hupd m ({[Some j]} ∪ H m) H | None => H end) n = H' n →
  (None ∈ H' n ↔ None ∈ H n) ∧ (∀ i, i ≠ j → (Some i ∈ H' n ↔ Some i ∈ H n)) ∧ (Some j ∈ H' n ↔ o = Some n).
Proof. intros Hj <-. specialize (Hj n). destruct o as [m|]; [|naive_solver]. unfold hupd. destruct (decide (n = m)) as [->|N]; set_solver. Qed.
Lemma goes_next U H σ j : kl_inv U H σ → it_phase (k_iter σ j) = ItRunning → goes (Next j) σ.
Proof.
  intros I Hp. pose proof (ki_core _ _ _ I) as C. pose proof (ki_it _ _ _ I j) as Hit. pose proof (co_nodup _ _ _ _ _ _ C) as Hd. pose proof (λ n, list_used U H σ n I) as HU. destruct (it_cur (k_iter σ j)) as [n|] eqn:Hc.
  - pose proof Hit as (_ & _ & _ & Hm). rewrite Hp, Hc in Hm. destruct Hm as (A & B & El & Ha & Hb).
    assert (Hn : Some j ∈ H n) by (by apply (ki_cur _ _ _ I)). assert (Ho : ∀ m, m ≠ n → Some j ∉ H m) by (intros m Hne Hm%(ki_cur _ _ _ I); congruence).
    destruct (next_core getput U _ H (k_k σ) n j A B C El Hn Ho) as (b & k' & E & C' & L & Hr). eexists. split; [cbn; unfold on_klist; rewrite Hc, E; done|]. exists U.
    set (H1 := hupd n (H n ∖ {[Some j]}) H) in *. assert (Hj1 : ∀ m, Some j ∉ H1 m) by (intros m; unfold H1, hupd; destruct (decide (m = n)) as [->|N]; [set_solver|by apply Ho]).
    assert (C2 : core getput U (k_done σ) (match head B with Some m => hupd m ({[Some j]} ∪ H1 m) H1 | None => H1 end) ∅ k').
    { destruct B as [|m B]; [done|]. cbn [head] in *. assert (HH : H1 m = H m); [|by rewrite HH]. unfold H1. rewrite hupd_ne; [done|]. rewrite El in Hd. apply list.NoDup_app in Hd as (_ & _ & [Hx _]%list.NoDup_cons). set_solver. }
    assert (H1n : ∀ m h, h ≠ Some j → (h ∈ H1 m ↔ h ∈ H m)) by (intros m h Hne; unfold H1, hupd; destruct (decide (m = n)) as [->|N]; set_solver).
    pose proof (λ m, moved_holders H1 _ j (head B) m Hj1 eq_refl) as Hmv. eexists. eapply inv_iter; [done|exact C2|..].
    + intros m. rewrite (proj1 (Hmv m)). by apply H1n.
    + intros m i Hi. rewrite (proj1 (proj2 (Hmv m)) i Hi). apply H1n. congruence.
    + intros m. rewrite (proj2 (proj2 (Hmv m))). by destruct B.
    + intros i Hi. rewrite L. destruct b; [|rewrite <-El; apply (ki_it _ _ _ I)]. rewrite <-(filter_split n A B), <-El by (rewrite El in Hd; apply list.NoDup_app in Hd as (_ & Hx & [Hy _]%list.NoDup_cons); set_solver).
      apply iter_remove; [apply (ki_it _ _ _ I)|]. intros Hx%(ki_cur _ _ _ I). specialize (Hr eq_refl). set_solver.
    + rewrite L. rewrite El in Hit, Hd, HU. by apply iter_next.
  - assert (Ho : ∀ m, Some j ∉ H m) by (intros m Hm%(ki_cur _ _ _ I); congruence). destruct (first_core getput U _ H (k_k σ) j C Ho) as (k' & E & C' & L).
    eexists. split; [cbn; unfold on_klist; rewrite Hc, E; done|]. exists U. eexists. pose proof (λ m, moved_holders H _ j (head (k_list (k_k σ))) m Ho eq_refl) as Hmv. eapply inv_iter; [done|exact C'|..].
    + intros m. apply (proj1 (Hmv m)).
    + intros m i Hi. by apply (proj1 (proj2 (Hmv m))).
    + intros m. rewrite (proj2 (proj2 (Hmv m))). by destruct (k_list (k_k σ)).
    + intros i Hi. rewrite L. apply (ki_it _ _ _ I).
    + rewrite L. apply iter_first; try done. destruct Hit as (_ & _ & _ & Hm). by rewrite Hp, Hc in Hm.
Qed.
Lemma goes_all U H σ a : kl_inv U H σ → kcall_ok a σ → goes a σ.
Proof.
  intros I. pose proof (co_used _ _ _ _ _ _ (ki_core _ _ _ I)) as HU. destruct a; cbn; rewrite ?HU.
  - by apply (goes_add U H σ n true).
  - by apply (goes_add U H σ n false).
  - intros [? ?]. by eapply goes_del.
  - intros [? ?]. by eapply goes_removed.
  - by apply (goes_init U H).
  - intros (? & ? & ?). by eapply goes_init_node.
  - by apply (goes_next U H).
  - intros _. by eapply goes_exit.
Qed.
Lemma kl_reach σ : rtc (kl_step getput) kl_init σ → ∃ U H, kl_inv U H σ.
Proof.
  assert (I0 : ∃ U H, kl_inv U H kl_init).
  { exists ∅, (λ _, ∅). split; cbn; try set_solver. split; cbn; try set_solver; try apply base.NoDup_nil_2; intros n; rewrite lookup_empty; [done..|]. split; [by intros [? ?]|set_solver]. intros j. split; [apply base.NoDup_nil_2|]. set_solver. }
  intros Hr. revert I0. induction Hr as [|σ1 σ2 σ3 Hs _ IH]; [done|]. intros (U & H & I). apply IH. destruct Hs as [a σ1 σ2 Hok Hrun]. destruct (goes_all U H σ1 a I Hok) as (σ' & E & HI). rewrite Hrun in E. by simplify_eq.
Qed.
End Run.

(** Lists with iterators: over every sequence of calls of owners and iterators, none of the functions faults (uses a node that is not on the list or has been released); a node is on the list exactly as long as its
    owner has not deleted it or an iterator is at it; when [klist_remove] has returned, the node is neither on the list nor the current node of an iterator, and it returns as soon as no iterator is
    at the node. *)
Theorem klist_safe getput σ : rtc (kl_step getput) kl_init σ →
  (∀ a, kcall_ok a σ → ∃ σ', kcall_run getput a σ = Done σ') ∧
  (∀ n, n ∈ k_list (k_k σ) ↔ (is_Some (k_nodes (k_k σ) !! n) ∧ n ∉ k_deleted σ) ∨ ∃ j, it_cur (k_iter σ j) = Some n) ∧
  (∀ n, n ∈ k_done σ → n ∉ k_list (k_k σ) ∧ ∀ j, it_cur (k_iter σ j) ≠ Some n) ∧
  (∀ n, n ∈ k_deleted σ → n ∉ k_done σ → (∀ j, it_cur (k_iter σ j) ≠ Some n) → ∃ k, klist_removed n (k_k σ) = Done (true, k)).
Proof.
  intros (U & H & I)%kl_reach. pose proof (ki_core _ _ _ _ I) as C. pose proof (ki_cur _ _ _ _ I) as Hc. pose proof (ki_own _ _ _ _ I) as Ho.
  assert (He : ∀ n, H n ≠ ∅ ↔ (n ∈ U ∧ n ∉ k_deleted σ) ∨ ∃ j, it_cur (k_iter σ j) = Some n).
  { intros n. rewrite <-Ho. setoid_rewrite <-Hc. split; [intros [[j|] Hj]%set_choose_L; eauto|]. intros [Hn|[j Hn]]; set_solver. }
  split; [|split; [|split]].
  - intros a (σ' & E & _)%(goes_all getput U H σ a I). eauto.
  - intros n. by rewrite (co_list _ _ _ _ _ _ C), He, (co_used _ _ _ _ _ _ C).
  - intros n Hn%(co_done _ _ _ _ _ _ C). rewrite (co_list _ _ _ _ _ _ C). split; [by intros []|]. intros j Hj%Hc. set_solver.
  - intros n Hd HD Hj. destruct (removed_core getput U _ H ∅ (k_k σ) n C) as (k' & E & _); [by apply (co_used _ _ _ _ _ _ C), (ki_del _ _ _ _ I)|done|set_solver|].
    rewrite bool_decide_eq_true_2 in E; [eauto|]. destruct (decide (H n = ∅)) as [|Hne]; [done|]. apply He in Hne as [[_ ?]|[j ?]]; [done|by destruct (Hj j)].
Qed.
(** An iteration returns no node twice, and once it is at its end it has returned every node that was ahead of it when it began, except those that have been removed from the list since;
    whatever is added and deleted meanwhile, the current node included. *)
Theorem klist_iteration getput σ j : rtc (kl_step getput) kl_init σ →
  NoDup (it_seen (k_iter σ j)) ∧ (it_phase (k_iter σ j) = ItEnd → ∀ x, x ∈ it_start (k_iter σ j) → x ∈ k_list (k_k σ) → x ∈ it_seen (k_iter σ j)).
Proof.
  intros (U & H & I)%kl_reach. destruct (ki_it _ _ _ _ I j) as (H1 & _ & _ & H4). split; [done|]. intros E. rewrite E in H4. by destruct (it_cur (k_iter σ j)).
Qed.

(** ** Schedules *)

#[global] Instance phase_eq_dec : EqDecision phase.
Proof. solve_decision. Defined.
#[global] Instance kcall_ok_dec a σ : Decision (kcall_ok a σ).
Proof. destruct a; cbn [kcall_ok]; apply _. Defined.
Fixpoint kl_exec (l : list kcall) (σ : klsys) : klsys :=
  match l with [] => σ | a :: l => kl_exec l (if decide (kcall_ok a σ) then match kcall_run true a σ with Done σ' => σ' | Fault _ => σ end else σ) end.
Lemma kl_exec_run l σ : rtc (kl_step true) kl_init σ → rtc (kl_step true) kl_init (kl_exec l σ).
Proof.
  revert σ. induction l as [|a l IH]; intros σ Hr; cbn [kl_exec]; [done|]. apply IH. case_decide as Hok; [|done]. destruct (kcall_run true a σ) eqn:E; [|done]. eapply rtc_r; [exact Hr|by eapply KlStep].
Qed.
(** During an iteration over 1, 2 and 3, at 1, the nodes 1 and 2 are deleted and 4 is added at the head; 1 goes when the iterator moves on, to 3. *)
Definition kl_demo : klsys :=
  kl_exec [AddTail 1%positive; AddTail 2%positive; AddTail 3%positive; IterInit 0; Next 0; Del 1%positive; Del 2%positive; Removed 1%positive; AddHead 4%positive; Next 0; Removed 1%positive; Next 0] kl_init.
Lemma kl_demo_reachable : rtc (kl_step true) kl_init kl_demo.
Proof. apply kl_exec_run, rtc_refl. Qed.
Lemma klist_safe_witness : k_list (k_k kl_demo) = [4%positive; 3%positive] ∧ 1%positive ∉ k_list (k_k kl_demo) ∧ ∀ j, it_cur (k_iter kl_demo j) ≠ Some 1%positive.
Proof.
  split; [vm_compute; reflexivity|]. assert (Hd : 1%positive ∈ k_done kl_demo) by (apply (bool_decide_unpack _); vm_compute; exact I).
  exact (proj1 (proj2 (proj2 (klist_safe true kl_demo kl_demo_reachable))) 1%positive Hd).
Defined.
Lemma klist_iteration_witness : it_seen (k_iter kl_demo 0) = [1%positive; 3%positive] ∧ 3%positive ∈ it_seen (k_iter kl_demo 0).
Proof.
  split; [vm_compute; reflexivity|]. assert (H1 : it_phase (k_iter kl_demo 0) = ItEnd) by (vm_compute; reflexivity).
  assert (H2 : 3%positive ∈ it_start (k_iter kl_demo 0)) by (apply (bool_decide_unpack _); vm_compute; exact I).
  assert (H3 : 3%positive ∈ k_list (k_k kl_demo)) by (apply (bool_decide_unpack _); vm_compute; exact I).
  exact (proj2 (klist_iteration true kl_demo 0 kl_demo_reachable) H1 3%positive H2 H3).
Defined.
