(* ===== verification/PktSched.v ===== *)
(** The packet scheduler: net/sched/sch_generic.c, with its callers [dev_queue_xmit] and [net_tx_action] of net/core/dev.c.

    Any number of threads hand packets to a device whose queue is [pfifo_fast], three first-in-first-out bands; the softirq
    thread, number 0, runs the queue when it was scheduled, interrupts wake the queue, and timers take the lock of the driver.  A step is one access
    to what is shared, or what happens to the queue under its lock; that goes for the single accesses of [__netif_schedule] and
    [net_tx_action] to the list [sd->output_queue] as well, of which this part has the one device.  The softirq may run at any
    time, as other devices raise it too; that a raise of it may be lost is shown with the softirqs.  Bits and locks are given by the thread that
    has set or taken them.  [cpu] is [smp_processor_id] in each thread; [nolock]: the driver has
    NETIF_F_LLTX.  What the driver answers, and that it stops the queue at any time, is open.  Packets of
    GSO and statistics in bytes are left out. *)

From S2P Require Import Prelude.

Record pkt := Pkt { p_id : nat; p_priority : Z }.
Definition TC_PRIO_MAX : Z := 15.
Definition prio2band : list nat := [1; 2; 2; 2; 1; 2; 0; 0; 1; 1; 1; 1; 1; 1; 1; 1]%nat.
(** [prio2list] *)
Definition band (p : pkt) : nat := nth (Z.to_nat (Z.land (p_priority p) TC_PRIO_MAX)) prio2band 0%nat.
Definition PFIFO_FAST_BANDS : nat := 3.

(** ** pfifo_fast *)

Record qdisc := Qdisc { q_band : nat → list pkt; q_len : Z }.
Definition pfifo_fast_init : qdisc := Qdisc (λ _, []) 0.
(** [true]: NET_XMIT_SUCCESS; else the packet is freed. *)
Definition pfifo_fast_enqueue (tx_queue_len : Z) (p : pkt) (q : qdisc) : bool * qdisc :=
  if Z.of_nat (length (q_band q (band p))) <? tx_queue_len then (true, Qdisc (upd_at (band p) (λ l, l ++ [p]) (q_band q)) (q_len q + 1)) else (false, q).
Fixpoint dequeue_from (prios : list nat) (q : qdisc) : option pkt * qdisc :=
  match prios with
  | [] => (None, q)
  | b :: prios => match q_band q b with [] => dequeue_from prios q | p :: l => (Some p, Qdisc (upd_at b (λ _, l) (q_band q)) (q_len q - 1)) end
  end.
Definition pfifo_fast_dequeue (q : qdisc) : option pkt * qdisc := dequeue_from (seq 0 PFIFO_FAST_BANDS) q.
Definition pfifo_fast_requeue (p : pkt) (q : qdisc) : qdisc := Qdisc (upd_at (band p) (λ l, p :: l) (q_band q)) (q_len q + 1).

(** ** Threads *)

(** Where a thread is in [__netif_schedule] *)
Inductive ns_stage :=
| NTest                    (* if (!test_and_set_bit(__LINK_STATE_SCHED, &dev->state)) *)
| NNext                    (* dev->next_sched = sd->output_queue *)
| NOut                     (* sd->output_queue = dev *)
| NRaise.                  (* raise_softirq_irqoff(NET_TX_SOFTIRQ) *)
Inductive ppc :=
| PIdle
| XLock (p : pkt)          (* dev_queue_xmit: spin_lock(&dev->queue_lock) *)
| XEnq (p : pkt)           (* q->enqueue(skb, q) *)
| QTest                    (* qdisc_run: !netif_queue_stopped(dev) *)
| QSet                     (* !test_and_set_bit(__LINK_STATE_QDISC_RUNNING) *)
| QRestart                 (* qdisc_restart: q->dequeue(q) *)
| QTry (p : pkt)           (* netif_tx_trylock: spin_trylock *)
| QOwner (p : pkt)         (* collision: dev->xmit_lock_owner == smp_processor_id() *)
| QSetOwner (p : pkt)      (* netif_tx_trylock: dev->xmit_lock_owner = smp_processor_id() *)
| QUnlock (p : pkt)        (* spin_unlock(&dev->queue_lock) *)
| QStopped (p : pkt)       (* if (!netif_queue_stopped(dev)) *)
| QXmit (p : pkt)          (* dev_hard_start_xmit(skb, dev) *)
| QOkOwner | QOkUnlock     (* netif_tx_unlock *)
| QOkLock                  (* spin_lock(&dev->queue_lock); return -1 *)
| QColLock (p : pkt)       (* spin_lock(&dev->queue_lock); goto collision *)
| QBusyOwner (p : pkt) | QBusyUnlock (p : pkt)  (* netif_tx_unlock *)
| QBusyLock (p : pkt)      (* spin_lock(&dev->queue_lock) *)
| QRequeue (p : pkt)       (* q->ops->requeue(skb, q) *)
| QSchedTest               (* netif_schedule: if (!test_bit(__LINK_STATE_XOFF)) *)
| QSched (s : ns_stage)    (* __netif_schedule *)
| QAgain                   (* __qdisc_run: && !netif_queue_stopped(dev) *)
| QClear                   (* clear_bit(__LINK_STATE_QDISC_RUNNING) *)
| QRelease                 (* spin_unlock(&dev->queue_lock) of the caller *)
| STest                    (* net_tx_action: if (sd->output_queue) *)
| SHead                    (* head = sd->output_queue *)
| SNull                    (* sd->output_queue = NULL *)
| SNext                    (* head = head->next_sched *)
| SClear                   (* clear_bit(__LINK_STATE_SCHED) *)
| STry                     (* spin_trylock(&dev->queue_lock) *)
| SSchedTest | SSched (s : ns_stage)  (* netif_schedule *)
| WClear                   (* netif_wake_queue: test_and_clear_bit(__LINK_STATE_XOFF) *)
| WSched (s : ns_stage)    (* __netif_schedule *)
| LLock | LOwner           (* netif_tx_lock *)
| LNoOwner | LUnlock.      (* netif_tx_unlock *)

(** [outq]: the device is in [sd->output_queue], which is NULL otherwise; [nexts]: [dev->next_sched] is the device, and not NULL; [tx_head]: so is [head] of [net_tx_action]. *)
Record pstate := PState {
  ps_q : qdisc; xoff : bool; qrunning : option nat; sched : bool; outq : bool; nexts : bool; tx_head : bool;
  queue_lock : option nat; xmit_lock : option nat; xmit_lock_owner : Z; ps_thr : nat → ppc;
  accepted : list pkt; finished : list (pkt * bool)  (* history: enqueued packets; those sent and (with [false]) freed *)
}.
Definition p_at (t : nat) (pc : ppc) (σ : pstate) : pstate := PState (ps_q σ) (xoff σ) (qrunning σ) (sched σ) (outq σ) (nexts σ) (tx_head σ) (queue_lock σ) (xmit_lock σ) (xmit_lock_owner σ) (upd_at t (λ _, pc) (ps_thr σ)) (accepted σ) (finished σ).
Definition set_q (q : qdisc) (acc : list pkt) (σ : pstate) : pstate := PState q (xoff σ) (qrunning σ) (sched σ) (outq σ) (nexts σ) (tx_head σ) (queue_lock σ) (xmit_lock σ) (xmit_lock_owner σ) (ps_thr σ) acc (finished σ).
Definition set_xoff (b : bool) (σ : pstate) : pstate := PState (ps_q σ) b (qrunning σ) (sched σ) (outq σ) (nexts σ) (tx_head σ) (queue_lock σ) (xmit_lock σ) (xmit_lock_owner σ) (ps_thr σ) (accepted σ) (finished σ).
Definition set_running (r : option nat) (σ : pstate) : pstate := PState (ps_q σ) (xoff σ) r (sched σ) (outq σ) (nexts σ) (tx_head σ) (queue_lock σ) (xmit_lock σ) (xmit_lock_owner σ) (ps_thr σ) (accepted σ) (finished σ).
Definition set_sched (b : bool) (σ : pstate) : pstate := PState (ps_q σ) (xoff σ) (qrunning σ) b (outq σ) (nexts σ) (tx_head σ) (queue_lock σ) (xmit_lock σ) (xmit_lock_owner σ) (ps_thr σ) (accepted σ) (finished σ).
Definition set_list (o n h : bool) (σ : pstate) : pstate := PState (ps_q σ) (xoff σ) (qrunning σ) (sched σ) o n h (queue_lock σ) (xmit_lock σ) (xmit_lock_owner σ) (ps_thr σ) (accepted σ) (finished σ).
Definition set_qlock (l : option nat) (σ : pstate) : pstate := PState (ps_q σ) (xoff σ) (qrunning σ) (sched σ) (outq σ) (nexts σ) (tx_head σ) l (xmit_lock σ) (xmit_lock_owner σ) (ps_thr σ) (accepted σ) (finished σ).
Definition set_xlock (l : option nat) (σ : pstate) : pstate := PState (ps_q σ) (xoff σ) (qrunning σ) (sched σ) (outq σ) (nexts σ) (tx_head σ) (queue_lock σ) l (xmit_lock_owner σ) (ps_thr σ) (accepted σ) (finished σ).
Definition set_owner (z : Z) (σ : pstate) : pstate := PState (ps_q σ) (xoff σ) (qrunning σ) (sched σ) (outq σ) (nexts σ) (tx_head σ) (queue_lock σ) (xmit_lock σ) z (ps_thr σ) (accepted σ) (finished σ).
Definition finish_pkt (p : pkt) (sent : bool) (σ : pstate) : pstate := PState (ps_q σ) (xoff σ) (qrunning σ) (sched σ) (outq σ) (nexts σ) (tx_head σ) (queue_lock σ) (xmit_lock σ) (xmit_lock_owner σ) (ps_thr σ) (accepted σ) (finished σ ++ [(p, sent)]).

Inductive tx_result := NETDEV_TX_OK | NETDEV_TX_BUSY | NETDEV_TX_LOCKED.

Section PktSched.
Context (tx_queue_len : Z) (cpu : nat → Z) (nolock : bool).

(** The steps; [None]: it waits. *)
Definition take_qlock (t : nat) (pc : ppc) (σ : pstate) : option pstate := match queue_lock σ with None => Some (p_at t pc (set_qlock (Some t) σ)) | Some _ => None end.
Definition dev_queue_xmit (t : nat) (σ : pstate) : option pstate :=
  match ps_thr σ t with
  | XLock p => take_qlock t (XEnq p) σ
  | XEnq p => let '(ok, q) := pfifo_fast_enqueue tx_queue_len p (ps_q σ) in Some (p_at t QTest (set_q q (if ok then accepted σ ++ [p] else accepted σ) σ))
  | _ => None
  end.
(** [__netif_schedule], where [at_] says where its caller is in it, and with what comes after it.  The softirq that is raised starts by [PsSoftirq]. *)
Definition __netif_schedule (t : nat) (at_ : ns_stage → ppc) (done : ppc) (s : ns_stage) (σ : pstate) : pstate :=
  match s with
  | NTest => if sched σ then p_at t done σ else p_at t (at_ NNext) (set_sched true σ)
  | NNext => p_at t (at_ NOut) (set_list (outq σ) (outq σ) (tx_head σ) σ)
  | NOut => p_at t (at_ NRaise) (set_list true (nexts σ) (tx_head σ) σ)
  | NRaise => p_at t done σ
  end.
(** [while (head)] of [net_tx_action], which only the softirq thread runs *)
Definition tx_while (t : nat) (σ : pstate) : ppc := if (t =? 0)%nat && tx_head σ then SNext else PIdle.
Definition __qdisc_run (t : nat) (σ : pstate) : option pstate :=
  match ps_thr σ t with
  | QTest => Some (p_at t (if xoff σ then QRelease else QSet) σ)
  | QSet => Some (match qrunning σ with None => p_at t QRestart (set_running (Some t) σ) | Some _ => p_at t QRelease σ end)
  | QAgain => Some (p_at t (if xoff σ then QClear else QRestart) σ)
  | QClear => Some (p_at t QRelease (set_running None σ))
  | QRelease => Some (p_at t (tx_while t σ) (set_qlock None σ))
  | _ => None
  end.
(** [r]: what the driver answers; [stop]: it stops the queue. *)
Definition qdisc_restart (t : nat) (r : tx_result) (stop : bool) (σ : pstate) : option pstate :=
  match ps_thr σ t with
  | QRestart => Some (match pfifo_fast_dequeue (ps_q σ) with (Some p, q) => p_at t (if nolock then QUnlock p else QTry p) (set_q q (accepted σ) σ) | (None, q) => p_at t QClear (set_q q (accepted σ) σ) end)
  | QTry p => Some (match xmit_lock σ with None => p_at t (QSetOwner p) (set_xlock (Some t) σ) | Some _ => p_at t (QOwner p) σ end)
  | QOwner p => Some (if xmit_lock_owner σ =? cpu t then p_at t QAgain (finish_pkt p false σ) else p_at t (QRequeue p) σ)
  | QSetOwner p => Some (p_at t (QUnlock p) (set_owner (cpu t) σ))
  | QUnlock p => Some (p_at t (QStopped p) (set_qlock None σ))
  | QStopped p => Some (p_at t (if xoff σ then if nolock then QBusyLock p else QBusyOwner p else QXmit p) σ)
  | QXmit p =>
      let σ := if stop then set_xoff true σ else σ in
      Some (match r with
            | NETDEV_TX_OK => p_at t (if nolock then QOkLock else QOkOwner) (finish_pkt p true σ)
            | NETDEV_TX_BUSY => p_at t (if nolock then QBusyLock p else QBusyOwner p) σ
            | NETDEV_TX_LOCKED => p_at t (if nolock then QColLock p else QBusyOwner p) σ
            end)
  | QOkOwner => Some (p_at t QOkUnlock (set_owner (-1) σ))
  | QOkUnlock => Some (p_at t QOkLock (set_xlock None σ))
  | QOkLock => take_qlock t QAgain σ
  | QColLock p => take_qlock t (QOwner p) σ
  | QBusyOwner p => Some (p_at t (QBusyUnlock p) (set_owner (-1) σ))
  | QBusyUnlock p => Some (p_at t (QBusyLock p) (set_xlock None σ))
  | QBusyLock p => take_qlock t (QRequeue p) σ
  | QRequeue p => Some (p_at t QSchedTest (set_q (pfifo_fast_requeue p (ps_q σ)) (accepted σ) σ))
  | QSchedTest => Some (p_at t (if xoff σ then QClear else QSched NTest) σ)
  | QSched s => Some (__netif_schedule t QSched QClear s σ)
  | _ => None
  end.
Definition net_tx_action (t : nat) (σ : pstate) : option pstate :=
  match ps_thr σ t with
  | STest => Some (p_at t (if outq σ then SHead else PIdle) σ)
  | SHead => Some (p_at t SNull (set_list (outq σ) (nexts σ) (outq σ) σ))
  | SNull => Some (p_at t (tx_while t σ) (set_list false (nexts σ) (tx_head σ) σ))
  | SNext => Some (p_at t SClear (set_list (outq σ) (nexts σ) (nexts σ) σ))
  | SClear => Some (p_at t STry (set_sched false σ))
  | STry => Some (match queue_lock σ with None => p_at t QTest (set_qlock (Some t) σ) | Some _ => p_at t SSchedTest σ end)
  | SSchedTest => Some (p_at t (if xoff σ then tx_while t σ else SSched NTest) σ)
  | SSched s => Some (__netif_schedule t SSched (tx_while t σ) s σ)
  | _ => None
  end.
Definition netif_wake_queue (t : nat) (σ : pstate) : option pstate :=
  match ps_thr σ t with
  | WClear => Some (if xoff σ then p_at t (WSched NTest) (set_xoff false σ) else p_at t PIdle σ)
  | WSched s => Some (__netif_schedule t WSched PIdle s σ)
  | _ => None
  end.
(** [netif_tx_lock] and [netif_tx_unlock], as in [dev_watchdog] *)
Definition netif_tx_locked (t : nat) (σ : pstate) : option pstate :=
  match ps_thr σ t with
  | LLock => match xmit_lock σ with None => Some (p_at t LOwner (set_xlock (Some t) σ)) | Some _ => None end
  | LOwner => Some (p_at t LNoOwner (set_owner (cpu t) σ))
  | LNoOwner => Some (p_at t LUnlock (set_owner (-1) σ))
  | LUnlock => Some (p_at t PIdle (set_xlock None σ))
  | _ => None
  end.
Inductive p_step : pstate → pstate → Prop :=
| PsSend σ t p : ps_thr σ t = PIdle → p_step σ (p_at t (XLock p) σ)
| PsSoftirq σ : ps_thr σ 0%nat = PIdle → p_step σ (p_at 0 STest σ)
| PsWake σ t : ps_thr σ t = PIdle → p_step σ (p_at t WClear σ)
| PsTimer σ t : ps_thr σ t = PIdle → p_step σ (p_at t LLock σ)
| PsStop σ : p_step σ (set_xoff true σ)
| PsXmit σ t σ' : dev_queue_xmit t σ = Some σ' → p_step σ σ'
| PsRun σ t σ' : __qdisc_run t σ = Some σ' → p_step σ σ'
| PsRestart σ t r b σ' : qdisc_restart t r b σ = Some σ' → p_step σ σ'
| PsTx σ t σ' : net_tx_action t σ = Some σ' → p_step σ σ'
| PsWakeRun σ t σ' : netif_wake_queue t σ = Some σ' → p_step σ σ'
| PsTimerRun σ t σ' : netif_tx_locked t σ = Some σ' → p_step σ σ'.
Definition p_init : pstate := PState pfifo_fast_init false None false false false false None None (-1) (λ _, PIdle) [] [].
End PktSched.

(** ** Locks and the running bit *)

Definition inQ (pc : ppc) : bool :=
  match pc with
  | XEnq _ | QTest | QSet | QRestart | QTry _ | QOwner _ | QSetOwner _ | QUnlock _ | QRequeue _ | QSchedTest | QSched _ | QAgain | QClear | QRelease => true
  | _ => false
  end.
Definition isRun (pc : ppc) : bool :=
  match pc with
  | QRestart | QTry _ | QOwner _ | QSetOwner _ | QUnlock _ | QStopped _ | QXmit _ | QOkOwner | QOkUnlock | QOkLock | QColLock _ | QBusyOwner _ | QBusyUnlock _ | QBusyLock _ | QRequeue _
  | QSchedTest | QSched _ | QAgain | QClear => true
  | _ => false
  end.
Definition hand (pc : ppc) : list pkt :=
  match pc with QTry p | QOwner p | QSetOwner p | QUnlock p | QStopped p | QXmit p | QColLock p | QBusyOwner p | QBusyUnlock p | QBusyLock p | QRequeue p => [p] | _ => [] end.
Lemma tx_while_cases t σ : tx_while t σ = SNext ∨ tx_while t σ = PIdle.
Proof. unfold tx_while. destruct (_ && _); auto. Qed.
(** Exactly the owner of a bit or lock is at the places where it has it. *)
Definition owned (P : ppc → bool) (th : nat → ppc) (o : option nat) : Prop := ∀ t, P (th t) = true ↔ o = Some t.
Definition own_change (t : nat) (p p' : bool) (o o' : option nat) : Prop := (p' = p ∧ o' = o) ∨ (o = None ∧ o' = Some t ∧ p' = true) ∨ (p = true ∧ o' = None ∧ p' = false).
Lemma owned_step P th th' o o' t : owned P th o → (∀ u, u ≠ t → th' u = th u) → own_change t (P (th t)) (P (th' t)) o o' → owned P th' o'.
Proof.
  intros H Ho Hc u. destruct (decide (u = t)) as [->|N].
  - destruct Hc as [[-> ->]|[(_ & -> & ->)|(_ & -> & ->)]]; [apply H|done|done].
  - rewrite Ho by done. destruct Hc as [[_ ->]|[(-> & -> & _)|(Ht & -> & _)]]; [apply H| |]; pose proof (H u) as Hu; [naive_solver|]. pose proof (H t) as Ht'. naive_solver.
Qed.
Section Inv.
Context (tx_queue_len : Z) (cpu : nat → Z) (nolock : bool).
Definition inX (pc : ppc) : bool :=
  match pc with QSetOwner _ | QUnlock _ | QStopped _ | QXmit _ | QOkOwner | QOkUnlock | QBusyOwner _ | QBusyUnlock _ => negb nolock | LOwner | LNoOwner | LUnlock => true | _ => false end.
(** Where the owner of the driver lock is written *)
Definition owns (pc : ppc) : bool := match pc with QUnlock _ | QStopped _ | QXmit _ | QOkOwner | QBusyOwner _ => negb nolock | LNoOwner => true | _ => false end.
Definition allowed (pc : ppc) : bool := match pc with QTry _ | QSetOwner _ | QOkOwner | QOkUnlock | QBusyOwner _ | QBusyUnlock _ => negb nolock | QColLock _ => nolock | _ => true end.
Record locks (σ : pstate) : Prop := {
  lk_q : owned inQ (ps_thr σ) (queue_lock σ);
  lk_x : owned inX (ps_thr σ) (xmit_lock σ);
  lk_r : owned isRun (ps_thr σ) (qrunning σ);
  lk_a : ∀ t, allowed (ps_thr σ t) = true;
  lk_o : xmit_lock_owner σ = -1 ∨ ∃ t, owns (ps_thr σ t) = true ∧ xmit_lock_owner σ = cpu t
}.
Lemma locks_step σ σ' t : locks σ → (∀ u, u ≠ t → ps_thr σ' u = ps_thr σ u) →
  own_change t (inQ (ps_thr σ t)) (inQ (ps_thr σ' t)) (queue_lock σ) (queue_lock σ') → own_change t (inX (ps_thr σ t)) (inX (ps_thr σ' t)) (xmit_lock σ) (xmit_lock σ') →
  own_change t (isRun (ps_thr σ t)) (isRun (ps_thr σ' t)) (qrunning σ) (qrunning σ') → allowed (ps_thr σ' t) = true →
  (xmit_lock_owner σ' = -1 ∨ (owns (ps_thr σ' t) = true ∧ xmit_lock_owner σ' = cpu t) ∨ (xmit_lock_owner σ' = xmit_lock_owner σ ∧ owns (ps_thr σ' t) = owns (ps_thr σ t))) → locks σ'.
Proof.
  intros L Ho Hq Hx Hr Ha Hw. split; [by eapply owned_step; [apply L|..]|by eapply owned_step; [apply L|..]|by eapply owned_step; [apply L|..]| |].
  - intros u. destruct (decide (u = t)) as [->|N]; [done|]. rewrite Ho by done. apply L.
  - destruct Hw as [?|[?|[E1 E2]]]; [by left|right; by exists t|]. destruct (lk_o _ L) as [?|(u & H1 & H2)]; [left; congruence|]. right. exists u. split; [|congruence].
    destruct (decide (u = t)) as [->|N]; [congruence|]. by rewrite Ho.
Qed.
Ltac pun := unfold p_at, set_q, set_xoff, set_running, set_sched, set_list, set_qlock, set_xlock, set_owner, finish_pkt, own_change in *; cbn -[upd_at pfifo_fast_dequeue pfifo_fast_requeue pfifo_fast_enqueue] in *.
Ltac lstep L E := lazymatch type of E with ps_thr ?s ?t = _ => pose proof (lk_a _ L t); eapply (locks_step s _ t L) end; pun; rewrite ?upd_at_eq, ?E in *; cbn in *;
  [intros ? ?; by rewrite ?upd_at_ne| | | |try done; try by destruct nolock|]; try (destruct nolock; cbn in *; by auto 6).
Lemma locks_xmit σ t σ' : locks σ → dev_queue_xmit tx_queue_len t σ = Some σ' → locks σ'.
Proof.
  intros L. unfold dev_queue_xmit, take_qlock. destruct (ps_thr σ t) eqn:E; try done.
  - destruct (queue_lock σ) eqn:Eq; [done|]. intros [= <-]. lstep L E.
  - destruct (pfifo_fast_enqueue tx_queue_len p (ps_q σ)). intros [= <-]. lstep L E.
Qed.
Lemma locks_run σ t σ' : locks σ → __qdisc_run t σ = Some σ' → locks σ'.
Proof.
  intros L. unfold __qdisc_run. destruct (ps_thr σ t) eqn:E; try done; intros [= <-].
  - destruct (xoff σ); lstep L E.
  - destruct (qrunning σ) eqn:Er; lstep L E.
  - destruct (xoff σ); lstep L E.
  - lstep L E.
  - destruct (tx_while_cases t σ) as [-> | ->]; lstep L E.
Qed.
Lemma locks_schedule σ t at_ done_ s : locks σ → let pc := ps_thr σ t in (∀ s, inQ (at_ s) = inQ pc) → inQ done_ = inQ pc → (∀ s, inX (at_ s) = inX pc) → inX done_ = inX pc → (∀ s, isRun (at_ s) = isRun pc) → isRun done_ = isRun pc →
  (∀ s, allowed (at_ s) = true) → allowed done_ = true → (∀ s, owns (at_ s) = owns pc) → owns done_ = owns pc → locks (__netif_schedule t at_ done_ s σ).
Proof. intros L pc. intros. unfold __netif_schedule. destruct s; [destruct (sched σ)|..]; (eapply (locks_step σ _ t L); pun; rewrite ?upd_at_eq; [intros ? ?; by rewrite ?upd_at_ne|auto..]). Qed.
Lemma locks_restart σ t r b σ' : locks σ → qdisc_restart cpu nolock t r b σ = Some σ' → locks σ'.
Proof.
  intros L. unfold qdisc_restart, take_qlock. pose proof (lk_a _ L t) as Ha. destruct (ps_thr σ t) eqn:E; try done.
  - destruct (pfifo_fast_dequeue (ps_q σ)) as [[p|] q]; intros [= <-]; [destruct nolock eqn:En; rewrite <-?En in *; lstep L E|lstep L E].
  - destruct (xmit_lock σ) eqn:Ex; intros [= <-]; lstep L E.
  - destruct (_ =? _); intros [= <-]; lstep L E.
  - intros [= <-]. lstep L E.
  - intros [= <-]. lstep L E.
  - destruct (xoff σ), nolock eqn:En; intros [= <-]; lstep L E.
  - destruct b, r, nolock eqn:En; intros [= <-]; lstep L E.
  - intros [= <-]. lstep L E.
  - intros [= <-]. lstep L E.
  - destruct (queue_lock σ) eqn:Eq; [done|]. intros [= <-]. lstep L E.
  - destruct (queue_lock σ) eqn:Eq; [done|]. intros [= <-]. lstep L E.
  - intros [= <-]. lstep L E.
  - intros [= <-]. lstep L E.
  - destruct (queue_lock σ) eqn:Eq; [done|]. intros [= <-]. lstep L E.
  - intros [= <-]. lstep L E.
  - destruct (xoff σ); intros [= <-]; lstep L E.
  - intros [= <-]. by apply locks_schedule; rewrite ?E.
Qed.
Lemma locks_p_step σ σ' : locks σ → p_step tx_queue_len cpu nolock σ σ' → locks σ'.
Proof.
  intros L. inversion 1 as [? t p E|? E|? t E|? t E|?|? t ? E|? t ? E|? t r b ? E|? t ? E|? t ? E|? t ? E]; subst.
  - lstep L E.
  - lstep L E.
  - lstep L E.
  - lstep L E.
  - destruct L as [H1 H2 H3 H4 H5]. by split.
  - by eapply locks_xmit.
  - by eapply locks_run.
  - by eapply locks_restart.
  - unfold net_tx_action in E. destruct (ps_thr σ t) eqn:Et; try done; simplify_eq.
    + destruct (outq σ); lstep L Et.
    + lstep L Et.
    + destruct (tx_while_cases t σ) as [-> | ->]; lstep L Et.
    + lstep L Et.
    + lstep L Et.
    + destruct (queue_lock σ) eqn:Eq; lstep L Et.
    + destruct (xoff σ); [destruct (tx_while_cases t σ) as [-> | ->]|]; lstep L Et.
    + destruct (tx_while_cases t σ) as [-> | ->]; by apply locks_schedule; rewrite ?Et.
  - unfold netif_wake_queue in E. destruct (ps_thr σ t) eqn:Et; try done; simplify_eq.
    + destruct (xoff σ); lstep L Et.
    + by apply locks_schedule; rewrite ?Et.
  - unfold netif_tx_locked in E. destruct (ps_thr σ t) eqn:Et; try done; simplify_eq.
    + destruct (xmit_lock σ) eqn:Ex; simplify_eq. lstep L Et.
    + lstep L Et.
    + lstep L Et.
    + lstep L Et.
Qed.
(** ** Packets are kept in order *)

Definition of_band (b : nat) (l : list pkt) : list pkt := filter (λ p, band p = b) l.
(** The packet that the running thread has taken from the queue *)
Definition handl (σ : pstate) : list pkt := match qrunning σ with Some t => hand (ps_thr σ t) | None => [] end.
Definition zlen {A} (l : list A) : Z := Z.of_nat (length l).
Record hist (q : qdisc) (acc h : list pkt) (fin : list (pkt * bool)) : Prop := {
  hi_band : ∀ b p, p ∈ q_band q b → band p = b;
  hi_fifo : ∀ b, of_band b acc = of_band b (fst <$> fin) ++ of_band b h ++ q_band q b;
  hi_len : q_len q = zlen (q_band q 0) + zlen (q_band q 1) + zlen (q_band q 2);
  hi_bound : ∀ b, zlen (q_band q b) + zlen (of_band b h) ≤ tx_queue_len + 1
}.
Definition hist_inv (σ : pstate) : Prop := hist (ps_q σ) (accepted σ) (handl σ) (finished σ).
Lemma band_lt p : (band p < 3)%nat.
Proof.
  unfold band. assert (H : Forall (λ b, (b < 3)%nat) prio2band) by (repeat constructor; lia). rewrite list.Forall_nth in H. destruct (decide (Z.to_nat (Z.land (p_priority p) TC_PRIO_MAX) < length prio2band)%nat) as [Hl|Hl]; [by apply H|]. rewrite nth_overflow; lia.
Qed.
Lemma of_band_app b l k : of_band b (l ++ k) = of_band b l ++ of_band b k.
Proof. apply list.filter_app. Qed.
Lemma of_band_one b p : of_band b [p] = if decide (band p = b) then [p] else [].
Proof. unfold of_band. cbn. by destruct (decide (band p = b)). Qed.
(** Adding and removing one packet in the band it belongs to *)
Lemma total_upd (f : nat → list pkt) b g d : (b < 3)%nat → zlen (g (f b)) = zlen (f b) + d →
  zlen (upd_at b g f 0%nat) + zlen (upd_at b g f 1%nat) + zlen (upd_at b g f 2%nat) = zlen (f 0%nat) + zlen (f 1%nat) + zlen (f 2%nat) + d.
Proof. intros Hb Hl. destruct b as [|[|[|b]]]; [| | |lia]; rewrite ?upd_at_eq, ?(upd_at_ne 0), ?(upd_at_ne 1), ?(upd_at_ne 2) by lia; lia. Qed.
Lemma enqueue_hist q acc h fin p ok q' : hist q acc h fin → zlen h ≤ 1 → pfifo_fast_enqueue tx_queue_len p q = (ok, q') → hist q' (if ok then acc ++ [p] else acc) h fin.
Proof.
  intros H Hh. unfold pfifo_fast_enqueue. destruct (Z.ltb_spec (zlen (q_band q (band p))) tx_queue_len) as [Hl|Hl]; fold (zlen (q_band q (band p))); destruct (Z.ltb_spec (zlen (q_band q (band p))) tx_queue_len); try lia; intros [= <- <-]; [|done].
  assert (Hn : ∀ l : list pkt, zlen (l ++ [p]) = zlen l + 1) by (intros l; unfold zlen; rewrite length_app; cbn; lia). split; cbn [q_band q_len].
  - intros b x. destruct (decide (b = band p)) as [->|N]; [rewrite upd_at_eq; intros [?| ->%list_elem_of_singleton]%elem_of_app; [by apply H|done]|rewrite upd_at_ne by done; apply H].
  - intros b. rewrite of_band_app, of_band_one, (hi_fifo _ _ _ _ H). destruct (decide (band p = b)) as [<-|N]; [by rewrite upd_at_eq, <-!(assoc (++))|by rewrite upd_at_ne, app_nil_r].
  - rewrite (total_upd _ _ _ 1), (hi_len _ _ _ _ H); [done|apply band_lt|apply Hn].
  - intros b. assert (Hb : zlen (of_band b h) ≤ 1) by (unfold zlen, of_band in *; pose proof (list.length_filter (λ p, band p = b) h); lia).
    destruct (decide (b = band p)) as [->|N]; [rewrite upd_at_eq, Hn; lia|rewrite upd_at_ne by done; apply H].
Qed.
Lemma dequeue_from_some prios q p q' : dequeue_from prios q = (Some p, q') → ∃ b l, b ∈ prios ∧ q_band q b = p :: l ∧ q' = Qdisc (upd_at b (λ _, l) (q_band q)) (q_len q - 1).
Proof. induction prios as [|b prios IH]; cbn; [done|]. destruct (q_band q b) as [|x l] eqn:E; [intros (b' & l & ? & ?)%IH; exists b', l; set_solver|]. intros [= <- <-]. exists b, l. set_solver. Qed.
Lemma dequeue_from_none prios q q' : dequeue_from prios q = (None, q') → q' = q ∧ ∀ b, b ∈ prios → q_band q b = [].
Proof. induction prios as [|b prios IH]; cbn; [intros [= ->]; set_solver|]. destruct (q_band q b) as [|x l] eqn:E; [|done]. intros [-> H]%IH. split; [done|]. intros b' [->|?]%elem_of_cons; auto. Qed.
Lemma dequeue_hist q acc fin p q' : hist q acc [] fin → pfifo_fast_dequeue q = (Some p, q') → hist q' acc [p] fin.
Proof.
  intros H (b & l & Hb%elem_of_seq & E & ->)%dequeue_from_some. assert (Hp : band p = b) by (apply (hi_band _ _ _ _ H); rewrite E; set_solver). assert (Hl : zlen (p :: l) = zlen l + 1) by (unfold zlen; cbn [length]; lia). split; cbn [q_band q_len].
  - intros c x. destruct (decide (c = b)) as [->|N]; [rewrite upd_at_eq; intros Hx; apply (hi_band _ _ _ _ H); rewrite E; set_solver|rewrite upd_at_ne by done; apply H].
  - intros c. rewrite (hi_fifo _ _ _ _ H), of_band_one. destruct (decide (band p = c)) as [E'|N]; [subst c b; by rewrite upd_at_eq, E|by rewrite upd_at_ne by congruence].
  - rewrite (total_upd _ _ _ (-1)), (hi_len _ _ _ _ H); [done|subst b; apply band_lt|rewrite E; lia].
  - intros c. pose proof (hi_bound _ _ _ _ H c) as Hc. rewrite of_band_one. destruct (decide (band p = c)) as [E'|N]; [subst c; rewrite Hp, upd_at_eq; rewrite Hp, E in Hc; cbn in Hc; unfold zlen in *; cbn in *; lia|by rewrite upd_at_ne by congruence].
Qed.
Lemma requeue_hist q acc fin p : hist q acc [p] fin → hist (pfifo_fast_requeue p q) acc [] fin.
Proof.
  intros H. assert (Hl : ∀ l, zlen (p :: l) = zlen l + 1) by (intros l; unfold zlen; cbn [length]; lia). split; cbn [q_band q_len pfifo_fast_requeue].
  - intros c x. destruct (decide (c = band p)) as [->|N]; [rewrite upd_at_eq; intros [->|?]%elem_of_cons; [done|by apply H]|rewrite upd_at_ne by done; apply H].
  - intros c. rewrite (hi_fifo _ _ _ _ H), of_band_one. destruct (decide (band p = c)) as [<-|N]; [by rewrite upd_at_eq|by rewrite upd_at_ne by congruence].
  - rewrite (total_upd _ _ _ 1), (hi_len _ _ _ _ H); [done|apply band_lt|apply Hl].
  - intros c. pose proof (hi_bound _ _ _ _ H c) as Hc. rewrite of_band_one in Hc. destruct (decide (band p = c)) as [<-|N]; [rewrite upd_at_eq, Hl|rewrite upd_at_ne by congruence]; unfold zlen in *; cbn in *; lia.
Qed.
Lemma finish_hist q acc fin p b : hist q acc [p] fin → hist q acc [] (fin ++ [(p, b)]).
Proof.
  intros H. split; [apply H| |apply H|].
  - intros c. rewrite (hi_fifo _ _ _ _ H), list.fmap_app, of_band_app. cbn. by rewrite <-(assoc (++)).
  - intros c. pose proof (hi_bound _ _ _ _ H c) as Hc. unfold zlen in *. cbn. lia.
Qed.
Lemma runner_hand σ t : locks σ → isRun (ps_thr σ t) = true → qrunning σ = Some t ∧ handl σ = hand (ps_thr σ t).
Proof. intros L H%(lk_r _ L). unfold handl. by rewrite H. Qed.
Lemma hand_short σ : zlen (handl σ) ≤ 1.
Proof. unfold handl. destruct (qrunning σ) as [t|]; [|done]. by destruct (ps_thr σ t). Qed.
Lemma hand_other σ σ' t : locks σ → isRun (ps_thr σ t) = false → (∀ u, u ≠ t → ps_thr σ' u = ps_thr σ u) → qrunning σ' = qrunning σ → handl σ' = handl σ.
Proof. intros L Hn Ho Hr. unfold handl. rewrite Hr. destruct (qrunning σ) as [r|] eqn:E; [|done]. rewrite Ho; [done|]. intros ->. apply (lk_r _ L) in E. congruence. Qed.
Lemma hist_same σ σ' : hist_inv σ → ps_q σ' = ps_q σ → accepted σ' = accepted σ → finished σ' = finished σ → handl σ' = handl σ → hist_inv σ'.
Proof. unfold hist_inv. by intros H -> -> -> ->. Qed.
Ltac hother L H E := lazymatch type of E with ps_thr ?s ?t = _ => apply (hist_same s _ H); [done|done|done|]; apply (hand_other _ _ t L); [by rewrite E|intros ? ?; pun; by rewrite ?upd_at_ne|done] end.
Ltac hrun L H E := lazymatch type of E with ps_thr ?s ?t = _ => let Hr := fresh "Hr" in let Hh := fresh "Hh" in destruct (runner_hand s t L ltac:(by rewrite E)) as [Hr Hh]; apply (hist_same s _ H); [done|done|done|]; rewrite Hh, E; unfold handl; pun; rewrite ?Hr, ?upd_at_eq; done end.
Lemma hist_xmit σ t σ' : locks σ → hist_inv σ → dev_queue_xmit tx_queue_len t σ = Some σ' → hist_inv σ'.
Proof.
  intros L H. unfold dev_queue_xmit, take_qlock. destruct (ps_thr σ t) eqn:E; try done.
  - destruct (queue_lock σ); [done|]. intros [= <-]. hother L H E.
  - destruct (pfifo_fast_enqueue tx_queue_len p (ps_q σ)) as [ok q] eqn:Ee. intros [= <-]. unfold hist_inv. pun.
    rewrite (hand_other σ _ t L); [|by rewrite E|intros ? ?; pun; by rewrite ?upd_at_ne|done]. eapply enqueue_hist; [exact H|apply hand_short|exact Ee].
Qed.
Lemma hist_run σ t σ' : locks σ → hist_inv σ → __qdisc_run t σ = Some σ' → hist_inv σ'.
Proof.
  intros L H. unfold __qdisc_run. destruct (ps_thr σ t) eqn:E; try done; intros [= <-].
  - destruct (xoff σ); hother L H E.
  - destruct (qrunning σ) eqn:Er; [hother L H E|]. apply (hist_same σ _ H); try done. unfold handl. pun. by rewrite Er, upd_at_eq.
  - destruct (xoff σ); hrun L H E.
  - hrun L H E.
  - hother L H E.
Qed.
Lemma hist_schedule σ t at_ done_ s : locks σ → hist_inv σ → (isRun (ps_thr σ t) = false ∨ hand (ps_thr σ t) = [] ∧ (∀ s, hand (at_ s) = []) ∧ hand done_ = []) → hist_inv (__netif_schedule t at_ done_ s σ).
Proof.
  intros L H Hc. unfold __netif_schedule. assert (Hh : ∀ pc s, (∃ x, pc = at_ x) ∨ pc = done_ → qrunning s = qrunning σ → ps_thr s = ps_thr σ → handl (p_at t pc s) = handl σ).
  { intros pc s0 Hp Hr Ht. destruct Hc as [Hc|(H1 & H2 & H3)]; [apply (hand_other _ _ t L Hc); [intros ? ?; pun; by rewrite upd_at_ne, Ht|done]|].
    unfold handl. pun. rewrite Hr, Ht. destruct (qrunning σ) as [r|]; [|done]. unfold upd_at. destruct (decide (r = t)) as [->|]; [|done]. rewrite H1. by destruct Hp as [[x ->] | ->]. }
  destruct s; [destruct (sched σ)|..]; (apply (hist_same σ _ H); [done|done|done|]); apply Hh; eauto.
Qed.
Lemma hist_restart σ t r b σ' : locks σ → hist_inv σ → qdisc_restart cpu nolock t r b σ = Some σ' → hist_inv σ'.
Proof.
  intros L H. unfold qdisc_restart, take_qlock. destruct (ps_thr σ t) eqn:E; try done.
  - destruct (runner_hand σ t L ltac:(by rewrite E)) as [Hr Hh]. rewrite E in Hh. unfold hist_inv in H. rewrite Hh in H. destruct (pfifo_fast_dequeue (ps_q σ)) as [[p|] q] eqn:Ed; intros [= <-]; unfold hist_inv, handl; pun; rewrite Hr, upd_at_eq.
    + destruct nolock; by eapply dequeue_hist.
    + by apply dequeue_from_none in Ed as [-> _].
  - destruct (xmit_lock σ); intros [= <-]; hrun L H E.
  - destruct (_ =? _); intros [= <-]; [|hrun L H E]. destruct (runner_hand σ t L ltac:(by rewrite E)) as [Hr Hh]. rewrite E in Hh. unfold hist_inv in *. rewrite Hh in H. unfold handl. pun. rewrite Hr, upd_at_eq. by apply finish_hist.
  - intros [= <-]. hrun L H E.
  - intros [= <-]. hrun L H E.
  - destruct (xoff σ), nolock; intros [= <-]; hrun L H E.
  - destruct (runner_hand σ t L ltac:(by rewrite E)) as [Hr Hh]. rewrite E in Hh. intros [= <-]. unfold hist_inv in *. rewrite Hh in H. destruct b, r, nolock; unfold handl; pun; rewrite Hr, upd_at_eq; first [done|by apply finish_hist].
  - intros [= <-]. hrun L H E.
  - intros [= <-]. hrun L H E.
  - destruct (queue_lock σ); [done|]. intros [= <-]. hrun L H E.
  - destruct (queue_lock σ); [done|]. intros [= <-]. hrun L H E.
  - intros [= <-]. hrun L H E.
  - intros [= <-]. hrun L H E.
  - destruct (queue_lock σ); [done|]. intros [= <-]. hrun L H E.
  - destruct (runner_hand σ t L ltac:(by rewrite E)) as [Hr Hh]. rewrite E in Hh. intros [= <-]. unfold hist_inv in *. rewrite Hh in H. unfold handl. pun. rewrite Hr, upd_at_eq. by apply requeue_hist.
  - destruct (xoff σ); intros [= <-]; hrun L H E.
  - intros [= <-]. apply hist_schedule; [done|done|]. rewrite E. auto.
Qed.
Lemma hist_p_step σ σ' : locks σ → hist_inv σ → p_step tx_queue_len cpu nolock σ σ' → hist_inv σ'.
Proof.
  intros L H. inversion 1 as [? t p E|? E|? t E|? t E|?|? t ? E|? t ? E|? t r b ? E|? t ? E|? t ? E|? t ? E]; subst.
  - hother L H E.
  - hother L H E.
  - hother L H E.
  - hother L H E.
  - done.
  - by eapply hist_xmit.
  - by eapply hist_run.
  - by eapply hist_restart.
  - unfold net_tx_action in E. destruct (ps_thr σ t) eqn:Et; try done; simplify_eq; try (repeat case_match; by hother L H Et). apply hist_schedule; [done|done|]. rewrite Et. auto.
  - unfold netif_wake_queue in E. destruct (ps_thr σ t) eqn:Et; try done; simplify_eq; try (repeat case_match; by hother L H Et). apply hist_schedule; [done|done|]. rewrite Et. auto.
  - unfold netif_tx_locked in E. destruct (ps_thr σ t) eqn:Et; try done; repeat case_match; simplify_eq; hother L H Et.
Qed.
(** ** No packet is left behind *)

(** Threads that are going to run the queue or to put the device on the list *)
Definition act (pc : ppc) : bool :=
  match pc with
  | QTest | QSet | SNext | SClear | STry | SSchedTest | SSched (NTest | NNext | NOut) | WSched (NTest | NNext | NOut) => true
  | QSched NRaise | QClear => false
  | pc => isRun pc
  end.
(** Threads that have set the bit of [__netif_schedule] and not yet put the device on the list, or have taken it from there and are about to clear the bit *)
Definition adding (pc : ppc) : bool := match pc with QSched (NNext | NOut) | SSched (NNext | NOut) | WSched (NNext | NOut) | SNext | SClear => true | _ => false end.
(** The code of [net_tx_action], which only the softirq thread runs *)
Definition in_tx (pc : ppc) : bool := match pc with STest | SHead | SNull | SNext | SClear | STry | SSchedTest | SSched _ => true | _ => false end.
(** The bit SCHED stands for the right to change the list: who has set it is the only one to put the device there, and while it is there only the softirq thread takes it off. *)
Definition head_ok (pc : ppc) (o h : bool) : Prop := match pc with SHead => o = true ∧ h = false | SNull => o = true ∧ h = true | SNext => h = true | _ => h = false end.
Definition holder (σ : pstate) (o : option nat) : Prop := owned adding (ps_thr σ) o ∧ match o with Some _ => sched σ = true ∧ outq σ = false | None => sched σ = outq σ end.
Record listed (σ : pstate) : Prop := {
  ls_holder : ∃ o, holder σ o;
  ls_tx : ∀ t, in_tx (ps_thr σ t) = true → t = 0%nat;
  ls_next : nexts σ = false;
  ls_head : head_ok (ps_thr σ 0%nat) (outq σ) (tx_head σ)
}.
Lemma listed_step σ σ' t o o' : listed σ → holder σ o → (∀ u, u ≠ t → ps_thr σ' u = ps_thr σ u) → own_change t (adding (ps_thr σ t)) (adding (ps_thr σ' t)) o o' →
  match o' with Some _ => sched σ' = true ∧ outq σ' = false | None => sched σ' = outq σ' end → (in_tx (ps_thr σ' t) = true → t = 0%nat) → nexts σ' = false →
  (t = 0%nat → head_ok (ps_thr σ' t) (outq σ') (tx_head σ')) → (t ≠ 0%nat → tx_head σ' = tx_head σ ∧ (outq σ = true → outq σ' = true)) → listed σ'.
Proof.
  intros T [Hw _] Ho Hc Hm Ht Hn H0 H1. split; [exists o'; split; [by eapply owned_step|done]| |done|].
  - intros u. destruct (decide (u = t)) as [->|N]; [done|]. rewrite Ho by done. apply T.
  - destruct (decide (t = 0%nat)) as [->|N]; [by apply H0|]. destruct (H1 N) as [-> Hq]. rewrite Ho by done. pose proof (ls_head _ T) as Hh. destruct (ps_thr σ 0%nat); cbn in *; naive_solver.
Qed.
(** A thread that does not touch the list and the bit *)
Lemma listed_silent σ σ' t : listed σ → (∀ u, u ≠ t → ps_thr σ' u = ps_thr σ u) → sched σ' = sched σ → outq σ' = outq σ → nexts σ' = nexts σ → tx_head σ' = tx_head σ →
  adding (ps_thr σ' t) = adding (ps_thr σ t) → (in_tx (ps_thr σ' t) = true → t = 0%nat) → (t = 0%nat → head_ok (ps_thr σ t) (outq σ) (tx_head σ) → head_ok (ps_thr σ' t) (outq σ) (tx_head σ)) → listed σ'.
Proof.
  intros T Ho E1 E2 E3 E4 Ea Ht Hh. pose proof (ls_holder _ T) as [o Hw]. eapply (listed_step σ σ' t o o T Hw Ho); rewrite ?E1, ?E2, ?E3, ?E4; [left; auto|apply Hw|done|apply T| |auto]. intros ->. apply Hh; [done|apply T].
Qed.
Ltac tsil T E := lazymatch type of E with ps_thr ?s ?t = _ => eapply (listed_silent s _ t T) end; pun; rewrite ?upd_at_eq, ?E; cbn; [intros ? ?; by rewrite ?upd_at_ne|try done..].
Lemma listed_schedule σ t at_ done_ s : listed σ → ps_thr σ t = at_ s → (∀ s, adding (at_ s) = match s with NNext | NOut => true | _ => false end) → adding done_ = false → (in_tx done_ = true → t = 0%nat) → (∀ s, in_tx (at_ s) = in_tx (at_ NTest)) →
  (∀ s o h, head_ok (at_ s) o h = (h = false)) → (∀ o h, head_ok done_ o h = (h = false)) → listed (__netif_schedule t at_ done_ s σ).
Proof.
  intros T E Ha Hd Hi Hx Hh Hk. pose proof (ls_holder _ T) as [o [Hw Hm]]. pose proof (Hw t) as Ht. rewrite E, Ha in Ht.
  assert (Hz : t = 0%nat → tx_head σ = false). { intros ->. pose proof (ls_head _ T) as H. by rewrite E, Hh in H. }
  assert (Hy : ∀ s, in_tx (at_ s) = true → t = 0%nat). { intros s'. rewrite Hx, <-(Hx s), <-E. apply T. }
  assert (Hs : ∀ u pc, u ≠ t → upd_at t (λ _, pc) (ps_thr σ) u = ps_thr σ u) by (intros; by rewrite upd_at_ne).
  destruct s; cbn [__netif_schedule].
  - destruct (sched σ) eqn:Es; [eapply (listed_silent σ _ t T); pun; rewrite ?upd_at_eq, ?Hk, ?E, ?Ha, ?Hd; auto|].
    assert (o = None) as -> by (by destruct o as [?|]; [destruct Hm|]). assert (Hw0 : holder σ None) by (split; [done|congruence]). eapply (listed_step σ _ t None (Some t) T Hw0); pun; rewrite ?upd_at_eq, ?Hh, ?E, ?Ha; try done; eauto; apply T.
  - destruct Ht as [Ht _]. rewrite (Ht eq_refl) in *. assert (Hw0 : holder σ (Some t)) by done. destruct Hm as [Hm1 Hm2]. eapply (listed_step σ _ t (Some t) (Some t) T Hw0); pun; rewrite ?upd_at_eq, ?Hh, ?E, ?Ha, ?Hm2; try done; eauto.
  - destruct Ht as [Ht _]. rewrite (Ht eq_refl) in *. assert (Hw0 : holder σ (Some t)) by done. destruct Hm as [Hm1 Hm2]. eapply (listed_step σ _ t (Some t) None T Hw0); pun; rewrite ?upd_at_eq, ?Hh, ?E, ?Ha; try done; eauto; apply T.
  - eapply (listed_silent σ _ t T); pun; rewrite ?upd_at_eq, ?Hk, ?E, ?Ha, ?Hd; auto.
Qed.
Definition waiting (q : qdisc) : Prop := ∃ b, (b < 3)%nat ∧ q_band q b ≠ [].
Record live (σ : pstate) : Prop := {
  lv_run : waiting (ps_q σ) → xoff σ = true ∨ outq σ = true ∨ ∃ t, act (ps_thr σ t) = true;
  lv_sched : sched σ = true → outq σ = true ∨ ∃ t, adding (ps_thr σ t) = true
}.
Lemma adding_act pc : adding pc = true → act pc = true.
Proof. by destruct pc as [| | | | | | | | | | | | | | | | | | | | |[]| | | | | | | | | | |[]| |[]| | | |]. Qed.
Lemma listed_tx σ t σ' : listed σ → net_tx_action t σ = Some σ' → listed σ'.
Proof.
  intros T. unfold net_tx_action. destruct (ps_thr σ t) eqn:E; try done; intros [= <-]; (assert (t = 0%nat) as -> by (apply (ls_tx _ T); by rewrite E)); pose proof (ls_head _ T) as Hh; rewrite E in Hh; cbn in Hh.
  - destruct (outq σ) eqn:Eq; tsil T E.
  - destruct Hh as [Hq Hh], (ls_holder _ T) as [o Hw]. eapply (listed_step σ _ 0 o o T Hw); pun; rewrite ?upd_at_eq, ?E, ?Hq; cbn; [intros ? ?; by rewrite ?upd_at_ne|by left| |done|apply T|by auto|done]. destruct Hw as [_ Hm]. by rewrite Hq in Hm.
  - destruct Hh as [Hq Hh], (ls_holder _ T) as [o Hw]. pose proof Hw as [_ Hm]. rewrite Hq in Hm. destruct o as [?|]; [by destruct Hm|]. unfold tx_while. rewrite Hh.
    eapply (listed_step σ _ 0 None (Some 0%nat) T Hw); pun; rewrite ?upd_at_eq, ?E; cbn; [intros ? ?; by rewrite ?upd_at_ne|by auto|done|done|apply T|done|done].
  - destruct (ls_holder _ T) as [o Hw]. pose proof Hw as [_ Hm]. eapply (listed_step σ _ 0 o o T Hw); pun; rewrite ?upd_at_eq, ?E; cbn; [intros ? ?; by rewrite ?upd_at_ne|by left|done|done|apply T|intros _; apply T|done].
  - destruct (ls_holder _ T) as [o Hw]. pose proof Hw as [Ho Hm]. assert (o = Some 0%nat) as -> by (apply Ho; by rewrite E). destruct Hm as [_ Hm].
    eapply (listed_step σ _ 0 (Some 0%nat) None T Hw); pun; rewrite ?upd_at_eq, ?E; cbn; [intros ? ?; by rewrite ?upd_at_ne|by auto|done|done|apply T|done|done].
  - destruct (queue_lock σ); tsil T E.
  - unfold tx_while. rewrite Hh. destruct (xoff σ); tsil T E.
  - unfold tx_while. rewrite Hh. by apply listed_schedule.
Qed.
Lemma listed_p_step σ σ' : listed σ → p_step tx_queue_len cpu nolock σ σ' → listed σ'.
Proof.
  intros T. inversion 1 as [? t p E|? E|? t E|? t E|?|? t ? E|? t ? E|? t r b ? E|? t ? E|? t ? E|? t ? E]; subst.
  - tsil T E.
  - tsil T E.
  - tsil T E.
  - tsil T E.
  - destruct T as [H1 H2 H3 H4]. by split.
  - unfold dev_queue_xmit, take_qlock in E. destruct (ps_thr σ t) eqn:Et; try done; repeat case_match; simplify_eq; tsil T Et.
  - unfold __qdisc_run in E. destruct (ps_thr σ t) eqn:Et; try done; simplify_eq; try (by repeat case_match; tsil T Et).
    assert (Hw : tx_while t σ = PIdle). { unfold tx_while. destruct (Nat.eqb_spec t 0) as [->|]; [|done]. pose proof (ls_head _ T) as Hh. rewrite Et in Hh. cbn in Hh. by rewrite Hh. } rewrite Hw. tsil T Et.
  - unfold qdisc_restart, take_qlock in E. destruct (ps_thr σ t) eqn:Et; try done; try (by repeat case_match; simplify_eq; tsil T Et). simplify_eq. by apply listed_schedule.
  - by eapply listed_tx.
  - unfold netif_wake_queue in E. destruct (ps_thr σ t) eqn:Et; try done; simplify_eq; try (by repeat case_match; tsil T Et). by apply listed_schedule.
  - unfold netif_tx_locked in E. destruct (ps_thr σ t) eqn:Et; try done; repeat case_match; simplify_eq; tsil T Et.
Qed.
(** A step of thread [t]: either it goes on to do something, or it had nothing to do, or there is a reason to leave. *)
Lemma live_step σ σ' t : live σ → (∀ u, u ≠ t → ps_thr σ' u = ps_thr σ u) →
  (act (ps_thr σ' t) = true ∨
   (act (ps_thr σ t) = false ∧ ps_q σ' = ps_q σ ∧ (xoff σ = true → xoff σ' = true) ∧ (outq σ = true → outq σ' = true)) ∨
   (waiting (ps_q σ') → xoff σ' = true ∨ outq σ' = true ∨ ∃ u, u ≠ t ∧ act (ps_thr σ u) = true)) →
  (sched σ' = false ∨ adding (ps_thr σ' t) = true ∨ outq σ' = true ∨ (sched σ' = sched σ ∧ outq σ' = outq σ ∧ adding (ps_thr σ t) = false)) → live σ'.
Proof.
  intros [H1 H2] Ho Ha Hs. split.
  - intros Hw. destruct Ha as [Ha|[(Ha & Eq & Hx & Hq)|Ha]]; [eauto| |].
    + rewrite Eq in Hw. destruct (H1 Hw) as [?|[?|[u Hu]]]; [auto|auto|]. right; right. exists u. rewrite Ho; [done|]. intros ->. congruence.
    + destruct (Ha Hw) as [?|[?|(u & Hu & Hau)]]; [auto|auto|]. right; right. exists u. by rewrite Ho.
  - intros Hb. destruct Hs as [Hs|[Hs|[Hs|(Es & Eq & Hn)]]]; [congruence|eauto|auto|]. rewrite Es in Hb. rewrite Eq. destruct (H2 Hb) as [?|[u Hu]]; [auto|]. right. exists u. rewrite Ho; [done|]. intros ->. congruence.
Qed.
Ltac vstep V E := lazymatch type of E with ps_thr ?s ?t = _ => eapply (live_step s _ t V) end; pun; rewrite ?upd_at_eq, ?E; cbn; [intros ? ?; by rewrite ?upd_at_ne| |]; try (by auto 7).
Lemma live_schedule σ t at_ done_ s : live σ → ps_thr σ t = at_ s → (∀ s, adding (at_ s) = match s with NNext | NOut => true | _ => false end) → act (at_ NRaise) = false → live (__netif_schedule t at_ done_ s σ).
Proof.
  intros V E Ha Hr. assert (Hx : act (at_ NNext) = true ∧ act (at_ NOut) = true) by (split; apply adding_act, Ha). destruct Hx as [Hx Hy].
  destruct s; cbn [__netif_schedule]; [destruct (sched σ) eqn:Es|..]; (eapply (live_step σ _ t V); pun; rewrite ?upd_at_eq, ?E, ?Ha; [intros ? ?; by rewrite ?upd_at_ne|auto 7|auto 7]).
  right; right. intros _. destruct (lv_sched _ V Es) as [?|[u Hu]]; [auto|]. right; right. exists u. split; [intros ->; rewrite E, Ha in Hu; done|by apply adding_act].
Qed.
Lemma live_run σ t σ' : locks σ → live σ → __qdisc_run t σ = Some σ' → live σ'.
Proof.
  intros L V. unfold __qdisc_run. destruct (ps_thr σ t) eqn:E; try done; intros [= <-].
  - destruct (xoff σ) eqn:Ex; vstep V E.
  - destruct (qrunning σ) as [r|] eqn:Er; vstep V E. right; right. intros _. right; right. exists r. apply (lk_r _ L) in Er as Hr. split; [intros ->; by rewrite E in Hr|].
    destruct (ps_thr σ r) as [| | | | | | | | | | | | | | | | | | | | |[]| | | | | | | | | | |[]| |[]| | | |] eqn:Ep; try done; exfalso; assert (H1 : queue_lock σ = Some r) by (apply (lk_q _ L); by rewrite Ep); assert (H2 : queue_lock σ = Some t) by (apply (lk_q _ L); by rewrite E); congruence.
  - destruct (xoff σ) eqn:Ex; vstep V E.
  - vstep V E.
  - destruct (tx_while_cases t σ) as [-> | ->]; vstep V E.
Qed.
Lemma live_restart σ t r b σ' : live σ → qdisc_restart cpu nolock t r b σ = Some σ' → live σ'.
Proof.
  intros V. unfold qdisc_restart, take_qlock. destruct (ps_thr σ t) eqn:E; try done.
  - destruct (pfifo_fast_dequeue (ps_q σ)) as [[p|] q] eqn:Ed; intros [= <-]; [destruct nolock; vstep V E|]. apply dequeue_from_none in Ed as [-> He]. vstep V E.
    right; right. intros (c & Hc & Hn). destruct Hn. apply He. destruct c as [|[|[|c]]]; [set_solver..|lia].
  - destruct (xmit_lock σ); intros [= <-]; vstep V E.
  - destruct (_ =? _); intros [= <-]; vstep V E.
  - intros [= <-]. vstep V E.
  - intros [= <-]. vstep V E.
  - destruct (xoff σ), nolock; intros [= <-]; vstep V E.
  - destruct b, r, nolock; intros [= <-]; vstep V E.
  - intros [= <-]. vstep V E.
  - intros [= <-]. vstep V E.
  - destruct (queue_lock σ); [done|]. intros [= <-]. vstep V E.
  - destruct (queue_lock σ); [done|]. intros [= <-]. vstep V E.
  - intros [= <-]. vstep V E.
  - intros [= <-]. vstep V E.
  - destruct (queue_lock σ); [done|]. intros [= <-]. vstep V E.
  - intros [= <-]. vstep V E.
  - destruct (xoff σ) eqn:Ex; intros [= <-]; vstep V E.
  - intros [= <-]. by apply live_schedule.
Qed.
Lemma live_p_step σ σ' : locks σ → listed σ → live σ → p_step tx_queue_len cpu nolock σ σ' → live σ'.
Proof.
  intros L T V. inversion 1 as [? t p E|? E|? t E|? t E|?|? t ? E|? t ? E|? t r b ? E|? t ? E|? t ? E|? t ? E]; subst.
  - vstep V E.
  - vstep V E.
  - vstep V E.
  - vstep V E.
  - destruct V as [V1 V2]. split; cbn; auto.
  - unfold dev_queue_xmit, take_qlock in E. destruct (ps_thr σ t) eqn:Et; try done.
    + destruct (queue_lock σ); simplify_eq. vstep V Et.
    + destruct (pfifo_fast_enqueue tx_queue_len p (ps_q σ)). simplify_eq. vstep V Et.
  - by eapply live_run.
  - by eapply live_restart.
  - unfold net_tx_action in E. destruct (ps_thr σ t) eqn:Et; try done; simplify_eq.
    + destruct (outq σ) eqn:Eq; vstep V Et.
    + vstep V Et.
    + assert (t = 0%nat) as -> by (apply (ls_tx _ T); by rewrite Et). pose proof (ls_head _ T) as Hh. rewrite Et in Hh. destruct Hh as [_ Hh]. unfold tx_while. rewrite Hh. vstep V Et.
    + vstep V Et.
    + vstep V Et.
    + destruct (queue_lock σ); vstep V Et.
    + destruct (xoff σ) eqn:Ex; [destruct (tx_while_cases t σ) as [-> | ->]|]; vstep V Et.
    + by apply live_schedule.
  - unfold netif_wake_queue in E. destruct (ps_thr σ t) eqn:Et; try done; simplify_eq.
    + destruct (xoff σ) eqn:Ex; vstep V Et.
    + by apply live_schedule.
  - unfold netif_tx_locked in E. destruct (ps_thr σ t) eqn:Et; try done; repeat case_match; simplify_eq; vstep V Et.
Qed.
(** ** Every run *)

(** Every thread on a processor of its own: then no packet is freed because of a collision. *)
Definition own_cpu : Prop := (∀ t, 0 ≤ cpu t) ∧ ∀ t u, cpu t = cpu u → t = u.
Lemma no_dead_loop σ t p : own_cpu → locks σ → ps_thr σ t = QOwner p → xmit_lock_owner σ ≠ cpu t.
Proof.
  intros [Hp Hi] L E Eo. specialize (Hp t). destruct (lk_o _ L) as [?|(u & Hu & Ecpu)]; [lia|]. assert (u = t) as -> by (apply Hi; congruence). by rewrite E in Hu.
Qed.
Definition all_sent (σ : pstate) : Prop := ∀ x, x ∈ finished σ → snd x = true.
Lemma all_sent_step σ σ' : own_cpu → locks σ → all_sent σ → p_step tx_queue_len cpu nolock σ σ' → all_sent σ'.
Proof.
  intros Hc L Hs. inversion 1 as [? t p E|? E|? t E|? t E|?|? t ? E|? t ? E|? t r b ? E|? t ? E|? t ? E|? t ? E]; subst; try done.
  - unfold dev_queue_xmit, take_qlock in E. by repeat case_match; simplify_eq.
  - unfold __qdisc_run in E. by repeat case_match; simplify_eq.
  - unfold qdisc_restart, take_qlock, __netif_schedule in E. destruct (ps_thr σ t) eqn:Et; try done; try (repeat case_match; simplify_eq; done).
    + destruct (Z.eqb_spec (xmit_lock_owner σ) (cpu t)) as [Ec|Ec]; [by destruct (no_dead_loop σ t p Hc L Et)|by simplify_eq].
    + destruct b, r, nolock; simplify_eq; unfold all_sent; pun; intros x; try (by apply Hs); intros [?| ->%list_elem_of_singleton]%elem_of_app; first [done|by apply Hs].
  - unfold net_tx_action, __netif_schedule in E. by repeat case_match; simplify_eq.
  - unfold netif_wake_queue, __netif_schedule in E. by repeat case_match; simplify_eq.
  - unfold netif_tx_locked in E. by repeat case_match; simplify_eq.
Qed.
Lemma p_reach σ : 0 ≤ tx_queue_len → rtc (p_step tx_queue_len cpu nolock) p_init σ → locks σ ∧ hist_inv σ ∧ listed σ ∧ live σ ∧ (own_cpu → all_sent σ).
Proof.
  intros Hq. assert (I0 : locks p_init ∧ hist_inv p_init ∧ listed p_init ∧ live p_init ∧ (own_cpu → all_sent p_init)).
  { split; [split; cbn; try done; by left|]. split; [split; cbn; [intros b x; set_solver|done|done|intros b; unfold zlen, of_band; cbn; lia]|]. split; [split; try done; by exists None|]. split; [split; cbn; [|done]|intros _ x; cbn; set_solver]. intros (b & _ & Hb). by destruct Hb. }
  intros Hr. revert I0. induction Hr as [|σ1 σ2 σ3 Hs _ IH]; [done|]. intros (L & H & T & V & A). apply IH. split; [by eapply locks_p_step|]. split; [by eapply hist_p_step|]. split; [by eapply listed_p_step|]. split; [by eapply live_p_step|]. intros Hc. eapply all_sent_step; eauto.
Qed.
End Inv.

(** C38: the queue of a device: in every interleaving of sending threads, the softirq, interrupts and timers, the packets of a band leave it in the order in which they came in, none is lost or doubled in the queue or on its way to the driver and back;
    a band holds at most one packet more than [tx_queue_len], and [qlen] counts the packets.  Where every thread has a processor number of its own, every packet that left has been given to the driver. *)
Theorem packets_in_order tx_queue_len cpu nolock σ : 0 ≤ tx_queue_len → rtc (p_step tx_queue_len cpu nolock) p_init σ →
  (∀ b, of_band b (accepted σ) = of_band b (fst <$> finished σ) ++ of_band b (handl σ) ++ q_band (ps_q σ) b) ∧
  (∀ b, Z.of_nat (length (q_band (ps_q σ) b)) ≤ tx_queue_len + 1) ∧
  q_len (ps_q σ) = Z.of_nat (length (q_band (ps_q σ) 0) + length (q_band (ps_q σ) 1) + length (q_band (ps_q σ) 2)) ∧
  (own_cpu cpu → ∀ x, x ∈ finished σ → snd x = true).
Proof.
  intros Hq (_ & H & _ & _ & A)%p_reach; [|done]. split; [apply H|]. split; [|split; [|done]].
  - intros b. pose proof (hi_bound _ _ _ _ _ H b). unfold zlen in *. lia.
  - rewrite (hi_len _ _ _ _ _ H). unfold zlen. lia.
Qed.
(** C39: no packet is left without anyone to attend to it, for one device, in every interleaving of the single accesses: as long as packets are in the queue, either the driver has stopped it, or the device is on [sd->output_queue], the list that
    the transmit softirq works off, or a thread is transmitting, about to run the queue, or about to put the device on the list; the thread that is transmitting is the only one; and though nothing keeps
    other threads out of the list, the bit SCHED does for a single device: what has set it is the only one to put the device there, nobody does while it is there, and it never follows itself.
    This is not that the softirq then runs: a raise of it may be lost, and with several devices one may be lost from the list, as is shown below. *)
Theorem packets_not_stuck tx_queue_len cpu nolock σ : 0 ≤ tx_queue_len → rtc (p_step tx_queue_len cpu nolock) p_init σ →
  (0 < q_len (ps_q σ) → xoff σ = true ∨ outq σ = true ∨ ∃ t, act (ps_thr σ t) = true) ∧
  (∀ t u, isRun (ps_thr σ t) = true → isRun (ps_thr σ u) = true → t = u) ∧
  (outq σ = true → sched σ = true ∧ ∀ t, adding (ps_thr σ t) = false) ∧ (∀ t u, adding (ps_thr σ t) = true → adding (ps_thr σ u) = true → t = u) ∧ nexts σ = false.
Proof.
  intros Hq (L & H & T & V & _)%p_reach; [|done]. split; [|split].
  - intros Hl. apply (lv_run _ V). rewrite (hi_len _ _ _ _ _ H) in Hl. unfold waiting.
    destruct (q_band (ps_q σ) 0) eqn:E0; [|exists 0%nat; rewrite E0; split; [lia|done]]. destruct (q_band (ps_q σ) 1) eqn:E1; [|exists 1%nat; rewrite E1; split; [lia|done]]. destruct (q_band (ps_q σ) 2) eqn:E2; [unfold zlen in Hl; cbn in Hl; lia|exists 2%nat; rewrite E2; split; [lia|done]].
  - intros t u Ht%(lk_r _ _ _ L) Hu%(lk_r _ _ _ L). congruence.
  - destruct (ls_holder _ T) as (o & Ho & Hm). split; [|split; [|apply T]].
    + intros Eq. rewrite Eq in Hm. destruct o as [?|]; [by destruct Hm|]. split; [done|]. intros t. destruct (adding (ps_thr σ t)) eqn:Ea; [|done]. by apply Ho in Ea.
    + intros t u Ht%Ho Hu%Ho. congruence.
Qed.

(** ** Schedules *)

Inductive pact := DoSend (t : nat) (p : pkt) | DoSoftirq | DoWake (t : nat) | DoTimer (t : nat) | DoStop | DoRun (t : nat) (r : tx_result) (stop : bool).
Section Exec.
Context (tx_queue_len : Z) (cpu : nat → Z) (nolock : bool).
Definition is_idle (pc : ppc) : bool := match pc with PIdle => true | _ => false end.
Definition run_thread (t : nat) (r : tx_result) (b : bool) (σ : pstate) : option pstate :=
  match dev_queue_xmit tx_queue_len t σ with Some s => Some s | None =>
  match __qdisc_run t σ with Some s => Some s | None =>
  match qdisc_restart cpu nolock t r b σ with Some s => Some s | None =>
  match net_tx_action t σ with Some s => Some s | None =>
  match netif_wake_queue t σ with Some s => Some s | None => netif_tx_locked cpu t σ end end end end end.
Definition pact_run (a : pact) (σ : pstate) : pstate :=
  match a with
  | DoSend t p => if is_idle (ps_thr σ t) then p_at t (XLock p) σ else σ
  | DoSoftirq => if is_idle (ps_thr σ 0%nat) then p_at 0 STest σ else σ
  | DoWake t => if is_idle (ps_thr σ t) then p_at t WClear σ else σ
  | DoTimer t => if is_idle (ps_thr σ t) then p_at t LLock σ else σ
  | DoStop => set_xoff true σ
  | DoRun t r b => default σ (run_thread t r b σ)
  end.
Fixpoint p_exec (l : list pact) (σ : pstate) : pstate := match l with [] => σ | a :: l => p_exec l (pact_run a σ) end.
Lemma idle_eq pc : is_idle pc = true → pc = PIdle.
Proof. by destruct pc. Qed.
Lemma p_exec_run l σ : rtc (p_step tx_queue_len cpu nolock) p_init σ → rtc (p_step tx_queue_len cpu nolock) p_init (p_exec l σ).
Proof.
  revert σ. induction l as [|a l IH]; intros σ Hr; cbn [p_exec]; [done|]. apply IH. destruct a as [t p| |t|t| |t r b]; cbn [pact_run].
  - destruct (is_idle _) eqn:E; [|done]. eapply rtc_r; [exact Hr|]. by apply PsSend, idle_eq.
  - destruct (is_idle _) eqn:E; [|done]. eapply rtc_r; [exact Hr|]. by apply PsSoftirq, idle_eq.
  - destruct (is_idle _) eqn:E; [|done]. eapply rtc_r; [exact Hr|]. by apply PsWake, idle_eq.
  - destruct (is_idle _) eqn:E; [|done]. eapply rtc_r; [exact Hr|]. by apply PsTimer, idle_eq.
  - eapply rtc_r; [exact Hr|]. apply PsStop.
  - destruct (run_thread t r b σ) as [s|] eqn:E; [|done]. cbn. eapply rtc_r; [exact Hr|]. unfold run_thread in E.
    destruct (dev_queue_xmit tx_queue_len t σ) eqn:E1; [simplify_eq; by eapply PsXmit|]. destruct (__qdisc_run t σ) eqn:E2; [simplify_eq; by eapply PsRun|].
    destruct (qdisc_restart cpu nolock t r b σ) eqn:E3; [simplify_eq; by eapply PsRestart|]. destruct (net_tx_action t σ) eqn:E4; [simplify_eq; by eapply PsTx|].
    destruct (netif_wake_queue t σ) eqn:E5; [simplify_eq; by eapply PsWakeRun|]. by eapply PsTimerRun.
Qed.
End Exec.
Definition runs (n t : nat) (r : tx_result) : list pact := replicate n (DoRun t r false).
(** Thread 1 sends a packet of band 2 and is refused by the driver, which stops the queue; thread 2 sends one of band 0. *)
Definition p_demo : pstate :=
  p_exec 10 Z.of_nat false ([DoSend 1 (Pkt 1 1)] ++ runs 9 1 NETDEV_TX_BUSY ++ [DoRun 1 NETDEV_TX_BUSY true] ++ runs 9 1 NETDEV_TX_BUSY ++ [DoSend 2 (Pkt 2 6)] ++ runs 4 2 NETDEV_TX_OK) p_init.
Lemma p_demo_reachable : rtc (p_step 10 Z.of_nat false) p_init p_demo.
Proof. apply p_exec_run, rtc_refl. Qed.
(** The queue is woken; the softirq then sends the packet of band 0 first. *)
Definition p_woken : pstate := p_exec 10 Z.of_nat false ([DoWake 3] ++ runs 5 3 NETDEV_TX_OK) p_demo.
Lemma p_woken_reachable : rtc (p_step 10 Z.of_nat false) p_init p_woken.
Proof. apply p_exec_run, p_demo_reachable. Qed.
Definition p_sent : pstate := p_exec 10 Z.of_nat false (DoSoftirq :: runs 45 0 NETDEV_TX_OK) p_woken.
Lemma p_sent_reachable : rtc (p_step 10 Z.of_nat false) p_init p_sent.
Proof. apply p_exec_run, p_woken_reachable. Qed.
Lemma packets_in_order_witness : finished p_sent = [(Pkt 2 6, true); (Pkt 1 1, true)] ∧
  (∀ b, of_band b (accepted p_sent) = of_band b (fst <$> finished p_sent) ++ of_band b (handl p_sent) ++ q_band (ps_q p_sent) b) ∧ ∀ x, x ∈ finished p_sent → snd x = true.
Proof.
  split; [vm_compute; reflexivity|]. assert (Hq : 0 ≤ 10) by lia. assert (Hc : own_cpu Z.of_nat) by (split; intros; lia).
  pose proof (packets_in_order 10 Z.of_nat false p_sent Hq p_sent_reachable) as (H1 & _ & _ & H4). exact (conj H1 (H4 Hc)).
Defined.
Lemma packets_not_stuck_witness : q_len (ps_q p_woken) = 2 ∧ xoff p_woken = false ∧ outq p_woken = true ∧ (xoff p_woken = true ∨ outq p_woken = true ∨ ∃ t, act (ps_thr p_woken t) = true).
Proof.
  do 3 (split; [vm_compute; reflexivity|]). assert (Hq : 0 ≤ 10) by lia. assert (Hl : 0 < q_len (ps_q p_woken)) by (vm_compute; reflexivity).
  exact (proj1 (packets_not_stuck 10 Z.of_nat false p_woken Hq p_woken_reachable) Hl).
Defined.

(** In the port [smp_processor_id] is 0 in every thread: when a timer has the lock of the driver, the thread that collides with it takes that for a recursion of its own and frees the packet, which was accepted. *)
Theorem collision_frees_packet : ∃ σ p, rtc (p_step 10 (λ _, 0) false) p_init σ ∧ accepted σ = [p] ∧ finished σ = [(p, false)] ∧ xmit_lock σ = Some 1%nat ∧ ps_thr σ 2%nat = QAgain.
Proof.
  exists (p_exec 10 (λ _, 0) false ([DoTimer 1] ++ runs 2 1 NETDEV_TX_OK ++ [DoSend 2 (Pkt 1 0)] ++ runs 7 2 NETDEV_TX_OK) p_init), (Pkt 1 0).
  split; [apply p_exec_run, rtc_refl|]. repeat split; vm_compute; reflexivity.
Qed.

(** ** Several devices on the output queue

    [__netif_schedule] and [net_tx_action] with the list [sd->output_queue]; disabled interrupts do not keep other threads out. *)

Inductive npc :=
| NIdle
| NsSet (d : nat)            (* !test_and_set_bit(__LINK_STATE_SCHED, &dev->state) *)
| NsNext (d : nat)           (* dev->next_sched = sd->output_queue *)
| NsHead (d : nat)           (* sd->output_queue = dev *)
| NtHead                     (* head = sd->output_queue *)
| NtNull (h : option nat)    (* sd->output_queue = NULL *)
| NtLoop (h : option nat).   (* while (head): clear_bit(__LINK_STATE_SCHED), the queue is run *)
Record softnet_data := Softnet { output_queue : option nat; next_sched : nat → option nat; dev_sched : nat → bool; sd_thr : nat → npc }.
Definition n_at (t : nat) (pc : npc) (s : softnet_data) : softnet_data := Softnet (output_queue s) (next_sched s) (dev_sched s) (upd_at t (λ _, pc) (sd_thr s)).
Definition netif_schedule_step (t : nat) (s : softnet_data) : option softnet_data :=
  match sd_thr s t with
  | NsSet d => Some (if dev_sched s d then n_at t NIdle s else n_at t (NsNext d) (Softnet (output_queue s) (next_sched s) (upd_at d (λ _, true) (dev_sched s)) (sd_thr s)))
  | NsNext d => Some (n_at t (NsHead d) (Softnet (output_queue s) (upd_at d (λ _, output_queue s) (next_sched s)) (dev_sched s) (sd_thr s)))
  | NsHead d => Some (n_at t NIdle (Softnet (Some d) (next_sched s) (dev_sched s) (sd_thr s)))
  | _ => None
  end.
Definition net_tx_action_step (t : nat) (s : softnet_data) : option softnet_data :=
  match sd_thr s t with
  | NtHead => Some (n_at t (NtNull (output_queue s)) s)
  | NtNull h => Some (n_at t (NtLoop h) (Softnet None (next_sched s) (dev_sched s) (sd_thr s)))
  | NtLoop None => Some (n_at t NIdle s)
  | NtLoop (Some d) => Some (n_at t (NtLoop (next_sched s d)) (Softnet (output_queue s) (next_sched s) (upd_at d (λ _, false) (dev_sched s)) (sd_thr s)))
  | _ => None
  end.
Inductive n_step : softnet_data → softnet_data → Prop :=
| NsCall s t d : sd_thr s t = NIdle → n_step s (n_at t (NsSet d) s)
| NsSoftirq s : sd_thr s 0%nat = NIdle → n_step s (n_at 0 NtHead s)
| NsStep s t s' : netif_schedule_step t s = Some s' → n_step s s'
| NsTx s t s' : net_tx_action_step t s = Some s' → n_step s s'.
Definition n_init : softnet_data := Softnet None (λ _, None) (λ _, false) (λ _, NIdle).
(** A device that is marked as scheduled, but that nothing leads to *)
Definition forgotten (d : nat) (s : softnet_data) : Prop :=
  dev_sched s d = true ∧ output_queue s ≠ Some d ∧ (∀ e, next_sched s e ≠ Some d) ∧ ∀ t, match sd_thr s t with NsNext e | NsHead e => e ≠ d | NtNull h | NtLoop h => h ≠ Some d | _ => True end.
Lemma forgotten_thread d s s' t : forgotten d s → (∀ u, u ≠ t → sd_thr s' u = sd_thr s u) → dev_sched s' d = true → output_queue s' ≠ Some d → (∀ e, next_sched s' e ≠ Some d) →
  (match sd_thr s' t with NsNext e | NsHead e => e ≠ d | NtNull h | NtLoop h => h ≠ Some d | _ => True end) → forgotten d s'.
Proof. intros (_ & _ & _ & H) Ho H1 H2 H3 H4. repeat split; [done..|]. intros u. destruct (decide (u = t)) as [->|N]; [done|]. rewrite Ho by done. apply H. Qed.
Lemma forgotten_step d s s' : forgotten d s → n_step s s' → forgotten d s'.
Proof.
  intros F. pose proof F as (F1 & F2 & F3 & F4). inversion 1 as [? t e E|? E|? t ? E|? t ? E]; subst.
  - apply (forgotten_thread d s _ t F); cbn; try done; [intros; by rewrite upd_at_ne|by rewrite upd_at_eq].
  - apply (forgotten_thread d s _ 0 F); cbn; try done. intros; by rewrite upd_at_ne.
  - unfold netif_schedule_step in E. pose proof (F4 t) as Ft. destruct (sd_thr s t) as [|e|e|e| |h|h] eqn:Et; try done; simplify_eq.
    + destruct (dev_sched s e) eqn:Ee; (apply (forgotten_thread d s _ t F); cbn; try done; [intros; by rewrite upd_at_ne|try rewrite upd_at_eq..]); try done; [rewrite upd_at_ne; [done|congruence]|congruence].
    + apply (forgotten_thread d s _ t F); cbn; try done; [intros; by rewrite upd_at_ne| |by rewrite upd_at_eq]. intros x. unfold upd_at. by case_decide.
    + apply (forgotten_thread d s _ t F); cbn; try done; [intros; by rewrite upd_at_ne|congruence|by rewrite upd_at_eq].
  - unfold net_tx_action_step in E. pose proof (F4 t) as Ft. destruct (sd_thr s t) as [|e|e|e| |h|[e|]] eqn:Et; try done; simplify_eq;
      (apply (forgotten_thread d s _ t F); cbn; try done; [intros; by rewrite upd_at_ne|..]); rewrite ?upd_at_eq; try done; try congruence; try apply F3. rewrite upd_at_ne; [done|congruence].
Qed.
(** Two threads schedule two devices at once: the second device is lost from the list with its bit set, and as that keeps it from being put there again, its queue is never run by the softirq any more, whatever happens. *)
Theorem scheduled_device_lost : ∃ s, rtc n_step n_init s ∧ (∀ t, sd_thr s t = NIdle) ∧ ∀ s', rtc n_step s s' → dev_sched s' 2%nat = true ∧ output_queue s' ≠ Some 2%nat ∧ ∀ t, sd_thr s' t ≠ NtLoop (Some 2%nat).
Proof.
  set (f := λ t s, default s (netif_schedule_step t s)).
  set (s := f 1%nat (f 2%nat (f 2%nat (f 2%nat (f 1%nat (f 1%nat (n_at 2 (NsSet 2) (n_at 1 (NsSet 1) n_init)))))))).
  assert (Hs : ∀ t x, rtc n_step n_init x → rtc n_step n_init (f t x)).
  { intros t x Hr. unfold f. destruct (netif_schedule_step t x) eqn:E; [|done]. eapply rtc_r; [exact Hr|by eapply NsStep]. }
  assert (Hi : ∀ t, sd_thr s t = NIdle) by (intros [|[|[|t]]]; reflexivity).
  exists s. split; [do 6 apply Hs; eapply rtc_l; [by apply (NsCall _ 1 1)|]; eapply rtc_l; [by apply (NsCall _ 2 2)|apply rtc_refl]|]. split; [done|].
  assert (F : forgotten 2 s). { split; [done|]. split; [done|]. split; [intros [|[|[|e]]]; done|]. intros t. by rewrite Hi. }
  intros s' Hr. assert (F' : forgotten 2 s') by (clear Hi; revert F; generalize s, s', Hr; clear; induction 1 as [|x y z H _ IH]; [done|]; intros F; apply IH; by eapply forgotten_step).
  destruct F' as (H1 & H2 & _ & H4). split; [done|]. split; [done|]. intros t E. specialize (H4 t). by rewrite E in H4.
Qed.
